(* ===== verification/_CoqProject ===== *)
-Q . S2P
Prelude.v
Ordering.v
Hash.v
Cbor.v
Fields.v
Ieee.v
FloatFacts.v
Ebcp.v
EbcpPayload.v
EbcpCorrect.v
BlockV1.v
CborRef.v
BlockV1Correct.v
BlockV2.v
BlockV2Correct.v
Store.v
StoreCorrect.v
MemoryStore.v
MemoryCorrect.v
OverlayStore.v
OverlayCorrect.v
Search.v
SearchCorrect.v
SearchPolicy.v
SearchPolicyCorrect.v
FsStore.v
FsCorrect.v
FsWalk.v
Clustering.v
MinCostFlow.v
DcbcSolver.v
FlowCorrect.v
DcbcSolverCorrect.v
Dcbc.v
DcbcCorrect.v
IndexTypes.v
IndexHierarchy.v
IndexHierarchyCorrect.v
IndexLayer.v
BranchEncoding.v
Indexer.v
IndexerFacts.v
AssemblyCorrect.v
SpillCorrect.v
IndexerCorrect.v
LifecycleCorrect.v
BranchEncodingCorrect.v
Pca.v
PcaCodec.v
PcaCorrect.v
PcaCodecCorrect.v
PcaWitness.v
PcaChunking.v
ChunkingCorrect.v
DpcaPlanner.v
DpcaPlan.v
DirectionalPca.v
CutCorrect.v
DpcaCells.v
DpcaTrainer.v
DpcaFinish.v
DpcaWitness.v
Adaptive.v
AdaptiveCorrect.v
AdaptiveWitness.v
LinearAlgebra.v
LinearAlgebraCorrect.v
SphericalKmeans.v
KmeansCorrect.v
KmeansTrainer.v
KmeansWitness.v
RedbStore.v
RedbCorrect.v
ZipStore.v
ZipCorrect.v
Planning.v
PlanningCorrect.v
Policies.v
PoliciesCorrect.v
PlanningWitness.v
