(* ===== verification/Prelude.v ===== *)
(** * LexonGraph: a verification library

    LexonGraph (crates/ in the source tree) stores graphs of embeddings as
    immutable, content-addressed blocks and searches them from a root block. This
    library models its core in Rocq and proves what makes it correct. Code outside
    the repository is a parameter: the CBOR codec (class [CborCodec], ciborium in the
    code, with the laws [CborLaws] that values are read back as written and [CborLayout]
    that an array or a map is written element by element), SHA-256 ([Sha256]), 16-bit floats
    ([HalfCrate]), the order in which a hash map enumerates its entries
    ([HashMapOrder], [CacheOrder]), the operations on files ([FsOps] with
    [FsLaws], the trait the code itself injects), the failures of temporary files
    ([LocalIo]), the functions ln, exp and powf ([LnF64], [FloatMath], [PowfF32]), the printing
    of floats ([ShowFloat]), the symmetric eigendecomposition ([SymmetricEigen],
    nalgebra, with [EigenShape] for the shape of its answer) and the graphics device
    ([Wgpu] with its float operations [WgslFloat] and the laws [WgpuRuns] that a dispatch
    runs every invocation once and panics exactly when the validation of the device
    refuses it, beyond the limits it was made with), the database library of the redb store ([RedbOps] with
    [RedbLaws]) and the files it is opened from ([HostFiles] with its laws), and the files
    and the archive library of the zip store ([ZipFile] with its laws, [ZipOps]). [CborRef]
    is a codec that satisfies the laws, [FsWalk] ends with a disk that satisfies the file laws. The
    indexer takes the fit of principal components as the interface [PcaFit]; the
    crate that provides it is modelled and is an instance ([pca_of_crate]).

    ** Parts

    - Prelude, Ordering, Hash, Fields, Ieee, FloatFacts: results with errors and panics, the
      comparisons and stable sorts of the source, identifiers, integer-keyed field
      maps, and IEEE-754 arithmetic on bit patterns with round to nearest even.
    - Cbor: values, canonical order of map entries, duplicate rejection
      (lexongraph-block/src/lib.rs, canonicalize_value and its callees).
    - Ebcp, EbcpPayload: the descriptor of compressed branch embeddings, its
      parser and printer, payload validation, bit extraction, dequantization and
      reconstruction (the same file). EbcpCorrect: the theorems.
    - BlockV1, BlockV2: normalization, serialization and parsing of blocks of both
      versions and the dispatch between them (lib.rs, v2.rs). BlockV1Correct,
      BlockV2Correct: canonical normal forms, round trips,
      soundness of decoding, uniqueness of accepted bytes.
    - Store: the store interface with its provided methods
      (lexongraph-block-store/src/lib.rs) as the class [BlockStore], and what a
      backend promises as the class [StoreLaws]. StoreCorrect proves the client
      side against the interface; the backends below discharge it.
    - MemoryStore, MemoryCorrect: the in-memory store
      (lexongraph-block-store-memory/src/lib.rs), refined by an abstract LRU list;
      its lock makes each operation one step, and interleavings are step lists.
    - OverlayStore, OverlayCorrect: layered stores
      (lexongraph-block-store-overlay/src/lib.rs): write fan-out, read priority
      with refill, enumeration without repetition.
    - FsStore, FsCorrect, FsWalk: the filesystem store
      (lexongraph-block-store-fs/src/lib.rs): paths, publication that never
      replaces a file, the byte budget of the cache mode and its start, and the
      walk over the directories.
    - Search, SearchCorrect: the frontier search
      (lexongraph-search/src/lib.rs, search_internal and what it calls) with its
      three policies as interfaces: termination, ranked results, truthful
      exhaustion, telemetry. SearchPolicy, SearchPolicyCorrect:
      the default policies and the published profiles, and a concrete search.
    - Clustering: the streaming clustering contract
      (lexongraph-streaming-clustering/src/lib.rs): configuration, errors, and the
      trainer and classifier traits as classes.
    - MinCostFlow: the residual graph, Bellman-Ford and augmentation
      of lexongraph-dcbc-streaming/src/solver.rs.
      DcbcSolver: the assignment subproblem as a flow network and the lexicographic
      search over it. FlowCorrect (the conservation of flow, the network),
      DcbcSolverCorrect. Dcbc, DcbcCorrect: the
      trainer and the classifier (src/lib.rs of that crate) under every sequence of
      calls, with concrete runs.
    - IndexTypes, IndexHierarchy, IndexLayer, BranchEncoding, Indexer: the first surface of the streaming indexer
      (lexongraph-streaming-indexer/src/lib.rs, [StreamingIndexingRun]): its data
      and collaborators as classes (resolver, embedding provider, planning policy,
      child summaries); validation of a partition hierarchy and the routing file
      made from it; fingerprints, the materializability bound and balanced groups;
      the five encodings of branch embeddings; the built-in child summaries; the
      spill files; and the run itself: ingesting, finishing a pass, completing the
      planning, and finalizing, which replays the items, writes a leaf for each and
      assembles branches from the bottom up. A collaborator answers from a state of
      its own and may change its answers; the store is any [BlockStore], and
      [DurableStore] says what the theorems about the index ask of it.
      IndexHierarchyCorrect (accepted hierarchies are trees and route every item),
      SpillCorrect (sizes, groups, spill files), BranchEncodingCorrect (what is packed is read
      back by the block format), AssemblyCorrect and IndexerCorrect (a finalized
      index reaches every item), LifecycleCorrect (every sequence of calls,
      and concrete runs), IndexerFacts.
    - Planning, Policies: how the indexer plans a hierarchy (the same file). Planning: the
      two derivations from a planner of clusters, dividing from the root and joining from
      the items, with the groups made of its answers, the representatives, the metrics,
      the telemetry and the events. Policies: the table of the published profiles, the
      built-in policies (one trainer, hybrid, adaptive), the packing of a published
      profile, the policies as instances of the interface the run takes, and the factory
      policy. PlanningCorrect: whatever a planner answers, a plan passes the validation.
      PoliciesCorrect: the policies give such planners, the trainers promise them what
      they need ([RoundSafe]), and a pass of a run under a policy completes.
      PlanningWitness: concrete runs.
    - Pca, PcaCodec: principal components (lexongraph-pca/src/lib.rs): the streaming
      accumulator, fitting, transforms, their validation and diagnostics, affine
      maps, deltas and rebasing, quantization, the two binary formats. PcaCorrect,
      PcaCodecCorrect: shapes and the absence of panics, round trips; PcaWitness: the
      rotation the indexer encodes branches with, and the
      claims with their examples.
    - PcaChunking: chunks of equal size along the principal components
      (lexongraph-pca-chunking/src/lib.rs): sort keys, the replays that find the ends of
      the chunks one key after the other, the trainer and the classifier.
      ChunkingCorrect: the division of the items is exact, and as many passes as items
      complete it; no sequence of calls panics.
    - DpcaPlanner, DpcaPlan, DirectionalPca: directional PCA
      (lexongraph-directional-pca/src/lib.rs): how an axis is cut (a
      Greenwald-Khanna summary, or the valleys of a histogram), how many bins each
      axis gets, the cells and their clusters, and the trainer with its four kinds
      of passes, its telemetry, the classifier and its replay. CutCorrect (the
      summary is accurate; buckets and valleys),
      DpcaCells (clusters are numbered without gaps and replays fill
      them), DpcaTrainer, DpcaFinish (the invariant of the trainer,
      what can panic, five passes at most); DpcaWitness: the claims.
    - Adaptive: the policy that chooses between directional PCA and DCBC
      (lexongraph-adaptive-planning-policy/src/lib.rs): settings, the selector and
      its boundaries, the measurement. AdaptiveCorrect (the measurement is a mean of
      means; what a boundary owns, which
      histories there are); AdaptiveWitness: the claims.
    - LinearAlgebra: the backends (lexongraph-linear-algebra-acceleration/src/lib.rs): the
      request of the process, its mutex and its scopes as turns of threads, the
      resolution of requests, the distances of the processor, and the kernel of the
      device as its invocations. LinearAlgebraCorrect: scopes are restored, any order of
      the invocations makes the matrix, chunks change nothing.
    - SphericalKmeans: spherical k-means (lexongraph-spherical-kmeans/src/lib.rs):
      initialization, assignment on both backends, repair of empty clusters,
      centroids, the trainer and the classifier. KmeansCorrect (a pass, and when the
      device holds a chunk of it, [device_fits]),
      KmeansTrainer (every sequence of calls, the claims); KmeansWitness: concrete runs
      of both crates.
    - RedbStore, RedbCorrect: the redb store (lexongraph-block-store-redb/src/lib.rs):
      opening in both modes, writes and batches, pending flushes, compaction, handles,
      against any database with the laws; what survives a crash.
    - ZipStore, ZipCorrect: the zip store (lexongraph-block-store-zip/src/lib.rs): the
      scan of the classic and zip64 central directory, entry names, enumeration and
      reads; a store over an image lists exactly its blocks.
    - CborRef: the codec, and concrete parameters for the witnesses.

    ** Conventions

    A fallible function returns [result E A]: [Ok], [Err] or [Panic], so that the
    absence of panics is a theorem. A method that takes a store by reference and
    changes it is a function from a state to a result and a state. Integers of 64
    bits are [N] with their checked, saturating or wrapping operations written
    out; where a theorem asks that a number is at most [USIZE_MAX], the source has it
    in a [usize]. Floats are bit patterns.

    ** Fuel

    The search loop takes a number of rounds; [search_terminates] shows that one
    more than the number of blocks the store can hold is enough. The walk over a
    directory tree takes the number of entries it looks at, which [node_count]
    computes; [fs_enumeration] shows that it never runs out. Sending flow takes as
    many rounds as units asked for, since each sends one at least
    ([send_flow_conserves]); a walk along predecessors carries the budget of steps
    the code itself counts. The walks over a partition hierarchy take one more than
    the number of its partitions, since none is visited twice; the assembly of a
    layer takes its length, since every layer is shorter than the one below; a
    spill file is read with one more than its length, since a record is not empty;
    doubling the bound of a branch takes 65 rounds and bisecting it 64, the width
    of a word. A histogram is cut in one round more than it has buckets, since each
    round makes one segment more ([select_cuts]); a binary search takes the length
    of its list. Repairing empty clusters and selecting initial centroids take as many
    rounds as there are clusters ([repair_fills], [kmeans_pass_sound]). A division of a
    partition takes one more than its items, since each child has fewer; joining and
    packing take as many rounds as there are nodes, since each layer is shorter
    ([derived_plan_valid], [published_plan_valid]); a planner replays its data as often as
    the code allows. The scan of an archive takes [scan_fuel], the entries its length has
    room for ([zip_scan_total]). Loops that consume a list recurse on it.

    ** Not modelled

    Memory: an allocation never fails, and a vector may be longer than the bytes an
    address space holds. Concurrency of the asynchronous runtime beyond the steps above:
    child loads of one search round run in order. Telemetry callbacks of stores (empty by
    default), the status updates the indexer makes of its events, and heartbeats. The conformance-test
    modules. Parallel projections of directional PCA: they collect in order, and are
    the projections in order. The second and third surfaces of the streaming indexer
    ([StreamingIndexingRunV2] and v3.rs), which plan and replay out of core over mapped
    files and worker threads: their state is in files the operating system shares, which
    the first surface does not need. The Azure stores and the embedding client are calls
    of remote services, the evaluator and the inspection tool print reports. *)
From stdpp Require Export base proof_irrel tactics option list sorting gmap strings pretty.
From Stdlib Require Export NArith ZArith Lia.

(** ** The result monad

    [result E A] is Rust's [Result<A, E>], with one constructor more: [Panic]
    is the unwinding of [unwrap], [expect], [unreachable!], an index out of
    range, or an arithmetic operation that overflows in a checked build. *)
Inductive result (E A : Type) : Type :=
| Ok (a : A)
| Err (e : E)
| Panic.
Arguments Ok {E A} a.
Arguments Err {E A} e.
Arguments Panic {E A}.

Declare Scope rust_scope.
Delimit Scope rust_scope with rust.

Definition rbind {E A B} (m : result E A) (k : A -> result E B) : result E B :=
  match m with
  | Ok a => k a
  | Err e => Err e
  | Panic => Panic
  end.

(** Rust's [?] operator: stop at the first error. *)
Notation "'let?' x ':=' m 'in' k" := (rbind m (fun x => k))
  (at level 10, x name, m at level 100, k at level 200) : rust_scope.
Notation "'let?' ' p ':=' m 'in' k" := (rbind m (fun x => match x with p => k end))
  (at level 10, p pattern, m at level 100, k at level 200) : rust_scope.
Notation "'guard?' b 'else' e 'in' k" := (if b then k else Err e)
  (at level 10, b at level 100, e at level 100, k at level 200) : rust_scope.
Open Scope rust_scope.

(** [Result::map] and [Result::map_err]. *)
Definition rmap {E A B} (f : A -> B) (m : result E A) : result E B :=
  match m with Ok a => Ok (f a) | Err e => Err e | Panic => Panic end.

Definition map_err {E F A} (f : E -> F) (m : result E A) : result F A :=
  match m with Ok a => Ok a | Err e => Err (f e) | Panic => Panic end.

(** [Option::ok_or], [Option::transpose] on a mapped option, [Option::expect]. *)
Definition ok_or {E A} (o : option A) (e : E) : result E A :=
  match o with Some a => Ok a | None => Err e end.

Definition opt_transpose {E A B} (f : A -> result E B) (o : option A) : result E (option B) :=
  match o with
  | None => Ok None
  | Some a => rmap Some (f a)
  end.

Definition expect {E A} (o : option A) : result E A :=
  match o with Some a => Ok a | None => Panic end.

(** [iter.map(f).collect::<Result<Vec<_>, _>>()]: stops at the first error. *)
Fixpoint collect_map {E A B} (f : A -> result E B) (l : list A) : result E (list B) :=
  match l with
  | [] => Ok []
  | x :: l' => let? y := f x in let? ys := collect_map f l' in Ok (y :: ys)
  end.

(** [iter.try_fold(init, f)] over an option-valued step, as the checked sums use it. *)
Fixpoint try_fold {E A B} (f : B -> A -> result E B) (acc : B) (l : list A) : result E B :=
  match l with
  | [] => Ok acc
  | x :: l' => let? acc' := f acc x in try_fold f acc' l'
  end.

Definition is_ok {E A} (m : result E A) : bool :=
  match m with Ok _ => true | _ => false end.

Definition no_panic {E A} (m : result E A) : Prop := m <> Panic.

#[global] Arguments rbind {E A B} !m k /.
#[global] Arguments rmap {E A B} f !m /.
#[global] Arguments map_err {E F A} f !m /.
#[global] Arguments ok_or {E A} !o e /.
#[global] Arguments opt_transpose {E A B} f !o /.
#[global] Arguments expect {E A} !o /.

(** ** Machine integers

    Unsigned integers are [N] with their width written out where an operation
    can overflow. [usize] is 64 bits wide, as on the targets the workspace
    builds for. *)
Definition U64_MAX : N := 2 ^ 64 - 1.
Definition USIZE_MAX : N := 2 ^ 64 - 1.

Definition checked_mul (max a b : N) : option N :=
  if (a * b <=? max)%N then Some (a * b)%N else None.
Definition checked_add (max a b : N) : option N :=
  if (a + b <=? max)%N then Some (a + b)%N else None.
Definition checked_sub (a b : N) : option N := if (b <=? a)%N then Some (a - b)%N else None.
Definition saturating_add (max a b : N) : N := N.min max (a + b).
Definition saturating_mul (max a b : N) : N := N.min max (a * b).
(** [N.sub] is truncated at zero, which is [saturating_sub]. *)
Definition saturating_sub (a b : N) : N := (a - b)%N.
Definition wrapping_add_u64 (a b : N) : N := ((a + b) mod 2 ^ 64)%N.

Definition usize_try_from (n : N) : option N :=
  if (n <=? USIZE_MAX)%N then Some n else None.

Definition len {A} (l : list A) : N := N.of_nat (length l).

(** ** Lemmas on results *)
Section result_lemmas.
Context {E : Type}.
Implicit Types A B : Type.

Lemma rbind_ok {A B} (m : result E A) (k : A -> result E B) b :
  rbind m k = Ok b <-> exists a, m = Ok a /\ k a = Ok b.
Proof. destruct m; cbn; naive_solver. Qed.

Lemma rbind_err {A B} (m : result E A) (k : A -> result E B) e :
  rbind m k = Err e <-> m = Err e \/ exists a, m = Ok a /\ k a = Err e.
Proof. destruct m; cbn; naive_solver. Qed.

Lemma rbind_no_panic {A B} (m : result E A) (k : A -> result E B) :
  no_panic m -> (forall a, m = Ok a -> no_panic (k a)) -> no_panic (rbind m k).
Proof. unfold no_panic. destruct m; cbn; naive_solver. Qed.

Lemma rmap_ok {A B} (f : A -> B) (m : result E A) b :
  rmap f m = Ok b <-> exists a, m = Ok a /\ b = f a.
Proof. destruct m; cbn; naive_solver. Qed.

Lemma rmap_no_panic {A B} (f : A -> B) (m : result E A) :
  no_panic m -> no_panic (rmap f m).
Proof. unfold no_panic. destruct m; cbn; naive_solver. Qed.

Lemma map_err_no_panic {F A} (f : E -> F) (m : result E A) : no_panic m -> no_panic (map_err f m).
Proof. unfold no_panic. by destruct m. Qed.

Lemma rmap_err {A B} (f : A -> B) (m : result E A) e : rmap f m = Err e <-> m = Err e.
Proof. destruct m; cbn; naive_solver. Qed.

Lemma map_err_err {F A} (g : E -> F) (m : result E A) e :
  map_err g m = Err e <-> exists e0, m = Err e0 /\ e = g e0.
Proof. destruct m; cbn; naive_solver. Qed.

Lemma ok_or_ok {A} (o : option A) (e : E) a : ok_or o e = Ok a <-> o = Some a.
Proof. destruct o; cbn; naive_solver. Qed.

Lemma ok_or_no_panic {A} (o : option A) (e : E) : no_panic (ok_or o e).
Proof. by destruct o. Qed.

Lemma opt_transpose_ok {A B} (f : A -> result E B) (o : option A) r :
  opt_transpose f o = Ok r <->
  match o, r with
  | None, None => True
  | Some a, Some b => f a = Ok b
  | _, _ => False
  end.
Proof. destruct o as [a|], r as [b|]; cbn; try (destruct (f a) eqn:?); naive_solver. Qed.

Lemma opt_transpose_no_panic {A B} (f : A -> result E B) (o : option A) :
  (forall a, o = Some a -> no_panic (f a)) -> no_panic (opt_transpose f o).
Proof. destruct o; cbn; intros H; [|done]. by apply rmap_no_panic, H. Qed.

Lemma collect_map_ok {A B} (f : A -> result E B) l ys :
  collect_map f l = Ok ys <-> Forall2 (fun x y => f x = Ok y) l ys.
Proof.
  revert ys. induction l as [|x l IH]; intros ys; cbn.
  - split; [intros [= <-]; constructor|by inversion 1].
  - rewrite rbind_ok. split.
    + intros (y & Hy & (ys' & Hys & [= <-])%rbind_ok). constructor; [done|by apply IH].
    + inversion 1 as [|? y ? ys' Hy Hys]; subst. exists y; split; [done|].
      apply IH in Hys as ->. done.
Qed.

Lemma collect_map_length {A B} (f : A -> result E B) l ys :
  collect_map f l = Ok ys -> length ys = length l.
Proof. intros H%collect_map_ok. symmetry. by eapply Forall2_length. Qed.

Lemma collect_map_no_panic {A B} (f : A -> result E B) l :
  (forall x, x ∈ l -> no_panic (f x)) -> no_panic (collect_map f l).
Proof.
  induction l as [|x l IH]; intros H; cbn; [done|].
  apply rbind_no_panic; [apply H; set_solver|]. intros y _.
  apply rbind_no_panic; [apply IH; set_solver|]. done.
Qed.

Lemma try_fold_no_panic {A B} (f : B -> A -> result E B) b l :
  (forall b x, x ∈ l -> no_panic (f b x)) -> no_panic (try_fold f b l).
Proof.
  revert b. induction l as [|x l IH]; intros b H; cbn; [done|].
  apply rbind_no_panic; [apply H; set_solver|]. intros b' _. apply IH. intros. apply H. set_solver.
Qed.

Lemma try_fold_err {A B} (f : B -> A -> result E B) b l e :
  try_fold f b l = Err e -> exists b' x, x ∈ l /\ f b' x = Err e.
Proof.
  revert b. induction l as [|x l IH]; intros b; cbn; [done|]. intros [Hx|(b' & _ & Hl)]%rbind_err.
  - exists b, x. split; [by left|done].
  - destruct (IH b' Hl) as (b2 & z & ? & ?). exists b2, z. split; [by right|done].
Qed.

Lemma collect_map_err {A B} (f : A -> result E B) l e :
  collect_map f l = Err e -> exists x, x ∈ l /\ f x = Err e.
Proof.
  induction l as [|x l IH]; cbn; [done|]. intros [Hx|(y & _ & [Hl|(? & _ & ?)]%rbind_err)]%rbind_err; [| |done].
  - exists x. split; [by left|done].
  - destruct (IH Hl) as (z & ? & ?). exists z. split; [by right|done].
Qed.

Lemma collect_map_pure {A B} (f : A -> result E B) (g : A -> B) l :
  (forall x, x ∈ l -> f x = Ok (g x)) -> collect_map f l = Ok (map g l).
Proof.
  induction l as [|x l IH]; intros H; cbn; [done|].
  rewrite H by set_solver. cbn. rewrite IH by set_solver. done.
Qed.

Lemma collect_map_id {A} (f : A -> result E A) l :
  (forall x, x ∈ l -> f x = Ok x) -> collect_map f l = Ok l.
Proof. intros H. rewrite (collect_map_pure f id) by done. by rewrite list_fmap_id. Qed.

Lemma collect_map_ext {A B} (f g : A -> result E B) l :
  (forall x, x ∈ l -> f x = g x) -> collect_map f l = collect_map g l.
Proof.
  induction l as [|x l IH]; intros H; cbn; [done|].
  rewrite H by set_solver. by rewrite IH by set_solver.
Qed.

Lemma collect_map_map {A B C} (f : B -> result E C) (g : A -> B) l :
  collect_map f (map g l) = collect_map (fun x => f (g x)) l.
Proof. induction l as [|x l IH]; cbn; [done|]. by rewrite IH. Qed.

Lemma collect_map_Permutation {A B} (f : A -> result E B) l1 l2 ys1 :
  l1 ≡ₚ l2 -> collect_map f l1 = Ok ys1 ->
  exists ys2, collect_map f l2 = Ok ys2 /\ ys1 ≡ₚ ys2.
Proof.
  intros HP. revert ys1. induction HP as [|x l1 l2 _ IH|x y l|l1 l2 l3 _ IH1 _ IH2];
    intros ys1 H; cbn in *.
  - eexists. by split.
  - apply rbind_ok in H as (y & Hy & (ys & Hys & [= <-])%rbind_ok).
    destruct (IH _ Hys) as (ys2 & Hys2 & HP2). rewrite Hy; cbn. rewrite Hys2; cbn.
    eexists; split; [done|]. by constructor.
  - apply rbind_ok in H as (a & Ha & (bs & Hbs & [= <-])%rbind_ok).
    apply rbind_ok in Hbs as (b & Hb & (cs & Hcs & [= <-])%rbind_ok).
    rewrite Hb; cbn. rewrite Ha; cbn. rewrite Hcs; cbn.
    eexists; split; [done|]. by constructor.
  - destruct (IH1 _ H) as (ys2 & H2 & ?). destruct (IH2 _ H2) as (ys3 & ? & ?).
    exists ys3. split; [done|]. by etrans.
Qed.
End result_lemmas.

(** ** Partial results

    [returns P m]: [m] does not panic, and its value, if it has one, satisfies
    [P]. The lemmas follow the monadic structure. *)
Definition returns {E A} (P : A -> Prop) (m : result E A) : Prop :=
  match m with Ok a => P a | Err _ => True | Panic => False end.

Section returns_lemmas.
Context {E A B : Type}.
Implicit Types (P : A -> Prop) (Q : B -> Prop).

Lemma returns_bind P Q (m : result E A) (k : A -> result E B) :
  returns P m -> (forall a, P a -> returns Q (k a)) -> returns Q (rbind m k).
Proof. destruct m; cbn; auto. Qed.

Lemma returns_ok P (m : result E A) : no_panic m -> (forall a, m = Ok a -> P a) -> returns P m.
Proof. unfold no_panic. destruct m; cbn; naive_solver. Qed.

Lemma returns_weaken P P' (m : result E A) : returns P m -> (forall a, P a -> P' a) -> returns P' m.
Proof. destruct m; cbn; auto. Qed.

Lemma returns_guard P (b : bool) (m : result E A) e : (b = true -> returns P m) -> returns P (guard? b else e in m).
Proof. destruct b; cbn; auto. Qed.

Lemma returns_ok_or P (o : option A) (e : E) : (forall a, o = Some a -> P a) -> returns P (ok_or o e).
Proof. destruct o; cbn; auto. Qed.

End returns_lemmas.

Section returns_loops.
Context {E A B : Type}.

Lemma returns_fold (P : nat -> A -> Prop) (f : A -> B -> result E A) l : forall i a,
  P i a -> (forall j b a, l !! j = Some b -> P (i + j)%nat a -> returns (P (S (i + j))) (f a b)) ->
  returns (P (i + length l)%nat) (try_fold f a l).
Proof.
  induction l as [|b l IH]; intros i a Ha Hf; cbn [length try_fold].
  - by rewrite Nat.add_0_r.
  - apply (returns_bind (P (S i))).
    + specialize (Hf 0%nat b a eq_refl). rewrite Nat.add_0_r in Hf. by apply Hf.
    + intros a' Ha'. rewrite Nat.add_succ_r, <-Nat.add_succ_l. apply IH; [done|].
      intros j b' a'' Hj Hp. specialize (Hf (S j) b' a'' Hj). rewrite Nat.add_succ_r in Hf. by apply Hf.
Qed.

Lemma returns_loop (P : A -> Prop) (f : A -> B -> result E A) a l :
  P a -> (forall b a, b ∈ l -> P a -> returns P (f a b)) -> returns P (try_fold f a l).
Proof.
  intros Ha Hf. apply (returns_fold (fun _ => P) f l 0 a Ha). intros j b a' Hj%list_elem_of_lookup_2 Hp. by apply Hf.
Qed.

Lemma returns_collect (R : A -> B -> Prop) (f : A -> result E B) l :
  (forall x, x ∈ l -> returns (R x) (f x)) -> returns (Forall2 R l) (collect_map f l).
Proof.
  induction l as [|x l IH]; intros Hf; cbn; [constructor|].
  apply (returns_bind (R x)); [apply Hf; set_solver|]. intros y Hy.
  apply (returns_bind (Forall2 R l)); [apply IH; set_solver|]. intros ys Hys. by constructor.
Qed.
End returns_loops.

(** Loops that cannot fail while their invariant holds. *)
Lemma fold_succeeds {E A B} (P : nat -> A -> Prop) (f : A -> B -> result E A) l : forall i a, P i a ->
  (forall j b a, l !! j = Some b -> P (i + j)%nat a -> exists a', f a b = Ok a' /\ P (S (i + j)) a') ->
  exists a', try_fold f a l = Ok a' /\ P (i + length l)%nat a'.
Proof.
  induction l as [|b l IH]; intros i a Ha Hf; cbn [length try_fold].
  - exists a. by rewrite Nat.add_0_r.
  - destruct (Hf 0%nat b a eq_refl) as (a' & -> & Ha'); [by rewrite Nat.add_0_r|]. cbn [rbind].
    rewrite Nat.add_0_r in Ha'. rewrite Nat.add_succ_r, <-Nat.add_succ_l. apply IH; [done|].
    intros j b' a'' Hj Hp. specialize (Hf (S j) b' a'' Hj). rewrite Nat.add_succ_r in Hf. by apply Hf.
Qed.

(** [iter().enumerate()] *)
Lemma imap_pair_zip {A} (l : list A) : imap pair l = zip (seq 0 (length l)) l.
Proof.
  enough (forall n, imap (fun i x => ((n + i)%nat, x)) l = zip (seq n (length l)) l) as He by apply (He 0%nat).
  induction l as [|x l IH]; intros n; [done|]. cbn [length seq zip zip_with]. rewrite imap_cons, Nat.add_0_r. f_equal.
  rewrite <-IH. apply imap_ext. intros i y _. cbn. f_equal. lia.
Qed.

(** Sums. *)
Definition sum_N (l : list N) : N := foldr N.add 0%N l.
Lemma sum_insert l i x y : l !! i = Some x -> (sum_N (<[i := y]> l) + x = sum_N l + y)%N.
Proof.
  unfold sum_N. revert i. induction l as [|z l IH]; intros [|i] Hi; try done.
  - injection Hi as ->. change (<[0%nat := y]> (x :: l)) with (y :: l). cbn [foldr]. lia.
  - specialize (IH i Hi). change (<[S i := y]> (z :: l)) with (z :: <[i := y]> l). cbn [foldr]. lia.
Qed.
Lemma sum_bound l : Forall (fun x => 1 <= x)%N l -> (len l <= sum_N l)%N.
Proof. induction 1 as [|x l Hx _ IH]; [done|]. unfold len, sum_N in *. cbn [foldr length]. lia. Qed.
Lemma sum_cons x l : sum_N (x :: l) = (x + sum_N l)%N.
Proof. done. Qed.
Lemma sum_app l k : sum_N (l ++ k) = (sum_N l + sum_N k)%N.
Proof. induction l as [|x l IH]; [done|]. cbn [app]. rewrite !sum_cons, IH. lia. Qed.
Lemma sum_ones n : sum_N (replicate n 1%N) = N.of_nat n.
Proof. induction n as [|n IH]; [done|]. cbn [replicate]. rewrite sum_cons, IH. lia. Qed.

(** Rows of one length, in one list. *)
Lemma concat_lookup {A} (rows : list (list A)) w i c : Forall (fun r => length r = w) rows -> (c < w)%nat ->
  concat rows !! (i * w + c)%nat = rows !! i ≫= fun r => r !! c.
Proof.
  intros Hf Hc. revert i. induction Hf as [|r rows Hr _ IH]; intros i; cbn [concat]; [by destruct i|].
  destruct i as [|i]; cbn [lookup list_lookup].
  - rewrite lookup_app_l by (cbn; lia). done.
  - rewrite lookup_app_r by lia. rewrite <-IH. f_equal. lia.
Qed.

Lemma concat_length {A} (rows : list (list A)) w : Forall (fun r => length r = w) rows ->
  length (concat rows) = (length rows * w)%nat.
Proof. induction 1 as [|r rows Hr _ IH]; cbn; [done|]. rewrite length_app. lia. Qed.

(** Inverts every successful [let?] and [guard?] among the hypotheses. *)
Ltac inv_ok :=
  repeat match goal with
  | H : rbind _ _ = Ok _ |- _ =>
      let a := fresh "a" in let H1 := fresh "Hok" in
      apply rbind_ok in H as (a & H1 & H)
  | H : rmap _ _ = Ok _ |- _ =>
      let a := fresh "a" in apply rmap_ok in H as (a & H & ?)
  | H : ok_or _ _ = Ok _ |- _ => apply ok_or_ok in H
  | H : Ok _ = Ok _ |- _ => injection H as H
  | H : Err _ = Ok _ |- _ => discriminate H
  | H : Panic = Ok _ |- _ => discriminate H
  | H : None = Some _ |- _ => discriminate H
  | H : (if ?b then _ else Err _) = Ok _ |- _ =>
      let Hb := fresh "Hb" in destruct b eqn:Hb; [|discriminate H]
  | H : (if ?b then Err _ else _) = Ok _ |- _ =>
      let Hb := fresh "Hb" in destruct b eqn:Hb; [discriminate H|]
  | H : (if ?b then Panic else _) = Ok _ |- _ =>
      let Hb := fresh "Hb" in destruct b eqn:Hb; [discriminate H|]
  end.

(** The same, taking apart the pairs the steps return. *)
Ltac inv_oks :=
  repeat (progress inv_ok || match goal with p : _ * _ |- _ => destruct p end).

(** Splits a [no_panic] goal along the monadic structure. *)
Ltac np_step :=
  match goal with
  | |- no_panic (Ok _) => discriminate
  | |- no_panic (Err _) => discriminate
  | |- no_panic (rbind _ _) => apply rbind_no_panic; [|intros ? ?]
  | |- no_panic (rmap _ _) => apply rmap_no_panic
  | |- no_panic (ok_or _ _) => apply ok_or_no_panic
  | |- no_panic (opt_transpose _ _) => apply opt_transpose_no_panic; intros ? ?
  | |- no_panic (collect_map _ _) => apply collect_map_no_panic; intros ? ?
  | |- no_panic (try_fold _ _ _) => apply try_fold_no_panic; intros ? ? ?
  | |- no_panic (if ?b then _ else _) => destruct b eqn:?
  | |- no_panic (match ?x with _ => _ end) => destruct x eqn:?
  end.
Create HintDb no_panic.
Ltac np := repeat np_step; eauto with no_panic.
