(* ===== verification/Ordering.v ===== *)
(** * Orderings, stable sorting and the duplicate scan

    The comparison functions of the source return [std::cmp::Ordering], which is
    [comparison] here; this file holds [Ordering::then_with], the [Ord] of slices,
    [slice::sort_by] (stable), the minima, maxima and chunks of iterators and the
    [windows(2)] duplicate scan, with the facts
    every canonical form rests on: sorting permutes, sorts, keeps a sorted list as
    it is, and gives the same list for every permutation when no two elements are
    equal in the order. *)
From S2P Require Import Prelude.

(** [then_with] is [Ordering::then_with]; [sort_by] is the slice method of that
    name, a stable sort; [has_equal_pair] is the [windows(2)] scan for two
    neighbours the order makes equal. *)
Definition then_with (c d : comparison) : comparison :=
  match c with Eq => d | _ => c end.

Fixpoint list_cmp {A} (cmp : A -> A -> comparison) (l k : list A) : comparison :=
  match l, k with
  | [], [] => Eq
  | [], _ :: _ => Lt
  | _ :: _, [] => Gt
  | x :: l', y :: k' => then_with (cmp x y) (list_cmp cmp l' k')
  end.

Fixpoint insert_by {A} (cmp : A -> A -> comparison) (x : A) (l : list A) : list A :=
  match l with
  | [] => [x]
  | y :: l' => match cmp x y with Gt => y :: insert_by cmp x l' | _ => x :: l end
  end.

Definition sort_by {A} (cmp : A -> A -> comparison) (l : list A) : list A :=
  foldr (insert_by cmp) [] l.

Fixpoint has_equal_pair {A} (cmp : A -> A -> comparison) (l : list A) : bool :=
  match l with
  | x :: ((y :: _) as l') =>
      match cmp x y with Eq => true | _ => has_equal_pair cmp l' end
  | _ => false
  end.

(** [slice::binary_search_by] of the standard library: the size of the part that is
    left, halved, and its first index. [Ok] is an index where the comparison is [Eq],
    [Err] one where an element could be inserted. The length bounds the halvings. *)
Fixpoint search_loop {A} (cmp : A -> comparison) (l : list A) (fuel size base : nat) : nat :=
  match fuel with
  | O => base
  | S fuel =>
      if (1 <? size)%nat then
        let half := (size / 2)%nat in
        let mid := (base + half)%nat in
        let base := match cmp <$> l !! mid with Some Gt | None => base | Some _ => mid end in
        search_loop cmp l fuel (size - half) base
      else base
  end.
Definition binary_search_by {A} (cmp : A -> comparison) (l : list A) : result nat nat :=
  let base := search_loop cmp l (length l) (length l) 0 in
  match cmp <$> l !! base with
  | None => Err 0%nat
  | Some Eq => Ok base
  | Some Lt => Err (S base)
  | Some Gt => Err base
  end.
(** [slice::partition_point] *)
Definition partition_point {A} (pred : A -> bool) (l : list A) : nat :=
  match binary_search_by (fun x => if pred x then Lt else Gt) l with
  | Ok i | Err i => i
  | Panic => 0%nat
  end.

(** [Iterator::min_by_key]: the first of the smallest. *)
Fixpoint min_by {A} (key : A -> N) (l : list A) : option A :=
  match l with
  | [] => None
  | x :: l' =>
      match min_by key l' with
      | None => Some x
      | Some y => if (key y <? key x)%N then Some y else Some x
      end
  end.

(** [Iterator::max_by]: the last of the greatest. *)
Definition max_by {A} (cmp : A -> A -> comparison) (l : list A) : option A :=
  match l with
  | [] => None
  | x :: l' => Some (fold_left (fun x y => match cmp x y with Gt => x | _ => y end) l' x)
  end.

(** [slice.chunks(k)]: full chunks and the remainder. The length bounds their number. *)
Fixpoint chunks_loop {A} (fuel k : nat) (l : list A) : list (list A) :=
  match fuel, l with
  | S fuel', _ :: _ => take k l :: chunks_loop fuel' k (drop k l)
  | _, _ => []
  end.
Definition chunks {A} (k : nat) (l : list A) : list (list A) := chunks_loop (length l) k l.

(** What [Ord] promises of a comparison: a total preorder. *)
Class TotalCmp {A} (cmp : A -> A -> comparison) : Prop := {
  cmp_opp : forall x y, cmp y x = CompOpp (cmp x y);
  cmp_le_trans : forall x y z, cmp x y <> Gt -> cmp y z <> Gt -> cmp x z <> Gt
}.
Arguments cmp_opp {A} cmp {_} x y.
Arguments cmp_le_trans {A} cmp {_} x y z _ _.

Definition cmp_le {A} (cmp : A -> A -> comparison) (x y : A) : Prop := cmp x y <> Gt.
Definition cmp_lt {A} (cmp : A -> A -> comparison) (x y : A) : Prop := cmp x y = Lt.


Definition opt_cmp {A} (cmp : A -> A -> comparison) (x y : option A) : comparison :=
  match x, y with
  | None, None => Eq
  | None, Some _ => Lt
  | Some _, None => Gt
  | Some a, Some b => cmp a b
  end.

Definition byte_cmp (x y : Byte.byte) : comparison := N.compare (Byte.to_N x) (Byte.to_N y).
Definition bytes_cmp : list Byte.byte -> list Byte.byte -> comparison := list_cmp byte_cmp.

(** ** Facts about total comparisons *)
Section total.
Context {A : Type} (cmp : A -> A -> comparison) `{!TotalCmp cmp}.
Implicit Types (x y z : A) (l : list A).

Lemma cmp_refl x : cmp x x = Eq.
Proof. pose proof (cmp_opp cmp x x) as H. destruct (cmp x x); done. Qed.

Lemma cmp_gt_lt x y : cmp x y = Gt <-> cmp y x = Lt.
Proof. rewrite (cmp_opp cmp x y). destruct (cmp x y); naive_solver. Qed.

Lemma cmp_eq_sym x y : cmp x y = Eq <-> cmp y x = Eq.
Proof. rewrite (cmp_opp cmp x y). destruct (cmp x y); naive_solver. Qed.

Lemma cmp_le_total x y : cmp_le cmp x y \/ cmp_le cmp y x.
Proof. unfold cmp_le. rewrite (cmp_opp cmp x y). destruct (cmp x y); naive_solver. Qed.

Lemma cmp_le_refl x : cmp_le cmp x x.
Proof. unfold cmp_le. by rewrite cmp_refl. Qed.

Lemma cmp_antisym x y : cmp_le cmp x y -> cmp_le cmp y x -> cmp x y = Eq.
Proof. unfold cmp_le. rewrite (cmp_opp cmp x y). destruct (cmp x y); naive_solver. Qed.

Lemma cmp_lt_le x y : cmp_lt cmp x y -> cmp_le cmp x y.
Proof. unfold cmp_lt, cmp_le. by intros ->. Qed.

Lemma cmp_le_not_eq x y : cmp_le cmp x y -> cmp x y <> Eq -> cmp_lt cmp x y.
Proof. unfold cmp_lt, cmp_le. destruct (cmp x y); naive_solver. Qed.

Lemma cmp_lt_le_trans x y z : cmp_lt cmp x y -> cmp_le cmp y z -> cmp_lt cmp x z.
Proof.
  intros Hxy Hyz. apply cmp_le_not_eq.
  - eapply (cmp_le_trans cmp); [by apply cmp_lt_le|done].
  - intros Hxz%cmp_eq_sym.
    assert (cmp y x <> Gt) as Hyx by (eapply (cmp_le_trans cmp); [exact Hyz|by rewrite Hxz]).
    apply Hyx, cmp_gt_lt. exact Hxy.
Qed.

Lemma cmp_le_lt_trans x y z : cmp_le cmp x y -> cmp_lt cmp y z -> cmp_lt cmp x z.
Proof.
  intros Hxy Hyz. apply cmp_le_not_eq.
  - eapply (cmp_le_trans cmp); [done|by apply cmp_lt_le].
  - intros Hxz%cmp_eq_sym.
    assert (cmp z y <> Gt) as Hzy by (eapply (cmp_le_trans cmp); [|exact Hxy]; by rewrite Hxz).
    apply Hzy, cmp_gt_lt. exact Hyz.
Qed.

#[export] Instance cmp_le_Transitive : Transitive (cmp_le cmp).
Proof. intros x y z. apply (cmp_le_trans cmp). Qed.
#[export] Instance cmp_lt_Transitive : Transitive (cmp_lt cmp).
Proof. intros x y z H1 H2. eapply cmp_lt_le_trans; [done|by apply cmp_lt_le]. Qed.

(** *** Sorting *)
Lemma insert_by_Permutation x l : insert_by cmp x l ≡ₚ x :: l.
Proof.
  induction l as [|y l IH]; cbn; [done|]. destruct (cmp x y); [done..|].
  rewrite IH. constructor.
Qed.

Lemma sort_by_cons x l : sort_by cmp (x :: l) = insert_by cmp x (sort_by cmp l).
Proof. done. Qed.

Lemma sort_by_Permutation l : sort_by cmp l ≡ₚ l.
Proof.
  induction l as [|x l IH]; cbn; [done|]. by rewrite insert_by_Permutation, IH.
Qed.

Lemma insert_by_sorted x l :
  StronglySorted (cmp_le cmp) l -> StronglySorted (cmp_le cmp) (insert_by cmp x l).
Proof.
  induction 1 as [|y l Hl IH Hy]; cbn; [repeat constructor|].
  destruct (cmp x y) eqn:Hxy.
  1,2: constructor; [by constructor|]; constructor; [unfold cmp_le; by rewrite Hxy|];
    eapply Forall_impl; [exact Hy|]; intros z Hz; eapply (cmp_le_trans cmp); [|exact Hz]; by rewrite Hxy.
  constructor; [done|]. rewrite insert_by_Permutation. constructor; [|done].
  apply cmp_gt_lt in Hxy. by apply cmp_lt_le.
Qed.

Lemma sort_by_sorted l : StronglySorted (cmp_le cmp) (sort_by cmp l).
Proof. induction l; cbn; [constructor|by apply insert_by_sorted]. Qed.

Lemma sort_by_id l : StronglySorted (cmp_le cmp) l -> sort_by cmp l = l.
Proof.
  induction 1 as [|x l Hl IH Hx]; [done|]. rewrite sort_by_cons, IH.
  destruct l as [|y l]; [done|]. cbn. inversion Hx as [|? ? Hxy]; subst.
  unfold cmp_le in Hxy. destruct (cmp x y); naive_solver.
Qed.

Lemma sort_by_length l : length (sort_by cmp l) = length l.
Proof. apply Permutation_length, sort_by_Permutation. Qed.

Lemma has_equal_pair_sorted l :
  StronglySorted (cmp_le cmp) l ->
  has_equal_pair cmp l = false <-> StronglySorted (cmp_lt cmp) l.
Proof.
  induction 1 as [|x l Hl IH Hx]; [split; [constructor|done]|].
  destruct l as [|y l]; [split; [repeat constructor|done]|].
  cbn [has_equal_pair]. inversion Hx as [|? ? Hxy Hxl]; subst. split.
  - intros Hp. assert (cmp_lt cmp x y /\ has_equal_pair cmp (y :: l) = false) as [Hlt Hpl].
    { unfold cmp_lt, cmp_le in *. destruct (cmp x y); naive_solver. }
    constructor; [by apply IH|]. constructor; [done|].
    apply IH in Hpl. inversion Hpl as [|? ? _ Hyl]; subst.
    eapply Forall_impl; [exact Hyl|]. intros z Hz. by etrans.
  - inversion 1 as [|? ? Hs Hlt]; subst. inversion Hlt as [|? ? Hxy']; subst.
    unfold cmp_lt in Hxy'. rewrite Hxy'. by apply IH.
Qed.

Lemma sorted_lt_le l : StronglySorted (cmp_lt cmp) l -> StronglySorted (cmp_le cmp) l.
Proof.
  induction 1 as [|x l Hl IH Hx]; constructor; [done|].
  eapply Forall_impl; [exact Hx|]. intros z. apply cmp_lt_le.
Qed.

Lemma sorted_lt_eq_unique l x y :
  StronglySorted (cmp_lt cmp) l -> x ∈ l -> y ∈ l -> cmp x y = Eq -> x = y.
Proof.
  induction 1 as [|z l Hl IH Hz]; [set_solver|].
  rewrite Forall_forall in Hz. rewrite !elem_of_cons. intros [->|Hx] [->|Hy] Heq; auto.
  - specialize (Hz _ Hy). unfold cmp_lt in Hz. congruence.
  - specialize (Hz _ Hx). apply cmp_eq_sym in Heq. unfold cmp_lt in Hz. congruence.
Qed.

(** A list without order-equal elements sorts to a strictly ascending one. *)
Lemma sort_by_strict l : NoDup l -> (forall x y, x ∈ l -> y ∈ l -> cmp x y = Eq -> x = y) ->
  StronglySorted (cmp_lt cmp) (sort_by cmp l).
Proof.
  intros Hnd Hu. rewrite <-(sort_by_Permutation l) in Hnd.
  assert (forall x y, x ∈ sort_by cmp l -> y ∈ sort_by cmp l -> cmp x y = Eq -> x = y) as Hu'
    by (intros x y; rewrite !sort_by_Permutation; apply Hu).
  clear Hu. pose proof (sort_by_sorted l) as Hs. revert Hs Hnd Hu'. generalize (sort_by cmp l).
  induction 1 as [|x k Hk IH Hx]; intros Hnd Hu; constructor.
  - apply NoDup_cons in Hnd as [_ Hnd]. apply IH; [done|]. intros y z ? ?. apply Hu; by right.
  - apply NoDup_cons in Hnd as [Hin _]. apply Forall_forall. intros y Hy. apply cmp_le_not_eq.
    + rewrite Forall_forall in Hx. by apply Hx.
    + intros He. apply Hin. rewrite (Hu x y); [done|by left|by right|done].
Qed.

(** Every permutation of a list without order-equal elements sorts to the same list. *)
Lemma sort_by_perm_unique l k :
  l ≡ₚ k -> StronglySorted (cmp_lt cmp) (sort_by cmp l) -> sort_by cmp k = sort_by cmp l.
Proof.
  intros HP Hs. symmetry.
  assert (sort_by cmp l ≡ₚ sort_by cmp k) as HP' by by rewrite !sort_by_Permutation.
  apply (StronglySorted_unique_strong (cmp_le cmp)); [|by apply sorted_lt_le|apply sort_by_sorted|done].
  intros x y Hx Hy Hxy Hyx. rewrite <-HP' in Hy.
  eapply sorted_lt_eq_unique; [done..|by apply cmp_antisym].
Qed.
End total.

(** ** The orders of the source *)
#[export] Instance N_compare_total : TotalCmp N.compare.
Proof.
  split; [intros x y; apply N.compare_antisym|].
  intros x y z. rewrite !N.compare_le_iff. apply N.le_trans.
Qed.

#[export] Instance nat_compare_total : TotalCmp Nat.compare.
Proof.
  split; [intros x y; apply Nat.compare_antisym|].
  intros x y z. rewrite !Nat.compare_le_iff. apply Nat.le_trans.
Qed.

Section comap.
Context {A B : Type} (f : A -> B) (cmp : B -> B -> comparison) `{!TotalCmp cmp}.

Lemma comap_total : TotalCmp (fun x y => cmp (f x) (f y)).
Proof. split; [intros; apply (cmp_opp cmp)|intros x y z; apply (cmp_le_trans cmp)]. Qed.

Lemma rev_total : TotalCmp (fun x y => cmp y x).
Proof. split; [intros; apply (cmp_opp cmp)|intros x y z H1 H2; exact (cmp_le_trans cmp z y x H2 H1)]. Qed.
End comap.

Section then_with.
Context {A : Type} (c d : A -> A -> comparison) `{!TotalCmp c} `{!TotalCmp d}.

Lemma then_with_total : TotalCmp (fun x y => then_with (c x y) (d x y)).
Proof.
  split.
  - intros x y. rewrite (cmp_opp c x y). destruct (c x y); cbn; [apply (cmp_opp d)|done..].
  - intros x y z Hxy Hyz Hxz.
    assert (cmp_le c x y) as H1 by (unfold cmp_le; destruct (c x y); naive_solver).
    assert (cmp_le c y z) as H2 by (unfold cmp_le; destruct (c y z); naive_solver).
    assert (cmp_le c x z) as H3 by by etrans.
    destruct (c x z) eqn:Exz; [|done|by apply H3].
    apply (cmp_eq_sym c) in Exz.
    assert (c x y = Eq) as Exy.
    { apply (cmp_antisym c); [done|]. eapply (cmp_le_trans c); [exact H2|by rewrite Exz]. }
    assert (c y z = Eq) as Eyz.
    { apply (cmp_antisym c); [done|]. eapply (cmp_le_trans c); [|exact H1]. by rewrite Exz. }
    rewrite Exy in Hxy. rewrite Eyz in Hyz. cbn in *.
    exact (cmp_le_trans d _ _ _ Hxy Hyz Hxz).
Qed.
End then_with.

Section list_cmp.
Context {A : Type} (cmp : A -> A -> comparison) `{!TotalCmp cmp}.

Lemma list_cmp_total : TotalCmp (list_cmp cmp).
Proof.
  split.
  - intros l. induction l as [|x l IH]; intros [|y k]; cbn; [done..|].
    rewrite (cmp_opp cmp x y). destruct (cmp x y); cbn; [apply IH|done..].
  - intros l. induction l as [|x l IH]; intros [|y k] [|z m]; cbn; [done..|]. intros H1 H2 H3.
    assert (cmp_le cmp x y) as L1 by (unfold cmp_le; destruct (cmp x y); naive_solver).
    assert (cmp_le cmp y z) as L2 by (unfold cmp_le; destruct (cmp y z); naive_solver).
    assert (cmp_le cmp x z) as L3 by by etrans.
    destruct (cmp x z) eqn:Exz; [|done|by apply L3].
    apply (cmp_eq_sym cmp) in Exz.
    assert (cmp x y = Eq) as Exy.
    { apply (cmp_antisym cmp); [done|]. eapply (cmp_le_trans cmp); [exact L2|by rewrite Exz]. }
    assert (cmp y z = Eq) as Eyz.
    { apply (cmp_antisym cmp); [done|]. eapply (cmp_le_trans cmp); [|exact L1]. by rewrite Exz. }
    rewrite Exy in H1. rewrite Eyz in H2. cbn in *.
    exact (IH _ _ H1 H2 H3).
Qed.

Lemma list_cmp_eq l k : (forall x y, cmp x y = Eq -> x = y) -> list_cmp cmp l k = Eq -> l = k.
Proof.
  intros Hc. revert k. induction l as [|x l IH]; intros [|y k]; cbn; [done..|].
  destruct (cmp x y) eqn:E; cbn; [|done..]. intros H. f_equal; [by apply Hc|by apply IH].
Qed.
End list_cmp.

#[export] Instance byte_cmp_total : TotalCmp byte_cmp.
Proof. exact (comap_total Byte.to_N N.compare). Qed.
#[export] Instance bytes_cmp_total : TotalCmp bytes_cmp.
Proof. apply list_cmp_total, byte_cmp_total. Qed.

Lemma byte_cmp_eq x y : byte_cmp x y = Eq -> x = y.
Proof.
  unfold byte_cmp. intros H%N.compare_eq.
  assert (Some x = Some y) as [= ->]; [|done].
  by rewrite <-(Byte.of_to_N x), <-(Byte.of_to_N y), H.
Qed.

Lemma bytes_cmp_eq l k : bytes_cmp l k = Eq <-> l = k.
Proof.
  split; [apply list_cmp_eq, byte_cmp_eq|].
  intros ->. apply (cmp_refl bytes_cmp).
Qed.

(** ** Binary search *)
Section search.
Context {A : Type} (cmp : A -> comparison) (l : list A).

(** The comparisons do not decrease along the list: first [Lt], then [Eq], then [Gt]. *)
Definition ascending : Prop := forall i j x y, (i <= j)%nat -> l !! i = Some x -> l !! j = Some y ->
  (cmp x = Gt -> cmp y = Gt) /\ (cmp y = Lt -> cmp x = Lt).

Lemma search_loop_spec fuel : forall size base, ascending -> (size <= fuel)%nat -> (1 <= size)%nat -> (base + size <= length l)%nat ->
  (forall x, l !! base = Some x -> base = 0%nat \/ cmp x <> Gt) ->
  (forall j x, (base + size <= j)%nat -> l !! j = Some x -> cmp x = Gt) ->
  let r := search_loop cmp l fuel size base in
  (r < length l)%nat /\ (forall x, l !! r = Some x -> r = 0%nat \/ cmp x <> Gt)
  /\ (forall j x, (r < j)%nat -> l !! j = Some x -> cmp x = Gt).
Proof.
  induction fuel as [|fuel IH]; intros size base Ha Hf H1 Hb Hlow Hhigh; [lia|]. cbn [search_loop].
  destruct (Nat.ltb_spec 1 size) as [Hs|Hs].
  - pose proof (Nat.Div0.mul_div_le size 2). assert (1 <= size / 2 < size)%nat as Hh.
    { split; [by apply (Nat.div_le_mono 2 size 2); lia|]. apply Nat.div_lt; lia. }
    destruct (lookup_lt_is_Some_2 l (base + size / 2)) as [m Hm]; [lia|]. rewrite Hm. cbn [fmap option_fmap option_map].
    assert (Hup : forall j x, (base + size / 2 <= j)%nat -> l !! j = Some x -> cmp m = Gt -> cmp x = Gt).
    { intros j x Hj Hx Hg. by apply (Ha _ _ _ _ Hj Hm Hx). }
    destruct (cmp m) eqn:Hc.
    1-2: apply IH; [done|lia..| |]; [intros x Hx; rewrite Hm in Hx; injection Hx as <-; right; congruence|
      intros j x Hj; apply Hhigh; lia].
    apply IH; [done|lia..|done|]. intros j x Hj Hx. apply (Hup j x); [lia|done|done].
  - split; [lia|]. split; [done|]. intros j x Hj. apply Hhigh. lia.
Qed.

(** Nothing is missed: an absent result means no element compares equal. *)
Lemma binary_search_complete : ascending ->
  match binary_search_by cmp l with
  | Ok i => cmp <$> l !! i = Some Eq
  | Err k => (k <= length l)%nat /\ (forall j x, (j < k)%nat -> l !! j = Some x -> cmp x = Lt)
      /\ (forall j x, (k <= j)%nat -> l !! j = Some x -> cmp x = Gt)
  | Panic => False
  end.
Proof.
  intros Ha. unfold binary_search_by. destruct (decide (l = [])) as [->|Hn].
  { cbn. split; [lia|]. split; intros j x Hj Hx; by rewrite lookup_nil in Hx. }
  assert (1 <= length l)%nat by (destruct l; cbn; [done|lia]).
  destruct (search_loop_spec (length l) (length l) 0 Ha) as (Hr & Hlow & Hhigh); [lia..| | |].
  { intros x _. by left. }
  { intros j x Hj Hx%lookup_lt_Some. lia. }
  set (r := search_loop cmp l (length l) (length l) 0) in *. destruct (lookup_lt_is_Some_2 l r Hr) as [m Hm].
  rewrite Hm. cbn [fmap option_fmap option_map]. destruct (cmp m) eqn:Hc.
  - rewrite Hm. cbn. by rewrite Hc.
  - split; [lia|]. split.
    + intros j x Hj Hx. by apply (Ha j r x m ltac:(lia) Hx Hm).
    + intros j x Hj. apply Hhigh. lia.
  - destruct (Hlow m Hm) as [Hz|?]; [|done]. split; [lia|]. split; [intros j x Hj; lia|].
    intros j x Hj Hx. destruct (decide (j = r)) as [->|Hne]; [congruence|]. apply (Hhigh j x); [lia|done].
Qed.
End search.

(** On a partitioned list, the point is where the predicate stops to hold. *)
Lemma partition_point_spec {A} (pred : A -> bool) (l : list A) :
  (forall i j x y, (i <= j)%nat -> l !! i = Some x -> l !! j = Some y -> pred y = true -> pred x = true) ->
  let k := partition_point pred l in
  (k <= length l)%nat /\ (forall j x, l !! j = Some x -> pred x = true <-> (j < k)%nat).
Proof.
  intros Hp. unfold partition_point. set (cmp := fun x => if pred x then Lt else Gt).
  assert (ascending cmp l) as Ha.
  { intros i j x y Hij Hx Hy. unfold cmp. specialize (Hp i j x y Hij Hx Hy).
    destruct (pred x), (pred y); split; intros ?; try done; by specialize (Hp eq_refl). }
  pose proof (binary_search_complete cmp l Ha) as Hs. destruct (binary_search_by cmp l) as [i|k|]; [|cbn|done].
  - exfalso. unfold cmp in Hs. destruct (l !! i) as [x|]; cbn in Hs; [by destruct (pred x)|done].
  - destruct Hs as (Hk & Hlow & Hhigh). split; [done|]. intros j x Hx. split.
    + intros Hpx. destruct (decide (j < k)%nat); [done|]. specialize (Hhigh j x ltac:(lia) Hx). unfold cmp in Hhigh. by rewrite Hpx in Hhigh.
    + intros Hj. specialize (Hlow j x Hj Hx). unfold cmp in Hlow. by destruct (pred x).
Qed.

(** ** Minima, maxima, chunks *)
Lemma min_by_spec {A} (key : A -> N) l :
  match min_by key l with
  | None => l = []
  | Some x => x ∈ l /\ forall y, y ∈ l -> (key x <= key y)%N
  end.
Proof.
  induction l as [|x l IH]; cbn; [done|]. destruct (min_by key l) as [y|].
  - destruct IH as [Hy Hmin]. destruct (N.ltb_spec (key y) (key x)) as [Hlt|Hge].
    + split; [by right|]. intros z [->|Hz]%elem_of_cons; [lia|auto].
    + split; [by left|]. intros z [->|Hz]%elem_of_cons; [lia|]. specialize (Hmin z Hz). lia.
  - subst. split; [by left|]. intros z [->|?]%elem_of_cons; [lia|set_solver].
Qed.

Lemma max_by_elem {A} (cmp : A -> A -> comparison) l x : max_by cmp l = Some x -> x ∈ l.
Proof.
  destruct l as [|a l]; [done|]. cbn [max_by]. intros [= <-]. revert a.
  induction l as [|b l IH]; intros a; cbn [fold_left]; [by left|].
  specialize (IH (match cmp a b with Gt => a | _ => b end)). destruct (cmp a b); set_solver.
Qed.

Lemma max_by_none {A} (cmp : A -> A -> comparison) l : max_by cmp l = None -> l = [].
Proof. by destruct l. Qed.

(** The maximum of a total order is above every element. *)
Lemma max_by_greatest {A} (cmp : A -> A -> comparison) `{!TotalCmp cmp} l x :
  max_by cmp l = Some x -> forall y, y ∈ l -> cmp_le cmp y x.
Proof.
  destruct l as [|a l]; [done|]. cbn [max_by]. intros [= <-]. revert a.
  induction l as [|b l IH]; intros a y; cbn [fold_left].
  - intros Hy%list_elem_of_singleton. subst. by apply cmp_le_refl.
  - set (m := match cmp a b with Gt => a | _ => b end). specialize (IH m).
    pose proof (IH m ltac:(by left)) as Hm. assert (cmp_le cmp a m /\ cmp_le cmp b m) as [Ha Hb].
    { unfold m, cmp_le. destruct (cmp a b) eqn:E; rewrite ?(cmp_refl cmp), ?E; [done..|].
      apply (cmp_gt_lt cmp) in E. by rewrite E. }
    intros [->|[->|Hy]%elem_of_cons]%elem_of_cons; [by apply (cmp_le_trans cmp _ m)..|]. apply IH. by right.
Qed.

Lemma chunks_loop_concat {A} fuel k (l : list A) :
  (0 < k)%nat -> (length l <= fuel)%nat -> concat (chunks_loop fuel k l) = l.
Proof.
  intros Hk. revert l. induction fuel as [|fuel IH]; intros [|x l] Hl; cbn in Hl; try done; [lia|].
  cbn [chunks_loop concat]. rewrite IH by (rewrite length_drop; cbn; lia). apply take_drop.
Qed.

Lemma chunks_concat {A} k (l : list A) : (0 < k)%nat -> concat (chunks k l) = l.
Proof. intros Hk. by apply chunks_loop_concat. Qed.
