(* ===== verification/Hash.v ===== *)
(** * Block identifiers and block errors

    [BlockHash] is the 32-byte array of crates/lexongraph-block/src/lib.rs; its
    length is part of the type, as in the source. [BlockError] is the error enum
    of that crate, [BlockError_to_string] its [Display]. SHA-256 itself comes from
    a third-party crate: it is the operation of the class [Sha256]. *)
From S2P Require Import Prelude Ordering.

Notation byte := Byte.byte.
Notation bytes := (list Byte.byte).

#[export] Instance byte_eq_dec : EqDecision byte := Byte.byte_eq_dec.
#[export] Program Instance byte_countable : Countable byte :=
  inj_countable Byte.to_N Byte.of_N _.
Next Obligation. intros x. apply Byte.of_to_N. Qed.

(** [BlockHash::LEN] *)
Definition BlockHash_LEN : nat := 32.

(** [pub struct BlockHash([u8; 32])] *)
Record BlockHash := MkHash {
  as_bytes : bytes;
  as_bytes_len : (length as_bytes =? BlockHash_LEN)%nat = true
}.

(** The conversion of a slice to an array: [Some] exactly for 32 bytes. *)
Definition hash_of_bytes (l : bytes) : option BlockHash :=
  match Sumbool.sumbool_of_bool (length l =? BlockHash_LEN)%nat with
  | left H => Some (MkHash l H)
  | right _ => None
  end.

(** *** Hexadecimal display *)
Definition hex_digit (n : N) : Ascii.ascii :=
  Ascii.ascii_of_N (if (n <? 10)%N then 48 + n else 87 + n).

Fixpoint hex_of_bytes (l : bytes) : string :=
  match l with
  | [] => EmptyString
  | b :: l' =>
      String (hex_digit (Byte.to_N b / 16))
        (String (hex_digit (Byte.to_N b mod 16)) (hex_of_bytes l'))
  end.

(** [impl fmt::Display for BlockHash] and [impl fmt::Debug for BlockHash] *)
Definition BlockHash_to_string (h : BlockHash) : string := hex_of_bytes (as_bytes h).
Definition BlockHash_debug (h : BlockHash) : string :=
  ("BlockHash(" +:+ BlockHash_to_string h +:+ ")")%stdpp.

(** [h.as_bytes().cmp(k.as_bytes())] *)
Definition hash_cmp (h k : BlockHash) : comparison := bytes_cmp (as_bytes h) (as_bytes k).

(** [pub enum BlockError] *)
Inductive BlockError :=
| HashMismatch (expected actual : BlockHash)
| MalformedCbor (message : string)
| UnsupportedVersion (version : N)
| InvalidFieldKey (context : string)
| MissingField (context : string) (key : N)
| InvalidBlockLevel (level : N)
| InvalidEntryShape (message : string)
| NonConforming (message : string)
| UnsupportedValue (message : string).

(** [impl fmt::Display for BlockError] *)
Definition BlockError_to_string (e : BlockError) : string :=
  match e with
  | HashMismatch expected actual =>
      "block hash mismatch: expected " +:+ BlockHash_to_string expected
        +:+ ", got " +:+ BlockHash_to_string actual
  | MalformedCbor message => "malformed CBOR: " +:+ message
  | UnsupportedVersion version => "unsupported block version " +:+ pretty version
  | InvalidFieldKey context => "invalid field-key usage while decoding " +:+ context
  | MissingField context key =>
      "missing required field " +:+ pretty key +:+ " in " +:+ context
  | InvalidBlockLevel level => "invalid block level " +:+ pretty level
  | InvalidEntryShape message => message
  | NonConforming message => message
  | UnsupportedValue message => message
  end%stdpp.

(** [impl TryFrom<&[u8]> for BlockHash] *)
Definition BlockHash_try_from (value : bytes) : result BlockError BlockHash :=
  ok_or (hash_of_bytes value) (InvalidEntryShape "block hashes must be 32 bytes").

(** The digest function of the [sha2] crate. *)
Class Sha256 := sha256 : bytes -> BlockHash.

(** [compute_block_hash] *)
Definition compute_block_hash `{Sha256} (b : bytes) : BlockHash := sha256 b.

(** ** Lemmas *)
Lemma BlockHash_eq h k : as_bytes h = as_bytes k -> h = k.
Proof.
  destruct h as [l H], k as [l' H']; cbn; intros <-. f_equal.
  apply proof_irrel.
Qed.

#[export] Instance BlockHash_eq_dec : EqDecision BlockHash.
Proof.
  intros h k. destruct (decide (as_bytes h = as_bytes k)) as [E|E].
  - left. by apply BlockHash_eq.
  - right. by intros ->.
Defined.

Lemma hash_of_as_bytes h : hash_of_bytes (as_bytes h) = Some h.
Proof.
  unfold hash_of_bytes. destruct (Sumbool.sumbool_of_bool _) as [E|E].
  - f_equal. by apply BlockHash_eq.
  - destruct h as [l H]; cbn in *. congruence.
Qed.

Lemma hash_of_bytes_Some l h : hash_of_bytes l = Some h <-> as_bytes h = l.
Proof.
  split.
  - unfold hash_of_bytes. destruct (Sumbool.sumbool_of_bool _); by intros [= <-].
  - intros <-. apply hash_of_as_bytes.
Qed.

#[export] Instance BlockHash_countable : Countable BlockHash :=
  inj_countable as_bytes hash_of_bytes hash_of_as_bytes.

#[export] Instance BlockError_eq_dec : EqDecision BlockError.
Proof. solve_decision. Defined.

Lemma as_bytes_length h : length (as_bytes h) = BlockHash_LEN.
Proof. apply Nat.eqb_eq, as_bytes_len. Qed.

Lemma BlockHash_try_from_as_bytes h : BlockHash_try_from (as_bytes h) = Ok h.
Proof. unfold BlockHash_try_from. by rewrite hash_of_as_bytes. Qed.

Lemma BlockHash_try_from_no_panic l : no_panic (BlockHash_try_from l).
Proof. apply ok_or_no_panic. Qed.
#[export] Hint Resolve BlockHash_try_from_no_panic : no_panic.

#[export] Instance hash_cmp_total : TotalCmp hash_cmp.
Proof. exact (comap_total as_bytes bytes_cmp). Qed.

Lemma hash_cmp_eq h k : hash_cmp h k = Eq <-> h = k.
Proof.
  unfold hash_cmp. rewrite bytes_cmp_eq. split; [apply BlockHash_eq|by intros ->].
Qed.
