(* ===== verification/Cbor.v ===== *)
(** * CBOR values and their canonical form

    [Value] is the value type of the third-party crate [ciborium], with the
    constructors crates/lexongraph-block/src/lib.rs matches on; [VUnknown] stands
    for the variants the enum's [non_exhaustive] attribute reserves. The writer
    and the reader of that crate are the operations of the class [CborCodec]; what
    the code relies on of them is the class [CborLaws]. Canonicalisation itself is
    the repository's code and is defined here: [canonical_value_cmp],
    [canonicalize_value], [normalize_map], [canonicalize_metadata]. *)
From S2P Require Import Prelude Ordering Hash.

Inductive Value :=
| VInteger (z : Z)
| VBytes (b : bytes)
| VFloat (bits : N)
| VText (s : string)
| VBool (b : bool)
| VNull
| VTag (tag : N) (nested : Value)
| VArray (values : list Value)
| VMap (entries : list (Value * Value))
| VUnknown (variant : N).

(** [pub type Metadata], [pub type ExtensionMap] *)
Notation Metadata := (list (Value * Value)).
Notation ExtensionMap := (list (Value * Value)).

(** [into_writer] into a [Vec<u8>] and [from_reader] over a cursor. Writing to a
    [Vec] cannot fail; reading gives the message of the error, or the value with
    the position of the cursor after it. *)
Class CborCodec := {
  into_writer : Value -> bytes;
  from_reader : bytes -> string + (Value * N)
}.

(** *** The values a reader gives back as they were written *)
Definition byte_in (lo hi n : N) : bool := ((lo <=? n) && (n <=? hi))%N.

(** Well-formed UTF-8, which a Rust [String] always is. *)
Fixpoint utf8_valid (l : list N) : bool :=
  match l with
  | [] => true
  | a :: l1 =>
      if (a <=? 127)%N then utf8_valid l1
      else match l1 with
      | [] => false
      | b :: l2 =>
          if byte_in 194 223 a then byte_in 128 191 b && utf8_valid l2
          else match l2 with
          | [] => false
          | c :: l3 =>
              if byte_in 224 239 a then
                byte_in (if (a =? 224)%N then 160 else 128) (if (a =? 237)%N then 159 else 191) b
                && byte_in 128 191 c && utf8_valid l3
              else match l3 with
              | [] => false
              | d :: l4 =>
                  byte_in 240 244 a
                  && byte_in (if (a =? 240)%N then 144 else 128) (if (a =? 244)%N then 143 else 191) b
                  && byte_in 128 191 c && byte_in 128 191 d && utf8_valid l4
              end
          end
      end
  end.

Fixpoint string_codes (s : string) : list N :=
  match s with
  | EmptyString => []
  | String a s' => Ascii.N_of_ascii a :: string_codes s'
  end.

Definition is_bignum_tag (tag : N) (v : Value) : bool :=
  match v with VBytes _ => (tag =? 2)%N || (tag =? 3)%N | _ => false end.

(** Values of the data model that survive a write and a read: integers of CBOR's
    two 64-bit ranges, 64-bit float patterns and tags, UTF-8 text, and no tagged
    byte string that a reader takes for a big integer; lengths fit in 64 bits. *)
Definition short {A} (l : list A) : bool := (len l <? 2 ^ 64)%N.

Fixpoint codec_ok (v : Value) : bool :=
  match v with
  | VInteger z => (- 2 ^ 64 <=? z)%Z && (z <? 2 ^ 64)%Z
  | VFloat n => (n <? 2 ^ 64)%N
  | VBytes b => short b
  | VText s => short (string_codes s) && utf8_valid (string_codes s)
  | VTag t n => (t <? 2 ^ 64)%N && negb (is_bignum_tag t n) && codec_ok n
  | VArray vs => short vs && forallb codec_ok vs
  | VMap es => short es && forallb (fun e => codec_ok e.1 && codec_ok e.2) es
  | VBool _ | VNull => true
  | VUnknown _ => false
  end.

Definition max_list (l : list nat) : nat := foldr Nat.max 0 l.

Fixpoint depth (v : Value) : nat :=
  match v with
  | VTag _ n => S (depth n)
  | VArray vs => S (max_list (map depth vs))
  | VMap es => S (max_list (map (fun e => Nat.max (depth e.1) (depth e.2)) es))
  | _ => 0
  end.

(** What the code relies on of the codec: reading inverts writing, up to the
    reader's nesting limit, and stops right after the value. *)
Class CborLaws `{CborCodec} := {
  recursion_limit : nat;
  from_reader_into_writer v :
    codec_ok v = true -> depth v <= recursion_limit ->
    from_reader (into_writer v) = inr (v, len (into_writer v))
}.

(** The encoding of an array or a map: a head, then the encodings of what it holds, one
    after the other (RFC 8949, definite lengths); no encoding is empty. *)
Class CborLayout `{CborCodec} := {
  write_nonempty v : into_writer v <> [];
  write_array vs : exists head, head <> [] /\ into_writer (VArray vs) = head ++ concat (map into_writer vs);
  write_map es : exists head, head <> []
    /\ into_writer (VMap es) = head ++ concat (map (fun e => into_writer e.1 ++ into_writer e.2) es)
}.

(** ** Canonical values *)
Section canonical.
Context `{CborCodec}.

(** [encoded_value_bytes] *)
Definition encoded_value_bytes (value : Value) : bytes := into_writer value.

(** [canonical_value_cmp]: by encoded length, then bytewise. *)
Definition canonical_value_cmp (left right : Value) : comparison :=
  let left_bytes := encoded_value_bytes left in
  let right_bytes := encoded_value_bytes right in
  then_with (N.compare (len left_bytes) (len right_bytes)) (bytes_cmp left_bytes right_bytes).

Definition entry_key_cmp (left right : Value * Value) : comparison :=
  canonical_value_cmp left.1 right.1.

Definition dup_key_error : BlockError :=
  NonConforming "duplicate map keys are not permitted in canonical blocks".
Definition unsupported_value_error : BlockError :=
  UnsupportedValue "unsupported CBOR value encountered during canonicalization".

(** The tail of the map arm: sort by key, then refuse equal neighbours. *)
Definition sort_map_entries (normalized : list (Value * Value)) : result BlockError Value :=
  let sorted := sort_by entry_key_cmp normalized in
  guard? negb (has_equal_pair entry_key_cmp sorted) else dup_key_error in
  Ok (VMap sorted).

(** [canonicalize_value] *)
Fixpoint canonicalize_value (value : Value) : result BlockError Value :=
  match value with
  | VInteger _ | VBytes _ | VFloat _ | VText _ | VBool _ | VNull => Ok value
  | VTag tag nested => rmap (VTag tag) (canonicalize_value nested)
  | VArray values => rmap VArray (collect_map canonicalize_value values)
  | VMap entries =>
      let? normalized :=
        collect_map (fun e =>
          match e with
          | (key, value) =>
              let? key' := canonicalize_value key in
              let? value' := canonicalize_value value in
              Ok (key', value')
          end) entries in
      sort_map_entries normalized
  | VUnknown _ => Err unsupported_value_error
  end.

Definition canonicalize_entry (e : Value * Value) : result BlockError (Value * Value) :=
  match e with
  | (key, value) =>
      let? key' := canonicalize_value key in
      let? value' := canonicalize_value value in
      Ok (key', value')
  end.

(** [normalize_map]; its last arm is [unreachable!]. *)
Definition normalize_map (entries : list (Value * Value)) : result BlockError (list (Value * Value)) :=
  let? v := canonicalize_value (VMap entries) in
  match v with
  | VMap entries => Ok entries
  | _ => Panic
  end.

(** [normalize_optional_map] *)
Definition normalize_optional_map (value : option ExtensionMap)
  : result BlockError (option ExtensionMap) := opt_transpose normalize_map value.

(** [canonicalize_metadata] *)
Definition canonicalize_metadata (metadata : Metadata) : result BlockError Metadata :=
  normalize_map metadata.

(** [decode_single_cbor_value] *)
Definition decode_single_cbor_value (b : bytes) : result BlockError Value :=
  match from_reader b with
  | inl message => Err (MalformedCbor message)
  | inr (value, position) =>
      if (position =? len b)%N then Ok value
      else Err (MalformedCbor "trailing bytes after the top-level CBOR value")
  end.

(** The canonical values: every map strictly sorted by encoded key. *)
Fixpoint canonical (v : Value) : Prop :=
  match v with
  | VTag _ n => canonical n
  | VArray vs => foldr (fun v P => canonical v /\ P) True vs
  | VMap es =>
      foldr (fun e P => (canonical e.1 /\ canonical e.2) /\ P) True es
      /\ StronglySorted (cmp_lt entry_key_cmp) es
  | VUnknown _ => False
  | _ => True
  end.

(** Two values are the same up to the order of map entries, at every depth. *)
Inductive value_equiv : Value -> Value -> Prop :=
| ve_refl v : value_equiv v v
| ve_tag t v w : value_equiv v w -> value_equiv (VTag t v) (VTag t w)
| ve_array vs ws : Forall2 value_equiv vs ws -> value_equiv (VArray vs) (VArray ws)
| ve_map es es' fs :
    es ≡ₚ es' -> Forall2 (fun e f => value_equiv e.1 f.1 /\ value_equiv e.2 f.2) es' fs ->
    value_equiv (VMap es) (VMap fs).
End canonical.

(** ** Induction on values *)
Section Value_induction.
Context (P : Value -> Prop).
Context (Hint' : forall z, P (VInteger z)) (Hbytes : forall b, P (VBytes b))
  (Hfloat : forall n, P (VFloat n)) (Htext : forall s, P (VText s))
  (Hbool : forall b, P (VBool b)) (Hnull : P VNull)
  (Htag : forall t v, P v -> P (VTag t v))
  (Harray : forall vs, Forall P vs -> P (VArray vs))
  (Hmap : forall es, Forall (fun e => P e.1 /\ P e.2) es -> P (VMap es))
  (Hunknown : forall n, P (VUnknown n)).

Fixpoint Value_nested_ind (v : Value) : P v :=
  match v with
  | VInteger z => Hint' z
  | VBytes b => Hbytes b
  | VFloat n => Hfloat n
  | VText s => Htext s
  | VBool b => Hbool b
  | VNull => Hnull
  | VTag t n => Htag t n (Value_nested_ind n)
  | VArray vs =>
      Harray vs ((fix go l : Forall P l :=
        match l with
        | [] => Forall_nil_2 P
        | x :: l' => Forall_cons_2 P x l' (Value_nested_ind x) (go l')
        end) vs)
  | VMap es =>
      Hmap es ((fix go l : Forall (fun e => P e.1 /\ P e.2) l :=
        match l with
        | [] => Forall_nil_2 _
        | x :: l' => Forall_cons_2 (fun e : Value * Value => P e.1 /\ P e.2) x l'
            (conj (Value_nested_ind x.1) (Value_nested_ind x.2)) (go l')
        end) es)
  | VUnknown n => Hunknown n
  end.
End Value_induction.

(** ** Lemmas *)
Section canonical_lemmas.
Context `{CborCodec}.

#[export] Instance canonical_value_cmp_total : TotalCmp canonical_value_cmp.
Proof.
  pose proof (comap_total (@len byte) N.compare) as Hlen.
  pose proof (then_with_total (fun l r => N.compare (len l) (len r)) bytes_cmp) as Hboth.
  exact (comap_total encoded_value_bytes
    (fun l r => then_with (N.compare (len l) (len r)) (bytes_cmp l r))).
Qed.

#[export] Instance entry_key_cmp_total : TotalCmp entry_key_cmp.
Proof. exact (comap_total fst canonical_value_cmp). Qed.

(** Equal in the canonical order means equal encodings. *)
Lemma canonical_value_cmp_eq v w :
  canonical_value_cmp v w = Eq <-> into_writer v = into_writer w.
Proof.
  unfold canonical_value_cmp, encoded_value_bytes. split.
  - destruct (N.compare _ _) eqn:E; cbn; [|done..]. by intros ?%bytes_cmp_eq.
  - intros ->. rewrite N.compare_refl. cbn. by apply bytes_cmp_eq.
Qed.

Lemma canonicalize_map_eq es :
  canonicalize_value (VMap es) = let? n := collect_map canonicalize_entry es in sort_map_entries n.
Proof. done. Qed.

Lemma canonicalize_entry_ok e f :
  canonicalize_entry e = Ok f <->
  canonicalize_value e.1 = Ok f.1 /\ canonicalize_value e.2 = Ok f.2.
Proof.
  destruct e as [k v], f as [k' v']; cbn. split.
  - intros ?. inv_ok. naive_solver.
  - by intros [-> ->].
Qed.

Lemma sort_map_entries_ok n v :
  sort_map_entries n = Ok v <->
  v = VMap (sort_by entry_key_cmp n) /\ StronglySorted (cmp_lt entry_key_cmp) (sort_by entry_key_cmp n).
Proof.
  unfold sort_map_entries.
  rewrite <-(has_equal_pair_sorted entry_key_cmp) by apply (sort_by_sorted entry_key_cmp).
  destruct (has_equal_pair _ _); cbn; naive_solver.
Qed.

Lemma canonical_array vs : canonical (VArray vs) <-> Forall canonical vs.
Proof. cbn. induction vs; cbn; [done|]. rewrite Forall_cons. tauto. Qed.

Lemma canonical_map es :
  canonical (VMap es) <->
  Forall (fun e => canonical e.1 /\ canonical e.2) es /\ StronglySorted (cmp_lt entry_key_cmp) es.
Proof.
  cbn. apply and_iff_compat_r. induction es; cbn; [done|]. rewrite Forall_cons. tauto.
Qed.

(** A canonicalised value is canonical. *)
Lemma canonicalize_canonical v v' : canonicalize_value v = Ok v' -> canonical v'.
Proof.
  revert v'. induction v as [| | | | | |t n IH|vs IH|es IH|] using Value_nested_ind;
    intros v' Hv; try (by injection Hv as <-); [..|done].
  - cbn in Hv. inv_ok. subst. exact (IH _ Hv).
  - cbn in Hv. inv_ok. subst. apply canonical_array. apply collect_map_ok in Hv.
    revert IH. induction Hv; inversion 1; subst; constructor; eauto.
  - rewrite canonicalize_map_eq in Hv. inv_ok. apply sort_map_entries_ok in Hv as [-> Hs].
    apply canonical_map. split; [|done]. rewrite (sort_by_Permutation entry_key_cmp).
    apply collect_map_ok in Hok. clear Hs. revert IH.
    induction Hok as [|e f es fs Hef Hes IHes]; inversion 1 as [|? ? [??]]; subst; constructor; [|auto].
    apply canonicalize_entry_ok in Hef as [??]. eauto.
Qed.

(** A canonical value is its own canonical form. *)
Lemma canonicalize_id v : canonical v -> canonicalize_value v = Ok v.
Proof.
  induction v as [| | | | | |t n IH|vs IH|es IH|] using Value_nested_ind;
    intros Hv; try done.
  - cbn in *. by rewrite IH.
  - apply canonical_array in Hv. cbn. rewrite collect_map_id; [done|].
    intros v Hin. rewrite Forall_forall in IH, Hv. auto.
  - apply canonical_map in Hv as [Hv Hs]. rewrite canonicalize_map_eq.
    rewrite collect_map_id.
    + cbn. apply sort_map_entries_ok.
      rewrite (sort_by_id entry_key_cmp) by by apply (sorted_lt_le entry_key_cmp). done.
    + intros e Hin. rewrite Forall_forall in IH, Hv. apply canonicalize_entry_ok.
      destruct (IH _ Hin), (Hv _ Hin). auto.
Qed.

Lemma canonicalize_idempotent v v' :
  canonicalize_value v = Ok v' -> canonicalize_value v' = Ok v'.
Proof. intros H0. by eapply canonicalize_id, canonicalize_canonical. Qed.

Lemma canonicalize_no_panic v : no_panic (canonicalize_value v).
Proof.
  induction v as [| | | | | |t n IH|vs IH|es IH|] using Value_nested_ind; try done.
  - cbn. np.
  - cbn. np. rewrite Forall_forall in IH. by apply IH.
  - rewrite canonicalize_map_eq. np.
    + destruct x as [k v]. rewrite Forall_forall in IH. destruct (IH _ H0) as [??].
      cbn in *. by np.
    + unfold sort_map_entries. np.
Qed.

Lemma normalize_map_ok es es' :
  normalize_map es = Ok es' <-> canonicalize_value (VMap es) = Ok (VMap es').
Proof.
  unfold normalize_map. split.
  - intros ?. inv_ok. by destruct a; inv_ok; subst.
  - by intros ->.
Qed.

Lemma canonicalize_map_shape es v : canonicalize_value (VMap es) = Ok v -> exists es', v = VMap es'.
Proof.
  rewrite canonicalize_map_eq. intros ?. inv_ok.
  apply sort_map_entries_ok in H0 as [-> _]. eauto.
Qed.

(** [unreachable!("canonicalizing a map must return a map")] is not reached. *)
Lemma normalize_map_no_panic es : no_panic (normalize_map es).
Proof.
  unfold normalize_map. apply rbind_no_panic; [apply canonicalize_no_panic|].
  by intros v [es' ->]%canonicalize_map_shape.
Qed.

Lemma normalize_map_canonical es es' : normalize_map es = Ok es' -> canonical (VMap es').
Proof. intros ?%normalize_map_ok. by eapply canonicalize_canonical. Qed.

Lemma normalize_map_id es : canonical (VMap es) -> normalize_map es = Ok es.
Proof. intros ?%canonicalize_id. by apply normalize_map_ok. Qed.

Lemma normalize_optional_map_ok o o' :
  normalize_optional_map o = Ok o' <->
  match o, o' with
  | None, None => True
  | Some es, Some es' => normalize_map es = Ok es'
  | _, _ => False
  end.
Proof. apply opt_transpose_ok. Qed.

(** The canonical form only depends on the value up to the order of map entries. *)
Lemma canonicalize_equiv v w c :
  value_equiv v w -> canonicalize_value v = Ok c -> canonicalize_value w = Ok c.
Proof.
  revert w c. induction v as [| | | | | |t n IH|vs IH|es IH|] using Value_nested_ind;
    intros w c Hw Hc; inversion Hw as [|? ? ? Hn|? ws Hws|? es' fs HP Hfs]; subst; try done.
  - cbn in *. inv_ok. subst. by erewrite IH by done.
  - cbn in *. inv_ok. subst. apply collect_map_ok in Hc.
    assert (collect_map canonicalize_value ws = Ok a) as ->; [|done].
    apply collect_map_ok. clear Hw. revert a Hc IH.
    induction Hws as [|v w vs ws Hvw Hvs IHvs]; intros a Hc IH;
      inversion Hc; inversion IH; subst; constructor; eauto.
  - rewrite canonicalize_map_eq in *. inv_ok.
    destruct (collect_map_Permutation _ _ _ _ HP Hok) as (b & Hb & HPb).
    assert (collect_map canonicalize_entry fs = Ok b) as ->.
    { apply collect_map_ok in Hb. apply collect_map_ok. rewrite HP in IH. clear -IH Hb Hfs.
      revert b Hb IH. induction Hfs as [|e f es fs [H1 H2] Hfs IHfs]; intros b Hb IH;
        inversion Hb as [|? g ? ? Hg]; inversion IH as [|? ? [??]]; subst; constructor; [|by auto].
      apply canonicalize_entry_ok in Hg as [??]. apply canonicalize_entry_ok. eauto. }
    cbn. apply sort_map_entries_ok in Hc as [-> Hs]. apply sort_map_entries_ok.
    rewrite (sort_by_perm_unique entry_key_cmp a b) by done. done.
Qed.

(** The canonical form is the same value up to the order of map entries. *)
Lemma canonicalize_equiv_self v c : canonicalize_value v = Ok c -> value_equiv v c.
Proof.
  revert c. induction v as [| | | | | |t n IH|vs IH|es IH|] using Value_nested_ind;
    intros c Hc; try (injection Hc as <-; constructor); [..|done].
  - cbn in *. inv_ok. subst. constructor. by apply IH.
  - cbn in *. inv_ok. subst. constructor. apply collect_map_ok in Hc.
    revert IH. induction Hc; inversion 1; subst; constructor; eauto.
  - rewrite canonicalize_map_eq in *. inv_ok. apply sort_map_entries_ok in Hc as [-> _].
    apply collect_map_ok in Hok.
    assert (Forall2 (fun e f => value_equiv e.1 f.1 /\ value_equiv e.2 f.2) es a) as HF.
    { clear -IH Hok. revert IH. induction Hok as [|e f es fs Hef]; inversion 1 as [|? ? [??]]; subst;
        constructor; [|auto]. apply canonicalize_entry_ok in Hef as [??]. eauto. }
    apply Forall2_flip in HF.
    destruct (Permutation_Forall2 (Permutation_sym (sort_by_Permutation entry_key_cmp a)) HF)
      as (es' & HP & HF').
    apply Forall2_flip in HF'. econstructor; done.
Qed.
End canonical_lemmas.
#[export] Hint Resolve canonicalize_no_panic normalize_map_no_panic : no_panic.
