(* ===== verification/Fields.v ===== *)
(** * Integer-keyed maps and their fields

    The decoding helpers at the end of crates/lexongraph-block/src/lib.rs: a CBOR
    map with unsigned integer keys becomes a [BTreeMap<u64, Value>] (here a
    [gmap N Value]), from which the parsers remove required and optional fields.
    A helper that takes the map by [&mut] returns the map it leaves. *)
From S2P Require Import Prelude Ordering Hash Cbor.

(** [int_value] *)
Definition int_value (value : N) : Value := VInteger (Z.of_N value).

(** [u64::try_from(integer)] *)
Definition u64_of_integer (z : Z) : option N :=
  if ((0 <=? z) && (z <? 2 ^ 64))%Z then Some (Z.to_N z) else None.

Notation fields := (gmap N Value).

Definition dup_field_error : BlockError := NonConforming "duplicate field key".

(** The loop of [integer_keyed_map]. *)
Fixpoint insert_fields (context : string) (acc : fields) (entries : list (Value * Value))
  : result BlockError fields :=
  match entries with
  | [] => Ok acc
  | (key, value) :: entries' =>
      let? key :=
        match key with
        | VInteger integer => ok_or (u64_of_integer integer) (InvalidFieldKey context)
        | _ => Err (InvalidFieldKey context)
        end in
      match acc !! key with
      | Some _ => Err dup_field_error
      | None => insert_fields context (<[key := value]> acc) entries'
      end
  end.

(** [integer_keyed_map] *)
Definition integer_keyed_map (value : Value) (context : string) : result BlockError fields :=
  match value with
  | VMap entries => insert_fields context ∅ entries
  | _ => Err (InvalidEntryShape "expected a CBOR map")
  end.

(** [expect_arbitrary_map] *)
Definition expect_arbitrary_map `{CborCodec} (value : Value) : result BlockError ExtensionMap :=
  let? v := canonicalize_value value in
  match v with
  | VMap entries => Ok entries
  | _ => Err (InvalidEntryShape "expected a CBOR map")
  end.

(** [expect_array] *)
Definition expect_array (value : Value) (message : string) : result BlockError (list Value) :=
  match value with
  | VArray values => Ok values
  | _ => Err (InvalidEntryShape message)
  end.

(** [required_field] *)
Definition required_field (f : fields) (key : N) (context : string)
  : result BlockError (Value * fields) :=
  let? v := ok_or (f !! key) (MissingField context key) in Ok (v, delete key f).

(** [required_u64_field] *)
Definition required_u64_field (f : fields) (key : N) (context : string)
  : result BlockError (N * fields) :=
  let? '(v, f') := required_field f key context in
  match v with
  | VInteger value =>
      let? n := ok_or (u64_of_integer value) (InvalidEntryShape "expected a uint") in Ok (n, f')
  | _ => Err (InvalidEntryShape "expected a uint")
  end.

(** [required_text_field] *)
Definition required_text_field (f : fields) (key : N) (context : string)
  : result BlockError (string * fields) :=
  let? '(v, f') := required_field f key context in
  match v with
  | VText value => Ok (value, f')
  | _ => Err (InvalidEntryShape "expected a text value")
  end.

(** [required_bytes_field] *)
Definition required_bytes_field (f : fields) (key : N) (context : string)
  : result BlockError (bytes * fields) :=
  let? '(v, f') := required_field f key context in
  match v with
  | VBytes value => Ok (value, f')
  | _ => Err (InvalidEntryShape "expected a byte string")
  end.

(** [fields.remove(&key)] *)
Definition remove_field (f : fields) (key : N) : option Value * fields := (f !! key, delete key f).

(** [reject_unknown_keys] *)
Definition reject_unknown_keys (f : fields) (allowed : list N) (context : string)
  : result BlockError unit :=
  if forallb (fun key => existsb (N.eqb key) allowed) (map_to_list f).*1
  then Ok tt else Err (InvalidFieldKey context).

(** A map value with integer keys, as the serialisers build it. *)
Definition int_entries (kvs : list (N * Value)) : list (Value * Value) :=
  map (fun kv => (int_value kv.1, kv.2)) kvs.

(** ** Lemmas *)
Lemma u64_of_integer_of_N n : (n < 2 ^ 64)%N -> u64_of_integer (Z.of_N n) = Some n.
Proof.
  intros Hn. unfold u64_of_integer.
  assert ((0 <=? Z.of_N n)%Z = true) as -> by lia.
  assert ((Z.of_N n <? 2 ^ 64)%Z = true) as -> by lia.
  by rewrite N2Z.id.
Qed.

Lemma u64_of_integer_Some z n : u64_of_integer z = Some n -> z = Z.of_N n /\ (n < 2 ^ 64)%N.
Proof. unfold u64_of_integer. destruct ((_ && _)%Z) eqn:E; intros [= <-]. lia. Qed.

Lemma insert_fields_ints ctx kvs acc :
  Forall (fun kv => kv.1 < 2 ^ 64)%N kvs -> NoDup kvs.*1 ->
  (forall k, k ∈ kvs.*1 -> acc !! k = None) ->
  insert_fields ctx acc (int_entries kvs) = Ok (list_to_map kvs ∪ acc).
Proof.
  revert acc. induction kvs as [|[k v] kvs IH]; intros acc HF HN Hacc; cbn.
  - by rewrite (left_id_L ∅ (∪)).
  - inversion HF; subst. inversion HN as [|? ? Hk HN']; subst. cbn in *.
    rewrite u64_of_integer_of_N by done. cbn. rewrite (Hacc k) by set_solver.
    rewrite IH; [|done|done|].
    + f_equal. rewrite <-insert_union_l, insert_union_r; [done|].
      apply not_elem_of_list_to_map. done.
    + intros k' Hk'. rewrite lookup_insert_ne by set_solver. apply Hacc. set_solver.
Qed.

Lemma integer_keyed_map_ints ctx kvs :
  Forall (fun kv => kv.1 < 2 ^ 64)%N kvs -> NoDup kvs.*1 ->
  integer_keyed_map (VMap (int_entries kvs)) ctx = Ok (list_to_map kvs).
Proof.
  intros HF HN. cbn. rewrite insert_fields_ints by done. by rewrite (right_id_L ∅ (∪)).
Qed.

Lemma insert_fields_ok ctx acc es f :
  insert_fields ctx acc es = Ok f ->
  exists kvs, es = int_entries kvs /\ Forall (fun kv => kv.1 < 2 ^ 64)%N kvs /\ NoDup kvs.*1
    /\ (forall k, k ∈ kvs.*1 -> acc !! k = None) /\ f = list_to_map kvs ∪ acc.
Proof.
  revert acc. induction es as [|[key v] es IH]; intros acc Hf; cbn in Hf.
  - inv_ok. exists []. subst. cbn. rewrite (left_id_L ∅ (∪)).
    repeat split; [constructor..|set_solver].
  - inv_ok. destruct key; inv_ok. apply u64_of_integer_Some in Hok as [-> Hn].
    destruct (acc !! a) eqn:Ea; [done|].
    destruct (IH _ Hf) as (kvs & -> & HF & HN & Hacc & ->).
    assert (a ∉ kvs.*1) as Ha.
    { intros Hin. specialize (Hacc _ Hin). by rewrite lookup_insert_eq in Hacc. }
    exists ((a, v) :: kvs). repeat split; [by constructor|by constructor| |].
    + intros k [->|Hk]%elem_of_cons; [done|]. specialize (Hacc _ Hk).
      rewrite lookup_insert_ne in Hacc; [done|]. set_solver.
    + cbn. rewrite <-insert_union_l, insert_union_r; [done|]. by apply not_elem_of_list_to_map.
Qed.

(** A map that parses is a list of integer entries with distinct 64-bit keys. *)
Lemma integer_keyed_map_ok v ctx f :
  integer_keyed_map v ctx = Ok f ->
  exists kvs, v = VMap (int_entries kvs) /\ Forall (fun kv => kv.1 < 2 ^ 64)%N kvs
    /\ NoDup kvs.*1 /\ f = list_to_map kvs.
Proof.
  destruct v; try done. cbn. intros (kvs & -> & ? & ? & _ & ->)%insert_fields_ok.
  exists kvs. by rewrite (right_id_L ∅ (∪)).
Qed.

Lemma required_field_ok f key ctx v f' :
  required_field f key ctx = Ok (v, f') <-> f !! key = Some v /\ f' = delete key f.
Proof. unfold required_field. destruct (f !! key); cbn; naive_solver. Qed.

Lemma required_u64_field_ok f key ctx n f' :
  required_u64_field f key ctx = Ok (n, f') <->
  f !! key = Some (int_value n) /\ (n < 2 ^ 64)%N /\ f' = delete key f.
Proof.
  unfold required_u64_field, required_field, int_value. destruct (f !! key) as [[]|]; cbn;
    try naive_solver. split.
  - intros ?. inv_ok. apply u64_of_integer_Some in Hok as [-> ?]. naive_solver.
  - intros ([= ->] & ? & ->). rewrite u64_of_integer_of_N by done. done.
Qed.

Lemma required_text_field_ok f key ctx s f' :
  required_text_field f key ctx = Ok (s, f') <-> f !! key = Some (VText s) /\ f' = delete key f.
Proof.
  unfold required_text_field, required_field. destruct (f !! key) as [[]|]; cbn; naive_solver.
Qed.

Lemma required_bytes_field_ok f key ctx b f' :
  required_bytes_field f key ctx = Ok (b, f') <-> f !! key = Some (VBytes b) /\ f' = delete key f.
Proof.
  unfold required_bytes_field, required_field. destruct (f !! key) as [[]|]; cbn; naive_solver.
Qed.

Lemma reject_unknown_keys_ok f allowed ctx :
  reject_unknown_keys f allowed ctx = Ok tt <-> forall k, is_Some (f !! k) -> k ∈ allowed.
Proof.
  unfold reject_unknown_keys.
  assert (forallb (fun key => existsb (N.eqb key) allowed) (map_to_list f).*1 = true <->
    forall k, is_Some (f !! k) -> k ∈ allowed) as <-; [|destruct forallb; naive_solver].
  rewrite forallb_forall. setoid_rewrite existsb_exists. split.
  - intros HA k [v Hv]. destruct (HA k) as (k' & Hin & ->%N.eqb_eq).
    + apply list_elem_of_In, list_elem_of_fmap. exists (k, v). split; [done|].
      by apply elem_of_map_to_list.
    + by apply list_elem_of_In.
  - intros HA k Hk%list_elem_of_In. apply list_elem_of_fmap in Hk as ([k' v] & -> & Hin).
    apply elem_of_map_to_list in Hin. exists k'. rewrite N.eqb_refl. split; [|done].
    apply list_elem_of_In, HA. eauto.
Qed.

Section no_panic.
Implicit Types (f : fields) (ctx : string).

Lemma insert_fields_no_panic ctx acc es : no_panic (insert_fields ctx acc es).
Proof. revert acc. induction es as [|[k v] es IH]; intros acc; cbn; np. Qed.
Lemma integer_keyed_map_no_panic v ctx : no_panic (integer_keyed_map v ctx).
Proof. destruct v; try done. apply insert_fields_no_panic. Qed.
Lemma expect_arbitrary_map_no_panic `{CborCodec} v : no_panic (expect_arbitrary_map v).
Proof. unfold expect_arbitrary_map. np. Qed.
Lemma expect_array_no_panic v m : no_panic (expect_array v m).
Proof. by destruct v. Qed.
Lemma required_field_no_panic f k ctx : no_panic (required_field f k ctx).
Proof. unfold required_field. np. Qed.
Lemma required_u64_field_no_panic f k ctx : no_panic (required_u64_field f k ctx).
Proof. unfold required_u64_field, required_field. np. Qed.
Lemma required_text_field_no_panic f k ctx : no_panic (required_text_field f k ctx).
Proof. unfold required_text_field, required_field. np. Qed.
Lemma required_bytes_field_no_panic f k ctx : no_panic (required_bytes_field f k ctx).
Proof. unfold required_bytes_field, required_field. np. Qed.
Lemma reject_unknown_keys_no_panic f allowed ctx : no_panic (reject_unknown_keys f allowed ctx).
Proof. unfold reject_unknown_keys. np. Qed.
End no_panic.
#[export] Hint Resolve integer_keyed_map_no_panic expect_arbitrary_map_no_panic
  expect_array_no_panic required_field_no_panic required_u64_field_no_panic
  required_text_field_no_panic required_bytes_field_no_panic
  reject_unknown_keys_no_panic : no_panic.

(** *** Canonicalising a map with integer keys *)
Section canonical_fields.
Context `{CborCodec}.

Lemma canonicalize_int_entries kvs a :
  collect_map canonicalize_entry (int_entries kvs) = Ok a <->
  exists kvs', a = int_entries kvs' /\ kvs'.*1 = kvs.*1
    /\ Forall2 (fun kv kv' => canonicalize_value kv.2 = Ok kv'.2) kvs kvs'.
Proof.
  rewrite collect_map_ok. split.
  - revert a. induction kvs as [|[k v] kvs IH]; intros a Ha; inversion Ha as [|? [k' v'] ? ? He HF]; subst.
    + by exists [].
    + apply canonicalize_entry_ok in He as [Hk Hv]. cbn in *. inv_ok. subst.
      destruct (IH _ HF) as (kvs' & -> & <- & ?). exists ((k, v') :: kvs'). repeat split.
      by constructor.
  - intros (kvs' & -> & Hk & HF). induction HF as [|[k v] [k' v'] kvs kvs' Hv HF IH]; [constructor|].
    cbn in *. injection Hk as -> Hk. constructor; [|by apply IH]. by apply canonicalize_entry_ok.
Qed.

(** The canonical form of an integer-keyed map reads back as the same fields,
    each with its canonical value. *)
Lemma canonicalize_keyed kvs c ctx :
  canonicalize_value (VMap (int_entries kvs)) = Ok c ->
  Forall (fun kv => kv.1 < 2 ^ 64)%N kvs -> NoDup kvs.*1 ->
  exists kvs', kvs'.*1 = kvs.*1
    /\ Forall2 (fun kv kv' => canonicalize_value kv.2 = Ok kv'.2) kvs kvs'
    /\ integer_keyed_map c ctx = Ok (list_to_map kvs').
Proof.
  rewrite canonicalize_map_eq. intros Hc HF HN. inv_ok.
  apply canonicalize_int_entries in Hok as (kvs' & -> & Hk & Hv). exists kvs'.
  split; [done|]. split; [done|].
  apply sort_map_entries_ok in Hc as [-> _].
  pose proof (sort_by_Permutation entry_key_cmp (int_entries kvs')) as HP.
  unfold int_entries in HP at 2.
  apply Permutation_map_inv in HP as (kvs2 & Heq & HP2). fold (int_entries kvs2) in Heq.
  rewrite Heq.
  assert (kvs'.*1 ≡ₚ kvs2.*1) as HPk by by rewrite HP2.
  rewrite integer_keyed_map_ints.
  - f_equal. symmetry. apply list_to_map_proper; [by rewrite Hk|done].
  - rewrite <-HP2. rewrite <-Hk in HN.
    assert (Forall (fun k => k < 2 ^ 64)%N kvs'.*1) as HF'.
    { rewrite Hk. by rewrite Forall_fmap. }
    by rewrite Forall_fmap in HF'.
  - by rewrite <-HPk, Hk.
Qed.
End canonical_fields.

Section codec_facts.
Context `{CborLaws}.

Lemma into_writer_inj v w :
  codec_ok v = true -> codec_ok w = true ->
  depth v <= recursion_limit -> depth w <= recursion_limit ->
  into_writer v = into_writer w -> v = w.
Proof.
  intros Hv Hw Dv Dw E.
  pose proof (from_reader_into_writer v Hv Dv) as E1.
  pose proof (from_reader_into_writer w Hw Dw) as E2.
  rewrite E, E2 in E1. congruence.
Qed.

Lemma int_value_inj j k :
  (j < 2 ^ 64)%N -> (k < 2 ^ 64)%N ->
  into_writer (int_value j) = into_writer (int_value k) -> j = k.
Proof.
  intros Hj Hk Heq. apply into_writer_inj in Heq; cbn; [|lia..].
  injection Heq. lia.
Qed.

(** A map with distinct integer keys has a canonical form when its values do. *)
Lemma canonicalize_keyed_ok kvs :
  Forall (fun kv => kv.1 < 2 ^ 64)%N kvs -> NoDup kvs.*1 ->
  Forall (fun kv => is_ok (canonicalize_value kv.2) = true) kvs ->
  exists c, canonicalize_value (VMap (int_entries kvs)) = Ok c.
Proof.
  intros HF HN Hv. rewrite canonicalize_map_eq.
  assert (exists kvs', kvs'.*1 = kvs.*1 /\
    Forall2 (fun kv kv' => canonicalize_value kv.2 = Ok kv'.2) kvs kvs') as (kvs' & Hk & H2).
  { clear HF HN. induction Hv as [|[k v] kvs Hv HF (kvs' & Hk & H2)]; [by exists []|].
    cbn in Hv. destruct (canonicalize_value v) as [v'| |] eqn:E; try done.
    exists ((k, v') :: kvs'). cbn. rewrite Hk. split; [done|by constructor]. }
  assert (collect_map canonicalize_entry (int_entries kvs) = Ok (int_entries kvs')) as ->
    by (apply canonicalize_int_entries; eauto).
  cbn. eexists. apply sort_map_entries_ok. split; [done|].
  apply (has_equal_pair_sorted entry_key_cmp); [apply (sort_by_sorted entry_key_cmp)|].
  assert (NoDup (sort_by entry_key_cmp (int_entries kvs')).*1
    /\ Forall (fun e => exists k, e.1 = int_value k /\ (k < 2 ^ 64)%N)
         (sort_by entry_key_cmp (int_entries kvs'))) as [HN' HF'].
  { rewrite (sort_by_Permutation entry_key_cmp). unfold int_entries. split.
    - rewrite <-list_fmap_compose. rewrite <-Hk in HN.
      change (NoDup ((int_value ∘ fst) <$> kvs')).
      rewrite (list_fmap_compose fst int_value). apply NoDup_fmap_2; [|done].
      intros j k. unfold int_value. intros [= ?]. lia.
    - apply Forall_fmap. rewrite <-(Forall_fmap fst (fun k => k < 2 ^ 64)%N) in HF.
      rewrite <-Hk, Forall_fmap in HF.
      eapply Forall_impl; [exact HF|]. intros [k v] Hkv. exists k. done. }
  revert HN' HF'. generalize (sort_by entry_key_cmp (int_entries kvs')). intros l.
  induction l as [|x [|y l] IH]; [done..|]. intros HN' HF'.
  inversion HN' as [|? ? Hx HN'']; inversion HF' as [|? ? (j & Ej & Hj) HF'']; subst.
  inversion HF'' as [|? ? (k & Ek & Hk') _]; subst. cbn [has_equal_pair].
  destruct (entry_key_cmp x y) eqn:E; [|by apply IH..].
  exfalso. apply canonical_value_cmp_eq in E. rewrite Ej, Ek in E.
  apply int_value_inj in E; [|done..]. subst. apply Hx. cbn. rewrite Ej, <-Ek. by left.
Qed.
End codec_facts.
