(* ===== verification/Ieee.v ===== *)
(** * Machine numbers as the code stores them

    A float is its bit pattern, an [N] below 2^32 or 2^64; arithmetic decodes to
    the Standard Library's [spec_float], computes there with the format's
    precision and exponent range, rounding to nearest even, and encodes back. This
    is Rust's [f32]/[f64] arithmetic, except for the bits of a NaN result, which
    Rust leaves open and no code modelled here reads. Little-endian byte strings
    and the [as_chunks]/[chunks_exact] views are here too. *)
From S2P Require Import Prelude Ordering Hash.
From Stdlib Require Import Floats.SpecFloat.

(** ** Little-endian byte strings *)
Fixpoint le_combine (l : bytes) : N :=
  match l with
  | [] => 0
  | b :: l' => Byte.to_N b + 256 * le_combine l'
  end%N.

Definition byte_of_N (n : N) : byte :=
  match Byte.of_N (n mod 256) with Some b => b | None => Byte.x00 end.

Fixpoint le_split (n : nat) (w : N) : bytes :=
  match n with
  | O => []
  | S n' => byte_of_N w :: le_split n' (w / 256)
  end.

(** [slice.as_chunks::<n>().0] and [slice.chunks_exact(n)]: the full chunks, the
    remainder dropped. The length bounds the number of chunks. *)
Fixpoint chunks_fuel (fuel n : nat) (l : bytes) : list bytes :=
  match fuel with
  | O => []
  | S fuel' =>
      if (n <=? length l)%nat then take n l :: chunks_fuel fuel' n (drop n l) else []
  end.
Definition chunks_exact (n : nat) (l : bytes) : list bytes := chunks_fuel (length l) n l.

(** ** Binary formats *)
Record format := Format { mant_bits : N; exp_bits : N }.
Definition binary32 : format := Format 23 8.
Definition binary64 : format := Format 52 11.

Definition prec (f : format) : Z := Z.of_N (mant_bits f) + 1.
Definition emax (f : format) : Z := 2 ^ (Z.of_N (exp_bits f) - 1).
Definition emin_of (f : format) : Z := emin (prec f) (emax f).

Definition mant_field (f : format) (x : N) : N := (x mod 2 ^ mant_bits f)%N.
Definition exp_field (f : format) (x : N) : N := ((x / 2 ^ mant_bits f) mod 2 ^ exp_bits f)%N.
Definition sign_field (f : format) (x : N) : bool := N.testbit x (mant_bits f + exp_bits f).
Definition magnitude (f : format) (x : N) : N := (x mod 2 ^ (mant_bits f + exp_bits f))%N.

(** [is_finite] *)
Definition is_finite (f : format) (x : N) : bool :=
  negb (exp_field f x =? 2 ^ exp_bits f - 1)%N.

Definition decode (f : format) (x : N) : spec_float :=
  let s := sign_field f x in
  let e := exp_field f x in
  let m := mant_field f x in
  if (e =? 2 ^ exp_bits f - 1)%N then
    if (m =? 0)%N then S754_infinity s else S754_nan
  else if (e =? 0)%N then
    match m with
    | N0 => S754_zero s
    | Npos p => S754_finite s p (emin_of f)
    end
  else
    match (m + 2 ^ mant_bits f)%N with
    | N0 => S754_nan
    | Npos p => S754_finite s p (Z.of_N e - 1 + emin_of f)
    end.

Definition sign_bit (f : format) (s : bool) : N :=
  if s then (2 ^ (mant_bits f + exp_bits f))%N else 0%N.
Definition inf_bits (f : format) : N := ((2 ^ exp_bits f - 1) * 2 ^ mant_bits f)%N.
Definition nan_bits (f : format) : N := (inf_bits f + 2 ^ (mant_bits f - 1))%N.

Definition encode (f : format) (x : spec_float) : N :=
  match x with
  | S754_zero s => sign_bit f s
  | S754_infinity s => sign_bit f s + inf_bits f
  | S754_nan => nan_bits f
  | S754_finite s m e =>
      if (Npos m <? 2 ^ mant_bits f)%N then sign_bit f s + Npos m
      else sign_bit f s + Z.to_N (e - emin_of f + 1) * 2 ^ mant_bits f
           + (Npos m - 2 ^ mant_bits f)
  end%N.

Definition fadd (f : format) (a b : N) : N :=
  encode f (SFadd (prec f) (emax f) (decode f a) (decode f b)).
Definition fsub (f : format) (a b : N) : N :=
  encode f (SFsub (prec f) (emax f) (decode f a) (decode f b)).
Definition fmul (f : format) (a b : N) : N :=
  encode f (SFmul (prec f) (emax f) (decode f a) (decode f b)).
Definition fdiv (f : format) (a b : N) : N :=
  encode f (SFdiv (prec f) (emax f) (decode f a) (decode f b)).
Definition fsqrt (f : format) (a : N) : N :=
  encode f (SFsqrt (prec f) (emax f) (decode f a)).
Definition fneg (f : format) (a : N) : N := N.lxor a (2 ^ (mant_bits f + exp_bits f)).
(** [f64::abs] clears the sign bit. *)
Definition fabs (f : format) (a : N) : N := magnitude f a.
Definition fltb (f : format) (a b : N) : bool := SFltb (decode f a) (decode f b).
Definition fleb (f : format) (a b : N) : bool := SFleb (decode f a) (decode f b).
Definition feqb (f : format) (a b : N) : bool := SFeqb (decode f a) (decode f b).
Definition is_nan (f : format) (a : N) : bool :=
  match decode f a with S754_nan => true | _ => false end.

(** [f64::min]: a NaN operand gives the other one. *)
Definition fmin (f : format) (a b : N) : N :=
  if is_nan f a then b else if is_nan f b then a else if fltb f b a then b else a.

(** Conversions [i32 as f32], [i8 as f32] and [f32 as f64]. *)
Definition f_of_Z (f : format) (z : Z) : N :=
  encode f (binary_normalize (prec f) (emax f) z 0 false).
Definition f64_of_f32 (x : N) : N :=
  encode binary64
    match decode binary32 x with
    | S754_finite s m e => binary_round (prec binary64) (emax binary64) s m e
    | y => y
    end.

(** The conversion [f64 as f32]. *)
Definition f32_of_f64 (x : N) : N :=
  encode binary32
    match decode binary64 x with
    | S754_finite s m e => binary_round (prec binary32) (emax binary32) s m e
    | y => y
    end.

(** [f32::max], [f64::max]: a NaN operand gives the other one. *)
Definition fmax (f : format) (a b : N) : N :=
  if is_nan f a then b else if is_nan f b then a else if fltb f a b then b else a.

(** [f64::clamp] *)
Definition f64_clamp (x low high : N) : N :=
  if fltb binary64 x low then low else if fltb binary64 high x then high else x.

(** A number [m * 2^e] with [e] negative, rounded down, towards zero, or to the
    nearest integer with ties to even. *)
Definition floor_at (z e : Z) : Z := (z / 2 ^ (- e))%Z.
Definition trunc_at (z e : Z) : Z := (Z.quot z (2 ^ (- e)))%Z.
Definition nearest_at (z e : Z) : Z :=
  let d := (2 ^ (- e))%Z in
  let q := (z / d)%Z in
  let r := (z mod d)%Z in
  match Z.compare (2 * r) d with
  | Lt => q
  | Gt => (q + 1)%Z
  | Eq => if Z.even q then q else (q + 1)%Z
  end.
Definition signed (s : bool) (m : positive) : Z := if s then Zneg m else Zpos m.

(** [f64::floor], [f64::round_ties_even]: a number without a fraction stays, and a
    zero result keeps the sign. *)
Definition f64_round_with (round : Z -> Z -> Z) (x : N) : N :=
  match decode binary64 x with
  | S754_finite s m e =>
      if (0 <=? e)%Z then x
      else let z := round (signed s m) e in
           if (z =? 0)%Z then sign_bit binary64 s
           else encode binary64 (binary_normalize (prec binary64) (emax binary64) z 0 false)
  | _ => x
  end.
Definition f64_floor : N -> N := f64_round_with floor_at.
Definition f64_round_ties_even : N -> N := f64_round_with nearest_at.

(** The conversions [f64 as i32] and [f64 as usize] saturate; NaN gives 0. *)
Definition f64_as_int (low high : Z) (x : N) : Z :=
  match decode binary64 x with
  | S754_finite s m e =>
      let z := if (0 <=? e)%Z then (signed s m * 2 ^ e)%Z else trunc_at (signed s m) e in
      Z.max low (Z.min high z)
  | S754_infinity s => if s then low else high
  | _ => 0%Z
  end.
Definition f64_as_i32 : N -> Z := f64_as_int (- 2 ^ 31) (2 ^ 31 - 1).
Definition f64_as_usize (x : N) : N := Z.to_N (f64_as_int 0 (2 ^ 64 - 1) x).

Notation f32 := N (only parsing).
Notation f64 := N (only parsing).

Definition f32_is_finite : f32 -> bool := is_finite binary32.
Definition f64_is_finite : f64 -> bool := is_finite binary64.
Definition f32_from_le_bytes (l : bytes) : f32 := le_combine l.
Definition f64_from_le_bytes (l : bytes) : f64 := le_combine l.
Definition f32_to_le_bytes (x : f32) : bytes := le_split 4 x.
Definition f32_lt_zero (x : f32) : bool := fltb binary32 x 0.
Definition f64_infinity : f64 := inf_bits binary64.
Definition f64_one : f64 := f_of_Z binary64 1.
Definition f64_neg_zero : f64 := sign_bit binary64 true.

(** [i8::from_le_bytes([byte])] *)
Definition i8_from_byte (b : byte) : Z :=
  let n := Z.of_N (Byte.to_N b) in if (n <? 128)%Z then n else (n - 256)%Z.

(** The [i64] order of [f64::total_cmp]: the bits of a negative number below the
    sign bit are flipped, and the results compared as signed integers. *)
Definition total_cmp_key (x : f64) : Z :=
  if sign_field binary64 x then (- Z.of_N (magnitude binary64 x) - 1)%Z
  else Z.of_N (magnitude binary64 x).
Definition f64_total_cmp (a b : f64) : comparison := Z.compare (total_cmp_key a) (total_cmp_key b).

(** [f32::total_cmp], in the same way; the other constants of [f32]. *)
Definition f32_total_key (x : f32) : Z :=
  if sign_field binary32 x then (- Z.of_N (magnitude binary32 x) - 1)%Z
  else Z.of_N (magnitude binary32 x).
Definition f32_total_cmp (a b : f32) : comparison := Z.compare (f32_total_key a) (f32_total_key b).
Definition f32_one : f32 := f_of_Z binary32 1.
Definition f32_neg_zero : f32 := sign_bit binary32 true.
Definition f64_neg_infinity : f64 := (sign_bit binary64 true + inf_bits binary64)%N.
Definition f64_half : f64 := 4602678819172646912.

(** [f64::round]: half away from zero. *)
Definition away_at (z e : Z) : Z :=
  let d := (2 ^ (- e))%Z in
  let q := (Z.abs z / d)%Z in
  let q := if (d <=? 2 * (Z.abs z mod d))%Z then (q + 1)%Z else q in
  if (z <? 0)%Z then (- q)%Z else q.
Definition f64_round : f64 -> f64 := f64_round_with away_at.

(** [.sum::<f64>()] and [.sum::<f32>()] start from [-0.0]. *)
Definition sum_f64 (l : list f64) : f64 := fold_left (fadd binary64) l f64_neg_zero.
Definition sum_f32 (values : list f32) : f32 := fold_left (fadd binary32) values f32_neg_zero.

(** A bit pattern of the format's width. *)
Definition fbits_ok (f : format) (x : N) : Prop := (x < 2 ^ (mant_bits f + exp_bits f + 1))%N.
Notation f32_ok := (fbits_ok binary32).
Notation f64_ok := (fbits_ok binary64).

(** ** Lemmas: bytes *)
Lemma byte_of_N_to_N n : Byte.to_N (byte_of_N n) = (n mod 256)%N.
Proof.
  unfold byte_of_N. destruct (Byte.of_N (n mod 256)) eqn:E.
  - by apply Byte.to_of_N.
  - apply Byte.of_N_None_iff in E. pose proof (N.mod_upper_bound n 256). lia.
Qed.

Lemma byte_of_to_N b : byte_of_N (Byte.to_N b) = b.
Proof.
  unfold byte_of_N. pose proof (Byte.to_N_bounded b).
  rewrite N.mod_small by lia. by rewrite Byte.of_to_N.
Qed.

Lemma le_split_length n w : length (le_split n w) = n.
Proof. revert w. induction n; intros w; cbn; auto. Qed.

Lemma le_combine_split n w : le_combine (le_split n w) = (w mod 256 ^ N.of_nat n)%N.
Proof.
  revert w. induction n as [|n IH]; intros w.
  - cbn. by rewrite N.mod_1_r.
  - cbn [le_split le_combine]. rewrite byte_of_N_to_N, IH.
    replace (256 ^ N.of_nat (S n))%N with (256 * 256 ^ N.of_nat n)%N
      by (rewrite Nat2N.inj_succ, N.pow_succ_r'; lia).
    rewrite N.Div0.mod_mul_r. lia.
Qed.

Lemma le_combine_bound l : (le_combine l < 256 ^ len l)%N.
Proof.
  unfold len. induction l as [|b l IH]; cbn [le_combine length]; [cbn; lia|].
  rewrite Nat2N.inj_succ, N.pow_succ_r'. pose proof (Byte.to_N_bounded b). lia.
Qed.

Lemma le_split_combine l : le_split (length l) (le_combine l) = l.
Proof.
  induction l as [|b l IH]; [done|]. cbn [length le_split le_combine].
  pose proof (Byte.to_N_bounded b). f_equal.
  - rewrite <-(byte_of_to_N b) at 2. unfold byte_of_N.
    replace ((Byte.to_N b + 256 * le_combine l) mod 256)%N with (Byte.to_N b mod 256)%N; [done|].
    rewrite N.mul_comm, N.Div0.mod_add. done.
  - replace ((Byte.to_N b + 256 * le_combine l) / 256)%N with (le_combine l); [done|].
    rewrite N.mul_comm, N.div_add by lia. rewrite N.div_small by lia. lia.
Qed.

Lemma f32_le_bytes_roundtrip x : f32_ok x -> f32_from_le_bytes (f32_to_le_bytes x) = x.
Proof.
  intros Hx. unfold f32_from_le_bytes, f32_to_le_bytes. rewrite le_combine_split.
  apply N.mod_small. exact Hx.
Qed.

Lemma f32_from_le_bytes_ok l : length l = 4%nat -> f32_ok (f32_from_le_bytes l).
Proof.
  intros Hl. unfold f32_from_le_bytes, fbits_ok. pose proof (le_combine_bound l) as Hb.
  unfold len in Hb. rewrite Hl in Hb. exact Hb.
Qed.

Lemma chunks_fuel_concat fuel n (ls : list bytes) :
  (0 < n)%nat -> Forall (fun l => length l = n) ls -> (length ls <= fuel)%nat ->
  chunks_fuel fuel n (concat ls) = ls.
Proof.
  intros Hn HF. revert fuel. induction HF as [|l ls Hl HF IH]; intros [|fuel] Hfuel; cbn in *; try lia.
  - done.
  - destruct n; [lia|done].
  - rewrite (proj2 (Nat.leb_le n (length (l ++ concat ls)))) by (rewrite length_app; lia).
    rewrite take_app_length' by done. rewrite drop_app_length' by done. f_equal. apply IH. lia.
Qed.

Lemma concat_length_const n (ls : list bytes) :
  Forall (fun l => length l = n) ls -> length (concat ls) = (length ls * n)%nat.
Proof. induction 1; cbn; [done|]. rewrite length_app. lia. Qed.

Lemma chunks_exact_concat n (ls : list bytes) :
  (0 < n)%nat -> Forall (fun l => length l = n) ls -> chunks_exact n (concat ls) = ls.
Proof.
  intros Hn HF. apply chunks_fuel_concat; [done..|]. rewrite (concat_length_const n) by done. nia.
Qed.

Lemma chunks_fuel_spec fuel n l :
  (0 < n)%nat -> (length l <= fuel)%nat ->
  Forall (fun c => length c = n) (chunks_fuel fuel n l)
  /\ length (chunks_fuel fuel n l) = (length l / n)%nat
  /\ ((length l mod n = 0)%nat -> concat (chunks_fuel fuel n l) = l).
Proof.
  intros Hn. revert l. induction fuel as [|fuel IH]; intros l Hl.
  - assert (l = []) as -> by (destruct l; [done|cbn in *; lia]). cbn.
    rewrite Nat.Div0.div_0_l. by repeat split.
  - cbn. destruct (n <=? length l)%nat eqn:E.
    + apply Nat.leb_le in E. destruct (IH (drop n l)) as (H1 & H2 & H3).
      { rewrite length_drop. lia. }
      assert (length l = length (drop n l) + 1 * n)%nat as El by (rewrite length_drop; lia).
      split; [|split].
      * constructor; [|done]. rewrite length_take. lia.
      * cbn. rewrite H2. rewrite El, Nat.div_add by lia. lia.
      * intros Hm. cbn. rewrite H3, take_drop; [done|].
        rewrite El in Hm. by rewrite Nat.Div0.mod_add in Hm.
    + apply Nat.leb_gt in E. cbn. rewrite Nat.div_small by done. repeat split; [constructor|].
      rewrite Nat.mod_small by done. by destruct l.
Qed.

Lemma chunks_exact_spec n l :
  (0 < n)%nat ->
  Forall (fun c => length c = n) (chunks_exact n l)
  /\ length (chunks_exact n l) = (length l / n)%nat
  /\ ((length l mod n = 0)%nat -> concat (chunks_exact n l) = l).
Proof. intros Hn. by apply chunks_fuel_spec. Qed.
