(* ===== verification/FloatFacts.v ===== *)
(** * Rounding stays below an integer

    A positive product whose exact value is at most a small integer rounds to a number
    that is at most it too, in binary64, and so do [f64::round] and the conversion to an
    integer after it. *)
From S2P Require Import Prelude Ordering Hash Ieee.
From Stdlib Require Import Floats.SpecFloat.

(** The significand of a decoded float. *)
Lemma decode_mantissa f x s m e : decode f x = S754_finite s m e -> (Npos m < 2 ^ (mant_bits f + 1))%N.
Proof.
  unfold decode. pose proof (N.mod_upper_bound x (2 ^ mant_bits f)) as Hm. fold (mant_field f x) in Hm.
  assert (2 ^ mant_bits f <> 0)%N by (apply N.pow_nonzero; lia).
  rewrite N.pow_add_r, N.pow_1_r. destruct (_ =? _)%N; [by destruct (_ =? _)%N|]. destruct (_ =? 0)%N.
  - destruct (mant_field f x) eqn:Hf; [done|]. intros [= _ <- _]. lia.
  - destruct (mant_field f x + 2 ^ mant_bits f)%N eqn:Hf; [done|]. intros [= _ <- _]. lia.
Qed.

#[local] Open Scope Z_scope.

Lemma digits_bounds p : 2 ^ (Zpos (digits2_pos p) - 1) <= Zpos p < 2 ^ Zpos (digits2_pos p).
Proof.
  induction p as [p IH|p IH|]; cbn [digits2_pos]; [| |done];
    rewrite Pos2Z.inj_succ; (replace (Z.succ (Zpos (digits2_pos p)) - 1) with (Z.succ (Zpos (digits2_pos p) - 1)) by lia);
    rewrite !Z.pow_succ_r by lia; lia.
Qed.
Lemma digits_nonneg m : 0 <= m -> 0 <= Zdigits2 m /\ m < 2 ^ Zdigits2 m.
Proof. destruct m as [|p|]; [done| |done]. intros _. cbn [Zdigits2]. pose proof (digits_bounds p). lia. Qed.
Lemma digits_upper m k : 0 <= m < 2 ^ k -> 0 <= k -> Zdigits2 m <= k.
Proof.
  destruct m as [|p|]; [cbn; lia| |lia]. intros [_ Hm] Hk. cbn [Zdigits2]. pose proof (digits_bounds p) as [Hp _].
  destruct (Z.le_gt_cases (Zpos (digits2_pos p)) k); [done|]. pose proof (Z.pow_le_mono_r 2 k (Zpos (digits2_pos p) - 1)). lia.
Qed.

Lemma shr_1_spec m r s : 0 <= m -> let t := shr_1 (Build_shr_record m r s) in
  shr_m t = m / 2 /\ (Z.even m = true -> r = false -> s = false -> shr_r t = false /\ shr_s t = false).
Proof.
  intros Hm. destruct m as [|[p|p|]|p]; [| | | |done]; cbn [shr_1 shr_m shr_r shr_s]; (split; [|cbn; by intros ? -> ->]); try done.
  - change (Zpos p~1) with (2 * Zpos p + 1). rewrite Z.mul_comm, Z.div_add_l by done. by rewrite Z.add_0_r.
  - change (Zpos p~0) with (2 * Zpos p). rewrite Z.mul_comm. by rewrite Z.div_mul.
Qed.
Lemma iter_pos_nat {A} (f : A -> A) p x : iter_pos f p x = Nat.iter (Pos.to_nat p) f x.
Proof.
  revert x. induction p as [p IH|p IH|]; intros x; cbn [iter_pos]; [| |done]; rewrite !IH.
  - rewrite Pos2Nat.inj_xI, Nat.iter_succ_r, <-Nat.iter_add. f_equal. lia.
  - rewrite Pos2Nat.inj_xO, <-Nat.iter_add. f_equal. lia.
Qed.

(** Shifting by [n] divides by [2^n]; nothing is lost when it divides evenly. *)
Lemma shr_spec m e n : 0 <= m -> let t := shr (Build_shr_record m false false) e n in
  shr_m t.1 = m / 2 ^ Z.max 0 n /\ t.2 = e + Z.max 0 n
  /\ (forall q, m = q * 2 ^ Z.max 0 n -> shr_r t.1 = false /\ shr_s t.1 = false).
Proof.
  intros Hm. destruct n as [|p|p]; cbn [shr fst snd shr_m shr_r shr_s].
  1,3: change (Z.max 0 _) with 0; rewrite Z.div_1_r; split_and!; [done|lia|done].
  rewrite iter_pos_nat. replace (Z.max 0 (Zpos p)) with (Z.of_nat (Pos.to_nat p)) by lia. split_and!; [|lia|].
  - clear e. generalize (Pos.to_nat p). intros n. induction n as [|n IH]; [cbn; by rewrite Z.div_1_r|].
    rewrite Nat.iter_succ. destruct (Nat.iter n shr_1 _) as [m' r s]. cbn [shr_m] in IH.
    destruct (shr_1_spec m' r s) as [-> _]; [subst m'; apply Z.div_pos; lia|].
    subst m'. rewrite Nat2Z.inj_succ, Z.pow_succ_r, Z.mul_comm by lia. by rewrite Z.div_div by lia.
  - intros q ->. clear -Hm. generalize dependent (Pos.to_nat p). intros n Hm.
    enough (forall k, (k <= n)%nat -> Nat.iter k shr_1 (Build_shr_record (q * 2 ^ Z.of_nat n) false false)
      = Build_shr_record (q * 2 ^ Z.of_nat (n - k)) false false) as He by (by rewrite (He n)).
    intros k. induction k as [|k IH]; intros Hk; [cbn; by rewrite Nat.sub_0_r|]. rewrite Nat.iter_succ, IH by lia.
    replace (2 ^ Z.of_nat (n - k)) with (2 * 2 ^ Z.of_nat (n - S k)) by (rewrite <-Z.pow_succ_r by lia; f_equal; lia).
    assert (0 <= q) as Hq by (pose proof (Z.pow_pos_nonneg 2 (Z.of_nat n)); nia).
    destruct (shr_1_spec (q * (2 * 2 ^ Z.of_nat (n - S k))) false false) as [H1 H2]; [pose proof (Z.pow_pos_nonneg 2 (Z.of_nat (n - S k))); nia|].
    destruct (H2 ltac:(rewrite Z.even_mul, Z.even_mul; by rewrite orb_true_r) eq_refl eq_refl) as [H3 H4].
    destruct (shr_1 _) as [m r s]. cbn in *. subst. f_equal.
    replace (q * (2 * 2 ^ Z.of_nat (n - S k))) with (q * 2 ^ Z.of_nat (n - S k) * 2) by lia. by rewrite Z.div_mul.
Qed.

Notation fexp64 := (fexp 53 1024).
Lemma fexp64_spec e : fexp64 e = Z.max (e - 53) (-1074).
Proof. done. Qed.

(** Below [q] at exponent [e]: a mantissa [m] with [m * 2^e <= q], [e] not positive. *)
Definition below (q m e : Z) : Prop := e <= 0 /\ m <= q * 2 ^ (- e).

(** One alignment to the precision. *)
Lemma shr_fexp_below q m e : 0 <= q < 2 ^ 53 -> 0 <= m -> below q m e -> let t := shr_fexp 53 1024 m e loc_Exact in
  0 <= shr_m t.1 < 2 ^ 53 /\ below q (shr_m t.1) t.2 /\ -1074 <= t.2
  /\ (shr_m t.1 = q * 2 ^ (- t.2) -> shr_r t.1 = false /\ shr_s t.1 = false).
Proof.
  intros Hq Hm [He Hb]. unfold shr_fexp. cbn [shr_record_of_loc]. set (n := fexp64 (Zdigits2 m + e) - e).
  destruct (shr_spec m e n Hm) as (Hm' & He' & Hx). destruct (shr _ _ _) as [t e']. cbn [fst snd] in *.
  pose proof (digits_nonneg m Hm) as [Hd Hmd].
  assert (Zdigits2 m <= 53 - e) as Hdu.
  { apply digits_upper; [|lia]. split; [done|]. replace (53 - e) with (53 + - e) by lia. rewrite Z.pow_add_r by lia.
    pose proof (Z.pow_pos_nonneg 2 (- e)). nia. }
  assert (Hn : n = Z.max (Zdigits2 m + e - 53) (-1074) - e) by (unfold n; by rewrite fexp64_spec).
  assert (0 < 2 ^ Z.max 0 n) as Hpow by (apply Z.pow_pos_nonneg; lia).
  assert (2 ^ (- e) = 2 ^ (- e') * 2 ^ Z.max 0 n) as Hsplit by (rewrite <-Z.pow_add_r by lia; f_equal; lia).
  rewrite Hm'. split; [|split; [|split]].
  - split; [apply Z.div_pos; lia|]. apply Z.div_lt_upper_bound; [done|]. rewrite <-Z.pow_add_r by lia.
    eapply Z.lt_le_trans; [exact Hmd|]. apply Z.pow_le_mono_r; lia.
  - split; [lia|]. apply Z.div_le_upper_bound; [done|]. rewrite Hsplit in Hb. lia.
  - lia.
  - intros Heq. apply (Hx (q * 2 ^ (- e'))). pose proof (Z.mul_div_le m (2 ^ Z.max 0 n) Hpow). rewrite Hsplit in Hb. nia.
Qed.

Lemma nearest_even_below q m e l : below q m e -> (m = q * 2 ^ (- e) -> l = loc_Exact) -> below q (round_nearest_even m l) e.
Proof.
  intros [He Hb] Hl. split; [done|]. destruct (decide (m = q * 2 ^ (- e))) as [Heq|Hne].
  - by rewrite (Hl Heq).
  - unfold round_nearest_even. destruct l as [|[]]; [| |lia..|]; try destruct (Z.even m); lia.
Qed.

Lemma round_below q p e : 0 <= q < 2 ^ 53 -> below q (Zpos p) e ->
  match binary_round_aux 53 1024 false (Zpos p) e loc_Exact with
  | S754_zero _ => True
  | S754_finite s m e => s = false /\ Zpos m < 2 ^ 53 /\ -1074 <= e /\ below q (Zpos m) e
  | _ => False
  end.
Proof.
  intros Hq Hb. unfold binary_round_aux. destruct (shr_fexp_below q (Zpos p) e Hq ltac:(lia) Hb) as (Hm1 & Hb1 & _ & Hx1).
  destruct (shr_fexp _ _ (Zpos p) _ _) as [t1 e1]. cbn [fst snd] in *.
  set (m1 := round_nearest_even _ _). assert (below q m1 e1) as Hbm.
  { apply nearest_even_below; [done|]. intros Heq. destruct (Hx1 Heq) as [Hr Hs]. destruct t1; cbn in *. by subst. }
  assert (0 <= m1) as Hpos.
  { unfold m1, round_nearest_even. destruct (loc_of_shr_record t1) as [|[]]; try destruct (Z.even _); lia. }
  destruct (shr_fexp_below q m1 e1 Hq Hpos Hbm) as (Hm2 & Hb2 & He2 & _). destruct (shr_fexp _ _ m1 _ _) as [t2 e2]. cbn [fst snd] in *.
  destruct (shr_m t2) as [|m|m]; [done| |lia]. rewrite (proj2 (Z.leb_le _ _)) by (destruct Hb2; lia).
  split_and!; [done|lia|done|done].
Qed.

(** ** Through the bits and back *)
Lemma decode_encode_below q m e : Zpos m < 2 ^ 53 -> -1074 <= e -> below q (Zpos m) e ->
  match decode binary64 (encode binary64 (S754_finite false m e)) with
  | S754_finite s m e => s = false /\ Zpos m < 2 ^ 53 /\ below q (Zpos m) e
  | _ => False
  end.
Proof.
  intros Hm He [He0 Hb]. cbn [encode]. change (2 ^ mant_bits binary64)%N with (2 ^ 52)%N. change (emin_of binary64) with (-1074).
  unfold sign_bit. destruct (N.ltb_spec (Npos m) (2 ^ 52)) as [Hlt|Hge].
  - unfold decode, exp_field, mant_field, sign_field. cbn [binary64 mant_bits exp_bits]. rewrite N.add_0_l.
    rewrite (N.div_small (Npos m)) by done. change (0 mod 2 ^ 11)%N with 0%N. change (0 =? 2 ^ 11 - 1)%N with false. cbn iota.
    change (0 =? 0)%N with true. cbn iota. rewrite !N.mod_small by done.
    assert (N.testbit (Npos m) (52 + 11) = false) as -> by (apply N.bits_above_log2, N.log2_lt_pow2; lia).
    split_and!; [done|done|]. change (emin_of _) with (-1074). split; [done|].
    etrans; [exact Hb|]. apply Z.mul_le_mono_nonneg_l; [|apply Z.pow_le_mono_r; lia].
    pose proof (Z.pow_pos_nonneg 2 (- e)). nia.
  - set (x := (0 + Z.to_N (e - -1074 + 1) * 2 ^ 52 + (Npos m - 2 ^ 52))%N).
    assert (x = Z.to_N (e + 1075) * 2 ^ 52 + (Npos m - 2 ^ 52))%N as Hx by (unfold x; lia).
    assert (Npos m - 2 ^ 52 < 2 ^ 52)%N as Hf by lia.
    assert (x / 2 ^ 52 = Z.to_N (e + 1075))%N as Hdiv by (rewrite Hx, N.div_add_l by done; rewrite N.div_small by done; lia).
    assert (x mod 2 ^ 52 = Npos m - 2 ^ 52)%N as Hmod by (rewrite Hx, N.add_comm, N.Div0.mod_add; by apply N.mod_small).
    unfold decode, exp_field, mant_field, sign_field. cbn [binary64 mant_bits exp_bits]. rewrite Hdiv, Hmod.
    rewrite (N.mod_small (Z.to_N (e + 1075))) by lia.
    rewrite (proj2 (N.eqb_neq (Z.to_N (e + 1075)) (2 ^ 11 - 1))) by lia. rewrite (proj2 (N.eqb_neq (Z.to_N (e + 1075)) 0)) by lia.
    replace (Npos m - 2 ^ 52 + 2 ^ 52)%N with (Npos m) by lia.
    assert (N.testbit x (52 + 11) = false) as ->.
    { apply N.bits_above_log2, N.log2_lt_pow2; [lia|]. change (2 ^ (52 + 11))%N with (2048 * 2 ^ 52)%N. lia. }
    split_and!; [done|done|]. change (emin_of _) with (-1074). replace (Z.of_N (Z.to_N (e + 1075)) - 1 + -1074) with e by lia. done.
Qed.

(** [f64::round] and then [as usize]. *)
Lemma round_as_usize_below q x : 0 <= q <= 255 ->
  match decode binary64 x with
  | S754_finite s m e => s = false /\ below q (Zpos m) e
  | S754_zero _ | S754_nan => True
  | S754_infinity _ => False
  end -> Z.of_N (f64_as_usize (f64_round x)) <= q.
Proof.
  intros Hq Hx. unfold f64_as_usize, f64_round, f64_round_with. destruct (decode binary64 x) as [s|s| |s m e] eqn:Hd.
  - unfold f64_as_int. rewrite Hd. cbn. lia.
  - done.
  - unfold f64_as_int. rewrite Hd. cbn. lia.
  - destruct Hx as (-> & He & Hb). destruct (Z.leb_spec 0 e) as [H0|Hneg].
    + assert (e = 0) as -> by lia. unfold f64_as_int. rewrite Hd. cbn [Z.leb signed]. cbn in Hb. change (0 <=? 0) with true. cbn iota. lia.
    + set (z := away_at (signed false m) e). assert (0 <= z <= q) as Hz.
      { unfold z, away_at, signed. set (d := 2 ^ (- e)). assert (0 < d) by (apply Z.pow_pos_nonneg; lia).
        change (Z.abs (Zpos m)) with (Zpos m). fold d in Hb. pose proof (Z.div_mod (Zpos m) d ltac:(lia)) as Hdm.
        pose proof (Z.mod_pos_bound (Zpos m) d ltac:(done)) as Hmb. pose proof (Z.div_pos (Zpos m) d ltac:(lia) ltac:(done)).
        revert Hdm Hmb. generalize dependent (Zpos m / d). intros k Hk. generalize (Zpos m mod d). intros r Hdm Hmb.
        change (Zpos m <? 0) with false. cbn iota. destruct (d <=? 2 * r) eqn:Hr; [apply Z.leb_le in Hr|]; nia. }
      clearbody z. clear -Hq Hz. assert (forallb (fun n => let z := Z.of_nat n in
        N.eqb (Z.to_N (f64_as_int 0 (2 ^ 64 - 1) (if z =? 0 then sign_bit binary64 false
          else encode binary64 (binary_normalize (prec binary64) (emax binary64) z 0 false)))) (Z.to_N z)) (seq 0 256) = true) as Hall
        by (vm_compute; reflexivity).
      rewrite forallb_forall in Hall. specialize (Hall (Z.to_nat z) ltac:(apply in_seq; lia)). cbn zeta in Hall.
      rewrite Z2Nat.id in Hall by lia. apply N.eqb_eq in Hall. rewrite Hall. lia.
Qed.
