(* ===== verification/Ebcp.v ===== *)
(** * EBCP: the descriptor and payload of compressed branch embeddings

    The embedding-block-compression part of crates/lexongraph-block/src/lib.rs:
    the descriptor a branch block carries in [ext[0]] (parsing it and writing it),
    the length and padding rules of a branch payload, and the reconstruction of
    the logical [f32] vector from a payload. Indexing, [u8]/[i32] arithmetic and
    shifts that would panic give [Panic]. *)
From S2P Require Import Prelude Ordering Hash Cbor Fields Ieee.

(** [EmbeddingSpec], [EbcpRotation], [EbcpQuantization], [EbcpDescriptor] *)
Record EmbeddingSpec := { dims : N; encoding : string }.

Record EbcpRotation := { matrix_format : string; matrix : list f32 }.

Inductive EbcpQuantization :=
| Uniform (bit_width : N) (scale_factors : list f32)
| Variable_ (bit_widths : bytes) (scale_factors : list f32).

Record EbcpDescriptor := {
  ebcp_version : N;
  logical_embedding_spec : EmbeddingSpec;
  base_centroid : option (list f32);
  rotation : option EbcpRotation;
  quantization : option EbcpQuantization
}.

#[export] Instance EmbeddingSpec_eq_dec : EqDecision EmbeddingSpec.
Proof. solve_decision. Defined.

Definition EBCP_EXT_DESCRIPTOR_KEY : N := 0.
Definition EBCP_VERSION_KEY : N := 0.
Definition EBCP_LOGICAL_ENCODING_KEY : N := 1.
Definition EBCP_ORIGINAL_DIMS_KEY : N := 2.
Definition EBCP_BASE_CENTROID_KEY : N := 3.
Definition EBCP_ROTATION_KEY : N := 4.
Definition EBCP_QUANTIZATION_KEY : N := 5.
Definition EBCP_ROTATION_FORMAT_KEY : N := 0.
Definition EBCP_ROTATION_MATRIX_BYTES_KEY : N := 1.
Definition EBCP_QUANTIZATION_MODE_KEY : N := 0.
Definition EBCP_QUANTIZATION_UNIFORM_BIT_WIDTH_KEY : N := 1.
Definition EBCP_QUANTIZATION_BIT_WIDTHS_KEY : N := 2.
Definition EBCP_QUANTIZATION_SCALE_FACTORS_KEY : N := 3.
Definition EBCP_DESCRIPTOR_VERSION_1 : N := 1.
Definition EBCP_LOGICAL_ENCODING_F32LE : string := "f32le".
Definition EBCP_ROTATION_FORMAT_F32LE_ROW_MAJOR : string := "f32le-row-major".
Definition EBCP_QUANTIZATION_MODE_UNIFORM : N := 1.
Definition EBCP_QUANTIZATION_MODE_VARIABLE : N := 2.
Definition EBCP_MAX_SUPPORTED_BIT_WIDTH : N := 31.

(** [matches!(s, "a" | "b" | ...)] *)
Definition str_in (s : string) (l : list string) : bool := existsb (String.eqb s) l.

(** [is_ebcp_encoding] *)
Definition is_ebcp_encoding (encoding : string) : bool :=
  str_in encoding ["pca-rot-f32le"; "pca-rot-delta-f32le"; "pca-rot-delta-uq";
                   "pca-rot-delta-vbq"; "ambient-delta-uq"].

Definition is_float_ebcp (encoding : string) : bool :=
  str_in encoding ["pca-rot-f32le"; "pca-rot-delta-f32le"].
Definition is_uniform_ebcp (encoding : string) : bool :=
  str_in encoding ["pca-rot-delta-uq"; "ambient-delta-uq"].
Definition is_variable_ebcp (encoding : string) : bool := str_in encoding ["pca-rot-delta-vbq"].

(** ** Parsing the descriptor *)

(** [parse_byte_string]; the context is discarded there too. *)
Definition parse_byte_string (value : Value) (context : string) : result BlockError bytes :=
  match value with
  | VBytes b => Ok b
  | _ => Err (InvalidEntryShape "expected a byte string value")
  end.

(** The [f32::from_le_bytes] loop over full chunks, refusing NaN and infinities. *)
Definition decode_finite_f32s (b : bytes) (error : BlockError) : result BlockError (list f32) :=
  collect_map (fun chunk =>
    let value := f32_from_le_bytes chunk in
    guard? f32_is_finite value else error in Ok value) (chunks_exact 4 b).

(** [parse_f32_vector_bytes] *)
Definition parse_f32_vector_bytes (value : Value) (expected_len : N) (context : string)
  : result BlockError (list f32) :=
  let? b := parse_byte_string value context in
  let? expected_bytes := ok_or (checked_mul USIZE_MAX expected_len 4)
    (NonConforming "EBCP byte length overflowed") in
  guard? (len b =? expected_bytes)%N
    else NonConforming "EBCP float payload length does not match the declared dimensionality" in
  decode_finite_f32s b (NonConforming "EBCP float payload must contain only finite f32 values").

(** [parse_ebcp_rotation] *)
Definition parse_ebcp_rotation (value : Value) (dims : N) : result BlockError EbcpRotation :=
  let? f := integer_keyed_map value "ext[0].rotation" in
  let? '(matrix_format, f) := required_text_field f EBCP_ROTATION_FORMAT_KEY "ext[0].rotation" in
  guard? String.eqb matrix_format EBCP_ROTATION_FORMAT_F32LE_ROW_MAJOR
    else NonConforming "EBCP rotation.matrix_format must be f32le-row-major" in
  let? expected_len := ok_or
    (match checked_mul USIZE_MAX dims dims with
     | Some count => checked_mul USIZE_MAX count 4
     | None => None
     end) (NonConforming "EBCP rotation matrix length overflowed") in
  let? '(v, f) := required_field f EBCP_ROTATION_MATRIX_BYTES_KEY "ext[0].rotation" in
  let? matrix := parse_f32_vector_bytes v (expected_len / 4) "ext[0].rotation.matrix_bytes" in
  Ok {| matrix_format := matrix_format; matrix := matrix |}.

Definition is_some {A} (o : option A) : bool := match o with Some _ => true | None => false end.

Definition scale_ok (scale : f32) : bool := f32_is_finite scale && negb (f32_lt_zero scale).

(** The two quantised arms of [parse_ebcp_quantization]. *)
Definition parse_uniform_quantization (f : fields) (mode : N) (scale_factors : list f32)
  : result BlockError EbcpQuantization :=
  guard? (mode =? EBCP_QUANTIZATION_MODE_UNIFORM)%N
    else NonConforming "uniform quantized EBCP encodings require quantization.mode = 1" in
  let? '(bit_width, f) := required_u64_field f EBCP_QUANTIZATION_UNIFORM_BIT_WIDTH_KEY
    "ext[0].quantization" in
  guard? (bit_width <=? 255)%N else NonConforming "uniform_bit_width must fit in u8" in
  guard? negb (bit_width =? 0)%N else NonConforming "uniform_bit_width must be at least 1" in
  guard? negb (EBCP_MAX_SUPPORTED_BIT_WIDTH <? bit_width)%N
    else NonConforming "uniform_bit_width must be at most 31" in
  guard? negb (is_some (f !! EBCP_QUANTIZATION_BIT_WIDTHS_KEY))
    else NonConforming "pca-rot-delta-uq must not declare per-dimension bit_widths" in
  Ok (Uniform bit_width scale_factors).

Definition parse_variable_quantization (f : fields) (mode dims : N) (scale_factors : list f32)
  : result BlockError EbcpQuantization :=
  guard? (mode =? EBCP_QUANTIZATION_MODE_VARIABLE)%N
    else NonConforming "pca-rot-delta-vbq requires quantization.mode = 2" in
  guard? negb (is_some (f !! EBCP_QUANTIZATION_UNIFORM_BIT_WIDTH_KEY))
    else NonConforming "pca-rot-delta-vbq must not declare uniform_bit_width" in
  let? '(v, f) := required_field f EBCP_QUANTIZATION_BIT_WIDTHS_KEY "ext[0].quantization" in
  let? bit_widths := parse_byte_string v "ext[0].quantization.bit_widths" in
  guard? negb (negb (len bit_widths =? dims)%N
               || existsb (fun w => Byte.to_N w =? 0)%N bit_widths)
    else NonConforming "EBCP variable bit widths must contain one nonzero byte per dimension" in
  guard? negb (existsb (fun w => EBCP_MAX_SUPPORTED_BIT_WIDTH <? Byte.to_N w)%N bit_widths)
    else NonConforming "EBCP variable bit widths must be at most 31" in
  Ok (Variable_ bit_widths scale_factors).

(** [parse_ebcp_quantization] *)
Definition parse_ebcp_quantization (value : Value) (embedding_spec : EmbeddingSpec) (dims : N)
  : result BlockError EbcpQuantization :=
  let? f := integer_keyed_map value "ext[0].quantization" in
  let? '(mode, f) := required_u64_field f EBCP_QUANTIZATION_MODE_KEY "ext[0].quantization" in
  let? '(v, f) := required_field f EBCP_QUANTIZATION_SCALE_FACTORS_KEY "ext[0].quantization" in
  let? scale_factors := parse_f32_vector_bytes v dims "ext[0].quantization.scale_factors" in
  guard? negb (existsb (fun scale => negb (scale_ok scale)) scale_factors)
    else NonConforming "EBCP quantization scale factors must be finite and nonnegative" in
  if is_uniform_ebcp (encoding embedding_spec) then parse_uniform_quantization f mode scale_factors
  else if is_variable_ebcp (encoding embedding_spec) then
    parse_variable_quantization f mode dims scale_factors
  else Err (NonConforming "EBCP quantization metadata is only valid on quantized encodings").

(** The last [match] of [parse_ebcp_descriptor_fields]: which optional parts an
    encoding requires and forbids. *)
Definition check_descriptor_parts (encoding : string) (rotation centroid quantization : bool)
  : result BlockError unit :=
  if String.eqb encoding "pca-rot-f32le" then
    guard? negb (negb rotation || centroid || quantization)
      else NonConforming "pca-rot-f32le requires rotation and must not declare base_centroid or quantization metadata" in
    Ok tt
  else if String.eqb encoding "pca-rot-delta-f32le" then
    guard? negb (negb rotation || negb centroid || quantization)
      else NonConforming "pca-rot-delta-f32le requires rotation, base_centroid, and forbids quantization metadata" in
    Ok tt
  else if str_in encoding ["pca-rot-delta-uq"; "pca-rot-delta-vbq"]
          && (negb rotation || negb centroid || negb quantization) then
    Err (NonConforming "rotated quantized EBCP encodings require rotation, base_centroid, and quantization metadata")
  else if String.eqb encoding "ambient-delta-uq"
          && (rotation || negb centroid || negb quantization) then
    Err (NonConforming "ambient-delta-uq requires base_centroid and quantization metadata and forbids rotation metadata")
  else Ok tt.

(** [parse_ebcp_descriptor_fields] *)
Definition parse_ebcp_descriptor_fields (embedding_spec : EmbeddingSpec) (f : fields)
  : result BlockError EbcpDescriptor :=
  let? '(version, f) := required_u64_field f EBCP_VERSION_KEY "ext[0]" in
  guard? (version =? EBCP_DESCRIPTOR_VERSION_1)%N
    else NonConforming "EBCP descriptor version is unsupported" in
  let? '(logical_encoding, f) := required_text_field f EBCP_LOGICAL_ENCODING_KEY "ext[0]" in
  guard? String.eqb logical_encoding EBCP_LOGICAL_ENCODING_F32LE
    else NonConforming "EBCP logical_encoding must be f32le in this revision" in
  let? '(original_dims, f) := required_u64_field f EBCP_ORIGINAL_DIMS_KEY "ext[0]" in
  guard? (original_dims =? dims embedding_spec)%N
    else NonConforming "EBCP original_dims must equal embedding_spec.dims" in
  let? dims := ok_or (usize_try_from original_dims)
    (NonConforming "EBCP dimensionality does not fit in usize") in
  let '(o, f) := remove_field f EBCP_BASE_CENTROID_KEY in
  let? base_centroid := opt_transpose
    (fun value => parse_f32_vector_bytes value dims "ext[0].base_centroid") o in
  let '(o, f) := remove_field f EBCP_ROTATION_KEY in
  let? rotation := opt_transpose (fun value => parse_ebcp_rotation value dims) o in
  let '(o, f) := remove_field f EBCP_QUANTIZATION_KEY in
  let? quantization := opt_transpose
    (fun value => parse_ebcp_quantization value embedding_spec dims) o in
  let? _ := check_descriptor_parts (encoding embedding_spec)
    (is_some rotation) (is_some base_centroid) (is_some quantization) in
  Ok {| ebcp_version := version;
        logical_embedding_spec := {| Ebcp.dims := original_dims; encoding := logical_encoding |};
        base_centroid := base_centroid; rotation := rotation; quantization := quantization |}.

(** [parse_branch_ebcp_descriptor] *)
Definition parse_branch_ebcp_descriptor (embedding_spec : EmbeddingSpec) (ext : option ExtensionMap)
  : result BlockError (option EbcpDescriptor) :=
  if negb (is_ebcp_encoding (encoding embedding_spec)) then Ok None
  else
    let? ext := ok_or ext (NonConforming "EBCP branch encodings require ext[0] descriptor metadata") in
    let? ext_fields := integer_keyed_map (VMap ext) "ext" in
    let? '(v, _) := required_field ext_fields EBCP_EXT_DESCRIPTOR_KEY "ext" in
    let? descriptor := integer_keyed_map v "ext[0]" in
    rmap Some (parse_ebcp_descriptor_fields embedding_spec descriptor).

(** ** Writing the descriptor *)

(** [encode_f32_values] *)
Definition encode_f32_values (values : list f32) : bytes :=
  concat (map f32_to_le_bytes values).

(** [ebcp_rotation_to_entries], [ebcp_quantization_to_entries] and
    [ebcp_descriptor_to_entries], as lists of integer keys and values. *)
Definition ebcp_rotation_to_entries (r : EbcpRotation) : list (N * Value) :=
  [(EBCP_ROTATION_FORMAT_KEY, VText (matrix_format r));
   (EBCP_ROTATION_MATRIX_BYTES_KEY, VBytes (encode_f32_values (matrix r)))].

Definition ebcp_quantization_to_entries (q : EbcpQuantization) : list (N * Value) :=
  match q with
  | Uniform bit_width scale_factors =>
      [(EBCP_QUANTIZATION_MODE_KEY, int_value EBCP_QUANTIZATION_MODE_UNIFORM);
       (EBCP_QUANTIZATION_UNIFORM_BIT_WIDTH_KEY, int_value bit_width);
       (EBCP_QUANTIZATION_SCALE_FACTORS_KEY, VBytes (encode_f32_values scale_factors))]
  | Variable_ bit_widths scale_factors =>
      [(EBCP_QUANTIZATION_MODE_KEY, int_value EBCP_QUANTIZATION_MODE_VARIABLE);
       (EBCP_QUANTIZATION_BIT_WIDTHS_KEY, VBytes bit_widths);
       (EBCP_QUANTIZATION_SCALE_FACTORS_KEY, VBytes (encode_f32_values scale_factors))]
  end.

Definition opt_entry {A} (key : N) (g : A -> Value) (o : option A) : list (N * Value) :=
  match o with Some a => [(key, g a)] | None => [] end.

Definition ebcp_descriptor_to_entries (d : EbcpDescriptor) : list (N * Value) :=
  [(EBCP_VERSION_KEY, int_value (ebcp_version d));
   (EBCP_LOGICAL_ENCODING_KEY, VText (encoding (logical_embedding_spec d)));
   (EBCP_ORIGINAL_DIMS_KEY, int_value (dims (logical_embedding_spec d)))]
  ++ opt_entry EBCP_ROTATION_KEY
       (fun r => VMap (int_entries (ebcp_rotation_to_entries r))) (rotation d)
  ++ opt_entry EBCP_BASE_CENTROID_KEY (fun c => VBytes (encode_f32_values c)) (base_centroid d)
  ++ opt_entry EBCP_QUANTIZATION_KEY
       (fun q => VMap (int_entries (ebcp_quantization_to_entries q))) (quantization d).

(** [ebcp_extension_map] *)
Definition ebcp_extension_map (d : EbcpDescriptor) : ExtensionMap :=
  int_entries [(EBCP_EXT_DESCRIPTOR_KEY, VMap (int_entries (ebcp_descriptor_to_entries d)))].
