(* ===== verification/EbcpPayload.v ===== *)
(** * Branch payloads: lengths, bit packing and reconstruction

    The payload half of the EBCP code of crates/lexongraph-block/src/lib.rs, and
    the decoding of the plain branch encodings. The conversion of half-precision
    floats comes from the third-party crate [half]: it is the operation of the
    class [HalfCrate]. *)
From S2P Require Import Prelude Ordering Hash Cbor Fields Ieee Ebcp.

(** [half::f16::from_le_bytes(b).to_f32()] *)
Class HalfCrate := f16_le_bytes_to_f32 : bytes -> f32.

(** ** Payload lengths and padding *)

(** The checked sum of the bit widths. *)
Definition sum_bit_widths (error : BlockError) (bit_widths : bytes) : result BlockError N :=
  try_fold (fun sum width => ok_or (checked_add USIZE_MAX sum (Byte.to_N width)) error) 0%N bit_widths.

(** [ebcp_payload_bit_len] *)
Definition ebcp_payload_bit_len (embedding_spec : EmbeddingSpec) (descriptor : EbcpDescriptor)
  : result BlockError N :=
  let? dims := ok_or (usize_try_from (dims embedding_spec))
    (NonConforming "EBCP dimensionality does not fit in usize") in
  let missing := NonConforming "quantized EBCP encodings require quantization metadata" in
  let mismatch := NonConforming "EBCP quantization mode does not match the declared encoding" in
  if is_float_ebcp (encoding embedding_spec) then
    ok_or (match checked_mul USIZE_MAX dims 4 with
           | Some b => checked_mul USIZE_MAX b 8
           | None => None
           end) (NonConforming "EBCP payload length overflowed")
  else if is_uniform_ebcp (encoding embedding_spec) then
    let? q := ok_or (quantization descriptor) missing in
    match q with
    | Uniform bit_width _ =>
        ok_or (checked_mul USIZE_MAX dims bit_width)
          (NonConforming "EBCP payload bit length overflowed")
    | Variable_ _ _ => Err mismatch
    end
  else if is_variable_ebcp (encoding embedding_spec) then
    let? q := ok_or (quantization descriptor) missing in
    match q with
    | Variable_ bit_widths _ =>
        sum_bit_widths (NonConforming "EBCP payload bit length overflowed") bit_widths
    | Uniform _ _ => Err mismatch
    end
  else Err (NonConforming "EBCP payload validation requires an EBCP embedding encoding").

(** [packed_bit_len_to_byte_len] *)
Definition packed_bit_len_to_byte_len (bit_len : N) : result BlockError N :=
  ok_or (option_map (fun value => value / 8)%N (checked_add USIZE_MAX bit_len 7))
    (NonConforming "EBCP payload length overflowed").

(** [validate_zero_ebcp_padding_bits]; [b & !used_mask] is [N.ldiff]. *)
Definition validate_zero_ebcp_padding_bits (payload : bytes) (payload_bit_len : N)
  : result BlockError unit :=
  let used_bits_in_last_byte := (payload_bit_len mod 8)%N in
  if (used_bits_in_last_byte =? 0)%N then Ok tt
  else match last payload with
  | None => Ok tt
  | Some last_byte =>
      let used_mask := ((2 ^ used_bits_in_last_byte - 1) mod 256)%N in
      guard? (N.ldiff (Byte.to_N last_byte) used_mask =? 0)%N
        else NonConforming "EBCP quantized payload padding bits must be zero" in
      Ok tt
  end.

(** One iteration of [validate_branch_ebcp_payload_lengths]. *)
Definition validate_payload (expected_bit_len expected_len : N) (embedding : bytes)
  : result BlockError unit :=
  guard? (len embedding =? expected_len)%N
    else NonConforming "branch payload bytes are inconsistent with the selected EBCP encoding and metadata" in
  validate_zero_ebcp_padding_bits embedding expected_bit_len.

(** [validate_branch_ebcp_payload_lengths], on the embeddings of the entries. *)
Definition validate_branch_ebcp_payload_lengths (embeddings : list bytes)
  (embedding_spec : EmbeddingSpec) (descriptor : EbcpDescriptor) : result BlockError unit :=
  let? expected_bit_len := ebcp_payload_bit_len embedding_spec descriptor in
  let? expected_len := packed_bit_len_to_byte_len expected_bit_len in
  try_fold (fun _ embedding => validate_payload expected_bit_len expected_len embedding) tt embeddings.

(** ** Quantised payloads *)

(** The loop of [extract_lsb_first_bits]: [remaining] bits are still to be read,
    the next one goes to position [bit_index]. A read past the payload and a
    shift of a [u32] by 32 or more panic. *)
Fixpoint extract_loop (payload : bytes) (start_bit : N) (remaining : nat) (bit_index value : N)
  : result BlockError N :=
  match remaining with
  | O => Ok value
  | S remaining' =>
      let absolute_bit := (start_bit + bit_index)%N in
      match payload !! N.to_nat (absolute_bit / 8) with
      | None => Panic
      | Some byte =>
          if (32 <=? bit_index)%N then Panic
          else
            let bit := N.land (N.shiftr (Byte.to_N byte) (absolute_bit mod 8)) 1 in
            extract_loop payload start_bit remaining' (bit_index + 1)
              (N.lor value (N.shiftl bit bit_index))
      end
  end.

(** [extract_lsb_first_bits] *)
Definition extract_lsb_first_bits (payload : bytes) (start_bit bit_width : N) : result BlockError N :=
  extract_loop payload start_bit (N.to_nat bit_width) 0 0.

Definition wrap_i32 (z : Z) : Z := ((z + 2 ^ 31) mod 2 ^ 32 - 2 ^ 31)%Z.

(** [i32::try_from(code)? - (1_i32 << (bit_width - 1))]: [bit_width - 1] is [u8]
    arithmetic, the shift amount must be below 32, the difference must fit. *)
Definition centered_code (code bit_width : N) : result BlockError Z :=
  guard? (code <? 2 ^ 31)%N else InvalidEntryShape "EBCP quantized code does not fit in i32" in
  if (bit_width =? 0)%N then Panic
  else if (32 <=? bit_width - 1)%N then Panic
  else
    let centered := (Z.of_N code - wrap_i32 (2 ^ Z.of_N (bit_width - 1)))%Z in
    if ((- 2 ^ 31 <=? centered) && (centered <? 2 ^ 31))%Z then Ok centered else Panic.

(** The body the two unpacking loops share. *)
Definition unpack_value (payload : bytes) (bit_offset bit_width : N) (scale : f32)
  : result BlockError f32 :=
  guard? scale_ok scale
    else NonConforming "EBCP quantization scale factors must be finite and nonnegative" in
  let? code := extract_lsb_first_bits payload bit_offset bit_width in
  let? centered := centered_code code bit_width in
  Ok (fmul binary32 (f_of_Z binary32 centered) scale).

Fixpoint unpack_uniform_loop (payload : bytes) (bit_offset bit_width : N) (scales : list f32)
  : result BlockError (list f32) :=
  match scales with
  | [] => Ok []
  | scale :: scales' =>
      let? v := unpack_value payload bit_offset bit_width scale in
      let? vs := unpack_uniform_loop payload (bit_offset + bit_width) bit_width scales' in
      Ok (v :: vs)
  end.

Fixpoint unpack_variable_loop (payload : bytes) (bit_offset : N) (l : list (byte * f32))
  : result BlockError (list f32) :=
  match l with
  | [] => Ok []
  | (bit_width, scale) :: l' =>
      guard? negb (Byte.to_N bit_width =? 0)%N
        else NonConforming "EBCP quantization bit widths must be nonzero" in
      let? v := unpack_value payload bit_offset (Byte.to_N bit_width) scale in
      let? vs := unpack_variable_loop payload (bit_offset + Byte.to_N bit_width) l' in
      Ok (v :: vs)
  end.

Definition quantized_expected_len (total_bits : N) : result BlockError N :=
  ok_or (option_map (fun value => value / 8)%N (checked_add USIZE_MAX total_bits 7))
    (InvalidEntryShape "EBCP quantized payload byte length overflowed").

(** [unpack_quantized_payload_uniform] *)
Definition unpack_quantized_payload_uniform (payload : bytes) (bit_width : N) (scale_factors : list f32)
  : result BlockError (list f32) :=
  let? total_bits := ok_or (checked_mul USIZE_MAX (len scale_factors) bit_width)
    (InvalidEntryShape "EBCP quantized payload bit length overflowed") in
  let? expected_len := quantized_expected_len total_bits in
  guard? (len payload =? expected_len)%N
    else InvalidEntryShape "EBCP quantized payload length does not match metadata" in
  unpack_uniform_loop payload 0 bit_width scale_factors.

(** [unpack_quantized_payload] *)
Definition unpack_quantized_payload (payload bit_widths : bytes) (scale_factors : list f32)
  : result BlockError (list f32) :=
  guard? (len bit_widths =? len scale_factors)%N
    else NonConforming "EBCP quantization metadata dimension mismatch" in
  let? total_bits :=
    sum_bit_widths (InvalidEntryShape "EBCP quantized payload bit length overflowed") bit_widths in
  let? expected_len := quantized_expected_len total_bits in
  guard? (len payload =? expected_len)%N
    else InvalidEntryShape "EBCP quantized payload length does not match metadata" in
  unpack_variable_loop payload 0 (zip bit_widths scale_factors).

(** ** Reconstruction *)

(** [decode_ebcp_payload_components] *)
Definition decode_ebcp_payload_components (payload : bytes) (stored_spec : EmbeddingSpec)
  (descriptor : EbcpDescriptor) : result BlockError (list f32) :=
  let? dims := ok_or (usize_try_from (dims (logical_embedding_spec descriptor)))
    (InvalidEntryShape "EBCP logical dims do not fit in usize") in
  if is_float_ebcp (encoding stored_spec) then
    let? expected := ok_or (checked_mul USIZE_MAX dims 4)
      (InvalidEntryShape "EBCP float payload length overflowed") in
    guard? (len payload =? expected)%N
      else InvalidEntryShape "EBCP float payload length does not match logical dims" in
    decode_finite_f32s payload (InvalidEntryShape "EBCP float payload must contain only finite values")
  else if is_uniform_ebcp (encoding stored_spec) then
    let? q := ok_or (quantization descriptor)
      (NonConforming "quantized EBCP payloads require uniform quantization metadata") in
    match q with
    | Uniform bit_width scale_factors =>
        unpack_quantized_payload_uniform payload bit_width scale_factors
    | Variable_ _ _ =>
        Err (NonConforming "EBCP quantization mode does not match uniform quantized encoding")
    end
  else if is_variable_ebcp (encoding stored_spec) then
    let? q := ok_or (quantization descriptor)
      (NonConforming "quantized EBCP payloads require per-dimension quantization metadata") in
    match q with
    | Variable_ bit_widths scale_factors =>
        unpack_quantized_payload payload bit_widths scale_factors
    | Uniform _ _ =>
        Err (NonConforming "EBCP quantization mode does not match pca-rot-delta-vbq")
    end
  else Err (UnsupportedValue "EBCP reconstruction requires a supported EBCP branch encoding").

(** [descriptor.base_centroid.as_ref().map(|c| c[i]).unwrap_or(0.0)] *)
Definition centroid_value (centroid : option (list f32)) (i : nat) : result BlockError f32 :=
  match centroid with
  | None => Ok 0%N
  | Some c => expect (c !! i)
  end.

(** [value += matrix[rotated_index * dims + ambient_index] * rotated_value] over
    the rotated components. *)
Fixpoint rotate_accumulate (m : list f32) (dims ambient_index rotated_index : nat)
  (rotated : list f32) (value : f32) : result BlockError f32 :=
  match rotated with
  | [] => Ok value
  | rotated_value :: rotated' =>
      let? cell := expect (m !! (rotated_index * dims + ambient_index)%nat) in
      rotate_accumulate m dims ambient_index (S rotated_index) rotated'
        (fadd binary32 value (fmul binary32 cell rotated_value))
  end.

Definition check_ambient (value : f32) : result BlockError f32 :=
  guard? f32_is_finite value
    else InvalidEntryShape "EBCP reconstruction produced a non-finite ambient value" in
  Ok value.

(** [reconstruct_ebcp_ambient_embedding] *)
Definition reconstruct_ebcp_ambient_embedding (descriptor : EbcpDescriptor) (rotated_or_delta : list f32)
  : result BlockError (list f32) :=
  let? dims := ok_or (usize_try_from (dims (logical_embedding_spec descriptor)))
    (InvalidEntryShape "EBCP logical dims do not fit in usize") in
  guard? (len rotated_or_delta =? dims)%N
    else InvalidEntryShape "EBCP payload dimension does not match logical dims" in
  match rotation descriptor with
  | Some rotation =>
      let? cells := expect (checked_mul USIZE_MAX dims dims) in
      guard? (len (matrix rotation) =? cells)%N
        else NonConforming "EBCP rotation matrix length does not match logical dims" in
      collect_map (fun ambient_index =>
        let? value := centroid_value (base_centroid descriptor) ambient_index in
        let? value := rotate_accumulate (matrix rotation) (N.to_nat dims) ambient_index 0
                        rotated_or_delta value in
        check_ambient value) (seq 0 (N.to_nat dims))
  | None =>
      collect_map (fun ambient_index =>
        let? c := centroid_value (base_centroid descriptor) ambient_index in
        let? delta := expect (rotated_or_delta !! ambient_index) in
        check_ambient (fadd binary32 c delta)) (seq 0 (N.to_nat dims))
  end.

(** [reconstruct_ebcp_logical_embedding] *)
Definition reconstruct_ebcp_logical_embedding (payload : bytes) (stored_spec : EmbeddingSpec)
  (descriptor : EbcpDescriptor) : result BlockError (list f32) :=
  let? rotated_or_delta := decode_ebcp_payload_components payload stored_spec descriptor in
  reconstruct_ebcp_ambient_embedding descriptor rotated_or_delta.

(** [checked_embedding_byte_len] *)
Definition checked_embedding_byte_len (dims element_width : N) (overflow_context : string)
  : result BlockError N :=
  let? expected := ok_or (checked_mul U64_MAX dims element_width) (InvalidEntryShape overflow_context) in
  ok_or (usize_try_from expected) (InvalidEntryShape overflow_context).

(** [decode_f32le_embedding], [decode_f16le_embedding], [decode_i8_embedding] *)
Definition decode_f32le_embedding (payload : bytes) (dims : N) : result BlockError (list f32) :=
  let? expected_len := checked_embedding_byte_len dims 4 "f32le branch embeddings" in
  guard? (len payload =? expected_len)%N
    else InvalidEntryShape "f32le branch payload length does not match embedding dims" in
  decode_finite_f32s payload
    (InvalidEntryShape "f32le branch payload must contain only finite values").

Definition decode_f16le_embedding `{HalfCrate} (payload : bytes) (dims : N)
  : result BlockError (list f32) :=
  let? expected_len := checked_embedding_byte_len dims 2 "f16le branch embeddings" in
  guard? (len payload =? expected_len)%N
    else InvalidEntryShape "f16le branch payload length does not match embedding dims" in
  collect_map (fun chunk =>
    let value := f16_le_bytes_to_f32 chunk in
    guard? f32_is_finite value
      else InvalidEntryShape "f16le branch payload must contain only finite values" in
    Ok value) (chunks_exact 2 payload).

Definition decode_i8_embedding (payload : bytes) (dims : N) : result BlockError (list f32) :=
  let? expected_len := checked_embedding_byte_len dims 1 "i8 branch embeddings" in
  guard? (len payload =? expected_len)%N
    else InvalidEntryShape "i8 branch payload length does not match embedding dims" in
  Ok (map (fun b => f_of_Z binary32 (i8_from_byte b)) payload).

(** [reconstruct_logical_branch_embedding_f32] *)
Definition reconstruct_logical_branch_embedding_f32 `{HalfCrate} (payload : bytes)
  (stored_spec : EmbeddingSpec) (descriptor : option EbcpDescriptor) : result BlockError (list f32) :=
  if String.eqb (encoding stored_spec) "f32le" then decode_f32le_embedding payload (dims stored_spec)
  else if String.eqb (encoding stored_spec) "f16le" then decode_f16le_embedding payload (dims stored_spec)
  else if String.eqb (encoding stored_spec) "i8" then decode_i8_embedding payload (dims stored_spec)
  else if String.eqb (encoding stored_spec) "pq4" then
    Err (UnsupportedValue "pq4 branch embeddings cannot be reconstructed as logical f32 vectors")
  else if is_ebcp_encoding (encoding stored_spec) then
    let? descriptor := ok_or descriptor
      (NonConforming "EBCP branch reconstruction requires a parsed EBCP descriptor") in
    guard? (dims (logical_embedding_spec descriptor) =? dims stored_spec)%N
      else NonConforming "EBCP descriptor logical dims must match the stored embedding dims" in
    reconstruct_ebcp_logical_embedding payload stored_spec descriptor
  else Err (UnsupportedValue "branch embedding reconstruction does not support this encoding").

(** [encode_logical_comparison_embedding] *)
Definition encode_logical_comparison_embedding (values : list f32) (comparison_spec : EmbeddingSpec)
  : result BlockError bytes :=
  if String.eqb (encoding comparison_spec) "f32le" then Ok (encode_f32_values values)
  else Err (UnsupportedValue "root comparison target encoding is not supported by the default search policies").
