(* ===== verification/EbcpCorrect.v ===== *)
(** * EBCP descriptors: what parsing guarantees

    The well-formed descriptors of a branch specification, the facts that a parsed
    descriptor is well formed and that a written one parses back, and the lemmas
    that no value makes the parsers panic.

    Then: eBCP: the properties. *)
From S2P Require Import Prelude Ordering Hash Cbor Fields Ieee Ebcp EbcpPayload.

(** A finite [f32]. *)
Definition finite_f32 (x : f32) : Prop := f32_ok x /\ f32_is_finite x = true.

(** [n] finite floats whose bytes can be addressed. *)
Definition vector_wf (n : N) (vs : list f32) : Prop :=
  len vs = n /\ (n * 4 <= USIZE_MAX)%N /\ Forall finite_f32 vs.

Definition rotation_wf (dims : N) (r : EbcpRotation) : Prop :=
  matrix_format r = EBCP_ROTATION_FORMAT_F32LE_ROW_MAJOR /\ vector_wf (dims * dims) (matrix r).

Definition scales_wf (dims : N) (scales : list f32) : Prop :=
  vector_wf dims scales /\ Forall (fun s => scale_ok s = true) scales.

Definition width_ok (w : N) : Prop := (1 <= w <= EBCP_MAX_SUPPORTED_BIT_WIDTH)%N.

Definition quantization_wf (encoding : string) (dims : N) (q : EbcpQuantization) : Prop :=
  match q with
  | Uniform bit_width scales =>
      is_uniform_ebcp encoding = true /\ width_ok bit_width /\ scales_wf dims scales
  | Variable_ bit_widths scales =>
      is_variable_ebcp encoding = true /\ len bit_widths = dims
      /\ Forall (fun w => width_ok (Byte.to_N w)) bit_widths /\ scales_wf dims scales
  end.

Definition opt_wf {A} (P : A -> Prop) (o : option A) : Prop :=
  match o with Some a => P a | None => True end.

(** The descriptors a branch with this specification may carry. *)
Definition descriptor_wf (spec : EmbeddingSpec) (d : EbcpDescriptor) : Prop :=
  is_ebcp_encoding (encoding spec) = true
  /\ (dims spec <= USIZE_MAX)%N
  /\ ebcp_version d = EBCP_DESCRIPTOR_VERSION_1
  /\ logical_embedding_spec d =
       {| Ebcp.dims := dims spec; encoding := EBCP_LOGICAL_ENCODING_F32LE |}
  /\ opt_wf (vector_wf (dims spec)) (base_centroid d)
  /\ opt_wf (rotation_wf (dims spec)) (rotation d)
  /\ opt_wf (quantization_wf (encoding spec) (dims spec)) (quantization d)
  /\ check_descriptor_parts (encoding spec) (is_some (rotation d))
       (is_some (base_centroid d)) (is_some (quantization d)) = Ok tt.

(** ** Vectors of floats *)
Lemma encode_f32_values_length vs : length (encode_f32_values vs) = (length vs * 4)%nat.
Proof.
  unfold encode_f32_values. rewrite (concat_length_const 4); [by rewrite length_map|].
  apply Forall_map, Forall_true. intros x. apply le_split_length.
Qed.

Lemma chunks_encode_f32 vs : chunks_exact 4 (encode_f32_values vs) = map f32_to_le_bytes vs.
Proof.
  apply chunks_exact_concat; [lia|]. apply Forall_map, Forall_true. intros x. apply le_split_length.
Qed.

Lemma decode_encode_f32s vs e :
  Forall finite_f32 vs -> decode_finite_f32s (encode_f32_values vs) e = Ok vs.
Proof.
  intros HF. unfold decode_finite_f32s. rewrite chunks_encode_f32, collect_map_map.
  apply collect_map_id. rewrite Forall_forall in HF. intros x Hx. destruct (HF x Hx) as [Ho Hf].
  rewrite f32_le_bytes_roundtrip by done. by rewrite Hf.
Qed.

Lemma decode_finite_f32s_ok b e vs :
  (length b mod 4 = 0)%nat -> decode_finite_f32s b e = Ok vs ->
  b = encode_f32_values vs /\ Forall finite_f32 vs.
Proof.
  intros Hb Hd. destruct (chunks_exact_spec 4 b) as (HF & _ & Hc); [lia|].
  specialize (Hc Hb). unfold decode_finite_f32s in Hd. apply collect_map_ok in Hd.
  rewrite <-Hc. unfold encode_f32_values. clear Hc Hb.
  induction Hd as [|c v cs vs Hcv Hd IH]; [done|].
  inversion HF as [|? ? H4 HF']; subst. destruct (IH HF') as [IH1 IH2].
  cbn in Hcv. destruct (f32_is_finite (f32_from_le_bytes c)) eqn:E; inv_ok. subst v. split.
  - cbn [map concat]. rewrite <-IH1. f_equal. unfold f32_to_le_bytes, f32_from_le_bytes.
    rewrite <-H4. by rewrite le_split_combine.
  - constructor; [|done]. split; [by apply f32_from_le_bytes_ok|done].
Qed.

Lemma decode_finite_f32s_no_panic b e : no_panic (decode_finite_f32s b e).
Proof. unfold decode_finite_f32s. np. Qed.
#[export] Hint Resolve decode_finite_f32s_no_panic : no_panic.

(** [parse_f32_vector_bytes] accepts exactly the encodings of [n] finite floats. *)
Lemma parse_f32_vector_bytes_ok v n ctx vs :
  parse_f32_vector_bytes v n ctx = Ok vs <->
  v = VBytes (encode_f32_values vs) /\ vector_wf n vs.
Proof.
  unfold parse_f32_vector_bytes, vector_wf, checked_mul. split.
  - intros Hp. inv_ok. destruct v; try discriminate Hok. injection Hok as ->.
    destruct (_ <=? _)%N eqn:E; inv_ok. injection Hok0 as <-.
    apply N.leb_le in E. apply N.eqb_eq in Hb. unfold len in *.
    assert (length a mod 4 = 0)%nat as Hm.
    { assert (length a = N.to_nat n * 4)%nat as -> by lia. apply Nat.Div0.mod_mul. }
    destruct (decode_finite_f32s_ok _ _ _ Hm Hp) as [-> HF].
    rewrite encode_f32_values_length in Hb. split_and!; [done|lia|lia|done].
  - intros (-> & Hl & Hn & HF). cbn.
    rewrite (proj2 (N.leb_le _ _) Hn). cbn. unfold len in *. rewrite encode_f32_values_length.
    assert ((N.of_nat (length vs * 4) =? n * 4)%N = true) as -> by (apply N.eqb_eq; lia).
    by apply decode_encode_f32s.
Qed.

Lemma parse_f32_vector_bytes_no_panic v n ctx : no_panic (parse_f32_vector_bytes v n ctx).
Proof. unfold parse_f32_vector_bytes. np. by destruct v. Qed.
#[export] Hint Resolve parse_f32_vector_bytes_no_panic : no_panic.

(** ** Rotations and quantisation parameters *)
Lemma parse_ebcp_rotation_wf v dims r :
  parse_ebcp_rotation v dims = Ok r -> rotation_wf dims r.
Proof.
  unfold parse_ebcp_rotation, rotation_wf, checked_mul. intros Hp. inv_oks.
  destruct (dims * dims <=? USIZE_MAX)%N; inv_ok.
  destruct (dims * dims * 4 <=? USIZE_MAX)%N; inv_ok. injection Hok1 as <-. subst r.
  apply String.eqb_eq in Hb. rewrite N.div_mul in Hok3 by lia.
  by apply parse_f32_vector_bytes_ok in Hok3 as [_ ?].
Qed.

Lemma existsb_false {A} (f : A -> bool) l :
  existsb f l = false <-> Forall (fun x => f x = false) l.
Proof.
  induction l as [|x l IH]; cbn; [by split|]. rewrite orb_false_iff, Forall_cons, IH. done.
Qed.

Lemma parse_uniform_quantization_wf f mode dims enc scales q :
  is_uniform_ebcp enc = true -> scales_wf dims scales ->
  parse_uniform_quantization f mode scales = Ok q -> quantization_wf enc dims q.
Proof.
  unfold parse_uniform_quantization. intros He Hs Hp. inv_oks. subst q. cbn. split_and!; [done| |done].
  apply negb_true_iff, N.eqb_neq in Hb1. apply negb_true_iff, N.ltb_ge in Hb2. unfold width_ok. lia.
Qed.

Lemma parse_variable_quantization_wf f mode dims enc scales q :
  is_variable_ebcp enc = true -> scales_wf dims scales ->
  parse_variable_quantization f mode dims scales = Ok q -> quantization_wf enc dims q.
Proof.
  unfold parse_variable_quantization. intros He Hs Hp. inv_oks. subst q. cbn.
  apply negb_true_iff, orb_false_iff in Hb1 as [Hl Hz].
  apply negb_true_iff in Hb2. apply negb_false_iff, N.eqb_eq in Hl.
  split_and!; [done|done| |done].
  apply existsb_false in Hz, Hb2. rewrite Forall_forall in *.
  intros w Hw. specialize (Hz w Hw). specialize (Hb2 w Hw).
  apply N.eqb_neq in Hz. apply N.ltb_ge in Hb2. unfold width_ok. lia.
Qed.

Lemma parse_ebcp_quantization_wf v spec dims q :
  parse_ebcp_quantization v spec dims = Ok q -> quantization_wf (encoding spec) dims q.
Proof.
  unfold parse_ebcp_quantization. intros Hp. inv_oks.
  apply parse_f32_vector_bytes_ok in Hok2 as [_ Hv].
  apply negb_true_iff, existsb_false in Hb.
  assert (scales_wf dims a0) as Hs.
  { split; [done|]. eapply Forall_impl; [done|]. intros x. apply negb_false_iff. }
  destruct (is_uniform_ebcp _) eqn:Eu; [by eapply parse_uniform_quantization_wf|].
  destruct (is_variable_ebcp _) eqn:Ev; [by eapply parse_variable_quantization_wf|done].
Qed.

(** ** Descriptors *)
Lemma opt_transpose_wf {A B E} (f : A -> result E B) (P : B -> Prop) o r :
  (forall a b, f a = Ok b -> P b) -> opt_transpose f o = Ok r -> opt_wf P r.
Proof. intros HP Hr%opt_transpose_ok. destruct o, r; cbn; naive_solver. Qed.

Lemma parse_descriptor_fields_wf spec f d :
  is_ebcp_encoding (encoding spec) = true ->
  parse_ebcp_descriptor_fields spec f = Ok d -> descriptor_wf spec d.
Proof.
  unfold parse_ebcp_descriptor_fields, remove_field, descriptor_wf. intros He Hp. inv_oks. subst d. cbn.
  apply N.eqb_eq in Hb, Hb1. apply String.eqb_eq in Hb0. subst.
  unfold usize_try_from in *. destruct (_ <=? _)%N eqn:El; inv_ok. simplify_eq.
  split_and!; try done.
  - by apply N.leb_le.
  - eapply opt_transpose_wf; [|exact Hok3]. intros v vs Hv. by apply parse_f32_vector_bytes_ok in Hv as [_ ?].
  - eapply opt_transpose_wf; [|exact Hok4]. intros v r. apply parse_ebcp_rotation_wf.
  - eapply opt_transpose_wf; [|exact Hok5]. intros ? ?. apply parse_ebcp_quantization_wf.
  - by destruct a3.
Qed.

Lemma parse_branch_descriptor_ok spec ext o :
  parse_branch_ebcp_descriptor spec ext = Ok o ->
  match o with
  | None => is_ebcp_encoding (encoding spec) = false
  | Some d => descriptor_wf spec d
  end.
Proof.
  unfold parse_branch_ebcp_descriptor. destruct (is_ebcp_encoding _) eqn:E; cbn; intros Hp.
  - inv_oks. subst o. by eapply parse_descriptor_fields_wf.
  - by injection Hp as <-.
Qed.

Section no_panic.
Lemma parse_ebcp_rotation_no_panic v dims : no_panic (parse_ebcp_rotation v dims).
Proof. unfold parse_ebcp_rotation. np. Qed.
Lemma parse_byte_string_no_panic v ctx : no_panic (parse_byte_string v ctx).
Proof. by destruct v. Qed.
#[local] Hint Resolve parse_ebcp_rotation_no_panic parse_byte_string_no_panic : no_panic.
Lemma parse_ebcp_quantization_no_panic v spec dims : no_panic (parse_ebcp_quantization v spec dims).
Proof. unfold parse_ebcp_quantization, parse_uniform_quantization, parse_variable_quantization. np. Qed.
#[local] Hint Resolve parse_ebcp_quantization_no_panic : no_panic.
Lemma parse_branch_descriptor_no_panic spec ext : no_panic (parse_branch_ebcp_descriptor spec ext).
Proof.
  unfold parse_branch_ebcp_descriptor, parse_ebcp_descriptor_fields, remove_field,
    check_descriptor_parts. np.
Qed.

Lemma sum_bit_widths_no_panic e l : no_panic (sum_bit_widths e l).
Proof.
  unfold sum_bit_widths. generalize 0%N. induction l as [|x l IH]; intros n; cbn; [done|].
  apply rbind_no_panic; [np|auto].
Qed.
#[local] Hint Resolve sum_bit_widths_no_panic : no_panic.
Lemma ebcp_payload_bit_len_no_panic spec d : no_panic (ebcp_payload_bit_len spec d).
Proof. unfold ebcp_payload_bit_len. np. Qed.
#[local] Hint Resolve ebcp_payload_bit_len_no_panic : no_panic.
Lemma validate_payload_no_panic m n e : no_panic (validate_payload m n e).
Proof. unfold validate_payload, validate_zero_ebcp_padding_bits. np. Qed.
Lemma validate_payload_lengths_no_panic es spec d :
  no_panic (validate_branch_ebcp_payload_lengths es spec d).
Proof.
  unfold validate_branch_ebcp_payload_lengths, packed_bit_len_to_byte_len. np.
  apply validate_payload_no_panic.
Qed.
End no_panic.
#[export] Hint Resolve parse_branch_descriptor_no_panic sum_bit_widths_no_panic
  validate_payload_lengths_no_panic : no_panic.

(** ** EBCP: the properties

    Writing a descriptor and parsing it back; the bits a quantised payload is
    unpacked into, against the payload read as one little-endian number; and
    reconstruction, which cannot panic on a parsed descriptor and a validated
    payload. *)

(** The [width] bits of the payload that start at bit [start], the payload read
    as one little-endian number. *)
Definition code_at (payload : bytes) (start width : N) : N :=
  ((le_combine payload / 2 ^ start) mod 2 ^ width)%N.

(** The value a code stands for: centred on half the range, then scaled. *)
Definition dequantized (payload : bytes) (start width : N) (scale : f32) : f32 :=
  fmul binary32 (f_of_Z binary32 (Z.of_N (code_at payload start width) - 2 ^ (Z.of_N width - 1))) scale.

(** The values of a payload whose fields have the given widths, packed from
    [start] on without gaps. *)
Fixpoint dequantize (payload : bytes) (start : N) (l : list (N * f32)) : list f32 :=
  match l with
  | [] => []
  | (width, scale) :: l' =>
      dequantized payload start width scale :: dequantize payload (start + width) l'
  end.

(** The total width of a list of fields. *)
Definition fields_width {A} (l : list (N * A)) : N := foldr (fun p s => (p.1 + s)%N) 0%N l.

(** The fields the two quantisation modes lay out. *)
Definition quantized_fields (q : EbcpQuantization) : list (N * f32) :=
  match q with
  | Uniform bit_width scales => map (fun s => (bit_width, s)) scales
  | Variable_ bit_widths scales => zip (map Byte.to_N bit_widths) scales
  end.

(** A sample: two dimensions of three bits each, packed into one byte. *)
Definition sample_ebcp_spec : EmbeddingSpec := {| dims := 2; encoding := "ambient-delta-uq" |}.

Definition sample_quantization : EbcpQuantization := Uniform 3 [1065353216; 1056964608]%N.

Definition sample_descriptor : EbcpDescriptor :=
  {| ebcp_version := 1; logical_embedding_spec := {| dims := 2; encoding := "f32le" |};
     base_centroid := Some [0; 1065353216]%N; rotation := None;
     quantization := Some sample_quantization |}.

Definition sample_payload : bytes := [Byte.x15].

(** ** Bits of a little-endian string *)
Lemma le_combine_testbit l i b :
  l !! N.to_nat (i / 8) = Some b ->
  N.testbit (le_combine l) i = N.testbit (Byte.to_N b) (i mod 8).
Proof.
  revert i. induction l as [|a l IH]; intros i Hl; [done|]. cbn [le_combine].
  pose proof (Byte.to_N_bounded a) as Ha. replace 256%N with (2 ^ 8)%N by done.
  destruct (N.lt_ge_cases i 8) as [Hi|Hi].
  - rewrite N.div_small in Hl by done. cbn in Hl. injection Hl as ->.
    rewrite (N.mod_small i 8) by done.
    rewrite <-(N.mod_pow2_bits_low _ 8 i) by done.
    rewrite (N.mul_comm (2 ^ 8)), N.Div0.mod_add.
    rewrite N.mod_pow2_bits_low by done. done.
  - assert (i = (i - 8) + 8)%N as Ei by lia. rewrite Ei at 1. rewrite <-N.div_pow2_bits.
    rewrite (N.mul_comm (2 ^ 8)), N.div_add, (N.div_small (Byte.to_N a)), N.add_0_l by (cbn; lia).
    assert (i / 8 = (i - 8) / 8 + 1)%N as Ed.
    { rewrite Ei at 1. replace (i - 8 + 8)%N with (i - 8 + 1 * 8)%N by lia.
      by rewrite N.div_add. }
    assert (i mod 8 = (i - 8) mod 8)%N as ->.
    { rewrite Ei at 1. replace (i - 8 + 8)%N with (i - 8 + 1 * 8)%N by lia.
      by rewrite N.Div0.mod_add. }
    apply IH. rewrite Ed, N2Nat.inj_add, Nat.add_comm in Hl. exact Hl.
Qed.

Lemma land_shiftr_testbit n i : N.land (N.shiftr n i) 1 = N.b2n (N.testbit n i).
Proof.
  change 1%N with (N.ones 1). rewrite N.land_ones. rewrite N.testbit_spec'. 
  rewrite N.shiftr_div_pow2. done.
Qed.

(** Appending the next bit above a [k]-bit field. *)
Lemma mod_pow2_succ_lor y k :
  N.lor (y mod 2 ^ k) (N.shiftl (N.b2n (N.testbit y k)) k) = (y mod 2 ^ (k + 1))%N.
Proof.
  apply N.bits_inj. intros i. rewrite N.lor_spec.
  destruct (N.lt_trichotomy i k) as [Hi|[->|Hi]].
  - rewrite N.shiftl_spec_low by done. rewrite !N.mod_pow2_bits_low by lia. by rewrite orb_false_r.
  - rewrite N.mod_pow2_bits_high by lia. rewrite N.shiftl_spec_high' by lia.
    rewrite N.sub_diag, N.b2n_bit0. rewrite N.mod_pow2_bits_low by lia. done.
  - rewrite !N.mod_pow2_bits_high by lia. rewrite N.shiftl_spec_high' by lia. cbn.
    destruct (N.testbit y k); cbn [N.b2n]; [|by rewrite N.bits_0].
    destruct (i - k)%N eqn:E; [lia|]. done.
Qed.

Lemma extract_loop_spec payload start n k :
  (start + k + N.of_nat n <= 8 * len payload)%N -> (k + N.of_nat n <= 32)%N ->
  extract_loop payload start n k (code_at payload start k)
  = Ok (code_at payload start (k + N.of_nat n)).
Proof.
  revert k. induction n as [|n IH]; intros k Hl Hk; cbn [extract_loop].
  - do 2 f_equal. lia.
  - destruct (lookup_lt_is_Some_2 payload (N.to_nat ((start + k) / 8))) as [b Hb].
    { unfold len in Hl. assert ((start + k) / 8 < N.of_nat (length payload))%N; [|lia].
      apply N.Div0.div_lt_upper_bound; lia. }
    rewrite Hb. rewrite (proj2 (N.leb_gt _ _)) by lia.
    rewrite land_shiftr_testbit, <-(le_combine_testbit _ _ _ Hb).
    replace (start + k)%N with (k + start)%N by lia.
    rewrite <-N.div_pow2_bits. unfold code_at at 1. rewrite mod_pow2_succ_lor.
    replace (k + N.of_nat (S n))%N with ((k + 1) + N.of_nat n)%N by lia.
    apply IH; lia.
Qed.

Lemma extract_lsb_first_bits_spec payload start width :
  (start + width <= 8 * len payload)%N -> (width <= 32)%N ->
  extract_lsb_first_bits payload start width = Ok (code_at payload start width).
Proof.
  intros Hl Hw. unfold extract_lsb_first_bits.
  assert (0%N = code_at payload start 0) as E by (unfold code_at; by rewrite N.mod_1_r).
  rewrite E at 2. rewrite extract_loop_spec by lia. do 2 f_equal. lia.
Qed.

(** ** Unpacking *)
Lemma code_at_bound payload start width : (code_at payload start width < 2 ^ width)%N.
Proof. apply N.mod_upper_bound. lia. Qed.

Lemma pow2_le_31 w : (w <= 31)%N -> (2 ^ w <= 2 ^ 31)%N.
Proof. intros Hw. by apply N.pow_le_mono_r. Qed.

(** [centered_code] neither panics nor overflows on codes of a parsed width. *)
Lemma centered_code_ok code w :
  width_ok w -> (code < 2 ^ w)%N ->
  centered_code code w = Ok (Z.of_N code - 2 ^ (Z.of_N w - 1))%Z.
Proof.
  unfold width_ok, centered_code. change EBCP_MAX_SUPPORTED_BIT_WIDTH with 31%N. intros Hw Hc.
  pose proof (pow2_le_31 w ltac:(lia)) as Hp.
  assert (0 < 2 ^ (Z.of_N w - 1) <= 2 ^ 30)%Z as Hq.
  { split; [apply Z.pow_pos_nonneg; lia|]. apply Z.pow_le_mono_r; lia. }
  rewrite (proj2 (N.ltb_lt _ _)) by lia.
  rewrite (proj2 (N.eqb_neq _ _)) by lia. rewrite (proj2 (N.leb_gt _ _)) by lia.
  assert (wrap_i32 (2 ^ Z.of_N (w - 1)) = 2 ^ (Z.of_N w - 1))%Z as ->.
  { replace (Z.of_N (w - 1)) with (Z.of_N w - 1)%Z by lia. unfold wrap_i32.
    rewrite Z.mod_small by lia. lia. }
  rewrite (proj2 (Z.leb_le _ _)) by lia. by rewrite (proj2 (Z.ltb_lt _ _)) by lia.
Qed.

Lemma unpack_value_ok payload start w scale :
  width_ok w -> scale_ok scale = true -> (start + w <= 8 * len payload)%N ->
  unpack_value payload start w scale = Ok (dequantized payload start w scale).
Proof.
  intros Hw Hs Hl. unfold unpack_value. rewrite Hs.
  unfold width_ok in Hw. change EBCP_MAX_SUPPORTED_BIT_WIDTH with 31%N in Hw.
  rewrite extract_lsb_first_bits_spec by lia. cbn [rbind].
  by rewrite centered_code_ok by (done || apply code_at_bound).
Qed.

Lemma unpack_uniform_loop_ok payload start w scales :
  width_ok w -> Forall (fun s => scale_ok s = true) scales ->
  (start + len scales * w <= 8 * len payload)%N ->
  unpack_uniform_loop payload start w scales
  = Ok (dequantize payload start (map (fun s => (w, s)) scales)).
Proof.
  intros Hw Hs. revert start. induction Hs as [|s scales Hs HF IH]; intros start Hl; [done|].
  unfold len in *. cbn [length unpack_uniform_loop map dequantize] in *.
  rewrite unpack_value_ok by (done || (unfold len; lia)).
  cbn [rbind]. by rewrite IH by lia.
Qed.

Lemma unpack_variable_loop_ok payload start (l : list (byte * f32)) :
  Forall (fun p => width_ok (Byte.to_N p.1) /\ scale_ok p.2 = true) l ->
  (start + fields_width (map (fun p => (Byte.to_N p.1, p.2)) l) <= 8 * len payload)%N ->
  unpack_variable_loop payload start l
  = Ok (dequantize payload start (map (fun p => (Byte.to_N p.1, p.2)) l)).
Proof.
  intros HF. revert start. induction HF as [|[w s] l [Hw Hs] HF IH]; intros start Hl; [done|].
  cbn [fst snd unpack_variable_loop map dequantize fields_width foldr] in *.
  pose proof Hw as Hw0. unfold width_ok in Hw0.
  rewrite (proj2 (N.eqb_neq _ _)) by lia. cbn [negb].
  rewrite unpack_value_ok by (done || lia). cbn [rbind]. rewrite IH; [done|].
  unfold fields_width. lia.
Qed.

Lemma dequantize_length payload start l : length (dequantize payload start l) = length l.
Proof. revert start. induction l as [|[w s] l IH]; intros start; cbn; auto. Qed.

(** A byte count that holds the bits. *)
Lemma packed_len_ok bits n (e : BlockError) :
  ok_or (option_map (fun value => value / 8)%N (checked_add USIZE_MAX bits 7)) e = Ok n ->
  (bits <= 8 * n)%N.
Proof.
  unfold checked_add. destruct (_ <=? _)%N; cbn; [|done]. intros [= <-].
  pose proof (N.div_mod (bits + 7) 8 ltac:(lia)) as Hd.
  pose proof (N.mod_upper_bound (bits + 7) 8 ltac:(lia)). lia.
Qed.

Lemma unpack_uniform_ok payload w scales bits n (e : BlockError) :
  width_ok w -> Forall (fun s => scale_ok s = true) scales ->
  checked_mul USIZE_MAX (len scales) w = Some bits ->
  ok_or (option_map (fun value => value / 8)%N (checked_add USIZE_MAX bits 7)) e = Ok n ->
  len payload = n ->
  unpack_quantized_payload_uniform payload w scales
  = Ok (dequantize payload 0 (map (fun s => (w, s)) scales)).
Proof.
  intros Hw Hs Hb Hn Hl. unfold unpack_quantized_payload_uniform, quantized_expected_len.
  rewrite Hb. cbn [ok_or rbind].
  pose proof (packed_len_ok _ _ _ Hn) as Hle.
  unfold checked_mul in Hb. destruct (len scales * w <=? USIZE_MAX)%N; [|done]. injection Hb as Hb.
  destruct (option_map _ _) as [m|]; [|done]. injection Hn as ->. cbn [ok_or rbind].
  rewrite (proj2 (N.eqb_eq _ _)) by done. apply unpack_uniform_loop_ok; [done..|]. lia.
Qed.

Lemma sum_bit_widths_ok (e : BlockError) l acc n :
  try_fold (fun sum width => ok_or (checked_add USIZE_MAX sum (Byte.to_N width)) e) acc l = Ok n ->
  forall e' : BlockError, try_fold (fun sum width => ok_or (checked_add USIZE_MAX sum (Byte.to_N width)) e') acc l = Ok n
  /\ n = (acc + fields_width (map (fun w => (Byte.to_N w, tt)) l))%N.
Proof.
  revert acc. induction l as [|w l IH]; intros acc Hf e'; cbn in *.
  - injection Hf as <-. split; [done|lia].
  - unfold checked_add in *. destruct (_ <=? _)%N; [|done]. cbn in *.
    destruct (IH _ Hf e') as [-> ->]. split; [done|]. unfold fields_width. cbn. lia.
Qed.

Lemma unpack_variable_ok payload bit_widths scales e1 bits n (e : BlockError) :
  len bit_widths = len scales ->
  Forall (fun w => width_ok (Byte.to_N w)) bit_widths -> Forall (fun s => scale_ok s = true) scales ->
  sum_bit_widths e1 bit_widths = Ok bits ->
  ok_or (option_map (fun value => value / 8)%N (checked_add USIZE_MAX bits 7)) e = Ok n ->
  len payload = n ->
  unpack_quantized_payload payload bit_widths scales
  = Ok (dequantize payload 0 (zip (map Byte.to_N bit_widths) scales)).
Proof.
  intros Hlen Hw Hs Hb Hn Hl. unfold unpack_quantized_payload, quantized_expected_len.
  rewrite (proj2 (N.eqb_eq _ _)) by done.
  destruct (sum_bit_widths_ok _ _ _ _ Hb (InvalidEntryShape "EBCP quantized payload bit length overflowed"))
    as [Hb' ->].
  unfold sum_bit_widths. rewrite Hb'. cbn [rbind].
  pose proof (packed_len_ok _ _ _ Hn) as Hle.
  destruct (option_map _ _) as [m|]; [|done]. injection Hn as ->. cbn [ok_or rbind].
  rewrite (proj2 (N.eqb_eq _ _)) by done.
  assert (zip (map Byte.to_N bit_widths) scales
    = map (fun p => (Byte.to_N p.1, p.2)) (zip bit_widths scales)) as ->.
  { clear. revert scales. induction bit_widths as [|w ws IH]; intros [|s ss]; cbn; [done..|].
    f_equal. apply IH. }
  unfold len in Hlen. apply unpack_variable_loop_ok.
  - clear -Hw Hs Hlen. assert (length bit_widths = length scales) as Hl by lia. clear Hlen.
    revert scales Hs Hl. induction Hw as [|w ws Hw HF IH]; intros [|s ss] Hs Hl; cbn in *; try done.
    inversion Hs; subst. constructor; [done|]. apply IH; [done|lia].
  - rewrite Hl. etrans; [|exact Hle]. rewrite N.add_0_l. apply N.eq_le_incl.
    assert (length bit_widths = length scales) as Hll by lia. clear -Hll. unfold fields_width.
    revert scales Hll. induction bit_widths as [|w ws IH]; intros [|s ss] Hl; cbn in *; try lia.
    rewrite IH by lia. done.
Qed.

Lemma encodings_disjoint enc :
  (is_float_ebcp enc = true -> is_uniform_ebcp enc = false /\ is_variable_ebcp enc = false)
  /\ (is_uniform_ebcp enc = true -> is_float_ebcp enc = false /\ is_variable_ebcp enc = false)
  /\ (is_variable_ebcp enc = true -> is_float_ebcp enc = false /\ is_uniform_ebcp enc = false).
Proof.
  unfold is_float_ebcp, is_uniform_ebcp, is_variable_ebcp, str_in. cbn [existsb].
  repeat match goal with |- context [String.eqb enc ?s] => destruct (String.eqb_spec enc s) as [->|?] end;
    try done.
Qed.

Lemma ebcp_encoding_cases enc :
  is_ebcp_encoding enc = is_float_ebcp enc || is_uniform_ebcp enc || is_variable_ebcp enc.
Proof.
  unfold is_ebcp_encoding, is_float_ebcp, is_uniform_ebcp, is_variable_ebcp, str_in. cbn [existsb].
  repeat match goal with |- context [String.eqb enc ?s] => destruct (String.eqb enc s); try done end.
Qed.

(** What the length check of a branch says of one payload. *)
Lemma validated_payload_len spec d payload :
  validate_branch_ebcp_payload_lengths [payload] spec d = Ok tt ->
  exists bits, ebcp_payload_bit_len spec d = Ok bits /\ packed_bit_len_to_byte_len bits = Ok (len payload).
Proof.
  unfold validate_branch_ebcp_payload_lengths, validate_payload. intros Hv. inv_ok.
  exists a. split; [done|]. cbn in Hv. inv_ok. apply N.eqb_eq in Hb. by rewrite Hb.
Qed.

Lemma usize_dims n (e : BlockError) : (n <= USIZE_MAX)%N -> ok_or (usize_try_from n) e = Ok n.
Proof. intros Hn. unfold usize_try_from. by rewrite (proj2 (N.leb_le _ _)). Qed.

Lemma decode_quantized spec d q payload :
  descriptor_wf spec d -> quantization d = Some q ->
  validate_branch_ebcp_payload_lengths [payload] spec d = Ok tt ->
  decode_ebcp_payload_components payload spec d = Ok (dequantize payload 0 (quantized_fields q)).
Proof.
  intros (He & Hd & _ & Hlog & _ & _ & Hq & _) Eq (bits & Hbits & Hlen)%validated_payload_len.
  rewrite Eq in Hq. cbn [opt_wf] in Hq.
  unfold decode_ebcp_payload_components, ebcp_payload_bit_len in *. rewrite Hlog. cbn [dims].
  rewrite usize_dims in * by done. cbn [rbind] in *.
  destruct (encodings_disjoint (encoding spec)) as (_ & Hu & Hv).
  destruct q as [w scales|ws scales]; cbn [quantization_wf quantized_fields] in *.
  - destruct Hq as (Eu & Hw & ((Hl & _ & _) & Hs)). destruct (Hu Eu) as [Ef _].
    rewrite Ef, Eu, Eq in *. cbn [ok_or rbind] in *. rewrite <-Hl in Hbits.
    apply ok_or_ok in Hbits. by eapply unpack_uniform_ok.
  - destruct Hq as (Ev & Hlw & Hw & ((Hl & _ & _) & Hs)). destruct (Hv Ev) as [Ef Eu].
    rewrite Ef, Eu, Ev, Eq in *. cbn [ok_or rbind] in *.
    eapply unpack_variable_ok; try done. congruence.
Qed.

(** Every [EBCP] descriptor has quantisation metadata or a float encoding. *)
Lemma descriptor_wf_cases spec d :
  descriptor_wf spec d -> is_float_ebcp (encoding spec) = true \/ exists q, quantization d = Some q.
Proof.
  intros (He & _ & _ & _ & _ & _ & _ & Hc). rewrite ebcp_encoding_cases in He.
  destruct (is_float_ebcp _) eqn:Ef; [by left|]. right.
  destruct (quantization d) as [q|]; [by exists q|]. exfalso. revert He Hc.
  unfold is_uniform_ebcp, is_variable_ebcp, check_descriptor_parts, is_float_ebcp, str_in in *. cbn [existsb] in *.
  repeat match goal with |- context [String.eqb (encoding spec) ?s] =>
    destruct (String.eqb_spec (encoding spec) s) as [->|?] end;
    cbn in *; try done; destruct (is_some (rotation d)), (is_some (base_centroid d)); done.
Qed.

Lemma mod4_of_len (b : bytes) n : len b = (n * 4)%N -> (length b mod 4 = 0)%nat /\ length b = (N.to_nat n * 4)%nat.
Proof.
  unfold len. intros Hl. assert (length b = N.to_nat n * 4)%nat as -> by lia.
  split; [apply Nat.Div0.mod_mul|done].
Qed.

(** Decoding gives one value per dimension. *)
Lemma decode_components_length spec d payload vs :
  descriptor_wf spec d -> validate_branch_ebcp_payload_lengths [payload] spec d = Ok tt ->
  decode_ebcp_payload_components payload spec d = Ok vs -> len vs = dims spec.
Proof.
  intros Hd Hv Hdec. destruct (descriptor_wf_cases _ _ Hd) as [Ef|[q Eq]].
  - destruct Hd as (_ & Hds & _ & Hlog & _).
    unfold decode_ebcp_payload_components in Hdec. rewrite Hlog in Hdec. cbn [dims] in Hdec.
    rewrite usize_dims in Hdec by done. rewrite Ef in Hdec. cbn [rbind] in Hdec. inv_ok.
    unfold checked_mul in Hok. destruct (_ <=? _)%N; [|done]. injection Hok as <-.
    apply N.eqb_eq, mod4_of_len in Hb as [Hm Hl].
    destruct (decode_finite_f32s_ok _ _ _ Hm Hdec) as [-> _].
    rewrite encode_f32_values_length in Hl. unfold len. lia.
  - rewrite (decode_quantized _ _ _ _ Hd Eq Hv) in Hdec. injection Hdec as <-.
    destruct Hd as (_ & _ & _ & _ & _ & _ & Hq & _). rewrite Eq in Hq.
    unfold len. rewrite dequantize_length.
    destruct q as [w scales|ws scales]; cbn [opt_wf quantization_wf quantized_fields] in *.
    + destruct Hq as (_ & _ & ((Hl & _) & _)). by rewrite length_map.
    + destruct Hq as (_ & Hlw & _ & ((Hl & _) & _)). unfold len in *.
      rewrite length_zip_with, length_map. lia.
Qed.

Lemma decode_components_no_panic spec d payload :
  descriptor_wf spec d -> validate_branch_ebcp_payload_lengths [payload] spec d = Ok tt ->
  no_panic (decode_ebcp_payload_components payload spec d).
Proof.
  intros Hd Hv. destruct (descriptor_wf_cases _ _ Hd) as [Ef|[q Eq]].
  - unfold decode_ebcp_payload_components. rewrite Ef. np.
  - by rewrite (decode_quantized _ _ _ _ Hd Eq Hv).
Qed.

(** ** Reconstruction *)
Lemma expect_no_panic {A} (o : option A) : is_Some o -> no_panic (E := BlockError) (expect o).
Proof. by intros [a ->]. Qed.

Lemma rotate_accumulate_no_panic m dims i j rotated v :
  length m = (dims * dims)%nat -> (i < dims)%nat -> (j + length rotated <= dims)%nat ->
  no_panic (rotate_accumulate m dims i j rotated v).
Proof.
  intros Hm Hi. revert j v. induction rotated as [|r rotated IH]; intros j v Hj; cbn in *; [done|].
  apply rbind_no_panic.
  - apply expect_no_panic, lookup_lt_is_Some_2. rewrite Hm. nia.
  - intros a _. apply IH. lia.
Qed.

Lemma centroid_value_no_panic spec d i :
  descriptor_wf spec d -> (N.of_nat i < dims spec)%N -> no_panic (centroid_value (base_centroid d) i).
Proof.
  intros (_ & _ & _ & _ & Hc & _) Hi. unfold centroid_value. destruct (base_centroid d); [|done].
  destruct Hc as [Hl _]. unfold len in Hl. apply expect_no_panic, lookup_lt_is_Some_2. lia.
Qed.

Lemma reconstruct_ambient_no_panic spec d vs :
  descriptor_wf spec d -> no_panic (reconstruct_ebcp_ambient_embedding d vs).
Proof.
  intros Hd. pose proof Hd as (_ & Hds & _ & Hlog & _ & Hr & _).
  unfold reconstruct_ebcp_ambient_embedding. rewrite Hlog. cbn [dims].
  rewrite usize_dims by done. cbn [rbind].
  destruct (len vs =? dims spec)%N eqn:El; [|done]. apply N.eqb_eq in El. unfold len in El.
  destruct (rotation d) as [r|].
  - destruct Hr as (_ & Hl & Hmax & _). unfold checked_mul.
    rewrite (proj2 (N.leb_le _ _)) by lia. cbn [expect rbind].
    rewrite (proj2 (N.eqb_eq _ _)) by done.
    apply collect_map_no_panic. intros i [_ Hi]%elem_of_seq.
    apply rbind_no_panic; [eapply centroid_value_no_panic; [done|lia]|]. intros c _.
    apply rbind_no_panic; [|intros; unfold check_ambient; np].
    apply rotate_accumulate_no_panic; [unfold len in Hl; nia|lia|lia].
  - apply collect_map_no_panic. intros i [_ Hi]%elem_of_seq.
    apply rbind_no_panic; [eapply centroid_value_no_panic; [done|lia]|]. intros c _.
    apply rbind_no_panic; [apply expect_no_panic, lookup_lt_is_Some_2; lia|].
    intros; unfold check_ambient; np.
Qed.

Lemma check_ambient_ok v w : check_ambient v = Ok w -> f32_is_finite w = true.
Proof. unfold check_ambient. intros Hc. inv_ok. by subst. Qed.

Lemma reconstruct_ambient_ok spec d vs us :
  descriptor_wf spec d -> reconstruct_ebcp_ambient_embedding d vs = Ok us ->
  len us = dims spec /\ Forall (fun u => f32_is_finite u = true) us.
Proof.
  intros (_ & Hds & _ & Hlog & _). unfold reconstruct_ebcp_ambient_embedding. rewrite Hlog. cbn [dims].
  rewrite usize_dims by done. cbn [rbind]. intros Hr. inv_ok.
  assert (exists f : nat -> result BlockError f32, collect_map f (seq 0 (N.to_nat (dims spec))) = Ok us
    /\ forall i u, f i = Ok u -> f32_is_finite u = true) as (f & Hf & Hfin).
  { destruct (rotation d); inv_ok; eexists; (split; [exact Hr|]); intros i u Hi;
      cbn beta in Hi; inv_ok; by eapply check_ambient_ok. }
  split.
  - apply collect_map_length in Hf. rewrite length_seq in Hf. unfold len. lia.
  - apply collect_map_ok in Hf. clear Hr. induction Hf; constructor; eauto.
Qed.

(** ** Writing and parsing a descriptor *)
Lemma parse_rotation_written dims r :
  rotation_wf dims r -> parse_ebcp_rotation (VMap (int_entries (ebcp_rotation_to_entries r))) dims = Ok r.
Proof.
  intros [Hf Hm]. unfold parse_ebcp_rotation, ebcp_rotation_to_entries.
  rewrite integer_keyed_map_ints by (repeat constructor; first [lia|set_solver by lia]). cbn [rbind].
  erewrite (proj2 (required_text_field_ok _ _ _ _ _)) by (split; [simplify_map_eq|]; done). cbn [rbind].
  rewrite Hf, String.eqb_refl.
  destruct Hm as (Hl & Hn & HF). unfold checked_mul.
  rewrite (proj2 (N.leb_le (dims * dims) _)) by lia. rewrite (proj2 (N.leb_le _ _)) by done. cbn [ok_or rbind].
  erewrite (proj2 (required_field_ok _ _ _ _ _)) by (split; [simplify_map_eq|]; done). cbn [rbind].
  rewrite N.div_mul by lia. rewrite (proj2 (parse_f32_vector_bytes_ok _ _ _ (matrix r))) by done.
  cbn [rbind]. rewrite <-Hf. by destruct r.
Qed.

(** Reads a field of a concrete field map. *)
Ltac read_field := first
  [ erewrite (proj2 (required_u64_field_ok _ _ _ _ _)) by
      (split_and!; [simplify_map_eq; reflexivity|try lia; try done|reflexivity])
  | erewrite (proj2 (required_text_field_ok _ _ _ _ _)) by (split; [simplify_map_eq; reflexivity|reflexivity])
  | erewrite (proj2 (required_field_ok _ _ _ _ _)) by (split; [simplify_map_eq; reflexivity|reflexivity]) ];
  cbn [rbind].

Lemma scales_accepted (scales : list f32) :
  Forall (fun s => scale_ok s = true) scales -> existsb (fun s => negb (scale_ok s)) scales = false.
Proof. intros HF. apply existsb_false. eapply Forall_impl; [done|]. intros s. apply negb_false_iff. Qed.

Lemma parse_quantization_written spec q :
  quantization_wf (encoding spec) (dims spec) q ->
  parse_ebcp_quantization (VMap (int_entries (ebcp_quantization_to_entries q))) spec (dims spec) = Ok q.
Proof.
  destruct q as [w scales|ws scales]; cbn [quantization_wf ebcp_quantization_to_entries];
    unfold parse_ebcp_quantization, parse_uniform_quantization, parse_variable_quantization, width_ok;
    change EBCP_MAX_SUPPORTED_BIT_WIDTH with 31%N.
  - intros (Eu & Hw & Hv & Hs).
    rewrite integer_keyed_map_ints by (repeat constructor; first [lia|set_solver by lia]). cbn [rbind].
    read_field. read_field. rewrite (proj2 (parse_f32_vector_bytes_ok _ _ _ scales)) by done. cbn [rbind].
    rewrite scales_accepted by done. rewrite Eu. cbn [negb]. cbn [N.eqb Pos.eqb].
    read_field.
    rewrite (proj2 (N.leb_le w 255)) by lia. rewrite (proj2 (N.eqb_neq w 0)) by lia. cbn [negb].
    rewrite (proj2 (N.ltb_ge 31 w)) by lia. simplify_map_eq. done.
  - intros (Ev & Hl & Hw & Hv & Hs).
    rewrite integer_keyed_map_ints by (repeat constructor; first [lia|set_solver by lia]). cbn [rbind].
    read_field. read_field. rewrite (proj2 (parse_f32_vector_bytes_ok _ _ _ scales)) by done. cbn [rbind].
    rewrite scales_accepted by done.
    destruct (encodings_disjoint (encoding spec)) as (_ & _ & Hd). destruct (Hd Ev) as [_ Eu].
    rewrite Eu, Ev. cbn [negb]. simplify_map_eq. cbn [is_some negb]. read_field. cbn [parse_byte_string rbind].
    rewrite Hl, N.eqb_refl. cbn [negb orb].
    rewrite (proj2 (existsb_false (fun w => Byte.to_N w =? 0)%N ws)).
    + cbn [negb]. rewrite (proj2 (existsb_false (fun w => 31 <? Byte.to_N w)%N ws)); [done|].
      eapply Forall_impl; [exact Hw|]. intros w Hww. cbn beta in *. apply N.ltb_ge. lia.
    + eapply Forall_impl; [exact Hw|]. intros w Hww. cbn beta in *. apply N.eqb_neq. lia.
Qed.

Lemma opt_transpose_written {A B E} (f : B -> result E A) (g : A -> B) (o : option A) :
  (forall a, o = Some a -> f (g a) = Ok a) -> opt_transpose f (g <$> o) = Ok o.
Proof. destruct o; cbn; intros Hf; [|done]. by rewrite Hf. Qed.

(** The field map of a written descriptor. *)
Lemma descriptor_fields d ctx :
  (dims (logical_embedding_spec d) < 2 ^ 64)%N ->
  exists f, integer_keyed_map (VMap (int_entries (ebcp_descriptor_to_entries d))) ctx = Ok f
  /\ f !! EBCP_VERSION_KEY = Some (int_value (ebcp_version d))
  /\ f !! EBCP_LOGICAL_ENCODING_KEY = Some (VText (encoding (logical_embedding_spec d)))
  /\ f !! EBCP_ORIGINAL_DIMS_KEY = Some (int_value (dims (logical_embedding_spec d)))
  /\ f !! EBCP_BASE_CENTROID_KEY = (fun c => VBytes (encode_f32_values c)) <$> base_centroid d
  /\ f !! EBCP_ROTATION_KEY =
       (fun r => VMap (int_entries (ebcp_rotation_to_entries r))) <$> rotation d
  /\ f !! EBCP_QUANTIZATION_KEY =
       (fun q => VMap (int_entries (ebcp_quantization_to_entries q))) <$> quantization d.
Proof.
  intros Hd. unfold ebcp_descriptor_to_entries. eexists. split.
  - apply integer_keyed_map_ints.
    + destruct (rotation d), (base_centroid d), (quantization d); repeat constructor; lia.
    + destruct (rotation d), (base_centroid d), (quantization d); repeat constructor; set_solver by lia.
  - destruct (rotation d), (base_centroid d), (quantization d); split_and!; by simplify_map_eq.
Qed.

Lemma parse_descriptor_written spec d :
  descriptor_wf spec d ->
  parse_branch_ebcp_descriptor spec (Some (ebcp_extension_map d)) = Ok (Some d).
Proof.
  intros (He & Hds & Hver & Hlog & Hc & Hr & Hq & Hparts).
  assert (dims (logical_embedding_spec d) < 2 ^ 64)%N as Hd.
  { rewrite Hlog. cbn [dims]. unfold USIZE_MAX in Hds. lia. }
  unfold parse_branch_ebcp_descriptor. rewrite He. cbn [negb ok_or rbind]. unfold ebcp_extension_map.
  rewrite integer_keyed_map_ints by (repeat constructor; first [lia|set_solver by lia]). cbn [rbind].
  destruct (descriptor_fields d "ext[0]" Hd) as (f & Ef & F0 & F1 & F2 & F3 & F4 & F5).
  revert Ef. generalize (VMap (int_entries (ebcp_descriptor_to_entries d))). intros vd Ef.
  read_field. rewrite Ef. cbn [rbind]. unfold parse_ebcp_descriptor_fields, remove_field.
  rewrite Hver in F0. read_field. cbn [N.eqb Pos.eqb].
  rewrite Hlog in F1, F2. cbn [encoding dims] in F1, F2.
  read_field. rewrite String.eqb_refl.
  erewrite (proj2 (required_u64_field_ok _ _ _ _ _)) by
    (split_and!; [simplify_map_eq; reflexivity|rewrite Hlog in Hd; exact Hd|done]). cbn [rbind].
  rewrite N.eqb_refl. rewrite usize_dims by done. cbn [rbind].
  rewrite !lookup_delete_ne by done. rewrite F3, F4, F5.
  rewrite opt_transpose_written by
    (intros a Ha; rewrite Ha in Hc; by apply parse_f32_vector_bytes_ok). cbn [rbind].
  rewrite opt_transpose_written by
    (intros a Ha; rewrite Ha in Hr; by apply parse_rotation_written). cbn [rbind].
  rewrite opt_transpose_written by
    (intros a Ha; rewrite Ha in Hq; by apply parse_quantization_written). cbn [rbind].
  rewrite Hparts. cbn [rbind]. rewrite ?N.eqb_refl, <-Hver, <-Hlog. by destruct d.
Qed.

(** ** Properties *)

(** The descriptors the parser returns for an embedding spec are exactly the well-
    formed ones (dimensions, finite floats, the parts each encoding requires, bit widths
    1 to 31), and the extension map built from a well-formed descriptor parses back to
    it. *)
Theorem descriptor_parse_exact spec d :
  (descriptor_wf spec d <-> exists ext, parse_branch_ebcp_descriptor spec ext = Ok (Some d))
  /\ (descriptor_wf spec d ->
      parse_branch_ebcp_descriptor spec (Some (ebcp_extension_map d)) = Ok (Some d)).
Proof.
  split; [split|].
  - intros Hd. exists (Some (ebcp_extension_map d)). by apply parse_descriptor_written.
  - intros [ext Hp]. exact (parse_branch_descriptor_ok _ _ _ Hp).
  - apply parse_descriptor_written.
Qed.

Lemma extract_loop_panics payload start n k value :
  n <> 0%nat -> (8 * len payload < start + k + N.of_nat n)%N \/ (32 < k + N.of_nat n)%N ->
  extract_loop payload start n k value = Panic.
Proof.
  revert k value. induction n as [|n IH]; intros k value Hn Hout; [done|]. cbn [extract_loop].
  destruct (payload !! N.to_nat ((start + k) / 8)) as [b|] eqn:Hb; [|done].
  destruct (32 <=? k)%N eqn:Ek; [done|]. apply N.leb_gt in Ek.
  apply lookup_lt_Some in Hb.
  assert (start + k < 8 * len payload)%N as Hin.
  { unfold len. pose proof (N.div_mod (start + k) 8 ltac:(lia)).
    pose proof (N.mod_upper_bound (start + k) 8 ltac:(lia)). lia. }
  apply IH; lia.
Qed.

(** Extracting w bits at bit s from a payload gives bits s to s+w-1 of the payload
    read as a little-endian number when they lie within the payload and w is at most 32,
    and panics otherwise. *)
Theorem extract_bits_exact payload start width :
  extract_lsb_first_bits payload start width =
    if (width =? 0)%N then Ok 0%N
    else if (start + width <=? 8 * len payload)%N && (width <=? 32)%N
    then Ok ((le_combine payload / 2 ^ start) mod 2 ^ width)%N
    else Panic.
Proof.
  destruct (N.eqb_spec width 0) as [->|Hw]; [done|].
  destruct (N.leb_spec (start + width) (8 * len payload)) as [Hl|Hl]; cbn [andb].
  - destruct (N.leb_spec width 32) as [H32|H32].
    + by apply extract_lsb_first_bits_spec.
    + unfold extract_lsb_first_bits. apply extract_loop_panics; lia.
  - unfold extract_lsb_first_bits. apply extract_loop_panics; lia.
Qed.

(** C25 For a parsed descriptor with quantization, uniform or per dimension, decoding a
    validated payload reads each code from its own bit range of the little-endian
    payload number, centres it and scales it: no field overlaps another and none is
    skipped. *)
Theorem quantized_payload_decodes spec ext d q payload :
  parse_branch_ebcp_descriptor spec ext = Ok (Some d) -> quantization d = Some q ->
  validate_branch_ebcp_payload_lengths [payload] spec d = Ok tt ->
  decode_ebcp_payload_components payload spec d = Ok (dequantize payload 0 (quantized_fields q)).
Proof. intros Hp. apply decode_quantized. exact (parse_branch_descriptor_ok _ _ _ Hp). Qed.

(** For a parsed descriptor and a validated payload the public reconstruction never
    panics (no index is out of range and no shift overflows), and when it succeeds the
    vector has the declared dimension and only finite components. *)
Theorem reconstruction_safe `{HalfCrate} spec ext d payload :
  parse_branch_ebcp_descriptor spec ext = Ok (Some d) ->
  validate_branch_ebcp_payload_lengths [payload] spec d = Ok tt ->
  reconstruct_logical_branch_embedding_f32 payload spec (Some d)
    = reconstruct_ebcp_logical_embedding payload spec d
  /\ no_panic (reconstruct_ebcp_logical_embedding payload spec d)
  /\ forall us, reconstruct_ebcp_logical_embedding payload spec d = Ok us ->
     len us = dims spec /\ Forall (fun u => f32_is_finite u = true) us.
Proof.
  intros Hp Hv. pose proof (parse_branch_descriptor_ok _ _ _ Hp) as Hd. cbn in Hd.
  split; [|split].
  - pose proof Hd as (He & _ & _ & Hlog & _). unfold reconstruct_logical_branch_embedding_f32.
    rewrite He. cbn [ok_or rbind]. rewrite Hlog. cbn [dims]. rewrite N.eqb_refl. revert He.
    unfold is_ebcp_encoding, str_in. cbn [existsb].
    do 4 match goal with |- context [if String.eqb (encoding spec) ?s then _ else _] =>
      destruct (String.eqb_spec (encoding spec) s) as [->|_]; [done|] end. done.
  - unfold reconstruct_ebcp_logical_embedding.
    apply rbind_no_panic; [by apply decode_components_no_panic|].
    intros vs _. by eapply reconstruct_ambient_no_panic.
  - unfold reconstruct_ebcp_logical_embedding. intros us Hr. inv_ok.
    by eapply reconstruct_ambient_ok.
Qed.

Lemma descriptor_parse_exact_witness :
  parse_branch_ebcp_descriptor sample_ebcp_spec (Some (ebcp_extension_map sample_descriptor))
  = Ok (Some sample_descriptor).
Proof.
  apply (proj2 (descriptor_parse_exact sample_ebcp_spec sample_descriptor)).
  apply (proj2 (proj1 (descriptor_parse_exact sample_ebcp_spec sample_descriptor))).
  exists (Some (ebcp_extension_map sample_descriptor)). vm_compute. reflexivity.
Defined.

Lemma quantized_payload_decodes_witness :
  decode_ebcp_payload_components sample_payload sample_ebcp_spec sample_descriptor
  = Ok (dequantize sample_payload 0 (quantized_fields sample_quantization))
  /\ dequantize sample_payload 0 (quantized_fields sample_quantization)
     = [1065353216; 3212836864]%N.
Proof.
  split; [|vm_compute; reflexivity].
  apply (quantized_payload_decodes sample_ebcp_spec (Some (ebcp_extension_map sample_descriptor))).
  - vm_compute. reflexivity.
  - reflexivity.
  - vm_compute. reflexivity.
Defined.

Lemma reconstruction_safe_witness :
  reconstruct_ebcp_logical_embedding sample_payload sample_ebcp_spec sample_descriptor <> Panic.
Proof.
  apply (reconstruction_safe (H := fun _ => 0%N) sample_ebcp_spec
    (Some (ebcp_extension_map sample_descriptor)) sample_descriptor sample_payload).
  - vm_compute. reflexivity.
  - vm_compute. reflexivity.
Defined.
