(* ===== verification/BlockV1.v ===== *)
(** * Version-1 blocks

    The block model of crates/lexongraph-block/src/lib.rs: branch and leaf blocks,
    their normal form ([normalize_block]), their CBOR form ([block_to_value],
    [parse_block]) and the serialisation entry points. [BlockV1Correct] holds the
    lemmas and the properties. *)
From S2P Require Import Prelude Ordering Hash Cbor Fields Ieee Ebcp EbcpPayload.

Definition VERSION_1 : N := 1.
Definition TOP_LEVEL_VERSION_KEY : N := 0.
Definition TOP_LEVEL_LEVEL_KEY : N := 1.
Definition TOP_LEVEL_EMBEDDING_SPEC_KEY : N := 2.
Definition TOP_LEVEL_ENTRIES_KEY : N := 3.
Definition TOP_LEVEL_EXT_KEY : N := 15.
Definition EMBEDDING_SPEC_DIMS_KEY : N := 0.
Definition EMBEDDING_SPEC_ENCODING_KEY : N := 1.
Definition BRANCH_ENTRY_EMBEDDING_KEY : N := 0.
Definition BRANCH_ENTRY_CHILD_KEY : N := 1.
Definition LEAF_ENTRY_EMBEDDING_KEY : N := 0.
Definition LEAF_ENTRY_METADATA_KEY : N := 1.
Definition LEAF_ENTRY_CONTENT_KEY : N := 2.
Definition CONTENT_MEDIA_TYPE_KEY : N := 0.
Definition CONTENT_BODY_KEY : N := 1.

(** [BranchEntry], [Content], [LeafEntry], [BranchBlock], [LeafBlock], [Block] *)
Record BranchEntry := { branch_embedding : bytes; child : BlockHash }.
Record Content := { media_type : string; body : bytes }.
Record LeafEntry := { leaf_embedding : bytes; metadata : Metadata; content : Content }.

Record BranchBlock := {
  branch_version : N; branch_level : N; branch_spec : EmbeddingSpec;
  branch_entries : list BranchEntry; branch_ext : option ExtensionMap
}.
Record LeafBlock := {
  leaf_version : N; leaf_level : N; leaf_spec : EmbeddingSpec;
  leaf_entries : list LeafEntry; leaf_ext : option ExtensionMap
}.
Inductive Block := Branch (b : BranchBlock) | Leaf (b : LeafBlock).

(** [SerializedBlock], [ValidatedBlock], [BlockMetadata], [TypedEntries] *)
Record SerializedBlock := { ser_bytes : bytes; ser_hash : BlockHash }.
Record ValidatedBlock := { val_block : Block; val_hash : BlockHash }.
Record BlockMetadata := {
  meta_version : N; meta_level : N; meta_spec : EmbeddingSpec; meta_ext : option ExtensionMap
}.
Inductive TypedEntries :=
| BranchEntries (m : BlockMetadata) (entries : list BranchEntry)
| LeafEntries (m : BlockMetadata) (entries : list LeafEntry).

(** [into_entries] *)
Definition into_entries (validated : ValidatedBlock) : TypedEntries :=
  match val_block validated with
  | Branch b =>
      BranchEntries {| meta_version := branch_version b; meta_level := branch_level b;
                       meta_spec := branch_spec b; meta_ext := branch_ext b |} (branch_entries b)
  | Leaf b =>
      LeafEntries {| meta_version := leaf_version b; meta_level := leaf_level b;
                     meta_spec := leaf_spec b; meta_ext := leaf_ext b |} (leaf_entries b)
  end.

(** [compare_branch_entries] *)
Definition compare_branch_entries (left right : BranchEntry) : comparison :=
  then_with (bytes_cmp (branch_embedding left) (branch_embedding right))
            (hash_cmp (child left) (child right)).

(** [validate_version], [validate_embedding_spec] *)
Definition validate_version (version : N) : result BlockError unit :=
  guard? (version =? VERSION_1)%N else UnsupportedVersion version in Ok tt.

Definition is_plain_encoding (encoding : string) : bool :=
  str_in encoding ["f32le"; "f16le"; "i8"; "pq4"].

Definition validate_embedding_spec (spec : EmbeddingSpec) : result BlockError unit :=
  guard? is_plain_encoding (encoding spec) || is_ebcp_encoding (encoding spec)
    else NonConforming "embedding_spec.encoding is not a supported version-1 encoding" in
  Ok tt.

Definition dup_branch_error : BlockError :=
  NonConforming "duplicate branch entries with the same (embedding, child) pair are forbidden".

(** Sorting the entries of a branch and refusing duplicates: the tail of the
    branch arm of [normalize_block]. *)
Definition sort_branch_entries (entries : list BranchEntry) : result BlockError (list BranchEntry) :=
  let sorted := sort_by compare_branch_entries entries in
  guard? negb (has_equal_pair compare_branch_entries sorted) else dup_branch_error in
  Ok sorted.

Section codec.
Context `{CborCodec}.

(** The EBCP check of a branch: parse the descriptor, then check every payload.
    The [expect] on the parsed descriptor is [expect]. *)
Definition validate_branch_ebcp (entries : list BranchEntry) (spec : EmbeddingSpec)
  (ext : option ExtensionMap) : result BlockError unit :=
  if is_ebcp_encoding (encoding spec) then
    let? o := parse_branch_ebcp_descriptor spec ext in
    let? descriptor := expect o in
    validate_branch_ebcp_payload_lengths (map branch_embedding entries) spec descriptor
  else Ok tt.

(** The metadata loop of the leaf arm. *)
Definition canonicalize_leaf_entry (entry : LeafEntry) : result BlockError LeafEntry :=
  rmap (fun m => {| leaf_embedding := leaf_embedding entry; metadata := m; content := content entry |})
       (canonicalize_metadata (metadata entry)).

(** The two arms of [normalize_block]. *)
Definition normalize_branch (block : BranchBlock) : result BlockError BranchBlock :=
  let? _ := validate_version (branch_version block) in
  guard? negb (branch_level block =? 0)%N else InvalidBlockLevel (branch_level block) in
  let? _ := validate_embedding_spec (branch_spec block) in
  let? ext := normalize_optional_map (branch_ext block) in
  let? _ := validate_branch_ebcp (branch_entries block) (branch_spec block) ext in
  let? entries := sort_branch_entries (branch_entries block) in
  Ok {| branch_version := branch_version block; branch_level := branch_level block;
        branch_spec := branch_spec block; branch_entries := entries; branch_ext := ext |}.

Definition normalize_leaf (block : LeafBlock) : result BlockError LeafBlock :=
  let? _ := validate_version (leaf_version block) in
  guard? (leaf_level block =? 0)%N else InvalidBlockLevel (leaf_level block) in
  let? _ := validate_embedding_spec (leaf_spec block) in
  guard? negb (is_ebcp_encoding (encoding (leaf_spec block)))
    else NonConforming "leaf blocks must not use EBCP branch encodings" in
  let? ext := normalize_optional_map (leaf_ext block) in
  guard? (len (leaf_entries block) =? 1)%N
    else NonConforming "leaf blocks must contain exactly one leaf entry" in
  let? entries := collect_map canonicalize_leaf_entry (leaf_entries block) in
  Ok {| leaf_version := leaf_version block; leaf_level := leaf_level block;
        leaf_spec := leaf_spec block; leaf_entries := entries; leaf_ext := ext |}.

(** [normalize_block] *)
Definition normalize_block (block : Block) : result BlockError Block :=
  match block with
  | Branch b => rmap Branch (normalize_branch b)
  | Leaf b => rmap Leaf (normalize_leaf b)
  end.

(** [build_branch_block], [build_leaf_block]; the other arm is [unreachable!]. *)
Definition build_branch_block (version level : N) (spec : EmbeddingSpec)
  (entries : list BranchEntry) (ext : option ExtensionMap) : result BlockError BranchBlock :=
  let? b := normalize_block (Branch {| branch_version := version; branch_level := level;
    branch_spec := spec; branch_entries := entries; branch_ext := ext |}) in
  match b with
  | Branch block => Ok block
  | Leaf _ => Panic
  end.

Definition build_leaf_block (version : N) (spec : EmbeddingSpec)
  (entries : list LeafEntry) (ext : option ExtensionMap) : result BlockError LeafBlock :=
  let? b := normalize_block (Leaf {| leaf_version := version; leaf_level := 0;
    leaf_spec := spec; leaf_entries := entries; leaf_ext := ext |}) in
  match b with
  | Leaf block => Ok block
  | Branch _ => Panic
  end.

(** [embedding_spec_to_value], [branch_entry_to_value], [content_to_value],
    [leaf_entry_to_value] *)
Definition embedding_spec_to_value (spec : EmbeddingSpec) : Value :=
  VMap (int_entries [(EMBEDDING_SPEC_DIMS_KEY, int_value (dims spec));
                     (EMBEDDING_SPEC_ENCODING_KEY, VText (encoding spec))]).

Definition branch_entry_to_value (entry : BranchEntry) : Value :=
  VMap (int_entries [(BRANCH_ENTRY_EMBEDDING_KEY, VBytes (branch_embedding entry));
                     (BRANCH_ENTRY_CHILD_KEY, VBytes (as_bytes (child entry)))]).

Definition content_to_value (content : Content) : Value :=
  VMap (int_entries [(CONTENT_MEDIA_TYPE_KEY, VText (media_type content));
                     (CONTENT_BODY_KEY, VBytes (body content))]).

Definition leaf_entry_to_value (entry : LeafEntry) : Value :=
  VMap (int_entries [(LEAF_ENTRY_EMBEDDING_KEY, VBytes (leaf_embedding entry));
                     (LEAF_ENTRY_METADATA_KEY, VMap (metadata entry));
                     (LEAF_ENTRY_CONTENT_KEY, content_to_value (content entry))]).

(** The [ext] field, pushed last when there is one. *)
Definition ext_entry (key : N) (ext : option ExtensionMap) : list (N * Value) :=
  opt_entry key VMap ext.

(** The field list [block_to_value] builds. *)
Definition block_entries (block : Block) : list (N * Value) :=
  match block with
  | Branch b =>
      [(TOP_LEVEL_VERSION_KEY, int_value (branch_version b));
       (TOP_LEVEL_LEVEL_KEY, int_value (branch_level b));
       (TOP_LEVEL_EMBEDDING_SPEC_KEY, embedding_spec_to_value (branch_spec b));
       (TOP_LEVEL_ENTRIES_KEY, VArray (map branch_entry_to_value (branch_entries b)))]
      ++ ext_entry TOP_LEVEL_EXT_KEY (branch_ext b)
  | Leaf b =>
      [(TOP_LEVEL_VERSION_KEY, int_value (leaf_version b));
       (TOP_LEVEL_LEVEL_KEY, int_value (leaf_level b));
       (TOP_LEVEL_EMBEDDING_SPEC_KEY, embedding_spec_to_value (leaf_spec b));
       (TOP_LEVEL_ENTRIES_KEY, VArray (map leaf_entry_to_value (leaf_entries b)))]
      ++ ext_entry TOP_LEVEL_EXT_KEY (leaf_ext b)
  end.

(** [block_to_value] *)
Definition block_to_value (block : Block) : result BlockError Value :=
  canonicalize_value (VMap (int_entries (block_entries block))).

(** [parse_embedding_spec], [parse_branch_entry], [parse_content], [parse_leaf_entry] *)
Definition parse_embedding_spec (value : Value) : result BlockError EmbeddingSpec :=
  let? f := integer_keyed_map value "embedding_spec" in
  let? _ := reject_unknown_keys f [EMBEDDING_SPEC_DIMS_KEY; EMBEDDING_SPEC_ENCODING_KEY]
    "embedding_spec" in
  let? '(dims, f) := required_u64_field f EMBEDDING_SPEC_DIMS_KEY "embedding_spec" in
  let? '(encoding, f) := required_text_field f EMBEDDING_SPEC_ENCODING_KEY "embedding_spec" in
  Ok {| dims := dims; encoding := encoding |}.

Definition parse_branch_entry (value : Value) : result BlockError BranchEntry :=
  let? f := integer_keyed_map value "branch entry" in
  let? _ := reject_unknown_keys f [BRANCH_ENTRY_EMBEDDING_KEY; BRANCH_ENTRY_CHILD_KEY]
    "branch entry" in
  let? '(embedding, f) := required_bytes_field f BRANCH_ENTRY_EMBEDDING_KEY "branch entry" in
  let? '(child, f) := required_bytes_field f BRANCH_ENTRY_CHILD_KEY "branch entry" in
  let? child := BlockHash_try_from child in
  Ok {| branch_embedding := embedding; child := child |}.

Definition parse_content (value : Value) : result BlockError Content :=
  let? f := integer_keyed_map value "content" in
  let? _ := reject_unknown_keys f [CONTENT_MEDIA_TYPE_KEY; CONTENT_BODY_KEY] "content" in
  let? '(media_type, f) := required_text_field f CONTENT_MEDIA_TYPE_KEY "content" in
  let? '(body, f) := required_bytes_field f CONTENT_BODY_KEY "content" in
  Ok {| media_type := media_type; body := body |}.

Definition parse_leaf_entry (value : Value) : result BlockError LeafEntry :=
  let? f := integer_keyed_map value "leaf entry" in
  let? _ := reject_unknown_keys f
    [LEAF_ENTRY_EMBEDDING_KEY; LEAF_ENTRY_METADATA_KEY; LEAF_ENTRY_CONTENT_KEY] "leaf entry" in
  let? '(embedding, f) := required_bytes_field f LEAF_ENTRY_EMBEDDING_KEY "leaf entry" in
  let? '(v, f) := required_field f LEAF_ENTRY_METADATA_KEY "leaf entry" in
  let? metadata := expect_arbitrary_map v in
  let? '(v, f) := required_field f LEAF_ENTRY_CONTENT_KEY "leaf entry" in
  let? content := parse_content v in
  Ok {| leaf_embedding := embedding; metadata := metadata; content := content |}.

(** [parse_branch_block], [parse_leaf_block] *)
Definition parse_branch_block (version level : N) (spec : EmbeddingSpec) (entries : Value)
  (ext : option ExtensionMap) : result BlockError Block :=
  let? values := expect_array entries "branch entries" in
  let? entries := collect_map parse_branch_entry values in
  rmap Branch (build_branch_block version level spec entries ext).

Definition parse_leaf_block (version level : N) (spec : EmbeddingSpec) (entries : Value)
  (ext : option ExtensionMap) : result BlockError Block :=
  let? values := expect_array entries "leaf entries" in
  let? entries := collect_map parse_leaf_entry values in
  guard? (level =? 0)%N else InvalidBlockLevel level in
  rmap Leaf (build_leaf_block version spec entries ext).

(** [parse_block] *)
Definition parse_block (value : Value) : result BlockError Block :=
  let? f := integer_keyed_map value "block" in
  let? '(version, f) := required_u64_field f TOP_LEVEL_VERSION_KEY "block" in
  let? _ := validate_version version in
  let? _ := reject_unknown_keys f [TOP_LEVEL_LEVEL_KEY; TOP_LEVEL_EMBEDDING_SPEC_KEY;
    TOP_LEVEL_ENTRIES_KEY; TOP_LEVEL_EXT_KEY] "block" in
  let? '(level, f) := required_u64_field f TOP_LEVEL_LEVEL_KEY "block" in
  let? '(v, f) := required_field f TOP_LEVEL_EMBEDDING_SPEC_KEY "block" in
  let? spec := parse_embedding_spec v in
  let '(o, f) := remove_field f TOP_LEVEL_EXT_KEY in
  let? ext := opt_transpose expect_arbitrary_map o in
  let? '(entries, f) := required_field f TOP_LEVEL_ENTRIES_KEY "block" in
  if (level =? 0)%N then parse_leaf_block version level spec entries ext
  else parse_branch_block version level spec entries ext.

Context `{Sha256}.

(** [serialize_block] *)
Definition serialize_block (block : Block) : result BlockError SerializedBlock :=
  let? normalized := normalize_block block in
  let? value := block_to_value normalized in
  let b := into_writer value in
  Ok {| ser_bytes := b; ser_hash := compute_block_hash b |}.

Definition non_canonical_error : BlockError :=
  NonConforming "block bytes are not the canonical encoding of the decoded block".

(** [deserialize_block_from_value] *)
Definition deserialize_block_from_value (value : Value) (b : bytes) (actual_hash : BlockHash)
  : result BlockError ValidatedBlock :=
  let? block := parse_block value in
  let? serialized := serialize_block block in
  guard? bool_decide (ser_bytes serialized = b) else non_canonical_error in
  Ok {| val_block := block; val_hash := actual_hash |}.

(** [deserialize_block] *)
Definition deserialize_block (b : bytes) (expected_hash : BlockHash)
  : result BlockError ValidatedBlock :=
  let actual_hash := compute_block_hash b in
  guard? bool_decide (actual_hash = expected_hash)
    else HashMismatch expected_hash actual_hash in
  let? value := decode_single_cbor_value b in
  deserialize_block_from_value value b actual_hash.
End codec.

(** [PreparedComparisonTarget], [prepare_root_comparison_target] *)
Record PreparedComparisonTarget := { target_bytes : bytes; comparison_spec : EmbeddingSpec }.

Definition prepare_root_comparison_target (root : ValidatedBlock) (logical_embedding : list f32)
  : result BlockError PreparedComparisonTarget :=
  match val_block root with
  | Leaf _ => Err (InvalidEntryShape "a root comparison target requires a non-leaf root block")
  | Branch branch =>
      let? descriptor := parse_branch_ebcp_descriptor (branch_spec branch) (branch_ext branch) in
      let comparison_spec :=
        match descriptor with
        | Some d => logical_embedding_spec d
        | None => branch_spec branch
        end in
      let? dims := ok_or (usize_try_from (dims comparison_spec))
        (InvalidEntryShape "root comparison embedding dimensions exceed usize") in
      guard? (len logical_embedding =? dims)%N
        else InvalidEntryShape "logical target dimensions do not match the root comparison specification" in
      guard? negb (existsb (fun value => negb (f32_is_finite value)) logical_embedding)
        else InvalidEntryShape "logical target embedding must contain only finite values" in
      let? b := encode_logical_comparison_embedding logical_embedding comparison_spec in
      Ok {| target_bytes := b; comparison_spec := comparison_spec |}
  end.
