(* ===== verification/CborRef.v ===== *)
(** * A CBOR codec that satisfies the laws

    A deterministic encoder (shortest heads, as RFC 8949 asks) and its decoder,
    with the proof that they satisfy [CborLaws]. Floats are always written with 64
    bits, where ciborium shortens those that fit in fewer. It is an instance the
    laws hold of, so a result proved from the laws is not empty, and with it the
    model of the block format runs on concrete blocks.

    Then: concrete parameters for the witnesses. *)
From S2P Require Import Prelude Ordering Hash Cbor Ieee.

(** ** Writing *)
Definition be_bytes (k : nat) (n : N) : bytes := rev (le_split k n).

Definition head (major n : N) : bytes :=
  if (n <? 24)%N then [byte_of_N (major * 32 + n)]
  else if (n <? 2 ^ 8)%N then byte_of_N (major * 32 + 24) :: be_bytes 1 n
  else if (n <? 2 ^ 16)%N then byte_of_N (major * 32 + 25) :: be_bytes 2 n
  else if (n <? 2 ^ 32)%N then byte_of_N (major * 32 + 26) :: be_bytes 4 n
  else byte_of_N (major * 32 + 27) :: be_bytes 8 n.

Fixpoint encode_value (v : Value) : bytes :=
  match v with
  | VInteger z => if (0 <=? z)%Z then head 0 (Z.to_N z) else head 1 (Z.to_N (-1 - z))
  | VBytes b => head 2 (len b) ++ b
  | VText s => head 3 (len (String.list_byte_of_string s)) ++ String.list_byte_of_string s
  | VArray vs => head 4 (len vs) ++ concat (map encode_value vs)
  | VMap es => head 5 (len es) ++ concat (map (fun e => encode_value e.1 ++ encode_value e.2) es)
  | VTag t n => head 6 t ++ encode_value n
  | VBool b => [byte_of_N (if b then 245 else 244)]
  | VNull => [byte_of_N 246]
  | VFloat n => byte_of_N 251 :: be_bytes 8 n
  | VUnknown _ => [byte_of_N 247]
  end.

(** ** Reading *)
Definition take_bytes (k : nat) (l : bytes) : option (bytes * bytes) :=
  if (k <=? length l)%nat then Some (take k l, drop k l) else None.

Definition take_be (k : nat) (l : bytes) : option (N * bytes) :=
  match take_bytes k l with
  | Some (b, l') => Some (le_combine (rev b), l')
  | None => None
  end.

Definition argument (info : N) (l : bytes) : option (N * bytes) :=
  if (info <? 24)%N then Some (info, l)
  else if (info =? 24)%N then take_be 1 l
  else if (info =? 25)%N then take_be 2 l
  else if (info =? 26)%N then take_be 4 l
  else if (info =? 27)%N then take_be 8 l
  else None.

Definition simple_value (info : N) (l : bytes) : option (Value * bytes) :=
  if (info =? 20)%N then Some (VBool false, l)
  else if (info =? 21)%N then Some (VBool true, l)
  else if (info =? 22)%N then Some (VNull, l)
  else if (info =? 27)%N then
    match take_be 8 l with Some (n, l') => Some (VFloat n, l') | None => None end
  else None.

Fixpoint decode_value (fuel : nat) (l : bytes) : option (Value * bytes) :=
  match fuel, l with
  | S f, b :: l1 =>
      let major := (Byte.to_N b / 32)%N in
      let info := (Byte.to_N b mod 32)%N in
      if (major =? 7)%N then simple_value info l1
      else match argument info l1 with
      | None => None
      | Some (n, l2) =>
          if (major =? 0)%N then Some (VInteger (Z.of_N n), l2)
          else if (major =? 1)%N then Some (VInteger (-1 - Z.of_N n), l2)
          else if (major =? 2)%N then
            match take_bytes (N.to_nat n) l2 with Some (b, l3) => Some (VBytes b, l3) | None => None end
          else if (major =? 3)%N then
            match take_bytes (N.to_nat n) l2 with
            | Some (b, l3) =>
                if utf8_valid (map Byte.to_N b) then Some (VText (String.string_of_list_byte b), l3) else None
            | None => None
            end
          else if (major =? 4)%N then
            match decode_items f n l2 with Some (vs, l3) => Some (VArray vs, l3) | None => None end
          else if (major =? 5)%N then
            match decode_pairs f n l2 with Some (es, l3) => Some (VMap es, l3) | None => None end
          else
            match decode_value f l2 with Some (v, l3) => Some (VTag n v, l3) | None => None end
      end
  | _, _ => None
  end
with decode_items (fuel : nat) (n : N) (l : bytes) : option (list Value * bytes) :=
  match fuel with
  | O => None
  | S f =>
      if (n =? 0)%N then Some ([], l)
      else match decode_value f l with
      | None => None
      | Some (v, l1) =>
          match decode_items f (n - 1) l1 with Some (vs, l2) => Some (v :: vs, l2) | None => None end
      end
  end
with decode_pairs (fuel : nat) (n : N) (l : bytes) : option (list (Value * Value) * bytes) :=
  match fuel with
  | O => None
  | S f =>
      if (n =? 0)%N then Some ([], l)
      else match decode_value f l with
      | None => None
      | Some (k, l1) =>
          match decode_value f l1 with
          | None => None
          | Some (v, l2) =>
              match decode_pairs f (n - 1) l2 with
              | Some (es, l3) => Some ((k, v) :: es, l3)
              | None => None
              end
          end
      end
  end.

Definition read_value (b : bytes) : string + (Value * N) :=
  match decode_value (2 * length b) b with
  | Some (v, rest) => inr (v, (len b - len rest)%N)
  | None => inl "malformed CBOR item"%string
  end.

Definition reference_codec : CborCodec := {| into_writer := encode_value; from_reader := read_value |}.

(** ** The laws *)
Lemma be_bytes_length k n : length (be_bytes k n) = k.
Proof. unfold be_bytes. rewrite length_rev. apply le_split_length. Qed.

Lemma take_bytes_app b l : take_bytes (length b) (b ++ l) = Some (b, l).
Proof.
  unfold take_bytes. rewrite length_app.
  rewrite (proj2 (Nat.leb_le _ _)) by lia. by rewrite take_app_length, drop_app_length.
Qed.

Lemma take_be_be_bytes k n l : (n < 256 ^ N.of_nat k)%N -> take_be k (be_bytes k n ++ l) = Some (n, l).
Proof.
  intros Hn. unfold take_be. rewrite <-(be_bytes_length k n) at 1. rewrite take_bytes_app.
  unfold be_bytes. rewrite rev_involutive, le_combine_split, N.mod_small by done. done.
Qed.

Lemma initial_byte major info :
  (major < 8)%N -> (info < 32)%N ->
  (Byte.to_N (byte_of_N (major * 32 + info)) / 32 = major)%N
  /\ (Byte.to_N (byte_of_N (major * 32 + info)) mod 32 = info)%N.
Proof.
  intros Hm Hi. rewrite byte_of_N_to_N, (N.mod_small _ 256) by lia.
  rewrite N.add_comm, N.div_add, N.div_small, N.Div0.mod_add, N.mod_small by lia. lia.
Qed.

Lemma head_spec major n :
  (major < 8)%N -> (n < 2 ^ 64)%N ->
  exists b tl, head major n = b :: tl /\ (Byte.to_N b / 32 = major)%N
    /\ forall rest, argument (Byte.to_N b mod 32) (tl ++ rest) = Some (n, rest).
Proof.
  intros Hm Hn. unfold head.
  destruct (N.ltb_spec n 24) as [H1|H1]; [|destruct (N.ltb_spec n (2 ^ 8)) as [H2|H2];
    [|destruct (N.ltb_spec n (2 ^ 16)) as [H3|H3]; [|destruct (N.ltb_spec n (2 ^ 32)) as [H4|H4]]]];
    eexists _, _; (split; [reflexivity|]);
    (edestruct initial_byte as [-> ->]; [exact Hm| |split; [done|intros rest]]); try lia; unfold argument; cbn.
  - by rewrite (proj2 (N.ltb_lt _ _)).
  - by apply (take_be_be_bytes 1).
  - by apply (take_be_be_bytes 2).
  - by apply (take_be_be_bytes 4).
  - by apply (take_be_be_bytes 8).
Qed.

Lemma text_codes s : map Byte.to_N (String.list_byte_of_string s) = string_codes s.
Proof.
  unfold String.list_byte_of_string. induction s as [|a s IH]; [done|]. cbn. f_equal; [|exact IH].
  by destruct a as [[] [] [] [] [] [] [] []].
Qed.

Lemma utf8_ok_string s rest :
  utf8_valid (string_codes s) = true ->
  take_bytes (length (String.list_byte_of_string s)) (String.list_byte_of_string s ++ rest)
    = Some (String.list_byte_of_string s, rest)
  /\ utf8_valid (map Byte.to_N (String.list_byte_of_string s)) = true
  /\ String.string_of_list_byte (String.list_byte_of_string s) = s.
Proof.
  intros Hu. rewrite text_codes. split_and!; [apply take_bytes_app|done|].
  apply String.string_of_list_byte_of_string.
Qed.

(** One step of the decoder on a head of a given major type. *)
Lemma decode_head f major n rest :
  (major < 7)%N -> (n < 2 ^ 64)%N ->
  decode_value (S f) (head major n ++ rest) =
    if (major =? 0)%N then Some (VInteger (Z.of_N n), rest)
    else if (major =? 1)%N then Some (VInteger (-1 - Z.of_N n), rest)
    else if (major =? 2)%N then
      match take_bytes (N.to_nat n) rest with Some (b, l3) => Some (VBytes b, l3) | None => None end
    else if (major =? 3)%N then
      match take_bytes (N.to_nat n) rest with
      | Some (b, l3) =>
          if utf8_valid (map Byte.to_N b) then Some (VText (String.string_of_list_byte b), l3) else None
      | None => None
      end
    else if (major =? 4)%N then
      match decode_items f n rest with Some (vs, l3) => Some (VArray vs, l3) | None => None end
    else if (major =? 5)%N then
      match decode_pairs f n rest with Some (es, l3) => Some (VMap es, l3) | None => None end
    else match decode_value f rest with Some (v, l3) => Some (VTag n v, l3) | None => None end.
Proof.
  intros Hm Hn. destruct (head_spec major n ltac:(lia) Hn) as (b & tl & -> & Hb & Ha).
  cbn [app decode_value]. rewrite Hb, Ha. by rewrite (proj2 (N.eqb_neq major 7)) by lia.
Qed.

Lemma head_length major n : (1 <= length (head major n))%nat.
Proof. unfold head. repeat case_match; cbn; lia. Qed.

Lemma encode_length v : (1 <= length (encode_value v))%nat.
Proof.
  destruct v; cbn; try case_match; rewrite ?length_app; try (pose proof head_length; lia).
  all: match goal with |- context [head ?m ?n] => pose proof (head_length m n); lia | _ => cbn; lia end.
Qed.

Definition reads_back (v : Value) : Prop :=
  codec_ok v = true -> forall f rest, (2 * length (encode_value v) <= f)%nat ->
  decode_value f (encode_value v ++ rest) = Some (v, rest).

Lemma decode_items_ok vs :
  Forall reads_back vs -> forallb codec_ok vs = true ->
  forall f rest, (2 * length (concat (map encode_value vs)) + 1 <= f)%nat ->
  decode_items f (len vs) (concat (map encode_value vs) ++ rest) = Some (vs, rest).
Proof.
  induction 1 as [|v vs Hv HF IH]; intros Hok f rest Hf; cbn [map concat forallb] in *.
  - destruct f; [lia|done].
  - apply andb_true_iff in Hok as [Hok1 Hok2]. rewrite length_app in Hf.
    pose proof (encode_length v). destruct f as [|f]; [lia|]. cbn [decode_items].
    rewrite (proj2 (N.eqb_neq _ _)) by (unfold len; cbn; lia).
    rewrite <-app_assoc, Hv by (done || lia).
    replace (len (v :: vs) - 1)%N with (len vs) by (unfold len; cbn [length]; lia).
    rewrite IH by (done || lia). done.
Qed.

Lemma decode_pairs_ok es :
  Forall (fun e => reads_back e.1 /\ reads_back e.2) es ->
  forallb (fun e => codec_ok e.1 && codec_ok e.2) es = true ->
  forall f rest,
  (2 * length (concat (map (fun e => encode_value e.1 ++ encode_value e.2) es)) + 1 <= f)%nat ->
  decode_pairs f (len es) (concat (map (fun e => encode_value e.1 ++ encode_value e.2) es) ++ rest)
  = Some (es, rest).
Proof.
  induction 1 as [|[k v] es [Hk Hv] HF IH]; intros Hok f rest Hf; cbn [map concat forallb fst snd] in *.
  - destruct f; [lia|done].
  - rewrite !andb_true_iff in Hok. destruct Hok as [[Hok1 Hok2] Hok3]. rewrite !length_app in Hf.
    pose proof (encode_length v). pose proof (encode_length k). destruct f as [|f]; [lia|]. cbn [decode_pairs].
    rewrite (proj2 (N.eqb_neq _ _)) by (unfold len; cbn; lia).
    rewrite <-!app_assoc, Hk by (done || lia). rewrite Hv by (done || lia).
    replace (len ((k, v) :: es) - 1)%N with (len es) by (unfold len; cbn [length]; lia).
    rewrite IH by (done || lia). done.
Qed.

Lemma short_lt {A} (l : list A) : short l = true -> (len l < 2 ^ 64)%N.
Proof. apply N.ltb_lt. Qed.

Lemma decode_encode v : reads_back v.
Proof.
  induction v as [z|b|n|s|b| |t v IH|vs IH|es IH|n] using Value_nested_ind; intros Hok f rest Hf;
    (destruct f as [|f]; [pose proof (encode_length (VInteger 0)); revert Hf; 
      match goal with |- context [encode_value ?v] => pose proof (encode_length v) end; lia|]);
    cbn [encode_value codec_ok] in *.
  - apply andb_true_iff in Hok as [Hlo%Z.leb_le Hhi%Z.ltb_lt].
    destruct (Z.leb_spec 0 z); rewrite decode_head by lia; cbn [N.eqb Pos.eqb];
      rewrite Z2N.id by lia; first [done|do 3 f_equal; lia].
  - apply short_lt in Hok. rewrite <-app_assoc, decode_head by (done || lia). cbn [N.eqb Pos.eqb].
    unfold len. by rewrite Nat2N.id, take_bytes_app.
  - apply N.ltb_lt in Hok. cbn [app decode_value].
    change 251%N with (7 * 32 + 27)%N. edestruct (initial_byte 7 27) as [-> ->]; [lia..|].
    cbn [N.eqb Pos.eqb]. unfold simple_value. cbn [N.eqb Pos.eqb]. by rewrite take_be_be_bytes.
  - apply andb_true_iff in Hok as [Hs Hu]. apply short_lt in Hs.
    assert (len (String.list_byte_of_string s) = len (string_codes s)) as El
      by (unfold len; by rewrite <-text_codes, length_map).
    rewrite <-app_assoc, decode_head by (rewrite ?El; done || lia). cbn [N.eqb Pos.eqb].
    unfold len. rewrite Nat2N.id. destruct (utf8_ok_string s rest Hu) as (-> & -> & ->). done.
  - by destruct b.
  - done.
  - rewrite !andb_true_iff in Hok. destruct Hok as [[Ht%N.ltb_lt _] Hv].
    rewrite <-app_assoc, decode_head by (done || lia). cbn [N.eqb Pos.eqb].
    pose proof (head_length 6 t). rewrite length_app in Hf. by rewrite IH by (done || lia).
  - apply andb_true_iff in Hok as [Hs%short_lt Hv].
    rewrite <-app_assoc, decode_head by (done || lia). cbn [N.eqb Pos.eqb].
    pose proof (head_length 4 (len vs)). rewrite length_app in Hf. by rewrite decode_items_ok by (done || lia).
  - apply andb_true_iff in Hok as [Hs%short_lt Hv].
    rewrite <-app_assoc, decode_head by (done || lia). cbn [N.eqb Pos.eqb].
    pose proof (head_length 5 (len es)). rewrite length_app in Hf. by rewrite decode_pairs_ok by (done || lia).
  - done.
Qed.

(** The reader nests as deep as its input, 256 levels included. *)
#[program] Definition reference_laws : @CborLaws reference_codec := {| recursion_limit := 256 |}.
Next Obligation.
  intros v Hok _. cbn. unfold read_value. pose proof (decode_encode v Hok (2 * length (encode_value v)) []) as E.
  rewrite app_nil_r in E. rewrite E by lia. by rewrite N.sub_0_r.
Qed.

#[program] Definition reference_layout : @CborLayout reference_codec := {| write_nonempty := _ |}.
Next Obligation. intros v Hv. pose proof (encode_length v) as Hl. cbn in Hv. rewrite Hv in Hl. cbn in Hl. lia. Qed.
Next Obligation.
  intros vs. exists (head 4 (len vs)). split; [|done]. intros Hh. pose proof (head_length 4 (len vs)) as Hl. rewrite Hh in Hl. cbn in Hl. lia.
Qed.
Next Obligation.
  intros es. exists (head 5 (len es)). split; [|done]. intros Hh. pose proof (head_length 5 (len es)) as Hl. rewrite Hh in Hl. cbn in Hl. lia.
Qed.

(** ** Concrete parameters for the witnesses

    A digest, a codec (the reference codec of [CborRef]) and a few values with
    which the theorems that take third-party code as a parameter are applied to
    concrete inputs. *)

(** The bytes of a number as an identifier. *)
Definition hash_of_N (n : N) : BlockHash :=
  match hash_of_bytes (le_split 32 n) with
  | Some h => h
  | None => MkHash (replicate 32 Byte.x00) eq_refl
  end.

(** A 32-byte checksum, in the place of SHA-256. *)
Definition checksum : Sha256 :=
  fun b => hash_of_N ((le_combine b * 257 + len b) mod (2 ^ 256 - 189)).

(** A metadata map with its keys out of order, and the same in order. *)
Definition unsorted_map : list (Value * Value) :=
  [(VText "title", VText "b"); (VText "id", VInteger (-7)); (VInteger 1, VBool true)].
Definition sorted_map : list (Value * Value) :=
  [(VInteger 1, VBool true); (VText "id", VInteger (-7)); (VText "title", VText "b")].
