(* ===== verification/BlockV1Correct.v ===== *)
(** * Version-1 blocks: normal forms, round trips, canonical bytes

    Facts about the definitions of [BlockV1]: what a normalised block is, that
    normalising is idempotent and blind to the order of branch entries, that
    serialising and deserialising invert each other, and that no input makes the
    decoder panic.

    Then: version-1 blocks: the properties. *)
From S2P Require Import Prelude Ordering Hash Cbor Fields Ieee Ebcp EbcpPayload EbcpCorrect BlockV1 CborRef.

(** The values of the source's integer types. *)
Definition spec_typed (s : EmbeddingSpec) : Prop := (dims s < 2 ^ 64)%N.
Definition block_typed (b : Block) : Prop :=
  match b with
  | Branch b => (branch_level b < 2 ^ 64)%N /\ spec_typed (branch_spec b)
  | Leaf b => spec_typed (leaf_spec b)
  end.

(** The normal form: version 1, level in agreement with the kind, a known
    encoding, a canonical extension map; branches strictly sorted with consistent
    EBCP payloads, leaves with exactly one entry and canonical metadata. *)
Definition canonical_ext `{CborCodec} (ext : option ExtensionMap) : Prop :=
  match ext with Some es => canonical (VMap es) | None => True end.

Definition normal `{CborCodec} (b : Block) : Prop :=
  match b with
  | Branch b =>
      branch_version b = VERSION_1 /\ branch_level b <> 0%N
      /\ validate_embedding_spec (branch_spec b) = Ok tt
      /\ canonical_ext (branch_ext b)
      /\ validate_branch_ebcp (branch_entries b) (branch_spec b) (branch_ext b) = Ok tt
      /\ StronglySorted (cmp_lt compare_branch_entries) (branch_entries b)
  | Leaf b =>
      leaf_version b = VERSION_1 /\ leaf_level b = 0%N
      /\ validate_embedding_spec (leaf_spec b) = Ok tt
      /\ is_ebcp_encoding (encoding (leaf_spec b)) = false
      /\ canonical_ext (leaf_ext b)
      /\ length (leaf_entries b) = 1%nat
      /\ Forall (fun e => canonical (VMap (metadata e))) (leaf_entries b)
  end.

(** What a block needs to be written and read back by a codec that obeys the laws. *)
Definition encodable `{CborLaws} (b : Block) : Prop :=
  block_typed b
  /\ codec_ok (VMap (int_entries (block_entries b))) = true
  /\ depth (VMap (int_entries (block_entries b))) <= recursion_limit.

(** ** Lemmas *)
#[export] Instance compare_branch_entries_total : TotalCmp compare_branch_entries.
Proof.
  pose proof (comap_total branch_embedding bytes_cmp).
  pose proof (comap_total child hash_cmp).
  exact (then_with_total (fun l r => bytes_cmp (branch_embedding l) (branch_embedding r))
    (fun l r => hash_cmp (child l) (child r))).
Qed.

Lemma compare_branch_entries_eq e f : compare_branch_entries e f = Eq <-> e = f.
Proof.
  split; [|intros ->; apply (cmp_refl compare_branch_entries)].
  unfold compare_branch_entries. destruct (bytes_cmp _ _) eqn:E; cbn; [|done..].
  intros ?%hash_cmp_eq. apply bytes_cmp_eq in E. destruct e, f; cbn in *; congruence.
Qed.

Lemma sort_branch_entries_ok es es' :
  sort_branch_entries es = Ok es' <->
  es' = sort_by compare_branch_entries es
  /\ StronglySorted (cmp_lt compare_branch_entries) (sort_by compare_branch_entries es).
Proof.
  unfold sort_branch_entries.
  rewrite <-(has_equal_pair_sorted compare_branch_entries)
    by apply (sort_by_sorted compare_branch_entries).
  destruct (has_equal_pair _ _); cbn; naive_solver.
Qed.

Lemma sort_branch_entries_id es :
  StronglySorted (cmp_lt compare_branch_entries) es -> sort_branch_entries es = Ok es.
Proof.
  intros Hs. apply sort_branch_entries_ok.
  rewrite (sort_by_id compare_branch_entries) by by apply (sorted_lt_le compare_branch_entries). done.
Qed.

Lemma sort_branch_entries_perm es fs es' :
  es ≡ₚ fs -> sort_branch_entries es = Ok es' -> sort_branch_entries fs = Ok es'.
Proof.
  intros HP [-> Hs]%sort_branch_entries_ok. apply sort_branch_entries_ok.
  rewrite (sort_by_perm_unique compare_branch_entries es fs) by done. done.
Qed.

Lemma try_fold_unit_ok {A} (f : A -> result BlockError unit) l :
  try_fold (fun _ x => f x) tt l = Ok tt <-> Forall (fun x => f x = Ok tt) l.
Proof.
  induction l as [|x l IH]; cbn; [by split; [constructor|]|].
  rewrite Forall_cons, rbind_ok. split.
  - intros ([] & ? & ?%IH). done.
  - intros [? ?]. exists tt. by rewrite IH.
Qed.

Lemma validate_payload_lengths_perm es fs spec d :
  es ≡ₚ fs -> validate_branch_ebcp_payload_lengths es spec d = Ok tt ->
  validate_branch_ebcp_payload_lengths fs spec d = Ok tt.
Proof.
  unfold validate_branch_ebcp_payload_lengths. intros HP H.
  inv_ok. rewrite Hok. cbn. rewrite Hok0. cbn.
  apply try_fold_unit_ok. apply try_fold_unit_ok in H. by rewrite <-HP.
Qed.

Lemma unit_ok (r : result BlockError unit) (u : unit) : r = Ok u -> r = Ok tt.
Proof. by destruct u. Qed.

Section facts.
Context `{CborCodec}.

Lemma validate_branch_ebcp_perm es fs spec ext :
  es ≡ₚ fs -> validate_branch_ebcp es spec ext = Ok tt -> validate_branch_ebcp fs spec ext = Ok tt.
Proof.
  unfold validate_branch_ebcp. intros HP Hv. destruct (is_ebcp_encoding _); [|done].
  inv_ok. rewrite Hok. cbn. rewrite Hok0. cbn. eapply validate_payload_lengths_perm; [|done].
  by apply Permutation_map.
Qed.

Lemma normalize_optional_map_canonical o o' :
  normalize_optional_map o = Ok o' -> canonical_ext o'.
Proof.
  rewrite normalize_optional_map_ok. destruct o, o'; cbn; try done.
  apply normalize_map_canonical.
Qed.

Lemma normalize_optional_map_id o : canonical_ext o -> normalize_optional_map o = Ok o.
Proof.
  intros Hc. apply normalize_optional_map_ok. destruct o; [|done]. by apply normalize_map_id.
Qed.

Lemma validate_version_ok v : validate_version v = Ok tt <-> v = VERSION_1.
Proof.
  unfold validate_version. destruct (N.eqb_spec v VERSION_1); naive_solver.
Qed.

Lemma canonicalize_leaf_entry_canonical e e' :
  canonicalize_leaf_entry e = Ok e' -> canonical (VMap (metadata e')).
Proof.
  unfold canonicalize_leaf_entry. intros Hc. inv_ok. subst. cbn. by eapply normalize_map_canonical.
Qed.

Lemma canonicalize_leaf_entry_id e :
  canonical (VMap (metadata e)) -> canonicalize_leaf_entry e = Ok e.
Proof.
  intros ?. unfold canonicalize_leaf_entry, canonicalize_metadata. rewrite normalize_map_id by done.
  by destruct e.
Qed.

Lemma len_eqb_1 {A} (l : list A) : (len l =? 1)%N = true <-> length l = 1%nat.
Proof. unfold len. rewrite N.eqb_eq. lia. Qed.

(** Normalising reaches a normal form ... *)
Lemma normalize_block_normal b nb : normalize_block b = Ok nb -> normal nb.
Proof.
  destruct b as [b|b]; cbn; intros Hn; inv_ok; subst; cbn.
  - unfold normalize_branch in Hn. inv_ok. subst. cbn.
    apply unit_ok, validate_version_ok in Hok. apply unit_ok in Hok0. apply unit_ok in Hok2.
    apply negb_true_iff, N.eqb_neq in Hb.
    repeat split; [done|done|done|by eapply normalize_optional_map_canonical| |].
    + apply sort_branch_entries_ok in Hok3 as [-> _].
      eapply validate_branch_ebcp_perm; [|done]. symmetry.
      apply (sort_by_Permutation compare_branch_entries).
    + by apply sort_branch_entries_ok in Hok3 as [-> ?].
  - unfold normalize_leaf in Hn. inv_ok. subst. cbn.
    apply unit_ok, validate_version_ok in Hok. apply unit_ok in Hok0.
    apply N.eqb_eq in Hb. apply negb_true_iff in Hb0. apply len_eqb_1 in Hb1.
    repeat split; [done|done|done|done|by eapply normalize_optional_map_canonical| |].
    + by rewrite (collect_map_length _ _ _ Hok2).
    + apply collect_map_ok in Hok2. clear Hb1.
      induction Hok2; constructor; [by eapply canonicalize_leaf_entry_canonical|done].
Qed.

(** ... and keeps one as it is. *)
Lemma normalize_block_id b : normal b -> normalize_block b = Ok b.
Proof.
  destruct b as [b|b]; cbn.
  - intros (Hv & Hl & Hs & He & Hb & Hes). unfold normalize_branch.
    rewrite (proj2 (validate_version_ok _) Hv). cbn.
    apply N.eqb_neq in Hl. rewrite Hl. cbn. rewrite Hs. cbn.
    rewrite normalize_optional_map_id by done. cbn. rewrite Hb. cbn.
    rewrite sort_branch_entries_id by done. by destruct b.
  - intros (Hv & Hl & Hs & Hp & He & H1 & Hm). unfold normalize_leaf.
    rewrite (proj2 (validate_version_ok _) Hv). cbn.
    rewrite Hl. cbn. rewrite Hs. cbn. rewrite Hp. cbn.
    rewrite normalize_optional_map_id by done. cbn. apply len_eqb_1 in H1. rewrite H1.
    rewrite collect_map_id.
    + cbn. destruct b; cbn in *; by subst.
    + intros e Hin. rewrite Forall_forall in Hm. by apply canonicalize_leaf_entry_id, Hm.
Qed.

Lemma normalize_block_typed b nb : normalize_block b = Ok nb -> block_typed b -> block_typed nb.
Proof.
  destruct b; cbn; intros Hn; inv_ok; subst; unfold normalize_branch, normalize_leaf in Hn;
    inv_ok; by subst.
Qed.

(** *** Field helpers for the round trip *)
Lemma req_field f k ctx v :
  f !! k = Some v -> required_field f k ctx = Ok (v, delete k f).
Proof. intros. by apply required_field_ok. Qed.
Lemma req_u64 f k ctx n :
  f !! k = Some (int_value n) -> (n < 2 ^ 64)%N -> required_u64_field f k ctx = Ok (n, delete k f).
Proof. intros. by apply required_u64_field_ok. Qed.
Lemma req_text f k ctx s :
  f !! k = Some (VText s) -> required_text_field f k ctx = Ok (s, delete k f).
Proof. intros. by apply required_text_field_ok. Qed.
Lemma req_bytes f k ctx b :
  f !! k = Some (VBytes b) -> required_bytes_field f k ctx = Ok (b, delete k f).
Proof. intros. by apply required_bytes_field_ok. Qed.

Lemma remove_some f k v : f !! k = Some v -> remove_field f k = (Some v, delete k f).
Proof. unfold remove_field. by intros ->. Qed.
Lemma remove_none f k : f !! k = None -> remove_field f k = (None, delete k f).
Proof. unfold remove_field. by intros ->. Qed.

Lemma reject_list (kvs : list (N * Value)) allowed ctx :
  Forall (fun k => k ∈ allowed) kvs.*1 ->
  reject_unknown_keys (list_to_map kvs) allowed ctx = Ok tt.
Proof.
  intros HF. apply reject_unknown_keys_ok. intros k [v Hv%elem_of_list_to_map_2].
  rewrite Forall_forall in HF. apply HF. apply list_elem_of_fmap. by exists (k, v).
Qed.

Lemma reject_delete_list (kvs : list (N * Value)) k allowed ctx :
  Forall (fun j => j = k \/ j ∈ allowed) kvs.*1 ->
  reject_unknown_keys (delete k (list_to_map kvs)) allowed ctx = Ok tt.
Proof.
  intros HF. apply reject_unknown_keys_ok. intros j [v Hv].
  apply lookup_delete_Some in Hv as [Hjk Hv%elem_of_list_to_map_2].
  rewrite Forall_forall in HF. destruct (HF j) as [->|?]; [|done|done].
  apply list_elem_of_fmap. by exists (j, v).
Qed.
End facts.

(** A scalar is its own canonical form. *)
Ltac canon_leaf Hv :=
  try (match type of Hv with canonicalize_value ?x = Ok ?v => change (@Ok BlockError Value x = Ok v) in Hv end;
       injection Hv as <-).

(** Turns the canonical form of a concrete integer-keyed map into the field map
    its parser sees. *)
Ltac canon_fields Hc ctx :=
  let kvs' := fresh "kvs" in let Hk := fresh "Hk" in
  let HF := fresh "HF" in let Hm := fresh "Hm" in
  apply (canonicalize_keyed _ _ ctx) in Hc as (kvs' & Hk & HF & Hm);
  [ rewrite Hm; clear Hm; cbn [rbind]; cbn in Hk;
    repeat match goal with
    | H : Forall2 _ (_ :: _) _ |- _ =>
        let v := fresh "v" in let Hv := fresh "Hv" in let HF' := fresh "HF" in
        inversion H as [|? [? v] ? ? Hv HF']; subst; clear H; cbn [fst snd fmap list_fmap] in Hv, Hk;
        canon_leaf Hv
    | H : Forall2 _ [] _ |- _ => inversion H; subst; clear H
    end;
    injection Hk; intros; subst; clear Hk
  | repeat constructor; lia
  | repeat constructor; set_solver by lia ].

Ltac fld := first
  [ erewrite req_u64 by (simplify_map_eq; done)
  | erewrite req_text by (simplify_map_eq; done)
  | erewrite req_bytes by (simplify_map_eq; done)
  | erewrite req_field by (simplify_map_eq; done) ]; cbn [rbind].
Ltac rej := first [rewrite reject_list by (repeat constructor; set_solver)
  | rewrite reject_delete_list by (repeat constructor; set_solver)]; cbn [rbind].

Ltac rem := first
  [ erewrite remove_some by (simplify_map_eq; done)
  | erewrite remove_none by (simplify_map_eq; done) ]; cbn [opt_transpose].

Section roundtrip.
Context `{CborCodec}.

Lemma parse_embedding_spec_canon s c :
  canonicalize_value (embedding_spec_to_value s) = Ok c -> spec_typed s ->
  parse_embedding_spec c = Ok s.
Proof.
  unfold embedding_spec_to_value, parse_embedding_spec. intros Hc Hs.
  canon_fields Hc "embedding_spec".
  rej. fld. fld. by destruct s.
Qed.

Lemma parse_branch_entry_canon e c :
  canonicalize_value (branch_entry_to_value e) = Ok c -> parse_branch_entry c = Ok e.
Proof.
  unfold branch_entry_to_value, parse_branch_entry. intros Hc.
  canon_fields Hc "branch entry".
  rej. fld. fld. rewrite BlockHash_try_from_as_bytes. by destruct e.
Qed.

Lemma parse_content_canon e c :
  canonicalize_value (content_to_value e) = Ok c -> parse_content c = Ok e.
Proof.
  unfold content_to_value, parse_content. intros Hc.
  canon_fields Hc "content".
  rej. fld. fld. by destruct e.
Qed.

Lemma expect_arbitrary_map_canon es c :
  canonical (VMap es) -> canonicalize_value (VMap es) = Ok c -> expect_arbitrary_map c = Ok es.
Proof.
  intros Hes Hc. rewrite canonicalize_id in Hc by done. injection Hc as <-.
  unfold expect_arbitrary_map. by rewrite canonicalize_id.
Qed.

Lemma parse_leaf_entry_canon e c :
  canonical (VMap (metadata e)) ->
  canonicalize_value (leaf_entry_to_value e) = Ok c -> parse_leaf_entry c = Ok e.
Proof.
  unfold leaf_entry_to_value, parse_leaf_entry. intros Hm Hc.
  canon_fields Hc "leaf entry".
  rej. fld. fld. erewrite expect_arbitrary_map_canon by done. cbn [rbind]. fld.
  erewrite parse_content_canon by done. by destruct e.
Qed.

Lemma collect_parse_canon {A} (to_value : A -> Value) (parse : Value -> result BlockError A) es c :
  (forall e v, e ∈ es -> canonicalize_value (to_value e) = Ok v -> parse v = Ok e) ->
  canonicalize_value (VArray (map to_value es)) = Ok c ->
  exists vs, c = VArray vs /\ collect_map parse vs = Ok es.
Proof.
  intros Hp Hc. cbn in Hc. inv_ok. subst. exists a. split; [done|].
  rewrite collect_map_map in Hc. apply collect_map_ok in Hc. apply collect_map_ok.
  induction Hc as [|e v es vs Hev Hes IH]; constructor; [apply Hp; [set_solver|done]|].
  apply IH. intros; apply Hp; [set_solver|done].
Qed.

(** Reading the canonical value of a normal block gives the block back. *)
Lemma parse_block_canon b c :
  normal b -> block_typed b -> block_to_value b = Ok c -> parse_block c = Ok b.
Proof.
  intros Hn Ht Hc. pose proof (normalize_block_id _ Hn) as Hid.
  unfold block_to_value in Hc. unfold parse_block.
  destruct b as [[version level spec entries ext]|[version level spec entries ext]];
    cbn [block_entries branch_version branch_level branch_spec branch_entries branch_ext
         leaf_version leaf_level leaf_spec leaf_entries leaf_ext] in Hc; cbn in Hn, Ht.
  - destruct Hn as (-> & Hl & Hs & He & Hb & Hes), Ht as [Htl Hts].
    assert (forall vs, collect_map parse_branch_entry vs = Ok entries ->
      parse_branch_block VERSION_1 level spec (VArray vs) ext = Ok (Branch
       {| branch_version := VERSION_1; branch_level := level; branch_spec := spec;
          branch_entries := entries; branch_ext := ext |})) as Hfin.
    { intros vs Hvs. unfold parse_branch_block, build_branch_block. cbn. rewrite Hvs. cbn.
      cbn in Hid. by rewrite Hid. }
    apply N.eqb_neq in Hl.
    destruct ext as [es|]; cbn [ext_entry opt_entry app] in Hc; canon_fields Hc "block".
    all: fld; rewrite (proj2 (validate_version_ok _) eq_refl); cbn [rbind]; rej; fld; fld;
      erewrite parse_embedding_spec_canon by done; cbn [rbind]; rem.
    1: erewrite expect_arbitrary_map_canon by done.
    all: cbn [rbind rmap]; fld; rewrite Hl;
      match goal with Ha : canonicalize_value (VArray _) = Ok _ |- _ =>
        apply (collect_parse_canon _ parse_branch_entry) in Ha as (vs & -> & ?);
        [by apply Hfin|intros; by apply parse_branch_entry_canon] end.
  - destruct Hn as (-> & -> & Hs & Hp & He & H1 & Hm).
    assert (forall vs, collect_map parse_leaf_entry vs = Ok entries ->
      parse_leaf_block VERSION_1 0 spec (VArray vs) ext = Ok (Leaf
       {| leaf_version := VERSION_1; leaf_level := 0; leaf_spec := spec;
          leaf_entries := entries; leaf_ext := ext |})) as Hfin.
    { intros vs Hvs. unfold parse_leaf_block, build_leaf_block. cbn. rewrite Hvs. cbn.
      cbn in Hid. by rewrite Hid. }
    destruct ext as [es|]; cbn [ext_entry opt_entry app] in Hc; canon_fields Hc "block".
    all: fld; rewrite (proj2 (validate_version_ok _) eq_refl); cbn [rbind]; rej; fld; fld;
      erewrite parse_embedding_spec_canon by done; cbn [rbind]; rem.
    1: erewrite expect_arbitrary_map_canon by done.
    all: cbn [rbind rmap]; fld; cbn [N.eqb];
      match goal with Ha : canonicalize_value (VArray _) = Ok _ |- _ =>
        apply (collect_parse_canon _ parse_leaf_entry) in Ha as (vs & -> & ?);
        [by apply Hfin|] end.
    all: intros ? ? Hin ?; rewrite Forall_forall in Hm; by apply parse_leaf_entry_canon; [apply Hm|].
Qed.
End roundtrip.

(** ** Version-1 blocks: the properties

    Serialising and deserialising invert each other; an accepted byte string is
    the canonical encoding of the block it holds, under its own hash; the order of
    branch entries and of map keys does not matter; no input makes the entry
    points panic. *)

(** Two blocks that hold the same data: branch entries in any order, extension and
    metadata maps in any key order at every depth. *)
Definition map_equiv (es fs : list (Value * Value)) : Prop := value_equiv (VMap es) (VMap fs).

Definition ext_equiv (o p : option ExtensionMap) : Prop :=
  match o, p with Some es, Some fs => map_equiv es fs | None, None => True | _, _ => False end.

Definition leaf_entry_equiv (e f : LeafEntry) : Prop :=
  leaf_embedding e = leaf_embedding f /\ content e = content f
  /\ map_equiv (metadata e) (metadata f).

Definition block_equiv (b c : Block) : Prop :=
  match b, c with
  | Branch b, Branch c =>
      branch_version b = branch_version c /\ branch_level b = branch_level c
      /\ branch_spec b = branch_spec c /\ branch_entries b ≡ₚ branch_entries c
      /\ ext_equiv (branch_ext b) (branch_ext c)
  | Leaf b, Leaf c =>
      leaf_version b = leaf_version c /\ leaf_level b = leaf_level c
      /\ leaf_spec b = leaf_spec c /\ Forall2 leaf_entry_equiv (leaf_entries b) (leaf_entries c)
      /\ ext_equiv (leaf_ext b) (leaf_ext c)
  | _, _ => False
  end.

(** Two branches with the same two entries, the second in the reverse order and
    with the keys of its extension map permuted. *)
Definition sample_spec : EmbeddingSpec := {| dims := 2; encoding := "i8" |}.

Definition sample_entry (n : N) : BranchEntry :=
  {| branch_embedding := le_split 2 n; child := hash_of_N n |}.

Definition sample_branch (entries : list BranchEntry) (ext : ExtensionMap) : Block :=
  Branch {| branch_version := 1; branch_level := 1; branch_spec := sample_spec;
            branch_entries := entries; branch_ext := Some ext |}.

Definition sample_block : Block := sample_branch [sample_entry 5; sample_entry 9] sorted_map.

Definition sample_block_reversed : Block := sample_branch [sample_entry 9; sample_entry 5] unsorted_map.

Definition sample_serialized : SerializedBlock :=
  match @serialize_block reference_codec checksum sample_block with
  | Ok s => s
  | _ => {| ser_bytes := []; ser_hash := hash_of_N 0 |}
  end.

(** ** Canonicalisation keeps a value encodable *)
Section equiv_codec.
Context `{CborCodec}.

Lemma max_list_perm l k : l ≡ₚ k -> max_list l = max_list k.
Proof. unfold max_list. induction 1; cbn [foldr] in *; lia. Qed.

Lemma depth_array v vs w ws :
  depth v = depth w -> depth (VArray vs) = depth (VArray ws) ->
  depth (VArray (v :: vs)) = depth (VArray (w :: ws)).
Proof. cbn [depth map]. unfold max_list. cbn [foldr]. lia. Qed.

Lemma depth_map e es f fs :
  depth e.1 = depth f.1 -> depth e.2 = depth f.2 -> depth (VMap es) = depth (VMap fs) ->
  depth (VMap (e :: es)) = depth (VMap (f :: fs)).
Proof. cbn [depth map]. unfold max_list. cbn [foldr]. lia. Qed.

Lemma value_equiv_codec v w :
  value_equiv v w -> codec_ok v = codec_ok w /\ depth v = depth w.
Proof.
  revert w. induction v as [| | | | | |t n IH|vs IH|es IH|] using Value_nested_ind;
    intros w Hw; inversion Hw as [|? ? m Hn|? ws Hws|? es' fs HP Hfs]; subst; try done.
  - destruct (IH _ Hn) as [E1 E2]. cbn. rewrite E1, E2.
    assert (is_bignum_tag t n = is_bignum_tag t m) as -> by (by inversion Hn). done.
  - assert (short vs = short ws) as Hsh by (unfold short, len; by rewrite (Forall2_length _ _ _ Hws)).
    enough (forallb codec_ok vs = forallb codec_ok ws /\ depth (VArray vs) = depth (VArray ws)) as [E1 E2]
      by (cbn [codec_ok]; by rewrite Hsh, E1, E2).
    clear Hw Hsh. induction Hws as [|v w vs ws Hvw Hvs IHvs]; [done|].
    inversion IH as [|? ? Hv IH']; subst. destruct (Hv _ Hvw) as [E1 E2].
    destruct (IHvs IH') as [E3 E4]. split; [|by apply depth_array].
    cbn in *. congruence.
  - rewrite HP in IH.
    assert (short es = short fs) as Hsh
      by (unfold short, len; by rewrite HP, (Forall2_length _ _ _ Hfs)).
    set (ok := forallb (fun e : Value * Value => codec_ok e.1 && codec_ok e.2)).
    enough (ok es = ok fs /\ depth (VMap es) = depth (VMap fs)) as [E1 E2]
      by (cbn [codec_ok]; fold ok; by rewrite Hsh, E1, E2). subst ok. clear Hsh. cbn beta.
    assert (forallb (fun e : Value * Value => codec_ok e.1 && codec_ok e.2) es
      = forallb (fun e : Value * Value => codec_ok e.1 && codec_ok e.2) es'
      /\ depth (VMap es) = depth (VMap es')) as [-> ->].
    { cbn [depth]. split.
      - apply eq_iff_eq_true. rewrite !forallb_forall.
        setoid_rewrite <-list_elem_of_In. by setoid_rewrite HP.
      - f_equal. apply max_list_perm. by apply Permutation_map. }
    clear Hw HP es. induction Hfs as [|e f es fs [H1 H2] Hfs IHfs]; [done|].
    inversion IH as [|? ? [Ha Hb] IH']; subst. destruct (Ha _ H1) as [E1 E2].
    destruct (Hb _ H2) as [E3 E4]. destruct (IHfs IH') as [E5 E6].
    split; [|by apply depth_map]. cbn in *. congruence.
Qed.

Lemma canonicalize_codec_ok v c :
  canonicalize_value v = Ok c -> codec_ok c = codec_ok v /\ depth c = depth v.
Proof.
  intros Hc%canonicalize_equiv_self. destruct (value_equiv_codec _ _ Hc) as [-> ->]. done.
Qed.

End equiv_codec.

(** ** From blocks to values and back *)
Section to_value.
Context `{CborLaws}.

Lemma spec_to_value_ok s : exists c, canonicalize_value (embedding_spec_to_value s) = Ok c.
Proof. apply canonicalize_keyed_ok; repeat constructor; first [lia|set_solver by lia|done]. Qed.

Lemma branch_entry_to_value_ok e : exists c, canonicalize_value (branch_entry_to_value e) = Ok c.
Proof. apply canonicalize_keyed_ok; repeat constructor; first [lia|set_solver by lia|done]. Qed.

Lemma content_to_value_ok e : exists c, canonicalize_value (content_to_value e) = Ok c.
Proof. apply canonicalize_keyed_ok; repeat constructor; first [lia|set_solver by lia|done]. Qed.

Lemma is_ok_exists {E A} (m : result E A) : is_ok m = true <-> exists a, m = Ok a.
Proof. destruct m; cbn; naive_solver. Qed.

Lemma canonical_is_ok v : canonical v -> is_ok (canonicalize_value v) = true.
Proof. intros Hv. by rewrite canonicalize_id. Qed.

Lemma leaf_entry_to_value_ok e :
  canonical (VMap (metadata e)) -> exists c, canonicalize_value (leaf_entry_to_value e) = Ok c.
Proof.
  intros Hm. apply canonicalize_keyed_ok; [repeat constructor; lia|repeat constructor; set_solver by lia|].
  repeat constructor; [by apply canonical_is_ok|]. apply is_ok_exists, content_to_value_ok.
Qed.

Lemma array_to_value_ok {A} (f : A -> Value) l :
  Forall (fun x => exists c, canonicalize_value (f x) = Ok c) l ->
  is_ok (canonicalize_value (VArray (map f l))) = true.
Proof.
  intros HF. cbn. rewrite collect_map_map.
  assert (exists cs, collect_map (fun x => canonicalize_value (f x)) l = Ok cs) as [cs ->]; [|done].
  induction HF as [|x l [c Hc] HF [cs Hcs]]; [by exists []|].
  exists (c :: cs). cbn. by rewrite Hc, Hcs.
Qed.

(** A normal block always has a CBOR value: the field keys are distinct, so are
    their encodings. *)
Lemma block_to_value_ok b : normal b -> exists c, block_to_value b = Ok c.
Proof.
  intros Hn. unfold block_to_value. apply canonicalize_keyed_ok.
  - destruct b as [[? ? ? ? ext]|[? ? ? ? ext]]; destruct ext; cbn; repeat constructor; lia.
  - destruct b as [[? ? ? ? ext]|[? ? ? ? ext]]; destruct ext; cbn; repeat constructor; set_solver by lia.
  - destruct b as [[? ? ? ? ext]|[? ? ? ? ext]]; cbn in Hn; destruct_and! Hn;
      unfold block_entries, ext_entry; cbn [BlockV1.branch_ext BlockV1.leaf_ext]; destruct ext;
      cbn [opt_entry app]; repeat apply Forall_cons_2; cbn [snd]; try done;
      try (by apply canonical_is_ok); try apply is_ok_exists, spec_to_value_ok; try apply Forall_nil_2.
    all: apply array_to_value_ok; cbn [BlockV1.branch_entries BlockV1.leaf_entries].
    all: first [ apply Forall_true; intros; by apply branch_entry_to_value_ok
               | eapply Forall_impl; [done|]; intros; by apply leaf_entry_to_value_ok ].
Qed.
End to_value.

(** ** No panics *)
Section no_panic.
Context `{CborCodec}.

Lemma normalize_optional_map_no_panic o : no_panic (normalize_optional_map o).
Proof. unfold normalize_optional_map. np. Qed.

Lemma validate_branch_ebcp_no_panic es spec ext : no_panic (validate_branch_ebcp es spec ext).
Proof.
  unfold validate_branch_ebcp. destruct (is_ebcp_encoding _) eqn:E; [|done].
  apply rbind_no_panic; [np|]. intros [d|] Ho; cbn [expect rbind]; [np|].
  apply parse_branch_descriptor_ok in Ho. congruence.
Qed.
#[local] Hint Resolve normalize_optional_map_no_panic validate_branch_ebcp_no_panic : no_panic.

Lemma normalize_block_no_panic b : no_panic (normalize_block b).
Proof.
  destruct b as [b|b]; cbn; unfold normalize_branch, normalize_leaf, validate_version,
    validate_embedding_spec, sort_branch_entries, canonicalize_leaf_entry, canonicalize_metadata; np.
Qed.

Lemma build_branch_block_no_panic v l s es ext : no_panic (build_branch_block v l s es ext).
Proof.
  unfold build_branch_block. apply rbind_no_panic; [apply normalize_block_no_panic|].
  intros [?|?] Hn; [done|]. cbn in Hn. inv_ok. done.
Qed.

Lemma build_leaf_block_no_panic v s es ext : no_panic (build_leaf_block v s es ext).
Proof.
  unfold build_leaf_block. apply rbind_no_panic; [apply normalize_block_no_panic|].
  intros [?|?] Hn; [|done]. cbn in Hn. inv_ok. done.
Qed.
#[local] Hint Resolve normalize_block_no_panic build_branch_block_no_panic
  build_leaf_block_no_panic : no_panic.

Lemma parse_branch_entry_no_panic v : no_panic (parse_branch_entry v).
Proof. unfold parse_branch_entry. np. Qed.
Lemma parse_content_no_panic v : no_panic (parse_content v).
Proof. unfold parse_content. np. Qed.
#[local] Hint Resolve parse_branch_entry_no_panic parse_content_no_panic : no_panic.
Lemma parse_leaf_entry_no_panic v : no_panic (parse_leaf_entry v).
Proof. unfold parse_leaf_entry. np. Qed.
Lemma parse_embedding_spec_no_panic v : no_panic (parse_embedding_spec v).
Proof. unfold parse_embedding_spec. np. Qed.
#[local] Hint Resolve parse_leaf_entry_no_panic parse_embedding_spec_no_panic : no_panic.

Lemma parse_block_no_panic v : no_panic (parse_block v).
Proof.
  unfold parse_block, remove_field, parse_branch_block, parse_leaf_block, validate_version. np.
Qed.

Lemma serialize_block_no_panic `{Sha256} b : no_panic (serialize_block b).
Proof. unfold serialize_block, block_to_value. np. Qed.

Lemma decode_single_no_panic b : no_panic (decode_single_cbor_value b).
Proof. unfold decode_single_cbor_value. np. Qed.
End no_panic.
#[export] Hint Resolve normalize_block_no_panic parse_block_no_panic serialize_block_no_panic
  decode_single_no_panic : no_panic.

(** ** Parsing gives normal blocks *)
Section parsed.
Context `{CborCodec}.

Lemma build_branch_block_ok v l s es ext b :
  build_branch_block v l s es ext = Ok b ->
  normal (Branch b) /\ branch_version b = v /\ branch_level b = l /\ branch_spec b = s.
Proof.
  unfold build_branch_block. intros Hb. inv_ok. destruct a as [a|a]; [|done]. injection Hb as ->.
  split; [by eapply normalize_block_normal|].
  cbn in Hok. inv_ok. subst. unfold normalize_branch in Hok. inv_ok. by simplify_eq.
Qed.

Lemma build_leaf_block_ok v s es ext b :
  build_leaf_block v s es ext = Ok b ->
  normal (Leaf b) /\ leaf_version b = v /\ leaf_level b = 0%N /\ leaf_spec b = s.
Proof.
  unfold build_leaf_block. intros Hb. inv_ok. destruct a as [a|a]; [done|]. injection Hb as ->.
  split; [by eapply normalize_block_normal|].
  cbn in Hok. inv_ok. subst. unfold normalize_leaf in Hok. inv_ok. by simplify_eq.
Qed.

Lemma parse_embedding_spec_typed v s : parse_embedding_spec v = Ok s -> spec_typed s.
Proof.
  unfold parse_embedding_spec. intros Hp. inv_oks. subst s.
  by apply required_u64_field_ok in Hok1 as (_ & ? & _).
Qed.

Lemma parse_block_ok v b : parse_block v = Ok b -> normal b /\ block_typed b.
Proof.
  unfold parse_block, remove_field. intros Hp. inv_oks.
  match goal with H : required_u64_field _ TOP_LEVEL_LEVEL_KEY _ = _ |- _ =>
    apply required_u64_field_ok in H as (_ & Hl & _) end.
  match goal with H : parse_embedding_spec _ = _ |- _ => apply parse_embedding_spec_typed in H end.
  destruct (_ =? 0)%N; [unfold parse_leaf_block in Hp|unfold parse_branch_block in Hp]; inv_oks; subst b.
  - apply build_leaf_block_ok in Hp as (Hn & _ & _ & Hs). split; [done|]. cbn. by rewrite Hs.
  - apply build_branch_block_ok in Hp as (Hn & _ & Hlv & Hs). split; [done|]. cbn. by rewrite Hs, Hlv.
Qed.
End parsed.

(** ** Equivalent blocks have one normal form *)
Section equivalence.
Context `{CborCodec}.

Lemma normalize_map_equiv es fs r :
  map_equiv es fs -> normalize_map es = Ok r -> normalize_map fs = Ok r.
Proof. rewrite !normalize_map_ok. apply canonicalize_equiv. Qed.

Lemma normalize_optional_map_equiv o p r :
  ext_equiv o p -> normalize_optional_map o = Ok r -> normalize_optional_map p = Ok r.
Proof.
  rewrite !normalize_optional_map_ok. destruct o, p; cbn; try done.
  destruct r; [|done]. by apply normalize_map_equiv.
Qed.

Lemma canonicalize_leaf_entry_equiv e f r :
  leaf_entry_equiv e f -> canonicalize_leaf_entry e = Ok r -> canonicalize_leaf_entry f = Ok r.
Proof.
  intros (Hl & Hc & Hm) He. unfold canonicalize_leaf_entry, canonicalize_metadata in *. inv_ok. subst.
  rewrite (normalize_map_equiv _ _ _ Hm He). cbn. by rewrite Hl, Hc.
Qed.

Lemma normalize_block_equiv b c nb :
  block_equiv b c -> normalize_block b = Ok nb -> normalize_block c = Ok nb.
Proof.
  destruct b as [b|b], c as [c|c]; try done; cbn; intros (Hv & Hl & Hs & He & Hx) Hn; inv_ok; subst.
  - unfold normalize_branch in *. rewrite Hv, Hl, Hs in Hn. inv_ok. rewrite Hok. cbn [rbind].
    rewrite Hok0. cbn [rbind]. rewrite (normalize_optional_map_equiv _ _ _ Hx Hok1). cbn [rbind].
    apply unit_ok in Hok2. rewrite (validate_branch_ebcp_perm _ _ _ _ He Hok2). cbn [rbind].
    rewrite (sort_branch_entries_perm _ _ _ He Hok3). cbn [rbind rmap]. by subst.
  - unfold normalize_leaf in *. rewrite Hv, Hl, Hs in Hn. inv_ok. rewrite Hok. cbn [rbind].
    rewrite Hok0. cbn [rbind]. rewrite (normalize_optional_map_equiv _ _ _ Hx Hok1). cbn [rbind].
    unfold len in *. rewrite <-(Forall2_length _ _ _ He), Hb1.
    assert (collect_map canonicalize_leaf_entry (leaf_entries c) = Ok a3) as ->; [|cbn; by subst].
    apply collect_map_ok. apply collect_map_ok in Hok2. clear -He Hok2. revert a3 Hok2.
    induction He as [|e f es fs Hef He IH]; intros r Hr; inversion Hr; subst; constructor; [|by auto].
    by eapply canonicalize_leaf_entry_equiv.
Qed.
End equivalence.

(** ** Which branches are accepted *)
Lemma nodup_sorted es :
  NoDup es <-> StronglySorted (cmp_lt compare_branch_entries) (sort_by compare_branch_entries es).
Proof.
  rewrite <-(sort_by_Permutation compare_branch_entries es) at 1.
  pose proof (sort_by_sorted compare_branch_entries es) as Hs.
  rewrite <-(has_equal_pair_sorted compare_branch_entries) by done. revert Hs.
  generalize (sort_by compare_branch_entries es). clear es. intros l Hs. split.
  - intros HN. destruct (has_equal_pair _ l) eqn:E; [|done]. exfalso. clear Hs.
    induction l as [|x [|y l] IH]; [done..|]. inversion HN as [|? ? Hx HN']; subst.
    cbn [has_equal_pair] in E. destruct (compare_branch_entries x y) eqn:Ec; try by apply IH.
    apply compare_branch_entries_eq in Ec as ->. apply Hx. by left.
  - intros E%(has_equal_pair_sorted compare_branch_entries); [|done]. clear Hs.
    induction E as [|x l Hl IH Hx]; constructor; [|done]. intros Hin.
    rewrite Forall_forall in Hx. specialize (Hx x Hin). unfold cmp_lt in Hx.
    by rewrite (cmp_refl compare_branch_entries) in Hx.
Qed.

(** ** Properties *)
Section properties.
Context `{CborCodec}.

(** Normalization produces a block that satisfies every constraint of the format
    with its entries and maps in canonical order, is idempotent, and gives the same
    result on every block equal up to the order of branch entries and of map keys. *)
Theorem normalize_block_canonical b nb :
  normalize_block b = Ok nb ->
  normal nb /\ normalize_block nb = Ok nb
  /\ forall c, block_equiv b c -> normalize_block c = Ok nb.
Proof.
  intros Hn. pose proof (normalize_block_normal _ _ Hn) as Hnn. split; [done|]. split.
  - by apply normalize_block_id.
  - intros c Hc. by eapply normalize_block_equiv.
Qed.

(** A branch block is accepted exactly when its version is 1, its level is not 0,
    its encoding is supported, no two entries have the same embedding and child, its
    extension map canonicalizes, and its EBCP payloads fit the descriptor. *)
Theorem branch_accepted_iff b :
  is_ok (normalize_block (Branch b)) = true <->
  branch_version b = VERSION_1 /\ branch_level b <> 0%N
  /\ (is_plain_encoding (encoding (branch_spec b)) || is_ebcp_encoding (encoding (branch_spec b))) = true
  /\ NoDup (branch_entries b)
  /\ exists ext, normalize_optional_map (branch_ext b) = Ok ext
     /\ validate_branch_ebcp (branch_entries b) (branch_spec b) ext = Ok tt.
Proof.
  rewrite is_ok_exists, nodup_sorted. unfold normalize_block, normalize_branch, validate_embedding_spec. split.
  - intros [a Ha]. inv_ok. apply unit_ok, validate_version_ok in Hok.
    apply negb_true_iff, N.eqb_neq in Hb. apply unit_ok in Hok2.
    apply sort_branch_entries_ok in Hok3 as [_ Hs]. destruct (_ || _); [|done]. eauto 10.
  - intros (Hv & Hl & He & Hs & ext & Hx & Hb).
    rewrite (proj2 (validate_version_ok _) Hv). cbn [rbind].
    rewrite (proj2 (N.eqb_neq _ _) Hl). cbn [negb]. rewrite He. cbn [rbind]. rewrite Hx. cbn [rbind].
    rewrite Hb. cbn [rbind]. rewrite (proj2 (sort_branch_entries_ok _ _) (conj eq_refl Hs)).
    cbn [rbind rmap]. eauto.
Qed.

Context `{Sha256}.

Lemma v1_from_value_ok v b h r :
  deserialize_block_from_value v b h = Ok r ->
  val_hash r = h /\ normal (val_block r) /\ block_typed (val_block r)
  /\ serialize_block (val_block r) = Ok {| ser_bytes := b; ser_hash := compute_block_hash b |}.
Proof.
  unfold deserialize_block_from_value. intros Hd. inv_ok. subst r. cbn.
  apply bool_decide_eq_true in Hb. subst. destruct (parse_block_ok _ _ Hok) as [Hn Ht].
  split_and!; [done..|]. rewrite Hok0. f_equal. destruct a0 as [sb sh]. cbn. f_equal.
  unfold serialize_block in Hok0. inv_ok. congruence.
Qed.
Lemma deserialize_block_inv b h v :
  deserialize_block b h = Ok v ->
  h = compute_block_hash b /\ val_hash v = h
  /\ normal (val_block v) /\ block_typed (val_block v)
  /\ serialize_block (val_block v) = Ok {| ser_bytes := b; ser_hash := h |}.
Proof.
  unfold deserialize_block. intros Hd. inv_ok. apply bool_decide_eq_true in Hb. subst h.
  destruct (v1_from_value_ok _ _ _ _ Hd) as (? & ? & ? & ?). done.
Qed.

(** Bytes accepted as a version 1 block hash to the expected identifier and decode
    to a block in normal form, within the 64-bit integers, that serializes to the same
    bytes. *)
Theorem deserialize_block_sound b h v :
  deserialize_block b h = Ok v ->
  h = compute_block_hash b /\ val_hash v = h
  /\ normal (val_block v) /\ block_typed (val_block v)
  /\ serialize_block (val_block v) = Ok {| ser_bytes := b; ser_hash := h |}.
Proof. apply deserialize_block_inv. Qed.

(** C23 Content addressing is canonical: two accepted byte strings whose blocks are
    equal up to the order of branch entries and of map keys are the same bytes with the
    same hash. *)
Theorem accepted_bytes_unique b1 h1 v1 b2 h2 v2 :
  deserialize_block b1 h1 = Ok v1 -> deserialize_block b2 h2 = Ok v2 ->
  block_equiv (val_block v1) (val_block v2) -> b1 = b2 /\ h1 = h2.
Proof.
  intros (_ & _ & N1 & _ & S1)%deserialize_block_inv (_ & _ & N2 & _ & S2)%deserialize_block_inv He.
  pose proof (normalize_block_equiv _ _ _ He (normalize_block_id _ N1)) as E.
  rewrite (normalize_block_id _ N2) in E. injection E as E. rewrite E, S1 in S2.
  by injection S2 as -> ->.
Qed.

(** Neither decoding arbitrary bytes nor serializing an arbitrary block panics, and
    bytes with another hash are rejected with the two hashes before anything is parsed. *)
Theorem block_codec_no_panic b h blk :
  deserialize_block b h <> Panic /\ serialize_block blk <> Panic
  /\ (compute_block_hash b <> h -> deserialize_block b h = Err (HashMismatch h (compute_block_hash b))).
Proof.
  split; [|split].
  - change (no_panic (deserialize_block b h)).
    unfold deserialize_block, deserialize_block_from_value. np.
  - change (no_panic (serialize_block blk)). np.
  - intros Hne. unfold deserialize_block. by rewrite bool_decide_eq_false_2.
Qed.
End properties.

Lemma v1_roundtrip `{CborLaws} `{Sha256} b nb :
  normalize_block b = Ok nb -> encodable nb ->
  exists s, serialize_block b = Ok s /\ ser_hash s = compute_block_hash (ser_bytes s)
  /\ deserialize_block (ser_bytes s) (ser_hash s) = Ok {| val_block := nb; val_hash := ser_hash s |}
  /\ forall c, block_equiv b c -> serialize_block c = Ok s.
Proof.
  intros Hn (Ht & Hcod & Hdep). pose proof (normalize_block_normal _ _ Hn) as Hnn.
  destruct (block_to_value_ok nb Hnn) as [v Hv].
  assert (forall c, normalize_block c = Ok nb ->
    serialize_block c = Ok {| ser_bytes := into_writer v; ser_hash := compute_block_hash (into_writer v) |})
    as Hser by (intros c Hc; unfold serialize_block; by rewrite Hc; cbn [rbind]; rewrite Hv).
  exists {| ser_bytes := into_writer v; ser_hash := compute_block_hash (into_writer v) |}.
  split; [by apply Hser|]. split; [done|]. split; [|intros c Hc; by eapply Hser, normalize_block_equiv].
  unfold deserialize_block, deserialize_block_from_value, decode_single_cbor_value. cbn [ser_bytes ser_hash].
  rewrite bool_decide_eq_true_2 by done.
  destruct (canonicalize_codec_ok _ _ Hv) as [Ec Ed].
  rewrite from_reader_into_writer by congruence. rewrite N.eqb_refl. cbn [rbind].
  rewrite (parse_block_canon nb v) by done. cbn [rbind].
  rewrite Hser by by apply normalize_block_id. cbn [rbind ser_bytes].
  by rewrite bool_decide_eq_true_2.
Qed.

(** A version 1 block that normalizes, with a normal form the codec can carry,
    serializes to bytes that decode against their own hash to that normal form, and
    every reordering of the block serializes to the same bytes. *)
Theorem serialize_deserialize_roundtrip `{CborLaws} `{Sha256} b nb :
  normalize_block b = Ok nb -> encodable nb ->
  exists s, serialize_block b = Ok s /\ ser_hash s = compute_block_hash (ser_bytes s)
  /\ deserialize_block (ser_bytes s) (ser_hash s) = Ok {| val_block := nb; val_hash := ser_hash s |}
  /\ forall c, block_equiv b c -> serialize_block c = Ok s.
Proof. apply v1_roundtrip. Qed.

(** ** Witnesses *)
Section witnesses.
#[local] Existing Instances reference_codec reference_laws checksum.

Lemma normalize_block_canonical_witness :
  normal sample_block
  /\ normalize_block sample_block_reversed = Ok sample_block
  /\ normalize_block sample_block = Ok sample_block.
Proof.
  assert (normalize_block sample_block_reversed = Ok sample_block) as Hn by (vm_compute; reflexivity).
  destruct (normalize_block_canonical sample_block_reversed sample_block Hn) as (H1 & H2 & _).
  exact (conj H1 (conj Hn H2)).
Defined.

Lemma serialize_deserialize_roundtrip_witness :
  exists s, serialize_block sample_block_reversed = Ok s
  /\ deserialize_block (ser_bytes s) (ser_hash s)
     = Ok {| val_block := sample_block; val_hash := ser_hash s |}.
Proof.
  destruct (serialize_deserialize_roundtrip sample_block_reversed sample_block) as (s & H1 & _ & H2 & _).
  - vm_compute. reflexivity.
  - split; [vm_compute; split; reflexivity|]. split; [vm_compute; reflexivity|].
    apply Nat.leb_le. vm_compute. reflexivity.
  - exact (ex_intro _ s (conj H1 H2)).
Defined.

Lemma deserialize_block_sound_witness :
  exists b h v, deserialize_block b h = Ok v /\ h = compute_block_hash b
  /\ serialize_block (val_block v) = Ok {| ser_bytes := b; ser_hash := h |}.
Proof.
  eexists (ser_bytes sample_serialized), (ser_hash sample_serialized), _.
  assert (deserialize_block (ser_bytes sample_serialized) (ser_hash sample_serialized)
    = Ok {| val_block := sample_block; val_hash := ser_hash sample_serialized |}) as Hd
    by (vm_compute; reflexivity).
  destruct (deserialize_block_sound _ _ _ Hd) as (H1 & _ & _ & _ & H2).
  exact (conj Hd (conj H1 H2)).
Defined.

Lemma accepted_bytes_unique_witness :
  exists b h v, deserialize_block b h = Ok v /\ b = b /\ h = h.
Proof.
  assert (deserialize_block (ser_bytes sample_serialized) (ser_hash sample_serialized)
    = Ok {| val_block := sample_block; val_hash := ser_hash sample_serialized |}) as Hd
    by (vm_compute; reflexivity).
  eexists _, _, _. split; [exact Hd|]. apply (accepted_bytes_unique _ _ _ _ _ _ Hd Hd).
  split_and!; try reflexivity. apply ve_refl.
Defined.
End witnesses.
