(* ===== verification/BlockV2.v ===== *)
(** * Version-2 blocks and the versioned entry points

    crates/lexongraph-block/src/v2.rs: a typed envelope around a CBOR value, with
    two reserved types whose content has the shape of a version-1 block, and the
    functions of lib.rs that pick the version of a byte string. The names of v2.rs
    that lib.rs also uses live in the Module [V2]. *)
From S2P Require Import Prelude Ordering Hash Cbor Fields Ieee Ebcp EbcpPayload BlockV1.

Module V2.
Definition VERSION_2 : N := 2.
Definition TOP_LEVEL_VERSION_KEY : N := 0.
Definition TOP_LEVEL_TYPE_KEY : N := 1.
Definition TOP_LEVEL_CONTENT_KEY : N := 2.
Definition RESERVED_BRANCH_TYPE : string := "branch".
Definition RESERVED_LEAF_TYPE : string := "leaf".
Definition CONTENT_LEVEL_KEY : N := 1.
Definition CONTENT_EMBEDDING_SPEC_KEY : N := 2.
Definition CONTENT_ENTRIES_KEY : N := 3.
Definition CONTENT_EXT_KEY : N := 15.

(** [Block], [ValidatedBlock], [BranchBlock], [LeafBlock], [CustomBlock], [TypedBlock] *)
Record Block := { version : N; type_name : string; content : Value }.
Record ValidatedBlock := { block : Block; hash : BlockHash }.
Record BranchBlock := {
  br_version : N; br_type_name : string; br_level : N; br_spec : EmbeddingSpec;
  br_entries : list BranchEntry; br_ext : option ExtensionMap
}.
Record LeafBlock := {
  lf_version : N; lf_type_name : string; lf_spec : EmbeddingSpec;
  lf_entries : list LeafEntry; lf_ext : option ExtensionMap
}.
Record CustomBlock := { cu_version : N; cu_type_name : string; cu_content : Value }.
Inductive TypedBlock :=
| TypedBranch (b : BranchBlock)
| TypedLeaf (b : LeafBlock)
| TypedCustom (b : CustomBlock).

(** [is_reserved_type_name] *)
Definition is_reserved_type_name (type_name : string) : bool :=
  str_in type_name [RESERVED_BRANCH_TYPE; RESERVED_LEAF_TYPE].

(** The field lists of [branch_content_entries] and [leaf_content_entries]. *)
Definition branch_content_fields (level : N) (spec : EmbeddingSpec) (entries : list BranchEntry)
  (ext : option ExtensionMap) : list (N * Value) :=
  [(CONTENT_LEVEL_KEY, int_value level);
   (CONTENT_EMBEDDING_SPEC_KEY, embedding_spec_to_value spec);
   (CONTENT_ENTRIES_KEY, VArray (map branch_entry_to_value entries))]
  ++ ext_entry CONTENT_EXT_KEY ext.

Definition leaf_content_fields (spec : EmbeddingSpec) (entries : list LeafEntry)
  (ext : option ExtensionMap) : list (N * Value) :=
  [(CONTENT_EMBEDDING_SPEC_KEY, embedding_spec_to_value spec);
   (CONTENT_ENTRIES_KEY, VArray (map leaf_entry_to_value entries))]
  ++ ext_entry CONTENT_EXT_KEY ext.

(** [branch_content_entries], [leaf_content_entries] *)
Definition branch_content_entries (level : N) (spec : EmbeddingSpec) (entries : list BranchEntry)
  (ext : option ExtensionMap) : list (Value * Value) :=
  int_entries (branch_content_fields level spec entries ext).
Definition leaf_content_entries (spec : EmbeddingSpec) (entries : list LeafEntry)
  (ext : option ExtensionMap) : list (Value * Value) :=
  int_entries (leaf_content_fields spec entries ext).

Section codec.
Context `{CborCodec}.

(** [normalize_branch_block], on the content *)
Definition normalize_branch_block (content : Value) : result BlockError Value :=
  let? f := integer_keyed_map content "content" in
  let? _ := reject_unknown_keys f [CONTENT_LEVEL_KEY; CONTENT_EMBEDDING_SPEC_KEY;
    CONTENT_ENTRIES_KEY; CONTENT_EXT_KEY] "content" in
  let? '(level, f) := required_u64_field f CONTENT_LEVEL_KEY "content" in
  guard? negb (level =? 0)%N else InvalidBlockLevel level in
  let? '(v, f) := required_field f CONTENT_EMBEDDING_SPEC_KEY "content" in
  let? spec := parse_embedding_spec v in
  let? _ := validate_embedding_spec spec in
  let? '(v, f) := required_field f CONTENT_ENTRIES_KEY "content" in
  let? values := expect_array v "branch entries" in
  let? entries := collect_map parse_branch_entry values in
  let '(o, f) := remove_field f CONTENT_EXT_KEY in
  let? ext := opt_transpose expect_arbitrary_map o in
  let? ext := normalize_optional_map ext in
  let? _ := validate_branch_ebcp entries spec ext in
  let? entries := sort_branch_entries entries in
  Ok (VMap (branch_content_entries level spec entries ext)).

(** [normalize_leaf_block], on the content *)
Definition normalize_leaf_block (content : Value) : result BlockError Value :=
  let? f := integer_keyed_map content "content" in
  let? _ := reject_unknown_keys f [CONTENT_EMBEDDING_SPEC_KEY; CONTENT_ENTRIES_KEY;
    CONTENT_EXT_KEY] "content" in
  let? '(v, f) := required_field f CONTENT_EMBEDDING_SPEC_KEY "content" in
  let? spec := parse_embedding_spec v in
  let? _ := validate_embedding_spec spec in
  guard? negb (is_ebcp_encoding (encoding spec))
    else NonConforming "leaf blocks must not use EBCP branch encodings" in
  let? '(v, f) := required_field f CONTENT_ENTRIES_KEY "content" in
  let? values := expect_array v "leaf entries" in
  let? entries := collect_map parse_leaf_entry values in
  guard? (len entries =? 1)%N
    else NonConforming "leaf blocks must contain exactly one leaf entry" in
  let? entries := collect_map canonicalize_leaf_entry entries in
  let '(o, f) := remove_field f CONTENT_EXT_KEY in
  let? ext := opt_transpose expect_arbitrary_map o in
  let? ext := normalize_optional_map ext in
  Ok (VMap (leaf_content_entries spec entries ext)).

(** [normalize_block] *)
Definition normalize_block (block : Block) : result BlockError Block :=
  guard? (version block =? VERSION_2)%N else UnsupportedVersion (version block) in
  guard? negb (String.eqb (type_name block) "")
    else NonConforming "version-2 block type must be non-empty" in
  let? content :=
    if String.eqb (type_name block) RESERVED_BRANCH_TYPE then normalize_branch_block (content block)
    else if String.eqb (type_name block) RESERVED_LEAF_TYPE then normalize_leaf_block (content block)
    else canonicalize_value (content block) in
  Ok {| version := version block; type_name := type_name block; content := content |}.

(** [build_branch_block], [build_leaf_block], [build_custom_block] *)
Definition build_branch_block (level : N) (spec : EmbeddingSpec) (entries : list BranchEntry)
  (ext : option ExtensionMap) : result BlockError Block :=
  normalize_block {| version := VERSION_2; type_name := RESERVED_BRANCH_TYPE;
                     content := VMap (branch_content_entries level spec entries ext) |}.
Definition build_leaf_block (spec : EmbeddingSpec) (entries : list LeafEntry)
  (ext : option ExtensionMap) : result BlockError Block :=
  normalize_block {| version := VERSION_2; type_name := RESERVED_LEAF_TYPE;
                     content := VMap (leaf_content_entries spec entries ext) |}.
Definition build_custom_block (type_name : string) (content : Value) : result BlockError Block :=
  guard? negb (is_reserved_type_name type_name)
    else NonConforming "custom block type must not use reserved type names `branch` or `leaf`" in
  normalize_block {| version := VERSION_2; type_name := type_name; content := content |}.

(** The field list and the value [block_to_value] builds. *)
Definition block_fields (block : Block) : list (N * Value) :=
  [(TOP_LEVEL_VERSION_KEY, int_value (version block));
   (TOP_LEVEL_TYPE_KEY, VText (type_name block));
   (TOP_LEVEL_CONTENT_KEY, content block)].
Definition block_to_value (block : Block) : result BlockError Value :=
  canonicalize_value (VMap (int_entries (block_fields block))).

(** [parse_block] *)
Definition parse_block (value : Value) : result BlockError Block :=
  let? f := integer_keyed_map value "block" in
  let? '(version, f) := required_u64_field f TOP_LEVEL_VERSION_KEY "block" in
  guard? (version =? VERSION_2)%N else UnsupportedVersion version in
  let? _ := reject_unknown_keys f [TOP_LEVEL_TYPE_KEY; TOP_LEVEL_CONTENT_KEY] "block" in
  let? '(type_name, f) := required_text_field f TOP_LEVEL_TYPE_KEY "block" in
  let? '(content, f) := required_field f TOP_LEVEL_CONTENT_KEY "block" in
  normalize_block {| version := version; type_name := type_name; content := content |}.

(** [classify_block] *)
Definition classify_branch (block : Block) : result BlockError TypedBlock :=
  let? f := integer_keyed_map (content block) "content" in
  let? '(level, f) := required_u64_field f CONTENT_LEVEL_KEY "content" in
  let? '(v, f) := required_field f CONTENT_EMBEDDING_SPEC_KEY "content" in
  let? spec := parse_embedding_spec v in
  let? '(v, f) := required_field f CONTENT_ENTRIES_KEY "content" in
  let? values := expect_array v "branch entries" in
  let? entries := collect_map parse_branch_entry values in
  let '(o, f) := remove_field f CONTENT_EXT_KEY in
  let? ext := opt_transpose expect_arbitrary_map o in
  Ok (TypedBranch {| br_version := version block; br_type_name := type_name block; br_level := level;
                     br_spec := spec; br_entries := entries; br_ext := ext |}).

Definition classify_leaf (block : Block) : result BlockError TypedBlock :=
  let? f := integer_keyed_map (content block) "content" in
  let? '(v, f) := required_field f CONTENT_EMBEDDING_SPEC_KEY "content" in
  let? spec := parse_embedding_spec v in
  let? '(v, f) := required_field f CONTENT_ENTRIES_KEY "content" in
  let? values := expect_array v "leaf entries" in
  let? entries := collect_map parse_leaf_entry values in
  let '(o, f) := remove_field f CONTENT_EXT_KEY in
  let? ext := opt_transpose expect_arbitrary_map o in
  Ok (TypedLeaf {| lf_version := version block; lf_type_name := type_name block;
                   lf_spec := spec; lf_entries := entries; lf_ext := ext |}).

Definition classify_block (block : Block) : result BlockError TypedBlock :=
  if String.eqb (type_name block) RESERVED_BRANCH_TYPE then classify_branch block
  else if String.eqb (type_name block) RESERVED_LEAF_TYPE then classify_leaf block
  else Ok (TypedCustom {| cu_version := version block; cu_type_name := type_name block;
                          cu_content := content block |}).

(** [into_typed_block] *)
Definition into_typed_block (validated : ValidatedBlock) : result BlockError TypedBlock :=
  classify_block (block validated).

Context `{Sha256}.

(** [serialize_block], [deserialize_block_from_value], [deserialize_block] *)
Definition serialize_block (block : Block) : result BlockError SerializedBlock :=
  let? normalized := normalize_block block in
  let? value := block_to_value normalized in
  let b := into_writer value in
  Ok {| ser_bytes := b; ser_hash := compute_block_hash b |}.

Definition deserialize_block_from_value (value : Value) (b : bytes) (actual_hash : BlockHash)
  : result BlockError ValidatedBlock :=
  let? block := parse_block value in
  let? serialized := serialize_block block in
  guard? bool_decide (ser_bytes serialized = b) else non_canonical_error in
  Ok {| block := block; hash := actual_hash |}.

Definition deserialize_block (b : bytes) (expected_hash : BlockHash)
  : result BlockError ValidatedBlock :=
  let actual_hash := compute_block_hash b in
  guard? bool_decide (actual_hash = expected_hash)
    else HashMismatch expected_hash actual_hash in
  let? value := decode_single_cbor_value b in
  deserialize_block_from_value value b actual_hash.
End codec.
End V2.

(** ** Versioned blocks *)

(** [VersionedBlock], [DecodedBlock] *)
Inductive VersionedBlock := VersionedV1 (b : Block) | VersionedV2 (b : V2.Block).
Inductive DecodedBlock := DecodedV1 (b : ValidatedBlock) | DecodedV2 (b : V2.ValidatedBlock).

(** The loop of [detect_block_version_value]. *)
Fixpoint detect_version_loop (version : option N) (entries : list (Value * Value))
  : result BlockError (option N) :=
  match entries with
  | [] => Ok version
  | (key, value) :: entries' =>
      let? key :=
        match key with
        | VInteger integer => ok_or (u64_of_integer integer) (InvalidFieldKey "block")
        | _ => Err (InvalidFieldKey "block")
        end in
      if (key =? TOP_LEVEL_VERSION_KEY)%N then
        guard? negb (is_some version) else NonConforming "duplicate field key" in
        let shape := InvalidEntryShape "expected an unsigned integer field value" in
        match value with
        | VInteger integer =>
            let? n := ok_or (u64_of_integer integer) shape in
            detect_version_loop (Some n) entries'
        | _ => Err shape
        end
      else detect_version_loop version entries'
  end.

(** [detect_block_version_value] *)
Definition detect_block_version_value (value : Value) : result BlockError N :=
  match value with
  | VMap entries =>
      let? version := detect_version_loop None entries in
      ok_or version (MissingField "block" TOP_LEVEL_VERSION_KEY)
  | _ => Err (InvalidEntryShape "expected a CBOR map")
  end.

Section versioned.
Context `{CborCodec} `{Sha256}.

(** [serialize_versioned_block] *)
Definition serialize_versioned_block (block : VersionedBlock) : result BlockError SerializedBlock :=
  match block with
  | VersionedV1 block => serialize_block block
  | VersionedV2 block => V2.serialize_block block
  end.

(** [deserialize_versioned_block] *)
Definition deserialize_versioned_block (b : bytes) (expected_hash : BlockHash)
  : result BlockError DecodedBlock :=
  let actual_hash := compute_block_hash b in
  guard? bool_decide (actual_hash = expected_hash)
    else HashMismatch expected_hash actual_hash in
  let? value := decode_single_cbor_value b in
  let? version := detect_block_version_value value in
  if (version =? VERSION_1)%N then
    rmap DecodedV1 (deserialize_block_from_value value b actual_hash)
  else if (version =? V2.VERSION_2)%N then
    rmap DecodedV2 (V2.deserialize_block_from_value value b actual_hash)
  else Err (UnsupportedVersion version).
End versioned.
