(* ===== verification/BlockV2Correct.v ===== *)
(** * Version-2 blocks: the properties

    The same guarantees as for version 1 (normal form, round trip, unique
    accepted bytes, no panic), the agreement of the typed view with what a block
    was built from, and the choice of version by [deserialize_versioned_block]. *)
From S2P Require Import Prelude Ordering Hash Cbor Fields Ieee Ebcp EbcpPayload EbcpCorrect.
From S2P Require Import BlockV1 BlockV1Correct BlockV2 CborRef.

(** The data of a reserved branch or leaf in normal form. *)
Definition branch_normal `{CborCodec} (level : N) (spec : EmbeddingSpec) (entries : list BranchEntry)
  (ext : option ExtensionMap) : Prop :=
  (level < 2 ^ 64)%N /\ level <> 0%N /\ spec_typed spec
  /\ validate_embedding_spec spec = Ok tt /\ canonical_ext ext
  /\ validate_branch_ebcp entries spec ext = Ok tt
  /\ StronglySorted (cmp_lt compare_branch_entries) entries.

Definition leaf_normal `{CborCodec} (spec : EmbeddingSpec) (entries : list LeafEntry)
  (ext : option ExtensionMap) : Prop :=
  spec_typed spec /\ validate_embedding_spec spec = Ok tt
  /\ is_ebcp_encoding (encoding spec) = false /\ canonical_ext ext
  /\ length entries = 1%nat /\ Forall (fun e => canonical (VMap (metadata e))) entries.

(** The normal form of a version-2 block. *)
Definition content_normal `{CborCodec} (type_name : string) (content : Value) : Prop :=
  if String.eqb type_name V2.RESERVED_BRANCH_TYPE then
    exists level spec entries ext, branch_normal level spec entries ext
    /\ content = VMap (V2.branch_content_entries level spec entries ext)
  else if String.eqb type_name V2.RESERVED_LEAF_TYPE then
    exists spec entries ext, leaf_normal spec entries ext
    /\ content = VMap (V2.leaf_content_entries spec entries ext)
  else canonical content.

Definition v2_normal `{CborCodec} (b : V2.Block) : Prop :=
  V2.version b = V2.VERSION_2 /\ V2.type_name b <> EmptyString
  /\ content_normal (V2.type_name b) (V2.content b).

Definition v2_encodable `{CborLaws} (b : V2.Block) : Prop :=
  codec_ok (VMap (int_entries (V2.block_fields b))) = true
  /\ depth (VMap (int_entries (V2.block_fields b))) <= recursion_limit.

(** A value as it was built, or its canonical form. *)
Definition variant `{CborCodec} (v v' : Value) : Prop := v' = v \/ canonicalize_value v = Ok v'.

(** What the parsers of a branch and of a leaf content find in its field map. *)
Definition reads_ext `{CborCodec} (f : fields) (ext : option ExtensionMap) : Prop :=
  match ext with
  | None => f !! V2.CONTENT_EXT_KEY = None
  | Some x => exists v, f !! V2.CONTENT_EXT_KEY = Some v /\ expect_arbitrary_map v = Ok x
  end.

Definition reads_entries {A} (parse : Value -> result BlockError A) (f : fields) (es : list A) : Prop :=
  exists vs, f !! V2.CONTENT_ENTRIES_KEY = Some (VArray vs) /\ collect_map parse vs = Ok es.

Definition reads_spec (f : fields) (spec : EmbeddingSpec) : Prop :=
  exists v, f !! V2.CONTENT_EMBEDDING_SPEC_KEY = Some v /\ parse_embedding_spec v = Ok spec.

Definition reads_branch `{CborCodec} (c : Value) (level : N) (spec : EmbeddingSpec)
  (entries : list BranchEntry) (ext : option ExtensionMap) : Prop :=
  exists f, integer_keyed_map c "content" = Ok f
  /\ f !! V2.CONTENT_LEVEL_KEY = Some (int_value level)
  /\ reads_spec f spec /\ reads_entries parse_branch_entry f entries /\ reads_ext f ext
  /\ reject_unknown_keys f [V2.CONTENT_LEVEL_KEY; V2.CONTENT_EMBEDDING_SPEC_KEY;
       V2.CONTENT_ENTRIES_KEY; V2.CONTENT_EXT_KEY] "content" = Ok tt.

Definition reads_leaf `{CborCodec} (c : Value) (spec : EmbeddingSpec)
  (entries : list LeafEntry) (ext : option ExtensionMap) : Prop :=
  exists f, integer_keyed_map c "content" = Ok f
  /\ reads_spec f spec /\ reads_entries parse_leaf_entry f entries /\ reads_ext f ext
  /\ reject_unknown_keys f [V2.CONTENT_EMBEDDING_SPEC_KEY;
       V2.CONTENT_ENTRIES_KEY; V2.CONTENT_EXT_KEY] "content" = Ok tt.

(** The version-2 block with the data of a version-1 branch or leaf. *)
Definition v2_of_branch (b : BranchBlock) : V2.Block :=
  {| V2.version := V2.VERSION_2; V2.type_name := V2.RESERVED_BRANCH_TYPE;
     V2.content := VMap (V2.branch_content_entries (branch_level b) (branch_spec b)
       (branch_entries b) (branch_ext b)) |}.

Definition v2_of_leaf (b : LeafBlock) : V2.Block :=
  {| V2.version := V2.VERSION_2; V2.type_name := V2.RESERVED_LEAF_TYPE;
     V2.content := VMap (V2.leaf_content_entries (leaf_spec b) (leaf_entries b) (leaf_ext b)) |}.

(** Normalising a versioned block, what makes it encodable, and the decoded form. *)
Definition normalize_versioned `{CborCodec} (b : VersionedBlock) : result BlockError VersionedBlock :=
  match b with
  | VersionedV1 b => rmap VersionedV1 (normalize_block b)
  | VersionedV2 b => rmap VersionedV2 (V2.normalize_block b)
  end.

Definition versioned_encodable `{CborLaws} (b : VersionedBlock) : Prop :=
  match b with VersionedV1 b => encodable b | VersionedV2 b => v2_encodable b end.

Definition decoded (b : VersionedBlock) (h : BlockHash) : DecodedBlock :=
  match b with
  | VersionedV1 b => DecodedV1 {| val_block := b; val_hash := h |}
  | VersionedV2 b => DecodedV2 {| V2.block := b; V2.hash := h |}
  end.

Definition decoded_block (d : DecodedBlock) : VersionedBlock :=
  match d with
  | DecodedV1 v => VersionedV1 (val_block v)
  | DecodedV2 v => VersionedV2 (V2.block v)
  end.

Definition sample_v2 : V2.Block :=
  {| V2.version := 2; V2.type_name := "note"; V2.content := VMap unsorted_map |}.

Definition sample_v2_normal : V2.Block :=
  {| V2.version := 2; V2.type_name := "note"; V2.content := VMap sorted_map |}.

(** ** Values as built *)
Ltac raw_fields := rewrite integer_keyed_map_ints by (repeat constructor; first [lia|set_solver by lia]); cbn [rbind].

Section variants.
Context `{CborCodec}.

Lemma parse_embedding_spec_variant s c :
  variant (embedding_spec_to_value s) c -> spec_typed s -> parse_embedding_spec c = Ok s.
Proof.
  intros [->|Hc] Hs; [|by apply parse_embedding_spec_canon].
  unfold embedding_spec_to_value, parse_embedding_spec. raw_fields. rej. fld. fld. by destruct s.
Qed.

Lemma parse_branch_entry_variant e c :
  variant (branch_entry_to_value e) c -> parse_branch_entry c = Ok e.
Proof.
  intros [->|Hc]; [|by apply parse_branch_entry_canon].
  unfold branch_entry_to_value, parse_branch_entry. raw_fields. rej. fld. fld.
  rewrite BlockHash_try_from_as_bytes. by destruct e.
Qed.

Lemma parse_content_raw e : parse_content (content_to_value e) = Ok e.
Proof.
  unfold content_to_value, parse_content. raw_fields. rej. fld. fld. by destruct e.
Qed.

Lemma expect_canonical_map es : canonical (VMap es) -> expect_arbitrary_map (VMap es) = Ok es.
Proof. intros Hes. unfold expect_arbitrary_map. by rewrite canonicalize_id. Qed.

Lemma parse_leaf_entry_variant e c :
  variant (leaf_entry_to_value e) c -> canonical (VMap (metadata e)) -> parse_leaf_entry c = Ok e.
Proof.
  intros [->|Hc] Hm; [|by apply parse_leaf_entry_canon].
  unfold leaf_entry_to_value, parse_leaf_entry. raw_fields. rej. fld. fld.
  rewrite expect_canonical_map by done. cbn [rbind]. fld. rewrite parse_content_raw. by destruct e.
Qed.

Lemma variant_array vs c :
  variant (VArray vs) c -> exists ws, c = VArray ws /\ Forall2 variant vs ws.
Proof.
  intros [->|Hc].
  - exists vs. split; [done|]. apply Forall_Forall2_diag, Forall_true. by left.
  - cbn in Hc. inv_ok. subst. exists a. split; [done|]. apply collect_map_ok in Hc.
    eapply Forall2_impl; [done|]. by right.
Qed.

Lemma parse_array_variant {A} (to_value : A -> Value) (parse : Value -> result BlockError A) es c :
  variant (VArray (map to_value es)) c ->
  (forall e v, e ∈ es -> variant (to_value e) v -> parse v = Ok e) ->
  exists vs, c = VArray vs /\ collect_map parse vs = Ok es.
Proof.
  intros (vs & -> & HF)%variant_array Hp. exists vs. split; [done|]. apply collect_map_ok.
  revert vs HF. induction es as [|e es IH]; intros vs HF; inversion HF; subst; constructor.
  - apply Hp; [set_solver|done].
  - apply IH; [|done]. intros; apply Hp; [set_solver|done].
Qed.

Lemma variant_keyed kvs c ctx :
  variant (VMap (int_entries kvs)) c ->
  Forall (fun kv => kv.1 < 2 ^ 64)%N kvs -> NoDup kvs.*1 ->
  exists kvs', kvs'.*1 = kvs.*1
    /\ Forall2 (fun kv kv' => variant kv.2 kv'.2) kvs kvs'
    /\ integer_keyed_map c ctx = Ok (list_to_map kvs').
Proof.
  intros [->|Hc] HF HN.
  - exists kvs. split; [done|]. split; [|by apply integer_keyed_map_ints].
    apply Forall_Forall2_diag, Forall_true. by left.
  - destruct (canonicalize_keyed _ _ ctx Hc HF HN) as (kvs' & Hk & H2 & Hm).
    exists kvs'. split; [done|]. split; [|done]. eapply Forall2_impl; [done|]. by right.
Qed.

Lemma expect_map_variant es c :
  canonical (VMap es) -> variant (VMap es) c -> expect_arbitrary_map c = Ok es.
Proof.
  intros Hes [->|Hc]; [by apply expect_canonical_map|by eapply expect_arbitrary_map_canon].
Qed.
Lemma int_variant n c : variant (int_value n) c -> c = int_value n.
Proof. by intros [->|[= <-]]. Qed.
End variants.

(** ** Contents *)
Section contents.
Context `{CborCodec}.

Ltac variant_fields Hc :=
  let kvs := fresh "kvs" in let Hk := fresh "Hk" in let HF := fresh "HF" in let Hm := fresh "Hm" in
  apply (variant_keyed _ _ "content") in Hc as (kvs & Hk & HF & Hm);
  [ eexists; split; [exact Hm|]; clear Hm; cbn in Hk;
    repeat match goal with
    | H : Forall2 _ (_ :: _) _ |- _ =>
        let v := fresh "v" in let Hv := fresh "Hv" in let HF' := fresh "HF" in
        inversion H as [|? [? v] ? ? Hv HF']; subst; clear H; cbn [fst snd fmap list_fmap] in Hv, Hk
    | H : Forall2 _ [] _ |- _ => inversion H; subst; clear H
    end;
    injection Hk; intros; subst; clear Hk
  | repeat constructor; lia
  | repeat constructor; set_solver by lia ].

Lemma reads_branch_variant level spec entries ext c :
  variant (VMap (V2.branch_content_entries level spec entries ext)) c ->
  branch_normal level spec entries ext -> reads_branch c level spec entries ext.
Proof.
  intros Hc (_ & _ & Hs & _ & He & _ & _). unfold V2.branch_content_entries, V2.branch_content_fields in Hc.
  destruct ext as [es|]; cbn [ext_entry opt_entry app] in Hc; variant_fields Hc.
  all: split; [simplify_map_eq; by f_equal; apply int_variant|].
  all: split; [eexists; split; [by simplify_map_eq|by apply parse_embedding_spec_variant]|].
  all: match goal with Ha : variant (VArray _) _ |- _ =>
    apply (parse_array_variant _ parse_branch_entry) in Ha as (vs & -> & ?);
      [|intros; by apply parse_branch_entry_variant] end.
  all: split; [eexists; split; [by simplify_map_eq|done]|].
  all: split; [|apply reject_list; repeat constructor; set_solver].
  - eexists. split; [by simplify_map_eq|by apply expect_map_variant].
  - cbn. by simplify_map_eq.
Qed.

Lemma reads_leaf_variant spec entries ext c :
  variant (VMap (V2.leaf_content_entries spec entries ext)) c ->
  leaf_normal spec entries ext -> reads_leaf c spec entries ext.
Proof.
  intros Hc (Hs & _ & _ & He & _ & Hm). unfold V2.leaf_content_entries, V2.leaf_content_fields in Hc.
  destruct ext as [es|]; cbn [ext_entry opt_entry app] in Hc; variant_fields Hc.
  all: split; [eexists; split; [by simplify_map_eq|by apply parse_embedding_spec_variant]|].
  all: match goal with Ha : variant (VArray _) _ |- _ =>
    apply (parse_array_variant _ parse_leaf_entry) in Ha as (vs & -> & ?) end.
  2, 4: rewrite Forall_forall in Hm; intros; apply parse_leaf_entry_variant; [done|by apply Hm].
  all: split; [eexists; split; [by simplify_map_eq|done]|].
  all: split; [|apply reject_list; repeat constructor; set_solver].
  - eexists. split; [by simplify_map_eq|by apply expect_map_variant].
  - cbn. by simplify_map_eq.
Qed.
End contents.

Ltac step_field := first
  [ rewrite (proj2 (required_u64_field_ok _ _ _ _ _)) by (split_and!; [simplify_map_eq; eassumption|eassumption|reflexivity])
  | erewrite (proj2 (required_field_ok _ _ _ _ _)) by
      (split; [rewrite ?lookup_delete_ne by done; eassumption|reflexivity]) ]; cbn [rbind].

Section reading.
Context `{CborCodec}.

Lemma reads_ext_transpose f ext :
  reads_ext f ext -> opt_transpose expect_arbitrary_map (f !! V2.CONTENT_EXT_KEY) = Ok ext.
Proof. destruct ext; cbn; [intros (v & -> & Hv); cbn; by rewrite Hv|by intros ->]. Qed.

Lemma normalize_branch_reads c level spec entries ext :
  reads_branch c level spec entries ext -> branch_normal level spec entries ext ->
  V2.normalize_branch_block c = Ok (VMap (V2.branch_content_entries level spec entries ext)).
Proof.
  intros (f & Hf & Hlv & (sv & Hsv & Hsp) & (vs & Hvs & Hes) & Hx%reads_ext_transpose & Hr)
    (Hl & Hl0 & Hs & Hve & He & Hb & Hso).
  unfold V2.normalize_branch_block, remove_field. rewrite Hf. cbn [rbind]. rewrite Hr. cbn [rbind].
  rewrite (proj2 (required_u64_field_ok _ _ _ level _)) by done. cbn [rbind].
  rewrite (proj2 (N.eqb_neq _ _)) by done. cbn [negb].
  step_field. rewrite Hsp. cbn [rbind]. rewrite Hve. cbn [rbind].
  step_field. cbn [expect_array rbind]. rewrite Hes. cbn [rbind].
  rewrite !lookup_delete_ne by done. rewrite Hx. cbn [rbind].
  rewrite normalize_optional_map_id by done. cbn [rbind]. rewrite Hb. cbn [rbind].
  by rewrite sort_branch_entries_id.
Qed.

Lemma classify_branch_reads b level spec entries ext :
  reads_branch (V2.content b) level spec entries ext -> branch_normal level spec entries ext ->
  V2.classify_branch b = Ok (V2.TypedBranch
    {| V2.br_version := V2.version b; V2.br_type_name := V2.type_name b; V2.br_level := level;
       V2.br_spec := spec; V2.br_entries := entries; V2.br_ext := ext |}).
Proof.
  intros (f & Hf & Hlv & (sv & Hsv & Hsp) & (vs & Hvs & Hes) & Hx%reads_ext_transpose & Hr)
    (Hl & Hl0 & Hs & Hve & He & Hb & Hso).
  unfold V2.classify_branch, remove_field. rewrite Hf. cbn [rbind].
  rewrite (proj2 (required_u64_field_ok _ _ _ level _)) by done. cbn [rbind].
  step_field. rewrite Hsp. cbn [rbind]. step_field. cbn [expect_array rbind]. rewrite Hes. cbn [rbind].
  rewrite !lookup_delete_ne by done. by rewrite Hx.
Qed.

Lemma normalize_leaf_reads c spec entries ext :
  reads_leaf c spec entries ext -> leaf_normal spec entries ext ->
  V2.normalize_leaf_block c = Ok (VMap (V2.leaf_content_entries spec entries ext)).
Proof.
  intros (f & Hf & (sv & Hsv & Hsp) & (vs & Hvs & Hes) & Hx%reads_ext_transpose & Hr)
    (Hs & Hve & Hnb & He & H1 & Hm).
  unfold V2.normalize_leaf_block, remove_field. rewrite Hf. cbn [rbind]. rewrite Hr. cbn [rbind].
  step_field. rewrite Hsp. cbn [rbind]. rewrite Hve. cbn [rbind]. rewrite Hnb. cbn [negb].
  step_field. cbn [expect_array rbind]. rewrite Hes. cbn [rbind]. rewrite (proj2 (len_eqb_1 _) H1).
  rewrite collect_map_id by
    (intros e Hin; rewrite Forall_forall in Hm; by apply canonicalize_leaf_entry_id, Hm).
  cbn [rbind]. rewrite !lookup_delete_ne by done. rewrite Hx. cbn [rbind].
  by rewrite normalize_optional_map_id.
Qed.

Lemma classify_leaf_reads b spec entries ext :
  reads_leaf (V2.content b) spec entries ext -> leaf_normal spec entries ext ->
  V2.classify_leaf b = Ok (V2.TypedLeaf
    {| V2.lf_version := V2.version b; V2.lf_type_name := V2.type_name b;
       V2.lf_spec := spec; V2.lf_entries := entries; V2.lf_ext := ext |}).
Proof.
  intros (f & Hf & (sv & Hsv & Hsp) & (vs & Hvs & Hes) & Hx%reads_ext_transpose & Hr) _.
  unfold V2.classify_leaf, remove_field. rewrite Hf. cbn [rbind].
  step_field. rewrite Hsp. cbn [rbind]. step_field. cbn [expect_array rbind]. rewrite Hes. cbn [rbind].
  rewrite !lookup_delete_ne by done. by rewrite Hx.
Qed.

(** Normalising a content gives a normal one. *)
Lemma normalize_branch_normal c c' :
  V2.normalize_branch_block c = Ok c' -> exists level spec entries ext,
  branch_normal level spec entries ext /\ c' = VMap (V2.branch_content_entries level spec entries ext).
Proof.
  unfold V2.normalize_branch_block, remove_field. intros Hn. inv_oks. subst c'.
  match goal with H : required_u64_field _ _ _ = Ok _ |- _ =>
    apply required_u64_field_ok in H as (_ & Hl & _) end.
  match goal with H : parse_embedding_spec _ = _ |- _ => apply parse_embedding_spec_typed in H end.
  match goal with H : validate_embedding_spec _ = _ |- _ => apply unit_ok in H end.
  match goal with H : validate_branch_ebcp _ _ _ = _ |- _ => apply unit_ok in H end.
  match goal with H : normalize_optional_map _ = _ |- _ => apply normalize_optional_map_canonical in H end.
  match goal with H : sort_branch_entries _ = _ |- _ => apply sort_branch_entries_ok in H as [-> Hs] end.
  apply negb_true_iff, N.eqb_neq in Hb.
  eexists _, _, _, _. split; [|reflexivity]. split_and!; try done.
  eapply validate_branch_ebcp_perm; [|done]. symmetry. apply (sort_by_Permutation compare_branch_entries).
Qed.

Lemma normalize_leaf_normal c c' :
  V2.normalize_leaf_block c = Ok c' -> exists spec entries ext,
  leaf_normal spec entries ext /\ c' = VMap (V2.leaf_content_entries spec entries ext).
Proof.
  unfold V2.normalize_leaf_block, remove_field. intros Hn. inv_oks. subst c'.
  match goal with H : parse_embedding_spec _ = _ |- _ => apply parse_embedding_spec_typed in H end.
  match goal with H : validate_embedding_spec _ = _ |- _ => apply unit_ok in H end.
  match goal with H : normalize_optional_map _ = _ |- _ => apply normalize_optional_map_canonical in H end.
  apply negb_true_iff in Hb. apply len_eqb_1 in Hb0.
  eexists _, _, _. split; [|reflexivity]. split_and!; try done.
  - match goal with H : collect_map canonicalize_leaf_entry _ = _ |- _ =>
      by rewrite (collect_map_length _ _ _ H) end.
  - match goal with H : collect_map canonicalize_leaf_entry _ = _ |- _ => apply collect_map_ok in H; clear -H;
      induction H; constructor; [by eapply canonicalize_leaf_entry_canonical|done] end.
Qed.

Lemma v2_normalize_normal b nb : V2.normalize_block b = Ok nb -> v2_normal nb.
Proof.
  unfold V2.normalize_block, v2_normal, content_normal. intros Hn. inv_ok. subst nb. cbn.
  apply N.eqb_eq in Hb. apply negb_true_iff, String.eqb_neq in Hb0. split_and!; [done|done|].
  destruct (String.eqb _ _); [by eapply normalize_branch_normal|].
  destruct (String.eqb _ _); [by eapply normalize_leaf_normal|]. by eapply canonicalize_canonical.
Qed.

(** A normal content, as it is or canonicalised, normalises to itself. *)
Lemma v2_normalize_variant b c :
  v2_normal b -> variant (V2.content b) c ->
  V2.normalize_block {| V2.version := V2.version b; V2.type_name := V2.type_name b; V2.content := c |} = Ok b.
Proof.
  intros (Hv & Ht & Hc) Hvar. unfold V2.normalize_block, content_normal in *. cbn.
  rewrite Hv. cbn [N.eqb Pos.eqb V2.VERSION_2]. rewrite (proj2 (String.eqb_neq _ _) Ht). cbn [negb].
  destruct b as [ver ty cont]. cbn in *. subst ver.
  destruct (String.eqb ty V2.RESERVED_BRANCH_TYPE); [|destruct (String.eqb ty V2.RESERVED_LEAF_TYPE)].
  - destruct Hc as (level & spec & es & ext & Hn & ->).
    rewrite (normalize_branch_reads c level spec es ext); [done|by apply reads_branch_variant|done].
  - destruct Hc as (spec & es & ext & Hn & ->).
    rewrite (normalize_leaf_reads c spec es ext); [done|by apply reads_leaf_variant|done].
  - assert (canonicalize_value c = Ok cont) as ->; [|done].
    destruct Hvar as [->|Hcan]; [by apply canonicalize_id|].
    rewrite canonicalize_id in Hcan by done. injection Hcan as <-. by apply canonicalize_id.
Qed.

Lemma v2_normalize_id b : v2_normal b -> V2.normalize_block b = Ok b.
Proof.
  intros Hn. pose proof (v2_normalize_variant b (V2.content b) Hn (or_introl eq_refl)) as E. by destruct b.
Qed.
End reading.

(** ** Writing, reading, panics *)
Section codec.
Context `{CborCodec}.

Lemma v2_normalize_no_panic b : no_panic (V2.normalize_block b).
Proof.
  unfold V2.normalize_block, V2.normalize_branch_block, V2.normalize_leaf_block, remove_field,
    canonicalize_leaf_entry, canonicalize_metadata, validate_embedding_spec, sort_branch_entries.
  np; try apply parse_embedding_spec_no_panic; try apply parse_branch_entry_no_panic;
    try apply parse_leaf_entry_no_panic; try apply normalize_optional_map_no_panic;
    apply validate_branch_ebcp_no_panic.
Qed.

Lemma v2_parse_no_panic v : no_panic (V2.parse_block v).
Proof. unfold V2.parse_block. np. apply v2_normalize_no_panic. Qed.

Lemma v2_serialize_no_panic `{Sha256} b : no_panic (V2.serialize_block b).
Proof. unfold V2.serialize_block, V2.block_to_value. np. apply v2_normalize_no_panic. Qed.

Lemma v2_from_value_no_panic `{Sha256} v b h : no_panic (V2.deserialize_block_from_value v b h).
Proof.
  unfold V2.deserialize_block_from_value. np; [apply v2_parse_no_panic|apply v2_serialize_no_panic].
Qed.

Lemma v1_from_value_no_panic `{Sha256} v b h : no_panic (deserialize_block_from_value v b h).
Proof. unfold deserialize_block_from_value. np. Qed.

Lemma detect_loop_no_panic o es : no_panic (detect_version_loop o es).
Proof.
  revert o. induction es as [|[k v] es IH]; intros o; cbn; [done|].
  apply rbind_no_panic; [np|]. intros a _. np.
Qed.

Lemma v2_parse_normal v b : V2.parse_block v = Ok b -> v2_normal b.
Proof. unfold V2.parse_block. intros Hp. inv_oks. by eapply v2_normalize_normal. Qed.

(** The canonical value of a normal block reads back as the block. *)
Lemma v2_parse_canon b c : v2_normal b -> V2.block_to_value b = Ok c -> V2.parse_block c = Ok b.
Proof.
  intros Hn Hc. unfold V2.block_to_value, V2.block_fields in Hc. unfold V2.parse_block.
  canon_fields Hc "block". pose proof Hn as (Hver & _ & _). rewrite Hver.
  fld. cbn [N.eqb Pos.eqb V2.VERSION_2]. rej. fld. fld.
  rewrite <-Hver. apply v2_normalize_variant; [done|by right].
Qed.

Lemma v2_from_value_ok `{Sha256} v b h r :
  V2.deserialize_block_from_value v b h = Ok r ->
  V2.hash r = h /\ v2_normal (V2.block r)
  /\ V2.serialize_block (V2.block r) = Ok {| ser_bytes := b; ser_hash := compute_block_hash b |}.
Proof.
  unfold V2.deserialize_block_from_value. intros Hd. inv_ok. subst r. cbn.
  apply bool_decide_eq_true in Hb. subst. split_and!; [done|by eapply v2_parse_normal|].
  rewrite Hok0. f_equal. destruct a0 as [sb sh]. cbn. f_equal.
  unfold V2.serialize_block in Hok0. inv_ok. congruence.
Qed.

End codec.

(** ** The version of a value *)
Lemma detect_step_other o k v es :
  (k < 2 ^ 64)%N -> k <> TOP_LEVEL_VERSION_KEY ->
  detect_version_loop o ((int_value k, v) :: es) = detect_version_loop o es.
Proof.
  intros Hk Hne. cbn [detect_version_loop int_value]. rewrite u64_of_integer_of_N by done.
  cbn [ok_or rbind]. by rewrite (proj2 (N.eqb_neq _ _) Hne).
Qed.

Lemma detect_step_version n es :
  (n < 2 ^ 64)%N ->
  detect_version_loop None ((int_value TOP_LEVEL_VERSION_KEY, int_value n) :: es)
  = detect_version_loop (Some n) es.
Proof. intros Hn. cbn. by rewrite u64_of_integer_of_N by done. Qed.

Lemma detect_loop_spec kvs o :
  Forall (fun kv => kv.1 < 2 ^ 64)%N kvs -> NoDup kvs.*1 ->
  (TOP_LEVEL_VERSION_KEY ∉ kvs.*1 -> detect_version_loop o (int_entries kvs) = Ok o)
  /\ forall n, (n < 2 ^ 64)%N -> (TOP_LEVEL_VERSION_KEY, int_value n) ∈ kvs ->
     detect_version_loop None (int_entries kvs) = Ok (Some n).
Proof.
  revert o. induction kvs as [|[k v] kvs IH]; intros o HF HN; [split; [done|set_solver]|].
  inversion HF as [|? ? Hk HF']; inversion HN as [|? ? Hnk HN']; subst. cbn [fst] in Hk.
  unfold int_entries. cbn [map fst snd]. fold (int_entries kvs).
  destruct (decide (k = TOP_LEVEL_VERSION_KEY)) as [->|Hne].
  - split; [set_solver|]. intros n Hn [Heq|Hin]%elem_of_cons.
    + injection Heq as <-. rewrite detect_step_version by done. by apply (IH (Some n)).
    + exfalso. apply Hnk. apply list_elem_of_fmap. by exists (TOP_LEVEL_VERSION_KEY, int_value n).
  - rewrite !detect_step_other by done. destruct (IH o HF' HN') as [H1 H2]. split.
    + intros Hni. apply H1. set_solver.
    + intros n Hn [Heq|Hin]%elem_of_cons; [congruence|]. by apply H2.
Qed.

Lemma detect_version_ok v f ctx n g :
  integer_keyed_map v ctx = Ok f -> required_u64_field f TOP_LEVEL_VERSION_KEY ctx = Ok (n, g) ->
  detect_block_version_value v = Ok n.
Proof.
  intros (kvs & -> & HF & HN & ->)%integer_keyed_map_ok (Hl & Hn & _)%required_u64_field_ok.
  cbn. apply elem_of_list_to_map in Hl; [|done].
  destruct (detect_loop_spec kvs None HF HN) as [_ Hd]. by rewrite (Hd n Hn Hl).
Qed.

(** ** Building reserved blocks *)
Section building.
Context `{CborCodec}.

Lemma expect_map_normalize es : expect_arbitrary_map (VMap es) = normalize_map es.
Proof.
  unfold expect_arbitrary_map, normalize_map. destruct (canonicalize_value (VMap es)) eqn:E; [|done..].
  apply canonicalize_map_shape in E as [es' ->]. done.
Qed.

Lemma collect_built_entries entries :
  collect_map parse_branch_entry (map branch_entry_to_value entries) = Ok entries.
Proof.
  rewrite collect_map_map. apply collect_map_id. intros e _. apply parse_branch_entry_variant. by left.
Qed.

Lemma transpose_built_ext (ext : option ExtensionMap) :
  opt_transpose expect_arbitrary_map (VMap <$> ext) = normalize_optional_map ext.
Proof.
  destruct ext; [|done]. unfold normalize_optional_map.
  cbn [fmap option_fmap option_map opt_transpose]. by rewrite expect_map_normalize.
Qed.

Lemma branch_built_fields level spec entries ext :
  exists f, integer_keyed_map (VMap (V2.branch_content_entries level spec entries ext)) "content" = Ok f
  /\ f !! V2.CONTENT_LEVEL_KEY = Some (int_value level)
  /\ f !! V2.CONTENT_EMBEDDING_SPEC_KEY = Some (embedding_spec_to_value spec)
  /\ f !! V2.CONTENT_ENTRIES_KEY = Some (VArray (map branch_entry_to_value entries))
  /\ f !! V2.CONTENT_EXT_KEY = VMap <$> ext
  /\ reject_unknown_keys f [V2.CONTENT_LEVEL_KEY; V2.CONTENT_EMBEDDING_SPEC_KEY;
       V2.CONTENT_ENTRIES_KEY; V2.CONTENT_EXT_KEY] "content" = Ok tt.
Proof.
  unfold V2.branch_content_entries, V2.branch_content_fields, ext_entry.
  destruct ext; cbn [opt_entry app fmap option_fmap option_map].
  all: eexists; split; [apply integer_keyed_map_ints; repeat constructor; first [lia|set_solver by lia]|].
  all: split_and!; [by simplify_map_eq..|]; apply reject_list; repeat constructor; set_solver.
Qed.

Lemma build_branch_eq level spec entries ext :
  (level < 2 ^ 64)%N -> spec_typed spec ->
  V2.build_branch_block level spec entries ext
  = rmap v2_of_branch (normalize_branch {| branch_version := VERSION_1; branch_level := level;
      branch_spec := spec; branch_entries := entries; branch_ext := ext |}).
Proof.
  intros Hl Hs. unfold V2.build_branch_block, V2.normalize_block. cbn [V2.version V2.type_name V2.content].
  cbn [N.eqb Pos.eqb V2.VERSION_2 negb]. rewrite String.eqb_refl.
  change (String.eqb V2.RESERVED_BRANCH_TYPE "") with false. cbn [negb].
  destruct (branch_built_fields level spec entries ext) as (f & Hf & F1 & F2 & F3 & F4 & Hr).
  unfold V2.normalize_branch_block, normalize_branch, remove_field.
  rewrite Hf. cbn [rbind]. rewrite Hr. cbn [rbind].
  rewrite (proj2 (required_u64_field_ok _ _ _ level _)) by done. cbn [rbind].
  cbn [branch_version branch_level branch_spec branch_entries branch_ext].
  rewrite (proj2 (validate_version_ok _) eq_refl). cbn [rbind].
  destruct (N.eqb_spec level 0) as [->|Hl0]; [done|]. cbn [negb].
  step_field. rewrite (parse_embedding_spec_variant spec) by (done || by left). cbn [rbind].
  destruct (validate_embedding_spec spec) as [[]|e|]; [cbn [rbind]|done..].
  step_field. cbn [expect_array rbind]. rewrite collect_built_entries. cbn [rbind].
  rewrite !lookup_delete_ne by done. rewrite F4, transpose_built_ext.
  destruct (normalize_optional_map ext) as [x|e|] eqn:Hx; [cbn [rbind]|done..].
  rewrite normalize_optional_map_id by by eapply normalize_optional_map_canonical. cbn [rbind].
  destruct (validate_branch_ebcp entries spec x) as [[]|e|]; [cbn [rbind]|done..].
  by destruct (sort_branch_entries entries).
Qed.

Lemma leaf_built_fields spec entries ext :
  exists f, integer_keyed_map (VMap (V2.leaf_content_entries spec entries ext)) "content" = Ok f
  /\ f !! V2.CONTENT_EMBEDDING_SPEC_KEY = Some (embedding_spec_to_value spec)
  /\ f !! V2.CONTENT_ENTRIES_KEY = Some (VArray (map leaf_entry_to_value entries))
  /\ f !! V2.CONTENT_EXT_KEY = VMap <$> ext
  /\ reject_unknown_keys f [V2.CONTENT_EMBEDDING_SPEC_KEY;
       V2.CONTENT_ENTRIES_KEY; V2.CONTENT_EXT_KEY] "content" = Ok tt.
Proof.
  unfold V2.leaf_content_entries, V2.leaf_content_fields, ext_entry.
  destruct ext; cbn [opt_entry app fmap option_fmap option_map].
  all: eexists; split; [apply integer_keyed_map_ints; repeat constructor; first [lia|set_solver by lia]|].
  all: split_and!; [by simplify_map_eq..|]; apply reject_list; repeat constructor; set_solver.
Qed.

(** Parsing a leaf entry as built canonicalises its metadata. *)
Lemma parse_leaf_entry_built e : parse_leaf_entry (leaf_entry_to_value e) = canonicalize_leaf_entry e.
Proof.
  unfold leaf_entry_to_value, parse_leaf_entry. raw_fields. rej. fld. fld.
  rewrite expect_map_normalize. unfold canonicalize_leaf_entry, canonicalize_metadata.
  destruct (normalize_map (metadata e)); [|done..]. cbn [rbind rmap]. fld. by rewrite parse_content_raw.
Qed.

Lemma build_leaf_ok spec entries ext b :
  spec_typed spec ->
  V2.build_leaf_block spec entries ext = Ok b <->
  exists l, normalize_leaf {| leaf_version := VERSION_1; leaf_level := 0; leaf_spec := spec;
    leaf_entries := entries; leaf_ext := ext |} = Ok l /\ b = v2_of_leaf l.
Proof.
  intros Hs. unfold V2.build_leaf_block, V2.normalize_block. cbn [V2.version V2.type_name V2.content].
  cbn [N.eqb Pos.eqb V2.VERSION_2 negb]. rewrite String.eqb_refl.
  change (String.eqb V2.RESERVED_LEAF_TYPE "") with false.
  change (String.eqb V2.RESERVED_LEAF_TYPE V2.RESERVED_BRANCH_TYPE) with false. cbn [negb].
  destruct (leaf_built_fields spec entries ext) as (f & Hf & F2 & F3 & F4 & Hr).
  unfold V2.normalize_leaf_block, normalize_leaf, remove_field.
  rewrite Hf. cbn [rbind]. rewrite Hr. cbn [rbind].
  cbn [leaf_version leaf_level leaf_spec leaf_entries leaf_ext].
  rewrite (proj2 (validate_version_ok _) eq_refl). cbn [rbind N.eqb].
  step_field. rewrite (parse_embedding_spec_variant spec) by (done || by left). cbn [rbind].
  destruct (validate_embedding_spec spec) as [[]|e|]; cbn [rbind]; [|naive_solver..].
  destruct (is_ebcp_encoding (encoding spec)); cbn [negb]; [naive_solver|].
  step_field. cbn [expect_array rbind]. rewrite collect_map_map.
  rewrite (collect_map_ext _ canonicalize_leaf_entry) by (intros; apply parse_leaf_entry_built).
  rewrite !lookup_delete_ne by done. rewrite F4, transpose_built_ext.
  destruct (collect_map canonicalize_leaf_entry entries) as [es|e|] eqn:Hes; cbn [rbind].
  - assert (len es = len entries) as -> by (unfold len; by rewrite (collect_map_length _ _ _ Hes)).
    assert (collect_map canonicalize_leaf_entry es = Ok es) as ->.
    { apply collect_map_id. intros e Hin. apply canonicalize_leaf_entry_id.
      apply collect_map_ok in Hes. clear -Hes Hin. induction Hes as [|x y xs ys Hxy HF IH]; [set_solver|].
      apply elem_of_cons in Hin as [->|Hin]; [by eapply canonicalize_leaf_entry_canonical|by apply IH]. }
    destruct (normalize_optional_map ext) as [x|e|] eqn:Hx; cbn [rbind];
      destruct (len entries =? 1)%N; cbn [rbind]; try naive_solver.
    rewrite normalize_optional_map_id by by eapply normalize_optional_map_canonical. cbn [rbind]. naive_solver.
  - split; [done|]. intros (l & Hl & _). by destruct (normalize_optional_map ext), (len entries =? 1)%N.
  - split; [done|]. intros (l & Hl & _). by destruct (normalize_optional_map ext), (len entries =? 1)%N.
Qed.

(** The typed view of a normal block. *)
Lemma normalize_branch_v2 b nb :
  normalize_branch b = Ok nb -> (branch_level b < 2 ^ 64)%N -> spec_typed (branch_spec b) ->
  branch_normal (branch_level nb) (branch_spec nb) (branch_entries nb) (branch_ext nb).
Proof.
  intros Hb Hl Hs.
  assert (normalize_block (Branch b) = Ok (Branch nb)) as Hn by (cbn; by rewrite Hb).
  pose proof (normalize_block_typed _ _ Hn (conj Hl Hs)) as [? ?].
  apply normalize_block_normal in Hn as (? & ? & ? & ? & ? & ?). done.
Qed.

Lemma normalize_leaf_v2 b nb :
  normalize_leaf b = Ok nb -> spec_typed (leaf_spec b) ->
  leaf_normal (leaf_spec nb) (leaf_entries nb) (leaf_ext nb).
Proof.
  intros Hb Hs.
  assert (normalize_block (Leaf b) = Ok (Leaf nb)) as Hn by (cbn; by rewrite Hb).
  pose proof (normalize_block_typed _ _ Hn Hs).
  apply normalize_block_normal in Hn as (? & ? & ? & ? & ? & ? & ?). done.
Qed.

Lemma classify_normal b : v2_normal b -> exists t, V2.classify_block b = Ok t.
Proof.
  intros (_ & _ & Hc). unfold V2.classify_block, content_normal in *.
  destruct (String.eqb _ _); [|destruct (String.eqb _ _)]; [| |eauto].
  - destruct Hc as (level & spec & es & ext & Hn & Hc). eexists.
    eapply classify_branch_reads; [|done]. rewrite Hc. apply reads_branch_variant; [by left|done].
  - destruct Hc as (spec & es & ext & Hn & Hc). eexists.
    eapply classify_leaf_reads; [|done]. rewrite Hc. apply reads_leaf_variant; [by left|done].
Qed.
End building.

(** ** Properties *)

(** The reserved version 2 types follow the version 1 rules: building a branch or a
    leaf accepts, normalizes and rejects exactly what version 1 does, and typing a built
    branch block gives back the fields of the normalized version 1 block. *)
Theorem v2_reserved_as_v1 `{CborCodec} level spec entries leaves ext h :
  (level < 2 ^ 64)%N -> spec_typed spec ->
  V2.build_branch_block level spec entries ext
    = rmap v2_of_branch (normalize_branch {| branch_version := VERSION_1; branch_level := level;
        branch_spec := spec; branch_entries := entries; branch_ext := ext |})
  /\ (forall b, V2.build_branch_block level spec entries ext = Ok b -> exists n,
      b = v2_of_branch n /\ V2.into_typed_block {| V2.block := b; V2.hash := h |} = Ok (V2.TypedBranch
        {| V2.br_version := V2.VERSION_2; V2.br_type_name := V2.RESERVED_BRANCH_TYPE;
           V2.br_level := branch_level n; V2.br_spec := branch_spec n;
           V2.br_entries := branch_entries n; V2.br_ext := branch_ext n |}))
  /\ (forall b, V2.build_leaf_block spec leaves ext = Ok b <-> exists n,
      normalize_leaf {| leaf_version := VERSION_1; leaf_level := 0; leaf_spec := spec;
        leaf_entries := leaves; leaf_ext := ext |} = Ok n /\ b = v2_of_leaf n).
Proof.
  intros Hl Hs. split; [by apply build_branch_eq|]. split; [|intros b; by apply build_leaf_ok].
  intros b Hb. rewrite build_branch_eq in Hb by done. apply rmap_ok in Hb as (n & Hn & ->).
  exists n. split; [done|]. pose proof (normalize_branch_v2 _ _ Hn Hl Hs) as Hbn.
  unfold V2.into_typed_block, V2.classify_block, v2_of_branch. cbn [V2.block V2.type_name].
  rewrite String.eqb_refl. erewrite classify_branch_reads; [reflexivity| |done].
  apply reads_branch_variant; [by left|done].
Qed.

Lemma normalize_versioned_normal `{CborCodec} b nb :
  normalize_versioned b = Ok nb ->
  match nb with VersionedV1 n => normal n | VersionedV2 n => v2_normal n end
  /\ normalize_versioned nb = Ok nb.
Proof.
  destruct b as [b|b]; cbn; intros Hn; apply rmap_ok in Hn as (n & Hn & ->); cbn.
  - apply normalize_block_normal in Hn. split; [done|]. by rewrite normalize_block_id.
  - apply v2_normalize_normal in Hn. split; [done|]. by rewrite v2_normalize_id.
Qed.

Lemma v2_block_to_value_ok `{CborLaws} b : v2_normal b -> codec_ok (V2.content b) = true ->
  exists c, V2.block_to_value b = Ok c.
Proof.
  intros Hn Hcod. apply canonicalize_keyed_ok; [repeat constructor; lia|repeat constructor; set_solver by lia|].
  repeat constructor. cbn [snd]. destruct Hn as (_ & _ & Hc). unfold content_normal in Hc.
  destruct (String.eqb _ _); [|destruct (String.eqb _ _)].
  - destruct Hc as (l & s & es & ext & (_ & _ & _ & _ & He & _) & ->).
    apply is_ok_exists, canonicalize_keyed_ok.
    + destruct ext; cbn; repeat constructor; lia.
    + destruct ext; cbn; repeat constructor; set_solver by lia.
    + destruct ext; cbn [V2.branch_content_fields ext_entry opt_entry app]; repeat apply Forall_cons_2; cbn [snd];
        try done; try (by apply canonical_is_ok); try apply is_ok_exists, spec_to_value_ok; try apply Forall_nil_2.
      all: apply array_to_value_ok, Forall_true; intros; apply branch_entry_to_value_ok.
  - destruct Hc as (s & es & ext & (_ & _ & _ & He & _ & Hm) & ->).
    apply is_ok_exists, canonicalize_keyed_ok.
    + destruct ext; cbn; repeat constructor; lia.
    + destruct ext; cbn; repeat constructor; set_solver by lia.
    + destruct ext; cbn [V2.leaf_content_fields ext_entry opt_entry app]; repeat apply Forall_cons_2; cbn [snd];
        try done; try (by apply canonical_is_ok); try apply is_ok_exists, spec_to_value_ok; try apply Forall_nil_2.
      all: apply array_to_value_ok; eapply Forall_impl; [done|]; intros; by apply leaf_entry_to_value_ok.
  - by apply canonical_is_ok.
Qed.

Lemma detect_parse_v1 `{CborCodec} v b : parse_block v = Ok b -> detect_block_version_value v = Ok VERSION_1.
Proof.
  unfold parse_block. intros Hp. inv_oks.
  match goal with H : validate_version _ = _ |- _ => apply unit_ok, validate_version_ok in H as -> end.
  by eapply detect_version_ok.
Qed.

Lemma detect_parse_v2 `{CborCodec} v b : V2.parse_block v = Ok b -> detect_block_version_value v = Ok V2.VERSION_2.
Proof.
  unfold V2.parse_block. intros Hp. inv_oks. apply N.eqb_eq in Hb. subst. by eapply detect_version_ok.
Qed.

Lemma versioned_v1 `{CborCodec} `{Sha256} b h v :
  deserialize_versioned_block b h = Ok (DecodedV1 v) <-> deserialize_block b h = Ok v.
Proof.
  unfold deserialize_versioned_block, deserialize_block.
  destruct (bool_decide _); [|naive_solver]. destruct (decode_single_cbor_value b) as [value| |]; cbn [rbind];
    [|naive_solver..]. split.
  - intros Hd. inv_ok. destruct (a =? _)%N; inv_ok; simplify_eq; done.
  - intros Hd.
    assert (exists blk, parse_block value = Ok blk) as [blk Hblk]
      by (unfold deserialize_block_from_value in Hd; inv_ok; eauto).
    rewrite (detect_parse_v1 _ _ Hblk). cbn [rbind]. rewrite N.eqb_refl. by rewrite Hd.
Qed.

Lemma versioned_v2 `{CborCodec} `{Sha256} b h v :
  deserialize_versioned_block b h = Ok (DecodedV2 v) <-> V2.deserialize_block b h = Ok v.
Proof.
  unfold deserialize_versioned_block, V2.deserialize_block.
  destruct (bool_decide _); [|naive_solver]. destruct (decode_single_cbor_value b) as [value| |]; cbn [rbind];
    [|naive_solver..]. split.
  - intros Hd. inv_ok. destruct (a =? _)%N; inv_ok; simplify_eq; done.
  - intros Hd.
    assert (exists blk, V2.parse_block value = Ok blk) as [blk Hblk]
      by (unfold V2.deserialize_block_from_value in Hd; inv_ok; eauto).
    rewrite (detect_parse_v2 _ _ Hblk). cbn [rbind N.eqb Pos.eqb VERSION_1 V2.VERSION_2]. by rewrite Hd.
Qed.

Lemma versioned_decoded `{CborCodec} `{Sha256} b h d :
  deserialize_versioned_block b h = Ok d ->
  h = compute_block_hash b /\ d = decoded (decoded_block d) h
  /\ normalize_versioned (decoded_block d) = Ok (decoded_block d)
  /\ serialize_versioned_block (decoded_block d) = Ok {| ser_bytes := b; ser_hash := h |}.
Proof.
  destruct d as [v|v]; cbn.
  - intros (-> & Hh & Hn & _ & Hs)%versioned_v1%deserialize_block_inv.
    rewrite normalize_block_id by done. split_and!; try done. destruct v; cbn in *; by subst.
  - intros Hd%versioned_v2. unfold V2.deserialize_block in Hd. inv_ok.
    apply bool_decide_eq_true in Hb. subst h. apply v2_from_value_ok in Hd as (Hh & Hn & Hs).
    rewrite v2_normalize_id by done. split_and!; try done. destruct v; cbn in *; by subst.
Qed.

(** C6 Bytes accepted as a block of either version hash to the expected identifier,
    decode to a block in its normal form, and are its canonical encoding: serializing
    the decoded block gives the same bytes and hash; a version 2 block can be typed. *)
Theorem versioned_deserialize_sound `{CborCodec} `{Sha256} b h d :
  deserialize_versioned_block b h = Ok d ->
  h = compute_block_hash b /\ d = decoded (decoded_block d) h
  /\ normalize_versioned (decoded_block d) = Ok (decoded_block d)
  /\ serialize_versioned_block (decoded_block d) = Ok {| ser_bytes := b; ser_hash := h |}
  /\ (forall v, d = DecodedV1 v -> deserialize_block b h = Ok v)
  /\ (forall v, d = DecodedV2 v -> V2.deserialize_block b h = Ok v
      /\ exists t, V2.into_typed_block v = Ok t).
Proof.
  intros Hd. destruct (versioned_decoded _ _ _ Hd) as (H1 & H2 & H3 & H4). split_and!; try done.
  - intros v ->. by apply versioned_v1.
  - intros v ->. split; [by apply versioned_v2|]. cbn in H3.
    apply rmap_ok in H3 as (n & Hn & [= Heq]). apply v2_normalize_normal in Hn. rewrite <-Heq in Hn.
    by apply classify_normal.
Qed.

(** Reading bytes through the version dispatch accepts them as version 1, or as
    version 2, exactly when the reader of that version accepts them, with the same
    block, and never panics. *)
Theorem versioned_dispatch `{CborCodec} `{Sha256} b h :
  (forall v, deserialize_versioned_block b h = Ok (DecodedV1 v) <-> deserialize_block b h = Ok v)
  /\ (forall v, deserialize_versioned_block b h = Ok (DecodedV2 v) <-> V2.deserialize_block b h = Ok v)
  /\ deserialize_versioned_block b h <> Panic.
Proof.
  split; [intros v; apply versioned_v1|]. split; [intros v; apply versioned_v2|].
  change (no_panic (deserialize_versioned_block b h)).
  unfold deserialize_versioned_block, detect_block_version_value.
  np; first [apply detect_loop_no_panic|apply v1_from_value_no_panic|apply v2_from_value_no_panic].
Qed.

Lemma v2_roundtrip `{CborLaws} `{Sha256} b nb :
  V2.normalize_block b = Ok nb -> v2_encodable nb ->
  exists s, V2.serialize_block b = Ok s /\ ser_hash s = compute_block_hash (ser_bytes s)
  /\ V2.deserialize_block (ser_bytes s) (ser_hash s) = Ok {| V2.block := nb; V2.hash := ser_hash s |}.
Proof.
  intros Hn [Hcod Hdep]. pose proof (v2_normalize_normal _ _ Hn) as Hnn.
  destruct (v2_block_to_value_ok nb Hnn) as [v Hv].
  { cbn [codec_ok int_entries V2.block_fields map forallb fst snd] in Hcod.
    rewrite !andb_true_iff in Hcod. by destruct Hcod as (_ & _ & _ & [_ ?] & _). }
  assert (forall c, V2.normalize_block c = Ok nb ->
    V2.serialize_block c = Ok {| ser_bytes := into_writer v; ser_hash := compute_block_hash (into_writer v) |})
    as Hser by (intros c Hc; unfold V2.serialize_block; by rewrite Hc; cbn [rbind]; rewrite Hv).
  exists {| ser_bytes := into_writer v; ser_hash := compute_block_hash (into_writer v) |}.
  split; [by apply Hser|]. split; [done|].
  unfold V2.deserialize_block, V2.deserialize_block_from_value, decode_single_cbor_value.
  cbn [ser_bytes ser_hash]. rewrite bool_decide_eq_true_2 by done.
  destruct (canonicalize_codec_ok _ _ Hv) as [Ec Ed].
  rewrite from_reader_into_writer by congruence. rewrite N.eqb_refl. cbn [rbind].
  rewrite (v2_parse_canon nb v) by done. cbn [rbind].
  rewrite Hser by by apply v2_normalize_id. cbn [rbind ser_bytes]. by rewrite bool_decide_eq_true_2.
Qed.

(** C5 Serializing a block of either version that normalizes and whose normal form the
    codec can carry, then decoding the bytes against their hash, gives the normal form
    of the block, typed as the version it was built with. *)
Theorem versioned_roundtrip `{CborLaws} `{Sha256} b nb :
  normalize_versioned b = Ok nb -> versioned_encodable nb ->
  exists s, serialize_versioned_block b = Ok s
  /\ deserialize_versioned_block (ser_bytes s) (ser_hash s) = Ok (decoded nb (ser_hash s)).
Proof.
  destruct b as [b|b]; intros Hn He; apply rmap_ok in Hn as (n & Hn & ->); cbn in He.
  - destruct (v1_roundtrip _ _ Hn He) as (s & Hs & _ & Hd & _). exists s. split; [done|]. by apply versioned_v1.
  - destruct (v2_roundtrip _ _ Hn He) as (s & Hs & _ & Hd). exists s. split; [done|]. by apply versioned_v2.
Qed.

(** ** Witnesses *)
Section witnesses.
#[local] Existing Instances reference_codec reference_laws checksum.

Lemma v2_reserved_as_v1_witness :
  exists b n,
  V2.build_branch_block 1 sample_spec [sample_entry 9; sample_entry 5] (Some unsorted_map) = Ok b
  /\ b = v2_of_branch n
  /\ exists t, V2.into_typed_block {| V2.block := b; V2.hash := hash_of_N 0 |} = Ok (V2.TypedBranch t)
     /\ V2.br_entries t = branch_entries n.
Proof.
  destruct (v2_reserved_as_v1 1 sample_spec [sample_entry 9; sample_entry 5] [] (Some unsorted_map)
    (hash_of_N 0) eq_refl eq_refl) as (H1 & H2 & _).
  assert (is_ok (V2.build_branch_block 1 sample_spec [sample_entry 9; sample_entry 5] (Some unsorted_map))
    = true) as Hok by (rewrite H1; vm_compute; reflexivity).
  destruct (V2.build_branch_block _ _ _ _) as [b| |] eqn:Hb; try discriminate Hok.
  destruct (H2 b eq_refl) as (n & Hn & Ht). exists b, n. split; [reflexivity|]. split; [exact Hn|].
  eexists. split; [exact Ht|reflexivity].
Defined.

Lemma versioned_roundtrip_witness :
  exists s, serialize_versioned_block (VersionedV2 sample_v2) = Ok s
  /\ deserialize_versioned_block (ser_bytes s) (ser_hash s)
     = Ok (decoded (VersionedV2 sample_v2_normal) (ser_hash s)).
Proof.
  apply (versioned_roundtrip (VersionedV2 sample_v2) (VersionedV2 sample_v2_normal)).
  - vm_compute. reflexivity.
  - split; [vm_compute; reflexivity|]. apply Nat.leb_le. vm_compute. reflexivity.
Defined.

Lemma versioned_deserialize_sound_witness :
  exists b h d, deserialize_versioned_block b h = Ok d /\ h = compute_block_hash b
  /\ serialize_versioned_block (decoded_block d) = Ok {| ser_bytes := b; ser_hash := h |}.
Proof.
  assert (deserialize_versioned_block (ser_bytes sample_serialized) (ser_hash sample_serialized)
    = Ok (decoded (VersionedV1 sample_block) (ser_hash sample_serialized))) as Hd
    by (vm_compute; reflexivity).
  destruct (versioned_deserialize_sound _ _ _ Hd) as (H1 & _ & _ & H2 & _).
  exact (ex_intro _ _ (ex_intro _ _ (ex_intro _ _ (conj Hd (conj H1 H2))))).
Defined.
End witnesses.
