(* ===== verification/Store.v ===== *)
(** * The block store interface

    crates/lexongraph-block-store/src/lib.rs without its conformance suite: the
    trait [BlockStore] is the class [BlockStore] over the type of the store's
    state, each method a function of the state that returns a result and the new
    state (a read may change it: a cache records the access). A stream of block
    identifiers is the list of its items. What implementations promise to their
    clients is the class [StoreLaws]. *)
From S2P Require Import Prelude Ordering Hash Cbor BlockV1 BlockV2.

(** [BlockStoreError] *)
Inductive BlockStoreError :=
| BackendFailure (message : string)
| DecodeFailure (error : BlockError)
| ContractViolation (error : BlockError).

(** [impl fmt::Display for BlockStoreError] *)
Definition BlockStoreError_to_string (e : BlockStoreError) : string :=
  match e with
  | BackendFailure message => "block store backend failure: " +:+ message
  | DecodeFailure error =>
      "stored block bytes failed shared decode/validation: " +:+ BlockError_to_string error
  | ContractViolation error => "block store contract violation: " +:+ BlockError_to_string error
  end%stdpp.

(** [Error::source] *)
Definition BlockStoreError_source (e : BlockStoreError) : option BlockError :=
  match e with
  | DecodeFailure error | ContractViolation error => Some error
  | BackendFailure _ => None
  end.

(** ** Paths and I/O results, for the stores on a file system *)

(** A component of a path: [to_str] gives its text, unless it is not Unicode. *)
Inductive OsName := Name (s : string) | NotUnicode (raw : N).
#[export] Instance OsName_eq_dec : EqDecision OsName.
Proof. solve_decision. Defined.
Definition path : Type := list OsName.

Inductive ErrorKind := NotFound | OtherKind.
#[export] Instance ErrorKind_eq_dec : EqDecision ErrorKind.
Proof. solve_decision. Defined.
Record io_error := { error_kind : ErrorKind; error_text : string }.
(** [io::Result<A>] *)
Definition io (A : Type) : Type := (io_error + A)%type.

Definition name_display (n : OsName) : string :=
  match n with Name s => s | NotUnicode _ => "?" end.
(** [Path::display] *)
Definition display (p : path) : string := String.concat "/" (map name_display p).

Definition backend_failure (message : string) : BlockStoreError := BackendFailure message.

(** ** Telemetry events

    [BlockStoreTelemetryEvent] and its builder methods *)
Record BlockStoreTelemetryEvent := {
  event_name : string; event_message : option string; event_attributes : gmap string string
}.
Definition event_new (name : string) : BlockStoreTelemetryEvent :=
  {| event_name := name; event_message := None; event_attributes := ∅ |}.
Definition with_message (message : string) (e : BlockStoreTelemetryEvent) : BlockStoreTelemetryEvent :=
  {| event_name := event_name e; event_message := Some message;
     event_attributes := event_attributes e |}.
Definition with_attribute (name value : string) (e : BlockStoreTelemetryEvent) : BlockStoreTelemetryEvent :=
  {| event_name := event_name e; event_message := event_message e;
     event_attributes := <[name := value]> (event_attributes e) |}.

(** A computation over a store's state. *)
Definition store_m (S A : Type) : Type := S -> result BlockStoreError A * S.

Definition sret {S A} (r : result BlockStoreError A) : store_m S A := fun s => (r, s).
Definition sbind {S A B} (m : store_m S A) (k : A -> store_m S B) : store_m S B := fun s =>
  match m s with
  | (Ok a, s') => k a s'
  | (Err e, s') => (Err e, s')
  | (Panic, s') => (Panic, s')
  end.

(** The required methods of the trait. [BlockBytesBatchEntry] is a pair. *)
Class BlockStore (S : Type) := {
  put_block_bytes : BlockHash -> bytes -> store_m S unit;
  put_block_bytes_batch : list (BlockHash * bytes) -> store_m S unit;
  get_block_bytes : BlockHash -> store_m S (option bytes);
  iter_block_ids : S -> result BlockStoreError (list (result BlockStoreError BlockHash))
}.

(** The default body of [put_block_bytes_batch]. *)
Definition default_put_block_bytes_batch {S} (entries : list (BlockHash * bytes)) : store_m S unit :=
  sret (Err (BackendFailure "batch writes are not supported by this block store backend")).

Section provided.
Context {S : Type} `{BlockStore S} `{CborCodec} `{Sha256}.

(** [BlockStore::put], [BlockStore::get] *)
Definition put (block : Block) : store_m S BlockHash :=
  sbind (sret (map_err ContractViolation (serialize_block block))) (fun serialized =>
  sbind (put_block_bytes (ser_hash serialized) (ser_bytes serialized)) (fun _ =>
  sret (Ok (ser_hash serialized)))).

Definition get (block_id : BlockHash) : store_m S (option ValidatedBlock) :=
  sbind (get_block_bytes block_id) (fun o =>
  sret match o with
  | None => Ok None
  | Some b => map_err DecodeFailure (rmap Some (deserialize_block b block_id))
  end).

Definition batch_entry (s : SerializedBlock) : BlockHash * bytes := (ser_hash s, ser_bytes s).

(** [BlockStoreExt::put_blocks] *)
Definition put_blocks (blocks : list Block) : store_m S (list BlockHash) :=
  sbind (sret (collect_map (fun b => map_err ContractViolation (serialize_block b)) blocks))
    (fun serialized =>
  sbind (put_block_bytes_batch (map batch_entry serialized)) (fun _ =>
  sret (Ok (map ser_hash serialized)))).

(** [BlockStoreExt::put_versioned], [BlockStoreExt::put_versioned_blocks] *)
Definition put_versioned (block : VersionedBlock) : store_m S BlockHash :=
  sbind (sret (map_err ContractViolation (serialize_versioned_block block))) (fun serialized =>
  sbind (put_block_bytes (ser_hash serialized) (ser_bytes serialized)) (fun _ =>
  sret (Ok (ser_hash serialized)))).

Definition put_versioned_blocks (blocks : list VersionedBlock) : store_m S (list BlockHash) :=
  sbind (sret (collect_map (fun b => map_err ContractViolation (serialize_versioned_block b)) blocks))
    (fun serialized =>
  sbind (put_block_bytes_batch (map batch_entry serialized)) (fun _ =>
  sret (Ok (map ser_hash serialized)))).

(** [BlockStoreExt::get_decoded] *)
Definition get_decoded (block_id : BlockHash) : store_m S (option DecodedBlock) :=
  sbind (get_block_bytes block_id) (fun o =>
  sret match o with
  | None => Ok None
  | Some b => map_err DecodeFailure (rmap Some (deserialize_versioned_block b block_id))
  end).

(** [BlockStoreExt::list_block_ids]: [try_collect] stops at the first error. *)
Definition list_block_ids (s : S) : result BlockStoreError (list BlockHash) :=
  let? items := iter_block_ids s in collect_map (fun item => item) items.
End provided.

(** ** The contract

    [stored s k b]: the store may answer a read of [k] with [b]. A read answers
    only with stored bytes, an operation stores only what it was given, and
    nothing panics while [store_ok] holds. *)
Class StoreLaws (S : Type) `{BlockStore S} := {
  store_ok : S -> Prop;
  stored : S -> BlockHash -> bytes -> Prop;
  get_law s k r s' :
    store_ok s -> get_block_bytes k s = (r, s') ->
    store_ok s' /\ r <> Panic /\ (forall b, r = Ok (Some b) -> stored s k b)
    /\ (forall j b, stored s' j b -> stored s j b);
  put_law s k b r s' :
    store_ok s -> put_block_bytes k b s = (r, s') ->
    store_ok s' /\ r <> Panic /\ (forall j c, stored s' j c -> stored s j c \/ (j = k /\ c = b))
}.

(** A store that reads back what was just written. *)
Class ReadsOwnWrites (S : Type) `{StoreLaws S} :=
  put_then_get s k b s' :
    store_ok s -> put_block_bytes k b s = (Ok tt, s') ->
    store_ok s' /\ exists s'', get_block_bytes k s' = (Ok (Some b), s'').

(** A store that keeps what it was given: [holds s k b] once [k] was written with
    [b], and a read of [k] then answers [b] or fails. *)
Class DurableStore (S : Type) `{BlockStore S} := {
  durable_ok : S -> Prop;
  holds : S -> BlockHash -> bytes -> Prop;
  durable_put s k b r s' :
    durable_ok s -> put_block_bytes k b s = (r, s') ->
    durable_ok s' /\ r <> Panic /\ (forall j c, holds s j c -> holds s' j c) /\ (r = Ok tt -> holds s' k b);
  durable_read s k b r s' :
    durable_ok s -> holds s k b -> get_block_bytes k s = (r, s') -> r = Ok (Some b) \/ exists e, r = Err e
}.
