(* ===== verification/StoreCorrect.v ===== *)
(** * The provided methods of a block store: the properties

    Theorems about [put], [get] and the versioned and batch variants, proved for
    every implementation of the class [BlockStore]: what a read returns is
    validated against the identifier whatever the backend answers; what is
    written reads back as its normal form through any store that reads its own
    writes; a batch with an invalid block writes nothing. *)
From S2P Require Import Prelude Ordering Hash Cbor Fields Ieee Ebcp EbcpPayload EbcpCorrect.
From S2P Require Import BlockV1 BlockV1Correct BlockV2 BlockV2Correct Store.

Section client.
Context {S : Type} `{BlockStore S} `{CborCodec} `{Sha256}.

Lemma map_err_ok {E F A} (f : E -> F) (m : result E A) a : map_err f m = Ok a <-> m = Ok a.
Proof. destruct m; cbn; naive_solver. Qed.

Lemma sbind_ok {A B} (m : store_m S A) (k : A -> store_m S B) s b s' :
  sbind m k s = (Ok b, s') <-> exists a s1, m s = (Ok a, s1) /\ k a s1 = (Ok b, s').
Proof. unfold sbind. destruct (m s) as [[a| |] s1]; naive_solver. Qed.

Lemma get_ok id s v s' :
  get id s = (Ok (Some v), s') ->
  exists b, get_block_bytes id s = (Ok (Some b), s') /\ deserialize_block b id = Ok v.
Proof.
  unfold get. intros (o & s1 & Hg & Hk)%sbind_ok. destruct o as [b|]; unfold sret in Hk; [|done].
  injection Hk as Hk <-. apply map_err_ok, rmap_ok in Hk as (w & Hw & [= ->]). eauto.
Qed.

Lemma get_decoded_ok id s d s' :
  get_decoded id s = (Ok (Some d), s') ->
  exists b, get_block_bytes id s = (Ok (Some b), s') /\ deserialize_versioned_block b id = Ok d.
Proof.
  unfold get_decoded. intros (o & s1 & Hg & Hk)%sbind_ok. destruct o as [b|]; unfold sret in Hk; [|done].
  injection Hk as Hk <-. apply map_err_ok, rmap_ok in Hk as (w & Hw & [= ->]). eauto.
Qed.

Lemma put_ok blk s h s' :
  put blk s = (Ok h, s') <->
  exists ser, serialize_block blk = Ok ser /\ h = ser_hash ser
  /\ put_block_bytes (ser_hash ser) (ser_bytes ser) s = (Ok tt, s').
Proof.
  unfold put. rewrite sbind_ok. unfold sret at 1. split.
  - intros (ser & s1 & [= Hs <-] & ([] & s2 & Hp & Hr)%sbind_ok). injection Hr as <- <-.
    apply map_err_ok in Hs. eauto.
  - intros (ser & Hs & -> & Hp). exists ser, s. rewrite Hs. split; [done|]. apply sbind_ok. eauto.
Qed.

Lemma put_versioned_ok blk s h s' :
  put_versioned blk s = (Ok h, s') <->
  exists ser, serialize_versioned_block blk = Ok ser /\ h = ser_hash ser
  /\ put_block_bytes (ser_hash ser) (ser_bytes ser) s = (Ok tt, s').
Proof.
  unfold put_versioned. rewrite sbind_ok. unfold sret at 1. split.
  - intros (ser & s1 & [= Hs <-] & ([] & s2 & Hp & Hr)%sbind_ok). injection Hr as <- <-.
    apply map_err_ok in Hs. eauto.
  - intros (ser & Hs & -> & Hp). exists ser, s. rewrite Hs. split; [done|]. apply sbind_ok. eauto.
Qed.

(** C29 What get and get_decoded return from any backend is validated: the bytes hash to
    the identifier asked for and are the canonical encoding of the block returned;
    stored bytes with another hash are a decode failure and never a block. *)
Theorem read_is_validated id s :
  (forall v s', get id s = (Ok (Some v), s') ->
     val_hash v = id /\ normal (val_block v)
     /\ exists b, id = compute_block_hash b /\ get_block_bytes id s = (Ok (Some b), s')
        /\ serialize_block (val_block v) = Ok {| ser_bytes := b; ser_hash := id |})
  /\ (forall d s', get_decoded id s = (Ok (Some d), s') ->
     d = decoded (decoded_block d) id
     /\ exists b, id = compute_block_hash b /\ get_block_bytes id s = (Ok (Some b), s')
        /\ serialize_versioned_block (decoded_block d) = Ok {| ser_bytes := b; ser_hash := id |})
  /\ (forall b s', get_block_bytes id s = (Ok (Some b), s') -> compute_block_hash b <> id ->
     get id s = (Err (DecodeFailure (HashMismatch id (compute_block_hash b))), s')).
Proof.
  split; [|split].
  - intros v s' (b & Hg & Hd)%get_ok.
    destruct (deserialize_block_inv _ _ _ Hd) as (Hh & Hv & Hn & _ & Hs). eauto 10.
  - intros d s' (b & Hg & Hd)%get_decoded_ok.
    destruct (versioned_decoded _ _ _ Hd) as (Hh & Hdec & _ & Hs). eauto 10.
  - intros b s' Hg Hne. unfold get, sbind, sret. rewrite Hg. unfold deserialize_block.
    by rewrite bool_decide_eq_false_2.
Qed.

(** A batch with a block that does not serialize fails with the error of such a
    block before the backend is asked to write anything. *)
Theorem invalid_batch_writes_nothing blocks s :
  (exists b e, b ∈ blocks /\ serialize_block b = Err e) ->
  exists e, put_blocks blocks s = (Err (ContractViolation e), s)
  /\ exists b, b ∈ blocks /\ serialize_block b = Err e.
Proof.
  intros Hex.
  assert (exists e, collect_map (fun b => map_err ContractViolation (serialize_block b)) blocks
      = Err (ContractViolation e) /\ exists b, b ∈ blocks /\ serialize_block b = Err e) as (e & Hc & Hb).
  { induction blocks as [|c blocks IH]; [destruct Hex as (b & e & Hin & _); set_solver|]. cbn.
    destruct (serialize_block c) as [ser|e|] eqn:Ec; cbn.
    - destruct Hex as (b & e & [->|Hin]%elem_of_cons & Hbe); [congruence|].
      destruct IH as (e' & -> & b' & ? & ?); [eauto|]. exists e'. split; [done|]. exists b'. set_solver.
    - exists e. split; [done|]. exists c. set_solver.
    - exfalso. by apply (serialize_block_no_panic c). }
  exists e. split; [|done]. unfold put_blocks, sbind, sret. by rewrite Hc.
Qed.
End client.

(** On a store that reads its own writes, a block of either version that was put
    reads back under the returned hash as its normal form, and a version 1 block also
    through get. *)
Theorem put_then_read {T : Type} `{ReadsOwnWrites T} `{CborLaws} `{Sha256} blk nb s h s' :
  store_ok s -> put_versioned blk s = (Ok h, s') ->
  normalize_versioned blk = Ok nb -> versioned_encodable nb ->
  exists s'', get_decoded h s' = (Ok (Some (decoded nb h)), s'')
  /\ forall v, decoded nb h = DecodedV1 v -> get h s' = (Ok (Some v), s'').
Proof.
  intros Hok (ser & Hser & -> & Hput)%put_versioned_ok Hn He.
  assert (deserialize_versioned_block (ser_bytes ser) (ser_hash ser) = Ok (decoded nb (ser_hash ser))) as Hd.
  { destruct blk as [b|b]; apply rmap_ok in Hn as (n & Hn & ->); cbn in He, Hser.
    - destruct (v1_roundtrip _ _ Hn He) as (s2 & Hs & _ & Hd & _). rewrite Hser in Hs. injection Hs as <-.
      by apply versioned_v1.
    - destruct (v2_roundtrip _ _ Hn He) as (s2 & Hs & _ & Hd). rewrite Hser in Hs. injection Hs as <-.
      by apply versioned_v2. }
  destruct (put_then_get _ _ _ _ Hok Hput) as (_ & s'' & Hg). exists s''. split.
  - unfold get_decoded, sbind, sret. rewrite Hg, Hd. done.
  - intros v Hv. rewrite Hv in Hd. apply versioned_v1 in Hd.
    unfold get, sbind, sret. rewrite Hg, Hd. done.
Qed.
