(* ===== verification/MemoryStore.v ===== *)
(** * The in-memory store

    crates/lexongraph-block-store-memory/src/lib.rs: a bounded cache of block
    bytes that evicts the least recently used entry. The lock around the state
    makes each of [insert_block_bytes], the lookup and the refresh one step; a
    read is the lookup followed by the refresh, as two steps. The order in which a
    Rust [HashMap] enumerates its entries is unspecified: it is the class
    [HashMapOrder]. *)
From S2P Require Import Prelude Ordering Hash Cbor BlockV1 BlockV2 Store.

(** [MemoryBlockStoreCapacity] and the private [Capacity], which it mirrors. *)
Inductive Capacity := ResidentBlocks (limit : N) | ResidentBytes (limit : N).

Record ResidentEntry := { entry_bytes : bytes; recency : N }.

Record State := {
  capacity : Capacity; resident_bytes : N; next_recency : N;
  entries : gmap BlockHash ResidentEntry
}.

Definition BYTES_PER_MB : N := 1048576.

(** [MemoryBlockStoreBuildError] *)
Inductive MemoryBlockStoreBuildError := ZeroCapacity | CapacityOverflow.

Definition MemoryBlockStoreBuildError_to_string (e : MemoryBlockStoreBuildError) : string :=
  match e with
  | ZeroCapacity => "memory block store capacity must be at least 1"
  | CapacityOverflow => "memory block store capacity overflowed when converting MB to bytes"
  end.

(** [Capacity::limit], [Capacity::allows_insert] *)
Definition capacity_limit (c : Capacity) : N :=
  match c with ResidentBlocks limit | ResidentBytes limit => limit end.

Definition allows_insert (c : Capacity) (resident_len resident_bytes new_len : N)
  (replacing_existing : bool) : bool :=
  match c with
  | ResidentBlocks limit => replacing_existing || (resident_len <? limit)%N
  | ResidentBytes limit => (saturating_add USIZE_MAX resident_bytes new_len <=? limit)%N
  end.

(** [MemoryBlockStore::new_with_capacity], [new], [new_cache_mb] *)
Definition new_with_capacity (c : Capacity) : result MemoryBlockStoreBuildError State :=
  guard? negb (capacity_limit c =? 0)%N else ZeroCapacity in
  Ok {| capacity := c; resident_bytes := 0; next_recency := 0; entries := ∅ |}.

Definition memory_new (max_resident_blocks : N) : result MemoryBlockStoreBuildError State :=
  new_with_capacity (ResidentBlocks max_resident_blocks).

Definition new_cache_mb (max_resident_mb : N) : result MemoryBlockStoreBuildError State :=
  let? max_resident_bytes := ok_or (checked_mul USIZE_MAX max_resident_mb BYTES_PER_MB) CapacityOverflow in
  new_with_capacity (ResidentBytes max_resident_bytes).

(** [max_resident_blocks] *)
Definition max_resident_blocks (s : State) : N :=
  match capacity s with ResidentBlocks limit => limit | ResidentBytes _ => 0%N end.

(** [State::next_recency]: the old counter and the state with the next one. *)
Definition take_recency (s : State) : N * State :=
  (next_recency s,
   {| capacity := capacity s; resident_bytes := resident_bytes s;
      next_recency := wrapping_add_u64 (next_recency s) 1; entries := entries s |}).

Definition set_entries (s : State) (m : gmap BlockHash ResidentEntry) (resident : N) : State :=
  {| capacity := capacity s; resident_bytes := resident; next_recency := next_recency s; entries := m |}.

(** The order a hash map lists its entries in. *)
Class HashMapOrder := {
  map_iter : gmap BlockHash ResidentEntry -> list (BlockHash * ResidentEntry);
  map_iter_perm m : map_iter m ≡ₚ map_to_list m
}.

Definition old_len_of (s : State) (block_id : BlockHash) : N :=
  match entries s !! block_id with Some e => len (entry_bytes e) | None => 0%N end.

Definition insert_error (new_len limit : N) : string :=
  ("block payload of " +:+ pretty new_len +:+ " bytes exceeds cache capacity of "
   +:+ pretty limit +:+ " bytes")%stdpp.

Section memory.
Context `{HashMapOrder}.

(** [State::evict_lru_excluding]; [expect] and [unwrap] panic. *)
Definition evict_lru_excluding (excluded : option BlockHash) (s : State) : result string State :=
  let candidates := List.filter (fun e => negb (bool_decide (Some e.1 = excluded))) (map_iter (entries s)) in
  let? lru := expect (min_by (fun e => recency e.2) candidates) in
  let? removed := expect (entries s !! lru.1) in
  Ok (set_entries s (delete lru.1 (entries s))
        (saturating_sub (resident_bytes s) (len (entry_bytes removed)))).

(** The [while] loop of [insert_or_refresh]; it runs at most once per entry. *)
Fixpoint evict_loop (fuel : nat) (block_id : BlockHash) (old_len new_len : N)
  (replacing_existing : bool) (s : State) : result string State :=
  if allows_insert (capacity s) (N.of_nat (size (entries s)))
       (saturating_sub (resident_bytes s) old_len) new_len replacing_existing
  then Ok s
  else match fuel with
  | O => Panic
  | S fuel' =>
      let? s' := evict_lru_excluding (Some block_id) s in
      evict_loop fuel' block_id old_len new_len replacing_existing s'
  end.

(** [State::insert_or_refresh]. Its refusal leaves the state as it was. *)
Definition too_large (c : Capacity) (new_len : N) : bool :=
  match c with ResidentBytes limit => (limit <? new_len)%N | ResidentBlocks _ => false end.

Definition insert_or_refresh (block_id : BlockHash) (b : bytes) (s : State)
  : result string State :=
  let new_len := len b in
  guard? negb (too_large (capacity s) new_len)
    else insert_error new_len (capacity_limit (capacity s)) in
  let '(recency, s1) := take_recency s in
  let replacing_existing := bool_decide (is_Some (entries s1 !! block_id)) in
  let old_len := old_len_of s1 block_id in
  let? s2 := evict_loop (size (entries s1)) block_id old_len new_len replacing_existing s1 in
  Ok (set_entries s2 (<[block_id := {| entry_bytes := b; recency := recency |}]> (entries s2))
        (saturating_add USIZE_MAX (saturating_sub (resident_bytes s2) old_len) new_len)).

(** [State::refresh] *)
Definition refresh (block_id : BlockHash) (s : State) : State :=
  let '(recency, s1) := take_recency s in
  match entries s1 !! block_id with
  | None => s1
  | Some entry =>
      set_entries s1 (<[block_id := {| entry_bytes := entry_bytes entry; recency := recency |}]> (entries s1))
        (resident_bytes s1)
  end.

(** The [BlockStore] methods. *)
Definition memory_put_block_bytes (block_id : BlockHash) (b : bytes) : store_m State unit := fun s =>
  match insert_or_refresh block_id b s with
  | Ok s' => (Ok tt, s')
  | Err message => (Err (BackendFailure message), s)
  | Panic => (Panic, s)
  end.

Definition memory_lookup (block_id : BlockHash) (s : State) : option bytes :=
  entry_bytes <$> entries s !! block_id.

Definition memory_get_block_bytes (block_id : BlockHash) : store_m State (option bytes) := fun s =>
  match memory_lookup block_id s with
  | None => (Ok None, s)
  | Some b => (Ok (Some b), refresh block_id s)
  end.

Definition memory_iter_block_ids (s : State) : result BlockStoreError (list (result BlockStoreError BlockHash)) :=
  Ok (map (fun e => Ok e.1) (map_iter (entries s))).

#[export] Instance memory_store : BlockStore State := {|
  put_block_bytes := memory_put_block_bytes;
  put_block_bytes_batch := default_put_block_bytes_batch;
  get_block_bytes := memory_get_block_bytes;
  iter_block_ids := memory_iter_block_ids
|}.
End memory.

(** The steps of any number of threads that share one store. *)
Inductive atomic_step := SInsert (block_id : BlockHash) (b : bytes) | SRefresh (block_id : BlockHash).

Definition atomic_run `{HashMapOrder} (step : atomic_step) (s : State) : State :=
  match step with
  | SInsert block_id b => (memory_put_block_bytes block_id b s).2
  | SRefresh block_id => refresh block_id s
  end.

(** ** Specification *)

(** The bytes the entries hold. *)
Definition total_bytes (l : list bytes) : N := foldr (fun b n => (len b + n)%N) 0%N l.
Definition resident_total (s : State) : N :=
  total_bytes (map (fun e => entry_bytes e.2) (map_to_list (entries s))).

(** The invariant of the store: the limit is positive and respected, and a byte
    budget is accounted for exactly. *)
Definition mem_inv (s : State) : Prop :=
  match capacity s with
  | ResidentBlocks limit => (0 < limit)%N /\ (N.of_nat (size (entries s)) <= limit)%N
  | ResidentBytes limit =>
      (0 < limit < USIZE_MAX)%N /\ resident_bytes s = resident_total s
      /\ (resident_total s <= limit)%N
  end.

(** A list of the entries from the most to the least recently used one. *)
Definition lru_view (s : State) (el : list (BlockHash * ResidentEntry)) : Prop :=
  NoDup el.*1 /\ entries s = list_to_map el
  /\ StronglySorted (fun e f => recency f.2 < recency e.2)%N el
  /\ Forall (fun e => recency e.2 < next_recency s)%N el.

(** An LRU cache as a list, most recently used first: inserting drops the
    entries from the end that no longer fit and puts the new one in front. *)
Fixpoint keep_fitting (budget : N) (l : list (BlockHash * bytes)) : list (BlockHash * bytes) :=
  match l with
  | [] => []
  | e :: l' => if (len e.2 <=? budget)%N then e :: keep_fitting (budget - len e.2) l' else []
  end.

Definition without (block_id : BlockHash) {A} (l : list (BlockHash * A)) : list (BlockHash * A) :=
  List.filter (fun e => negb (bool_decide (e.1 = block_id))) l.

Definition lru_insert (c : Capacity) (block_id : BlockHash) (b : bytes) (l : list (BlockHash * bytes))
  : list (BlockHash * bytes) :=
  let rest := without block_id l in
  (block_id, b) ::
  match c with
  | ResidentBlocks limit =>
      if existsb (fun e => bool_decide (e.1 = block_id)) l then rest
      else take (N.to_nat limit - 1) rest
  | ResidentBytes limit => keep_fitting (limit - len b) rest
  end.

Definition lru_touch (block_id : BlockHash) (l : list (BlockHash * bytes)) : list (BlockHash * bytes) :=
  match List.find (fun e => bool_decide (e.1 = block_id)) l with
  | Some e => e :: without block_id l
  | None => l
  end.

Definition lru_list (el : list (BlockHash * ResidentEntry)) : list (BlockHash * bytes) :=
  map (fun e => (e.1, entry_bytes e.2)) el.
