(* ===== verification/MemoryCorrect.v ===== *)
(** * The in-memory store: the properties

    The eviction loop ends without a panic, the capacity is respected and the
    resident bytes are counted exactly, for any interleaving of the steps of
    concurrent callers; the store behaves as an LRU list; it satisfies the store
    contract. *)
From S2P Require Import Prelude Ordering Hash Cbor BlockV1 BlockV1Correct BlockV2 BlockV2Correct.
From S2P Require Import Store StoreCorrect MemoryStore CborRef.

(** What the eviction loop is entered with. *)
Definition loop_pre (s : State) (new_len : N) : Prop :=
  match capacity s with
  | ResidentBlocks limit => (0 < limit)%N
  | ResidentBytes limit =>
      (limit < USIZE_MAX)%N /\ resident_bytes s = resident_total s /\ (new_len <= limit)%N
  end.

(** A hash map that lists its entries in the order of the finite map, and a store
    of two blocks with both slots taken. *)
Definition sample_order : HashMapOrder :=
  {| map_iter := map_to_list; map_iter_perm m := Permutation_refl _ |}.

Definition sample_store : State :=
  {| capacity := ResidentBlocks 2; resident_bytes := 3; next_recency := 2;
     entries := list_to_map [(hash_of_N 1, {| entry_bytes := [Byte.x00]; recency := 1 |});
                             (hash_of_N 2, {| entry_bytes := [Byte.x01; Byte.x02]; recency := 0 |})] |}.

(** ** Sums and minima *)
Lemma total_bytes_perm l k : l ≡ₚ k -> total_bytes l = total_bytes k.
Proof. unfold total_bytes. induction 1; cbn [foldr] in *; lia. Qed.

Definition map_total (m : gmap BlockHash ResidentEntry) : N :=
  total_bytes (map (fun e => entry_bytes e.2) (map_to_list m)).

Lemma map_total_delete m k e :
  m !! k = Some e -> map_total m = (len (entry_bytes e) + map_total (delete k m))%N.
Proof.
  intros Hk. unfold map_total.
  rewrite (total_bytes_perm _ (map (fun e => entry_bytes e.2) ((k, e) :: map_to_list (delete k m)))).
  - done.
  - apply Permutation_map. symmetry. by apply map_to_list_delete.
Qed.

Lemma map_total_insert m k e :
  map_total (<[k := e]> m) = (len (entry_bytes e) + map_total (delete k m))%N.
Proof. rewrite (map_total_delete _ k e) by apply lookup_insert_eq. by rewrite delete_insert_eq. Qed.

Lemma map_total_old s id :
  map_total (entries s) = (old_len_of s id + map_total (delete id (entries s)))%N.
Proof.
  unfold old_len_of. destruct (entries s !! id) as [e|] eqn:E; [by apply map_total_delete|].
  by rewrite delete_id.
Qed.

Lemma map_total_empty m : map_total m <> 0%N -> m <> ∅.
Proof. intros Hne ->. apply Hne. unfold map_total. by rewrite map_to_list_empty. Qed.

Section eviction.
Context `{HashMapOrder}.

Definition others (id : BlockHash) (m : gmap BlockHash ResidentEntry) : list (BlockHash * ResidentEntry) :=
  List.filter (fun e => negb (bool_decide (Some e.1 = Some id))) (map_iter m).

Lemma elem_of_others id m k e : (k, e) ∈ others id m <-> m !! k = Some e /\ k <> id.
Proof.
  unfold others. rewrite list_elem_of_In, filter_In, <-list_elem_of_In, map_iter_perm.
  rewrite elem_of_map_to_list. cbn. rewrite negb_true_iff, bool_decide_eq_false. naive_solver.
Qed.

(** One eviction removes an entry other than the excluded one, with the smallest
    recency among those, if there is one. *)
Lemma evict_ok id s :
  delete id (entries s) <> ∅ ->
  exists k e, k <> id /\ entries s !! k = Some e
  /\ (forall j f, entries s !! j = Some f -> j <> id -> (recency e <= recency f)%N)
  /\ evict_lru_excluding (Some id) s
     = Ok (set_entries s (delete k (entries s)) (saturating_sub (resident_bytes s) (len (entry_bytes e)))).
Proof.
  intros Hne. unfold evict_lru_excluding. fold (others id (entries s)).
  pose proof (min_by_spec (fun e => recency e.2) (others id (entries s))) as Hmin.
  destruct (min_by _ _) as [[k e]|]; cbn [expect rbind].
  - destruct Hmin as [Hin Hmin]. apply elem_of_others in Hin as [Hk Hki]. exists k, e.
    split_and!; [done|done| |cbn; by rewrite Hk].
    intros j f Hj Hji. apply (Hmin (j, f)). by apply elem_of_others.
  - exfalso. apply Hne. apply map_eq. intros j. rewrite lookup_empty.
    destruct (delete id (entries s) !! j) as [f|] eqn:E; [|done].
    apply lookup_delete_Some in E as [Hji Hj].
    assert ((j, f) ∈ others id (entries s)) as Hin by by apply elem_of_others.
    rewrite Hmin in Hin. set_solver.
Qed.

Lemma old_len_of_delete s k id n :
  k <> id -> old_len_of (set_entries s (delete k (entries s)) n) id = old_len_of s id.
Proof. intros Hne. unfold old_len_of. cbn. by rewrite lookup_delete_ne. Qed.

(** Something else is resident whenever the new block does not fit. *)
Lemma not_allowed_others s id new_len :
  loop_pre s new_len ->
  allows_insert (capacity s) (N.of_nat (size (entries s)))
    (saturating_sub (resident_bytes s) (old_len_of s id)) new_len
    (bool_decide (is_Some (entries s !! id))) = false ->
  delete id (entries s) <> ∅.
Proof.
  unfold loop_pre, allows_insert, saturating_sub, saturating_add. destruct (capacity s) as [limit|limit].
  - intros Hl [Hrep Hsz]%orb_false_iff. apply bool_decide_eq_false in Hrep.
    apply eq_None_not_Some in Hrep. rewrite delete_id by done.
    intros E. rewrite E, map_size_empty in Hsz. apply N.ltb_ge in Hsz. lia.
  - intros (Hmax & Hres & Hnew) Hle. apply N.leb_gt in Hle. apply map_total_empty.
    pose proof (map_total_old s id) as Ht. unfold resident_total in Hres.
    fold (map_total (entries s)) in Hres. lia.
Qed.

Lemma evict_loop_ok fuel s id new_len :
  (size (delete id (entries s)) <= fuel)%nat -> loop_pre s new_len ->
  exists s', evict_loop fuel id (old_len_of s id) new_len (bool_decide (is_Some (entries s !! id))) s = Ok s'
  /\ capacity s' = capacity s /\ next_recency s' = next_recency s
  /\ entries s' ⊆ entries s /\ entries s' !! id = entries s !! id
  /\ allows_insert (capacity s') (N.of_nat (size (entries s')))
       (saturating_sub (resident_bytes s') (old_len_of s id)) new_len
       (bool_decide (is_Some (entries s !! id))) = true
  /\ loop_pre s' new_len.
Proof.
  revert s. induction fuel as [|fuel IH]; intros s Hf Hpre; cbn [evict_loop].
  - destruct (allows_insert _ _ _ _ _) eqn:E.
    + exists s. split_and!; done.
    + exfalso. apply (not_allowed_others _ _ _ Hpre E). apply map_size_empty_inv. lia.
  - destruct (allows_insert _ _ _ _ _) eqn:E.
    + exists s. split_and!; done.
    + pose proof (not_allowed_others _ _ _ Hpre E) as Hne.
      destruct (evict_ok id s Hne) as (k & e & Hk & He & _ & ->). cbn [rbind].
      set (s1 := set_entries _ _ _).
      assert (entries s1 = delete k (entries s)) as E1 by done.
      assert (old_len_of s1 id = old_len_of s id) as Eo by by apply old_len_of_delete.
      assert (entries s1 !! id = entries s !! id) as Ei by (rewrite E1; by apply lookup_delete_ne).
      destruct (IH s1) as (s' & Hs' & Hc & Hr & Hsub & Hid & Hal & Hpre').
      * rewrite E1, delete_delete.
        assert (delete id (entries s) !! k = Some e) as Hdk by (by rewrite lookup_delete_ne).
        pose proof (map_size_delete_Some k (delete id (entries s)) ltac:(eauto)). lia.
      * revert Hpre. unfold loop_pre. cbn [s1 set_entries capacity resident_bytes]. destruct (capacity s); [done|].
        intros (? & Hres & ?). split_and!; [done| |done]. unfold saturating_sub, resident_total in *. rewrite Hres.
        fold (map_total (entries s)) (map_total (entries s1)). rewrite E1, (map_total_delete _ _ _ He). lia.
      * rewrite Eo, Ei in Hs', Hal. exists s'. split_and!; try done.
        -- etrans; [exact Hsub|]. rewrite E1. apply delete_subseteq.
        -- by rewrite Hid.
Qed.

Lemma fuel_enough s id : (size (delete id (entries s)) <= size (entries s))%nat.
Proof. apply map_subseteq_size, delete_subseteq. Qed.

(** An insertion is refused exactly when the block alone exceeds a byte budget,
    and never panics. *)
Lemma insert_ok s id b :
  mem_inv s ->
  if too_large (capacity s) (len b) then
    insert_or_refresh id b s = Err (insert_error (len b) (capacity_limit (capacity s)))
  else exists s', insert_or_refresh id b s = Ok s' /\ mem_inv s' /\ capacity s' = capacity s
    /\ next_recency s' = wrapping_add_u64 (next_recency s) 1
    /\ entries s' !! id = Some {| entry_bytes := b; recency := next_recency s |}
    /\ delete id (entries s') ⊆ entries s.
Proof.
  intros Hinv. unfold insert_or_refresh. destruct (too_large _ _) eqn:Etl; [done|]. cbn [negb].
  unfold take_recency. set (s1 := {| capacity := _ |}).
  assert (loop_pre s1 (len b)) as Hpre.
  { revert Hinv Etl. unfold mem_inv, loop_pre, too_large. cbn. destruct (capacity s); [by intros []|].
    intros (? & Hres & _) Hl%N.ltb_ge. split_and!; [lia|done|done]. }
  destruct (evict_loop_ok (size (entries s1)) s1 id (len b) (fuel_enough s1 id) Hpre)
    as (s2 & -> & Hc & Hr & Hsub & Hid & Hal & Hpre2).
  cbn [rbind]. eexists. split; [reflexivity|]. split_and!.
  - unfold mem_inv. cbn [set_entries capacity resident_bytes entries]. cbn [entries s1 capacity] in Hid, Hc, Hal.
    unfold loop_pre in Hpre2. rewrite Hc in *. revert Hal Hinv Hpre2. unfold mem_inv.
    destruct (capacity s) as [limit|limit]; cbn [allows_insert].
    + intros Hal [Hpos Hsz] _. split; [done|]. apply orb_true_iff in Hal as [Hrep|Hlt].
      * apply bool_decide_eq_true in Hrep. rewrite <-Hid in Hrep. destruct Hrep as [e He].
        rewrite map_size_insert_Some by (by eauto).
        pose proof (map_subseteq_size _ _ Hsub). cbn [entries s1] in *. lia.
      * apply N.ltb_lt in Hlt. rewrite map_size_insert. destruct (entries s2 !! id); unfold Datatypes.id; lia.
    + intros Hal (Hpos & _ & _) (_ & Hres & Hnew). apply N.leb_le in Hal.
      assert (old_len_of s1 id = old_len_of s2 id) as Eo by (unfold old_len_of; by rewrite Hid).
      unfold resident_total in *. cbn [set_entries entries].
      fold (map_total (entries s2)) in Hres.
      fold (map_total (<[id := {| entry_bytes := b; recency := next_recency s |}]> (entries s2))).
      rewrite map_total_insert. cbn [entry_bytes].
      pose proof (map_total_old s2 id) as Ht. unfold saturating_add, saturating_sub in *. lia.
  - done.
  - done.
  - cbn. apply lookup_insert_eq.
  - cbn [set_entries entries]. rewrite delete_insert_eq. etrans; [apply delete_subseteq|exact Hsub].
Qed.
End eviction.

(** ** Invariants *)
Section invariants.
Context `{HashMapOrder}.

Lemma refresh_ok id s :
  mem_inv s ->
  mem_inv (refresh id s) /\ capacity (refresh id s) = capacity s
  /\ forall k, memory_lookup k (refresh id s) = memory_lookup k s.
Proof.
  intros Hinv. unfold refresh, take_recency. cbn [entries].
  destruct (entries s !! id) as [e|] eqn:E; [|done]. split; [|split; [done|]].
  - revert Hinv. unfold mem_inv, resident_total. cbn [set_entries capacity resident_bytes entries].
    rewrite map_size_insert_Some by (by eauto).
    fold (map_total (entries s)). set (m := <[id := _]> (entries s)). fold (map_total m).
    unfold m. rewrite map_total_insert. cbn [entry_bytes]. by rewrite <-map_total_delete.
  - intros k. unfold memory_lookup. cbn [set_entries entries].
    destruct (decide (k = id)) as [->|Hne]; [by rewrite lookup_insert_eq, E|by rewrite lookup_insert_ne].
Qed.

Lemma put_inv id b s :
  mem_inv s -> mem_inv (memory_put_block_bytes id b s).2
  /\ (memory_put_block_bytes id b s).1 <> Panic
  /\ capacity (memory_put_block_bytes id b s).2 = capacity s.
Proof.
  intros Hinv. pose proof (insert_ok s id b Hinv) as Hok. unfold memory_put_block_bytes.
  destruct (too_large _ _); [by rewrite Hok|]. destruct Hok as (s' & -> & ? & ? & _). done.
Qed.

Lemma steps_inv steps s :
  mem_inv s -> mem_inv (foldr atomic_run s steps)
  /\ capacity (foldr atomic_run s steps) = capacity s.
Proof.
  intros Hinv. induction steps as [|step steps [IH1 IH2]]; [done|]. cbn [foldr].
  destruct step as [id b|id]; cbn [atomic_run].
  - destruct (put_inv id b _ IH1) as (? & _ & ->). done.
  - destruct (refresh_ok id _ IH1) as (? & -> & _). done.
Qed.

Lemma new_inv c s : (capacity_limit c < USIZE_MAX)%N -> new_with_capacity c = Ok s -> mem_inv s /\ capacity s = c.
Proof.
  unfold new_with_capacity. intros Hl Hn. inv_ok. subst s. apply negb_true_iff, N.eqb_neq in Hb.
  split; [|done]. unfold mem_inv, resident_total. cbn [capacity resident_bytes entries].
  rewrite map_to_list_empty, map_size_empty. destruct c; cbn in *; lia.
Qed.

Lemma new_cache_limit n m :
  checked_mul USIZE_MAX n BYTES_PER_MB = Some m -> (m < USIZE_MAX)%N.
Proof.
  unfold checked_mul. destruct (N.leb_spec (n * BYTES_PER_MB) USIZE_MAX) as [Hle|]; [|done].
  intros [= <-]. assert (n * BYTES_PER_MB <> USIZE_MAX)%N as Hne; [|lia].
  intros E. assert ((n * BYTES_PER_MB) mod 2 = USIZE_MAX mod 2)%N as Em by by rewrite E.
  unfold BYTES_PER_MB in Em. rewrite (N.mul_comm n) in Em.
  replace (1048576 * n)%N with (524288 * n * 2)%N in Em by lia. rewrite N.Div0.mod_mul in Em. done.
Qed.
End invariants.

(** ** Lists of entries *)
Section views.
Context `{HashMapOrder}.
Implicit Types (el : list (BlockHash * ResidentEntry)) (id : BlockHash).

Lemma elem_of_without {A} id (l : list (BlockHash * A)) e : e ∈ without id l <-> e ∈ l /\ e.1 <> id.
Proof.
  unfold without. rewrite !list_elem_of_In, filter_In, negb_true_iff, bool_decide_eq_false. done.
Qed.

Lemma without_id {A} id (l : list (BlockHash * A)) : id ∉ l.*1 -> without id l = l.
Proof.
  unfold without. induction l as [|[k v] l IH]; [done|]. cbn [fmap list_fmap fst List.filter].
  intros Hn%not_elem_of_cons. destruct Hn as [Hne Hn].
  rewrite bool_decide_eq_false_2 by done. cbn. f_equal. by apply IH.
Qed.

Lemma without_keys {A} id (l : list (BlockHash * A)) k : k ∈ (without id l).*1 <-> k ∈ l.*1 /\ k <> id.
Proof.
  rewrite !list_elem_of_fmap. setoid_rewrite elem_of_without. naive_solver.
Qed.

Lemma without_NoDup {A} id (l : list (BlockHash * A)) : NoDup l.*1 -> NoDup (without id l).*1.
Proof.
  unfold without. induction l as [|[k v] l IH]; [done|]. cbn [fmap list_fmap fst List.filter].
  intros [Hn HN]%NoDup_cons. destruct (bool_decide _); cbn; [by apply IH|].
  constructor; [|by apply IH]. intros Hin. apply Hn. by apply (without_keys id l k).
Qed.

Lemma without_sorted {A} (R : BlockHash * A -> BlockHash * A -> Prop) id l :
  StronglySorted R l -> StronglySorted R (without id l).
Proof.
  induction 1 as [|x l Hl IH Hx]; cbn; [constructor|]. destruct (bool_decide _); cbn; [done|].
  constructor; [done|]. rewrite Forall_forall in *. intros y Hy. apply Hx. by apply (elem_of_without id).
Qed.

Lemma without_map id el : lru_list (without id el) = without id (lru_list el).
Proof.
  unfold lru_list, without. induction el as [|[k v] el IH]; [done|]. cbn.
  destruct (bool_decide _); cbn; [done|]. by f_equal.
Qed.

Lemma without_comm {A} id k (l : list (BlockHash * A)) : without id (without k l) = without k (without id l).
Proof.
  unfold without. induction l as [|[j v] l IH]; [done|]. cbn.
  destruct (bool_decide (j = k)) eqn:E1, (bool_decide (j = id)) eqn:E2; cbn; rewrite ?E1, ?E2; cbn;
    by rewrite ?IH.
Qed.

Lemma without_app {A} id (l k : list (BlockHash * A)) : without id (l ++ k) = without id l ++ without id k.
Proof. apply List.filter_app. Qed.

Lemma list_to_map_without {A} id (l : list (BlockHash * A)) :
  list_to_map (M := gmap BlockHash A) (without id l) = delete id (list_to_map l).
Proof.
  unfold without. induction l as [|[k v] l IH]; [cbn; by rewrite delete_empty|]. cbn.
  destruct (decide (k = id)) as [->|Hne].
  - rewrite bool_decide_eq_true_2 by done. cbn. by rewrite IH, delete_insert_eq.
  - rewrite bool_decide_eq_false_2 by done. cbn. by rewrite IH, delete_insert_ne.
Qed.

Lemma map_total_list el :
  NoDup el.*1 -> map_total (list_to_map el) = total_bytes (map (fun e => entry_bytes e.2) el).
Proof.
  intros HN. unfold map_total. apply total_bytes_perm, Permutation_map, map_to_list_to_map, HN.
Qed.

Lemma lru_view_without id s el n :
  lru_view s el -> lru_view (set_entries s (delete id (entries s)) n) (without id el).
Proof.
  intros (HN & He & Hs & HF). split_and!.
  - by apply without_NoDup.
  - cbn. by rewrite He, list_to_map_without.
  - by apply without_sorted.
  - cbn. rewrite Forall_forall in *. intros e Hin. apply HF. by apply (elem_of_without id).
Qed.

(** The eviction takes the last of the other entries. *)
Lemma evict_view id s el r x :
  lru_view s el -> without id el = r ++ [x] ->
  exists n, evict_lru_excluding (Some id) s = Ok (set_entries s (delete x.1 (entries s)) n)
  /\ n = saturating_sub (resident_bytes s) (len (entry_bytes x.2))
  /\ without id (without x.1 el) = r.
Proof.
  intros (HN & He & Hs & HF) Hx.
  assert (x ∈ el /\ x.1 <> id) as [Hxe Hxi].
  { apply (elem_of_without id el x). rewrite Hx. set_solver. }
  assert (entries s !! x.1 = Some x.2) as Hxl.
  { rewrite He. apply elem_of_list_to_map_1; [done|]. by destruct x. }
  destruct (evict_ok id s) as (k & e & Hk & Hke & Hmin & Hev).
  { intros E. assert (delete id (entries s) !! x.1 = Some x.2) as Hd by by rewrite lookup_delete_ne.
    by rewrite E in Hd. }
  assert ((k, e) ∈ r ++ [x]) as Hin.
  { rewrite <-Hx. apply elem_of_without. split; [|done]. rewrite He in Hke. by apply elem_of_list_to_map_2. }
  assert (StronglySorted (fun e f => recency f.2 < recency e.2)%N (r ++ [x])) as Hsr
    by (rewrite <-Hx; by apply without_sorted).
  assert ((k, e) = x) as <-.
  { apply elem_of_app in Hin as [Hin|Hin]; [|set_solver]. exfalso.
    specialize (Hmin _ _ Hxl Hxi).
    pose proof (StronglySorted_app_1_elem_of _ _ _ _ _ Hsr Hin (proj2 (list_elem_of_singleton x x) eq_refl)) as Hlt.
    cbn in *. lia. }
  eexists. split_and!; [exact Hev|done|]. cbn [fst]. rewrite without_comm, Hx, without_app.
  assert (NoDup (r ++ [(k, e)]).*1) as HNr by (rewrite <-Hx; by apply without_NoDup).
  rewrite fmap_app in HNr. apply NoDup_app in HNr as (_ & Hd & _).
  rewrite without_id by (intros Hr; by apply (Hd k Hr); set_solver).
  cbn. rewrite bool_decide_eq_true_2 by done. cbn. apply app_nil_r.
Qed.
End views.

(** ** The loop against the LRU list *)
Section refinement.
Context `{HashMapOrder}.
Implicit Types (el : list (BlockHash * ResidentEntry)) (id : BlockHash).

(** What is kept of the other entries. *)
Definition kept (c : Capacity) (new_len : N) (replacing : bool) (l : list (BlockHash * bytes))
  : list (BlockHash * bytes) :=
  match c with
  | ResidentBlocks limit => if replacing then l else take (N.to_nat limit - 1) l
  | ResidentBytes limit => keep_fitting (limit - new_len) l
  end.

Lemma keep_fitting_all budget l :
  (total_bytes (map snd l) <= budget)%N -> keep_fitting budget l = l.
Proof.
  revert budget. induction l as [|e l IH]; intros budget Ht; [done|]. cbn in *.
  unfold total_bytes in IH. rewrite (proj2 (N.leb_le _ _)) by lia. by rewrite IH by lia.
Qed.

Lemma keep_fitting_snoc budget l e :
  (budget < total_bytes (map snd (l ++ [e])))%N -> keep_fitting budget (l ++ [e]) = keep_fitting budget l.
Proof.
  revert budget. induction l as [|f l IH]; intros budget Ht; cbn in *.
  - by rewrite (proj2 (N.leb_gt _ _)) by lia.
  - destruct (N.leb_spec (len f.2) budget); [|done]. by rewrite IH by (unfold total_bytes; lia).
Qed.

Lemma replacing_in s el id :
  lru_view s el -> bool_decide (is_Some (entries s !! id)) = existsb (fun e => bool_decide (e.1 = id)) el.
Proof.
  intros (HN & -> & _). apply eq_iff_eq_true. rewrite bool_decide_eq_true, existsb_exists. split.
  - intros [e He%elem_of_list_to_map_2]. exists (id, e). rewrite <-list_elem_of_In. split; [done|].
    by apply (bool_decide_eq_true_2 (id = id)).
  - intros ([k e] & Hin%list_elem_of_In & Hk%bool_decide_eq_true). cbn in Hk. subst k. exists e.
    by apply elem_of_list_to_map_1.
Qed.

Lemma view_size s el : lru_view s el -> size (entries s) = length el.
Proof.
  intros (HN & -> & _). rewrite <-(length_fmap fst el).
  rewrite <-(map_to_list_to_map el HN) at 2. by rewrite length_fmap, length_map_to_list.
Qed.

Lemma view_others_total s el id :
  lru_view s el -> map_total (delete id (entries s)) = total_bytes (map snd (lru_list (without id el))).
Proof.
  intros (HN & -> & _). rewrite <-list_to_map_without, map_total_list by by apply without_NoDup.
  unfold lru_list. by rewrite map_map.
Qed.

Lemma without_length_absent s el id :
  lru_view s el -> bool_decide (is_Some (entries s !! id)) = false -> without id el = el.
Proof.
  intros Hv Hr. apply without_id. intros Hin%list_elem_of_fmap. destruct Hin as ([k e] & -> & Hin).
  rewrite (replacing_in _ _ _ Hv) in Hr. apply Bool.not_true_iff_false in Hr. apply Hr.
  apply existsb_exists. exists (k, e). rewrite <-list_elem_of_In. split; [done|].
  by apply (bool_decide_eq_true_2 (k = k)).
Qed.

Lemma evict_loop_view fuel s el id new_len s' :
  lru_view s el -> loop_pre s new_len ->
  evict_loop fuel id (old_len_of s id) new_len (bool_decide (is_Some (entries s !! id))) s = Ok s' ->
  exists el', lru_view s' el'
  /\ lru_list (without id el')
     = kept (capacity s) new_len (bool_decide (is_Some (entries s !! id))) (lru_list (without id el)).
Proof.
  revert s el. induction fuel as [|fuel IH]; intros s el Hv Hpre Hloop; cbn [evict_loop] in Hloop;
    destruct (allows_insert _ _ _ _ _) eqn:E; try discriminate Hloop.
  1, 2: injection Hloop as <-; exists el; split; [done|]; symmetry;
    pose proof (view_others_total _ _ id Hv) as Ht; pose proof (map_total_old s id) as Ho;
    unfold kept, allows_insert, loop_pre, resident_total, saturating_add, saturating_sub in *;
    destruct (capacity s) as [limit|limit];
    [ destruct (bool_decide _) eqn:Er; [done|]; rewrite (without_length_absent _ _ _ Hv Er);
      rewrite (view_size _ _ Hv) in E; apply N.ltb_lt in E; apply take_ge; unfold lru_list; rewrite length_map; lia
    | destruct Hpre as (? & Hres & ?); apply N.leb_le in E; apply keep_fitting_all;
      fold (map_total (entries s)) in Hres; lia ].
  pose proof (not_allowed_others _ _ _ Hpre E) as Hne.
  assert (without id el <> []) as Hrest.
  { intros Hnil. destruct Hv as (_ & He & _). rewrite He, <-list_to_map_without, Hnil in Hne. done. }
  destruct (exists_last Hrest) as (r & x & Hx).
  destruct (evict_view id s el r x Hv Hx) as (n & Hev & Hn & Hr). rewrite Hev in Hloop. cbn [rbind] in Hloop.
  set (s1 := set_entries s (delete x.1 (entries s)) n) in *.
  assert (x ∈ el /\ x.1 <> id) as [Hxe Hxi] by (apply (elem_of_without id el x); rewrite Hx; set_solver).
  assert (lru_view s1 (without x.1 el)) as Hv1 by by apply lru_view_without.
  assert (entries s1 !! id = entries s !! id) as Ei by by apply lookup_delete_ne.
  assert (old_len_of s1 id = old_len_of s id) as Eo by by apply old_len_of_delete.
  assert (entries s !! x.1 = Some x.2) as Hxl.
  { destruct Hv as (HN & -> & _). apply elem_of_list_to_map_1; [done|]. by destruct x. }
  assert (loop_pre s1 new_len) as Hpre1.
  { revert Hpre. unfold loop_pre, resident_total. cbn [s1 set_entries capacity resident_bytes entries].
    destruct (capacity s); [done|]. intros (? & Hres & ?). split_and!; [done| |done].
    fold (map_total (delete x.1 (entries s))). rewrite Hn, Hres.
    fold (map_total (entries s)). rewrite (map_total_delete _ _ _ Hxl). unfold saturating_sub. lia. }
  rewrite <-Eo, <-Ei in Hloop. destruct (IH s1 _ Hv1 Hpre1 Hloop) as (el' & Hv' & Hk).
  exists el'. split; [done|]. rewrite Hk, Ei, Hr, Hx. change (capacity s1) with (capacity s).
  unfold lru_list. rewrite map_app. cbn [map]. fold (lru_list r).
  pose proof (view_others_total _ _ id Hv) as Ht. pose proof (map_total_old s id) as Ho.
  unfold kept, allows_insert, loop_pre, resident_total, saturating_add, saturating_sub in *.
  destruct (capacity s) as [limit|limit].
  - apply orb_false_iff in E as [Er E]. rewrite Er. rewrite (view_size _ _ Hv) in E. apply N.ltb_ge in E.
    rewrite (without_length_absent _ _ _ Hv Er) in Hx.
    assert (length el = S (length r)) as Hl by (rewrite Hx, length_app; cbn; lia).
    rewrite take_app_le; [done|]. unfold lru_list. rewrite length_map. lia.
  - destruct Hpre as (? & Hres & ?). apply N.leb_gt in E. symmetry. apply keep_fitting_snoc.
    rewrite Hx in Ht. unfold lru_list in Ht. rewrite map_app in Ht. cbn [map] in Ht. fold (lru_list r) in Ht.
    fold (map_total (entries s)) in Hres. lia.
Qed.

Lemma lru_insert_kept c id b l :
  lru_insert c id b l
  = (id, b) :: kept c (len b) (existsb (fun e => bool_decide (e.1 = id)) l) (without id l).
Proof. unfold lru_insert, kept. by destruct c. Qed.

Lemma existsb_lru_list id el :
  existsb (fun e => bool_decide (e.1 = id)) (lru_list el) = existsb (fun e => bool_decide (e.1 = id)) el.
Proof. unfold lru_list. induction el as [|e el IH]; [done|]. cbn. by rewrite IH. Qed.

(** A new most recently used entry. *)
Lemma view_push s el id b n :
  lru_view s el -> (next_recency s + 1 < 2 ^ 64)%N ->
  lru_view {| capacity := capacity s; resident_bytes := n;
              next_recency := wrapping_add_u64 (next_recency s) 1;
              entries := <[id := {| entry_bytes := b; recency := next_recency s |}]> (entries s) |}
    ((id, {| entry_bytes := b; recency := next_recency s |}) :: without id el).
Proof.
  intros (HN & He & Hs & HF) Hw. unfold wrapping_add_u64. rewrite N.mod_small by done. split_and!.
  - cbn. constructor; [|by apply without_NoDup]. intros Hin%(without_keys id el id). by destruct Hin.
  - cbn. by rewrite list_to_map_without, insert_delete_eq, He.
  - constructor; [by apply without_sorted|]. rewrite Forall_forall in *.
    intros e Hin. apply (HF e). by apply (elem_of_without id).
  - cbn. constructor; [cbn; lia|]. rewrite Forall_forall in *. intros e Hin.
    assert (recency e.2 < next_recency s)%N; [|lia]. apply HF. by apply (elem_of_without id).
Qed.

Lemma insert_view s el id b s' :
  mem_inv s -> lru_view s el -> (next_recency s + 1 < 2 ^ 64)%N -> insert_or_refresh id b s = Ok s' ->
  exists el', lru_view s' el' /\ lru_list el' = lru_insert (capacity s) id b (lru_list el).
Proof.
  intros Hinv Hv Hw. unfold insert_or_refresh. destruct (too_large _ _) eqn:Etl; [done|]. cbn [negb].
  unfold take_recency. set (s1 := {| capacity := _ |}). intros Hi. inv_ok. subst s'.
  assert (loop_pre s1 (len b)) as Hpre.
  { revert Hinv Etl. unfold mem_inv, loop_pre, too_large. cbn. destruct (capacity s); [by intros []|].
    intros (? & Hres & _) Hl%N.ltb_ge. split_and!; [lia|done|done]. }
  (* the counter moves on before the loop; the entries do not *)
  assert (lru_view s1 el) as Hv1.
  { destruct Hv as (HN & He & Hs & HF). split_and!; [done..|]. cbn. unfold wrapping_add_u64.
    rewrite N.mod_small by done. eapply Forall_impl; [exact HF|]. intros e Hlt. cbn in *. lia. }
  destruct (evict_loop_ok (size (entries s1)) s1 id (len b) (fuel_enough s1 id) Hpre)
    as (s2 & Hs2 & Hc & Hr & Hsub & Hid & _ & _).
  rewrite Hs2 in Hok. injection Hok as <-.
  destruct (evict_loop_view _ _ _ _ _ _ Hv1 Hpre Hs2) as (el2 & Hv2 & Hk).
  eexists. split.
  - assert (lru_view {| capacity := capacity s2; resident_bytes := 0; next_recency := next_recency s;
      entries := entries s2 |} el2) as Hv3.
    { destruct Hv2 as (HN & He & Hs & HF). split_and!; [done..|]. cbn.
      rewrite Forall_forall. intros e Hin. destruct Hv as (HNv & Hev & _ & HFv).
      rewrite Forall_forall in HFv. apply (HFv e).
      assert (entries s2 !! e.1 = Some e.2) as Hl.
      { rewrite He. apply elem_of_list_to_map_1; [done|]. by destruct e. }
      pose proof (lookup_weaken _ _ _ _ Hl Hsub) as Hl1. cbn in Hl1. rewrite Hev in Hl1.
      apply elem_of_list_to_map_2 in Hl1. by destruct e. }
    pose proof (view_push _ _ id b (saturating_add USIZE_MAX (saturating_sub (resident_bytes s2) (old_len_of s1 id))
      (len b)) Hv3 Hw) as Hp. cbn in Hp. unfold set_entries. rewrite Hr. exact Hp.
  - rewrite lru_insert_kept. cbn [lru_list map fst snd entry_bytes]. f_equal.
    rewrite existsb_lru_list, <-without_map. fold (lru_list (without id el2)). rewrite Hk.
    change (capacity s1) with (capacity s). f_equal. by apply replacing_in.
Qed.

(** Looking up in the list is looking up in the map. *)
Lemma find_view s el id :
  lru_view s el ->
  List.find (fun e => bool_decide (e.1 = id)) (lru_list el) = (fun e => (id, entry_bytes e)) <$> entries s !! id.
Proof.
  intros (HN & -> & _). induction el as [|[k f] el IH]; [done|]. cbn.
  apply NoDup_cons in HN as [Hk HN]. destruct (decide (k = id)) as [->|Hne].
  - by rewrite bool_decide_eq_true_2, lookup_insert_eq.
  - rewrite bool_decide_eq_false_2, lookup_insert_ne by done. by apply IH.
Qed.

Lemma refresh_view s el id :
  lru_view s el -> (next_recency s + 1 < 2 ^ 64)%N ->
  exists el', lru_view (refresh id s) el' /\ lru_list el' = lru_touch id (lru_list el).
Proof.
  intros Hv Hw. pose proof (find_view s el id Hv) as Hf. unfold refresh, take_recency. cbn [entries].
  destruct (entries s !! id) as [e|] eqn:E; cbn in Hf.
  - eexists. split; [exact (view_push s el id (entry_bytes e) (resident_bytes s) Hv Hw)|].
    unfold lru_touch. rewrite Hf. cbn [lru_list map fst snd entry_bytes]. f_equal.
    fold (lru_list (without id el)). apply without_map.
  - exists el. unfold lru_touch. rewrite Hf. split; [|done].
    destruct Hv as (HN & He & Hs & HF). split_and!; [done..|]. cbn. unfold wrapping_add_u64.
    rewrite N.mod_small by done. eapply Forall_impl; [exact HF|]. intros f Hlt. cbn in *. lia.
Qed.
End refinement.

(** ** The contract *)
Section contract.
Context `{HashMapOrder}.

Lemma memory_put_ok id b s s' :
  mem_inv s -> memory_put_block_bytes id b s = (Ok tt, s') ->
  mem_inv s' /\ memory_lookup id s' = Some b
  /\ forall k c, k <> id -> memory_lookup k s' = Some c -> memory_lookup k s = Some c.
Proof.
  intros Hinv Hp. pose proof (insert_ok s id b Hinv) as Hok. unfold memory_put_block_bytes in Hp.
  destruct (too_large _ _); [by rewrite Hok in Hp|].
  destruct Hok as (s2 & Hs2 & Hinv2 & _ & _ & Hid & Hsub). rewrite Hs2 in Hp. injection Hp as <-.
  split_and!; [done|unfold memory_lookup; by rewrite Hid|].
  intros k c Hne. unfold memory_lookup. intros (e & He & Hc)%fmap_Some.
  apply fmap_Some. exists e. split; [|done]. eapply lookup_weaken; [|exact Hsub].
  by rewrite lookup_delete_ne.
Qed.

#[export] Program Instance memory_laws : StoreLaws State := {|
  store_ok := mem_inv;
  stored s k b := memory_lookup k s = Some b
|}.
Next Obligation.
  intros s k r s' Hinv Hg. cbn in Hg. unfold memory_get_block_bytes in Hg.
  destruct (memory_lookup k s) as [b|] eqn:El; injection Hg as <- <-.
  - destruct (refresh_ok k s Hinv) as (? & _ & Hl). split_and!; [done|done|congruence|].
    intros j c. by rewrite Hl.
  - split_and!; [done|done|congruence|done].
Qed.
Next Obligation.
  intros s k b r s' Hinv Hp. destruct (put_inv k b s Hinv) as (Hi & Hr & _).
  change (memory_put_block_bytes k b s = (r, s')) in Hp. rewrite Hp in Hi, Hr. cbn in Hi, Hr.
  split_and!; [done|done|]. intros j c Hl. destruct r as [[]|e|]; [| |done].
  - destruct (memory_put_ok _ _ _ _ Hinv Hp) as (_ & Hid & Hothers).
    destruct (decide (j = k)) as [->|Hne]; [right|left; by apply Hothers].
    rewrite Hid in Hl. by injection Hl as <-.
  - unfold memory_put_block_bytes in Hp. destruct (insert_or_refresh k b s); simplify_eq. by left.
Qed.

#[export] Instance memory_reads_own_writes : ReadsOwnWrites State.
Proof.
  intros s k b s' Hinv Hp. destruct (memory_put_ok _ _ _ _ Hinv Hp) as (Hi & Hid & _).
  split; [done|]. eexists. cbn. unfold memory_get_block_bytes. by rewrite Hid.
Qed.
End contract.

(** ** Properties *)
Section properties.
Context `{HashMapOrder}.

(** After any interleaving of the writes and refreshes of any number of threads, a
    store built by either constructor is within its limit with its byte count exact, no
    write panics (the eviction always finds an entry) and every read answers. *)
Theorem memory_interleaving_safe n s0 steps :
  memory_new n = Ok s0 \/ new_cache_mb n = Ok s0 ->
  let s := foldr atomic_run s0 steps in
  mem_inv s /\ capacity s = capacity s0
  /\ (forall id b, (memory_put_block_bytes id b s).1 <> Panic)
  /\ (forall id, exists o, (memory_get_block_bytes id s).1 = Ok o).
Proof.
  intros Hnew s.
  assert (mem_inv s0) as Hinv.
  { destruct Hnew as [Hn|Hn].
    - unfold memory_new, new_with_capacity in Hn. inv_ok. subst s0. apply negb_true_iff, N.eqb_neq in Hb.
      cbn. rewrite map_size_empty. cbn in Hb. lia.
    - unfold new_cache_mb in Hn. inv_ok. apply new_inv in Hn as [? _]; [done|]. by eapply new_cache_limit. }
  destruct (steps_inv steps s0 Hinv) as [Hs Hc]. fold s in Hs, Hc. split_and!; [done|done| |].
  - intros id b. by apply put_inv.
  - intros id. unfold memory_get_block_bytes. destruct (memory_lookup id s); cbn; eauto.
Qed.

(** A write is refused exactly when the block alone exceeds a byte capacity, and
    then changes nothing; otherwise it succeeds, keeps the invariant, stores the bytes,
    and every other block that remains has the bytes it had. *)
Theorem memory_put_exact id b s :
  mem_inv s ->
  (too_large (capacity s) (len b) = true ->
   memory_put_block_bytes id b s
   = (Err (BackendFailure (insert_error (len b) (capacity_limit (capacity s)))), s))
  /\ (too_large (capacity s) (len b) = false ->
   exists s', memory_put_block_bytes id b s = (Ok tt, s') /\ mem_inv s'
   /\ memory_lookup id s' = Some b
   /\ forall k c, k <> id -> memory_lookup k s' = Some c -> memory_lookup k s = Some c).
Proof.
  intros Hinv. pose proof (insert_ok s id b Hinv) as Hok. split; intros Htl; rewrite Htl in Hok.
  - unfold memory_put_block_bytes. by rewrite Hok.
  - destruct Hok as (s' & Hs' & _). exists s'.
    assert (memory_put_block_bytes id b s = (Ok tt, s')) as Hp by (unfold memory_put_block_bytes; by rewrite Hs').
    split; [done|]. by apply memory_put_ok.
Qed.

(** C27 The in-memory store implements a least-recently-used cache: seen as a list with
    the most recent entry first, a write puts its entry in front and drops entries from
    the end until the rest fits the block or byte limit, and a read answers from the
    list and moves its entry to the front, as long as the recency counter has not
    wrapped. *)
Theorem memory_refines_lru s el id b :
  mem_inv s -> lru_view s el -> (next_recency s + 1 < 2 ^ 64)%N ->
  (forall s', memory_put_block_bytes id b s = (Ok tt, s') ->
   exists el', lru_view s' el' /\ lru_list el' = lru_insert (capacity s) id b (lru_list el))
  /\ (forall o s', memory_get_block_bytes id s = (Ok o, s') ->
   o = snd <$> List.find (fun e => bool_decide (e.1 = id)) (lru_list el)
   /\ exists el', lru_view s' el' /\ lru_list el' = lru_touch id (lru_list el)).
Proof.
  intros Hinv Hv Hw. split.
  - intros s' Hp. unfold memory_put_block_bytes in Hp.
    destruct (insert_or_refresh id b s) as [s2| |] eqn:Hi; simplify_eq. by eapply insert_view.
  - intros o s' Hg. destruct (refresh_view s el id Hv Hw) as (el' & Hv' & Hl').
    unfold memory_get_block_bytes, memory_lookup in Hg.
    pose proof (find_view s el id Hv) as Hf. rewrite Hf.
    destruct (entries s !! id) as [e|] eqn:E; cbn in *; injection Hg as <- <-.
    + split; [done|]. eauto.
    + split; [done|]. exists el. split; [done|]. unfold lru_touch. by rewrite Hf.
Qed.
End properties.

(** ** Witnesses *)
Section witnesses.
#[local] Existing Instances sample_order reference_codec reference_laws checksum.

Lemma memory_interleaving_safe_witness :
  exists s0, memory_new 2 = Ok s0
  /\ mem_inv (foldr atomic_run s0 [SRefresh (hash_of_N 3); SInsert (hash_of_N 3) [Byte.x00];
       SInsert (hash_of_N 2) [Byte.x00; Byte.x01]; SInsert (hash_of_N 1) []]).
Proof.
  eexists. split; [reflexivity|].
  exact (proj1 (memory_interleaving_safe 2 _ [SRefresh (hash_of_N 3); SInsert (hash_of_N 3) [Byte.x00];
       SInsert (hash_of_N 2) [Byte.x00; Byte.x01]; SInsert (hash_of_N 1) []] (or_introl eq_refl))).
Defined.

Lemma sample_store_inv : mem_inv sample_store.
Proof. split; [reflexivity|]. vm_compute. discriminate. Qed.

Lemma memory_put_exact_witness :
  exists s', memory_put_block_bytes (hash_of_N 3) [Byte.x07] sample_store = (Ok tt, s')
  /\ memory_lookup (hash_of_N 3) s' = Some [Byte.x07].
Proof.
  destruct (proj2 (memory_put_exact (hash_of_N 3) [Byte.x07] sample_store sample_store_inv) eq_refl)
    as (s' & Hp & _ & Hl & _).
  exact (ex_intro _ s' (conj Hp Hl)).
Defined.

Lemma sample_store_view :
  lru_view sample_store [(hash_of_N 1, {| entry_bytes := [Byte.x00]; recency := 1 |});
                         (hash_of_N 2, {| entry_bytes := [Byte.x01; Byte.x02]; recency := 0 |})].
Proof.
  split_and!; [|done| |].
  - apply NoDup_cons. split; [|apply NoDup_singleton]. intros Hin%list_elem_of_singleton.
    apply (f_equal as_bytes) in Hin. vm_compute in Hin. discriminate.
  - repeat constructor.
  - repeat constructor.
Qed.

Lemma memory_refines_lru_witness :
  exists s' el', memory_put_block_bytes (hash_of_N 3) [Byte.x07] sample_store = (Ok tt, s')
  /\ lru_view s' el'
  /\ lru_list el' = [(hash_of_N 3, [Byte.x07]); (hash_of_N 1, [Byte.x00])].
Proof.
  destruct (memory_put_block_bytes (hash_of_N 3) [Byte.x07] sample_store) as [r s'] eqn:Hp.
  assert (r = Ok tt) as -> by (vm_compute in Hp; congruence).
  destruct (proj1 (memory_refines_lru sample_store _ (hash_of_N 3) [Byte.x07] sample_store_inv
    sample_store_view eq_refl) s' Hp) as (el' & Hv & Hl).
  exists s', el'. split; [reflexivity|]. split; [exact Hv|]. rewrite Hl. vm_compute. reflexivity.
Defined.

Lemma put_then_read_witness :
  exists s' h s'', put_versioned (VersionedV2 sample_v2) sample_store = (Ok h, s')
  /\ get_decoded h s' = (Ok (Some (decoded (VersionedV2 sample_v2_normal) h)), s'').
Proof.
  destruct (put_versioned (VersionedV2 sample_v2) sample_store) as [r s'] eqn:Hp.
  assert (exists h, r = Ok h) as [h ->].
  { assert (is_ok (fst (put_versioned (VersionedV2 sample_v2) sample_store)) = true) as Hok
      by (vm_compute; reflexivity). rewrite Hp in Hok. destruct r; [eauto|discriminate Hok..]. }
  destruct (put_then_read (VersionedV2 sample_v2) (VersionedV2 sample_v2_normal) sample_store h s') as (s'' & Hg & _).
  - exact sample_store_inv.
  - exact Hp.
  - vm_compute. reflexivity.
  - split; [vm_compute; reflexivity|]. apply Nat.leb_le. vm_compute. reflexivity.
  - exists s', h, s''. split; [reflexivity|exact Hg].
Defined.

Lemma invalid_batch_writes_nothing_witness :
  exists e, put_blocks [sample_block; sample_branch [sample_entry 1; sample_entry 1] []] sample_store
  = (Err (ContractViolation e), sample_store).
Proof.
  destruct (invalid_batch_writes_nothing [sample_block; sample_branch [sample_entry 1; sample_entry 1] []]
    sample_store) as (e & He & _).
  - exists (sample_branch [sample_entry 1; sample_entry 1] []), dup_branch_error.
    split; [right; left|vm_compute; reflexivity].
  - exists e. exact He.
Defined.
End witnesses.
