(* ===== verification/OverlayStore.v ===== *)
(** * The overlay store

    crates/lexongraph-block-store-overlay/src/lib.rs: a stack of layers with
    roles. Reads walk the layers from the first to the last and refill the cache
    layers above the hit; writes go to every writable layer; the enumeration lists
    each identifier once. The layers are states of one type with a [BlockStore]
    instance (a sum type makes the stack heterogeneous). The refill writes of
    [join_all] go to distinct layers; they are modelled in the order of the
    layers, and their results are dropped, as in the source. *)
From S2P Require Import Prelude Ordering Hash Cbor BlockV1 BlockV2 Store.

(** [OverlayLayerRole] *)
Inductive OverlayLayerRole := Cache | Writable | ReadOnly.

Definition accepts_direct_writes (r : OverlayLayerRole) : bool :=
  match r with Writable => true | _ => false end.
Definition accepts_refill (r : OverlayLayerRole) : bool :=
  match r with Cache => true | _ => false end.
Definition OverlayLayerRole_to_string (r : OverlayLayerRole) : string :=
  match r with Cache => "cache" | Writable => "writable" | ReadOnly => "read-only" end.

(** [LayerCounters]: atomic counters that wrap at 2^64. *)
Record LayerCounters := { hits : N; misses : N; errors : N }.
Definition counters_new : LayerCounters := {| hits := 0; misses := 0; errors := 0 |}.
Definition count_hit (c : LayerCounters) : LayerCounters :=
  {| hits := wrapping_add_u64 (hits c) 1; misses := misses c; errors := errors c |}.
Definition count_miss (c : LayerCounters) : LayerCounters :=
  {| hits := hits c; misses := wrapping_add_u64 (misses c) 1; errors := errors c |}.
Definition count_error (c : LayerCounters) : LayerCounters :=
  {| hits := hits c; misses := misses c; errors := wrapping_add_u64 (errors c) 1 |}.

(** [OverlayLayerStats], [OverlayBuildError] *)
Record OverlayLayerStats := {
  layer_index : nat; layer_role : OverlayLayerRole;
  layer_hits : N; layer_misses : N; layer_errors : N
}.
Inductive OverlayBuildError := InsufficientLayers (count : nat).
Definition OverlayBuildError_to_string (e : OverlayBuildError) : string :=
  match e with
  | InsufficientLayers count =>
      "overlay block store requires at least 2 layers, got " +:+ pretty count
  end%stdpp.

Definition MIN_LAYERS : nat := 2.
Definition no_writable_error : BlockStoreError :=
  BackendFailure "overlay block store has no layers that accept direct writes".

Section overlay.
Context {L : Type} `{BlockStore L}.

(** A layer is a role and a store, as in [PassiveLayer]. *)
Notation layer := (OverlayLayerRole * L)%type.

(** [OverlayBlockStore] *)
Record OverlayBlockStore := { layers : list layer; counters : list LayerCounters }.

(** [OverlayBlockStore::new] *)
Definition overlay_new (ls : list layer) : result OverlayBuildError OverlayBlockStore :=
  guard? negb (length ls <? MIN_LAYERS)%nat else InsufficientLayers (length ls) in
  Ok {| layers := ls; counters := replicate (length ls) counters_new |}.

(** [LayerCounters::snapshot], [OverlayBlockStore::stats] *)
Definition snapshot (c : LayerCounters) (index : nat) (role : OverlayLayerRole) : OverlayLayerStats :=
  {| layer_index := index; layer_role := role;
     layer_hits := hits c; layer_misses := misses c; layer_errors := errors c |}.
Definition stats (s : OverlayBlockStore) : result BlockStoreError (list OverlayLayerStats) :=
  collect_map (fun '(index, (role, _)) =>
    let? c := expect (counters s !! index) in Ok (snapshot c index role))
    (imap (fun index l => (index, l)) (layers s)).

(** [put_block_bytes]: the loop over the layers. The flags are
    [attempted_write] and [last_error]. *)
Fixpoint put_loop (id : BlockHash) (b : bytes) (attempted : bool) (last_error : option BlockStoreError)
  (ls : list layer) : result BlockStoreError (bool * option BlockStoreError) * list layer :=
  match ls with
  | [] => (Ok (attempted, last_error), [])
  | (role, l) :: ls' =>
      if accepts_direct_writes role then
        match put_block_bytes id b l with
        | (Panic, l') => (Panic, (role, l') :: ls')
        | (Ok _, l') =>
            let '(r, ls'') := put_loop id b true last_error ls' in (r, (role, l') :: ls'')
        | (Err e, l') =>
            let '(r, ls'') := put_loop id b true (Some e) ls' in (r, (role, l') :: ls'')
        end
      else let '(r, ls'') := put_loop id b attempted last_error ls' in (r, (role, l) :: ls'')
  end.

Definition set_layers (s : OverlayBlockStore) (ls : list layer) : OverlayBlockStore :=
  {| layers := ls; counters := counters s |}.

Definition overlay_put_block_bytes (id : BlockHash) (b : bytes) : store_m OverlayBlockStore unit :=
  fun s =>
  let '(r, ls) := put_loop id b false None (layers s) in
  (let? '(attempted, last_error) := r in
   guard? attempted else no_writable_error in
   match last_error with Some e => Err e | None => Ok tt end,
   set_layers s ls).

(** [refill_cache_layers] on the layers above the hit. *)
Fixpoint refill (id : BlockHash) (b : bytes) (ls : list layer)
  : result BlockStoreError unit * list layer :=
  match ls with
  | [] => (Ok tt, [])
  | (role, l) :: ls' =>
      if accepts_refill role then
        match put_block_bytes id b l with
        | (Panic, l') => (Panic, (role, l') :: ls')
        | (_, l') => let '(r, ls'') := refill id b ls' in (r, (role, l') :: ls'')
        end
      else let '(r, ls'') := refill id b ls' in (r, (role, l) :: ls'')
  end.

(** [self.counters[index].xs.fetch_add(1, ..)]: indexing panics out of range. *)
Definition bump (f : LayerCounters -> LayerCounters) (index : nat) (cs : list LayerCounters)
  : option (list LayerCounters) :=
  match cs !! index with Some c => Some (<[index := f c]> cs) | None => None end.

(** [get_block_bytes]: the loop over the layers; [above] are the layers walked so
    far, the next one has index [length above]. *)
Fixpoint get_loop (id : BlockHash) (above ls : list layer) (cs : list LayerCounters)
  (last_error : option BlockStoreError)
  : result BlockStoreError (option bytes) * OverlayBlockStore :=
  match ls with
  | [] =>
      (match last_error with Some e => Err e | None => Ok None end,
       {| layers := above; counters := cs |})
  | (role, l) :: ls' =>
      let index := length above in
      match get_block_bytes id l with
      | (Ok (Some b), l') =>
          match bump count_hit index cs with
          | None => (Panic, {| layers := above ++ (role, l') :: ls'; counters := cs |})
          | Some cs' =>
              let '(r, above') := refill id b above in
              (let? _ := r in Ok (Some b),
               {| layers := above' ++ (role, l') :: ls'; counters := cs' |})
          end
      | (Ok None, l') =>
          match bump count_miss index cs with
          | None => (Panic, {| layers := above ++ (role, l') :: ls'; counters := cs |})
          | Some cs' => get_loop id (above ++ [(role, l')]) ls' cs' last_error
          end
      | (Err e, l') =>
          match bump count_error index cs with
          | None => (Panic, {| layers := above ++ (role, l') :: ls'; counters := cs |})
          | Some cs' => get_loop id (above ++ [(role, l')]) ls' cs' (Some e)
          end
      | (Panic, l') => (Panic, {| layers := above ++ (role, l') :: ls'; counters := cs |})
      end
  end.

Definition overlay_get_block_bytes (id : BlockHash) : store_m OverlayBlockStore (option bytes) :=
  fun s => get_loop id [] (layers s) (counters s) None.

(** The items one layer contributes to [overlay_block_id_stream], with the
    identifiers seen so far; the flag says that the stream ended with an error. *)
Fixpoint stream_layer (seen : gset BlockHash) (items : list (result BlockStoreError BlockHash))
  : list (result BlockStoreError BlockHash) * gset BlockHash * bool :=
  match items with
  | [] => ([], seen, false)
  | Ok id :: items' =>
      if decide (id ∈ seen) then stream_layer seen items'
      else let '(out, seen', stop) := stream_layer ({[id]} ∪ seen) items' in (Ok id :: out, seen', stop)
  | Err e :: _ => ([Err e], seen, true)
  | Panic :: _ => ([Panic], seen, true)
  end.

Fixpoint stream_layers (seen : gset BlockHash) (ls : list layer)
  : list (result BlockStoreError BlockHash) :=
  match ls with
  | [] => []
  | (_, l) :: ls' =>
      match iter_block_ids l with
      | Err e => [Err e]
      | Panic => [Panic]
      | Ok items =>
          let '(out, seen', stop) := stream_layer seen items in
          out ++ (if stop then [] else stream_layers seen' ls')
      end
  end.

(** [iter_block_ids]: the first layer is asked eagerly, the others as the stream
    gets to them. *)
Definition overlay_iter_block_ids (s : OverlayBlockStore)
  : result BlockStoreError (list (result BlockStoreError BlockHash)) :=
  match layers s with
  | [] => Panic
  | (_, l) :: ls' =>
      let? items := iter_block_ids l in
      let '(out, seen', stop) := stream_layer ∅ items in
      Ok (out ++ (if stop then [] else stream_layers seen' ls'))
  end.

#[export] Instance overlay_store : BlockStore OverlayBlockStore := {|
  put_block_bytes := overlay_put_block_bytes;
  put_block_bytes_batch := default_put_block_bytes_batch;
  get_block_bytes := overlay_get_block_bytes;
  iter_block_ids := overlay_iter_block_ids
|}.
End overlay.
Arguments OverlayBlockStore L : clear implicits.
