(* ===== verification/OverlayCorrect.v ===== *)
(** * The overlay store: the properties

    Which layer answers a read, what a read changes (the counters of the layers
    walked, the caches above the hit), which layers a write reaches and what it
    reports, and that the enumeration is the duplicate-free union of the layers'.
    Everything is proved from the contract [StoreLaws] of the layers, and the
    overlay satisfies that contract itself. *)
From S2P Require Import Prelude Ordering Hash Cbor BlockV1 BlockV2 Store OverlayStore MemoryStore.
From S2P Require Import MemoryCorrect CborRef.

(** What a counter does with the answer of its layer. *)
Definition count_answer (r : result BlockStoreError (option bytes)) (c : LayerCounters) : LayerCounters :=
  match r with
  | Ok (Some _) => count_hit c
  | Ok None => count_miss c
  | Err _ => count_error c
  | Panic => c
  end.

Definition error_of {A} (r : result BlockStoreError A) : option BlockStoreError :=
  match r with Err e => Some e | _ => None end.

(** The identifiers of a list, each at its first occurrence, but for those seen before. *)
Fixpoint first_occurrences (seen : gset BlockHash) (ids : list BlockHash) : list BlockHash :=
  match ids with
  | [] => []
  | id :: ids' =>
      if decide (id ∈ seen) then first_occurrences seen ids'
      else id :: first_occurrences ({[id]} ∪ seen) ids'
  end.

Definition item_id (r : result BlockStoreError BlockHash) : option BlockHash :=
  match r with Ok id => Some id | _ => None end.

(** A cache over a store of two blocks. *)
Definition sample_overlay : OverlayBlockStore State :=
  {| layers := [(Cache, set_entries sample_store ∅ 0); (Writable, sample_store)];
     counters := replicate 2 counters_new |}.

Section layers.
Context {L : Type} `{StoreLaws L}.
Notation layer := (OverlayLayerRole * L)%type.
Implicit Types (ls above below : list layer) (id : BlockHash).

(** A layer after it was asked, after a refill, after a write. *)
Definition answer id (p : layer) : result BlockStoreError (option bytes) := (get_block_bytes id p.2).1.
Definition asked id (p : layer) : layer := (p.1, (get_block_bytes id p.2).2).
Definition refilled id (b : bytes) (p : layer) : layer :=
  if accepts_refill p.1 then (p.1, (put_block_bytes id b p.2).2) else p.
Definition written id (b : bytes) (p : layer) : layer :=
  if accepts_direct_writes p.1 then (p.1, (put_block_bytes id b p.2).2) else p.
Definition write_answer id (b : bytes) (p : layer) : option (result BlockStoreError unit) :=
  if accepts_direct_writes p.1 then Some (put_block_bytes id b p.2).1 else None.

Definition missed id (p : layer) : Prop := forall b, answer id p <> Ok (Some b).

(** The last error the layers report. *)
Definition last_error_of {A} (rs : list (result BlockStoreError A)) : option BlockStoreError :=
  last (omap error_of rs).

(** The state of a usable overlay. *)
Definition overlay_ok (s : OverlayBlockStore L) : Prop :=
  length (counters s) = length (layers s) /\ Forall (fun p => store_ok p.2) (layers s).

Definition overlay_stored (s : OverlayBlockStore L) (k : BlockHash) (b : bytes) : Prop :=
  exists p, p ∈ layers s /\ stored p.2 k b.

(** ** Lemmas *)
Lemma answer_no_panic id p : store_ok p.2 -> answer id p <> Panic.
Proof.
  intros Hok. unfold answer. destruct (get_block_bytes id p.2) as [r l'] eqn:E.
  by destruct (get_law _ _ _ _ Hok E) as (_ & ? & _).
Qed.

Lemma asked_ok id p : store_ok p.2 -> store_ok (asked id p).2.
Proof.
  intros Hok. unfold asked. destruct (get_block_bytes id p.2) as [r l'] eqn:E.
  by destruct (get_law _ _ _ _ Hok E) as (? & _).
Qed.

Lemma asked_stored id p k b : store_ok p.2 -> stored (asked id p).2 k b -> stored p.2 k b.
Proof.
  intros Hok. unfold asked. destruct (get_block_bytes id p.2) as [r l'] eqn:E.
  destruct (get_law _ _ _ _ Hok E) as (_ & _ & _ & Hs). apply Hs.
Qed.

Lemma put_ok_laws id b (l : L) :
  store_ok l -> store_ok (put_block_bytes id b l).2 /\ (put_block_bytes id b l).1 <> Panic
  /\ forall k c, stored (put_block_bytes id b l).2 k c -> stored l k c \/ (k = id /\ c = b).
Proof.
  intros Hok. destruct (put_block_bytes id b l) as [r l'] eqn:E. exact (put_law _ _ _ _ _ Hok E).
Qed.

Lemma refill_spec id b ls :
  Forall (fun p => store_ok p.2) ls -> refill id b ls = (Ok tt, map (refilled id b) ls).
Proof.
  induction 1 as [|[role l] ls Hl HF IH]; [done|]. cbn. unfold refilled at 1. cbn.
  rewrite IH. destruct (accepts_refill role); [|done].
  destruct (put_ok_laws id b l Hl) as (_ & Hnp & _). destruct (put_block_bytes id b l) as [[]?]; done.
Qed.

Lemma bump_ok f c cs0 cs1 :
  bump f (length cs0) (cs0 ++ c :: cs1) = Some (cs0 ++ f c :: cs1).
Proof.
  unfold bump. rewrite list_lookup_middle by done.
  by rewrite insert_app_r_alt, Nat.sub_diag by lia.
Qed.

Lemma zip_with_snoc {A B} (f : A -> B -> B) l x ys y ys' :
  drop (length l) ys = y :: ys' ->
  zip_with f (l ++ [x]) ys ++ drop (S (length l)) ys = zip_with f l ys ++ f x y :: ys'.
Proof.
  revert ys. induction l as [|a l IH]; intros [|z ys] Hd; cbn in *; try done.
  - injection Hd as -> ->. by rewrite drop_0.
  - f_equal. by apply IH.
Qed.

(** The loop over layers that do not hit. *)
Lemma get_loop_missed id ls : forall done_ cs0 cs1 le rest,
  Forall (missed id) ls -> Forall (fun p => store_ok p.2) ls ->
  length cs0 = length done_ -> (length ls <= length cs1)%nat ->
  get_loop id done_ (ls ++ rest) (cs0 ++ cs1) le
  = get_loop id (done_ ++ map (asked id) ls) rest
      (cs0 ++ zip_with (fun p c => count_answer (answer id p) c) ls cs1 ++ drop (length ls) cs1)
      match last_error_of (map (answer id) ls) with Some e => Some e | None => le end.
Proof.
  induction ls as [|[role l] ls IH]; intros done_ cs0 cs1 le rest Hm Hok Hlen Hl.
  - cbn. by rewrite app_nil_r, drop_0.
  - apply Forall_cons in Hm as [Hm1 Hm]. apply Forall_cons in Hok as [Hok1 Hok].
    destruct cs1 as [|c cs1]; [cbn in Hl; lia|]. cbn [app length map zip_with drop] in *.
    pose proof (answer_no_panic id (role, l) Hok1) as Hnp. unfold missed in Hm1.
    cbn [get_loop]. unfold answer, asked in Hm1, Hnp |- *. cbn [fst snd] in *.
    rewrite <-Hlen. rewrite !bump_ok.
    destruct (get_block_bytes id l) as [[[b|]|e|] l']; cbn [fst snd] in *; [by destruct (Hm1 b)| | |done].
    + replace (cs0 ++ count_miss c :: cs1) with ((cs0 ++ [count_miss c]) ++ cs1) by (by rewrite <-app_assoc).
      rewrite IH by (rewrite ?length_app; cbn; done || lia). rewrite <-!app_assoc. done.
    + replace (cs0 ++ count_error c :: cs1) with ((cs0 ++ [count_error c]) ++ cs1) by (by rewrite <-app_assoc).
      rewrite IH by (rewrite ?length_app; cbn; done || lia). rewrite <-!app_assoc. cbn [count_answer].
      f_equal. unfold last_error_of. cbn [omap list_omap error_of].
      by destruct (omap error_of (map _ ls)) as [|x l0] using rev_ind; [|rewrite app_comm_cons, !last_snoc].
Qed.

Lemma missed_split id ls :
  Forall (missed id) ls \/
  exists above p below b, ls = above ++ p :: below /\ Forall (missed id) above /\ answer id p = Ok (Some b).
Proof.
  induction ls as [|p ls IH]; [by left; constructor|].
  destruct (answer id p) as [[b|]|e|] eqn:E.
  - right. exists [], p, ls, b. done.
  - destruct IH as [IH|(above & q & below & b & -> & Hm & Hb)].
    + left. constructor; [|done]. intros b. congruence.
    + right. exists (p :: above), q, below, b. split_and!; [done| |done]. constructor; [|done]. intros c. congruence.
  - destruct IH as [IH|(above & q & below & b & -> & Hm & Hb)].
    + left. constructor; [|done]. intros b. congruence.
    + right. exists (p :: above), q, below, b. split_and!; [done| |done]. constructor; [|done]. intros c. congruence.
  - destruct IH as [IH|(above & q & below & b & -> & Hm & Hb)].
    + left. constructor; [|done]. intros b. congruence.
    + right. exists (p :: above), q, below, b. split_and!; [done| |done]. constructor; [|done]. intros c. congruence.
Qed.

Lemma asked_all_ok id ls :
  Forall (fun p => store_ok p.2) ls -> Forall (fun p => store_ok p.2) (map (asked id) ls).
Proof. intros HF. apply Forall_map. eapply Forall_impl; [exact HF|]. intros p. apply asked_ok. Qed.

(** A read that hits: it is answered by the first layer that has the block. *)
Lemma overlay_get_hit id s above p below b :
  overlay_ok s -> layers s = above ++ p :: below -> Forall (missed id) above ->
  answer id p = Ok (Some b) ->
  overlay_get_block_bytes id s =
    (Ok (Some b),
     {| layers := map (refilled id b) (map (asked id) above) ++ asked id p :: below;
        counters := zip_with (fun q c => count_answer (answer id q) c) (above ++ [p]) (counters s)
          ++ drop (S (length above)) (counters s) |}).
Proof.
  intros [Hlen Hok] Hl Hm Hb. unfold overlay_get_block_bytes. rewrite Hl in *.
  apply Forall_app in Hok as [Hok1 Hok2]. apply Forall_cons in Hok2 as [Hokp Hok2].
  rewrite length_app in Hlen. cbn in Hlen.
  rewrite (get_loop_missed id above [] [] (counters s)) by (done || lia). cbn [app].
  destruct (drop (length above) (counters s)) as [|c cs'] eqn:Ed.
  { apply (f_equal length) in Ed. rewrite length_drop in Ed. cbn in Ed. lia. }
  destruct p as [role l]. cbn [get_loop]. unfold answer in Hb. cbn [snd] in Hb.
  destruct (get_block_bytes id l) as [r l'] eqn:Eg. cbn [fst] in Hb. subst r.
  set (cs0 := zip_with _ above (counters s)).
  assert (length (map (asked id) above) = length cs0) as Hl0.
  { unfold cs0. rewrite length_map, length_zip_with. lia. }
  rewrite Hl0, bump_ok, refill_spec by by apply asked_all_ok. cbn [rbind].
  f_equal. f_equal.
  - f_equal. unfold asked. cbn. by rewrite Eg.
  - rewrite (zip_with_snoc _ above _ (counters s) c cs') by done. unfold cs0. f_equal. f_equal.
    unfold answer. cbn [snd]. by rewrite Eg.
Qed.

(** A read no layer answers. *)
Lemma overlay_get_miss id s :
  overlay_ok s -> Forall (missed id) (layers s) ->
  overlay_get_block_bytes id s =
    (match last_error_of (map (answer id) (layers s)) with Some e => Err e | None => Ok None end,
     {| layers := map (asked id) (layers s);
        counters := zip_with (fun q c => count_answer (answer id q) c) (layers s) (counters s) |}).
Proof.
  intros [Hlen Hok] Hm. unfold overlay_get_block_bytes.
  rewrite <-(app_nil_r (layers s)) at 1.
  rewrite (get_loop_missed id (layers s) [] [] (counters s)) by (done || lia). cbn [app get_loop].
  rewrite drop_ge, app_nil_r by lia. by destruct (last_error_of _).
Qed.

(** A write reaches every writable layer, whatever the others answer. *)
Lemma put_loop_spec id b ls : forall att le,
  Forall (fun p => store_ok p.2) ls ->
  put_loop id b att le ls =
    (Ok (att || existsb (fun p => accepts_direct_writes p.1) ls,
         match last_error_of (omap (write_answer id b) ls) with Some e => Some e | None => le end),
     map (written id b) ls).
Proof.
  induction ls as [|[role l] ls IH]; intros att le Hok; cbn [put_loop existsb map].
  - by rewrite orb_false_r.
  - apply Forall_cons in Hok as [Hok1 Hok]. unfold written at 1, write_answer. cbn [fst snd omap list_omap].
    destruct (accepts_direct_writes role) eqn:Er; cbn [orb].
    + rewrite orb_true_r. destruct (put_ok_laws id b l Hok1) as (_ & Hnp & _).
      destruct (put_block_bytes id b l) as [[u|e|] l'] eqn:Ep; cbn [fst snd] in *; [| |done].
      * rewrite IH by done. done.
      * rewrite IH by done. cbn [orb]. do 3 f_equal. unfold last_error_of. cbn [omap list_omap error_of].
        destruct (omap error_of _) as [|x l0] using rev_ind; [done|]. by rewrite app_comm_cons, !last_snoc.
    + rewrite IH by done. done.
Qed.

Lemma overlay_put_spec id b s :
  overlay_ok s ->
  overlay_put_block_bytes id b s =
    (if existsb (fun p => accepts_direct_writes p.1) (layers s) then
       match last_error_of (omap (write_answer id b) (layers s)) with Some e => Err e | None => Ok tt end
     else Err no_writable_error,
     set_layers s (map (written id b) (layers s))).
Proof.
  intros [_ Hok]. unfold overlay_put_block_bytes. rewrite put_loop_spec by done. cbn [rbind orb].
  destruct (existsb _ _); [|done]. by destruct (last_error_of _).
Qed.

(** ** The contract of the overlay *)
Lemma refilled_stored id b p k c :
  store_ok p.2 -> stored (refilled id b p).2 k c -> stored p.2 k c \/ (k = id /\ c = b).
Proof.
  intros Hok. unfold refilled. destruct (accepts_refill p.1); [|by left]. by apply put_ok_laws.
Qed.

Lemma written_stored id b p k c :
  store_ok p.2 -> stored (written id b p).2 k c -> stored p.2 k c \/ (k = id /\ c = b).
Proof.
  intros Hok. unfold written. destruct (accepts_direct_writes p.1); [|by left]. by apply put_ok_laws.
Qed.

Lemma refilled_ok id b p : store_ok p.2 -> store_ok (refilled id b p).2.
Proof. intros Hok. unfold refilled. destruct (accepts_refill p.1); [|done]. by apply put_ok_laws. Qed.
Lemma written_ok id b p : store_ok p.2 -> store_ok (written id b p).2.
Proof. intros Hok. unfold written. destruct (accepts_direct_writes p.1); [|done]. by apply put_ok_laws. Qed.

Lemma answer_stored id p b : store_ok p.2 -> answer id p = Ok (Some b) -> stored p.2 id b.
Proof.
  intros Hok. unfold answer. destruct (get_block_bytes id p.2) as [r l'] eqn:E. cbn. intros ->.
  destruct (get_law _ _ _ _ Hok E) as (_ & _ & Hs & _). by apply Hs.
Qed.

#[export] Program Instance overlay_laws : StoreLaws (OverlayBlockStore L) := {|
  store_ok := overlay_ok; stored := overlay_stored
|}.
Next Obligation.
  intros s k r s' Hok Hg. change (overlay_get_block_bytes k s = (r, s')) in Hg.
  pose proof Hok as [Hlen HF].
  destruct (missed_split k (layers s)) as [Hm|(above & p & below & b & Hl & Hm & Hb)].
  - rewrite (overlay_get_miss k s Hok Hm) in Hg. injection Hg as <- <-. split_and!.
    + split; cbn; [|by apply asked_all_ok]. rewrite length_zip_with, length_map. lia.
    + by destruct (last_error_of _).
    + intros b. by destruct (last_error_of _).
    + intros j c (q & Hq & Hs). cbn in Hq. apply list_elem_of_fmap in Hq as (q0 & -> & Hq0).
      exists q0. split; [done|]. rewrite Forall_forall in HF. by apply (asked_stored k), Hs; apply HF.
  - rewrite (overlay_get_hit k s above p below b Hok Hl Hm Hb) in Hg. injection Hg as <- <-.
    rewrite Hl in HF, Hlen. apply Forall_app in HF as [HF1 [Hp HF2]%Forall_cons].
    rewrite length_app in Hlen. cbn in Hlen. split_and!.
    + split; cbn.
      * rewrite !length_app, !length_map, length_zip_with, length_app, length_drop. cbn. lia.
      * apply Forall_app. split.
        -- apply Forall_map. eapply Forall_impl; [by apply asked_all_ok|]. intros q. apply refilled_ok.
        -- constructor; [by apply asked_ok|done].
    + done.
    + intros c [= ->]. exists p. split; [rewrite Hl; set_solver|]. by apply answer_stored.
    + intros j c (q & Hq & Hs). cbn in Hq. unfold overlay_stored. rewrite Hl. rewrite Forall_forall in HF1.
      apply elem_of_app in Hq as [Hq|[->|Hq]%elem_of_cons].
      * apply list_elem_of_fmap in Hq as (q1 & -> & Hq1). apply list_elem_of_fmap in Hq1 as (q0 & -> & Hq0).
        destruct (refilled_stored k b _ j c (asked_ok k q0 (HF1 q0 Hq0)) Hs) as [Hs'|[-> ->]].
        -- exists q0. split; [set_solver|]. apply (asked_stored k); [by apply HF1|done].
        -- exists p. split; [set_solver|]. by apply answer_stored.
      * exists p. split; [set_solver|]. by apply (asked_stored k).
      * exists q. split; [set_solver|done].
Qed.
Next Obligation.
  intros s k b r s' Hok Hp. change (overlay_put_block_bytes k b s = (r, s')) in Hp.
  rewrite (overlay_put_spec k b s Hok) in Hp. injection Hp as <- <-. destruct Hok as [Hlen HF]. split_and!.
  - split; cbn; [by rewrite length_map|]. apply Forall_map. eapply Forall_impl; [exact HF|].
    intros p. apply written_ok.
  - destruct (existsb _ _); [|done]. by destruct (last_error_of _).
  - intros j c (q & Hq & Hs). cbn in Hq. apply list_elem_of_fmap in Hq as (q0 & -> & Hq0).
    rewrite Forall_forall in HF. destruct (written_stored k b q0 j c (HF q0 Hq0) Hs) as [Hs'|?]; [|by right].
    left. by exists q0.
Qed.

(** ** Enumeration *)
Lemma stream_layer_ok ids : forall seen,
  stream_layer seen (map Ok ids) = (map Ok (first_occurrences seen ids), list_to_set ids ∪ seen, false).
Proof.
  induction ids as [|id ids IH]; intros seen; cbn [map stream_layer first_occurrences list_to_set].
  - by rewrite (left_id_L ∅ (∪)).
  - destruct (decide (id ∈ seen)) as [Hin|Hin].
    + rewrite IH. f_equal. f_equal. set_solver.
    + rewrite IH. cbn [map]. f_equal. f_equal. set_solver.
Qed.

Lemma first_occurrences_app seen ids jds :
  first_occurrences seen (ids ++ jds)
  = first_occurrences seen ids ++ first_occurrences (list_to_set ids ∪ seen) jds.
Proof.
  revert seen. induction ids as [|id ids IH]; intros seen; cbn [app first_occurrences list_to_set].
  - by rewrite (left_id_L ∅ (∪)).
  - destruct (decide (id ∈ seen)) as [Hin|Hin]; rewrite IH.
    + do 2 f_equal. set_solver.
    + cbn. do 3 f_equal. set_solver.
Qed.

Lemma first_occurrences_spec ids : forall seen,
  NoDup (first_occurrences seen ids)
  /\ forall id, id ∈ first_occurrences seen ids <-> id ∈ ids /\ id ∉ seen.
Proof.
  induction ids as [|id ids IH]; intros seen; cbn [first_occurrences]; [split; [constructor|set_solver]|].
  destruct (decide (id ∈ seen)) as [Hin|Hin].
  - destruct (IH seen) as [HN He]. split; [done|]. intros j. rewrite He. set_solver.
  - destruct (IH ({[id]} ∪ seen)) as [HN He]. split.
    + constructor; [|done]. rewrite He. set_solver.
    + intros j. rewrite elem_of_cons, He. destruct (decide (j = id)) as [->|]; set_solver.
Qed.

Lemma stream_layers_ok ls idss seen :
  Forall2 (fun p ids => iter_block_ids p.2 = Ok (map Ok ids)) ls idss ->
  stream_layers seen ls = map Ok (first_occurrences seen (concat idss)).
Proof.
  intros HF. revert seen. induction HF as [|[role l] ids ls idss Hi HF IH]; intros seen; [done|].
  cbn in *. rewrite Hi, stream_layer_ok, first_occurrences_app, map_app. f_equal. apply IH.
Qed.

(** Whatever the layers answer, no identifier is listed twice. *)
Lemma stream_layer_NoDup items : forall seen out seen' stop,
  stream_layer seen items = (out, seen', stop) ->
  NoDup (omap item_id out) /\ (forall id, id ∈ omap item_id out -> id ∉ seen /\ id ∈ seen') /\ seen ⊆ seen'.
Proof.
  induction items as [|[id|e|] items IH]; intros seen out seen' stop Hs; cbn in Hs; simplify_eq; cbn;
    try (split_and!; [constructor|set_solver|done]).
  destruct (decide (id ∈ seen)); [by eapply IH|].
  destruct (stream_layer _ items) as [[o s1] st] eqn:E. simplify_eq. cbn.
  destruct (IH _ _ _ _ E) as (HN & He & Hsub). split_and!.
  - constructor; [|done]. intros Hin. destruct (He id Hin). set_solver.
  - intros j [->|Hj]%elem_of_cons; [set_solver|]. destruct (He j Hj). set_solver.
  - set_solver.
Qed.

Lemma stream_layers_NoDup ls : forall seen,
  NoDup (omap item_id (stream_layers seen ls))
  /\ forall id, id ∈ omap item_id (stream_layers seen ls) -> id ∉ seen.
Proof.
  induction ls as [|[role l] ls IH]; intros seen; cbn [stream_layers]; [split; [constructor|set_solver]|].
  destruct (iter_block_ids l) as [items|e|]; [|cbn; split; [constructor|set_solver]..].
  destruct (stream_layer seen items) as [[out seen'] stop] eqn:E.
  destruct (stream_layer_NoDup _ _ _ _ _ E) as (HN & He & Hsub). rewrite omap_app.
  destruct stop.
  - cbn. rewrite app_nil_r. split; [done|]. intros id Hid. by apply He.
  - destruct (IH seen') as [HN' He']. split.
    + apply NoDup_app. split_and!; [done| |done]. intros id Hid Hid'. apply He in Hid. apply He' in Hid'. tauto.
    + intros id [Hid|Hid]%elem_of_app; [by apply He|]. apply He' in Hid. set_solver.
Qed.
End layers.

(** ** Properties *)
Section properties.
Context {L : Type} `{StoreLaws L}.

(** C28 A read of an overlay answers with the first layer that has the block, whatever
    missed or failed above it; exactly the cache layers above the hit are refilled, each
    asked layer counts one hit, miss or error, and when no layer has the block the
    answer is the last error, or a miss if there was none. *)
Theorem overlay_read_priority id s :
  overlay_ok s ->
  (forall above p below b,
   layers s = above ++ p :: below -> Forall (missed id) above -> answer id p = Ok (Some b) ->
   overlay_get_block_bytes id s =
     (Ok (Some b),
      {| layers := map (refilled id b) (map (asked id) above) ++ asked id p :: below;
         counters := zip_with (fun q c => count_answer (answer id q) c) (above ++ [p]) (counters s)
           ++ drop (S (length above)) (counters s) |}))
  /\ (Forall (missed id) (layers s) ->
   overlay_get_block_bytes id s =
     (match last_error_of (map (answer id) (layers s)) with Some e => Err e | None => Ok None end,
      {| layers := map (asked id) (layers s);
         counters := zip_with (fun q c => count_answer (answer id q) c) (layers s) (counters s) |}))
  /\ (Forall (missed id) (layers s) \/ exists above p below b,
      layers s = above ++ p :: below /\ Forall (missed id) above /\ answer id p = Ok (Some b)).
Proof.
  intros Hok. split; [|split].
  - intros above p below b. by apply overlay_get_hit.
  - by apply overlay_get_miss.
  - apply missed_split.
Qed.

(** A write of an overlay goes to every layer that accepts direct writes, even after
    one of them failed, and to no other; it succeeds exactly when there is such a layer
    and all of them succeed. *)
Theorem overlay_write_fanout id b s :
  overlay_ok s ->
  (overlay_put_block_bytes id b s).2 = set_layers s (map (written id b) (layers s))
  /\ ((overlay_put_block_bytes id b s).1 = Ok tt <->
      (exists p, p ∈ layers s /\ accepts_direct_writes p.1 = true)
      /\ forall p, p ∈ layers s -> accepts_direct_writes p.1 = true ->
         (put_block_bytes id b p.2).1 = Ok tt).
Proof.
  intros Hok. rewrite overlay_put_spec by done. cbn [fst snd]. split; [done|].
  destruct Hok as [_ HF].
  assert (last_error_of (omap (write_answer id b) (layers s)) = None <->
    forall p, p ∈ layers s -> accepts_direct_writes p.1 = true -> (put_block_bytes id b p.2).1 = Ok tt) as Hle.
  { unfold last_error_of. rewrite last_None, <-Forall_forall. induction HF as [|p ls Hp HF IH]; [by split|].
    rewrite Forall_cons, <-IH. cbn [omap list_omap]. unfold write_answer at 1.
    destruct (accepts_direct_writes p.1); [|naive_solver]. cbn [omap list_omap].
    destruct (put_ok_laws id b p.2 Hp) as (_ & Hnp & _).
    destruct ((put_block_bytes id b p.2).1) as [[]|e|]; cbn [error_of]; naive_solver. }
  destruct (existsb _ _) eqn:Ee.
  - apply existsb_exists in Ee as (p & Hp%list_elem_of_In & Hpw).
    destruct (last_error_of _) as [e|]; naive_solver.
  - split; [done|]. intros [(p & Hp & Hpw) _]. exfalso. apply Bool.not_true_iff_false in Ee. apply Ee.
    apply existsb_exists. exists p. by rewrite <-list_elem_of_In.
Qed.

(** Enumerating an overlay gives the identifiers of its layers in layer order, each
    once at its first occurrence; whatever a layer does, no identifier is repeated. *)
Theorem overlay_enumeration s :
  layers s <> [] ->
  (forall idss, Forall2 (fun p ids => iter_block_ids p.2 = Ok (map Ok ids)) (layers s) idss ->
   list_block_ids s = Ok (first_occurrences ∅ (concat idss))
   /\ NoDup (first_occurrences ∅ (concat idss))
   /\ forall id, id ∈ first_occurrences ∅ (concat idss) <-> exists ids, ids ∈ idss /\ id ∈ ids)
  /\ (forall items, iter_block_ids s = Ok items -> NoDup (omap item_id items)).
Proof.
  intros Hne. split.
  - intros idss HF. split; [|split].
    + unfold list_block_ids. cbn. unfold overlay_iter_block_ids. destruct (layers s) as [|[role l] ls]; [done|].
      inversion HF as [|? ids ? idss' Hi HF']; subst. cbn in Hi. rewrite Hi. cbn [rbind].
      rewrite stream_layer_ok. rewrite (stream_layers_ok _ _ _ HF'). cbn [concat rbind].
      rewrite first_occurrences_app, <-map_app, collect_map_map. by apply collect_map_id.
    + apply first_occurrences_spec.
    + intros id. rewrite (proj2 (first_occurrences_spec (concat idss) ∅) id). clear HF.
      induction idss as [|ids idss IH]; [set_solver|]. cbn. set_solver.
  - cbn. unfold overlay_iter_block_ids. destruct (layers s) as [|[role l] ls]; [done|].
    intros items Hi. inv_ok. destruct (stream_layer ∅ a) as [[out seen'] stop] eqn:E. injection Hi as <-.
    destruct (stream_layer_NoDup _ _ _ _ _ E) as (HN & He & _). rewrite omap_app.
    destruct stop; [by rewrite app_nil_r|].
    destruct (stream_layers_NoDup ls seen') as [HN' He']. apply NoDup_app. split_and!; [done| |done].
    intros id Hid Hid'. apply He in Hid. apply He' in Hid'. tauto.
Qed.
End properties.

(** ** Witnesses *)
Section witnesses.
#[local] Existing Instances sample_order.

Lemma sample_overlay_ok : overlay_ok sample_overlay.
Proof.
  split; [reflexivity|]. repeat constructor; vm_compute; discriminate.
Qed.

Lemma overlay_read_priority_witness :
  exists s', overlay_get_block_bytes (hash_of_N 2) sample_overlay = (Ok (Some [Byte.x01; Byte.x02]), s').
Proof.
  eexists. apply (proj1 (overlay_read_priority (hash_of_N 2) sample_overlay sample_overlay_ok)
    [(Cache, set_entries sample_store ∅ 0)] (Writable, sample_store) []).
  - reflexivity.
  - apply Forall_cons. split; [|constructor]. intros b. vm_compute. discriminate.
  - vm_compute. reflexivity.
Defined.

Lemma overlay_write_fanout_witness :
  (overlay_put_block_bytes (hash_of_N 3) [Byte.x07] sample_overlay).1 = Ok tt.
Proof.
  apply (proj2 (overlay_write_fanout (hash_of_N 3) [Byte.x07] sample_overlay sample_overlay_ok)). split.
  - exists (Writable, sample_store). split; [right; left|reflexivity].
  - intros p [->|[->|Hp]%elem_of_cons]%elem_of_cons Hw; [discriminate Hw|vm_compute; reflexivity|].
    by apply elem_of_nil in Hp.
Defined.

Lemma overlay_enumeration_witness :
  exists ids, list_block_ids sample_overlay = Ok ids /\ NoDup ids.
Proof.
  eexists. destruct (proj1 (overlay_enumeration sample_overlay ltac:(discriminate))
    [[]; (map_to_list (entries sample_store)).*1]) as (Hl & HN & _).
  - repeat constructor.
  - exact (conj Hl HN).
Defined.
End witnesses.
