(* ===== verification/Search.v ===== *)
(** * The search loop

    crates/lexongraph-search/src/lib.rs without the default policies (those are in
    [SearchPolicy]) and the conformance suite: candidates and their order, the
    loading and scoring of a block, one round of the frontier loop, the loop, and
    the telemetry. The three traits a searcher is parameterised by are classes; an
    error of theirs is only ever shown, so each comes with its [Display]. *)
From S2P Require Import Prelude Ordering Hash Cbor Fields Ieee Ebcp EbcpPayload BlockV1.
From S2P Require Import BlockV2 Store.

Definition MAX_CONCURRENT_CHILD_LOADS : N := 32.

(** ** Interfaces: [EmbeddingCompatibility], [CandidateScorer], [FrontierSelector] *)
Class EmbeddingCompatibility (Target : Type) := {
  ec_error : Type;
  ec_show : ec_error -> string;
  ensure_compatible : Target -> EmbeddingSpec -> result ec_error unit
}.

Class CandidateScorer (Target : Type) := {
  cs_error : Type;
  cs_show : cs_error -> string;
  cs_score : Type;
  cs_cmp : cs_score -> cs_score -> comparison;
  score : Target -> bytes -> EmbeddingSpec -> result cs_error cs_score
}.

Record ExpandableFrontierCandidate (Score : Type) := {
  exp_child : BlockHash; exp_depth : N; exp_level : N; exp_score : Score;
  exp_embedding : bytes; exp_spec : EmbeddingSpec
}.
Arguments exp_child {Score} _.
Arguments exp_depth {Score} _.
Arguments exp_level {Score} _.
Arguments exp_score {Score} _.
Arguments exp_embedding {Score} _.
Arguments exp_spec {Score} _.

Class FrontierSelector (Score : Type) := {
  fs_error : Type;
  fs_show : fs_error -> string;
  select : list (ExpandableFrontierCandidate Score) -> N -> result fs_error (list BlockHash)
}.

(** ** Results, errors, telemetry *)
Record LeafSearchResult := { leaf_block_id : BlockHash; result_entry : LeafEntry; position : N }.
Record SearchResult := { leaves : list LeafSearchResult }.

Inductive SearchTerminationKind :=
| KSuccess | KExhausted | KInvalidTraversalWidth | KMissingRootBlock | KRootLoadFailure
| KMissingChildBlock | KChildLoadFailure | KMalformedBlock | KIncompatibleEmbedding
| KScoringFailure | KFrontierSelectionFailure.

Record SearchTelemetrySummary := {
  beam_width : N; distinct_blocks_visited : N; max_routing_depth : N;
  termination : SearchTerminationKind
}.

Inductive SearchError :=
| InvalidTraversalWidth (w : N)
| MissingRootBlock (root_id : BlockHash)
| RootLoad (error : BlockStoreError)
| MissingChildBlock (child_id : BlockHash)
| ChildLoad (child_id : BlockHash) (error : BlockStoreError)
| MalformedBlock (block_id : BlockHash) (error : BlockStoreError)
| IncompatibleEmbedding (block_id : BlockHash) (message : string)
| ScoringFailure (block_id : BlockHash) (message : string)
| FrontierSelectionFailure (message : string)
| Exhausted (requested reachable_leaves : N).

(** [impl fmt::Display for SearchError] *)
Definition SearchError_to_string (e : SearchError) : string :=
  match e with
  | InvalidTraversalWidth w => "search traversal width must be at least 1, got " +:+ pretty w
  | MissingRootBlock root_id =>
      "root block " +:+ BlockHash_to_string root_id +:+ " was not present in the block store"
  | RootLoad error => "failed to load root block: " +:+ BlockStoreError_to_string error
  | MissingChildBlock child_id =>
      "selected child block " +:+ BlockHash_to_string child_id +:+ " was not present in the block store"
  | ChildLoad child_id error =>
      "failed to load child block " +:+ BlockHash_to_string child_id +:+ ": "
        +:+ BlockStoreError_to_string error
  | MalformedBlock block_id error =>
      "block " +:+ BlockHash_to_string block_id +:+ " was malformed or non-conforming: "
        +:+ BlockStoreError_to_string error
  | IncompatibleEmbedding block_id message =>
      "block " +:+ BlockHash_to_string block_id +:+ " is incompatible with the target embedding: "
        +:+ message
  | ScoringFailure block_id message =>
      "failed to score candidates from block " +:+ BlockHash_to_string block_id +:+ ": " +:+ message
  | FrontierSelectionFailure message => "failed to select frontier expansion targets: " +:+ message
  | Exhausted requested reachable_leaves =>
      "search exhausted after finding " +:+ pretty reachable_leaves
        +:+ " reachable leaves, fewer than requested " +:+ pretty requested
  end%stdpp.

(** [Error::source] *)
Definition SearchError_source (e : SearchError) : option BlockStoreError :=
  match e with
  | RootLoad error | ChildLoad _ error | MalformedBlock _ error => Some error
  | _ => None
  end.

(** [TelemetryMode]; an observer, when there is one, receives the summaries. *)
Inductive TelemetryMode := Disabled | Enabled (observer : bool).
Definition mode_enabled (m : TelemetryMode) : bool := match m with Enabled _ => true | Disabled => false end.
Definition mode_observer (m : TelemetryMode) : bool := match m with Enabled o => o | Disabled => false end.

(** [SearchTelemetryCollector] *)
Record SearchTelemetryCollector := {
  visited_blocks : option (gset BlockHash); enabled : bool; collected : SearchTelemetrySummary
}.

Definition set_termination (k : SearchTerminationKind) (s : SearchTelemetrySummary) : SearchTelemetrySummary :=
  {| beam_width := beam_width s; distinct_blocks_visited := distinct_blocks_visited s;
     max_routing_depth := max_routing_depth s; termination := k |}.

Definition collector_new (w : N) (enabled : bool) : SearchTelemetryCollector :=
  {| visited_blocks := if enabled then Some ∅ else None; enabled := enabled;
     collected := {| beam_width := w; distinct_blocks_visited := 0; max_routing_depth := 0;
                     termination := KSuccess |} |}.

Definition record_visited_block (block_id : BlockHash) (depth : N) (t : SearchTelemetryCollector)
  : SearchTelemetryCollector :=
  match visited_blocks t with
  | None => t
  | Some visited =>
      let visited' := {[block_id]} ∪ visited in
      {| visited_blocks := Some visited'; enabled := enabled t;
         collected := {| beam_width := beam_width (collected t);
                         distinct_blocks_visited := N.of_nat (size visited');
                         max_routing_depth := N.max (max_routing_depth (collected t)) depth;
                         termination := termination (collected t) |} |}
  end.

Definition finish (k : SearchTerminationKind) (t : SearchTelemetryCollector) : SearchTelemetryCollector :=
  if enabled t then
    {| visited_blocks := visited_blocks t; enabled := enabled t;
       collected := set_termination k (collected t) |}
  else t.

Definition error_kind (e : SearchError) : SearchTerminationKind :=
  match e with
  | InvalidTraversalWidth _ => KInvalidTraversalWidth
  | MissingRootBlock _ => KMissingRootBlock
  | RootLoad _ => KRootLoadFailure
  | MissingChildBlock _ => KMissingChildBlock
  | ChildLoad _ _ => KChildLoadFailure
  | MalformedBlock _ _ => KMalformedBlock
  | IncompatibleEmbedding _ _ => KIncompatibleEmbedding
  | ScoringFailure _ _ => KScoringFailure
  | FrontierSelectionFailure _ => KFrontierSelectionFailure
  | Exhausted _ _ => KExhausted
  end.

Definition finish_success : SearchTelemetryCollector -> SearchTelemetryCollector := finish KSuccess.
Definition finish_with_error (e : SearchError) : SearchTelemetryCollector -> SearchTelemetryCollector :=
  finish (error_kind e).

(** [emit_search_telemetry]: the summaries an observer is given. *)
Definition emit_search_telemetry (m : TelemetryMode) (t : SearchTelemetryCollector)
  : list SearchTelemetrySummary :=
  if mode_observer m && enabled t then [collected t] else [].

(** ** Candidates *)
Inductive SearchCandidate (Score : Type) :=
| CBranch (child : BlockHash) (depth level : N) (embedding : bytes) (spec : EmbeddingSpec) (sc : Score)
| CLeaf (block_id : BlockHash) (level : N) (entry : LeafEntry) (sc : Score).
Arguments CBranch {Score} child depth level embedding spec sc.
Arguments CLeaf {Score} block_id level entry sc.

Section candidates.
Context {Score : Type}.

Definition candidate_score (c : SearchCandidate Score) : Score :=
  match c with CBranch _ _ _ _ _ sc | CLeaf _ _ _ sc => sc end.
Definition candidate_level (c : SearchCandidate Score) : N :=
  match c with CBranch _ _ level _ _ _ | CLeaf _ level _ _ => level end.
Definition candidate_identity (c : SearchCandidate Score) : bytes :=
  match c with CBranch child _ _ _ _ _ => as_bytes child | CLeaf block_id _ _ _ => as_bytes block_id end.
Definition is_terminal (c : SearchCandidate Score) : bool := (candidate_level c =? 0)%N.

(** [compare_candidates]: higher scores first, then lower levels, then identity. *)
Definition compare_candidates (cmp : Score -> Score -> comparison) (left right : SearchCandidate Score)
  : comparison :=
  then_with (cmp (candidate_score right) (candidate_score left))
    (then_with (N.compare (candidate_level left) (candidate_level right))
       (bytes_cmp (candidate_identity left) (candidate_identity right))).

(** The two [frontier.retain] calls: drop the branches to the given children. *)
Definition retain_unexpanded (expanded : gset BlockHash) (frontier : list (SearchCandidate Score))
  : list (SearchCandidate Score) :=
  List.filter (fun c => match c with CBranch child _ _ _ _ _ => negb (bool_decide (child ∈ expanded))
                        | CLeaf _ _ _ _ => true end) frontier.

(** [deduplicated_expandable_frontier]; [seen] is [seen_children]. *)
Fixpoint dedup_loop (expanded seen : gset BlockHash) (frontier : list (SearchCandidate Score))
  : list (ExpandableFrontierCandidate Score) :=
  match frontier with
  | [] => []
  | CLeaf _ _ _ _ :: rest => dedup_loop expanded seen rest
  | CBranch child depth level embedding spec sc :: rest =>
      if bool_decide (child ∈ expanded) || bool_decide (child ∈ seen) then dedup_loop expanded seen rest
      else {| exp_child := child; exp_depth := depth; exp_level := level; exp_score := sc;
              exp_embedding := embedding; exp_spec := spec |}
           :: dedup_loop expanded ({[child]} ∪ seen) rest
  end.
Definition deduplicated_expandable_frontier (frontier : list (SearchCandidate Score))
  (expanded : gset BlockHash) : list (ExpandableFrontierCandidate Score) :=
  dedup_loop expanded ∅ frontier.

(** [validate_selected_children] *)
Definition selection_count_error (got expected size w : N) : SearchError :=
  FrontierSelectionFailure
    ("frontier selector returned " +:+ pretty got +:+ " child blocks, expected " +:+ pretty expected
     +:+ " for frontier size " +:+ pretty size +:+ " and width " +:+ pretty w)%stdpp.
Definition unknown_child_error (child : BlockHash) : SearchError :=
  FrontierSelectionFailure
    ("frontier selector returned unknown child block " +:+ BlockHash_to_string child)%stdpp.
Definition duplicate_child_error (child : BlockHash) : SearchError :=
  FrontierSelectionFailure
    ("frontier selector returned duplicate child block " +:+ BlockHash_to_string child)%stdpp.

Fixpoint check_selected (allowed seen : gset BlockHash) (selected : list BlockHash)
  : result SearchError unit :=
  match selected with
  | [] => Ok tt
  | child :: rest =>
      guard? bool_decide (child ∈ allowed) else unknown_child_error child in
      guard? negb (bool_decide (child ∈ seen)) else duplicate_child_error child in
      check_selected allowed ({[child]} ∪ seen) rest
  end.

Definition validate_selected_children (selected : list BlockHash)
  (frontier : list (ExpandableFrontierCandidate Score)) (w : N) : result SearchError (list BlockHash) :=
  let expected_len := N.min (len frontier) w in
  guard? (len selected =? expected_len)%N
    else selection_count_error (len selected) expected_len (len frontier) w in
  let? _ := check_selected (list_to_set (map exp_child frontier)) ∅ selected in
  Ok selected.

(** The depth of the first branch to a child, 1 when there is none. *)
Fixpoint depth_of (child_id : BlockHash) (frontier : list (SearchCandidate Score)) : N :=
  match frontier with
  | [] => 1
  | CBranch child depth _ _ _ _ :: rest =>
      if bool_decide (child = child_id) then depth else depth_of child_id rest
  | CLeaf _ _ _ _ :: rest => depth_of child_id rest
  end.
(** The returned leaves; a branch among them is [unreachable!]. *)
Fixpoint leaf_results (position : N) (l : list (SearchCandidate Score)) : result SearchError (list LeafSearchResult) :=
  match l with
  | [] => Ok []
  | CLeaf block_id _ entry _ :: l' =>
      let? rest := leaf_results (position + 1) l' in
      Ok ({| leaf_block_id := block_id; result_entry := entry; position := position |} :: rest)
  | CBranch _ _ _ _ _ _ :: _ => Panic
  end.

End candidates.

(** [iter.take(n)] *)
Definition take_n {A} (n : N) (l : list A) : list A := take (N.to_nat (N.min n (len l))) l.

(** ** Loading and scoring *)
(** [classify_store_error] *)
Definition classify_store_error (block_id : BlockHash) (is_root : bool) (error : BlockStoreError)
  : SearchError :=
  match error with
  | BackendFailure _ => if is_root then RootLoad error else ChildLoad block_id error
  | _ => MalformedBlock block_id error
  end.

Section search.
Context {S Target : Type} `{BlockStore S} `{CborCodec} `{Sha256} `{HalfCrate}.
Context `{EmbeddingCompatibility Target} `{CS : CandidateScorer Target} `{FrontierSelector cs_score}.
Notation candidate := (SearchCandidate cs_score).

(** [load_validated_block] *)
Definition load_validated_block (block_id : BlockHash) (is_root : bool) (s : S)
  : result SearchError ValidatedBlock * S :=
  match get block_id s with
  | (Ok (Some validated), s') => (Ok validated, s')
  | (Ok None, s') =>
      (Err (if is_root then MissingRootBlock block_id else MissingChildBlock block_id), s')
  | (Err error, s') => (Err (classify_store_error block_id is_root error), s')
  | (Panic, s') => (Panic, s')
  end.

(** The candidate of one branch entry and of one leaf entry. *)
Definition branch_candidate (block_id : BlockHash) (target : Target) (depth level : N)
  (stored_spec : EmbeddingSpec) (descriptor : option EbcpDescriptor) (comparison_spec : EmbeddingSpec)
  (entry : BranchEntry) : result SearchError candidate :=
  let? embedding :=
    match descriptor with
    | Some d =>
        rmap encode_f32_values
          (map_err (fun e => ScoringFailure block_id (BlockError_to_string e))
             (reconstruct_logical_branch_embedding_f32 (branch_embedding entry) stored_spec (Some d)))
    | None => Ok (branch_embedding entry)
    end in
  rmap (fun sc => CBranch (child entry) (depth + 1) level embedding comparison_spec sc)
    (map_err (fun e => ScoringFailure block_id (cs_show e)) (score target embedding comparison_spec)).

Definition leaf_candidate (block_id : BlockHash) (target : Target) (level : N) (spec : EmbeddingSpec)
  (entry : LeafEntry) : result SearchError candidate :=
  rmap (fun sc => CLeaf block_id level entry sc)
    (map_err (fun e => ScoringFailure block_id (cs_show e)) (score target (leaf_embedding entry) spec)).

(** [build_block_candidates] after the visit is recorded. *)
Definition score_block (block_id : BlockHash) (target : Target) (validated : ValidatedBlock) (depth : N)
  : result SearchError (list candidate) :=
  match into_entries validated with
  | BranchEntries meta entries =>
      let? descriptor := map_err (fun e => ScoringFailure block_id (BlockError_to_string e))
        (parse_branch_ebcp_descriptor (meta_spec meta) (meta_ext meta)) in
      let comparison_spec :=
        match descriptor with Some d => logical_embedding_spec d | None => meta_spec meta end in
      let? _ := map_err (fun e => IncompatibleEmbedding block_id (ec_show e))
        (ensure_compatible target comparison_spec) in
      collect_map (branch_candidate block_id target depth (meta_level meta) (meta_spec meta)
        descriptor comparison_spec) entries
  | LeafEntries meta entries =>
      let? _ := map_err (fun e => IncompatibleEmbedding block_id (ec_show e))
        (ensure_compatible target (meta_spec meta)) in
      collect_map (leaf_candidate block_id target (meta_level meta) (meta_spec meta)) entries
  end.

Definition build_block_candidates (block_id : BlockHash) (target : Target) (validated : ValidatedBlock)
  (depth : N) (t : SearchTelemetryCollector) : result SearchError (list candidate) * SearchTelemetryCollector :=
  (score_block block_id target validated depth, record_visited_block block_id depth t).

(** [load_block_candidates] *)
Definition load_block_candidates (block_id : BlockHash) (target : Target) (is_root : bool) (depth : N)
  (t : SearchTelemetryCollector) (s : S)
  : result SearchError (list candidate) * SearchTelemetryCollector * S :=
  match load_validated_block block_id is_root s with
  | (Ok validated, s') =>
      let '(r, t') := build_block_candidates block_id target validated depth t in (r, t', s')
  | (Err e, s') => (Err e, t, s')
  | (Panic, s') => (Panic, t, s')
  end.

(** ** One round *)
Record LoopState := {
  frontier : list candidate; expanded_children : gset BlockHash;
  telemetry : SearchTelemetryCollector; store_state : S
}.

Record Outcome := {
  out_result : result SearchError (SearchResult * SearchTelemetrySummary);
  out_emitted : list SearchTelemetrySummary;
  out_store : S
}.

(** The error exits: finish the telemetry, emit it, return the error. *)
Definition fail_with (mode : TelemetryMode) (e : SearchError) (t : SearchTelemetryCollector) (s : S) : Outcome :=
  let t' := finish_with_error e t in
  {| out_result := Err e; out_emitted := emit_search_telemetry mode t'; out_store := s |}.
Definition panic_with (s : S) : Outcome :=
  {| out_result := Panic; out_emitted := []; out_store := s |}.

(** [join_all] over one chunk: every load runs, in order here. *)
Fixpoint load_chunk (l : list (BlockHash * N)) (s : S)
  : list (BlockHash * N * result SearchError ValidatedBlock) * S :=
  match l with
  | [] => ([], s)
  | (child_id, depth) :: l' =>
      let '(r, s1) := load_validated_block child_id false s in
      let '(rs, s2) := load_chunk l' s1 in
      ((child_id, depth, r) :: rs, s2)
  end.

(** The loop over the loaded children of a chunk. *)
Fixpoint build_chunk (target : Target) (loaded : list (BlockHash * N * result SearchError ValidatedBlock))
  (next : list candidate) (expanded : gset BlockHash) (t : SearchTelemetryCollector)
  : result SearchError (list candidate * gset BlockHash) * SearchTelemetryCollector :=
  match loaded with
  | [] => (Ok (next, expanded), t)
  | (child_id, depth, validated) :: rest =>
      match validated with
      | Ok v =>
          let '(r, t') := build_block_candidates child_id target v depth t in
          match r with
          | Ok candidates => build_chunk target rest (next ++ candidates) ({[child_id]} ∪ expanded) t'
          | Err e => (Err e, t')
          | Panic => (Panic, t')
          end
      | Err e => (Err e, t)
      | Panic => (Panic, t)
      end
  end.

(** The loop over the chunks. *)
Fixpoint expand_chunks (target : Target) (cs : list (list (BlockHash * N))) (next : list candidate)
  (expanded : gset BlockHash) (t : SearchTelemetryCollector) (s : S)
  : result SearchError (list candidate * gset BlockHash) * SearchTelemetryCollector * S :=
  match cs with
  | [] => (Ok (next, expanded), t, s)
  | c :: cs' =>
      let '(loaded, s1) := load_chunk c s in
      let '(r, t1) := build_chunk target loaded next expanded t in
      match r with
      | Ok (next', expanded') => expand_chunks target cs' next' expanded' t1 s1
      | Err e => (Err e, t1, s1)
      | Panic => (Panic, t1, s1)
      end
  end.

(** The frontier at the top of an iteration. *)
Definition ranked_frontier (st : LoopState) : list candidate :=
  sort_by (compare_candidates cs_cmp) (retain_unexpanded (expanded_children st) (frontier st)).

Definition select_round (w : N) (expandable : list (ExpandableFrontierCandidate cs_score))
  : result SearchError (list BlockHash) :=
  let? selected := map_err (fun e => FrontierSelectionFailure (fs_show e)) (select expandable w) in
  validate_selected_children selected expandable w.

(** [w.clamp(1, MAX_CONCURRENT_CHILD_LOADS)] *)
Definition child_load_limit (w : N) : nat :=
  N.to_nat (N.max 1 (N.min w MAX_CONCURRENT_CHILD_LOADS)).

(** The body of the [loop] of [search_internal]. *)
Definition search_round (target : Target) (w n : N) (mode : TelemetryMode) (st : LoopState)
  : Outcome + LoopState :=
  let f := ranked_frontier st in
  let t := telemetry st in
  if (n <=? len f)%N && forallb is_terminal (take_n n f) then
    let t' := finish_success t in
    inl match leaf_results 0 (take_n n f) with
        | Ok ls =>
            {| out_result := Ok ({| leaves := ls |}, collected t');
               out_emitted := emit_search_telemetry mode t'; out_store := store_state st |}
        | Err e => fail_with mode e t (store_state st)
        | Panic => panic_with (store_state st)
        end
  else
    let expandable := deduplicated_expandable_frontier f (expanded_children st) in
    match select_round w expandable with
    | Err e => inl (fail_with mode e t (store_state st))
    | Panic => inl (panic_with (store_state st))
    | Ok [] =>
        inl (fail_with mode (Exhausted n (len (List.filter is_terminal f))) t (store_state st))
    | Ok current_round =>
        let depths := map (fun child_id => (child_id, depth_of child_id f)) current_round in
        match expand_chunks target (chunks (child_load_limit w) depths) [] (expanded_children st) t
                (store_state st) with
        | (Err e, t', s') => inl (fail_with mode e t' s')
        | (Panic, _, s') => inl (panic_with s')
        | (Ok (next, expanded'), t', s') =>
            inr {| frontier := retain_unexpanded (list_to_set current_round) f ++ next;
                   expanded_children := expanded'; telemetry := t'; store_state := s' |}
        end
    end.

(** The loop; [None] when the fuel is spent before it ends. *)
Fixpoint search_loop (fuel : nat) (target : Target) (w n : N) (mode : TelemetryMode) (st : LoopState)
  : option Outcome :=
  match fuel with
  | O => None
  | Datatypes.S fuel' =>
      match search_round target w n mode st with
      | inl o => Some o
      | inr st' => search_loop fuel' target w n mode st'
      end
  end.

(** [search_internal] *)
Definition search_internal (fuel : nat) (root_id : BlockHash) (target : Target) (w n : N)
  (mode : TelemetryMode) (s : S) : option Outcome :=
  let t := collector_new w (mode_enabled mode) in
  if (w =? 0)%N then Some (fail_with mode (InvalidTraversalWidth w) t s)
  else match load_block_candidates root_id target true 0 t s with
  | (Ok f, t', s') =>
      search_loop fuel target w n mode
        {| frontier := f; expanded_children := ∅; telemetry := t'; store_state := s' |}
  | (Err e, t', s') => Some (fail_with mode e t' s')
  | (Panic, _, s') => Some (panic_with s')
  end.

(** [Searcher::search], [search_with_telemetry], [search_with_observer] *)
Definition search (fuel : nat) (root_id : BlockHash) (target : Target) (w n : N) (s : S)
  : option (result SearchError SearchResult) :=
  option_map (fun o => rmap fst (out_result o)) (search_internal fuel root_id target w n Disabled s).
Definition search_with_telemetry (fuel : nat) (root_id : BlockHash) (target : Target) (w n : N) (s : S)
  : option (result SearchError (SearchResult * SearchTelemetrySummary)) :=
  option_map out_result (search_internal fuel root_id target w n (Enabled false) s).
Definition search_with_observer (fuel : nat) (root_id : BlockHash) (target : Target) (w n : N) (s : S)
  : option (result SearchError SearchResult * list SearchTelemetrySummary) :=
  option_map (fun o => (rmap fst (out_result o), out_emitted o))
    (search_internal fuel root_id target w n (Enabled true) s).
End search.
Arguments LoopState S Target {CS} : rename.
Arguments Outcome S : clear implicits.
