(* ===== verification/SearchCorrect.v ===== *)
(** * The search loop: the properties

    The loop is followed through the list of blocks it has loaded: the frontier
    holds the leaf entries of those blocks and the children not expanded yet. From
    that invariant: the search ends on a store with finitely many blocks, returns
    the best of the leaves it has loaded, in order, reports exhaustion truthfully
    and only when every reachable block was loaded, loads each child once, and
    never panics. *)
From S2P Require Import Prelude Ordering Hash Cbor Fields Ieee Ebcp EbcpPayload EbcpCorrect.
From S2P Require Import BlockV1 BlockV1Correct BlockV2 BlockV2Correct Store StoreCorrect Search.

(** ** What a loaded block contributes *)
Definition leaves_of_block (p : BlockHash * ValidatedBlock) : list (BlockHash * LeafEntry) :=
  match val_block p.2 with Leaf b => map (pair p.1) (leaf_entries b) | Branch _ => [] end.

Definition children_of_block (p : BlockHash * ValidatedBlock) : list BlockHash :=
  match val_block p.2 with Branch b => map child (branch_entries b) | Leaf _ => [] end.

Definition all_leaves (loaded : list (BlockHash * ValidatedBlock)) : list (BlockHash * LeafEntry) :=
  concat (map leaves_of_block loaded).

Definition leaf_of {Score} (c : SearchCandidate Score) : option (BlockHash * LeafEntry) :=
  match c with CLeaf block_id _ entry _ => Some (block_id, entry) | CBranch _ _ _ _ _ _ => None end.

Definition child_of {Score} (c : SearchCandidate Score) : option BlockHash :=
  match c with CBranch child _ _ _ _ _ => Some child | CLeaf _ _ _ _ => None end.

(** Level 0 is the leaf level. *)
Definition level_ok {Score} (c : SearchCandidate Score) : Prop :=
  match c with CLeaf _ level _ _ => level = 0%N | CBranch _ _ level _ _ _ => level <> 0%N end.

(** A loaded block: validated against its identifier, and in its normal form. *)
Definition block_ok `{CborCodec} (p : BlockHash * ValidatedBlock) : Prop :=
  val_hash p.2 = p.1 /\ normal (val_block p.2).

(** What can be reached from the root through the loaded blocks. *)
Inductive reached (root : BlockHash) (loaded : list (BlockHash * ValidatedBlock)) : BlockHash -> Prop :=
| reached_root : reached root loaded root
| reached_child p c :
    p ∈ loaded -> reached root loaded p.1 -> c ∈ children_of_block p -> reached root loaded c.

(** Every child of a loaded block is loaded. *)
Definition closed (loaded : list (BlockHash * ValidatedBlock)) : Prop :=
  forall c, c ∈ concat (map children_of_block loaded) -> c ∈ map fst loaded.

Section states.
Context {St Target : Type} `{StoreLaws St} `{CborCodec} `{Sha256} `{HalfCrate}.
Context `{EmbeddingCompatibility Target} `{CS : CandidateScorer Target} `{FrontierSelector cs_score}.

(** No policy panics. *)
Definition policies_total : Prop :=
  (forall (t : Target) spec, ensure_compatible t spec <> Panic)
  /\ (forall (t : Target) b spec, score t b spec <> Panic)
  /\ (forall l w, select l w <> Panic).

(** A state of the store from which [s] was reached by reading. *)
Definition reads_from (s0 s : St) : Prop :=
  store_ok s /\ forall k b, stored s k b -> stored s0 k b.

(** The validated content of a stored block. *)
Definition stored_block (s0 : St) (p : BlockHash * ValidatedBlock) : Prop :=
  exists b, stored s0 p.1 b /\ deserialize_block b p.1 = Ok p.2.

(** The candidates of a block, at some depth. *)
Definition scores_to (t : Target) (p : BlockHash * ValidatedBlock) (cs : list (SearchCandidate cs_score)) : Prop :=
  exists d, score_block p.1 t p.2 d = Ok cs.

(** The frontier [f] of a search that has loaded [loaded]: its leaves are the
    leaf entries of the loaded blocks, its branches lead to their children, every
    child being loaded or in [f], and each candidate has the score of its entry. *)
Record explored (s0 : St) (t : Target) (root : BlockHash) (loaded : list (BlockHash * ValidatedBlock))
  (f : list (SearchCandidate cs_score)) : Prop := {
  ex_root : exists v rest, loaded = (root, v) :: rest /\ NoDup (map fst rest);
  ex_stored : Forall (stored_block s0) loaded;
  ex_reached : forall p, p ∈ loaded -> reached root loaded p.1;
  ex_leaves : omap leaf_of f ≡ₚ all_leaves loaded;
  ex_children : forall c, c ∈ concat (map children_of_block loaded) <->
    c ∈ map fst (tail loaded) \/ c ∈ omap child_of f;
  ex_scored : Forall (fun c => exists p cs, p ∈ loaded /\ scores_to t p cs /\ c ∈ cs) f
}.

(** The state of the loop after [loaded]. *)
Record loop_inv (s0 : St) (t : Target) (root : BlockHash) (loaded : list (BlockHash * ValidatedBlock))
  (st : LoopState St Target) : Prop := {
  li_explored : explored s0 t root loaded (frontier st);
  li_expanded : expanded_children st = list_to_set (map fst (tail loaded));
  li_store : reads_from s0 (store_state st)
}.

(** A success: [n] leaves, the first of the ranked frontier. *)
Definition success_post (s0 : St) (t : Target) (root : BlockHash) (n : N) (on : bool)
  (res : SearchResult) (summary : SearchTelemetrySummary) : Prop :=
  exists loaded f, explored s0 t root loaded f
  /\ (TotalCmp cs_cmp -> StronglySorted (cmp_le (compare_candidates cs_cmp)) f)
  /\ len (leaves res) = n
  /\ map (fun r => Some (leaf_block_id r, result_entry r)) (leaves res) = map leaf_of (take (N.to_nat n) f)
  /\ map position (leaves res) = map N.of_nat (seq 0 (N.to_nat n))
  /\ (on = true -> distinct_blocks_visited summary
        = N.of_nat (size (list_to_set (map fst loaded) : gset BlockHash))).

(** An exhaustion: everything was loaded, and there are fewer leaves than asked. *)
Definition exhausted_post (s0 : St) (t : Target) (root : BlockHash) (n requested reachable : N) : Prop :=
  exists loaded f, explored s0 t root loaded f /\ closed loaded
  /\ requested = n /\ reachable = len (all_leaves loaded) /\ (reachable < requested)%N.

Definition result_kind {A} (r : result SearchError A) : option SearchTerminationKind :=
  match r with Ok _ => Some KSuccess | Err e => Some (error_kind e) | Panic => None end.

(** One summary for the observer, of how the search ended. *)
Definition reports (w : N) (mode : TelemetryMode) (o : Outcome St) : Prop :=
  forall k, result_kind (out_result o) = Some k ->
  exists summary, out_emitted o = (if mode_observer mode then [summary] else [])
  /\ beam_width summary = w /\ (mode_enabled mode = true -> termination summary = k)
  /\ forall res s, out_result o = Ok (res, s) -> s = summary.

Definition outcome_ok (s0 : St) (t : Target) (root : BlockHash) (w n : N) (mode : TelemetryMode)
  (o : Outcome St) : Prop :=
  (policies_total -> out_result o <> Panic) /\ reports w mode o
  /\ (forall res s, out_result o = Ok (res, s) -> success_post s0 t root n (mode_enabled mode) res s)
  /\ (forall k m, out_result o = Err (Exhausted k m) -> exhausted_post s0 t root n k m).

(** The telemetry of a search that has loaded [loaded]. *)
Definition telemetry_of (w : N) (on : bool) (loaded : list (BlockHash * ValidatedBlock))
  (t : SearchTelemetryCollector) : Prop :=
  let visited : gset BlockHash := list_to_set (map fst loaded) in
  enabled t = on /\ beam_width (collected t) = w
  /\ visited_blocks t = (if on then Some visited else None)
  /\ (on = true -> distinct_blocks_visited (collected t) = N.of_nat (size visited)).
End states.

(** ** Lists *)
Lemma omap_app {A B} (f : A -> option B) l k : omap f (l ++ k) = omap f l ++ omap f k.
Proof. induction l as [|x l IH]; [done|]. cbn. rewrite IH. by destruct (f x). Qed.

Lemma omap_perm {A B} (f : A -> option B) l k : l ≡ₚ k -> omap f l ≡ₚ omap f k.
Proof. by intros ->. Qed.

Section candidates.
Context {Score : Type}.
Implicit Types (f : list (SearchCandidate Score)) (expanded : gset BlockHash).

Lemma retain_leaves expanded f : omap leaf_of (retain_unexpanded expanded f) = omap leaf_of f.
Proof.
  unfold retain_unexpanded. induction f as [|c f IH]; [done|]. cbn.
  destruct c as [child ? ? ? ? ?|]; cbn; [|by rewrite IH]. by destruct (bool_decide _).
Qed.

Lemma retain_children expanded f c :
  c ∈ omap child_of (retain_unexpanded expanded f) <-> c ∈ omap child_of f /\ c ∉ expanded.
Proof.
  unfold retain_unexpanded. induction f as [|x f IH]; [set_solver|]. cbn.
  destruct x as [child ? ? ? ? ?|]; cbn; [|done].
  destruct (bool_decide (child ∈ expanded)) eqn:E; cbn.
  - apply bool_decide_eq_true in E. set_solver.
  - apply bool_decide_eq_false in E. set_solver.
Qed.

Lemma retain_sub expanded f c : c ∈ retain_unexpanded expanded f -> c ∈ f.
Proof. unfold retain_unexpanded. rewrite !list_elem_of_In, filter_In. by intros []. Qed.

(** The expandable candidates are the distinct unexpanded children. *)
Lemma dedup_spec f : forall expanded seen,
  NoDup (map exp_child (dedup_loop expanded seen f))
  /\ forall c, c ∈ map exp_child (dedup_loop expanded seen f)
     <-> c ∈ omap child_of f /\ c ∉ expanded /\ c ∉ seen.
Proof.
  induction f as [|x f IH]; intros expanded seen; [split; [constructor|set_solver]|].
  destruct x as [child d l e sp sc|]; cbn [dedup_loop omap list_omap child_of]; [|apply IH].
  destruct (bool_decide (child ∈ expanded)) eqn:E1; cbn [orb];
    [|destruct (bool_decide (child ∈ seen)) eqn:E2; cbn [orb]].
  - apply bool_decide_eq_true in E1. destruct (IH expanded seen) as [HN He]. split; [done|].
    intros c. rewrite He. set_solver.
  - apply bool_decide_eq_true in E2. destruct (IH expanded seen) as [HN He]. split; [done|].
    intros c. rewrite He. set_solver.
  - apply bool_decide_eq_false in E1, E2. destruct (IH expanded ({[child]} ∪ seen)) as [HN He].
    cbn [map exp_child]. split.
    + constructor; [|done]. rewrite He. set_solver.
    + intros c. rewrite elem_of_cons, He. destruct (decide (c = child)) as [->|]; set_solver.
Qed.

Lemma check_selected_ok allowed sel : forall seen,
  check_selected allowed seen sel = Ok tt <->
  NoDup sel /\ forall c, c ∈ sel -> c ∈ allowed /\ c ∉ seen.
Proof.
  induction sel as [|c sel IH]; intros seen; cbn; [split; [split; [constructor|set_solver]|done]|].
  rewrite NoDup_cons. destruct (bool_decide (c ∈ allowed)) eqn:E1; [apply bool_decide_eq_true in E1|
    apply bool_decide_eq_false in E1; split; [done|intros [_ Hc]; destruct (Hc c); set_solver]].
  destruct (bool_decide (c ∈ seen)) eqn:E2; cbn; [apply bool_decide_eq_true in E2;
    split; [done|intros [_ Hc]; destruct (Hc c); set_solver]|apply bool_decide_eq_false in E2].
  rewrite IH. split.
  - intros [HN Hc]. split; [split; [|done]|].
    + intros Hin. destruct (Hc c Hin). set_solver.
    + intros d [->|Hd]%elem_of_cons; [done|]. destruct (Hc d Hd). set_solver.
  - intros [[Hni HN] Hc]. split; [done|]. intros d Hd. destruct (Hc d ltac:(by right)).
    split; [done|]. set_solver.
Qed.

Lemma check_selected_no_panic allowed sel seen : no_panic (check_selected allowed seen sel).
Proof. revert seen. induction sel; intros seen; cbn; np. Qed.

(** What a validated selection is. *)
Lemma validate_selected_ok sel (fr : list (ExpandableFrontierCandidate Score)) w r :
  validate_selected_children sel fr w = Ok r <->
  r = sel /\ len sel = N.min (len fr) w /\ NoDup sel /\ forall c, c ∈ sel -> c ∈ map exp_child fr.
Proof.
  unfold validate_selected_children. destruct (N.eqb_spec (len sel) (N.min (len fr) w)); [|naive_solver].
  rewrite rbind_ok.
  split.
  - intros ([] & Hc & [= <-]). apply check_selected_ok in Hc as [HN Hc]. split_and!; [done..|].
    intros c Hin. destruct (Hc c Hin) as [Ha _]. by apply elem_of_list_to_set in Ha.
  - intros (-> & _ & HN & Hc). exists tt. split; [|done]. apply check_selected_ok. split; [done|].
    intros c Hin. split; [|set_solver]. apply elem_of_list_to_set. by apply Hc.
Qed.

Lemma leaf_results_ok f : forall p,
  Forall (fun c => leaf_of c <> None) f -> exists ls, leaf_results p f = Ok ls
  /\ map (fun r => Some (leaf_block_id r, result_entry r)) ls = map leaf_of f
  /\ map position ls = map (fun i => p + N.of_nat i)%N (seq 0 (length f)).
Proof.
  induction f as [|c f IH]; intros p HF; [by exists []|].
  apply Forall_cons in HF as [Hc HF]. destruct c as [|id l e sc]; [done|]. cbn [leaf_results].
  destruct (IH (p + 1)%N HF) as (ls & -> & Hl & Hp). cbn [rbind]. eexists. split; [done|].
  cbn. rewrite Hl, Hp. split; [done|]. f_equal; [lia|].
  rewrite <-seq_shift, map_map. apply map_ext. intros i. lia.
Qed.
End candidates.

Section search.
Context {St Target : Type} `{StoreLaws St} `{CborCodec} `{Sha256} `{HalfCrate}.
Context `{EmbeddingCompatibility Target} `{CS : CandidateScorer Target} `{FrontierSelector cs_score}.
Notation candidate := (SearchCandidate cs_score).
Implicit Types (loaded : list (BlockHash * ValidatedBlock)) (f : list candidate).

Lemma reads_from_refl s : store_ok s -> reads_from s s.
Proof. done. Qed.

Lemma deserialize_block_no_panic b h : no_panic (deserialize_block b h).
Proof. unfold deserialize_block. np. apply v1_from_value_no_panic. Qed.

(** ** Loading a block *)
Lemma stored_block_ok s0 p : stored_block s0 p -> block_ok p.
Proof. intros (b & _ & Hd). by destruct (deserialize_block_inv _ _ _ Hd) as (_ & ? & ? & _). Qed.

Lemma load_ok s0 s id r res s' :
  reads_from s0 s -> load_validated_block id r s = (res, s') ->
  reads_from s0 s' /\ res <> Panic /\ forall v, res = Ok v -> stored_block s0 (id, v).
Proof.
  intros [Hok Hst] Hl. unfold load_validated_block, get, sbind, sret in Hl.
  destruct (get_block_bytes id s) as [o s1] eqn:Hg.
  destruct (get_law _ _ _ _ Hok Hg) as (Hok1 & Hnp & Hb & Hsub).
  assert (reads_from s0 s1) as Hr by (split; [done|]; intros; by apply Hst, Hsub).
  destruct o as [[b|]|e|]; cbn in Hl; [|simplify_eq; split_and!; done..].
  destruct (deserialize_block b id) as [w|e|] eqn:Hd; cbn in Hl; simplify_eq.
  - split_and!; [done|done|]. intros v [= <-]. exists b. split; [by apply Hst, Hb|done].
  - split_and!; done.
  - exfalso. by apply (deserialize_block_no_panic b id).
Qed.

Lemma load_chunk_ok s0 l : forall s rs s',
  reads_from s0 s -> load_chunk l s = (rs, s') ->
  reads_from s0 s' /\ map fst rs = l
  /\ Forall (fun x => x.2 <> Panic /\ forall v, x.2 = Ok v -> stored_block s0 (x.1.1, v)) rs.
Proof.
  induction l as [|[id d] l IH]; intros s rs s' Hr Hl; cbn in Hl; [by simplify_eq|].
  destruct (load_validated_block id false s) as [r s1] eqn:E1.
  destruct (load_chunk l s1) as [rs1 s2] eqn:E2. simplify_eq.
  destruct (load_ok _ _ _ _ _ _ Hr E1) as (Hr1 & Hnp & Hv).
  destruct (IH _ _ _ Hr1 E2) as (Hr2 & <- & HF). split_and!; [done|done|]. by constructor.
Qed.

(** ** Scoring a block *)
Lemma normal_level p : block_ok p ->
  match val_block p.2 with Leaf b => leaf_level b = 0%N | Branch b => branch_level b <> 0%N end.
Proof. intros [_ Hn]. by destruct (val_block p.2); destruct Hn as (_ & ? & _). Qed.

Lemma score_block_ok t p cs :
  block_ok p -> scores_to t p cs ->
  omap leaf_of cs = leaves_of_block p /\ omap child_of cs = children_of_block p /\ Forall level_ok cs.
Proof.
  destruct p as [id v]. intros Hok [d Hs]. pose proof (normal_level _ Hok) as Hlv. revert Hs.
  unfold score_block, into_entries, leaves_of_block, children_of_block in *. cbn in *.
  destruct (val_block v) as [b|b]; intros Hs; inv_ok; apply collect_map_ok in Hs; cbn in *.
  - assert (omap leaf_of cs = [] /\ omap child_of cs = map child (branch_entries b) /\ Forall level_ok cs);
      [|done].
    clear -Hs Hlv. induction Hs as [|e c es cs Hc Hs (IH1 & IH2 & IH3)]; [done|].
    unfold branch_candidate in Hc. inv_ok. subst c. cbn. rewrite IH1, IH2. split_and!; [done..|]. by constructor.
  - clear -Hs Hlv. induction Hs as [|e c es cs Hc Hs (IH1 & IH2 & IH3)]; [done|].
    unfold leaf_candidate in Hc. inv_ok. subst c. cbn. rewrite IH1, IH2. split_and!; [done..|]. by constructor.
Qed.

Lemma scores_concat t vs css :
  Forall block_ok vs -> Forall2 (scores_to t) vs css ->
  omap leaf_of (concat css) = all_leaves vs
  /\ omap child_of (concat css) = concat (map children_of_block vs)
  /\ Forall (fun c => exists p cs, p ∈ vs /\ scores_to t p cs /\ c ∈ cs) (concat css).
Proof.
  intros Hvs. induction 1 as [|p cs vs css Hp Hcs IH]; [done|]. apply Forall_cons in Hvs as [Hb Hvs].
  destruct (IH Hvs) as (IH1 & IH2 & IH3). destruct (score_block_ok _ _ _ Hb Hp) as (Hl & Hc & _).
  unfold all_leaves in *. cbn. rewrite !omap_app, Hl, Hc, IH1, IH2. split_and!; [done..|].
  apply Forall_app. split.
  - apply Forall_forall. intros c Hin. exists p, cs. split_and!; [by left|done..].
  - eapply Forall_impl; [exact IH3|]. cbn. intros c (q & cs' & Hq & ? & ?). exists q, cs'.
    split_and!; [by right|done..].
Qed.

Lemma validate_payload_one es spec d e :
  e ∈ es -> validate_branch_ebcp_payload_lengths es spec d = Ok tt ->
  validate_branch_ebcp_payload_lengths [e] spec d = Ok tt.
Proof.
  unfold validate_branch_ebcp_payload_lengths. intros He Hv. inv_ok. rewrite Hok. cbn [rbind].
  rewrite Hok0. cbn [rbind]. apply try_fold_unit_ok in Hv. rewrite Forall_forall in Hv.
  cbn. by rewrite (Hv e He).
Qed.

Lemma reconstruct_no_panic spec d payload :
  descriptor_wf spec d -> validate_branch_ebcp_payload_lengths [payload] spec d = Ok tt ->
  no_panic (reconstruct_logical_branch_embedding_f32 payload spec (Some d)).
Proof.
  intros Hd Hv. unfold reconstruct_logical_branch_embedding_f32, decode_f32le_embedding,
    decode_f16le_embedding, decode_i8_embedding, checked_embedding_byte_len, reconstruct_ebcp_logical_embedding.
  np; match goal with Hd' : ok_or _ _ = Ok _ |- _ => cbn in Hd'; injection Hd' as <- end;
    [by apply decode_components_no_panic|by eapply reconstruct_ambient_no_panic].
Qed.

Lemma score_block_no_panic id t v d :
  policies_total -> block_ok (id, v) -> no_panic (score_block id t v d).
Proof.
  intros (Hec & Hcs & _) [_ Hn]. unfold score_block, into_entries. cbn in Hn.
  destruct (val_block v) as [b|b].
  - apply rbind_no_panic; [apply map_err_no_panic; np|]. intros o Ho.
    apply rbind_no_panic; [by apply map_err_no_panic, Hec|]. intros _ _.
    apply collect_map_no_panic. intros e He. unfold branch_candidate.
    apply rbind_no_panic; [|intros; by apply rmap_no_panic, map_err_no_panic, Hcs].
    destruct o as [desc|]; [|done]. apply rmap_no_panic, map_err_no_panic.
    apply map_err_ok in Ho. cbn in Ho. pose proof (parse_branch_descriptor_ok _ _ _ Ho) as Hd. cbn in Hd.
    apply reconstruct_no_panic; [done|].
    destruct Hn as (_ & _ & _ & _ & Hv & _). unfold validate_branch_ebcp in Hv.
    destruct Hd as (Heb & _). rewrite Heb, Ho in Hv. cbn [rbind expect] in Hv.
    eapply validate_payload_one; [|exact Hv]. by apply (list_elem_of_fmap_2 branch_embedding).
  - apply rbind_no_panic; [by apply map_err_no_panic, Hec|]. intros _ _.
    apply collect_map_no_panic. intros e He. unfold leaf_candidate.
    by apply rmap_no_panic, map_err_no_panic, Hcs.
Qed.

(** ** Telemetry *)
Lemma record_visited_ok w on loaded id v d tl :
  telemetry_of w on loaded tl -> telemetry_of w on (loaded ++ [(id, v)]) (record_visited_block id d tl).
Proof.
  unfold telemetry_of, record_visited_block. intros (He & Hw & Hv & Hd). rewrite Hv.
  rewrite map_app, list_to_set_app_L. cbn. rewrite (right_id_L ∅ (∪)), (comm_L (∪)).
  destruct on; cbn; done.
Qed.

Lemma telemetry_enabled w on loaded tl : telemetry_of w on loaded tl -> enabled tl = on /\ beam_width (collected tl) = w.
Proof. intros (? & ? & _). done. Qed.

(** ** Expanding children *)
Lemma build_chunk_ok t w on rs : forall loaded next expanded tl res tl',
  telemetry_of w on loaded tl ->
  Forall (fun x => x.2 <> Panic /\ forall v, x.2 = Ok v -> block_ok (x.1.1, v)) rs ->
  build_chunk t rs next expanded tl = (res, tl') ->
  (policies_total -> res <> Panic)
  /\ (enabled tl' = on /\ beam_width (collected tl') = w)
  /\ forall next' expanded', res = Ok (next', expanded') ->
  exists vs css, rs = zip_with (fun x p => (x.1, Ok p.2)) rs vs
  /\ map fst vs = map (fun x => x.1.1) rs /\ Forall2 (scores_to t) vs css
  /\ next' = next ++ concat css /\ expanded' = list_to_set (map fst vs) ∪ expanded
  /\ telemetry_of w on (loaded ++ vs) tl'.
Proof.
  induction rs as [|[[id d] r] rs IH]; intros loaded next expanded tl res tl' Ht HF Hb; cbn in Hb.
  - simplify_eq. split_and!; [done|by apply (telemetry_enabled w on loaded)..|].
    intros next' expanded' [= <- <-]. exists [], []. cbn. rewrite !app_nil_r.
    split_and!; [done|done|constructor|done|by rewrite (left_id_L ∅ (∪))|done].
  - apply Forall_cons in HF as [[Hnp Hv] HF]. cbn in Hnp, Hv.
    pose proof (telemetry_enabled _ _ _ _ Ht) as He.
    destruct r as [v|e|]; [|simplify_eq; split_and!; [done|by apply He..|done]|done].
    specialize (Hv v eq_refl). unfold build_block_candidates in Hb.
    pose proof (record_visited_ok w on loaded id v d tl Ht) as Ht1.
    pose proof (telemetry_enabled _ _ _ _ Ht1) as He1.
    destruct (score_block id t v d) as [cs|e|] eqn:Es; [|simplify_eq; split_and!; [done|by apply He1..|done]|simplify_eq].
    2:{ split_and!; [|by apply He1..|done]. intros Hp. exfalso. by apply (score_block_no_panic id t v d Hp Hv). }
    destruct (IH _ _ _ _ _ _ Ht1 HF Hb) as (Hnp2 & He2 & Hres). split_and!; [done|by apply He2..|].
    intros next' expanded' Hr. destruct (Hres _ _ Hr) as (vs & css & Hz & Hk & Hcs & Hnx & Hex & Htl).
    exists ((id, v) :: vs), (cs :: css). cbn [map fst zip_with concat]. rewrite Hk. split_and!.
    + cbn. by rewrite <-Hz.
    + done.
    + constructor; [by exists d|done].
    + by rewrite Hnx, <-app_assoc.
    + rewrite Hex, Hk. set_solver.
    + by rewrite <-app_assoc in Htl.
Qed.

Lemma zip_loaded s0 (rs : list (BlockHash * N * result SearchError ValidatedBlock)) vs :
  Forall (fun x => x.2 <> Panic /\ forall v, x.2 = Ok v -> stored_block s0 (x.1.1, v)) rs ->
  rs = zip_with (fun x p => (x.1, Ok p.2)) rs vs -> map fst vs = map (fun x => x.1.1) rs ->
  Forall (stored_block s0) vs.
Proof.
  intros HF. revert vs. induction HF as [|x rs [_ Hx] HF IH]; intros [|[id v] vs] Hz Hk; cbn in *; try done.
  injection Hz as Hz1 Hz2. injection Hk as -> Hk. constructor; [|by apply IH].
  apply Hx. by rewrite Hz1.
Qed.

Lemma expand_chunks_ok t w on s0 cs : forall loaded next expanded tl s res tl' s',
  telemetry_of w on loaded tl -> reads_from s0 s ->
  expand_chunks t cs next expanded tl s = (res, tl', s') ->
  (policies_total -> res <> Panic)
  /\ (enabled tl' = on /\ beam_width (collected tl') = w)
  /\ forall next' expanded', res = Ok (next', expanded') ->
  exists vs css, reads_from s0 s' /\ map fst vs = map fst (concat cs)
  /\ Forall (stored_block s0) vs /\ Forall2 (scores_to t) vs css
  /\ next' = next ++ concat css /\ expanded' = list_to_set (map fst vs) ∪ expanded
  /\ telemetry_of w on (loaded ++ vs) tl'.
Proof.
  induction cs as [|c cs IH]; intros loaded next expanded tl s res tl' s' Ht Hr He; cbn in He.
  - simplify_eq. split_and!; [done|by apply (telemetry_enabled w on loaded)..|].
    intros next' expanded' [= <- <-]. exists [], []. cbn. rewrite !app_nil_r.
    split_and!; [exact Hr|done|constructor|constructor|done|by rewrite (left_id_L ∅ (∪))|done..].
  - destruct (load_chunk c s) as [rs s1] eqn:El. destruct (load_chunk_ok _ _ _ _ _ Hr El) as (Hr1 & Hrs & HF).
    destruct (build_chunk t rs next expanded tl) as [r tl1] eqn:Eb.
    destruct (build_chunk_ok _ w on _ loaded _ _ _ _ _ Ht (Forall_impl _ _ _ HF
      (fun x Hx => conj (proj1 Hx) (fun v Hv => stored_block_ok _ _ (proj2 Hx v Hv)))) Eb)
      as (Hnp & Hen & Hres).
    destruct r as [[next1 expanded1]|e|]; [|simplify_eq; split_and!; [done|by apply Hen..|done]..].
    destruct (Hres _ _ eq_refl) as (vs1 & css1 & Hz & Hk1 & Hc1 & N1 & X1 & T1).
    destruct (IH _ _ _ _ _ _ _ _ T1 Hr1 He) as (Hnp2 & Hen2 & Hres2). split_and!; [done|by apply Hen2..|].
    intros next' expanded' Hok.
    destruct (Hres2 _ _ Hok) as (vs2 & css2 & Hr2 & Hk2 & Hst2 & Hc2 & N2 & X2 & T2).
    exists (vs1 ++ vs2), (css1 ++ css2).
    assert (map fst vs1 = map fst c) as Hkc by (rewrite Hk1, <-Hrs, map_map; done).
    split_and!.
    + exact Hr2.
    + cbn. by rewrite !map_app, Hk2, Hkc.
    + apply Forall_app. split; [|done]. by eapply zip_loaded.
    + by apply Forall2_app.
    + by rewrite N2, N1, concat_app, app_assoc.
    + rewrite X2, X1, map_app, list_to_set_app_L. set_solver.
    + by rewrite app_assoc.
Qed.

(** ** The ranked frontier *)
Lemma ranked_perm (st : LoopState St Target) :
  ranked_frontier st ≡ₚ retain_unexpanded (expanded_children st) (frontier st).
Proof. apply sort_by_Permutation. Qed.

Lemma ranked_children (st : LoopState St Target) c :
  c ∈ omap child_of (ranked_frontier st) <-> c ∈ omap child_of (frontier st) /\ c ∉ expanded_children st.
Proof. rewrite <-retain_children. by rewrite (omap_perm _ _ _ (ranked_perm st)). Qed.

Lemma ranked_explored s0 t root loaded st :
  loop_inv s0 t root loaded st -> explored s0 t root loaded (ranked_frontier st).
Proof.
  intros [[] Hex _]. split; [done..| | |].
  - rewrite (omap_perm _ _ _ (ranked_perm st)), retain_leaves. done.
  - intros c. rewrite ex_children0, ranked_children, Hex, elem_of_list_to_set.
    destruct (decide (c ∈ map fst (tail loaded))); tauto.
  - rewrite Forall_forall in *. intros c Hc. apply ex_scored0, (retain_sub (expanded_children st)).
    by rewrite <-ranked_perm.
Qed.

Lemma explored_levels s0 t root loaded f : explored s0 t root loaded f -> Forall level_ok f.
Proof.
  intros []. eapply Forall_impl; [exact ex_scored0|]. cbn. intros c (p & cs & Hp & Hs & Hc).
  rewrite Forall_forall in ex_stored0.
  destruct (score_block_ok _ _ _ (stored_block_ok _ _ (ex_stored0 _ Hp)) Hs) as (_ & _ & HF).
  rewrite Forall_forall in HF. by apply HF.
Qed.

Lemma terminal_leaf (c : candidate) : level_ok c -> is_terminal c = true <-> leaf_of c <> None.
Proof. unfold is_terminal. destruct c; cbn; intros; rewrite N.eqb_eq; [|by subst]. naive_solver. Qed.

Lemma terminal_all f :
  Forall level_ok f -> forallb is_terminal f = true -> Forall (fun c => leaf_of c <> None) f.
Proof.
  induction 1 as [|c f Hc Hf IH]; cbn; [constructor|]. intros [Ht Hts]%andb_true_iff.
  constructor; [by apply terminal_leaf|auto].
Qed.

Lemma no_children_terminal f :
  Forall level_ok f -> omap child_of f = [] ->
  forallb is_terminal f = true /\ List.filter is_terminal f = f /\ length (omap leaf_of f) = length f.
Proof.
  induction 1 as [|c f Hc Hf IH]; cbn; [done|]. destruct c; cbn; [done|]. intros He.
  destruct (IH He) as (T1 & T2 & T3). cbn in Hc. subst. unfold is_terminal at 1 3. cbn.
  rewrite T1, T2, T3. done.
Qed.

(** ** One round *)
Lemma explored_child s0 t root loaded f c :
  explored s0 t root loaded f -> c ∈ omap child_of f -> reached root loaded c.
Proof.
  intros [] Hc. assert (c ∈ concat (map children_of_block loaded)) as Hin by (apply ex_children0; auto).
  apply list_elem_of_In, in_concat in Hin as (l & Hl & Hcl). apply in_map_iff in Hl as (p & <- & Hp).
  apply list_elem_of_In in Hp, Hcl. by eapply reached_child; [exact Hp|apply ex_reached0|].
Qed.

Lemma reached_mono root loaded vs c : reached root loaded c -> reached root (loaded ++ vs) c.
Proof. induction 1; [constructor|]. eapply reached_child; [|done..]. set_solver. Qed.

Lemma expand_inv s0 t root loaded st sel vs css tl s' :
  loop_inv s0 t root loaded st ->
  NoDup sel -> (forall c, c ∈ sel -> c ∈ omap child_of (ranked_frontier st)) ->
  map fst vs = sel -> Forall (stored_block s0) vs -> Forall2 (scores_to t) vs css -> reads_from s0 s' ->
  loop_inv s0 t root (loaded ++ vs)
    {| frontier := retain_unexpanded (list_to_set sel) (ranked_frontier st) ++ concat css;
       expanded_children := list_to_set (map fst vs) ∪ expanded_children st;
       telemetry := tl; store_state := s' |}.
Proof.
  intros Hi HN Hsel Hk Hvs Hcs Hs'. pose proof (ranked_explored _ _ _ _ _ Hi) as Hf.
  pose proof (fun c => explored_child _ _ _ _ _ c Hf) as Hreach. destruct Hi as [_ Hex _].
  pose proof Hf as [(v & rest & -> & HNr) Hst Hre Hl Hc Hsc].
  assert (Forall block_ok vs) as Hb by (eapply Forall_impl; [exact Hvs|apply stored_block_ok]).
  destruct (scores_concat _ _ _ Hb Hcs) as (L1 & C1 & S1). cbn [tail map app] in *.
  split; cbn [frontier expanded_children store_state]; [|cbn; rewrite Hex, map_app, list_to_set_app_L; set_solver|done].
  split.
  - exists v, (rest ++ vs). split; [done|]. rewrite map_app. apply NoDup_app. split_and!; [done| |by rewrite Hk].
    intros c Hcr Hcv. rewrite Hk in Hcv. apply Hsel, ranked_children in Hcv as [_ Hn].
    rewrite Hex, elem_of_list_to_set in Hn. done.
  - by apply (proj2 (Forall_app _ (_ :: _) _)).
  - intros p [Hp|Hp]%(elem_of_app (_ :: _)); [by apply (reached_mono _ (_ :: _)), Hre|].
    apply (reached_mono _ (_ :: _)), Hreach, Hsel. rewrite <-Hk. by apply list_elem_of_fmap_2.
  - rewrite omap_app, retain_leaves, L1, Hl. unfold all_leaves. cbn. by rewrite map_app, concat_app, app_assoc.
  - intros c. cbn [tail app]. rewrite app_comm_cons, !map_app, concat_app, elem_of_app, Hc, omap_app,
      !elem_of_app, C1, retain_children, elem_of_list_to_set, Hk.
    destruct (decide (c ∈ sel)) as [Hin|]; [|tauto]. pose proof (Hsel _ Hin). tauto.
  - apply Forall_app. split.
    + rewrite Forall_forall in *. intros c Hin. apply retain_sub in Hin.
      destruct (Hsc _ Hin) as (p & cs & ? & ?). exists p, cs. set_solver.
    + eapply Forall_impl; [exact S1|]. cbn. intros c (p & cs & ? & ?). exists p, cs. set_solver.
Qed.

Lemma select_round_ok w (st : LoopState St Target) sel :
  select_round w (deduplicated_expandable_frontier (ranked_frontier st) (expanded_children st)) = Ok sel ->
  NoDup sel /\ (forall c, c ∈ sel -> c ∈ omap child_of (ranked_frontier st))
  /\ (sel = [] -> w <> 0%N -> omap child_of (ranked_frontier st) = []).
Proof.
  unfold select_round. intros Hs. inv_ok. apply validate_selected_ok in Hs as (-> & Hlen & HN & Hin).
  destruct (dedup_spec (ranked_frontier st) (expanded_children st) ∅) as [_ Hd].
  split_and!; [done| |].
  - intros c Hc. apply Hin, Hd in Hc. tauto.
  - intros -> Hw. destruct (omap child_of (ranked_frontier st)) as [|c l] eqn:E; [done|exfalso].
    assert (c ∈ omap child_of (ranked_frontier st)) as Hc by (rewrite E; by left).
    pose proof (proj1 (ranked_children _ _) Hc) as [_ Hne].
    pose proof (proj2 (Hd c) ltac:(rewrite <-E in *; split_and!; [done|done|set_solver])) as Hde.
    unfold len in Hlen. cbn in Hlen. unfold deduplicated_expandable_frontier in Hlen.
    destruct (dedup_loop (expanded_children st) ∅ (ranked_frontier st)); [by apply elem_of_nil in Hde|cbn in Hlen; lia].
Qed.

Lemma select_round_no_panic w l : policies_total -> select_round w l <> Panic.
Proof.
  intros (_ & _ & Hs). apply rbind_no_panic; [by apply map_err_no_panic, Hs|]. intros sel _.
  unfold validate_selected_children. np. apply check_selected_no_panic.
Qed.

Lemma fail_reports w mode e tl (s : St) :
  enabled tl = mode_enabled mode -> beam_width (collected tl) = w -> reports w mode (fail_with mode e tl s).
Proof.
  intros He Hw k [= <-]. cbn. unfold finish_with_error, emit_search_telemetry, finish. rewrite He.
  destruct mode as [|ob]; cbn in *.
  - exists (collected tl). done.
  - rewrite andb_true_r. eexists. split; [done|]. cbn. done.
Qed.

Lemma fail_outcome s0 t root w n mode e tl (s : St) :
  enabled tl = mode_enabled mode -> beam_width (collected tl) = w ->
  (forall k m, e = Exhausted k m -> exhausted_post s0 t root n k m) ->
  outcome_ok s0 t root w n mode (fail_with mode e tl s).
Proof.
  intros He Hw Hx. split_and!; [done|by apply fail_reports|done|]. intros k m [= ->]. by apply Hx.
Qed.

Lemma panic_outcome s0 t root w n mode (s : St) :
  ~ policies_total -> outcome_ok s0 t root w n mode (panic_with s).
Proof. intros Hp. by split_and!. Qed.

(** The errors of a load or of a scoring are never the exhaustion. *)
Definition not_exhausted {A} (r : result SearchError A) : Prop := forall k m, r <> Err (Exhausted k m).

Lemma load_not_exhausted id r s : not_exhausted (load_validated_block id r s).1.
Proof.
  intros k m. unfold load_validated_block. destruct (get id s) as [[[v|]|e|] s']; cbn; [done| |destruct e, r; done|done].
  by destruct r.
Qed.

Lemma score_block_not_exhausted id t v d : not_exhausted (score_block id t v d).
Proof.
  intros k m He. unfold score_block in He. destruct (into_entries v) as [meta es|meta es].
  - apply rbind_err in He as [He|(o & _ & He)]; [by apply map_err_err in He as (? & _ & [=])|].
    apply rbind_err in He as [He|(u & _ & He)]; [by apply map_err_err in He as (? & _ & [=])|].
    apply collect_map_err in He as (e & _ & He). unfold branch_candidate in He.
    apply rbind_err in He as [He|(em & _ & He)].
    + destruct o; [|done]. apply rmap_err in He. by apply map_err_err in He as (? & _ & [=]).
    + apply rmap_err in He. by apply map_err_err in He as (? & _ & [=]).
  - apply rbind_err in He as [He|(u & _ & He)]; [by apply map_err_err in He as (? & _ & [=])|].
    apply collect_map_err in He as (e & _ & He). unfold leaf_candidate in He.
    apply rmap_err in He. by apply map_err_err in He as (? & _ & [=]).
Qed.

Lemma load_chunk_not_exhausted l : forall s rs s',
  load_chunk l s = (rs, s') -> Forall (fun x => not_exhausted x.2) rs.
Proof.
  induction l as [|[id d] l IH]; intros s rs s' Hl; cbn in Hl; [by simplify_eq|].
  destruct (load_validated_block id false s) as [r s1] eqn:E1.
  destruct (load_chunk l s1) as [rs1 s2] eqn:E2. simplify_eq. constructor; [|by eapply IH].
  intros k m He. cbn in He. subst r. apply (load_not_exhausted id false s k m). by rewrite E1.
Qed.

Lemma build_chunk_not_exhausted t rs : forall next expanded tl,
  Forall (fun x => not_exhausted x.2) rs -> not_exhausted (build_chunk t rs next expanded tl).1.
Proof.
  induction rs as [|[[id d] r] rs IH]; intros next expanded tl HF k m He; cbn in He; [done|].
  apply Forall_cons in HF as [Hr HF]. destruct r as [v|e|]; cbn in He; [|injection He as ->; by apply (Hr k m)|done].
  destruct (score_block id t v d) as [cs|e|] eqn:Es; cbn in He; [by eapply IH| |done].
  injection He as ->. by apply (score_block_not_exhausted _ _ _ _ _ _ Es).
Qed.

Lemma expand_chunks_not_exhausted t cs : forall next expanded tl s,
  not_exhausted (expand_chunks t cs next expanded tl s).1.1.
Proof.
  induction cs as [|c cs IH]; intros next expanded tl s k m He; cbn in He; [done|].
  destruct (load_chunk c s) as [rs s1] eqn:El. apply load_chunk_not_exhausted in El.
  pose proof (build_chunk_not_exhausted t rs next expanded tl El) as Hb.
  destruct (build_chunk t rs next expanded tl) as [[[next1 expanded1]|e|] tl1]; cbn in *; [by eapply IH| |done].
  injection He as ->. by apply (Hb k m).
Qed.

Lemma select_round_not_exhausted w l : not_exhausted (select_round w l).
Proof.
  intros k m He. unfold select_round, validate_selected_children in He.
  apply rbind_err in He as [He|(sel & _ & He)]; [by apply map_err_err in He as (? & _ & [=])|].
  destruct (_ =? _)%N; [|done]. apply rbind_err in He as [He|(u & _ & He)]; [|done].
  revert He. generalize (∅ : gset BlockHash). induction sel as [|c sel IH]; intros seen He; cbn in He; [done|].
  destruct (bool_decide _); [|done]. destruct (negb _); [|done]. by eapply IH.
Qed.

Lemma map_leaf_of_length f l :
  map (fun r => Some (leaf_block_id r, result_entry r)) l = map leaf_of f -> length l = length f.
Proof. intros He. apply (f_equal length) in He. by rewrite !length_map in He. Qed.

(** The success exit of a round. *)
Lemma success_outcome s0 t root w n mode loaded st :
  loop_inv s0 t root loaded st -> telemetry_of w (mode_enabled mode) loaded (telemetry st) ->
  (n <=? len (ranked_frontier st))%N = true ->
  forallb is_terminal (take_n n (ranked_frontier st)) = true ->
  exists ls, leaf_results 0 (take_n n (ranked_frontier st)) = Ok ls
  /\ outcome_ok s0 t root w n mode
       {| out_result := Ok ({| leaves := ls |}, collected (finish_success (telemetry st)));
          out_emitted := emit_search_telemetry mode (finish_success (telemetry st));
          out_store := store_state st |}.
Proof.
  intros Hi (He & Hw & _ & Hd) Hn Ht. apply N.leb_le in Hn. pose proof (ranked_explored _ _ _ _ _ Hi) as Hf.
  assert (take_n n (ranked_frontier st) = take (N.to_nat n) (ranked_frontier st)) as Hk
    by (unfold take_n; f_equal; lia).
  rewrite Hk in *. pose proof (explored_levels _ _ _ _ _ Hf) as Hlv.
  destruct (leaf_results_ok (take (N.to_nat n) (ranked_frontier st)) 0%N) as (ls & Hls & Hle & Hpos).
  { apply terminal_all; [|done]. by apply Forall_take. }
  assert (length ls = N.to_nat n) as Hlen
    by (rewrite (map_leaf_of_length _ _ Hle), length_take; unfold len in Hn; lia).
  exists ls. split; [done|]. split_and!; [done| | |done].
  - intros k [= <-]. cbn. unfold finish_success, emit_search_telemetry, finish. rewrite He.
    destruct mode as [|ob]; cbn in *.
    + eexists. split_and!; [done|done|done|]. naive_solver.
    + rewrite andb_true_r. eexists. split_and!; [done|done|done|]. naive_solver.
  - intros res s [= <- <-]. exists loaded, (ranked_frontier st). split_and!; [done| |by unfold len; cbn; lia|done| |].
    + intros Hc. apply sort_by_sorted. unfold compare_candidates.
      apply then_with_total; [apply (rev_total _ (TotalCmp0 := comap_total candidate_score cs_cmp))|].
      apply then_with_total; [apply comap_total; apply _|]. apply (comap_total candidate_identity bytes_cmp).
    + cbn. rewrite Hpos, length_take. unfold len in Hn. replace (N.to_nat n `min` _)%nat with (N.to_nat n) by lia.
      apply map_ext. intros i. lia.
    + intros Hon. cbn. unfold finish_success, finish. rewrite He, Hon. cbn. by apply Hd.
Qed.

(** The exhaustion exit of a round. *)
Lemma exhausted_outcome s0 t root loaded st n :
  loop_inv s0 t root loaded st -> omap child_of (ranked_frontier st) = [] ->
  (n <=? len (ranked_frontier st))%N && forallb is_terminal (take_n n (ranked_frontier st)) = false ->
  exhausted_post s0 t root n n (len (List.filter is_terminal (ranked_frontier st))).
Proof.
  intros Hi Hc Hn. pose proof (ranked_explored _ _ _ _ _ Hi) as Hf.
  destruct (no_children_terminal _ (explored_levels _ _ _ _ _ Hf) Hc) as (Ht & -> & Hl).
  exists loaded, (ranked_frontier st). split; [done|]. pose proof Hf as [(v & rest & -> & _) _ _ Hlv Hch _].
  apply Permutation_length in Hlv. split_and!; [|done| |].
  - intros c Hin. apply Hch in Hin as [Hin|Hin]; [by right|]. rewrite Hc in Hin. by apply elem_of_nil in Hin.
  - unfold len. congruence.
  - apply andb_false_iff in Hn as [Hn|Hn]; [by apply N.leb_gt in Hn|].
    exfalso. apply not_true_iff_false in Hn. apply Hn. apply forallb_forall. intros x Hx.
    rewrite forallb_forall in Ht. apply Ht. unfold take_n in Hx. apply list_elem_of_In in Hx.
    apply list_elem_of_In. apply elem_of_take in Hx as (i & Hx & _).
    by eapply list_elem_of_lookup_2.
Qed.

Lemma search_round_ok s0 t root w n mode loaded st :
  w <> 0%N -> loop_inv s0 t root loaded st -> telemetry_of w (mode_enabled mode) loaded (telemetry st) ->
  match search_round t w n mode st with
  | inl o => outcome_ok s0 t root w n mode o
  | inr st' => exists vs, vs <> [] /\ loop_inv s0 t root (loaded ++ vs) st'
      /\ telemetry_of w (mode_enabled mode) (loaded ++ vs) (telemetry st')
  end.
Proof.
  intros Hw Hi Ht. pose proof (telemetry_enabled _ _ _ _ Ht) as [He Hbw]. unfold search_round.
  destruct ((n <=? len (ranked_frontier st))%N && forallb is_terminal (take_n n (ranked_frontier st))) eqn:Hn.
  { apply andb_true_iff in Hn as [Hn1 Hn2].
    destruct (success_outcome _ _ _ _ _ _ _ _ Hi Ht Hn1 Hn2) as (ls & -> & Ho). done. }
  destruct (select_round w _) as [sel|e|] eqn:Es.
  2:{ apply fail_outcome; [done..|]. intros k m ->. by apply select_round_not_exhausted in Es. }
  2:{ apply panic_outcome. intros Hp. by apply (select_round_no_panic w _ Hp) in Es. }
  destruct (select_round_ok _ _ _ Es) as (HN & Hsel & Hnil).
  destruct sel as [|c0 sel]; [apply fail_outcome; [done..|]; intros k m [= <- <-];
    eapply exhausted_outcome; [done|by apply Hnil|done]|].
  set (round := c0 :: sel) in *.
  destruct (expand_chunks t _ [] _ _ _) as [[r tl'] s'] eqn:Ex.
  pose proof (expand_chunks_not_exhausted t (chunks (child_load_limit w)
    (map (fun child_id => (child_id, depth_of child_id (ranked_frontier st))) round)) []
    (expanded_children st) (telemetry st) (store_state st)) as Hne. rewrite Ex in Hne. cbn in Hne.
  destruct (expand_chunks_ok _ w (mode_enabled mode) s0 _ loaded _ _ _ _ _ _ _ Ht (li_store _ _ _ _ _ Hi) Ex)
    as (Hnp & [He' Hbw'] & Hres).
  destruct r as [[next expanded']|e|].
  - destruct (Hres _ _ eq_refl) as (vs & css & Hr & Hk & Hst & Hcs & -> & -> & Htl).
    rewrite chunks_concat in Hk by (unfold child_load_limit; lia).
    rewrite map_map, map_id in Hk. exists vs. split_and!.
    + by intros ->.
    + cbn [app]. by apply expand_inv.
    + done.
  - apply fail_outcome; [done..|]. intros k m ->. by exfalso; apply (Hne k m).
  - apply panic_outcome. intros Hp. by apply Hnp.
Qed.

(** ** The loop *)
Lemma search_loop_ok s0 t root w n mode o fuel : forall loaded st,
  w <> 0%N -> loop_inv s0 t root loaded st -> telemetry_of w (mode_enabled mode) loaded (telemetry st) ->
  search_loop fuel t w n mode st = Some o -> outcome_ok s0 t root w n mode o.
Proof.
  induction fuel as [|fuel IH]; intros loaded st Hw Hi Ht Hl; cbn in Hl; [done|].
  pose proof (search_round_ok _ _ _ _ n mode _ _ Hw Hi Ht) as Hr.
  destruct (search_round t w n mode st) as [o'|st']; [by injection Hl as <-|].
  destruct Hr as (vs & _ & Hi' & Ht'). by eapply IH.
Qed.

Lemma explored_bound s0 t root loaded f (U : gset BlockHash) :
  explored s0 t root loaded f -> (forall k b, stored s0 k b -> k ∈ U) -> (length loaded <= Datatypes.S (size U))%nat.
Proof.
  intros [(v & rest & -> & HN) Hst _ _ _ _] HU. cbn. apply le_n_S.
  rewrite <-(length_map fst rest), <-(size_list_to_set (C := gset BlockHash)) by done.
  apply subseteq_size. intros c Hc. apply elem_of_list_to_set, list_elem_of_fmap in Hc as (p & -> & Hp).
  apply Forall_cons in Hst as [_ Hst]. rewrite Forall_forall in Hst. destruct (Hst _ Hp) as (b & Hb & _).
  by eapply HU.
Qed.

Lemma search_loop_ends s0 t root w n mode (U : gset BlockHash) fuel : forall loaded st,
  w <> 0%N -> loop_inv s0 t root loaded st -> telemetry_of w (mode_enabled mode) loaded (telemetry st) ->
  (forall k b, stored s0 k b -> k ∈ U) -> (Datatypes.S (size U) < fuel + length loaded)%nat ->
  exists o, search_loop fuel t w n mode st = Some o.
Proof.
  induction fuel as [|fuel IH]; intros loaded st Hw Hi Ht HU Hf.
  - pose proof (explored_bound _ _ _ _ _ _ (li_explored _ _ _ _ _ Hi) HU). lia.
  - cbn. pose proof (search_round_ok _ _ _ _ n mode _ _ Hw Hi Ht) as Hr.
    destruct (search_round t w n mode st) as [o'|st']; [by exists o'|].
    destruct Hr as (vs & Hvs & Hi' & Ht'). eapply IH; [done..|]. rewrite length_app.
    destruct vs; [done|]. cbn. lia.
Qed.

(** ** The search *)
Lemma root_inv s0 t root s' v cs tl :
  reads_from s0 s' -> stored_block s0 (root, v) -> scores_to t (root, v) cs ->
  loop_inv s0 t root [(root, v)]
    {| frontier := cs; expanded_children := ∅; telemetry := tl; store_state := s' |}.
Proof.
  intros Hr Hv Hs. split; [|done|done]. cbn [frontier].
  pose proof (stored_block_ok _ _ Hv) as Hb.
  destruct (scores_concat t [(root, v)] [cs]) as (L & C & S); [by constructor|by repeat constructor|].
  cbn in L, C, S. rewrite app_nil_r in L, C, S. split.
  - exists v, []. split; [done|constructor].
  - by constructor.
  - intros p Hp. apply list_elem_of_singleton in Hp as ->. constructor.
  - by rewrite L.
  - intros c. cbn. rewrite C. set_solver.
  - done.
Qed.

Lemma search_start s0 root t w n mode fuel :
  store_ok s0 -> w <> 0%N ->
  (exists v st, loop_inv s0 t root [(root, v)] st
    /\ telemetry_of w (mode_enabled mode) [(root, v)] (telemetry st)
    /\ search_internal fuel root t w n mode s0 = search_loop fuel t w n mode st)
  \/ (exists o, search_internal fuel root t w n mode s0 = Some o /\ outcome_ok s0 t root w n mode o).
Proof.
  intros Hok Hw. unfold search_internal. destruct (N.eqb_spec w 0); [done|].
  unfold load_block_candidates.
  destruct (load_validated_block root true s0) as [r s'] eqn:El.
  destruct (load_ok s0 s0 _ _ _ _ (reads_from_refl _ Hok) El) as (Hr & Hnp & Hv).
  pose proof (load_not_exhausted root true s0) as Hne. rewrite El in Hne. cbn in Hne.
  assert (telemetry_of w (mode_enabled mode) [] (collector_new w (mode_enabled mode))) as Ht0.
  { split_and!; [done|done|by destruct mode|]. intros ->. done. }
  pose proof (telemetry_enabled _ _ _ _ Ht0) as [He0 Hw0].
  destruct r as [v|e|]; [|right; eexists; split; [done|]; apply fail_outcome; [done..|];
    intros k m ->; by exfalso; apply (Hne k m)|done].
  specialize (Hv v eq_refl). cbn [build_block_candidates].
  pose proof (record_visited_ok w _ [] root v 0 _ Ht0) as Ht1. cbn [app] in Ht1.
  pose proof (telemetry_enabled _ _ _ _ Ht1) as [He1 Hw1]. unfold build_block_candidates.
  destruct (score_block root t v 0) as [cs|e|] eqn:Es.
  - left. exists v. eexists. split; [|split; [|done]]; [|done].
    apply root_inv; [done|done|by exists 0%N].
  - right. eexists. split; [done|]. apply fail_outcome; [done..|]. intros k m ->.
    by apply score_block_not_exhausted in Es.
  - right. eexists. split; [done|]. apply panic_outcome. intros Hp.
    by apply (score_block_no_panic root t v 0 Hp (stored_block_ok _ _ Hv)).
Qed.

Lemma search_internal_ok s0 root t w n mode fuel o :
  store_ok s0 -> search_internal fuel root t w n mode s0 = Some o -> outcome_ok s0 t root w n mode o.
Proof.
  intros Hok Hs. destruct (decide (w = 0%N)) as [->|Hw].
  - unfold search_internal in Hs. cbn in Hs. injection Hs as <-. by apply fail_outcome.
  - destruct (search_start s0 root t w n mode fuel Hok Hw) as [(v & st & Hi & Ht & He)|(o' & He & Ho)].
    + rewrite He in Hs. by eapply search_loop_ok.
    + rewrite He in Hs. by injection Hs as <-.
Qed.

Lemma search_ends fuel root t w n mode s0 (U : gset BlockHash) :
  store_ok s0 -> policies_total -> (forall k b, stored s0 k b -> k ∈ U) -> (size U < fuel)%nat ->
  exists o, search_internal fuel root t w n mode s0 = Some o /\ no_panic (out_result o).
Proof.
  intros Hok Hp HU Hf.
  assert (exists o, search_internal fuel root t w n mode s0 = Some o) as [o Ho].
  { destruct (decide (w = 0%N)) as [->|Hw]; [by eexists|].
    destruct (search_start s0 root t w n mode fuel Hok Hw) as [(v & st & Hi & Ht & ->)|(o & He & _)]; [|by exists o].
    eapply search_loop_ends; [done..|]. cbn. lia. }
  exists o. split; [done|]. by apply (search_internal_ok _ _ _ _ _ _ _ _ Hok Ho).
Qed.

(** ** The properties *)

(** C3 On a store that holds blocks for the identifiers of a finite set U, a search
    whose policies do not panic ends after at most |U| + 1 rounds, whatever the width,
    the number of leaves asked for and the children the selector picks, and it never
    panics. *)
Theorem search_terminates fuel root t w n mode s0 (U : gset BlockHash) :
  store_ok s0 -> policies_total -> (forall k b, stored s0 k b -> k ∈ U) -> (size U < fuel)%nat ->
  exists o, search_internal fuel root t w n mode s0 = Some o /\ no_panic (out_result o).
Proof. apply search_ends. Qed.

(** C1 A search that succeeds returns exactly n leaves at positions 0 to n-1, and they
    are the first n of a frontier ranked by compare_candidates that holds every leaf
    entry of the blocks loaded from the root and leads to every child not loaded yet,
    each candidate with the score of its entry; with telemetry on, the summary counts
    the distinct blocks loaded. *)
Theorem search_returns_best fuel root t w n mode s0 o res summary :
  store_ok s0 -> search_internal fuel root t w n mode s0 = Some o -> out_result o = Ok (res, summary) ->
  success_post s0 t root n (mode_enabled mode) res summary.
Proof. intros Hok Ho. by apply (search_internal_ok _ _ _ _ _ _ _ _ Hok Ho). Qed.

(** Exhausted is only reported when every child of every loaded block has been
    loaded, from the root down, and then the number of leaves it reports is the number
    of leaf entries of those blocks, fewer than asked for. *)
Theorem search_exhaustion_truthful fuel root t w n mode s0 o requested reachable :
  store_ok s0 -> search_internal fuel root t w n mode s0 = Some o ->
  out_result o = Err (Exhausted requested reachable) ->
  exhausted_post s0 t root n requested reachable.
Proof. intros Hok Ho. by apply (search_internal_ok _ _ _ _ _ _ _ _ Hok Ho). Qed.

(** However a search ends without a panic, an observer is given exactly one summary,
    with the width of the search and the termination kind of its result, the same
    summary the caller gets; without an observer nothing is emitted. *)
Theorem search_telemetry_protocol fuel root t w n mode s0 o :
  store_ok s0 -> search_internal fuel root t w n mode s0 = Some o -> reports w mode o.
Proof. intros Hok Ho. by apply (search_internal_ok _ _ _ _ _ _ _ _ Hok Ho). Qed.
End search.
