(* ===== verification/SearchPolicy.v ===== *)
(** * The default search policies and the published profiles

    crates/lexongraph-search/src/lib.rs: the default compatibility check, the
    cosine scorer over [f32le] and [f64le] embeddings with its order key, the two
    published frontier selectors, and the profiles that choose between them. The
    two decoding loops of the scorer, and of the geometry decoder, differ only in
    how an element is read: that is the argument [element]. *)
From S2P Require Import Prelude Ordering Hash Cbor Fields Ieee Ebcp EbcpPayload BlockV1.
From S2P Require Import BlockV2 Store Search.

(** ** Targets *)
Record EncodedTargetEmbedding := { encoded_bytes : bytes; encoded_spec : EmbeddingSpec }.
Record PreparedTargetEmbedding := { prepared_target : EncodedTargetEmbedding; prepared_spec : EmbeddingSpec }.

(** [TargetPreparationError] has the one constructor [Block]. *)
Definition TargetPreparationError_to_string (error : BlockError) : string :=
  ("failed to prepare target embedding: " +:+ BlockError_to_string error)%stdpp.

Definition prepare_target_embedding (root : ValidatedBlock) (logical_embedding : list f32)
  : result BlockError PreparedTargetEmbedding :=
  let? prepared := prepare_root_comparison_target root logical_embedding in
  Ok {| prepared_target := {| encoded_bytes := target_bytes prepared;
                              encoded_spec := comparison_spec prepared |};
        prepared_spec := comparison_spec prepared |}.

(** ** Errors *)
Inductive DefaultPolicyError :=
| IncompatibleEmbeddingSpec (target candidate : EmbeddingSpec)
| UnsupportedEncoding (enc : string)
| InvalidByteLength (role enc : string) (dim expected actual : N)
| DimensionOverflow (enc : string) (dim : N)
| ZeroMagnitude (role : string)
| NonFiniteValue (role : string) (index : N)
| NonFiniteScore.

Definition DefaultPolicyError_to_string (e : DefaultPolicyError) : string :=
  match e with
  | IncompatibleEmbeddingSpec target candidate =>
      "target embedding spec (" +:+ encoding target +:+ ", " +:+ pretty (dims target)
      +:+ " dims) does not match candidate embedding spec (" +:+ encoding candidate +:+ ", "
      +:+ pretty (dims candidate) +:+ " dims)"
  | UnsupportedEncoding enc => "unsupported embedding encoding " +:+ enc
  | InvalidByteLength role enc dim expected actual =>
      role +:+ " embedding length " +:+ pretty actual +:+ " does not match encoding " +:+ enc
      +:+ " with " +:+ pretty dim +:+ " dims (expected " +:+ pretty expected +:+ " bytes)"
  | DimensionOverflow enc dim =>
      "embedding spec with encoding " +:+ enc +:+ " and " +:+ pretty dim
      +:+ " dims is too large to validate"
  | ZeroMagnitude role => role +:+ " embedding must not have zero magnitude"
  | NonFiniteValue role index =>
      role +:+ " embedding contains a non-finite value at index " +:+ pretty index
  | NonFiniteScore => "cosine similarity produced a non-finite score"
  end%stdpp.

Inductive GeometryAwareFrontierSelectionError :=
| GUnsupportedEncoding (enc : string)
| GInvalidByteLength (child : BlockHash) (enc : string) (dim expected actual : N)
| GDimensionOverflow (child : BlockHash) (enc : string) (dim : N)
| GZeroMagnitude (child : BlockHash)
| GNonFiniteValue (child : BlockHash) (index : N).

Definition GeometryError_to_string (e : GeometryAwareFrontierSelectionError) : string :=
  match e with
  | GUnsupportedEncoding enc => "geometry-aware frontier selection does not support encoding " +:+ enc
  | GInvalidByteLength child enc dim expected actual =>
      "child block " +:+ BlockHash_to_string child +:+ " embedding length " +:+ pretty actual
      +:+ " does not match encoding " +:+ enc +:+ " with " +:+ pretty dim +:+ " dims (expected "
      +:+ pretty expected +:+ " bytes)"
  | GDimensionOverflow child enc dim =>
      "child block " +:+ BlockHash_to_string child +:+ " embedding spec with encoding " +:+ enc
      +:+ " and " +:+ pretty dim +:+ " dims is too large to validate"
  | GZeroMagnitude child =>
      "child block " +:+ BlockHash_to_string child +:+ " embedding must not have zero magnitude"
  | GNonFiniteValue child index =>
      "child block " +:+ BlockHash_to_string child +:+ " embedding contains a non-finite value at index "
      +:+ pretty index
  end%stdpp.

(** ** Compatibility *)
Definition ensure_matching_specs (target candidate : EmbeddingSpec) : result DefaultPolicyError unit :=
  if String.eqb (encoding target) (encoding candidate) && (dims target =? dims candidate)%N then Ok tt
  else Err (IncompatibleEmbeddingSpec target candidate).

Definition default_compatibility : EmbeddingCompatibility EncodedTargetEmbedding := {|
  ec_error := DefaultPolicyError;
  ec_show := DefaultPolicyError_to_string;
  ensure_compatible := fun target spec => ensure_matching_specs (encoded_spec target) spec
|}.

(** ** Elements *)
(** An element of an embedding as [f64]; [None] when it is not finite. *)
Definition f32_element (chunk : bytes) : option f64 :=
  let value := f32_from_le_bytes chunk in
  if f32_is_finite value then Some (f64_of_f32 value) else None.
Definition f64_element (chunk : bytes) : option f64 :=
  let value := f64_from_le_bytes chunk in
  if f64_is_finite value then Some value else None.

(** [element_width], [expected_byte_len], [validate_embedding_bytes] *)
Definition element_width (spec : EmbeddingSpec) : result DefaultPolicyError N :=
  if String.eqb (encoding spec) "f32le" then Ok 4%N
  else if String.eqb (encoding spec) "f64le" then Ok 8%N
  else Err (UnsupportedEncoding (encoding spec)).

Definition expected_byte_len (spec : EmbeddingSpec) (width : N) : result DefaultPolicyError N :=
  let? expected := ok_or (checked_mul U64_MAX (dims spec) width)
    (DimensionOverflow (encoding spec) (dims spec)) in
  ok_or (usize_try_from expected) (DimensionOverflow (encoding spec) (dims spec)).

Definition validate_embedding_bytes (b : bytes) (spec : EmbeddingSpec) (role : string)
  : result DefaultPolicyError N :=
  let? width := element_width spec in
  let? expected := expected_byte_len spec width in
  guard? (len b =? expected)%N
    else InvalidByteLength role (encoding spec) (dims spec) expected (len b) in
  Ok width.

(** ** Cosine scores *)
(** [total_order_key_f64]: the bits as an unsigned key. *)
Definition total_order_key_f64 (value : f64) : N :=
  if (N.shiftr value 63 =? 0)%N then N.lxor value (2 ^ 63) else N.lxor value (2 ^ 64 - 1).

(** [CosineScore::from_f64]; the score is the key. *)
Definition CosineScore_from_f64 (value : f64) : result DefaultPolicyError N :=
  guard? f64_is_finite value else NonFiniteScore in
  Ok (total_order_key_f64 value).

Definition cosine_similarity_from_parts (dot target_norm_sq candidate_norm_sq : f64)
  : result DefaultPolicyError N :=
  guard? negb (feqb binary64 target_norm_sq 0) else ZeroMagnitude "target" in
  guard? negb (feqb binary64 candidate_norm_sq 0) else ZeroMagnitude "candidate" in
  CosineScore_from_f64 (fdiv binary64 dot
    (fmul binary64 (fsqrt binary64 target_norm_sq) (fsqrt binary64 candidate_norm_sq))).

(** The loop of [cosine_similarity_bytes] over the zipped chunks. *)
Fixpoint cosine_loop (element : bytes -> option f64) (index : N) (target candidate : list bytes)
  (dot target_norm_sq candidate_norm_sq : f64) : result DefaultPolicyError (f64 * f64 * f64) :=
  match target, candidate with
  | target_chunk :: target', candidate_chunk :: candidate' =>
      let? t := ok_or (element target_chunk) (NonFiniteValue "target" index) in
      let? c := ok_or (element candidate_chunk) (NonFiniteValue "candidate" index) in
      cosine_loop element (index + 1) target' candidate'
        (fadd binary64 dot (fmul binary64 t c))
        (fadd binary64 target_norm_sq (fmul binary64 t t))
        (fadd binary64 candidate_norm_sq (fmul binary64 c c))
  | _, _ => Ok (dot, target_norm_sq, candidate_norm_sq)
  end.

Definition cosine_similarity_bytes (target candidate : bytes) (spec : EmbeddingSpec)
  : result DefaultPolicyError N :=
  let? width := validate_embedding_bytes target spec "target" in
  let? _ := validate_embedding_bytes candidate spec "candidate" in
  let run element :=
    let? '(dot, target_norm_sq, candidate_norm_sq) :=
      cosine_loop element 0 (chunks_exact (N.to_nat width) target)
        (chunks_exact (N.to_nat width) candidate) 0%N 0%N 0%N in
    cosine_similarity_from_parts dot target_norm_sq candidate_norm_sq in
  if String.eqb (encoding spec) "f32le" then run f32_element
  else if String.eqb (encoding spec) "f64le" then run f64_element
  else Err (UnsupportedEncoding (encoding spec)).

Definition default_scorer : CandidateScorer EncodedTargetEmbedding := {|
  cs_error := DefaultPolicyError;
  cs_show := DefaultPolicyError_to_string;
  cs_score := N;
  cs_cmp := N.compare;
  score := fun target candidate spec =>
    let? _ := ensure_matching_specs (encoded_spec target) spec in
    cosine_similarity_bytes (encoded_bytes target) candidate spec
|}.

(** ** Frontier selection *)
Section selection.
Context {Score : Type}.
Notation expandable := (ExpandableFrontierCandidate Score).

(** [DefaultTopWFrontierSelector::select] *)
Definition top_w (frontier : list expandable) (w : N) : list BlockHash :=
  map exp_child (take_n w frontier).

(** The loop of [decode_geometry_vector]: the values and the sum of their squares. *)
Fixpoint geometry_loop (child : BlockHash) (element : bytes -> option f64) (index : N)
  (l : list bytes) (norm_sq : f64) : result GeometryAwareFrontierSelectionError (list f64 * f64) :=
  match l with
  | [] => Ok ([], norm_sq)
  | chunk :: l' =>
      let? value := ok_or (element chunk) (GNonFiniteValue child index) in
      let? '(vector, total) := geometry_loop child element (index + 1) l'
        (fadd binary64 norm_sq (fmul binary64 value value)) in
      Ok (value :: vector, total)
  end.

Definition geometry_width (enc : string) : result GeometryAwareFrontierSelectionError N :=
  if String.eqb enc "f32le" then Ok 4%N
  else if String.eqb enc "f64le" then Ok 8%N
  else Err (GUnsupportedEncoding enc).

Definition decode_geometry_vector (candidate : expandable)
  : result GeometryAwareFrontierSelectionError (list f64) :=
  let child := exp_child candidate in
  let enc := encoding (exp_spec candidate) in
  let dim := dims (exp_spec candidate) in
  let? width := geometry_width enc in
  let? expected := ok_or (checked_mul U64_MAX dim width) (GDimensionOverflow child enc dim) in
  let? expected := ok_or (usize_try_from expected) (GDimensionOverflow child enc dim) in
  guard? (len (exp_embedding candidate) =? expected)%N
    else GInvalidByteLength child enc dim expected (len (exp_embedding candidate)) in
  let element := if String.eqb enc "f32le" then f32_element else f64_element in
  let? '(vector, norm_sq) := geometry_loop child element 0
    (chunks_exact (N.to_nat width) (exp_embedding candidate)) 0%N in
  guard? negb (feqb binary64 norm_sq 0) else GZeroMagnitude child in
  Ok (map (fun value => fdiv binary64 value (fsqrt binary64 norm_sq)) vector).

(** [dot]: the sum of a float iterator starts from -0.0. *)
Definition dot (left right : list f64) : f64 :=
  fold_left (fun acc p => fadd binary64 acc (fmul binary64 p.1 p.2)) (zip left right) f64_neg_zero.

(** [min_cosine_distance]; an index out of range panics. *)
Definition min_cosine_distance (candidate : list f64) (selected : list nat) (vectors : list (list f64))
  : result GeometryAwareFrontierSelectionError f64 :=
  try_fold (fun acc index =>
    let? v := expect (vectors !! index) in
    Ok (fmin binary64 acc (fsub binary64 f64_one (dot candidate v)))) f64_infinity selected.

(** The distance of the vector with an index. *)
Definition distance_of (selected : list nat) (vectors : list (list f64)) (index : nat)
  : result GeometryAwareFrontierSelectionError f64 :=
  let? v := expect (vectors !! index) in min_cosine_distance v selected vectors.

(** The inner loop: the first index of the greatest distance. *)
Fixpoint farthest_loop (selected : list nat) (vectors : list (list f64)) (best_index : nat)
  (best_distance : f64) (l : list nat) : result GeometryAwareFrontierSelectionError nat :=
  match l with
  | [] => Ok best_index
  | candidate_index :: l' =>
      let? distance := distance_of selected vectors candidate_index in
      if match f64_total_cmp distance best_distance with Gt => true | _ => false end
      then farthest_loop selected vectors candidate_index distance l'
      else farthest_loop selected vectors best_index best_distance l'
  end.

(** The [while] loop; it takes one index out of [remaining] each time. *)
Fixpoint select_loop (fuel : nat) (limit : nat) (vectors : list (list f64)) (selected remaining : list nat)
  : result GeometryAwareFrontierSelectionError (list nat) :=
  match fuel, remaining with
  | S fuel', first :: rest =>
      if (length selected <? limit)%nat then
        let? best_distance := distance_of selected vectors first in
        let? best_index := farthest_loop selected vectors first best_distance rest in
        select_loop fuel' limit vectors (selected ++ [best_index])
          (List.filter (fun index => negb (index =? best_index)%nat) remaining)
      else Ok selected
  | _, _ => Ok selected
  end.

(** [window] of [GeometryAwareFrontierSelector::select] *)
Definition window_of (frontier : list expandable) (w : N) : list expandable :=
  take_n (N.max (saturating_mul USIZE_MAX w 2) w) frontier.

(** [GeometryAwareFrontierSelector::select] *)
Definition geometry_select (frontier : list expandable) (w : N)
  : result GeometryAwareFrontierSelectionError (list BlockHash) :=
  match frontier with
  | [] => Ok []
  | _ =>
      if (w =? 0)%N then Ok []
      else
        let window := window_of frontier w in
        let? vectors := collect_map decode_geometry_vector window in
        let? selected := select_loop (length window) (N.to_nat (N.min (len window) w)) vectors
          [0%nat] (seq 1 (length window - 1)) in
        collect_map (fun index => rmap exp_child (expect (window !! index))) selected
  end.
End selection.

(** The public top-w selector; its error is [Infallible]. *)
Definition top_w_selector (Score : Type) : FrontierSelector Score := {|
  fs_error := Empty_set;
  fs_show := fun e => match e with end;
  select := fun frontier w => Ok (top_w frontier w)
|}.

Inductive PublishedDefaultFrontierSelector := TopW | GeometryAware.

Definition published_select {Score} (selector : PublishedDefaultFrontierSelector)
  (frontier : list (ExpandableFrontierCandidate Score)) (w : N)
  : result GeometryAwareFrontierSelectionError (list BlockHash) :=
  match selector with
  | TopW => Ok (top_w frontier w)
  | GeometryAware => geometry_select frontier w
  end.

Definition published_selector (selector : PublishedDefaultFrontierSelector) (Score : Type)
  : FrontierSelector Score := {|
  fs_error := GeometryAwareFrontierSelectionError;
  fs_show := GeometryError_to_string;
  select := published_select selector
|}.

(** ** Published profiles *)
Record PublishedProfileVersion := { major : N; minor : N; patch : N }.
#[export] Instance PublishedProfileVersion_eq_dec : EqDecision PublishedProfileVersion.
Proof. solve_decision. Defined.

Definition PublishedProfileVersion_to_string (v : PublishedProfileVersion) : string :=
  (pretty (major v) +:+ "." +:+ pretty (minor v) +:+ "." +:+ pretty (patch v))%stdpp.

Definition PUBLISHED_PROFILE_V0_1_0 : PublishedProfileVersion := {| major := 0; minor := 1; patch := 0 |}.
Definition PUBLISHED_PROFILE_V0_2_0 : PublishedProfileVersion := {| major := 0; minor := 2; patch := 0 |}.

(** [SearchProfileError] has the one constructor [UnsupportedPublishedProfileVersion]. *)
Inductive SearchProfileError := UnsupportedPublishedProfileVersion (v : PublishedProfileVersion).
Definition SearchProfileError_to_string (e : SearchProfileError) : string :=
  match e with
  | UnsupportedPublishedProfileVersion v =>
      "unsupported published search profile version " +:+ PublishedProfileVersion_to_string v
  end%stdpp.

Record PublishedSearchProfile := { version : PublishedProfileVersion }.

Definition published_search_profile (v : PublishedProfileVersion)
  : result SearchProfileError PublishedSearchProfile :=
  if bool_decide (v = PUBLISHED_PROFILE_V0_1_0) || bool_decide (v = PUBLISHED_PROFILE_V0_2_0)
  then Ok {| version := v |}
  else Err (UnsupportedPublishedProfileVersion v).

(** [PublishedSearchProfile::searcher]: the selector it picks; another version is
    [unreachable!]. *)
Definition profile_selector (p : PublishedSearchProfile)
  : result SearchProfileError PublishedDefaultFrontierSelector :=
  if bool_decide (version p = PUBLISHED_PROFILE_V0_1_0) then Ok TopW
  else if bool_decide (version p = PUBLISHED_PROFILE_V0_2_0) then Ok GeometryAware
  else Panic.

(** [ProfiledSearcher] *)
Record ProfiledSearcher := { profile : PublishedSearchProfile; inner : PublishedDefaultFrontierSelector }.

Definition ProfiledSearcher_new (v : PublishedProfileVersion) : result SearchProfileError ProfiledSearcher :=
  let? profile := published_search_profile v in
  let? inner := profile_selector profile in
  Ok {| profile := profile; inner := inner |}.

Definition encode_target (b : bytes) (spec : EmbeddingSpec) : EncodedTargetEmbedding :=
  {| encoded_bytes := b; encoded_spec := spec |}.

(** Its [search], [search_with_telemetry] and [search_with_observer]: the mode
    tells them apart. *)
Definition profiled_search {St} `{BlockStore St} `{CborCodec} `{Sha256} `{HalfCrate} (fuel : nat)
  (searcher : ProfiledSearcher) (root_id : BlockHash) (b : bytes) (spec : EmbeddingSpec) (w n : N)
  (mode : TelemetryMode) (s : St) : option (Outcome St) :=
  @search_internal St EncodedTargetEmbedding _ _ _ _ default_compatibility default_scorer
    (published_selector (inner searcher) N) fuel root_id (encode_target b spec) w n mode s.
