(* ===== verification/SearchPolicyCorrect.v ===== *)
(** * The default policies: the properties

    The order of cosine scores is the order of the floats they come from; the
    similarity is symmetric; both published selectors always make a selection the
    search loop accepts, and the geometry-aware one picks the candidate farthest
    from those picked before; a profiled search ends without a panic.

    Then: a concrete search, for these policies and simpler ones. *)
From S2P Require Import Prelude Ordering Hash Cbor Fields Ieee Ebcp EbcpPayload BlockV1 CborRef BlockV1Correct BlockV2 Store MemoryStore MemoryCorrect Search SearchCorrect SearchPolicy.
From Stdlib Require Import Floats.SpecFloat.

(** ** Specification *)

(** [i] is the first of the indices below [n] and outside [prev] whose vector is
    farthest from those of [prev]. *)
Definition farthest_from (vectors : list (list f64)) (n : nat) (prev : list nat) (i : nat) : Prop :=
  (i < n)%nat /\ i ∉ prev /\ exists d, distance_of prev vectors i = Ok d
  /\ forall j, (j < n)%nat -> j ∉ prev -> exists d', distance_of prev vectors j = Ok d'
     /\ f64_total_cmp d' d <> Gt /\ (f64_total_cmp d' d = Eq -> (i <= j)%nat).

(** A selection by index: distinct indices, each but the first farthest from the
    ones before it. *)
Definition farthest_chain (vectors : list (list f64)) (n : nat) (sel : list nat) : Prop :=
  sel !! 0%nat = Some 0%nat /\ forall k i, (0 < k)%nat -> sel !! k = Some i ->
  farthest_from vectors n (take k sel) i.

(** ** The score order *)
Lemma f64_ok_lt a : f64_ok a -> (a < 2 ^ 64)%N.
Proof. done. Qed.

Lemma sign_field_ge a : f64_ok a -> sign_field binary64 a = (2 ^ 63 <=? a)%N.
Proof.
  intros Ha. unfold sign_field. change (mant_bits binary64 + exp_bits binary64)%N with 63%N.
  rewrite N.testbit_eqb. apply f64_ok_lt in Ha.
  destruct (N.leb_spec (2 ^ 63) a) as [Hl|Hl].
  - replace (a / 2 ^ 63)%N with 1%N; [done|]. apply (N.div_unique a (2 ^ 63) 1 (a - 2 ^ 63)); lia.
  - by rewrite N.div_small by done.
Qed.

Lemma magnitude_eq a : f64_ok a ->
  magnitude binary64 a = if sign_field binary64 a then (a - 2 ^ 63)%N else a.
Proof.
  intros Ha. rewrite sign_field_ge by done. unfold magnitude.
  change (mant_bits binary64 + exp_bits binary64)%N with 63%N. apply f64_ok_lt in Ha.
  destruct (N.leb_spec (2 ^ 63) a) as [Hl|Hl]; [|by apply N.mod_small].
  symmetry. apply (N.mod_unique a (2 ^ 63) 1); lia.
Qed.

Lemma order_key_eq a : f64_ok a ->
  total_order_key_f64 a = if sign_field binary64 a then (2 ^ 64 - 1 - a)%N else (a + 2 ^ 63)%N.
Proof.
  intros Ha. rewrite sign_field_ge by done. unfold total_order_key_f64. apply f64_ok_lt in Ha.
  rewrite N.shiftr_div_pow2. destruct (N.leb_spec (2 ^ 63) a) as [Hl|Hl].
  - replace (a / 2 ^ 63 =? 0)%N with false by
      (symmetry; apply N.eqb_neq; pose proof (N.div_le_lower_bound a (2 ^ 63) 1); lia).
    change (2 ^ 64 - 1)%N with (N.ones 64). change (N.lxor a (N.ones 64)) with (N.lnot a 64).
    apply N.lnot_sub_low. apply N.log2_lt_pow2; lia.
  - rewrite N.div_small by done. cbn [N.eqb]. symmetry. apply N.add_nocarry_lxor.
    apply N.bits_inj. intros i. rewrite N.land_spec, N.bits_0, N.pow2_bits_eqb.
    destruct (N.eqb_spec 63 i) as [<-|]; [|by rewrite andb_false_r].
    rewrite N.testbit_eqb, N.div_small by done. done.
Qed.

Lemma order_key_total_cmp a b : f64_ok a -> f64_ok b ->
  N.compare (total_order_key_f64 a) (total_order_key_f64 b) = f64_total_cmp a b.
Proof.
  intros Ha Hb. unfold f64_total_cmp, total_cmp_key.
  rewrite !order_key_eq, !magnitude_eq, !sign_field_ge by done. apply f64_ok_lt in Ha, Hb.
  destruct (N.leb_spec (2 ^ 63) a), (N.leb_spec (2 ^ 63) b);
    match goal with |- N.compare ?x ?y = Z.compare ?u ?v =>
      destruct (N.compare_spec x y), (Z.compare_spec u v); lia || done end.
Qed.

(** The parts of a finite magnitude: exponent and significand. *)
Definition mag_exp (m : N) : Z :=
  if (m / 2 ^ 52 =? 0)%N then emin_of binary64 else (Z.of_N (m / 2 ^ 52) - 1 + emin_of binary64)%Z.
Definition mag_man (m : N) : N :=
  if (m / 2 ^ 52 =? 0)%N then (m mod 2 ^ 52)%N else (m mod 2 ^ 52 + 2 ^ 52)%N.

Lemma mag_lt m k : (m < k)%N ->
  (mag_exp m < mag_exp k)%Z \/ (mag_exp m = mag_exp k /\ (mag_man m < mag_man k)%N).
Proof.
  intros Hlt. unfold mag_exp, mag_man.
  pose proof (N.div_mod m (2 ^ 52) ltac:(done)) as Hm. pose proof (N.div_mod k (2 ^ 52) ltac:(done)) as Hk.
  pose proof (N.mod_lt m (2 ^ 52) ltac:(done)) as Hm'. pose proof (N.mod_lt k (2 ^ 52) ltac:(done)) as Hk'.
  revert Hm Hk Hm' Hk'. generalize (m / 2 ^ 52)%N as q, (m mod 2 ^ 52)%N as r,
    (k / 2 ^ 52)%N as q', (k mod 2 ^ 52)%N as r', (emin_of binary64) as e. intros q r q' r' e Hm Hk Hm' Hk'.
  destruct (N.eqb_spec q 0), (N.eqb_spec q' 0); lia.
Qed.

Lemma mag_man_zero m : mag_man m = 0%N <-> m = 0%N.
Proof.
  unfold mag_man. pose proof (N.div_mod m (2 ^ 52) ltac:(done)) as Hm. revert Hm.
  generalize (m / 2 ^ 52)%N as q, (m mod 2 ^ 52)%N as r. intros q r Hm.
  destruct (N.eqb_spec q 0); lia.
Qed.

(** A finite float is its sign, exponent and significand. *)
Lemma decode_finite a : f64_ok a -> f64_is_finite a = true ->
  decode binary64 a =
    match mag_man (magnitude binary64 a) with
    | N0 => S754_zero (sign_field binary64 a)
    | Npos p => S754_finite (sign_field binary64 a) p (mag_exp (magnitude binary64 a))
    end.
Proof.
  intros Ha Hf. unfold f64_is_finite, is_finite in Hf. apply negb_true_iff in Hf. unfold decode.
  rewrite Hf. unfold mag_man, mag_exp, exp_field, mant_field, magnitude in *.
  change (mant_bits binary64 + exp_bits binary64)%N with 63%N.
  change (mant_bits binary64) with 52%N. change (exp_bits binary64) with 11%N.
  assert ((a mod 2 ^ 63) / 2 ^ 52 = (a / 2 ^ 52) mod 2 ^ 11)%N as ->.
  { change (2 ^ 63)%N with (2 ^ 52 * 2 ^ 11)%N. rewrite N.Div0.mod_mul_r.
    rewrite (N.mul_comm (2 ^ 52)), N.div_add, N.div_small by (done || apply N.mod_lt; done). done. }
  assert ((a mod 2 ^ 63) mod 2 ^ 52 = a mod 2 ^ 52)%N as ->.
  { change (2 ^ 63)%N with (2 ^ 52 * 2 ^ 11)%N. rewrite N.Div0.mod_mul_r.
    rewrite (N.mul_comm (2 ^ 52)), N.Div0.mod_add. apply N.Div0.mod_mod. }
  destruct (_ =? 0)%N; [done|]. destruct (a mod 2 ^ 52 + 2 ^ 52)%N eqn:E; [|done]. generalize dependent (a mod 2 ^ 52)%N. lia.
Qed.

Lemma fltb_finite a b : f64_ok a -> f64_ok b -> f64_is_finite a = true -> f64_is_finite b = true ->
  fltb binary64 a b = true <->
  (total_order_key_f64 a < total_order_key_f64 b)%N
  /\ ~ (magnitude binary64 a = 0%N /\ magnitude binary64 b = 0%N).
Proof.
  intros Ha Hb Hfa Hfb. rewrite <-N.compare_lt_iff, order_key_total_cmp by done.
  unfold f64_total_cmp, total_cmp_key, fltb. rewrite !decode_finite by done.
  rewrite Z.compare_lt_iff.
  generalize (sign_field binary64 a) as s, (sign_field binary64 b) as t.
  generalize (magnitude binary64 a) as m, (magnitude binary64 b) as k. intros m k s t.
  pose proof (mag_lt m k). pose proof (mag_lt k m). pose proof (mag_man_zero m). pose proof (mag_man_zero k).
  assert (m = k \/ m < k \/ k < m)%N as Hmk by lia.
  destruct (mag_man m) as [|p] eqn:Em, (mag_man k) as [|q] eqn:Ek; unfold SFltb; cbn [SFcompare].
  - split; [done|]. tauto.
  - destruct s, t; split; try done; lia.
  - destruct s, t; split; try done; lia.
  - assert (m = k -> p = q /\ mag_exp m = mag_exp k) as Heq by (intros ->; split; congruence).
    change (PosDef.Pos.compare_cont Eq p q) with (Pos.compare p q).
    generalize dependent (mag_exp m). generalize dependent (mag_exp k). intros em ek ? ? ?.
    destruct s, t, (Z.compare_spec ek em), (Pos.compare_spec p q); cbn [CompOpp]; split; try done; lia.
Qed.

(** ** The similarity is symmetric *)
Lemma SFmul_comm p e x y : SFmul p e x y = SFmul p e y x.
Proof.
  destruct x as [s|s| |s m z], y as [t|t| |t k u]; cbn; try done; rewrite 1?(xorb_comm t s); try done.
  by rewrite (Pos.mul_comm k m), (Z.add_comm u z).
Qed.

Lemma fmul_comm f a b : fmul f a b = fmul f b a.
Proof. unfold fmul. by rewrite SFmul_comm. Qed.

Lemma cosine_loop_swap element l k : forall i d tn cn r,
  cosine_loop element i l k d tn cn = Ok r -> cosine_loop element i k l d cn tn = Ok (r.1.1, r.2, r.1.2).
Proof.
  revert k. induction l as [|x l IH]; intros [|y k] i d tn cn r Hl; cbn in Hl |- *;
    try (by injection Hl as <-). inv_ok. rewrite Hok, Hok0. cbn [ok_or rbind].
  rewrite (fmul_comm _ a0 a). by apply IH.
Qed.

Lemma from_parts_swap d t c k :
  cosine_similarity_from_parts d t c = Ok k -> cosine_similarity_from_parts d c t = Ok k.
Proof.
  unfold cosine_similarity_from_parts. intros Hk. inv_ok.
  by rewrite fmul_comm.
Qed.

Lemma validate_role b spec r r' w :
  validate_embedding_bytes b spec r = Ok w -> validate_embedding_bytes b spec r' = Ok w.
Proof.
  unfold validate_embedding_bytes. intros Hv. inv_ok. rewrite Hok. cbn. rewrite Hok0. cbn. rewrite Hb. congruence.
Qed.

Lemma validate_same_width b c spec r r' w w' :
  validate_embedding_bytes b spec r = Ok w -> validate_embedding_bytes c spec r' = Ok w' -> w = w'.
Proof. unfold validate_embedding_bytes. intros Hv Hw. inv_ok. congruence. Qed.

Lemma cosine_swap t c spec k :
  cosine_similarity_bytes t c spec = Ok k -> cosine_similarity_bytes c t spec = Ok k.
Proof.
  unfold cosine_similarity_bytes. intros Hk.
  apply rbind_ok in Hk as (w & Hw & Hk). apply rbind_ok in Hk as (w' & Hw' & Hk).
  pose proof (validate_same_width _ _ _ _ _ _ _ Hw Hw') as <-.
  rewrite (validate_role _ _ _ "target" _ Hw'). cbn [rbind]. rewrite (validate_role _ _ _ "candidate" _ Hw).
  cbn [rbind]. destruct (String.eqb _ "f32le"); [|destruct (String.eqb _ "f64le"); [|done]];
    apply rbind_ok in Hk as ([[d tn] cn] & Hl & Hk); apply cosine_loop_swap in Hl; rewrite Hl; cbn;
    by apply from_parts_swap.
Qed.

Lemma cosine_loop_no_panic element l : forall k i d tn cn, no_panic (cosine_loop element i l k d tn cn).
Proof. induction l as [|x l IH]; intros [|y k] i d tn cn; cbn; np. Qed.
#[local] Hint Resolve cosine_loop_no_panic : no_panic.

Lemma cosine_no_panic t c spec : no_panic (cosine_similarity_bytes t c spec).
Proof.
  unfold cosine_similarity_bytes, validate_embedding_bytes, element_width, expected_byte_len,
    cosine_similarity_from_parts, CosineScore_from_f64. np.
Qed.

(** ** Selection *)
Section selection.
Context {Score : Type}.
Notation expandable := (ExpandableFrontierCandidate Score).
Implicit Types (frontier window : list expandable) (vectors : list (list f64)).

Lemma take_n_length {A} n (l : list A) : len (take_n n l) = N.min (len l) n.
Proof. unfold take_n, len. rewrite length_take. lia. Qed.

Lemma take_n_prefix {A} n (l : list A) : take_n n l `prefix_of` l.
Proof. unfold take_n. eexists. symmetry. apply take_drop. Qed.

Lemma picks_valid frontier w (sel : list BlockHash) :
  NoDup (map exp_child frontier) -> sel ⊆+ map exp_child frontier -> len sel = N.min (len frontier) w ->
  validate_selected_children sel frontier w = Ok sel.
Proof.
  intros HN Hs Hl. apply validate_selected_ok. split_and!; [done|done| |].
  - apply submseteq_Permutation in Hs as [k Hk]. rewrite Hk in HN. by apply NoDup_app in HN as [? _].
  - intros c Hc. by eapply elem_of_submseteq.
Qed.

Lemma geometry_loop_no_panic child element l : forall i n, no_panic (geometry_loop child element i l n).
Proof. induction l as [|x l IH]; intros i n; cbn; np. Qed.
#[local] Hint Resolve geometry_loop_no_panic : no_panic.

Lemma decode_geometry_no_panic (c : expandable) : no_panic (decode_geometry_vector c).
Proof. unfold decode_geometry_vector, geometry_width. np. Qed.

(** Distances exist for indices in range. *)
Lemma try_fold_ok_all {A} {Err} (f : f64 -> A -> result Err f64) (l : list A) : forall acc,
  (forall x y, y ∈ l -> exists z, f x y = Ok z) -> exists d, try_fold f acc l = Ok d.
Proof.
  induction l as [|y l IH]; intros acc Hf; cbn; [by eexists|].
  destruct (Hf acc y ltac:(by left)) as [z ->]. cbn. apply IH. intros x y' Hy. apply Hf. by right.
Qed.

Lemma distance_ok vectors prev i :
  (i < length vectors)%nat -> (forall j, j ∈ prev -> (j < length vectors)%nat) ->
  exists d, distance_of prev vectors i = Ok d.
Proof.
  intros Hi Hp. unfold distance_of, min_cosine_distance.
  destruct (lookup_lt_is_Some_2 vectors i Hi) as [v ->]. cbn. apply try_fold_ok_all.
  intros x j Hj. destruct (lookup_lt_is_Some_2 vectors j (Hp _ Hj)) as [u ->]. by eexists.
Qed.

#[local] Instance total_cmp_total : TotalCmp f64_total_cmp.
Proof.
  split; unfold f64_total_cmp.
  - intros x y. apply Z.compare_antisym.
  - intros x y z. rewrite !Z.compare_le_iff. apply Z.le_trans.
Qed.

(** The inner loop finds the first farthest index. *)
Lemma farthest_loop_ok prev vectors l : forall best d (seen : list nat),
  (forall j, j ∈ l -> exists e, distance_of prev vectors j = Ok e) ->
  StronglySorted lt (seen ++ l) -> best ∈ seen -> distance_of prev vectors best = Ok d ->
  (forall j, j ∈ seen -> exists e, distance_of prev vectors j = Ok e /\ f64_total_cmp e d <> Gt
     /\ (f64_total_cmp e d = Eq -> (best <= j)%nat)) ->
  exists i e, farthest_loop prev vectors best d l = Ok i /\ i ∈ seen ++ l /\ distance_of prev vectors i = Ok e
  /\ forall j, j ∈ seen ++ l -> exists e', distance_of prev vectors j = Ok e' /\ f64_total_cmp e' e <> Gt
     /\ (f64_total_cmp e' e = Eq -> (i <= j)%nat).
Proof.
  induction l as [|x l IH]; intros best d seen Hd Hs Hb Hbd Hseen; cbn [farthest_loop].
  - exists best, d. rewrite app_nil_r. done.
  - destruct (Hd x ltac:(by left)) as [e He]. rewrite He. cbn [rbind].
    assert (forall j, j ∈ seen -> (j < x)%nat) as Hlt.
    { intros j Hj. apply StronglySorted_app in Hs as (Hs & _ & _). by apply Hs; [|left]. }
    rewrite (cons_middle x seen l), app_assoc in Hs |- *.
    destruct (f64_total_cmp e d) eqn:Ec.
    + apply IH; [intros j Hj; apply Hd; by right|done|set_solver|done|].
      intros j [Hj|Hj]%elem_of_app; [by apply Hseen|]. apply list_elem_of_singleton in Hj as ->.
      exists e. split_and!; [done|by rewrite Ec|]. intros _. pose proof (Hlt _ Hb). lia.
    + apply IH; [intros j Hj; apply Hd; by right|done|set_solver|done|].
      intros j [Hj|Hj]%elem_of_app; [by apply Hseen|]. apply list_elem_of_singleton in Hj as ->.
      exists e. split_and!; [done|by rewrite Ec|by rewrite Ec].
    + apply IH; [intros j Hj; apply Hd; by right|done|set_solver|done|].
      intros j [Hj|Hj]%elem_of_app.
      * destruct (Hseen j Hj) as (e' & He' & Hle & _). exists e'.
        assert (f64_total_cmp e' e = Lt) as Hl.
        { apply (cmp_le_lt_trans f64_total_cmp e' d e Hle). by apply (cmp_gt_lt f64_total_cmp e d). }
        split_and!; [done|by rewrite Hl|by rewrite Hl].
      * apply list_elem_of_singleton in Hj as ->. exists e. split_and!; [done| |done].
        by rewrite (cmp_refl f64_total_cmp).
Qed.

Lemma chain_snoc vectors n sel i :
  farthest_chain vectors n sel -> farthest_from vectors n sel i -> farthest_chain vectors n (sel ++ [i]).
Proof.
  intros [H0 Hc] Hi. split.
  - apply lookup_app_l_Some. done.
  - intros k j Hk Hj. apply lookup_app_Some in Hj as [Hj|[Hle Hj]].
    + rewrite take_app_le by (apply lookup_lt_Some in Hj; lia). by apply Hc.
    + apply list_lookup_singleton_Some in Hj as [Hz <-].
      by replace k with (length sel) by lia; rewrite take_app_length.
Qed.

Lemma filter_sorted (p : nat -> bool) l : StronglySorted lt l -> StronglySorted lt (List.filter p l).
Proof.
  induction 1 as [|x l Hl IH Hx]; cbn; [constructor|]. destruct (p x); [|done]. constructor; [done|].
  rewrite Forall_forall in *. intros y Hy. apply Hx. apply list_elem_of_In in Hy.
  apply filter_In in Hy as [Hy _]. by apply list_elem_of_In.
Qed.

Lemma seq_sorted a m : StronglySorted lt (seq a m).
Proof.
  revert a. induction m as [|m IH]; intros a; cbn; constructor; [done|].
  apply Forall_forall. intros x Hx%elem_of_seq. lia.
Qed.

Lemma all_selected_length n sel : (forall j, (j < n)%nat -> j ∈ sel) -> (n <= length sel)%nat.
Proof.
  intros Ha. rewrite <-(length_seq n 0). apply submseteq_length, NoDup_submseteq; [apply NoDup_seq|].
  intros j Hj%elem_of_seq. apply Ha. lia.
Qed.

Lemma select_loop_ok vectors n limit fuel : forall sel remaining,
  n = length vectors -> farthest_chain vectors n sel -> NoDup sel -> (forall j, j ∈ sel -> (j < n)%nat) ->
  StronglySorted lt remaining -> (forall j, j ∈ remaining <-> (j < n)%nat /\ j ∉ sel) ->
  (length sel <= limit <= n)%nat -> (limit <= fuel + length sel)%nat ->
  exists sel', select_loop fuel limit vectors sel remaining = Ok sel'
  /\ farthest_chain vectors n sel' /\ NoDup sel' /\ (forall j, j ∈ sel' -> (j < n)%nat) /\ length sel' = limit.
Proof.
  induction fuel as [|fuel IH]; intros sel remaining Hn Hc HN Hlt Hs Hr Hlim Hf.
  - exists sel. split_and!; [done..|]. lia.
  - destruct remaining as [|first rest]; cbn [select_loop].
    + exists sel. split_and!; [done..|]. pose proof (all_selected_length n sel) as Ha.
      assert (n <= length sel)%nat; [|lia]. apply Ha. intros j Hj.
      destruct (decide (j ∈ sel)); [done|]. exfalso. by apply (not_elem_of_nil j), Hr.
    + destruct (Nat.ltb_spec (length sel) limit) as [Hl|Hl]; [|exists sel; split_and!; [done..|lia]].
      assert (forall j, j ∈ first :: rest -> exists d, distance_of sel vectors j = Ok d) as Hd.
      { intros j Hj. apply Hr in Hj as [Hj _]. apply distance_ok; [lia|]. intros q Hq. apply Hlt in Hq. lia. }
      destruct (Hd first ltac:(by left)) as [d Hfd]. rewrite Hfd. cbn [rbind].
      destruct (farthest_loop_ok sel vectors rest first d [first]) as (i & e & Hi & Hin & Hie & Hmax).
      { intros j Hj. apply Hd. by right. }
      { done. }
      { by left. }
      { done. }
      { intros j Hj%list_elem_of_singleton. subst j. exists d. split_and!; [done| |done].
        by rewrite (cmp_refl f64_total_cmp). }
      cbn [app] in Hin, Hmax. rewrite Hi. cbn [rbind]. pose proof (proj1 (Hr _) Hin) as [Hin1 Hin2].
      apply IH; [done| | | | | |rewrite length_app; cbn; lia|rewrite length_app; cbn; lia].
      * apply chain_snoc; [done|]. split_and!; [done|done|]. exists e. split; [done|].
        intros j Hj1 Hj2. apply Hmax, Hr. done.
      * apply NoDup_app. split_and!; [done| |apply NoDup_singleton]. intros j Hj Hj'%list_elem_of_singleton.
        by subst j.
      * intros j [Hj|Hj%list_elem_of_singleton]%elem_of_app; [by apply Hlt|by subst j].
      * by apply (filter_sorted _ (first :: rest)).
      * intros j. rewrite list_elem_of_In, filter_In, <-list_elem_of_In, Hr, elem_of_app, list_elem_of_singleton.
        rewrite negb_true_iff, Nat.eqb_neq. tauto.
Qed.

Lemma window_picks (window : list expandable) sel :
  (forall i, i ∈ sel -> (i < length window)%nat) ->
  exists r, collect_map (fun i => rmap exp_child (expect (E := GeometryAwareFrontierSelectionError) (window !! i))) sel = Ok r
  /\ map Some r = map (fun i => exp_child <$> window !! i) sel.
Proof.
  induction sel as [|i sel IH]; intros Hi; [by exists []|].
  destruct IH as (r & Hr & Hm); [intros j Hj; apply Hi; by right|].
  destruct (lookup_lt_is_Some_2 window i ltac:(apply Hi; by left)) as [c Hc].
  exists (exp_child c :: r). cbn. rewrite Hc. cbn. rewrite Hr. cbn. by rewrite Hm.
Qed.

Lemma geometry_select_ok frontier w vectors :
  w <> 0%N -> frontier <> [] -> collect_map decode_geometry_vector (window_of frontier w) = Ok vectors ->
  exists r sel, geometry_select frontier w = Ok r
  /\ farthest_chain vectors (length (window_of frontier w)) sel /\ NoDup sel
  /\ len sel = N.min (len frontier) w
  /\ map Some r = map (fun i => exp_child <$> window_of frontier w !! i) sel.
Proof.
  intros Hw Hf Hv. unfold geometry_select. destruct frontier as [|c0 frontier]; [done|].
  set (fr := c0 :: frontier) in *. destruct (N.eqb_spec w 0); [done|]. rewrite Hv. cbn [rbind].
  pose proof (collect_map_length _ _ _ Hv) as Hlen.
  assert (len (window_of fr w) = N.min (len fr) (N.max (saturating_mul USIZE_MAX w 2) w)) as Hwl
    by apply take_n_length.
  assert (1 <= len fr)%N as H1 by (unfold len; cbn; lia).
  destruct (select_loop_ok vectors (length (window_of fr w)) (N.to_nat (N.min (len (window_of fr w)) w))
    (length (window_of fr w)) [0%nat] (seq 1 (length (window_of fr w) - 1)))
    as (sel & Hsel & Hc & HN & Hlt & Hl).
  { done. }
  { split; [done|]. intros k i Hk Hki. destruct k; [lia|done]. }
  { apply NoDup_singleton. }
  { intros j ->%list_elem_of_singleton. unfold len in *. lia. }
  { apply seq_sorted. }
  { intros j. rewrite elem_of_seq, list_elem_of_singleton. unfold len in *. lia. }
  { cbn. unfold len in *. lia. }
  { unfold len in *. cbn. lia. }
  rewrite Hsel. cbn [rbind]. destruct (window_picks (window_of fr w) sel Hlt) as (r & Hr & Hm).
  exists r, sel. split_and!; [done..| |done]. unfold len in *. lia.
Qed.

Lemma picks_NoDup (window : list expandable) sel (r : list BlockHash) :
  NoDup (map exp_child window) -> NoDup sel -> map Some r = map (fun i => exp_child <$> window !! i) sel ->
  NoDup r /\ forall c, c ∈ r -> c ∈ map exp_child window.
Proof.
  intros HN Hs Hr.
  assert (forall k c, r !! k = Some c -> exists i, sel !! k = Some i /\ map exp_child window !! i = Some c) as Hat.
  { intros k c Hk. assert (map Some r !! k = Some (Some c)) as Hk' by (by rewrite list_lookup_fmap, Hk).
    rewrite Hr, list_lookup_fmap in Hk'. destruct (sel !! k) as [i|]; [|done]. injection Hk' as Hi.
    exists i. by rewrite list_lookup_fmap. }
  split.
  - apply NoDup_alt. intros k k' c Hk Hk'. destruct (Hat _ _ Hk) as (i & Hi & Hc).
    destruct (Hat _ _ Hk') as (i' & Hi' & Hc'). pose proof (NoDup_lookup _ _ _ _ HN Hc Hc') as <-.
    by eapply (NoDup_lookup sel).
  - intros c Hc. apply list_elem_of_lookup in Hc as (k & Hk). destruct (Hat _ _ Hk) as (i & _ & Hc).
    by eapply list_elem_of_lookup_2.
Qed.

Lemma published_select_no_panic selector frontier w : no_panic (published_select selector frontier w).
Proof.
  destruct selector; cbn [published_select]; [done|]. unfold geometry_select.
  destruct frontier as [|c0 frontier]; [done|]. destruct (N.eqb_spec w 0); [done|].
  destruct (collect_map decode_geometry_vector (window_of (c0 :: frontier) w)) as [vectors|e|] eqn:Hv; [|done|].
  - destruct (geometry_select_ok (c0 :: frontier) w vectors) as (r & sel & Hg & _); [done..|].
    unfold geometry_select in Hg. destruct (N.eqb_spec w 0); [done|]. rewrite Hv in Hg. by rewrite Hg.
  - exfalso. eapply collect_map_no_panic; [|exact Hv]. intros c _. apply decode_geometry_no_panic.
Qed.

Lemma published_select_cases selector frontier w :
  NoDup (map exp_child frontier) ->
  (exists r, published_select selector frontier w = Ok r /\ validate_selected_children r frontier w = Ok r)
  \/ (selector = GeometryAware /\ exists e, published_select selector frontier w = Err e
      /\ collect_map decode_geometry_vector (window_of frontier w) = Err e).
Proof.
  intros HN. destruct selector; cbn [published_select].
  - left. exists (top_w frontier w). split; [done|]. apply picks_valid; [done| |].
    + unfold top_w. destruct (take_n_prefix w frontier) as [k Hk]. rewrite Hk at 2. rewrite map_app.
      by apply submseteq_inserts_r.
    + unfold top_w, len. rewrite length_map. apply take_n_length.
  - destruct (decide (frontier = [] \/ w = 0%N)) as [He|He].
    + left. exists []. assert (geometry_select frontier w = Ok []) as ->.
      { destruct He as [-> | ->]; [done|]. by destruct frontier. }
      split; [done|]. apply validate_selected_ok. split_and!; [done| |constructor|set_solver].
      destruct He as [-> | ->]; unfold len; cbn; lia.
    + destruct (collect_map decode_geometry_vector (window_of frontier w)) as [vectors|e|] eqn:Hv.
      * left. destruct (geometry_select_ok frontier w vectors) as (r & sel & Hg & _ & Hs & Hl & Hm); [naive_solver..|].
        exists r. split; [done|]. assert (NoDup (map exp_child (window_of frontier w))) as HNw.
        { destruct (take_n_prefix (N.max (saturating_mul USIZE_MAX w 2) w) frontier) as [k Hk].
          unfold window_of. rewrite Hk, map_app in HN. by apply NoDup_app in HN as [? _]. }
        destruct (picks_NoDup _ _ _ HNw Hs Hm) as [HNr Hin]. apply validate_selected_ok. split_and!; [done| |done|].
        -- rewrite <-Hl. unfold len. apply (f_equal length) in Hm. rewrite !length_map in Hm. by rewrite Hm.
        -- intros c Hc. apply Hin in Hc. destruct (take_n_prefix (N.max (saturating_mul USIZE_MAX w 2) w) frontier) as [k Hk].
           unfold window_of in Hc. rewrite Hk, map_app. apply elem_of_app. by left.
      * right. split; [done|]. exists e. split; [|done]. unfold geometry_select.
        destruct frontier as [|c0 frontier]; [naive_solver|].
        destruct (N.eqb_spec w 0); [naive_solver|]. by rewrite Hv.
      * exfalso. eapply collect_map_no_panic; [|exact Hv]. intros c _. apply decode_geometry_no_panic.
Qed.
End selection.

Lemma default_policies_total selector :
  @policies_total EncodedTargetEmbedding default_compatibility default_scorer (published_selector selector N).
Proof.
  split_and!.
  - intros t spec. cbn. unfold ensure_matching_specs. by destruct (_ && _).
  - intros t b spec. apply rbind_no_panic; [unfold ensure_matching_specs; by destruct (_ && _)|].
    intros _ _. apply cosine_no_panic.
  - intros l w. apply published_select_no_panic.
Qed.

(** ** The properties *)

(** The integer key of a cosine score orders scores as f64::total_cmp does, and on
    finite scores a smaller number has a smaller key, the two zeros apart. *)
Theorem score_order_exact a b :
  f64_ok a -> f64_ok b ->
  N.compare (total_order_key_f64 a) (total_order_key_f64 b) = f64_total_cmp a b
  /\ (f64_is_finite a = true -> f64_is_finite b = true ->
      fltb binary64 a b = true <->
      (total_order_key_f64 a < total_order_key_f64 b)%N
      /\ ~ (magnitude binary64 a = 0%N /\ magnitude binary64 b = 0%N)).
Proof. intros Ha Hb. split; [by apply order_key_total_cmp|by apply fltb_finite]. Qed.

(** Exchanging target and candidate gives the same cosine score bit for bit. *)
Lemma cosine_symmetric t c spec k :
  cosine_similarity_bytes t c spec = Ok k <-> cosine_similarity_bytes c t spec = Ok k.
Proof. split; apply cosine_swap. Qed.

(** On the frontier the search hands it, what a published selector picks passes the
    search's own check of the selection; the only failure is an embedding the geometry-
    aware selector cannot decode. *)
Theorem published_selection_valid {Score} selector (f : list (SearchCandidate Score)) expanded w :
  let frontier := deduplicated_expandable_frontier f expanded in
  (exists r, published_select selector frontier w = Ok r /\ validate_selected_children r frontier w = Ok r)
  \/ (selector = GeometryAware /\ exists e, published_select selector frontier w = Err e
      /\ collect_map decode_geometry_vector (window_of frontier w) = Err e).
Proof. apply published_select_cases. by destruct (dedup_spec f expanded ∅). Qed.

(** The geometry-aware selector picks min(w, frontier length) different candidates
    of its window: the first one, then each time a candidate whose least cosine distance
    to the ones picked before is greatest, the first such in the order of the window. *)
Theorem geometry_selects_farthest {Score} (frontier : list (ExpandableFrontierCandidate Score)) w r :
  geometry_select frontier w = Ok r -> w <> 0%N -> frontier <> [] ->
  exists vectors sel, collect_map decode_geometry_vector (window_of frontier w) = Ok vectors
  /\ farthest_chain vectors (length (window_of frontier w)) sel /\ NoDup sel
  /\ len sel = N.min (len frontier) w
  /\ map Some r = map (fun i => exp_child <$> window_of frontier w !! i) sel.
Proof.
  intros Hg Hw Hf.
  destruct (collect_map decode_geometry_vector (window_of frontier w)) as [vectors|e|] eqn:Hv.
  - destruct (geometry_select_ok frontier w vectors Hw Hf Hv) as (r' & sel & Hg' & ?).
    exists vectors, sel. split; [done|]. congruence.
  - unfold geometry_select in Hg. destruct frontier as [|c0 frontier]; [done|].
    destruct (N.eqb_spec w 0); [done|]. by rewrite Hv in Hg.
  - exfalso. eapply collect_map_no_panic; [|exact Hv]. intros c _. apply decode_geometry_no_panic.
Qed.

(** Each published version has its own selector (top-w for 0.1.0, geometry-aware for
    0.2.0), any other version is refused, and a search with the searcher of a published
    profile ends without a panic on every store with finitely many blocks. *)
Theorem profiled_search_total {St} `{StoreLaws St} `{CborCodec} `{Sha256} `{HalfCrate} v searcher fuel root b
  spec w n mode (s0 : St) (U : gset BlockHash) :
  ProfiledSearcher_new v = Ok searcher -> store_ok s0 ->
  (forall k c, stored s0 k c -> k ∈ U) -> (size U < fuel)%nat ->
  (v = PUBLISHED_PROFILE_V0_1_0 /\ inner searcher = TopW
   \/ v = PUBLISHED_PROFILE_V0_2_0 /\ inner searcher = GeometryAware)
  /\ exists o, profiled_search fuel searcher root b spec w n mode s0 = Some o /\ no_panic (out_result o).
Proof.
  intros Hn Hok HU Hf. split.
  - unfold ProfiledSearcher_new, published_search_profile, profile_selector in Hn.
    destruct (bool_decide_reflect (v = PUBLISHED_PROFILE_V0_1_0)) as [->|];
      [left; vm_compute in Hn; by injection Hn as <-|].
    destruct (bool_decide_reflect (v = PUBLISHED_PROFILE_V0_2_0)) as [->|];
      [right; vm_compute in Hn; by injection Hn as <-|done].
  - eapply (@search_ends St EncodedTargetEmbedding _ _ _ _ _ default_compatibility default_scorer
      (published_selector (inner searcher) N)); [done|apply default_policies_total|done|done].
Qed.

(** ** A concrete search

    A store of three blocks, a root over two leaves, and simple policies: the
    theorems of [SearchCorrect] on concrete inputs.

    Then: the default policies on concrete inputs. *)

(** Policies: any two-dimensional embedding is compatible, the score is the
    closeness to the target, the selector takes the first children. *)
Definition sample_compatibility : EmbeddingCompatibility N := {|
  ec_error := string;
  ec_show := fun e => e;
  ensure_compatible := fun _ spec => if (dims spec =? 2)%N then Ok tt else Err "dims"
|}.

Definition sample_scorer : CandidateScorer N := {|
  cs_error := string;
  cs_show := fun e => e;
  cs_score := N;
  cs_cmp := N.compare;
  score := fun t b _ => Ok (100000 - N.max (t - le_combine b) (le_combine b - t))%N
|}.

Definition sample_selector : FrontierSelector N := {|
  fs_error := string;
  fs_show := fun e => e;
  select := fun l w => Ok (take (N.to_nat w) (map exp_child l))
|}.

Definition sample_leaf (n : N) : Block :=
  Leaf {| leaf_version := 1; leaf_level := 0; leaf_spec := sample_spec;
          leaf_entries := [{| leaf_embedding := le_split 2 n; metadata := sorted_map;
                              content := {| media_type := "text/plain"; body := le_split 1 n |} |}];
          leaf_ext := None |}.

Section store.
#[local] Existing Instances sample_order reference_codec reference_laws checksum.

Definition put_all (blocks : list Block) (s : State) : State := fold_left (fun s b => (put b s).2) blocks s.
Definition id_of (b : Block) : BlockHash :=
  match serialize_block b with Ok s => ser_hash s | _ => hash_of_N 0 end.

Definition sample_root : Block :=
  sample_branch [ {| branch_embedding := le_split 2 5; child := id_of (sample_leaf 5) |};
                  {| branch_embedding := le_split 2 9; child := id_of (sample_leaf 9) |} ] [].

Definition search_store : State :=
  put_all [sample_leaf 5; sample_leaf 9; sample_root]
    {| capacity := ResidentBlocks 8; resident_bytes := 0; next_recency := 0; entries := ∅ |}.
End store.

#[local] Existing Instances sample_order reference_codec reference_laws checksum
  sample_compatibility sample_scorer sample_selector.

Definition sample_halves : HalfCrate := fun _ => 0%N.
#[local] Existing Instance sample_halves.

Definition sample_search (n : N) : option (Outcome State) :=
  search_internal 5 (id_of sample_root) 8%N 1 n (Enabled true) search_store.

Definition leaf_ids (o : Outcome State) : option (list BlockHash) :=
  match out_result o with Ok (res, _) => Some (map leaf_block_id (leaves res)) | _ => None end.

Definition exhaustion (o : Outcome State) : option (N * N) :=
  match out_result o with Err (Exhausted n m) => Some (n, m) | _ => None end.

Lemma search_store_ok : store_ok search_store.
Proof. vm_compute. split; [reflexivity|discriminate]. Qed.

Lemma sample_policies : policies_total (Target := N).
Proof. split_and!; [|done|done]. intros t spec. cbn. by destruct (dims spec =? 2)%N. Qed.

Lemma search_store_finite k b : stored search_store k b -> k ∈ dom (entries search_store).
Proof.
  cbn. unfold memory_lookup. intros (e & He & _)%fmap_Some_1. by apply elem_of_dom_2 in He.
Qed.

Lemma search_terminates_witness :
  exists o, sample_search 2 = Some o /\ no_panic (out_result o).
Proof.
  apply (search_terminates 5 (id_of sample_root) 8%N 1 2 (Enabled true) search_store
    (dom (entries search_store))).
  - exact search_store_ok.
  - exact sample_policies.
  - exact search_store_finite.
  - apply Nat.ltb_lt. vm_compute. reflexivity.
Defined.

(** The nearer leaf first, then the other one. *)
Lemma sample_search_finds :
  exists o res summary, sample_search 2 = Some o /\ out_result o = Ok (res, summary)
  /\ map leaf_block_id (leaves res) = [id_of (sample_leaf 9); id_of (sample_leaf 5)].
Proof.
  assert (option_map leaf_ids (sample_search 2)
    = Some (Some [id_of (sample_leaf 9); id_of (sample_leaf 5)])) as Hs by (vm_compute; reflexivity).
  revert Hs. generalize (sample_search 2) as s, [id_of (sample_leaf 9); id_of (sample_leaf 5)] as l.
  intros [o|] l; [|done]. cbn. unfold leaf_ids.
  destruct (out_result o) as [[res summary]|e|] eqn:Hr; [|done..]. intros [= <-]. by exists o, res, summary.
Qed.

Lemma sample_search_exhausts :
  exists o, sample_search 3 = Some o /\ out_result o = Err (Exhausted 3 2).
Proof.
  assert (option_map exhaustion (sample_search 3) = Some (Some (3, 2)%N)) as Hs by (vm_compute; reflexivity).
  revert Hs. generalize (sample_search 3) as s. intros [o|]; [|done]. cbn. unfold exhaustion.
  destruct (out_result o) as [?|[]|] eqn:Hr; try done. intros [= -> ->]. by exists o.
Qed.

Lemma search_returns_best_witness :
  exists o res summary, sample_search 2 = Some o /\ out_result o = Ok (res, summary)
  /\ map leaf_block_id (leaves res) = [id_of (sample_leaf 9); id_of (sample_leaf 5)]
  /\ map position (leaves res) = [0; 1]%N.
Proof.
  destruct sample_search_finds as (o & res & summary & Ho & Hr & Hl). unfold sample_search in *.
  destruct (search_returns_best 5 (id_of sample_root) 8%N 1 2 (Enabled true) search_store o res summary
    search_store_ok Ho Hr) as (loaded & f & _ & _ & _ & _ & Hp & _).
  exact (ex_intro _ o (ex_intro _ res (ex_intro _ summary (conj Ho (conj Hr (conj Hl Hp)))))).
Defined.

Lemma search_exhaustion_truthful_witness :
  exists o, sample_search 3 = Some o /\ out_result o = Err (Exhausted 3 2) /\ (2 < 3)%N.
Proof.
  destruct sample_search_exhausts as (o & Ho & Hr). unfold sample_search in *.
  destruct (search_exhaustion_truthful 5 (id_of sample_root) 8%N 1 3 (Enabled true) search_store o 3 2
    search_store_ok Ho Hr) as (loaded & f & _ & _ & _ & _ & Hlt).
  exact (ex_intro _ o (conj Ho (conj Hr Hlt))).
Defined.

Lemma search_telemetry_protocol_witness :
  exists o summary, sample_search 3 = Some o /\ out_emitted o = [summary] /\ termination summary = KExhausted.
Proof.
  destruct sample_search_exhausts as (o & Ho & Hr). unfold sample_search in *.
  destruct (search_telemetry_protocol 5 (id_of sample_root) 8%N 1 3 (Enabled true) search_store o
    search_store_ok Ho KExhausted (f_equal result_kind Hr)) as (summary & He & _ & Ht & _).
  exact (ex_intro _ o (ex_intro _ summary (conj Ho (conj He (Ht eq_refl))))).
Defined.

(** ** The default policies on concrete inputs

    A store of [f32le] blocks searched with each published profile, a frontier for
    the geometry-aware selector, and two scores. *)

Definition f32_bytes (zs : list Z) : bytes := concat (map (fun z => f32_to_le_bytes (f_of_Z binary32 z)) zs).
Definition f32_spec : EmbeddingSpec := {| dims := 2; encoding := "f32le" |}.

Definition f32_leaf (zs : list Z) : Block :=
  Leaf {| leaf_version := 1; leaf_level := 0; leaf_spec := f32_spec;
          leaf_entries := [{| leaf_embedding := f32_bytes zs; metadata := sorted_map;
                              content := {| media_type := "text/plain"; body := f32_bytes zs |} |}];
          leaf_ext := None |}.

#[local] Existing Instances sample_order reference_codec reference_laws checksum sample_halves.

Definition f32_entry (zs : list Z) : BranchEntry :=
  {| branch_embedding := f32_bytes zs; child := id_of (f32_leaf zs) |}.

Definition f32_root : Block :=
  Branch {| branch_version := 1; branch_level := 1; branch_spec := f32_spec;
            branch_entries := map f32_entry [[1; 0]; [0; 1]; [3; 1]]%Z; branch_ext := None |}.

Definition f32_store : State :=
  put_all [f32_leaf [1; 0]; f32_leaf [0; 1]; f32_leaf [3; 1]; f32_root]%Z
    {| capacity := ResidentBlocks 8; resident_bytes := 0; next_recency := 0; entries := ∅ |}.

Definition geometry_searcher : ProfiledSearcher :=
  {| profile := {| version := PUBLISHED_PROFILE_V0_2_0 |}; inner := GeometryAware |}.

Definition f32_search (n : N) : option (Outcome State) :=
  profiled_search 6 geometry_searcher (id_of f32_root) (f32_bytes [1; 0]%Z) f32_spec 2 n Disabled f32_store.

Definition expandable_of (zs : list Z) : ExpandableFrontierCandidate N :=
  {| exp_child := id_of (f32_leaf zs); exp_depth := 1; exp_level := 1; exp_score := 0%N;
     exp_embedding := f32_bytes zs; exp_spec := f32_spec |}.
Definition f32_frontier : list (ExpandableFrontierCandidate N) := map expandable_of [[1; 0]; [3; 1]; [0; 1]]%Z.

(** The search finds the three leaves, the nearest first. *)
Example f32_search_ranks :
  option_map leaf_ids (f32_search 3)
  = Some (Some (map (fun zs => id_of (f32_leaf zs)) [[1; 0]; [3; 1]; [0; 1]]%Z)).
Proof. vm_compute. reflexivity. Qed.

Lemma f32_store_ok : store_ok f32_store.
Proof. vm_compute. split; [reflexivity|discriminate]. Qed.

Lemma f32_store_finite k b : stored f32_store k b -> k ∈ dom (entries f32_store).
Proof. cbn. unfold memory_lookup. intros (e & He & _)%fmap_Some_1. by apply elem_of_dom_2 in He. Qed.

Lemma profiled_search_total_witness :
  ProfiledSearcher_new PUBLISHED_PROFILE_V0_2_0 = Ok geometry_searcher
  /\ exists o, f32_search 3 = Some o /\ no_panic (out_result o).
Proof.
  assert (ProfiledSearcher_new PUBLISHED_PROFILE_V0_2_0 = Ok geometry_searcher) as Hn by (vm_compute; reflexivity).
  split; [exact Hn|].
  apply (profiled_search_total PUBLISHED_PROFILE_V0_2_0 geometry_searcher 6 (id_of f32_root)
    (f32_bytes [1; 0]%Z) f32_spec 2 3 Disabled f32_store (dom (entries f32_store))).
  - exact Hn.
  - exact f32_store_ok.
  - exact f32_store_finite.
  - apply Nat.ltb_lt. vm_compute. reflexivity.
Defined.

(** The selector takes the first candidate and then the one at a right angle to it. *)
Lemma geometry_picks : geometry_select f32_frontier 2 = Ok [id_of (f32_leaf [1; 0]%Z); id_of (f32_leaf [0; 1]%Z)].
Proof. vm_compute. reflexivity. Qed.

Lemma geometry_selects_farthest_witness :
  exists vectors sel, farthest_chain vectors (length (window_of f32_frontier 2)) sel /\ len sel = 2%N.
Proof.
  destruct (geometry_selects_farthest f32_frontier 2 _ geometry_picks) as (vectors & sel & _ & Hc & _ & Hl & _).
  - discriminate.
  - discriminate.
  - exists vectors, sel. split; [exact Hc|exact Hl].
Defined.

Lemma score_order_exact_witness :
  (total_order_key_f64 (f_of_Z binary64 (-2)) < total_order_key_f64 (f_of_Z binary64 1))%N.
Proof.
  apply (proj2 (score_order_exact (f_of_Z binary64 (-2)) (f_of_Z binary64 1) eq_refl eq_refl) eq_refl eq_refl).
  vm_compute. reflexivity.
Defined.
