(* ===== verification/FsStore.v ===== *)
(** * The filesystem block store

    crates/lexongraph-block-store-fs/src/lib.rs: blocks as files below a store
    root, published by persisting a staged file without clobbering, enumerated by
    walking two levels of directories, with an optional cache mode that bounds the
    bytes on disk. The operations on files are the source's own trait
    [inject::FsOps] with [inject::StagedFile]: the class [FsOps] over the type of
    the file system's state. A path is the list of its components. *)
From S2P Require Import Prelude Ordering Hash Cbor BlockV1 BlockV2 Store.

(** ** The operations on files *)

(** [StoredFileMetadata]; a [SystemTime] is a number of ticks. *)
Record StoredFileMetadata := { file_len : N; modified : N }.

(** [inject::FsOps], [inject::StagedFile] *)
Class FsOps (F : Type) := {
  staged : Type;
  create_dir_all : path -> F -> io unit * F;
  canonicalize : path -> F -> io path;
  is_dir : path -> F -> io bool;
  read_dir : path -> F -> io (list path);
  metadata : path -> F -> io StoredFileMetadata;
  read : path -> F -> io bytes;
  remove_file : path -> F -> io unit * F;
  create_staged_file : path -> F -> io staged * F;
  staged_write_all : staged -> bytes -> F -> io staged * F;
  staged_flush : staged -> F -> io staged * F;
  persist_noclobber : staged -> path -> F -> io unit * F
}.

(** ** Block paths *)

(** [decode_hex_nibble] *)
Definition decode_hex_nibble (value : Ascii.ascii) : option N :=
  let n := Ascii.N_of_ascii value in
  if ((48 <=? n) && (n <=? 57))%N then Some (n - 48)%N
  else if ((97 <=? n) && (n <=? 102))%N then Some (n - 97 + 10)%N
  else None.

(** [is_lower_hex_prefix] *)
Definition is_lower_hex_prefix (value : string) : bool :=
  (String.length value =? 2)%nat
  && forallb (fun c => match decode_hex_nibble c with Some _ => true | None => false end) (String.list_ascii_of_string value).

(** [decode_block_hash_hex] *)
Fixpoint decode_hex_pairs (l : list Ascii.ascii) : option bytes :=
  match l with
  | high :: low :: l' =>
      match decode_hex_nibble high, decode_hex_nibble low, decode_hex_pairs l' with
      | Some h, Some l, Some bs =>
          match Byte.of_N (N.lor (N.shiftl h 4) l) with Some b => Some (b :: bs) | None => None end
      | _, _, _ => None
      end
  | _ => Some []
  end.
Definition decode_block_hash_hex (value : string) : option BlockHash :=
  if (String.length value =? BlockHash_LEN * 2)%nat then
    match decode_hex_pairs (String.list_ascii_of_string value) with
    | Some bs => hash_of_bytes bs
    | None => None
    end
  else None.

(** [&s[a..b]] of an ASCII string *)
Definition substring_of (a b : nat) (s : string) : string := String.substring a (b - a) s.

(** [block_path] *)
Definition block_path (store_root : path) (block_id : BlockHash) : path :=
  let hex := BlockHash_to_string block_id in
  store_root ++ [Name (substring_of 0 2 hex); Name (substring_of 2 4 hex); Name (hex +:+ ".cbor")]%stdpp.

(** [Path::strip_prefix] *)
Fixpoint strip_prefix (prefix p : path) : option path :=
  match prefix, p with
  | [], _ => Some p
  | x :: prefix', y :: p' => if bool_decide (x = y) then strip_prefix prefix' p' else None
  | _ :: _, [] => None
  end.

(** [str::strip_suffix] *)
Definition strip_suffix (suffix s : string) : option string :=
  let n := (String.length s - String.length suffix)%nat in
  if (String.length suffix <=? String.length s)%nat
     && String.eqb (String.substring n (String.length suffix) s) suffix
  then Some (String.substring 0 n s) else None.

Definition shard_name_error : BlockStoreError :=
  backend_failure "failed to decode an enumerated shard directory name".
Definition block_id_error : BlockStoreError :=
  backend_failure "failed to decode an enumerated block ID candidate".
Definition to_str (error : BlockStoreError) (n : OsName) : result BlockStoreError string :=
  match n with Name s => Ok s | NotUnicode _ => Err error end.

(** [decode_enumerated_block_path] *)
Definition decode_enumerated_block_path (store_root p : path) : result BlockStoreError (option BlockHash) :=
  let? relative := ok_or (strip_prefix store_root p)
    (backend_failure "failed to normalize an enumerated block-store entry relative to the store root: prefix not found") in
  match relative with
  | [first_level; second_level; file_name] =>
      let? first_level := to_str shard_name_error first_level in
      let? second_level := to_str shard_name_error second_level in
      if negb (is_lower_hex_prefix first_level) || negb (is_lower_hex_prefix second_level) then Ok None
      else
        let? file_name :=
          to_str (backend_failure "failed to decode an enumerated block file name") file_name in
        match strip_suffix ".cbor" file_name with
        | None => Ok None
        | Some hex =>
            let? block_id := ok_or (decode_block_hash_hex hex) block_id_error in
            guard? String.eqb (substring_of 0 2 hex) first_level && String.eqb (substring_of 2 4 hex) second_level
              else backend_failure "failed to decode an enumerated block ID candidate: shard prefix mismatch" in
            Ok (Some block_id)
        end
  | _ => Ok None
  end.

(** ** The cache state *)
Record CacheEntry := { payload_bytes : N; recency : N }.
Record CacheState := {
  max_cache_bytes : N; resident_bytes : N; next_recency : N; entries : gmap BlockHash CacheEntry
}.
Record ExistingCacheEntry := { ex_block_id : BlockHash; ex_payload_bytes : N; ex_modified : N }.

Definition BYTES_PER_MB : N := 1048576.

(** The order in which a hash map enumerates the cache entries. *)
Class CacheOrder := {
  cache_iter : gmap BlockHash CacheEntry -> list (BlockHash * CacheEntry);
  cache_iter_perm m : cache_iter m ≡ₚ map_to_list m
}.

Definition take_recency (c : CacheState) : N * CacheState :=
  (next_recency c,
   {| max_cache_bytes := max_cache_bytes c; resident_bytes := resident_bytes c;
      next_recency := wrapping_add_u64 (next_recency c) 1; entries := entries c |}).

Definition cached_bytes (c : CacheState) (block_id : BlockHash) : N :=
  match entries c !! block_id with Some e => payload_bytes e | None => 0%N end.

(** The loop of [plan_evictions] over the candidates, oldest first. *)
Fixpoint plan_loop (max resident new_len : N) (candidates : list (BlockHash * CacheEntry)) : N * list BlockHash :=
  match candidates with
  | [] => (resident, [])
  | (candidate_id, e) :: rest =>
      if (saturating_add USIZE_MAX resident new_len <=? max)%N then (resident, [])
      else
        let '(resident', evictions) := plan_loop max (saturating_sub resident (payload_bytes e)) new_len rest in
        (resident', candidate_id :: evictions)
  end.

Definition too_large_error (new_len max : N) : BlockStoreError :=
  backend_failure ("block payload of " +:+ pretty new_len +:+ " bytes exceeds cache capacity of "
    +:+ pretty max +:+ " bytes")%stdpp.
Definition no_fit_error (new_len max : N) : BlockStoreError :=
  backend_failure ("failed to fit block payload of " +:+ pretty new_len
    +:+ " bytes into cache capacity of " +:+ pretty max +:+ " bytes")%stdpp.

(** [candidates.sort_by_key(|(_, recency, _)| *recency)] *)
Definition eviction_candidates `{CacheOrder} (c : CacheState) (block_id : BlockHash) : list (BlockHash * CacheEntry) :=
  sort_by (fun x y => N.compare (recency x.2) (recency y.2))
    (List.filter (fun e => negb (bool_decide (e.1 = block_id))) (cache_iter (entries c))).

(** [CacheState::plan_evictions] *)
Definition plan_evictions `{CacheOrder} (c : CacheState) (block_id : BlockHash) (new_len : N)
  : result BlockStoreError (list BlockHash) :=
  guard? negb (max_cache_bytes c <? new_len)%N else too_large_error new_len (max_cache_bytes c) in
  let '(resident, evictions) :=
    plan_loop (max_cache_bytes c) (saturating_sub (resident_bytes c) (cached_bytes c block_id)) new_len
      (eviction_candidates c block_id) in
  guard? negb (max_cache_bytes c <? saturating_add USIZE_MAX resident new_len)%N
    else no_fit_error new_len (max_cache_bytes c) in
  Ok evictions.

(** [CacheState::apply_evictions] for one identifier *)
Definition apply_eviction (block_id : BlockHash) (c : CacheState) : CacheState :=
  match entries c !! block_id with
  | Some e =>
      {| max_cache_bytes := max_cache_bytes c;
         resident_bytes := saturating_sub (resident_bytes c) (payload_bytes e);
         next_recency := next_recency c; entries := delete block_id (entries c) |}
  | None => c
  end.

(** [CacheState::upsert] *)
Definition upsert (block_id : BlockHash) (new_len : N) (c : CacheState) : CacheState :=
  let '(recency, c1) := take_recency c in
  {| max_cache_bytes := max_cache_bytes c1;
     resident_bytes := saturating_add USIZE_MAX
       (saturating_sub (resident_bytes c1) (cached_bytes c1 block_id)) new_len;
     next_recency := next_recency c1;
     entries := <[block_id := {| payload_bytes := new_len; recency := recency |}]> (entries c1) |}.

(** [CacheState::observe_read] *)
Definition observe_read (block_id : BlockHash) (c : CacheState) : CacheState :=
  let '(recency, c1) := take_recency c in
  match entries c1 !! block_id with
  | Some e =>
      {| max_cache_bytes := max_cache_bytes c1; resident_bytes := resident_bytes c1;
         next_recency := next_recency c1;
         entries := <[block_id := {| payload_bytes := payload_bytes e; recency := recency |}]> (entries c1) |}
  | None => c1
  end.

(** ** The store *)
Record FilesystemBlockStore (F : Type) := {
  store_root : path; cache_state : option CacheState; fs : F
}.
Arguments store_root {F} _.
Arguments cache_state {F} _.
Arguments fs {F} _.

(** [FilesystemBlockStoreBuildError] *)
Inductive FilesystemBlockStoreBuildError :=
| StoreRoot (error : BlockStoreError)
| CacheInitialization (error : BlockStoreError)
| ZeroCacheCapacity
| CacheCapacityOverflow.

Definition FilesystemBlockStoreBuildError_to_string (e : FilesystemBlockStoreBuildError) : string :=
  match e with
  | StoreRoot error | CacheInitialization error => BlockStoreError_to_string error
  | ZeroCacheCapacity => "filesystem cache capacity must be at least 1 MB"
  | CacheCapacityOverflow => "filesystem cache capacity overflowed when converting MB to bytes"
  end.

Section store.
Context {F : Type} `{FsOps F} `{CacheOrder}.
Notation store := (FilesystemBlockStore F).

Definition with_fs (s : store) (f : F) : store :=
  {| store_root := store_root s; cache_state := cache_state s; fs := f |}.
Definition with_cache (s : store) (c : CacheState) : store :=
  {| store_root := store_root s; cache_state := Some c; fs := fs s |}.

(** An operation on the file system whose error is turned into a backend failure. *)
Definition run_io {A} (op : F -> io A * F) (describe : string -> string) : store_m store A := fun s =>
  match op (fs s) with
  | (inl error, f) => (Err (backend_failure (describe (error_text error))), with_fs s f)
  | (inr a, f) => (Ok a, with_fs s f)
  end.

(** [new], [new_with_ops] *)
Definition fs_new (requested_root : path) (f : F) : result BlockStoreError store :=
  match create_dir_all requested_root f with
  | (inl error, _) =>
      Err (backend_failure ("failed to create store root " +:+ display requested_root +:+ ": " +:+ error_text error)%stdpp)
  | (inr _, f) =>
      match canonicalize requested_root f with
      | inl error =>
          Err (backend_failure ("failed to canonicalize store root " +:+ display requested_root +:+ ": " +:+ error_text error)%stdpp)
      | inr canonical_root =>
          match is_dir canonical_root f with
          | inl error =>
              Err (backend_failure ("failed to stat store root " +:+ display canonical_root +:+ ": " +:+ error_text error)%stdpp)
          | inr dir =>
              guard? dir else
                backend_failure ("store root " +:+ display canonical_root +:+ " is not a directory")%stdpp in
              Ok {| store_root := canonical_root; cache_state := None; fs := f |}
          end
      end
  end.

(** [read_existing_or_map_publish_error] *)
Definition publish_error (published_path : path) (block_id : BlockHash) (canonical_bytes : bytes)
  (error : io_error) : store_m store unit := fun s =>
  (match read published_path (fs s) with
   | inr existing_bytes =>
       guard? bool_decide (existing_bytes = canonical_bytes) else
         backend_failure ("integrity conflict at " +:+ display published_path +:+ " for block "
           +:+ BlockHash_to_string block_id +:+ " after publish error " +:+ error_text error)%stdpp in
       Ok tt
   | inl read_error =>
       Err (backend_failure
         (if bool_decide (error_kind read_error = NotFound)
          then "failed to publish block " +:+ BlockHash_to_string block_id +:+ " to "
                 +:+ display published_path +:+ ": " +:+ error_text error
          else "failed to inspect published block " +:+ BlockHash_to_string block_id +:+ " at "
                 +:+ display published_path +:+ " after publish error " +:+ error_text error +:+ ": "
                 +:+ error_text read_error)%stdpp)
   end, s).

(** [publish_block_bytes]; the parent of a block path is always there. *)
Definition publish_block_bytes (block_id : BlockHash) (block_bytes : bytes) : store_m store unit := fun s =>
  let published_path := block_path (store_root s) block_id in
  let parent := removelast published_path in
  sbind (run_io (create_dir_all parent) (fun error =>
    "failed to create block directory " +:+ display parent +:+ ": " +:+ error)%stdpp) (fun _ =>
  sbind (run_io (create_staged_file parent) (fun error =>
    "failed to create staging file in " +:+ display parent +:+ ": " +:+ error)%stdpp) (fun st =>
  sbind (run_io (staged_write_all st block_bytes) (fun error =>
    "failed to stage block " +:+ BlockHash_to_string block_id +:+ " in " +:+ display parent +:+ ": "
      +:+ error)%stdpp) (fun st =>
  sbind (run_io (staged_flush st) (fun error =>
    "failed to flush staged block " +:+ BlockHash_to_string block_id +:+ " in " +:+ display parent +:+ ": "
      +:+ error)%stdpp) (fun st => fun s =>
  match persist_noclobber st published_path (fs s) with
  | (inr _, f) => (Ok tt, with_fs s f)
  | (inl error, f) => publish_error published_path block_id block_bytes error (with_fs s f)
  end)))) s.

(** [remove_cached_file] *)
Definition remove_cached_file (block_id : BlockHash) : store_m store unit := fun s =>
  let p := block_path (store_root s) block_id in
  match remove_file p (fs s) with
  | (inr _, f) => (Ok tt, with_fs s f)
  | (inl error, f) =>
      (if bool_decide (error_kind error = NotFound) then Ok tt
       else Err (backend_failure ("failed to evict cached block " +:+ BlockHash_to_string block_id +:+ " at "
              +:+ display p +:+ ": " +:+ error_text error)%stdpp), with_fs s f)
  end.

(** A change of the cache state, when there is one. *)
Definition on_cache (g : CacheState -> CacheState) (s : store) : store :=
  match cache_state s with Some c => with_cache s (g c) | None => s end.

(** The eviction loop of [put_block_bytes]. *)
Fixpoint evict_all (evictions : list BlockHash) : store_m store unit :=
  match evictions with
  | [] => sret (Ok tt)
  | evicted :: rest =>
      sbind (remove_cached_file evicted) (fun _ => fun s =>
      evict_all rest (on_cache (apply_eviction evicted) s))
  end.

(** The [BlockStore] methods. *)
Definition fs_put_block_bytes (block_id : BlockHash) (block_bytes : bytes) : store_m store unit := fun s =>
  match cache_state s with
  | Some c =>
      sbind (sret (plan_evictions c block_id (len block_bytes))) (fun evictions =>
      sbind (evict_all evictions) (fun _ =>
      sbind (publish_block_bytes block_id block_bytes) (fun _ => fun s =>
      (Ok tt, on_cache (upsert block_id (len block_bytes)) s)))) s
  | None => publish_block_bytes block_id block_bytes s
  end.

Definition fs_get_block_bytes (block_id : BlockHash) : store_m store (option bytes) := fun s =>
  let published_path := block_path (store_root s) block_id in
  match read published_path (fs s) with
  | inr b => (Ok (Some b), on_cache (observe_read block_id) s)
  | inl error =>
      if bool_decide (error_kind error = NotFound) then (Ok None, s)
      else (Err (backend_failure ("failed to read block " +:+ BlockHash_to_string block_id +:+ " at "
              +:+ display published_path +:+ ": " +:+ error_text error)%stdpp), s)
  end.

(** ** Enumeration: [FilesystemBlockIdIterator] *)

(** [next], run to the end: [pending] is the stack, its top first; [None] when the
    fuel is spent. An error is an item, and the walk goes on after it. *)
Fixpoint walk (fuel : nat) (s : store) (pending : list (path * nat))
  : option (list (result BlockStoreError BlockHash)) :=
  match pending, fuel with
  | [], _ => Some []
  | _, O => None
  | (p, depth) :: rest, S fuel' =>
      match is_dir p (fs s) with
      | inl error =>
          option_map (cons (Err (backend_failure
            ("failed to stat an enumerated block-store entry: " +:+ error_text error)%stdpp))) (walk fuel' s rest)
      | inr true =>
          if (2 <=? depth)%nat then walk fuel' s rest
          else match read_dir p (fs s) with
          | inr children => walk fuel' s (map (fun child => (child, S depth)) children ++ rest)
          | inl error =>
              option_map (cons (Err (backend_failure
                ("failed to enumerate an internal block-store directory: " +:+ error_text error)%stdpp)))
                (walk fuel' s rest)
          end
      | inr false =>
          if negb (depth =? 2)%nat then walk fuel' s rest
          else match decode_enumerated_block_path (store_root s) p with
          | Ok (Some block_id) => option_map (cons (Ok block_id)) (walk fuel' s rest)
          | Ok None => walk fuel' s rest
          | Err error => option_map (cons (Err error)) (walk fuel' s rest)
          | Panic => option_map (cons Panic) (walk fuel' s rest)
          end
      end
  end.

(** How many entries a walk below [p] looks at, [levels] directories deep. *)
Fixpoint node_count (levels : nat) (s : store) (p : path) : nat :=
  match levels with
  | O => 1
  | S levels' =>
      match is_dir p (fs s), read_dir p (fs s) with
      | inr true, inr children => S (sum_list (map (node_count levels' s) children))
      | _, _ => 1
      end
  end.

Definition fs_iter_block_ids (s : store) : result BlockStoreError (list (result BlockStoreError BlockHash)) :=
  match read_dir (store_root s) (fs s) with
  | inl error =>
      Err (backend_failure ("failed to enumerate the block store root: " +:+ error_text error)%stdpp)
  | inr root_entries =>
      match walk (sum_list (map (node_count 2 s) root_entries)) s (map (fun p => (p, 0%nat)) root_entries) with
      | Some items => Ok items
      | None => Panic
      end
  end.

#[export] Instance fs_store : BlockStore store := {|
  put_block_bytes := fs_put_block_bytes;
  put_block_bytes_batch := default_put_block_bytes_batch;
  get_block_bytes := fs_get_block_bytes;
  iter_block_ids := fs_iter_block_ids
|}.

(** ** Cache mode *)

(** [scan_existing_cache_entries]: the loop body. *)
Definition inspect_cached (s : store) (candidate : result BlockStoreError BlockHash)
  : result BlockStoreError ExistingCacheEntry :=
  let? block_id := candidate in
  let p := block_path (store_root s) block_id in
  match metadata p (fs s) with
  | inl error =>
      Err (backend_failure ("failed to inspect existing cached block " +:+ BlockHash_to_string block_id
        +:+ " at " +:+ display p +:+ ": " +:+ error_text error)%stdpp)
  | inr m =>
      let? n := ok_or (usize_try_from (file_len m))
        (backend_failure ("cached block " +:+ BlockHash_to_string block_id +:+ " at " +:+ display p
          +:+ " is too large to fit in platform usize accounting")%stdpp) in
      Ok {| ex_block_id := block_id; ex_payload_bytes := n; ex_modified := modified m |}
  end.
Definition scan_existing_cache_entries (s : store) : result BlockStoreError (list ExistingCacheEntry) :=
  let? items := fs_iter_block_ids s in collect_map (inspect_cached s) items.

Definition compare_existing (left right : ExistingCacheEntry) : comparison :=
  then_with (N.compare (ex_modified left) (ex_modified right))
    (bytes_cmp (as_bytes (ex_block_id left)) (as_bytes (ex_block_id right))).

(** The [while] loop: the entries evicted, the ones kept, the bytes kept. *)
Fixpoint trim_oldest (max resident : N) (l : list ExistingCacheEntry)
  : result BlockStoreError (list ExistingCacheEntry * list ExistingCacheEntry * N) :=
  if (max <? resident)%N then
    match l with
    | [] => Panic
    | e :: rest =>
        let? '(evicted, kept, resident') := trim_oldest max (saturating_sub resident (ex_payload_bytes e)) rest in
        Ok (e :: evicted, kept, resident')
    end
  else Ok ([], l, resident).

(** The loop that inserts the retained entries. *)
Fixpoint retain_entries (next_recency : N) (retained : gmap BlockHash CacheEntry) (l : list ExistingCacheEntry)
  : N * gmap BlockHash CacheEntry :=
  match l with
  | [] => (next_recency, retained)
  | e :: rest =>
      retain_entries (wrapping_add_u64 next_recency 1)
        (<[ex_block_id e := {| payload_bytes := ex_payload_bytes e; recency := next_recency |}]> retained) rest
  end.

Fixpoint remove_all (l : list BlockHash) : store_m store unit :=
  match l with
  | [] => sret (Ok tt)
  | block_id :: rest => sbind (remove_cached_file block_id) (fun _ => remove_all rest)
  end.

Definition accounting_error : BlockStoreError :=
  backend_failure "existing cached blocks exceed platform usize accounting during cache initialization".

(** [initialize_cache_mode] *)
Definition initialize_cache_mode (max_cache_mb : N) (s : store)
  : result FilesystemBlockStoreBuildError unit * store :=
  let planned :=
    guard? negb (max_cache_mb =? 0)%N else ZeroCacheCapacity in
    let? max := ok_or (checked_mul USIZE_MAX max_cache_mb BYTES_PER_MB) CacheCapacityOverflow in
    let? existing := map_err CacheInitialization (scan_existing_cache_entries s) in
    let sorted := sort_by compare_existing existing in
    let? resident := map_err CacheInitialization
      (try_fold (fun acc e => ok_or (checked_add USIZE_MAX acc (ex_payload_bytes e)) accounting_error) 0%N sorted) in
    let? '(evicted, kept, resident) := map_err CacheInitialization (trim_oldest max resident sorted) in
    Ok (max, evicted, kept, resident) in
  match planned with
  | Err e => (Err e, s)
  | Panic => (Panic, s)
  | Ok (max, evicted, kept, resident) =>
      match remove_all (map ex_block_id evicted) s with
      | (Ok _, s') =>
          let '(next, retained) := retain_entries 0 ∅ kept in
          (Ok tt, with_cache s' {| max_cache_bytes := max; resident_bytes := resident;
                                   next_recency := next; entries := retained |})
      | (Err e, s') => (Err (CacheInitialization e), s')
      | (Panic, s') => (Panic, s')
      end
  end.

(** [new_cache_mb], [new_cache_mb_with_ops] *)
Definition fs_new_cache_mb (requested_root : path) (max_cache_mb : N) (f : F)
  : result FilesystemBlockStoreBuildError store :=
  let? s := map_err StoreRoot (fs_new requested_root f) in
  match initialize_cache_mode max_cache_mb s with
  | (Ok _, s') => Ok s'
  | (Err e, _) => Err e
  | (Panic, _) => Panic
  end.
End store.

(** ** What the file operations do to the files

    [file f p] is the content of the file at [p]. Reading and making directories
    change no file; a staged file is invisible until it is persisted, which never
    replaces a file; an operation that fails changes nothing. *)
Class FsLaws (F : Type) `{FsOps F} := {
  file : F -> path -> option bytes;
  contents : staged -> bytes;
  read_law p f : match read p f with
    | inr b => file f p = Some b
    | inl e => error_kind e = NotFound -> file f p = None
    end;
  create_dir_law p f q : file (create_dir_all p f).2 q = file f q;
  create_staged_law p f : (forall q, file (create_staged_file p f).2 q = file f q)
    /\ forall st, (create_staged_file p f).1 = inr st -> contents st = [];
  staged_write_law st b f : (forall q, file (staged_write_all st b f).2 q = file f q)
    /\ forall st', (staged_write_all st b f).1 = inr st' -> contents st' = contents st ++ b;
  staged_flush_law st f : (forall q, file (staged_flush st f).2 q = file f q)
    /\ forall st', (staged_flush st f).1 = inr st' -> contents st' = contents st;
  persist_law st p f : match persist_noclobber st p f with
    | (inr _, f') => file f p = None /\ file f' p = Some (contents st) /\ forall q, q <> p -> file f' q = file f q
    | (inl _, f') => forall q, file f' q = file f q
    end;
  remove_law p f : match remove_file p f with
    | (inr _, f') => file f' p = None /\ forall q, q <> p -> file f' q = file f q
    | (inl e, f') => (error_kind e = NotFound -> file f p = None) /\ forall q, file f' q = file f q
    end
}.
