(* ===== verification/FsCorrect.v ===== *)
(** * The filesystem block store: the properties

    Block paths and block identifiers correspond; publishing never replaces a
    file; in cache mode the bytes on disk stay within the budget, what is evicted
    is the shortest run of least recently used blocks, and the accounting is
    exact. *)
From S2P Require Import Prelude Ordering Hash Cbor BlockV1 BlockV2 Store FsStore.

(** ** Specification *)

(** The bytes the cache entries account for. *)
Definition list_total (l : list (BlockHash * CacheEntry)) : N :=
  foldr (fun e n => (payload_bytes e.2 + n)%N) 0%N l.
Definition cache_total (m : gmap BlockHash CacheEntry) : N := list_total (map_to_list m).

(** The shortest prefix of [l] whose removal makes room for [new_len] bytes. *)
Definition shortest_fit (max new_len : N) (l : list (BlockHash * CacheEntry)) (k : nat) : Prop :=
  (list_total (drop k l) + new_len <= max)%N
  /\ forall j, (j < k)%nat -> (max < list_total (drop j l) + new_len)%N.

Section spec.
Context {F : Type} `{FsLaws F}.
Notation store := (FilesystemBlockStore F).

Definition block_file (s : store) (id : BlockHash) : option bytes := file (fs s) (block_path (store_root s) id).

(** The accounting of the cache mode: the entries are the block files with their
    lengths, their total is the resident bytes, and it is within the budget. *)
Definition cache_inv (s : store) : Prop :=
  match cache_state s with
  | None => True
  | Some c =>
      (max_cache_bytes c < USIZE_MAX)%N /\ resident_bytes c = cache_total (entries c)
      /\ (resident_bytes c <= max_cache_bytes c)%N
      /\ forall id, payload_bytes <$> entries c !! id = len <$> block_file s id
  end.

(** The files after a write: the block's own file, files of evicted blocks that
    are gone, and files as they were. *)
Definition files_step (s s' : store) (id : BlockHash) (b : bytes) : Prop :=
  store_root s' = store_root s /\
  forall q, file (fs s') q = file (fs s) q
  \/ (q = block_path (store_root s) id /\ file (fs s) q = None /\ file (fs s') q = Some b)
  \/ (cache_state s <> None /\ file (fs s') q = None /\ exists j, j <> id /\ q = block_path (store_root s) j).
End spec.

(** ** Hexadecimal and paths *)
Lemma nibble_digit n : (n < 16)%N -> decode_hex_nibble (hex_digit n) = Some n.
Proof.
  intros Hn. assert (forallb (fun n => bool_decide (decode_hex_nibble (hex_digit n) = Some n))
    (map N.of_nat (seq 0 16)) = true) as Hall by (vm_compute; reflexivity).
  rewrite forallb_forall in Hall. apply (bool_decide_eq_true_1 _), Hall.
  apply in_map_iff. exists (N.to_nat n). split; [lia|]. apply in_seq. lia.
Qed.

Lemma digit_nibble c n : decode_hex_nibble c = Some n -> c = hex_digit n /\ (n < 16)%N.
Proof.
  unfold decode_hex_nibble, hex_digit. intros Hc.
  destruct ((48 <=? Ascii.N_of_ascii c) && (Ascii.N_of_ascii c <=? 57))%N eqn:E1.
  - injection Hc as <-. apply andb_true_iff in E1 as [E1 E2]. apply N.leb_le in E1, E2. split; [|lia].
    destruct (N.ltb_spec (Ascii.N_of_ascii c - 48) 10); [|lia].
    replace (48 + (Ascii.N_of_ascii c - 48))%N with (Ascii.N_of_ascii c) by lia. by rewrite Ascii.ascii_N_embedding.
  - destruct ((97 <=? Ascii.N_of_ascii c) && (Ascii.N_of_ascii c <=? 102))%N eqn:E2; [|done].
    injection Hc as <-. apply andb_true_iff in E2 as [E2 E3]. apply N.leb_le in E2, E3. split; [|lia].
    destruct (N.ltb_spec (Ascii.N_of_ascii c - 97 + 10) 10); [lia|].
    replace (87 + (Ascii.N_of_ascii c - 97 + 10))%N with (Ascii.N_of_ascii c) by lia. by rewrite Ascii.ascii_N_embedding.
Qed.

Lemma byte_of_nibbles b :
  Byte.of_N (N.lor (N.shiftl (Byte.to_N b / 16) 4) (Byte.to_N b mod 16)) = Some b.
Proof. destruct b; reflexivity. Qed.

Definition nibbles_ok (h l : N) : bool :=
  match Byte.of_N (N.lor (N.shiftl h 4) l) with
  | Some b => (Byte.to_N b / 16 =? h)%N && (Byte.to_N b mod 16 =? l)%N
  | None => false
  end.

Lemma nibbles_of_byte h l b : (h < 16)%N -> (l < 16)%N ->
  Byte.of_N (N.lor (N.shiftl h 4) l) = Some b -> (Byte.to_N b / 16)%N = h /\ (Byte.to_N b mod 16)%N = l.
Proof.
  intros Hh Hl Hb. assert (forallb (fun h => forallb (nibbles_ok h) (map N.of_nat (seq 0 16)))
    (map N.of_nat (seq 0 16)) = true) as Hall by (vm_compute; reflexivity).
  assert (forall n, (n < 16)%N -> In n (map N.of_nat (seq 0 16))) as Hin.
  { intros n Hn. apply in_map_iff. exists (N.to_nat n). split; [lia|]. apply in_seq. lia. }
  rewrite forallb_forall in Hall. specialize (Hall h (Hin h Hh)). rewrite forallb_forall in Hall.
  specialize (Hall l (Hin l Hl)). unfold nibbles_ok in Hall. rewrite Hb in Hall.
  apply andb_true_iff in Hall as [?%N.eqb_eq ?%N.eqb_eq]. done.
Qed.

Lemma to_N_16 b : (Byte.to_N b / 16 < 16)%N /\ (Byte.to_N b mod 16 < 16)%N.
Proof. split; [apply N.Div0.div_lt_upper_bound; pose proof (Byte.to_N_bounded b); lia|by apply N.mod_lt]. Qed.

Lemma decode_hex_of_bytes l : decode_hex_pairs (String.list_ascii_of_string (hex_of_bytes l)) = Some l.
Proof.
  induction l as [|b l IH]; [done|]. cbn [hex_of_bytes String.list_ascii_of_string decode_hex_pairs].
  destruct (to_N_16 b). rewrite !nibble_digit by done. rewrite IH. by rewrite byte_of_nibbles.
Qed.

Lemma hex_length l : String.length (hex_of_bytes l) = (length l * 2)%nat.
Proof. induction l as [|b l IH]; [done|]. cbn. by rewrite IH. Qed.

Lemma hex_of_decode n : forall l bs, length l = (n * 2)%nat -> decode_hex_pairs l = Some bs ->
  l = String.list_ascii_of_string (hex_of_bytes bs).
Proof.
  induction n as [|n IH]; intros [|h [|w l]] bs Hl Hd; try (cbn in Hl; lia); cbn in Hd; [by injection Hd as <-|].
  destruct (decode_hex_nibble h) as [hn|] eqn:Eh; [|done].
  destruct (decode_hex_nibble w) as [wn|] eqn:Ew; [|done].
  destruct (decode_hex_pairs l) as [bs'|] eqn:El; [|done].
  destruct (Byte.of_N _) as [b|] eqn:Eb; [|done]. injection Hd as <-.
  apply digit_nibble in Eh as [-> Hh], Ew as [-> Hw]. destruct (nibbles_of_byte _ _ _ Hh Hw Eb) as [E1 E2].
  cbn. rewrite E1, E2. by rewrite <-(IH l bs' ltac:(cbn in Hl; lia) El).
Qed.

Lemma list_ascii_length s : length (String.list_ascii_of_string s) = String.length s.
Proof. induction s; cbn; congruence. Qed.

Lemma decode_hash_hex s id : decode_block_hash_hex s = Some id <-> s = BlockHash_to_string id.
Proof.
  unfold decode_block_hash_hex, BlockHash_to_string. split.
  - destruct (Nat.eqb_spec (String.length s) (BlockHash_LEN * 2)) as [Hl|]; [|done].
    destruct (decode_hex_pairs _) as [bs|] eqn:Hd; [|done]. intros Hid.
    apply hash_of_bytes_Some in Hid. subst bs.
    rewrite <-list_ascii_length in Hl. apply (hex_of_decode BlockHash_LEN) in Hd; [|done].
    apply (f_equal String.string_of_list_ascii) in Hd. by rewrite !String.string_of_list_ascii_of_string in Hd.
  - intros ->. rewrite hex_length, as_bytes_length. cbn [Nat.eqb]. rewrite Nat.eqb_refl.
    rewrite decode_hex_of_bytes. apply hash_of_as_bytes.
Qed.

Lemma substring_all s : String.substring 0 (String.length s) s = s.
Proof. induction s; cbn; congruence. Qed.

Lemma substring_split s n :
  (n <= String.length s)%nat ->
  (String.substring 0 n s +:+ String.substring n (String.length s - n) s)%stdpp = s.
Proof.
  revert n. induction s as [|c s IH]; intros [|n] Hn; cbn in *; try lia; [done| |].
  - by rewrite substring_all.
  - change (String c (String.substring 0 n s +:+ String.substring n (String.length s - n) s)%stdpp = String c s).
    f_equal. apply IH. lia.
Qed.

Lemma string_app_length s t : String.length (s +:+ t)%stdpp = (String.length s + String.length t)%nat.
Proof. induction s as [|c s IH]; [done|]. change (S (String.length (s +:+ t)%stdpp) = S (String.length s + String.length t)). by rewrite IH. Qed.

Lemma substring_app s t :
  String.substring 0 (String.length s) (s +:+ t)%stdpp = s
  /\ String.substring (String.length s) (String.length t) (s +:+ t)%stdpp = t.
Proof.
  induction s as [|c s [IH1 IH2]].
  - split; [by destruct t|]. change (EmptyString +:+ t)%stdpp with t. apply substring_all.
  - change (String c s +:+ t)%stdpp with (String c (s +:+ t)%stdpp). cbn. by rewrite IH1.
Qed.

Lemma strip_suffix_ok suffix s r : strip_suffix suffix s = Some r <-> s = (r +:+ suffix)%stdpp.
Proof.
  unfold strip_suffix. split.
  - destruct (Nat.leb_spec (String.length suffix) (String.length s)) as [Hl|]; [|done]. cbn [andb].
    destruct (String.eqb_spec (String.substring (String.length s - String.length suffix) (String.length suffix) s)
      suffix) as [He|]; [|done]. intros [= <-].
    rewrite <-He at 2. rewrite <-(substring_split s (String.length s - String.length suffix)) at 1 by lia.
    by replace (String.length s - (String.length s - String.length suffix))%nat with (String.length suffix) by lia.
  - intros ->. rewrite string_app_length.
    replace (String.length r + String.length suffix - String.length suffix)%nat with (String.length r) by lia.
    destruct (substring_app r suffix) as [-> ->]. rewrite String.eqb_refl.
    by destruct (Nat.leb_spec (String.length suffix) (String.length r + String.length suffix)); [|lia].
Qed.

Lemma strip_prefix_ok root p r : strip_prefix root p = Some r <-> p = root ++ r.
Proof.
  revert p. induction root as [|x root IH]; intros p; cbn; [naive_solver|].
  destruct p as [|y p]; [done|]. destruct (bool_decide_reflect (x = y)) as [->|Hn]; [|naive_solver].
  rewrite IH. naive_solver.
Qed.

Lemma shard_prefixes id :
  is_lower_hex_prefix (substring_of 0 2 (BlockHash_to_string id)) = true
  /\ is_lower_hex_prefix (substring_of 2 4 (BlockHash_to_string id)) = true.
Proof.
  unfold BlockHash_to_string. pose proof (as_bytes_length id) as Hl.
  destruct (as_bytes id) as [|a [|b l]]; [done..|]. unfold is_lower_hex_prefix.
  cbn [hex_of_bytes substring_of Nat.sub String.substring String.length String.list_ascii_of_string forallb Nat.eqb andb].
  destruct (to_N_16 a), (to_N_16 b). rewrite !nibble_digit by done. by destruct (hex_of_bytes l).
Qed.

(** A path decodes to an identifier exactly when it is the identifier's path. *)
Lemma decode_path_ok root p id :
  decode_enumerated_block_path root p = Ok (Some id) <-> p = block_path root id.
Proof.
  unfold decode_enumerated_block_path, block_path. split.
  - intros Hd. apply rbind_ok in Hd as (r & Hr & Hd). apply ok_or_ok, strip_prefix_ok in Hr as ->.
    destruct r as [|n1 [|n2 [|n3 [|n4 r]]]]; try done.
    destruct n1 as [f1|], n2 as [f2|]; try done. cbn [to_str rbind] in Hd.
    destruct (negb (is_lower_hex_prefix f1) || negb (is_lower_hex_prefix f2)); [done|].
    destruct n3 as [f3|]; [|done]. cbn [to_str rbind] in Hd.
    destruct (strip_suffix ".cbor" f3) as [hex|] eqn:Es; [|done]. apply strip_suffix_ok in Es as ->.
    apply rbind_ok in Hd as (id' & Hid & Hd). apply ok_or_ok, decode_hash_hex in Hid as ->.
    destruct (String.eqb_spec (substring_of 0 2 (BlockHash_to_string id')) f1) as [<-|]; [|done].
    destruct (String.eqb_spec (substring_of 2 4 (BlockHash_to_string id')) f2) as [<-|]; [|done].
    by injection Hd as <-.
  - intros ->. destruct (shard_prefixes id) as [H1 H2].
    rewrite (proj2 (strip_prefix_ok root _ _) eq_refl). cbn [ok_or rbind to_str].
    rewrite H1, H2. cbn [negb orb]. rewrite (proj2 (strip_suffix_ok ".cbor" _ _) eq_refl).
    rewrite (proj2 (decode_hash_hex _ id) eq_refl). cbn [ok_or rbind].
    by rewrite !String.eqb_refl.
Qed.

Lemma block_path_inj root id id' : block_path root id = block_path root id' -> id = id'.
Proof.
  intros He. apply (decode_path_ok root) in He. rewrite (proj2 (decode_path_ok root _ id) eq_refl) in He.
  congruence.
Qed.

(** ** Totals *)
Lemma list_total_perm l k : l ≡ₚ k -> list_total l = list_total k.
Proof. unfold list_total. induction 1; cbn [foldr] in *; lia. Qed.

Lemma list_total_drop l k : (list_total (drop k l) <= list_total l)%N.
Proof.
  revert k. induction l as [|x l IH]; intros [|k]; cbn; try lia. unfold list_total in *. cbn. specialize (IH k). lia.
Qed.

Lemma cache_total_split m id :
  cache_total m = (match m !! id with Some e => payload_bytes e | None => 0%N end + cache_total (delete id m))%N.
Proof.
  unfold cache_total. destruct (m !! id) as [e|] eqn:E.
  - rewrite <-(list_total_perm _ _ (map_to_list_delete m id e E)). done.
  - by rewrite delete_id.
Qed.

Lemma cache_total_insert m id e :
  cache_total (<[id := e]> m) = (payload_bytes e + cache_total (delete id m))%N.
Proof. rewrite (cache_total_split _ id), lookup_insert_eq, delete_insert_eq. done. Qed.

#[local] Instance filter_Permutation {A} (p : A -> bool) : Proper ((≡ₚ) ==> (≡ₚ)) (List.filter p).
Proof.
  intros l k. induction 1 as [|x l k _ IH|x y l|l k m _ IH1 _ IH2]; cbn; [done| | |by etrans].
  - destruct (p x); [by constructor|done].
  - destruct (p x), (p y); try done. constructor.
Qed.

(** The candidates of an eviction are the other entries. *)
Lemma others_perm (m : gmap BlockHash CacheEntry) id :
  List.filter (fun e => negb (bool_decide (e.1 = id))) (map_to_list m) ≡ₚ map_to_list (delete id m).
Proof.
  assert (forall (m : gmap BlockHash CacheEntry), m !! id = None ->
    List.filter (fun e => negb (bool_decide (e.1 = id))) (map_to_list m) = map_to_list m) as Hnone.
  { intros m' Hm. assert (forall x, x ∈ map_to_list m' -> x.1 <> id) as Hx.
    { intros [j e] Hj%elem_of_map_to_list. cbn. intros ->. congruence. }
    induction (map_to_list m') as [|x l IH]; [done|]. cbn.
    rewrite bool_decide_eq_false_2 by (apply Hx; by left). cbn. f_equal. apply IH. intros y Hy. apply Hx. by right. }
  destruct (m !! id) as [e|] eqn:E.
  - rewrite <-(map_to_list_delete m id e E). cbn. rewrite bool_decide_eq_true_2 by done. cbn.
    by rewrite Hnone by apply lookup_delete_eq.
  - by rewrite delete_id, Hnone by done.
Qed.

(** ** Planning evictions *)
Lemma plan_loop_ok max new_len l : (max < USIZE_MAX)%N -> (new_len <= max)%N ->
  exists k, plan_loop max (list_total l) new_len l = (list_total (drop k l), map fst (take k l))
  /\ shortest_fit max new_len l k.
Proof.
  intros Hmax Hnew. induction l as [|[id e] l IH].
  - exists 0%nat. split; [done|]. split; [cbn; lia|lia].
  - cbn [plan_loop]. destruct (N.leb_spec (saturating_add USIZE_MAX (list_total ((id, e) :: l)) new_len) max) as [Hle|Hgt].
    + exists 0%nat. split; [done|]. split; [|lia]. unfold saturating_add in Hle. cbn [drop]. lia.
    + destruct IH as (k & Hk & [Hfit Hmin]).
      replace (saturating_sub (list_total ((id, e) :: l)) (payload_bytes e)) with (list_total l)
        by (unfold saturating_sub, list_total; cbn; lia).
      exists (S k). rewrite Hk. split; [done|]. split; [done|]. intros [|j] Hj; [|apply Hmin; lia].
      unfold saturating_add in Hgt. cbn [drop]. lia.
Qed.

Section cache.
Context `{CacheOrder}.

Lemma candidates_perm c id : eviction_candidates c id ≡ₚ map_to_list (delete id (entries c)).
Proof.
  unfold eviction_candidates. rewrite sort_by_Permutation, <-others_perm.
  by rewrite (cache_iter_perm (entries c)).
Qed.

Lemma candidates_sorted c id :
  StronglySorted (fun x y => (recency x.2 <= recency y.2)%N) (eviction_candidates c id).
Proof.
  pose proof (sort_by_sorted _ (TotalCmp0 := comap_total (fun e : BlockHash * CacheEntry => recency e.2) N.compare)
    (List.filter (fun e => negb (bool_decide (e.1 = id))) (cache_iter (entries c)))) as Hs.
  unfold eviction_candidates. induction Hs as [|x l Hl IH Hx]; [constructor|].
  constructor; [done|]. eapply Forall_impl; [exact Hx|]. intros y Hy. by apply N.compare_le_iff.
Qed.

(** What a plan is, on exact accounts. *)
Lemma plan_evictions_ok c id new_len :
  (max_cache_bytes c < USIZE_MAX)%N -> resident_bytes c = cache_total (entries c) ->
  if (max_cache_bytes c <? new_len)%N
  then plan_evictions c id new_len = Err (too_large_error new_len (max_cache_bytes c))
  else exists k, plan_evictions c id new_len = Ok (map fst (take k (eviction_candidates c id)))
    /\ shortest_fit (max_cache_bytes c) new_len (eviction_candidates c id) k.
Proof.
  intros Hmax Hres. unfold plan_evictions.
  destruct (N.ltb_spec (max_cache_bytes c) new_len) as [|Hnew]; [done|]. cbn [negb].
  assert (saturating_sub (resident_bytes c) (cached_bytes c id) = list_total (eviction_candidates c id)) as ->.
  { rewrite (list_total_perm _ _ (candidates_perm c id)). unfold saturating_sub, cached_bytes.
    rewrite Hres, (cache_total_split _ id). unfold cache_total. lia. }
  destruct (plan_loop_ok (max_cache_bytes c) new_len (eviction_candidates c id) Hmax Hnew) as (k & -> & [Hfit Hmin]).
  exists k. split; [|done].
  destruct (N.ltb_spec (max_cache_bytes c)
    (saturating_add USIZE_MAX (list_total (drop k (eviction_candidates c id))) new_len)) as [Hlt|]; [|done].
  unfold saturating_add in Hlt. lia.
Qed.
End cache.

(** ** File operations *)
Section files.
Context {F : Type} `{FsLaws F} `{CacheOrder}.
Notation store := (FilesystemBlockStore F).
Implicit Types s : store.

(** A step that changes no file and no other part of the store. *)
Definition quiet s s' : Prop :=
  store_root s' = store_root s /\ cache_state s' = cache_state s /\ forall q, file (fs s') q = file (fs s) q.

Lemma quiet_refl s : quiet s s.
Proof. done. Qed.

Lemma quiet_trans s1 s2 s3 : quiet s1 s2 -> quiet s2 s3 -> quiet s1 s3.
Proof.
  intros (R1 & C1 & F1) (R2 & C2 & F2). split_and!; [congruence..|]. intros q. by rewrite F2.
Qed.

Lemma run_io_ok {A} (op : F -> io A * F) describe s r s' :
  (forall f q, file (op f).2 q = file f q) -> run_io op describe s = (r, s') ->
  quiet s s' /\ r <> Panic /\ forall a, r = Ok a -> (op (fs s)).1 = inr a.
Proof.
  intros Hq Hr. unfold run_io in Hr. specialize (Hq (fs s)).
  destruct (op (fs s)) as [[e|a] f]; injection Hr as <- <-; cbn in *; split_and!; try done; by intros b [= <-].
Qed.

Lemma publish_error_ok P id b e s r s' :
  publish_error P id b e s = (r, s') -> s' = s /\ r <> Panic /\ (r = Ok tt -> file (fs s) P = Some b).
Proof.
  unfold publish_error. intros [= <- <-]. split; [done|]. pose proof (read_law P (fs s)) as Hl.
  destruct (read P (fs s)) as [er|eb].
  - done.
  - destruct (bool_decide_reflect (eb = b)) as [->|]; [|done]. done.
Qed.

(** What publishing does. *)
Definition published s s' (id : BlockHash) (b : bytes) (r : result BlockStoreError unit) : Prop :=
  let P := block_path (store_root s) id in
  store_root s' = store_root s /\ cache_state s' = cache_state s /\ r <> Panic
  /\ (forall q, q <> P -> file (fs s') q = file (fs s) q)
  /\ (r = Ok tt -> file (fs s') P = Some b /\ (file (fs s) P = None \/ file (fs s) P = Some b))
  /\ (r <> Ok tt -> file (fs s') P = file (fs s) P).

Lemma quiet_published s s1 s' id b r : quiet s s1 -> published s1 s' id b r -> published s s' id b r.
Proof.
  intros (R1 & C1 & F1) (R2 & C2 & Hp & Hq & Hok & Herr). unfold published. rewrite <-R1.
  split_and!; [congruence|congruence|done|..].
  - intros q Hn. rewrite Hq by done. apply F1.
  - intros Hr. rewrite <-F1. by apply Hok.
  - intros Hr. rewrite Herr by done. apply F1.
Qed.

Lemma quiet_failed s s' id b r : quiet s s' -> r <> Panic -> r <> Ok tt -> published s s' id b r.
Proof. intros (R & C & Hf) Hp Hr. split_and!; try done; intros; apply Hf. Qed.

Lemma publish_ok s id b r s' : publish_block_bytes id b s = (r, s') -> published s s' id b r.
Proof.
  unfold publish_block_bytes. set (P := block_path (store_root s) id). set (D := removelast P).
  unfold sbind. intros Hp.
  destruct (run_io (create_dir_all D) _ s) as [r1 s1] eqn:E1.
  destruct (run_io_ok _ _ _ _ _ ltac:(intros; apply create_dir_law) E1) as (Q1 & P1 & _).
  destruct r1 as [u|e|]; [|injection Hp as <- <-; by apply quiet_failed|done].
  destruct (run_io (create_staged_file D) _ s1) as [r2 s2] eqn:E2.
  destruct (run_io_ok _ _ _ _ _ ltac:(intros; apply create_staged_law) E2) as (Q2 & P2 & A2).
  pose proof (quiet_trans _ _ _ Q1 Q2) as Q12.
  destruct r2 as [st|e|]; [|injection Hp as <- <-; by apply quiet_failed|done].
  destruct (run_io (staged_write_all st b) _ s2) as [r3 s3] eqn:E3.
  destruct (run_io_ok _ _ _ _ _ ltac:(intros; apply staged_write_law) E3) as (Q3 & P3 & A3).
  pose proof (quiet_trans _ _ _ Q12 Q3) as Q13.
  destruct r3 as [st3|e|]; [|injection Hp as <- <-; by apply quiet_failed|done].
  destruct (run_io (staged_flush st3) _ s3) as [r4 s4] eqn:E4.
  destruct (run_io_ok _ _ _ _ _ ltac:(intros; apply staged_flush_law) E4) as (Q4 & P4 & A4).
  pose proof (quiet_trans _ _ _ Q13 Q4) as Q14.
  destruct r4 as [st4|e|]; [|injection Hp as <- <-; by apply quiet_failed|done].
  assert (contents st4 = b) as Hc.
  { rewrite (proj2 (staged_flush_law st3 (fs s3)) _ (A4 _ eq_refl)).
    rewrite (proj2 (staged_write_law st b (fs s2)) _ (A3 _ eq_refl)).
    by rewrite (proj2 (create_staged_law D (fs s1)) _ (A2 _ eq_refl)). }
  apply (quiet_published s s4); [done|].
  assert (block_path (store_root s4) id = P) as HP by (destruct Q14 as (-> & _); done).
  pose proof (persist_law st4 P (fs s4)) as Hl. unfold published. rewrite HP.
  destruct (persist_noclobber st4 P (fs s4)) as [[e|u'] f].
  - destruct (publish_error_ok _ _ _ _ _ _ _ Hp) as (-> & Hnp & Hok). cbn in *.
    split_and!; [done|done|done|intros; apply Hl| |intros; apply Hl].
    intros Hr. split; [by apply Hok|]. right. rewrite <-Hl. by apply Hok.
  - injection Hp as <- <-. destruct Hl as (Hn & Hf & Hq). cbn. rewrite <-Hc. split_and!; try done.
    intros _. split; [done|by left].
Qed.

(** Evicting one block. *)
Lemma remove_ok s id r s' :
  remove_cached_file id s = (r, s') ->
  store_root s' = store_root s /\ cache_state s' = cache_state s /\ r <> Panic
  /\ (forall q, q <> block_path (store_root s) id -> file (fs s') q = file (fs s) q)
  /\ (r = Ok tt -> file (fs s') (block_path (store_root s) id) = None)
  /\ (r <> Ok tt -> forall q, file (fs s') q = file (fs s) q).
Proof.
  unfold remove_cached_file. set (P := block_path (store_root s) id).
  pose proof (remove_law P (fs s)) as Hl. destruct (remove_file P (fs s)) as [[e|u] f]; intros [= <- <-]; cbn.
  - destruct Hl as [Hn Hq]. destruct (bool_decide_reflect (error_kind e = NotFound)) as [He|He].
    + split_and!; try done. intros _. rewrite Hq. by apply Hn.
    + split_and!; done.
  - destruct Hl as [Hn Hq]. done.
Qed.

(** ** The accounts *)
Lemma apply_eviction_ok j c :
  resident_bytes c = cache_total (entries c) ->
  entries (apply_eviction j c) = delete j (entries c)
  /\ resident_bytes (apply_eviction j c) = cache_total (delete j (entries c))
  /\ max_cache_bytes (apply_eviction j c) = max_cache_bytes c.
Proof.
  intros Hres. unfold apply_eviction. pose proof (cache_total_split (entries c) j) as Hs.
  destruct (entries c !! j) as [e|] eqn:E; cbn; [|by rewrite delete_id].
  split_and!; [done| |done]. unfold saturating_sub. lia.
Qed.

Lemma evict_step s c j s1 :
  cache_inv s -> cache_state s = Some c -> remove_cached_file j s = (Ok tt, s1) ->
  cache_inv (on_cache (apply_eviction j) s1)
  /\ cache_state (on_cache (apply_eviction j) s1) = Some (apply_eviction j c)
  /\ store_root (on_cache (apply_eviction j) s1) = store_root s
  /\ fs (on_cache (apply_eviction j) s1) = fs s1.
Proof.
  intros Hi Hc Hr. destruct (remove_ok _ _ _ _ Hr) as (R & C & _ & Hq & Hn & _). specialize (Hn eq_refl).
  unfold on_cache. rewrite C, Hc. split_and!; try done.
  unfold cache_inv in *. rewrite Hc in Hi. destruct Hi as (Hmax & Hres & Hle & Hf). cbn [cache_state with_cache].
  destruct (apply_eviction_ok j c Hres) as (He & Hr' & Hm). rewrite He, Hr', Hm. split_and!; try done.
  - rewrite (cache_total_split _ j) in Hres. lia.
  - intros id. unfold block_file. cbn [store_root fs with_cache]. rewrite R. destruct (decide (id = j)) as [->|Hne].
    + by rewrite lookup_delete_eq, Hn.
    + rewrite lookup_delete_ne by done. rewrite Hf. unfold block_file. rewrite Hq; [done|].
      intros He'. by apply block_path_inj in He'.
Qed.

Lemma evict_all_ok ids : forall s c r s',
  cache_inv s -> cache_state s = Some c -> evict_all ids s = (r, s') ->
  store_root s' = store_root s /\ r <> Panic /\ cache_inv s'
  /\ (exists c', cache_state s' = Some c' /\ max_cache_bytes c' = max_cache_bytes c
      /\ (r = Ok tt -> entries c' = fold_left (fun m j => delete j m) ids (entries c)))
  /\ forall q, file (fs s') q = file (fs s) q
     \/ (file (fs s') q = None /\ exists j, j ∈ ids /\ q = block_path (store_root s) j).
Proof.
  induction ids as [|j ids IH]; intros s c r s' Hi Hc He; cbn in He.
  - injection He as <- <-. split_and!; try done; [by exists c|]. by left.
  - unfold sbind in He. destruct (remove_cached_file j s) as [r1 s1] eqn:E1.
    destruct (remove_ok _ _ _ _ E1) as (R & C & Hp & Hq & Hn & Hsame).
    destruct r1 as [[]|e|]; [| |done].
    + destruct (evict_step s c j s1 Hi Hc E1) as (Hi2 & Hc2 & R2 & F2).
      destruct (IH _ _ _ _ Hi2 Hc2 He) as (R3 & P3 & I3 & (c3 & C3 & M3 & D3) & F3).
      assert (resident_bytes c = cache_total (entries c)) as Hres
        by (unfold cache_inv in Hi; rewrite Hc in Hi; apply Hi).
      destruct (apply_eviction_ok j c Hres) as (Hae & _ & Ham).
      split_and!; [congruence|done|done| |].
      * exists c3. split_and!; [done|congruence|]. intros Hr. rewrite D3 by done. by rewrite Hae.
      * intros q. rewrite R2, F2 in F3.
        destruct (F3 q) as [-> | (-> & i & Hin & ->)]; [|right; split; [done|]; exists i; split; [by right|done]].
        destruct (decide (q = block_path (store_root s) j)) as [->|Hne]; [|left; by apply Hq].
        right. split; [by apply Hn|]. exists j. split; [by left|done].
    + injection He as <- <-. split_and!; [done|done| | |].
      * unfold cache_inv in *. rewrite C. rewrite Hc in *. destruct Hi as (? & ? & ? & Hf). split_and!; try done.
        intros id. rewrite Hf. unfold block_file. by rewrite R, Hsame.
      * exists c. split_and!; [congruence|done|done].
      * left. by apply Hsame.
Qed.

Lemma fold_delete_drop (l : list (BlockHash * CacheEntry)) : forall k (m : gmap BlockHash CacheEntry),
  map_to_list m ≡ₚ l -> map_to_list (fold_left (fun m j => delete j m) (map fst (take k l)) m) ≡ₚ drop k l.
Proof.
  induction l as [|[j e] l IH]; intros [|k] m Hm; cbn; try done. apply IH.
  assert (m !! j = Some e) as Hj by (apply elem_of_map_to_list; rewrite Hm; by left).
  apply (Permutation_cons_inv (a := (j, e))). by rewrite map_to_list_delete.
Qed.

Lemma fold_delete_comm ids : forall id (m : gmap BlockHash CacheEntry),
  delete id (fold_left (fun m j => delete j m) ids m) = fold_left (fun m j => delete j m) ids (delete id m).
Proof. induction ids as [|j ids IH]; intros id m; cbn; [done|]. by rewrite IH, delete_delete. Qed.

(** ** Writing *)
Lemma upsert_ok s c id b :
  cache_state s = Some c -> (max_cache_bytes c < USIZE_MAX)%N -> resident_bytes c = cache_total (entries c) ->
  (cache_total (delete id (entries c)) + len b <= max_cache_bytes c)%N ->
  (forall j, j <> id -> payload_bytes <$> entries c !! j = len <$> block_file s j) ->
  block_file s id = Some b ->
  cache_inv (on_cache (upsert id (len b)) s).
Proof.
  intros Hc Hmax Hres Hfit Hf Hb. unfold on_cache. rewrite Hc. unfold cache_inv. cbn.
  assert (saturating_add USIZE_MAX (saturating_sub (resident_bytes c)
    (cached_bytes (take_recency c).2 id)) (len b) = (len b + cache_total (delete id (entries c)))%N) as Hsum.
  { unfold saturating_add, saturating_sub, cached_bytes. cbn. rewrite Hres, (cache_total_split _ id).
    destruct (entries c !! id); lia. }
  cbn in Hsum. rewrite Hsum, cache_total_insert. cbn. split_and!; [done|done|lia|].
  intros j. destruct (decide (j = id)) as [->|Hne].
  - rewrite lookup_insert_eq. change (block_file (with_cache s _) id) with (block_file s id). by rewrite Hb.
  - rewrite lookup_insert_ne by done. by apply Hf.
Qed.

Lemma cache_inv_same_files s s' :
  store_root s' = store_root s -> cache_state s' = cache_state s ->
  (forall id, len <$> block_file s' id = len <$> block_file s id) -> cache_inv s -> cache_inv s'.
Proof.
  intros R C Hf. unfold cache_inv. rewrite C. destruct (cache_state s) as [c|]; [|done].
  intros (? & ? & ? & He). split_and!; try done. intros id. by rewrite He, Hf.
Qed.

Lemma fs_put_ok s id b r s' :
  cache_inv s -> fs_put_block_bytes id b s = (r, s') ->
  r <> Panic /\ cache_inv s' /\ files_step s s' id b /\ (r = Ok tt -> block_file s' id = Some b)
  /\ (cache_state s' = None <-> cache_state s = None)
  /\ (forall c, cache_state s = Some c -> (max_cache_bytes c < len b)%N ->
      r = Err (too_large_error (len b) (max_cache_bytes c)) /\ s' = s).
Proof.
  intros Hi Hp. unfold fs_put_block_bytes in Hp. destruct (cache_state s) as [c|] eqn:Hc.
  - pose proof Hi as Hi0. unfold cache_inv in Hi0. rewrite Hc in Hi0. destruct Hi0 as (Hmax & Hres & Hle & Hf).
    pose proof (plan_evictions_ok c id (len b) Hmax Hres) as Hplan.
    destruct (N.ltb_spec (max_cache_bytes c) (len b)) as [Hbig|Hsmall].
    { rewrite Hplan in Hp. cbn in Hp. injection Hp as <- <-. split_and!; try done; [split; [done|by left]| |].
      - by rewrite Hc.
      - intros c' [= <-]. done. }
    destruct Hplan as (k & Hk & Hfit & _). rewrite Hk in Hp. unfold sbind in Hp. cbn [sret] in Hp.
    set (ids := map fst (take k (eviction_candidates c id))) in *.
    assert (id ∉ ids) as Hnotin.
    { intros Hin. apply list_elem_of_fmap in Hin as ([j e] & Hj & Hin). cbn in Hj. subst j.
      apply elem_of_take in Hin as (i & Hin & _). apply list_elem_of_lookup_2 in Hin.
      rewrite (candidates_perm c id), elem_of_map_to_list, lookup_delete_eq in Hin. done. }
    destruct (evict_all ids s) as [r1 s1] eqn:E1.
    destruct (evict_all_ok ids s c r1 s1 Hi Hc E1) as (R1 & P1 & I1 & (c1 & C1 & M1 & D1) & F1).
    assert (forall b', files_step s s1 id b') as Hstep1.
    { intros b'. split; [done|]. intros q. destruct (F1 q) as [|(Hn & j & Hj & ->)]; [by left|].
      right. right. split_and!; [by rewrite Hc|done|]. exists j. split; [|done]. by intros ->. }
    destruct r1 as [[]|e|]; [| |done].
    2:{ injection Hp as <- <-. split_and!; try done; [by rewrite C1|]. intros c' [= <-] Hb. lia. }
    destruct (publish_block_bytes id b s1) as [r2 s2] eqn:E2.
    destruct (publish_ok _ _ _ _ _ E2) as (R2 & C2 & P2 & Hq2 & Hok2 & Herr2). rewrite R1 in *.
    pose proof I1 as Hi1. unfold cache_inv in I1. rewrite C1 in I1. destruct I1 as (_ & Hres1 & Hle1 & Hf1).
    destruct r2 as [[]|e|]; [| |done].
    + injection Hp as <- <-. destruct (Hok2 eq_refl) as [Hnew Hold]. specialize (D1 eq_refl).
      assert (block_file s2 id = Some b) as Hb2 by (unfold block_file; by rewrite R2).
      assert (cache_state s2 = Some c1) as Hc2 by congruence.
      split_and!; [done| | | | |intros c' [= <-] ?; lia].
      * apply (upsert_ok s2 c1); [done|by rewrite M1|done| | |done].
        -- rewrite M1, D1, fold_delete_comm. unfold cache_total, ids.
           rewrite (list_total_perm _ _ (fold_delete_drop _ k _ (symmetry (candidates_perm c id)))). done.
        -- intros j Hj. rewrite Hf1. unfold block_file. rewrite R2, R1. rewrite Hq2; [done|].
           intros He. by apply block_path_inj in He.
      * unfold on_cache. rewrite Hc2. split; [by cbn; congruence|]. intros q. cbn.
        destruct (decide (q = block_path (store_root s) id)) as [->|Hne].
        -- destruct (Hstep1 b) as [_ Hs]. destruct (Hs (block_path (store_root s) id)) as [Hsame|[(_ & Hn & _)|(_ & _ & j & Hj & He)]].
           ++ destruct Hold as [Hnone|Hsome]; [right; left; split_and!; [done|congruence|done]|left; congruence].
           ++ destruct Hold as [Hnone|Hsome]; [right; left; split_and!; done|].
              right. left. done.
           ++ apply block_path_inj in He. by subst j.
        -- rewrite Hq2 by done. destruct (Hstep1 b) as [_ Hs]. destruct (Hs q) as [|[(? & _)|(? & ? & ?)]]; [by left|done|].
           right. right. by rewrite Hc in *.
      * intros _. unfold on_cache. by rewrite Hc2.
      * unfold on_cache. by rewrite Hc2.
    + injection Hp as <- <-. specialize (Herr2 ltac:(done)).
      assert (forall q, file (fs s2) q = file (fs s1) q) as Hall.
      { intros q. destruct (decide (q = block_path (store_root s) id)) as [->|]; [done|by apply Hq2]. }
      split_and!; [done| | |done| |intros c' [= <-] ?; lia].
      * apply (cache_inv_same_files s1); [congruence|done| |].
        -- intros j. unfold block_file. by rewrite R2, R1, Hall.
        -- exact Hi1.
      * destruct (Hstep1 b) as [_ Hs]. split; [congruence|]. intros q. rewrite Hall. apply Hs.
      * by rewrite C2, C1.
  - destruct (publish_ok _ _ _ _ _ Hp) as (R2 & C2 & P2 & Hq2 & Hok2 & Herr2).
    split_and!; [done| | | | |done].
    + unfold cache_inv. by rewrite C2, Hc.
    + split; [done|]. intros q. destruct (decide (q = block_path (store_root s) id)) as [->|Hne]; [|left; by apply Hq2].
      destruct r as [[]|e|]; [|left; by apply Herr2|done]. destruct (Hok2 eq_refl) as [Hnew [Hn|Hs]];
        [right; left; done|left; congruence].
    + intros Hr. unfold block_file. rewrite R2. by apply Hok2.
    + by rewrite C2.
Qed.

(** ** Reading *)
Lemma observe_inv s id : cache_inv s -> cache_inv (on_cache (observe_read id) s).
Proof.
  unfold on_cache, cache_inv. destruct (cache_state s) as [c|] eqn:Hc; [|by rewrite Hc].
  intros (Hmax & Hres & Hle & Hf). unfold observe_read. cbn.
  destruct (entries c !! id) as [e|] eqn:E; cbn; [|done].
  split_and!; [done| |done|].
  - rewrite cache_total_insert. cbn. rewrite Hres, (cache_total_split _ id), E. done.
  - intros j. destruct (decide (j = id)) as [->|Hne].
    + rewrite lookup_insert_eq. specialize (Hf id). rewrite E in Hf. exact Hf.
    + rewrite lookup_insert_ne by done. apply Hf.
Qed.

Lemma fs_get_ok s id r s' :
  cache_inv s -> fs_get_block_bytes id s = (r, s') ->
  cache_inv s' /\ r <> Panic /\ store_root s' = store_root s /\ fs s' = fs s
  /\ (forall b, r = Ok (Some b) -> block_file s id = Some b) /\ (r = Ok None -> block_file s id = None).
Proof.
  intros Hi Hg. unfold fs_get_block_bytes in Hg.
  pose proof (read_law (block_path (store_root s) id) (fs s)) as Hl.
  destruct (read _ (fs s)) as [e|b]; [destruct (bool_decide_reflect (error_kind e = NotFound)) as [He|He]|];
    injection Hg as <- <-.
  - split_and!; try done. intros _. by apply Hl.
  - done.
  - assert (store_root (on_cache (observe_read id) s) = store_root s
      /\ fs (on_cache (observe_read id) s) = fs s) as [-> ->] by (unfold on_cache; by destruct (cache_state s)).
    split_and!; try done; [by apply observe_inv|]. by intros b' [= <-].
Qed.

(** The store keeps the contract of [StoreLaws]. *)
#[export] Program Instance fs_store_laws : StoreLaws store := {|
  store_ok := cache_inv;
  stored s k b := block_file s k = Some b
|}.
Next Obligation.
  intros s k r s' Hi Hg. destruct (fs_get_ok s k r s' Hi Hg) as (Hi' & Hp & R & Hf & Hb & _).
  split_and!; [done|done|done|]. intros j b. unfold block_file. by rewrite R, Hf.
Qed.
Next Obligation.
  intros s k b r s' Hi Hp. destruct (fs_put_ok s k b r s' Hi Hp) as (Hnp & Hi' & [R Hs] & _).
  split_and!; [done|done|]. intros j c. unfold block_file. rewrite R. intros Hj.
  destruct (Hs (block_path (store_root s) j)) as [He|[(He & _ & Hb)|(_ & Hn & _)]]; [left|right|];
    try congruence. apply block_path_inj in He as ->. split; congruence.
Qed.

(** Without a cache budget, no file is ever removed. *)
#[export] Program Instance fs_durable : DurableStore store := {|
  durable_ok s := cache_inv s /\ cache_state s = None;
  holds s k b := block_file s k = Some b
|}.
Next Obligation.
  intros s k b r s' [Hi Hc] Hp. destruct (fs_put_ok s k b r s' Hi Hp) as (Hnp & Hi' & [R Hs] & Hok & Hcs & _).
  split; [split; [exact Hi'|by apply Hcs]|]. split_and!; [done| |done]. intros j c. unfold block_file. rewrite R. intros Hj.
  destruct (Hs (block_path (store_root s) j)) as [He|[(_ & Hn & _)|(Hne & _)]]; congruence.
Qed.
Next Obligation.
  intros s k b r s' [Hi _] Hb Hg. destruct (fs_get_ok s k r s' Hi Hg) as (_ & Hp & _ & _ & Hs & Hn).
  destruct r as [[c|]|e|]; [left|naive_solver|by right; exists e|done]. specialize (Hs c eq_refl). congruence.
Qed.

(** ** Properties *)

(** C37 A write of the filesystem store never panics and keeps the accounting of the
    disk cache (the entries are the block files with their lengths, in total within the
    budget); it never replaces a file, removes at most files of other blocks in cache
    mode, on success leaves the bytes at the path of the block, and refuses without any
    change a block larger than the whole budget. *)
Theorem fs_write_exact s id b r s' :
  cache_inv s -> fs_put_block_bytes id b s = (r, s') ->
  r <> Panic /\ cache_inv s' /\ files_step s s' id b
  /\ (r = Ok tt -> block_file s' id = Some b)
  /\ (forall c, cache_state s = Some c -> (max_cache_bytes c < len b)%N ->
      r = Err (too_large_error (len b) (max_cache_bytes c)) /\ s' = s).
Proof. intros Hi Hp. by destruct (fs_put_ok s id b r s' Hi Hp) as (? & ? & ? & ? & _ & ?). Qed.

(** What a write evicts from the disk cache is, of the other entries from the least
    to the most recently used, the shortest run whose removal makes room for the new
    block, and there always is one for a block within the budget. *)
Theorem fs_eviction_lru s c id new_len :
  cache_inv s -> cache_state s = Some c -> (new_len <= max_cache_bytes c)%N ->
  exists l k, l ≡ₚ map_to_list (delete id (entries c))
    /\ StronglySorted (fun x y => (recency x.2 <= recency y.2)%N) l
    /\ plan_evictions c id new_len = Ok (map fst (take k l))
    /\ shortest_fit (max_cache_bytes c) new_len l k.
Proof.
  intros Hi Hc Hn. unfold cache_inv in Hi. rewrite Hc in Hi. destruct Hi as (Hmax & Hres & _).
  pose proof (plan_evictions_ok c id new_len Hmax Hres) as Hp.
  destruct (N.ltb_spec (max_cache_bytes c) new_len); [lia|]. destruct Hp as (k & Hk & Hf).
  exists (eviction_candidates c id), k. split_and!; [apply candidates_perm| |done|done].
  apply candidates_sorted.
Qed.
End files.

(** An enumerated path decodes to a block identifier exactly when it is the path the
    store writes that block to. *)
Theorem fs_block_path_roundtrip root p id :
  decode_enumerated_block_path root p = Ok (Some id) <-> p = block_path root id.
Proof. apply decode_path_ok. Qed.
