(* ===== verification/FsWalk.v ===== *)
(** * The filesystem block store: enumeration and the start of cache mode

    The walk over the directories, an explicit stack in the code, computes a
    depth-first listing and always ends; it finds exactly the block files two
    directories down. Starting the cache mode on a store measures every block
    file, drops the oldest ones until the budget holds, and establishes the
    accounting invariant.

    Then: the filesystem block store: witnesses. *)
From S2P Require Import Prelude Ordering Hash Cbor Ieee BlockV1 CborRef BlockV2 Store FsStore FsCorrect.

Section walk.
Context {F : Type} `{FsLaws F} `{CacheOrder}.
Notation store := (FilesystemBlockStore F).
Implicit Types s : store.

(** ** Specification *)

(** The items below a path, depth first: what the explicit stack computes. *)
Fixpoint listing (levels : nat) (s : store) (p : path) : list (result BlockStoreError BlockHash) :=
  match is_dir p (fs s) with
  | inl error => [Err (backend_failure ("failed to stat an enumerated block-store entry: " +:+ error_text error)%stdpp)]
  | inr true =>
      match levels with
      | O => []
      | S levels' =>
          match read_dir p (fs s) with
          | inr children => concat (map (listing levels' s) children)
          | inl error => [Err (backend_failure
              ("failed to enumerate an internal block-store directory: " +:+ error_text error)%stdpp)]
          end
      end
  | inr false =>
      match levels with
      | O => match decode_enumerated_block_path (store_root s) p with
             | Ok (Some id) => [Ok id] | Ok None => [] | Err e => [Err e] | Panic => [Panic] end
      | S _ => []
      end
  end.

(** [q] lies [levels] directories below [p]. *)
Inductive reaches (s : store) : nat -> path -> path -> Prop :=
| reaches_here p : reaches s 0 p p
| reaches_below levels p children ch q :
    is_dir p (fs s) = inr true -> read_dir p (fs s) = inr children -> ch ∈ children ->
    reaches s levels ch q -> reaches s (S levels) p q.

(** How directories show the files: a directory lists each name in it once, what
    leads to a file is a directory, what is not a directory is a file, and its
    metadata has its length. *)
Record tree_ok (f : F) : Prop := {
  tree_listed p n rest b children :
    file f (p ++ n :: rest) = Some b -> read_dir p f = inr children -> p ++ [n] ∈ children;
  tree_children p children :
    read_dir p f = inr children -> NoDup children /\ forall c, c ∈ children -> exists n, c = p ++ [n];
  tree_inner p n rest b d :
    file f (p ++ n :: rest) = Some b -> is_dir (p ++ [n]) f = inr d -> d = bool_decide (rest <> []);
  tree_leaf p m :
    is_dir p f = inr false -> metadata p f = inr m -> exists b, file f p = Some b /\ file_len m = len b
}.

(** The bytes of existing entries. *)
Definition existing_total (l : list ExistingCacheEntry) : N :=
  foldr (fun e n => (ex_payload_bytes e + n)%N) 0%N l.

(** The identifiers among enumerated items. *)
Definition ok_ids (items : list (result BlockStoreError BlockHash)) : list BlockHash :=
  omap (fun item => match item with Ok id => Some id | _ => None end) items.

(** What a start of the cache mode leaves: the existing blocks [l], oldest first,
    lose their first [k], the fewest that bring them within the budget. *)
Definition cache_started s s' (max_cache_mb : N) : Prop :=
  exists c l k, cache_state s' = Some c /\ max_cache_bytes c = (max_cache_mb * BYTES_PER_MB)%N
  /\ StronglySorted (fun x y => (ex_modified x <= ex_modified y)%N) l
  /\ (forall id n, len <$> block_file s id = Some n <-> exists e, e ∈ l /\ ex_block_id e = id /\ ex_payload_bytes e = n)
  /\ (forall j, (j < k)%nat -> (max_cache_bytes c < existing_total (drop j l))%N)
  /\ (forall e, e ∈ take k l -> block_file s' (ex_block_id e) = None)
  /\ (forall e, e ∈ drop k l -> block_file s' (ex_block_id e) = block_file s (ex_block_id e)).

(** ** The walk *)
Lemma walk_listing s levels : forall depth p rest fuel, (levels + depth = 2)%nat ->
  walk (node_count levels s p + fuel) s ((p, depth) :: rest)
  = option_map (app (listing levels s p)) (walk fuel s rest).
Proof.
  induction levels as [|levels IH]; intros depth p rest fuel Hd.
  - assert (depth = 2%nat) as -> by lia. cbn [node_count Nat.add walk listing].
    destruct (is_dir p (fs s)) as [e|[]]; [by destruct (walk fuel s rest)|by destruct (walk fuel s rest)|].
    cbn [Nat.eqb negb]. destruct (decode_enumerated_block_path _ _) as [[id|]|e|]; by destruct (walk fuel s rest).
  - cbn [node_count listing]. destruct (is_dir p (fs s)) as [e|[]] eqn:E1.
    + cbn [Nat.add walk]. rewrite E1. by destruct (walk fuel s rest).
    + destruct (read_dir p (fs s)) as [e|children] eqn:E2; cbn [Nat.add walk]; rewrite E1, E2;
        rewrite (proj2 (Nat.leb_gt 2 depth)) by lia; [by destruct (walk fuel s rest)|].
      clear E2. induction children as [|ch children IHc]; cbn [map sum_list_with sum_list concat app].
      * cbn [Nat.add]. by destruct (walk fuel s rest).
      * unfold sum_list, id in *. rewrite <-Nat.add_assoc, IH, IHc by lia. destruct (walk fuel s rest); [|done]. cbn. by rewrite app_assoc.
    + cbn [Nat.add walk]. rewrite E1.
      replace (depth =? 2)%nat with false by (symmetry; apply Nat.eqb_neq; lia). by destruct (walk fuel s rest).
Qed.

Lemma iter_listing s :
  fs_iter_block_ids s = match read_dir (store_root s) (fs s) with
    | inl error => Err (backend_failure ("failed to enumerate the block store root: " +:+ error_text error)%stdpp)
    | inr roots => Ok (concat (map (listing 2 s) roots))
    end.
Proof.
  unfold fs_iter_block_ids. destruct (read_dir _ _) as [e|roots]; [done|].
  assert (forall fuel, walk (sum_list (map (node_count 2 s) roots) + fuel) s (map (fun p => (p, 0%nat)) roots)
    = Some (concat (map (listing 2 s) roots))) as Hw.
  { induction roots as [|p roots IH]; intros fuel; [by destruct fuel|]. cbn [map concat].
    cbn [sum_list sum_list_with]. unfold id. rewrite <-Nat.add_assoc, walk_listing by done.
    unfold sum_list, id in IH. by rewrite IH. }
  specialize (Hw 0%nat). rewrite Nat.add_0_r in Hw. by rewrite Hw.
Qed.

(** ** What the listing contains *)
Lemma decode_no_panic root p : decode_enumerated_block_path root p <> Panic.
Proof.
  unfold decode_enumerated_block_path. destruct (strip_prefix root p) as [r|]; [|done]. cbn [ok_or rbind].
  destruct r as [|[f1|] [|[f2|] [|f3 [|? ?]]]]; try done. cbn [to_str rbind].
  destruct (negb (is_lower_hex_prefix f1) || negb (is_lower_hex_prefix f2)); [done|].
  destruct f3 as [f3|]; [|done]. cbn [to_str rbind]. destruct (strip_suffix ".cbor" f3); [|done].
  destruct (decode_block_hash_hex _); [|done]. cbn [ok_or rbind]. by destruct (String.eqb _ _ && String.eqb _ _).
Qed.

Lemma listing_no_panic s levels : forall p, Panic ∉ listing levels s p.
Proof.
  induction levels as [|levels IH]; intros p; cbn; destruct (is_dir p (fs s)) as [e|[]]; try (set_solver).
  - pose proof (decode_no_panic (store_root s) p). destruct (decode_enumerated_block_path _ _) as [[?|]| |]; set_solver.
  - destruct (read_dir p (fs s)) as [e|children]; [set_solver|].
    intros (l & Hl & Hin)%list_elem_of_In%in_concat. apply in_map_iff in Hl as (ch & <- & _).
    by eapply IH, list_elem_of_In.
Qed.

Lemma listing_ok s levels id : forall p,
  Ok id ∈ listing levels s p <->
  reaches s levels p (block_path (store_root s) id) /\ is_dir (block_path (store_root s) id) (fs s) = inr false.
Proof.
  induction levels as [|levels IH]; intros p; cbn.
  - split.
    + intros Hin. destruct (is_dir p (fs s)) as [e|[]] eqn:Ed; [set_solver|set_solver|].
      destruct (decode_enumerated_block_path _ _) as [[id'|]| |] eqn:E; try set_solver.
      apply list_elem_of_singleton in Hin. injection Hin as <-. apply decode_path_ok in E. subst p.
      split; [constructor|done].
    + intros [Hr Hd]. inversion Hr; subst. rewrite Hd, (proj2 (decode_path_ok _ _ id) eq_refl). by left.
  - split.
    + intros Hin. destruct (is_dir p (fs s)) as [e|[]] eqn:Ed; [set_solver| |set_solver].
      destruct (read_dir p (fs s)) as [e|children] eqn:Er; [set_solver|].
      apply list_elem_of_In, in_concat in Hin as (l & (ch & <- & Hch)%in_map_iff & Hin).
      apply list_elem_of_In, IH in Hin as [Hr Hd]. split; [|done].
      econstructor; [done..| |done]. by apply list_elem_of_In.
    + intros [Hr Hd]. inversion Hr as [|? ? children ch ? Ep Ec Hch Hrest]; subst. rewrite Ep, Ec.
      apply list_elem_of_In, in_concat. exists (listing levels s ch). split.
      * apply in_map. by apply list_elem_of_In.
      * by apply list_elem_of_In, IH.
Qed.

Lemma reaches_prefix s levels p q : tree_ok (fs s) -> reaches s levels p q -> exists r, length r = levels /\ q = p ++ r.
Proof.
  intros Ht. induction 1 as [p|levels p children ch q Hd Hr Hch _ (r & Hlen & ->)].
  - exists []. split; [done|]. by rewrite app_nil_r.
  - destruct (proj2 (tree_children _ Ht _ _ Hr) ch Hch) as (n & ->). exists (n :: r).
    split; [cbn; lia|]. by rewrite <-app_assoc.
Qed.

(** A listing without error items goes down to every file below. *)
Lemma listing_complete s levels b : tree_ok (fs s) -> forall p r,
  file (fs s) (p ++ r) = Some b -> length r = levels -> r <> [] ->
  forall children, read_dir p (fs s) = inr children ->
  (forall ch item, ch ∈ children -> item ∈ listing (pred levels) s ch -> exists id, item = Ok id) ->
  (exists ch, ch ∈ children /\ reaches s (pred levels) ch (p ++ r)) /\ is_dir (p ++ r) (fs s) = inr false.
Proof.
  intros Ht. induction levels as [|levels IH]; intros p [|n r] Hf Hl Hr children Hc Hok; try done. cbn [pred] in *.
  pose proof (tree_listed _ Ht _ _ _ _ _ Hf Hc) as Hin.
  destruct (is_dir (p ++ [n]) (fs s)) as [e|d] eqn:Hd.
  { destruct (Hok (p ++ [n]) _ Hin ltac:(destruct levels; cbn; rewrite Hd; left)) as [? [=]]. }
  pose proof (tree_inner _ Ht _ _ _ _ _ Hf Hd) as ->.
  destruct r as [|n' r].
  - assert (levels = 0%nat) as -> by (cbn in Hl; lia). split; [|done].
    exists (p ++ [n]). split; [done|constructor].
  - destruct levels as [|levels]; [cbn in Hl; lia|]. cbn in Hd.
    destruct (read_dir (p ++ [n]) (fs s)) as [e|children'] eqn:Hc'.
    { destruct (Hok (p ++ [n]) _ Hin ltac:(cbn; rewrite Hd, Hc'; left)) as [? [=]]. }
    change (p ++ n :: n' :: r) with (p ++ [n] ++ n' :: r) in *. rewrite app_assoc in *.
    destruct (IH (p ++ [n]) (n' :: r) Hf ltac:(cbn in *; lia) ltac:(done) children' Hc') as [(ch & Hch & Hr') Hd'].
    + intros ch item Hch Hitem. apply (Hok (p ++ [n]) item Hin). cbn. rewrite Hd, Hc'.
      apply list_elem_of_In, in_concat. exists (listing levels s ch). split; [|by apply list_elem_of_In].
      apply in_map. by apply list_elem_of_In.
    + split; [|done]. exists (p ++ [n]). split; [done|]. cbn in Hr'. by econstructor.
Qed.

(** ** Identifiers are listed once *)
Lemma ok_ids_in items id : id ∈ ok_ids items <-> Ok id ∈ items.
Proof.
  unfold ok_ids. rewrite list_elem_of_omap. split; [|intros Hin; by exists (Ok id)].
  intros (item & Hin & He). destruct item; naive_solver.
Qed.

Lemma ok_ids_concat (ls : list (list (result BlockStoreError BlockHash))) :
  ok_ids (concat ls) = concat (map ok_ids ls).
Proof. induction ls as [|l ls IH]; [done|]. cbn. rewrite <-IH. apply omap_app. Qed.

Lemma NoDup_concat_map {A B} (f : A -> list B) l :
  NoDup l -> (forall x, x ∈ l -> NoDup (f x)) ->
  (forall x y z, x ∈ l -> y ∈ l -> z ∈ f x -> z ∈ f y -> x = y) -> NoDup (concat (map f l)).
Proof.
  induction 1 as [|x l Hx Hl IH]; intros Hf Hd; cbn; [constructor|]. apply NoDup_app. split_and!.
  - apply Hf. by left.
  - intros z Hz (m & (y & <- & Hy)%in_map_iff & Hzy)%list_elem_of_In%in_concat. apply Hx.
    apply list_elem_of_In in Hzy, Hy. rewrite (Hd x y z); [done|by left|by right|done|done].
  - apply IH; [intros; apply Hf; by right|]. intros y y' z Hy Hy'. apply Hd; by right.
Qed.

Lemma ids_of_children s levels p children : tree_ok (fs s) -> NoDup children ->
  (forall c, c ∈ children -> exists n, c = p ++ [n]) ->
  (forall c, NoDup (ok_ids (listing levels s c))) ->
  NoDup (concat (map (fun c => ok_ids (listing levels s c)) children)).
Proof.
  intros Ht Hn Hc IH. apply NoDup_concat_map; [done|auto|].
  intros x y id Hx Hy Hix Hiy. destruct (Hc x Hx) as (n & ->), (Hc y Hy) as (n' & ->).
  apply ok_ids_in, listing_ok in Hix as [Hix _], Hiy as [Hiy _].
  apply (reaches_prefix _ _ _ _ Ht) in Hix as (r & _ & E1), Hiy as (r' & _ & E2).
  rewrite E1, <-!app_assoc in E2. apply app_inv_head in E2. cbn in E2. by injection E2 as -> _.
Qed.

Lemma listing_NoDup s levels : tree_ok (fs s) -> forall p, NoDup (ok_ids (listing levels s p)).
Proof.
  intros Ht. induction levels as [|levels IH]; intros p; cbn.
  - destruct (is_dir p (fs s)) as [e|[]]; [repeat constructor..|].
    destruct (decode_enumerated_block_path _ _) as [[id|]| |]; cbn; try constructor; [set_solver|constructor].
  - destruct (is_dir p (fs s)) as [e|[]]; [constructor| |constructor].
    destruct (read_dir p (fs s)) as [e|children] eqn:Er; [constructor|].
    destruct (tree_children _ Ht _ _ Er) as [Hn Hc]. rewrite ok_ids_concat, map_map.
    by apply (ids_of_children _ _ p).
Qed.

(** ** The scan *)
Lemma ok_ids_oks items ids : items = map Ok ids -> ok_ids items = ids.
Proof. intros ->. unfold ok_ids. induction ids as [|id ids IH]; [done|]. cbn. by rewrite IH. Qed.

Lemma scan_items s items existing : collect_map (inspect_cached s) items = Ok existing ->
  items = map (fun e => Ok (ex_block_id e)) existing
  /\ Forall (fun e => exists m, metadata (block_path (store_root s) (ex_block_id e)) (fs s) = inr m
       /\ file_len m = ex_payload_bytes e) existing.
Proof.
  intros Hs%collect_map_ok. induction Hs as [|item e items existing Hi _ [-> IH]]; [done|].
  unfold inspect_cached in Hi. apply rbind_ok in Hi as (id & -> & Hi).
  destruct (metadata _ (fs s)) as [er|m] eqn:Em; [done|]. apply rbind_ok in Hi as (n & Hn & [= <-]).
  apply ok_or_ok in Hn. unfold usize_try_from in Hn. destruct (_ <=? _)%N; [|done]. injection Hn as <-.
  cbn. split; [done|]. constructor; [|done]. by exists m.
Qed.

(** The scan finds each block file once, with its length. *)
Lemma scan_ok s existing : tree_ok (fs s) -> scan_existing_cache_entries s = Ok existing ->
  NoDup (map ex_block_id existing)
  /\ forall id n, len <$> block_file s id = Some n <->
       exists e, e ∈ existing /\ ex_block_id e = id /\ ex_payload_bytes e = n.
Proof.
  intros Ht Hs. apply rbind_ok in Hs as (items & Hi & Hs). rewrite iter_listing in Hi.
  destruct (read_dir (store_root s) (fs s)) as [er|roots] eqn:Er; [done|].
  assert (items = concat (map (listing 2 s) roots)) as -> by congruence. clear Hi.
  destruct (scan_items _ _ _ Hs) as [Hitems Hmeta]. destruct (tree_children _ Ht _ _ Er) as [Hn Hc].
  assert (ok_ids (concat (map (listing 2 s) roots)) = map ex_block_id existing) as Hids
    by (apply ok_ids_oks; by rewrite map_map).
  assert (NoDup (map ex_block_id existing)) as Hnd.
  { rewrite <-Hids, ok_ids_concat, map_map. apply (ids_of_children _ _ (store_root s)); [done..|].
    by apply listing_NoDup. }
  assert (forall e, e ∈ existing -> len <$> block_file s (ex_block_id e) = Some (ex_payload_bytes e)) as Hlen.
  { intros e He. rewrite Forall_forall in Hmeta. destruct (Hmeta e He) as (m & Hm & <-).
    assert (ex_block_id e ∈ map ex_block_id existing) as Hin by (apply list_elem_of_fmap; by exists e).
    rewrite <-Hids in Hin. apply ok_ids_in, list_elem_of_In, in_concat in Hin as (l & (p & <- & Hp)%in_map_iff & Hl).
    apply list_elem_of_In, listing_ok in Hl as [_ Hd].
    destruct (tree_leaf _ Ht _ _ Hd Hm) as (b & Hb & Hbl). unfold block_file. by rewrite Hb, Hbl. }
  split; [done|]. intros id n. split; [|intros (e & He & <- & <-); by apply Hlen].
  destruct (block_file s id) as [b|] eqn:Hb; [|done]. intros [= <-].
  destruct (listing_complete s 3 b Ht (store_root s) _ Hb eq_refl ltac:(done) roots Er) as [(ch & Hch & Hr) Hd].
  { intros ch item Hch Hitem. assert (item ∈ concat (map (listing 2 s) roots)) as Hin.
    { apply list_elem_of_In, in_concat. exists (listing 2 s ch). split; [apply in_map|]; by apply list_elem_of_In. }
    rewrite Hitems in Hin. apply list_elem_of_fmap in Hin as (e & -> & _). by eexists. }
  assert (id ∈ map ex_block_id existing) as Hin.
  { rewrite <-Hids. apply ok_ids_in, list_elem_of_In, in_concat. exists (listing 2 s ch).
    split; [apply in_map; by apply list_elem_of_In|]. by apply list_elem_of_In, listing_ok. }
  apply list_elem_of_fmap in Hin as (e & -> & He). exists e. split; [done|]. split; [done|].
  specialize (Hlen e He). rewrite Hb in Hlen. by injection Hlen.
Qed.

(** ** Starting the cache mode *)
Lemma scan_no_panic s : scan_existing_cache_entries s <> Panic.
Proof.
  unfold scan_existing_cache_entries. rewrite iter_listing.
  destruct (read_dir (store_root s) (fs s)) as [er|roots]; [done|]. cbn [rbind].
  apply collect_map_no_panic. intros item Hin. destruct item as [id|e|]; cbn; [|done|].
  - destruct (metadata _ (fs s)); [done|]. by destruct (usize_try_from _).
  - apply list_elem_of_In, in_concat in Hin as (l & (p & <- & Hp)%in_map_iff & Hl).
    by apply list_elem_of_In, listing_no_panic in Hl.
Qed.

Lemma sum_existing l : forall acc, (acc <= USIZE_MAX)%N ->
  match try_fold (fun acc e => ok_or (checked_add USIZE_MAX acc (ex_payload_bytes e)) accounting_error) acc l with
  | Ok n => n = (acc + existing_total l)%N /\ (n <= USIZE_MAX)%N
  | Err e => e = accounting_error
  | Panic => False
  end.
Proof.
  induction l as [|e l IH]; intros acc Ha; cbn; [lia|]. unfold checked_add.
  destruct (N.leb_spec (acc + ex_payload_bytes e) USIZE_MAX) as [Hle|]; cbn; [|done].
  specialize (IH _ Hle). unfold existing_total in *. destruct (try_fold _ _ l); [|done..]. lia.
Qed.

(** The entries evicted are the shortest prefix that brings the rest within [max]. *)
Lemma trim_oldest_ok max l : exists k,
  trim_oldest max (existing_total l) l = Ok (take k l, drop k l, existing_total (drop k l))
  /\ (existing_total (drop k l) <= max)%N /\ forall j, (j < k)%nat -> (max < existing_total (drop j l))%N.
Proof.
  induction l as [|e l (k & Hk & Hle & Hmin)]; cbn [trim_oldest].
  - exists 0%nat. cbn. destruct (N.ltb_spec max 0); [lia|]. split_and!; [done|lia|lia].
  - destruct (N.ltb_spec max (existing_total (e :: l))) as [Hlt|Hge].
    + exists (S k). replace (saturating_sub (existing_total (e :: l)) (ex_payload_bytes e)) with (existing_total l)
        by (unfold saturating_sub; change (existing_total (e :: l)) with (ex_payload_bytes e + existing_total l)%N; lia).
      rewrite Hk. split_and!; [done|done|]. intros [|j] Hj; [done|]. apply Hmin. lia.
    + exists 0%nat. split_and!; [done|done|lia].
Qed.

Lemma remove_all_ok ids : forall s r s', remove_all ids s = (r, s') ->
  r <> Panic /\ store_root s' = store_root s /\ cache_state s' = cache_state s
  /\ (forall q, (forall j, j ∈ ids -> q <> block_path (store_root s) j) -> file (fs s') q = file (fs s) q)
  /\ (r = Ok tt -> forall j, j ∈ ids -> file (fs s') (block_path (store_root s) j) = None)
  /\ forall q, file (fs s') q = file (fs s) q \/ file (fs s') q = None.
Proof.
  induction ids as [|id ids IH]; intros s r s' Hr; cbn in Hr.
  - injection Hr as <- <-. split_and!; try done; [set_solver|by left].
  - unfold sbind in Hr. destruct (remove_cached_file id s) as [r1 s1] eqn:E1.
    destruct (remove_ok _ _ _ _ E1) as (R1 & C1 & P1 & Q1 & N1 & S1).
    destruct r1 as [[]|e|]; [|injection Hr as <- <-|done].
    + destruct (IH _ _ _ Hr) as (P2 & R2 & C2 & Q2 & N2 & G2). rewrite R1 in *.
      assert (forall q, file (fs s') q = file (fs s) q \/ file (fs s') q = None) as Hq.
      { intros q. destruct (G2 q) as [->|]; [|by right].
        destruct (decide (q = block_path (store_root s) id)) as [->|Hne]; [right; by apply N1|left; by apply Q1]. }
      split_and!; [done|done|congruence| | |done].
      * intros q Hj. rewrite Q2 by (intros; apply Hj; by right). apply Q1, Hj. by left.
      * intros Hok j [->|Hj]%elem_of_cons; [|by apply N2].
        destruct (G2 (block_path (store_root s) id)) as [->|]; [by apply N1|done].
    + split_and!; try done; [intros; by apply S1|left; by apply S1].
Qed.

Lemma retain_entries_ok l : forall next m next' m', NoDup (map ex_block_id l) ->
  (forall e, e ∈ l -> m !! ex_block_id e = None) -> retain_entries next m l = (next', m') ->
  cache_total m' = (cache_total m + existing_total l)%N
  /\ forall id n, payload_bytes <$> m' !! id = Some n <->
      payload_bytes <$> m !! id = Some n \/ exists e, e ∈ l /\ ex_block_id e = id /\ ex_payload_bytes e = n.
Proof.
  induction l as [|e l IH]; intros next m next' m' Hn Hm Hr; cbn in Hr.
  - injection Hr as <- <-. split; [cbn; lia|]. set_solver.
  - apply NoDup_cons in Hn as [Hne Hn]. apply IH in Hr as [Ht Hl]; [|done|].
    + rewrite cache_total_insert, delete_id in Ht by (apply Hm; by left).
      split; [unfold existing_total in *; cbn in *; lia|].
      intros id n. rewrite Hl. destruct (decide (id = ex_block_id e)) as [->|Hid].
      * rewrite lookup_insert_eq. rewrite (Hm e ltac:(by left)). cbn. split.
        -- intros [[= <-]|(e' & He' & Hi & _)]; [right; exists e; set_solver|].
           destruct Hne. apply list_elem_of_fmap. by exists e'.
        -- intros [|(e' & [->|He']%elem_of_cons & Hi & <-)]; [done|by left|].
           destruct Hne. apply list_elem_of_fmap. by exists e'.
      * rewrite lookup_insert_ne by done. set_solver.
    + intros e' He'. rewrite lookup_insert_ne; [apply Hm; by right|].
      intros Heq. apply Hne, list_elem_of_fmap. by exists e'.
Qed.

Lemma sorted_by_modified l : StronglySorted (fun x y => (ex_modified x <= ex_modified y)%N) (sort_by compare_existing l).
Proof.
  assert (TotalCmp compare_existing) as Htot.
  { apply (then_with_total _ _ (TotalCmp0 := comap_total ex_modified N.compare)
      (TotalCmp1 := comap_total (fun e => as_bytes (ex_block_id e)) bytes_cmp)). }
  induction (sort_by_sorted compare_existing l) as [|x k _ IH Hx]; [constructor|]. constructor; [done|].
  eapply Forall_impl; [exact Hx|]. intros y Hy. apply N.compare_le_iff. intros Hgt. apply Hy.
  unfold compare_existing. by rewrite Hgt.
Qed.

Lemma cache_started_inv s s' mb max l k : cache_state s = None -> checked_mul USIZE_MAX mb BYTES_PER_MB = Some max ->
  NoDup (map ex_block_id l) ->
  (forall id n, len <$> block_file s id = Some n <-> exists e, e ∈ l /\ ex_block_id e = id /\ ex_payload_bytes e = n) ->
  StronglySorted (fun x y => (ex_modified x <= ex_modified y)%N) l ->
  (existing_total (drop k l) <= max)%N -> (forall j, (j < k)%nat -> (max < existing_total (drop j l))%N) ->
  forall s1, remove_all (map ex_block_id (take k l)) s = (Ok tt, s1) ->
  forall next m, retain_entries 0 ∅ (drop k l) = (next, m) ->
  s' = with_cache s1 {| max_cache_bytes := max; resident_bytes := existing_total (drop k l);
                        next_recency := next; entries := m |} ->
  cache_inv s' /\ cache_started s s' mb.
Proof.
  intros Hnone Hmul Hnd Hfiles Hsort Hfit Hmin s1 Hrm next m Hre ->.
  unfold checked_mul in Hmul. destruct (N.leb_spec (mb * BYTES_PER_MB) USIZE_MAX) as [Hle|]; [|done].
  injection Hmul as <-.
  destruct (remove_all_ok _ _ _ _ Hrm) as (_ & Rs & Cs & Hq & Hgone & _). specialize (Hgone eq_refl).
  rewrite <-(take_drop k l), map_app in Hnd. apply NoDup_app in Hnd as (_ & Hdis & Hnd2).
  assert (forall e, e ∈ drop k l -> block_file s1 (ex_block_id e) = block_file s (ex_block_id e)) as Hkept.
  { intros e He. unfold block_file. rewrite Rs. apply Hq. intros j Hj Heq. apply block_path_inj in Heq.
    apply (Hdis _ Hj). rewrite <-Heq. apply list_elem_of_fmap. by exists e. }
  assert (forall e, e ∈ take k l -> block_file s1 (ex_block_id e) = None) as Htaken.
  { intros e He. unfold block_file. rewrite Rs. apply Hgone, list_elem_of_fmap. by exists e. }
  destruct (retain_entries_ok _ _ _ _ _ Hnd2 (fun e _ => lookup_empty _) Hre) as [Htot Hm].
  split.
  - unfold cache_inv. cbn. split_and!; [| |done|].
    + assert (mb * BYTES_PER_MB <> USIZE_MAX)%N; [|lia]. unfold BYTES_PER_MB. intros Heq.
      apply (f_equal (fun n => n mod 2)%N) in Heq. change (USIZE_MAX mod 2)%N with 1%N in Heq.
      replace (mb * 1048576)%N with (mb * 524288 * 2)%N in Heq by lia. by rewrite N.Div0.mod_mul in Heq.
    + rewrite Htot. reflexivity.
    + intros id. change (block_file (with_cache s1 _) id) with (block_file s1 id).
      apply option_eq. intros n. rewrite Hm. split.
      * intros [Hn|(e & He & <- & <-)]; [done|]. rewrite Hkept by done. apply Hfiles. exists e.
        split; [|done]. rewrite <-(take_drop k l). apply elem_of_app. by right.
      * intros Hn. right. assert (len <$> block_file s id = Some n) as Hn'.
        { destruct (block_file s1 id) as [b|] eqn:Hb; [|done]. rewrite <-Hn. f_equal.
          destruct (remove_all_ok _ _ _ _ Hrm) as (_ & _ & _ & _ & _ & Hor). unfold block_file in *. rewrite Rs in Hb.
          destruct (Hor (block_path (store_root s) id)); congruence. }
        apply Hfiles in Hn' as (e & He & <- & <-). exists e. split; [|done].
        rewrite <-(take_drop k l) in He. apply elem_of_app in He as [He|He]; [|done]. by rewrite Htaken in Hn.
  - eexists _, l, k. by split_and!.
Qed.

(** ** Properties *)

(** C38 Enumerating the filesystem store walks its two levels of directories to the end:
    it fails only when the root cannot be read, and a block identifier is among the
    items exactly when its file is reached through directories that could be listed. *)
Theorem fs_enumeration s :
  match fs_iter_block_ids s with
  | Ok items =>
      Panic ∉ items /\ forall id, Ok id ∈ items <->
        is_dir (block_path (store_root s) id) (fs s) = inr false
        /\ exists roots p, read_dir (store_root s) (fs s) = inr roots /\ p ∈ roots
           /\ reaches s 2 p (block_path (store_root s) id)
  | Err _ => exists error, read_dir (store_root s) (fs s) = inl error
  | Panic => False
  end.
Proof.
  rewrite iter_listing. destruct (read_dir (store_root s) (fs s)) as [e|roots]; [by exists e|]. split.
  - intros (l & (p & <- & _)%in_map_iff & Hl)%list_elem_of_In%in_concat.
    by apply list_elem_of_In, listing_no_panic in Hl.
  - intros id. split.
    + intros (l & (p & <- & Hp)%in_map_iff & Hl)%list_elem_of_In%in_concat.
      apply list_elem_of_In, listing_ok in Hl as [Hr Hd]. apply list_elem_of_In in Hp. eauto 6.
    + intros (Hd & roots' & p & [= <-] & Hp & Hr). apply list_elem_of_In, in_concat.
      exists (listing 2 s p). split; [apply in_map; by apply list_elem_of_In|]. by apply list_elem_of_In, listing_ok.
Qed.

(** Starting the cache mode never panics and only removes files; on success the
    store satisfies the cache invariant: every block file on disk was measured once, and
    of the blocks from the oldest on the fewest were removed that bring the rest within
    the budget. *)
Theorem fs_cache_start s max_cache_mb r s' :
  tree_ok (fs s) -> cache_state s = None -> initialize_cache_mode max_cache_mb s = (r, s') ->
  r <> Panic /\ (r = Ok tt -> cache_inv s' /\ cache_started s s' max_cache_mb)
  /\ forall q, file (fs s') q = file (fs s) q \/ file (fs s') q = None.
Proof.
  intros Ht Hnone Hi. unfold initialize_cache_mode in Hi.
  destruct (max_cache_mb =? 0)%N; cbn [negb rbind] in Hi; [injection Hi as <- <-; split_and!; [done..|by left]|].
  destruct (checked_mul USIZE_MAX max_cache_mb BYTES_PER_MB) as [max|] eqn:Hmul; cbn [ok_or rbind] in Hi;
    [|injection Hi as <- <-; split_and!; [done..|by left]].
  pose proof (scan_no_panic s) as Hsp.
  destruct (scan_existing_cache_entries s) as [existing|e|] eqn:Hscan; cbn [map_err rbind] in Hi;
    [|injection Hi as <- <-; split_and!; [done..|by left]|done].
  destruct (scan_ok _ _ Ht Hscan) as [Hnd Hfiles]. set (l := sort_by compare_existing existing) in *.
  assert (l ≡ₚ existing) as Hperm by apply sort_by_Permutation.
  pose proof (sum_existing l 0%N ltac:(done)) as Hsum.
  destruct (try_fold _ 0%N l) as [n|e|]; cbn [map_err rbind] in Hi; [|injection Hi as <- <-; split_and!; [done..|by left]|done].
  destruct Hsum as [-> _]. rewrite N.add_0_l in Hi.
  destruct (trim_oldest_ok max l) as (k & Hk & Hfit & Hmin). rewrite Hk in Hi. cbn [map_err rbind] in Hi.
  destruct (remove_all _ s) as [r1 s1] eqn:Hrm. destruct (remove_all_ok _ _ _ _ Hrm) as (Hp & _ & _ & _ & _ & Hor).
  destruct r1 as [[]|e|]; [|injection Hi as <- <-; by split_and!|done].
  destruct (retain_entries 0 ∅ (drop k l)) as [next m] eqn:Hre. injection Hi as <- <-.
  split_and!; [done| |done]. intros _. eapply (cache_started_inv s _ _ max l k); try done.
  - by rewrite Hperm.
  - intros id n. rewrite Hfiles. by setoid_rewrite Hperm.
  - apply sorted_by_modified.
Qed.
End walk.

(** ** The filesystem block store: witnesses

    A disk as a finite map from paths to contents and modification times, whose
    operations never fail except on a file that is not there or is there already,
    and concrete stores on it at which the theorems of [FsCorrect] and [FsWalk]
    apply. *)

#[export] Instance OsName_countable : Countable OsName :=
  inj_countable' (fun n => match n with Name s => inl s | NotUnicode r => inr r end)
    (fun x => match x with inl s => Name s | inr r => NotUnicode r end) ltac:(by intros []).

Notation disk := (gmap path (bytes * N)) (only parsing).

Definition missing {A} : io A := inl {| error_kind := NotFound; error_text := "not found" |}.
Definition exists_already {A} : io A := inl {| error_kind := OtherKind; error_text := "file exists" |}.

(** The entry of [p] that leads to the file [q]. *)
Definition child_towards (p q : path) : option path :=
  match strip_prefix p q with Some (n :: _) => Some (p ++ [n]) | _ => None end.
Definition children (p : path) (d : disk) : list path :=
  remove_dups (omap (child_towards p) (map fst (map_to_list d))).

#[export] Instance disk_ops : FsOps disk := {|
  staged := bytes;
  create_dir_all _ d := (inr tt, d);
  canonicalize p _ := inr p;
  is_dir p d := match d !! p with
    | Some _ => inr false
    | None => match children p d with [] => missing | _ => inr true end
    end;
  read_dir p d := inr (children p d);
  metadata p d := match d !! p with
    | Some (b, t) => inr {| file_len := len b; modified := t |} | None => missing end;
  read p d := match d !! p with Some (b, _) => inr b | None => missing end;
  remove_file p d := match d !! p with Some _ => (inr tt, delete p d) | None => (missing, d) end;
  create_staged_file _ d := (inr [], d);
  staged_write_all st b d := (inr (st ++ b), d);
  staged_flush st d := (inr st, d);
  persist_noclobber st p d := match d !! p with
    | Some _ => (exists_already, d)
    | None => (inr tt, <[p := (st, N.of_nat (size d))]> d)
    end
|}.

#[export] Program Instance disk_laws : FsLaws disk := {|
  file d p := fst <$> d !! p;
  contents st := st
|}.
Next Obligation. intros p d. cbn. destruct (d !! p) as [[b t]|]; done. Qed.
Next Obligation. done. Qed.
Next Obligation. intros p d. split; [done|]. by intros st [= <-]. Qed.
Next Obligation. intros st b d. split; [done|]. by intros st' [= <-]. Qed.
Next Obligation. intros st d. split; [done|]. by intros st' [= <-]. Qed.
Next Obligation.
  intros st p d. cbn. destruct (d !! p) as [[b t]|] eqn:E; [done|].
  rewrite lookup_insert_eq. split_and!; [done..|]. intros q Hq. by rewrite lookup_insert_ne.
Qed.
Next Obligation.
  intros p d. cbn. destruct (d !! p) as [[b t]|] eqn:E.
  - rewrite lookup_delete_eq. split; [done|]. intros q Hq. by rewrite lookup_delete_ne.
  - done.
Qed.

#[export] Program Instance cache_order : CacheOrder := {| cache_iter m := map_to_list m |}.
Next Obligation. done. Qed.

Lemma children_in p d c : c ∈ children p d <-> exists n rest, c = p ++ [n] /\ is_Some (d !! (p ++ n :: rest)).
Proof.
  unfold children. rewrite elem_of_remove_dups, list_elem_of_omap. split.
  - intros (q & Hq & Hc). apply list_elem_of_fmap in Hq as ([q' e] & -> & Hq%elem_of_map_to_list).
    cbn in *. unfold child_towards in Hc. destruct (strip_prefix p q') as [[|n rest]|] eqn:Es; [done| |done].
    injection Hc as <-. apply strip_prefix_ok in Es as ->. exists n, rest. split; [done|]. by exists e.
  - intros (n & rest & -> & e & He). exists (p ++ n :: rest). split.
    + apply list_elem_of_fmap. exists (p ++ n :: rest, e). split; [done|]. by apply elem_of_map_to_list.
    + unfold child_towards. by rewrite (proj2 (strip_prefix_ok p _ (n :: rest)) eq_refl).
Qed.

(** A disk whose files are all equally deep shows them as directories do. *)
Lemma disk_tree_ok k d : map_Forall (fun p _ => length p = k) d -> tree_ok d.
Proof.
  intros Hk. split.
  - intros p n rest b l Hf [= <-]. apply children_in. exists n, rest. split; [done|].
    cbn in Hf. destruct (d !! _) as [[? ?]|]; done.
  - intros p l [= <-]. split; [apply NoDup_remove_dups|]. intros c (n & rest & -> & _)%children_in. by exists n.
  - intros p n rest b x (e & E & _)%fmap_Some_1 Hd. cbn in Hd.
    pose proof (Hk _ _ E) as Hlen. destruct rest as [|n' rest].
    + rewrite E in Hd. by injection Hd as <-.
    + destruct (lookup (K := path) (p ++ [n]) d) as [e'|] eqn:E'.
      { apply Hk in E'. rewrite length_app in *. cbn in *. lia. }
      assert (p ++ [n; n'] ∈ children (p ++ [n]) d) as Hin.
      { apply children_in. exists n', rest. rewrite <-!app_assoc. split; [done|]. by eexists. }
      destruct (children (p ++ [n]) d); [by apply not_elem_of_nil in Hin|].
      by injection Hd as <-.
  - intros p m Hd Hm. cbn in *. destruct (d !! p) as [[b t]|]; [|done]. injection Hm as <-. by exists b.
Qed.

(** ** A store on the disk

    Blocks of three bytes in a cache with room for two of them. *)
Definition root : path := [Name "blocks"].
Definition block_bytes (n : N) : bytes := le_split 3 n.

Definition disk_of (ids : list N) : disk :=
  list_to_map (map (fun n => (block_path root (hash_of_N n), (block_bytes n, n))) ids).
Definition cache_of (max : N) (ids : list N) : CacheState :=
  {| max_cache_bytes := max; resident_bytes := 3 * len ids; next_recency := 10;
     entries := list_to_map (map (fun n => (hash_of_N n, {| payload_bytes := 3; recency := n |})) ids) |}.
Definition sample (max : N) (ids : list N) : FilesystemBlockStore disk :=
  {| store_root := root; cache_state := Some (cache_of max ids); fs := disk_of ids |}.

Definition ids12 : list N := [1; 2]%N.

Lemma sample_file n id : block_file (sample n ids12) id =
  if bool_decide (id = hash_of_N 1) then Some (block_bytes 1)
  else if bool_decide (id = hash_of_N 2) then Some (block_bytes 2) else None.
Proof.
  unfold block_file, sample, disk_of. cbn [fs store_root file disk_laws ids12 map list_to_map foldr].
  destruct (bool_decide_reflect (id = hash_of_N 1)) as [->|H1]; [by rewrite lookup_insert_eq|].
  rewrite lookup_insert_ne by (intros Heq; apply H1; symmetry; by apply block_path_inj in Heq).
  destruct (bool_decide_reflect (id = hash_of_N 2)) as [->|H2]; [by rewrite lookup_insert_eq|].
  by rewrite lookup_insert_ne by (intros Heq; apply H2; symmetry; by apply block_path_inj in Heq).
Qed.

Lemma sample_inv : cache_inv (sample 8 ids12).
Proof.
  unfold cache_inv. cbn [cache_state sample]. split_and!; [by vm_compute..|by vm_compute|].
  intros id. rewrite sample_file. unfold cache_of, ids12. cbn [entries map list_to_map foldr].
  destruct (bool_decide_reflect (id = hash_of_N 1)) as [->|H1]; [by rewrite lookup_insert_eq|].
  rewrite lookup_insert_ne by done.
  destruct (bool_decide_reflect (id = hash_of_N 2)) as [->|H2]; [by rewrite lookup_insert_eq|].
  by rewrite lookup_insert_ne.
Qed.

(** Writing a third block evicts the least recently used one. *)
Example third_write_evicts :
  (fs_put_block_bytes (hash_of_N 3) (block_bytes 3) (sample 8 ids12)).1 = Ok tt
  /\ block_file (fs_put_block_bytes (hash_of_N 3) (block_bytes 3) (sample 8 ids12)).2 (hash_of_N 1) = None
  /\ block_file (fs_put_block_bytes (hash_of_N 3) (block_bytes 3) (sample 8 ids12)).2 (hash_of_N 2) = Some (block_bytes 2).
Proof. vm_compute. done. Qed.

Lemma fs_write_exact_witness :
  let r := fs_put_block_bytes (hash_of_N 3) (block_bytes 3) (sample 8 ids12) in
  cache_inv r.2 /\ block_file r.2 (hash_of_N 3) = Some (block_bytes 3).
Proof.
  cbv zeta.
  destruct (fs_write_exact (sample 8 ids12) (hash_of_N 3) (block_bytes 3) _ _ sample_inv (surjective_pairing _))
    as (_ & Hi & _ & Hs & _).
  split; [exact Hi|]. apply Hs. vm_compute. reflexivity.
Defined.

Lemma fs_eviction_lru_witness :
  exists l k, l ≡ₚ map_to_list (delete (hash_of_N 3) (entries (cache_of 8 ids12)))
    /\ plan_evictions (cache_of 8 ids12) (hash_of_N 3) 3 = Ok (map fst (take k l)).
Proof.
  destruct (fs_eviction_lru (sample 8 ids12) (cache_of 8 ids12) (hash_of_N 3) 3 sample_inv eq_refl
    ltac:(vm_compute; discriminate)) as (l & k & Hl & _ & Hk & _).
  exists l, k. split; [exact Hl|exact Hk].
Defined.

(** A store opened on a disk with two blocks. *)
Definition plain : FilesystemBlockStore disk := {| store_root := root; cache_state := None; fs := disk_of ids12 |}.

Lemma plain_tree_ok : tree_ok (fs plain).
Proof.
  apply (disk_tree_ok 4). unfold plain, disk_of, ids12. cbn [fs map list_to_map foldr].
  repeat (apply map_Forall_insert_2; [reflexivity|]). apply map_Forall_empty.
Qed.

Lemma fs_cache_start_witness :
  exists s', initialize_cache_mode 1 plain = (Ok tt, s') /\ cache_inv s' /\ cache_started plain s' 1.
Proof.
  destruct (initialize_cache_mode 1 plain) as [r s'] eqn:Hi. exists s'.
  assert (r = Ok tt) as Hr by (transitivity (initialize_cache_mode 1 plain).1; [by rewrite Hi|vm_compute; reflexivity]).
  destruct (fs_cache_start plain 1 r s' plain_tree_ok eq_refl Hi) as (_ & Hs & _).
  split; [by rewrite Hr|]. exact (Hs Hr).
Defined.
