(* ===== verification/Clustering.v ===== *)
(** * The streaming clustering contract

    crates/lexongraph-streaming-clustering/src/lib.rs: the configuration and its
    validation, the errors, and the trainer and classifier interfaces that the
    clustering crates implement. *)
From S2P Require Import Prelude Ieee.

(** ** Configuration *)
Record BalanceConstraints := {
  min_cluster_occupancy : option N; max_cluster_occupancy : option N;
  max_cluster_size_ratio : option f64; soft_balance_penalty : option f64
}.

Record StreamingClusteringConfig := {
  cluster_count : N; dimensions : N;
  balance_constraints : option BalanceConstraints; random_seed : option N
}.

Inductive MetricDirection := LargerIsBetter | SmallerIsBetter.
Inductive TrainerState := Idle | Ingesting | PassComplete | TrainingComplete | ErrorState.
Inductive PassReadiness := AnalysisOnly | PartitionReady.
#[export] Instance TrainerState_eq_dec : EqDecision TrainerState.
Proof. solve_decision. Defined.

Record PassReport := {
  observed_count : N; requested_cluster_count : N; readiness : PassReadiness;
  realized_cluster_count : option N; quality_metric : f64; balance_metric : f64;
  quality_direction : MetricDirection; balance_direction : MetricDirection;
  cluster_ids : option (list N)
}.

(** [{state:?}] *)
Definition TrainerState_debug (s : TrainerState) : string :=
  match s with
  | Idle => "Idle" | Ingesting => "Ingesting" | PassComplete => "PassComplete"
  | TrainingComplete => "TrainingComplete" | ErrorState => "Error"
  end.

Inductive StreamingClusteringError :=
| InvalidConfiguration (message : string)
| InvalidTransition (state : TrainerState) (operation : string)
| UnsatisfiableConstraint (message : string)
| MalformedInput (message : string).

Notation outcome := (result StreamingClusteringError).

Definition StreamingClusteringError_to_string (e : StreamingClusteringError) : string :=
  match e with
  | InvalidConfiguration message => "invalid streaming clustering configuration: " +:+ message
  | InvalidTransition state operation =>
      "invalid streaming clustering transition: cannot call " +:+ operation +:+ " while in "
      +:+ TrainerState_debug state
  | UnsatisfiableConstraint message => "unsatisfiable streaming clustering constraint: " +:+ message
  | MalformedInput message => "malformed streaming clustering input: " +:+ message
  end%stdpp.

(** ** Validation *)
Definition is_some_zero (o : option N) : bool := match o with Some n => (n =? 0)%N | None => false end.

(** The checks of [validate_config] on the balance constraints. *)
Definition validate_constraints (constraints : BalanceConstraints) : result StreamingClusteringError unit :=
  guard? negb (is_some_zero (min_cluster_occupancy constraints)) else
    InvalidConfiguration "min_cluster_occupancy must be positive when provided" in
  guard? negb (is_some_zero (max_cluster_occupancy constraints)) else
    InvalidConfiguration "max_cluster_occupancy must be positive when provided" in
  guard? match min_cluster_occupancy constraints, max_cluster_occupancy constraints with
         | Some min, Some max => negb (max <? min)%N
         | _, _ => true end else
    InvalidConfiguration "min_cluster_occupancy cannot exceed max_cluster_occupancy" in
  guard? match max_cluster_size_ratio constraints with
         | Some ratio => f64_is_finite ratio && negb (fleb binary64 ratio 0)
         | None => true end else
    InvalidConfiguration "max_cluster_size_ratio must be finite and positive" in
  guard? match soft_balance_penalty constraints with
         | Some penalty => f64_is_finite penalty && negb (fltb binary64 penalty 0)
         | None => true end else
    InvalidConfiguration "soft_balance_penalty must be finite and non-negative" in
  Ok tt.

Definition validate_config (config : StreamingClusteringConfig) : result StreamingClusteringError unit :=
  guard? negb (cluster_count config =? 0)%N else InvalidConfiguration "cluster_count must be positive" in
  guard? negb (dimensions config =? 0)%N else InvalidConfiguration "dimensions must be positive" in
  match balance_constraints config with
  | Some constraints => validate_constraints constraints
  | None => Ok tt
  end.

Definition validate_embedding (embedding : list f32) (dimensions : N) : result StreamingClusteringError unit :=
  guard? (len embedding =? dimensions)%N else
    MalformedInput ("expected embedding dimensionality " +:+ pretty dimensions +:+ ", got "
      +:+ pretty (len embedding))%stdpp in
  guard? negb (existsb (fun value => negb (f32_is_finite value)) embedding) else
    MalformedInput "embeddings must not contain NaN or infinite values" in
  Ok tt.

(** ** Interfaces

    A method of [&mut self] is a function to a result and the object after it. *)
Class StreamingClusterClassifier (C : Type) := {
  classifier_config : C -> StreamingClusteringConfig;
  assign : C -> list f32 -> result StreamingClusteringError N
}.

(** The provided methods [realized_cluster_count] and [assign_batch]. *)
Definition classifier_realized_count {C} `{StreamingClusterClassifier C} (c : C) : N :=
  cluster_count (classifier_config c).
Definition assign_batch {C} `{StreamingClusterClassifier C} (c : C) (embeddings : list (list f32))
  : result StreamingClusteringError (list N) := collect_map (assign c) embeddings.

Class StreamingClusterTrainer (T C : Type) := {
  trainer_config : T -> StreamingClusteringConfig;
  trainer_state : T -> TrainerState;
  ingest_batch : list (list f32) -> T -> result StreamingClusteringError unit * T;
  finish_pass : T -> result StreamingClusteringError PassReport * T;
  complete_training : T -> result StreamingClusteringError unit * T;
  into_classifier : T -> result StreamingClusteringError C
}.

(** ** Sequences of calls on a trainer *)
Inductive call := Ingest (embeddings : list (list f32)) | FinishPass | CompleteTraining.

Definition batch_size (c : call) : N := match c with Ingest embeddings => len embeddings | _ => 0 end.
Definition total_size (cs : list call) : N := fold_right (fun c n => batch_size c + n)%N 0%N cs.

Section calls.
Context {T C : Type} `{StreamingClusterTrainer T C}.

Definition perform (c : call) (t : T) : outcome unit * T :=
  match c with
  | Ingest embeddings => ingest_batch embeddings t
  | FinishPass => let '(r, t) := finish_pass t in (rmap (fun _ => tt) r, t)
  | CompleteTraining => complete_training t
  end.

Fixpoint run_calls (cs : list call) (t : T) : list (outcome unit) * T :=
  match cs with
  | [] => ([], t)
  | c :: cs' => let '(r, t) := perform c t in let '(rs, t) := run_calls cs' t in (r :: rs, t)
  end.

(** An invariant with bounds on the items of the pass and the passes: what one call
    keeps, all keep. *)
Lemma run_calls_keep (inv : T -> Prop) (items passes : T -> N) (bound : N -> N -> Prop) :
  (forall n p n' p', bound n' p' -> n <= n' -> p <= p' -> bound n p)%N ->
  (forall c t, inv t -> bound (items t) (passes t + 1)%N ->
    no_panic (perform c t).1 /\ inv (perform c t).2
    /\ (items (perform c t).2 <= items t + batch_size c)%N /\ (passes (perform c t).2 <= passes t + 1)%N) ->
  forall cs t, inv t -> bound (items t + total_size cs)%N (passes t + len cs)%N ->
  Forall no_panic (run_calls cs t).1 /\ inv (run_calls cs t).2
  /\ (items (run_calls cs t).2 <= items t + total_size cs)%N /\ (passes (run_calls cs t).2 <= passes t + len cs)%N.
Proof.
  intros Hmono Hstep cs. induction cs as [|c cs IH]; intros t Ht Hb.
  { cbn. unfold len. cbn. split_and!; [constructor|done|lia..]. }
  change (total_size (c :: cs)) with (batch_size c + total_size cs)%N in *.
  assert (len (c :: cs) = 1 + len cs)%N as Hlen by (unfold len; cbn [length]; lia). rewrite Hlen in *. cbn [run_calls].
  destruct (Hstep c t Ht) as (Hp & Hok & Hi & Hq); [by eapply Hmono; [exact Hb|lia..]|].
  destruct (perform c t) as [r t1]. cbn [fst snd] in *.
  destruct (IH t1 Hok) as (Hf & Hok' & Hi' & Hq'); [by eapply Hmono; [exact Hb|lia..]|].
  destruct (run_calls cs t1) as [rs t2]. cbn [fst snd] in *. split_and!; [by constructor|done|lia..].
Qed.

(** A state in which every call fails. *)
Lemma run_calls_stuck (stuck : T -> Prop) :
  (forall c t, stuck t -> (exists e, (perform c t).1 = Err e) /\ stuck (perform c t).2) ->
  forall cs t, stuck t -> Forall (fun r => exists e, r = Err e) (run_calls cs t).1 /\ stuck (run_calls cs t).2.
Proof.
  intros Hs cs. induction cs as [|c cs IH]; intros t Ht; cbn [run_calls]; [done|].
  destruct (Hs c t Ht) as [He Ht1]. destruct (perform c t) as [r t1]. cbn [fst snd] in *.
  destruct (IH t1 Ht1) as [Hf Ht2]. destruct (run_calls cs t1) as [rs t2]. cbn [fst snd] in *. split; [by constructor|done].
Qed.
End calls.

(** ** What validation leaves, and the shape of a pass *)
Lemma validate_embedding_ok e d : returns (fun _ => length e = N.to_nat d) (validate_embedding e d).
Proof.
  unfold validate_embedding. apply returns_guard. intros Hl%N.eqb_eq. unfold len in Hl. apply returns_guard.
  intros _. cbn. lia.
Qed.

Lemma valid_positive config : validate_config config = Ok tt ->
  (1 <= cluster_count config)%N /\ (1 <= default 1 (balance_constraints config ≫= min_cluster_occupancy))%N.
Proof.
  intros Hv. unfold validate_config in Hv. inv_ok. apply negb_true_iff, N.eqb_neq in Hb. split; [lia|].
  destruct (balance_constraints config) as [cs|]; cbn; [|lia]. unfold validate_constraints in Hv. inv_ok.
  destruct (min_cluster_occupancy cs) as [m|]; cbn in *; [|lia]. apply negb_true_iff, N.eqb_neq in Hb1. lia.
Qed.

(** [n] vectors of dimension [d] *)
Definition dense (n d : nat) (vs : list (list f64)) : Prop :=
  length vs = n /\ Forall (fun v => length v = d) vs.

Lemma dense_lookup n d vs i : dense n d vs -> (i < n)%nat -> exists v, vs !! i = Some v /\ length v = d.
Proof.
  intros [Hl Hf] Hi. destruct (lookup_lt_is_Some_2 vs i) as [v Hv]; [lia|]. exists v. split; [done|].
  by apply (proj1 (Forall_lookup _ _) Hf i).
Qed.

Lemma dense_app n m d vs ws : dense n d vs -> dense m d ws -> dense (n + m) d (vs ++ ws).
Proof. intros [Hl Hf] [Hl' Hf']. split; [rewrite length_app; lia|by apply Forall_app]. Qed.

Lemma dense_one d v : length v = d -> dense 1 d [v].
Proof. intros Hv. split; [done|by constructor]. Qed.

(** The number of points in a cluster. *)
Fixpoint occupancy (c : nat) (a : list nat) : N :=
  match a with [] => 0 | x :: a' => (if decide (x = c) then 1 else 0) + occupancy c a' end.
