(* ===== verification/MinCostFlow.v ===== *)
(** * The minimum-cost flow

    [MinCostFlow] of crates/lexongraph-dcbc-streaming/src/solver.rs: a residual
    graph as adjacency lists whose edges point at their reverse edges, and
    successive augmentation along shortest paths found by Bellman-Ford rounds over
    floating-point costs. Node and edge indices are [nat]; a capacity is a [usize]
    as [N], whose subtraction and addition are checked. An entry [usize::MAX] of
    the predecessor arrays is [None]. *)
From S2P Require Import Prelude Ieee Clustering.

Record Edge := MkEdge { edge_to : nat; edge_rev : nat; capacity : N; cost : f64 }.

(** [MinCostFlow] with its one field *)
Notation MinCostFlow := (list (list Edge)) (only parsing).

Definition constraint_error (message : string) : StreamingClusteringError := UnsatisfiableConstraint message.
Definition EPSILON : f64 := 4427486594234968593.

(** [MinCostFlow::new] *)
Definition flow_new (node_count : nat) : MinCostFlow := replicate node_count [].

(** [push] on the list of a node; an unknown node is a panic. *)
Definition push_edge (node : nat) (e : Edge) (g : MinCostFlow) : result StreamingClusteringError MinCostFlow :=
  let? edges := expect (g !! node) in Ok (<[node := edges ++ [e]]> g).

Definition add_edge (from to : nat) (capacity : N) (cost : f64) (g : MinCostFlow)
  : result StreamingClusteringError MinCostFlow :=
  let? to_edges := expect (g !! to) in
  let? from_edges := expect (g !! from) in
  let? g := push_edge from (MkEdge to (length to_edges) capacity cost) g in
  push_edge to (MkEdge from (length from_edges) 0 (fneg binary64 cost)) g.

(** ** Shortest paths *)
Record Labels := { dist : list f64; prev_node : list (option nat); prev_edge : list (option nat) }.

Definition initial_labels (node_count source : nat) : Labels :=
  {| dist := <[source := 0%N]> (replicate node_count f64_infinity);
     prev_node := replicate node_count None; prev_edge := replicate node_count None |}.

(** The body of the innermost loop: the labels, and whether one changed. *)
Definition relax_edge (source node edge_index : nat) (edge : Edge) (st : Labels * bool)
  : result StreamingClusteringError (Labels * bool) :=
  let '(l, updated) := st in
  if (capacity edge =? 0)%N || (edge_to edge =? source)%nat then Ok st
  else
    let? d := expect (dist l !! node) in
    let candidate := fadd binary64 d (cost edge) in
    let? dt := expect (dist l !! edge_to edge) in
    if fltb binary64 (fadd binary64 candidate EPSILON) dt
    then Ok ({| dist := <[edge_to edge := candidate]> (dist l);
                prev_node := <[edge_to edge := Some node]> (prev_node l);
                prev_edge := <[edge_to edge := Some edge_index]> (prev_edge l) |}, true)
    else Ok st.

Fixpoint relax_edges (source node edge_index : nat) (edges : list Edge) (st : Labels * bool)
  : result StreamingClusteringError (Labels * bool) :=
  match edges with
  | [] => Ok st
  | edge :: edges' =>
      let? st := relax_edge source node edge_index edge st in
      relax_edges source node (S edge_index) edges' st
  end.

Definition relax_node (g : MinCostFlow) (source : nat) (st : Labels * bool) (node : nat)
  : result StreamingClusteringError (Labels * bool) :=
  let? d := expect (dist st.1 !! node) in
  if negb (f64_is_finite d) then Ok st
  else let? edges := expect (g !! node) in relax_edges source node 0 edges st.

(** The rounds; one that changes nothing is the last. *)
Fixpoint relax_rounds (rounds : nat) (g : MinCostFlow) (source : nat) (l : Labels)
  : result StreamingClusteringError Labels :=
  match rounds with
  | O => Ok l
  | S rounds' =>
      let? '(l, updated) := try_fold (relax_node g source) (l, false) (seq 0 (length g)) in
      if updated then relax_rounds rounds' g source l else Ok l
  end.

(** An edge that could still shorten a distance. *)
Definition improves (l : Labels) (d : f64) (edge : Edge) : result StreamingClusteringError unit :=
  if (capacity edge =? 0)%N then Ok tt
  else
    let? dt := expect (dist l !! edge_to edge) in
    guard? negb (fltb binary64 (fadd binary64 (fadd binary64 d (cost edge)) EPSILON) dt) else
      constraint_error "negative-cost residual cycle detected in assignment solver" in
    Ok tt.

Definition check_node (g : MinCostFlow) (l : Labels) (node : nat) : result StreamingClusteringError unit :=
  let? d := expect (dist l !! node) in
  if negb (f64_is_finite d) then Ok tt
  else let? edges := expect (g !! node) in try_fold (fun _ edge => improves l d edge) tt edges.

Definition check_no_negative_cycle (g : MinCostFlow) (l : Labels) : result StreamingClusteringError unit :=
  try_fold (fun _ node => check_node g l node) tt (seq 0 (length g)).

(** ** Augmentation *)
Definition cyclic_error : StreamingClusteringError :=
  constraint_error "assignment solver predecessor chain became cyclic".

Definition edge_at (g : MinCostFlow) (node edge_index : nat) : option Edge :=
  g !! node ≫= fun edges => edges !! edge_index.

(** [graph[node][edge_index].capacity = capacity] *)
Definition set_capacity (node edge_index : nat) (c : N) (g : MinCostFlow) : MinCostFlow :=
  alter (alter (fun e => MkEdge (edge_to e) (edge_rev e) c (cost e)) edge_index) node g.

(** The predecessor of a node and the index of the edge that leads from it. *)
Definition predecessor (l : Labels) (node : nat) : result StreamingClusteringError (nat * nat) :=
  let? parent := expect (mjoin (prev_node l !! node)) in
  let? edge_index := expect (mjoin (prev_edge l !! node)) in
  Ok (parent, edge_index).

(** The first walk back from the sink: the least capacity. [budget] is
    [node_count] minus [steps]. *)
Fixpoint bottleneck (budget : nat) (g : MinCostFlow) (l : Labels) (source node : nat) (augment : N)
  : result StreamingClusteringError N :=
  if (node =? source)%nat then Ok augment
  else
    match budget with
    | O => Err cyclic_error
    | S budget' =>
        let? '(parent, edge_index) := predecessor l node in
        let? edge := expect (edge_at g parent edge_index) in
        bottleneck budget' g l source parent (N.min augment (capacity edge))
    end.

(** One step of the second walk: from an edge to its reverse edge. *)
Definition push_flow (augment : N) (node parent edge_index : nat) (g : MinCostFlow)
  : result StreamingClusteringError MinCostFlow :=
  let? edge := expect (edge_at g parent edge_index) in
  let? c := expect (checked_sub (capacity edge) augment) in
  let g := set_capacity parent edge_index c g in
  let? reverse := expect (edge_at g node (edge_rev edge)) in
  let? c := expect (checked_add USIZE_MAX (capacity reverse) augment) in
  Ok (set_capacity node (edge_rev edge) c g).

Fixpoint augment_path (budget : nat) (l : Labels) (source node : nat) (augment : N) (g : MinCostFlow)
  : result StreamingClusteringError MinCostFlow :=
  if (node =? source)%nat then Ok g
  else
    match budget with
    | O => Err cyclic_error
    | S budget' =>
        let? '(parent, edge_index) := predecessor l node in
        let? g := push_flow augment node parent edge_index g in
        augment_path budget' l source parent augment g
    end.

(** The body of the [while] loop: [None] for its [break]. *)
Definition augment_once (source sink : nat) (target_flow sent : N) (g : MinCostFlow)
  : result StreamingClusteringError (option (N * MinCostFlow)) :=
  let n := length g in
  let? l := relax_rounds (n - 1) g source (initial_labels n source) in
  let? p := expect (prev_node l !! sink) in
  match p with
  | None => Ok None
  | Some _ =>
      let? _ := check_no_negative_cycle g l in
      let? augment := bottleneck n g l source sink (target_flow - sent) in
      let? g := augment_path n l source sink augment g in
      Ok (Some ((sent + augment)%N, g))
  end.

(** [send_flow]; every round of the loop sends at least one unit, so that the
    target bounds the rounds. *)
Fixpoint send_loop (fuel : nat) (source sink : nat) (target_flow sent : N) (g : MinCostFlow)
  : result StreamingClusteringError (N * MinCostFlow) :=
  if (sent <? target_flow)%N then
    match fuel with
    | O => Panic
    | S fuel' =>
        let? step := augment_once source sink target_flow sent g in
        match step with
        | None => Ok (sent, g)
        | Some (sent, g) => send_loop fuel' source sink target_flow sent g
        end
    end
  else Ok (sent, g).
Definition send_flow (source sink : nat) (target_flow : N) (g : MinCostFlow)
  : result StreamingClusteringError (N * MinCostFlow) :=
  send_loop (N.to_nat target_flow) source sink target_flow 0 g.
