(* ===== verification/DcbcSolver.v ===== *)
(** * The capacity-bounded assignment

    crates/lexongraph-dcbc-streaming/src/solver.rs: the assignment subproblem with
    some points fixed, as a minimum-cost flow, and the greedy search for the
    lexicographically first assignment of optimal cost. Indices of points and
    clusters are [nat]; an entry [usize::MAX] of an assignment is [None]. *)
From S2P Require Import Prelude Ieee Clustering MinCostFlow.


(** 8.0 *)
Definition OPTIONAL_CAPACITY_PENALTY : f64 := f_of_Z binary64 8.

(** [costs_equal], [assignment_cost] of lib.rs *)
Definition costs_equal (left right : f64) : bool :=
  fltb binary64 (fabs binary64 (fsub binary64 left right)) EPSILON.

Definition cost_offset (point_index cluster_count cluster_index : nat) : option N :=
  match checked_mul USIZE_MAX (N.of_nat point_index) (N.of_nat cluster_count) with
  | Some value => checked_add USIZE_MAX value (N.of_nat cluster_index)
  | None => None
  end.

Fixpoint assignment_cost_from (distances : list f64) (cluster_count point_index : nat) (total : f64)
  (assignment : list nat) : outcome f64 :=
  match assignment with
  | [] => Ok total
  | cluster_index :: rest =>
      let? offset := ok_or (cost_offset point_index cluster_count cluster_index)
        (constraint_error "assignment cost indexing overflowed") in
      let? distance := ok_or (distances !! N.to_nat offset)
        (constraint_error "assignment referenced a missing distance entry") in
      assignment_cost_from distances cluster_count (S point_index) (fadd binary64 total distance) rest
  end.
Definition assignment_cost (distances : list f64) (cluster_count : nat) (assignment : list nat) : outcome f64 :=
  assignment_cost_from distances cluster_count 0 0%N assignment.

(** [SubproblemSolution] *)
Record SubproblemSolution := { true_cost : f64 }.

(** ** The subproblem *)

(** The loop over [fixed]: the points committed to each cluster, and the points
    that are free; [None] for an early [return Ok(None)]. *)
Fixpoint commit_fixed (cluster_count : nat) (max_cluster_size : N) (point_index : nat)
  (fixed : list (option nat)) (committed : list N) (remaining_points : list nat)
  : outcome (option (list N * list nat)) :=
  match fixed with
  | [] => Ok (Some (committed, remaining_points))
  | None :: rest =>
      commit_fixed cluster_count max_cluster_size (S point_index) rest committed
        (remaining_points ++ [point_index])
  | Some cluster_index :: rest =>
      if (cluster_index <? cluster_count)%nat then
        let? before := expect (committed !! cluster_index) in
        let? count := expect (checked_add USIZE_MAX before 1) in
        if (max_cluster_size <? count)%N then Ok None
        else commit_fixed cluster_count max_cluster_size (S point_index) rest
               (<[cluster_index := count]> committed) remaining_points
      else Ok None
  end.

(** The remaining bounds of the clusters, with their sums. *)
Fixpoint remaining_bounds (min_cluster_size max_cluster_size : N) (committed : list N)
  (required available : N) : outcome (option (list (N * N) * N * N)) :=
  match committed with
  | [] => Ok (Some ([], required, available))
  | count :: rest =>
      let lower := saturating_sub min_cluster_size count in
      let upper := saturating_sub max_cluster_size count in
      if (upper <? lower)%N then Ok None
      else
        let? required := expect (checked_add USIZE_MAX required lower) in
        let? available := expect (checked_add USIZE_MAX available upper) in
        let? o := remaining_bounds min_cluster_size max_cluster_size rest required available in
        Ok match o with
           | Some (bounds, required, available) => Some ((lower, upper) :: bounds, required, available)
           | None => None
           end
  end.

(** The edges of the free points, point by point. *)
Definition add_point (distances : list f64) (cluster_count cluster_base : nat) (g : MinCostFlow)
  (point : nat * nat) : outcome MinCostFlow :=
  let '(point_offset, point_index) := point in
  let point_node := (1 + point_offset)%nat in
  let? g := add_edge 0 point_node 1 0%N g in
  try_fold (fun g cluster_index =>
    let? cost := expect (distances !! (point_index * cluster_count + cluster_index)%nat) in
    add_edge point_node (cluster_base + cluster_index) 1 cost g) g (seq 0 cluster_count).

(** The edges of a cluster to the sink. *)
Definition add_cluster (cluster_base sink : nat) (g : MinCostFlow) (cluster : nat * (N * N))
  : outcome MinCostFlow :=
  let '(cluster_index, (lower, upper)) := cluster in
  let cluster_node := (cluster_base + cluster_index)%nat in
  let? g := (if (0 <? lower)%N then add_edge cluster_node sink lower 0%N g else Ok g) in
  let? optional_capacity := expect (checked_sub upper lower) in
  if (0 <? optional_capacity)%N
  then add_edge cluster_node sink optional_capacity OPTIONAL_CAPACITY_PENALTY g
  else Ok g.

Definition build_flow (distances : list f64) (cluster_count : nat) (remaining_points : list nat)
  (bounds : list (N * N)) : outcome MinCostFlow :=
  let cluster_base := (1 + length remaining_points)%nat in
  let sink := (cluster_base + cluster_count)%nat in
  let? g := try_fold (add_point distances cluster_count cluster_base) (flow_new (sink + 1))
    (imap pair remaining_points) in
  try_fold (add_cluster cluster_base sink) g (imap pair bounds).

(** The cluster whose edge carries the point's unit of flow. *)
Fixpoint assigned_cluster (g : MinCostFlow) (cluster_base sink : nat) (edges : list Edge)
  : outcome (option nat) :=
  match edges with
  | [] => Ok None
  | edge :: rest =>
      if (edge_to edge <? cluster_base)%nat || (sink <=? edge_to edge)%nat
      then assigned_cluster g cluster_base sink rest
      else
        let? reverse := expect (edge_at g (edge_to edge) (edge_rev edge)) in
        if (capacity reverse =? 1)%N then Ok (Some (edge_to edge - cluster_base)%nat)
        else assigned_cluster g cluster_base sink rest
  end.

(** The loop over the free points: [None] when one has no cluster. *)
Fixpoint read_assignment (g : MinCostFlow) (cluster_base sink : nat) (points : list (nat * nat))
  (assignment : list (option nat)) : outcome (option (list (option nat))) :=
  match points with
  | [] => Ok (Some assignment)
  | (point_offset, point_index) :: rest =>
      let? edges := expect (g !! (1 + point_offset)%nat) in
      let? o := assigned_cluster g cluster_base sink edges in
      match o with
      | None => Ok None
      | Some cluster_index =>
          let? _ := expect (assignment !! point_index) in
          read_assignment g cluster_base sink rest (<[point_index := Some cluster_index]> assignment)
      end
  end.

Definition solve_subproblem (distances : list f64) (point_count cluster_count : nat)
  (min_cluster_size max_cluster_size : N) (fixed : list (option nat))
  : outcome (option SubproblemSolution) :=
  let? committed := commit_fixed cluster_count max_cluster_size 0 fixed (replicate cluster_count 0%N) [] in
  match committed with
  | None => Ok None
  | Some (committed, remaining_points) =>
      let? o := remaining_bounds min_cluster_size max_cluster_size committed 0 0 in
      match o with
      | None => Ok None
      | Some (bounds, required_assignments, available_assignments) =>
          let remaining := len remaining_points in
          if (remaining <? required_assignments)%N || (available_assignments <? remaining)%N then Ok None
          else
            let cluster_base := (1 + length remaining_points)%nat in
            let sink := (cluster_base + cluster_count)%nat in
            let? g := build_flow distances cluster_count remaining_points bounds in
            let? '(sent, g) := send_flow 0 sink remaining g in
            if negb (sent =? remaining)%N then Ok None
            else
              (* the vector of [usize::MAX] with the fixed entries copied in is [fixed] *)
              let? o := read_assignment g cluster_base sink (imap pair remaining_points) fixed in
              match o ≫= mapM id with
              | None => Ok None
              | Some assignment =>
                  let? total := assignment_cost distances cluster_count assignment in
                  Ok (Some {| true_cost := total |})
              end
      end
  end.

(** ** The lexicographic search *)
Section search.
Variables (distances : list f64) (point_count cluster_count : nat) (min_cluster_size max_cluster_size : N).

(** The loop over the clusters of one point: the first whose cost is optimal. *)
Fixpoint choose_cluster (optimal_cost : f64) (fixed : list (option nat)) (point_index : nat)
  (clusters : list nat) : outcome (option nat) :=
  match clusters with
  | [] => Ok None
  | cluster_index :: rest =>
      let? candidate := solve_subproblem distances point_count cluster_count min_cluster_size
        max_cluster_size (<[point_index := Some cluster_index]> fixed) in
      match candidate with
      | Some solution =>
          if costs_equal (true_cost solution) optimal_cost then Ok (Some cluster_index)
          else choose_cluster optimal_cost fixed point_index rest
      | None => choose_cluster optimal_cost fixed point_index rest
      end
  end.

Definition not_preserved_error : StreamingClusteringError :=
  constraint_error "the assignment solver could not preserve the lexicographically minimal optimum".

(** One point of the outer loop. *)
Definition fix_point (optimal_cost : f64) (fixed : list (option nat)) (point_index : nat)
  : outcome (list (option nat)) :=
  let? chosen := choose_cluster optimal_cost fixed point_index (seq 0 cluster_count) in
  let? cluster_index := ok_or chosen not_preserved_error in
  Ok (<[point_index := Some cluster_index]> fixed).

Definition solve_lexicographic_assignment : outcome (list nat) :=
  let fixed := replicate point_count None in
  let? optimal := solve_subproblem distances point_count cluster_count min_cluster_size max_cluster_size fixed in
  let? optimal := ok_or optimal
    (constraint_error "the assignment solver could not produce a feasible assignment") in
  let? fixed := try_fold (fix_point (true_cost optimal)) fixed (seq 0 point_count) in
  ok_or (mapM id fixed) (constraint_error "the assignment solver failed to finalize all assignments").
End search.
