(* ===== verification/FlowCorrect.v ===== *)
(** * The minimum-cost flow: the properties

    Whatever the costs are, sending flow ends, stays within the arrays, never
    overflows a capacity, and conserves flow: an edge and its reverse keep their
    total capacity, and a node other than the source and the sink keeps the total
    capacity of its edges.

    Then: the network of the assignment subproblem. *)
From S2P Require Import Prelude Ieee Clustering MinCostFlow DcbcSolver.

(** ** Specification *)
Definition edge_shape (e : Edge) : nat * nat * f64 := (edge_to e, edge_rev e, cost e).
Definition cap_at (g : MinCostFlow) (u i : nat) : N :=
  match edge_at g u i with Some e => capacity e | None => 0%N end.

(** The capacity of an edge with that of its reverse. *)
Definition pair_sum (g : MinCostFlow) (u i : nat) : N :=
  match edge_at g u i with
  | Some e => (capacity e + cap_at g (edge_to e) (edge_rev e))%N
  | None => 0%N
  end.

(** The residual capacity out of a node. *)
Fixpoint edges_total (edges : list Edge) : Z :=
  match edges with [] => 0 | e :: rest => Z.of_N (capacity e) + edges_total rest end.
Definition node_total (g : MinCostFlow) (u : nat) : Z := edges_total (default [] (g !! u)).

(** Every edge has a reverse edge that points back, and the two fit in a [usize]. *)
Definition residual_ok (g : MinCostFlow) : Prop :=
  forall u i e, edge_at g u i = Some e ->
  (edge_to e < length g)%nat /\ edge_to e <> u /\ (pair_sum g u i <= USIZE_MAX)%N
  /\ exists r, edge_at g (edge_to e) (edge_rev e) = Some r /\ edge_to r = u /\ edge_rev r = i.

(** The same edges with other capacities, pair by pair of the same total. *)
Definition same_net (g g' : MinCostFlow) : Prop :=
  length g' = length g
  /\ (forall u i, edge_shape <$> edge_at g' u i = edge_shape <$> edge_at g u i)
  /\ forall u i, pair_sum g' u i = pair_sum g u i.

(** [a] more units go from [source] to [sink]. *)
Definition moved (g g' : MinCostFlow) (source sink : nat) (a : Z) : Prop :=
  forall w, node_total g' w = (node_total g w + (if decide (w = sink) then a else 0)
                               - (if decide (w = source) then a else 0))%Z.

(** ** Capacities *)
Lemma edge_at_lt g u i e : edge_at g u i = Some e -> (u < length g)%nat.
Proof. unfold edge_at. intros (es & Hu & _)%bind_Some. by apply lookup_lt_Some in Hu. Qed.

Lemma set_capacity_length u i c g : length (set_capacity u i c g) = length g.
Proof. apply length_alter. Qed.

Lemma edge_at_set_eq g u i c e :
  edge_at g u i = Some e -> edge_at (set_capacity u i c g) u i = Some (MkEdge (edge_to e) (edge_rev e) c (cost e)).
Proof.
  unfold edge_at, set_capacity. intros (es & Hu & Hi)%bind_Some. rewrite list_lookup_alter_eq, Hu. cbn.
  by rewrite list_lookup_alter_eq, Hi.
Qed.

Lemma edge_at_set_ne g u i c v j : (u, i) <> (v, j) -> edge_at (set_capacity u i c g) v j = edge_at g v j.
Proof.
  unfold edge_at, set_capacity. intros Hne. destruct (decide (u = v)) as [<-|Huv].
  - rewrite list_lookup_alter_eq. destruct (g !! u) as [es|]; [|done]. cbn.
    apply list_lookup_alter_ne. congruence.
  - by rewrite list_lookup_alter_ne.
Qed.

Lemma edges_total_alter es i c e : es !! i = Some e ->
  edges_total (alter (fun e => MkEdge (edge_to e) (edge_rev e) c (cost e)) i es)
  = (edges_total es - Z.of_N (capacity e) + Z.of_N c)%Z.
Proof.
  revert i. induction es as [|x es IH]; intros [|i] Hi; [done|done| |]; cbn in *.
  - injection Hi as ->. lia.
  - rewrite IH by done. lia.
Qed.

Lemma node_total_set g u i c e w : edge_at g u i = Some e ->
  node_total (set_capacity u i c g) w
  = (node_total g w + (if decide (w = u) then Z.of_N c - Z.of_N (capacity e) else 0))%Z.
Proof.
  unfold edge_at, node_total, set_capacity. intros (es & Hu & Hi)%bind_Some. destruct (decide (w = u)) as [->|Hw].
  - rewrite list_lookup_alter_eq, Hu. cbn. rewrite (edges_total_alter _ _ _ _ Hi). lia.
  - rewrite list_lookup_alter_ne by done. lia.
Qed.

(** ** Nets *)
#[export] Instance same_net_preorder : PreOrder same_net.
Proof.
  split; [done|]. intros g1 g2 g3 (L1 & S1 & P1) (L2 & S2 & P2).
  split_and!; [congruence|intros; by rewrite S2|intros; by rewrite P2].
Qed.

Lemma same_net_edge g g' u i e : same_net g g' -> edge_at g u i = Some e ->
  exists e', edge_at g' u i = Some e' /\ edge_to e' = edge_to e /\ edge_rev e' = edge_rev e.
Proof.
  intros (_ & Hs & _) He. specialize (Hs u i). rewrite He in Hs.
  destruct (edge_at g' u i) as [e'|]; [|done]. injection Hs as H1 H2 _. eauto.
Qed.

Lemma same_net_ok g g' : same_net g g' -> residual_ok g -> residual_ok g'.
Proof.
  intros Hn Hok u i e' He'. pose proof Hn as (Hl & Hs & Hp). specialize (Hs u i). rewrite He' in Hs.
  destruct (edge_at g u i) as [e|] eqn:He; [|done]. injection Hs as -> -> _.
  destruct (Hok u i e He) as (Hlt & Hne & Hsum & r & Hr & Hto & Hrev).
  destruct (same_net_edge _ _ _ _ _ Hn Hr) as (r' & Hr' & Hto' & Hrev').
  rewrite Hl, Hp. split_and!; [done..|]. exists r'. split_and!; congruence.
Qed.

(** Pushing flow over one edge. *)
Lemma push_flow_ok g a v p i e : residual_ok g -> edge_at g p i = Some e -> edge_to e = v -> (a <= capacity e)%N ->
  exists g', push_flow a v p i g = Ok g' /\ same_net g g' /\ moved g g' p v (Z.of_N a)
  /\ forall w j, (w, j) <> (p, i) -> (cap_at g w j <= cap_at g' w j)%N.
Proof.
  intros Hok He <- Ha. destruct (Hok p i e He) as (Hlt & Hne & Hsum & r & Hr & Hto & Hrev).
  unfold pair_sum, cap_at in Hsum. rewrite He, Hr in Hsum.
  assert ((p, i) <> (edge_to e, edge_rev e)) as Hd by congruence.
  unfold push_flow. rewrite He. cbn [expect rbind]. unfold checked_sub. rewrite (proj2 (N.leb_le a (capacity e)) Ha).
  cbn [expect rbind]. rewrite edge_at_set_ne, Hr by done. cbn [expect rbind].
  unfold checked_add. rewrite (proj2 (N.leb_le _ _)) by lia. cbn [expect rbind].
  set (g1 := set_capacity p i (capacity e - a) g). eexists. split; [reflexivity|].
  assert (edge_at g1 (edge_to e) (edge_rev e) = Some r) as Hr1 by (unfold g1; by rewrite edge_at_set_ne).
  set (g2 := set_capacity (edge_to e) (edge_rev e) (capacity r + a) g1).
  assert (edge_at g2 p i = Some (MkEdge (edge_to e) (edge_rev e) (capacity e - a) (cost e))) as Ee
    by (unfold g2; rewrite edge_at_set_ne by congruence; by apply edge_at_set_eq).
  assert (edge_at g2 (edge_to e) (edge_rev e) = Some (MkEdge (edge_to r) (edge_rev r) (capacity r + a) (cost r))) as Er
    by by apply edge_at_set_eq.
  assert (forall u j, (u, j) <> (p, i) -> (u, j) <> (edge_to e, edge_rev e) -> edge_at g2 u j = edge_at g u j) as Eo
    by (intros u j H1 H2; unfold g2, g1; by rewrite !edge_at_set_ne).
  fold g2. unfold same_net. split_and!.
  - unfold g2, g1. by rewrite !set_capacity_length.
  - intros u j. destruct (decide ((u, j) = (p, i))) as [[= -> ->]|H1]; [by rewrite Ee, He|].
    destruct (decide ((u, j) = (edge_to e, edge_rev e))) as [[= -> ->]|H2]; [by rewrite Er, Hr|]. by rewrite Eo.
  - intros u j. unfold pair_sum.
    destruct (decide ((u, j) = (p, i))) as [[= -> ->]|H1].
    { rewrite Ee, He. cbn. unfold cap_at. rewrite Er, Hr. cbn. lia. }
    destruct (decide ((u, j) = (edge_to e, edge_rev e))) as [[= -> ->]|H2].
    { rewrite Er, Hr. cbn. unfold cap_at. rewrite Hto, Hrev, Ee, He. cbn. lia. }
    rewrite Eo by done. destruct (edge_at g u j) as [x|] eqn:Ex; [|done]. f_equal. unfold cap_at.
    destruct (Hok u j x Ex) as (_ & _ & _ & y & Hy & Hyt & Hyr). rewrite Eo; [done|..].
    + intros [= E1 E2]. rewrite E1, E2 in Hy. assert (y = e) as -> by congruence. congruence.
    + intros [= E1 E2]. rewrite E1, E2 in Hy. assert (y = r) as -> by congruence. congruence.
  - intros w. unfold g2. rewrite (node_total_set _ _ _ _ _ _ Hr1). unfold g1. rewrite (node_total_set _ _ _ _ _ _ He).
    repeat case_decide; lia.
  - intros w j H1. unfold cap_at. destruct (decide ((w, j) = (edge_to e, edge_rev e))) as [[= -> ->]|H2].
    + rewrite Er, Hr. cbn. lia.
    + rewrite Eo by done. lia.
Qed.

(** ** Labels *)

(** The predecessors form chains of edges with capacity back to the source. *)
Definition labelled (l : Labels) (source v : nat) : Prop :=
  v = source \/ exists p, prev_node l !! v = Some (Some p).

Record labels_ok (g : MinCostFlow) (source : nat) (l : Labels) : Prop := {
  labels_dist : length (dist l) = length g;
  labels_prev : length (prev_node l) = length g;
  labels_edge : length (prev_edge l) = length g;
  labels_reached v d : dist l !! v = Some d -> d <> f64_infinity -> labelled l source v;
  labels_chain v p : prev_node l !! v = Some (Some p) ->
    v <> source /\ labelled l source p
    /\ exists i e, prev_edge l !! v = Some (Some i) /\ edge_at g p i = Some e /\ edge_to e = v /\ (0 < capacity e)%N
}.

Lemma initial_labels_ok g source : (source < length g)%nat -> labels_ok g source (initial_labels (length g) source).
Proof.
  intros Hs. split; cbn.
  - by rewrite length_insert, length_replicate.
  - by rewrite length_replicate.
  - by rewrite length_replicate.
  - intros v d Hd Hne. destruct (decide (v = source)) as [->|Hv]; [by left|].
    rewrite list_lookup_insert_ne in Hd by done. apply lookup_replicate in Hd as [-> _]. done.
  - intros v p Hv. by apply lookup_replicate in Hv as [[=] _].
Qed.

Lemma relax_edge_ok g source node i e l b :
  residual_ok g -> labels_ok g source l -> edge_at g node i = Some e -> labelled l source node ->
  exists l' b', relax_edge source node i e (l, b) = Ok (l', b') /\ labels_ok g source l'
  /\ forall v, labelled l source v -> labelled l' source v.
Proof.
  intros Hg Hl He Hn. unfold relax_edge.
  destruct (N.eqb_spec (capacity e) 0) as [|Hcap]; cbn [orb]; [by exists l, b|].
  destruct (Nat.eqb_spec (edge_to e) source) as [|Hto]; [by exists l, b|].
  destruct (Hg _ _ _ He) as (Hlt & _). pose proof (edge_at_lt _ _ _ _ He) as Hnode.
  destruct (lookup_lt_is_Some_2 (dist l) node) as [d Hd]; [by rewrite (labels_dist _ _ _ Hl)|].
  destruct (lookup_lt_is_Some_2 (dist l) (edge_to e)) as [dt Hdt]; [by rewrite (labels_dist _ _ _ Hl)|].
  rewrite Hd, Hdt. cbn [expect rbind]. destruct (fltb _ _ _); [|by exists l, b].
  eexists _, true. split; [reflexivity|]. destruct Hl as [L1 L2 L3 L4 L5].
  assert (forall v, labelled l source v -> labelled
    {| dist := <[edge_to e := fadd binary64 d (cost e)]> (dist l);
       prev_node := <[edge_to e := Some node]> (prev_node l);
       prev_edge := <[edge_to e := Some i]> (prev_edge l) |} source v) as Hmono.
  { intros v [->|(p & Hp)]; [by left|]. right. cbn. destruct (decide (v = edge_to e)) as [->|Hv].
    - exists node. apply list_lookup_insert_eq. lia.
    - exists p. by rewrite list_lookup_insert_ne. }
  split; [|done]. split; cbn; [by rewrite length_insert..| |].
  - intros v x Hx Hne. destruct (decide (v = edge_to e)) as [->|Hv].
    + right. exists node. apply list_lookup_insert_eq. lia.
    + rewrite list_lookup_insert_ne in Hx by done. by eapply Hmono, L4.
  - intros v p Hp. destruct (decide (v = edge_to e)) as [->|Hv].
    + rewrite list_lookup_insert_eq in Hp by lia. injection Hp as <-.
      split_and!; [done|by apply Hmono|]. exists i, e. rewrite list_lookup_insert_eq by lia. split_and!; [done..|lia].
    + rewrite list_lookup_insert_ne in Hp by done. destruct (L5 v p Hp) as (H1 & H2 & j & e' & Hj & He' & H3).
      split_and!; [done|by apply Hmono|]. exists j, e'. by rewrite list_lookup_insert_ne.
Qed.

Lemma relax_edges_ok g source node es0 : residual_ok g -> g !! node = Some es0 -> forall es i l b,
  drop i es0 = es -> labels_ok g source l -> labelled l source node ->
  exists l' b', relax_edges source node i es (l, b) = Ok (l', b') /\ labels_ok g source l'
  /\ forall v, labelled l source v -> labelled l' source v.
Proof.
  intros Hg Hnode es. induction es as [|e es IH]; intros i l b Hes Hl Hn; cbn [relax_edges]; [by exists l, b|].
  assert (edge_at g node i = Some e) as He.
  { unfold edge_at. rewrite Hnode. cbn. rewrite <-(Nat.add_0_r i), <-lookup_drop, Hes. done. }
  destruct (relax_edge_ok g source node i e l b Hg Hl He Hn) as (l1 & b1 & -> & Hl1 & Hm1). cbn [rbind].
  destruct (IH (S i) l1 b1) as (l2 & b2 & -> & Hl2 & Hm2); [|done|by apply Hm1|].
  - change (S i) with (1 + i)%nat. by rewrite Nat.add_comm, <-drop_drop, Hes.
  - exists l2, b2. split_and!; [done..|auto].
Qed.

Lemma relax_node_ok g source node l b : residual_ok g -> (node < length g)%nat -> labels_ok g source l ->
  exists l' b', relax_node g source (l, b) node = Ok (l', b') /\ labels_ok g source l'.
Proof.
  intros Hg Hn Hl. unfold relax_node. cbn [fst].
  destruct (lookup_lt_is_Some_2 (dist l) node) as [d Hd]; [by rewrite (labels_dist _ _ _ Hl)|].
  rewrite Hd. cbn [expect rbind]. destruct (f64_is_finite d) eqn:Hf; cbn [negb]; [|by exists l, b].
  destruct (lookup_lt_is_Some_2 g node Hn) as [es Hes]. rewrite Hes. cbn [expect rbind].
  destruct (relax_edges_ok g source node es Hg Hes es 0%nat l b) as (l' & b' & -> & Hl' & _); [done|done| |eauto].
  apply (labels_reached _ _ _ Hl node d Hd). intros ->. vm_compute in Hf. done.
Qed.

Lemma relax_nodes_ok g source nodes : residual_ok g -> Forall (fun v => (v < length g)%nat) nodes ->
  forall l b, labels_ok g source l ->
  exists l' b', try_fold (relax_node g source) (l, b) nodes = Ok (l', b') /\ labels_ok g source l'.
Proof.
  intros Hg. induction 1 as [|node nodes Hn _ IH]; intros l b Hl; cbn [try_fold]; [by exists l, b|].
  destruct (relax_node_ok g source node l b Hg Hn Hl) as (l1 & b1 & -> & Hl1). cbn [rbind]. by apply IH.
Qed.

Lemma nodes_lt (n : nat) : Forall (fun v => (v < n)%nat) (seq 0 n).
Proof. apply Forall_forall. intros v Hv%elem_of_seq. lia. Qed.

Lemma relax_rounds_ok g source rounds : residual_ok g -> forall l, labels_ok g source l ->
  exists l', relax_rounds rounds g source l = Ok l' /\ labels_ok g source l'.
Proof.
  intros Hg. induction rounds as [|rounds IH]; intros l Hl; cbn [relax_rounds]; [by exists l|].
  destruct (relax_nodes_ok g source (seq 0 (length g)) Hg (nodes_lt _) l false Hl) as (l1 & b & -> & Hl1).
  cbn [rbind]. destruct b; [by apply IH|by exists l1].
Qed.

Lemma check_no_panic g source l : residual_ok g -> labels_ok g source l ->
  check_no_negative_cycle g l = Ok tt
  \/ check_no_negative_cycle g l = Err (constraint_error "negative-cost residual cycle detected in assignment solver").
Proof.
  intros Hg Hl. unfold check_no_negative_cycle. pose proof (nodes_lt (length g)) as Hn.
  induction Hn as [|node nodes Hnode _ IH]; cbn [try_fold]; [by left|]. unfold check_node at 1 3.
  destruct (lookup_lt_is_Some_2 (dist l) node) as [d Hd]; [by rewrite (labels_dist _ _ _ Hl)|].
  rewrite Hd. cbn [expect rbind]. destruct (f64_is_finite d); cbn [negb rbind]; [|done].
  destruct (lookup_lt_is_Some_2 g node Hnode) as [es Hes]. rewrite Hes. cbn [expect rbind].
  assert (forall e, e ∈ es -> (edge_to e < length g)%nat) as Hto.
  { intros e (i & Hi)%list_elem_of_lookup. apply (Hg node i e). unfold edge_at. by rewrite Hes. }
  clear Hes. induction es as [|e es IHe]; cbn [try_fold rbind]; [done|]. unfold improves at 1 3.
  destruct (capacity e =? 0)%N; cbn [rbind]; [apply IHe; intros; apply Hto; by right|].
  destruct (lookup_lt_is_Some_2 (dist l) (edge_to e)) as [dt Hdt]; [rewrite (labels_dist _ _ _ Hl); apply Hto; by left|].
  rewrite Hdt. cbn [expect rbind]. destruct (fltb _ _ _); cbn [negb rbind]; [by right|].
  apply IHe. intros; apply Hto; by right.
Qed.

(** ** Paths back to the source *)
Inductive back_path (l : Labels) (source : nat) : nat -> list (nat * (nat * nat)) -> Prop :=
| back_here : back_path l source source []
| back_step v p i path : v <> source -> predecessor l v = Ok (p, i) -> back_path l source p path ->
    back_path l source v ((v, (p, i)) :: path).

Lemma back_path_det l source v path path' :
  back_path l source v path -> back_path l source v path' -> path = path'.
Proof.
  intros Hp. revert path'. induction Hp as [|v p i path Hv Hpr _ IH]; intros path' Hp'; inversion Hp'; subst; try done.
  rewrite Hpr in *. simplify_eq. f_equal. by apply IH.
Qed.

Lemma back_path_suffix l source v path w : back_path l source v path -> w ∈ map fst path ->
  exists path', back_path l source w path' /\ (length path' <= length path)%nat.
Proof.
  induction 1 as [|v p i path Hv Hpr Hb IH]; cbn; [by intros ?%not_elem_of_nil|].
  intros [->|Hw]%elem_of_cons.
  - exists ((v, (p, i)) :: path). split; [by constructor|done].
  - destruct (IH Hw) as (path' & Hb' & Hl). exists path'. split; [done|lia].
Qed.

(** The chain is a function of the node: a path that ends does not repeat. *)
Lemma back_path_NoDup l source v path : back_path l source v path -> NoDup (map fst path).
Proof.
  induction 1 as [|v p i path Hv Hpr Hb IH]; cbn; [constructor|]. constructor; [|done].
  intros Hin. destruct (back_path_suffix _ _ _ _ _ Hb Hin) as (path' & Hb' & Hlen).
  assert ((v, (p, i)) :: path = path') as <- by (eapply back_path_det; [by constructor|done]).
  cbn in Hlen. lia.
Qed.

Lemma predecessor_ok g source l v : labels_ok g source l -> labelled l source v -> v <> source ->
  exists p i e, predecessor l v = Ok (p, i) /\ edge_at g p i = Some e /\ edge_to e = v
  /\ (0 < capacity e)%N /\ labelled l source p.
Proof.
  intros Hl [->|(p & Hp)] Hv; [done|]. destruct (labels_chain _ _ _ Hl v p Hp) as (_ & Hlp & i & e & Hi & He & Hto & Hc).
  exists p, i, e. unfold predecessor. rewrite Hp, Hi. by split_and!.
Qed.

(** An edge of a path with at least [a] units of capacity. *)
Definition carries (g : MinCostFlow) (a : N) (step : nat * (nat * nat)) : Prop :=
  exists e, edge_at g step.2.1 step.2.2 = Some e /\ edge_to e = step.1 /\ (a <= capacity e)%N.

Lemma carries_le g a b step : (a <= b)%N -> carries g b step -> carries g a step.
Proof. intros Hab (e & He & Hto & Hc). exists e. split_and!; [done..|lia]. Qed.

Lemma bottleneck_ok g source l : labels_ok g source l -> forall budget v a, labelled l source v ->
  match bottleneck budget g l source v a with
  | Ok a' => (a' <= a)%N /\ (0 < a -> 0 < a')%N
      /\ exists path, back_path l source v path /\ (length path <= budget)%nat /\ Forall (carries g a') path
  | Err e => e = cyclic_error
  | Panic => False
  end.
Proof.
  intros Hl. induction budget as [|budget IH]; intros v a Hv; cbn [bottleneck];
    destruct (Nat.eqb_spec v source) as [->|Hne]; try done.
  1,2: split_and!; [lia|done|]; exists []; split_and!; [constructor|cbn; lia|constructor].
  destruct (predecessor_ok g source l v Hl Hv Hne) as (p & i & e & Hpr & He & Hto & Hcap & Hp).
  rewrite Hpr. cbn [rbind]. rewrite He. cbn [expect rbind]. specialize (IH p (N.min a (capacity e)) Hp).
  destruct (bottleneck _ _ _ _ _ _) as [a'|er|]; [|done..].
  destruct IH as (Hle & Hpos & path & Hpath & Hlen & Hc). split_and!; [lia|intros; apply Hpos; lia|].
  exists ((v, (p, i)) :: path). split_and!; [by constructor|cbn; lia|].
  constructor; [|done]. exists e. cbn. split_and!; [done..|lia].
Qed.

Lemma moved_trans g1 g2 g3 u v w a : moved g1 g2 u v a -> moved g2 g3 w u a -> moved g1 g3 w v a.
Proof. intros H1 H2 x. rewrite H2, H1. repeat case_decide; lia. Qed.

Lemma augment_path_ok l source a path : forall budget v g,
  back_path l source v path -> NoDup (map fst path) -> (length path <= budget)%nat -> residual_ok g ->
  Forall (carries g a) path ->
  exists g', augment_path budget l source v a g = Ok g' /\ same_net g g' /\ moved g g' source v (Z.of_N a).
Proof.
  induction path as [|[v0 [p i]] path IH]; intros budget v g Hb Hnd Hlen Hg Hc.
  - inversion Hb; subst. exists g. destruct budget; cbn; rewrite Nat.eqb_refl; (split; [done|]; split; [done|]);
      intros w; repeat case_decide; lia.
  - inversion Hb as [|? ? ? ? Hv Hpr Hb']; subst. destruct budget as [|budget]; [cbn in Hlen; lia|].
    cbn [augment_path]. destruct (Nat.eqb_spec v0 source) as [|_]; [done|]. rewrite Hpr. cbn [rbind].
    apply Forall_cons in Hc as [(e & He & Hto & Hce) Hc]. cbn in He, Hto. cbn [map fst] in Hnd.
    apply NoDup_cons in Hnd as [Hnin Hnd].
    destruct (push_flow_ok g a v0 p i e Hg He Hto Hce) as (g1 & -> & Hn1 & Hm1 & Hcap1). cbn [rbind].
    destruct (IH budget p g1 Hb' Hnd ltac:(cbn in Hlen; lia) (same_net_ok _ _ Hn1 Hg)) as (g2 & -> & Hn2 & Hm2).
    + rewrite Forall_forall in *. intros step Hin. destruct (Hc step Hin) as (x & Hx & Hxt & Hxc).
      destruct (same_net_edge _ _ _ _ _ Hn1 Hx) as (y & Hy & Hyt & _). exists y. split_and!; [done|congruence|].
      specialize (Hcap1 step.2.1 step.2.2). unfold cap_at in Hcap1. rewrite Hx, Hy in Hcap1.
      etrans; [exact Hxc|]. apply Hcap1. intros [= E1 E2]. apply Hnin. rewrite E1, E2, He in Hx. injection Hx as ->.
      apply list_elem_of_fmap. exists step. split; [congruence|done].
    + exists g2. split_and!; [done|by etrans|]. by eapply moved_trans.
Qed.

(** ** Sending flow *)
Definition net_flow (g g' : MinCostFlow) (source sink : nat) (a : N) : Prop :=
  same_net g g' /\ moved g g' source sink (Z.of_N a).

Lemma augment_once_ok g source sink target sent : residual_ok g ->
  (source < length g)%nat -> (sink < length g)%nat -> (sent < target)%N ->
  match augment_once source sink target sent g with
  | Ok None => True
  | Ok (Some (sent', g')) => (sent < sent' <= target)%N /\ net_flow g g' source sink (sent' - sent)
  | Err (UnsatisfiableConstraint _) => True
  | _ => False
  end.
Proof.
  intros Hg Hs Ht Hlt. unfold augment_once.
  destruct (relax_rounds_ok g source (length g - 1) Hg _ (initial_labels_ok g source Hs)) as (l & -> & Hl).
  cbn [rbind]. destruct (lookup_lt_is_Some_2 (prev_node l) sink) as [o Ho]; [by rewrite (labels_prev _ _ _ Hl)|].
  rewrite Ho. cbn [expect rbind]. destruct o as [p|]; [|done].
  destruct (check_no_panic g source l Hg Hl) as [->| ->]; cbn [rbind]; [|done].
  pose proof (bottleneck_ok g source l Hl (length g) sink (target - sent) ltac:(right; by exists p)) as Hb.
  destruct (bottleneck _ _ _ _ _ _) as [a|e|]; cbn [rbind]; [|by subst e|done].
  destruct Hb as (Hle & Hpos & path & Hp & Hlen & Hc). specialize (Hpos ltac:(lia)).
  destruct (augment_path_ok l source a path (length g) sink g Hp (back_path_NoDup _ _ _ _ Hp) Hlen Hg Hc)
    as (g' & -> & Hn & Hm). cbn [rbind]. split; [lia|]. split; [done|]. by replace (sent + a - sent)%N with a by lia.
Qed.

Lemma net_flow_trans g1 g2 g3 s t a b : net_flow g1 g2 s t a -> net_flow g2 g3 s t b -> net_flow g1 g3 s t (a + b).
Proof.
  intros [N1 M1] [N2 M2]. split; [by etrans|]. intros w. rewrite M2, M1. repeat case_decide; lia.
Qed.

Lemma send_loop_ok source sink target fuel : forall sent g, residual_ok g ->
  (source < length g)%nat -> (sink < length g)%nat -> (sent <= target)%N -> (target - sent <= N.of_nat fuel)%N ->
  match send_loop fuel source sink target sent g with
  | Ok (sent', g') => (sent <= sent' <= target)%N /\ net_flow g g' source sink (sent' - sent)
  | Err (UnsatisfiableConstraint _) => True
  | _ => False
  end.
Proof.
  induction fuel as [|fuel IH]; intros sent g Hg Hs Ht Hle Hf; cbn [send_loop];
    destruct (N.ltb_spec sent target) as [Hlt|Hge]; try lia.
  1,3: split; [lia|]; split; [done|]; intros w; repeat case_decide; lia.
  pose proof (augment_once_ok g source sink target sent Hg Hs Ht Hlt) as Ho.
  destruct (augment_once _ _ _ _ _) as [[[sent1 g1]|]|[]|]; cbn [rbind]; try done.
  - destruct Ho as [Hsent Hn1]. pose proof Hn1 as [Hsn _]. pose proof Hsn as [Hlen _].
    specialize (IH sent1 g1 (same_net_ok _ _ Hsn Hg) ltac:(lia) ltac:(lia) ltac:(lia) ltac:(lia)).
    destruct (send_loop _ _ _ _ _ _) as [[sent2 g2]|[]|]; try done. destruct IH as [Hs2 Hn2]. split; [lia|].
    replace (sent2 - sent)%N with ((sent1 - sent) + (sent2 - sent1))%N by lia. by eapply net_flow_trans.
  - split; [lia|]; split; [done|]; intros w; repeat case_decide; lia.
Qed.

(** On a residual graph whose edges point back at their reverse edges, sending flow
    terminates without a panic, never sends more than asked for, changes only capacities
    and keeps the total of every edge and its reverse, and moves exactly the sent amount
    from the source to the sink: the capacity leaving every other node stays the same. *)
Theorem send_flow_conserves source sink target g :
  residual_ok g -> (source < length g)%nat -> (sink < length g)%nat ->
  match send_flow source sink target g with
  | Ok (sent, g') => (sent <= target)%N /\ residual_ok g' /\ same_net g g' /\ moved g g' source sink (Z.of_N sent)
  | Err e => exists message, e = UnsatisfiableConstraint message
  | Panic => False
  end.
Proof.
  intros Hg Hs Ht. pose proof (send_loop_ok source sink target (N.to_nat target) 0 g Hg Hs Ht ltac:(lia) ltac:(lia)) as Ho.
  unfold send_flow. destruct (send_loop _ _ _ _ _ _) as [[sent g']|[]|]; try done; [|by eexists].
  destruct Ho as [Hle [Hn Hm]]. rewrite N.sub_0_r in Hm. split_and!; [lia|by eapply same_net_ok|done|done].
Qed.

(** ** The network of the assignment subproblem

    What [build_flow] builds: an edge of one unit from the source to each free
    point, one of one unit from each point to each cluster in ascending order, and
    edges from each cluster to the sink with the cluster's remaining places. *)

(** ** Specification *)

(** The adjacency lists of a graph with [n] nodes. *)
Definition view (n : nat) (f : nat -> list Edge) (g : MinCostFlow) : Prop :=
  length g = n /\ forall u, (u < n)%nat -> g !! u = Some (f u).

Section network.
Variables (R k : nat) (costs : nat -> nat -> f64).

Definition source_edge (o : nat) : Edge := MkEdge (1 + o) 0 1 0%N.
Definition point_edges (o j : nat) : list Edge :=
  MkEdge 0 o 0 (fneg binary64 0) :: map (fun c => MkEdge (1 + R + c) o 1 (costs o c)) (seq 0 j).
Definition cluster_edge (c o : nat) : Edge := MkEdge (1 + o) (1 + c) 0 (fneg binary64 (costs o c)).

(** [o] points done, and the next with [j] of its clusters. *)
Definition built (o j : nat) (started : bool) (u : nat) : list Edge :=
  if decide (u = 0%nat) then map source_edge (seq 0 (if started then S o else o))
  else if decide (u <= R)%nat then
    if decide (u - 1 < o)%nat then point_edges (u - 1) k
    else if decide (u - 1 = o)%nat then (if started then point_edges o j else []) else []
  else if decide (u < 1 + R + k)%nat then
    map (cluster_edge (u - (1 + R))) (seq 0 (if decide (u - (1 + R) < j)%nat then S o else o))
  else [].
End network.

(** The network: the edges of the points as above, and behind the points' edges of
    each cluster the edges to the sink, of the cluster's places in total. *)
Definition network_ok (R k : nat) (costs : nat -> nat -> f64) (upper : list N) (g : MinCostFlow) : Prop :=
  length g = (1 + R + k + 1)%nat /\ residual_ok g
  /\ g !! 0%nat = Some (map source_edge (seq 0 R))
  /\ (forall o, (o < R)%nat -> g !! (1 + o)%nat = Some (point_edges R costs o k))
  /\ forall c n, upper !! c = Some n -> exists tail,
       g !! (1 + R + c)%nat = Some (map (cluster_edge costs c) (seq 0 R) ++ tail) /\ edges_total tail = Z.of_N n.

(** ** Adding an edge *)
Lemma edge_at_app g g' u i e es :
  g !! u = Some es -> (exists x, g' !! u = Some (es ++ x)) -> edge_at g u i = Some e -> edge_at g' u i = Some e.
Proof.
  unfold edge_at. intros Hg (x & Hx) (es' & Hes & Hi)%bind_Some. rewrite Hx. cbn.
  assert (es' = es) as -> by congruence. by apply lookup_app_l_Some.
Qed.

Lemma push_edge_ok u e g es : g !! u = Some es ->
  push_edge u e g = Ok (<[u := es ++ [e]]> g).
Proof. intros Hu. unfold push_edge. by rewrite Hu. Qed.

(** The lists after [add_edge]. *)
Lemma add_edge_lists n f g from to c w : view n f g -> (from < n)%nat -> (to < n)%nat -> from <> to ->
  exists g', add_edge from to c w g = Ok g'
  /\ view n (fun u => if decide (u = from) then f u ++ [MkEdge to (length (f to)) c w]
                      else if decide (u = to) then f u ++ [MkEdge from (length (f from)) 0 (fneg binary64 w)]
                      else f u) g'.
Proof.
  intros [Hl Hf] Hfrom Hto Hne. unfold add_edge. rewrite (Hf to Hto), (Hf from Hfrom). cbn [expect rbind].
  rewrite (push_edge_ok from _ g (f from)) by auto. cbn [rbind].
  rewrite (push_edge_ok to _ _ (f to)) by (rewrite list_lookup_insert_ne by done; auto).
  eexists. split; [reflexivity|]. split; [by rewrite !length_insert|]. intros u Hu.
  destruct (decide (u = from)) as [->|H1].
  - rewrite list_lookup_insert_ne by done. apply list_lookup_insert_eq. lia.
  - destruct (decide (u = to)) as [->|H2].
    + apply list_lookup_insert_eq. rewrite length_insert. lia.
    + rewrite !list_lookup_insert_ne by done. auto.
Qed.

Lemma view_edge n f g u i e : view n f g -> edge_at g u i = Some e <-> (u < n)%nat /\ f u !! i = Some e.
Proof.
  intros [Hl Hf]. unfold edge_at. split.
  - intros (es & Hu & Hi)%bind_Some. pose proof (lookup_lt_Some _ _ _ Hu). rewrite Hf in Hu by lia.
    split; [lia|]. by injection Hu as ->.
  - intros [Hu Hi]. by rewrite Hf by done.
Qed.

Lemma cap_at_view n f g u i : view n f g -> (u < n)%nat ->
  cap_at g u i = match f u !! i with Some e => capacity e | None => 0%N end.
Proof. intros [Hl Hf] Hu. unfold cap_at, edge_at. by rewrite Hf. Qed.

Lemma add_edge_residual n f g from to c w g' : view n f g -> (from < n)%nat -> (to < n)%nat -> from <> to ->
  (c <= USIZE_MAX)%N -> residual_ok g -> add_edge from to c w g = Ok g' -> residual_ok g'.
Proof.
  intros Hv Hfrom Hto Hne Hc Hok Ha.
  destruct (add_edge_lists n f g from to c w Hv Hfrom Hto Hne) as (g1 & Hg1 & Hv1).
  assert (g1 = g') as -> by congruence. set (f' := fun u => _) in Hv1. clear Hg1 Ha.
  assert (forall u i e, edge_at g u i = Some e -> edge_at g' u i = Some e) as Hold.
  { intros u i e He. apply (view_edge n f g u i e Hv) in He as [Hu Hi]. apply (view_edge n f' g' u i e Hv1).
    split; [done|]. unfold f'. repeat case_decide; [by apply lookup_app_l_Some..|done]. }
  assert (edge_at g' from (length (f from)) = Some (MkEdge to (length (f to)) c w)) as Hfwd.
  { apply (view_edge n f' g' _ _ _ Hv1). split; [done|]. unfold f'. rewrite decide_True by done.
    by rewrite lookup_app_r, Nat.sub_diag. }
  assert (edge_at g' to (length (f to)) = Some (MkEdge from (length (f from)) 0 (fneg binary64 w))) as Hbwd.
  { apply (view_edge n f' g' _ _ _ Hv1). split; [done|]. unfold f'. rewrite decide_False, decide_True by done.
    by rewrite lookup_app_r, Nat.sub_diag. }
  assert (length g' = length g) as Hlen by (destruct Hv, Hv1; congruence).
  intros u i e He. destruct (edge_at g u i) as [x|] eqn:Hx.
  - pose proof (Hold _ _ _ Hx) as Hx'. assert (x = e) as -> by congruence.
    destruct (Hok u i e Hx) as (H1 & H2 & H3 & r & Hr & H4 & H5). rewrite Hlen. split_and!; [done|done| |].
    + unfold pair_sum, cap_at in *. rewrite Hx, Hr in H3. by rewrite Hx', (Hold _ _ _ Hr).
    + exists r. split_and!; [by apply Hold|done|done].
  - assert ((u, i, e) = (from, length (f from), MkEdge to (length (f to)) c w)
      \/ (u, i, e) = (to, length (f to), MkEdge from (length (f from)) 0 (fneg binary64 w))) as Hcase.
    { apply (view_edge n f' g' u i e Hv1) in He as [Hu Hi]. unfold f' in Hi.
      assert (f u !! i = None) as Hn.
      { destruct (f u !! i) as [y|] eqn:E; [|done].
        by rewrite (proj2 (view_edge n f g u i y Hv) (conj Hu E)) in Hx. }
      repeat case_decide; subst; [left|right|congruence];
        (apply lookup_app_Some in Hi as [Hi|[Hle Hi]]; [congruence|]);
        apply list_lookup_singleton_Some in Hi as [Hz <-]; repeat f_equal; lia. }
    destruct Hv as [Hgl _]. unfold pair_sum, cap_at. destruct Hcase as [[= -> -> ->]|[= -> -> ->]]; cbn.
    + rewrite Hfwd. cbn. rewrite Hbwd. cbn. split_and!; [lia|done|lia|]. eexists. by split_and!.
    + rewrite Hbwd. cbn. rewrite Hfwd. cbn. split_and!; [lia|done|lia|]. eexists. by split_and!.
Qed.

(** ** The points *)
Lemma view_ext n f f' g : (forall u, (u < n)%nat -> f u = f' u) -> view n f g -> view n f' g.
Proof. intros He [Hl Hf]. split; [done|]. intros u Hu. by rewrite Hf, He. Qed.

Section build.
Variables (R k : nat) (costs : nat -> nat -> f64).
Notation nodes := (1 + R + k + 1)%nat.
Notation sink := (1 + R + k)%nat.

Lemma node_cases u : (u < nodes)%nat ->
  u = 0%nat \/ (exists p, (p < R)%nat /\ u = (1 + p)%nat) \/ (exists c, (c < k)%nat /\ u = (1 + R + c)%nat) \/ u = sink.
Proof.
  intros Hu. destruct (decide (u = 0%nat)); [by left|]. right.
  destruct (decide (u <= R)%nat); [left; exists (u - 1)%nat; lia|]. right.
  destruct (decide (u < sink)%nat); [left; exists (u - (1 + R))%nat; lia|right; lia].
Qed.

Lemma built_source o j st : built R k costs o j st 0 = map source_edge (seq 0 (if st then S o else o)).
Proof. unfold built. by rewrite decide_True. Qed.
Lemma built_point o j st p : (p < R)%nat -> built R k costs o j st (1 + p) =
  if decide (p < o)%nat then point_edges R costs p k
  else if decide (p = o) then (if st : bool then point_edges R costs o j else []) else [].
Proof.
  intros Hp. unfold built. rewrite decide_False, decide_True by lia.
  by replace (1 + p - 1)%nat with p by lia.
Qed.
Lemma built_cluster o j st c : (c < k)%nat -> built R k costs o j st (1 + R + c) =
  map (cluster_edge costs c) (seq 0 (if decide (c < j)%nat then S o else o)).
Proof.
  intros Hc. unfold built. rewrite decide_False, decide_False, decide_True by lia.
  by replace (1 + R + c - (1 + R))%nat with c by lia.
Qed.
Lemma built_sink o j st : built R k costs o j st sink = [].
Proof. unfold built. by rewrite !decide_False by lia. Qed.

Definition stage (o j : nat) (st : bool) (g : MinCostFlow) : Prop :=
  view nodes (built R k costs o j st) g /\ residual_ok g.

Lemma stage_add o j st o' j' st' from to c w g : stage o j st g ->
  (from < nodes)%nat -> (to < nodes)%nat -> from <> to -> (c <= USIZE_MAX)%N ->
  (forall u, (u < nodes)%nat ->
    (if decide (u = from) then built R k costs o j st u ++ [MkEdge to (length (built R k costs o j st to)) c w]
     else if decide (u = to) then built R k costs o j st u ++ [MkEdge from (length (built R k costs o j st from)) 0 (fneg binary64 w)]
     else built R k costs o j st u) = built R k costs o' j' st' u) ->
  exists g', add_edge from to c w g = Ok g' /\ stage o' j' st' g'.
Proof.
  intros [Hv Hok] Hfrom Hto Hne Hc Heq.
  destruct (add_edge_lists nodes _ g from to c w Hv Hfrom Hto Hne) as (g' & Hg & Hv').
  exists g'. split; [done|]. split; [exact (view_ext _ _ _ _ Heq Hv')|].
  exact (add_edge_residual _ _ _ _ _ _ _ _ Hv Hfrom Hto Hne Hc Hok Hg).
Qed.

Lemma seq_snoc_map {A} (f : nat -> A) n : map f (seq 0 (S n)) = map f (seq 0 n) ++ [f n].
Proof. by rewrite seq_S, map_app. Qed.

(** Both sides of an equation of lists in every region of the nodes. *)
Ltac regions u Hu :=
  let p := fresh "p" in let Hp := fresh "Hp" in
  destruct (node_cases u Hu) as [->|[(p & Hp & ->)|[(p & Hp & ->)| ->]]];
  rewrite ?built_source, ?built_point, ?built_cluster, ?built_sink by lia;
  repeat case_decide; simplify_eq; try lia; try done.

Lemma stage_start o g : (o < R)%nat -> stage o 0 false g ->
  exists g', add_edge 0 (1 + o) 1 0%N g = Ok g' /\ stage o 0 true g'.
Proof.
  intros Ho Hs. apply (stage_add o 0 false o 0 true); [done|lia|lia|lia|done|].
  intros u Hu. regions u Hu.
  - by rewrite seq_snoc_map.
  - by rewrite length_map, length_seq.
Qed.

Lemma point_edges_length o j : length (point_edges R costs o j) = S j.
Proof. unfold point_edges. cbn. by rewrite length_map, length_seq. Qed.

Lemma stage_cluster o j g : (o < R)%nat -> (j < k)%nat -> stage o j true g ->
  exists g', add_edge (1 + o) (1 + R + j) 1 (costs o j) g = Ok g' /\ stage o (S j) true g'.
Proof.
  intros Ho Hj Hs. apply (stage_add o j true o (S j) true); [done|lia|lia|lia|done|].
  intros u Hu. regions u Hu.
  - rewrite length_map, length_seq. unfold point_edges. by rewrite seq_snoc_map.
  - rewrite seq_snoc_map, point_edges_length. by replace p with j by lia.
Qed.

Lemma stage_next o g : stage o k true g -> stage (S o) 0 false g.
Proof.
  intros [Hv Hok]. split; [|done]. eapply view_ext; [|exact Hv]. intros u Hu. cbv beta. regions u Hu.
Qed.

(** The loop over the clusters of one point, and the loop over the points. *)
Lemma stage_clusters (cost_of : nat -> result StreamingClusteringError f64) o n : forall j g,
  (o < R)%nat -> (j + n = k)%nat -> (forall c, (c < k)%nat -> cost_of c = Ok (costs o c)) -> stage o j true g ->
  exists g', try_fold (fun g c => let? w := cost_of c in add_edge (1 + o) (1 + R + c) 1 w g) g (seq j n) = Ok g'
  /\ stage (S o) 0 false g'.
Proof.
  induction n as [|n IH]; intros j g Ho Hj Hc Hs; cbn [seq try_fold].
  - exists g. split; [done|]. apply stage_next. by replace k with j by lia.
  - rewrite Hc by lia. cbn [rbind]. destruct (stage_cluster o j g Ho ltac:(lia) Hs) as (g1 & -> & Hs1).
    cbn [rbind]. apply IH; [done|lia|done|done].
Qed.

Lemma stage_point distances o p g : (o < R)%nat ->
  (forall c, (c < k)%nat -> distances !! (p * k + c)%nat = Some (costs o c)) -> stage o 0 false g ->
  exists g', add_point distances k (1 + R) g (o, p) = Ok g' /\ stage (S o) 0 false g'.
Proof.
  intros Ho Hd Hs. unfold add_point. destruct (stage_start o g Ho Hs) as (g1 & Hg1 & Hs1).
  cbv zeta. rewrite Hg1. cbn [rbind].
  apply (stage_clusters (fun c => expect (distances !! (p * k + c)%nat)) o k 0 g1); [done|done| |done].
  intros c Hc. by rewrite (Hd c Hc).
Qed.

Lemma stage_points distances points : forall o g, (o + length points = R)%nat ->
  (forall i p c, points !! i = Some p -> (c < k)%nat -> distances !! (p * k + c)%nat = Some (costs (o + i) c)) ->
  stage o 0 false g ->
  exists g', try_fold (add_point distances k (1 + R)) g (zip (seq o (length points)) points) = Ok g'
  /\ stage R 0 false g'.
Proof.
  induction points as [|p points IH]; intros o g Hl Hd Hs; cbn [length seq zip zip_with try_fold] in *.
  - exists g. split; [done|]. by replace R with o by lia.
  - destruct (stage_point distances o p g ltac:(lia)) as (g1 & -> & Hs1); [|done|].
    + intros c Hc. rewrite (Hd 0%nat p c eq_refl Hc). by rewrite Nat.add_0_r.
    + cbn [rbind]. apply IH; [lia| |done]. intros i q c Hi Hc.
      rewrite (Hd (S i) q c Hi Hc). by replace (o + S i)%nat with (S o + i)%nat by lia.
Qed.
End build.

(** ** The clusters *)
Lemma edges_total_app l m : edges_total (l ++ m) = (edges_total l + edges_total m)%Z.
Proof. induction l as [|e l IH]; cbn; lia. Qed.

(** [g'] is [g] with more edges between [u] and [v]; at [u] they are [tail]. *)
Definition extended (g g' : MinCostFlow) (u v : nat) (tail : list Edge) : Prop :=
  length g' = length g /\ residual_ok g' /\ (forall w, w <> u -> w <> v -> g' !! w = g !! w)
  /\ g' !! u = (fun es => es ++ tail) <$> g !! u.

Lemma extended_refl g u v : residual_ok g -> extended g g u v [].
Proof.
  intros Hg. split_and!; [done..|]. destruct (g !! u) as [es|]; [|done]. cbn. by rewrite app_nil_r.
Qed.

Lemma extended_trans g1 g2 g3 u v l m : extended g1 g2 u v l -> extended g2 g3 u v m -> extended g1 g3 u v (l ++ m).
Proof.
  intros (L1 & _ & O1 & U1) (L2 & G2 & O2 & U2). split_and!; [congruence|done| |].
  - intros w Hu Hv. by rewrite O2, O1.
  - rewrite U2, U1. destruct (g1 !! u); [|done]. cbn. by rewrite app_assoc.
Qed.

Lemma add_edge_extends g u v c w : residual_ok g -> (u < length g)%nat -> (v < length g)%nat -> u <> v ->
  (c <= USIZE_MAX)%N ->
  exists g' e, add_edge u v c w g = Ok g' /\ capacity e = c /\ extended g g' u v [e].
Proof.
  intros Hg Hu Hv Hne Hc. set (f := fun u => default [] (g !! u)).
  assert (view (length g) f g) as Hview.
  { split; [done|]. intros x Hx. unfold f. by destruct (lookup_lt_is_Some_2 g x Hx) as [es ->]. }
  destruct (add_edge_lists _ f g u v c w Hview Hu Hv Hne) as (g' & Ha & Hview').
  exists g', (MkEdge v (length (f v)) c w). split; [done|]. split; [done|].
  pose proof (add_edge_residual _ _ _ _ _ _ _ _ Hview Hu Hv Hne Hc Hg Ha) as Hg'.
  destruct Hview' as [Hl Hf']. destruct Hview as [_ Hf]. split_and!; [done|done| |].
  - intros x H1 H2. destruct (decide (x < length g)%nat) as [Hx|Hx].
    + rewrite Hf', Hf by done. by rewrite !decide_False.
    + rewrite !(proj2 (lookup_ge_None _ _)) by lia. done.
  - rewrite Hf', Hf by done. by rewrite decide_True.
Qed.

Lemma add_cluster_ok base sink g c lower upper : residual_ok g -> (base + c < sink)%nat -> (sink < length g)%nat ->
  (lower <= upper)%N -> (upper <= USIZE_MAX)%N ->
  exists g' tail, add_cluster base sink g (c, (lower, upper)) = Ok g'
  /\ extended g g' (base + c) sink tail /\ edges_total tail = Z.of_N upper.
Proof.
  intros Hg Hc Hs Hlu Hu. unfold add_cluster.
  assert (exists g1 t1, (if (0 <? lower)%N then add_edge (base + c) sink lower 0%N g else Ok g) = Ok g1
    /\ extended g g1 (base + c) sink t1 /\ edges_total t1 = Z.of_N lower) as (g1 & t1 & -> & H1 & T1).
  { destruct (N.ltb_spec 0 lower).
    - destruct (add_edge_extends g (base + c) sink lower 0%N) as (g1 & e & Ha & He & Hx); [done|lia..|].
      exists g1, [e]. split_and!; [done|done|cbn; lia].
    - exists g, []. split_and!; [done|by apply extended_refl|cbn; lia]. }
  cbn [rbind]. unfold checked_sub. rewrite (proj2 (N.leb_le _ _) Hlu). cbn [expect rbind].
  pose proof H1 as (L1 & G1 & _). destruct (N.ltb_spec 0 (upper - lower)).
  - destruct (add_edge_extends g1 (base + c) sink (upper - lower) OPTIONAL_CAPACITY_PENALTY)
      as (g2 & e & Ha & He & Hx); [done|lia..|].
    exists g2, (t1 ++ [e]). split_and!; [done|by eapply extended_trans|]. rewrite edges_total_app. cbn. lia.
  - exists g1, t1. split_and!; [done|done|lia].
Qed.

(** The loop over the clusters. *)
Lemma add_clusters_ok base sink bounds : forall c g, residual_ok g -> (base + c + length bounds = sink)%nat ->
  (sink < length g)%nat -> Forall (fun b => (b.1 <= b.2 <= USIZE_MAX)%N) bounds ->
  exists g', try_fold (add_cluster base sink) g (zip (seq c (length bounds)) bounds) = Ok g'
  /\ length g' = length g /\ residual_ok g' /\ (forall w, (w < base + c)%nat -> g' !! w = g !! w)
  /\ forall i b, bounds !! i = Some b -> exists tail,
       g' !! (base + c + i)%nat = (fun es => es ++ tail) <$> g !! (base + c + i)%nat /\ edges_total tail = Z.of_N b.2.
Proof.
  induction bounds as [|[lower upper] bounds IH]; intros c g Hg Hb Hs Hf; cbn [length seq zip zip_with try_fold] in *.
  - exists g. split_and!; try done.
  - apply Forall_cons in Hf as [[Hlu Hu] Hf]. cbn in Hlu, Hu.
    destruct (add_cluster_ok base sink g c lower upper) as (g1 & tail & -> & (L1 & G1 & O1 & U1) & T1); [done|lia..|].
    cbn [rbind]. destruct (IH (S c) g1) as (g' & -> & L' & G' & O' & U'); [done|lia|lia|done|].
    exists g'. split_and!; [done|congruence|done| |].
    + intros w Hw. rewrite O' by lia. apply O1; lia.
    + intros [|i] b Hi; cbn in Hi.
      * injection Hi as <-. exists tail. rewrite !Nat.add_0_r, O' by lia. split; [exact U1|done].
      * destruct (U' i b Hi) as (tail' & Ht & HT). exists tail'. split; [|done].
        replace (base + c + S i)%nat with (base + S c + i)%nat by lia. rewrite Ht. f_equal. apply O1; [lia|].
        apply lookup_lt_Some in Hi. lia.
Qed.

Lemma flow_new_stage R k costs : stage R k costs 0 0 false (flow_new (1 + R + k + 1)).
Proof.
  split.
  - split; [apply length_replicate|]. intros u Hu. unfold flow_new.
    rewrite (lookup_replicate_2 _ _ _ Hu). f_equal. symmetry.
    destruct (node_cases R k u Hu) as [->|[(p & Hp & ->)|[(c & Hc & ->)| ->]]].
    + by rewrite built_source.
    + rewrite built_point by done. repeat case_decide; try lia; done.
    + rewrite built_cluster by done. repeat case_decide; try lia; done.
    + by rewrite built_sink.
  - intros u i e He. unfold edge_at, flow_new in He. apply bind_Some in He as (es & Hes & Hi).
    apply lookup_replicate in Hes as [-> _]. by rewrite lookup_nil in Hi.
Qed.

(** What [build_flow] builds. *)
Lemma build_flow_ok distances k points bounds costs :
  length bounds = k -> Forall (fun b => (b.1 <= b.2 <= USIZE_MAX)%N) bounds ->
  (forall i p c, points !! i = Some p -> (c < k)%nat -> distances !! (p * k + c)%nat = Some (costs i c)) ->
  exists g, build_flow distances k points bounds = Ok g /\ network_ok (length points) k costs (map snd bounds) g.
Proof.
  intros Hk Hb Hd. unfold build_flow. cbv zeta. rewrite !imap_pair_zip.
  destruct (stage_points (length points) k costs distances points 0 _ eq_refl Hd (flow_new_stage _ k costs)) as (g1 & -> & [Hl1 Hv1] & Hg1).
  cbn [rbind].
  destruct (add_clusters_ok (1 + length points) (1 + length points + k) bounds 0 g1) as (g & -> & Hl & Hg & Ho & Hc); [done|lia|lia|done|].
  exists g. split; [done|]. split_and!; [lia|done| | |].
  - rewrite Ho, Hv1 by lia. by rewrite built_source.
  - intros o Ho'. rewrite Ho, Hv1 by lia. rewrite built_point, decide_True by lia. done.
  - intros c n Hn. rewrite list_lookup_fmap in Hn. apply fmap_Some in Hn as (b & Hb' & ->).
    destruct (Hc c b Hb') as (tail & Ht & HT). exists tail. split; [|done].
    apply lookup_lt_Some in Hb'. rewrite Nat.add_0_r in Ht. rewrite Ht, Hv1 by lia. cbn [fmap option_fmap option_map].
    rewrite built_cluster, decide_False by lia. done.
Qed.
