(* ===== verification/DcbcSolverCorrect.v ===== *)
(** * The capacity-bounded assignment: the properties

    A full flow through the network is an assignment: every free point has exactly
    one cluster, and no cluster takes more points than it has places. So the cost
    of a subproblem is the cost of an assignment that extends the fixed points
    within the maximal sizes, and the lexicographic search, which fixes every
    point in the end, returns an assignment within both bounds. *)
From S2P Require Import Prelude Ieee Clustering MinCostFlow FlowCorrect DcbcSolver.

(** ** Specification *)

(** [fixed] with its free points filled in from [A], which is indexed by the
    position among the free points. *)
Fixpoint fill (A : nat -> nat) (o : nat) (fixed : list (option nat)) : list nat :=
  match fixed with
  | [] => []
  | Some c :: rest => c :: fill A o rest
  | None :: rest => A o :: fill A (S o) rest
  end.

(** The free points, the points committed to a cluster. *)
Fixpoint free_points (n : nat) (fixed : list (option nat)) : list nat :=
  match fixed with
  | [] => []
  | Some _ :: rest => free_points (S n) rest
  | None :: rest => n :: free_points (S n) rest
  end.
Fixpoint committed_to (c : nat) (fixed : list (option nat)) : N :=
  match fixed with
  | [] => 0
  | x :: rest => (if decide (x = Some c) then 1 else 0) + committed_to c rest
  end.

(** An assignment of every point to one of [k] clusters of at most [max] points. *)
Definition within_max (k : nat) (max : N) (a : list nat) : Prop :=
  Forall (fun c => (c < k)%nat) a /\ forall c, (c < k)%nat -> (occupancy c a <= max)%N.
Definition extends (fixed : list (option nat)) (a : list nat) : Prop :=
  Forall2 (fun f c => f = None \/ f = Some c) fixed a.

Fixpoint zsum (f : nat -> Z) (n : nat) : Z :=
  match n with O => 0 | S n' => zsum f n' + f n' end.

(** ** Sums *)
Lemma zsum_ext f g n : (forall i, (i < n)%nat -> f i = g i) -> zsum f n = zsum g n.
Proof. induction n as [|n IH]; intros He; cbn; [done|]. rewrite IH, He by auto. done. Qed.

Lemma zsum_le f g n : (forall i, (i < n)%nat -> (f i <= g i)%Z) -> (zsum f n <= zsum g n)%Z.
Proof.
  induction n as [|n IH]; intros He; cbn; [done|]. pose proof (He n ltac:(lia)).
  specialize (IH (fun i Hi => He i ltac:(lia))). lia.
Qed.

Lemma zsum_split f n m : zsum f (n + m) = (zsum f n + zsum (fun i => f (n + i)%nat) m)%Z.
Proof. induction m as [|m IH]; cbn; [rewrite Nat.add_0_r; lia|]. rewrite Nat.add_succ_r. cbn. lia. Qed.

Lemma zsum_const n z : zsum (fun _ => z) n = (Z.of_nat n * z)%Z.
Proof. induction n as [|n IH]; cbn [zsum]; [lia|]. rewrite IH. lia. Qed.

Lemma zsum_nonneg f n : (forall i, (i < n)%nat -> (0 <= f i)%Z) -> (0 <= zsum f n)%Z.
Proof. intros Hf. pose proof (zsum_le (fun _ => 0%Z) f n Hf) as Hle. rewrite zsum_const in Hle. lia. Qed.

Lemma zsum_zero f n : (forall i, (i < n)%nat -> (0 <= f i)%Z) -> zsum f n = 0%Z -> forall i, (i < n)%nat -> f i = 0%Z.
Proof.
  induction n as [|n IH]; intros Hf Hz i Hi; [lia|]. cbn in Hz.
  pose proof (zsum_nonneg f n (fun j Hj => Hf j ltac:(lia))). pose proof (Hf n ltac:(lia)).
  destruct (decide (i = n)) as [->|]; [lia|]. apply IH; [intros; apply Hf; lia|lia|lia].
Qed.

Lemma zsum_one f n : (forall i, (i < n)%nat -> (0 <= f i)%Z) -> zsum f n = 1%Z ->
  exists i, (i < n)%nat /\ f i = 1%Z.
Proof.
  induction n as [|n IH]; intros Hf Hz; cbn in Hz; [lia|].
  pose proof (zsum_nonneg f n (fun j Hj => Hf j ltac:(lia))). pose proof (Hf n ltac:(lia)).
  destruct (decide (f n = 1%Z)) as [|Hn]; [by exists n; split; [lia|]|].
  destruct IH as (i & Hi & Hfi); [intros; apply Hf; lia|lia|]. exists i. split; [lia|done].
Qed.

Lemma edges_total_zsum es : edges_total es =
  zsum (fun i => Z.of_N (match es !! i with Some e => capacity e | None => 0%N end)) (length es).
Proof.
  induction es as [|e es IH] using rev_ind; [done|]. rewrite edges_total_app, length_app, IH. cbn [length].
  rewrite Nat.add_1_r. cbn [zsum]. rewrite lookup_app_r, Nat.sub_diag by done. cbn. f_equal; [|lia].
  apply zsum_ext. intros i Hi. by rewrite lookup_app_l.
Qed.

Lemma node_total_list g u es : g !! u = Some es -> node_total g u = edges_total es.
Proof. intros Hu. unfold node_total. by rewrite Hu. Qed.

Lemma node_total_zsum g u es : g !! u = Some es ->
  node_total g u = zsum (fun i => Z.of_N (cap_at g u i)) (length es).
Proof.
  intros Hu. unfold node_total. rewrite Hu. cbn [default]. rewrite edges_total_zsum. apply zsum_ext.
  intros i Hi. unfold cap_at, edge_at. by rewrite Hu.
Qed.

Lemma edge_at_list g u es i : g !! u = Some es -> edge_at g u i = es !! i.
Proof. intros Hu. unfold edge_at. by rewrite Hu. Qed.

Lemma map_seq_lookup {A} (f : nat -> A) n i : (i < n)%nat -> map f (seq 0 n) !! i = Some (f i).
Proof. intros Hi. rewrite list_lookup_fmap, lookup_seq_lt by done. done. Qed.

(** ** A full flow *)
Section full_flow.
Variables (R k : nat) (costs : nat -> nat -> f64) (upper : list N) (g0 g : MinCostFlow).
Hypothesis Hnet : network_ok R k costs upper g0.
Hypothesis Hsame : same_net g0 g.
Hypothesis Hmoved : moved g0 g 0 (1 + R + k) (Z.of_nat R).
Hypothesis Hupper : length upper = k.
Notation flow o c := (cap_at g (1 + R + c) o).

Lemma list_of_node u es0 : g0 !! u = Some es0 -> exists es, g !! u = Some es /\ length es = length es0.
Proof.
  intros Hu. destruct Hsame as (Hl & Hs & _).
  destruct (lookup_lt_is_Some_2 g u) as [es Hes]; [rewrite Hl; by apply lookup_lt_Some in Hu|].
  exists es. split; [done|]. assert (forall i, is_Some (es !! i) <-> is_Some (es0 !! i)) as Hi.
  { intros i. specialize (Hs u i). unfold edge_at in Hs. rewrite Hu, Hes in Hs. cbn in Hs.
    rewrite <-(fmap_is_Some edge_shape (es !! i)), Hs. by rewrite fmap_is_Some. }
  setoid_rewrite lookup_lt_is_Some in Hi. pose proof (proj1 (Hi (length es0))). pose proof (proj2 (Hi (length es))).
  destruct (Nat.lt_trichotomy (length es) (length es0)) as [|[|]]; [|done|]; exfalso.
  - assert (length es < length es)%nat; [by auto|lia].
  - assert (length es0 < length es0)%nat; [by auto|lia].
Qed.

Lemma total_of_node u es0 : g0 !! u = Some es0 ->
  node_total g u = zsum (fun i => Z.of_N (cap_at g u i)) (length es0).
Proof. intros Hu. destruct (list_of_node u es0 Hu) as (es & Hes & <-). by apply node_total_zsum. Qed.

Lemma source_lookup o : (o < R)%nat -> edge_at g0 0 o = Some (source_edge o).
Proof.
  intros Ho. destruct Hnet as (_ & _ & H0 & _). rewrite (edge_at_list _ _ _ _ H0). by apply map_seq_lookup.
Qed.
Lemma point_lookup o c : (o < R)%nat -> (c < k)%nat ->
  edge_at g0 (1 + o) (1 + c) = Some (MkEdge (1 + R + c) o 1 (costs o c)).
Proof.
  intros Ho Hc. destruct Hnet as (_ & _ & _ & Hp & _). rewrite (edge_at_list _ _ _ _ (Hp o Ho)).
  by apply (map_seq_lookup (fun c => MkEdge (1 + R + c) o 1 (costs o c))).
Qed.
Lemma point_back o : (o < R)%nat -> edge_at g0 (1 + o) 0 = Some (MkEdge 0 o 0 (fneg binary64 0)).
Proof. intros Ho. destruct Hnet as (_ & _ & _ & Hp & _). by rewrite (edge_at_list _ _ _ _ (Hp o Ho)). Qed.
Lemma cluster_lookup o c : (o < R)%nat -> (c < k)%nat ->
  edge_at g0 (1 + R + c) o = Some (cluster_edge costs c o).
Proof.
  intros Ho Hc. destruct Hnet as (_ & _ & _ & _ & Hcl).
  destruct (lookup_lt_is_Some_2 upper c) as [n Hn]; [lia|]. destruct (Hcl c n Hn) as (tail & Ht & _).
  rewrite (edge_at_list _ _ _ _ Ht), lookup_app_l by (by rewrite length_map, length_seq). by apply map_seq_lookup.
Qed.

(** A pair of edges keeps its total. *)
Lemma pair_kept u i e c : edge_at g0 u i = Some e ->
  cap_at g0 (edge_to e) (edge_rev e) = c ->
  (cap_at g u i + cap_at g (edge_to e) (edge_rev e))%N = (capacity e + c)%N.
Proof.
  intros He Hc. destruct (same_net_edge _ _ _ _ _ Hsame He) as (e' & He' & Ht & Hr).
  destruct Hsame as (_ & _ & Hp). specialize (Hp u i). unfold pair_sum in Hp. rewrite He, He', Ht, Hr, Hc in Hp.
  rewrite <-Hp. f_equal. unfold cap_at. by rewrite He'.
Qed.

Lemma point_pair o c : (o < R)%nat -> (c < k)%nat -> (cap_at g (1 + o) (1 + c) + flow o c)%N = 1%N.
Proof.
  intros Ho Hc. apply (pair_kept _ _ _ 0%N (point_lookup o c Ho Hc)). unfold cap_at. cbn [edge_to edge_rev].
  by rewrite cluster_lookup.
Qed.

Lemma flow_cases o c : (o < R)%nat -> (c < k)%nat -> flow o c = 0%N \/ flow o c = 1%N.
Proof. intros Ho Hc. pose proof (point_pair o c Ho Hc). lia. Qed.

Lemma source_empty o : (o < R)%nat -> cap_at g (1 + o) 0 = 1%N.
Proof.
  intros Ho. pose proof Hnet as (_ & _ & H0 & _).
  assert (node_total g 0 = 0)%Z as Hz.
  { rewrite Hmoved, decide_False, decide_True by lia.
    rewrite (node_total_zsum g0 0 _ H0), length_map, length_seq.
    rewrite (zsum_ext _ (fun _ => 1%Z)), zsum_const; [lia|]. intros i Hi. unfold cap_at. by rewrite source_lookup. }
  rewrite (total_of_node 0 _ H0), length_map, length_seq in Hz.
  pose proof (zsum_zero _ R (fun i _ => N2Z.is_nonneg _) Hz o Ho) as Hc.
  pose proof (pair_kept _ _ _ 0%N (source_lookup o Ho)) as Hp. cbn [edge_to edge_rev source_edge capacity] in Hp.
  specialize (Hp ltac:(unfold cap_at; by rewrite point_back)). lia.
Qed.

(** Every free point sends its unit to exactly one cluster. *)
Lemma point_flow o : (o < R)%nat -> zsum (fun c => Z.of_N (flow o c)) k = 1%Z.
Proof.
  intros Ho. pose proof Hnet as (_ & _ & _ & Hp & _). pose proof (Hp o Ho) as Hpo.
  assert (node_total g (1 + o) = Z.of_nat k) as Ht.
  { rewrite Hmoved, !decide_False by lia. rewrite (node_total_zsum g0 _ _ Hpo), point_edges_length.
    change (S k) with (1 + k)%nat. rewrite zsum_split. cbn [zsum]. unfold cap_at at 1. rewrite point_back by done. cbn.
    rewrite (zsum_ext _ (fun _ => 1%Z)), zsum_const; [lia|]. intros c Hc. unfold cap_at.
    change (edge_at g0 (S o) (S c)) with (edge_at g0 (1 + o) (1 + c)). by rewrite point_lookup. }
  rewrite (total_of_node _ _ Hpo), point_edges_length in Ht. change (S k) with (1 + k)%nat in Ht.
  rewrite zsum_split in Ht. cbn [zsum] in Ht. rewrite source_empty in Ht by done.
  assert (zsum (fun c => Z.of_N (cap_at g (1 + o) (1 + c))) k + zsum (fun c => Z.of_N (flow o c)) k = Z.of_nat k)%Z.
  { assert (forall n, (n <= k)%nat ->
      zsum (fun c => Z.of_N (cap_at g (1 + o) (1 + c))) n + zsum (fun c => Z.of_N (flow o c)) n = Z.of_nat n)%Z as Hn.
    { induction n as [|n IH]; intros Hn; [done|]. cbn [zsum]. pose proof (point_pair o n Ho ltac:(lia)).
      specialize (IH ltac:(lia)). lia. }
    by apply Hn. }
  lia.
Qed.

(** No cluster takes more than it has places. *)
Lemma cluster_flow c n : upper !! c = Some n -> (zsum (fun o => Z.of_N (flow o c)) R <= Z.of_N n)%Z.
Proof.
  intros Hn. pose proof Hnet as (_ & _ & _ & _ & Hcl). destruct (Hcl c n Hn) as (tail & Ht & HT).
  apply lookup_lt_Some in Hn. assert (node_total g (1 + R + c) = Z.of_N n) as Htot.
  { rewrite Hmoved, !decide_False by lia. rewrite (node_total_list _ _ _ Ht).
    rewrite edges_total_app, HT. rewrite edges_total_zsum, length_map, length_seq.
    rewrite (zsum_ext _ (fun _ => 0%Z)), zsum_const; [lia|]. intros i Hi.
    by rewrite map_seq_lookup. }
  rewrite (total_of_node _ _ Ht), length_app, length_map, length_seq, zsum_split in Htot.
  pose proof (zsum_nonneg (fun i => Z.of_N (cap_at g (1 + R + c) (R + i))) (length tail) (fun i _ => N2Z.is_nonneg _)).
  lia.
Qed.

(** ** Reading the assignment *)

(** The scan of a point's edges finds its first cluster with flow. *)
Lemma scan_edges o es : forall j, (o < R)%nat ->
  (forall i e, es !! i = Some e -> edge_to e = (1 + R + (j + i))%nat /\ edge_rev e = o) -> (j + length es = k)%nat ->
  match assigned_cluster g (1 + R) (1 + R + k) es with
  | Ok (Some a) => (a < k)%nat /\ flow o a = 1%N
  | Ok None => forall c, (j <= c < k)%nat -> flow o c <> 1%N
  | _ => False
  end.
Proof.
  induction es as [|e es IH]; intros j Ho He Hl; cbn [assigned_cluster length] in *.
  - intros c Hc. lia.
  - destruct (He 0%nat e eq_refl) as [Hto Hrev]. rewrite Nat.add_0_r in Hto.
    rewrite Hto, Hrev. rewrite (proj2 (Nat.ltb_ge _ _)), (proj2 (Nat.leb_gt _ _)) by lia. cbn [orb].
    destruct (same_net_edge _ _ _ _ _ Hsame (cluster_lookup o j Ho ltac:(lia))) as (r & Hr & _). rewrite Hr.
    cbn [expect rbind]. assert (flow o j = capacity r) as Hf by (unfold cap_at; by rewrite Hr).
    destruct (N.eqb_spec (capacity r) 1) as [H1|H1].
    + split; [lia|]. by replace (1 + R + j - (1 + R))%nat with j by lia; rewrite Hf.
    + assert (forall i x, es !! i = Some x -> edge_to x = (1 + R + (S j + i))%nat /\ edge_rev x = o) as Hpre
        by (intros i x Hi; destruct (He (S i) x Hi); split; [lia|done]).
      specialize (IH (S j) Ho Hpre ltac:(lia)). destruct (assigned_cluster _ _ _ es) as [[a|]| |]; [done| |done..].
      intros c Hc. destruct (decide (c = j)) as [->|]; [congruence|]. apply IH. lia.
Qed.

(** The edges of a point in the graph after the flow. *)
Definition assigned (o : nat) : nat :=
  match assigned_cluster g (1 + R) (1 + R + k) (default [] (g !! (1 + o)%nat)) with Ok (Some a) => a | _ => 0%nat end.

Lemma assigned_ok o : (o < R)%nat ->
  exists es, g !! (1 + o)%nat = Some es /\ assigned_cluster g (1 + R) (1 + R + k) es = Ok (Some (assigned o))
  /\ (assigned o < k)%nat /\ flow o (assigned o) = 1%N.
Proof.
  intros Ho. pose proof Hnet as (_ & _ & _ & Hp & _).
  destruct (list_of_node _ _ (Hp o Ho)) as (es & Hes & Hlen). rewrite point_edges_length in Hlen.
  exists es. split; [done|].
  assert (forall i e0, edge_at g0 (1 + o) i = Some e0 -> exists e, es !! i = Some e /\ edge_to e = edge_to e0 /\ edge_rev e = edge_rev e0) as Hsh.
  { intros i e0 He0. destruct (same_net_edge _ _ _ _ _ Hsame He0) as (e & He & ?). exists e.
    by rewrite (edge_at_list _ _ _ _ Hes) in He. }
  destruct es as [|e es]; [done|]. cbn in Hlen. destruct (Hsh 0%nat _ (point_back o Ho)) as (e' & [= <-] & Hto & _).
  assert (forall i x, es !! i = Some x -> edge_to x = (1 + R + (0 + i))%nat /\ edge_rev x = o) as Hpre.
  { intros i x Hi. destruct (Hsh (1 + i)%nat _ (point_lookup o i Ho ltac:(apply lookup_lt_Some in Hi; lia)))
      as (x' & Hx & Ht & Hr). change (es !! i = Some x') in Hx. rewrite Hi in Hx. by injection Hx as <-. }
  pose proof (scan_edges o es 0 Ho Hpre ltac:(lia)) as Hscan.
  assert (assigned_cluster g (1 + R) (1 + R + k) (e :: es) = assigned_cluster g (1 + R) (1 + R + k) es) as Hskip
    by (cbn [assigned_cluster]; by rewrite Hto).
  unfold assigned. rewrite Hes. cbn [default from_option id]. rewrite Hskip.
  destruct (assigned_cluster _ _ _ es) as [[a|]| |]; [done| |done..].
  destruct (zsum_one _ k (fun c _ => N2Z.is_nonneg _) (point_flow o Ho)) as (c & Hc & Hf).
  exfalso. apply (Hscan c); lia.
Qed.

(** The points assigned to a cluster are within its places. *)
Lemma assigned_total c n : upper !! c = Some n ->
  (zsum (fun o => if decide (assigned o = c) then 1 else 0) R <= Z.of_N n)%Z.
Proof.
  intros Hn. etrans; [|by apply (cluster_flow c n)]. apply zsum_le. intros o Ho.
  destruct (assigned_ok o Ho) as (_ & _ & _ & _ & Hf). case_decide as Hc; [|lia]. subst c. by rewrite Hf.
Qed.

(** The loop over the free points fills them in. *)
Lemma read_assignment_ok rest : forall o pre, (o + length (free_points (length pre) rest) = R)%nat ->
  read_assignment g (1 + R) (1 + R + k)
    (zip (seq o (length (free_points (length pre) rest))) (free_points (length pre) rest)) (pre ++ rest)
  = Ok (Some (pre ++ map Some (fill assigned o rest))).
Proof.
  induction rest as [|[c|] rest IH]; intros o pre Hlen; cbn [free_points fill map] in *.
  - done.
  - rewrite cons_middle, app_assoc. replace (S (length pre)) with (length (pre ++ [Some c])) in *
      by (rewrite length_app; cbn; lia). rewrite IH by done. by rewrite <-app_assoc.
  - cbn [length seq zip zip_with read_assignment] in *.
    destruct (assigned_ok o ltac:(lia)) as (es & Hes & Ha & _). change (1 + o)%nat with (S o) in Hes.
    cbn [Nat.add] in *. rewrite Hes. cbn [expect rbind]. rewrite Ha. cbn [rbind].
    rewrite lookup_app_r, Nat.sub_diag by done. cbn [expect rbind].
    rewrite insert_app_r_alt, Nat.sub_diag by done. cbn [insert list_insert].
    rewrite cons_middle, app_assoc. replace (S (length pre)) with (length (pre ++ [Some (assigned o)])) in *
      by (rewrite length_app; cbn; lia). rewrite IH by lia. by rewrite <-app_assoc.
Qed.
End full_flow.

(** ** The fixed points *)
Lemma free_points_ok fixed : forall n i p, free_points n fixed !! i = Some p -> (n <= p < n + length fixed)%nat.
Proof.
  induction fixed as [|[c|] fixed IH]; intros n i p Hi; cbn in *; [done| |].
  - apply IH in Hi. lia.
  - destruct i as [|i]; [injection Hi as <-; lia|]. apply IH in Hi. lia.
Qed.

Lemma free_points_length fixed : forall n m, length (free_points n fixed) = length (free_points m fixed).
Proof. induction fixed as [|[c|] fixed IH]; intros n m; cbn; auto. Qed.

Lemma commit_fixed_ok k max fixed : forall n committed rem, length committed = k ->
  Forall (fun m => (m + len fixed <= USIZE_MAX)%N /\ (m <= max)%N) committed ->
  match commit_fixed k max n fixed committed rem with
  | Ok (Some (committed', rem')) =>
      rem' = rem ++ free_points n fixed /\ length committed' = k /\ Forall (fun m => (m <= max)%N) committed'
      /\ Forall (fun f => forall c, f = Some c -> (c < k)%nat) fixed
      /\ forall c m, committed !! c = Some m -> committed' !! c = Some (m + committed_to c fixed)%N
  | Ok None => True
  | _ => False
  end.
Proof.
  induction fixed as [|[c|] fixed IH]; intros n committed rem Hl Hf; cbn [commit_fixed free_points committed_to].
  - split_and!; [by rewrite app_nil_r|done| |constructor|].
    + eapply Forall_impl; [exact Hf|]. by intros m [_ ?].
    + intros c m Hm. by rewrite N.add_0_r.
  - destruct (Nat.ltb_spec c k) as [Hc|]; [|done].
    destruct (lookup_lt_is_Some_2 committed c) as [m Hm]; [lia|]. rewrite Hm. cbn [expect rbind].
    pose proof (proj1 (Forall_lookup _ _) Hf c m Hm) as [Hov _]. unfold len in *. cbn [length] in *.
    unfold checked_add. rewrite (proj2 (N.leb_le _ _)) by lia. cbn [expect rbind].
    destruct (N.ltb_spec max (m + 1)) as [|Hle]; [done|].
    specialize (IH (S n) (<[c:=(m + 1)%N]> committed) rem ltac:(by rewrite length_insert)).
    destruct (commit_fixed _ _ _ _ _ _) as [[[committed' rem']|]| |]; [|done|apply IH|apply IH].
    2,3: apply Forall_insert; [eapply Forall_impl; [exact Hf|]; cbn; intros; lia|lia].
    destruct IH as (-> & Hl' & Hmax & Hk & Hcom).
    { apply Forall_insert; [eapply Forall_impl; [exact Hf|]; cbn; intros; lia|lia]. }
    split_and!; [done|done|done|constructor; [by intros c' [= <-]|done]|].
    intros c' m' Hm'. destruct (decide (c' = c)) as [->|Hne].
    + rewrite (Hcom c (m + 1)%N) by (apply list_lookup_insert_eq; lia). f_equal. rewrite decide_True by done.
      assert (m' = m) by congruence. lia.
    + rewrite (Hcom c' m') by (by rewrite list_lookup_insert_ne). by rewrite decide_False by congruence.
  - specialize (IH (S n) committed (rem ++ [n]) Hl).
    destruct (commit_fixed _ _ _ _ _ _) as [[[committed' rem']|]| |]; [|done|apply IH|apply IH].
    2,3: eapply Forall_impl; [exact Hf|]; unfold len; cbn; intros; lia.
    destruct IH as (-> & Hl' & Hmax & Hk & Hcom).
    { eapply Forall_impl; [exact Hf|]; unfold len; cbn; intros; lia. }
    split_and!; [by rewrite <-app_assoc|done|done|constructor; [done|done]|].
    intros c' m' Hm'. by apply Hcom.
Qed.

Definition bounds_of (min max count : N) : N * N := ((min - count)%N, (max - count)%N).

Lemma remaining_bounds_ok min max committed : forall required available,
  (required <= available)%N -> (available + len committed * max <= USIZE_MAX)%N ->
  match remaining_bounds min max committed required available with
  | Ok (Some (bounds, required', _)) =>
      bounds = map (bounds_of min max) committed
      /\ Forall (fun m => (min - m <= max - m)%N) committed
      /\ (required <= required')%N
      /\ ((required' <= required)%N -> Forall (fun m => (min <= m)%N) committed)
  | Ok None => True
  | _ => False
  end.
Proof.
  induction committed as [|m committed IH]; intros required available Hra Hov; cbn [remaining_bounds].
  - split_and!; [done|constructor|done|constructor].
  - unfold saturating_sub. destruct (N.ltb_spec (max - m) (min - m)) as [|Hle]; [done|].
    unfold len in *. cbn [length] in *. unfold checked_add at 1 2.
    rewrite (proj2 (N.leb_le _ _)) by lia. cbn [expect rbind].
    rewrite (proj2 (N.leb_le _ _)) by lia. cbn [expect rbind].
    specialize (IH (required + (min - m))%N (available + (max - m))%N ltac:(lia) ltac:(lia)).
    destruct (remaining_bounds _ _ _ _ _) as [[[[bounds required'] available']|]| |]; cbn [rbind]; [|done..].
    destruct IH as (-> & Hf & Hreq & Hmin). split_and!; [done|by constructor|lia|].
    intros Hr. constructor; [lia|]. apply Hmin. lia.
Qed.

(** ** Filling in *)
Lemma fill_extends A o fixed : extends fixed (fill A o fixed).
Proof.
  revert o. induction fixed as [|[c|] fixed IH]; intros o; cbn.
  - constructor.
  - constructor; [by right|apply IH].
  - constructor; [by left|apply IH].
Qed.

Lemma fill_occupancy A c fixed : forall o n, Z.of_N (occupancy c (fill A o fixed)) =
  (Z.of_N (committed_to c fixed)
   + zsum (fun i => if decide (A (o + i)%nat = c) then 1 else 0) (length (free_points n fixed)))%Z.
Proof.
  induction fixed as [|[d|] fixed IH]; intros o n; cbn [fill occupancy committed_to free_points].
  - done.
  - rewrite N2Z.inj_add, (IH o (S n)). repeat case_decide; simplify_eq; lia.
  - rewrite N2Z.inj_add, (IH (S o) (S n)). cbn [length].
    rewrite (decide_False (P := None = Some c)) by done.
    change (S (length (free_points (S n) fixed))) with (1 + length (free_points (S n) fixed))%nat. rewrite zsum_split. cbn [zsum]. rewrite Nat.add_0_r.
    rewrite (zsum_ext (fun i => if decide (A (S o + i)%nat = c) then 1 else 0)%Z
      (fun i => if decide (A (o + (1 + i))%nat = c) then 1 else 0)%Z)
      by (intros i _; by replace (S o + i)%nat with (o + (1 + i))%nat by lia).
    repeat case_decide; lia.
Qed.

Lemma fill_lt A k fixed : forall o n, Forall (fun f => forall c, f = Some c -> (c < k)%nat) fixed ->
  (forall i, (i < length (free_points n fixed))%nat -> (A (o + i)%nat < k)%nat) ->
  Forall (fun c => (c < k)%nat) (fill A o fixed).
Proof.
  induction fixed as [|[d|] fixed IH]; intros o n Hf HA; cbn [fill free_points] in *; [constructor| |];
    apply Forall_cons in Hf as [Hd Hf]; constructor.
  - by apply Hd.
  - by apply (IH o (S n)).
  - rewrite <-(Nat.add_0_r o). apply HA. cbn. lia.
  - apply (IH (S o) (S n)); [done|]. intros i Hi. rewrite Nat.add_succ_l, <-Nat.add_succ_r. apply HA. cbn. lia.
Qed.

Lemma mapM_all_some {A} (l : list A) : mapM id (map Some l) = Some l.
Proof. apply mapM_Some. induction l; cbn; constructor; auto. Qed.

Lemma cost_no_panic d k a : forall n t,
  match assignment_cost_from d k n t a with Ok _ => True | Err e => exists m, e = UnsatisfiableConstraint m | Panic => False end.
Proof.
  induction a as [|c a IH]; intros n t; cbn; [done|]. destruct (cost_offset n k c); cbn; [|by eexists].
  destruct (d !! _); cbn; [apply IH|by eexists].
Qed.

Lemma map_snd_bounds min max committed : map snd (map (bounds_of min max) committed) = map (fun m => (max - m)%N) committed.
Proof. rewrite map_map. by apply map_ext. Qed.

Lemma bounds_in_range min max committed : (len committed * max <= USIZE_MAX)%N ->
  Forall (fun m => (min - m <= max - m)%N) committed ->
  Forall (fun b => (b.1 <= b.2 <= USIZE_MAX)%N) (map (bounds_of min max) committed).
Proof.
  intros Hm Hf. assert (committed = [] \/ max <= USIZE_MAX)%N as [->|Hmax]; [|constructor|].
  { destruct committed; [by left|right]. unfold len in Hm. cbn [length] in Hm. nia. }
  apply Forall_map. eapply Forall_impl; [exact Hf|]. intros m Hl. cbn beta in Hl.
  unfold bounds_of. cbn [fst snd]. lia.
Qed.

(** ** The subproblem *)
Section subproblem.
Variables (distances : list f64) (n k : nat) (min max : N).
Hypothesis Hdistances : length distances = (n * k)%nat.
Hypothesis Hn : (N.of_nat n <= USIZE_MAX)%N.
Hypothesis Hk : (N.of_nat k * max <= USIZE_MAX)%N.

Definition subproblem_cost (points : list nat) (i c : nat) : f64 :=
  default 0%N (distances !! (default 0 (points !! i) * k + c)%nat).

Lemma subproblem_costs fixed i p c : length fixed = n -> free_points 0 fixed !! i = Some p -> (c < k)%nat ->
  distances !! (p * k + c)%nat = Some (subproblem_cost (free_points 0 fixed) i c).
Proof.
  intros Hl Hi Hc. unfold subproblem_cost. rewrite Hi. cbn [default from_option id].
  apply free_points_ok in Hi. destruct (lookup_lt_is_Some_2 distances (p * k + c)%nat) as [d ->]; [nia|done].
Qed.

(** What the fixed points leave over. *)
Definition left_over (fixed : list (option nat)) (committed : list N) : Prop :=
  length committed = k /\ Forall (fun m => (m <= max)%N) committed
  /\ Forall (fun f => forall c, f = Some c -> (c < k)%nat) fixed
  /\ forall c, (c < k)%nat -> committed !! c = Some (committed_to c fixed).

(** A full flow gives the assignment. *)
Lemma full_flow_assigns fixed committed g0 g : length fixed = n -> left_over fixed committed ->
  network_ok (length (free_points 0 fixed)) k (subproblem_cost (free_points 0 fixed))
    (map (fun m => (max - m)%N) committed) g0 ->
  same_net g0 g -> moved g0 g 0 (1 + length (free_points 0 fixed) + k) (Z.of_nat (length (free_points 0 fixed))) ->
  exists a, read_assignment g (1 + length (free_points 0 fixed)) (1 + length (free_points 0 fixed) + k)
      (imap pair (free_points 0 fixed)) fixed = Ok (Some (map Some a))
    /\ extends fixed a /\ within_max k max a
    /\ forall c, (c < k)%nat -> (committed_to c fixed <= occupancy c a)%N.
Proof.
  intros Hl (Hlc & Hmax & Hlt & Hcom) Hnet Hsame Hmoved. set (R := length (free_points 0 fixed)) in *.
  assert (Hup : length (map (fun m => (max - m)%N) committed) = k) by (by rewrite length_map).
  exists (fill (assigned R k g) 0 fixed). rewrite imap_pair_zip. unfold within_max. split_and!.
  - by apply (read_assignment_ok R k _ _ g0 g Hnet Hsame Hmoved Hup fixed 0 []).
  - apply fill_extends.
  - apply (fill_lt _ _ _ 0 0); [done|]. intros i Hi.
    destruct (assigned_ok R k _ _ g0 g Hnet Hsame Hmoved Hup i Hi) as (_ & _ & _ & Ha & _). exact Ha.
  - intros c Hc. pose proof (fill_occupancy (assigned R k g) c fixed 0 0) as Ho. fold R in Ho.
    pose proof (Hcom c Hc) as Hm. pose proof (proj1 (Forall_lookup _ _) Hmax _ _ Hm) as Hle. cbn in Hle.
    pose proof (assigned_total R k _ _ g0 g Hnet Hsame Hmoved Hup c (max - committed_to c fixed)
      ltac:(by rewrite list_lookup_fmap, Hm)). cbn [Nat.add] in Ho. lia.
  - intros c Hc. pose proof (fill_occupancy (assigned R k g) c fixed 0 0) as Ho. fold R in Ho.
    pose proof (zsum_nonneg (fun i => if decide (assigned R k g (0 + i)%nat = c) then 1 else 0)%Z R
      ltac:(intros i _; cbn beta; case_decide; lia)). lia.
Qed.

Lemma solve_subproblem_ok fixed : length fixed = n ->
  match solve_subproblem distances n k min max fixed with
  | Ok (Some s) => exists a, extends fixed a /\ within_max k max a /\ assignment_cost distances k a = Ok (true_cost s)
      /\ (free_points 0 fixed = [] -> forall c, (c < k)%nat -> (min <= occupancy c a)%N)
  | Ok None => True
  | Err e => exists m, e = UnsatisfiableConstraint m
  | Panic => False
  end.
Proof.
  intros Hl. unfold solve_subproblem.
  pose proof (commit_fixed_ok k max fixed 0 (replicate k 0%N) [] (length_replicate _ _)) as Hcom.
  destruct (commit_fixed _ _ _ _ _ _) as [[[committed rem]|]|e|]; cbn [rbind]; [|done|exfalso..].
  2,3: apply Hcom, Forall_replicate; unfold len; lia.
  destruct Hcom as (-> & Hlc & Hmax & Hlt & Hcom); [apply Forall_replicate; unfold len; lia|].
  assert (left_over fixed committed) as Hleft.
  { split_and!; [done..|]. intros c Hc. by rewrite (Hcom c 0%N) by (by apply lookup_replicate_2). }
  cbn [app]. pose proof (remaining_bounds_ok min max committed 0 0 ltac:(lia) ltac:(unfold len; lia)) as Hb.
  destruct (remaining_bounds _ _ _ _ _) as [[[[bounds required] available]|]| |]; cbn [rbind]; [|done..].
  destruct Hb as (-> & Hf & _ & Hmin).
  destruct (_ || _) eqn:Hsum; [done|]. apply orb_false_iff in Hsum as [Hreq _]. apply N.ltb_ge in Hreq.
  destruct (build_flow_ok distances k (free_points 0 fixed) (map (bounds_of min max) committed)
    (subproblem_cost (free_points 0 fixed))) as (g0 & -> & Hnet).
  { by rewrite length_map. }
  { apply bounds_in_range; [unfold len; rewrite Hlc; done|done]. }
  { intros i p c Hi Hc. by apply subproblem_costs. }
  rewrite map_snd_bounds in Hnet. cbn [rbind]. pose proof Hnet as (Hlg & Hg & _).
  pose proof (send_loop_ok 0 (1 + length (free_points 0 fixed) + k) (len (free_points 0 fixed))
    (length (free_points 0 fixed)) 0 g0 Hg ltac:(lia) ltac:(lia) ltac:(lia) ltac:(unfold len; lia)) as Hflow.
  unfold send_flow. replace (N.to_nat (len _)) with (length (free_points 0 fixed)) by (unfold len; lia).
  destruct (send_loop _ _ _ _ _ _) as [[sent g]|[]|]; cbn [rbind]; [|done|done|by eexists|done..].
  destruct Hflow as (_ & Hsame & Hmoved). rewrite N.sub_0_r in Hmoved.
  destruct (N.eqb_spec sent (len (free_points 0 fixed))) as [->|]; [|done].
  cbn [negb]. unfold len in Hmoved. rewrite nat_N_Z in Hmoved.
  destruct (full_flow_assigns fixed committed g0 g Hl Hleft Hnet Hsame Hmoved) as (a & -> & He & Hw & Ho).
  cbn [rbind mbind option_bind]. rewrite mapM_all_some.
  pose proof (cost_no_panic distances k a 0 0%N) as Hcost. fold (assignment_cost distances k a) in Hcost.
  destruct (assignment_cost distances k a) as [total| |] eqn:Ec; cbn [rbind]; [|done..].
  exists a. split_and!; [done..|]. intros Hfree c Hc.
  etrans; [|by apply Ho]. rewrite Hfree in Hreq. change (len (@nil nat)) with 0%N in Hreq. specialize (Hmin ltac:(lia)).
  apply (proj1 (Forall_lookup _ _) Hmin c). destruct Hleft as (_ & _ & _ & Hcm). by apply Hcm.
Qed.

(** ** The lexicographic search *)
Notation solve_fixed := (solve_subproblem distances n k min max).
Definition accepts (optimal : f64) (fixed : list (option nat)) (i c : nat) : Prop :=
  exists s, solve_fixed (<[i := Some c]> fixed) = Ok (Some s) /\ costs_equal (true_cost s) optimal = true.
Definition rejects (optimal : f64) (fixed : list (option nat)) (i c : nat) : Prop :=
  match solve_fixed (<[i := Some c]> fixed) with
  | Ok (Some s) => costs_equal (true_cost s) optimal = false
  | Ok None => True
  | _ => False
  end.

Lemma choose_cluster_ok optimal fixed i clusters : length fixed = n ->
  match choose_cluster distances n k min max optimal fixed i clusters with
  | Ok (Some c) => exists pre post, clusters = pre ++ c :: post /\ accepts optimal fixed i c
      /\ Forall (rejects optimal fixed i) pre
  | Ok None => True
  | Err e => exists m, e = UnsatisfiableConstraint m
  | Panic => False
  end.
Proof.
  intros Hl. induction clusters as [|c clusters IH]; cbn [choose_cluster]; [done|].
  pose proof (solve_subproblem_ok (<[i := Some c]> fixed) ltac:(by rewrite length_insert)) as Hs.
  assert (rejects optimal fixed i c ->
    match choose_cluster distances n k min max optimal fixed i clusters with
    | Ok (Some c0) => exists pre post, c :: clusters = pre ++ c0 :: post /\ accepts optimal fixed i c0
        /\ Forall (rejects optimal fixed i) pre
    | Ok None => True
    | Err e => exists m, e = UnsatisfiableConstraint m
    | Panic => False
    end) as Hnext.
  { intros Hr. destruct (choose_cluster _ _ _ _ _ _ _ _ clusters) as [[c0|]| |]; [|done..].
    destruct IH as (pre & post & -> & Ha & Hf). exists (c :: pre), post. split_and!; [done..|by constructor]. }
  unfold rejects in Hnext.
  destruct (solve_fixed (<[i := Some c]> fixed)) as [[s|]| |] eqn:E; cbn [rbind]; [|by apply Hnext|done..].
  destruct (costs_equal (true_cost s) optimal) eqn:Ec; [|by apply Hnext].
  exists [], clusters. split_and!; [done|by exists s|constructor].
Qed.

(** The first points fixed as in [l], the others free. *)
Definition prefix (l : list nat) (i : nat) : list (option nat) := map Some (take i l) ++ replicate (n - i) None.

Lemma prefix_length l i : (i <= length l)%nat -> (i <= n)%nat -> length (prefix l i) = n.
Proof. intros Hi Hin. unfold prefix. rewrite length_app, length_map, length_replicate, length_take. lia. Qed.

Lemma prefix_app l l' i : (i <= length l)%nat -> prefix (l ++ l') i = prefix l i.
Proof. intros Hi. unfold prefix. by rewrite take_app_le. Qed.

Lemma prefix_insert l c : (length l < n)%nat -> <[length l := Some c]> (prefix l (length l)) = prefix (l ++ [c]) (S (length l)).
Proof.
  intros Hl. unfold prefix. rewrite firstn_all, insert_app_r_alt by (by rewrite length_map).
  rewrite length_map, Nat.sub_diag. rewrite (take_ge (l ++ [c])) by (rewrite length_app; cbn; lia).
  rewrite map_app, <-app_assoc. f_equal. destruct (n - length l)%nat as [|m] eqn:E; [lia|].
  replace (n - S (length l))%nat with m by lia. done.
Qed.

(** The choice for a point: its cluster preserves the optimum, no smaller one does. *)
Definition first_choice (optimal : f64) (l : list nat) (i : nat) : Prop :=
  exists c, l !! i = Some c /\ (c < k)%nat /\ accepts optimal (prefix l i) i c
  /\ forall c', (c' < c)%nat -> rejects optimal (prefix l i) i c'.

Lemma first_choice_app optimal l l' i : (i < length l)%nat -> first_choice optimal l i -> first_choice optimal (l ++ l') i.
Proof.
  intros Hi (c & Hc & H). exists c. rewrite prefix_app by lia. split; [by rewrite lookup_app_l|done].
Qed.

Lemma fix_point_ok optimal l : (length l < n)%nat ->
  match fix_point distances n k min max optimal (prefix l (length l)) (length l) with
  | Ok fixed => exists c, fixed = prefix (l ++ [c]) (S (length l)) /\ first_choice optimal (l ++ [c]) (length l)
  | Err e => exists m, e = UnsatisfiableConstraint m
  | Panic => False
  end.
Proof.
  intros Hl. unfold fix_point.
  pose proof (choose_cluster_ok optimal (prefix l (length l)) (length l) (seq 0 k)
    ltac:(apply prefix_length; lia)) as Hc.
  destruct (choose_cluster _ _ _ _ _ _ _ _ _) as [[c|]| |]; cbn [rbind ok_or]; [|by eexists|done..].
  destruct Hc as (pre & post & Hseq & Ha & Hr). exists c. split; [by apply prefix_insert|].
  assert (seq 0 k !! length pre = Some c) as Hp by (by rewrite Hseq, list_lookup_middle).
  apply lookup_seq in Hp as [-> Hk'].
  exists (length pre). rewrite list_lookup_middle, prefix_app by done. split_and!; [done|done|done|].
  intros c' Hc'. apply (proj1 (Forall_lookup _ _) Hr c').
  assert (seq 0 k !! c' = Some c') as Hc by (apply lookup_seq; lia). rewrite Hseq, lookup_app_l in Hc by done. done.
Qed.

Lemma search_ok optimal m : forall l, (length l + m = n)%nat -> (forall i, (i < length l)%nat -> first_choice optimal l i) ->
  match try_fold (fix_point distances n k min max optimal) (prefix l (length l)) (seq (length l) m) with
  | Ok fixed => exists a, length a = n /\ fixed = map Some a /\ forall i, (i < n)%nat -> first_choice optimal a i
  | Err e => exists m, e = UnsatisfiableConstraint m
  | Panic => False
  end.
Proof.
  induction m as [|m IH]; intros l Hl Hf; cbn [seq try_fold].
  - exists l. rewrite Nat.add_0_r in Hl. split_and!; [done| |by rewrite <-Hl].
    unfold prefix. rewrite firstn_all, Hl, Nat.sub_diag. by rewrite app_nil_r.
  - pose proof (fix_point_ok optimal l ltac:(lia)) as Hp.
    destruct (fix_point _ _ _ _ _ _ _ _) as [fixed| |]; cbn [rbind]; [|done..].
    destruct Hp as (c & -> & Hc). replace (S (length l)) with (length (l ++ [c])) by (rewrite length_app; cbn; lia).
    apply IH; [rewrite length_app; cbn; lia|]. intros i Hi. rewrite length_app in Hi. cbn in Hi.
    destruct (decide (i = length l)) as [->|]; [done|]. apply first_choice_app; [lia|apply Hf; lia].
Qed.

Lemma extends_all a a' : extends (map Some a) a' -> a' = a.
Proof.
  revert a'. induction a as [|c a IH]; intros a' He; inversion He as [|? c' ? a'' Hc He']; subst; [done|].
  f_equal; [destruct Hc; [done|congruence]|by apply IH].
Qed.

Lemma free_points_all a o : free_points o (map Some a) = [].
Proof. revert o. induction a as [|c a IH]; intros o; cbn; auto. Qed.

(** The cost of an assignment that is fixed entirely. *)
Lemma all_fixed a s : length a = n -> solve_fixed (map Some a) = Ok (Some s) ->
  within_max k max a /\ (forall c, (c < k)%nat -> (min <= occupancy c a)%N) /\ assignment_cost distances k a = Ok (true_cost s).
Proof.
  intros Ha Hs. pose proof (solve_subproblem_ok (map Some a) ltac:(by rewrite length_map)) as Ho. rewrite Hs in Ho.
  destruct Ho as (a' & He & Hw & Hc & Hmin). apply extends_all in He as ->.
  split_and!; [done| |done]. apply Hmin, free_points_all.
Qed.

Lemma choices_final optimal a : length a = n -> (0 < n)%nat -> (forall i, (i < n)%nat -> first_choice optimal a i) ->
  exists s, solve_fixed (map Some a) = Ok (Some s) /\ costs_equal (true_cost s) optimal = true.
Proof.
  intros Ha Hpos Hf. destruct a as [|c l _] using rev_ind; [cbn in Ha; lia|]. rewrite length_app in Ha. cbn in Ha.
  destruct (Hf (length l) ltac:(lia)) as (c' & Hc & _ & (s & Hs & He) & _).
  rewrite list_lookup_middle in Hc by done. injection Hc as <-. exists s. split; [|done].
  rewrite prefix_app, prefix_insert in Hs by lia. rewrite <-Hs. unfold prefix.
  rewrite take_ge by (rewrite length_app; cbn; lia). replace (n - S (length l))%nat with 0%nat by lia.
  by rewrite app_nil_r.
Qed.

(** What the search returns, in terms of the subproblems. *)
Lemma lexicographic_choices :
  match solve_lexicographic_assignment distances n k min max with
  | Ok a => length a = n /\ exists optimal s,
      solve_fixed (replicate n None) = Ok (Some optimal) /\ solve_fixed (map Some a) = Ok (Some s)
      /\ costs_equal (true_cost s) (true_cost optimal) = true
      /\ forall i, (i < n)%nat -> first_choice (true_cost optimal) a i
  | Err e => exists m, e = UnsatisfiableConstraint m
  | Panic => False
  end.
Proof.
  unfold solve_lexicographic_assignment. pose proof (solve_subproblem_ok (replicate n None) (length_replicate _ _)) as Hs.
  destruct (solve_fixed (replicate n None)) as [[optimal|]| |] eqn:Eopt; cbn [rbind ok_or]; [|by eexists|done..].
  pose proof (search_ok (true_cost optimal) n [] eq_refl ltac:(cbn; lia)) as Ho.
  unfold prefix in Ho. cbn [length take map app] in Ho. rewrite Nat.sub_0_r in Ho.
  destruct (try_fold _ _ _) as [fixed| |]; cbn [rbind]; [|done..].
  destruct Ho as (a & Ha & -> & Hf). rewrite mapM_all_some. cbn [ok_or]. split; [done|]. exists optimal.
  destruct (decide (n = 0)%nat) as [Hz|Hpos].
  - exists optimal. destruct a; [|cbn in Ha; lia]. rewrite Hz in Eopt |- *. cbn [map].
    destruct (all_fixed [] optimal) as (_ & _ & Hc); [done|by rewrite Hz|].
    split_and!; [done|done| |lia]. injection Hc as <-. by vm_compute.
  - destruct (choices_final _ a Ha ltac:(lia) Hf) as (s & Hs' & He). by exists s.
Qed.
End subproblem.

(** C30 The assignment solver, with k times the maximum of points a usize, does not
    panic on a full distance matrix and only fails with an unsatisfiable constraint; an
    assignment it returns gives every point one of the k clusters, every cluster at
    least the minimum and at most the maximum of points, a cost equal (in the tolerance
    of the code) to that of the solved unconstrained problem, and point by point the
    smallest cluster with which that cost can still be kept. *)
Theorem lexicographic_assignment_sound distances n k min max :
  length distances = (n * k)%nat -> (N.of_nat n <= USIZE_MAX)%N -> (N.of_nat k * max <= USIZE_MAX)%N ->
  match solve_lexicographic_assignment distances n k min max with
  | Ok a =>
      length a = n /\ Forall (fun c => (c < k)%nat) a
      /\ (forall c, (c < k)%nat -> (min <= occupancy c a <= max)%N)
      /\ exists optimal total,
           solve_subproblem distances n k min max (replicate n None) = Ok (Some optimal)
           /\ assignment_cost distances k a = Ok total /\ costs_equal total (true_cost optimal) = true
           /\ forall i, (i < n)%nat -> first_choice distances n k min max (true_cost optimal) a i
  | Err e => exists m, e = UnsatisfiableConstraint m
  | Panic => False
  end.
Proof.
  intros Hd Hn Hk. pose proof (lexicographic_choices distances n k min max Hd Hn Hk) as Ho.
  destruct (solve_lexicographic_assignment _ _ _ _ _) as [a| |]; [|done..].
  destruct Ho as (Ha & optimal & s & Hopt & Hs & He & Hf).
  destruct (all_fixed distances n k min max Hd Hn Hk a s Ha Hs) as ((Hlt & Hmax) & Hmin & Hc).
  split_and!; [done|done|auto|]. by exists optimal, (true_cost s).
Qed.
