(* ===== verification/Dcbc.v ===== *)
(** * The streaming DCBC trainer and classifier

    crates/lexongraph-dcbc-streaming/src/lib.rs: passes over the data, each of
    which assigns the points to the nearest centroids under the occupancy bounds
    and recomputes the centroids. Embeddings are lists of [f32], points and
    centroids lists of [f64], indices of points and clusters [nat]. *)
From S2P Require Import Prelude Hash Ieee Clustering MinCostFlow DcbcSolver.

Notation DenseVectors := (list (list f64)) (only parsing).

Record OccupancyBounds := MkBounds { bounds_min : N; bounds_max : N }.
Record PreparedPass := { raw_points : DenseVectors; normalized_points : DenseVectors; prepared_dimensions : N }.
Record PassFingerprint := { fingerprint_count : N; digest : BlockHash }.
Record IterationResult := {
  assignment : list nat; raw_centroids : DenseVectors; normalized_centroids : DenseVectors;
  cluster_sizes : list nat; objective_value : f64
}.

(** [impl PartialEq for PassFingerprint], derived *)
Definition PassFingerprint_eqb (a b : PassFingerprint) : bool :=
  (fingerprint_count a =? fingerprint_count b)%N
  && bool_decide (as_bytes (digest a) = as_bytes (digest b)).

(** ** Vectors *)

Definition squared_norm (vector : list f64) : f64 := sum_f64 (map (fun value => fmul binary64 value value) vector).

Definition ensure_non_zero_norm (embedding : list f32) : outcome unit :=
  guard? negb (feqb binary64 (squared_norm (map f64_of_f32 embedding)) 0) else
    MalformedInput "embeddings must have non-zero Euclidean norm" in
  Ok tt.

Definition euclidean_norm (vector : list f64) : outcome f64 :=
  let norm := fsqrt binary64 (squared_norm vector) in
  guard? f64_is_finite norm else constraint_error "Euclidean norm became non-finite" in
  Ok norm.

Definition normalize_vector (vector : list f64) (norm : f64) : outcome (list f64) :=
  guard? negb (feqb binary64 norm 0) else constraint_error "cannot normalize a vector whose norm is zero" in
  let normalized := map (fun value => fdiv binary64 value norm) vector in
  guard? forallb f64_is_finite normalized else constraint_error "normalization produced a non-finite value" in
  Ok normalized.

Definition normalize_embedding (embedding : list f32) : outcome (list f64) :=
  let raw := map f64_of_f32 embedding in
  let? norm := euclidean_norm raw in
  normalize_vector raw norm.

Definition cosine_distance_from_normalized (left right : list f64) : outcome f64 :=
  guard? (len left =? len right)%N else
    constraint_error ("cosine distance requires matching dimensions, got " +:+ pretty (len left) +:+ " and "
      +:+ pretty (len right))%stdpp in
  let dot := sum_f64 (zip_with (fmul binary64) left right) in
  let distance := fsub binary64 f64_one dot in
  guard? f64_is_finite distance else constraint_error "cosine distance became non-finite" in
  Ok distance.

Fixpoint point_distances (point : list f64) (centroids : DenseVectors) : outcome (list f64) :=
  match centroids with
  | [] => Ok []
  | centroid :: rest =>
      let? distance := cosine_distance_from_normalized point centroid in
      let? distances := point_distances point rest in
      Ok (distance :: distances)
  end.

(** The matrix, row by row: a row is a point. *)
Definition distance_matrix (points centroids : DenseVectors) : outcome (list f64) :=
  guard? negb (len centroids =? 0)%N else
    constraint_error "expected at least one centroid while computing distances" in
  let? _ := ok_or (checked_mul USIZE_MAX (len points) (len centroids))
    (constraint_error "distance matrix size overflowed") in
  let? rows := collect_map (fun point => point_distances point centroids) points in
  Ok (concat rows).

(** ** Preparing a pass *)
Definition prepare_point (dimensions : N) (embedding : list f32) : outcome (list f64 * list f64) :=
  let? _ := validate_embedding embedding dimensions in
  let? _ := ensure_non_zero_norm embedding in
  let raw := map f64_of_f32 embedding in
  let? norm := euclidean_norm raw in
  let? normalized := normalize_vector raw norm in
  Ok (raw, normalized).

Definition prepare_pass (embeddings : list (list f32)) (dimensions : N) : outcome PreparedPass :=
  let? points := collect_map (prepare_point dimensions) embeddings in
  Ok {| raw_points := map fst points; normalized_points := map snd points; prepared_dimensions := dimensions |}.

Definition reject_unsupported_balance_constraints (config : StreamingClusteringConfig) : outcome unit :=
  match balance_constraints config with
  | None => Ok tt
  | Some constraints =>
      guard? negb (bool_decide (is_Some (max_cluster_size_ratio constraints))) else
        InvalidConfiguration "max_cluster_size_ratio is not supported by the streaming DCBC realization" in
      guard? negb (bool_decide (is_Some (soft_balance_penalty constraints))) else
        InvalidConfiguration "soft_balance_penalty is not supported by the streaming DCBC realization" in
      Ok tt
  end.

Definition derive_occupancy_bounds (config : StreamingClusteringConfig) (observed_count : N)
  : outcome OccupancyBounds :=
  let cluster_count := cluster_count config in
  guard? negb (observed_count <? cluster_count)%N else
    UnsatisfiableConstraint ("first pass established N = " +:+ pretty observed_count
      +:+ " which is smaller than K = " +:+ pretty cluster_count)%stdpp in
  let min := default 1%N (balance_constraints config ≫= min_cluster_occupancy) in
  let? max :=
    match balance_constraints config ≫= max_cluster_occupancy with
    | Some max_cluster_occupancy => Ok max_cluster_occupancy
    | None =>
        let? reserved := ok_or
          (checked_sub cluster_count 1 ≫= fun other_cluster_count => checked_mul USIZE_MAX other_cluster_count min)
          (constraint_error "cluster implicit upper-bound multiplication overflowed") in
        ok_or (checked_sub observed_count reserved)
          (constraint_error "observed_count underflow while deriving occupancy")
    end in
  let? minimum_required := ok_or (checked_mul USIZE_MAX cluster_count min)
    (constraint_error "cluster lower-bound multiplication overflowed") in
  let? maximum_supported := ok_or (checked_mul USIZE_MAX cluster_count max)
    (constraint_error "cluster upper-bound multiplication overflowed") in
  guard? negb ((observed_count <? minimum_required)%N || (maximum_supported <? observed_count)%N) else
    UnsatisfiableConstraint ("capacity constraints are infeasible for N = " +:+ pretty observed_count
      +:+ ", K = " +:+ pretty cluster_count +:+ ", min = " +:+ pretty min +:+ ", max = " +:+ pretty max)%stdpp in
  Ok (MkBounds min max).

(** ** Initial centroids *)

(** The distance of a point to its nearest centroid. *)
Definition nearest_distance (distances : list f64) (row_start centroid_count : nat) : outcome f64 :=
  let? first := expect (distances !! row_start) in
  try_fold (fun min_distance centroid_index =>
    let? candidate := expect (distances !! (row_start + centroid_index)%nat) in
    Ok (if fltb binary64 (fadd binary64 candidate EPSILON) min_distance then candidate else min_distance))
    first (seq 1 (centroid_count - 1)).

(** The loop over the points: the best index and its distance. *)
Definition farthest_point (distances : list f64) (point_count centroid_count : nat) : outcome (nat * f64) :=
  try_fold (fun best point_index =>
    let '(best_index, best_min_distance) := best in
    let? min_distance := nearest_distance distances (point_index * centroid_count) centroid_count in
    Ok (if fltb binary64 (fadd binary64 best_min_distance EPSILON) min_distance
        then (point_index, min_distance) else best))
    (0%nat, fneg binary64 f64_infinity) (seq 0 point_count).

Definition add_centroid (raw_points normalized_points : DenseVectors) (centroids : DenseVectors * DenseVectors)
  : outcome (DenseVectors * DenseVectors) :=
  let '(raw_centroids, normalized_centroids) := centroids in
  let? distances := distance_matrix normalized_points normalized_centroids in
  let? '(best_index, _) := farthest_point distances (length normalized_points) (length normalized_centroids) in
  let? raw := expect (raw_points !! best_index) in
  let? normalized := expect (normalized_points !! best_index) in
  Ok (raw_centroids ++ [raw], normalized_centroids ++ [normalized]).

Definition initialize_centroids (raw_points normalized_points : DenseVectors) (cluster_count : nat)
  : outcome (DenseVectors * DenseVectors) :=
  let? raw := expect (raw_points !! 0%nat) in
  let? normalized := expect (normalized_points !! 0%nat) in
  try_fold (fun centroids _ => add_centroid raw_points normalized_points centroids)
    ([raw], [normalized]) (seq 1 (cluster_count - 1)).

(** ** One iteration *)
Definition materialize_memberships (assignment : list nat) (cluster_count : nat) (bounds : OccupancyBounds)
  : outcome (list (list nat)) :=
  let? memberships := try_fold (fun memberships '(point_index, cluster_index) =>
    let? cluster := ok_or (memberships !! cluster_index)
      (constraint_error "assignment referenced an unknown cluster") in
    Ok (<[cluster_index := cluster ++ [point_index]]> memberships))
    (replicate cluster_count []) (imap pair assignment) in
  guard? forallb (fun members => negb ((len members <? bounds_min bounds)%N || (bounds_max bounds <? len members)%N))
    memberships else
    constraint_error "assignment violates the configured occupancy bounds" in
  Ok memberships.

(** [for (slot, value) in centroid.iter_mut().zip(point)]: [*slot += *value] *)
Fixpoint add_point_to (centroid point : list f64) : list f64 :=
  match centroid, point with
  | slot :: centroid', value :: point' => fadd binary64 slot value :: add_point_to centroid' point'
  | _, _ => centroid
  end.

Definition centroid_of (raw_points : DenseVectors) (members : list nat) (dimensions : N) : outcome (list f64) :=
  let? sum := try_fold (fun centroid point_index =>
    let? point := expect (raw_points !! point_index) in Ok (add_point_to centroid point))
    (replicate (N.to_nat dimensions) 0%N) members in
  let divisor := f_of_Z binary64 (Z.of_nat (length members)) in
  collect_map (fun value =>
    let value := fdiv binary64 value divisor in
    guard? f64_is_finite value else
      constraint_error "raw centroid contained a non-finite value after recomputation" in
    Ok value) sum.

Definition recompute_centroid (raw_points normalized_points : DenseVectors) (dimensions : N) (members : list nat)
  : outcome (list f64 * list f64) :=
  match members with
  | [] => Err (constraint_error "cluster memberships must never be empty")
  | first :: _ =>
      let? centroid := centroid_of raw_points members dimensions in
      let? norm := euclidean_norm centroid in
      let? normalized := (if fltb binary64 norm EPSILON then expect (normalized_points !! first)
                          else normalize_vector centroid norm) in
      Ok (centroid, normalized)
  end.

Definition recompute_centroids (raw_points normalized_points : DenseVectors) (memberships : list (list nat))
  (dimensions : N) : outcome (DenseVectors * DenseVectors) :=
  let? centroids := collect_map (recompute_centroid raw_points normalized_points dimensions) memberships in
  Ok (map fst centroids, map snd centroids).

Definition compute_objective (normalized_points normalized_centroids : DenseVectors) (assignment : list nat)
  : outcome f64 :=
  let? total := try_fold (fun total '(point_index, cluster_index) =>
    let? centroid := ok_or (normalized_centroids !! cluster_index)
      (constraint_error "assignment referenced an unknown centroid") in
    let? point := expect (normalized_points !! point_index) in
    let? distance := cosine_distance_from_normalized point centroid in
    Ok (fadd binary64 total distance)) 0%N (imap pair assignment) in
  guard? f64_is_finite total else constraint_error "objective value was non-finite" in
  Ok total.

Definition run_iteration (raw_points normalized_points start_normalized_centroids : DenseVectors) (dimensions : N)
  (bounds : OccupancyBounds) (cluster_count : nat) : outcome IterationResult :=
  let? distances := distance_matrix normalized_points start_normalized_centroids in
  let? assignment := solve_lexicographic_assignment distances (length raw_points) cluster_count
    (bounds_min bounds) (bounds_max bounds) in
  let? memberships := materialize_memberships assignment cluster_count bounds in
  let? '(raw_centroids, normalized_centroids) :=
    recompute_centroids raw_points normalized_points memberships dimensions in
  let cluster_sizes := map (@length nat) memberships in
  let? objective_value := compute_objective normalized_points normalized_centroids assignment in
  Ok {| assignment := assignment; raw_centroids := raw_centroids; normalized_centroids := normalized_centroids;
        cluster_sizes := cluster_sizes; objective_value := objective_value |}.

(** ** The trainer *)
Module Trainer.
Record DcbcStreamingTrainer := Mk {
  config : StreamingClusteringConfig; state : TrainerState; current_pass : list (list f32);
  baseline_fingerprint : option PassFingerprint; completed_passes : N;
  occupancy_bounds : option OccupancyBounds; normalized_centroids : option DenseVectors
}.
Notation T := DcbcStreamingTrainer.

Definition set_state (s : TrainerState) (t : T) : T :=
  Mk (config t) s (current_pass t) (baseline_fingerprint t) (completed_passes t) (occupancy_bounds t)
    (normalized_centroids t).
Definition set_pass (p : list (list f32)) (t : T) : T :=
  Mk (config t) (state t) p (baseline_fingerprint t) (completed_passes t) (occupancy_bounds t)
    (normalized_centroids t).

(** A result with [?] in a method that changes the trainer. *)
Definition at_trainer {A B} (m : outcome A) (t : T) (k : A -> outcome B * T) : outcome B * T :=
  match m with Ok a => k a | Err e => (Err e, t) | Panic => (Panic, t) end.
Notation "'let?' x ':=' m 'at' t 'in' k" := (at_trainer m t (fun x => k))
  (at level 200, x name, m at level 100, t at level 100, k at level 200).

Definition new (config : StreamingClusteringConfig) : outcome T :=
  let? _ := validate_config config in
  let? _ := reject_unsupported_balance_constraints config in
  Ok (Mk config Idle [] None 0 None None).

(** The error and the trainer after it. *)
Definition invalid_transition (operation : string) (t : T) : StreamingClusteringError * T :=
  (InvalidTransition (state t) operation, set_state ErrorState t).

(** [fail] keeps the error. *)
Definition fail (t : T) : T := set_pass [] (set_state ErrorState t).

Section hashing.
Context `{Sha256}.

Definition fingerprint_pass (embeddings : list (list f32)) : PassFingerprint :=
  {| fingerprint_count := len embeddings;
     digest := sha256 (concat (map (fun embedding =>
       le_split 8 (len embedding) ++ concat (map f32_to_le_bytes embedding)) embeddings)) |}.

(** The first pass sets the baseline and the bounds. *)
Definition start_centroids (prepared : PreparedPass) (bounds : OccupancyBounds) (fingerprint : PassFingerprint)
  (t : T) : outcome DenseVectors * T :=
  if (completed_passes t =? 0)%N then
    let t := Mk (config t) (state t) (current_pass t) (Some fingerprint) (completed_passes t) (Some bounds)
      (normalized_centroids t) in
    (let? '(_, normalized_centroids) := initialize_centroids (raw_points prepared) (normalized_points prepared)
       (N.to_nat (cluster_count (config t))) in
     Ok normalized_centroids, t)
  else
    (let? baseline := ok_or (baseline_fingerprint t)
       (constraint_error "missing baseline dataset for later DCBC passes") in
     guard? PassFingerprint_eqb baseline fingerprint else
       MalformedInput "later passes must replay the same logical dataset in the same order" in
     ok_or (normalized_centroids t) (constraint_error "missing centroid state for later DCBC passes"), t).

(** The trainer after a successful pass. *)
Definition record_pass (passes : N) (centroids : DenseVectors) (t : T) : T :=
  Mk (config t) PassComplete [] (baseline_fingerprint t) passes (occupancy_bounds t) (Some centroids).

(** [balance_metric] *)
Definition balance_metric_of (balance_constraints : option BalanceConstraints) : f64 := 0%N.

Definition pass_report (config : StreamingClusteringConfig) (observed : N) (objective : f64) : PassReport :=
  {| observed_count := observed; requested_cluster_count := cluster_count config;
     readiness := PartitionReady; realized_cluster_count := Some (cluster_count config);
     quality_metric := objective; balance_metric := balance_metric_of (balance_constraints config);
     quality_direction := SmallerIsBetter; balance_direction := SmallerIsBetter;
     cluster_ids := Some (map N.of_nat (seq 0 (N.to_nat (cluster_count config)))) |}.

Definition finish_pass_impl (t : T) : outcome PassReport * T :=
  if negb (bool_decide (state t = Ingesting)) then
    let '(e, t) := invalid_transition "finish_pass" t in (Err e, t)
  else
    let? prepared := prepare_pass (current_pass t) (dimensions (config t)) at t in
    let fingerprint := fingerprint_pass (current_pass t) in
    let? bounds := match occupancy_bounds t with
                   | Some bounds => Ok bounds
                   | None => derive_occupancy_bounds (config t) (len (raw_points prepared))
                   end at t in
    let '(start, t) := start_centroids prepared bounds fingerprint t in
    let? start := start at t in
    let? result := run_iteration (raw_points prepared) (normalized_points prepared) start
      (prepared_dimensions prepared) bounds (N.to_nat (cluster_count (config t))) at t in
    let? passes := expect (checked_add USIZE_MAX (completed_passes t) 1) at t in
    (Ok (pass_report (config t) (len (raw_points prepared)) (objective_value result)),
     record_pass passes (Dcbc.normalized_centroids result) t).

Definition finish_pass (t : T) : outcome PassReport * T :=
  match finish_pass_impl t with
  | (Err e, t) => (Err e, fail t)
  | r => r
  end.
End hashing.

Definition validate_one (dimensions : N) (embedding : list f32) : outcome (list f32) :=
  let? _ := validate_embedding embedding dimensions in
  let? _ := ensure_non_zero_norm embedding in
  Ok embedding.

Definition ingest_batch (embeddings : list (list f32)) (t : T) : outcome unit * T :=
  let ingest t :=
    let? validated_batch := collect_map (validate_one (dimensions (config t))) embeddings at t in
    (Ok tt, set_pass (current_pass t ++ validated_batch) t) in
  match state t with
  | Idle | PassComplete => ingest (set_state Ingesting t)
  | Ingesting => ingest t
  | TrainingComplete | ErrorState => let '(e, t) := invalid_transition "ingest_batch" t in (Err e, t)
  end.

Definition complete_training (t : T) : outcome unit * T :=
  if negb (bool_decide (state t = PassComplete)) then
    let '(e, t) := invalid_transition "complete_training" t in (Err e, t)
  else (Ok tt, set_state TrainingComplete t).
End Trainer.
Notation DcbcStreamingTrainer := Trainer.DcbcStreamingTrainer.

(** ** The classifier *)
Module Classifier.
Record DcbcStreamingClassifier := Mk { config : StreamingClusteringConfig; centroids : DenseVectors }.

(** The loop over the other centroids: the best cluster and its distance. *)
Definition nearest_centroid (embedding : list f64) (centroids : DenseVectors) (best : nat * f64)
  (cluster_index : nat) : outcome (nat * f64) :=
  let? centroid := expect (centroids !! cluster_index) in
  let? candidate := cosine_distance_from_normalized embedding centroid in
  Ok (if fltb binary64 (fadd binary64 candidate EPSILON) best.2 then (cluster_index, candidate) else best).

Definition assign (c : DcbcStreamingClassifier) (embedding : list f32) : outcome N :=
  let? _ := validate_embedding embedding (dimensions (config c)) in
  let? _ := ensure_non_zero_norm embedding in
  let? embedding := normalize_embedding embedding in
  let? first := expect (centroids c !! 0%nat) in
  let? distance := cosine_distance_from_normalized embedding first in
  let? '(best_cluster, _) := try_fold (nearest_centroid embedding (centroids c)) (0%nat, distance)
    (seq 1 (length (centroids c) - 1)) in
  Ok (N.of_nat best_cluster mod 2 ^ 32)%N.

Definition into_classifier (t : DcbcStreamingTrainer) : outcome DcbcStreamingClassifier :=
  guard? bool_decide (Trainer.state t = TrainingComplete) else
    InvalidTransition (Trainer.state t) "into_classifier" in
  let? centroids := ok_or (Trainer.normalized_centroids t) (InvalidTransition (Trainer.state t) "into_classifier") in
  Ok (Classifier.Mk (Trainer.config t) centroids).
End Classifier.
Notation DcbcStreamingClassifier := Classifier.DcbcStreamingClassifier.

#[export] Instance dcbc_classifier : StreamingClusterClassifier DcbcStreamingClassifier :=
  {| classifier_config := Classifier.config; assign := Classifier.assign |}.
#[export] Instance dcbc_trainer `{Sha256} : StreamingClusterTrainer DcbcStreamingTrainer DcbcStreamingClassifier :=
  {| trainer_config := Trainer.config; trainer_state := Trainer.state; ingest_batch := Trainer.ingest_batch;
     finish_pass := Trainer.finish_pass; complete_training := Trainer.complete_training;
     into_classifier := Classifier.into_classifier |}.
