(* ===== verification/DcbcCorrect.v ===== *)
(** * The DCBC trainer: the properties

    No step of a pass panics: the indices it uses come from the assignment and the
    centroids, whose shapes the pass keeps. A pass that succeeds ends with one
    centroid for each cluster, from an assignment within the occupancy bounds; the
    trainer keeps this through every sequence of calls, and so the classifier it
    becomes answers with a cluster that exists.

    Then: DCBC on concrete inputs. *)
From S2P Require Import Prelude Hash Ieee CborRef Clustering MinCostFlow DcbcSolver FlowCorrect DcbcSolverCorrect Dcbc.

(** ** Vectors *)
Lemma ensure_non_zero_norm_ok e : returns (fun _ => True) (ensure_non_zero_norm e).
Proof. unfold ensure_non_zero_norm. by apply returns_guard. Qed.

Lemma euclidean_norm_ok v : returns (fun _ => True) (euclidean_norm v).
Proof. unfold euclidean_norm. by apply returns_guard. Qed.

Lemma normalize_vector_ok v norm : returns (fun w => length w = length v) (normalize_vector v norm).
Proof. unfold normalize_vector. do 2 (apply returns_guard; intros _). cbn. by rewrite length_map. Qed.

Lemma cosine_ok l r : returns (fun d => f64_is_finite d = true) (cosine_distance_from_normalized l r).
Proof. unfold cosine_distance_from_normalized. apply returns_guard; intros _. by apply returns_guard. Qed.

Lemma normalize_embedding_ok e : returns (fun w => length w = length e) (normalize_embedding e).
Proof.
  unfold normalize_embedding. eapply returns_bind; [apply euclidean_norm_ok|]. intros norm _.
  eapply returns_weaken; [apply normalize_vector_ok|]. intros w ->. apply length_map.
Qed.

Definition prepared_point (d : N) (e : list f32) (p : list f64 * list f64) : Prop :=
  p.1 = map f64_of_f32 e /\ length p.1 = N.to_nat d /\ length p.2 = N.to_nat d.

Lemma prepare_point_ok d e : returns (prepared_point d e) (prepare_point d e).
Proof.
  unfold prepare_point. eapply returns_bind; [apply validate_embedding_ok|]. cbn beta. intros _ Hl.
  eapply returns_bind; [apply ensure_non_zero_norm_ok|]. intros _ _.
  eapply returns_bind; [apply euclidean_norm_ok|]. intros norm _.
  eapply returns_bind; [apply normalize_vector_ok|]. cbn beta. intros w Hw. rewrite length_map in Hw.
  split_and!; cbn; [done|by rewrite length_map|lia].
Qed.

(** The points of a pass, raw and normalised. *)
Lemma prepare_pass_ok es d : returns (fun p => raw_points p = map (map f64_of_f32) es
  /\ dense (length es) (N.to_nat d) (raw_points p) /\ dense (length es) (N.to_nat d) (normalized_points p)
  /\ prepared_dimensions p = d) (prepare_pass es d).
Proof.
  unfold prepare_pass. eapply returns_bind; [apply returns_collect; intros e _; apply prepare_point_ok|].
  cbn beta. intros ps Hps. cbn. unfold dense. rewrite !length_map, (Forall2_length _ _ _ Hps), !Forall_map.
  split_and!; try done.
  - induction Hps as [|e p es ps (Hp & _) _ IH]; cbn; [done|]. by rewrite Hp, IH.
  - eapply Forall2_Forall_r; [exact Hps|]. apply Forall_true. by intros e p (_ & ? & _).
  - eapply Forall2_Forall_r; [exact Hps|]. apply Forall_true. by intros e p (_ & _ & ?).
Qed.

(** ** Distances *)
Definition row_ok (cs : list (list f64)) (p : list f64) (row : list f64) : Prop :=
  Forall2 (fun c x => cosine_distance_from_normalized p c = Ok x) cs row.

Lemma point_distances_ok p cs : returns (row_ok cs p) (point_distances p cs).
Proof.
  induction cs as [|c cs IH]; cbn [point_distances]; [constructor|].
  pose proof (cosine_ok p c) as Hc. destruct (cosine_distance_from_normalized p c) as [x| |] eqn:E; cbn; [|done..].
  eapply returns_bind; [exact IH|]. intros row Hr. by constructor.
Qed.

Definition matrix_ok (ps cs : list (list f64)) (d : list f64) : Prop :=
  length d = (length ps * length cs)%nat
  /\ forall i c p q, ps !! i = Some p -> cs !! c = Some q ->
     exists x, d !! (i * length cs + c)%nat = Some x /\ cosine_distance_from_normalized p q = Ok x.

Lemma distance_matrix_ok ps cs : returns (matrix_ok ps cs) (distance_matrix ps cs).
Proof.
  unfold distance_matrix. apply returns_guard. intros _.
  eapply returns_bind; [by apply (returns_ok_or (fun _ => True))|]. intros _ _.
  eapply returns_bind; [apply returns_collect; intros p _; apply point_distances_ok|]. cbn beta. intros rows Hr.
  assert (Forall (fun r => length r = length cs) rows) as Hw.
  { eapply Forall2_Forall_r; [exact Hr|]. apply Forall_true. intros p r Hrow. symmetry. by eapply Forall2_length. }
  split.
  - rewrite (concat_length _ _ Hw). by rewrite (Forall2_length _ _ _ Hr).
  - intros i c p q Hp Hq. destruct (Forall2_lookup_l _ _ _ _ _ Hr Hp) as (r & Hri & Hrow).
    destruct (Forall2_lookup_l _ _ _ _ _ Hrow Hq) as (x & Hx & Hxc). exists x. split; [|done].
    rewrite (concat_lookup _ _ _ _ Hw) by (by eapply lookup_lt_Some). by rewrite Hri.
Qed.

Lemma matrix_entry ps cs d i c : matrix_ok ps cs d -> (i < length ps)%nat -> (c < length cs)%nat ->
  is_Some (d !! (i * length cs + c)%nat).
Proof.
  intros (_ & Hd) [p Hp]%lookup_lt_is_Some_2 [q Hq]%lookup_lt_is_Some_2.
  destruct (Hd i c p q Hp Hq) as (x & Hx & _). by exists x.
Qed.

(** ** Occupancy bounds *)

(** Bounds that [n] points can meet with [k] clusters. *)
Definition feasible (n k : N) (b : OccupancyBounds) : Prop :=
  (k * bounds_min b <= n <= k * bounds_max b)%N /\ (k * bounds_max b <= USIZE_MAX)%N /\ (1 <= bounds_min b)%N /\ (k <= n)%N.

Lemma derive_occupancy_bounds_ok config n : validate_config config = Ok tt ->
  returns (feasible n (cluster_count config)) (derive_occupancy_bounds config n).
Proof.
  intros [Hk Hm]%valid_positive. unfold derive_occupancy_bounds. apply returns_guard. intros Hn%negb_true_iff%N.ltb_ge.
  set (min := default _ _) in *. apply (returns_bind (fun _ => True)).
  { destruct (_ ≫= max_cluster_occupancy); [done|]. eapply returns_bind; [by apply (returns_ok_or (fun _ => True))|].
    intros reserved _. by apply returns_ok_or. }
  intros max _. unfold checked_mul. destruct (N.leb_spec (cluster_count config * min) USIZE_MAX); cbn; [|done].
  destruct (N.leb_spec (cluster_count config * max) USIZE_MAX); cbn; [|done].
  apply returns_guard. intros Hf%negb_true_iff%orb_false_iff. destruct Hf as [H1%N.ltb_ge H2%N.ltb_ge].
  cbn. unfold feasible. cbn. split_and!; lia.
Qed.

(** ** Initial centroids *)
Lemma nearest_distance_ok ps cs d i : matrix_ok ps cs d -> (i < length ps)%nat -> (0 < length cs)%nat ->
  returns (fun _ => True) (nearest_distance d (i * length cs) (length cs)).
Proof.
  intros Hd Hi Hc. unfold nearest_distance.
  destruct (matrix_entry ps cs d i 0 Hd Hi Hc) as [x Hx]. rewrite Nat.add_0_r in Hx. rewrite Hx. cbn [expect rbind].
  apply (returns_fold (fun _ _ => True) _ _ 0); [done|]. intros j c a Hj _. apply lookup_seq in Hj as [-> Hj].
  destruct (matrix_entry ps cs d i (1 + j) Hd Hi ltac:(lia)) as [y Hy]. by rewrite Hy.
Qed.

Lemma farthest_point_ok ps cs d : matrix_ok ps cs d -> (0 < length ps)%nat -> (0 < length cs)%nat ->
  returns (fun best => (best.1 < length ps)%nat) (farthest_point d (length ps) (length cs)).
Proof.
  intros Hd Hp Hc. unfold farthest_point.
  apply (returns_fold (fun _ (best : nat * f64) => (best.1 < length ps)%nat) _ _ 0); [done|].
  intros j i [best m] Hj Hb. apply lookup_seq in Hj as [-> Hj].
  eapply returns_bind; [by apply (nearest_distance_ok ps cs)|]. intros x _. cbn. destruct (fltb _ _ _); [done|exact Hb].
Qed.

Lemma add_centroid_ok n dim raw norm cs j : dense n dim raw -> dense n dim norm -> (0 < n)%nat ->
  dense (S j) dim cs.1 -> dense (S j) dim cs.2 ->
  returns (fun cs => dense (S (S j)) dim cs.1 /\ dense (S (S j)) dim cs.2) (add_centroid raw norm cs).
Proof.
  intros Hr Hn Hpos H1 H2. destruct cs as [rc nc]. cbn [fst snd] in *. unfold add_centroid.
  eapply returns_bind; [apply distance_matrix_ok|]. cbn beta. intros d Hd. pose proof Hn as [Hln _]. pose proof H2 as [Hl2 _].
  eapply returns_bind; [apply (farthest_point_ok norm nc d Hd); lia|]. intros [best m] Hb. cbn in Hb.
  destruct (dense_lookup n dim raw best Hr ltac:(lia)) as (r & -> & Hlr).
  destruct (dense_lookup n dim norm best Hn ltac:(lia)) as (v & -> & Hlv). cbn [expect rbind returns fst snd].
  replace (S (S j)) with (S j + 1)%nat by lia. split; apply dense_app; try done; by apply dense_one.
Qed.

Lemma initialize_centroids_ok n dim raw norm k : dense n dim raw -> dense n dim norm -> (0 < n)%nat -> (0 < k)%nat ->
  returns (fun cs => dense k dim cs.1 /\ dense k dim cs.2) (initialize_centroids raw norm k).
Proof.
  intros Hr Hn Hpos Hk. unfold initialize_centroids.
  destruct (dense_lookup n dim raw 0 Hr Hpos) as (r & -> & Hlr).
  destruct (dense_lookup n dim norm 0 Hn Hpos) as (v & -> & Hlv). cbn [expect rbind].
  eapply returns_weaken; [apply (returns_fold (fun j (cs : list (list f64) * list (list f64)) =>
    dense (S j) dim cs.1 /\ dense (S j) dim cs.2) _ _ 0)|].
  - split; by apply dense_one.
  - intros j i cs _ [H1 H2]. by apply (add_centroid_ok n).
  - intros cs. rewrite length_seq. by replace (S (0 + (k - 1))) with k by lia.
Qed.

(** ** The memberships *)

(** The points of a cluster, in order. *)
Fixpoint members_of (c i : nat) (a : list nat) : list nat :=
  match a with
  | [] => []
  | x :: a' => (if decide (x = c) then [i] else []) ++ members_of c (S i) a'
  end.

Lemma members_length c a : forall i, len (members_of c i a) = occupancy c a.
Proof.
  induction a as [|x a IH]; intros i; cbn; [done|]. specialize (IH (S i)). unfold len in *. rewrite length_app.
  case_decide; cbn; lia.
Qed.

Lemma members_lt c a : forall i, Forall (fun p => (p < i + length a)%nat) (members_of c i a).
Proof.
  induction a as [|x a IH]; intros i; cbn; [constructor|]. apply Forall_app. split.
  - case_decide; [|constructor]. constructor; [lia|constructor].
  - eapply Forall_impl; [apply IH|]. cbn. lia.
Qed.

Lemma collect_members k a : forall i ms, length ms = k -> Forall (fun c => (c < k)%nat) a ->
  exists ms', try_fold (fun memberships '(point_index, cluster_index) =>
    let? cluster := ok_or (memberships !! cluster_index)
      (constraint_error "assignment referenced an unknown cluster") in
    Ok (<[cluster_index := cluster ++ [point_index]]> memberships)) ms (zip (seq i (length a)) a) = Ok ms'
  /\ length ms' = k /\ forall c m, ms !! c = Some m -> ms' !! c = Some (m ++ members_of c i a).
Proof.
  induction a as [|x a IH]; intros i ms Hl Hf; cbn [length seq zip zip_with try_fold members_of].
  - exists ms. split_and!; [done..|]. intros c m. by rewrite app_nil_r.
  - apply Forall_cons in Hf as [Hx Hf]. destruct (lookup_lt_is_Some_2 ms x) as [m Hm]; [lia|].
    rewrite Hm. cbn [ok_or rbind].
    destruct (IH (S i) (<[x := m ++ [i]]> ms)) as (ms' & -> & Hl' & Hms); [by rewrite length_insert|done|].
    exists ms'. split_and!; [done..|]. intros c m' Hm'. case_decide as Hd.
    + subst x. assert (m' = m) as -> by congruence. rewrite app_assoc. apply Hms. apply list_lookup_insert_eq. lia.
    + apply Hms. by rewrite list_lookup_insert_ne.
Qed.

(** An assignment within the bounds has its memberships. *)
Lemma materialize_memberships_ok k a b : Forall (fun c => (c < k)%nat) a ->
  (forall c, (c < k)%nat -> (bounds_min b <= occupancy c a <= bounds_max b)%N) ->
  materialize_memberships a k b = Ok (map (fun c => members_of c 0 a) (seq 0 k)).
Proof.
  intros Hk Hb. unfold materialize_memberships. rewrite imap_pair_zip.
  destruct (collect_members k a 0 (replicate k []) (length_replicate _ _) Hk) as (ms & -> & Hl & Hms). cbn [rbind].
  assert (ms = map (fun c => members_of c 0 a) (seq 0 k)) as ->.
  { apply list_eq_same_length with k; [by rewrite length_map, length_seq|done|]. intros c x y Hc Hx Hy.
    rewrite list_lookup_fmap, lookup_seq_lt in Hy by done. cbn in Hy. injection Hy as <-.
    rewrite (Hms c []) in Hx by (by apply lookup_replicate_2). by injection Hx as <-. }
  rewrite (proj2 (forallb_forall _ _)); [done|]. intros m (c & <- & Hc)%in_map_iff. apply in_seq in Hc.
  rewrite members_length. specialize (Hb c ltac:(lia)). apply negb_true_iff, orb_false_iff.
  split; apply N.ltb_ge; lia.
Qed.

(** ** One iteration *)
Lemma add_point_to_length c p : length (add_point_to c p) = length c.
Proof. revert p. induction c as [|x c IH]; intros [|y p]; cbn; auto. Qed.

Lemma recompute_centroid_ok n dim d raw norm members : dense n d raw -> dense n d norm -> N.to_nat dim = d ->
  Forall (fun p => (p < n)%nat) members ->
  returns (fun c => length c.1 = d /\ length c.2 = d) (recompute_centroid raw norm dim members).
Proof.
  intros Hr Hn Hdim Hm. destruct members as [|first rest]; [done|]. cbn [recompute_centroid].
  apply (returns_bind (fun c => length c = d)).
  { unfold centroid_of. eapply returns_bind.
    - apply (returns_fold (fun _ (c : list f64) => length c = d) _ _ 0); [by rewrite length_replicate|].
      intros j p c Hj Hc. apply (proj1 (Forall_lookup _ _) Hm) in Hj. cbn beta in Hj.
      destruct (dense_lookup n d raw p Hr Hj) as (v & -> & _). cbn. by rewrite add_point_to_length.
    - cbn beta. intros c Hc. eapply returns_weaken; [apply (returns_collect (fun _ _ => True))|].
      + intros x _. by apply returns_guard.
      + cbn beta. intros c' Hc'. rewrite <-Hc. symmetry. by eapply Forall2_length. }
  intros c Hc. eapply returns_bind; [apply euclidean_norm_ok|]. intros x _. apply (returns_bind (fun v => length v = d)).
  - apply Forall_cons in Hm as [Hf _]. destruct (dense_lookup n d norm first Hn Hf) as (v & Hv & Hlv).
    destruct (fltb _ _ _); [by rewrite Hv|]. eapply returns_weaken; [apply normalize_vector_ok|]. cbn beta. congruence.
  - intros v Hv. by split.
Qed.

Lemma recompute_centroids_ok n dim d raw norm ms : dense n d raw -> dense n d norm -> N.to_nat dim = d ->
  Forall (Forall (fun p => (p < n)%nat)) ms ->
  returns (fun cs => dense (length ms) d cs.1 /\ dense (length ms) d cs.2) (recompute_centroids raw norm ms dim).
Proof.
  intros Hr Hn Hdim Hm. unfold recompute_centroids.
  eapply returns_bind; [apply (returns_collect (fun _ (c : list f64 * list f64) => length c.1 = d /\ length c.2 = d))|].
  - intros m Hin. apply (recompute_centroid_ok n); [done..|]. by eapply Forall_forall in Hin.
  - cbn beta. intros cs Hcs. cbn. unfold dense. rewrite !length_map, !Forall_map, (Forall2_length _ _ _ Hcs).
    split_and!; try done; (eapply Forall2_Forall_r; [exact Hcs|]; apply Forall_true; by intros ? ? []).
Qed.

Lemma compute_objective_ok n k d norm cs a : dense n d norm -> dense k d cs -> length a = n ->
  Forall (fun c => (c < k)%nat) a -> returns (fun x => f64_is_finite x = true) (compute_objective norm cs a).
Proof.
  intros Hn Hc Ha Hk. unfold compute_objective. apply (returns_bind (fun _ => True)).
  - apply (returns_fold (fun _ _ => True) _ _ 0); [done|]. intros j [p c] t Hj _.
    rewrite list_lookup_imap in Hj. apply fmap_Some in Hj as (c' & Hc' & [= -> ->]).
    pose proof (lookup_lt_Some _ _ _ Hc') as Hlt. apply (proj1 (Forall_lookup _ _) Hk) in Hc'. cbn beta in Hc'.
    destruct (dense_lookup k d cs c' Hc Hc') as (v & -> & _).
    destruct (dense_lookup n d norm j Hn ltac:(lia)) as (w & -> & _). cbn [ok_or expect rbind].
    eapply returns_bind; [apply cosine_ok|]. done.
  - intros t _. by apply returns_guard.
Qed.

(** A partition of the points into clusters within the bounds, with a centroid for
    each cluster. *)
Record iteration_ok (n k dim : nat) (b : OccupancyBounds) (r : IterationResult) : Prop := {
  every_point : length (assignment r) = n;
  known_clusters : Forall (fun c => (c < k)%nat) (assignment r);
  sizes_counted : cluster_sizes r = map (fun c => N.to_nat (occupancy c (assignment r))) (seq 0 k);
  sizes_bounded : forall c, (c < k)%nat -> (bounds_min b <= occupancy c (assignment r) <= bounds_max b)%N;
  raw_dense : dense k dim (raw_centroids r);
  normalized_dense : dense k dim (normalized_centroids r)
}.

Lemma run_iteration_ok n k dim d raw norm start b : dense n d raw -> dense n d norm -> dense k d start ->
  N.to_nat dim = d -> (N.of_nat n <= USIZE_MAX)%N -> feasible (N.of_nat n) (N.of_nat k) b ->
  returns (iteration_ok n k d b) (run_iteration raw norm start dim b k).
Proof.
  intros Hr Hn Hs Hdim Hsize (Hb & Hmax & Hmin & _). unfold run_iteration.
  eapply returns_bind; [apply distance_matrix_ok|]. cbn beta. intros dist [Hl _].
  pose proof Hn as [Hln _]. pose proof Hs as [Hls _]. pose proof Hr as [Hlr _]. rewrite Hln, Hls in Hl. rewrite Hlr.
  pose proof (lexicographic_choices dist n k (bounds_min b) (bounds_max b) Hl Hsize Hmax) as Ha.
  destruct (solve_lexicographic_assignment _ _ _ _ _) as [a| |]; cbn [rbind]; [|done..].
  destruct Ha as (Hla & opt & s & _ & Hsol & _).
  destruct (all_fixed dist n k _ _ Hl Hsize Hmax a s Hla Hsol) as ((Hk & Hocc) & Hocc' & _).
  rewrite materialize_memberships_ok by auto. cbn [rbind]. set (ms := map _ (seq 0 k)).
  assert (length ms = k) as Hms by (unfold ms; by rewrite length_map, length_seq).
  eapply returns_bind; [apply (recompute_centroids_ok n dim d raw norm ms Hr Hn Hdim)|].
  { unfold ms. apply Forall_map, Forall_true. intros c. rewrite <-Hla. exact (members_lt c a 0). }
  intros [rc nc] [Hrc Hnc]. cbn [fst snd] in *. rewrite Hms in *.
  eapply returns_bind; [by apply (compute_objective_ok n k d)|]. intros x _. cbn.
  split; cbn; [done|done| |auto|done|done].
  unfold ms. rewrite map_map. apply map_ext. intros c. rewrite <-(members_length c a 0). unfold len. lia.
Qed.

(** ** The trainer *)
Notation k_of t := (cluster_count (Trainer.config t)).
Notation dim_of t := (dimensions (Trainer.config t)).

(** What the completed passes have left. *)
Definition passes_ok (t : DcbcStreamingTrainer) : Prop :=
  if decide (Trainer.completed_passes t = 0%N)
  then (Trainer.state t = Idle \/ Trainer.state t = Ingesting) /\ Trainer.occupancy_bounds t = None
  else Trainer.state t <> Idle /\ exists fp b cs,
    Trainer.baseline_fingerprint t = Some fp /\ Trainer.occupancy_bounds t = Some b
    /\ Trainer.normalized_centroids t = Some cs /\ feasible (fingerprint_count fp) (k_of t) b
    /\ dense (N.to_nat (k_of t)) (N.to_nat (dim_of t)) cs.

Record trainer_ok (t : DcbcStreamingTrainer) : Prop := {
  config_valid : validate_config (Trainer.config t) = Ok tt;
  pass_valid : Forall (fun e => Trainer.validate_one (dim_of t) e = Ok e) (Trainer.current_pass t);
  pass_empty : Trainer.state t = Idle \/ Trainer.state t = PassComplete \/ Trainer.state t = TrainingComplete ->
    Trainer.current_pass t = [];
  passes_left : Trainer.state t <> ErrorState -> passes_ok t
}.

Lemma new_ok config t : Trainer.new config = Ok t -> trainer_ok t /\ Trainer.completed_passes t = 0%N
  /\ Trainer.current_pass t = [] /\ Trainer.config t = config.
Proof.
  intros Hn. unfold Trainer.new in Hn. inv_ok. subst t. destruct a. split; [|done].
  split; [done|constructor|done|]. intros _. split; [by left|done].
Qed.

Lemma fail_ok t : trainer_ok t -> trainer_ok (Trainer.set_state ErrorState t).
Proof. intros [Hv Hp _ _]. by split; [done|done|intros [|[|]]|]. Qed.

Lemma validate_one_ok d e e' : Trainer.validate_one d e = Ok e' -> e' = e /\ Trainer.validate_one d e = Ok e.
Proof. intros Hv. assert (e' = e) as ->; [|done]. unfold Trainer.validate_one in Hv. by inv_ok. Qed.

Lemma validate_all_ok d es es' : collect_map (Trainer.validate_one d) es = Ok es' ->
  es' = es /\ Forall (fun e => Trainer.validate_one d e = Ok e) es.
Proof.
  intros Hc%collect_map_ok. induction Hc as [|e e' es es' He _ [-> IH]]; [by split|].
  apply validate_one_ok in He as [-> He]. split; [done|by constructor].
Qed.

Lemma validate_one_returns d e : returns (fun _ => True) (Trainer.validate_one d e).
Proof.
  unfold Trainer.validate_one. eapply returns_bind; [apply validate_embedding_ok|]. intros _ _.
  eapply returns_bind; [apply ensure_non_zero_norm_ok|]. done.
Qed.

(** A batch is added to the pass as a whole, or not at all. *)
Lemma ingest_into d es t : trainer_ok t -> d = dim_of t -> Trainer.state t = Ingesting ->
  match Trainer.at_trainer (collect_map (Trainer.validate_one d) es) t
          (fun batch => (Ok tt, Trainer.set_pass (Trainer.current_pass t ++ batch) t)) with
  | (Ok _, t') => trainer_ok t' /\ t' = Trainer.set_pass (Trainer.current_pass t ++ es) t
  | (Err _, t') => t' = t
  | (Panic, _) => False
  end.
Proof.
  intros Ht -> Hst. unfold Trainer.at_trainer.
  pose proof (returns_collect (fun _ _ => True) (Trainer.validate_one (dim_of t)) es
    (fun e _ => validate_one_returns _ e)) as Hr.
  destruct (collect_map _ es) as [batch| |] eqn:E; [|done..]. apply validate_all_ok in E as [-> Hes]. split; [|done].
  destruct Ht as [Hv Hp He Hl]. split; cbn; [done|by apply Forall_app| |exact Hl].
  rewrite Hst. by intros [|[|]].
Qed.

Lemma start_ingesting t : trainer_ok t ->
  Trainer.state t <> TrainingComplete -> Trainer.state t <> ErrorState -> trainer_ok (Trainer.set_state Ingesting t).
Proof.
  intros [Hv Hp He Hl] Hs Hs'. split; [done|done|by intros [|[|]]|]. intros _. specialize (Hl Hs').
  unfold passes_ok in *. cbn. case_decide; destruct Hl as [_ ?]; [by split; [right|]|by split].
Qed.

Lemma ingest_batch_eq es t : Trainer.state t <> TrainingComplete -> Trainer.state t <> ErrorState ->
  Trainer.ingest_batch es t = Trainer.at_trainer (collect_map (Trainer.validate_one (dim_of t)) es)
    (Trainer.set_state Ingesting t)
    (fun batch => (Ok tt, Trainer.set_pass (Trainer.current_pass t ++ batch) (Trainer.set_state Ingesting t))).
Proof. intros H1 H2. destruct t as [cfg [] pass base n b cs]; done. Qed.

(** A call on a finished or failed trainer. *)
Lemma ingest_batch_refused es t : Trainer.state t = TrainingComplete \/ Trainer.state t = ErrorState ->
  Trainer.ingest_batch es t =
    (Err (InvalidTransition (Trainer.state t) "ingest_batch"), Trainer.set_state ErrorState t).
Proof. destruct t as [cfg [] pass base n b cs]; cbn; intros []; done. Qed.

(** The pass the trainer holds: all that was ingested since the last one. *)
Lemma ingest_batch_ok es t : trainer_ok t ->
  match Trainer.ingest_batch es t with
  | (Ok _, t') => trainer_ok t' /\ t' = Trainer.set_pass (Trainer.current_pass t ++ es) (Trainer.set_state Ingesting t)
  | (Err _, t') => trainer_ok t' /\ exists s, t' = Trainer.set_state s t
  | (Panic, _) => False
  end.
Proof.
  intros Ht. destruct (decide (Trainer.state t = TrainingComplete \/ Trainer.state t = ErrorState)) as [Hs|Hs].
  - rewrite ingest_batch_refused by done. split; [by apply fail_ok|by eexists].
  - rewrite ingest_batch_eq by auto. pose proof (start_ingesting t Ht ltac:(auto) ltac:(auto)) as Hok.
    pose proof (ingest_into _ es _ Hok eq_refl eq_refl) as Hi. cbn [Trainer.config Trainer.set_state Trainer.current_pass] in Hi.
    destruct (Trainer.at_trainer _ _ _) as [[| |] t']; [done| |done]. subst t'. split; [done|by eexists].
Qed.

Section passes.
Context `{Sha256}.

(** Where an iteration starts: the initial centroids, then those of the last pass. *)
Definition starts_from (t : DcbcStreamingTrainer) (p : PreparedPass) (start : list (list f64)) : Prop :=
  if decide (Trainer.completed_passes t = 0%N)
  then exists raw, initialize_centroids (raw_points p) (normalized_points p) (N.to_nat (k_of t)) = Ok (raw, start)
  else Trainer.normalized_centroids t = Some start.

(** A pass with its report and the trainer after it. *)
Definition pass_done (t : DcbcStreamingTrainer) (report : PassReport) (t' : DcbcStreamingTrainer) : Prop :=
  exists p start b r,
    prepare_pass (Trainer.current_pass t) (dim_of t) = Ok p /\ starts_from t p start
    /\ run_iteration (raw_points p) (normalized_points p) start (dim_of t) b (N.to_nat (k_of t)) = Ok r
    /\ feasible (len (Trainer.current_pass t)) (k_of t) b
    /\ iteration_ok (length (Trainer.current_pass t)) (N.to_nat (k_of t)) (N.to_nat (dim_of t)) b r
    /\ report = Trainer.pass_report (Trainer.config t) (len (Trainer.current_pass t)) (objective_value r)
    /\ t' = Trainer.Mk (Trainer.config t) PassComplete [] (Some (Trainer.fingerprint_pass (Trainer.current_pass t)))
              (Trainer.completed_passes t + 1) (Some b) (Some (normalized_centroids r)).

Lemma fingerprint_eqb_eq a b : PassFingerprint_eqb a b = true -> a = b.
Proof.
  destruct a as [n1 d1], b as [n2 d2]. unfold PassFingerprint_eqb. cbn.
  intros [-> %N.eqb_eq Hd%bool_decide_eq_true]%andb_prop. f_equal. by apply BlockHash_eq.
Qed.

(** The bounds of a pass. *)
Lemma pass_bounds t : trainer_ok t -> Trainer.state t = Ingesting ->
  returns (fun b => (Trainer.completed_passes t = 0%N -> feasible (len (Trainer.current_pass t)) (k_of t) b)
      /\ (Trainer.completed_passes t <> 0%N -> Trainer.occupancy_bounds t = Some b))
    (match Trainer.occupancy_bounds t with
     | Some bounds => Ok bounds
     | None => derive_occupancy_bounds (Trainer.config t) (len (Trainer.current_pass t))
     end).
Proof.
  intros Ht Hst. pose proof (passes_left t Ht ltac:(by rewrite Hst)) as Hp. unfold passes_ok in Hp.
  case_decide as Hz.
  - destruct Hp as [_ ->]. eapply returns_weaken; [by apply derive_occupancy_bounds_ok, config_valid|]. by intros b Hb.
  - destruct Hp as (_ & fp & b & cs & _ & -> & _). by split.
Qed.

(** The centroids an iteration starts from have the right shape. *)
Lemma start_centroids_ok t p b : trainer_ok t -> Trainer.state t = Ingesting ->
  dense (length (Trainer.current_pass t)) (N.to_nat (dim_of t)) (raw_points p) ->
  dense (length (Trainer.current_pass t)) (N.to_nat (dim_of t)) (normalized_points p) ->
  (Trainer.completed_passes t = 0%N -> feasible (len (Trainer.current_pass t)) (k_of t) b) ->
  (Trainer.completed_passes t <> 0%N -> Trainer.occupancy_bounds t = Some b) ->
  let fp := Trainer.fingerprint_pass (Trainer.current_pass t) in
  exists t1, (Trainer.start_centroids p b fp t).2 = t1
  /\ Trainer.config t1 = Trainer.config t /\ Trainer.completed_passes t1 = Trainer.completed_passes t
  /\ returns (fun start => starts_from t p start /\ dense (N.to_nat (k_of t)) (N.to_nat (dim_of t)) start
       /\ feasible (len (Trainer.current_pass t)) (k_of t) b
       /\ Trainer.baseline_fingerprint t1 = Some fp /\ Trainer.occupancy_bounds t1 = Some b)
     (Trainer.start_centroids p b fp t).1.
Proof.
  intros Ht Hst Hr Hn Hz Hnz fp. eexists. split; [done|]. unfold Trainer.start_centroids.
  pose proof (valid_positive _ (config_valid t Ht)) as [Hk _].
  destruct (N.eqb_spec (Trainer.completed_passes t) 0) as [E|E]; cbn [fst snd]; (split; [done|]; split; [done|]).
  - specialize (Hz E). pose proof Hz as (_ & _ & _ & Hkn). unfold len in Hkn.
    pose proof (initialize_centroids_ok _ _ _ _ (N.to_nat (k_of t)) Hr Hn ltac:(lia) ltac:(lia)) as Hi.
    destruct (initialize_centroids _ _ _) as [[raw start]| |] eqn:Ei; cbn in *; [|done..].
    split_and!; [|apply Hi|done..]. unfold starts_from. rewrite decide_True by done. by exists raw.
  - specialize (Hnz E). pose proof (passes_left t Ht ltac:(by rewrite Hst)) as Hp. unfold passes_ok in Hp.
    rewrite decide_False in Hp by done. destruct Hp as (_ & fp0 & b0 & cs & -> & Hb & Hc & Hf & Hd).
    rewrite Hc. cbn [ok_or rbind]. apply returns_guard. intros Heq%fingerprint_eqb_eq. subst fp0.
    assert (b0 = b) as -> by congruence. cbn. split_and!; [|done..].
    unfold starts_from. by rewrite decide_False.
Qed.

(** [finish_pass]: the pass done, or the error state. *)
Lemma finish_pass_ok t : trainer_ok t -> (len (Trainer.current_pass t) <= USIZE_MAX)%N ->
  (Trainer.completed_passes t < USIZE_MAX)%N ->
  match Trainer.finish_pass t with
  | (Ok report, t') => Trainer.state t = Ingesting /\ pass_done t report t'
  | (Err _, t') => Trainer.state t' = ErrorState /\ Trainer.current_pass t' = []
      /\ Trainer.config t' = Trainer.config t /\ Trainer.completed_passes t' = Trainer.completed_passes t
  | (Panic, _) => False
  end.
Proof.
  intros Ht Hlen Hn. unfold Trainer.finish_pass, Trainer.finish_pass_impl.
  destruct (decide (Trainer.state t = Ingesting)) as [Hst|Hst]; [|by rewrite bool_decide_eq_false_2].
  rewrite bool_decide_eq_true_2 by done. cbn [negb]. unfold Trainer.at_trainer at 1.
  pose proof (prepare_pass_ok (Trainer.current_pass t) (dim_of t)) as Hp.
  destruct (prepare_pass _ _) as [p| |] eqn:Ep; [|done..]. cbn in Hp. destruct Hp as (_ & Hr & Hno & Hd).
  pose proof (pass_bounds t Ht Hst) as Hb. replace (len (raw_points p)) with (len (Trainer.current_pass t))
    by (unfold len; by rewrite (proj1 Hr)).
  unfold Trainer.at_trainer at 1. match type of Hb with returns _ ?m => destruct m as [b| |] end; [|done..].
  destruct Hb as [Hz Hnz]. destruct (start_centroids_ok t p b Ht Hst Hr Hno Hz Hnz) as (t1 & E1 & Hc1 & Hn1 & Hs).
  destruct (Trainer.start_centroids _ _ _ _) as [start t1']. cbn [fst snd] in *. subst t1'.
  unfold Trainer.at_trainer at 1. destruct start as [start| |]; [|done..].
  destruct Hs as (Hfrom & Hds & Hf & Hbase & Hbounds). rewrite Hc1, Hd. unfold Trainer.at_trainer at 1.
  pose proof (run_iteration_ok (length (Trainer.current_pass t)) (N.to_nat (k_of t)) (dim_of t) _ _ _ start b
    Hr Hno Hds eq_refl Hlen ltac:(by rewrite N2Nat.id)) as Hrun.
  destruct (run_iteration _ _ _ _ _ _) as [r| |] eqn:Er; [|done..]. cbn in Hrun.
  unfold Trainer.at_trainer, checked_add. rewrite Hn1, (proj2 (N.leb_le _ _)) by lia. cbn [expect].
  split; [done|]. exists p, start, b, r. split_and!; try done. unfold Trainer.record_pass. by rewrite Hc1, Hbase, Hbounds.
Qed.

Lemma pass_done_ok t report t' : trainer_ok t -> pass_done t report t' ->
  trainer_ok t' /\ Trainer.completed_passes t' = (Trainer.completed_passes t + 1)%N /\ Trainer.current_pass t' = [].
Proof.
  intros Ht (p & start & b & r & _ & _ & _ & Hf & Hr & _ & ->). split; [|done].
  split; cbn; [apply (config_valid t Ht)|constructor|done|]. intros _. unfold passes_ok. cbn.
  rewrite decide_False by lia. split; [done|]. eexists _, _, _. split_and!; [done..| |].
  - exact Hf.
  - apply (normalized_dense _ _ _ _ _ Hr).
Qed.

(** ** Sequences of calls *)
Lemma complete_training_ok t : trainer_ok t ->
  no_panic (Trainer.complete_training t).1 /\ trainer_ok (Trainer.complete_training t).2
  /\ exists s, (Trainer.complete_training t).2 = Trainer.set_state s t.
Proof.
  intros Ht. unfold Trainer.complete_training. destruct (decide (Trainer.state t = PassComplete)) as [Hst|Hst].
  - rewrite bool_decide_eq_true_2 by done. cbn [negb fst snd]. split_and!; [done| |by eexists].
    destruct Ht as [Hv Hp He Hl]. split; [done|done|intros _; apply He; auto|]. intros _.
    specialize (Hl ltac:(by rewrite Hst)). unfold passes_ok in *. cbn.
    case_decide; [destruct Hl as [[] _]; congruence|]. destruct Hl as [_ ?]. by split.
  - rewrite bool_decide_eq_false_2 by done. cbn [negb fst snd]. split_and!; [done|by apply fail_ok|by eexists].
Qed.

Ltac simpl_t := cbn [Trainer.set_state Trainer.set_pass Trainer.current_pass Trainer.completed_passes].

Lemma perform_ok c t : trainer_ok t -> (len (Trainer.current_pass t) <= USIZE_MAX)%N ->
  (Trainer.completed_passes t < USIZE_MAX)%N ->
  no_panic (perform c t).1 /\ trainer_ok (perform c t).2
  /\ (len (Trainer.current_pass (perform c t).2) <= len (Trainer.current_pass t) + batch_size c)%N
  /\ (Trainer.completed_passes (perform c t).2 <= Trainer.completed_passes t + 1)%N
  /\ Trainer.config (perform c t).2 = Trainer.config t.
Proof.
  intros Ht Hl Hn. destruct c as [es| |]; cbn [perform batch_size ingest_batch finish_pass complete_training dcbc_trainer].
  - pose proof (ingest_batch_ok es t Ht) as Hi. destruct (Trainer.ingest_batch es t) as [[[]| |] t']; [| |done]; cbn [rmap fst snd].
    + destruct Hi as [Hok ->]. split_and!; [done|done| |simpl_t; lia|done]. simpl_t. unfold len. rewrite length_app. lia.
    + destruct Hi as [Hok (s & ->)]. split_and!; [done|done|simpl_t; lia|simpl_t; lia|done].
  - pose proof (finish_pass_ok t Ht Hl Hn) as Hf. destruct (Trainer.finish_pass t) as [[report| |] t']; [| |done]; cbn [rmap fst snd].
    + destruct Hf as [_ Hd]. destruct (pass_done_ok _ _ _ Ht Hd) as (Hok & -> & ->).
      split_and!; [done|done|unfold len; cbn [length]; lia|lia|]. by destruct Hd as (? & ? & ? & ? & _ & _ & _ & _ & _ & _ & ->).
    + destruct Hf as (Hst & Hp & Hc & Hn'). split_and!; [done| |rewrite Hp; unfold len; cbn [length]; lia|lia|done].
      split; [rewrite Hc; by apply config_valid|rewrite Hp; constructor|done|done].
  - destruct (complete_training_ok t Ht) as (H1 & H2 & s & Hs). split_and!; [done|done|rewrite Hs; simpl_t; lia..|by rewrite Hs].
Qed.

Lemma run_calls_ok cs t : trainer_ok t -> (len (Trainer.current_pass t) + total_size cs <= USIZE_MAX)%N ->
  (Trainer.completed_passes t + len cs <= USIZE_MAX)%N ->
  Forall no_panic (run_calls cs t).1 /\ (trainer_ok (run_calls cs t).2 /\ Trainer.config (run_calls cs t).2 = Trainer.config t)
  /\ (len (Trainer.current_pass (run_calls cs t).2) <= len (Trainer.current_pass t) + total_size cs)%N
  /\ (Trainer.completed_passes (run_calls cs t).2 <= Trainer.completed_passes t + len cs)%N.
Proof.
  intros Ht Hl Hn.
  apply (run_calls_keep (fun t' => trainer_ok t' /\ Trainer.config t' = Trainer.config t)
    (fun t => len (Trainer.current_pass t)) Trainer.completed_passes (fun n p => n <= USIZE_MAX /\ p <= USIZE_MAX)%N).
  - lia.
  - intros c t1 [Ht1 Hc1] [Hl1 Hn1]. destruct (perform_ok c t1 Ht1 Hl1 ltac:(lia)) as (H1 & H2 & H3 & H4 & H5).
    split_and!; [done|done|by rewrite H5|done|done].
  - done.
  - done.
Qed.

(** The error state is final. *)
Lemma perform_failed c t : Trainer.state t = ErrorState ->
  (exists e, (perform c t).1 = Err e) /\ Trainer.state (perform c t).2 = ErrorState.
Proof.
  intros Hst. destruct c as [es| |]; cbn [perform ingest_batch finish_pass complete_training dcbc_trainer].
  - rewrite ingest_batch_refused by auto. split; [by eexists|done].
  - unfold Trainer.finish_pass, Trainer.finish_pass_impl. rewrite bool_decide_eq_false_2 by congruence.
    cbn. split; [by eexists|done].
  - unfold Trainer.complete_training. rewrite bool_decide_eq_false_2 by congruence. cbn. split; [by eexists|done].
Qed.

Lemma run_failed cs t : Trainer.state t = ErrorState ->
  Forall (fun r => exists e, r = Err e) (run_calls cs t).1 /\ Trainer.state (run_calls cs t).2 = ErrorState.
Proof. apply (run_calls_stuck (fun t => Trainer.state t = ErrorState)). intros c t'. apply perform_failed. Qed.

(** ** The classifier *)
Definition answers (k : N) (c : DcbcStreamingClassifier) : Prop :=
  forall e, returns (fun id => (id < k)%N) (Classifier.assign c e).

Lemma assign_ok k d c : dense k d (Classifier.centroids c) -> (0 < k)%nat -> answers (N.of_nat k) c.
Proof.
  intros Hd Hk e. pose proof Hd as [Hl _]. unfold Classifier.assign.
  eapply returns_bind; [apply validate_embedding_ok|]. intros _ _.
  eapply returns_bind; [apply ensure_non_zero_norm_ok|]. intros _ _.
  eapply returns_bind; [apply normalize_embedding_ok|]. intros v _.
  destruct (dense_lookup k d _ 0 Hd Hk) as (c0 & -> & _). cbn [expect rbind].
  eapply returns_bind; [apply cosine_ok|]. intros x _.
  apply (returns_bind (fun best : nat * f64 => (best.1 < k)%nat)).
  - apply (returns_fold (fun _ (best : nat * f64) => (best.1 < k)%nat) _ _ 0); [done|].
    intros j i best Hj Hb. apply lookup_seq in Hj as [-> Hj]. unfold Classifier.nearest_centroid.
    destruct (dense_lookup k d _ (1 + j) Hd ltac:(lia)) as (cj & -> & _). cbn [expect rbind].
    eapply returns_bind; [apply cosine_ok|]. intros y _. cbn. destruct (fltb _ _ _); [cbn; lia|done].
  - intros [best m] Hb. cbn in *. eapply N.le_lt_trans; [by apply N.Div0.mod_le|lia].
Qed.

Lemma into_classifier_ok t : trainer_ok t -> Trainer.state t = TrainingComplete ->
  exists c, Classifier.into_classifier t = Ok c /\ Classifier.config c = Trainer.config t /\ answers (k_of t) c.
Proof.
  intros Ht Hst. unfold Classifier.into_classifier. rewrite bool_decide_eq_true_2 by done.
  pose proof (passes_left t Ht ltac:(by rewrite Hst)) as Hp. unfold passes_ok in Hp.
  case_decide; [destruct Hp as [[] _]; congruence|]. destruct Hp as (_ & fp & b & cs & _ & _ & -> & _ & Hd).
  eexists. split; [done|]. split; [done|]. pose proof (valid_positive _ (config_valid t Ht)) as [Hk _].
  rewrite <-(N2Nat.id (k_of t)). apply (assign_ok _ _ (Classifier.Mk _ cs) Hd). lia.
Qed.

Lemma run_from_new config t0 calls : Trainer.new config = Ok t0 -> (total_size calls <= USIZE_MAX)%N ->
  (len calls <= USIZE_MAX)%N ->
  Forall no_panic (run_calls calls t0).1 /\ trainer_ok (run_calls calls t0).2
  /\ (len (Trainer.current_pass (run_calls calls t0).2) <= total_size calls)%N
  /\ (Trainer.completed_passes (run_calls calls t0).2 <= len calls)%N
  /\ Trainer.config (run_calls calls t0).2 = config.
Proof.
  intros Hnew Hs Hc. destruct (new_ok _ _ Hnew) as (Hok & Hn & Hp & <-).
  pose proof (run_calls_ok calls t0 Hok) as Hr. rewrite Hn, Hp in Hr.
  destruct Hr as (H1 & [H2 H3] & H4 & H5); [exact Hs|exact Hc|]. by split_and!.
Qed.
End passes.

(** C31 After any calls on a new trainer, finishing a pass does not panic: it ends in
    the error state with the pass dropped, or it is one iteration from the initial
    centroids (on the first pass) or the last ones (on a later pass), whose partition of
    the ingested points is within feasible occupancy bounds, and the report, the
    centroids, the fingerprint and the state are those of that iteration. *)
Theorem finish_pass_sound `{Sha256} config t0 calls :
  Trainer.new config = Ok t0 -> (total_size calls <= USIZE_MAX)%N -> (len calls < USIZE_MAX)%N ->
  let t := (run_calls calls t0).2 in
  match Trainer.finish_pass t with
  | (Ok report, t') => Trainer.state t = Ingesting /\ pass_done t report t'
  | (Err _, t') => Trainer.state t' = ErrorState /\ Trainer.current_pass t' = []
  | (Panic, _) => False
  end.
Proof.
  intros Hnew Hs Hc t. destruct (run_from_new config t0 calls Hnew Hs ltac:(lia)) as (_ & Hok & Hl & Hn & _).
  pose proof (finish_pass_ok t Hok ltac:(unfold t; lia) ltac:(unfold t; lia)) as Hf.
  destruct (Trainer.finish_pass t) as [[| |] t']; [done| |done]. by destruct Hf as (? & ? & _).
Qed.

(** C32 No sequence of calls on a new trainer panics; when it has reached the state
    TrainingComplete it becomes a classifier, which on every embedding answers with one
    of the configured clusters or an error; once in the error state every later call
    fails and it stays there. *)
Theorem trainer_run_safe `{Sha256} config t0 calls :
  Trainer.new config = Ok t0 -> (total_size calls <= USIZE_MAX)%N -> (len calls <= USIZE_MAX)%N ->
  let t := (run_calls calls t0).2 in
  Forall no_panic (run_calls calls t0).1
  /\ (Trainer.state t = TrainingComplete ->
      exists c, Classifier.into_classifier t = Ok c /\ answers (cluster_count config) c)
  /\ (Trainer.state t = ErrorState -> forall later,
      Forall (fun r => exists e, r = Err e) (run_calls later t).1 /\ Trainer.state (run_calls later t).2 = ErrorState).
Proof.
  intros Hnew Hs Hc t. destruct (run_from_new config t0 calls Hnew Hs Hc) as (Hp & Hok & _ & _ & Hcfg). fold t in Hok, Hcfg.
  split_and!; [done| |].
  - intros Hst. destruct (into_classifier_ok t Hok Hst) as (c & Hi & _ & Ha). exists c. split; [done|by rewrite <-Hcfg].
  - intros Hst later. by apply run_failed.
Qed.

(** ** DCBC on concrete inputs

    The farthest-point example of the tests, three points and two clusters, through
    a flow, an assignment, and a whole training. *)

Definition one32 : f32 := f_of_Z binary32 1.
Definition minus_one32 : f32 := f_of_Z binary32 (-1).
Definition three_points : list (list f32) := [[one32; 0%N]; [0%N; one32]; [minus_one32; 0%N]].
Definition two_clusters : StreamingClusteringConfig :=
  {| cluster_count := 2; dimensions := 2; balance_constraints := None; random_seed := None |}.
Definition idle_trainer : DcbcStreamingTrainer := Trainer.Mk two_clusters Idle [] None 0 None None.

(** The distances of four equal points to two equal centroids. *)
Definition no_distances : list f64 := replicate 8 0%N.
Definition two_passes : list call := [Ingest three_points; FinishPass; Ingest three_points; FinishPass; CompleteTraining].

Example lexicographic_fixture : solve_lexicographic_assignment no_distances 4 2 1 3 = Ok [0; 0; 0; 1]%nat.
Proof. vm_compute. reflexivity. Qed.

Example farthest_point_fixture : match prepare_pass three_points 2 with
  | Ok p => match initialize_centroids (raw_points p) (normalized_points p) 3 with
            | Ok (raw, _) => take 2 raw = [map f64_of_f32 [one32; 0%N]; map f64_of_f32 [minus_one32; 0%N]]
            | _ => False
            end
  | _ => False
  end.
Proof. vm_compute. reflexivity. Qed.

Lemma send_flow_conserves_witness : exists g, build_flow no_distances 2 [0; 1]%nat [(0, 2); (0, 2)]%N = Ok g
  /\ match send_flow 0 5 2 g with
     | Ok (sent, g') => (sent <= 2)%N /\ residual_ok g' /\ same_net g g' /\ moved g g' 0 5 (Z.of_N sent)
     | Err e => exists message, e = UnsatisfiableConstraint message
     | Panic => False
     end.
Proof.
  destruct (build_flow_ok no_distances 2 [0; 1]%nat [(0, 2); (0, 2)]%N (fun _ _ => 0%N)) as (g & Hg & Hlen & Hok & _).
  - reflexivity.
  - repeat constructor; cbn; by apply N.leb_le.
  - intros [|[|i]] p [|[|c]] Hp Hc; try (injection Hp as <-; reflexivity); lia || discriminate Hp.
  - exists g. split; [exact Hg|]. apply send_flow_conserves; [exact Hok| |]; rewrite Hlen; cbn; lia.
Defined.

Lemma lexicographic_assignment_witness :
  length [0; 0; 0; 1]%nat = 4%nat /\ Forall (fun c => (c < 2)%nat) [0; 0; 0; 1]%nat
  /\ (forall c, (c < 2)%nat -> (1 <= occupancy c [0; 0; 0; 1]%nat <= 3)%N)
  /\ exists optimal total,
       solve_subproblem no_distances 4 2 1 3 (replicate 4 None) = Ok (Some optimal)
       /\ assignment_cost no_distances 2 [0; 0; 0; 1]%nat = Ok total /\ costs_equal total (true_cost optimal) = true
       /\ forall i, (i < 4)%nat -> first_choice no_distances 4 2 1 3 (true_cost optimal) [0; 0; 0; 1]%nat i.
Proof.
  assert (N.of_nat 4 <= USIZE_MAX)%N as H1 by by apply N.leb_le.
  assert (N.of_nat 2 * 3 <= USIZE_MAX)%N as H2 by by apply N.leb_le.
  pose proof (lexicographic_assignment_sound no_distances 4 2 1 3 eq_refl H1 H2) as H.
  rewrite lexicographic_fixture in H. exact H.
Defined.

Lemma finish_pass_witness :
  let t := (@run_calls _ _ (@dcbc_trainer checksum) [Ingest three_points] idle_trainer).2 in
  is_ok (@Trainer.finish_pass checksum t).1 = true
  /\ match @Trainer.finish_pass checksum t with
     | (Ok report, t') => Trainer.state t = Ingesting /\ @pass_done checksum t report t'
     | (Err _, t') => Trainer.state t' = ErrorState /\ Trainer.current_pass t' = []
     | (Panic, _) => False
     end.
Proof.
  intros t. split; [vm_compute; reflexivity|].
  apply (@finish_pass_sound checksum two_clusters idle_trainer [Ingest three_points]).
  - vm_compute. reflexivity.
  - by apply N.leb_le.
  - by apply N.ltb_lt.
Defined.

Lemma trainer_run_witness :
  let t := (@run_calls _ _ (@dcbc_trainer checksum) two_passes idle_trainer).2 in
  Forall (fun r => is_ok r = true) (@run_calls _ _ (@dcbc_trainer checksum) two_passes idle_trainer).1
  /\ Forall no_panic (@run_calls _ _ (@dcbc_trainer checksum) two_passes idle_trainer).1
  /\ exists c, Classifier.into_classifier t = Ok c /\ answers 2 c.
Proof.
  intros t. split; [vm_compute; repeat constructor|].
  destruct (@trainer_run_safe checksum two_clusters idle_trainer two_passes) as (Hp & Hc & _).
  - vm_compute. reflexivity.
  - by apply N.leb_le.
  - by apply N.leb_le.
  - split; [exact Hp|]. apply Hc. vm_compute. reflexivity.
Defined.
