(* ===== verification/IndexTypes.v ===== *)
(** * The streaming indexer: data, errors and the seams to its surroundings

    The types of crates/lexongraph-streaming-indexer/src/lib.rs that its first
    surface shares, the error enum, and the traits through which the indexer
    reaches its caller: resolving content, embedding, planning and summarising.
    A collaborator may answer differently each time it is asked, so its methods
    work on a state. Item indices and counts of children are [nat]. *)
From S2P Require Import Prelude Hash Cbor Ieee Ebcp BlockV1 Store Clustering.
From Stdlib Require Import Ascii.

(** ** Strings *)

(** [{:?}] of a string; a character outside ASCII is taken to be printable. *)
Definition escape_char (c : ascii) : string :=
  match N_of_ascii c with
  | 0%N => "\0" | 9%N => "\t" | 10%N => "\n" | 13%N => "\r" | 92%N => "\\"
  | 34%N => String "\" (String c EmptyString)
  | n => if (n <? 32)%N || (n =? 127)%N
         then "\u{" +:+ (if (n <? 16)%N then EmptyString else String (hex_digit (n / 16)) EmptyString)
              +:+ String (hex_digit (n mod 16)) "}"
         else String c EmptyString
  end%stdpp.
Fixpoint escape_string (s : string) : string :=
  match s with EmptyString => EmptyString | String c s' => (escape_char c +:+ escape_string s')%stdpp end.
Definition quote : string := String (ascii_of_N 34) EmptyString.
Definition string_debug (s : string) : string := (quote +:+ escape_string s +:+ quote)%stdpp.

(** ** Data *)
Inductive PlanningStage := Single | Coarse | Fine | Custom.
#[export] Instance PlanningStage_eq_dec : EqDecision PlanningStage.
Proof. solve_decision. Defined.

Record FinalizedPartition := {
  partition_id : string; parent_id : option string; child_ids : list string;
  item_indices : list nat; terminal : bool; planning_stage : PlanningStage
}.
Record FinalizedPartitionHierarchy := {
  root_partition_id : string; partitions : list FinalizedPartition
}.

Record PlanningPassOutcome := {
  hierarchy : FinalizedPartitionHierarchy;
  outcome_requested : option N; outcome_realized : option N;
  planning_quality_metric : f64; planning_balance_metric : f64;
  planning_quality_direction : MetricDirection; planning_balance_direction : MetricDirection;
  stages_used : list PlanningStage
}.

Record IndexItem (R : Type) := { item_metadata : Metadata; content_ref : R }.
Arguments item_metadata {R}. Arguments content_ref {R}.

Record StreamingIndexingResult := { root_id : BlockHash; block_ids : list BlockHash }.

Record IndexingPassReport := {
  observed_item_count : nat; completed_pass_count : N;
  requested_planning_cluster_count : option N; realized_planning_cluster_count : option N;
  report_quality_metric : f64; report_balance_metric : f64;
  report_quality_direction : MetricDirection; report_balance_direction : MetricDirection;
  planned_partition_count : nat; terminal_partition_count : nat; hierarchy_depth : nat
}.

Record BaselineItem := {
  content_ref_hash : BlockHash; metadata_hash : BlockHash; content_hash : BlockHash; embedding_hash : BlockHash
}.
#[export] Instance BaselineItem_eq_dec : EqDecision BaselineItem.
Proof. solve_decision. Defined.

Record IndexedChild := {
  ic_embedding : bytes; ic_child : BlockHash; ic_level : N; ic_descendant_count : N
}.
Record ChildSummaryInput := {
  cs_embedding : bytes; cs_child : BlockHash; cs_level : N; cs_descendant_count : N
}.

Record EmbeddingInput := { input_media_type : string; input_body : bytes }.

Inductive RunPhase := Planning | PlanningComplete | Finalized.
#[export] Instance RunPhase_eq_dec : EqDecision RunPhase.
Proof. solve_decision. Defined.
Definition RunPhase_debug (p : RunPhase) : string :=
  match p with Planning => "Planning" | PlanningComplete => "PlanningComplete" | Finalized => "Finalized" end.

(** The version of a published indexing profile *)
Record PublishedProfileVersion := { major : N; minor : N; patch : N }.
Definition PublishedProfileVersion_to_string (v : PublishedProfileVersion) : string :=
  (pretty (major v) +:+ "." +:+ pretty (minor v) +:+ "." +:+ pretty (patch v))%stdpp.

(** ** Errors *)
Inductive StreamingIndexerError :=
| EmptyInput
| EmptyPass (message : string)
| UnsupportedPublishedProfileVersion (version : PublishedProfileVersion)
| Cancelled (message : string)
| ReplayMismatch (message : string)
| InvalidMetadata (message : string)
| ContentResolution (message : string)
| UnusableContent (message : string)
| EmbeddingFailure (message : string)
| ClusteringFailure (message : string)
| InvalidHybridPlanningConfiguration (message : string)
| InvalidAdaptivePlanningConfiguration (message : string)
| HierarchyValidation (message : string)
| CanonicalEmbeddingFailure (message : string)
| IntermediateNodeTooLarge (min_serialized_bytes size_target : N)
| LocalSpill (message : string)
| TerminalPartitionMaterialization (message : string)
| BlockConstruction (error : BlockError)
| Storage (error : BlockStoreError)
| InvalidLifecycleTransition (message : string).

Definition StreamingIndexerError_to_string (e : StreamingIndexerError) : string :=
  match e with
  | EmptyInput => "streaming indexing requires at least one item"
  | EmptyPass m => "pass is empty: " +:+ m
  | UnsupportedPublishedProfileVersion v => "unsupported published indexing profile version " +:+ PublishedProfileVersion_to_string v
  | Cancelled m => "streaming indexing cancelled: " +:+ m
  | ReplayMismatch m => "replay mismatch: " +:+ m
  | InvalidMetadata m => "metadata is invalid: " +:+ m
  | ContentResolution m => "content resolution failed: " +:+ m
  | UnusableContent m => "resolved content is unusable: " +:+ m
  | EmbeddingFailure m => "embedding generation failed: " +:+ m
  | ClusteringFailure m => "clustering failed: " +:+ m
  | InvalidHybridPlanningConfiguration m => "hybrid planning configuration is invalid: " +:+ m
  | InvalidAdaptivePlanningConfiguration m => "adaptive planning configuration is invalid: " +:+ m
  | HierarchyValidation m => "partition hierarchy is invalid: " +:+ m
  | CanonicalEmbeddingFailure m => "canonical embedding selection failed: " +:+ m
  | IntermediateNodeTooLarge least target =>
      "smallest intermediate node needs " +:+ pretty least +:+ " bytes, exceeding block size target " +:+ pretty target
  | LocalSpill m => "local spill failed: " +:+ m
  | TerminalPartitionMaterialization m => "terminal partition could not be materialized: " +:+ m
  | BlockConstruction e => "block construction failed: " +:+ BlockError_to_string e
  | Storage e => "block storage failed: " +:+ BlockStoreError_to_string e
  | InvalidLifecycleTransition m => "invalid lifecycle transition: " +:+ m
  end%stdpp.

Definition StreamingIndexerError_source (e : StreamingIndexerError) : option (BlockError + BlockStoreError) :=
  match e with
  | BlockConstruction e => Some (inl e)
  | Storage e => Some (inr e)
  | _ => None
  end.

(** [impl From<StreamingClusteringError>] *)
Definition from_clustering_error (e : StreamingClusteringError) : StreamingIndexerError :=
  ClusteringFailure (StreamingClusteringError_to_string e).

(** ** Collaborators

    Errors are taken as what their [to_string] gives. *)
Class ContentResolver (W R : Type) := {
  resolve : R -> W -> result string Content * W;
  fingerprint : R -> W -> result string BlockHash * W
}.

(** The provided method of [EmbeddingProvider] may be overridden: both are fields. *)
Class EmbeddingProvider (W : Type) := {
  embed : EmbeddingInput -> EmbeddingSpec -> W -> result string bytes * W;
  embed_batch : list EmbeddingInput -> EmbeddingSpec -> W -> result string (list bytes) * W
}.

Fixpoint default_embed_batch {W} `{EmbeddingProvider W} (inputs : list EmbeddingInput) (spec : EmbeddingSpec)
  (w : W) : result string (list bytes) * W :=
  match inputs with
  | [] => (Ok [], w)
  | input :: rest =>
      match embed input spec w with
      | (Ok embedding, w) =>
          let '(r, w) := default_embed_batch rest spec w in (rmap (cons embedding) r, w)
      | (Err e, w) => (Err e, w)
      | (Panic, w) => (Panic, w)
      end
  end.

Class ChildSummaryPolicy := summarize_children : EmbeddingSpec -> list ChildSummaryInput -> result string bytes.

(** The error of a planning policy, by what [map_planning_policy_error] asks of it. *)
Inductive PlanningError :=
| PlanIndexerError (e : StreamingIndexerError)
| PlanClusteringError (e : StreamingClusteringError)
| PlanOtherError (text : string).

(** [message.contains(pattern)] *)
Definition contains (pattern message : string) : bool :=
  match String.index 0 pattern message with Some _ => true | None => false end.

Definition map_planning_policy_error (error : PlanningError) : StreamingIndexerError :=
  match error with
  | PlanIndexerError e => e
  | PlanClusteringError (InvalidConfiguration message) =>
      if contains "fine_partition_max_items" message then InvalidHybridPlanningConfiguration message
      else from_clustering_error (InvalidConfiguration message)
  | PlanClusteringError e => from_clustering_error e
  | PlanOtherError text => ClusteringFailure text
  end.

(** A planning policy keeps a state. *)
Class HierarchicalPlanningPolicy (P : Type) :=
  finish_planning_pass : list (list f32) -> EmbeddingSpec -> nat -> N -> P ->
    result PlanningError PlanningPassOutcome * P.

(** ** Computations over a state that may fail, in particular of the indexer *)
Definition state_m (E X A : Type) : Type := X -> result E A * X.
Definition index_m (X A : Type) : Type := state_m StreamingIndexerError X A.
Definition iret {E X A} (r : result E A) : state_m E X A := fun x => (r, x).
Definition ibind {E X A B} (m : state_m E X A) (k : A -> state_m E X B) : state_m E X B := fun x =>
  match m x with
  | (Ok a, x) => k a x
  | (Err e, x) => (Err e, x)
  | (Panic, x) => (Panic, x)
  end.
Notation "'let!' x ':=' m 'in' k" := (ibind m (fun x => k))
  (at level 10, x name, m at level 100, k at level 200) : rust_scope.
Notation "'let!' ' p ':=' m 'in' k" := (ibind m (fun x => match x with p => k end))
  (at level 10, p pattern, m at level 100, k at level 200) : rust_scope.

(** Loops: over a value carried along, and collecting. *)
Fixpoint ifold {E X A B} (f : A -> B -> state_m E X A) (a : A) (l : list B) : state_m E X A :=
  match l with
  | [] => iret (Ok a)
  | b :: l' => let! a := f a b in ifold f a l'
  end.
Fixpoint icollect {E X A B} (f : A -> state_m E X B) (l : list A) : state_m E X (list B) :=
  match l with
  | [] => iret (Ok [])
  | a :: l' => let! b := f a in let! bs := icollect f l' in iret (Ok (b :: bs))
  end.

(** A collaborator's answer, its error mapped; a part of the state. *)
Definition ask {X E A} (f : E -> StreamingIndexerError) (m : X -> result E A * X) : index_m X A := fun x =>
  let '(r, x) := m x in (map_err f r, x).
Definition on_fst {X Y A} (m : index_m X A) : index_m (X * Y) A := fun '(x, y) =>
  let '(r, x) := m x in (r, (x, y)).
Definition on_snd {X Y A} (m : index_m Y A) : index_m (X * Y) A := fun '(x, y) =>
  let '(r, y) := m y in (r, (x, y)).
