(* ===== verification/IndexHierarchy.v ===== *)
(** * Partition hierarchies

    crates/lexongraph-streaming-indexer/src/lib.rs: the validation of a partition
    hierarchy, its statistics, and the plan that routes every item to its terminal
    partition. The plan goes through a temporary file; what the operating system
    answers to an operation on it is the class [LocalIo]. *)
From S2P Require Import Prelude Ordering IndexTypes.

Notation part_map := (gmap string FinalizedPartition) (only parsing).

(** [collect::<HashMap>()]: the last partition of an id wins. *)
Definition partition_map (l : list FinalizedPartition) : part_map :=
  foldl (fun m p => <[partition_id p := p]> m) ∅ l.

(** [sort_unstable] on indices, [dedup] *)
Definition sort_indices (l : list nat) : list nat := sort_by Nat.compare l.
Fixpoint dedup_indices (l : list nat) : list nat :=
  match l with
  | x :: ((y :: _) as l') => if (x =? y)%nat then dedup_indices l' else x :: dedup_indices l'
  | l => l
  end.

(** The checks of the loop over the partitions. *)
Definition check_child (m : part_map) (p : FinalizedPartition) (child_id : string) : result string unit :=
  let? child := ok_or (m !! child_id)
    ("partition " +:+ string_debug (partition_id p) +:+ " references missing child " +:+ string_debug child_id)%stdpp in
  guard? bool_decide (parent_id child = Some (partition_id p)) else
    ("partition " +:+ string_debug (partition_id p) +:+ " has ancestry mismatch for child "
      +:+ string_debug child_id)%stdpp in
  Ok tt.

Definition check_partition (m : part_map) (item_count : nat) (p : FinalizedPartition) : result string unit :=
  let name := string_debug (partition_id p) in
  guard? bool_decide (dedup_indices (sort_indices (item_indices p)) = item_indices p) else
    ("partition " +:+ name +:+ " must store sorted unique item indices")%stdpp in
  guard? forallb (fun index => (index <? item_count)%nat) (item_indices p) else
    ("partition " +:+ name +:+ " references an out-of-range item index")%stdpp in
  guard? negb (terminal p && negb (bool_decide (child_ids p = []))) else
    ("terminal partition " +:+ name +:+ " must not declare children")%stdpp in
  guard? negb (terminal p && bool_decide (item_indices p = [])) else
    ("terminal partition " +:+ name +:+ " must contain at least one item")%stdpp in
  guard? negb (negb (terminal p) && bool_decide (child_ids p = [])) else
    ("non-terminal partition " +:+ name +:+ " must declare children")%stdpp in
  try_fold (fun _ child_id => check_child m p child_id) tt (child_ids p).

(** [walk]: the items below a partition, and the partitions visited. Every call
    visits another partition, so that their number bounds the depth. *)
Fixpoint walk (fuel : nat) (m : part_map) (id : string) (visited : gset string)
  : result string (list nat * gset string) :=
  match fuel with
  | O => Panic
  | S fuel' =>
      let? p := ok_or (m !! id) ("partition " +:+ string_debug id +:+ " is missing")%stdpp in
      guard? negb (bool_decide (id ∈ visited)) else
        ("partition hierarchy contains a cycle at " +:+ string_debug id)%stdpp in
      let visited := {[id]} ∪ visited in
      if terminal p then Ok (item_indices p, visited)
      else
        let? '(union, visited) := try_fold (fun acc child_id =>
          let? '(items, visited) := walk fuel' m child_id acc.2 in
          Ok (acc.1 ++ items, visited)) ([], visited) (child_ids p) in
        let union := sort_indices union in
        guard? bool_decide (union = item_indices p) else
          ("partition " +:+ string_debug (partition_id p)
            +:+ " does not match the exact union of its children")%stdpp in
        Ok (union, visited)
  end.

Definition validate_partition_hierarchy (h : FinalizedPartitionHierarchy) (item_count : nat) : result string unit :=
  let m := partition_map (partitions h) in
  let? root := ok_or (m !! root_partition_id h) "root partition is missing" in
  guard? bool_decide (parent_id root = None) else "root partition must not have a parent" in
  let? _ := try_fold (fun _ p => check_partition m item_count p) tt (partitions h) in
  let? '(root_items, visited) := walk (S (size m)) m (root_partition_id h) ∅ in
  guard? bool_decide (root_items = seq 0 item_count) else
    "root partition must cover the complete logical item set" in
  guard? (size visited =? length (partitions h))%nat else "partition hierarchy contains unreachable partitions" in
  Ok tt.

(** ** Statistics *)

(** [depth_of]; its [unwrap] is [expect]. *)
Fixpoint depth_of (fuel : nat) (m : part_map) (id : string) : result string nat :=
  match fuel with
  | O => Panic
  | S fuel' =>
      let? p := expect (m !! id) in
      match child_ids p with
      | [] => Ok 1%nat
      | cs => let? depths := collect_map (depth_of fuel' m) cs in Ok (1 + foldr Nat.max 0 depths)%nat
      end
  end.

Record HierarchyStats := { partition_count : nat; stats_terminal_count : nat; stats_depth : nat }.

Definition hierarchy_stats (h : FinalizedPartitionHierarchy) : result string HierarchyStats :=
  let m := partition_map (partitions h) in
  let? depth := (match partitions h with
                 | [] => Ok 0%nat
                 | _ => depth_of (S (size m)) m (root_partition_id h)
                 end) in
  Ok {| partition_count := length (partitions h);
        stats_terminal_count := length (filter (fun p => terminal p = true) (partitions h));
        stats_depth := depth |}.

(** ** Local files

    The operations on the routing file and on the spill files, each by what
    distinguishes it within a run. [fault op] is the error text of a failure. *)
Inductive local_op :=
| RouteDir | RouteCreate | RouteFill (item : nat) | RouteFlush | RouteReopen
| RouteSeek (item : nat) | RouteReadBack (item : nat) | RouteWrite (item : nat)
| RouteOpen | RouteRead (position : nat)
| SpillDir | SpillCreate (partition : nat) | SpillReopen (partition : nat)
| SpillAppend (partition position : nat) | SpillFlush (partition : nat)
| SpillOpen (partition : nat) | SpillRead (partition position : nat).

Class LocalIo := fault : local_op -> option string.

Definition local `{LocalIo} (op : local_op) : result StreamingIndexerError unit :=
  match fault op with Some message => Err (LocalSpill message) | None => Ok tt end.

Notation indexed := (result StreamingIndexerError) (only parsing).

(** ** Routing *)
Definition U32_MAX : N := 2 ^ 32 - 1.

Record PartitionRoutingPlan := {
  terminal_partition_ids : list string; terminal_partition_item_counts : list nat;
  route_file : list N
}.

Section routing.
Context `{LocalIo}.

(** One item of a terminal partition: its entry must still be free. *)
Definition route_item (ordinal : N) (file : list N) (item_index : nat) : indexed (list N) :=
  let? _ := ok_or (checked_mul U64_MAX (N.of_nat item_index) 4)
    (HierarchyValidation "partition routing offset overflowed") in
  let? _ := local (RouteSeek item_index) in
  let? _ := local (RouteReadBack item_index) in
  let? existing := ok_or (file !! item_index) (LocalSpill "failed to fill whole buffer") in
  guard? (existing =? U32_MAX)%N else
    HierarchyValidation ("item index " +:+ pretty (N.of_nat item_index)
      +:+ " is assigned to more than one terminal partition")%stdpp in
  let? _ := local (RouteWrite item_index) in
  Ok (<[item_index := ordinal]> file).

(** One terminal partition. *)
Definition route_partition (plan : PartitionRoutingPlan * nat) (partition : nat * FinalizedPartition)
  : indexed (PartitionRoutingPlan * nat) :=
  let '(plan, assigned_item_count) := plan in
  let '(partition_ordinal, p) := partition in
  guard? negb (bool_decide (item_indices p = [])) else
    HierarchyValidation ("terminal partition " +:+ string_debug (partition_id p)
      +:+ " must contain at least one item")%stdpp in
  guard? (N.of_nat partition_ordinal <=? U32_MAX)%N else
    HierarchyValidation "terminal partition ordinal does not fit into u32" in
  let? file := try_fold (route_item (N.of_nat partition_ordinal)) (route_file plan) (item_indices p) in
  Ok ({| terminal_partition_ids := terminal_partition_ids plan ++ [partition_id p];
         terminal_partition_item_counts := terminal_partition_item_counts plan ++ [length (item_indices p)];
         route_file := file |}, (assigned_item_count + length (item_indices p))%nat).

(** The terminal partitions in the order of their identifiers. *)
Definition string_cmp (a b : string) : comparison := list_cmp byte_cmp (String.list_byte_of_string a) (String.list_byte_of_string b).
Definition terminal_partitions (h : FinalizedPartitionHierarchy) : list FinalizedPartition :=
  sort_by (fun a b => string_cmp (partition_id a) (partition_id b))
    (filter (fun p => terminal p = true) (partitions h)).

Definition build_partition_routing_plan (h : FinalizedPartitionHierarchy) (item_count : nat)
  : indexed PartitionRoutingPlan :=
  let? _ := map_err HierarchyValidation (validate_partition_hierarchy h item_count) in
  let? _ := local RouteDir in
  let? _ := local RouteCreate in
  let? _ := try_fold (fun _ i => local (RouteFill i)) tt (seq 0 item_count) in
  let? _ := local RouteFlush in
  let? _ := local RouteReopen in
  let? '(plan, assigned_item_count) := try_fold route_partition
    ({| terminal_partition_ids := []; terminal_partition_item_counts := [];
        route_file := replicate item_count U32_MAX |}, 0%nat) (imap pair (terminal_partitions h)) in
  guard? (assigned_item_count =? item_count)%nat else
    HierarchyValidation "every logical item must resolve to a terminal partition" in
  Ok plan.

(** [read_partition_ordinal], at a position of the reader; [None] at the end. *)
Definition read_partition_ordinal (plan : PartitionRoutingPlan) (position : nat) : indexed (option N) :=
  let? _ := local (RouteRead position) in
  Ok (route_file plan !! position).
End routing.
