(* ===== verification/IndexHierarchyCorrect.v ===== *)
(** * Partition hierarchies: the properties

    A hierarchy that passes the validation is a tree of its partitions: every
    partition occurs in it once, and its leaves, the terminal partitions, divide
    the items among them. So the statistics are defined and the routing plan sends
    every item to the one terminal partition that has it. *)
From S2P Require Import Prelude Ordering IndexTypes IndexHierarchy.

(** ** Trees of partitions *)
Inductive ptree := PNode (p : FinalizedPartition) (ts : list ptree).

Section ptree_induction.
Context (P : ptree -> Prop) (Hnode : forall p ts, Forall P ts -> P (PNode p ts)).
Fixpoint ptree_nested_ind (t : ptree) : P t :=
  match t with
  | PNode p ts => Hnode p ts ((fix go l : Forall P l :=
      match l with [] => Forall_nil_2 P | t :: l' => Forall_cons_2 P t l' (ptree_nested_ind t) (go l') end) ts)
  end.
End ptree_induction.

Fixpoint t_parts (t : ptree) : list FinalizedPartition :=
  match t with PNode p ts => p :: concat (map t_parts ts) end.
Fixpoint t_height (t : ptree) : nat :=
  match t with PNode p ts => S (foldr Nat.max 0 (map t_height ts)) end.
Definition t_ids (t : ptree) : list string := map partition_id (t_parts t).
(** The leaves in the order of the tree, and their items. *)
Fixpoint t_leaves (t : ptree) : list FinalizedPartition :=
  match t with PNode p ts => if terminal p then [p] else concat (map t_leaves ts) end.
Definition t_items (t : ptree) : list nat := concat (map item_indices (t_leaves t)).

(** [t] is the tree below the partition [id]: an inner partition holds exactly the
    items of its children. *)
Inductive tree_of (m : part_map) : string -> ptree -> Prop :=
| tree_leaf id p : m !! id = Some p -> terminal p = true -> tree_of m id (PNode p [])
| tree_node id p ts : m !! id = Some p -> terminal p = false -> Forall2 (tree_of m) (child_ids p) ts ->
    item_indices p ≡ₚ concat (map t_items ts) -> tree_of m id (PNode p ts).

(** ** The map of partitions *)
Lemma partition_map_snoc l p : partition_map (l ++ [p]) = <[partition_id p := p]> (partition_map l).
Proof. unfold partition_map. by rewrite foldl_app. Qed.

Lemma partition_map_id l id p : partition_map l !! id = Some p -> partition_id p = id /\ p ∈ l.
Proof.
  revert p. induction l as [|q l IH] using rev_ind; intros p; [done|]. rewrite partition_map_snoc.
  destruct (decide (partition_id q = id)) as [<-|Hne].
  - rewrite lookup_insert_eq. intros [= <-]. split; [done|]. apply elem_of_app. right. by left.
  - rewrite lookup_insert_ne by done. intros [? ?]%IH. split; [done|]. apply elem_of_app. by left.
Qed.

Lemma partition_map_in l p : p ∈ l -> is_Some (partition_map l !! partition_id p).
Proof.
  induction l as [|q l IH] using rev_ind; [by intros ?%elem_of_nil|]. rewrite partition_map_snoc.
  intros [Hp|Hp%list_elem_of_singleton]%elem_of_app.
  - destruct (decide (partition_id q = partition_id p)) as [->|]; [by rewrite lookup_insert_eq|].
    rewrite lookup_insert_ne by done. by apply IH.
  - subst q. by rewrite lookup_insert_eq.
Qed.

Lemma partition_map_dom l : dom (partition_map l) = list_to_set (map partition_id l).
Proof.
  apply set_eq. intros id. rewrite elem_of_dom, elem_of_list_to_set. split.
  - intros [p [Hid Hp]%partition_map_id]. apply list_elem_of_fmap. by exists p.
  - intros (p & -> & Hp)%list_elem_of_fmap. by apply partition_map_in.
Qed.

Lemma size_list_to_set_le (l : list string) : (size (list_to_set l : gset string) <= length l)%nat.
Proof.
  induction l as [|x l IH]; cbn [list_to_set length]; [by rewrite size_empty|]. rewrite size_union_alt, size_singleton.
  pose proof (subseteq_size (list_to_set l ∖ {[x]} : gset string) (list_to_set l) ltac:(set_solver)). lia.
Qed.

Lemma partition_map_size l : (size (partition_map l) <= length l)%nat.
Proof.
  rewrite <-size_dom, partition_map_dom. rewrite <-(length_map partition_id l). apply size_list_to_set_le.
Qed.

Lemma partition_map_distinct l id p : NoDup (map partition_id l) ->
  partition_map l !! id = Some p <-> p ∈ l /\ partition_id p = id.
Proof.
  intros Hnd. split; [intros [? ?]%partition_map_id; by split|]. intros [Hp <-].
  destruct (partition_map_in l p Hp) as [q Hq]. rewrite Hq. f_equal.
  apply partition_map_id in Hq as [Hid Hq].
  apply list_elem_of_lookup in Hp as [i Hi], Hq as [j Hj].
  assert (i = j) as ->; [|congruence]. apply (NoDup_lookup (map partition_id l) i j (partition_id p)); [done| |];
    rewrite list_lookup_fmap; [by rewrite Hi|rewrite Hj; cbn; by rewrite Hid].
Qed.

(** ** Walking *)
Definition walk_result (m : part_map) (id : string) (visited : gset string) (r : list nat * gset string) : Prop :=
  exists t, tree_of m id t /\ NoDup (t_ids t) /\ (forall x, x ∈ t_ids t -> x ∉ visited)
  /\ r.2 = list_to_set (t_ids t) ∪ visited /\ r.1 ≡ₚ t_items t
  /\ exists p, m !! id = Some p /\ r.1 = item_indices p.

Lemma t_items_node p ts : terminal p = false -> t_items (PNode p ts) = concat (map t_items ts).
Proof.
  intros Hp. unfold t_items. cbn [t_leaves]. rewrite Hp. clear Hp.
  induction ts as [|t ts IH]; cbn [map concat]; [done|]. by rewrite map_app, concat_app, IH.
Qed.

Lemma t_ids_node p ts : t_ids (PNode p ts) = partition_id p :: concat (map t_ids ts).
Proof.
  unfold t_ids. cbn [t_parts map]. f_equal. induction ts as [|t ts IH]; cbn [map concat]; [done|].
  by rewrite map_app, IH.
Qed.

(** The loop over the children. *)
Lemma walk_children m (f : string -> gset string -> result string (list nat * gset string)) cs :
  (forall id visited r, f id visited = Ok r -> walk_result m id visited r) -> forall acc r,
  try_fold (fun acc child_id => let? '(items, visited) := f child_id acc.2 in Ok (acc.1 ++ items, visited)) acc cs = Ok r ->
  exists ts, Forall2 (tree_of m) cs ts /\ NoDup (concat (map t_ids ts))
  /\ (forall x, x ∈ concat (map t_ids ts) -> x ∉ acc.2)
  /\ r.2 = list_to_set (concat (map t_ids ts)) ∪ acc.2 /\ r.1 ≡ₚ acc.1 ++ concat (map t_items ts).
Proof.
  intros Hf. induction cs as [|c cs IH]; intros acc r Hr; cbn [try_fold] in Hr.
  - injection Hr as <-. exists []. cbn. split_and!; [constructor|constructor|by intros x ?%elem_of_nil|set_solver|].
    by rewrite app_nil_r.
  - apply rbind_ok in Hr as (acc' & Hc & Hr). apply rbind_ok in Hc as ([items visited] & Hc & [= <-]).
    destruct (Hf _ _ _ Hc) as (t & Ht & Hnd & Hfresh & Hv & Hi & _). cbn [fst snd] in Hv, Hi.
    destruct (IH _ _ Hr) as (ts & Hts & Hnds & Hfreshs & Hvs & His). cbn [fst snd] in Hfreshs, Hvs, His.
    exists (t :: ts). cbn [map concat]. split_and!.
    + by constructor.
    + apply NoDup_app. split_and!; [done| |done]. intros x Hx Hxs. apply (Hfreshs x Hxs). rewrite Hv.
      apply elem_of_union_l. by apply elem_of_list_to_set.
    + intros x [Hx|Hx]%elem_of_app; [by apply Hfresh|]. intros Hacc. apply (Hfreshs x Hx). rewrite Hv.
      by apply elem_of_union_r.
    + rewrite Hvs, Hv, list_to_set_app_L. set_solver.
    + rewrite His, Hi. by rewrite app_assoc.
Qed.

Lemma walk_ok m (Hm : forall id p, m !! id = Some p -> partition_id p = id) fuel : forall id visited r,
  walk fuel m id visited = Ok r -> walk_result m id visited r.
Proof.
  induction fuel as [|fuel IH]; intros id visited r Hr; cbn [walk] in Hr; [done|].
  apply rbind_ok in Hr as (p & Hp & Hr). apply ok_or_ok in Hp. pose proof (Hm _ _ Hp) as Hid.
  destruct (negb _) eqn:Hb; [|done]. apply negb_true_iff, bool_decide_eq_false in Hb.
  destruct (terminal p) eqn:Ht.
  - injection Hr as <-. exists (PNode p []). unfold t_ids, t_items. cbn. rewrite Ht. cbn. rewrite Hid. split_and!.
    + by constructor.
    + apply NoDup_singleton.
    + by intros x ->%list_elem_of_singleton.
    + set_solver.
    + by rewrite app_nil_r.
    + by exists p.
  - apply rbind_ok in Hr as ([union visited'] & Hc & Hr).
    destruct (bool_decide _) eqn:Hu; [|done]. apply bool_decide_eq_true in Hu. injection Hr as <-.
    destruct (walk_children m (walk fuel m) (child_ids p) IH _ _ Hc) as (ts & Hts & Hnd & Hfresh & Hv & Hi).
    cbn [fst snd] in *. exists (PNode p ts). rewrite t_ids_node, (t_items_node _ _ Ht), Hid. split_and!.
    + constructor; [done|done|done|]. rewrite <-Hu. unfold sort_indices. by rewrite sort_by_Permutation.
    + constructor; [|done]. intros Hin. apply (Hfresh _ Hin). set_solver.
    + intros x [->|Hx]%elem_of_cons; [done|]. intros Hxv. apply (Hfresh _ Hx). set_solver.
    + rewrite Hv. cbn. set_solver.
    + unfold sort_indices. by rewrite sort_by_Permutation.
    + by exists p.
Qed.

Lemma try_fold_guarded {E A B} (I : A -> Prop) (f : A -> B -> result E A) l : forall a,
  I a -> (forall a b, I a -> no_panic (f a b) /\ forall a', f a b = Ok a' -> I a') -> no_panic (try_fold f a l).
Proof.
  induction l as [|b l IH]; intros a Ha Hf; cbn [try_fold]; [done|]. destruct (Hf a b Ha) as [Hp Hi].
  apply rbind_no_panic; [done|]. intros a' Ha'. by apply IH; [apply Hi|].
Qed.

Lemma walk_no_panic m (Hm : forall id p, m !! id = Some p -> partition_id p = id) fuel : forall id visited,
  (size (dom m ∖ visited) < fuel)%nat -> no_panic (walk fuel m id visited).
Proof.
  induction fuel as [|fuel IH]; intros id visited Hsize; [lia|]. cbn [walk].
  apply rbind_no_panic; [apply ok_or_no_panic|]. intros p Hp%ok_or_ok.
  destruct (negb _) eqn:Hb; [|done]. apply negb_true_iff, bool_decide_eq_false in Hb.
  destruct (terminal p); [done|]. apply rbind_no_panic; [|intros [u v] _; by destruct (bool_decide _)].
  assert (id ∈ dom m) as Hid by (apply elem_of_dom; by exists p).
  assert (size (dom m ∖ ({[id]} ∪ visited)) < fuel)%nat as Hlt.
  { assert (dom m ∖ ({[id]} ∪ visited) ⊂ dom m ∖ visited) as Hsub%subset_size by set_solver. lia. }
  apply (try_fold_guarded (fun acc : list nat * gset string => {[id]} ∪ visited ⊆ acc.2)); [done|].
  intros acc c Hacc. split.
  - apply rbind_no_panic; [|by intros [? ?]]. apply IH.
    pose proof (subseteq_size (dom m ∖ acc.2) (dom m ∖ ({[id]} ∪ visited)) ltac:(set_solver)). lia.
  - intros acc' ([items v] & Hw & [= <-])%rbind_ok. destruct (walk_ok m Hm _ _ _ _ Hw) as (t & _ & _ & _ & Hv & _).
    cbn [fst snd] in *. rewrite Hv. set_solver.
Qed.

(** ** Validity *)
Lemma tree_of_in m id t : tree_of m id t -> forall p, p ∈ t_parts t -> exists id, m !! id = Some p.
Proof.
  revert id. induction t as [p ts IH] using ptree_nested_ind. intros id Ht q Hq. cbn [t_parts] in Hq.
  inversion Ht as [? ? Hp Htp|? ? ? Hp Htp Hts Hunion]; subst.
  - apply elem_of_cons in Hq as [->|Hq%elem_of_nil]; [by exists id|done].
  - apply elem_of_cons in Hq as [->|Hq]; [by exists id|]. clear Ht Hunion.
    revert IH Hts. generalize (child_ids p). induction ts as [|t ts IHts]; intros cs IH Hts; cbn in Hq.
    + by apply elem_of_nil in Hq.
    + inversion Hts as [|c ? cs' ? Hc Hcs]; subst. apply Forall_cons in IH as [IH1 IH2].
      apply elem_of_app in Hq as [Hq|Hq]; [by eapply IH1|by eapply IHts].
Qed.

(** What the validation establishes. *)
Record valid_hierarchy (h : FinalizedPartitionHierarchy) (n : nat) (t : ptree) : Prop := {
  vh_tree : tree_of (partition_map (partitions h)) (root_partition_id h) t;
  vh_parts : t_parts t ≡ₚ partitions h;
  vh_distinct : NoDup (map partition_id (partitions h));
  vh_items : t_items t ≡ₚ seq 0 n;
  vh_leaf_children : forall p, p ∈ partitions h -> terminal p = true -> child_ids p = [];
  vh_leaf_items : forall p, p ∈ partitions h -> terminal p = true -> item_indices p <> []
}.

Lemma check_partition_ok m n p : check_partition m n p = Ok tt ->
  terminal p = true -> child_ids p = [] /\ item_indices p <> [].
Proof.
  intros Hc Ht. unfold check_partition in Hc. rewrite Ht in Hc. inv_ok.
  apply negb_true_iff in Hb1, Hb2. cbn in Hb1, Hb2. apply negb_false_iff, bool_decide_eq_true in Hb1.
  by apply bool_decide_eq_false in Hb2.
Qed.

Lemma check_all_ok m n l : try_fold (fun _ p => check_partition m n p) tt l = Ok tt ->
  forall p, p ∈ l -> check_partition m n p = Ok tt.
Proof.
  induction l as [|q l IH]; cbn; intros Hc p Hp; [by apply elem_of_nil in Hp|].
  apply rbind_ok in Hc as ([] & Hq & Hc). apply elem_of_cons in Hp as [->|Hp]; [done|by apply IH].
Qed.

Lemma same_length_perm (l k : list string) : NoDup l -> l ⊆ k -> (length k <= length l)%nat -> l ≡ₚ k /\ NoDup k.
Proof.
  intros Hl Hlk Hlen. pose proof (NoDup_submseteq l k Hl Hlk) as Hs.
  assert (l ≡ₚ k) as HP by (by apply submseteq_length_Permutation). split; [done|by rewrite <-HP].
Qed.

Lemma map_perm_parts (l k : list FinalizedPartition) : map partition_id l ≡ₚ map partition_id k ->
  NoDup (map partition_id k) -> (forall p, p ∈ l -> p ∈ k) -> l ≡ₚ k.
Proof.
  intros HP Hnd Hin. assert (NoDup l) as Hl by (apply (NoDup_fmap_1 partition_id); by rewrite HP).
  apply submseteq_length_Permutation; [by apply NoDup_submseteq|].
  rewrite <-(length_map partition_id l), HP, length_map. done.
Qed.

Lemma validate_ok h n : validate_partition_hierarchy h n = Ok tt -> exists t, valid_hierarchy h n t.
Proof.
  intros Hv. unfold validate_partition_hierarchy in Hv. cbv zeta in Hv.
  apply rbind_ok in Hv as (root & Hroot & Hv). destruct (bool_decide (parent_id root = None)); [|done].
  apply rbind_ok in Hv as ([] & Hc & Hv). apply rbind_ok in Hv as ([items visited] & Hw & Hv).
  destruct (bool_decide (items = _)) eqn:Hi; [|done]. apply bool_decide_eq_true in Hi.
  destruct (Nat.eqb_spec (size visited) (length (partitions h))) as [Hsize|]; [|done]. clear Hv Hroot.
  destruct (walk_ok _ (fun id p H => proj1 (partition_map_id _ _ _ H)) _ _ _ _ Hw) as (t & Ht & Hnd & _ & Hvis & Hperm & _).
  cbn [fst snd] in *. rewrite union_empty_r_L in Hvis.
  assert (forall p, p ∈ t_parts t -> p ∈ partitions h) as Hin.
  { intros p Hp. destruct (tree_of_in _ _ _ Ht p Hp) as (id & Hid). by apply partition_map_id in Hid as [_ ?]. }
  assert (t_ids t ⊆ map partition_id (partitions h)) as Hsub.
  { intros x (p & -> & Hp)%list_elem_of_fmap. apply list_elem_of_fmap. exists p. auto. }
  destruct (same_length_perm _ _ Hnd Hsub) as [HP Hnd'].
  { rewrite length_map, <-Hsize, Hvis. apply size_list_to_set_le. }
  exists t. split; [done|by apply map_perm_parts|done|by rewrite <-Hperm, Hi| |].
  - intros p Hp Htp. by apply (check_partition_ok _ _ _ (check_all_ok _ _ _ Hc p Hp)).
  - intros p Hp Htp. by apply (check_partition_ok _ _ _ (check_all_ok _ _ _ Hc p Hp)).
Qed.

Lemma validate_no_panic h n : no_panic (validate_partition_hierarchy h n).
Proof.
  unfold validate_partition_hierarchy. cbv zeta. apply rbind_no_panic; [apply ok_or_no_panic|]. intros root _.
  destruct (bool_decide _); [|done]. apply rbind_no_panic.
  - apply (try_fold_guarded (fun _ => True)); [done|]. intros [] p _. split; [|done]. unfold check_partition. cbv zeta.
    repeat (match goal with |- no_panic (if ?b then _ else _) => destruct b; [|done] end).
    apply (try_fold_guarded (fun _ => True)); [done|]. intros [] c _. split; [|done]. unfold check_child.
    apply rbind_no_panic; [apply ok_or_no_panic|]. intros child _. by destruct (bool_decide _).
  - intros _ _. apply rbind_no_panic.
    + apply walk_no_panic; [by intros id p [? _]%partition_map_id|]. rewrite difference_empty_L, size_dom. lia.
    + intros [items visited] _. destruct (bool_decide _); [|done]. by destruct (_ =? _)%nat.
Qed.

(** ** Statistics *)
Lemma height_parts t : (t_height t <= length (t_parts t))%nat.
Proof.
  induction t as [p ts IH] using ptree_nested_ind. cbn [t_height t_parts length]. apply le_n_S.
  induction IH as [|t ts Ht _ IH]; cbn; [lia|]. rewrite length_app. lia.
Qed.

Lemma depth_of_ok m (Hm : forall id p, m !! id = Some p -> terminal p = true -> child_ids p = []) t : forall id fuel,
  tree_of m id t -> (t_height t <= fuel)%nat -> depth_of fuel m id = Ok (t_height t).
Proof.
  induction t as [p ts IH] using ptree_nested_ind. intros id fuel Ht Hf. cbn [t_height] in Hf.
  destruct fuel as [|fuel]; [lia|]. cbn [depth_of t_height].
  inversion Ht as [? ? Hp Htp|? ? ? Hp Htp Hts Hunion]; subst; rewrite Hp; cbn [expect rbind].
  - by rewrite (Hm _ _ Hp Htp).
  - assert (collect_map (depth_of fuel m) (child_ids p) = Ok (map t_height ts)) as Hc.
    { clear Ht Hunion. revert IH Hts Hf. generalize (child_ids p). induction ts as [|t ts IHts]; intros cs IH Hts Hf;
        inversion Hts as [|c ? cs' ? Hc Hcs]; subst; [done|]. cbn in Hf |- *. apply Forall_cons in IH as [IH1 IH2].
      rewrite (IH1 c fuel Hc ltac:(lia)). cbn [rbind]. rewrite (IHts cs' IH2 Hcs ltac:(lia)). done. }
    destruct (child_ids p) as [|c cs]; [by inversion Hts|]. by rewrite Hc.
Qed.

Lemma valid_size h n t : valid_hierarchy h n t -> size (partition_map (partitions h)) = length (partitions h).
Proof.
  intros Hv. rewrite <-size_dom, partition_map_dom, size_list_to_set by apply (vh_distinct _ _ _ Hv). apply length_map.
Qed.

Lemma hierarchy_stats_ok h n t : valid_hierarchy h n t ->
  hierarchy_stats h = Ok {| partition_count := length (partitions h);
    stats_terminal_count := length (filter (fun p => terminal p = true) (partitions h)); stats_depth := t_height t |}.
Proof.
  intros Hv. unfold hierarchy_stats.
  assert (depth_of (S (size (partition_map (partitions h)))) (partition_map (partitions h)) (root_partition_id h)
    = Ok (t_height t)) as Hd.
  { apply (depth_of_ok _); [|apply (vh_tree _ _ _ Hv)|].
    - intros id p [_ Hp]%partition_map_id. by apply (vh_leaf_children _ _ _ Hv).
    - rewrite (valid_size _ _ _ Hv). pose proof (height_parts t) as Hh. rewrite (vh_parts _ _ _ Hv) in Hh. lia. }
  destruct (partitions h) eqn:Ep; [|by rewrite Hd].
  pose proof (vh_parts _ _ _ Hv) as HP. rewrite Ep in HP. apply Permutation_length in HP. by destruct t.
Qed.

(** ** Routing *)
Lemma leaves_terminal m t : forall id, tree_of m id t -> t_leaves t ≡ₚ filter (fun p => terminal p = true) (t_parts t).
Proof.
  induction t as [p ts IH] using ptree_nested_ind. intros id Ht. cbn [t_leaves t_parts].
  inversion Ht as [? ? Hp Htp|? ? ? Hp Htp Hts Hunion]; subst; rewrite filter_cons, Htp.
  - by rewrite decide_True.
  - rewrite decide_False by done. clear Ht Hp Hunion. revert IH Hts. generalize (child_ids p).
    induction ts as [|t ts IHts]; intros cs IH Hts; inversion Hts as [|c ? cs' ? Hc Hcs]; subst; [done|].
    apply Forall_cons in IH as [IH1 IH2]. cbn [map concat]. rewrite filter_app.
    rewrite (IH1 c Hc). by rewrite (IHts cs' IH2 Hcs).
Qed.

Lemma terminal_leaves h n t : valid_hierarchy h n t -> terminal_partitions h ≡ₚ t_leaves t.
Proof.
  intros Hv. unfold terminal_partitions. rewrite sort_by_Permutation.
  rewrite (leaves_terminal _ _ _ (vh_tree _ _ _ Hv)). by rewrite (vh_parts _ _ _ Hv).
Qed.

Lemma concat_map_perm {A B} (f : A -> list B) l k : l ≡ₚ k -> concat (map f l) ≡ₚ concat (map f k).
Proof.
  induction 1 as [|x l k _ IH|x y l|l1 l2 l3 _ IH1 _ IH2]; cbn; [done|by rewrite IH| |by etrans].
  rewrite !app_assoc. by rewrite (Permutation_app_comm (f y)).
Qed.

Lemma terminal_items h n t : valid_hierarchy h n t ->
  concat (map item_indices (terminal_partitions h)) ≡ₚ seq 0 n.
Proof.
  intros Hv. rewrite (concat_map_perm _ _ _ (terminal_leaves _ _ _ Hv)). apply (vh_items _ _ _ Hv).
Qed.

Section routing.
Context `{LocalIo}.

(** [P] of the value, or a failure of a local file; any other failure only if [big]. *)
Definition settled (big : Prop) {A} (P : A -> Prop) (m : result StreamingIndexerError A) : Prop :=
  match m with Ok a => P a | Err (LocalSpill _) => True | Err _ => big | Panic => False end.
Definition spilled {A} (P : A -> Prop) (m : result StreamingIndexerError A) : Prop := settled False P m.

Lemma settled_bind big {A B} (P : A -> Prop) (Q : B -> Prop) m (k : A -> result StreamingIndexerError B) :
  settled big P m -> (forall a, P a -> settled big Q (k a)) -> settled big Q (rbind m k).
Proof. destruct m as [a|[]|]; cbn; auto. Qed.
Lemma spilled_bind {A B} (P : A -> Prop) (Q : B -> Prop) m (k : A -> result StreamingIndexerError B) :
  spilled P m -> (forall a, P a -> spilled Q (k a)) -> spilled Q (rbind m k).
Proof. apply settled_bind. Qed.

Lemma settled_weaken (big big' : Prop) {A} (P : A -> Prop) m : (big -> big') -> settled big P m -> settled big' P m.
Proof. destruct m as [a|[]|]; cbn; auto. Qed.

Lemma local_ok op : spilled (fun _ => True) (local op).
Proof. unfold local. by destruct (fault op). Qed.

Lemma settled_local big {B} (Q : B -> Prop) op (m : result StreamingIndexerError B) :
  settled big Q m -> settled big Q (rbind (local op) (fun _ => m)).
Proof. intros Hm. unfold local. by destruct (fault op). Qed.
Lemma spilled_local {B} (Q : B -> Prop) op (m : result StreamingIndexerError B) :
  spilled Q m -> spilled Q (rbind (local op) (fun _ => m)).
Proof. apply settled_local. Qed.

(** More items than offsets in the routing file, more partitions than ordinals. *)
Section limits.
Context (n : nat) (big : Prop) (many_items : (U64_MAX < N.of_nat n * 4)%N -> big).

Lemma route_items_ok ord items : forall file, length file = n -> NoDup items ->
  (forall i, i ∈ items -> file !! i = Some U32_MAX) ->
  settled big (fun file' => length file' = n /\ (forall i, i ∈ items -> file' !! i = Some ord)
    /\ (forall i, i ∉ items -> file' !! i = file !! i) /\ forall i, i ∈ items -> (N.of_nat i * 4 <= U64_MAX)%N)
    (try_fold (route_item ord) file items).
Proof.
  induction items as [|i items IH]; intros file Hl Hnd Hfree; cbn [try_fold].
  - cbn. split_and!; [done|by intros i ?%elem_of_nil|done|by intros i ?%elem_of_nil].
  - apply NoDup_cons in Hnd as [Hni Hnd]. pose proof (Hfree i ltac:(by left)) as Hi.
    pose proof (lookup_lt_Some _ _ _ Hi) as Hlt.
    apply (settled_bind big (fun file' => file' = <[i := ord]> file /\ (N.of_nat i * 4 <= U64_MAX)%N)).
    + unfold route_item, checked_mul. destruct (N.leb_spec (N.of_nat i * 4) U64_MAX); cbn [ok_or rbind]; [|apply many_items; lia].
      do 2 apply settled_local. rewrite Hi. cbn [ok_or rbind]. rewrite N.eqb_refl. by apply settled_local.
    + intros file' [-> Hi4]. specialize (IH (<[i := ord]> file) ltac:(by rewrite length_insert) Hnd).
      destruct (try_fold _ _ items) as [file'|[]|]; try (by apply IH; intros j Hj; rewrite list_lookup_insert_ne;
        [apply Hfree; by right|by intros ->]). cbn in *. destruct IH as (Hl' & Hin & Hout & Hsmall).
      { intros j Hj. rewrite list_lookup_insert_ne; [apply Hfree; by right|by intros ->]. }
      split_and!; [done| | |].
      3:{ intros j [->|Hj]%elem_of_cons; [done|by apply Hsmall]. }
      * intros j [->|Hj]%elem_of_cons; [|by apply Hin]. rewrite Hout by done. apply list_lookup_insert_eq. lia.
      * intros j [Hj Hj']%not_elem_of_cons. rewrite Hout by done. by apply list_lookup_insert_ne.
Qed.

(** The plan after the first terminal partitions. *)
Definition routed (ps : list FinalizedPartition) (plan : PartitionRoutingPlan) : Prop :=
  terminal_partition_ids plan = map partition_id ps
  /\ terminal_partition_item_counts plan = map (fun p => length (item_indices p)) ps
  /\ length (route_file plan) = n
  /\ (forall k p i, ps !! k = Some p -> i ∈ item_indices p -> route_file plan !! i = Some (N.of_nat k))
  /\ (forall i, (i < n)%nat -> i ∉ concat (map item_indices ps) -> route_file plan !! i = Some U32_MAX)
  /\ forall i, i ∈ concat (map item_indices ps) -> (N.of_nat i * 4 <= U64_MAX)%N.

Lemma in_concat_parts ps k (p : FinalizedPartition) i : ps !! k = Some p -> i ∈ item_indices p -> i ∈ concat (map item_indices ps).
Proof.
  intros Hk Hi. apply list_elem_of_In, in_concat. exists (item_indices p). split; [|by apply list_elem_of_In].
  apply in_map. apply list_elem_of_In. by eapply list_elem_of_lookup_2.
Qed.

Lemma route_partition_ok ps p plan count : routed ps plan -> item_indices p <> [] ->
  ((U32_MAX < N.of_nat (length ps))%N -> big) ->
  NoDup (concat (map item_indices (ps ++ [p]))) -> Forall (fun i => (i < n)%nat) (item_indices p) ->
  settled big (fun r => routed (ps ++ [p]) r.1 /\ r.2 = (count + length (item_indices p))%nat)
    (route_partition (plan, count) (length ps, p)).
Proof.
  intros (Hids & Hcounts & Hlen & Hin & Hfree & Hsmall) Hne Ho Hnd Hlt. unfold route_partition.
  rewrite map_app, concat_app in Hnd. cbn in Hnd. rewrite app_nil_r in Hnd. apply NoDup_app in Hnd as (_ & Hdis & Hnd).
  rewrite bool_decide_eq_false_2 by done. cbn [negb]. destruct (N.leb_spec (N.of_nat (length ps)) U32_MAX); [|by apply Ho].
  eapply settled_bind; [apply route_items_ok; [done|done|]|].
  - intros i Hi. apply Hfree; [by eapply Forall_forall in Hlt|]. intros Hi'. by apply (Hdis i).
  - intros file (Hl' & Hnew & Hold & Hnew4). cbn. split; [|done]. split_and!; cbn.
    + by rewrite Hids, map_app.
    + by rewrite Hcounts, map_app.
    + done.
    + intros k q i [Hk|[Hk1 Hk2]]%lookup_app_Some Hi.
      * rewrite Hold; [by eapply Hin|]. apply (Hdis i). by eapply in_concat_parts.
      * destruct (k - length ps)%nat as [|j] eqn:E; [|by destruct j]. injection Hk2 as <-. rewrite (Hnew i Hi). f_equal. lia.
    + intros i Hi. rewrite map_app, concat_app. cbn. rewrite app_nil_r. intros [Hi1 Hi2]%not_elem_of_app.
      rewrite Hold by done. by apply Hfree.
    + intros i. rewrite map_app, concat_app. cbn. rewrite app_nil_r. intros [Hi|Hi]%elem_of_app; [by apply Hsmall|by apply Hnew4].
Qed.

Lemma route_partitions_ok qs : forall ps plan count, routed ps plan -> count = length (concat (map item_indices ps)) ->
  Forall (fun p => item_indices p <> []) qs -> ((U32_MAX < N.of_nat (length (ps ++ qs)))%N -> big) ->
  NoDup (concat (map item_indices (ps ++ qs))) ->
  Forall (fun i => (i < n)%nat) (concat (map item_indices (ps ++ qs))) ->
  settled big (fun r => routed (ps ++ qs) r.1 /\ r.2 = length (concat (map item_indices (ps ++ qs))))
    (try_fold route_partition (plan, count) (zip (seq (length ps) (length qs)) qs)).
Proof.
  induction qs as [|q qs IH]; intros ps plan count Hr Hc Hne Ho Hnd Hlt; cbn [length seq zip zip_with try_fold].
  - rewrite app_nil_r. done.
  - apply Forall_cons in Hne as [Hq Hne]. rewrite cons_middle, app_assoc in *.
    apply (settled_bind big (fun r => routed (ps ++ [q]) r.1 /\ r.2 = (count + length (item_indices q))%nat)).
    + apply route_partition_ok; [done|done|intros; apply Ho; rewrite !length_app; cbn; lia| |].
      * rewrite map_app, concat_app in Hnd. by apply NoDup_app in Hnd as (? & _).
      * rewrite !map_app, !concat_app in Hlt. apply Forall_app in Hlt as [Hlt _]. apply Forall_app in Hlt as [_ Hlt].
        cbn in Hlt. by rewrite app_nil_r in Hlt.
    + intros [plan' count'] [Hr' Hc']. cbn [fst snd] in *.
      replace (S (length ps)) with (length (ps ++ [q])) by (rewrite length_app; cbn; lia).
      apply IH; try done.
      rewrite Hc', Hc, map_app, concat_app, length_app. cbn. by rewrite app_nil_r.
Qed.

(** The plan of a valid hierarchy. *)
Lemma routing_plan_settled h t : valid_hierarchy h n t -> validate_partition_hierarchy h n = Ok tt ->
  ((U32_MAX < len (partitions h))%N -> big) -> settled big (routed (terminal_partitions h)) (build_partition_routing_plan h n).
Proof.
  intros Hv Hval Hp. unfold build_partition_routing_plan. rewrite Hval. cbn [map_err rbind].
  do 2 apply settled_local. apply (settled_bind big (fun _ => True)).
  { generalize (seq 0 n). intros l. induction l as [|i l IH]; [done|]. cbn [try_fold].
    eapply settled_bind; [apply (settled_weaken False); [done|apply local_ok]|]. by intros [] _. }
  intros _ _. do 2 apply settled_local. rewrite imap_pair_zip.
  pose proof (terminal_items _ _ _ Hv) as Hperm.
  eapply settled_bind; [apply (route_partitions_ok (terminal_partitions h) []); cbn [app]|].
  - split_and!; cbn; [done|done|apply length_replicate|done| |by intros i ?%elem_of_nil]. intros i Hi _. by apply lookup_replicate_2.
  - done.
  - apply Forall_forall. intros p Hin. unfold terminal_partitions in Hin. rewrite sort_by_Permutation in Hin.
    apply list_elem_of_filter in Hin as [Htp Hin]. by apply (vh_leaf_items _ _ _ Hv).
  - intros Hmany. apply Hp. unfold terminal_partitions in Hmany. rewrite sort_by_length in Hmany.
    pose proof (length_filter (fun p => terminal p = true) (partitions h)). unfold len. lia.
  - rewrite Hperm. apply NoDup_seq.
  - apply Forall_forall. intros i Hi. rewrite Hperm in Hi. apply elem_of_seq in Hi. lia.
  - intros [plan count] [Hr Hc]. cbn [fst snd] in *. rewrite (proj2 (Nat.eqb_eq _ _)); [done|].
    rewrite Hc, Hperm. apply length_seq.
Qed.
End limits.

(** Whatever the sizes; a plan that is built is for fewer than 2^62 + 1 items. *)
Lemma routing_plan_returns h n t : valid_hierarchy h n t -> validate_partition_hierarchy h n = Ok tt ->
  returns (fun plan => routed n (terminal_partitions h) plan /\ (N.of_nat n <= U64_MAX)%N) (build_partition_routing_plan h n).
Proof.
  intros Hv Hval. pose proof (routing_plan_settled n True (fun _ => I) h t Hv Hval (fun _ => I)) as Hs.
  destruct (build_partition_routing_plan h n) as [plan|e|]; cbn in *; [|done|done]. split; [exact Hs|].
  destruct n as [|k]; [done|]. destruct Hs as (_ & _ & _ & _ & _ & Hsmall).
  specialize (Hsmall k). rewrite (terminal_items _ _ _ Hv), elem_of_seq in Hsmall. unfold U64_MAX in *. lia.
Qed.
End routing.

(** ** Properties *)

(** C22 Validating a hierarchy never panics. One it accepts is a tree: its partitions
    are the nodes, each once, every inner one holds exactly the items of its children,
    and the terminal ones divide the items 0 to n-1 among themselves; its statistics are
    computed without a panic and its depth is the height of the tree; and its routing
    plan, unless a local file fails or the items or partitions exceed what the plan can
    number, sends every item to the one terminal partition that holds it. *)
Theorem validated_hierarchy_routes `{LocalIo} h n :
  match validate_partition_hierarchy h n with
  | Ok _ => exists t, tree_of (partition_map (partitions h)) (root_partition_id h) t
      /\ t_parts t ≡ₚ partitions h /\ NoDup (map partition_id (partitions h)) /\ t_items t ≡ₚ seq 0 n
      /\ hierarchy_stats h = Ok {| partition_count := length (partitions h);
           stats_terminal_count := length (filter (fun p => terminal p = true) (partitions h)); stats_depth := t_height t |}
      /\ settled (U64_MAX < N.of_nat n * 4 \/ U32_MAX < len (partitions h))%N (fun plan =>
           length (route_file plan) = n /\ forall i, (i < n)%nat -> exists k p, p ∈ t_leaves t /\ i ∈ item_indices p
             /\ terminal_partition_ids plan !! k = Some (partition_id p) /\ route_file plan !! i = Some (N.of_nat k)
             /\ terminal_partition_item_counts plan !! k = Some (length (item_indices p)))
           (build_partition_routing_plan h n)
  | Err _ => True
  | Panic => False
  end.
Proof.
  pose proof (validate_no_panic h n) as Hnp. destruct (validate_partition_hierarchy h n) as [[]|e|] eqn:Hv; [|done|done].
  destruct (validate_ok h n Hv) as (t & Ht). exists t.
  split; [apply Ht|]. split; [apply Ht|]. split; [apply Ht|]. split; [apply Ht|]. split; [exact (hierarchy_stats_ok _ _ _ Ht)|].
  pose proof (routing_plan_settled n (U64_MAX < N.of_nat n * 4 \/ U32_MAX < len (partitions h))%N
    ltac:(by left) h t Ht Hv ltac:(by right)) as Hs.
  destruct (build_partition_routing_plan h n) as [plan|e|]; cbn in *; [|done|done].
  destruct Hs as (Hids & Hcounts & Hlen & Hroute & _). split; [done|]. intros i Hlt.
  assert (i ∈ concat (map item_indices (terminal_partitions h))) as Hin.
  { rewrite (terminal_items _ _ _ Ht). apply elem_of_seq. lia. }
  apply list_elem_of_In, in_concat in Hin as (l & Hl & Hin). apply in_map_iff in Hl as (p & <- & Hp).
  apply list_elem_of_In in Hp, Hin. pose proof Hp as Hleaf. rewrite (terminal_leaves _ _ _ Ht) in Hleaf.
  apply list_elem_of_lookup in Hp as [k Hk]. exists k, p. rewrite Hids, Hcounts, !list_lookup_fmap, Hk.
  split_and!; [done|done|done|by eapply Hroute|done].
Qed.
