(* ===== verification/IndexLayer.v ===== *)
(** * Layers of the index: sizes, groups and normal forms

    crates/lexongraph-streaming-indexer/src/lib.rs: the hashes a replay is compared
    by, the lengths and values of embeddings, how many children a branch block can
    hold within the size target, the balanced division of a layer into groups, and
    the normal forms of layers and of the inputs of a branch.

    Then: the spill files of the children, and the summaries of children. *)
From S2P Require Import Prelude Ordering Hash Cbor Ieee Ebcp EbcpPayload BlockV1 Store IndexTypes IndexHierarchy.

Section hashes.
Context `{CborCodec} `{Sha256}.

Definition hash_bytes (b : bytes) : BlockHash := sha256 b.

Definition hash_content (content : Content) : BlockHash :=
  let media := String.list_byte_of_string (media_type content) in
  sha256 (le_split 8 (len media) ++ media ++ le_split 8 (len (body content)) ++ body content).

Definition hash_metadata (metadata : Metadata) : result string BlockHash :=
  let? canonical := map_err (fun error => "failed to canonicalize metadata for replay hashing: "
    +:+ BlockError_to_string error)%stdpp (canonicalize_metadata metadata) in
  Ok (hash_bytes (into_writer (VMap canonical))).
End hashes.

(** ** Embeddings *)
Definition expected_embedding_len (spec : EmbeddingSpec) : option N :=
  usize_try_from (dims spec) ≫= fun dims =>
  if (encoding spec =? "f32le")%string then checked_mul USIZE_MAX dims 4
  else if (encoding spec =? "f16le")%string then checked_mul USIZE_MAX dims 2
  else if (encoding spec =? "i8")%string then Some dims
  else if (encoding spec =? "pq4")%string then option_map (fun value => value / 2)%N (checked_add USIZE_MAX dims 1)
  else None.

Definition validate_embedding_bytes (embedding : bytes) (spec : EmbeddingSpec) (context : string) : result string unit :=
  let? expected := ok_or (expected_embedding_len spec)
    ("unsupported embedding encoding " +:+ string_debug (encoding spec) +:+ " for " +:+ context)%stdpp in
  guard? (len embedding =? expected)%N else
    (context +:+ " embedding length " +:+ pretty (len embedding) +:+ " does not match expected " +:+ pretty expected
      +:+ " for " +:+ pretty (dims spec) +:+ " dims under " +:+ encoding spec)%stdpp in
  Ok tt.

Definition decode_embedding_as_f32 `{HalfCrate} (b : bytes) (spec : EmbeddingSpec) : indexed (list f32) :=
  let? _ := map_err ClusteringFailure (validate_embedding_bytes b spec "f32-decode") in
  if (encoding spec =? "i8")%string then Ok (map (fun byte => f_of_Z binary32 (i8_from_byte byte)) b)
  else if (encoding spec =? "f32le")%string then Ok (map f32_from_le_bytes (chunks_exact 4 b))
  else if (encoding spec =? "f16le")%string then Ok (map f16_le_bytes_to_f32 (chunks_exact 2 b))
  else if (encoding spec =? "pq4")%string then
    Err (ClusteringFailure "pq4 embeddings are not supported by the streaming clustering path")
  else Err (ClusteringFailure ("unsupported embedding encoding " +:+ string_debug (encoding spec)
    +:+ " for streaming clustering")%stdpp).

(** ** How many children fit *)
Definition synthetic_block_hash (index : N) : BlockHash := MkHash (le_split 8 index ++ replicate 24 Byte.x00) eq_refl.

Section sizes.
Context `{CborCodec} `{Sha256}.

Definition serialized_branch_size (spec : EmbeddingSpec) (entry_count : N) : result string N :=
  let? embedding_len := ok_or (expected_embedding_len spec)
    ("unsupported embedding encoding " +:+ string_debug (encoding spec) +:+ " for branch-size estimation")%stdpp in
  let entries := map (fun index => {| branch_embedding := replicate (N.to_nat embedding_len) Byte.x00;
                                      child := synthetic_block_hash (N.of_nat index) |})
                   (seq 0 (N.to_nat entry_count)) in
  let? branch := map_err (fun error => "failed to build synthetic branch block: " +:+ BlockError_to_string error)%stdpp
    (build_branch_block VERSION_1 1 spec entries None) in
  let? serialized := map_err (fun error => "failed to serialize synthetic branch block: "
    +:+ BlockError_to_string error)%stdpp (serialize_block (Branch branch)) in
  Ok (len (ser_bytes serialized)).

Section search.
Variables (spec : EmbeddingSpec) (block_size_target : N).

(** The doubling loop: [low] fits; the result is [low] and [high]. *)
Fixpoint double_bound (rounds : nat) (low high : N) : result string (N * N) :=
  match rounds with
  | O => Panic
  | S rounds' =>
      let next := saturating_mul USIZE_MAX high 2 in
      if (next <=? high)%N then Ok (low, high)
      else
        let? size := serialized_branch_size spec next in
        if (size <=? block_size_target)%N then double_bound rounds' next next else Ok (low, next)
  end.

(** The bisection; [low + 1] is an addition of [usize]. *)
Fixpoint bisect_bound (rounds : nat) (low high : N) : result string N :=
  let? next := expect (checked_add USIZE_MAX low 1) in
  if (next <? high)%N then
    match rounds with
    | O => Panic
    | S rounds' =>
        let mid := (low + (high - low) / 2)%N in
        let? size := serialized_branch_size spec mid in
        if (size <=? block_size_target)%N then bisect_bound rounds' mid high else bisect_bound rounds' low mid
    end
  else Ok low.

(** Doubling from 2 reaches [usize::MAX] in 64 rounds, and halving the distance
    ends in 64 rounds as well. *)
Definition materializability_bound : result string N :=
  let? min_size := serialized_branch_size spec 2 in
  guard? negb (block_size_target <? min_size)%N else
    ("minimum 2-child branch serializes to " +:+ pretty min_size +:+ " bytes, exceeding block size target "
      +:+ pretty block_size_target)%stdpp in
  let? '(low, high) := double_bound 65 2 2 in
  bisect_bound 64 low high.
End search.
End sizes.

(** ** Groups *)

(** Consecutive groups: [count] of them, the first [remainder] one longer. *)
Fixpoint cut_groups (count base remainder next : nat) : list (list nat) :=
  match count with
  | O => []
  | S count' =>
      let size := (base + if (0 <? remainder)%nat then 1 else 0)%nat in
      seq next size :: cut_groups count' base (remainder - 1) (next + size)
  end.

Definition div_ceil (a b : nat) : nat := (a / b + if (a mod b =? 0)%nat then 0 else 1)%nat.

Definition balanced_groups (len materializability_bound : nat) : result string (list (list nat)) :=
  guard? negb (len =? 0)%nat else "cannot materialize an empty child set" in
  guard? negb (materializability_bound =? 0)%nat else "materializability bound must be positive" in
  if (len =? 1)%nat then Ok [[0%nat]]
  else if (len <=? materializability_bound)%nat then Ok [seq 0 len]
  else
    let group_count := div_ceil len materializability_bound in
    guard? negb (len / 2 <? group_count)%nat else
      ("cannot split " +:+ pretty (N.of_nat len) +:+ " children into conforming groups under materializability bound "
        +:+ pretty (N.of_nat materializability_bound))%stdpp in
    Ok (cut_groups group_count (len / group_count) (len mod group_count) 0).

Definition fallback_partition_groups (len materializability_bound : nat) (fallback_group_cap : option nat)
  : result string (list (list nat)) :=
  let? groups := balanced_groups len materializability_bound in
  match fallback_group_cap with
  | None => Ok groups
  | Some group_cap =>
      if (length groups <=? group_cap)%nat then Ok groups
      else
        guard? negb (group_cap <? 2)%nat else
          ("cannot split " +:+ pretty (N.of_nat len) +:+ " items under fallback fanout cap "
            +:+ pretty (N.of_nat group_cap))%stdpp in
        let group_count := Nat.min group_cap len in
        Ok (cut_groups group_count (len / group_count) (len mod group_count) 0)
  end.

(** ** Normal forms *)

(** [dedup_by] and the loop over [last()]: the first of equal neighbours stays. *)
Fixpoint dedup_from {A} (same : A -> A -> bool) (prev : A) (l : list A) : list A :=
  match l with
  | [] => []
  | x :: l' => if same prev x then dedup_from same prev l' else x :: dedup_from same x l'
  end.
Definition dedup_by {A} (same : A -> A -> bool) (l : list A) : list A :=
  match l with [] => [] | x :: l' => x :: dedup_from same x l' end.

Definition dedup_sort_ids (ids : list BlockHash) : list BlockHash :=
  dedup_by (fun a b => bool_decide (as_bytes a = as_bytes b)) (sort_by hash_cmp ids).

(** The two orders on things with an embedding and a child, and the normal form
    they give. *)
Section normal.
Context {A : Type} (embedding_of : A -> bytes) (child_of : A -> BlockHash).

Definition by_child (left right : A) : comparison :=
  then_with (hash_cmp (child_of left) (child_of right)) (bytes_cmp (embedding_of left) (embedding_of right)).
Definition by_embedding (left right : A) : comparison :=
  then_with (bytes_cmp (embedding_of left) (embedding_of right)) (hash_cmp (child_of left) (child_of right)).
Definition normal_children (l : list A) : list A :=
  sort_by by_embedding (dedup_by (fun a b => bool_decide (child_of a = child_of b)) (sort_by by_child l)).
End normal.

Definition compare_indexed_children : IndexedChild -> IndexedChild -> comparison := by_embedding ic_embedding ic_child.
Definition deduplicate_layer_by_child (layer : list IndexedChild) : list IndexedChild :=
  normal_children ic_embedding ic_child layer.
Definition normalize_current_layer (layer : list IndexedChild) : list IndexedChild :=
  deduplicate_layer_by_child (sort_by compare_indexed_children layer).
Definition normalize_branch_entries (entries : list BranchEntry) : list BranchEntry :=
  normal_children branch_embedding child entries.
Definition normalize_child_summary_inputs (children : list ChildSummaryInput) : list ChildSummaryInput :=
  normal_children cs_embedding cs_child children.

Definition verify_persisted_block_id (actual expected : BlockHash) : indexed unit :=
  guard? bool_decide (actual = expected) else Storage (ContractViolation (HashMismatch expected actual)) in Ok tt.

(** ** Spill files

    crates/lexongraph-streaming-indexer/src/lib.rs: the children of a terminal
    partition are written to a temporary file of their own and read back when the
    partition is assembled. A file is the list of its bytes; what is still in the
    buffer of its writer is part of it, since nothing is read before the writers
    are flushed. Failures of the operating system are those of [LocalIo]. *)

(** [ChildSummaryInput] and [IndexedChild] count in [usize]; a count fits [u64]. *)
Definition write_spilled_indexed_child (child : IndexedChild) : indexed bytes :=
  guard? (len (ic_embedding child) <=? U32_MAX)%N else
    LocalSpill "embedding length does not fit the spill file format" in
  Ok (le_split 4 (len (ic_embedding child)) ++ ic_embedding child ++ as_bytes (ic_child child)
      ++ le_split 8 (ic_level child) ++ le_split 8 (ic_descendant_count child)).

(** A reader: what is left of the file, and how much has been read. *)
Record SpillReader := { unread : bytes; read_count : nat }.
Inductive ReadError := UnexpectedEof | OtherIo (message : string).

Section spill.
Context `{LocalIo}.

(** [Read::read_exact] *)
Definition read_exact (partition count : nat) (r : SpillReader) : result ReadError (bytes * SpillReader) :=
  if (count =? 0)%nat then Ok ([], r)
  else
    match fault (SpillRead partition (read_count r)) with
    | Some message => Err (OtherIo message)
    | None =>
        guard? (count <=? length (unread r))%nat else UnexpectedEof in
        Ok (take count (unread r), {| unread := drop count (unread r); read_count := read_count r + count |})
    end.

Definition spill_error (e : ReadError) : StreamingIndexerError :=
  LocalSpill match e with UnexpectedEof => "failed to fill whole buffer" | OtherIo message => message end.

(** [None] at the end of the file, or where less than a length is left. *)
Definition read_spilled_indexed_child (partition : nat) (r : SpillReader)
  : indexed (option (IndexedChild * SpillReader)) :=
  match read_exact partition 4 r with
  | Err UnexpectedEof => Ok None
  | Err e => Err (spill_error e)
  | Panic => Panic
  | Ok (length_bytes, r) =>
      let? '(embedding, r) := map_err spill_error (read_exact partition (N.to_nat (le_combine length_bytes)) r) in
      let? '(child_bytes, r) := map_err spill_error (read_exact partition BlockHash_LEN r) in
      let? '(level_bytes, r) := map_err spill_error (read_exact partition 8 r) in
      let? '(count_bytes, r) := map_err spill_error (read_exact partition 8 r) in
      let? child := expect (hash_of_bytes child_bytes) in
      Ok (Some ({| ic_embedding := embedding; ic_child := child; ic_level := le_combine level_bytes;
                   ic_descendant_count := le_combine count_bytes |}, r))
  end.

(** ** The directory *)
Record PartitionSpillDirectory := { spill_files : list bytes; spill_writers : list bool }.

Definition new_spill (partition_count : nat) : indexed PartitionSpillDirectory :=
  let? _ := local SpillDir in
  let? _ := try_fold (fun _ index => local (SpillCreate index)) tt (seq 0 partition_count) in
  Ok {| spill_files := replicate partition_count []; spill_writers := replicate partition_count false |}.

(** Opening a writer truncates the file. *)
Definition append_leaf_child (spill : PartitionSpillDirectory) (partition_ordinal : N) (child : IndexedChild)
  : indexed PartitionSpillDirectory :=
  let ordinal := N.to_nat partition_ordinal in
  let? opened := ok_or (spill_writers spill !! ordinal)
    (LocalSpill ("partition ordinal " +:+ pretty partition_ordinal +:+ " is out of range for spill routing")%stdpp) in
  let? old := ok_or (spill_files spill !! ordinal)
    (LocalSpill ("partition ordinal " +:+ pretty partition_ordinal +:+ " is missing a spill path")%stdpp) in
  let? old := if opened : bool then Ok old else let? _ := local (SpillReopen ordinal) in Ok [] in
  let? written := write_spilled_indexed_child child in
  let? _ := local (SpillAppend ordinal (length old)) in
  Ok {| spill_files := <[ordinal := old ++ written]> (spill_files spill);
        spill_writers := <[ordinal := true]> (spill_writers spill) |}.

Definition finish_spill (spill : PartitionSpillDirectory) : indexed PartitionSpillDirectory :=
  let? _ := try_fold (fun _ p => if p.2 : bool then local (SpillFlush p.1) else Ok tt) tt (imap pair (spill_writers spill)) in
  Ok {| spill_files := spill_files spill; spill_writers := map (fun _ => false) (spill_writers spill) |}.

(** The loop of [read_partition_children]; every child takes four bytes at least. *)
Fixpoint read_children (fuel partition : nat) (r : SpillReader) : indexed (list IndexedChild) :=
  match fuel with
  | O => Panic
  | S fuel' =>
      let? next := read_spilled_indexed_child partition r in
      match next with
      | None => Ok []
      | Some (child, r) => let? children := read_children fuel' partition r in Ok (child :: children)
      end
  end.

Definition read_partition_children (spill : PartitionSpillDirectory) (partition : nat) : indexed (list IndexedChild) :=
  let? file := ok_or (spill_files spill !! partition)
    (LocalSpill ("partition ordinal " +:+ pretty (N.of_nat partition) +:+ " is missing a spill path")%stdpp) in
  let? _ := local (SpillOpen partition) in
  read_children (S (length file)) partition {| unread := file; read_count := 0 |}.
End spill.

(** ** Summaries of children

    crates/lexongraph-streaming-indexer/src/lib.rs: the two built-in ways to give a
    branch an embedding of its own, the arithmetic mean of its entries and the
    centroid weighted by the number of leaves below each child, and the adapter
    from the first kind of policy to the second. *)

(** The further conversions of the crate [half]. *)
Class HalfF64 := { f16_le_bytes_to_f64 : bytes -> f64; f16_of_f64 : f64 -> bytes }.

Section half.
Context `{HalfF64}.

Definition decode_embedding_as_f64 (embedding : bytes) (spec : EmbeddingSpec) (context : string)
  : result string (list f64) :=
  let? _ := validate_embedding_bytes embedding spec context in
  if (encoding spec =? "i8")%string then Ok (map (fun byte => f_of_Z binary64 (i8_from_byte byte)) embedding)
  else if (encoding spec =? "f32le")%string then
    Ok (map (fun chunk => f64_of_f32 (f32_from_le_bytes chunk)) (chunks_exact 4 embedding))
  else if (encoding spec =? "f16le")%string then Ok (map f16_le_bytes_to_f64 (chunks_exact 2 embedding))
  else if (encoding spec =? "pq4")%string then Err "pq4 embeddings cannot be decoded as arithmetic vectors"
  else Err ("unsupported embedding encoding " +:+ string_debug (encoding spec) +:+ " for arithmetic decoding")%stdpp.

(** One coordinate, by encoding. *)
Definition non_finite_mean (dimension : nat) : string :=
  ("cannot encode non-finite arithmetic mean at dimension " +:+ pretty (N.of_nat dimension))%stdpp.

Definition encode_f32_value (p : nat * f64) : result string bytes :=
  guard? f64_is_finite p.2 else non_finite_mean p.1 in
  let encoded := f32_of_f64 p.2 in
  guard? f32_is_finite encoded else
    ("arithmetic mean overflowed f32 encoding at dimension " +:+ pretty (N.of_nat p.1))%stdpp in
  Ok (f32_to_le_bytes encoded).

Definition encode_f16_value (p : nat * f64) : result string bytes :=
  guard? f64_is_finite p.2 else non_finite_mean p.1 in
  let encoded := f16_of_f64 p.2 in
  guard? f64_is_finite (f16_le_bytes_to_f64 encoded) else
    ("arithmetic mean overflowed f16 encoding at dimension " +:+ pretty (N.of_nat p.1))%stdpp in
  Ok encoded.

(** The text of [{rounded}] in the range error is given by [show]. *)
Definition encode_i8_value (show : f64 -> string) (p : nat * f64) : result string bytes :=
  guard? f64_is_finite p.2 else non_finite_mean p.1 in
  let rounded := f64_round p.2 in
  guard? negb (fltb binary64 rounded (f_of_Z binary64 (-128)) || fltb binary64 (f_of_Z binary64 127) rounded) else
    ("arithmetic mean " +:+ show rounded +:+ " exceeds i8 range at dimension " +:+ pretty (N.of_nat p.1))%stdpp in
  Ok [byte_of_N (Z.to_N (f64_as_int (-128) 127 rounded mod 256))].

Definition encode_embedding_from_f64 (show : f64 -> string) (values : list f64) (spec : EmbeddingSpec)
  : result string bytes :=
  let? dims := ok_or (usize_try_from (dims spec))
    ("embedding dims " +:+ pretty (dims spec) +:+ " do not fit in usize")%stdpp in
  guard? (len values =? dims)%N else
    ("mean embedding dimension " +:+ pretty (len values) +:+ " does not match expected " +:+ pretty dims)%stdpp in
  let encode f := rmap (@concat byte) (collect_map f (imap pair values)) in
  if (encoding spec =? "f32le")%string then encode encode_f32_value
  else if (encoding spec =? "f16le")%string then encode encode_f16_value
  else if (encoding spec =? "i8")%string then encode (encode_i8_value show)
  else if (encoding spec =? "pq4")%string then
    Err "pq4 embeddings are not supported by the built-in arithmetic-mean canonical policy"
  else Err ("unsupported embedding encoding " +:+ string_debug (encoding spec)
    +:+ " for arithmetic-mean canonical policy")%stdpp.

(** ** Sums *)

(** The loop over one entry's coordinates: [weigh] is what a coordinate adds. *)
Fixpoint add_values (name : string) (overflow : string) (weigh : f64 -> f64) (dimension : nat)
  (sums values : list f64) : result string (list f64) :=
  match sums, values with
  | sum :: sums', value :: values' =>
      guard? f64_is_finite value else
        (name +:+ " contains non-finite value at dimension " +:+ pretty (N.of_nat dimension))%stdpp in
      let sum := fadd binary64 sum (weigh value) in
      guard? f64_is_finite sum else
        (overflow +:+ " sum overflowed at dimension " +:+ pretty (N.of_nat dimension))%stdpp in
      let? rest := add_values name overflow weigh (S dimension) sums' values' in
      Ok (sum :: rest)
  | _, _ => Ok sums
  end.

(** The division at the end. *)
Definition divide_sums (name : string) (divisor : f64) (sums : list f64) : result string (list f64) :=
  collect_map (fun p =>
    let mean := fdiv binary64 p.2 divisor in
    guard? f64_is_finite mean else
      (name +:+ " result became non-finite at dimension " +:+ pretty (N.of_nat p.1))%stdpp in
    Ok mean) (imap pair sums).

Definition arithmetic_mean_canonical_embedding (show : f64 -> string) (block : BranchBlock) : result string bytes :=
  guard? negb (bool_decide (branch_entries block = [])) else
    "built-in arithmetic-mean canonical policy requires at least one branch entry" in
  let? dimensions := ok_or (usize_try_from (dims (branch_spec block)))
    ("branch embedding dims " +:+ pretty (dims (branch_spec block)) +:+ " do not fit in usize")%stdpp in
  let? sums := try_fold (fun sums p =>
    let? decoded := map_err (fun error => "failed to decode branch entry " +:+ pretty (N.of_nat p.1) +:+ ": " +:+ error)%stdpp
      (decode_embedding_as_f64 (branch_embedding p.2) (branch_spec block) "canonical") in
    add_values ("branch entry " +:+ pretty (N.of_nat p.1))%stdpp "arithmetic-mean" id 0 sums decoded)
    (replicate (N.to_nat dimensions) 0%N) (imap pair (branch_entries block)) in
  let? sums := divide_sums "arithmetic-mean" (f_of_Z binary64 (Z.of_N (len (branch_entries block)))) sums in
  encode_embedding_from_f64 show sums (branch_spec block).

(** One child of the weighted sum: the sums and the total weight. *)
Definition centroid_step (spec : EmbeddingSpec) (st : list f64 * N) (p : nat * ChildSummaryInput)
  : result string (list f64 * N) :=
  let '(sums, total_weight) := st in
  let '(index, child) := p in
  guard? negb (cs_descendant_count child =? 0)%N else
    ("child summary " +:+ pretty (N.of_nat index)
      +:+ " has zero descendant count and cannot contribute to an exact centroid")%stdpp in
  let? decoded := map_err (fun error => "failed to decode child summary " +:+ pretty (N.of_nat index) +:+ ": " +:+ error)%stdpp
    (decode_embedding_as_f64 (cs_embedding child) spec "exact-centroid") in
  let weight := f_of_Z binary64 (Z.of_N (cs_descendant_count child)) in
  let? sums := add_values ("child summary " +:+ pretty (N.of_nat index))%stdpp "exact-centroid"
    (fun value => fmul binary64 value weight) 0 sums decoded in
  let? total_weight := ok_or (checked_add USIZE_MAX total_weight (cs_descendant_count child))
    "exact-centroid total descendant count overflowed usize" in
  Ok (sums, total_weight).

Definition exact_centroid_child_summary (show : f64 -> string) (children : list ChildSummaryInput)
  (spec : EmbeddingSpec) : result string bytes :=
  guard? negb (bool_decide (children = [])) else "exact-centroid child summary requires at least one child" in
  let? dimensions := ok_or (usize_try_from (dims spec))
    ("embedding dims " +:+ pretty (dims spec) +:+ " do not fit in usize")%stdpp in
  let? '(sums, total_weight) := try_fold (centroid_step spec) (replicate (N.to_nat dimensions) 0%N, 0%N)
    (imap pair children) in
  let? sums := divide_sums "exact-centroid" (f_of_Z binary64 (Z.of_N total_weight)) sums in
  encode_embedding_from_f64 show sums spec.

(** ** The policies *)
Definition ExactCentroidChildSummaryPolicy (show : f64 -> string) : ChildSummaryPolicy :=
  fun spec children => exact_centroid_child_summary show children spec.

Inductive CanonicalChildSummaryAdapterError :=
| InvalidBranchBlock (error : BlockError)
| CanonicalEmbedding (error : string).
Definition CanonicalChildSummaryAdapterError_to_string (e : CanonicalChildSummaryAdapterError) : string :=
  match e with InvalidBranchBlock error => BlockError_to_string error | CanonicalEmbedding error => error end.

(** [summarize_children] of the adapter; [+ 1] on the level is checked. *)
Definition summarize_canonically `{CborCodec} (canonical_embedding : BranchBlock -> result string bytes)
  (spec : EmbeddingSpec) (children : list ChildSummaryInput) : result CanonicalChildSummaryAdapterError bytes :=
  let? level := expect (checked_add U64_MAX (foldr N.max 0%N (map cs_level children)) 1) in
  let? branch := map_err InvalidBranchBlock (build_branch_block VERSION_1 level spec
    (map (fun child => {| branch_embedding := cs_embedding child; child := cs_child child |}) children) None) in
  map_err CanonicalEmbedding (canonical_embedding branch).

Definition ArithmeticMeanCanonicalEmbeddingPolicy `{CborCodec} (show : f64 -> string) : ChildSummaryPolicy :=
  fun spec children => map_err CanonicalChildSummaryAdapterError_to_string
    (summarize_canonically (arithmetic_mean_canonical_embedding show) spec children).
End half.
