(* ===== verification/BranchEncoding.v ===== *)
(** * Authoring the embeddings of a branch

    crates/lexongraph-streaming-indexer/src/lib.rs: the five EBCP encodings a
    branch can be written with, from centroid and rotation through quantization to
    packed codes and the descriptor. The block-local principal components come
    from another crate ([PcaFit]), the natural logarithm of an [f64] from the
    platform ([LnF64]). *)
From S2P Require Import Prelude Ordering Hash Cbor Ieee Ebcp EbcpPayload BlockV1 Store IndexTypes IndexHierarchy IndexLayer.

Inductive BranchEncodingPolicy :=
| Ordinary
| PcaRotF32Le
| PcaRotDeltaF32Le
| PcaRotDeltaUniform (root_bits interior_bits lowest_routing_bits : N)
| PcaRotDeltaVariable (root_bits interior_bits lowest_routing_bits : N)
| AmbientDeltaUniform (root_bits interior_bits lowest_routing_bits : N).

Record EncodedBranchEntries := {
  encoded_spec : EmbeddingSpec; encoded_entries : list BranchEntry; encoded_ext : option ExtensionMap
}.
Inductive QuantizedBranchEncoding := QUniform (bit_width : N) | QVariable (total_uniform_bits : N).

(** What the indexer reads of a [PcaTransform]. *)
Record PcaBasis := { fit_input_dim : nat; fit_output_dim : nat; fit_basis : list f32; fit_variance : option (list f32) }.
Class PcaFit := pca_fit : list (list f32) -> result string PcaBasis.
Class LnF64 := ln_f64 : f64 -> f64.

Definition tpm (message : string) : StreamingIndexerError := TerminalPartitionMaterialization message.

(** ** Vectors *)
Definition encode_f32_vec (values : list f32) : bytes := concat (map f32_to_le_bytes values).

Definition subtract_f32_vectors (left right : list f32) : indexed (list f32) :=
  guard? (len left =? len right)%N else tpm "EBCP vector subtraction requires matching dimensions" in
  collect_map (fun p =>
    let value := fsub binary32 p.1 p.2 in
    guard? f32_is_finite value else tpm "EBCP delta vector produced a non-finite value" in Ok value)
    (zip left right).

(** One row of the rotation. *)
Definition rotate_row (rotation_matrix vector : list f32) (rotated_index : nat) : indexed f32 :=
  let dims := length vector in
  let? acc := try_fold (fun acc ambient_index =>
    let? r := expect (rotation_matrix !! (rotated_index * dims + ambient_index)%nat) in
    let? v := expect (vector !! ambient_index) in
    Ok (fadd binary32 acc (fmul binary32 r v))) 0%N (seq 0 dims) in
  guard? f32_is_finite acc else tpm "EBCP rotation produced a non-finite value" in Ok acc.

Definition apply_row_major_rotation (rotation_matrix vector : list f32) : indexed (list f32) :=
  guard? (length rotation_matrix =? length vector * length vector)%nat else
    tpm "EBCP rotation matrix shape does not match logical dimensions" in
  collect_map (rotate_row rotation_matrix vector) (seq 0 (length vector)).

Definition decode_f32_embedding_exact (embedding : bytes) (spec : EmbeddingSpec) (context : string)
  : result string (list f32) :=
  let? _ := validate_embedding_bytes embedding spec context in
  guard? (encoding spec =? "f32le")%string else
    (context +:+ " requires f32le embeddings, got " +:+ string_debug (encoding spec))%stdpp in
  collect_map (fun chunk =>
    let value := f32_from_le_bytes chunk in
    guard? f32_is_finite value else "embedding contains non-finite f32 values" in Ok value)
    (chunks_exact 4 embedding).

(** The sums of the coordinates: one embedding into the sums. *)
Definition add_to_sums (sums : list f64) (embedding : list f32) : indexed (list f64) :=
  guard? (length embedding =? length sums)%nat else tpm "EBCP branch embeddings disagree on dimensionality" in
  Ok (zip_with (fun sum value => fadd binary64 sum (f64_of_f32 value)) sums embedding).

Definition exact_f32_centroid (embeddings : list (list f32)) : indexed (list f32) :=
  let? first := ok_or (head embeddings) (tpm "cannot compute EBCP centroid from an empty branch-entry set") in
  let? sums := try_fold add_to_sums (replicate (length first) 0%N) embeddings in
  collect_map (fun p =>
    let mean := f32_of_f64 (fdiv binary64 p.2 (f_of_Z binary64 (Z.of_nat (length embeddings)))) in
    guard? f32_is_finite mean else
      tpm ("EBCP centroid became non-finite at dimension " +:+ pretty (N.of_nat p.1))%stdpp in
    Ok mean) (imap pair sums).

(** ** Rotation *)
Definition identity_rotation (dims : nat) : list f32 :=
  concat (map (fun i => map (fun j => if (i =? j)%nat then f_of_Z binary32 1 else 0%N) (seq 0 dims)) (seq 0 dims)).

Definition fit_ebcp_rotation `{PcaFit} (embeddings : list (list f32)) : indexed (list f32 * list f32) :=
  let? first := ok_or (head embeddings) (tpm "cannot fit block-local PCA rotation from an empty branch-entry set") in
  let dims := length first in
  guard? forallb (fun embedding => (length embedding =? dims)%nat) embeddings else
    tpm "EBCP branch embeddings disagree on dimensionality" in
  if (length embeddings <? 2)%nat then Ok (identity_rotation dims, replicate dims 0%N)
  else
    let? transform := map_err (fun error => tpm ("failed to fit block-local PCA rotation: " +:+ error)%stdpp)
      (pca_fit embeddings) in
    let explained_variance := default (replicate (fit_output_dim transform) 0%N) (fit_variance transform) in
    let? rotation := collect_map (fun p => expect (fit_basis transform !! (p.2 + p.1 * fit_input_dim transform)%nat))
      (concat (map (fun r => map (fun a => (r, a)) (seq 0 (fit_input_dim transform))) (seq 0 (fit_output_dim transform)))) in
    Ok (rotation, explained_variance).

(** ** Quantization *)
Definition max_abs_step (max_abs : list f32) (vector : list f32) : indexed (list f32) :=
  guard? (length vector =? length max_abs)%nat else tpm "EBCP delta vectors disagree on dimensionality" in
  Ok (zip_with (fun m value => fmax binary32 m (fabs binary32 value)) max_abs vector).

(** [1 << (bit_width - 1)], which overflows for a width of 0 or more than 32. *)
Definition half_range (bit_width : N) : indexed Z :=
  if ((bit_width =? 0) || (32 <? bit_width))%N then Panic else Ok (2 ^ Z.of_N (bit_width - 1))%Z.

Definition quantization_scale (p : f32 * N) : indexed f32 :=
  let '(max_abs, bit_width) := p in
  guard? negb (bit_width =? 0)%N else tpm "EBCP quantization bit widths must be nonzero" in
  let? half := half_range bit_width in
  let qmax := f_of_Z binary32 (half - 1) in
  let scale := if feqb binary32 max_abs 0 || feqb binary32 qmax 0 then f_of_Z binary32 1
               else fdiv binary32 max_abs qmax in
  guard? f32_is_finite scale && negb (fleb binary32 scale 0) else
    tpm "EBCP quantization scale must be finite and positive" in
  Ok scale.

Definition compute_quantization_scales (delta_vectors : list (list f32)) (bit_widths : list N) : indexed (list f32) :=
  let? max_abs := try_fold max_abs_step (replicate (length bit_widths) 0%N) delta_vectors in
  collect_map quantization_scale (zip max_abs bit_widths).

(** [bytes[i] |= bit << shift] *)
Definition or_bit (b : bytes) (absolute_bit bit : N) : indexed bytes :=
  let index := N.to_nat (absolute_bit / 8) in
  let? byte := expect (b !! index) in
  Ok (<[index := byte_of_N (N.lor (Byte.to_N byte) (N.shiftl bit (absolute_bit mod 8)))]> b).

Definition write_lsb_first_bits (b : bytes) (start_bit bit_width value : N) : indexed bytes :=
  try_fold (fun b bit_index =>
    or_bit b (start_bit + N.of_nat bit_index) (N.land (N.shiftr value (N.of_nat bit_index)) 1))
    b (seq 0 (N.to_nat bit_width)).

(** The code of a value: [i32] arithmetic, whose overflows panic. *)
Definition quantized_code (value scale : f32) (bit_width : N) : indexed N :=
  let? half := half_range bit_width in
  let half := wrap_i32 half in
  if ((half - 1 <? - 2 ^ 31) || (2 ^ 31 <=? half - 1))%Z then Panic
  else
    let qmax := f_of_Z binary64 (half - 1) in
    let centered := if feqb binary32 scale 0 then 0%N else fdiv binary64 (f64_of_f32 value) (f64_of_f32 scale) in
    let quantized := f64_as_i32 (f64_clamp (f64_round_ties_even centered) (fneg binary64 qmax) qmax) in
    let stored := (quantized + half)%Z in
    if ((stored <? - 2 ^ 31) || (2 ^ 31 <=? stored))%Z then Panic
    else if (stored <? 0)%Z then Err (tpm "EBCP quantized code did not fit the declared bit width")
    else Ok (Z.to_N stored).

Definition pack_step (st : bytes * N) (p : f32 * N * f32) : indexed (bytes * N) :=
  let '(value, bit_width, scale) := p in
  let? stored := quantized_code value scale bit_width in
  let? b := write_lsb_first_bits st.1 st.2 bit_width stored in
  Ok (b, (st.2 + bit_width)%N).

Definition pack_quantized_delta_vector (values : list f32) (bit_widths : list N) (scale_factors : list f32)
  : indexed bytes :=
  guard? (length values =? length bit_widths)%nat && (length values =? length scale_factors)%nat else
    tpm "EBCP quantization metadata dimension mismatch" in
  let? total_bits := try_fold (fun sum width => ok_or (checked_add USIZE_MAX sum width)
    (tpm "EBCP quantized payload bit length overflowed")) 0%N bit_widths in
  let empty := replicate (N.to_nat ((total_bits + 7) / 8)) Byte.x00 in
  rmap fst (try_fold pack_step (empty, 0%N) (zip (zip values bit_widths) scale_factors)).

(** ** Variable widths *)
Definition MAX_EBCP_BIT_WIDTH : N := 31.

(** One round over the remainders: widths, bits left, and whether one was given. *)
Definition give_bit (st : list N * N * bool) (index : nat) : indexed (list N * N * bool) :=
  let '(widths, leftovers, progressed) := st in
  if (leftovers =? 0)%N then Ok st
  else
    let? width := expect (widths !! index) in
    if (MAX_EBCP_BIT_WIDTH <=? width)%N then Ok st
    else Ok (<[index := (width + 1)%N]> widths, (leftovers - 1)%N, true).

(** Every round but the last gives a bit. *)
Fixpoint give_bits (rounds : nat) (order : list nat) (widths : list N) (leftovers : N) : indexed (list N) :=
  if (leftovers =? 0)%N then Ok widths
  else
    match rounds with
    | O => Panic
    | S rounds' =>
        let? '(widths, leftovers, progressed) := try_fold give_bit (widths, leftovers, false) order in
        guard? progressed else
          tpm "variable-bit EBCP allocation could not satisfy the 31-bit per-dimension limit" in
        give_bits rounds' order widths leftovers
    end.

(** The bits beyond one per dimension that each dimension should get. *)
Definition desired_bits `{LnF64} (explained_variance : list f32) (remaining : N) : list f64 :=
  let weights := map (fun value => ln_f64 (fadd binary64 f64_one (f64_of_f32 (fmax binary32 value 0))))
    explained_variance in
  let weight_sum := fold_left (fadd binary64) weights f64_neg_zero in
  let remaining := f_of_Z binary64 (Z.of_N remaining) in
  if fltb binary64 0 weight_sum
  then map (fun weight => fmul binary64 (fdiv binary64 weight weight_sum) remaining) weights
  else map (fun _ => fdiv binary64 remaining (f_of_Z binary64 (Z.of_nat (length explained_variance)))) weights.

(** The dimensions by their fractional part, the greatest first. *)
Definition remainder_order (desired : list f64) : list nat :=
  map fst (sort_by (fun left right => then_with (f64_total_cmp right.2 left.2) (Nat.compare left.1 right.1))
    (imap (fun index value => (index, fsub binary64 value (f64_floor value))) desired)).

Definition allocate_variable_bit_widths `{LnF64} (explained_variance : list f32) (uniform_bit_width : N)
  : indexed (list N) :=
  let count := len explained_variance in
  guard? negb (count =? 0)%N else
    tpm "variable-bit EBCP encoding requires at least one explained-variance entry" in
  let? total_bits := ok_or (checked_mul USIZE_MAX uniform_bit_width count)
    (tpm "variable-bit EBCP bit budget overflowed") in
  let? max_total_bits := ok_or (checked_mul USIZE_MAX MAX_EBCP_BIT_WIDTH count)
    (tpm "variable-bit EBCP maximum bit budget overflowed") in
  guard? negb (max_total_bits <? total_bits)%N else
    tpm "variable-bit EBCP budget exceeds the 31-bit per-dimension limit" in
  let remaining := saturating_sub total_bits count in
  if (remaining =? 0)%N then Ok (replicate (length explained_variance) 1%N)
  else
    let desired := desired_bits explained_variance remaining in
    let widths := map (fun value => (1 + N.min (f64_as_usize (f64_floor value)) (MAX_EBCP_BIT_WIDTH - 1))%N) desired in
    let used := fold_left (fun sum width => sum + (width - 1))%N widths 0%N in
    (* [remaining - used] *)
    if (remaining <? used)%N then Panic
    else give_bits (S (N.to_nat (remaining - used))) (remainder_order desired) widths (remaining - used).

(** ** The encodings *)
Definition with_embedding (p : BranchEntry * bytes) : BranchEntry :=
  {| branch_embedding := p.2; child := child p.1 |}.
Definition row_major (rotation_matrix : list f32) : EbcpRotation :=
  {| matrix_format := "f32le-row-major"; matrix := rotation_matrix |}.

(** The entries with their new embeddings and the descriptor. *)
Definition encoded_branch (logical : EmbeddingSpec) (encoding_name : string) (entries : list BranchEntry)
  (payloads : list bytes) (centroid : option (list f32)) (rotation_matrix : option (list f32))
  (quantization : option EbcpQuantization) : EncodedBranchEntries :=
  {| encoded_spec := {| dims := dims logical; encoding := encoding_name |};
     encoded_entries := map with_embedding (zip entries payloads);
     encoded_ext := Some (ebcp_extension_map
       {| ebcp_version := 1; logical_embedding_spec := logical; base_centroid := centroid;
          rotation := option_map row_major rotation_matrix; quantization := quantization |}) |}.

Definition encode_pca_rot_f32le_entries (entries : list BranchEntry) (decoded : list (list f32))
  (logical : EmbeddingSpec) (rotation_matrix : list f32) : indexed EncodedBranchEntries :=
  let? rotated := collect_map (apply_row_major_rotation rotation_matrix) (map snd (zip entries decoded)) in
  Ok (encoded_branch logical "pca-rot-f32le" entries (map encode_f32_vec rotated) None (Some rotation_matrix) None).

Definition rotated_delta (rotation_matrix centroid vector : list f32) : indexed (list f32) :=
  let? delta := subtract_f32_vectors vector centroid in
  apply_row_major_rotation rotation_matrix delta.

Definition encode_pca_rot_delta_f32le_entries (entries : list BranchEntry) (decoded : list (list f32))
  (logical : EmbeddingSpec) (rotation_matrix centroid : list f32) : indexed EncodedBranchEntries :=
  let? rotated := collect_map (rotated_delta rotation_matrix centroid) (map snd (zip entries decoded)) in
  Ok (encoded_branch logical "pca-rot-delta-f32le" entries (map encode_f32_vec rotated) (Some centroid)
    (Some rotation_matrix) None).

(** Scales and packed payloads of delta vectors. *)
Definition quantized_payloads (entries : list BranchEntry) (deltas : list (list f32)) (bit_widths : list N)
  : indexed (list f32 * list bytes) :=
  let? scale_factors := compute_quantization_scales deltas bit_widths in
  let? payloads := collect_map (fun delta => pack_quantized_delta_vector delta bit_widths scale_factors)
    (map snd (zip entries deltas)) in
  Ok (scale_factors, payloads).

Definition encode_pca_rot_delta_quantized_entries `{LnF64} (entries : list BranchEntry) (decoded : list (list f32))
  (logical : EmbeddingSpec) (rotation_matrix centroid : list f32) (encoding : QuantizedBranchEncoding)
  (explained_variance : option (list f32)) : indexed EncodedBranchEntries :=
  let? rotated_deltas := collect_map (rotated_delta rotation_matrix centroid) decoded in
  let? bit_widths :=
    match encoding with
    | QUniform bit_width => Ok (replicate (length centroid) bit_width)
    | QVariable total_uniform_bits =>
        let? variance := ok_or explained_variance
          (tpm "missing explained variance for variable-bit EBCP encoding") in
        allocate_variable_bit_widths variance total_uniform_bits
    end in
  let? '(scale_factors, payloads) := quantized_payloads entries rotated_deltas bit_widths in
  Ok match encoding with
     | QUniform bit_width =>
         encoded_branch logical "pca-rot-delta-uq" entries payloads (Some centroid) (Some rotation_matrix)
           (Some (Uniform bit_width scale_factors))
     | QVariable _ =>
         encoded_branch logical "pca-rot-delta-vbq" entries payloads (Some centroid) (Some rotation_matrix)
           (Some (Variable_ (map byte_of_N bit_widths) scale_factors))
     end.

Definition encode_ambient_delta_quantized_entries (entries : list BranchEntry) (decoded : list (list f32))
  (logical : EmbeddingSpec) (centroid : list f32) (bit_width : N) : indexed EncodedBranchEntries :=
  let? ambient_deltas := collect_map (fun vector => subtract_f32_vectors vector centroid) decoded in
  let? '(scale_factors, payloads) := quantized_payloads entries ambient_deltas (replicate (length centroid) bit_width) in
  Ok (encoded_branch logical "ambient-delta-uq" entries payloads (Some centroid) None
    (Some (Uniform bit_width scale_factors))).

Definition resolve_branch_bit_budget (parent_level : N) (is_root : bool)
  (root_bits interior_bits lowest_routing_bits : N) : N :=
  if is_root then root_bits else if (parent_level =? 1)%N then lowest_routing_bits else interior_bits.

Definition uses_root_branch_budget (is_global_root_partition : bool) (group_count : nat) : bool :=
  is_global_root_partition && (group_count =? 1)%nat.

(** The entries decoded, each failure with the index of its entry. *)
Definition decode_entries (entries : list BranchEntry) (spec : EmbeddingSpec) (context : string)
  : indexed (list (list f32)) :=
  collect_map (fun p => map_err (fun error => tpm ("failed to decode logical branch entry "
      +:+ pretty (N.of_nat p.1) +:+ ": " +:+ error)%stdpp)
    (decode_f32_embedding_exact (branch_embedding p.2) spec context)) (imap pair entries).

Definition encode_branch_entries `{PcaFit} `{LnF64} (policy : BranchEncodingPolicy) (logical : EmbeddingSpec)
  (entries : list BranchEntry) (parent_level : N) (is_root : bool) : indexed EncodedBranchEntries :=
  match policy with
  | Ordinary => Ok {| encoded_spec := logical; encoded_entries := entries; encoded_ext := None |}
  | AmbientDeltaUniform root_bits interior_bits lowest_routing_bits =>
      guard? (encoding logical =? "f32le")%string else
        tpm "ambient delta branch authoring currently requires f32le logical embeddings" in
      let? decoded := decode_entries entries logical "ambient delta branch authoring" in
      let? centroid := exact_f32_centroid decoded in
      encode_ambient_delta_quantized_entries entries decoded logical centroid
        (resolve_branch_bit_budget parent_level is_root root_bits interior_bits lowest_routing_bits)
  | _ =>
      guard? (encoding logical =? "f32le")%string else
        tpm "EBCP branch authoring currently requires f32le logical embeddings" in
      let? decoded := decode_entries entries logical "EBCP branch authoring" in
      let? '(rotation_matrix, explained_variance) := fit_ebcp_rotation decoded in
      match policy with
      | PcaRotF32Le => encode_pca_rot_f32le_entries entries decoded logical rotation_matrix
      | PcaRotDeltaF32Le =>
          let? centroid := exact_f32_centroid decoded in
          encode_pca_rot_delta_f32le_entries entries decoded logical rotation_matrix centroid
      | PcaRotDeltaUniform root_bits interior_bits lowest_routing_bits =>
          let? centroid := exact_f32_centroid decoded in
          encode_pca_rot_delta_quantized_entries entries decoded logical rotation_matrix centroid
            (QUniform (resolve_branch_bit_budget parent_level is_root root_bits interior_bits lowest_routing_bits))
            (Some explained_variance)
      | PcaRotDeltaVariable root_bits interior_bits lowest_routing_bits =>
          let? centroid := exact_f32_centroid decoded in
          encode_pca_rot_delta_quantized_entries entries decoded logical rotation_matrix centroid
            (QVariable (resolve_branch_bit_budget parent_level is_root root_bits interior_bits lowest_routing_bits))
            (Some explained_variance)
      | AmbientDeltaUniform _ _ _ | Ordinary => Panic
      end
  end.
