(* ===== verification/Indexer.v ===== *)
(** * The streaming indexing run

    crates/lexongraph-streaming-indexer/src/lib.rs, [StreamingIndexingRun]: passes
    over the items that plan a hierarchy of partitions, and the replay that writes
    the leaves, routes them through the spill files and assembles the branches from
    the bottom up. Status updates and heartbeats are left out. The collaborators
    that resolve and embed keep a state [W], the planning policy a state [P], the
    block store a state [S]; what is local to [do_finalize] is passed along, since
    an error discards it. *)
From S2P Require Import Prelude Ordering Hash Cbor Ieee Ebcp EbcpPayload BlockV1 Store Clustering IndexTypes IndexHierarchy IndexLayer BranchEncoding.

Record StreamingIndexingRun (P : Type) := MkRun {
  planning_policy : P; branch_encoding_policy : BranchEncodingPolicy;
  embedding_spec : EmbeddingSpec; block_size_target : N;
  phase : RunPhase; completed_passes : N; baseline : option (list BaselineItem);
  finalized_hierarchy : option FinalizedPartitionHierarchy;
  current_pass_items : list BaselineItem; current_pass_f32_embeddings : list (list f32);
  items_seen_in_current_pass : nat
}.
Arguments MkRun {P}. Arguments planning_policy {P}. Arguments branch_encoding_policy {P}. Arguments embedding_spec {P}.
Arguments block_size_target {P}. Arguments phase {P}. Arguments completed_passes {P}. Arguments baseline {P}.
Arguments finalized_hierarchy {P}. Arguments current_pass_items {P}. Arguments current_pass_f32_embeddings {P}.
Arguments items_seen_in_current_pass {P}.

Section run.
Context {P : Type}.
Implicit Type run : StreamingIndexingRun P.

Definition new_with_branch_encoding (planning_policy : P) (branch_encoding_policy : BranchEncodingPolicy)
  (embedding_spec : EmbeddingSpec) (block_size_target : N) : StreamingIndexingRun P :=
  MkRun planning_policy branch_encoding_policy embedding_spec block_size_target Planning 0 None None [] [] 0.
Definition new_run (planning_policy : P) (embedding_spec : EmbeddingSpec) (block_size_target : N) : StreamingIndexingRun P :=
  new_with_branch_encoding planning_policy Ordinary embedding_spec block_size_target.

(** Assignments to fields. *)
Definition set_phase (value : RunPhase) run : StreamingIndexingRun P :=
  MkRun (planning_policy run) (branch_encoding_policy run) (embedding_spec run) (block_size_target run) value
    (completed_passes run) (baseline run) (finalized_hierarchy run) (current_pass_items run)
    (current_pass_f32_embeddings run) (items_seen_in_current_pass run).
Definition set_policy (value : P) run : StreamingIndexingRun P :=
  MkRun value (branch_encoding_policy run) (embedding_spec run) (block_size_target run) (phase run)
    (completed_passes run) (baseline run) (finalized_hierarchy run) (current_pass_items run)
    (current_pass_f32_embeddings run) (items_seen_in_current_pass run).
Definition set_items (value : list BaselineItem) run : StreamingIndexingRun P :=
  MkRun (planning_policy run) (branch_encoding_policy run) (embedding_spec run) (block_size_target run) (phase run)
    (completed_passes run) (baseline run) (finalized_hierarchy run) value
    (current_pass_f32_embeddings run) (items_seen_in_current_pass run).
Definition set_embeddings (value : list (list f32)) run : StreamingIndexingRun P :=
  MkRun (planning_policy run) (branch_encoding_policy run) (embedding_spec run) (block_size_target run) (phase run)
    (completed_passes run) (baseline run) (finalized_hierarchy run) (current_pass_items run)
    value (items_seen_in_current_pass run).
Definition set_items_seen (value : nat) run : StreamingIndexingRun P :=
  MkRun (planning_policy run) (branch_encoding_policy run) (embedding_spec run) (block_size_target run) (phase run)
    (completed_passes run) (baseline run) (finalized_hierarchy run) (current_pass_items run)
    (current_pass_f32_embeddings run) value.

(** What a pass that succeeded leaves behind. *)
Definition complete_pass (hierarchy : FinalizedPartitionHierarchy) run : StreamingIndexingRun P :=
  MkRun (planning_policy run) (branch_encoding_policy run) (embedding_spec run) (block_size_target run) (phase run)
    (completed_passes run + 1)
    (match baseline run with None => Some (current_pass_items run) | established => established end)
    (Some hierarchy)
    (match baseline run with None => [] | Some _ => current_pass_items run end)
    (current_pass_f32_embeddings run) 0.

Definition baseline_len run : nat := match baseline run with Some items => length items | None => 0%nat end.

Definition wrong_phase {A} (operation required : string) run : result StreamingIndexerError A :=
  Err (InvalidLifecycleTransition (operation +:+ " requires the " +:+ required +:+ " phase (currently "
    +:+ RunPhase_debug (phase run) +:+ ")")%stdpp).
End run.

(** ** Ingesting *)
Section ingest.
Context {W R P : Type} `{ContentResolver W R} `{EmbeddingProvider W} `{CborCodec} `{Sha256} `{HalfCrate}.
Implicit Type run : StreamingIndexingRun P.

(** The content of an item; its media type must not be empty. *)
Definition resolve_item (item : IndexItem R) : index_m W Content :=
  let! content := ask ContentResolution (resolve (content_ref item)) in
  iret (guard? negb (media_type content =? "")%string else
    UnusableContent "resolved content must include a media type" in Ok content).

Definition embedding_input (content : Content) : EmbeddingInput :=
  {| input_media_type := media_type content; input_body := body content |}.

(** The embeddings of a batch, one per item; [miscounted] is the text otherwise. *)
Definition embed_contents (spec : EmbeddingSpec) (miscounted : N -> N -> string) (contents : list Content)
  : index_m W (list bytes) :=
  let! embeddings := ask EmbeddingFailure (embed_batch (map embedding_input contents) spec) in
  iret (guard? (len embeddings =? len contents)%N else
    EmbeddingFailure (miscounted (len embeddings) (len contents)) in Ok embeddings).

(** The fingerprint of an item, as a replay is compared by. *)
Definition replay_item (item : IndexItem R) (content : Content) (embedding : bytes) : index_m W BaselineItem :=
  let! content_ref_hash := ask ContentResolution (fingerprint (content_ref item)) in
  iret (let? metadata_hash := map_err InvalidMetadata (hash_metadata (item_metadata item)) in
    Ok {| content_ref_hash := content_ref_hash; metadata_hash := metadata_hash;
          content_hash := hash_content content; embedding_hash := hash_bytes embedding |}).

(** The check of the items of a batch against the baseline, which the first pass
    builds instead. *)
Definition ingest_item (p : nat * (IndexItem R * Content * bytes)) : index_m (StreamingIndexingRun P * W) unit :=
  let '(index, (item, content, embedding)) := p in
  let! replay_item := on_snd (replay_item item content embedding) in fun '(run, w) =>
  match baseline run with
  | Some baseline =>
      (let? expected := ok_or (baseline !! (items_seen_in_current_pass run + index)%nat)
         (ReplayMismatch ("current pass has more items than the " +:+ pretty (len baseline)
           +:+ " items in the established baseline")%stdpp) in
       guard? bool_decide (expected = replay_item) else
         ReplayMismatch ("item " +:+ pretty (N.of_nat (items_seen_in_current_pass run + index))
           +:+ " in current pass differs from established baseline")%stdpp in
       Ok tt, (run, w))
  | None => (Ok tt, (set_items (current_pass_items run ++ [replay_item]) run, w))
  end.

Definition push_embedding (embedding : bytes) : index_m (StreamingIndexingRun P) unit := fun run =>
  match decode_embedding_as_f32 embedding (embedding_spec run) with
  | Ok decoded => (Ok tt, set_embeddings (current_pass_f32_embeddings run ++ [decoded]) run)
  | Err e => (Err e, run)
  | Panic => (Panic, run)
  end.

Definition ingest_batch (batch : list (IndexItem R)) : index_m (StreamingIndexingRun P * W) unit := fun '(run, w) =>
  if negb (bool_decide (phase run = Planning)) then (wrong_phase "ingest_batch" "planning" run, (run, w))
  else if bool_decide (length batch = 0%nat) then (Ok tt, (run, w))
  else
    (let! contents := on_snd (icollect resolve_item batch) in
     let! embeddings := on_snd (embed_contents (embedding_spec run) (fun got expected =>
       "embedding provider returned " +:+ pretty got +:+ " embeddings for " +:+ pretty expected +:+ " inputs")%stdpp contents) in
     let! _ := iret (try_fold (fun _ embedding => map_err EmbeddingFailure
       (validate_embedding_bytes embedding (embedding_spec run) "item")) tt embeddings) in
     let! _ := ifold (fun _ => ingest_item) tt (imap pair (zip (zip batch contents) embeddings)) in
     let! _ := on_fst (ifold (fun _ => push_embedding) tt embeddings) in
     on_fst (fun run => (Ok tt, set_items_seen (items_seen_in_current_pass run + length batch) run))) (run, w).
End ingest.

(** ** Finishing a pass *)
Section planning.
Context {P : Type} `{HierarchicalPlanningPolicy P} `{CborCodec} `{Sha256}.
Implicit Type run : StreamingIndexingRun P.

Definition pass_report (outcome : PlanningPassOutcome) (stats : HierarchyStats) run : IndexingPassReport :=
  {| observed_item_count := baseline_len run; completed_pass_count := completed_passes run;
     requested_planning_cluster_count := outcome_requested outcome;
     realized_planning_cluster_count := outcome_realized outcome;
     report_quality_metric := planning_quality_metric outcome;
     report_balance_metric := planning_balance_metric outcome;
     report_quality_direction := planning_quality_direction outcome;
     report_balance_direction := planning_balance_direction outcome;
     planned_partition_count := partition_count stats; terminal_partition_count := stats_terminal_count stats;
     hierarchy_depth := stats_depth stats |}.

(** The checks before anything changes, up to the bound. *)
Definition check_pass run : indexed N :=
  if negb (bool_decide (phase run = Planning)) then wrong_phase "finish_pass" "planning" run
  else
    guard? negb (items_seen_in_current_pass run =? 0)%nat else
      EmptyPass "at least one item must be ingested before completing a pass" in
    guard? (match baseline run with
            | Some baseline => (items_seen_in_current_pass run =? length baseline)%nat
            | None => true
            end) else
      ReplayMismatch ("pass had " +:+ pretty (N.of_nat (items_seen_in_current_pass run)) +:+ " items but baseline has "
        +:+ pretty (N.of_nat (baseline_len run)))%stdpp in
    map_err TerminalPartitionMaterialization (materializability_bound (embedding_spec run) (block_size_target run)).

(** The embeddings of the pass are taken out and put back on an error. *)
Definition finish_pass : index_m (StreamingIndexingRun P) IndexingPassReport :=
  let! materializability_bound := (fun run => (check_pass run, run)) in fun run =>
  let buffered := current_pass_f32_embeddings run in
  let '(outcome, policy) := finish_planning_pass buffered (embedding_spec run) (N.to_nat materializability_bound)
    (block_size_target run) (planning_policy run) in
  let taken := set_policy policy (set_embeddings [] run) in
  match (let? outcome := map_err map_planning_policy_error outcome in
         let? _ := map_err HierarchyValidation
           (validate_partition_hierarchy (hierarchy outcome) (items_seen_in_current_pass run)) in
         Ok outcome) with
  | Ok outcome =>
      let run := complete_pass (hierarchy outcome) taken in
      (let? stats := map_err HierarchyValidation (hierarchy_stats (hierarchy outcome)) in
       Ok (pass_report outcome stats run), run)
  | Err e => (Err e, set_embeddings buffered taken)
  | Panic => (Panic, taken)
  end.

Definition mark_planning_complete : index_m (StreamingIndexingRun P) unit := fun run =>
  match (if negb (bool_decide (phase run = Planning)) then wrong_phase "mark_planning_complete" "planning" run
         else
           guard? negb (completed_passes run =? 0)%N else
             InvalidLifecycleTransition "planning completion requires at least one completed pass" in
           guard? (items_seen_in_current_pass run =? 0)%nat else
             InvalidLifecycleTransition "cannot complete planning with an open (unfinished) pass" in
           let? hierarchy := ok_or (finalized_hierarchy run)
             (InvalidLifecycleTransition "no finalized partition hierarchy is available") in
           map_err HierarchyValidation (validate_partition_hierarchy hierarchy (baseline_len run))) with
  | Ok _ => (Ok tt, set_phase PlanningComplete run)
  | Err e => (Err e, run)
  | Panic => (Panic, run)
  end.
End planning.

(** ** Assembly from the bottom up *)
Section assembly.
Context {S : Type} `{BlockStore S} `{CborCodec} `{Sha256} `{PcaFit} `{LnF64} {summary : ChildSummaryPolicy}.
Variables (encoding_policy : BranchEncodingPolicy) (spec : EmbeddingSpec) (size_target : N).
(** The bound on the children of a branch. *)
Variable materializability_bound : nat.

Definition branch_entry_of (c : IndexedChild) : BranchEntry :=
  {| branch_embedding := ic_embedding c; child := ic_child c |}.
Definition summary_input_of (c : IndexedChild) : ChildSummaryInput :=
  {| cs_embedding := ic_embedding c; cs_child := ic_child c; cs_level := ic_level c;
     cs_descendant_count := ic_descendant_count c |}.

(** Writing a block: its serialization, and the check of the identifier returned. *)
Definition persist (block : Block) (serialized : SerializedBlock) : index_m S BlockHash :=
  let! block_id := ask Storage (put block) in
  let! _ := iret (verify_persisted_block_id block_id (ser_hash serialized)) in
  iret (Ok block_id).

(** The branch of a group, with its serialization and the inputs of its summary. *)
Definition author_branch (parent_level : N) (is_root : bool) (members : list IndexedChild)
  : indexed (BranchBlock * SerializedBlock * list ChildSummaryInput) :=
  let entries := normalize_branch_entries (map branch_entry_of members) in
  let child_summaries := normalize_child_summary_inputs (map summary_input_of members) in
  guard? (2 <=? length entries)%nat else
    tpm "normalized child-bearing entry set has fewer than two unique children" in
  guard? (2 <=? length child_summaries)%nat else
    tpm "normalized child summary set has fewer than two unique children" in
  let? encoded := encode_branch_entries encoding_policy spec entries parent_level is_root in
  let? branch := map_err BlockConstruction
    (build_branch_block VERSION_1 parent_level (encoded_spec encoded) (encoded_entries encoded) (encoded_ext encoded)) in
  let? serialized := map_err BlockConstruction (serialize_block (Branch branch)) in
  guard? (len (ser_bytes serialized) <=? size_target)%N else
    (if (length (branch_entries branch) =? 2)%nat then
       IntermediateNodeTooLarge (len (ser_bytes serialized)) size_target
     else tpm ("branch block serialized to " +:+ pretty (len (ser_bytes serialized))
       +:+ " bytes, exceeding block size target " +:+ pretty size_target)%stdpp) in
  Ok (branch, serialized, child_summaries).

(** The embedding and the count of a branch. *)
Definition summarize_branch (parent_level : N) (block_id : BlockHash) (child_summaries : list ChildSummaryInput)
  : indexed IndexedChild :=
  let? canonical := map_err CanonicalEmbeddingFailure (summarize_children spec child_summaries) in
  let? _ := map_err CanonicalEmbeddingFailure (validate_embedding_bytes canonical spec "canonical") in
  (* [sum] overflows in a checked build *)
  let? descendant_count := try_fold (fun sum c => expect (checked_add USIZE_MAX sum (cs_descendant_count c))) 0%N
    child_summaries in
  Ok {| ic_embedding := canonical; ic_child := block_id; ic_level := parent_level;
        ic_descendant_count := descendant_count |}.

(** The loop of [build_branch_layer] over the groups: the layer and what was persisted. *)
Definition build_group (children : list IndexedChild) (parent_level : N) (is_root : bool)
  (acc : list IndexedChild * list BlockHash) (group : list nat) : index_m S (list IndexedChild * list BlockHash) :=
  let '(next_layer, persisted_ids) := acc in
  let! members := iret (collect_map (fun index => expect (children !! index)) group) in
  let! '(branch, serialized, child_summaries) := iret (author_branch parent_level is_root members) in
  let! block_id := persist (Branch branch) serialized in
  let! parent := iret (summarize_branch parent_level block_id child_summaries) in
  iret (Ok (next_layer ++ [parent], persisted_ids ++ [block_id])).

Definition build_branch_layer (children : list IndexedChild) (groups : list (list nat)) (parent_level : N)
  (is_global_root_partition : bool) (persisted_ids : list BlockHash) : index_m S (list IndexedChild * list BlockHash) :=
  ifold (build_group children parent_level (uses_root_branch_budget is_global_root_partition (length groups)))
    ([], persisted_ids) groups.

Definition max_level (layer : list IndexedChild) : N := foldr N.max 0%N (map ic_level layer).

(** The loop over the layers; every layer is shorter than the one below it. *)
Fixpoint assemble_layers (fuel : nat) (is_global_root_partition : bool) (current : list IndexedChild)
  (persisted_ids : list BlockHash) : index_m S (IndexedChild * list BlockHash) :=
  match current with
  | [top] => iret (Ok (top, persisted_ids))
  | _ =>
      match fuel with
      | O => iret Panic
      | Datatypes.S fuel' =>
          let! groups := iret (map_err TerminalPartitionMaterialization
            (balanced_groups (length current) materializability_bound)) in
          let! next_level := iret (expect (checked_add U64_MAX (max_level current) 1)) in
          let! '(next_layer, persisted_ids) :=
            build_branch_layer current groups next_level is_global_root_partition persisted_ids in
          assemble_layers fuel' is_global_root_partition (normalize_current_layer next_layer) persisted_ids
      end
  end.

Definition assemble_child_set (children : list IndexedChild) (is_global_root_partition : bool)
  (persisted_ids : list BlockHash) : index_m S (IndexedChild * list BlockHash) :=
  let current := normalize_current_layer children in
  if bool_decide (length current = 0%nat) then iret (Err (tpm "child set normalized to zero entries"))
  else assemble_layers (length current) is_global_root_partition current persisted_ids.

(** The fuel is more than the number of partitions. *)
Fixpoint materialize_partition_from_terminal_children (fuel : nat) (partitions : part_map)
  (materialized_terminal_children : gmap string IndexedChild) (is_global_root_partition : bool)
  (persisted_ids : list BlockHash) (partition_id : string) : index_m S (IndexedChild * list BlockHash) :=
  match fuel with
  | O => iret Panic
  | Datatypes.S fuel' =>
      let! partition := iret (ok_or (partitions !! partition_id)
        (HierarchyValidation ("partition " +:+ string_debug partition_id
          +:+ " is missing during partition-ordered assembly")%stdpp)) in
      if terminal partition then
        iret (let? child := ok_or (materialized_terminal_children !! partition_id)
                (ReplayMismatch ("terminal partition " +:+ string_debug partition_id +:+ " was not materialized")%stdpp) in
              Ok (child, persisted_ids))
      else
        let! '(children, persisted_ids) := ifold (fun acc child_id =>
          let '(children, persisted_ids) := acc in
          let! '(child, persisted_ids) := materialize_partition_from_terminal_children fuel' partitions
            materialized_terminal_children false persisted_ids child_id in
          iret (Ok (children ++ [child], persisted_ids))) ([], persisted_ids) (child_ids partition) in
        assemble_child_set children is_global_root_partition persisted_ids
  end.
End assembly.

(** ** Finalizing *)
Section finalize.
Context {W R P S : Type} `{ContentResolver W R} `{EmbeddingProvider W} `{BlockStore S} `{CborCodec} `{Sha256}.
Context `{PcaFit} `{LnF64} {summary : ChildSummaryPolicy} `{LocalIo}.
Implicit Type run : StreamingIndexingRun P.

(** What the replay has done so far. *)
Record Replay := {
  replay_count : nat; replay_persisted : list BlockHash; route_position : nat; replay_spill : PartitionSpillDirectory
}.

Section replay.
Variables (spec : EmbeddingSpec) (baseline : list BaselineItem) (plan : PartitionRoutingPlan).

(** One item: the comparison, its leaf, and its entry in the spill. *)
Definition replay_one (base : nat) (acc : Replay) (p : nat * (IndexItem R * Content * bytes)) : index_m (W * S) Replay :=
  let '(offset, (item, content, embedding)) := p in
  let! replay_item := on_fst (replay_item item content embedding) in
  let! expected := iret (expect (baseline !! (base + offset)%nat)) in
  let! _ := iret (guard? bool_decide (expected = replay_item) else
    ReplayMismatch ("finalization item " +:+ pretty (N.of_nat (base + offset)) +:+ " differs from baseline")%stdpp in Ok tt) in
  let! _ := iret (map_err EmbeddingFailure (validate_embedding_bytes embedding spec "item")) in
  let! leaf := iret (map_err BlockConstruction (build_leaf_block VERSION_1 spec
    [{| leaf_embedding := embedding; metadata := item_metadata item; content := content |}] None)) in
  let! serialized := iret (map_err BlockConstruction (serialize_block (Leaf leaf))) in
  let! block_id := on_snd (persist (Leaf leaf) serialized) in
  let! ordinal := iret (let? o := read_partition_ordinal plan (route_position acc) in
    ok_or o (ReplayMismatch "finalization replay routing ended before the baseline")) in
  let! spill := iret (append_leaf_child (replay_spill acc) ordinal
    {| ic_embedding := embedding; ic_child := block_id; ic_level := 0; ic_descendant_count := 1 |}) in
  iret (Ok {| replay_count := replay_count acc; replay_persisted := replay_persisted acc ++ [block_id];
              route_position := Datatypes.S (route_position acc); replay_spill := spill |}).

Definition replay_batch (acc : Replay) (items : list (IndexItem R)) : index_m (W * S) Replay :=
  if bool_decide (length items = 0%nat) then iret (Ok acc)
  else
    let! _ := iret (try_fold (fun _ offset => rmap (fun _ => tt) (ok_or (baseline !! (replay_count acc + offset)%nat)
      (ReplayMismatch ("finalization replay has more items than the " +:+ pretty (len baseline)
        +:+ " items in the established baseline")%stdpp))) tt (seq 0 (length items))) in
    let! contents := on_fst (icollect resolve_item items) in
    let! embeddings := on_fst (embed_contents spec (fun got expected =>
      "expected " +:+ pretty expected +:+ " embeddings, got " +:+ pretty got)%stdpp contents) in
    let! acc := ifold (replay_one (replay_count acc)) acc (imap pair (zip (zip items contents) embeddings)) in
    iret (Ok {| replay_count := replay_count acc + length items; replay_persisted := replay_persisted acc;
                route_position := route_position acc; replay_spill := replay_spill acc |}).

Definition replay_all (batches : list (list (IndexItem R)))
  : index_m (W * S) (PartitionSpillDirectory * list BlockHash) :=
  let! _ := iret (local RouteOpen) in
  let! spill := iret (new_spill (length (terminal_partition_ids plan))) in
  let! acc := ifold replay_batch
    {| replay_count := 0; replay_persisted := []; route_position := 0; replay_spill := spill |} batches in
  iret (guard? negb (replay_count acc =? 0)%nat else EmptyInput in
    guard? (replay_count acc =? length baseline)%nat else
      ReplayMismatch ("finalization replay had " +:+ pretty (N.of_nat (replay_count acc)) +:+ " items but baseline has "
        +:+ pretty (len baseline))%stdpp in
    let? o := read_partition_ordinal plan (route_position acc) in
    guard? negb (bool_decide (is_Some o)) else
      ReplayMismatch "finalization replay routing contained more items than the baseline" in
    let? spill := finish_spill (replay_spill acc) in
    Ok (spill, replay_persisted acc)).
End replay.

(** One terminal partition: its spill read back and assembled. *)
Definition materialize_terminal (encoding_policy : BranchEncodingPolicy) (spec : EmbeddingSpec) (size_target : N)
  (bound : nat) (root_id : string) (plan : PartitionRoutingPlan) (spill : PartitionSpillDirectory)
  (acc : gmap string IndexedChild * list BlockHash) (p : nat * string)
  : index_m S (gmap string IndexedChild * list BlockHash) :=
  let '(materialized, persisted_ids) := acc in
  let '(partition_ordinal, partition_id) := p in
  let! expected_count := iret (expect (terminal_partition_item_counts plan !! partition_ordinal)) in
  let! leaf_children := iret (read_partition_children spill partition_ordinal) in
  let! _ := iret (guard? (length leaf_children =? expected_count)%nat else
    ReplayMismatch ("terminal partition " +:+ string_debug partition_id +:+ " spill contained "
      +:+ pretty (len leaf_children) +:+ " items but expected " +:+ pretty (N.of_nat expected_count))%stdpp in Ok tt) in
  let! '(child, persisted_ids) :=
    match leaf_children with
    | [] => iret (Err (ReplayMismatch ("terminal partition " +:+ string_debug partition_id +:+ " spill is empty")%stdpp))
    | [child] => iret (Ok (child, persisted_ids))
    | _ => assemble_child_set encoding_policy spec size_target bound leaf_children
             (bool_decide (partition_id = root_id)) persisted_ids
    end in
  iret (Ok (<[partition_id := child]> materialized, persisted_ids)).

Definition do_finalize run (replay_batches : list (list (IndexItem R))) (baseline : list BaselineItem)
  (hierarchy : FinalizedPartitionHierarchy) : index_m (W * S) StreamingIndexingResult :=
  let! bound := iret (map_err TerminalPartitionMaterialization
    (materializability_bound (embedding_spec run) (block_size_target run))) in
  let bound := N.to_nat bound in
  let! plan := iret (build_partition_routing_plan hierarchy (length baseline)) in
  let partition_of := partition_map (partitions hierarchy) in
  let! '(spill, persisted_ids) := replay_all (embedding_spec run) baseline plan replay_batches in
  on_snd (
    let! '(materialized, persisted_ids) := ifold (materialize_terminal (branch_encoding_policy run) (embedding_spec run)
      (block_size_target run) bound (root_partition_id hierarchy) plan spill) (∅, persisted_ids)
      (imap pair (terminal_partition_ids plan)) in
    let! '(root_child, persisted_ids) := materialize_partition_from_terminal_children (branch_encoding_policy run)
      (embedding_spec run) (block_size_target run) bound (Datatypes.S (size partition_of)) partition_of materialized true
      persisted_ids (root_partition_id hierarchy) in
    iret (Ok {| root_id := ic_child root_child; block_ids := dedup_sort_ids persisted_ids |})).

Definition finalize run (replay_batches : list (list (IndexItem R)))
  : W * S -> result StreamingIndexerError StreamingIndexingResult * StreamingIndexingRun P * (W * S) := fun x =>
  match (if negb (bool_decide (phase run = PlanningComplete)) then wrong_phase "finalize" "planning-complete" run
         else
           let? baseline := ok_or (baseline run) (InvalidLifecycleTransition "no baseline established") in
           let? hierarchy := ok_or (finalized_hierarchy run)
             (InvalidLifecycleTransition "no finalized partition hierarchy is available") in
           let? _ := map_err HierarchyValidation (validate_partition_hierarchy hierarchy (length baseline)) in
           Ok (baseline, hierarchy)) with
  | Ok (baseline, hierarchy) =>
      let '(r, x) := do_finalize run replay_batches baseline hierarchy x in
      (r, match r with Ok _ => set_phase Finalized run | _ => run end, x)
  | Err e => (Err e, run, x)
  | Panic => (Panic, run, x)
  end.
End finalize.
