(* ===== verification/IndexerFacts.v ===== *)
(** * The indexer: what its proofs share

    Postconditions of computations over a state, the division of a layer into
    groups, normal forms, and what the authoring of a branch keeps of its
    members. *)
From S2P Require Import Prelude Ordering Hash Cbor Ieee Ebcp BlockV1 BlockV1Correct Store IndexTypes IndexHierarchy IndexLayer BranchEncoding Indexer.

(** ** Postconditions

    [post E Q o]: no panic; [Q] of the value and the state, or [E] of the state a
    failure leaves. *)
Definition post {Er X A} (E : X -> Prop) (Q : A -> X -> Prop) (o : result Er A * X) : Prop :=
  match o with (Ok a, x) => Q a x | (Err _, x) => E x | (Panic, _) => False end.

Section post.
Context {Er X : Type}.
Implicit Types (E : X -> Prop).

Lemma post_bind {A B} E (Q : A -> X -> Prop) (R : B -> X -> Prop) (m : state_m Er X A) k x :
  post E Q (m x) -> (forall a x', Q a x' -> post E R (k a x')) -> post E R (ibind m k x).
Proof. unfold ibind. destruct (m x) as [[a|e|] x']; cbn; auto. Qed.

Lemma post_iret {A} E (Q : A -> X -> Prop) (r : result Er A) x : E x -> returns (fun a => Q a x) r -> post E Q (iret r x).
Proof. unfold iret. destruct r; cbn; auto. Qed.

Lemma post_step {A B} E (Q : A -> Prop) (R : B -> X -> Prop) (r : result Er A) k x :
  E x -> returns Q r -> (forall a, Q a -> post E R (k a x)) -> post E R (ibind (iret r) k x).
Proof. unfold ibind, iret. destruct r; cbn; auto. Qed.

Lemma post_weaken {A} E (Q Q' : A -> X -> Prop) (o : result Er A * X) : post E Q o -> (forall a x, Q a x -> Q' a x) -> post E Q' o.
Proof. destruct o as [[a|e|] x]; cbn; auto. Qed.

(** A postcondition with the value and the state it is about. *)
Lemma post_equation {A} E (Q : A -> X -> Prop) (o : result Er A * X) : post E Q o -> post E (fun a x => Q a x /\ o = (Ok a, x)) o.
Proof. destruct o as [[a|e|] x]; cbn; auto. Qed.

Lemma post_mono {A} E E' (Q Q' : A -> X -> Prop) (o : result Er A * X) :
  post E Q o -> (forall x, E x -> E' x) -> (forall a x, Q a x -> Q' a x) -> post E' Q' o.
Proof. destruct o as [[a|e|] x]; cbn; auto. Qed.

Lemma post_fold {A B} E (I : nat -> A -> X -> Prop) (f : A -> B -> state_m Er X A) l : forall i a x,
  I i a x -> (forall j b a x, l !! j = Some b -> I (i + j)%nat a x -> post E (I (S (i + j))) (f a b x)) ->
  post E (I (i + length l)%nat) (ifold f a l x).
Proof.
  induction l as [|b l IH]; intros i a x Ha Hf; cbn [length ifold].
  - rewrite Nat.add_0_r. exact Ha.
  - apply (post_bind E (I (S i))).
    + specialize (Hf 0%nat b a x eq_refl). rewrite Nat.add_0_r in Hf. by apply Hf.
    + intros a' x' Ha'. rewrite Nat.add_succ_r, <-Nat.add_succ_l. apply IH; [done|].
      intros j b' a'' x'' Hj Hp. specialize (Hf (S j) b' a'' x'' Hj). rewrite Nat.add_succ_r in Hf. by apply Hf.
Qed.

(** Collecting, where the state is only watched. *)
Lemma post_collect {A B} (I : X -> Prop) (R : A -> B -> Prop) (f : A -> state_m Er X B) l : forall x,
  I x -> (forall a x, a ∈ l -> I x -> post I (fun b x => I x /\ R a b) (f a x)) ->
  post I (fun bs x => I x /\ Forall2 R l bs) (icollect f l x).
Proof.
  induction l as [|a l IH]; intros x Hx Hf; cbn [icollect]; [by split; [|constructor]|].
  eapply post_bind; [apply Hf; [by left|done]|]. intros b x' [Hx' Hb].
  eapply post_bind; [apply IH; [done|intros; apply Hf; [by right|done]]|]. intros bs x'' [Hx'' Hbs].
  split; [done|by constructor].
Qed.
End post.

Lemma post_on_fst {X Y A} (E : X -> Prop) (F : X * Y -> Prop) (Q : A -> X -> Prop) (R : A -> X * Y -> Prop) m x y :
  post E Q (m x) -> (forall x, E x -> F (x, y)) -> (forall a x, Q a x -> R a (x, y)) -> post F R (on_fst m (x, y)).
Proof. unfold on_fst. destruct (m x) as [[a|e|] x']; cbn; auto. Qed.

Lemma post_on_snd {X Y A} (E : Y -> Prop) (F : X * Y -> Prop) (Q : A -> Y -> Prop) (R : A -> X * Y -> Prop) m x y :
  post E Q (m y) -> (forall y, E y -> F (x, y)) -> (forall a y, Q a y -> R a (x, y)) -> post F R (on_snd m (x, y)).
Proof. unfold on_snd. destruct (m y) as [[a|e|] y']; cbn; auto. Qed.

(** An answer that is not a panic. *)
Lemma post_ask {X E A} (f : E -> StreamingIndexerError) (m : X -> result E A * X) x :
  (m x).1 <> Panic -> post (fun _ => True) (fun _ _ => True) (ask f m x).
Proof. unfold ask. destruct (m x) as [[a|e|] x']; cbn; done. Qed.

(** ** Groups *)
Lemma cut_groups_ok base count : forall rem next, (rem <= count)%nat ->
  let groups := cut_groups count base rem next in
  concat groups = seq next (count * base + rem) /\ length groups = count
  /\ Forall (fun g => (base <= length g <= base + if (rem =? 0)%nat then 0 else 1)%nat) groups.
Proof.
  induction count as [|count IH]; intros rem next Hr; cbn [cut_groups]; cbv zeta.
  - assert (rem = 0)%nat as -> by lia. split_and!; done.
  - destruct rem as [|rem].
    + destruct (IH 0%nat (next + base)%nat ltac:(lia)) as (Hc & Hl & Hs).
      change (0 <? 0)%nat with false. change (0 - 1)%nat with 0%nat. cbv iota. cbn [concat length].
      rewrite Nat.add_0_r. rewrite Hc, Hl. split; [|split; [done|constructor; [rewrite length_seq; cbn; lia|exact Hs]]].
      rewrite !Nat.add_0_r. symmetry. apply seq_app.
    + destruct (IH rem (next + (base + 1))%nat ltac:(lia)) as (Hc & Hl & Hs).
      change (0 <? S rem)%nat with true. cbn [concat length]. replace (S rem - 1)%nat with rem by lia.
      rewrite Hc, Hl. split; [|split; [done|constructor; [rewrite length_seq; cbn; lia|]]].
      * replace (S count * base + S rem)%nat with ((base + 1) + (count * base + rem))%nat by lia. symmetry. apply seq_app.
      * eapply Forall_impl; [exact Hs|]. intros g. destruct rem; cbn; lia.
Qed.

(** The groups of a layer divide it in order; with two children at least, every
    group has two at least and no more than the bound. *)
Record divided (len bound : nat) (groups : list (list nat)) : Prop := {
  div_concat : concat groups = seq 0 len;
  div_sizes : (2 <= len)%nat -> Forall (fun g => 2 <= length g <= bound)%nat groups;
  div_even : exists size, Forall (fun g => size <= length g <= size + 1)%nat groups;
  div_count : length groups = Nat.max 1 (div_ceil len bound)
}.

Lemma div_ceil_spec a b : (0 < b)%nat -> (a <= div_ceil a b * b /\ (div_ceil a b * b < a + b))%nat.
Proof.
  intros Hb. unfold div_ceil. pose proof (Nat.div_mod_eq a b) as He. pose proof (Nat.mod_upper_bound a b ltac:(lia)).
  destruct (Nat.eqb_spec (a mod b) 0); nia.
Qed.

Lemma balanced_groups_ok len bound groups : balanced_groups len bound = Ok groups -> divided len bound groups.
Proof.
  unfold balanced_groups. intros Hg. inv_ok. apply negb_true_iff, Nat.eqb_neq in Hb, Hb0.
  destruct (Nat.eqb_spec len 1) as [->|Hlen]; [|destruct (Nat.leb_spec len bound) as [Hle|Hgt]]; inv_ok; subst.
  - split; [done|lia|exists 1%nat; repeat constructor|]. unfold div_ceil. destruct bound as [|[|b]]; [lia|done|].
    rewrite Nat.mod_1_l, Nat.div_small by lia. done.
  - split; [apply app_nil_r|intros; repeat constructor; rewrite length_seq; lia| |].
    + exists len. repeat constructor; rewrite length_seq; lia.
    + cbn [length]. pose proof (div_ceil_spec len bound ltac:(lia)). nia.
  - apply negb_true_iff, Nat.ltb_ge in Hb1. set (count := div_ceil len bound) in *.
    destruct (div_ceil_spec len bound ltac:(lia)) as [Hup Hlow]. fold count in Hup, Hlow.
    assert (2 <= count)%nat as Hcount by nia.
    pose proof (Nat.div_mod_eq len count) as He. pose proof (Nat.mod_upper_bound len count ltac:(lia)) as Hm.
    destruct (cut_groups_ok (len / count) count (len mod count) 0 ltac:(lia)) as (Hc & Hl & Hs).
    pose proof (Nat.div_mod_eq len 2) as H2.
    assert (2 <= len / count)%nat as Hbase.
    { apply Nat.div_le_lower_bound; [lia|]. nia. }
    split.
    + rewrite Hc. f_equal. lia.
    + intros _. eapply Forall_impl; [exact Hs|]. cbn beta. intros g Hlg. split; [lia|].
      destruct (Nat.eqb_spec (len mod count) 0); nia.
    + exists (len / count)%nat. eapply Forall_impl; [exact Hs|]. cbn beta. intros g. destruct (_ =? 0)%nat; lia.
    + lia.
Qed.

Lemma balanced_groups_no_panic len bound : no_panic (balanced_groups len bound).
Proof. unfold balanced_groups. cbv zeta. np. Qed.

Lemma divided_fewer len bound groups : divided len bound groups -> (2 <= len)%nat ->
  (1 <= length groups < len)%nat /\ (2 * length groups <= len)%nat.
Proof.
  intros Hd Hlen. pose proof (div_sizes _ _ _ Hd Hlen) as Hs. pose proof (div_count _ _ _ Hd).
  assert (forall gs : list (list nat), Forall (fun g => 2 <= length g <= bound)%nat gs ->
    2 * length gs <= length (concat gs))%nat as Hall.
  { induction 1 as [|g gs Hg _ IH]; cbn [length concat]; [lia|]. rewrite length_app. lia. }
  specialize (Hall _ Hs). rewrite (div_concat _ _ _ Hd), length_seq in Hall. lia.
Qed.

(** ** Normal forms *)
Lemma dedup_from_submseteq {A} (same : A -> A -> bool) l : forall prev, dedup_from same prev l ⊆+ l.
Proof.
  induction l as [|x l IH]; intros prev; cbn [dedup_from]; [done|].
  destruct (same prev x); [by apply submseteq_cons|by apply submseteq_skip].
Qed.
Lemma dedup_by_submseteq {A} (same : A -> A -> bool) l : dedup_by same l ⊆+ l.
Proof. destruct l as [|x l]; [done|]. apply submseteq_skip, dedup_from_submseteq. Qed.

(** Every element is represented by one with the same key. *)
Lemma dedup_from_covers {A B} (key : A -> B) (same : A -> A -> bool) (Hsame : forall x y, same x y = true -> key x = key y) l :
  forall prev x, x ∈ l -> key x = key prev \/ key x ∈ map key (dedup_from same prev l).
Proof.
  induction l as [|y l IH]; intros prev x Hx; [by apply elem_of_nil in Hx|]. cbn [dedup_from].
  destruct (same prev y) eqn:Hs; apply elem_of_cons in Hx as [->|Hx].
  - left. symmetry. by apply Hsame.
  - by apply IH.
  - right. by left.
  - right. destruct (IH y x Hx) as [->|]; [by left|by right].
Qed.
Lemma dedup_by_covers {A B} (key : A -> B) (same : A -> A -> bool) (Hsame : forall x y, same x y = true -> key x = key y) l x :
  x ∈ l -> key x ∈ map key (dedup_by same l).
Proof.
  destruct l as [|y l]; [by intros ?%elem_of_nil|]. intros [->|Hx]%elem_of_cons; [by left|].
  cbn. destruct (dedup_from_covers key same Hsame l y x Hx) as [->|]; [by left|by right].
Qed.

Section normal.
Context {A : Type} (embedding_of : A -> bytes) (child_of : A -> BlockHash).
Notation normal := (normal_children embedding_of child_of).

Lemma normal_submseteq l : normal l ⊆+ l.
Proof. unfold normal_children. rewrite !sort_by_Permutation. etrans; [apply dedup_by_submseteq|]. by rewrite sort_by_Permutation. Qed.

Lemma normal_in l x : x ∈ normal l -> x ∈ l.
Proof. intros Hx. by eapply elem_of_submseteq; [|apply normal_submseteq]. Qed.

Lemma normal_covers l x : x ∈ l -> child_of x ∈ map child_of (normal l).
Proof.
  intros Hx. unfold normal_children. rewrite sort_by_Permutation.
  apply dedup_by_covers; [|by rewrite sort_by_Permutation]. intros a b. apply bool_decide_eq_true.
Qed.

Lemma normal_children_set l h : h ∈ map child_of (normal l) <-> h ∈ map child_of l.
Proof.
  split; intros (x & -> & Hx)%list_elem_of_fmap; [apply list_elem_of_fmap; exists x; by split; [|apply normal_in]|].
  by apply normal_covers.
Qed.
End normal.

Lemma normalize_layer_submseteq cs : normalize_current_layer cs ⊆+ cs.
Proof.
  unfold normalize_current_layer, deduplicate_layer_by_child. etrans; [apply normal_submseteq|].
  by rewrite sort_by_Permutation.
Qed.

Lemma normalize_layer_covers cs c : c ∈ cs -> ic_child c ∈ map ic_child (normalize_current_layer cs).
Proof. intros Hc. apply normal_covers. by rewrite sort_by_Permutation. Qed.

(** ** Authoring *)
Lemma build_branch_entries `{CborCodec} v l s es ext b :
  build_branch_block v l s es ext = Ok b -> branch_entries b ≡ₚ es.
Proof.
  unfold build_branch_block. intros Hb. inv_ok. destruct a as [a|a]; [|done]. injection Hb as ->.
  cbn in Hok. inv_ok. subst. unfold normalize_branch in Hok. inv_ok. subst. cbn in *.
  match goal with Hs : sort_branch_entries _ = Ok _ |- _ => apply sort_branch_entries_ok in Hs as [-> _] end.
  simplify_eq. apply sort_by_Permutation.
Qed.

Lemma with_embedding_children (entries : list BranchEntry) (payloads : list bytes) :
  length payloads = length entries -> map child (map with_embedding (zip entries payloads)) = map child entries.
Proof.
  revert payloads. induction entries as [|e entries IH]; intros [|p payloads] Hl; cbn in *; [done..|].
  f_equal. apply IH. lia.
Qed.

Lemma encode_children `{PcaFit} `{LnF64} policy spec entries level is_root encoded :
  encode_branch_entries policy spec entries level is_root = Ok encoded ->
  map child (encoded_entries encoded) = map child entries.
Proof.
  assert (forall {A} (l : list A), length (map snd (zip entries l)) = Nat.min (length entries) (length l)) as Hz.
  { intros A l. by rewrite length_map, length_zip. }
  assert (forall context decoded, decode_entries entries spec context = Ok decoded -> length decoded = length entries) as Hd.
  { intros context decoded Hdec%collect_map_length. rewrite Hdec. apply length_imap. }
  assert (forall (ds : list (list f32)) ws scales payloads, length ds = length entries ->
    quantized_payloads entries ds ws = Ok (scales, payloads) -> length payloads = length entries) as Hq.
  { intros ds ws scales payloads Hl Hp. unfold quantized_payloads in Hp. inv_oks. simplify_eq.
    match goal with Hc : collect_map _ _ = Ok _ |- _ => apply collect_map_length in Hc as -> end. rewrite Hz. lia. }
  assert (forall rotation centroid enc decoded variance e, length decoded = length entries ->
    encode_pca_rot_delta_quantized_entries entries decoded spec rotation centroid enc variance = Ok e ->
    map child (encoded_entries e) = map child entries) as Hpq.
  { intros rotation centroid enc decoded variance e Hl He. unfold encode_pca_rot_delta_quantized_entries in He. inv_oks.
    match goal with Hc : collect_map _ decoded = Ok _ |- _ => apply collect_map_length in Hc end.
    destruct enc; subst; apply with_embedding_children; (eapply Hq; [|eassumption]); congruence. }
  intros He. unfold encode_branch_entries in He. destruct policy; inv_oks; subst; try done;
    match goal with Hdec : decode_entries _ _ _ = Ok _ |- _ => apply Hd in Hdec end; try (by eapply Hpq).
  - unfold encode_pca_rot_f32le_entries in He. inv_oks. subst. apply with_embedding_children.
    rewrite length_map. match goal with Hc : collect_map _ _ = Ok _ |- _ => apply collect_map_length in Hc as -> end. rewrite Hz. lia.
  - unfold encode_pca_rot_delta_f32le_entries in He. inv_oks. subst. apply with_embedding_children.
    rewrite length_map. match goal with Hc : collect_map (rotated_delta _ _) _ = Ok _ |- _ => apply collect_map_length in Hc as -> end.
    rewrite Hz. lia.
  - unfold encode_ambient_delta_quantized_entries in He. inv_oks. subst. apply with_embedding_children.
    eapply Hq; [|eassumption]. match goal with Hc : collect_map _ _ = Ok _ |- _ => apply collect_map_length in Hc; congruence end.
Qed.

(** ** Sorted identifiers *)
Lemma dedup_from_sorted {A} (cmp : A -> A -> comparison) `{!TotalCmp cmp} (same : A -> A -> bool)
  (Hsame : forall x y, same x y = true <-> cmp x y = Eq) l : forall prev,
  StronglySorted (cmp_le cmp) (prev :: l) -> StronglySorted (cmp_lt cmp) (prev :: dedup_from same prev l).
Proof.
  induction l as [|x l IH]; intros prev Hs; cbn [dedup_from]; [by repeat constructor|].
  inversion Hs as [|? ? Hxl Hprev]; subst. inversion Hxl as [|? ? Hl Hx]; subst. inversion Hprev as [|? ? Hpx Hpl]; subst.
  destruct (same prev x) eqn:E.
  - apply IH. by constructor.
  - assert (cmp_lt cmp prev x) as Hlt.
    { apply cmp_le_not_eq; [done|]. intros He%Hsame. congruence. }
    specialize (IH x Hxl). constructor; [done|]. inversion IH as [|? ? _ Hrest]; subst. constructor; [done|].
    eapply Forall_impl; [exact Hrest|]. intros y Hy. apply (cmp_lt_le_trans cmp _ _ _ Hlt). by apply cmp_lt_le.
Qed.

Lemma dedup_sort_ids_ok ids : StronglySorted (cmp_lt hash_cmp) (dedup_sort_ids ids)
  /\ forall id, id ∈ dedup_sort_ids ids <-> id ∈ ids.
Proof.
  set (same := fun a b : BlockHash => bool_decide (as_bytes a = as_bytes b)).
  assert (forall x y, same x y = true <-> hash_cmp x y = Eq) as Hsame.
  { intros x y. unfold same. rewrite bool_decide_eq_true. symmetry. apply bytes_cmp_eq. }
  pose proof (sort_by_sorted hash_cmp ids) as Hs. pose proof (sort_by_Permutation hash_cmp ids) as Hp.
  unfold dedup_sort_ids. fold same. split.
  - destruct (sort_by hash_cmp ids) as [|x l]; [constructor|]. exact (dedup_from_sorted hash_cmp same Hsame l x Hs).
  - intros id. rewrite <-Hp at 2. split; [intros Hid; by eapply elem_of_submseteq; [|apply dedup_by_submseteq]|].
    intros Hid. rewrite <-(map_id (dedup_by same _)). apply (dedup_by_covers (fun x => x) same); [|done].
    intros x y Hxy. apply hash_cmp_eq. by apply Hsame.
Qed.
