(* ===== verification/AssemblyCorrect.v ===== *)
(** * The indexer: assembly from the bottom up

    On a durable store: every block the assembly writes is held under its
    identifier and links its members, so that what stands for a set of children at
    the end reaches each of them; levels grow strictly and counts stay in range. *)
From S2P Require Import Prelude Ordering Hash Cbor Ieee Ebcp BlockV1 BlockV1Correct Store StoreCorrect IndexTypes IndexHierarchy IndexHierarchyCorrect IndexLayer BranchEncoding Indexer IndexerFacts.
From stdpp Require Import relations.

(** ** Sums *)
Fixpoint sum_n (l : list N) : N := match l with [] => 0 | x :: l' => x + sum_n l' end%N.
Lemma sum_n_app l k : sum_n (l ++ k) = (sum_n l + sum_n k)%N.
Proof. induction l as [|x l IH]; cbn; [done|]. rewrite IH. lia. Qed.
Lemma sum_n_submseteq l k : l ⊆+ k -> (sum_n l <= sum_n k)%N.
Proof. induction 1; cbn in *; lia. Qed.
Lemma sum_n_le l x : x ∈ l -> (x <= sum_n l)%N.
Proof. induction l as [|y l IH]; [by intros ?%elem_of_nil|]. intros [->|Hx%IH]%elem_of_cons; cbn; lia. Qed.
Lemma map_submseteq {A B} (f : A -> B) l k : l ⊆+ k -> map f l ⊆+ map f k.
Proof. apply fmap_submseteq. Qed.

Notation weight cs := (sum_n (map ic_descendant_count cs)).

Lemma max_level_le cs m : (max_level cs <= m)%N <-> Forall (fun c => (ic_level c <= m)%N) cs.
Proof.
  unfold max_level. induction cs as [|c cs IH]; cbn [map foldr]; [split; [constructor|lia]|].
  rewrite N.max_lub_iff, IH, Forall_cons. done.
Qed.

(** The sum of a checked build. *)
Lemma checked_sum_ok {E} (cs : list ChildSummaryInput) : forall start,
  (start + sum_n (map cs_descendant_count cs) <= USIZE_MAX)%N ->
  try_fold (fun sum c => expect (checked_add USIZE_MAX sum (cs_descendant_count c))) start cs
    = Ok (E := E) (start + sum_n (map cs_descendant_count cs))%N.
Proof.
  induction cs as [|c cs IH]; intros start Hs; cbn [map sum_n try_fold] in *; [by rewrite N.add_0_r|].
  unfold checked_add at 1. rewrite (proj2 (N.leb_le _ _)) by lia. cbn [expect rbind]. rewrite IH by lia. f_equal. lia.
Qed.

(** ** What the store holds *)
Section held.
Context {S : Type} `{DurableStore S} `{CborCodec} `{Sha256}.

Definition grows (s s' : S) : Prop := forall k b, holds s k b -> holds s' k b.
#[export] Instance grows_preorder : PreOrder grows.
Proof. split; [by intros s k b|]. intros s1 s2 s3 H12 H23 k b Hb. by apply H23, H12. Qed.

Definition held (s : S) (id : BlockHash) (block : Block) : Prop :=
  exists ser, serialize_block block = Ok ser /\ ser_hash ser = id /\ holds s id (ser_bytes ser).
Definition block_level (block : Block) : N := match block with Branch b => branch_level b | Leaf b => leaf_level b end.
Definition at_level (s : S) (id : BlockHash) (level : N) : Prop :=
  exists block, held s id block /\ block_level block = level.

(** From a branch to a child of one of its entries. *)
Definition links (s : S) (a c : BlockHash) : Prop :=
  exists branch, held s a (Branch branch) /\ c ∈ map child (branch_entries branch).

Lemma held_grows s s' id block : grows s s' -> held s id block -> held s' id block.
Proof. intros Hg (ser & Hs & Hh & Hb). exists ser. auto. Qed.
Lemma at_level_grows s s' id level : grows s s' -> at_level s id level -> at_level s' id level.
Proof. intros Hg (block & Hh & Hl). exists block. split; [by eapply held_grows|done]. Qed.
Lemma links_grows s s' a c : grows s s' -> links s a c -> links s' a c.
Proof. intros Hg (b & Hh & Hc). exists b. split; [by eapply held_grows|done]. Qed.
Lemma reaches_grows s s' a c : grows s s' -> rtc (links s) a c -> rtc (links s') a c.
Proof. intros Hg. apply rtc_subrel. intros x y. by apply links_grows. Qed.

(** A branch whose children are all in [D], at lower levels. *)
Definition branch_ok (size_target : N) (s : S) (D : list BlockHash) (id : BlockHash) : Prop :=
  exists branch ser, serialize_block (Branch branch) = Ok ser /\ ser_hash ser = id /\ holds s id (ser_bytes ser)
  /\ (len (ser_bytes ser) <= size_target)%N /\ (2 <= length (branch_entries branch))%nat
  /\ forall c, c ∈ map child (branch_entries branch) ->
       c ∈ D /\ exists level, (level < branch_level branch)%N /\ at_level s c level.

Lemma branch_ok_grows target s s' D D' id : grows s s' -> D ⊆ D' -> branch_ok target s D id -> branch_ok target s' D' id.
Proof.
  intros Hg HD (branch & ser & Hs & Hh & Hb & Hl & Htwo & Hc). exists branch, ser. split_and!; [done|done|by apply Hg|done|done|].
  intros c (Hc1 & level & Hc2 & Hc3)%Hc. split; [by apply HD|]. exists level. split; [done|by eapply at_level_grows].
Qed.

(** Writing on a durable store. *)
Lemma persist_ok block ser s : durable_ok s -> serialize_block block = Ok ser ->
  post (fun s' => durable_ok s' /\ grows s s')
    (fun id s' => durable_ok s' /\ grows s s' /\ id = ser_hash ser /\ held s' id block) (persist block ser s).
Proof.
  intros Hok Hser. unfold persist, ibind, ask, put, sbind, sret. rewrite Hser. cbn [map_err].
  destruct (put_block_bytes (ser_hash ser) (ser_bytes ser) s) as [r s'] eqn:Hp.
  destruct (durable_put _ _ _ _ _ Hok Hp) as (Hok' & Hnp & Hg & Hh).
  destruct r as [[]|e|]; cbn; [|done|done]. unfold verify_persisted_block_id. rewrite bool_decide_true by done. cbn.
  split_and!; [done|done|done|]. exists ser. auto.
Qed.
End held.

(** ** One branch *)
Section assembly.
Context {S : Type} `{DurableStore S} `{CborCodec} `{Sha256} `{PcaFit} `{LnF64} {summary : ChildSummaryPolicy}.
Context (policy : BranchEncodingPolicy) (spec : EmbeddingSpec) (size_target : N) (bound : nat).
Context (encoder_calm : forall entries level is_root, no_panic (encode_branch_entries policy spec entries level is_root)).
Context (summary_calm : forall children, no_panic (summarize_children spec children)).
(** What a leaf is in the store, in the index being built. *)
Context (leaf_ok : S -> BlockHash -> Prop) (leaf_ok_grows : forall s s' id, grows s s' -> leaf_ok s id -> leaf_ok s' id).
Implicit Types (D : list BlockHash) (cs : list IndexedChild).

Lemma author_branch_ok level is_root members :
  returns (fun r => let '(branch, ser, summaries) := r in
    serialize_block (Branch branch) = Ok ser /\ (len (ser_bytes ser) <= size_target)%N
    /\ branch_level branch = level /\ (2 <= length (branch_entries branch))%nat
    /\ (forall h, h ∈ map child (branch_entries branch) <-> h ∈ map ic_child members)
    /\ (sum_n (map cs_descendant_count summaries) <= weight members)%N)
    (author_branch policy spec size_target level is_root members).
Proof.
  apply returns_ok.
  - unfold author_branch. np; apply map_err_no_panic; [apply build_branch_block_no_panic|apply serialize_block_no_panic].
  - intros [[branch ser] summaries] Ha. unfold author_branch in Ha. cbv zeta in Ha. inv_ok.
    rename Hok into Hencode, Hok0 into Hbuild, Hok1 into Hser. apply map_err_ok in Hbuild, Hser. simplify_eq.
    apply encode_children in Hencode. pose proof (build_branch_entries _ _ _ _ _ _ Hbuild) as Hperm.
    apply build_branch_block_ok in Hbuild as (_ & _ & Hlevel & _).
    assert (map child (branch_entries branch) ≡ₚ map child (normalize_branch_entries (map branch_entry_of members))) as Hch.
    { rewrite Hperm, Hencode. done. }
    split_and!; [done|by apply N.leb_le|done| | |].
    + apply Nat.leb_le in Hb. rewrite <-(length_map child), Hch, length_map. done.
    + intros h. rewrite Hch. unfold normalize_branch_entries. rewrite (normal_children_set branch_embedding child).
      by rewrite map_map.
    + assert (weight members = sum_n (map cs_descendant_count (map summary_input_of members))) as -> by (by rewrite map_map).
      apply sum_n_submseteq, map_submseteq, normal_submseteq.
Qed.

Lemma summarize_branch_ok level id summaries : (sum_n (map cs_descendant_count summaries) <= USIZE_MAX)%N ->
  returns (fun c => ic_child c = id /\ ic_level c = level
    /\ ic_descendant_count c = sum_n (map cs_descendant_count summaries)) (summarize_branch spec level id summaries).
Proof.
  intros Hs. unfold summarize_branch. eapply (returns_bind (fun _ => True)).
  { pose proof (summary_calm summaries) as Hn. by destruct (summarize_children _ _). }
  intros canonical _. eapply (returns_bind (fun _ => True)).
  { unfold validate_embedding_bytes. destruct (expected_embedding_len spec); cbn; [by destruct (_ =? _)%N|done]. }
  intros _ _. rewrite checked_sum_ok by done. done.
Qed.

(** ** A layer *)

(** Every identifier persisted is a leaf or a branch over persisted children. *)
Definition sound (s : S) D : Prop := forall id, id ∈ D -> leaf_ok s id \/ branch_ok size_target s D id.
Definition child_ok (s : S) D (c : IndexedChild) : Prop := ic_child c ∈ D /\ at_level s (ic_child c) (ic_level c).

Record built (s : S) D (s' : S) D' : Prop := {
  built_ok : durable_ok s'; built_grows : grows s s'; built_sound : sound s' D'; built_keeps : D ⊆ D'
}.

Lemma child_ok_grows s s' D D' c : grows s s' -> D ⊆ D' -> child_ok s D c -> child_ok s' D' c.
Proof. intros Hg HD [Hc Hl]. split; [by apply HD|by eapply at_level_grows]. Qed.

Lemma sound_snoc s s' D id : grows s s' -> sound s D -> branch_ok size_target s' (D ++ [id]) id -> sound s' (D ++ [id]).
Proof.
  intros Hg Hs Hb j [Hj|Hj%list_elem_of_singleton]%elem_of_app; [|subst j; by right].
  destruct (Hs j Hj) as [Hl|Hl]; [left; by eapply leaf_ok_grows|right]. eapply branch_ok_grows; [done| |done].
  intros i Hi. apply elem_of_app. by left.
Qed.

Lemma built_trans s D s' D' s'' D'' : built s D s' D' -> built s' D' s'' D'' -> built s D s'' D''.
Proof. intros [_ Hg _ HD] [Hok Hg' Hs HD']. split; [exact Hok|by etrans|exact Hs|by etrans]. Qed.

(** The members of groups of indices. *)
Definition members_of cs (indices : list nat) : list IndexedChild := omap (fun i => cs !! i) indices.

Lemma members_seq cs k : members_of (k ++ cs) (seq (length k) (length cs)) = cs.
Proof.
  revert k. induction cs as [|c cs IH]; intros k; [done|]. cbn [length seq]. unfold members_of. cbn [omap list_omap].
  rewrite list_lookup_middle by done. f_equal. specialize (IH (k ++ [c])). rewrite <-app_assoc, length_app in IH.
  cbn in IH. rewrite Nat.add_1_r in IH. exact IH.
Qed.
Lemma members_all cs : members_of cs (seq 0 (length cs)) = cs.
Proof. exact (members_seq cs []). Qed.

Lemma members_app cs l k : members_of cs (l ++ k) = members_of cs l ++ members_of cs k.
Proof. unfold members_of. apply omap_app. Qed.

Lemma members_collected {E} cs group : Forall (fun i => (i < length cs)%nat) group ->
  collect_map (fun i => expect (cs !! i)) group = Ok (E := E) (members_of cs group).
Proof.
  induction 1 as [|i group Hi _ IH]; [done|]. cbn [collect_map]. unfold members_of. cbn [omap list_omap].
  destruct (lookup_lt_is_Some_2 _ _ Hi) as [c ->]. cbn [expect rbind]. fold (members_of cs group). by rewrite IH.
Qed.

(** The layer after some of the groups. *)
Record layer_built (s0 : S) D0 cs (level : N) (s : S) D (next : list IndexedChild) (done_ : list nat) (count : nat) : Prop := {
  lb_built : built s0 D0 s D;
  lb_count : length next = count;
  lb_children : Forall (child_ok s D) next;
  lb_level : Forall (fun c => ic_level c = level) next;
  lb_reach : forall c, c ∈ members_of cs done_ -> exists p, p ∈ next /\ rtc (links s) (ic_child p) (ic_child c);
  lb_new : forall id, id ∈ D -> id ∈ D0 \/ id ∈ map ic_child next;
  lb_weight : (weight next <= weight (members_of cs done_))%N
}.

Lemma build_group_ok s0 D0 cs level is_root s D next done_ count group :
  Forall (child_ok s0 D0) cs -> Forall (fun c => (ic_level c < level)%N) cs ->
  Forall (fun i => (i < length cs)%nat) group -> (weight (members_of cs group) <= USIZE_MAX)%N ->
  layer_built s0 D0 cs level s D next done_ count ->
  post (fun s' => durable_ok s' /\ grows s0 s')
    (fun r s' => layer_built s0 D0 cs level s' r.2 r.1 (done_ ++ group) (count + 1))
    (build_group policy spec size_target cs level is_root (next, D) group s).
Proof.
  intros Hcs Hlevel Hgroup Hw [Hb Hn Hc Hl Hr Hnew Hweight]. unfold build_group.
  pose proof (conj (built_ok _ _ _ _ Hb) (built_grows _ _ _ _ Hb)) as HE.
  eapply (post_step _ (fun members => members = members_of cs group)); [done|by rewrite members_collected|].
  intros members ->. eapply post_step; [done|apply author_branch_ok|].
  intros [[branch ser] summaries] (Hser & Hsize & Hbl & Htwo & Hch & Hsum).
  eapply post_bind.
  { destruct (persist (Branch branch) ser s) as [r s'] eqn:Hp.
    pose proof (persist_ok (Branch branch) ser s (built_ok _ _ _ _ Hb) Hser) as Hpost. rewrite Hp in Hpost.
    instantiate (1 := fun id s' => durable_ok s' /\ grows s s' /\ id = ser_hash ser /\ held s' id (Branch branch)).
    destruct r; cbn in *; [exact Hpost| |done]. destruct Hpost as [? Hg]. split; [done|]. etrans; [|exact Hg]. apply Hb. }
  cbn beta. intros id s' (Hok' & Hg & -> & Hheld). eapply post_step; [|apply (summarize_branch_ok level (ser_hash ser)); lia|].
  { split; [done|]. etrans; [|exact Hg]. apply Hb. }
  intros parent (Hpc & Hpl & Hpw). cbn.
  assert (branch_ok size_target s' (D ++ [ser_hash ser]) (ser_hash ser)) as Hbranch.
  { destruct Hheld as (ser' & Hser' & _ & Hh). assert (ser' = ser) as -> by congruence.
    exists branch, ser. split_and!; [done|done|done|done|done|]. intros h Hh'. apply Hch in Hh'.
    apply list_elem_of_fmap in Hh' as (c & -> & Hcm). apply list_elem_of_omap in Hcm as (i & _ & Hi).
    rewrite Forall_lookup in Hcs, Hlevel. destruct (Hcs i c Hi) as [HD Hlev]. split.
    - apply elem_of_app. left. by apply (built_keeps _ _ _ _ Hb).
    - exists (ic_level c). rewrite Hbl. split; [by apply (Hlevel i)|]. eapply at_level_grows; [|exact Hlev].
      etrans; [|exact Hg]. apply Hb. }
  assert (Forall (child_ok s' (D ++ [ser_hash ser])) next) as Hnext.
  { eapply Forall_impl; [exact Hc|]. intros c. apply child_ok_grows; [done|set_solver]. }
  split; cbn [fst snd].
  - eapply built_trans; [exact Hb|]. split; [done|done|by eapply sound_snoc; [|apply Hb|]|set_solver].
  - rewrite length_app. cbn. lia.
  - apply Forall_app. split; [done|]. repeat constructor; [rewrite Hpc; set_solver|].
    rewrite Hpc, Hpl. exists (Branch branch). by split.
  - apply Forall_app. split; [done|]. by repeat constructor.
  - intros c. rewrite members_app. intros [Hcm|Hcm]%elem_of_app.
    + destruct (Hr c Hcm) as (p & Hp & Hpr). exists p. split; [set_solver|by eapply reaches_grows].
    + exists parent. split; [set_solver|]. rewrite Hpc. apply rtc_once. exists branch. split; [done|]. apply Hch.
      by apply list_elem_of_fmap_2.
  - intros id Hid. rewrite map_app. apply elem_of_app in Hid as [Hid|Hid%list_elem_of_singleton].
    + destruct (Hnew id Hid); set_solver.
    + right. apply elem_of_app. right. cbn. rewrite Hpc. set_solver.
  - rewrite members_app, !map_app, !sum_n_app. cbn. lia.
Qed.

Lemma members_weight_le cs groups group j : concat groups = seq 0 (length cs) -> groups !! j = Some group ->
  (weight (members_of cs group) <= weight cs)%N.
Proof.
  intros Hc Hj. rewrite <-(members_all cs) at 2. rewrite <-Hc.
  rewrite <-(take_drop_middle _ _ _ Hj), concat_app. cbn [concat]. rewrite !members_app, !map_app, !sum_n_app. lia.
Qed.

Lemma group_in_range cs groups group j : concat groups = seq 0 (length cs) -> groups !! j = Some group ->
  Forall (fun i => (i < length cs)%nat) group.
Proof.
  intros Hc Hj. apply Forall_forall. intros i Hi. assert (i ∈ concat groups) as Hin.
  { apply list_elem_of_In, in_concat. exists group. split; [|by apply list_elem_of_In].
    apply list_elem_of_In. by eapply list_elem_of_lookup_2. }
  rewrite Hc in Hin. apply elem_of_seq in Hin. lia.
Qed.

Lemma build_branch_layer_ok s D cs groups level root :
  durable_ok s -> sound s D -> Forall (child_ok s D) cs -> Forall (fun c => (ic_level c < level)%N) cs ->
  (weight cs <= USIZE_MAX)%N -> concat groups = seq 0 (length cs) ->
  post (fun s' => durable_ok s' /\ grows s s')
    (fun r s' => layer_built s D cs level s' r.2 r.1 (seq 0 (length cs)) (length groups))
    (build_branch_layer policy spec size_target cs groups level root D s).
Proof.
  intros Hok Hsound Hcs Hlevel Hw Hgroups. unfold build_branch_layer. rewrite <-Hgroups.
  eapply post_weaken; [apply (post_fold _ (fun j r s' => layer_built s D cs level s' r.2 r.1 (concat (take j groups)) j) _ groups 0)|].
  - split; cbn; [by split|done|constructor|constructor|by intros c ?%elem_of_nil|auto|done].
  - intros j group [next D'] s' Hj HI. cbn [Nat.add fst snd] in HI |- *.
    eapply post_weaken; [eapply build_group_ok; [done|done|by eapply group_in_range| |exact HI]|].
    + pose proof (members_weight_le cs groups group j Hgroups Hj). lia.
    + cbn beta. intros r s'' HI'. rewrite (take_S_r _ _ _ Hj), concat_app. cbn [concat]. rewrite app_nil_r.
      rewrite Nat.add_1_r in HI'. exact HI'.
  - cbn beta. intros r s' HI. cbn [Nat.add] in HI. by rewrite firstn_all in HI.
Qed.

(** ** Layer upon layer *)
Record assembled (s0 : S) D0 cs (limit : N) (s : S) (top : IndexedChild) D : Prop := {
  as_built : built s0 D0 s D;
  as_child : child_ok s D top;
  as_reach : forall c, c ∈ cs -> rtc (links s) (ic_child top) (ic_child c);
  as_new : forall id, id ∈ D -> id ∈ D0 \/ rtc (links s) (ic_child top) id;
  as_level : (ic_level top < limit)%N;
  as_weight : (ic_descendant_count top <= weight cs)%N
}.

Lemma assembled_layer s0 D0 cs limit level s D next groups : (level < limit)%N ->
  layer_built s0 D0 cs level s D next (seq 0 (length cs)) groups -> forall s' top D' limit',
  assembled s D (normalize_current_layer next) limit' s' top D' -> (limit' <= limit)%N ->
  assembled s0 D0 cs limit s' top D'.
Proof.
  intros Hlt [Hb Hn Hc Hl Hr Hnew Hw] s' top D' limit' [Hb' Hc' Hr' Hn' Hl' Hw'] Hle. rewrite members_all in *.
  assert (forall p, p ∈ next -> rtc (links s') (ic_child top) (ic_child p)) as Hreach.
  { intros p Hp. apply normalize_layer_covers in Hp. apply list_elem_of_fmap in Hp as (q & -> & Hq). by apply Hr'. }
  split; [by eapply built_trans|done| | |lia|].
  - intros c Hcin. destruct (Hr c Hcin) as (p & Hp & Hpr). etrans; [by apply Hreach|].
    eapply reaches_grows; [|done]. apply Hb'.
  - intros id Hid. destruct (Hn' id Hid) as [Hid'|]; [|by right]. destruct (Hnew id Hid') as [|Hin]; [by left|right].
    apply list_elem_of_fmap in Hin as (p & -> & Hp). by apply Hreach.
  - pose proof (sum_n_submseteq _ _ (map_submseteq ic_descendant_count _ _ (normalize_layer_submseteq next))). lia.
Qed.

Lemma max_level_in c cs : c ∈ cs -> (ic_level c <= max_level cs)%N.
Proof. intros Hc. pose proof (proj1 (max_level_le cs _) (N.le_refl _)) as Hall. rewrite Forall_forall in Hall. auto. Qed.

Lemma assemble_layers_ok limit root fuel : forall cs s D, cs <> [] -> (length cs <= Datatypes.S fuel)%nat ->
  durable_ok s -> sound s D -> Forall (child_ok s D) cs ->
  (max_level cs + len cs <= limit)%N -> (limit <= U64_MAX)%N -> (weight cs <= USIZE_MAX)%N ->
  post (fun s' => durable_ok s' /\ grows s s') (fun r s' => assembled s D cs limit s' r.1 r.2)
    (assemble_layers policy spec size_target bound fuel root cs D s).
Proof.
  induction fuel as [|fuel IH]; intros cs s D Hne Hlen Hok Hsound Hcs Hlimit Hmax Hw.
  all: destruct cs as [|c1 [|c2 rest]]; [done| |try (cbn in Hlen; lia)]; cbn [assemble_layers].
  1,2: split; cbn; [by split|by inversion Hcs|by intros c ->%list_elem_of_singleton|auto| |lia];
       unfold max_level, len in Hlimit; cbn in Hlimit; lia.
  set (cs := c1 :: c2 :: rest) in *. eapply post_step; [done| |].
  { apply returns_ok; [apply map_err_no_panic, balanced_groups_no_panic|]. intros groups Hg%map_err_ok. exact (balanced_groups_ok _ _ _ Hg). }
  intros groups Hdiv. assert (2 <= length cs)%nat as Htwo by (cbn; lia).
  destruct (divided_fewer _ _ _ Hdiv Htwo) as [Hfew _].
  eapply (post_step _ (fun level => level = max_level cs + 1)%N); [done| |].
  { unfold checked_add. rewrite (proj2 (N.leb_le _ _)); [done|]. unfold len in Hlimit. lia. }
  intros level ->. eapply post_bind.
  { apply build_branch_layer_ok; [done|done|done| |done|apply Hdiv].
    apply Forall_forall. intros c Hc%max_level_in. lia. }
  intros [next D'] s' HL. cbn [fst snd] in HL. pose proof (lb_count _ _ _ _ _ _ _ _ _ HL) as Hcount.
  pose proof (normalize_layer_submseteq next) as Hsub. pose proof (submseteq_length _ _ Hsub) as Hshort.
  pose proof (lb_built _ _ _ _ _ _ _ _ _ HL) as Hb.
  assert (normalize_current_layer next <> []) as Hnne.
  { destruct next as [|p next]; [cbn in Hcount; lia|]. pose proof (normalize_layer_covers (p :: next) p ltac:(by left)) as Hp.
    intros Hnil. rewrite Hnil in Hp. by apply elem_of_nil in Hp. }
  eapply post_mono; [apply IH|..].
  - done.
  - lia.
  - apply Hb.
  - apply Hb.
  - apply Forall_forall. intros c Hc. pose proof (lb_children _ _ _ _ _ _ _ _ _ HL) as Hall. rewrite Forall_forall in Hall.
    apply Hall. by eapply elem_of_submseteq.
  - assert (max_level (normalize_current_layer next) <= max_level cs + 1)%N.
    { apply max_level_le, Forall_forall. intros c Hc. pose proof (lb_level _ _ _ _ _ _ _ _ _ HL) as Hall.
      rewrite Forall_forall in Hall. rewrite (Hall c); [done|by eapply elem_of_submseteq]. }
    unfold len in *. lia.
  - done.
  - pose proof (sum_n_submseteq _ _ (map_submseteq ic_descendant_count _ _ Hsub)).
    pose proof (lb_weight _ _ _ _ _ _ _ _ _ HL) as Hlw. rewrite members_all in Hlw. lia.
  - intros s'' [Hok'' Hg]. split; [done|]. etrans; [apply Hb|done].
  - intros [top D''] s'' Has. eapply assembled_layer; [|exact HL|exact Has|done]. unfold len in Hlimit. lia.
Qed.

Lemma assemble_child_set_ok limit root cs s D : durable_ok s -> sound s D -> Forall (child_ok s D) cs ->
  (max_level cs + len cs <= limit)%N -> (limit <= U64_MAX)%N -> (weight cs <= USIZE_MAX)%N ->
  post (fun s' => durable_ok s' /\ grows s s') (fun r s' => assembled s D cs limit s' r.1 r.2)
    (assemble_child_set policy spec size_target bound cs root D s).
Proof.
  intros Hok Hsound Hcs Hlimit Hmax Hw. unfold assemble_child_set. pose proof (normalize_layer_submseteq cs) as Hsub.
  pose proof (submseteq_length _ _ Hsub) as Hshort.
  destruct (bool_decide_reflect (length (normalize_current_layer cs) = 0%nat)) as [|Hne]; [done|].
  eapply post_mono; [apply assemble_layers_ok|..].
  - by intros Hnil; rewrite Hnil in Hne.
  - lia.
  - done.
  - done.
  - apply Forall_forall. intros c Hc. rewrite Forall_forall in Hcs. apply Hcs. by eapply elem_of_submseteq.
  - assert (max_level (normalize_current_layer cs) <= max_level cs)%N.
    { apply max_level_le, Forall_forall. intros c Hc. apply max_level_in. by eapply elem_of_submseteq. }
    instantiate (1 := limit). unfold len in *. lia.
  - done.
  - pose proof (sum_n_submseteq _ _ (map_submseteq ic_descendant_count _ _ Hsub)). lia.
  - done.
  - intros [top D'] s' [Hb Hc Hr Hn Hl Hw']. split; [done|done| |done|done|].
    + intros c Hcin. apply normalize_layer_covers in Hcin. apply list_elem_of_fmap in Hcin as (q & -> & Hq). by apply Hr.
    + pose proof (sum_n_submseteq _ _ (map_submseteq ic_descendant_count _ _ Hsub)). lia.
Qed.

(** ** The tree of partitions *)
Section tree.
Context (m : part_map) (Hm : forall id p, m !! id = Some p -> partition_id p = id).
Context (materialized : gmap string IndexedChild).

(** What a partition of [count] items may carry. *)
Definition fits (count : N) (c : IndexedChild) : Prop := (ic_level c < count)%N /\ (ic_descendant_count c <= count)%N.

Definition leaf_ready (s : S) D (p : FinalizedPartition) : Prop :=
  exists c, materialized !! partition_id p = Some c /\ child_ok s D c /\ fits (len (item_indices p)) c.

Record planted (s0 : S) D0 (t : ptree) (s : S) D (c : IndexedChild) : Prop := {
  pl_built : built s0 D0 s D;
  pl_child : child_ok s D c;
  pl_reach : forall p c', p ∈ t_leaves t -> materialized !! partition_id p = Some c' ->
    rtc (links s) (ic_child c) (ic_child c');
  pl_new : forall id, id ∈ D -> id ∈ D0 \/ rtc (links s) (ic_child c) id;
  pl_fits : fits (len (t_items t)) c
}.

Lemma leaf_ready_grows s s' D D' p : grows s s' -> D ⊆ D' -> leaf_ready s D p -> leaf_ready s' D' p.
Proof. intros Hg HD (c & Hc & Hok & Hf). exists c. split_and!; [done|by eapply child_ok_grows|done]. Qed.

(** The children of a partition, one after the other. *)
Record forest_planted (s0 : S) D0 (ts : list ptree) (s : S) D (cs : list IndexedChild) : Prop := {
  fp_built : built s0 D0 s D;
  fp_children : Forall (child_ok s D) cs;
  fp_reach : forall t p c', t ∈ ts -> p ∈ t_leaves t -> materialized !! partition_id p = Some c' ->
    exists c, c ∈ cs /\ rtc (links s) (ic_child c) (ic_child c');
  fp_new : forall id, id ∈ D -> id ∈ D0 \/ exists c, c ∈ cs /\ rtc (links s) (ic_child c) id;
  fp_fits : Forall2 (fun t c => fits (len (t_items t)) c) ts cs
}.

Lemma forest_snoc s0 D0 ts s D cs t s' D' c :
  forest_planted s0 D0 ts s D cs -> planted s D t s' D' c -> forest_planted s0 D0 (ts ++ [t]) s' D' (cs ++ [c]).
Proof.
  intros [Hb Hc Hr Hn Hf] [Hb' Hc' Hr' Hn' Hf']. pose proof (built_grows _ _ _ _ Hb') as Hg.
  assert (forall c0 id, c0 ∈ cs -> rtc (links s) (ic_child c0) id -> exists e, e ∈ cs ++ [c] /\ rtc (links s') (ic_child e) id) as Hold.
  { intros c0 id Hin Hreach. exists c0. split; [set_solver|by eapply reaches_grows]. }
  split.
  - by eapply built_trans.
  - apply Forall_app. split; [|by apply Forall_singleton]. eapply Forall_impl; [exact Hc|]. intros c0.
    apply child_ok_grows; [done|apply Hb'].
  - intros t0 p c' [Ht|Ht%list_elem_of_singleton]%elem_of_app Hp Hmat.
    + destruct (Hr t0 p c' Ht Hp Hmat) as (c0 & Hin & Hreach). by eapply Hold.
    + subst t0. exists c. split; [set_solver|by eapply Hr'].
  - intros id Hid. destruct (Hn' id Hid) as [Hid'|Hreach].
    + destruct (Hn id Hid') as [|(c0 & Hin & Hreach)]; [by left|right]. by eapply Hold.
    + right. exists c. split; [set_solver|done].
  - apply Forall2_app; [done|]. by constructor; [|constructor].
Qed.

(** Levels and counts add up below the items. *)
Lemma forest_limits ts cs : Forall2 (fun t c => fits (len (t_items t)) c) ts cs ->
  (max_level cs + len cs <= len (concat (map t_items ts)))%N /\ (weight cs <= len (concat (map t_items ts)))%N.
Proof.
  unfold max_level, len, fits. induction 1 as [|t c ts cs [Hl Hw] _ [IHl IHw]]; cbn [map foldr length concat sum_n]; [lia|].
  unfold len in *. rewrite length_app. lia.
Qed.

Lemma materialize_ok t : forall id fuel s D is_root, tree_of m id t -> (t_height t <= fuel)%nat ->
  durable_ok s -> sound s D -> (forall p, p ∈ t_leaves t -> leaf_ready s D p) -> (len (t_items t) <= U64_MAX)%N ->
  post (fun s' => durable_ok s' /\ grows s s') (fun r s' => planted s D t s' r.2 r.1)
    (materialize_partition_from_terminal_children policy spec size_target bound fuel m materialized is_root D id s).
Proof.
  induction t as [p ts IH] using ptree_nested_ind. intros id fuel s D is_root Ht Hheight Hok Hsound Hready Hsize.
  cbn [t_height] in Hheight. destruct fuel as [|fuel]; [lia|]. cbn [materialize_partition_from_terminal_children].
  inversion Ht as [? ? Hp Htp|? ? ? Hp Htp Hts _]; subst; pose proof (Hm _ _ Hp) as Hid.
  - eapply (post_step _ (fun q => q = p)); [done|by rewrite Hp|]. intros q ->. rewrite Htp.
    destruct (Hready p) as (c & Hc & Hcok & Hf); [cbn; rewrite Htp; by left|]. rewrite <-Hid, Hc. cbn.
    split; cbn [fst snd]; [by split|done| |auto|].
    + intros q c' Hq Hc'. cbn in Hq. rewrite Htp in Hq. apply list_elem_of_singleton in Hq as ->.
      rewrite Hc in Hc'. by injection Hc' as <-.
    + unfold t_items. cbn. rewrite Htp. cbn. by rewrite app_nil_r.
  - eapply (post_step _ (fun q => q = p)); [done|by rewrite Hp|]. intros q ->. rewrite Htp.
    rewrite (t_items_node p ts Htp) in Hsize.
    assert (forall t p, t ∈ ts -> p ∈ t_leaves t -> leaf_ready s D p) as Hleaves.
    { intros t q Hin Hq. apply Hready. cbn. rewrite Htp. apply list_elem_of_In, in_concat. exists (t_leaves t).
      split; [apply in_map; by apply list_elem_of_In|by apply list_elem_of_In]. }
    eapply post_bind.
    { eapply (post_fold _ (fun j r s' => forest_planted s D (take j ts) s' r.2 r.1) _ (child_ids p) 0).
      - split; cbn; [by split|done|by intros t q c' ?%elem_of_nil|auto|constructor].
      - intros j cid [cs D'] s' Hj HI. cbn [fst snd Nat.add] in HI |- *.
        destruct (Forall2_lookup_l _ _ _ _ _ Hts Hj) as (t & Htj & Htree).
        pose proof (list_elem_of_lookup_2 _ _ _ Htj) as Htin.
        pose proof (fp_built _ _ _ _ _ _ HI) as Hb.
        eapply post_bind.
        + rewrite Forall_forall in IH. eapply post_mono; [apply (IH t Htin cid fuel s' D' false)|..].
          * done.
          * assert (t_height t <= foldr Nat.max 0 (map t_height ts))%nat; [|lia]. clear -Htin.
            induction ts as [|u ts IHts]; [by apply elem_of_nil in Htin|]. apply elem_of_cons in Htin as [->|Htin]; cbn; [lia|].
            specialize (IHts Htin). lia.
          * apply Hb.
          * apply Hb.
          * intros q Hq. eapply leaf_ready_grows; [apply Hb|apply Hb|]. by eapply Hleaves.
          * rewrite <-(take_drop_middle _ _ _ Htj), map_app, concat_app in Hsize. cbn in Hsize. unfold len in *.
            rewrite !length_app in Hsize. lia.
          * intros s'' [Hok'' Hg]. split; [exact Hok''|]. etrans; [apply Hb|exact Hg].
          * intros r s'' HP. exact HP.
        + intros [c D''] s'' HP. cbn [fst snd] in HP. cbn. rewrite (take_S_r _ _ _ Htj). by eapply forest_snoc. }
    intros [cs D'] s' HF. cbn [fst snd Nat.add] in HF. rewrite firstn_all2 in HF by (rewrite (Forall2_length _ _ _ Hts); lia).
    destruct HF as [Hb Hc Hr Hn Hf]. destruct (forest_limits _ _ Hf) as [Hlev Hwt].
    eapply post_mono; [apply assemble_child_set_ok; [apply Hb|apply Hb|done|exact Hlev|done|]|..].
    + unfold USIZE_MAX, U64_MAX in *. lia.
    + intros s'' [Hok'' Hg]. split; [done|]. etrans; [apply Hb|done].
    + intros [top D''] s'' [Hb' Hc' Hr' Hn' Hl' Hw']. cbn [fst snd]. split.
      * by eapply built_trans.
      * done.
      * intros q c' Hq Hc''. cbn in Hq. rewrite Htp in Hq. apply list_elem_of_In, in_concat in Hq as (l & Hl & Hq).
        apply in_map_iff in Hl as (t & <- & Htin). apply list_elem_of_In in Htin, Hq.
        destruct (Hr t q c' Htin Hq Hc'') as (c & Hcin & Hreach). etrans; [by apply Hr'|].
        eapply reaches_grows; [apply Hb'|done].
      * intros i Hi. destruct (Hn' i Hi) as [Hi'|]; [|by right]. destruct (Hn i Hi') as [|(c & Hcin & Hreach)]; [by left|right].
        etrans; [by apply Hr'|]. eapply reaches_grows; [apply Hb'|done].
      * rewrite (t_items_node p ts Htp). cbn [fst snd] in Hl', Hw'. split; [done|]. by etrans.
Qed.
End tree.
End assembly.
