(* ===== verification/SpillCorrect.v ===== *)
(** * The indexer: sizes and groups

    The bound on the children of a branch is where the size target is crossed, and
    the groups of a layer are a division into as few groups as the bound allows.

    Then: spill files: the properties. *)
From S2P Require Import Prelude Ordering Hash Cbor Fields Ieee Ebcp EbcpCorrect BlockV1 BlockV1Correct Store StoreCorrect IndexTypes IndexHierarchy IndexHierarchyCorrect IndexLayer Indexer IndexerFacts.

(** ** The size of a branch *)

(** A value, and what holds of it; an error only under [Pe]; no panic. *)
Definition succeeds {E A} (Pe : Prop) (P : A -> Prop) (m : result E A) : Prop :=
  match m with Ok a => P a | Err _ => Pe | Panic => False end.

Section size.
Context `{CborCodec} `{!CborLayout} `{Sha256}.

Lemma concat_length_elem {A B} (f : A -> list B) l x : x ∈ l -> (length (f x) <= length (concat (map f l)))%nat.
Proof.
  induction l as [|y l IH]; [by intros ?%elem_of_nil|]. cbn. rewrite length_app.
  intros [->|Hx]%elem_of_cons; [lia|]. specialize (IH Hx). lia.
Qed.

Lemma concat_length_each {A B} (f : A -> list B) l : (forall x, f x <> []) -> (length l <= length (concat (map f l)))%nat.
Proof.
  intros Hf. induction l as [|x l IH]; cbn; [done|]. rewrite length_app. specialize (Hf x).
  destruct (f x); [done|]. cbn. lia.
Qed.

(** An array in a map is written with a byte and more for each of its elements. *)
Lemma array_in_map es k vs : (k, VArray vs) ∈ es -> (len vs < len (into_writer (VMap es)))%N.
Proof.
  intros Hin. destruct (write_map es) as (h & Hh & ->). destruct (write_array vs) as (g & Hg & Ha).
  pose proof (concat_length_elem (fun e => into_writer e.1 ++ into_writer e.2) es _ Hin) as Hl. cbn [fst snd] in Hl.
  rewrite Ha, !length_app in Hl. pose proof (concat_length_each into_writer vs write_nonempty) as He.
  unfold len. rewrite length_app. destruct h; [done|]. cbn. lia.
Qed.

Lemma branch_block_size b v : block_to_value (Branch b) = Ok v -> (len (branch_entries b) < len (into_writer v))%N.
Proof.
  unfold block_to_value. rewrite canonicalize_map_eq. intros Hv. inv_ok. apply sort_map_entries_ok in Hv as [-> _].
  apply collect_map_ok in Hok. set (es := int_entries (block_entries (Branch b))) in *.
  assert (exists k, (k, VArray (map branch_entry_to_value (branch_entries b))) ∈ es) as (k & Hk).
  { eexists. unfold es, int_entries, block_entries. cbn. do 3 right. left. }
  apply list_elem_of_lookup in Hk as (i & Hi). destruct (Forall2_lookup_l _ _ _ _ _ Hok Hi) as ([k' w] & Hw & Hc).
  apply canonicalize_entry_ok in Hc as [_ Hc]. cbn in Hc. inv_ok. subst w.
  pose proof (collect_map_length _ _ _ Hc) as Hl. rewrite length_map in Hl. unfold len at 1. rewrite <-Hl. apply (array_in_map _ k').
  rewrite sort_by_Permutation. by eapply list_elem_of_lookup_2.
Qed.

Lemma normalize_branch_fields b nb : normalize_block (Branch b) = Ok nb ->
  exists b', nb = Branch b' /\ length (branch_entries b') = length (branch_entries b).
Proof.
  cbn. intros Hn. inv_ok. subst nb. eexists. split; [done|]. unfold normalize_branch in Hn. inv_ok. subst. cbn.
  match goal with Hs : sort_branch_entries _ = Ok _ |- _ => apply sort_branch_entries_ok in Hs as [-> _] end.
  by rewrite sort_by_Permutation.
Qed.

Lemma expected_plain spec l : expected_embedding_len spec = Some l ->
  is_plain_encoding (encoding spec) = true /\ is_ebcp_encoding (encoding spec) = false.
Proof.
  unfold expected_embedding_len. destruct (usize_try_from _); [|done]. cbn.
  repeat match goal with |- context [String.eqb (encoding spec) ?e] => destruct (String.eqb_spec (encoding spec) e) as [->|_]; [done|] end.
  done.
Qed.

Lemma synthetic_inj i j : (i < 2 ^ 64)%N -> (j < 2 ^ 64)%N -> synthetic_block_hash i = synthetic_block_hash j -> i = j.
Proof.
  intros Hi Hj Heq. apply (f_equal as_bytes) in Heq. cbn [as_bytes synthetic_block_hash] in Heq. apply app_inj_1 in Heq as [Heq _];
    [|by rewrite !le_split_length].
  apply (f_equal le_combine) in Heq. rewrite !le_combine_split, !N.mod_small in Heq by (cbn; lia). done.
Qed.

(** A branch takes more bytes than it has children. *)
Lemma branch_size_above spec n size : serialized_branch_size spec n = Ok size -> (n < size)%N.
Proof.
  unfold serialized_branch_size, build_branch_block, serialize_block. intros Hs. inv_ok.
  apply map_err_ok in Hok0, Hok1. inv_ok.
  destruct (normalize_branch_fields _ _ Hok4) as (b & -> & Hlen). injection Hok0 as <-.
  destruct (normalize_branch_fields _ _ Hok2) as (b' & -> & Hlen'). apply branch_block_size in Hok3 as Hsize.
  subst. cbn [ser_bytes branch_entries] in *. revert Hsize. unfold len at 1. rewrite Hlen', Hlen, length_map, length_seq. lia.
Qed.

(** Under a supported encoding the branch of any number of children can be measured. *)
Lemma branch_measured `{!CborLaws} spec l n : expected_embedding_len spec = Some l -> (n <= USIZE_MAX)%N ->
  exists size, serialized_branch_size spec n = Ok size.
Proof.
  intros Hl Hn. unfold serialized_branch_size. rewrite Hl. cbn [ok_or rbind].
  set (entries := map _ (seq 0 (N.to_nat n))). destruct (expected_plain spec l Hl) as [Hp He].
  assert (is_ok (normalize_block (Branch {| branch_version := VERSION_1; branch_level := 1; branch_spec := spec;
    branch_entries := entries; branch_ext := None |})) = true) as Hok.
  { apply branch_accepted_iff. cbn [branch_version branch_level branch_spec branch_entries branch_ext].
    split_and!; [done|done|by rewrite Hp| |exists None; split; [done|]].
    - unfold entries. apply NoDup_fmap_2_strong; [|apply NoDup_seq].
      intros i j Hi%elem_of_seq Hj%elem_of_seq Hij. apply (f_equal child) in Hij. cbn [child] in Hij.
      unfold USIZE_MAX in Hn. apply synthetic_inj in Hij; lia.
    - unfold validate_branch_ebcp. by rewrite He. }
  apply is_ok_exists in Hok as [nb Hnb]. unfold build_branch_block. rewrite Hnb. cbn [rbind].
  destruct (normalize_branch_fields _ _ Hnb) as (b & -> & _). cbn [map_err rbind].
  pose proof (normalize_block_normal _ _ Hnb) as Hnn. unfold serialize_block. rewrite (normalize_block_id _ Hnn). cbn [rbind].
  destruct (block_to_value_ok _ Hnn) as [v Hv]. rewrite Hv. by eexists.
Qed.
End size.

(** ** The bound *)
Section bound.
Context `{CborCodec} `{!CborLayout} `{Sha256}.
Context (spec : EmbeddingSpec) (size_target : N) (target_usize : (size_target <= USIZE_MAX)%N).
Context (Pe : Prop) (unmeasured : forall n e, (n <= USIZE_MAX)%N -> serialized_branch_size spec n = Err e -> Pe).

Lemma serialized_branch_size_no_panic n : no_panic (serialized_branch_size spec n).
Proof.
  unfold serialized_branch_size. cbv zeta. np; apply map_err_no_panic; [apply build_branch_block_no_panic|apply serialize_block_no_panic].
Qed.

(** A branch of [n] children fits, or is measured and does not. *)
Definition branch_fits (n : N) : Prop := exists size, serialized_branch_size spec n = Ok size /\ (size <= size_target)%N.
Definition branch_overflows (n : N) : Prop := exists size, serialized_branch_size spec n = Ok size /\ (size_target < size)%N.

(** What fits has fewer children than the greatest [usize]. *)
Lemma fits_below n : branch_fits n -> (n < USIZE_MAX)%N.
Proof. intros (size & Hs & Hle). apply branch_size_above in Hs. lia. Qed.

Lemma measure_step {A} (P : A -> Prop) n (yes no : result string A) : (n <= USIZE_MAX)%N ->
  (branch_fits n -> succeeds Pe P yes) -> (branch_overflows n -> succeeds Pe P no) ->
  succeeds Pe P (let? size := serialized_branch_size spec n in if (size <=? size_target)%N then yes else no).
Proof.
  intros Hn Hyes Hno. pose proof (serialized_branch_size_no_panic n) as Hnp.
  destruct (serialized_branch_size spec n) as [size|e|] eqn:E; [|by eapply unmeasured|done]. cbn [rbind].
  destruct (N.leb_spec size size_target); [apply Hyes|apply Hno]; exists size; split; [done..|lia].
Qed.

(** Where the bound is looked for: between what fits and what does not. *)
Definition crossing (low high : N) : Prop := branch_fits low /\ branch_overflows high /\ (2 <= low < high)%N /\ (high <= USIZE_MAX)%N.

(** The powers of two up to [usize::MAX]. *)
Definition power (k : nat) : N := N.min USIZE_MAX (2 ^ N.of_nat k).
Lemma power_small k : (k < 64)%nat -> power k = (2 ^ N.of_nat k)%N /\ (2 ^ N.of_nat k <= 2 ^ 63)%N.
Proof.
  intros Hk. assert (2 ^ N.of_nat k <= 2 ^ 63)%N by (apply N.pow_le_mono_r; lia). unfold power, USIZE_MAX. split; [|done].
  apply N.min_r. transitivity (2 ^ 63)%N; [done|]. vm_compute. discriminate.
Qed.

Lemma double_bound_ok rounds : forall k, (rounds + k = 66)%nat -> (1 <= k <= 64)%nat -> branch_fits (power k) ->
  succeeds Pe (fun r => crossing r.1 r.2) (double_bound spec size_target rounds (power k) (power k)).
Proof.
  induction rounds as [|rounds IH]; intros k Hk Hrange Hfit; [lia|]. cbn [double_bound].
  assert (2 <= power k)%N as Htwo.
  { unfold power. apply N.min_glb; [vm_compute; discriminate|]. transitivity (2 ^ 1)%N; [done|]. apply N.pow_le_mono_r; lia. }
  assert (power k <= USIZE_MAX)%N as Hmax by (unfold power; lia).
  destruct (decide (k = 64)%nat) as [->|Hne].
  - exfalso. pose proof (fits_below _ Hfit) as Hlt. by apply N.lt_irrefl in Hlt.
  - assert (saturating_mul USIZE_MAX (power k) 2 = power (S k)) as ->.
    { unfold saturating_mul. destruct (power_small k ltac:(lia)) as [-> _]. unfold power.
      by rewrite Nat2N.inj_succ, N.pow_succ_r', (N.mul_comm 2). }
    destruct (power_small k ltac:(lia)) as [Hp Hle]. assert (power k < power (S k))%N as Hlt.
    { unfold power at 2. rewrite Nat2N.inj_succ, N.pow_succ_r'. rewrite Hp. apply N.min_glb_lt; [|lia].
      eapply N.le_lt_trans; [exact Hle|]. by vm_compute. }
    assert (power (S k) <= USIZE_MAX)%N as Hmax' by (unfold power; lia).
    rewrite (proj2 (N.leb_gt _ _)) by done. apply measure_step; [done|..].
    + intros Hfit'. apply IH; [lia|lia|done].
    + intros Hover. by split_and!.
Qed.

Lemma bisect_bound_ok rounds : forall low high, crossing low high -> (high - low <= 2 ^ N.of_nat rounds)%N ->
  succeeds Pe (fun bound => branch_fits bound /\ (2 <= bound < USIZE_MAX)%N /\ branch_overflows (bound + 1))
    (bisect_bound spec size_target rounds low high).
Proof.
  assert (forall low high, crossing low high -> (high <= low + 1)%N ->
    branch_fits low /\ (2 <= low < USIZE_MAX)%N /\ branch_overflows (low + 1)) as Hend.
  { intros low high (Hf & Ho & Hlt & Hmax) Hle. split_and!; [done|lia|lia|]. by replace (low + 1)%N with high by lia. }
  induction rounds as [|rounds IH]; intros low high Hc Hdist; pose proof Hc as (Hf & Ho & Hlt & Hmax); cbn [bisect_bound];
    unfold checked_add; rewrite (proj2 (N.leb_le _ _)) by lia; cbn [expect rbind];
    (destruct (N.ltb_spec (low + 1) high) as [Hgap|Hge]; [|by eapply Hend]).
  - cbn in Hdist. lia.
  - pose proof (N.Div0.div_mod (high - low) 2) as Hdiv. pose proof (N.mod_upper_bound (high - low) 2 ltac:(lia)) as Hmod.
    rewrite Nat2N.inj_succ, N.pow_succ_r' in Hdist.
    set (q := ((high - low) / 2)%N) in *. set (m := ((high - low) mod 2)%N) in *. set (d := (2 ^ N.of_nat rounds)%N) in *.
    clearbody q m d. apply measure_step; [lia|..]; intros Hmid; apply IH; try lia; split_and!; try done; lia.
Qed.

(** The bound is found, unless a size cannot be measured or two children do not fit. *)
Lemma materializability_bound_cases :
  match materializability_bound spec size_target with
  | Ok bound => branch_fits 2 /\ branch_fits bound /\ (2 <= bound < USIZE_MAX)%N /\ branch_overflows (bound + 1)
  | Err _ => Pe \/ branch_overflows 2
  | Panic => False
  end.
Proof.
  unfold materializability_bound. pose proof (serialized_branch_size_no_panic 2) as Hnp.
  destruct (serialized_branch_size spec 2) as [size|e|] eqn:Hsize; [|left; by eapply unmeasured; [|exact Hsize]|done]. cbn [rbind].
  destruct (N.ltb_spec size_target size) as [Hover|Hle]; cbn [negb]; [by right; exists size|].
  assert (branch_fits 2) as Hfit by by exists size.
  pose proof (double_bound_ok 65 1 eq_refl ltac:(lia) Hfit) as Hd. change (power 1) with 2%N in Hd.
  destruct (double_bound spec size_target 65 2 2) as [[low high]| |]; [|by left|done]. cbn in Hd. cbn [rbind].
  pose proof (bisect_bound_ok 64 low high Hd) as Hb.
  assert (high - low <= 2 ^ N.of_nat 64)%N as Hdist by (destruct Hd as (_ & _ & _ & Hmax); transitivity USIZE_MAX; [lia|by vm_compute]).
  specialize (Hb Hdist). destruct (bisect_bound spec size_target 64 low high); [done|by left|done].
Qed.
End bound.

Lemma materializability_bound_no_panic `{CborCodec} `{!CborLayout} `{Sha256} spec size_target : (size_target <= USIZE_MAX)%N ->
  no_panic (materializability_bound spec size_target).
Proof.
  intros Ht. pose proof (materializability_bound_cases spec size_target Ht True (fun _ _ _ _ => I)) as Hc.
  by destruct (materializability_bound spec size_target).
Qed.

(** ** Properties *)

(** C33 For a size target that is a usize, the materializability bound is computed
    without a panic, and both of its loops end within their rounds. It fails exactly
    when the embedding encoding is not supported or a branch of two children exceeds the
    size target. A bound it returns is at least 2, a branch of that many children
    serializes within the size target, and a branch of one child more exceeds it. *)
Theorem materializability_bound_exact `{CborLaws} `{!CborLayout} `{Sha256} spec size_target : (size_target <= USIZE_MAX)%N ->
  let fits n := exists size, serialized_branch_size spec n = Ok size /\ (size <= size_target)%N in
  let exceeds n := exists size, serialized_branch_size spec n = Ok size /\ (size_target < size)%N in
  match materializability_bound spec size_target with
  | Ok bound => expected_embedding_len spec <> None /\ ~ exceeds 2%N /\ (2 <= bound < USIZE_MAX)%N /\ fits bound /\ exceeds (bound + 1)%N
  | Err _ => expected_embedding_len spec = None \/ exceeds 2%N
  | Panic => False
  end.
Proof.
  intros Ht. cbv zeta.
  assert (forall n e, (n <= USIZE_MAX)%N -> serialized_branch_size spec n = Err e -> expected_embedding_len spec = None) as Hun.
  { intros n e Hn He. destruct (expected_embedding_len spec) as [l|] eqn:Hl; [|done].
    destruct (branch_measured spec l n Hl Hn) as [size Hs]. congruence. }
  pose proof (materializability_bound_cases spec size_target Ht _ Hun) as Hb.
  destruct (materializability_bound spec size_target) as [bound| |]; [|done..].
  destruct Hb as ((size & Hs & Hle) & Hf & Hr & Ho). split_and!; try done; try apply Hr.
  - intros Hl. unfold serialized_branch_size in Hs. by rewrite Hl in Hs.
  - intros (size' & Hs' & Hlt). rewrite Hs in Hs'. injection Hs' as <-. lia.
Qed.

(** The balanced groups of a layer of two or more children are consecutive, cover it
    in order, have between 2 and the bound members each and sizes that differ by at most
    one, and no division into groups of such sizes has fewer; it is refused exactly when
    there is no such division, and never panics. *)
Theorem balanced_groups_exact len bound (Hlen : (2 <= len)%nat) :
  let division gs := concat gs = seq 0 len /\ Forall (fun g : list nat => 2 <= length g <= bound)%nat gs in
  match balanced_groups len bound with
  | Ok groups => division groups
      /\ (exists size, Forall (fun g => size <= length g <= size + 1)%nat groups)
      /\ forall others, division others -> (length groups <= length others)%nat
  | Err _ => forall others, ~ division others
  | Panic => False
  end.
Proof.
  cbv zeta. assert (forall gs : list (list nat), concat gs = seq 0 len -> Forall (fun g => 2 <= length g <= bound)%nat gs ->
    (2 * length gs <= len <= length gs * bound)%nat) as Hcount.
  { intros gs Hc Hs. pose proof (f_equal length Hc) as Hl. rewrite length_seq in Hl. rewrite <-Hl. clear Hc Hl.
    induction Hs as [|g gs Hg _ IH]; cbn; [lia|]. rewrite length_app. lia. }
  pose proof (balanced_groups_no_panic len bound) as Hp.
  destruct (balanced_groups len bound) as [groups|e|] eqn:E; [|clear Hp|done].
  - pose proof (balanced_groups_ok _ _ _ E) as [Hc Hs He Hn]. split; [split; [done|by apply Hs]|]. split; [done|].
    intros others [Hoc Hos]. specialize (Hcount others Hoc Hos). rewrite Hn.
    assert (bound <> 0)%nat as Hb0 by (intros ->; lia).
    pose proof (div_ceil_spec len bound ltac:(lia)). nia.
  - intros others [Hoc Hos]. specialize (Hcount others Hoc Hos). unfold balanced_groups in E. cbv zeta in E.
    rewrite (proj2 (Nat.eqb_neq len 0)) in E by lia. cbn [negb] in E.
    destruct (Nat.eqb_spec bound 0) as [->|Hb0]; [lia|]. cbn [negb] in E.
    rewrite (proj2 (Nat.eqb_neq len 1)) in E by lia. destruct (len <=? bound)%nat; [done|].
    destruct (Nat.ltb_spec (len / 2) (div_ceil len bound)) as [Hlt|]; [|done].
    pose proof (div_ceil_spec len bound ltac:(lia)). pose proof (Nat.div_mod_eq len 2).
    pose proof (Nat.mod_upper_bound len 2 ltac:(lia)). nia.
Qed.

Lemma balanced_groups_exact_witness : exists groups, balanced_groups 7 3 = Ok groups /\ map (@length nat) groups = [3; 2; 2]%nat
  /\ concat groups = seq 0 7.
Proof. pose proof (balanced_groups_exact 7 3 ltac:(lia)) as H. vm_compute in H. eexists. split; [reflexivity|]. split; [reflexivity|apply H]. Defined.

(** ** Spill files: the properties

    What was appended to the file of a partition reads back in order, unless the
    operating system fails; nothing panics. *)

(** ** Records *)

(** What the format can carry. *)
Definition storable (c : IndexedChild) : Prop :=
  (len (ic_embedding c) <= U32_MAX)%N /\ (ic_level c <= U64_MAX)%N /\ (ic_descendant_count c <= U64_MAX)%N.

Definition child_bytes (c : IndexedChild) : bytes :=
  le_split 4 (len (ic_embedding c)) ++ ic_embedding c ++ as_bytes (ic_child c)
  ++ le_split 8 (ic_level c) ++ le_split 8 (ic_descendant_count c).

Lemma child_bytes_length c : (4 <= length (child_bytes c))%nat.
Proof. unfold child_bytes. rewrite !length_app, le_split_length. lia. Qed.

Lemma le_round k n : (n < 256 ^ N.of_nat k)%N -> le_combine (le_split k n) = n.
Proof. intros Hn. by rewrite le_combine_split, N.mod_small. Qed.

Section records.
Context `{LocalIo}.

(** Reading what is at the front of the file. *)
Lemma read_exact_ok partition count front rest pos : length front = count ->
  read_exact partition count {| unread := front ++ rest; read_count := pos |}
    = Ok (front, {| unread := rest; read_count := pos + count |})
  \/ exists message, read_exact partition count {| unread := front ++ rest; read_count := pos |} = Err (OtherIo message).
Proof.
  intros Hl. unfold read_exact. cbn [unread read_count]. destruct (Nat.eqb_spec count 0) as [->|Hne].
  - left. apply nil_length_inv in Hl as ->. by rewrite Nat.add_0_r.
  - destruct (fault _) as [message|]; [right; by exists message|left].
    rewrite (proj2 (Nat.leb_le _ _)) by (rewrite length_app; lia). by rewrite <-Hl, take_app_length, drop_app_length.
Qed.

Lemma read_exact_step {B} (Q : B -> Prop) partition count front rest pos k : length front = count ->
  spilled Q (k (front, {| unread := rest; read_count := pos + count |})) ->
  spilled Q (rbind (map_err spill_error (read_exact partition count {| unread := front ++ rest; read_count := pos |})) k).
Proof. intros Hl Hk. destruct (read_exact_ok partition count front rest pos Hl) as [->|[message ->]]; [exact Hk|done]. Qed.

Lemma read_child_ok partition c rest pos : storable c ->
  spilled (fun o => exists pos', o = Some (c, {| unread := rest; read_count := pos' |}))
    (read_spilled_indexed_child partition {| unread := child_bytes c ++ rest; read_count := pos |}).
Proof.
  intros (Hemb & Hlevel & Hcount). unfold read_spilled_indexed_child, child_bytes. rewrite <-!app_assoc.
  unfold U32_MAX, U64_MAX in *.
  destruct (read_exact_ok partition 4 (le_split 4 (len (ic_embedding c)))
    (ic_embedding c ++ as_bytes (ic_child c) ++ le_split 8 (ic_level c) ++ le_split 8 (ic_descendant_count c) ++ rest) pos
    (le_split_length _ _)) as [->|[message ->]]; [|done].
  rewrite le_round by (cbn; lia).
  apply read_exact_step; [unfold len; lia|]. apply read_exact_step; [apply Nat.eqb_eq, as_bytes_len|].
  apply read_exact_step; [apply le_split_length|]. apply read_exact_step; [apply le_split_length|].
  rewrite hash_of_as_bytes, !le_round by (cbn; lia). cbn. eexists. destruct c. reflexivity.
Qed.

Lemma read_children_ok partition cs : Forall storable cs -> forall fuel pos,
  (length (concat (map child_bytes cs)) < fuel)%nat ->
  spilled (eq cs) (read_children fuel partition {| unread := concat (map child_bytes cs); read_count := pos |}).
Proof.
  induction 1 as [|c cs Hc _ IH]; intros [|fuel] pos Hfuel; cbn [map concat read_children] in *; [cbn in Hfuel; lia| |lia|].
  - unfold read_spilled_indexed_child, read_exact. cbn. by destruct (fault _).
  - eapply spilled_bind; [by apply read_child_ok|]. intros o (pos' & ->).
    rewrite length_app in Hfuel. pose proof (child_bytes_length c).
    eapply spilled_bind; [apply (IH fuel pos'); lia|]. by intros ? <-.
Qed.

(** ** The directory *)

(** Each file holds a list of children; a file not opened yet is empty. *)
Definition file_holds (file : bytes) (cs : list IndexedChild) : Prop :=
  file = concat (map child_bytes cs) /\ Forall storable cs.
Definition represents (spill : PartitionSpillDirectory) (lists : list (list IndexedChild)) : Prop :=
  Forall2 file_holds (spill_files spill) lists
  /\ Forall2 (fun (opened : bool) cs => opened = false -> cs = []) (spill_writers spill) lists.

Lemma locals_ok {A} (op : A -> result StreamingIndexerError unit) l :
  (forall a, spilled (fun _ => True) (op a)) -> spilled (fun _ => True) (try_fold (fun _ a => op a) tt l).
Proof. intros Hop. induction l as [|a l IH]; [done|]. cbn. eapply spilled_bind; [apply Hop|]. by intros [] _. Qed.

Lemma new_spill_ok count : spilled (fun spill => represents spill (replicate count [])) (new_spill count).
Proof.
  unfold new_spill. apply spilled_local. eapply spilled_bind; [apply (locals_ok (fun i => local (SpillCreate i))); intros; apply local_ok|].
  intros _ _. cbn. split; cbn; induction count; cbn; constructor; done.
Qed.

Lemma append_ok spill lists k cs c : represents spill lists -> lists !! k = Some cs ->
  (ic_level c <= U64_MAX)%N -> (ic_descendant_count c <= U64_MAX)%N ->
  spilled (fun spill' => represents spill' (<[k := cs ++ [c]]> lists)) (append_leaf_child spill (N.of_nat k) c).
Proof.
  intros [Hf Hw] Hk Hl Hc. unfold append_leaf_child. rewrite Nat2N.id.
  destruct (Forall2_lookup_r _ _ _ _ _ Hf Hk) as (file & Hfile & Heq & Hst).
  destruct (Forall2_lookup_r _ _ _ _ _ Hw Hk) as (opened & Hopened & Hnew). rewrite Hopened, Hfile. cbn [ok_or rbind].
  eapply (spilled_bind (fun old => old = file)).
  { destruct opened; [done|]. apply spilled_local. cbn. rewrite (Hnew eq_refl) in Heq. by rewrite Heq. }
  intros old ->. unfold write_spilled_indexed_child. destruct (N.leb_spec (len (ic_embedding c)) U32_MAX); [|done].
  cbn [rbind]. apply spilled_local. cbn. split; cbn.
  - apply Forall2_insert; [done|]. split.
    + rewrite Heq, map_app, concat_app. cbn. by rewrite app_nil_r.
    + apply Forall_app. split; [done|]. apply Forall_singleton. by split_and!.
  - by apply Forall2_insert.
Qed.

Lemma finish_ok spill lists : represents spill lists ->
  spilled (fun spill' => Forall2 file_holds (spill_files spill') lists) (finish_spill spill).
Proof.
  intros [Hf _]. unfold finish_spill. eapply spilled_bind; [|by intros _ _; cbn].
  apply (locals_ok (fun p : nat * bool => if p.2 then local (SpillFlush p.1) else Ok tt)).
  intros [i []]; [apply local_ok|done].
Qed.

Lemma read_partition_ok spill lists k cs : Forall2 file_holds (spill_files spill) lists -> lists !! k = Some cs ->
  spilled (eq cs) (read_partition_children spill k).
Proof.
  intros Hf Hk. unfold read_partition_children.
  destruct (Forall2_lookup_r _ _ _ _ _ Hf Hk) as (file & Hfile & -> & Hst). rewrite Hfile. cbn [ok_or rbind].
  apply spilled_local. apply read_children_ok; [done|lia].
Qed.
End records.

(** ** Properties *)
Section properties.
Context `{LocalIo}.

(** The children appended to a partition, in order. *)
Definition appended_to (k : nat) (appends : list (nat * IndexedChild)) : list IndexedChild :=
  map snd (filter (fun p => p.1 = k) appends).

Lemma appends_ok appends : forall spill lists, represents spill lists ->
  Forall (fun p => (p.1 < length lists)%nat /\ (ic_level p.2 <= U64_MAX)%N /\ (ic_descendant_count p.2 <= U64_MAX)%N) appends ->
  spilled (fun spill' => represents spill' (imap (fun k cs => cs ++ appended_to k appends) lists))
    (try_fold (fun spill p => append_leaf_child spill (N.of_nat p.1) p.2) spill appends).
Proof.
  induction appends as [|[k c] appends IH]; intros spill lists Hr Hall; cbn [try_fold].
  - cbn. replace (imap _ lists) with lists; [done|]. apply list_eq. intros i. rewrite list_lookup_imap.
    destruct (lists !! i); cbn; [by rewrite app_nil_r|done].
  - apply Forall_cons in Hall as [(Hk & Hl & Hc) Hall]. cbn [fst snd] in *.
    destruct (lookup_lt_is_Some_2 _ _ Hk) as [cs Hcs].
    eapply spilled_bind; [by eapply append_ok|]. intros spill' Hr'.
    replace (imap (fun i xs => xs ++ appended_to i ((k, c) :: appends)) lists)
      with (imap (fun i xs => xs ++ appended_to i appends) (<[k := cs ++ [c]]> lists)).
    + apply IH; [done|]. by rewrite length_insert.
    + apply list_eq. intros i. rewrite !list_lookup_imap. unfold appended_to. rewrite filter_cons. cbn [fst].
      destruct (decide (i = k)) as [->|Hne].
      * rewrite list_lookup_insert_eq by done. rewrite Hcs, decide_True by done. cbn. by rewrite <-app_assoc.
      * rewrite list_lookup_insert_ne, decide_False by done. done.
Qed.

(** Whatever children are appended to whatever partitions of a new spill directory,
    in any interleaving, after the writers are finished each partition reads back
    exactly the children appended to it, in order, with their embeddings, identifiers,
    levels and counts; otherwise the failure is a local spill error, and nothing panics. *)
Theorem spill_roundtrip partition_count appends k :
  Forall (fun p => (p.1 < partition_count)%nat /\ (ic_level p.2 <= U64_MAX)%N
    /\ (ic_descendant_count p.2 <= U64_MAX)%N) appends -> (k < partition_count)%nat ->
  spilled (eq (appended_to k appends))
    (let? spill := new_spill partition_count in
     let? spill := try_fold (fun spill p => append_leaf_child spill (N.of_nat p.1) p.2) spill appends in
     let? spill := finish_spill spill in
     read_partition_children spill k).
Proof.
  intros Hall Hk. eapply spilled_bind; [apply new_spill_ok|]. intros s1 H1.
  eapply spilled_bind; [apply (appends_ok _ _ _ H1)|].
  { rewrite length_replicate. exact Hall. }
  intros s2 H2. eapply spilled_bind; [apply (finish_ok _ _ H2)|]. intros s3 H3.
  eapply read_partition_ok; [exact H3|]. rewrite list_lookup_imap, (lookup_replicate_2 _ _ _ Hk). done.
Qed.
End properties.
