(* ===== verification/IndexerCorrect.v ===== *)
(** * The indexer: replaying and finalizing

    On a durable store, whatever the collaborators answer without a panic, the
    replay compares every item with the baseline, writes its leaf and routes it to
    its partition, and what is assembled from the partitions reaches every leaf. *)
From S2P Require Import Prelude Ordering Hash Cbor Ieee Ebcp BlockV1 BlockV1Correct Store StoreCorrect IndexTypes IndexHierarchy IndexHierarchyCorrect IndexLayer BranchEncoding SpillCorrect Indexer IndexerFacts AssemblyCorrect.
From stdpp Require Import relations.

Section replaying.
Context {W R S : Type} `{ContentResolver W R} `{EmbeddingProvider W} `{DurableStore S} `{CborCodec} `{Sha256} `{LocalIo}.

(** Collaborators that do not panic. *)
Class CalmSources : Prop := {
  calm_resolve r w : (resolve r w).1 <> Panic;
  calm_fingerprint r w : (fingerprint r w).1 <> Panic;
  calm_embed inputs spec w : (embed_batch inputs spec w).1 <> Panic
}.
Context `{!CalmSources}.

Lemma resolve_items_ok (items : list (IndexItem R)) w :
  post (fun _ => True) (fun contents _ => length contents = length items) (icollect resolve_item items w).
Proof.
  eapply post_mono; [apply (post_collect (fun _ => True) (fun _ _ => True))|..]; [done| |done|].
  - intros item w' _ _. unfold resolve_item. eapply post_bind; [apply post_ask, calm_resolve|]. intros content w'' _.
    apply post_iret; [done|]. by destruct (negb _).
  - intros contents w' [_ Hf]. symmetry. by eapply Forall2_length.
Qed.

Lemma embed_contents_ok spec text contents w :
  post (fun _ => True) (fun embeddings _ => length embeddings = length contents) (embed_contents spec text contents w).
Proof.
  unfold embed_contents. eapply post_bind; [apply post_ask, calm_embed|]. intros embeddings w' _. apply post_iret; [done|].
  destruct (N.eqb_spec (len embeddings) (len contents)) as [He|]; [|done]. unfold len in He. cbn. lia.
Qed.

Lemma hash_metadata_no_panic m : no_panic (hash_metadata m).
Proof. unfold hash_metadata. np. apply map_err_no_panic. np. Qed.

Lemma replay_item_ok (item : IndexItem R) content embedding w :
  post (fun _ => True) (fun b _ => hash_metadata (item_metadata item) = Ok (metadata_hash b)
    /\ content_hash b = hash_content content /\ embedding_hash b = hash_bytes embedding) (replay_item item content embedding w).
Proof.
  unfold replay_item. eapply post_bind; [apply post_ask, calm_fingerprint|]. intros f w' _. apply post_iret; [done|].
  pose proof (hash_metadata_no_panic (item_metadata item)) as Hn.
  destruct (hash_metadata _) as [h| |] eqn:E; [|done|done]. by cbn.
Qed.

(** ** Leaves *)
Section replay.
Context (spec : EmbeddingSpec) (baseline : list BaselineItem) (plan : PartitionRoutingPlan).

(** The block of one item, held under an identifier. *)
Definition leaf_of (s : S) (item : BaselineItem) (id : BlockHash) : Prop :=
  exists embedding metadata content leaf,
    build_leaf_block VERSION_1 spec [{| leaf_embedding := embedding; metadata := metadata; content := content |}] None = Ok leaf
    /\ held s id (Leaf leaf) /\ hash_metadata metadata = Ok (metadata_hash item)
    /\ hash_content content = content_hash item /\ hash_bytes embedding = embedding_hash item.

Lemma leaf_of_grows s s' item id : grows s s' -> leaf_of s item id -> leaf_of s' item id.
Proof.
  intros Hg (e & m & c & leaf & Hb & Hh & Hrest). exists e, m, c, leaf. split_and!; [done|by eapply held_grows|apply Hrest..].
Qed.

(** The leaf of some item. *)
Definition item_leaf (s : S) (id : BlockHash) : Prop := exists item, item ∈ baseline /\ leaf_of s item id.

Lemma item_leaf_grows s s' id : grows s s' -> item_leaf s id -> item_leaf s' id.
Proof. intros Hg (item & Hi & Hl). exists item. split; [done|by eapply leaf_of_grows]. Qed.

Lemma leaf_at_level s item id : leaf_of s item id -> at_level s id 0.
Proof.
  intros (e & m & c & leaf & Hb & Hh & _). exists (Leaf leaf). split; [done|]. by apply build_leaf_block_ok in Hb as (_ & _ & ? & _).
Qed.

(** Those of the leaves that the route sends to a partition. *)
Definition routed_to (k : nat) (leaves : list IndexedChild) : list IndexedChild :=
  map snd (filter (fun p => route_file plan !! p.1 = Some (N.of_nat k)) (imap pair leaves)).

Lemma routed_to_snoc k leaves c : routed_to k (leaves ++ [c]) =
  routed_to k leaves ++ (if decide (route_file plan !! length leaves = Some (N.of_nat k)) then [c] else []).
Proof.
  unfold routed_to. rewrite imap_app, filter_app, map_app. f_equal. cbn. rewrite Nat.add_0_r.
  by destruct (decide _).
Qed.

Lemma routed_to_in k leaves c : c ∈ routed_to k leaves <->
  exists i, leaves !! i = Some c /\ route_file plan !! i = Some (N.of_nat k).
Proof.
  unfold routed_to. rewrite list_elem_of_fmap. split.
  - intros ([i c'] & -> & Hin). apply list_elem_of_filter in Hin as [Hr Hin].
    apply list_elem_of_lookup in Hin as [j Hj]. rewrite list_lookup_imap in Hj.
    destruct (leaves !! j) eqn:E; [|done]. injection Hj as <- <-. eauto.
  - intros (i & Hi & Hr). exists (i, c). split; [done|]. apply list_elem_of_filter. split; [done|].
    apply (list_elem_of_lookup_2 _ i). by rewrite list_lookup_imap, Hi.
Qed.

(** The replay after some items: their leaves. *)
Record replayed (s0 s : S) (acc : Replay) (leaves : list IndexedChild) : Prop := {
  rp_ok : durable_ok s;
  rp_grows : grows s0 s;
  rp_ids : replay_persisted acc = map ic_child leaves;
  rp_position : route_position acc = length leaves;
  rp_leaves : forall i c, leaves !! i = Some c -> ic_level c = 0%N /\ ic_descendant_count c = 1%N
    /\ exists item, baseline !! i = Some item /\ leaf_of s item (ic_child c);
  rp_spill : represents (replay_spill acc)
    (map (fun k => routed_to k leaves) (seq 0 (length (terminal_partition_ids plan))))
}.

Definition unlost (s0 : S) (x : W * S) : Prop := durable_ok x.2 /\ grows s0 x.2.

Lemma append_routed spill leaves c ordinal : 
  represents spill (map (fun k => routed_to k leaves) (seq 0 (length (terminal_partition_ids plan)))) ->
  route_file plan !! length leaves = Some ordinal -> ic_level c = 0%N -> ic_descendant_count c = 1%N ->
  returns (fun spill' => represents spill' (map (fun k => routed_to k (leaves ++ [c])) (seq 0 (length (terminal_partition_ids plan)))))
    (append_leaf_child spill ordinal c).
Proof.
  intros Hr Hroute Hl Hc. set (count := length (terminal_partition_ids plan)) in *.
  destruct (decide (N.to_nat ordinal < count)%nat) as [Hlt|Hge].
  - pose proof (append_ok spill _ (N.to_nat ordinal) (routed_to (N.to_nat ordinal) leaves) c Hr) as Ha.
    rewrite N2Nat.id in Ha. destruct (append_leaf_child spill ordinal c) as [spill'| |].
    + cbn in *. enough (map (fun k => routed_to k (leaves ++ [c])) (seq 0 count)
        = <[N.to_nat ordinal := routed_to (N.to_nat ordinal) leaves ++ [c]]> (map (fun k => routed_to k leaves) (seq 0 count))) as ->.
      { apply Ha; [by rewrite list_lookup_fmap, lookup_seq_lt|rewrite Hl|rewrite Hc]; done. }
      apply list_eq. intros k. destruct (decide (k < count)%nat) as [Hk|Hk].
      * rewrite list_lookup_fmap, lookup_seq_lt by done. cbn. rewrite routed_to_snoc, Hroute.
        destruct (decide (k = N.to_nat ordinal)) as [->|Hne].
        -- rewrite list_lookup_insert_eq by (by rewrite length_map, length_seq). by rewrite N2Nat.id, decide_True.
        -- rewrite list_lookup_insert_ne, list_lookup_fmap, lookup_seq_lt by done. cbn.
           rewrite decide_False, app_nil_r; [done|]. intros [= ->]. lia.
      * rewrite !lookup_ge_None_2; [done|..]; rewrite ?length_insert, length_map, length_seq; lia.
    + done.
    + cbn in *. apply Ha; [by rewrite list_lookup_fmap, lookup_seq_lt|rewrite Hl|rewrite Hc]; done.
  - unfold append_leaf_child. destruct Hr as [_ Hw]. rewrite lookup_ge_None_2; [done|].
    rewrite (Forall2_length _ _ _ Hw), length_map, length_seq. lia.
Qed.

Lemma leaf_built (embedding : bytes) (m : Metadata) (content : Content) :
  returns (fun r => build_leaf_block VERSION_1 spec [{| leaf_embedding := embedding; metadata := m; content := content |}] None = Ok r)
    (map_err BlockConstruction (build_leaf_block VERSION_1 spec [{| leaf_embedding := embedding; metadata := m; content := content |}] None)).
Proof. apply returns_ok; [apply map_err_no_panic, build_leaf_block_no_panic|]. by intros r ?%map_err_ok. Qed.

Lemma serialize_ok block : returns (fun ser => serialize_block block = Ok ser) (map_err BlockConstruction (serialize_block block)).
Proof. apply returns_ok; [apply map_err_no_panic, serialize_block_no_panic|]. by intros r ?%map_err_ok. Qed.

Lemma validate_embedding_no_panic e sp context : no_panic (validate_embedding_bytes e sp context).
Proof. unfold validate_embedding_bytes. np. Qed.

Lemma returns_any {E A} (m : result E A) : no_panic m -> returns (fun _ => True) m.
Proof. intros Hm. by apply returns_ok. Qed.

Lemma replay_one_ok s0 base acc leaves offset (item : IndexItem R) content embedding w s :
  replayed s0 s acc leaves -> (base + offset)%nat = length leaves -> is_Some (baseline !! length leaves) ->
  post (unlost s0) (fun acc' x => exists c, replayed s0 x.2 acc' (leaves ++ [c]) /\ replay_count acc' = replay_count acc)
    (replay_one spec baseline plan base acc (offset, (item, content, embedding)) (w, s)).
Proof.
  intros [Hok Hg Hids Hpos Hleaves Hspill] Hbase [b Hb]. unfold replay_one.
  assert (forall w, unlost s0 (w, s)) as HE by (by intros w'; split).
  eapply post_bind; [eapply (post_on_fst _ _ _ (fun r x => x.2 = s /\ hash_metadata (item_metadata item) = Ok (metadata_hash r)
    /\ content_hash r = hash_content content /\ embedding_hash r = hash_bytes embedding)); [apply replay_item_ok|auto|naive_solver]|].
  intros r [w1 s1] (Hs1 & Hmeta & Hcontent & Hemb). cbn in Hs1. subst s1. rewrite Hbase, Hb.
  eapply (post_step _ (eq b)); [done|done|]. intros ? <-.
  eapply (post_step _ (fun _ => b = r)); [done|by destruct (bool_decide_reflect (b = r))|]. intros [] ->.
  eapply post_step; [done|apply returns_any, map_err_no_panic, validate_embedding_no_panic|]. intros [] _.
  eapply post_step; [done|apply leaf_built|]. intros leaf Hleaf.
  eapply post_step; [done|apply serialize_ok|]. intros ser Hser.
  eapply post_bind; [eapply (post_on_snd _ _ _ (fun id x => durable_ok x.2 /\ grows s x.2 /\ held x.2 id (Leaf leaf)));
    [by apply persist_ok| |]|].
  { intros s2 [Hok2 Hg2]. split; [exact Hok2|]. cbn. by etrans. }
  { cbn. intros id s2 (Hok2 & Hg2 & -> & Hh). done. }
  intros id [w2 s2] (Hok2 & Hg2 & Hheld). cbn in Hok2, Hg2, Hheld.
  assert (forall w, unlost s0 (w, s2)) as HE2 by (intros w'; split; [done|cbn; by etrans]).
  eapply (post_step _ (fun o => route_file plan !! length leaves = Some o)); [done| |].
  { unfold read_partition_ordinal. pose proof (local_ok (RouteRead (route_position acc))) as Hlocal.
    destruct (local _) as [[]| |]; [|done|done]. cbn. rewrite Hpos. by destruct (route_file plan !! _). }
  intros ordinal Hroute.
  eapply post_step; [done|apply (append_routed _ leaves); [done|done|done|done]|]. intros spill Hspill'. cbn.
  eexists. split; [|done]. split; cbn; [done|by etrans| | | |exact Hspill'].
  - by rewrite Hids, map_app.
  - rewrite length_app. cbn. lia.
  - intros i c Hi. apply lookup_app_Some in Hi as [Hi|[Hge Hi]].
    + destruct (Hleaves i c Hi) as (Hl & Hc & it & Hit & Hof). split_and!; [done|done|]. exists it. split; [done|by eapply leaf_of_grows].
    + apply list_lookup_singleton_Some in Hi as [Hi <-]. assert (i = length leaves) as -> by lia. cbn.
      split_and!; [done|done|]. exists r. split; [done|]. exists embedding, (item_metadata item), content, leaf. auto.
Qed.

(** A batch, and all of them. *)
Definition batch_done (s0 : S) (acc : Replay) (x : W * S) : Prop :=
  exists leaves, replayed s0 x.2 acc leaves /\ replay_count acc = length leaves.

Lemma replay_batch_ok s0 acc (items : list (IndexItem R)) w s : batch_done s0 acc (w, s) ->
  post (unlost s0) (batch_done s0) (replay_batch spec baseline plan acc items (w, s)).
Proof.
  intros (leaves & Hr & Hcount). unfold replay_batch.
  assert (forall w, unlost s0 (w, s)) as HE by (intros w'; by destruct Hr).
  destruct (bool_decide_reflect (length items = 0%nat)) as [|Hne]; [by exists leaves|].
  eapply (post_step _ (fun _ => forall offset, (offset < length items)%nat -> is_Some (baseline !! (replay_count acc + offset)%nat))); [done| |].
  { assert (forall l, returns (fun _ => forall offset, offset ∈ l -> is_Some (baseline !! (replay_count acc + offset)%nat))
      (try_fold (fun (_ : unit) offset => rmap (fun _ => tt) (ok_or (baseline !! (replay_count acc + offset)%nat)
        (ReplayMismatch ("finalization replay has more items than the " +:+ pretty (len baseline)
        +:+ " items in the established baseline")%stdpp))) tt l)) as Hall.
    { induction l as [|o l IH]; cbn [try_fold]; [by intros o ?%elem_of_nil|].
      destruct (baseline !! (replay_count acc + o)%nat) eqn:Eo; [|done]. cbn [ok_or rmap rbind].
      destruct (try_fold _ tt l); cbn in *; [|done|done]. intros o' [->|Ho']%elem_of_cons; [by rewrite Eo|by apply IH]. }
    specialize (Hall (seq 0 (length items))). destruct (try_fold _ tt _); cbn in *; [|done|done].
    intros o Ho. apply Hall, elem_of_seq. lia. }
  intros [] Hin.
  eapply post_bind; [eapply (post_on_fst _ _ _ (fun cs x => x.2 = s /\ length cs = length items)); [apply resolve_items_ok|auto|auto]|].
  intros contents [w1 s1] [Hs1 Hcl]. cbn in Hs1. subst s1.
  eapply post_bind; [eapply (post_on_fst _ _ _ (fun es x => x.2 = s /\ length es = length contents)); [apply embed_contents_ok|auto|auto]|].
  intros embeddings [w2 s2] [Hs2 Hel]. cbn in Hs2. subst s2.
  set (work := imap pair (zip (zip items contents) embeddings)).
  assert (length work = length items) as Hwl by (unfold work; rewrite length_imap, !length_zip; lia).
  eapply post_bind.
  { eapply (post_fold _ (fun j acc' x => exists leaves', replayed s0 x.2 acc' leaves' /\ length leaves' = (replay_count acc + j)%nat
      /\ replay_count acc' = replay_count acc) _ work 0).
    - exists leaves. split_and!; [done|lia|done].
    - intros j [o [[item content] embedding]] acc' [w' s'] Hj (leaves' & Hr' & Hl' & Hc'). cbn [Nat.add] in *.
      assert (j = o) as <-.
      { unfold work in Hj. rewrite list_lookup_imap in Hj. destruct (_ !! j); [|done]. by injection Hj. }
      eapply post_weaken; [eapply (replay_one_ok s0 (replay_count acc) acc' leaves'); [exact Hr'|lia|]|].
      + rewrite Hl'. apply Hin. apply lookup_lt_Some in Hj. lia.
      + cbn beta. intros acc'' x (c & Hr'' & Hc''). exists (leaves' ++ [c]). split_and!; [done|rewrite length_app; cbn; lia|lia]. }
  cbn beta. intros acc' [w' s'] (leaves' & Hr' & Hl' & Hc'). cbn. exists leaves'. destruct Hr'. split; [by split|]. cbn in *. lia.
Qed.

Lemma replay_all_ok (batches : list (list (IndexItem R))) w s : durable_ok s ->
  post (unlost s) (fun r x => exists leaves, length leaves = length baseline /\ durable_ok x.2 /\ grows s x.2
      /\ r.2 = map ic_child leaves
      /\ (forall i c, leaves !! i = Some c -> ic_level c = 0%N /\ ic_descendant_count c = 1%N
            /\ exists item, baseline !! i = Some item /\ leaf_of x.2 item (ic_child c))
      /\ Forall2 file_holds (spill_files r.1) (map (fun k => routed_to k leaves) (seq 0 (length (terminal_partition_ids plan)))))
    (replay_all spec baseline plan batches (w, s)).
Proof.
  intros Hok. unfold replay_all. assert (unlost s (w, s)) as HE by (split; [exact Hok|done]).
  eapply (post_step _ (fun _ => True)); [done| |]; [by pose proof (local_ok RouteOpen); destruct (local _)|]. intros _ _.
  pose proof (new_spill_ok (length (terminal_partition_ids plan))) as Hnew.
  eapply (post_step _ (fun sp => represents sp (replicate (length (terminal_partition_ids plan)) []))); [done|by destruct (new_spill _)|].
  intros spill Hspill. eapply post_bind.
  { eapply (post_fold _ (fun _ => batch_done s) _ batches 0).
    - exists []. split; [|done]. split; cbn; [done|done|done|done|by intros i c ?|].
      assert (forall n a, map (fun k => routed_to k []) (seq a n) = replicate n []) as Hnil.
      { induction n as [|n IHn]; intros a; [done|]. cbn. f_equal. apply IHn. }
      by rewrite Hnil.
    - intros j items acc [w' s'] _ Hdone. by apply replay_batch_ok. }
  intros acc [w' s'] (leaves & [Hok' Hg Hids Hpos Hleaves Hsp] & Hcount). cbn in Hok', Hg, Hleaves.
  apply post_iret; [by split|]. apply returns_guard. intros _. apply returns_guard. intros Hlen%Nat.eqb_eq.
  eapply (returns_bind (fun _ => True)).
  { unfold read_partition_ordinal. pose proof (local_ok (RouteRead (route_position acc))). by destruct (local _). }
  intros o _. apply returns_guard. intros _. pose proof (finish_ok _ _ Hsp) as Hfin.
  eapply (returns_bind (fun sp => Forall2 file_holds (spill_files sp) _)); [destruct (finish_spill _); [exact Hfin|done|done]|].
  intros sp Hf. cbn. exists leaves. split_and!; [lia|done|done|done|done|done].
Qed.
End replay.
End replaying.

(** ** The terminal partitions *)
Section finalizing.
Context {W R P S : Type} `{ContentResolver W R} `{EmbeddingProvider W} `{DurableStore S} `{CborCodec} `{Sha256} `{LocalIo}.
Context `{!CalmSources (W := W) (R := R)} `{PcaFit} `{LnF64} {summary : ChildSummaryPolicy}.
Context (policy : BranchEncodingPolicy) (spec : EmbeddingSpec) (size_target : N) (bound : nat).

(** An encoder and a summary that do not panic. *)
Definition calm_authoring : Prop :=
  (forall entries level is_root, no_panic (encode_branch_entries policy spec entries level is_root))
  /\ forall children, no_panic (summarize_children spec children).
Context (calm : calm_authoring).
Context (baseline : list BaselineItem) (plan : PartitionRoutingPlan) (ps : list FinalizedPartition).
Context (plan_routed : routed (length baseline) ps plan) (ids_distinct : NoDup (map partition_id ps)).
Notation leaf_ok := (item_leaf spec baseline).
Notation built := (built size_target leaf_ok).

Section terminals.
Context (root_id : string) (spill : PartitionSpillDirectory) (leaves : list IndexedChild) (s0 : S) (D0 : list BlockHash).
Context (spill_ok : Forall2 file_holds (spill_files spill)
  (map (fun k => routed_to plan k leaves) (seq 0 (length (terminal_partition_ids plan))))).
Context (leaves_plain : forall c, c ∈ leaves -> child_ok s0 D0 c /\ ic_level c = 0%N /\ ic_descendant_count c = 1%N).

Record terminals_done (j : nat) (r : gmap string IndexedChild * list BlockHash) (s : S) : Prop := {
  td_built : built s0 D0 s r.2;
  td_ready : forall i p, (i < j)%nat -> ps !! i = Some p -> exists c, r.1 !! partition_id p = Some c
    /\ child_ok s r.2 c /\ fits (len (item_indices p)) c
    /\ forall leaf, leaf ∈ routed_to plan i leaves -> rtc (links s) (ic_child c) (ic_child leaf);
  td_new : forall id, id ∈ r.2 -> id ∈ D0 \/ exists i p c, (i < j)%nat /\ ps !! i = Some p
    /\ r.1 !! partition_id p = Some c /\ rtc (links s) (ic_child c) id
}.

(** One partition more. *)
Lemma terminals_step j r s p s' D c : terminals_done j r s -> ps !! j = Some p -> built s r.2 s' D ->
  child_ok s' D c -> fits (len (item_indices p)) c ->
  (forall leaf, leaf ∈ routed_to plan j leaves -> rtc (links s') (ic_child c) (ic_child leaf)) ->
  (forall id, id ∈ D -> id ∈ r.2 \/ rtc (links s') (ic_child c) id) ->
  terminals_done (Datatypes.S j) (<[partition_id p := c]> r.1, D) s'.
Proof.
  intros [Hb Hready Hnew] Hp Hb' Hc Hfits Hreach Hn. pose proof (built_grows _ _ _ _ _ _ Hb') as Hg.
  assert (forall i q, (i < j)%nat -> ps !! i = Some q -> partition_id p <> partition_id q) as Hne.
  { intros i q Hi Hq He. assert (i = j); [|lia]. apply (NoDup_lookup (map partition_id ps) i j (partition_id p)); [done| |];
      rewrite list_lookup_fmap; [by rewrite Hq, He|by rewrite Hp]. }
  split; cbn [fst snd].
  - eapply built_trans; [exact Hb|exact Hb'].
  - intros i q Hi Hq. destruct (decide (i = j)) as [->|].
    + assert (q = p) as -> by congruence. exists c. rewrite lookup_insert_eq. auto.
    + destruct (Hready i q ltac:(lia) Hq) as (c' & Hc' & Hok' & Hf' & Hr'). exists c'.
      rewrite lookup_insert_ne by (eapply Hne; [|done]; lia). split_and!; [done| |done|].
      * eapply child_ok_grows; [done|apply Hb'|done].
      * intros leaf Hleaf. eapply reaches_grows; [done|by apply Hr'].
  - intros id Hid. destruct (Hn id Hid) as [Hid'|Hr].
    + destruct (Hnew id Hid') as [|(i & q & c' & Hi & Hq & Hc' & Hr')]; [by left|right]. exists i, q, c'.
      rewrite lookup_insert_ne by (by eapply Hne). split_and!; [lia|done|done|by eapply reaches_grows].
    + right. exists j, p, c. rewrite lookup_insert_eq. split_and!; [lia|done|done|done].
Qed.

Lemma routed_leaf k c : c ∈ routed_to plan k leaves -> c ∈ leaves.
Proof. intros (i & Hi & _)%routed_to_in. by eapply list_elem_of_lookup_2. Qed.

(** Leaves add up to their number. *)
Lemma leaves_limits cs : (forall c, c ∈ cs -> ic_level c = 0%N /\ ic_descendant_count c = 1%N) ->
  max_level cs = 0%N /\ weight cs = len cs.
Proof.
  intros Hcs. unfold max_level, len. induction cs as [|c cs IH]; [done|]. cbn [map foldr sum_n length].
  destruct (Hcs c ltac:(by left)) as [-> ->]. destruct IH as [-> IH]; [intros; apply Hcs; by right|]. split; [done|]. lia.
Qed.

Lemma materialize_terminal_ok j p r s : (j < length ps)%nat -> ps !! j = Some p -> terminals_done j r s ->
  (len (item_indices p) <= U64_MAX)%N ->
  post (fun s' => durable_ok s' /\ grows s0 s') (fun r' s' => terminals_done (Datatypes.S j) r' s')
    (materialize_terminal policy spec size_target bound root_id plan spill r (j, partition_id p) s).
Proof.
  intros Hj Hp Htd Hlen. destruct calm as [Hcalm Hsum]. destruct r as [materialized D]. unfold materialize_terminal.
  destruct plan_routed as (Hids & Hcounts & _). pose proof (td_built _ _ _ Htd) as Hb. cbn [fst snd] in Hb.
  assert (durable_ok s /\ grows s0 s) as HE by (split; apply Hb).
  eapply (post_step _ (fun count => count = length (item_indices p))); [done| |].
  { rewrite Hcounts, list_lookup_fmap, Hp. done. }
  intros count ->. eapply (post_step _ (fun cs => cs = routed_to plan j leaves)); [done| |].
  { assert (map (fun k => routed_to plan k leaves) (seq 0 (length (terminal_partition_ids plan))) !! j
      = Some (routed_to plan j leaves)) as Hlk.
    { rewrite list_lookup_fmap, lookup_seq_lt; [done|]. rewrite Hids, length_map. done. }
    pose proof (read_partition_ok spill _ j _ spill_ok Hlk) as Hread.
    destruct (read_partition_children spill j); cbn in *; [by symmetry|done|done]. }
  intros cs Hcs. eapply (post_step _ (fun _ => length cs = length (item_indices p))); [done|by destruct (Nat.eqb_spec (length cs) (length (item_indices p)))|].
  intros [] Hl.
  assert (forall c, c ∈ cs -> child_ok s D c /\ ic_level c = 0%N /\ ic_descendant_count c = 1%N) as Hplain.
  { intros c Hc. rewrite Hcs in Hc. apply routed_leaf in Hc. destruct (leaves_plain c Hc) as (Hok & Hrest). split; [|done].
    eapply child_ok_grows; [apply Hb|apply Hb|done]. }
  destruct (leaves_limits cs) as [Hmax Hweight]; [intros c Hc; by apply Hplain|].
  eapply (post_bind _ (fun r s' => assembled size_target leaf_ok s D cs (len cs) s' r.1 r.2)).
  - destruct cs as [|c1 [|c2 rest]].
    + by apply post_iret.
    + destruct (Hplain c1 ltac:(by left)) as (Hok1 & Hl1 & Hc1). apply post_iret; [done|]. split; cbn.
      * split; [apply HE|done|apply Hb|done].
      * done.
      * by intros c ->%list_elem_of_singleton.
      * auto.
      * rewrite Hl1. done.
      * lia.
    + eapply post_mono; [apply (assemble_child_set_ok _ _ _ _ Hcalm Hsum leaf_ok (item_leaf_grows spec baseline) (len (c1 :: c2 :: rest)))|..].
      * apply HE.
      * apply Hb.
      * apply Forall_forall. intros c Hc. by apply Hplain.
      * rewrite Hmax. lia.
      * unfold len in *. lia.
      * rewrite Hweight. unfold len, USIZE_MAX, U64_MAX in *. lia.
      * intros s' [Hok' Hg']. split; [done|]. etrans; [apply Hb|done].
      * done.
  - intros [c D'] s' [Hb' Hc' Hr' Hn' Hl' Hw']. cbn [fst snd] in *. cbn.
    apply (terminals_step j (materialized, D) s); [done|done|done|done| | |done].
    + split; [unfold len in *; lia|]. rewrite Hweight in Hw'. unfold len in *. lia.
    + intros leaf Hleaf. apply Hr'. by rewrite Hcs.
Qed.
End terminals.
End finalizing.

(** ** The index *)

(** A complete index of the items of a baseline: from the root, along entries of
    branches within the size target, every item's leaf is reached, and the blocks
    listed are those written, each a leaf of an item or a branch over listed blocks
    of lower levels. *)
Record index_complete {S} `{DurableStore S} `{CborCodec} `{Sha256} (spec : EmbeddingSpec) (size_target : N)
  (baseline : list BaselineItem) (s : S) (result : StreamingIndexingResult) : Prop := {
  ix_items : forall item, item ∈ baseline -> exists id, id ∈ block_ids result
    /\ rtc (links s) (root_id result) id /\ leaf_of spec s item id;
  ix_blocks : forall id, id ∈ block_ids result -> rtc (links s) (root_id result) id
    /\ (item_leaf spec baseline s id \/ branch_ok size_target s (block_ids result) id);
  ix_root : root_id result ∈ block_ids result;
  ix_sorted : StronglySorted (cmp_lt hash_cmp) (block_ids result)
}.

Section finalize.
Context {W R P S : Type} `{ContentResolver W R} `{EmbeddingProvider W} `{DurableStore S} `{CborCodec} `{!CborLayout} `{Sha256} `{LocalIo}.
Context `{!CalmSources (W := W) (R := R)} `{PcaFit} `{LnF64} {summary : ChildSummaryPolicy}.
Implicit Type run : StreamingIndexingRun P.

Lemma do_finalize_ok run (batches : list (list (IndexItem R))) baseline h w s :
  durable_ok s -> calm_authoring (branch_encoding_policy run) (embedding_spec run) -> (block_size_target run <= USIZE_MAX)%N ->
  validate_partition_hierarchy h (length baseline) = Ok tt ->
  post (unlost s) (fun result x => durable_ok x.2 /\ grows s x.2
      /\ index_complete (embedding_spec run) (block_size_target run) baseline x.2 result)
    (do_finalize run batches baseline h (w, s)).
Proof.
  intros Hok Hcalm Husize Hval. destruct (validate_ok _ _ Hval) as (t & Hvalid). unfold do_finalize.
  set (spec := embedding_spec run). set (target := block_size_target run).
  assert (unlost s (w, s)) as HE by (split; [exact Hok|done]).
  eapply post_step; [done| |].
  { apply returns_ok; [|intros a Ha; exact Ha]. by apply map_err_no_panic, materializability_bound_no_panic. }
  intros bound _. cbv beta zeta. set (bnd := N.to_nat bound).
  eapply post_step; [done|by eapply routing_plan_returns|].
  intros plan [Hrouted Hn]. eapply post_bind; [by apply (replay_all_ok spec baseline plan batches w s)|].
  intros [spill D0] [w1 s1] (leaves & Hlen & Hok1 & Hg1 & HD0 & Hleaves & Hfiles). cbn [fst snd] in *.
  set (ps := terminal_partitions h) in *.
  assert (NoDup (map partition_id ps)) as Hdistinct.
  { assert (ps ⊆+ partitions h) as Hsub.
    { unfold ps, terminal_partitions. rewrite sort_by_Permutation. apply sublist_submseteq, sublist_filter. }
    apply submseteq_Permutation in Hsub as [k Hk]. pose proof (vh_distinct _ _ _ Hvalid) as Hd.
    rewrite Hk, map_app in Hd. by apply NoDup_app in Hd as [? _]. }
  assert (forall c, c ∈ leaves -> child_ok s1 D0 c /\ ic_level c = 0%N /\ ic_descendant_count c = 1%N) as Hplain.
  { intros c Hc. apply list_elem_of_lookup in Hc as [i Hi]. destruct (Hleaves i c Hi) as (Hl & Hc & item & _ & Hof).
    split; [|done]. split; [rewrite HD0; apply list_elem_of_fmap_2; by eapply list_elem_of_lookup_2|].
    rewrite Hl. by eapply leaf_at_level. }
  assert (sound target (item_leaf spec baseline) s1 D0) as Hsound.
  { intros id Hid. left. rewrite HD0 in Hid. apply list_elem_of_fmap in Hid as (c & -> & Hc).
    apply list_elem_of_lookup in Hc as [i Hi]. destruct (Hleaves i c Hi) as (_ & _ & item & Hitem & Hof).
    exists item. split; [by eapply list_elem_of_lookup_2|done]. }
  assert (forall i p, ps !! i = Some p -> len (item_indices p) <= U64_MAX)%N as Hsmall.
  { intros i p Hp. pose proof (terminal_items _ _ _ Hvalid) as Hti. apply Permutation_length in Hti. fold ps in Hti.
    rewrite length_seq in Hti. rewrite <-(take_drop_middle _ _ _ Hp), map_app, concat_app in Hti. cbn in Hti.
    rewrite !length_app in Hti. unfold len in *. lia. }
  eapply (post_on_snd (fun s' => durable_ok s' /\ grows s s')); [| |intros a s' Ha; exact Ha];
    [|intros s' [? ?]; by split].
  destruct Hrouted as (Hids & Hcounts & Hrl & Hroute & Hfree & Hoffsets).
  eapply post_bind.
  { eapply (post_mono (fun s' => durable_ok s' /\ grows s1 s')).
    - eapply (post_fold _ (terminals_done spec target baseline plan ps leaves s1 D0) _ _ 0).
      + split; cbn; [by split|lia|auto].
      + intros j [k pid] r s' Hj Htd. cbn [Nat.add] in *. rewrite Hids, list_lookup_imap, list_lookup_fmap in Hj.
        destruct (ps !! j) as [p|] eqn:Hp; [|done]. injection Hj as <- <-.
        apply (materialize_terminal_ok _ _ target bnd Hcalm baseline plan ps); try done;
          first [by split_and!|by eapply lookup_lt_Some|by eapply Hsmall].
    - intros s' [? ?]. split; [done|by etrans].
    - intros r s' Hr. exact Hr. }
  intros [materialized D1] s2 Htd. cbn [Nat.add] in Htd. rewrite length_imap, Hids, length_map in Htd.
  destruct Htd as [Hb Hready Hnew]. cbn [fst snd] in *.
  pose proof (partition_map_id (partitions h)) as Hpid.
  assert (forall p, p ∈ t_leaves t -> exists i, ps !! i = Some p) as Hleaf.
  { intros p Hp. rewrite <-(terminal_leaves _ _ _ Hvalid) in Hp. by apply list_elem_of_lookup in Hp. }
  eapply post_bind.
  { eapply post_mono; [apply (materialize_ok _ spec target bnd (proj1 Hcalm) (proj2 Hcalm) _ (item_leaf_grows spec baseline)
      (partition_map (partitions h)) (fun id p H => proj1 (Hpid id p H)) materialized t)|..].
    - apply Hvalid.
    - rewrite (valid_size _ _ _ Hvalid). pose proof (height_parts t) as Hh. rewrite (vh_parts _ _ _ Hvalid) in Hh. lia.
    - apply Hb.
    - apply Hb.
    - intros p Hp. destruct (Hleaf p Hp) as [i Hi]. pose proof (lookup_lt_Some _ _ _ Hi) as Hlt.
      destruct (Hready i p Hlt Hi) as (c & Hc & Hcok & Hcf & _). by exists c.
    - pose proof (vh_items _ _ _ Hvalid) as Hti. unfold len. rewrite Hti, length_seq. lia.
    - intros s' [? Hg]. split; [done|]. etrans; [exact Hg1|]. etrans; [apply Hb|exact Hg].
    - intros r s' Hr. exact Hr. }
  intros [root D2] s3 [Hb3 Hchild Hreach Hn3 _]. cbn [fst snd] in *.
  pose proof (built_trans _ _ _ _ _ _ _ _ Hb Hb3) as Hball. destruct (dedup_sort_ids_ok D2) as [Hsorted Hsame].
  assert (forall i c, leaves !! i = Some c -> rtc (links s3) (ic_child root) (ic_child c)) as Hall.
  { intros i c Hi. assert (i < length baseline)%nat as Hlt by (rewrite <-Hlen; by eapply lookup_lt_Some).
    assert (i ∈ concat (map item_indices ps)) as Hin.
    { unfold ps. rewrite (terminal_items _ _ _ Hvalid). apply elem_of_seq. lia. }
    apply list_elem_of_In, in_concat in Hin as (l & Hl & Hin). apply in_map_iff in Hl as (p & <- & Hp).
    apply list_elem_of_In in Hp, Hin. apply list_elem_of_lookup in Hp as [k Hk].
    destruct (Hready k p ltac:(by eapply lookup_lt_Some) Hk) as (cp & Hcp & _ & _ & Hrl').
    etrans; [eapply (Hreach p cp); [|done]|].
    - rewrite <-(terminal_leaves _ _ _ Hvalid). by eapply list_elem_of_lookup_2.
    - eapply reaches_grows; [apply Hb3|]. apply Hrl', routed_to_in. exists i. split; [done|by eapply Hroute]. }
  assert (forall id, id ∈ D2 -> rtc (links s3) (ic_child root) id) as Hreached.
  { intros id Hid. destruct (Hn3 id Hid) as [Hid1|]; [|done]. destruct (Hnew id Hid1) as [Hid0|(i & p & c & Hi & Hp & Hc & Hr)].
    - rewrite HD0 in Hid0. apply list_elem_of_fmap in Hid0 as (c & -> & Hc). apply list_elem_of_lookup in Hc as [i Hi]. by eapply Hall.
    - etrans; [eapply (Hreach p c); [|done]|by eapply reaches_grows; [apply Hb3|]].
      rewrite <-(terminal_leaves _ _ _ Hvalid). by eapply list_elem_of_lookup_2. }
  cbn. split_and!; [apply Hball|etrans; [exact Hg1|apply Hball]|]. split; cbn [root_id block_ids].
  - intros item Hitem. apply list_elem_of_lookup in Hitem as [i Hi].
    assert (i < length leaves)%nat as Hlt by (rewrite Hlen; by eapply lookup_lt_Some).
    destruct (lookup_lt_is_Some_2 _ _ Hlt) as [c Hc]. destruct (Hleaves i c Hc) as (_ & _ & item' & Hi' & Hof).
    assert (item' = item) as -> by congruence. exists (ic_child c). split_and!; [|by eapply Hall|].
    + apply Hsame. apply (built_keeps _ _ _ _ _ _ Hball). rewrite HD0. apply list_elem_of_fmap_2. by eapply list_elem_of_lookup_2.
    + eapply leaf_of_grows; [apply Hball|done].
  - intros id Hid. apply Hsame in Hid. split; [by apply Hreached|].
    destruct (built_sound _ _ _ _ _ _ Hball id Hid) as [|Hbr]; [by left|right]. eapply branch_ok_grows; [done| |exact Hbr].
    intros i Hi. by apply Hsame.
  - apply Hsame, Hchild.
  - exact Hsorted.
Qed.

Lemma not_phase {A} (b : bool) (op req : string) run (m : result StreamingIndexerError A) : no_panic m ->
  no_panic (if b then wrong_phase op req run else m).
Proof. by destruct b. Qed.

(** What finalizing can leave: the run in its phase or finalized with a complete
    index, the store with all it held. *)
Lemma finalize_ok run (batches : list (list (IndexItem R))) w s r run' w' s' :
  durable_ok s -> calm_authoring (branch_encoding_policy run) (embedding_spec run) -> (block_size_target run <= USIZE_MAX)%N ->
  finalize run batches (w, s) = (r, run', (w', s')) ->
  durable_ok s' /\ grows s s' /\
  match r with
  | Ok result => phase run = PlanningComplete /\ run' = set_phase Finalized run /\ exists items, baseline run = Some items
      /\ index_complete (embedding_spec run) (block_size_target run) items s' result
  | Err _ => run' = run
  | Panic => False
  end.
Proof.
  intros Hok Hcalm Husize Hf. unfold finalize in Hf.
  destruct (bool_decide_reflect (phase run = PlanningComplete)) as [Hphase|]; cbn [negb] in Hf;
    [|injection Hf as <- <- <- <-; done].
  destruct (baseline run) as [items|] eqn:Hb; [|injection Hf as <- <- <- <-; done].
  destruct (finalized_hierarchy run) as [h|] eqn:Hh; [|injection Hf as <- <- <- <-; done]. cbn [ok_or rbind] in Hf.
  pose proof (validate_no_panic h (length items)) as Hnp.
  destruct (validate_partition_hierarchy h (length items)) as [[]| |] eqn:Hval; [|injection Hf as <- <- <- <-; done|done].
  cbn [map_err rbind] in Hf.
  pose proof (do_finalize_ok run batches items h w s Hok Hcalm Husize Hval) as Hpost.
  destruct (do_finalize run batches items h (w, s)) as [[result|e|] [w1 s1]]; injection Hf as <- <- <- <-; cbn in Hpost; [|by destruct Hpost|done].
  destruct Hpost as (? & ? & ?). split_and!; [done|done|done|done|]. by exists items.
Qed.

(** C2 Whatever the resolver, the embedding provider and the local files do, finalizing
    with an encoder and a summary policy that do not panic, and a size target that is a
    usize, does not panic and the store keeps every block it held. If it succeeds, the
    run is finalized and the index is complete: from the root, along entries of branches
    within the size target and of falling levels, every item of the baseline is reached
    at a leaf that holds its metadata, content and embedding; the blocks listed are
    sorted, all reached, each a leaf of an item or such a branch. If it fails, the run
    is as it was. *)
Theorem finalize_indexes_baseline run (batches : list (list (IndexItem R))) w s r run' w' s' :
  durable_ok s -> calm_authoring (branch_encoding_policy run) (embedding_spec run) -> (block_size_target run <= USIZE_MAX)%N ->
  finalize run batches (w, s) = (r, run', (w', s')) ->
  durable_ok s' /\ grows s s' /\
  match r with
  | Ok result => phase run = PlanningComplete /\ run' = set_phase Finalized run /\ exists items, baseline run = Some items
      /\ index_complete (embedding_spec run) (block_size_target run) items s' result
  | Err _ => run' = run
  | Panic => False
  end.
Proof. apply finalize_ok. Qed.
End finalize.
