(* ===== verification/LifecycleCorrect.v ===== *)
(** * The indexer: passes and the lifecycle of a run

    What an accepted batch adds to a pass, what a finished pass leaves, and the
    phases a run goes through under every sequence of calls.

    Then: a whole run on concrete inputs. *)
From S2P Require Import Prelude Ordering Hash Cbor Ieee Ebcp EbcpPayload BlockV1 CborRef Store FsStore FsCorrect FsWalk Clustering IndexTypes IndexHierarchy IndexHierarchyCorrect IndexLayer BranchEncoding Indexer IndexerFacts AssemblyCorrect SpillCorrect IndexerCorrect.

Section lifecycle.
Context {W R P S : Type} `{ContentResolver W R} `{EmbeddingProvider W} `{HierarchicalPlanningPolicy P}.
Context `{DurableStore S} `{CborCodec} `{!CborLayout} `{Sha256} `{HalfCrate} `{LocalIo} `{PcaFit} `{LnF64} {summary : ChildSummaryPolicy}.
Context `{!CalmSources (W := W) (R := R)}.
Implicit Type run : StreamingIndexingRun P.

(** ** A batch *)

(** Steps on the elements of a list, one after the other, with an answer each. *)
Inductive asked {A B X : Type} (step : A -> X -> B -> X -> Prop) : list A -> X -> list B -> X -> Prop :=
| asked_nil x : asked step [] x [] x
| asked_cons a l x b x1 bs x2 : step a x b x1 -> asked step l x1 bs x2 -> asked step (a :: l) x (b :: bs) x2.

Lemma asked_snoc {A B X} (step : A -> X -> B -> X -> Prop) l a x bs b x1 x2 :
  asked step l x bs x1 -> step a x1 b x2 -> asked step (l ++ [a]) x (bs ++ [b]) x2.
Proof. induction 1; intros Hs; cbn; econstructor; [exact Hs|constructor|eassumption|auto]. Qed.

Lemma asked_length {A B X} (step : A -> X -> B -> X -> Prop) l x bs x' : asked step l x bs x' -> length bs = length l.
Proof. induction 1; cbn; auto. Qed.

Lemma icollect_asked {E A B X} (f : A -> state_m E X B) l : forall x bs x', icollect f l x = (Ok bs, x') ->
  asked (fun a x b x' => f a x = (Ok b, x')) l x bs x'.
Proof.
  induction l as [|a l IH]; intros x bs x' Hc; cbn [icollect] in Hc; unfold ibind, iret in Hc.
  - injection Hc as <- <-. constructor.
  - destruct (f a x) as [[b| |] x1] eqn:Hf; [|done..]. destruct (icollect f l x1) as [[bs'| |] x2] eqn:Hl; [|done..].
    injection Hc as <- <-. econstructor; [exact Hf|by apply IH].
Qed.

(** The content the resolver answers for an item. *)
Definition resolves (item : IndexItem R) (w : W) (content : Content) (w' : W) : Prop :=
  resolve (content_ref item) w = (Ok content, w') /\ media_type content <> "".

(** The fingerprint of an item: of its reference as the resolver answers, of its
    metadata, and of the content and the embedding it got. *)
Definition observes (got : IndexItem R * Content * bytes) (w : W) (b : BaselineItem) (w' : W) : Prop :=
  let '(item, content, embedding) := got in
  fingerprint (content_ref item) w = (Ok (content_ref_hash b), w')
  /\ hash_metadata (item_metadata item) = Ok (metadata_hash b)
  /\ content_hash b = hash_content content /\ embedding_hash b = hash_bytes embedding.

(** What the collaborators answer for a batch, and the fingerprints of the answers. *)
Inductive observed (spec : EmbeddingSpec) : list (IndexItem R) -> W -> list BaselineItem -> W -> Prop :=
| observed_nothing w : observed spec [] w [] w
| observed_batch batch w contents w1 embeddings w2 fps w3 :
    batch <> [] -> asked resolves batch w contents w1 ->
    embed_batch (map embedding_input contents) spec w1 = (Ok embeddings, w2) -> length embeddings = length batch ->
    asked observes (zip (zip batch contents) embeddings) w2 fps w3 -> observed spec batch w fps w3.

Lemma resolve_items_asked items w contents w' : icollect resolve_item items w = (Ok contents, w') ->
  asked resolves items w contents w'.
Proof.
  intros Hc%icollect_asked. induction Hc as [|item items x c x1 cs x2 Hs _ IH]; econstructor; [|exact IH].
  unfold resolve_item, ibind, ask, iret in Hs. unfold resolves. destruct (resolve (content_ref item) x) as [[c'| |] x']; [|done..].
  cbn in Hs. destruct (String.eqb_spec (media_type c') ""); [done|]. by injection Hs as <- <-.
Qed.

Lemma embed_contents_asked spec text contents w embeddings w' : embed_contents spec text contents w = (Ok embeddings, w') ->
  embed_batch (map embedding_input contents) spec w = (Ok embeddings, w').
Proof.
  unfold embed_contents, ibind, ask, iret. destruct (embed_batch _ _ _) as [[es| |] x]; [|done..]. cbn.
  destruct (_ =? _)%N; [|done]. by intros [= <- <-].
Qed.

Lemma replay_item_observes item content embedding w :
  post (fun _ => True) (fun b w' => observes (item, content, embedding) w b w') (replay_item item content embedding w).
Proof.
  unfold replay_item, ibind, ask, iret. pose proof (calm_fingerprint (content_ref item) w) as Hf.
  destruct (fingerprint (content_ref item) w) as [[f| |] w'] eqn:Ef; [|done..]. cbn [map_err].
  pose proof (hash_metadata_no_panic (item_metadata item)) as Hn.
  destruct (hash_metadata (item_metadata item)) as [h| |] eqn:E; [|done..]. by cbn.
Qed.

(** The state of a pass: its fingerprints and its decoded embeddings. *)
Definition with_pass (items : list BaselineItem) (embeddings : list (list f32)) (seen : nat) run : StreamingIndexingRun P :=
  set_items_seen seen (set_embeddings embeddings (set_items items run)).

Lemma with_pass_self run : with_pass (current_pass_items run) (current_pass_f32_embeddings run) (items_seen_in_current_pass run) run = run.
Proof. by destruct run. Qed.

(** What is pushed for the fingerprints of a batch. *)
Definition pushed run (fps : list BaselineItem) : list BaselineItem :=
  match baseline run with None => current_pass_items run ++ fps | Some _ => current_pass_items run end.

(** The fingerprints agree with the baseline from the current position on. *)
Definition agree run (fps : list BaselineItem) : Prop :=
  match baseline run with
  | None => True
  | Some b => forall i fp, fps !! i = Some fp -> b !! (items_seen_in_current_pass run + i)%nat = Some fp
  end.

(** In the middle of a batch. *)
Record ingested run (fps : list BaselineItem) (ds : list (list f32)) run' : Prop := {
  ig_state : run' = with_pass (pushed run fps) (current_pass_f32_embeddings run ++ ds) (items_seen_in_current_pass run) run;
  ig_agree : agree run fps
}.
Definition partly run (x : StreamingIndexingRun P * W) : Prop := exists fps ds, ingested run fps ds x.1.

Lemma ingest_item_ok run fps w run' j item content embedding : length fps = j -> ingested run fps [] run' ->
  post (partly run) (fun _ x => exists b, observes (item, content, embedding) w b x.2 /\ ingested run (fps ++ [b]) [] x.1)
    (ingest_item (j, (item, content, embedding)) (run', w)).
Proof.
  intros Hl [-> Ha]. unfold ingest_item.
  set (mid := with_pass (pushed run fps) (current_pass_f32_embeddings run ++ []) (items_seen_in_current_pass run) run).
  assert (forall w, partly run (mid, w)) as HE by (intros w'; exists fps, []; by split).
  eapply post_bind; [eapply (post_on_snd _ _ _ (fun b x => x.1 = mid /\ observes (item, content, embedding) w b x.2));
    [apply replay_item_observes|auto|auto]|].
  intros b [run1 w1] [Hr1 Hobs]. cbn in Hr1, Hobs. subst run1.
  change (baseline mid) with (baseline run). change (items_seen_in_current_pass mid) with (items_seen_in_current_pass run).
  unfold agree in Ha. destruct (baseline run) as [base|] eqn:Hb.
  - destruct (base !! (items_seen_in_current_pass run + j)%nat) as [expected|] eqn:He; [|exact (HE w1)]. cbn [ok_or rbind].
    destruct (bool_decide_reflect (expected = b)) as [->|]; [|exact (HE w1)]. exists b. split; [exact Hobs|]. split.
    + cbn. unfold mid, pushed. by rewrite Hb.
    + unfold agree. rewrite Hb. intros i fp [Hi|[Hge Hi]]%lookup_app_Some; [by apply Ha|].
      apply list_lookup_singleton_Some in Hi as [Hi <-]. by replace i with j by lia.
  - exists b. split; [exact Hobs|]. split; [|by unfold agree; rewrite Hb].
    unfold mid, pushed. rewrite Hb. cbn. by rewrite <-app_assoc.
Qed.

Lemma decode_f32_no_panic e spec : no_panic (decode_embedding_as_f32 e spec).
Proof. unfold decode_embedding_as_f32. np. apply map_err_no_panic, validate_embedding_no_panic. Qed.

(** An accepted batch, and what a refused one can leave. *)
Record accepted run (count : nat) (fps : list BaselineItem) (ds : list (list f32)) run' : Prop := {
  ac_state : run' = with_pass (pushed run fps) (current_pass_f32_embeddings run ++ ds)
    (items_seen_in_current_pass run + count) run;
  ac_length : length fps = count;
  ac_agree : agree run fps
}.

Lemma accepted_nil run : accepted run 0 [] [] run.
Proof.
  split; [|done|unfold agree; by destruct (baseline run)].
  unfold pushed. cbn. rewrite Nat.add_0_r, !app_nil_r. destruct (baseline run); by rewrite with_pass_self.
Qed.

Lemma ingested_nil run : ingested run [] [] run.
Proof.
  split; [|unfold agree; by destruct (baseline run)].
  unfold pushed. rewrite !app_nil_r. destruct (baseline run); by rewrite with_pass_self.
Qed.

Lemma push_embeddings_ok run fps embeddings run' w : ingested run fps [] run' ->
  post (partly run) (fun _ x => x.2 = w /\ exists ds, ingested run fps ds x.1) (on_fst (ifold (fun _ => push_embedding) tt embeddings) (run', w)).
Proof.
  intros Hig. eapply (post_on_fst (fun r => exists ds, ingested run fps ds r) _ (fun _ r => exists ds, ingested run fps ds r));
    [|by intros x [ds Hx]; exists fps, ds|done].
  apply (post_fold (fun r => exists ds, ingested run fps ds r) (fun _ _ r => exists ds, ingested run fps ds r) _ embeddings 0);
    [by exists []|]. intros j e _ r _ [ds [-> Ha]]. unfold push_embedding.
  pose proof (decode_f32_no_panic e (embedding_spec run)) as Hn. cbn [embedding_spec with_pass set_items_seen set_embeddings set_items].
  destruct (decode_embedding_as_f32 e (embedding_spec run)) as [d|e'|]; [|by exists ds|done].
  exists (ds ++ [d]). split; [|done]. cbn. by rewrite <-app_assoc.
Qed.

Lemma run_ingest_batch_ok run batch w :
  post (partly run) (fun _ x => phase run = Planning
      /\ exists fps ds, accepted run (length batch) fps ds x.1 /\ observed (embedding_spec run) batch w fps x.2)
    (ingest_batch batch (run, w)).
Proof.
  assert (forall w, partly run (run, w)) as HE by (intros w'; exists [], []; apply ingested_nil).
  unfold ingest_batch. destruct (bool_decide_reflect (phase run = Planning)) as [Hphase|]; [|exact (HE w)]. cbn [negb].
  destruct (bool_decide_reflect (length batch = 0%nat)) as [Hnil|Hne].
  { cbn. split; [done|]. exists [], []. apply nil_length_inv in Hnil as ->. split; [apply accepted_nil|constructor]. }
  eapply post_bind; [eapply (post_on_snd _ _ _ (fun cs x => x.1 = run /\ asked resolves batch w cs x.2)); [apply post_equation, resolve_items_ok|auto|]|].
  { intros cs y [_ Hc]. split; [done|by apply resolve_items_asked]. }
  intros contents [run1 w1] [Hr1 Hcs]. cbn in Hr1, Hcs. subst run1. pose proof (asked_length _ _ _ _ _ Hcs) as Hcl.
  eapply post_bind; [eapply (post_on_snd _ _ _ (fun es x => x.1 = run /\ length es = length contents
    /\ embed_batch (map embedding_input contents) (embedding_spec run) w1 = (Ok es, x.2))); [apply post_equation, embed_contents_ok|auto|]|].
  { intros es y [Hl He]. split_and!; [done|done|by eapply embed_contents_asked]. }
  intros embeddings [run1 w2] (Hr1 & Hel & Hes). cbn in Hr1, Hes. subst run1.
  eapply (post_step _ (fun _ => True)); [done| |].
  { apply returns_any. generalize embeddings. intros l. induction l as [|e l IH]; [done|]. cbn.
    apply rbind_no_panic; [apply map_err_no_panic, validate_embedding_no_panic|]. by intros []. }
  intros _ _. set (got := zip (zip batch contents) embeddings).
  assert (length got = length batch) as Hgl by (unfold got; rewrite !length_zip; lia).
  eapply post_bind.
  { eapply (post_fold _ (fun j _ x => exists fps, asked observes (take j got) w2 fps x.2 /\ ingested run fps [] x.1) _ (imap pair got) 0).
    - exists []. split; [constructor|apply ingested_nil].
    - intros j [o [[item content] embedding]] _ [run' w'] Hj (fps & Hobs & Hig). cbn [Nat.add] in *.
      rewrite list_lookup_imap in Hj. destruct (got !! j) as [q|] eqn:Hq; [|done]. cbn in Hj. injection Hj as <- ->.
      pose proof (asked_length _ _ _ _ _ Hobs) as Hl. rewrite length_take_le in Hl by (apply lookup_lt_Some in Hq; lia).
      eapply post_weaken; [by apply ingest_item_ok|]. intros _ x (b & Hb & Hig'). exists (fps ++ [b]).
      split; [rewrite (take_S_r _ _ _ Hq); by eapply asked_snoc|done]. }
  cbn beta. intros _ [run' w'] (fps & Hobs & Hig). cbn [Nat.add snd fst] in Hobs, Hig.
  rewrite length_imap, firstn_all in Hobs. pose proof (asked_length _ _ _ _ _ Hobs) as Hl. rewrite Hgl in Hl.
  eapply post_bind; [by apply (push_embeddings_ok run fps)|].
  intros _ [run'' w''] (Hw & ds & [Hs Ha]). cbn in Hs, Hw. subst run'' w''. cbn. split; [done|]. exists fps, ds. split; [by split|].
  eapply observed_batch; [by intros ->|exact Hcs|exact Hes|lia|exact Hobs].
Qed.

(** ** A pass *)
Context (planner_calm : forall embeddings spec bound target p, (finish_planning_pass embeddings spec bound target p).1 <> Panic).

(** What a finished pass leaves. *)
Record finished run (report : IndexingPassReport) run' : Prop := {
  fin_state : exists h p, run' = complete_pass h (set_policy p (set_embeddings [] run))
    /\ validate_partition_hierarchy h (items_seen_in_current_pass run) = Ok tt
    /\ planned_partition_count report = length (partitions h);
  fin_phase : phase run = Planning;
  fin_items : (0 < items_seen_in_current_pass run)%nat;
  fin_replay : forall b, baseline run = Some b -> items_seen_in_current_pass run = length b
}.

Lemma run_finish_pass_ok run : (block_size_target run <= USIZE_MAX)%N ->
  post (fun run' => exists p, run' = set_policy p run) (finished run) (finish_pass run).
Proof.
  intros Husize. assert (exists p, run = set_policy p run) as HE by (exists (planning_policy run); by destruct run).
  unfold finish_pass, ibind, check_pass.
  destruct (bool_decide_reflect (phase run = Planning)) as [Hphase|]; cbn [negb]; [|exact HE].
  destruct (Nat.eqb_spec (items_seen_in_current_pass run) 0) as [|Hpos]; cbn [negb]; [exact HE|].
  destruct (match baseline run with Some b => (items_seen_in_current_pass run =? length b)%nat | None => true end) eqn:Hreplay; [|exact HE].
  pose proof (materializability_bound_no_panic (embedding_spec run) (block_size_target run) Husize) as Hb.
  destruct (materializability_bound _ _) as [bound|e|]; [clear Hb|exact HE|done]. cbn [map_err].
  pose proof (planner_calm (current_pass_f32_embeddings run) (embedding_spec run) (N.to_nat bound) (block_size_target run)
    (planning_policy run)) as Hcalm.
  destruct (finish_planning_pass _ _ _ _ _) as [[outcome|e|] p]; cbn in Hcalm; [|exists p; by destruct run|done]. cbn [map_err rbind].
  pose proof (validate_no_panic (hierarchy outcome) (items_seen_in_current_pass run)) as Hnp.
  destruct (validate_partition_hierarchy (hierarchy outcome) (items_seen_in_current_pass run)) as [[]|e|] eqn:Hv;
    [|exists p; by destruct run|done].
  destruct (validate_ok _ _ Hv) as (t & Hvalid). cbn [map_err rbind]. rewrite (hierarchy_stats_ok _ _ _ Hvalid). cbn.
  split; [exists (hierarchy outcome), p; done|done|lia|]. intros b Hbase. rewrite Hbase in Hreplay. by apply Nat.eqb_eq.
Qed.

(** ** Invariant *)
Record run_inv run : Prop := {
  ri_started : completed_passes run = 0%N <-> baseline run = None;
  ri_planned : baseline run = None <-> finalized_hierarchy run = None;
  ri_complete : phase run <> Planning -> items_seen_in_current_pass run = 0%nat /\ exists items h,
    baseline run = Some items /\ finalized_hierarchy run = Some h /\ validate_partition_hierarchy h (length items) = Ok tt
}.

Lemma with_pass_inv run items ds seen : phase run = Planning -> run_inv run -> run_inv (with_pass items ds seen run).
Proof. intros Hp [Hs Hpl _]. split; [exact Hs|exact Hpl|]. intros Hne. by destruct Hne. Qed.

Lemma partly_inv run x : run_inv run -> partly run x -> run_inv x.1 /\ phase x.1 = phase run /\ baseline x.1 = baseline run.
Proof.
  intros [Hs Hp Hc] (fps & ds & [He _]). rewrite He. split; [|done]. by split.
Qed.

Lemma mark_ok run : run_inv run ->
  post (fun run' => run' = run) (fun _ run' => phase run = Planning /\ run' = set_phase PlanningComplete run /\ run_inv run')
    (mark_planning_complete run).
Proof.
  intros [Hs Hpl _]. unfold mark_planning_complete.
  destruct (bool_decide_reflect (phase run = Planning)) as [Hphase|]; cbn [negb]; [|done].
  destruct (N.eqb_spec (completed_passes run) 0) as [|Hpass]; cbn [negb]; [done|].
  destruct (Nat.eqb_spec (items_seen_in_current_pass run) 0) as [Hseen|]; [|done].
  destruct (finalized_hierarchy run) as [h|] eqn:Hh; [|done]. cbn [ok_or rbind].
  pose proof (validate_no_panic h (baseline_len run)) as Hnp.
  destruct (validate_partition_hierarchy h (baseline_len run)) as [[]|e|] eqn:Hv; [|done|done]. cbn.
  split_and!; [done|done|]. unfold baseline_len in Hv. destruct (baseline run) as [items|] eqn:Hb; [|naive_solver].
  split; cbn; [by rewrite Hb|by rewrite Hb, Hh|]. intros _. split; [done|]. exists items, h. auto.
Qed.

(** ** Calls *)
Inductive Call :=
| IngestBatch (batch : list (IndexItem R)) | FinishPass | MarkPlanningComplete | Finalize (batches : list (list (IndexItem R))).

Definition perform (c : Call) : index_m (StreamingIndexingRun P * (W * S)) unit := fun '(run, (w, s)) =>
  match c with
  | IngestBatch batch => let '(r, (run, w)) := ingest_batch batch (run, w) in (r, (run, (w, s)))
  | FinishPass => let '(r, run) := finish_pass run in (rmap (fun _ => tt) r, (run, (w, s)))
  | MarkPlanningComplete => let '(r, run) := mark_planning_complete run in (r, (run, (w, s)))
  | Finalize batches => let '(r, run, x) := finalize run batches (w, s) in (rmap (fun _ => tt) r, (run, x))
  end.

(** The calls one after the other; an error ends none of the later ones. *)
Fixpoint perform_all (calls : list Call) (x : StreamingIndexingRun P * (W * S))
  : list (result StreamingIndexerError unit) * (StreamingIndexingRun P * (W * S)) :=
  match calls with
  | [] => ([], x)
  | c :: calls => let '(r, x) := perform c x in let '(rs, x) := perform_all calls x in (r :: rs, x)
  end.

(** The phases: which calls may succeed in one, and where they lead. *)
Definition next_phase (p : RunPhase) (c : Call) (succeeds : bool) : option RunPhase :=
  if succeeds then
    match p, c with
    | Planning, (IngestBatch _ | FinishPass) => Some Planning
    | Planning, MarkPlanningComplete => Some PlanningComplete
    | PlanningComplete, Finalize _ => Some Finalized
    | _, _ => None
    end
  else Some p.
Fixpoint phases (p : RunPhase) (calls : list Call) (rs : list (result StreamingIndexerError unit)) : option RunPhase :=
  match calls, rs with
  | c :: calls, r :: rs => next_phase p c (is_ok r) ≫= fun p => phases p calls rs
  | _, _ => Some p
  end.

(** What stays as it is configured. *)
Definition same_settings run run' : Prop :=
  branch_encoding_policy run' = branch_encoding_policy run /\ embedding_spec run' = embedding_spec run
  /\ block_size_target run' = block_size_target run.

Record performed run s (c : Call) (r : result StreamingIndexerError unit) run' s' : Prop := {
  pf_calm : r <> Panic;
  pf_phase : next_phase (phase run) c (is_ok r) = Some (phase run');
  pf_inv : run_inv run';
  pf_settings : same_settings run run';
  pf_baseline : forall b, baseline run = Some b -> baseline run' = Some b;
  pf_store : durable_ok s' /\ grows s s'
}.

Lemma run_perform_ok run w s c r run' w' s' : run_inv run -> durable_ok s ->
  calm_authoring (branch_encoding_policy run) (embedding_spec run) -> (block_size_target run <= USIZE_MAX)%N ->
  perform c (run, (w, s)) = (r, (run', (w', s'))) -> performed run s c r run' s'.
Proof.
  intros Hinv Hok Hcalm Husize Hp. destruct c as [batch| | |batches]; cbn [perform] in Hp.
  - pose proof (run_ingest_batch_ok run batch w) as Hpost.
    destruct (ingest_batch batch (run, w)) as [[[]|e|] [run1 w1]]; injection Hp as <- <- <- <-; cbn in Hpost; [| |done].
    + destruct Hpost as (Hphase & fps & ds & [-> _ _] & _). split; try done; [by cbn; rewrite Hphase|by apply with_pass_inv].
    + destruct (partly_inv _ _ Hinv Hpost) as (Hinv' & Hph & Hbase). cbn in *. split; try done; [by cbn; rewrite Hph| |by rewrite Hbase].
      destruct Hpost as (fps & ds & [Hst _]). cbn in Hst. by rewrite Hst.
  - pose proof (run_finish_pass_ok run Husize) as Hpost.
    destruct (finish_pass run) as [[report|e|] run1]; injection Hp as <- <- <- <-; cbn in Hpost; [| |done].
    + destruct Hpost as [(h & p & -> & Hv & _) Hphase Hpos Hrep]. split; try done; [by cbn; rewrite Hphase| |].
      * split; cbn; [|destruct (baseline run); done|by intros []]. destruct (baseline run); split; try done; intros; lia.
      * intros b Hb. cbn. by rewrite Hb.
    + destruct Hpost as [p ->]. destruct Hinv as [Hs Hpl Hc]. by split; try done.
  - pose proof (mark_ok run Hinv) as Hpost.
    destruct (mark_planning_complete run) as [[[]|e|] run1]; injection Hp as <- <- <- <-; cbn in Hpost; [| |done].
    + destruct Hpost as (Hphase & -> & Hinv'). split; try done. cbn. by rewrite Hphase.
    + subst run1. by split.
  - destruct (finalize run batches (w, s)) as [[r1 run1] [w1 s1]] eqn:Hf. injection Hp as <- <- <- <-.
    destruct (finalize_ok run batches w s r1 run1 w1 s1 Hok Hcalm Husize Hf) as (Hok' & Hg & Hr).
    destruct r1 as [result|e|]; [| |done].
    + destruct Hr as (Hphase & -> & _). destruct Hinv as [Hs Hpl Hc].
      split; try done; [by cbn; rewrite Hphase|]. split; [exact Hs|exact Hpl|]. intros _. cbn. apply Hc. by rewrite Hphase.
    + subst run1. by split.
Qed.

Lemma perform_all_ok calls : forall run w s rs run' w' s', run_inv run -> durable_ok s ->
  calm_authoring (branch_encoding_policy run) (embedding_spec run) -> (block_size_target run <= USIZE_MAX)%N ->
  perform_all calls (run, (w, s)) = (rs, (run', (w', s'))) ->
  Forall (fun r => r <> Panic) rs /\ phases (phase run) calls rs = Some (phase run') /\ run_inv run' /\ same_settings run run'
  /\ (forall b, baseline run = Some b -> baseline run' = Some b) /\ durable_ok s' /\ grows s s'.
Proof.
  induction calls as [|c calls IH]; intros run w s rs run' w' s' Hinv Hok Hcalm Husize Hp; cbn [perform_all] in Hp.
  - injection Hp as <- <- <- <-. by split_and!.
  - destruct (perform c (run, (w, s))) as [r [run1 [w1 s1]]] eqn:Hc.
    destruct (perform_all calls (run1, (w1, s1))) as [rs1 [run2 [w2 s2]]] eqn:Hall. injection Hp as <- <- <- <-.
    destruct (run_perform_ok _ _ _ _ _ _ _ _ Hinv Hok Hcalm Husize Hc) as [Hnp Hph Hinv1 (Hse & Hsp & Hst) Hb [Hok1 Hg1]].
    rewrite <-Hse, <-Hsp in Hcalm. rewrite <-Hst in Husize.
    destruct (IH _ _ _ _ _ _ _ Hinv1 Hok1 Hcalm Husize Hall) as (Hnps & Hphs & Hinv2 & (Hse2 & Hsp2 & Hst2) & Hb2 & Hok2 & Hg2).
    split_and!; [by constructor| |done|by split_and!; congruence|auto|done|by etrans].
    cbn. rewrite Hph. exact Hphs.
Qed.

(** ** Passes as a whole *)
Lemma accepted_app run n1 fps1 ds1 run1 n2 fps2 ds2 run2 :
  accepted run n1 fps1 ds1 run1 -> accepted run1 n2 fps2 ds2 run2 ->
  accepted run (n1 + n2) (fps1 ++ fps2) (ds1 ++ ds2) run2.
Proof.
  intros [-> <- Ha1] [-> <- Ha2]. split.
  - unfold pushed, with_pass. cbn. rewrite Nat.add_assoc, app_assoc.
    destruct (baseline run); cbn; by rewrite ?app_assoc.
  - apply length_app.
  - unfold agree in *. cbn in Ha2. destruct (baseline run) as [b|]; [|done].
    intros i fp [Hi|[Hge Hi]]%lookup_app_Some; [by apply Ha1|]. specialize (Ha2 _ _ Hi). rewrite <-Ha2. f_equal. lia.
Qed.

(** Batches that are all accepted, one after the other. *)
Lemma ingest_all_ok batches : forall run w s calls rs x,
  perform_all (map IngestBatch batches ++ calls) (run, (w, s)) = (rs, x) -> Forall (fun r => r = Ok tt) rs ->
  exists fpss ds run' w' rs', accepted run (length (concat batches)) (concat fpss) ds run'
    /\ asked (observed (embedding_spec run)) batches w fpss w'
    /\ perform_all calls (run', (w', s)) = (rs', x) /\ Forall (fun r => r = Ok tt) rs'.
Proof.
  induction batches as [|batch batches IH]; intros run w s calls rs x Hp Hrs; cbn [map app] in Hp.
  - exists [], [], run, w, rs. split_and!; [apply accepted_nil|constructor|done|done].
  - cbn [perform_all perform] in Hp. pose proof (run_ingest_batch_ok run batch w) as Hpost.
    destruct (ingest_batch batch (run, w)) as [r [run1 w1]].
    destruct (perform_all (map IngestBatch batches ++ calls) (run1, (w1, s))) as [rs1 x1] eqn:Hall. injection Hp as <- <-.
    apply Forall_cons in Hrs as [-> Hrs]. destruct Hpost as (_ & fps1 & ds1 & Ha1 & Ho1). cbn in Ha1, Ho1.
    destruct (IH _ _ _ _ _ _ Hall Hrs) as (fpss & ds & run' & w' & rs' & Ha & Ho & Hrest).
    exists (fps1 :: fpss), (ds1 ++ ds), run', w', rs'. cbn [concat]. rewrite length_app. split_and!; [by eapply accepted_app| |apply Hrest|apply Hrest].
    econstructor; [exact Ho1|]. destruct Ha1 as [-> _ _]. exact Ho.
Qed.

(** C24 A pass whose batches are all accepted and that finishes has the items of the
    baseline: for each item of its batches, in order, the baseline has at its position
    the fingerprint of the answers the item got in this pass, that is the hash the
    resolver gave for its reference, the hash of its metadata, of the content the
    resolver returned for it and of the embedding the provider returned for that
    content. The first pass establishes that baseline, and no later pass finishes with
    other items. The hierarchy that the pass leaves is valid for exactly those items.
    The size target is a usize. *)
Theorem pass_replays_baseline run w s batches rs run' w' s' : (block_size_target run <= USIZE_MAX)%N ->
  items_seen_in_current_pass run = 0%nat -> (baseline run = None -> current_pass_items run = []) ->
  perform_all (map IngestBatch batches ++ [FinishPass]) (run, (w, s)) = (rs, (run', (w', s'))) ->
  Forall (fun r => r = Ok tt) rs ->
  exists fingerprints h, asked (observed (embedding_spec run)) batches w fingerprints w'
    /\ baseline run' = Some (concat fingerprints) /\ length (concat fingerprints) = length (concat batches)
    /\ (forall established, baseline run = Some established -> established = concat fingerprints)
    /\ finalized_hierarchy run' = Some h /\ validate_partition_hierarchy h (length (concat batches)) = Ok tt
    /\ items_seen_in_current_pass run' = 0%nat /\ completed_passes run' = (completed_passes run + 1)%N.
Proof.
  intros Husize Hseen Hclean Hp Hrs.
  destruct (ingest_all_ok _ _ _ _ _ _ _ Hp Hrs) as (fpss & ds & run1 & w1 & rs1 & [Hst Hl Ha] & Hobs & Hfin & Hrs1).
  cbn [perform_all perform] in Hfin. pose proof (run_finish_pass_ok run1 ltac:(by rewrite Hst)) as Hpost.
  destruct (finish_pass run1) as [r run2]. injection Hfin as <- <- <- <-. apply Forall_cons in Hrs1 as [Hr _].
  destruct r as [report|e|]; [|done|done]. destruct Hpost as [(h & p & -> & Hv & _) _ Hpos Hrep].
  subst run1. cbn in *. rewrite Hseen in *. cbn [Nat.add] in *. exists fpss, h. split; [exact Hobs|].
  unfold agree, pushed in *. destruct (baseline run) as [b|] eqn:Hb.
  - assert (concat fpss = b) as Hfb.
    { apply (list_eq_same_length _ _ (length b)); [done|rewrite Hl; by apply Hrep|].
      intros i x y _ Hx Hy. specialize (Ha i x Hx). rewrite Hseen in Ha. cbn in Ha. congruence. }
    rewrite Hfb in *. split_and!; try done. by intros ? [= <-].
  - rewrite Hclean by done. split_and!; done.
Qed.

End lifecycle.

(** ** The indexer: witnesses

    Five items, a planner that splits them into two partitions, and a filesystem
    store: a whole run, on which the theorems apply. A second resolver fails once
    in the middle of a batch. *)

(** ** The surroundings *)

(** Item [r] has a body of one byte; the state counts the fingerprints, and the one
    numbered by the first component fails. *)
Definition sources : Type := option N * N.
#[export] Instance sample_resolver : ContentResolver sources N := {|
  resolve r w := (Ok {| media_type := "text/plain"; body := le_split 1 r |}, w);
  fingerprint r w := (if bool_decide (w.1 = Some w.2) then Err "timeout" else Ok (hash_of_N r), (w.1, w.2 + 1)%N)
|}.
#[export] Instance sample_provider : EmbeddingProvider sources := {|
  embed input _ w := (Ok (input_body input), w);
  embed_batch inputs _ w := (Ok (map input_body inputs), w)
|}.
#[export] Instance sample_calm : CalmSources (W := sources) (R := N).
Proof. split; [done| |done]. intros r w. cbn. by destruct (bool_decide _). Qed.

#[export] Instance sample_half : HalfCrate := fun b => le_combine b.
#[export] Instance sample_half64 : HalfF64 := {| f16_le_bytes_to_f64 b := le_combine b; f16_of_f64 v := le_split 2 v |}.
#[export] Instance sample_pca : PcaFit := fun _ => Err "no decomposition".
#[export] Instance sample_ln : LnF64 := fun x => x.
#[export] Instance sample_io : LocalIo := fun _ => None.
#[export] Instance sample_summary : ChildSummaryPolicy := ExactCentroidChildSummaryPolicy (fun _ => EmptyString).

Definition part (name : string) (parent : option string) (kids : list string) (items : list nat) : FinalizedPartition :=
  {| partition_id := name; parent_id := parent; child_ids := kids; item_indices := items;
     terminal := bool_decide (kids = []); planning_stage := Single |}.
(** The first [cut] items, and the rest. *)
Definition two_parts (cut n : nat) : FinalizedPartitionHierarchy :=
  {| root_partition_id := "root";
     partitions := [part "root" None ["a"; "b"] (seq 0 n); part "a" (Some "root") [] (seq 0 cut);
                    part "b" (Some "root") [] (seq cut (n - cut))] |}.
#[export] Instance sample_planner : HierarchicalPlanningPolicy nat := fun embeddings _ _ _ cut =>
  (Ok {| hierarchy := two_parts cut (length embeddings); outcome_requested := None; outcome_realized := None;
         planning_quality_metric := 0%N; planning_balance_metric := 0%N; planning_quality_direction := SmallerIsBetter;
         planning_balance_direction := SmallerIsBetter; stages_used := [Single] |}, cut).

Definition sample_spec1 : EmbeddingSpec := {| dims := 1; encoding := "i8" |}.
Definition item (r : N) : IndexItem N := {| item_metadata := [(VText "id", VInteger (Z.of_N r))]; content_ref := r |}.
Definition items5 : list (IndexItem N) := map item [1; 2; 3; 4; 5]%N.
Definition target : N := 200.

#[local] Existing Instance checksum.
#[local] Existing Instances reference_codec reference_layout.

Notation disk_store := (FilesystemBlockStore (gmap path (bytes * N))) (only parsing).
Definition empty_store : disk_store := {| store_root := root; cache_state := None; fs := ∅ |}.
Definition batches5 : list (list (IndexItem N)) := [take 2 items5; drop 2 items5].
Definition planning_calls : list (Call (R := N)) := map IngestBatch batches5 ++ [FinishPass].
Definition fresh (cut : nat) : StreamingIndexingRun nat := new_with_branch_encoding cut Ordinary sample_spec1 target.

(** ** Authoring that does not panic *)
Lemma ordinary_calm : calm_authoring Ordinary sample_spec1.
Proof.
  split; [done|]. intros children. unfold summarize_children, sample_summary, ExactCentroidChildSummaryPolicy.
  assert (forall e s c, no_panic (decode_embedding_as_f64 e s c)) as Hdec.
  { intros e s c. unfold decode_embedding_as_f64. np. apply validate_embedding_no_panic. }
  assert (forall n o w sums d values, no_panic (add_values n o w d sums values)) as Hadd.
  { intros n o w sums. induction sums as [|x sums IH]; intros d [|v values]; cbn; [done..|]. np. }
  unfold exact_centroid_child_summary. np.
  - destruct b as [sums weight], x as [i c]. unfold centroid_step. np; by apply map_err_no_panic.
  - unfold divide_sums. np.
  - unfold encode_embedding_from_f64. cbv zeta. np;
      unfold encode_f32_value, encode_f16_value, encode_i8_value; np.
Qed.

Lemma planner_calm embeddings spec bound size_target cut :
  (finish_planning_pass (P := nat) embeddings spec bound size_target cut).1 <> Panic.
Proof. done. Qed.

Lemma empty_store_durable : durable_ok empty_store.
Proof. by split. Qed.

(** ** The whole run *)
Definition planned : StreamingIndexingRun nat * (sources * disk_store) :=
  (perform_all (planning_calls ++ [MarkPlanningComplete]) (fresh 3, ((None, 0%N), empty_store))).2.

Lemma split_call {A B C D : Type} (f : C * D -> A * B * (C * D)) x :
  f (x.1, x.2) = (((f x).1.1, (f x).1.2), ((f x).2.1, (f x).2.2)).
Proof. destruct x as [c d]. cbn. by destruct (f (c, d)) as [[a b] [c' d']]. Qed.

Lemma finalize_indexes_baseline_witness : exists result items,
  (finalize planned.1 [items5] planned.2).1.1 = Ok result /\ baseline planned.1 = Some items /\ length items = 5%nat
  /\ length (block_ids result) = 8%nat
  /\ index_complete sample_spec1 target items (finalize planned.1 [items5] planned.2).2.2 result.
Proof.
  assert (durable_ok planned.2.2) as Hok by (vm_compute; done).
  assert (branch_encoding_policy planned.1 = Ordinary /\ embedding_spec planned.1 = sample_spec1
    /\ block_size_target planned.1 = target) as (He & Hs & Ht) by (vm_compute; done).
  assert (calm_authoring (branch_encoding_policy planned.1) (embedding_spec planned.1)) as Hcalm
    by (rewrite He, Hs; exact ordinary_calm).
  destruct (finalize_indexes_baseline planned.1 [items5] planned.2.1 planned.2.2 _ _ _ _ Hok Hcalm ltac:(by rewrite Ht) (split_call _ _)) as (_ & _ & Hres).
  assert (rmap (fun r => length (block_ids r)) (finalize planned.1 [items5] planned.2).1.1 = Ok 8%nat) as Hlen
    by (vm_compute; reflexivity).
  destruct (finalize planned.1 [items5] planned.2).1.1 as [result|e|]; [|discriminate Hlen|discriminate Hlen].
  destruct Hres as (_ & _ & items & Hitems & Hix). exists result, items. rewrite Hs, Ht in Hix. injection Hlen as Hlen.
  assert (length <$> baseline planned.1 = Some 5%nat) as H5 by (vm_compute; reflexivity). rewrite Hitems in H5. injection H5 as H5.
  split; [reflexivity|]. split; [exact Hitems|]. split; [exact H5|]. split; [exact Hlen|exact Hix].
Defined.

Lemma split_all {A B C D : Type} (f : B * (C * D) -> A * (B * (C * D))) b c d :
  f (b, (c, d)) = ((f (b, (c, d))).1, ((f (b, (c, d))).2.1, ((f (b, (c, d))).2.2.1, (f (b, (c, d))).2.2.2))).
Proof. by destruct (f (b, (c, d))) as [a [b' [c' d']]]. Qed.

(** The calls of a pass on the new run. *)
Notation after_pass := (perform_all planning_calls (fresh 3, ((None, 0%N), empty_store))).

Lemma pass_replays_baseline_witness : exists fingerprints h,
  asked (observed sample_spec1) batches5 (None, 0%N) fingerprints after_pass.2.2.1
  /\ baseline after_pass.2.1 = Some (concat fingerprints) /\ length (concat fingerprints) = 5%nat
  /\ finalized_hierarchy after_pass.2.1 = Some h /\ validate_partition_hierarchy h 5 = Ok tt.
Proof.
  assert (Forall (fun r => r = Ok tt) after_pass.1) as Hall by (vm_compute; repeat constructor).
  destruct (pass_replays_baseline planner_calm (fresh 3) (None, 0%N) empty_store batches5 _ _ _ _ ltac:(done) eq_refl (fun _ => eq_refl)
    (split_all (perform_all planning_calls) _ _ _) Hall) as (fps & h & Ho & Hb & Hl & _ & Hh & Hv & _).
  exists fps, h. auto.
Defined.

(** The same run with a second pass, then finalized, and a call too many. *)
Definition all_calls : list (Call (R := N)) :=
  planning_calls ++ planning_calls ++ [MarkPlanningComplete; Finalize [items5]; FinishPass].
Notation whole := (perform_all all_calls (fresh 3, ((None, 0%N), empty_store))).


(** A batch whose second fingerprint fails once, and the same batch again: both of its
    items are accepted, but the fingerprint of the first attempt stayed in the pass, so
    that the baseline of the two items holds three and planning can never complete. *)
Example retried_batch_spoils_run :
  let calls := [IngestBatch (take 2 items5); IngestBatch (take 2 items5); FinishPass; MarkPlanningComplete] in
  let '(rs, (run, _)) := perform_all calls (fresh 1, ((Some 1%N, 0%N), empty_store)) in
  rs = [Err (ContentResolution "timeout"); Ok tt; Ok tt;
        Err (HierarchyValidation "root partition must cover the complete logical item set")]
  /\ length <$> baseline run = Some 3%nat.
Proof. vm_compute. done. Qed.

(** ** Spill files *)
Definition sample_child (n : N) : IndexedChild :=
  {| ic_embedding := le_split 1 n; ic_child := hash_of_N n; ic_level := 0; ic_descendant_count := 1 |}.

Lemma materializability_bound_exact_witness :
  materializability_bound sample_spec1 target = Ok 4%N
  /\ (exists size, serialized_branch_size sample_spec1 4 = Ok size /\ (size <= target)%N)
  /\ exists size, serialized_branch_size sample_spec1 5 = Ok size /\ (target < size)%N.
Proof.
  assert (materializability_bound sample_spec1 target = Ok 4%N) as E by (vm_compute; reflexivity).
  pose proof (@materializability_bound_exact reference_codec reference_laws reference_layout checksum sample_spec1 target ltac:(by apply N.leb_le)) as Hb. cbv zeta in Hb.
  rewrite E in Hb. split; [exact E|]. exact (proj2 (proj2 (proj2 Hb))).
Defined.

Lemma spill_roundtrip_witness :
  (let? spill := new_spill 2 in
   let? spill := try_fold (fun spill p => append_leaf_child spill (N.of_nat p.1) p.2) spill
     [(0%nat, sample_child 7); (1%nat, sample_child 8); (0%nat, sample_child 9)] in
   let? spill := finish_spill spill in
   read_partition_children spill 0) = Ok [sample_child 7; sample_child 9].
Proof.
  pose proof (spill_roundtrip 2 [(0%nat, sample_child 7); (1%nat, sample_child 8); (0%nat, sample_child 9)] 0) as Hr.
  specialize (Hr ltac:(repeat constructor; vm_compute; first [lia|discriminate]) ltac:(lia)).
  destruct (rbind (new_spill 2) _) as [cs|e|] eqn:E; [|revert E; vm_compute; discriminate|done].
  cbn in Hr. rewrite <-Hr. vm_compute. reflexivity.
Defined.
