(* ===== verification/BranchEncodingCorrect.v ===== *)
(** * Authored branches: quantized payloads

    A quantized value is a code within its bit width, the codes are written into
    disjoint bits of the payload, and the reader of the block format gets them
    back. *)
From S2P Require Import Prelude Ordering Hash Cbor Ieee FloatFacts Ebcp EbcpPayload EbcpCorrect BlockV1 Store IndexTypes IndexHierarchy IndexLayer BranchEncoding.
From Stdlib Require Import Floats.SpecFloat.

(** ** Codes *)

(** Floats that are an integer: the bounds of the clamp for every bit width. *)
Definition holds_integer (x : f64) (s : bool) (z : Z) : bool :=
  match decode binary64 x with
  | S754_zero _ => (z =? 0)%Z
  | S754_finite s' m e => Bool.eqb s s' && (e <? 0)%Z && (2 ^ 52 <=? Zpos m)%Z && (Zpos m =? z * 2 ^ (- e))%Z
  | _ => false
  end.
Lemma clamp_bounds_exact (w : N) : (1 <= w <= 31)%N -> let z := (2 ^ Z.of_N (w - 1) - 1)%Z in
  holds_integer (f_of_Z binary64 z) false z = true /\ holds_integer (fneg binary64 (f_of_Z binary64 z)) true z = true.
Proof.
  intros Hw. cbv zeta. assert (forallb (fun n => let z := (2 ^ Z.of_N (N.of_nat n - 1) - 1)%Z in
    holds_integer (f_of_Z binary64 z) false z && holds_integer (fneg binary64 (f_of_Z binary64 z)) true z) (seq 1 31) = true)
    as Hall by (vm_compute; reflexivity).
  rewrite forallb_forall in Hall. specialize (Hall (N.to_nat w) ltac:(apply in_seq; lia)). cbv zeta in Hall.
  rewrite N2Nat.id in Hall. by apply andb_true_iff in Hall.
Qed.

(** The magnitude of a finite float has 53 bits. *)
Lemma decode_mantissa64 x s m e : decode binary64 x = S754_finite s m e -> (Zpos m < 2 ^ 53)%Z.
Proof. intros Hd%decode_mantissa. change (mant_bits binary64 + 1)%N with 53%N in Hd. lia. Qed.

Lemma quot_le m e z : (e < 0)%Z -> (0 <= m <= z * 2 ^ (- e))%Z -> (0 <= trunc_at m e <= z)%Z.
Proof.
  intros He [Hm Hz]. unfold trunc_at. assert (0 < 2 ^ (- e))%Z as Hp by (apply Z.pow_pos_nonneg; lia).
  rewrite Z.quot_div_nonneg by done. split; [by apply Z.div_pos|]. apply Z.div_le_upper_bound; lia.
Qed.

(** A finite float within the bounds truncates to an integer within them. *)
Lemma within_bounds m e mq eq z : (Zpos m < 2 ^ 53)%Z -> (eq < 0)%Z -> (2 ^ 52 <= Zpos mq)%Z -> (Zpos mq = z * 2 ^ (- eq))%Z ->
  (e < eq)%Z \/ (e = eq /\ (m <= mq)%positive) -> (e < 0)%Z /\ (0 <= Zpos m <= z * 2 ^ (- e))%Z.
Proof.
  intros Hm Heq Hmq Hz [Hlt|[-> Hle]]; [|split; [done|]; rewrite <-Hz; lia]. split; [lia|]. split; [lia|].
  assert (2 * 2 ^ (- eq) <= 2 ^ (- e))%Z as Hpow.
  { rewrite <-Z.pow_succ_r by lia. apply Z.pow_le_mono_r; lia. }
  assert (0 < z)%Z as Hpos by (assert (0 < 2 ^ (- eq))%Z by (apply Z.pow_pos_nonneg; lia); nia). nia.
Qed.

(** What a bound is, decoded. *)
Lemma holds_integer_cases x s z : holds_integer x s z = true ->
  (z = 0%Z /\ exists s', decode binary64 x = S754_zero s')
  \/ exists m e, decode binary64 x = S754_finite s m e /\ (e < 0)%Z /\ (2 ^ 52 <= Zpos m)%Z /\ (Zpos m = z * 2 ^ (- e))%Z.
Proof.
  unfold holds_integer. destruct (decode binary64 x) as [s'|s'| |s' m e]; try done.
  - intros ->%Z.eqb_eq. left. split; [done|]. by exists s'.
  - intros [[[->%Bool.eqb_prop He%Z.ltb_lt]%andb_true_iff Hm%Z.leb_le]%andb_true_iff Hz%Z.eqb_eq]%andb_true_iff.
    right. exists m, e. auto.
Qed.

Lemma as_i32_bound x s m e z : decode binary64 x = S754_finite s m e -> (e < 0)%Z -> (0 <= Zpos m <= z * 2 ^ (- e))%Z ->
  (0 <= z < 2 ^ 31)%Z -> (- z <= f64_as_i32 x <= z)%Z.
Proof.
  intros Hx He Hm Hz. unfold f64_as_i32, f64_as_int. rewrite Hx. rewrite (proj2 (Z.leb_gt _ _)) by done.
  pose proof (quot_le (Zpos m) e z He Hm) as Hq. unfold trunc_at in *. destruct s; cbn [signed].
  - change (Zneg m) with (- Zpos m)%Z. rewrite Z.quot_opp_l by (apply Z.pow_nonzero; lia). lia.
  - lia.
Qed.

Lemma clamped_code x w : (1 <= w <= 31)%N -> let z := (2 ^ Z.of_N (w - 1) - 1)%Z in let q := f_of_Z binary64 z in
  (- z <= f64_as_i32 (f64_clamp x (fneg binary64 q) q) <= z)%Z.
Proof.
  intros Hw z q. destruct (clamp_bounds_exact w Hw) as [Hq Hn]. fold z in Hq, Hn. fold q in Hq, Hn.
  assert (0 <= z < 2 ^ 31)%Z as Hz.
  { assert (1 <= 2 ^ Z.of_N (w - 1) <= 2 ^ 30)%Z; [|lia]. split; [apply Z.lt_pred_le, Z.pow_pos_nonneg; lia|apply Z.pow_le_mono_r; lia]. }
  assert (forall y s, holds_integer y s z = true -> (- z <= f64_as_i32 y <= z)%Z) as Hself.
  { intros y s [(-> & s' & Hy)|(m & e & Hy & He & _ & Hm)]%holds_integer_cases.
    - unfold f64_as_i32, f64_as_int. rewrite Hy. lia.
    - apply (as_i32_bound y s m e); [done|done|lia|done]. }
  unfold f64_clamp. destruct (fltb binary64 x (fneg binary64 q)) eqn:Hlow; [by eapply Hself|].
  destruct (fltb binary64 q x) eqn:Hhigh; [by eapply Hself|].
  unfold fltb in Hlow, Hhigh. destruct (decode binary64 x) as [s|s| |s m e] eqn:Hx.
  1,3: unfold f64_as_i32, f64_as_int; rewrite Hx; lia.
  - exfalso. apply holds_integer_cases in Hq as [(_ & s' & Hq)|(? & ? & Hq & _)], Hn as [(_ & s'' & Hn)|(? & ? & Hn & _)];
      rewrite Hq, Hn in *; by destruct s.
  - pose proof (decode_mantissa64 _ _ _ _ Hx) as Hm53.
    apply holds_integer_cases in Hq as [(Hz0 & s' & Hq)|(mq & eq & Hq & Heq & Hmq & Hzq)],
      Hn as [(Hz1 & s'' & Hn)|(mn & en & Hn & Hen & Hmn & Hzn)]; rewrite Hq in Hhigh; rewrite Hn in Hlow.
    + exfalso. by destruct s.
    + exfalso. rewrite Hz0 in Hzn. lia.
    + exfalso. rewrite Hz1 in Hzq. lia.
    + assert (exists m' e', (e' < 0)%Z /\ (2 ^ 52 <= Zpos m')%Z /\ (Zpos m' = z * 2 ^ (- e'))%Z
        /\ ((e < e')%Z \/ (e = e' /\ (m <= m')%positive))) as (m' & e' & He' & Hm' & Hz' & Hcmp).
      { destruct s; cbn in Hlow, Hhigh.
        - exists mn, en. split_and!; [done|done|done|]. destruct (Z.compare_spec e en) as [->|?|?]; [|by left|done].
          right. split; [done|]. 
          change (Pos.compare_cont Eq m mn) with (Pos.compare m mn) in Hlow. destruct (Pos.compare_spec m mn); [lia|lia|done].
        - exists mq, eq. split_and!; [done|done|done|]. destruct (Z.compare_spec eq e) as [->|?|?]; [|done|by left].
          right. split; [done|]. change (Pos.compare_cont Eq mq m) with (Pos.compare mq m) in Hhigh.
          destruct (Pos.compare_spec mq m); [lia|done|lia]. }
      destruct (within_bounds m e m' e' z Hm53 He' Hm' Hz' Hcmp) as [He Hbound].
      by apply (as_i32_bound x s m e).
Qed.

Lemma quantized_code_ok value scale w : (1 <= w <= 31)%N ->
  exists code, quantized_code value scale w = Ok code /\ (1 <= code < 2 ^ w)%N.
Proof.
  intros Hw. unfold quantized_code, half_range.
  rewrite (proj2 (N.eqb_neq _ _)), (proj2 (N.ltb_ge _ _)) by lia. cbn [orb rbind].
  set (half := (2 ^ Z.of_N (w - 1))%Z). assert (1 <= half <= 2 ^ 30)%Z as Hhalf.
  { unfold half. split; [apply Z.lt_pred_le, Z.pow_pos_nonneg; lia|apply Z.pow_le_mono_r; lia]. }
  assert (wrap_i32 half = half) as ->.
  { unfold wrap_i32. rewrite Z.mod_small by lia. lia. }
  rewrite (proj2 (Z.ltb_ge _ _)), (proj2 (Z.leb_gt _ _)) by lia. cbn [orb].
  match goal with |- context [f64_clamp ?x _ _] => pose proof (clamped_code x w Hw) as Hc end. cbv zeta in Hc. fold half in Hc.
  set (code := f64_as_i32 _) in *. clearbody code. cbv zeta.
  rewrite (proj2 (Z.ltb_ge _ _)), (proj2 (Z.leb_gt _ _)) by lia. cbn [orb].
  rewrite (proj2 (Z.ltb_ge _ _)) by lia. exists (Z.to_N (code + half)). split; [done|].
  assert (2 ^ w = Z.to_N (2 * half))%N as ->.
  { unfold half. rewrite <-Z.pow_succ_r by lia. replace (Z.succ (Z.of_N (w - 1))) with (Z.of_N w) by lia.
    by rewrite Z2N.inj_pow, N2Z.id by lia. }
  lia.
Qed.

(** ** Bits *)
Lemma testbit_beyond (b : bytes) i : (8 * len b <= i)%N -> N.testbit (le_combine b) i = false.
Proof.
  intros Hi. destruct (N.eq_dec (le_combine b) 0) as [->|Hne]; [apply N.bits_0|]. apply N.bits_above_log2.
  pose proof (le_combine_bound b) as Hb. apply N.log2_lt_pow2; [lia|]. eapply N.lt_le_trans; [exact Hb|].
  change 256%N with (2 ^ 8)%N. rewrite <-N.pow_mul_r. by apply N.pow_le_mono_r.
Qed.

Lemma lor_fits a b n : (a < 2 ^ n)%N -> (b < 2 ^ n)%N -> (N.lor a b < 2 ^ n)%N.
Proof.
  intros Ha Hb. destruct (N.eq_dec (N.lor a b) 0) as [->|Hne]; [by apply N.neq_0_lt_0, N.pow_nonzero|].
  apply N.log2_lt_pow2; [lia|]. rewrite N.log2_lor. apply N.max_lub_lt.
  - destruct (N.eq_dec a 0) as [->|]; [|apply N.log2_lt_pow2; lia]. destruct (N.eq_dec b 0) as [->|]; [done|].
    apply N.le_lt_trans with (N.log2 b); [apply N.le_0_l|]. apply N.log2_lt_pow2; lia.
  - destruct (N.eq_dec b 0) as [->|]; [|apply N.log2_lt_pow2; lia]. destruct (N.eq_dec a 0) as [->|]; [done|].
    apply N.le_lt_trans with (N.log2 a); [apply N.le_0_l|]. apply N.log2_lt_pow2; lia.
Qed.

(** The bits of a bit in its place. *)
Lemma shifted_bit_testbit bit i j : (bit <= 1)%N -> N.testbit (N.shiftl bit i) j = (bit =? 1)%N && (j =? i)%N.
Proof.
  intros Hbit. assert (bit = 0 \/ bit = 1)%N as [->| ->] by lia; [by rewrite N.shiftl_0_l, N.bits_0|].
  rewrite N.shiftl_1_l, N.pow2_bits_eqb. by rewrite N.eqb_sym.
Qed.

Lemma or_bit_ok (b : bytes) i bit : (i < 8 * len b)%N -> (bit <= 1)%N ->
  exists b', or_bit b i bit = Ok b' /\ len b' = len b
  /\ le_combine b' = N.lor (le_combine b) (N.shiftl bit i).
Proof.
  intros Hi Hbit. unfold or_bit. set (k := N.to_nat (i / 8)).
  assert (forall j, (j < 8 * len b)%N -> (N.to_nat (j / 8) < length b)%nat) as Hindex.
  { intros j Hj. unfold len in *. assert (j / 8 < N.of_nat (length b))%N; [|lia]. apply N.Div0.div_lt_upper_bound; lia. }
  destruct (lookup_lt_is_Some_2 b k (Hindex i Hi)) as [byte Hbyte]. rewrite Hbyte. cbn [expect rbind].
  eexists. split; [done|]. split; [unfold len; by rewrite length_insert|].
  assert (i mod 8 < 8)%N as Hm by (by apply N.mod_lt).
  assert (N.lor (Byte.to_N byte) (N.shiftl bit (i mod 8)) < 256)%N as Hfits.
  { change 256%N with (2 ^ 8)%N. pose proof (Byte.to_N_bounded byte). apply lor_fits; [lia|].
    rewrite N.shiftl_mul_pow2. apply N.le_lt_trans with (1 * 2 ^ (i mod 8))%N; [by apply N.mul_le_mono_r|].
    rewrite N.mul_1_l. by apply N.pow_lt_mono_r. }
  apply N.bits_inj. intros j. rewrite N.lor_spec, shifted_bit_testbit by done.
  destruct (N.lt_ge_cases j (8 * len b)) as [Hj|Hj].
  - destruct (lookup_lt_is_Some_2 _ _ (Hindex j Hj)) as [bj Hbj]. rewrite (le_combine_testbit b j bj Hbj).
    pose proof (N.Div0.div_mod i 8) as Hi8. pose proof (N.Div0.div_mod j 8) as Hj8.
    destruct (decide (N.to_nat (j / 8) = k)) as [Hjk|Hjk].
    + erewrite le_combine_testbit by (rewrite Hjk; by apply list_lookup_insert_eq, Hindex).
      rewrite byte_of_N_to_N, N.mod_small by done. rewrite N.lor_spec, shifted_bit_testbit by done.
      assert (bj = byte) as -> by (rewrite Hjk in Hbj; congruence). do 2 f_equal.
      assert (j / 8 = i / 8)%N as Hd by (unfold k in Hjk; lia).
      destruct (N.eqb_spec (j mod 8) (i mod 8)), (N.eqb_spec j i); [done| | |done]; exfalso; congruence || lia.
    + rewrite (le_combine_testbit _ j bj) by (by rewrite list_lookup_insert_ne).
      assert ((j =? i)%N = false) as ->; [|by rewrite andb_false_r, orb_false_r]. apply N.eqb_neq. by intros ->.
  - rewrite !testbit_beyond by (unfold len in *; rewrite ?length_insert; done).
    assert ((j =? i)%N = false) as ->; [apply N.eqb_neq; lia|by rewrite andb_false_r].
Qed.

Lemma write_bits_ok b start w v : (start + w <= 8 * len b)%N -> (v < 2 ^ w)%N ->
  exists b', write_lsb_first_bits b start w v = Ok b' /\ len b' = len b
  /\ le_combine b' = N.lor (le_combine b) (N.shiftl v start).
Proof.
  intros Hfit Hv. unfold write_lsb_first_bits.
  destruct (fold_succeeds (fun n b' => len b' = len b /\ le_combine b' = N.lor (le_combine b) (N.shiftl (v mod 2 ^ N.of_nat n) start))
    (fun b i => or_bit b (start + N.of_nat i) (N.land (N.shiftr v (N.of_nat i)) 1)) (seq 0 (N.to_nat w)) 0 b)
    as (b' & Hf & Hl & Hc).
  - split; [done|]. change (2 ^ N.of_nat 0)%N with 1%N. by rewrite N.mod_1_r, N.shiftl_0_l, N.lor_0_r.
  - intros j i c Hi [Hl Hc]. apply lookup_seq in Hi as [-> Hj]. rewrite Nat.add_0_l in *.
    destruct (or_bit_ok c (start + N.of_nat j) (N.land (N.shiftr v (N.of_nat j)) 1)) as (c' & Hor & Hl' & Hc').
    + rewrite Hl. lia.
    + rewrite land_shiftr_testbit. by destruct (N.testbit v (N.of_nat j)).
    + exists c'. split; [done|]. split; [congruence|]. rewrite Hc', Hc, land_shiftr_testbit, <-N.lor_assoc. f_equal.
      replace (N.of_nat (Datatypes.S j)) with (N.of_nat j + 1)%N by lia. rewrite <-mod_pow2_succ_lor, N.shiftl_lor. f_equal.
      rewrite N.shiftl_shiftl. f_equal. lia.
  - exists b'. split; [done|]. split; [done|]. rewrite Hc, length_seq, Nat.add_0_l, N2Nat.id. by rewrite N.mod_small.
Qed.

(** ** Fields *)

(** Codes packed without gaps: each with its width. *)
Definition packed (l : list (N * N)) : N := foldr (fun p rest => (p.2 + 2 ^ p.1 * rest)%N) 0%N l.

Lemma packed_bound l : Forall (fun p => (p.2 < 2 ^ p.1)%N) l -> (packed l < 2 ^ fields_width l)%N.
Proof.
  induction 1 as [|[w c] l Hc _ IH]; [done|]. cbn [packed fields_width foldr fst snd] in *. fold (packed l). fold (fields_width l).
  rewrite N.pow_add_r. nia.
Qed.

(** Adding above is writing into clear bits. *)
Lemma lor_above a v n : (a < 2 ^ n)%N -> N.lor a (N.shiftl v n) = (a + 2 ^ n * v)%N.
Proof.
  intros Ha. rewrite N.shiftl_mul_pow2, N.mul_comm.
  assert (N.land a (2 ^ n * v) = 0%N) as Hd.
  { apply N.bits_inj_0. intros i. rewrite N.land_spec. destruct (N.lt_ge_cases i n) as [Hi|Hi].
    - rewrite N.mul_comm, N.mul_pow2_bits_low by done. apply andb_false_r.
    - rewrite <-(N.mod_small a (2 ^ n)), N.mod_pow2_bits_high by done. done. }
  rewrite <-N.lxor_lor by done. symmetry. by apply N.add_nocarry_lxor.
Qed.

(** Reading a field back. *)
Lemma code_at_packed b start w c rest low : le_combine b = (low + 2 ^ start * (c + 2 ^ w * rest))%N -> (low < 2 ^ start)%N ->
  (c < 2 ^ w)%N -> code_at b start w = c.
Proof.
  intros Hb Hlow Hc. unfold code_at. rewrite Hb, (N.mul_comm (2 ^ start)), N.div_add, N.div_small, N.add_0_l by (done || by apply N.pow_nonzero).
  rewrite (N.mul_comm (2 ^ w)), N.Div0.mod_add. by apply N.mod_small.
Qed.

(** The value of a code, as the reader computes it. *)
Definition code_value (code width : N) (scale : f32) : f32 :=
  fmul binary32 (f_of_Z binary32 (Z.of_N code - 2 ^ (Z.of_N width - 1))) scale.

Lemma dequantize_packed b : forall fields scales start low,
  le_combine b = (low + 2 ^ start * packed fields)%N -> (low < 2 ^ start)%N ->
  Forall (fun p => (p.2 < 2 ^ p.1)%N) fields -> length fields = length scales ->
  dequantize b start (zip (map fst fields) scales) = zip_with (fun p scale => code_value p.2 p.1 scale) fields scales.
Proof.
  induction fields as [|[w c] fields IH]; intros [|scale scales] start low Hb Hlow Hf Hl; cbn in Hl; try done.
  inversion Hf as [|? ? Hc Hf']; subst. cbn [fst snd] in Hc. cbn [map zip zip_with dequantize fst snd].
  cbn [packed foldr fst snd] in Hb. fold (packed fields) in Hb.
  assert (code_at b start w = c) as Hcode by (by eapply code_at_packed). f_equal.
  - unfold dequantized, code_value. by rewrite Hcode.
  - apply (IH _ _ (low + 2 ^ start * c)%N); [|rewrite N.pow_add_r; nia|done|lia].
    rewrite Hb, N.pow_add_r. nia.
Qed.

(** ** Packing *)
Lemma pack_loop_ok l : forall b offset, Forall (fun p : f32 * N * f32 => 1 <= p.1.2 <= 31)%N l ->
  (le_combine b < 2 ^ offset)%N -> (offset + fields_width (map (fun p => (p.1.2, tt)) l) <= 8 * len b)%N ->
  exists b' codes, try_fold pack_step (b, offset) l = Ok (b', (offset + fields_width (map (fun p => (p.1.2, tt)) l))%N)
  /\ len b' = len b /\ collect_map (fun p => quantized_code p.1.1 p.2 p.1.2) l = Ok codes
  /\ Forall (fun p => (p.2 < 2 ^ p.1)%N) (zip (map (fun p => p.1.2) l) codes)
  /\ le_combine b' = (le_combine b + 2 ^ offset * packed (zip (map (fun p => p.1.2) l) codes))%N.
Proof.
  induction l as [|[[value width] scale] l IH]; intros b offset Hw Hb Hfit; cbn [try_fold collect_map map fst snd].
  - exists b, []. cbn. rewrite N.add_0_r. split_and!; [done..|constructor|]. lia.
  - inversion Hw as [|? ? Hw1 Hw2]; subst. cbn [map fields_width foldr fst snd] in Hw1, Hfit |- *.
    fold (fields_width (map (fun p : f32 * N * f32 => (p.1.2, tt)) l)) in *. cbn [pack_step].
    destruct (quantized_code_ok value scale width Hw1) as (code & -> & Hcode). cbn [rbind fst snd].
    destruct (write_bits_ok b offset width code) as (b1 & -> & Hl1 & Hc1); [lia|lia|]. cbn [rbind].
    rewrite lor_above in Hc1 by done.
    destruct (IH b1 (offset + width)%N Hw2) as (b' & codes & -> & Hl & -> & Hcs & Hv).
    { rewrite Hc1, N.pow_add_r. nia. }
    { lia. }
    cbn [rbind]. exists b', (code :: codes). rewrite N.add_assoc. split_and!; [done|lia|done|constructor; [cbn; lia|done]|].
    cbn [zip zip_with packed foldr fst snd]. fold (packed (zip (map (fun p : f32 * N * f32 => p.1.2) l) codes)).
    rewrite Hv, Hc1, N.pow_add_r. nia.
Qed.

Lemma total_bits_ok {E' A} (f : A -> N) (e : E') l : forall acc,
  (acc + fields_width (map (fun x => (f x, tt)) l) <= USIZE_MAX)%N ->
  try_fold (fun sum x => ok_or (checked_add USIZE_MAX sum (f x)) e) acc l
  = Ok (acc + fields_width (map (fun x => (f x, tt)) l))%N.
Proof.
  induction l as [|w l IH]; intros acc Hs; cbn [try_fold map fields_width foldr fst] in *.
  - by rewrite N.add_0_r.
  - fold (fields_width (map (fun x => (f x, tt)) l)) in *. unfold checked_add at 1. rewrite (proj2 (N.leb_le _ _)) by lia.
    cbn [ok_or rbind]. rewrite IH by lia. f_equal. lia.
Qed.

Lemma zip3_middle {A B C} (xs : list A) (ys : list B) (zs : list C) : length xs = length ys -> length xs = length zs ->
  map (fun p => p.1.2) (zip (zip xs ys) zs) = ys.
Proof.
  revert ys zs. induction xs as [|x xs IH]; intros [|y ys] [|z zs] H1 H2; cbn in *; try done. f_equal. apply IH; lia.
Qed.

Lemma le_combine_zeros n : le_combine (replicate n Byte.x00) = 0%N.
Proof. induction n as [|n IH]; [done|]. cbn [replicate le_combine]. by rewrite IH. Qed.

(** What packing gives, for any list of widths the format admits. *)
Lemma pack_quantized_ok values widths scales :
  length values = length widths -> length values = length scales -> Forall (fun w => (1 <= w <= 31)%N) widths ->
  (fields_width (map (fun w => (w, tt)) widths) + 7 <= USIZE_MAX)%N ->
  exists payload codes, pack_quantized_delta_vector values widths scales = Ok payload
  /\ len payload = ((fields_width (map (fun w => (w, tt)) widths) + 7) / 8)%N
  /\ collect_map (fun p => quantized_code p.1.1 p.2 p.1.2) (zip (zip values widths) scales) = Ok codes
  /\ length codes = length scales
  /\ dequantize payload 0 (zip widths scales) = zip_with (fun p scale => code_value p.2 p.1 scale) (zip widths codes) scales.
Proof.
  intros H1 H2 Hw Hs. unfold pack_quantized_delta_vector.
  rewrite (proj2 (Nat.eqb_eq _ _) H1), (proj2 (Nat.eqb_eq _ _) H2). cbn [andb].
  rewrite (total_bits_ok (fun w => w)) by lia. cbn [rbind]. rewrite N.add_0_l.
  pose proof (zip3_middle values widths scales H1 H2) as Hmid.
  set (total := fields_width (map (fun w => (w, tt)) widths)) in *.
  destruct (pack_loop_ok (zip (zip values widths) scales) (replicate (N.to_nat ((total + 7) / 8)) Byte.x00) 0)
    as (payload & codes & -> & Hl & Hcodes & Hfit & Hv).
  - rewrite <-Hmid in Hw. by apply Forall_map in Hw.
  - by rewrite le_combine_zeros.
  - rewrite <-(map_map (fun p : f32 * N * f32 => p.1.2) (fun w => (w, tt))), Hmid. fold total.
    unfold len. rewrite length_replicate, N2Nat.id. pose proof (N.Div0.div_mod (total + 7) 8).
    pose proof (N.mod_lt (total + 7) 8). lia.
  - cbn [rmap rbind fst]. pose proof (collect_map_length _ _ _ Hcodes) as Hn.
    assert (length codes = length scales) as Hcl by (rewrite Hn, !length_zip; lia).
    exists payload, codes. split_and!; [done| |done|done|].
    + rewrite Hl. unfold len. by rewrite length_replicate, N2Nat.id.
    + rewrite Hmid in *. rewrite le_combine_zeros, N.add_0_l in Hv.
      replace (zip widths scales) with (zip (map fst (zip widths codes)) scales) by (rewrite fst_zip by lia; done).
      apply (dequantize_packed payload _ _ _ 0%N); [rewrite N.add_0_l; exact Hv|done|done|].
      rewrite length_zip. lia.
Qed.

Lemma to_of_widths widths : Forall (fun w => (1 <= w <= 31)%N) widths -> map Byte.to_N (map byte_of_N widths) = widths.
Proof.
  intros Hw. rewrite map_map. rewrite <-(map_id widths) at 2. apply map_ext_in. intros w Hin.
  rewrite Forall_forall in Hw. specialize (Hw w (proj2 (list_elem_of_In _ _) Hin)).
  rewrite byte_of_N_to_N. apply N.mod_small. lia.
Qed.

(** C26 What a branch author packs the readers of the block format unpack: for delta
    vectors with any bit widths from 1 to 31, packing neither fails nor panics, and both
    the variable and the uniform reader accept the payload and return the value of every
    quantized code, in order. *)
Theorem packed_vector_decodes values widths scales :
  length values = length widths -> length values = length scales -> Forall (fun w => (1 <= w <= 31)%N) widths ->
  Forall (fun scale => scale_ok scale = true) scales -> (31 * len widths + 7 <= USIZE_MAX)%N ->
  exists payload codes, pack_quantized_delta_vector values widths scales = Ok payload
  /\ collect_map (fun p => quantized_code p.1.1 p.2 p.1.2) (zip (zip values widths) scales) = Ok codes
  /\ unpack_quantized_payload payload (map byte_of_N widths) scales
     = Ok (zip_with (fun p scale => code_value p.2 p.1 scale) (zip widths codes) scales)
  /\ forall width, widths = replicate (length scales) width -> (1 <= width)%N ->
     unpack_quantized_payload_uniform payload width scales
     = Ok (zip_with (fun p scale => code_value p.2 p.1 scale) (zip widths codes) scales).
Proof.
  intros H1 H2 Hw Hs Hmax.
  assert (fields_width (map (fun w => (w, tt)) widths) <= 31 * len widths)%N as Htotal.
  { clear -Hw. unfold len. induction Hw as [|w widths Hw _ IH]; [done|]. cbn [map fields_width foldr fst length].
    fold (fields_width (map (fun w => (w, tt)) widths)). lia. }
  destruct (pack_quantized_ok values widths scales H1 H2 Hw) as (payload & codes & Hp & Hl & Hcodes & Hcl & Hd);
    [by etrans; [apply N.add_le_mono_r|exact Hmax]|].
  exists payload, codes. split; [done|]. split; [done|]. rewrite <-Hd.
  assert (forall e : BlockError, ok_or (option_map (fun value => value / 8)%N
    (checked_add USIZE_MAX (fields_width (map (fun w => (w, tt)) widths)) 7)) e = Ok (len payload)) as Hlen.
  { intros e. unfold checked_add. rewrite (proj2 (N.leb_le _ _)) by lia. by rewrite Hl. }
  split.
  - rewrite <-(to_of_widths widths Hw) at 2. eapply unpack_variable_ok with (e1 := NonConforming "") (e := NonConforming "").
    + unfold len. rewrite length_map. lia.
    + apply Forall_map. eapply Forall_impl; [exact Hw|]. intros w Hb. cbv beta in Hb. unfold width_ok. rewrite byte_of_N_to_N, N.mod_small by lia.
      by change EBCP_MAX_SUPPORTED_BIT_WIDTH with 31%N.
    + done.
    + unfold sum_bit_widths. assert (fields_width (map (fun w => (Byte.to_N w, tt)) (map byte_of_N widths))
        = fields_width (map (fun w => (w, tt)) widths)) as Heq.
      { by rewrite <-(map_map Byte.to_N (fun w => (w, tt))), to_of_widths. }
      rewrite total_bits_ok by (rewrite Heq; lia). by rewrite Heq.
    + apply Hlen.
    + done.
  - intros width Hrep H1w. destruct scales as [|scale scales'] eqn:Hscales.
    { cbn [length replicate] in Hrep. rewrite Hrep in Hl |- *. cbn in Hl. unfold unpack_quantized_payload_uniform.
      unfold quantized_expected_len, checked_mul. cbn. by rewrite Hl. }
    rewrite <-Hscales in *.
    assert (zip widths scales = map (fun s => (width, s)) scales) as ->.
    { rewrite Hrep. clear. induction scales as [|s scales IH]; [done|]. cbn. by rewrite IH. }
    assert (1 <= width <= 31)%N as Hw1.
    { rewrite Hrep, Hscales in Hw. by inversion Hw. }
    assert (fields_width (map (fun w => (w, tt)) widths) = (len scales * width)%N) as Hprod.
    { rewrite Hrep. unfold len. clear. induction (length scales) as [|n IH]; [done|]. cbn [replicate map fields_width foldr fst].
      fold (fields_width (map (fun w => (w, tt)) (replicate n width))). rewrite IH. lia. }
    eapply unpack_uniform_ok with (e := NonConforming ""); [by unfold width_ok|done| |rewrite <-?Hprod; apply Hlen|done].
    unfold checked_mul. rewrite <-Hprod, (proj2 (N.leb_le _ _)) by lia. done.
Qed.

Lemma packed_vector_decodes_witness : exists payload codes,
  pack_quantized_delta_vector [1065353216; 3204448256]%N [3; 5]%N [1056964608; 1065353216]%N = Ok payload
  /\ collect_map (fun p => quantized_code p.1.1 p.2 p.1.2)
       (zip (zip [1065353216; 3204448256] [3; 5]) [1056964608; 1065353216])%N = Ok codes
  /\ unpack_quantized_payload payload (map byte_of_N [3; 5]%N) [1056964608; 1065353216]%N
     = Ok (zip_with (fun p scale => code_value p.2 p.1 scale) (zip [3; 5] codes) [1056964608; 1065353216])%N.
Proof.
  destruct (packed_vector_decodes [1065353216; 3204448256] [3; 5] [1056964608; 1065353216])%N as (payload & codes & Hp & Hc & Hu & _);
    [reflexivity|reflexivity|repeat constructor; lia|repeat constructor; reflexivity|vm_compute; discriminate|].
  exists payload, codes. auto.
Defined.

(** One vector of three dimensions through both halves. *)
Example packed_sample :
  pack_quantized_delta_vector [1065353216; 3204448256; 0]%N [3; 5; 31]%N [1056964608; 1065353216; 1065353216]%N
  = Ok [Byte.x86; Byte.x00; Byte.x00; Byte.x00; Byte.x40].
Proof. vm_compute. reflexivity. Qed.
