(* ===== verification/Pca.v ===== *)
(** * Principal components

    crates/lexongraph-pca/src/lib.rs: the streaming accumulator of mean and scatter
    matrix, the transform it is finalized into, validation, application, truncation
    and diagnostics. Matrices are flat lists by columns. The decomposition of a
    symmetric matrix is nalgebra's ([SymmetricEigen]); the text of a float in an
    error message is left open ([ShowFloat]). *)
From S2P Require Import Prelude Ordering Hash Ieee.

Class ShowFloat := { show_f32 : f32 -> string; show_f64 : f64 -> string }.

(** [SymmetricEigen::new] of a matrix with that many columns: the eigenvalues and
    the columns of the eigenvectors. *)
Class SymmetricEigen := symmetric_eigen : N -> list f64 -> list f64 * list (list f64).

(** ** Errors *)
Inductive PcaError :=
| DimensionMismatch (context : string) (expected actual : N)
| PcaEmptyInput
| InsufficientSamples (sample_count : N)
| NonFiniteInput (context : string) (index : nat)
| InvalidTruncationDimension (requested available : N)
| DegenerateCovariance (index : nat) (eigenvalue : f64)
| DecompositionFailure (message : string)
| InvalidNumericState (message : string)
| InvalidSerializedFormat (message : string)
| SchemaVersionMismatch (expected actual : N)
| ValidationFailure (message : string)
| QuantizationConfigurationError (message : string).

Definition PcaError_to_string `{ShowFloat} (e : PcaError) : string :=
  match e with
  | DimensionMismatch context expected actual =>
      context +:+ " dimension mismatch: expected " +:+ pretty expected +:+ ", got " +:+ pretty actual
  | PcaEmptyInput => "PCA fitting requires at least one input vector"
  | InsufficientSamples n => "PCA finalization requires at least two samples, got " +:+ pretty n
  | NonFiniteInput context index => context +:+ " contains a non-finite value at index " +:+ pretty (N.of_nat index)
  | InvalidTruncationDimension requested available =>
      "invalid truncation dimension " +:+ pretty requested +:+ "; available output dimension is " +:+ pretty available
  | DegenerateCovariance index eigenvalue =>
      "covariance eigenvalue at index " +:+ pretty (N.of_nat index) +:+ " is negative beyond tolerance: "
      +:+ show_f64 eigenvalue
  | DecompositionFailure m => "PCA decomposition failed: " +:+ m
  | InvalidNumericState m => "invalid numeric state: " +:+ m
  | InvalidSerializedFormat m => "invalid serialized transform artifact: " +:+ m
  | SchemaVersionMismatch expected actual =>
      "schema version mismatch: expected " +:+ pretty expected +:+ ", got " +:+ pretty actual
  | ValidationFailure m => "validation failed: " +:+ m
  | QuantizationConfigurationError m => "invalid quantization configuration: " +:+ m
  end%stdpp.

Notation pca := (result PcaError) (only parsing).

(** ** Shared checks *)
Definition CURRENT_SCHEMA_VERSION : N := 1.
(** [1e-10], and [1e-4] and [1e-6] of the default tolerances. *)
Definition SMALL_NEGATIVE_EIGENVALUE_TOLERANCE : f64 := 4457293557087583675.
Record ValidationTolerances := { tolerance_orthonormality : f64; tolerance_variance : f32 }.
Definition ValidationTolerances_default : ValidationTolerances :=
  {| tolerance_orthonormality := 4547007122018943789; tolerance_variance := 897988541 |}.

Definition ensure_dim (context : string) (expected actual : N) : pca unit :=
  guard? (expected =? actual)%N else DimensionMismatch context expected actual in Ok tt.

Definition ensure_current_schema (context : string) (schema_version : N) : pca unit :=
  guard? (schema_version =? CURRENT_SCHEMA_VERSION)%N else
    ValidationFailure (context +:+ " requires schema_version " +:+ pretty CURRENT_SCHEMA_VERSION +:+ ", got "
      +:+ pretty schema_version)%stdpp in
  Ok tt.

Definition checked_len_product (context : string) (left right : N) : pca N :=
  ok_or (checked_mul USIZE_MAX left right)
    (ValidationFailure (context +:+ " length computation overflowed for " +:+ pretty left +:+ " * " +:+ pretty right)%stdpp).

Definition ensure_finite_slice (context : string) (values : list f32) : pca unit :=
  try_fold (fun _ p => guard? f32_is_finite p.2 else NonFiniteInput context p.1 in Ok tt) tt (imap pair values).

Definition matrix_index (row_count row column : nat) : nat := row + column * row_count.
Definition entry {E} (m : list f32) (row_count row column : nat) : result E f32 :=
  expect (m !! matrix_index row_count row column).

(** ** The accumulator *)
Record PcaAccumulator := { acc_dim : N; sample_count : N; acc_mean : list f64; scatter : list f64 }.

Definition PcaAccumulator_new (dim : N) : pca PcaAccumulator :=
  let? scatter_len := expect (checked_mul USIZE_MAX dim dim) in
  Ok {| acc_dim := dim; sample_count := 0; acc_mean := replicate (N.to_nat dim) 0%N;
        scatter := replicate (N.to_nat scatter_len) 0%N |}.

Definition finite_values (vector : list f32) : pca (list f64) :=
  collect_map (fun p => guard? f32_is_finite p.2 else NonFiniteInput "accumulator update" p.1 in Ok (f64_of_f32 p.2))
    (imap pair vector).

(** The products of two vectors by columns: the rows are the entries of the first. *)
Definition outer (f : f64 -> f64 -> f64) (rows columns : list f64) : list f64 :=
  concat (map (fun c => map (fun r => f r c) rows) columns).

(** An error leaves the accumulator as it was. *)
Definition update (acc : PcaAccumulator) (vector : list f32) : pca PcaAccumulator :=
  let? _ := ensure_dim "accumulator update" (acc_dim acc) (len vector) in
  let? values := finite_values vector in
  if (sample_count acc =? 0)%N then
    Ok {| acc_dim := acc_dim acc; sample_count := 1; acc_mean := values; scatter := scatter acc |}
  else
    let? next_count := ok_or (checked_add U64_MAX (sample_count acc) 1) (InvalidNumericState "sample count overflow") in
    let next_count_f64 := f_of_Z binary64 (Z.of_N next_count) in
    let delta := zip_with (fsub binary64) values (acc_mean acc) in
    let mean := zip_with (fun m d => fadd binary64 m (fdiv binary64 d next_count_f64)) (acc_mean acc) delta in
    let delta2 := zip_with (fsub binary64) values mean in
    Ok {| acc_dim := acc_dim acc; sample_count := next_count; acc_mean := mean;
          scatter := zip_with (fadd binary64) (scatter acc) (outer (fmul binary64) delta delta2) |}.

Definition merge (acc other : PcaAccumulator) : pca PcaAccumulator :=
  let? _ := ensure_dim "accumulator merge" (acc_dim acc) (acc_dim other) in
  if (sample_count other =? 0)%N then Ok acc
  else if (sample_count acc =? 0)%N then Ok other
  else
    let? total_count := ok_or (checked_add U64_MAX (sample_count acc) (sample_count other))
      (InvalidNumericState "sample count overflow") in
    let self_count_f64 := f_of_Z binary64 (Z.of_N (sample_count acc)) in
    let other_count_f64 := f_of_Z binary64 (Z.of_N (sample_count other)) in
    let total_count_f64 := f_of_Z binary64 (Z.of_N total_count) in
    let delta := zip_with (fsub binary64) (acc_mean other) (acc_mean acc) in
    let correction_scale := fdiv binary64 (fmul binary64 self_count_f64 other_count_f64) total_count_f64 in
    let mean := zip_with (fun m d => fadd binary64 m (fmul binary64 d (fdiv binary64 other_count_f64 total_count_f64)))
      (acc_mean acc) delta in
    let scatter := zip_with (fadd binary64) (scatter acc) (scatter other) in
    Ok {| acc_dim := acc_dim acc; sample_count := total_count; acc_mean := mean;
          scatter := zip_with (fadd binary64) scatter
            (outer (fun row column => fmul binary64 (fmul binary64 row column) correction_scale) delta delta) |}.

Definition covariance_f64 (acc : PcaAccumulator) : pca (list f64) :=
  guard? negb (sample_count acc =? 0)%N else PcaEmptyInput in
  guard? negb (sample_count acc <? 2)%N else InsufficientSamples (sample_count acc) in
  let denominator := f_of_Z binary64 (Z.of_N (sample_count acc - 1)) in
  Ok (map (fun value => fdiv binary64 value denominator) (scatter acc)).

(** ** Transforms *)
Record PcaTransform := {
  input_dim : N; output_dim : N; mean : list f32; basis : list f32;
  explained_variance : option (list f32); schema_version : N
}.

(** The larger magnitude wins, the lower index among equal ones. *)
Definition pivot_step (best candidate : nat * f64) : nat * f64 :=
  match f64_total_cmp (fabs binary64 best.2) (fabs binary64 candidate.2) with
  | Gt => best
  | Lt => candidate
  | Eq => if (candidate.1 <? best.1)%nat then candidate else best
  end.
Definition canonicalize_sign (values : list f64) : pca (list f64) :=
  let? first := expect (head values) in
  let pivot := fold_left pivot_step (imap (fun i v => (S i, v)) (tail values)) (0%nat, first) in
  Ok (if sign_field binary64 pivot.2 then map (fneg binary64) values else values).

Definition orthonormality_error (input_dim output_dim : nat) (basis : list f32) : pca f64 :=
  let? sum := try_fold (fun sum p =>
    let '(one, other) := p in
    let? dot := try_fold (fun dot row =>
      let? l := entry basis input_dim row one in
      let? r := entry basis input_dim row other in
      Ok (fadd binary64 dot (fmul binary64 (f64_of_f32 l) (f64_of_f32 r)))) 0%N (seq 0 input_dim) in
    let expected := if (one =? other)%nat then f64_one else 0%N in
    let delta := fsub binary64 dot expected in
    Ok (fadd binary64 sum (fmul binary64 delta delta))) 0%N
    (concat (map (fun one => map (pair one) (seq 0 output_dim)) (seq 0 output_dim))) in
  Ok (fsqrt binary64 sum).

Section show.
Context `{ShowFloat}.

(** One entry of the variance: it is not negative and not more than the one before. *)
Definition check_variance (tolerance : f32) (variance : list f32) (p : nat * f32) : pca unit :=
  let '(index, value) := p in
  guard? negb (fltb binary32 value (fneg binary32 tolerance)) else
    ValidationFailure ("explained variance at index " +:+ pretty (N.of_nat index) +:+ " is negative: "
      +:+ show_f32 value)%stdpp in
  match index with
  | O => Ok tt
  | S before =>
      let? previous := expect (variance !! before) in
      guard? negb (fltb binary32 (fadd binary32 previous tolerance) value) else
        ValidationFailure ("explained variance is not monotone nonincreasing at index " +:+ pretty (N.of_nat index))%stdpp in
      Ok tt
  end.

Definition validate_with_tolerances (tolerances : ValidationTolerances) (t : PcaTransform) : pca unit :=
  let? _ := ensure_current_schema "PCA validate" (schema_version t) in
  guard? negb (input_dim t =? 0)%N else ValidationFailure "input_dim must be greater than zero" in
  guard? negb (output_dim t =? 0)%N else ValidationFailure "output_dim must be greater than zero" in
  guard? negb (input_dim t <? output_dim t)%N else
    ValidationFailure ("output_dim " +:+ pretty (output_dim t) +:+ " exceeds input_dim " +:+ pretty (input_dim t))%stdpp in
  let? expected_basis_len := checked_len_product "PCA basis" (input_dim t) (output_dim t) in
  let? _ := ensure_dim "PCA mean" (input_dim t) (len (mean t)) in
  let? _ := ensure_dim "PCA basis" expected_basis_len (len (basis t)) in
  let? _ := ensure_finite_slice "PCA mean" (mean t) in
  let? _ := ensure_finite_slice "PCA basis" (basis t) in
  let? _ := match explained_variance t with
    | Some variance =>
        let? _ := ensure_dim "PCA explained_variance" (output_dim t) (len variance) in
        let? _ := ensure_finite_slice "PCA explained_variance" variance in
        try_fold (fun _ => check_variance (tolerance_variance tolerances) variance) tt (imap pair variance)
    | None => Ok tt
    end in
  let? error := orthonormality_error (N.to_nat (input_dim t)) (N.to_nat (output_dim t)) (basis t) in
  guard? negb (fltb binary64 (tolerance_orthonormality tolerances) error) else
    ValidationFailure ("basis orthonormality error " +:+ show_f64 error +:+ " exceeds tolerance "
      +:+ show_f64 (tolerance_orthonormality tolerances))%stdpp in
  Ok tt.

Definition validate : PcaTransform -> pca unit := validate_with_tolerances ValidationTolerances_default.

(** One column of the decomposition: its eigenvalue adjusted, its sign fixed. *)
Definition eigenpair `{SymmetricEigen} (decomposition : list f64 * list (list f64)) (column : nat)
  : pca (nat * f64 * list f64) :=
  let? eigenvalue := expect (decomposition.1 !! column) in
  guard? f64_is_finite eigenvalue else
    DecompositionFailure "eigendecomposition produced a non-finite eigenvalue" in
  let? adjusted := (if fltb binary64 eigenvalue 0 then
      if fleb binary64 (fabs binary64 eigenvalue) SMALL_NEGATIVE_EIGENVALUE_TOLERANCE then Ok 0%N
      else Err (DegenerateCovariance column eigenvalue)
    else Ok eigenvalue) in
  let? basis_column := expect (decomposition.2 !! column) in
  let? _ := match list_find (fun value => f64_is_finite value = false) basis_column with
    | Some (index, _) => Err (DecompositionFailure ("eigendecomposition produced a non-finite basis value at index "
        +:+ pretty (N.of_nat index))%stdpp)
    | None => Ok tt
    end in
  let? basis_column := canonicalize_sign basis_column in
  Ok (column, adjusted, basis_column).

Definition by_eigenvalue (left right : nat * f64 * list f64) : comparison :=
  match f64_total_cmp right.1.2 left.1.2 with Eq => Nat.compare left.1.1 right.1.1 | ordering => ordering end.

Definition pca_finalize `{SymmetricEigen} (acc : PcaAccumulator) : pca PcaTransform :=
  guard? negb (acc_dim acc =? 0)%N else ValidationFailure "input_dim must be greater than zero" in
  let? covariance := covariance_f64 acc in
  let decomposition := symmetric_eigen (acc_dim acc) covariance in
  let? eigenpairs := collect_map (eigenpair decomposition) (seq 0 (N.to_nat (acc_dim acc))) in
  let eigenpairs := sort_by by_eigenvalue eigenpairs in
  let transform := {| input_dim := acc_dim acc; output_dim := acc_dim acc;
    mean := map f32_of_f64 (acc_mean acc);
    basis := concat (map (fun p => map f32_of_f64 p.2) eigenpairs);
    explained_variance := Some (map (fun p => f32_of_f64 p.1.2) eigenpairs);
    schema_version := CURRENT_SCHEMA_VERSION |} in
  let? _ := validate transform in
  Ok transform.

Definition ensure_runtime_shape (context : string) (t : PcaTransform) : pca unit :=
  let? _ := ensure_current_schema context (schema_version t) in
  guard? negb (input_dim t =? 0)%N else ValidationFailure (context +:+ " requires input_dim greater than zero")%stdpp in
  guard? negb (output_dim t =? 0)%N else ValidationFailure (context +:+ " requires output_dim greater than zero")%stdpp in
  guard? negb (input_dim t <? output_dim t)%N else
    ValidationFailure (context +:+ " requires output_dim <= input_dim, got " +:+ pretty (output_dim t) +:+ " > "
      +:+ pretty (input_dim t))%stdpp in
  let? expected_basis_len := checked_len_product context (input_dim t) (output_dim t) in
  let? _ := ensure_dim context (input_dim t) (len (mean t)) in
  let? _ := ensure_dim context expected_basis_len (len (basis t)) in
  let? _ := ensure_finite_slice context (mean t) in
  ensure_finite_slice context (basis t).

(** One coordinate of [apply]. *)
Definition coordinate (t : PcaTransform) (vector : list f32) (column : nat) : pca f32 :=
  try_fold (fun acc p =>
    let '(row, value) := p in
    let? b := entry (basis t) (N.to_nat (input_dim t)) row column in
    let? m := expect (mean t !! row) in
    Ok (fadd binary32 acc (fmul binary32 b (fsub binary32 value m)))) 0%N (imap pair vector).

Definition apply (t : PcaTransform) (vector : list f32) : pca (list f32) :=
  let? _ := ensure_dim "PCA apply" (input_dim t) (len vector) in
  let? _ := ensure_finite_slice "PCA apply" vector in
  let? _ := ensure_runtime_shape "PCA apply" t in
  collect_map (coordinate t vector) (seq 0 (N.to_nat (output_dim t))).

Definition apply_batch (t : PcaTransform) (input : list (list f32)) : pca (list (list f32)) :=
  collect_map (apply t) input.

(** Adding one column times a coordinate: [output[row] += m[row, column] * value]. *)
Definition add_column (m : list f32) (row_count : nat) (output : list f32) (p : nat * f32) : pca (list f32) :=
  let '(column, value) := p in
  collect_map (fun q =>
    let '(row, out) := q in
    let? b := entry m row_count row column in
    Ok (fadd binary32 out (fmul binary32 b value))) (imap pair output).

Definition reconstruct (t : PcaTransform) (coordinates : list f32) : pca (list f32) :=
  let? _ := ensure_dim "PCA reconstruct" (output_dim t) (len coordinates) in
  let? _ := ensure_finite_slice "PCA reconstruct" coordinates in
  let? _ := ensure_runtime_shape "PCA reconstruct" t in
  try_fold (add_column (basis t) (N.to_nat (input_dim t))) (mean t) (imap pair coordinates).

(** [explained_variance[..k]] panics where there are fewer. *)
Definition truncate (t : PcaTransform) (k : N) : pca PcaTransform :=
  guard? negb ((k =? 0) || (output_dim t <? k))%N else InvalidTruncationDimension k (output_dim t) in
  let? basis_len := expect (checked_mul USIZE_MAX (input_dim t) k) in
  let? variance := match explained_variance t with
    | Some variance => if (k <=? len variance)%N then Ok (Some (take (N.to_nat k) variance)) else Panic
    | None => Ok None
    end in
  let truncated := {| input_dim := input_dim t; output_dim := k; mean := mean t;
    basis := take (N.to_nat basis_len) (basis t); explained_variance := variance; schema_version := schema_version t |} in
  let? _ := validate truncated in
  Ok truncated.

(** [fit], [fit_truncated], [apply_in_place] *)
Definition fit `{SymmetricEigen} (vectors : list (list f32)) : pca PcaTransform :=
  match vectors with
  | [] => Err PcaEmptyInput
  | first :: _ =>
      let? accumulator := PcaAccumulator_new (len first) in
      let? accumulator := try_fold update accumulator vectors in
      pca_finalize accumulator
  end.
Definition fit_truncated `{SymmetricEigen} (vectors : list (list f32)) (k : N) : pca PcaTransform :=
  let? t := fit vectors in truncate t k.
End show.

(** The vectors before a failure are replaced all the same. *)
Fixpoint apply_in_place (batch : list (list f32)) (t : PcaTransform) : pca unit * list (list f32) :=
  match batch with
  | [] => (Ok tt, [])
  | vector :: rest =>
      match apply t vector with
      | Ok vector => let '(r, rest) := apply_in_place rest t in (r, vector :: rest)
      | Err e => (Err e, batch)
      | Panic => (Panic, batch)
      end
  end.

(** ** Variance and diagnostics *)

Fixpoint running_shares (running total : f32) (values : list f32) : list f32 :=
  match values with
  | [] => []
  | value :: rest =>
      let running := fadd binary32 running value in
      fdiv binary32 running total :: running_shares running total rest
  end.
Definition cumulative_variance (t : PcaTransform) : option (list f32) :=
  option_map (fun variance =>
    let total := sum_f32 variance in
    if fleb binary32 total 0 then map (fun _ => 0%N) variance else running_shares 0 total variance)
    (explained_variance t).

Record PcaDiagnostics := {
  diag_input_dim : N; diag_output_dim : N; diag_explained_variance : option (list f32);
  diag_cumulative_variance : option (list f32); diag_orthonormality_error : f64;
  condition_number : option f64; is_truncated : bool; rank_estimate : N;
  contains_nan : bool; contains_inf : bool
}.

(** [1e-6] *)
Definition RANK_THRESHOLD : f32 := 897988541.
Definition positive_values (values : list f32) : list f32 :=
  filter (fun value => fltb binary32 RANK_THRESHOLD value = true) values.
Definition reduce (f : f32 -> f32 -> f32) (values : list f32) : option f32 :=
  match values with [] => None | v :: vs => Some (fold_left f vs v) end.
Definition is_infinite (x : f32) : bool := negb (f32_is_finite x) && negb (is_nan binary32 x).

Definition diagnostics (t : PcaTransform) : pca PcaDiagnostics :=
  let values := mean t ++ basis t ++ default [] (explained_variance t) in
  let? error := orthonormality_error (N.to_nat (input_dim t)) (N.to_nat (output_dim t)) (basis t) in
  Ok {| diag_input_dim := input_dim t; diag_output_dim := output_dim t;
        diag_explained_variance := explained_variance t; diag_cumulative_variance := cumulative_variance t;
        diag_orthonormality_error := error;
        condition_number := variance ← explained_variance t;
          let positive := positive_values variance in
          max ← reduce (fmax binary32) positive;
          min ← reduce (fmin binary32) positive;
          Some (fdiv binary64 (f64_of_f32 max) (f64_of_f32 min));
        is_truncated := (output_dim t <? input_dim t)%N;
        rank_estimate := match explained_variance t with
          | Some variance => len (positive_values variance)
          | None => output_dim t
          end;
        contains_nan := existsb (is_nan binary32) values;
        contains_inf := existsb is_infinite values |}.
