(* ===== verification/PcaCodec.v ===== *)
(** * Principal components: files, affine maps and quantization

    crates/lexongraph-pca/src/lib.rs: the binary form of transforms and affine maps,
    the affine map of a transform, composition, the change from one transform to
    another, and the quantized form. A reader is an offset into the bytes. *)
From S2P Require Import Prelude Ordering Hash Ieee Pca.

(** ** Reading and writing *)
Definition PCA_MAGIC : bytes := String.list_byte_of_string "LPCA".
Definition AFFINE_MAGIC : bytes := String.list_byte_of_string "LAFF".
Definition SERIALIZATION_VERSION : N := 1.

Definition write_u32 (value : N) : bytes := le_split 4 value.
Definition write_u64 (value : N) : bytes := le_split 8 value.
Definition write_f32_slice (values : list f32) : bytes := concat (map f32_to_le_bytes values).

Definition unexpected_end : PcaError := InvalidSerializedFormat "unexpected end of input".

(** [bytes.get(offset..offset + count)], and the offset after it. *)
Definition get_slice (b : bytes) (offset count : N) (missing : PcaError) : pca (bytes * N) :=
  let? stop := expect (checked_add USIZE_MAX offset count) in
  guard? (stop <=? len b)%N else missing in
  Ok (take (N.to_nat count) (drop (N.to_nat offset) b), stop).

Definition expect_magic (b : bytes) (offset : N) (expected : bytes) : pca N :=
  let? '(actual, offset) := get_slice b offset (len expected) (InvalidSerializedFormat "missing magic bytes") in
  guard? bool_decide (actual = expected) else InvalidSerializedFormat "unexpected magic bytes" in
  Ok offset.
Definition read_u8 (b : bytes) (offset : N) : pca (N * N) :=
  let? value := ok_or (b !! N.to_nat offset) unexpected_end in Ok (Byte.to_N value, (offset + 1)%N).
Definition read_u32 (b : bytes) (offset : N) : pca (N * N) :=
  let? '(slice, offset) := get_slice b offset 4 unexpected_end in Ok (le_combine slice, offset).
Definition read_u64 (b : bytes) (offset : N) : pca (N * N) :=
  let? '(slice, offset) := get_slice b offset 8 unexpected_end in Ok (le_combine slice, offset).
Definition read_usize (b : bytes) (offset : N) (field : string) : pca (N * N) :=
  let? '(value, offset) := read_u64 b offset in
  guard? (value <=? USIZE_MAX)%N else InvalidSerializedFormat (field +:+ " does not fit in usize")%stdpp in
  Ok (value, offset).
Definition read_f32_vec (b : bytes) (offset count : N) : pca (list f32 * N) :=
  let? byte_count := ok_or (checked_mul USIZE_MAX count 4) (InvalidSerializedFormat "f32 byte count overflow") in
  let? '(slice, offset) := get_slice b offset byte_count unexpected_end in
  Ok (map f32_from_le_bytes (chunks_exact 4 slice), offset).

(** The header both formats share: the magic, the two versions. *)
Definition read_header (b magic : bytes) (kind : string) : pca N :=
  let? offset := expect_magic b 0 magic in
  let? '(serialization_version, offset) := read_u32 b offset in
  guard? (serialization_version =? SERIALIZATION_VERSION)%N else
    InvalidSerializedFormat ("unsupported " +:+ kind +:+ " serialization version " +:+ pretty serialization_version
      +:+ "; expected " +:+ pretty SERIALIZATION_VERSION)%stdpp in
  let? '(schema_version, offset) := read_u32 b offset in
  guard? (schema_version =? CURRENT_SCHEMA_VERSION)%N else SchemaVersionMismatch CURRENT_SCHEMA_VERSION schema_version in
  Ok offset.

Section show.
Context `{ShowFloat}.

Definition serialize (t : PcaTransform) : pca bytes :=
  let? _ := validate t in
  Ok (PCA_MAGIC ++ write_u32 SERIALIZATION_VERSION ++ write_u32 (schema_version t)
      ++ write_u64 (input_dim t) ++ write_u64 (output_dim t)
      ++ [match explained_variance t with Some _ => Byte.x01 | None => Byte.x00 end]
      ++ write_f32_slice (mean t) ++ write_f32_slice (basis t)
      ++ match explained_variance t with Some variance => write_f32_slice variance | None => [] end).

Definition deserialize (b : bytes) : pca PcaTransform :=
  let? offset := read_header b PCA_MAGIC "PCA" in
  let? '(input_dim, offset) := read_usize b offset "input_dim" in
  let? '(output_dim, offset) := read_usize b offset "output_dim" in
  let? '(flag, offset) := read_u8 b offset in
  guard? (flag <=? 1)%N else
    InvalidSerializedFormat ("invalid explained-variance presence flag " +:+ pretty flag +:+ "; expected 0 or 1")%stdpp in
  let? '(mean, offset) := read_f32_vec b offset input_dim in
  let? basis_len := ok_or (checked_mul USIZE_MAX input_dim output_dim) (InvalidSerializedFormat "basis length overflow") in
  let? '(basis, offset) := read_f32_vec b offset basis_len in
  let? '(explained_variance, offset) :=
    (if (flag =? 1)%N then
       let? '(variance, offset) := read_f32_vec b offset output_dim in Ok (Some variance, offset)
     else Ok (None, offset)) in
  guard? (offset =? len b)%N else InvalidSerializedFormat "unexpected trailing bytes" in
  let transform := {| input_dim := input_dim; output_dim := output_dim; mean := mean; basis := basis;
    explained_variance := explained_variance; schema_version := CURRENT_SCHEMA_VERSION |} in
  let? _ := validate transform in
  Ok transform.
End show.

(** ** Affine maps *)
Record AffineTransform := {
  affine_input_dim : N; affine_output_dim : N; matrix : list f32; bias : list f32; affine_schema : N
}.

Definition validate_operable (context : string) (a : AffineTransform) : pca unit :=
  let? _ := ensure_current_schema context (affine_schema a) in
  guard? negb (affine_input_dim a =? 0)%N else
    ValidationFailure (context +:+ " requires input_dim greater than zero")%stdpp in
  guard? negb (affine_output_dim a =? 0)%N else
    ValidationFailure (context +:+ " requires output_dim greater than zero")%stdpp in
  let? _ := ensure_dim context (affine_output_dim a) (len (bias a)) in
  let? expected_matrix_len := checked_len_product context (affine_input_dim a) (affine_output_dim a) in
  let? _ := ensure_dim context expected_matrix_len (len (matrix a)) in
  let? _ := ensure_finite_slice context (matrix a) in
  ensure_finite_slice context (bias a).

Definition affine_apply (a : AffineTransform) (vector : list f32) : pca (list f32) :=
  let? _ := ensure_dim "affine apply" (affine_input_dim a) (len vector) in
  let? _ := ensure_finite_slice "affine apply" vector in
  let? _ := validate_operable "affine apply" a in
  try_fold (add_column (matrix a) (N.to_nat (affine_output_dim a))) (bias a) (imap pair vector).

(** The rows of one column of a transform, and the bias they take away. *)
Definition affine_column (t : PcaTransform) (input_column : nat) : pca (list f32) :=
  collect_map (fun output_row => entry (basis t) (N.to_nat (input_dim t)) input_column output_row)
    (seq 0 (N.to_nat (output_dim t))).

Definition to_affine (t : PcaTransform) : pca AffineTransform :=
  let? _ := ensure_runtime_shape "PCA to_affine" t in
  let? columns := collect_map (affine_column t) (seq 0 (N.to_nat (input_dim t))) in
  let? bias := try_fold (fun bias p =>
      let '(input_column, values) := p in
      let? m := expect (mean t !! input_column) in
      Ok (zip_with (fun b value => fsub binary32 b (fmul binary32 value m)) bias values))
    (replicate (N.to_nat (output_dim t)) 0%N) (imap pair columns) in
  Ok {| affine_input_dim := input_dim t; affine_output_dim := output_dim t; matrix := concat columns; bias := bias;
        affine_schema := schema_version t |}.

Definition inverse_affine (t : PcaTransform) : pca AffineTransform :=
  let? _ := ensure_runtime_shape "PCA inverse_affine" t in
  let? columns := collect_map (fun column => collect_map (fun row => entry (basis t) (N.to_nat (input_dim t)) row column)
      (seq 0 (N.to_nat (input_dim t)))) (seq 0 (N.to_nat (output_dim t))) in
  Ok {| affine_input_dim := output_dim t; affine_output_dim := input_dim t; matrix := concat columns; bias := mean t;
        affine_schema := schema_version t |}.

(** One entry of the product of two matrices. *)
Definition product_entry (first second : AffineTransform) (input_column output_row : nat) : pca f32 :=
  try_fold (fun value shared =>
    let? s := entry (matrix second) (N.to_nat (affine_output_dim second)) output_row shared in
    let? f := entry (matrix first) (N.to_nat (affine_output_dim first)) shared input_column in
    Ok (fadd binary32 value (fmul binary32 s f))) 0%N (seq 0 (N.to_nat (affine_output_dim first))).

Definition affine_compose (first second : AffineTransform) : pca AffineTransform :=
  let? _ := validate_operable "affine composition" first in
  let? _ := validate_operable "affine composition" second in
  let? _ := ensure_dim "affine composition" (affine_output_dim first) (affine_input_dim second) in
  let? _ := checked_len_product "affine composition" (affine_input_dim first) (affine_output_dim second) in
  let? columns := collect_map (fun input_column => collect_map (product_entry first second input_column)
      (seq 0 (N.to_nat (affine_output_dim second)))) (seq 0 (N.to_nat (affine_input_dim first))) in
  let? bias := try_fold (fun out shared =>
      let? first_bias := expect (bias first !! shared) in
      add_column (matrix second) (N.to_nat (affine_output_dim second)) out (shared, first_bias))
    (bias second) (seq 0 (N.to_nat (affine_output_dim first))) in
  Ok {| affine_input_dim := affine_input_dim first; affine_output_dim := affine_output_dim second;
        matrix := concat columns; bias := bias; affine_schema := affine_schema second |}.

Definition affine_serialize (a : AffineTransform) : pca bytes :=
  let? _ := validate_operable "affine serialize" a in
  Ok (AFFINE_MAGIC ++ write_u32 SERIALIZATION_VERSION ++ write_u32 (affine_schema a)
      ++ write_u64 (affine_input_dim a) ++ write_u64 (affine_output_dim a)
      ++ write_f32_slice (matrix a) ++ write_f32_slice (bias a)).

Definition affine_deserialize (b : bytes) : pca AffineTransform :=
  let? offset := read_header b AFFINE_MAGIC "affine" in
  let? '(input_dim, offset) := read_usize b offset "input_dim" in
  let? '(output_dim, offset) := read_usize b offset "output_dim" in
  let? matrix_len := ok_or (checked_mul USIZE_MAX input_dim output_dim) (InvalidSerializedFormat "matrix length overflow") in
  let? '(matrix, offset) := read_f32_vec b offset matrix_len in
  let? '(bias, offset) := read_f32_vec b offset output_dim in
  guard? (offset =? len b)%N else InvalidSerializedFormat "unexpected trailing bytes" in
  let transform := {| affine_input_dim := input_dim; affine_output_dim := output_dim; matrix := matrix; bias := bias;
    affine_schema := CURRENT_SCHEMA_VERSION |} in
  let? _ := validate_operable "affine deserialize" transform in
  Ok transform.

(** ** From one transform to another *)
Inductive DeltaMode := ExactDelta | Reconstructing.
Record DeltaTransform := { affine : AffineTransform; mode : DeltaMode }.
Definition delta_apply (d : DeltaTransform) (vector : list f32) : pca (list f32) := affine_apply (affine d) vector.
Definition is_exact (d : DeltaTransform) : bool := match mode d with ExactDelta => true | Reconstructing => false end.

Definition compose (a b : PcaTransform) : pca AffineTransform :=
  let? first := to_affine a in
  let? second := to_affine b in
  affine_compose first second.

Definition delta_reconstructing (from to : PcaTransform) : pca DeltaTransform :=
  let? _ := ensure_dim "delta transform" (input_dim from) (input_dim to) in
  let? inverse := inverse_affine from in
  let? target := to_affine to in
  let? affine := affine_compose inverse target in
  Ok {| affine := affine; mode := if (output_dim from =? input_dim from)%N then ExactDelta else Reconstructing |}.

Definition delta_exact (from to : PcaTransform) : pca DeltaTransform :=
  guard? (output_dim from =? input_dim from)%N else
    ValidationFailure "exact delta requires a full-rank source transform" in
  let? d := delta_reconstructing from to in
  Ok {| affine := affine d; mode := ExactDelta |}.

Definition rebase_exact (vector : list f32) (from to : PcaTransform) : pca (list f32) :=
  let? d := delta_exact from to in delta_apply d vector.
Definition rebase_reconstructing (vector : list f32) (from to : PcaTransform) : pca (list f32) :=
  let? d := delta_reconstructing from to in delta_apply d vector.
Definition apply_delta_chain (chain : list DeltaTransform) (vector : list f32) : pca (list f32) :=
  try_fold (fun current transform => delta_apply transform current) vector chain.

(** ** Quantization *)
Inductive QuantizationBits := I8Bits | I16Bits.
Definition max_magnitude (bits : QuantizationBits) : Z := match bits with I8Bits => 127 | I16Bits => 32767 end.
Record QuantizationConfig := { bits : QuantizationBits }.

Inductive QuantizedValues := I8 (values : list Z) | I16 (values : list Z).
Definition quantized_values (v : QuantizedValues) : list Z := match v with I8 values | I16 values => values end.
Definition quantized_len (v : QuantizedValues) : N := len (quantized_values v).
Definition dequantize_values (v : QuantizedValues) (scale : f32) : list f32 :=
  map (fun value => fmul binary32 (f_of_Z binary32 value) scale) (quantized_values v).

Record QuantizedVector := { scale : f32; values : QuantizedValues }.
Record QuantizedPcaTransform := {
  q_input_dim : N; q_output_dim : N; q_schema_version : N; q_mean : QuantizedVector;
  basis_columns : list QuantizedVector; q_explained_variance : option QuantizedVector
}.

(** [quantize_scalar_i8] and [quantize_scalar_i16], which differ in the bounds. *)
Definition quantize_scalar (bits : QuantizationBits) (value scale : f32) : Z :=
  let normalized := if feqb binary32 scale 0 then 0%N else f64_of_f32 (fdiv binary32 value scale) in
  let limit := f_of_Z binary64 (max_magnitude bits) in
  let clipped := f64_clamp (f64_round_ties_even normalized) (fneg binary64 limit) limit in
  f64_as_int (- max_magnitude bits - 1) (max_magnitude bits) clipped.

Definition quantize_slice (vs : list f32) (config : QuantizationConfig) : pca QuantizedVector :=
  let? _ := ensure_finite_slice "quantization input" vs in
  guard? negb (bool_decide (vs = [])) else
    QuantizationConfigurationError "quantization input must not be empty" in
  let magnitude := default 0%N (reduce (fmax binary32) (map (fabs binary32) vs)) in
  let scale := if feqb binary32 magnitude 0 then f32_one
               else fdiv binary32 magnitude (f_of_Z binary32 (max_magnitude (bits config))) in
  let codes := map (fun value => quantize_scalar (bits config) value scale) vs in
  Ok {| scale := scale; values := match bits config with I8Bits => I8 codes | I16Bits => I16 codes end |}.

(** [basis[start..end]] *)
Definition basis_column (t : PcaTransform) (column : nat) : pca (list f32) :=
  let n := N.to_nat (input_dim t) in
  if (column * n + n <=? length (basis t))%nat then Ok (take n (drop (column * n) (basis t))) else Panic.

Definition dequantize_vector (context : string) (v : QuantizedVector) (expected_len : N) : pca (list f32) :=
  guard? f32_is_finite (scale v) && negb (fleb binary32 (scale v) 0) else
    ValidationFailure (context +:+ " scale must be finite and positive")%stdpp in
  guard? (quantized_len (values v) =? expected_len)%N else
    ValidationFailure (context +:+ " length mismatch: expected " +:+ pretty expected_len +:+ ", got "
      +:+ pretty (quantized_len (values v)))%stdpp in
  Ok (dequantize_values (values v) (scale v)).

Section quantize.
Context `{ShowFloat}.

Definition quantize (t : PcaTransform) (config : QuantizationConfig) : pca QuantizedPcaTransform :=
  let? _ := validate t in
  let? mean := quantize_slice (mean t) config in
  let? columns := collect_map (fun column => let? values := basis_column t column in quantize_slice values config)
    (seq 0 (N.to_nat (output_dim t))) in
  let? variance := opt_transpose (fun values => quantize_slice values config) (explained_variance t) in
  Ok {| q_input_dim := input_dim t; q_output_dim := output_dim t; q_schema_version := schema_version t;
        q_mean := mean; basis_columns := columns; q_explained_variance := variance |}.

Definition dequantize (q : QuantizedPcaTransform) : pca PcaTransform :=
  guard? (q_schema_version q =? CURRENT_SCHEMA_VERSION)%N else
    SchemaVersionMismatch CURRENT_SCHEMA_VERSION (q_schema_version q) in
  guard? (len (basis_columns q) =? q_output_dim q)%N else
    ValidationFailure ("expected " +:+ pretty (q_output_dim q) +:+ " quantized basis columns, got "
      +:+ pretty (len (basis_columns q)))%stdpp in
  let? mean := dequantize_vector "quantized mean" (q_mean q) (q_input_dim q) in
  (* the capacity of the basis *)
  let? _ := expect (checked_mul USIZE_MAX (q_input_dim q) (q_output_dim q)) in
  let? columns := collect_map (fun column => dequantize_vector "quantized basis column" column (q_input_dim q))
    (basis_columns q) in
  let? variance := opt_transpose (fun v => dequantize_vector "quantized explained variance" v (q_output_dim q))
    (q_explained_variance q) in
  let transform := {| input_dim := q_input_dim q; output_dim := q_output_dim q; mean := mean; basis := concat columns;
    explained_variance := variance; schema_version := q_schema_version q |} in
  let? _ := validate transform in
  Ok transform.
End quantize.
