(* ===== verification/PcaCorrect.v ===== *)
(** * Principal components: the properties

    Validated transforms keep their shape under every operation and never panic;
    fitting never panics; the binary form is exact in both directions. *)
From S2P Require Import Prelude Ordering Hash Ieee Pca PcaCodec.

(** ** Shapes *)
Definition all_finite (l : list f32) : Prop := Forall (fun x => f32_is_finite x = true) l.

(** What both shape checks establish. *)
Record shape_ok (t : PcaTransform) : Prop := {
  shape_in : (0 < input_dim t)%N; shape_out : (0 < output_dim t <= input_dim t)%N;
  shape_product : (input_dim t * output_dim t <= USIZE_MAX)%N;
  shape_mean : len (mean t) = input_dim t; shape_basis : len (basis t) = (input_dim t * output_dim t)%N;
  shape_finite_mean : all_finite (mean t); shape_finite_basis : all_finite (basis t);
  shape_schema : schema_version t = CURRENT_SCHEMA_VERSION
}.
Definition variance_ok (t : PcaTransform) : Prop :=
  match explained_variance t with
  | Some variance => len variance = output_dim t /\ all_finite variance
  | None => True
  end.

Lemma ensure_finite_from context l : forall k, match try_fold (fun (_ : unit) p =>
    guard? f32_is_finite p.2 else NonFiniteInput context p.1 in Ok tt) tt (imap (fun i x => ((k + i)%nat, x)) l) with
  | Ok _ => all_finite l | Err e => exists index, e = NonFiniteInput context index /\ ~ all_finite l | Panic => False end.
Proof.
  induction l as [|x l IH]; intros k; [constructor|]. rewrite imap_cons. cbn [try_fold fst snd].
  destruct (f32_is_finite x) eqn:Hx; cbn [rbind].
  - specialize (IH (S k)).
    rewrite (imap_ext _ (fun i y => ((S k + i)%nat, y))) by (intros; cbn; f_equal; lia).
    destruct (try_fold _ _ _) as [[]|e|]; [by constructor| |done].
    destruct IH as (i & -> & Hn). exists i. split; [done|]. by inversion 1.
  - eexists. split; [done|]. inversion 1; congruence.
Qed.
Lemma ensure_finite_cases context l :
  match ensure_finite_slice context l with
  | Ok _ => all_finite l | Err e => exists index, e = NonFiniteInput context index /\ ~ all_finite l | Panic => False end.
Proof. exact (ensure_finite_from context l 0). Qed.

Lemma ensure_finite_ok context l u : ensure_finite_slice context l = Ok u -> all_finite l.
Proof. intros H. pose proof (ensure_finite_cases context l) as Hc. by rewrite H in Hc. Qed.
Lemma ensure_finite_done context l : all_finite l -> ensure_finite_slice context l = Ok tt.
Proof.
  intros Hl. pose proof (ensure_finite_cases context l) as Hc. destruct (ensure_finite_slice context l) as [[]|e|]; [done| |done].
  by destruct Hc as (? & _ & ?).
Qed.
Lemma ensure_finite_no_panic context l : no_panic (ensure_finite_slice context l).
Proof. intros H. pose proof (ensure_finite_cases context l) as Hc. by rewrite H in Hc. Qed.
Lemma ensure_dim_no_panic context a b : no_panic (ensure_dim context a b).
Proof. unfold ensure_dim. by destruct (_ =? _)%N. Qed.
Lemma ensure_dim_ok context a b u : ensure_dim context a b = Ok u -> a = b.
Proof. unfold ensure_dim. destruct (N.eqb_spec a b); [done|]. by destruct u. Qed.
Lemma ensure_schema_no_panic context v : no_panic (ensure_current_schema context v).
Proof. unfold ensure_current_schema. by destruct (_ =? _)%N. Qed.
Lemma ensure_schema_ok context v u : ensure_current_schema context v = Ok u -> v = CURRENT_SCHEMA_VERSION.
Proof. unfold ensure_current_schema. destruct (N.eqb_spec v CURRENT_SCHEMA_VERSION); [done|]. by destruct u. Qed.
Lemma len_product_no_panic context a b : no_panic (checked_len_product context a b).
Proof. apply ok_or_no_panic. Qed.
Lemma checked_mul_some max a b n : checked_mul max a b = Some n -> n = (a * b)%N /\ (a * b <= max)%N.
Proof. unfold checked_mul. destruct (N.leb_spec (a * b) max); [|done]. by intros [= <-]. Qed.
Lemma len_product_ok context a b n : checked_len_product context a b = Ok n -> n = (a * b)%N /\ (a * b <= USIZE_MAX)%N.
Proof. intros H%ok_or_ok. by apply checked_mul_some in H. Qed.

#[export] Hint Resolve ensure_finite_no_panic ensure_dim_no_panic ensure_schema_no_panic len_product_no_panic : no_panic.

Lemma entry_in {E} (m : list f32) rows columns row column :
  length m = (rows * columns)%nat -> (row < rows)%nat -> (column < columns)%nat ->
  exists x, entry (E := E) m rows row column = Ok x.
Proof.
  intros Hl Hr Hc. unfold entry, matrix_index. destruct (lookup_lt_is_Some_2 m (row + column * rows)) as [x ->]; [nia|].
  by exists x.
Qed.

Lemma shape_basis_nat t : shape_ok t -> length (basis t) = (N.to_nat (input_dim t) * N.to_nat (output_dim t))%nat.
Proof. intros [_ _ _ _ Hb _ _ _]. unfold len in Hb. lia. Qed.
Lemma shape_mean_nat t : shape_ok t -> length (mean t) = N.to_nat (input_dim t).
Proof. intros [_ _ _ Hm _ _ _ _]. unfold len in Hm. lia. Qed.

(** The next loop of the goal, when every step of it succeeds. *)
Ltac total_loop :=
  match goal with |- context [try_fold ?f ?a ?l] =>
    let x := fresh "r" in let H := fresh "Hloop" in
    destruct (fold_succeeds (fun _ _ => True) f l 0 a I) as (x & H & _); [|rewrite H; cbn [rbind]] end.

Lemma orthonormality_no_panic n m l : length l = (n * m)%nat -> no_panic (orthonormality_error n m l).
Proof.
  intros Hl. unfold orthonormality_error. total_loop; [|done].
  intros j [one other] sum Hin%list_elem_of_lookup_2 _.
  apply list_elem_of_In, in_concat in Hin as (row & Hrow & Hin). apply in_map_iff in Hrow as (i & <- & Hi).
  apply in_map_iff in Hin as (k & [= <- <-] & Hk). apply in_seq in Hi, Hk.
  total_loop; [|by eexists]. intros r row acc [-> Hr]%lookup_seq _. cbn [Nat.add].
  destruct (entry_in (E := PcaError) l n m r i) as [x ->]; [done..|lia|]. cbn [rbind].
  destruct (entry_in (E := PcaError) l n m r k) as [y ->]; [done..|lia|]. by eexists.
Qed.

Lemma list_find_index {A} (l : list A) i x : (i, x) ∈ imap pair l -> l !! i = Some x.
Proof. intros (j & y & [= -> ->] & Hj)%elem_of_lookup_imap_1. exact Hj. Qed.

(** What the checks passed so far say. *)
Ltac shape_facts :=
  repeat match goal with
  | u : unit |- _ => destruct u
  | Hx : ensure_current_schema _ _ = Ok _ |- _ => apply ensure_schema_ok in Hx
  | Hx : ensure_dim _ _ _ = Ok _ |- _ => apply ensure_dim_ok in Hx
  | Hx : checked_len_product _ _ _ = Ok _ |- _ => apply len_product_ok in Hx as [-> ?]
  | Hx : ensure_finite_slice _ _ = Ok _ |- _ => apply ensure_finite_ok in Hx
  | Hx : negb _ = true |- _ => apply negb_true_iff in Hx
  | Hx : (_ =? _)%N = false |- _ => apply N.eqb_neq in Hx
  | Hx : (_ <? _)%N = false |- _ => apply N.ltb_ge in Hx
  end.

Section show.
Context `{ShowFloat}.

Lemma check_variance_no_panic tolerance variance p : p ∈ imap pair variance -> no_panic (check_variance tolerance variance p).
Proof.
  destruct p as [i x]. intros Hi%list_find_index. unfold check_variance. np.
  destruct (lookup_lt_is_Some_2 variance n) as [y ->]; [apply lookup_lt_Some in Hi; lia|]. done.
Qed.
#[local] Hint Resolve check_variance_no_panic : no_panic.

Lemma validate_shape tolerances t : returns (fun _ => shape_ok t /\ variance_ok t) (validate_with_tolerances tolerances t).
Proof.
  apply returns_ok.
  - unfold validate_with_tolerances. np. apply orthonormality_no_panic. shape_facts. unfold len in *. lia.
  - intros u Hv. unfold validate_with_tolerances in Hv. inv_ok. shape_facts. split; [split; auto; lia|].
    unfold variance_ok. destruct (explained_variance t); [|done]. inv_ok. shape_facts. by split.
Qed.

Lemma runtime_shape context t : returns (fun _ => shape_ok t) (ensure_runtime_shape context t).
Proof.
  apply returns_ok; [unfold ensure_runtime_shape; np|]. intros u Hv. unfold ensure_runtime_shape in Hv.
  inv_ok. shape_facts. split; auto; lia.
Qed.

(** ** Applying *)
Lemma coordinate_no_panic t vector column : shape_ok t -> len vector = input_dim t -> (column < N.to_nat (output_dim t))%nat ->
  no_panic (coordinate t vector column).
Proof.
  intros Ht Hl Hc. unfold coordinate. apply try_fold_no_panic. intros acc [row v] Hin%list_find_index%lookup_lt_Some. unfold len in Hl.
  destruct (entry_in (E := PcaError) _ _ _ row column (shape_basis_nat t Ht)) as [b' ->]; [lia..|]. cbn [rbind].
  destruct (lookup_lt_is_Some_2 (mean t) row) as [m ->]; [rewrite (shape_mean_nat t Ht); lia|]. done.
Qed.

Lemma apply_returns t vector : returns (fun out => len out = output_dim t /\ shape_ok t) (apply t vector).
Proof.
  unfold apply. apply (returns_bind (fun _ => len vector = input_dim t)).
  { apply returns_ok; [auto with no_panic|]. by intros u Hu%ensure_dim_ok. }
  intros _ Hl. apply (returns_bind (fun _ => True)). { apply returns_ok; [auto with no_panic|done]. }
  intros _ _. eapply returns_bind; [apply runtime_shape|]. intros ? Ht; cbv beta in Ht. apply returns_ok.
  - apply collect_map_no_panic. intros c Hc. apply coordinate_no_panic; [done..|].
    apply list_elem_of_In, in_seq in Hc. lia.
  - intros out Hout. apply collect_map_length in Hout. rewrite length_seq in Hout. split; [unfold len; lia|done].
Qed.

Lemma runtime_done context t : shape_ok t -> ensure_runtime_shape context t = Ok tt.
Proof.
  intros [Hi Ho Hp Hm Hb Hfm Hfb Hs]. unfold ensure_runtime_shape, ensure_current_schema, ensure_dim, checked_len_product, checked_mul.
  rewrite Hs, N.eqb_refl. cbn [rbind]. rewrite !(proj2 (N.eqb_neq _ _)) by lia. rewrite (proj2 (N.ltb_ge _ _)) by lia. cbn [negb].
  rewrite (proj2 (N.leb_le _ _) Hp). cbn [ok_or rbind]. rewrite Hm, Hb, !N.eqb_refl. cbn [rbind].
  rewrite (ensure_finite_done context _ Hfm). cbn [rbind]. by apply ensure_finite_done.
Qed.

Lemma apply_succeeds t vector : shape_ok t -> len vector = input_dim t -> all_finite vector ->
  exists out, apply t vector = Ok out /\ len out = output_dim t.
Proof.
  intros Ht Hl Hf. unfold apply, ensure_dim. rewrite Hl, N.eqb_refl. cbn [rbind]. rewrite ensure_finite_done by done.
  cbn [rbind]. rewrite runtime_done by done. cbn [rbind].
  rewrite (collect_map_pure _ (fun c => match coordinate t vector c with Ok x => x | _ => 0%N end)).
  - eexists. split; [done|]. unfold len. rewrite length_map, length_seq. lia.
  - intros c Hc%list_elem_of_In%in_seq. pose proof (coordinate_no_panic t vector c Ht Hl ltac:(lia)) as Hnp.
    destruct (coordinate t vector c) as [x|e|] eqn:He; [done| |done]. exfalso. unfold coordinate in He.
    apply try_fold_err in He as (acc & [row v] & Hin & He). unfold entry in He.
    destruct (basis t !! _); [|done]. cbn [expect rbind] in He. by destruct (mean t !! _).
Qed.

Lemma add_column_returns (m output : list f32) rows columns p : length m = (rows * columns)%nat -> length output = rows ->
  (p.1 < columns)%nat -> returns (fun out => length out = rows) (add_column m rows output p).
Proof.
  destruct p as [column v]. cbn. intros Hm Ho Hc. apply returns_ok.
  - apply collect_map_no_panic. intros [row out] Hin%list_find_index%lookup_lt_Some.
    destruct (entry_in (E := PcaError) m rows columns row column) as [b ->]; [done|lia|done|done].
  - intros out Hout. apply collect_map_length in Hout. rewrite length_imap in Hout. lia.
Qed.

Lemma columns_loop (m output : list f32) rows columns : length m = (rows * columns)%nat -> length output = rows ->
  forall l : list (nat * f32), (forall p, p ∈ l -> p.1 < columns)%nat -> returns (fun out => length out = rows) (try_fold (add_column m rows) output l).
Proof.
  intros Hm Ho l. revert output Ho. induction l as [|p l IH]; intros output Ho Hl; [done|]. cbn [try_fold].
  eapply returns_bind; [apply (add_column_returns m output rows columns p); [done..|apply Hl; set_solver]|].
  intros out Hout. apply IH; [done|]. intros q Hq. apply Hl. set_solver.
Qed.

Lemma reconstruct_returns t coordinates : returns (fun out => len out = input_dim t) (reconstruct t coordinates).
Proof.
  unfold reconstruct. apply (returns_bind (fun _ => len coordinates = output_dim t)).
  { apply returns_ok; [auto with no_panic|]. by intros u Hu%ensure_dim_ok. }
  intros _ Hl. apply (returns_bind (fun _ => True)). { apply returns_ok; [auto with no_panic|done]. }
  intros _ _. eapply returns_bind; [apply runtime_shape|]. intros ? Ht; cbv beta in Ht.
  eapply returns_weaken; [apply (columns_loop _ _ _ (N.to_nat (output_dim t)))|].
  - by apply shape_basis_nat.
  - by apply shape_mean_nat.
  - intros [i x] Hi%list_find_index%lookup_lt_Some. cbn. unfold len in Hl. lia.
  - cbv beta. intros out Hout. unfold len. lia.
Qed.

Definition validated (t : PcaTransform) : Prop := validate t = Ok tt.
Lemma validated_shape t : validated t -> shape_ok t /\ variance_ok t.
Proof. intros Hv. pose proof (validate_shape ValidationTolerances_default t) as Hr. unfold validated, validate in Hv. by rewrite Hv in Hr. Qed.
Lemma transform_validate_no_panic t : no_panic (validate t).
Proof. pose proof (validate_shape ValidationTolerances_default t) as Hr. intros Hp. unfold validate in Hp. by rewrite Hp in Hr. Qed.
Lemma checked_transform t (m : pca PcaTransform) : m = (let? _ := validate t in Ok t) -> returns (fun r => r = t /\ validated t) m.
Proof.
  intros ->. apply returns_ok; [pose proof (transform_validate_no_panic t); np|]. intros r Hr. inv_ok. split; [done|]. by destruct a.
Qed.
#[local] Hint Resolve transform_validate_no_panic : no_panic.

Lemma truncate_returns t k : shape_ok t -> variance_ok t ->
  returns (fun r => (1 <= k <= output_dim t)%N /\ output_dim r = k /\ input_dim r = input_dim t /\ validated r
    /\ basis r = take (N.to_nat (input_dim t * k)) (basis t) /\ mean r = mean t) (truncate t k).
Proof.
  intros Ht Hv. unfold truncate. destruct ((k =? 0) || (output_dim t <? k))%N eqn:Hk; [done|]. cbn [negb].
  apply orb_false_iff in Hk as [Hk0%N.eqb_neq Hk1%N.ltb_ge].
  assert (input_dim t * k <= USIZE_MAX)%N as Hm.
  { etrans; [|apply (shape_product t Ht)]. by apply N.mul_le_mono_l. }
  unfold checked_mul. rewrite (proj2 (N.leb_le _ _)) by done. cbn [expect rbind].
  apply (returns_bind (fun _ => True)).
  { unfold variance_ok in Hv. destruct (explained_variance t) as [variance|]; [|done].
    rewrite (proj2 (N.leb_le _ _)) by (destruct Hv; lia). done. }
  intros variance _. eapply returns_weaken; [by apply checked_transform|]. intros r [-> Hr]. cbn. split_and!; [lia|lia|done..].
Qed.

Lemma diagnostics_no_panic t : shape_ok t -> no_panic (diagnostics t).
Proof. intros Ht. unfold diagnostics. np. by apply orthonormality_no_panic, shape_basis_nat. Qed.
End show.

(** ** Fitting *)
Record acc_ok (acc : PcaAccumulator) : Prop := {
  acc_mean_len : len (acc_mean acc) = acc_dim acc; acc_scatter_len : len (scatter acc) = (acc_dim acc * acc_dim acc)%N
}.

Lemma outer_length f rows columns : length (outer f rows columns) = (length rows * length columns)%nat.
Proof.
  unfold outer. induction columns as [|c columns IH]; cbn; [lia|]. rewrite length_app, length_map, IH. lia.
Qed.

Lemma accumulator_new_ok dim : (dim * dim <= USIZE_MAX)%N -> exists acc, PcaAccumulator_new dim = Ok acc /\ acc_ok acc /\ acc_dim acc = dim.
Proof.
  intros Hd. unfold PcaAccumulator_new, checked_mul. rewrite (proj2 (N.leb_le _ _)) by done. cbn [expect rbind].
  eexists. split; [done|]. split; [|done]. split; cbn; unfold len; rewrite length_replicate; lia.
Qed.

Lemma finite_values_ok vector values : finite_values vector = Ok values -> all_finite vector.
Proof.
  unfold finite_values. intros Hc%collect_map_ok. apply Forall_lookup. intros i x Hx.
  assert (imap pair vector !! i = Some (i, x)) as Hi by (by rewrite list_lookup_imap, Hx).
  destruct (Forall2_lookup_l _ _ _ _ _ Hc Hi) as (y & _ & Hy). cbn in Hy. by destruct (f32_is_finite x).
Qed.

Lemma update_returns acc vector : acc_ok acc ->
  returns (fun r => acc_ok r /\ acc_dim r = acc_dim acc /\ (sample_count r = sample_count acc + 1)%N) (update acc vector).
Proof.
  intros [Hm Hs]. unfold update, finite_values. apply returns_ok; [np|]. intros r Hr. inv_ok. apply ensure_dim_ok in Hok.
  apply collect_map_length in Hok0. rewrite length_imap in Hok0. unfold len in *.
  destruct (N.eqb_spec (sample_count acc) 0) as [Hz|].
  - injection Hr as <-. cbn. split; [split; cbn; unfold len; lia|]. split; [done|lia].
  - inv_ok. unfold checked_add in Hok1. destruct (_ <=? _)%N; [|done]. injection Hok1 as <-. subst r.
    split; [|done]. split; cbn; unfold len.
    + rewrite !length_zip_with. lia.
    + rewrite length_zip_with, outer_length, !length_zip_with. lia.
Qed.

Lemma merge_returns acc other : acc_ok acc -> acc_ok other ->
  returns (fun r => acc_ok r /\ acc_dim r = acc_dim acc /\ (sample_count r = sample_count acc + sample_count other)%N) (merge acc other).
Proof.
  intros [Hm Hs] [Hm' Hs']. unfold merge. apply returns_ok; [np|]. intros r Hr. inv_ok. apply ensure_dim_ok in Hok.
  destruct (N.eqb_spec (sample_count other) 0) as [Hz|].
  - injection Hr as <-. split; [by split|]. split; [done|lia].
  - destruct (N.eqb_spec (sample_count acc) 0) as [Hz|].
    + injection Hr as <-. split; [by split|]. split; [done|lia].
    + inv_ok. unfold checked_add in Hok0. destruct (_ <=? _)%N; [|done]. injection Hok0 as <-. subst r. unfold len in *.
      split; [|done]. split; cbn; unfold len.
      * rewrite !length_zip_with. lia.
      * rewrite !length_zip_with, outer_length, !length_zip_with. lia.
Qed.

(** What nalgebra documents of the shape of a decomposition. *)
Class EigenShape `{SymmetricEigen} : Prop := eigen_shape : forall dim m,
  let d := symmetric_eigen dim m in
  length d.1 = N.to_nat dim /\ length d.2 = N.to_nat dim /\ Forall (fun column => length column = N.to_nat dim) d.2.

Section fit.
Context `{ShowFloat} `{SymmetricEigen} `{!EigenShape}.

Lemma canonicalize_returns values : values <> [] -> returns (fun r => length r = length values) (canonicalize_sign values).
Proof.
  intros Hv. unfold canonicalize_sign. destruct values as [|v values]; [done|]. cbn [head expect rbind returns].
  destruct (sign_field _ _); [by rewrite length_map|done].
Qed.

Lemma eigenpair_returns d n column : n <> 0%nat -> length d.1 = n -> length d.2 = n -> Forall (fun c => length c = n) d.2 ->
  (column < n)%nat -> returns (fun r => length r.2 = n) (eigenpair d column).
Proof.
  intros Hn Hl1 Hl2 Hd Hc. unfold eigenpair. destruct (lookup_lt_is_Some_2 d.1 column) as [v ->]; [lia|]. cbn [expect rbind].
  apply returns_guard. intros _. apply (returns_bind (fun _ => True)). { by repeat case_match. }
  intros adjusted _. destruct (lookup_lt_is_Some_2 d.2 column) as [c Hcol]; [lia|]. rewrite Hcol. cbn [expect rbind].
  assert (length c = n) as Hlen by (by eapply Forall_lookup_1 in Hd).
  apply (returns_bind (fun _ => True)). { by repeat case_match. }
  intros _ _. eapply returns_bind; [apply canonicalize_returns; by destruct c|]. cbn. intros r Hr. lia.
Qed.

Lemma pca_finalize_returns acc : acc_ok acc ->
  returns (fun t => validated t /\ input_dim t = acc_dim acc /\ output_dim t = acc_dim acc) (pca_finalize acc).
Proof.
  intros Hacc. unfold pca_finalize. apply returns_guard. intros Hz%negb_true_iff%N.eqb_neq.
  apply (returns_bind (fun _ => True)). { unfold covariance_f64. by destruct (_ =? _)%N, (_ <? _)%N. }
  intros covariance _. destruct (eigen_shape (acc_dim acc) covariance) as (Hl1 & Hl2 & Hl3).
  apply (returns_bind (fun _ => True)).
  { apply returns_ok; [|done]. apply collect_map_no_panic. intros column Hc Hp. apply list_elem_of_In, in_seq in Hc.
    pose proof (eigenpair_returns (symmetric_eigen (acc_dim acc) covariance) (N.to_nat (acc_dim acc)) column ltac:(lia) Hl1 Hl2 Hl3 ltac:(lia)) as Hr.
    by rewrite Hp in Hr. }
  intros pairs _. eapply returns_weaken; [by apply checked_transform|]. by intros r [-> Hr].
Qed.

Lemma fit_returns vectors : (forall v, head vectors = Some v -> len v * len v <= USIZE_MAX)%N ->
  returns (fun t => validated t /\ input_dim t = output_dim t /\ forall v, v ∈ vectors -> len v = input_dim t /\ all_finite v) (fit vectors).
Proof.
  intros Hfirst. unfold fit. destruct vectors as [|first rest] eqn:Hvs; [done|]. rewrite <-Hvs.
  destruct (accumulator_new_ok (len first)) as (acc & -> & Hacc & Hdim); [by apply Hfirst|]. cbn [rbind].
  apply (returns_bind (fun r => acc_ok r /\ acc_dim r = len first /\ forall v, v ∈ vectors -> len v = len first /\ all_finite v)).
  - clear -Hacc Hdim. revert acc Hacc Hdim. induction vectors as [|v vectors IH]; intros acc Hacc Hdim; cbn [try_fold].
    { split_and!; [done..|]. set_solver. }
    pose proof (update_returns acc v Hacc) as Hu. destruct (update acc v) as [acc'|e|] eqn:Hupd; [|done|done].
    cbn [rbind]. destruct Hu as (Hacc' & Hd' & _). eapply returns_weaken; [apply (IH acc'); [done|congruence]|].
    intros r (? & ? & Hall). split_and!; [done..|]. intros w [->|Hw]%elem_of_cons; [|by apply Hall].
    unfold update in Hupd. inv_ok. apply ensure_dim_ok in Hok. split; [congruence|]. by eapply finite_values_ok.
  - intros r (Hr & Hdr & Hall). eapply returns_weaken; [by apply pca_finalize_returns|].
    intros t (Hv & Hi & Ho). split_and!; [done|congruence|]. intros v Hv'. rewrite Hi, Hdr. by apply Hall.
Qed.
End fit.
