(* ===== verification/PcaCodecCorrect.v ===== *)
(** * PCA: affine maps, quantization and the binary formats

    The shapes of affine maps, deltas and rebased vectors, the range of quantized
    codes, and what the readers of the two binary formats accept: the bytes the writers
    give, and nothing else. *)
From S2P Require Import Prelude Ordering Hash Ieee FloatFacts Pca PcaCodec PcaCorrect.
From Stdlib Require Import Floats.SpecFloat.

(** ** Affine maps *)

(** The shape of an affine map that [validate_operable] accepts. *)
Record affine_shape (a : AffineTransform) : Prop := {
  affine_in : (0 < affine_input_dim a)%N; affine_out : (0 < affine_output_dim a)%N;
  affine_product : (affine_input_dim a * affine_output_dim a <= USIZE_MAX)%N;
  affine_matrix : len (matrix a) = (affine_input_dim a * affine_output_dim a)%N; affine_bias : len (bias a) = affine_output_dim a;
  affine_finite_matrix : all_finite (matrix a); affine_finite_bias : all_finite (bias a);
  affine_schema_ok : affine_schema a = CURRENT_SCHEMA_VERSION
}.

Lemma affine_usize a : affine_shape a -> (affine_input_dim a <= USIZE_MAX)%N /\ (affine_output_dim a <= USIZE_MAX)%N.
Proof.
  intros [Hi Ho Hp _ _ _ _ _].
  pose proof (N.mul_le_mono_l 1 (affine_output_dim a) (affine_input_dim a)).
  pose proof (N.mul_le_mono_r 1 (affine_input_dim a) (affine_output_dim a)). lia.
Qed.

Lemma operable_returns context a : returns (fun _ => affine_shape a) (validate_operable context a).
Proof.
  apply returns_ok; [unfold validate_operable; np|]. intros u Hv. unfold validate_operable in Hv.
  inv_ok. shape_facts. split; auto; lia.
Qed.
Lemma operable_shape context a u : validate_operable context a = Ok u -> affine_shape a.
Proof. intros Hv. pose proof (operable_returns context a) as Hr. by rewrite Hv in Hr. Qed.
Lemma operable_done context a : affine_shape a -> validate_operable context a = Ok tt.
Proof.
  intros [Hi Ho Hp Hl Hb Hfm Hfb Hs]. unfold validate_operable, ensure_current_schema, ensure_dim, checked_len_product, checked_mul.
  rewrite Hs, N.eqb_refl. cbn [rbind]. rewrite !(proj2 (N.eqb_neq _ _)) by lia. cbn [negb].
  rewrite Hb, N.eqb_refl. cbn [rbind]. rewrite (proj2 (N.leb_le _ _) Hp). cbn [ok_or rbind].
  rewrite Hl, N.eqb_refl. cbn [rbind]. rewrite (ensure_finite_done context _ Hfm). cbn [rbind]. by apply ensure_finite_done.
Qed.

Lemma affine_basis_nat a : affine_shape a -> length (matrix a) = (N.to_nat (affine_output_dim a) * N.to_nat (affine_input_dim a))%nat.
Proof. intros [_ _ _ Hl _ _ _ _]. unfold len in Hl. lia. Qed.
Lemma affine_bias_nat a : affine_shape a -> length (bias a) = N.to_nat (affine_output_dim a).
Proof. intros [_ _ _ _ Hl _ _ _]. unfold len in Hl. lia. Qed.

Lemma affine_apply_returns a vector : returns (fun out => len vector = affine_input_dim a /\ len out = affine_output_dim a) (affine_apply a vector).
Proof.
  unfold affine_apply. apply (returns_bind (fun _ => len vector = affine_input_dim a)).
  { apply returns_ok; [auto with no_panic|]. by intros u Hu%ensure_dim_ok. }
  intros _ Hl. apply (returns_bind (fun _ => True)). { apply returns_ok; [auto with no_panic|done]. }
  intros _ _. eapply returns_bind; [apply operable_returns|]. intros ? Ha; cbv beta in Ha.
  eapply returns_weaken; [apply (columns_loop _ _ _ (N.to_nat (affine_input_dim a)))|].
  - by apply affine_basis_nat.
  - by apply affine_bias_nat.
  - intros [i x] Hi%list_find_index%lookup_lt_Some. cbn. unfold len in Hl. lia.
  - cbv beta. intros out Hout. split; [done|]. unfold len. lia.
Qed.

(** Columns read one by one: as many as asked for, each of the rows' length. *)
Definition grid {A} (columns rows : nat) (l : list (list A)) : Prop :=
  length l = columns /\ Forall (fun column => length column = rows) l.
Lemma grid_concat {A} columns rows (l : list (list A)) : grid columns rows l -> length (concat l) = (columns * rows)%nat.
Proof. intros [<- Hl]. induction Hl; cbn; [done|]. rewrite length_app. lia. Qed.
Lemma grid_returns {A} columns rows (f : nat -> nat -> pca A) :
  (forall i j, (i < columns)%nat -> (j < rows)%nat -> no_panic (f i j)) ->
  returns (grid columns rows) (collect_map (fun i => collect_map (f i) (seq 0 rows)) (seq 0 columns)).
Proof.
  intros Hf. eapply returns_weaken; [apply (returns_collect (fun _ l => length l = rows))|].
  - intros i Hi%list_elem_of_In%in_seq. apply returns_ok.
    + apply collect_map_no_panic. intros j Hj%list_elem_of_In%in_seq. apply Hf; lia.
    + intros l Hl%collect_map_length. by rewrite length_seq in Hl.
  - cbv beta. intros l Hl. split; [apply Forall2_length in Hl; by rewrite length_seq in Hl|].
    clear -Hl. induction Hl; constructor; auto.
Qed.

(** A map made out of parts of the right sizes. *)
Record affine_sized (a : AffineTransform) (input output : N) : Prop := {
  sized_in : affine_input_dim a = input; sized_out : affine_output_dim a = output;
  sized_matrix : length (matrix a) = (N.to_nat input * N.to_nat output)%nat; sized_bias : length (bias a) = N.to_nat output
}.

Lemma to_affine_returns t : returns (fun a => shape_ok t /\ affine_sized a (input_dim t) (output_dim t)) (to_affine t).
Proof.
  unfold to_affine. eapply returns_bind; [apply runtime_shape|]. intros ? Ht; cbv beta in Ht.
  eapply returns_bind; [apply (grid_returns _ (N.to_nat (output_dim t)))|].
  { intros i j Hi Hj. destruct (entry_in (E := PcaError) _ _ _ i j (shape_basis_nat t Ht)) as [x ->]; done. }
  intros columns Hc; cbv beta in Hc.
  apply (returns_bind (fun b => length b = N.to_nat (output_dim t))).
  - apply returns_loop; [by rewrite length_replicate|]. intros [j c] b Hcj%list_find_index Hb.
    destruct Hc as [Hlen Hall]. pose proof (lookup_lt_Some _ _ _ Hcj).
    destruct (lookup_lt_is_Some_2 (mean t) j) as [m ->]; [rewrite (shape_mean_nat t Ht); lia|]. cbn [expect rbind returns].
    rewrite length_zip_with, Hb. rewrite (Forall_lookup_1 _ _ _ _ Hall Hcj). lia.
  - intros b Hb. cbn [returns]. split; [done|]. split; cbn; [done..| |done]. by apply grid_concat.
Qed.

Lemma inverse_affine_returns t : returns (fun a => shape_ok t /\ affine_sized a (output_dim t) (input_dim t)) (inverse_affine t).
Proof.
  unfold inverse_affine. eapply returns_bind; [apply runtime_shape|]. intros ? Ht; cbv beta in Ht.
  eapply returns_bind; [apply (grid_returns _ (N.to_nat (input_dim t)))|].
  { intros i j Hi Hj. destruct (entry_in (E := PcaError) _ _ _ j i (shape_basis_nat t Ht)) as [x ->]; done. }
  intros columns Hc; cbv beta in Hc. cbn [returns]. split; [done|]. split; cbn; [done..|by apply grid_concat|].
  by apply shape_mean_nat.
Qed.

Lemma affine_compose_returns first second :
  returns (fun a => affine_output_dim first = affine_input_dim second
    /\ affine_sized a (affine_input_dim first) (affine_output_dim second)) (affine_compose first second).
Proof.
  unfold affine_compose. eapply returns_bind; [apply operable_returns|]. intros ? Hf; cbv beta in Hf.
  eapply returns_bind; [apply operable_returns|]. intros ? Hs; cbv beta in Hs.
  apply (returns_bind (fun _ => affine_output_dim first = affine_input_dim second)).
  { apply returns_ok; [auto with no_panic|]. by intros u Hu%ensure_dim_ok. }
  intros _ Hd. apply (returns_bind (fun _ => True)). { apply returns_ok; [auto with no_panic|done]. }
  intros _ _. eapply returns_bind; [apply (grid_returns _ (N.to_nat (affine_output_dim second)))|].
  { intros i j Hi Hj. unfold product_entry. apply try_fold_no_panic. intros v k Hk%list_elem_of_In%in_seq.
    destruct (entry_in (E := PcaError) _ _ _ j k (affine_basis_nat second Hs)) as [x ->]; [lia..|]. cbn [rbind].
    destruct (entry_in (E := PcaError) _ _ _ k i (affine_basis_nat first Hf)) as [y ->]; [lia..|]. done. }
  intros columns Hc; cbv beta in Hc.
  apply (returns_bind (fun b => length b = N.to_nat (affine_output_dim second))).
  - apply returns_loop; [by apply affine_bias_nat|]. intros j b Hj%list_elem_of_In%in_seq Hb.
    destruct (lookup_lt_is_Some_2 (bias first) j) as [m ->]; [rewrite (affine_bias_nat first Hf); lia|]. cbn [expect rbind].
    eapply (add_column_returns _ _ _ (N.to_nat (affine_input_dim second))); [by apply affine_basis_nat|done|cbn; lia].
  - intros b Hb. cbn [returns]. split; [done|]. split; cbn; [done..| |done]. by apply grid_concat.
Qed.

(** ** Deltas *)
Definition delta_sized (d : DeltaTransform) (from to : PcaTransform) : Prop :=
  affine_sized (affine d) (output_dim from) (output_dim to)
  /\ (mode d = ExactDelta <-> output_dim from = input_dim from).

Lemma delta_returns from to : returns (fun d => input_dim from = input_dim to /\ delta_sized d from to) (delta_reconstructing from to).
Proof.
  unfold delta_reconstructing. apply (returns_bind (fun _ => input_dim from = input_dim to)).
  { apply returns_ok; [auto with no_panic|]. by intros u Hu%ensure_dim_ok. }
  intros _ Hd. eapply returns_bind; [apply inverse_affine_returns|]. intros i (_ & [Hi1 Hi2 _ _]).
  eapply returns_bind; [apply to_affine_returns|]. intros t (_ & [Ht1 Ht2 _ _]).
  eapply returns_bind; [apply affine_compose_returns|]. intros a (_ & Ha). cbn [returns].
  rewrite Hi1, Ht2 in Ha. split; [done|]. split; [done|]. cbn.
  destruct (N.eqb_spec (output_dim from) (input_dim from)); by split.
Qed.

Lemma delta_exact_returns from to : returns (fun d => output_dim from = input_dim from /\ delta_sized d from to) (delta_exact from to).
Proof.
  unfold delta_exact. apply returns_guard. intros Hf%N.eqb_eq. eapply returns_bind; [apply delta_returns|].
  intros d (_ & Hd & _). cbn [returns]. split; [done|]. by split.
Qed.

Lemma rebase_returns from to vector :
  returns (fun out => len vector = output_dim from /\ len out = output_dim to) (rebase_exact vector from to)
  /\ returns (fun out => len vector = output_dim from /\ len out = output_dim to) (rebase_reconstructing vector from to).
Proof.
  split.
  - unfold rebase_exact. eapply returns_bind; [apply delta_exact_returns|]. intros d (_ & [Hi Ho _ _] & _).
    eapply returns_weaken; [apply affine_apply_returns|]. intros out. by rewrite Hi, Ho.
  - unfold rebase_reconstructing. eapply returns_bind; [apply delta_returns|]. intros d (_ & [Hi Ho _ _] & _).
    eapply returns_weaken; [apply affine_apply_returns|]. intros out. by rewrite Hi, Ho.
Qed.

Lemma chain_no_panic chain vector : no_panic (apply_delta_chain chain vector).
Proof.
  unfold apply_delta_chain. apply try_fold_no_panic. intros v d _ Hp.
  pose proof (affine_apply_returns (affine d) v) as Hr. unfold delta_apply in Hp. by rewrite Hp in Hr.
Qed.

(** ** Quantization *)

(** A mantissa of a decoded number has at most the format's precision. *)

(** A number not above [m0 * 2^e0], with the top bit of [m0] set, is not above it after
    both lose their fractions. *)
Lemma not_above (m0 m : positive) (e0 e : Z) :
  (e0 < 0 -> 2 ^ 52 <= Zpos m0 -> Zpos m < 2 ^ 53 ->
  SFltb (S754_finite false m0 e0) (S754_finite false m e) = false ->
  e <= e0 /\ Zpos m / 2 ^ (- e) <= Zpos m0 / 2 ^ (- e0))%Z.
Proof.
  intros He0 Hm0 Hm. unfold SFltb. cbn [SFcompare]. change (PosDef.Pos.compare_cont Eq m0 m) with (Pos.compare m0 m).
  destruct (Z.compare_spec e0 e) as [<-|Hlt|Hgt]; [|done|]; intros Hc.
  - split; [done|]. apply Z.div_le_mono; [lia|]. destruct (Pos.compare_spec m0 m); [lia|done|lia].
  - split; [lia|]. transitivity (2 ^ 52 / 2 ^ (- e0))%Z; [|by apply Z.div_le_mono; lia].
    replace (- e)%Z with (- e0 + (e0 - e - 1) + 1)%Z by lia. rewrite Z.add_1_r, Z.pow_succ_r, Z.pow_add_r by lia.
    rewrite Z.mul_comm, <-Z.div_div by lia.
    transitivity (Zpos m / 2 ^ (- e0) / 2)%Z.
    + apply Z.div_le_mono; [lia|]. rewrite <-Z.div_div by lia. apply Z.div_le_upper_bound; [lia|].
      pose proof (Z.div_pos (Zpos m) (2 ^ (- e0))). nia.
    + rewrite Z.div_div, (Z.mul_comm _ 2), <-Z.div_div by lia. apply Z.div_le_mono; [lia|].
      apply Z.div_le_upper_bound; lia.
Qed.

Lemma not_below (m0 m : positive) (e0 e : Z) :
  SFltb (S754_finite true m e) (S754_finite true m0 e0) = SFltb (S754_finite false m0 e0) (S754_finite false m e).
Proof.
  unfold SFltb. cbn [SFcompare]. change (PosDef.Pos.compare_cont Eq m m0) with (Pos.compare m m0).
  change (PosDef.Pos.compare_cont Eq m0 m) with (Pos.compare m0 m).
  rewrite (Z.compare_antisym e0 e), (Pos.compare_antisym m m0). by destruct (Z.compare e0 e).
Qed.

Lemma clamp_bound (x limit : f64) (m0 : positive) (e0 M : Z) :
  decode binary64 limit = S754_finite false m0 e0 -> decode binary64 (fneg binary64 limit) = S754_finite true m0 e0 ->
  (e0 < 0 -> 2 ^ 52 <= Zpos m0 -> Zpos m0 / 2 ^ (- e0) = M -> 0 <= M ->
  - M <= f64_as_int (- M - 1) M (f64_clamp x (fneg binary64 limit) limit) <= M)%Z.
Proof.
  intros Hl Hn He Hm HM HM0. unfold f64_clamp, fltb.
  assert (Hlim : forall s : bool, decode binary64 (if s then fneg binary64 limit else limit) = S754_finite s m0 e0 ->
    (- M <= f64_as_int (- M - 1) M (if s then fneg binary64 limit else limit) <= M)%Z).
  { intros s Hs. unfold f64_as_int. rewrite Hs, (proj2 (Z.leb_gt 0 e0)) by lia. unfold trunc_at.
    destruct s; cbn [signed]; [change (Zneg m0) with (- Zpos m0)%Z; rewrite Z.quot_opp_l by lia|];
      rewrite Z.quot_div_nonneg by lia; lia. }
  destruct (SFltb (decode binary64 x) (decode binary64 (fneg binary64 limit))) eqn:Hlow; [by apply (Hlim true)|].
  destruct (SFltb (decode binary64 limit) (decode binary64 x)) eqn:Hhigh; [by apply (Hlim false)|].
  unfold f64_as_int. destruct (decode binary64 x) as [s|s| |s m e] eqn:Hx; [lia| |lia|].
  { rewrite Hl in Hhigh. rewrite Hn in Hlow. by destruct s. }
  rewrite Hl in Hhigh. rewrite Hn in Hlow. pose proof (decode_mantissa _ _ _ _ _ Hx) as Hmm.
  change (2 ^ (mant_bits binary64 + 1))%N with (2 ^ 53)%N in Hmm.
  assert (e <= e0 /\ Zpos m / 2 ^ (- e) <= M)%Z as [Hle Hq].
  { rewrite <-HM. apply not_above; [done..|lia|]. destruct s; [by rewrite <-not_below|done]. }
  rewrite (proj2 (Z.leb_gt 0 e)) by lia. unfold trunc_at. pose proof (Z.div_pos (Zpos m) (2 ^ (- e))).
  destruct s; cbn [signed]; [change (Zneg m) with (- Zpos m)%Z; rewrite Z.quot_opp_l by lia|];
    rewrite Z.quot_div_nonneg by lia; lia.
Qed.

Lemma scalar_bound bits value scale : (Z.abs (quantize_scalar bits value scale) <= max_magnitude bits)%Z.
Proof.
  apply Z.abs_le. unfold quantize_scalar. destruct bits.
  - by apply (clamp_bound _ _ (127 * 2 ^ 46) (-46)).
  - by apply (clamp_bound _ _ (32767 * 2 ^ 38) (-38)).
Qed.

(** What [quantize_slice] builds: the bounds of the width, a code for every value. *)
Definition quantized_ok (config : QuantizationConfig) (n : N) (v : QuantizedVector) : Prop :=
  quantized_len (values v) = n /\ Forall (fun code => (Z.abs code <= max_magnitude (bits config))%Z) (quantized_values (values v))
  /\ (match values v with I8 _ => bits config = I8Bits | I16 _ => bits config = I16Bits end).

Lemma quantize_slice_returns vs config : returns (fun v => all_finite vs /\ quantized_ok config (len vs) v) (quantize_slice vs config).
Proof.
  unfold quantize_slice. apply (returns_bind (fun _ => all_finite vs)).
  { apply returns_ok; [auto with no_panic|]. by intros u Hu%ensure_finite_ok. }
  intros _ Hf. apply returns_guard. intros _. cbn [returns]. split; [done|].
  assert (forall b s, Forall (fun code => (Z.abs code <= max_magnitude b)%Z) (map (fun value => quantize_scalar b value s) vs)).
  { intros b s. apply Forall_map, Forall_true. intros x. apply scalar_bound. }
  unfold quantized_ok, quantized_len. cbn [values scale].
  destruct (bits config); cbn [quantized_values]; unfold len; rewrite length_map; by split_and!.
Qed.

Section quantize.
Context `{ShowFloat}.

Lemma basis_column_ok t column : shape_ok t -> (column < N.to_nat (output_dim t))%nat ->
  returns (fun l => len l = input_dim t) (basis_column t column).
Proof.
  intros Ht Hc. unfold basis_column. pose proof (shape_basis_nat t Ht) as Hl.
  rewrite (proj2 (Nat.leb_le _ _)) by nia. cbn [returns]. unfold len. rewrite length_take, length_drop. nia.
Qed.

Lemma quantize_returns t config : returns (fun q => validated t /\ q_input_dim q = input_dim t /\ q_output_dim q = output_dim t
  /\ quantized_ok config (input_dim t) (q_mean q) /\ len (basis_columns q) = output_dim t
  /\ Forall (quantized_ok config (input_dim t)) (basis_columns q)
  /\ forall v, q_explained_variance q = Some v -> quantized_ok config (output_dim t) v) (quantize t config).
Proof.
  unfold quantize. apply (returns_bind (fun _ => validated t)).
  { apply returns_ok; [apply transform_validate_no_panic|]. by intros []. }
  intros _ Hv. destruct (validated_shape t Hv) as [Ht Hvar].
  eapply returns_bind; [apply quantize_slice_returns|]. intros m [_ Hm]. rewrite (shape_mean t Ht) in Hm.
  eapply returns_bind.
  { apply (returns_collect (fun _ v => quantized_ok config (input_dim t) v)). intros c Hc%list_elem_of_In%in_seq.
    eapply returns_bind; [apply basis_column_ok; [done|lia]|]. intros l Hl; cbv beta in Hl. rewrite <-Hl.
    eapply returns_weaken; [apply quantize_slice_returns|]. by intros v []. }
  intros columns Hc; cbv beta in Hc.
  apply (returns_bind (fun o => forall v, o = Some v -> quantized_ok config (output_dim t) v)).
  { unfold variance_ok in Hvar. destruct (explained_variance t) as [variance|]; cbn [opt_transpose]; [|by cbn].
    destruct Hvar as [Hlv _]. pose proof (quantize_slice_returns variance config) as Hq.
    destruct (quantize_slice variance config) as [v| |]; cbn in *; [|done..]. intros w [= <-]. rewrite <-Hlv. by destruct Hq. }
  intros variance Hvq; cbv beta in Hvq. cbn. split_and!; [done..| | |done].
  - apply Forall2_length in Hc. rewrite length_seq in Hc. unfold len. lia.
  - clear -Hc. induction Hc; constructor; auto.
Qed.

Lemma dequantize_returns q : (q_input_dim q * q_output_dim q <= USIZE_MAX)%N ->
  returns (fun t => validated t /\ input_dim t = q_input_dim q /\ output_dim t = q_output_dim q) (dequantize q).
Proof.
  intros Hq. unfold dequantize. apply returns_guard; intros _. apply returns_guard; intros _.
  assert (forall c v n, no_panic (dequantize_vector c v n)) as Hd by (intros; unfold dequantize_vector; np).
  apply (returns_bind (fun _ => True)). { apply returns_ok; [apply Hd|done]. }
  intros m _. unfold checked_mul. rewrite (proj2 (N.leb_le _ _) Hq). cbn [expect rbind].
  apply (returns_bind (fun _ => True)). { apply returns_ok; [apply collect_map_no_panic; auto|done]. }
  intros columns _. apply (returns_bind (fun _ => True)). { apply returns_ok; [apply opt_transpose_no_panic; auto|done]. }
  intros variance _. eapply returns_weaken; [by apply checked_transform|]. by intros r [-> Hr].
Qed.
End quantize.

(** ** The reader's offset *)

(** From offset [o] to [o'] the bytes are [s]. *)
Definition passes (b : bytes) (o : N) (s : bytes) (o' : N) : Prop :=
  (o' <= len b)%N /\ o' = (o + len s)%N /\ take (N.to_nat o') b = take (N.to_nat o) b ++ s.
(** At offset [o] the bytes are [r]. *)
Definition remains (b : bytes) (o : N) (r : bytes) : Prop := (o <= len b)%N /\ drop (N.to_nat o) b = r.

Lemma passes_trans b o s o' s' o'' : passes b o s o' -> passes b o' s' o'' -> passes b o (s ++ s') o''.
Proof.
  intros (? & -> & H1) (? & -> & H2). split_and!; [done|unfold len in *; rewrite length_app; lia|]. by rewrite H2, H1, app_assoc.
Qed.
Lemma passes_all b s o : passes b 0 s o -> o = len b -> b = s.
Proof. intros (_ & _ & Hs) ->. unfold len in Hs. rewrite Nat2N.id, take_ge in Hs by done. exact Hs. Qed.

Lemma get_slice_passes b o n missing s o' : get_slice b o n missing = Ok (s, o') -> passes b o s o' /\ len s = n.
Proof.
  unfold get_slice, checked_add. intros H. inv_ok. destruct (_ <=? _)%N; [|done]. injection Hok as <-. subst s o'.
  apply N.leb_le in Hb. unfold len in *.
  assert (length (take (N.to_nat n) (drop (N.to_nat o) b)) = N.to_nat n) as Hl by (rewrite length_take, length_drop; lia).
  split; [|unfold len; lia]. split_and!; [unfold len; lia|unfold len; lia|].
  rewrite N2Nat.inj_add, <-take_take_drop. done.
Qed.

Lemma get_slice_remains b o s rest n missing : (len b <= USIZE_MAX)%N -> remains b o (s ++ rest) -> len s = n ->
  get_slice b o n missing = Ok (s, (o + n)%N) /\ remains b (o + n) rest.
Proof.
  intros Hb [Ho Hd] <-. assert (o + len s <= len b)%N as Hle.
  { apply (f_equal length) in Hd. rewrite length_drop, length_app in Hd. unfold len in *. lia. }
  unfold get_slice, checked_add. rewrite !(proj2 (N.leb_le _ _)) by lia. cbn [expect rbind].
  rewrite (proj2 (N.leb_le _ _)) by done. split.
  - rewrite Hd, take_app_length' by (unfold len; lia). done.
  - split; [done|]. rewrite N2Nat.inj_add, <-drop_drop, Hd, drop_app_length' by (unfold len; lia). done.
Qed.

(** ** Floats *)
Notation floats_ok := (Forall (fun x => f32_ok x)).

Lemma write_f32_length l : len (write_f32_slice l) = (4 * len l)%N.
Proof.
  unfold write_f32_slice, len. induction l as [|x l IH]; [done|]. cbn [map concat]. rewrite length_app.
  unfold f32_to_le_bytes at 1. rewrite le_split_length. cbn [length]. lia.
Qed.

Lemma write_read_f32 s : (length s mod 4 = 0)%nat -> write_f32_slice (map f32_from_le_bytes (chunks_exact 4 s)) = s
  /\ floats_ok (map f32_from_le_bytes (chunks_exact 4 s)) /\ (len (map f32_from_le_bytes (chunks_exact 4 s)) * 4 = len s)%N.
Proof.
  intros Hm. destruct (chunks_exact_spec 4 s) as (Hc & Hl & Hs); [lia|]. split_and!.
  - unfold write_f32_slice. rewrite map_map. rewrite <-(Hs Hm) at 2. f_equal. rewrite <-map_id. apply map_ext_in.
    intros c Hin%list_elem_of_In. rewrite Forall_forall in Hc. specialize (Hc c Hin).
    unfold f32_to_le_bytes, f32_from_le_bytes. rewrite <-Hc. by rewrite le_split_combine.
  - apply Forall_map. eapply Forall_impl; [exact Hc|]. intros c. by apply f32_from_le_bytes_ok.
  - unfold len. rewrite length_map, Hl. pose proof (Nat.div_mod_eq (length s) 4). lia.
Qed.

Lemma read_write_f32 l : floats_ok l -> map f32_from_le_bytes (chunks_exact 4 (write_f32_slice l)) = l.
Proof.
  intros Hl. unfold write_f32_slice. rewrite chunks_exact_concat; [|lia|].
  - rewrite map_map. rewrite <-map_id. apply map_ext_in. intros x Hx%list_elem_of_In. rewrite Forall_forall in Hl.
    by apply f32_le_bytes_roundtrip, Hl.
  - apply Forall_map, Forall_true. intros x. apply le_split_length.
Qed.

(** ** Each reader against its writer *)
Lemma read_u32_passes b o v o' : read_u32 b o = Ok (v, o') -> passes b o (write_u32 v) o'.
Proof.
  unfold read_u32. intros H. inv_oks. apply get_slice_passes in Hok as [Hp Hl]. subst.
  unfold write_u32. match type of Hl with len ?s = _ => replace 4%nat with (length s) by (unfold len in Hl; lia) end.
  by rewrite le_split_combine.
Qed.
Lemma read_usize_passes b o field v o' : read_usize b o field = Ok (v, o') -> passes b o (write_u64 v) o' /\ (v <= USIZE_MAX)%N.
Proof.
  unfold read_usize, read_u64. intros H. inv_oks. apply get_slice_passes in Hok0 as [Hp Hl]. simplify_eq.
  split; [|by apply N.leb_le].
  unfold write_u64. match type of Hl with len ?s = _ => replace 8%nat with (length s) by (unfold len in Hl; lia) end.
  by rewrite le_split_combine.
Qed.
Lemma read_f32_passes b o n l o' : read_f32_vec b o n = Ok (l, o') ->
  passes b o (write_f32_slice l) o' /\ len l = n /\ floats_ok l.
Proof.
  unfold read_f32_vec. intros H. inv_oks. apply checked_mul_some in Hok as [-> _]. apply get_slice_passes in Hok0 as [Hp Hl].
  subst. match type of Hl with len ?s = _ => destruct (write_read_f32 s) as (He & Hf & Hn); [|rewrite He] end.
  - unfold len in Hl. match goal with |- (?s mod 4)%nat = _ => replace s with (N.to_nat n * 4)%nat by lia end. apply Nat.Div0.mod_mul.
  - split_and!; [done| |done]. lia.
Qed.
Lemma read_u8_passes b o v o' : (o <= len b)%N -> read_u8 b o = Ok (v, o') -> exists x, v = Byte.to_N x /\ passes b o [x] o'.
Proof.
  unfold read_u8. intros Ho H. inv_oks. subst. exists a. split; [done|]. pose proof (lookup_lt_Some _ _ _ Hok) as Hlt.
  unfold passes, len in *. cbn. split_and!; [lia|done|]. replace (N.to_nat (o + 1)) with (S (N.to_nat o)) by lia.
  by apply take_S_r.
Qed.
Lemma read_header_passes b magic kind o : read_header b magic kind = Ok o ->
  passes b 0 (magic ++ write_u32 SERIALIZATION_VERSION ++ write_u32 CURRENT_SCHEMA_VERSION) o.
Proof.
  unfold read_header, expect_magic. intros H. inv_oks. simplify_eq. apply get_slice_passes in Hok1 as [Hp _].
  apply read_u32_passes in Hok0, Hok2. apply bool_decide_eq_true in Hb1. apply N.eqb_eq in Hb, Hb0. subst.
  eapply passes_trans; [exact Hp|]. by eapply passes_trans.
Qed.

Section remains.
Context (b : bytes) (Hb : (len b <= USIZE_MAX)%N).

Lemma le_split_read n v rest o missing : (v < 256 ^ N.of_nat n)%N -> remains b o (le_split n v ++ rest) ->
  exists o', get_slice b o (N.of_nat n) missing = Ok (le_split n v, o') /\ le_combine (le_split n v) = v /\ remains b o' rest.
Proof.
  intros Hv Hr. destruct (get_slice_remains b o _ rest (N.of_nat n) missing Hb Hr) as [-> Hr'].
  { unfold len. by rewrite le_split_length. }
  eexists. split_and!; [done| |done]. rewrite le_combine_split. by apply N.mod_small.
Qed.
Lemma read_u32_remains o v rest : (v < 2 ^ 32)%N -> remains b o (write_u32 v ++ rest) ->
  exists o', read_u32 b o = Ok (v, o') /\ remains b o' rest.
Proof.
  intros Hv Hr. destruct (le_split_read 4 v rest o unexpected_end Hv Hr) as (o' & He & Hc & Hr').
  exists o'. unfold read_u32. change 4%N with (N.of_nat 4). by rewrite He; cbn [rbind]; rewrite Hc.
Qed.
Lemma read_usize_remains o field v rest : (v <= USIZE_MAX)%N -> remains b o (write_u64 v ++ rest) ->
  exists o', read_usize b o field = Ok (v, o') /\ remains b o' rest.
Proof.
  intros Hv Hr. destruct (le_split_read 8 v rest o unexpected_end) as (o' & He & Hc & Hr'); [|done|].
  { change (256 ^ N.of_nat 8)%N with (USIZE_MAX + 1)%N. lia. }
  exists o'. unfold read_usize, read_u64. change 8%N with (N.of_nat 8). rewrite He. cbn [rbind]. rewrite Hc.
  by rewrite (proj2 (N.leb_le _ _) Hv).
Qed.
Lemma read_f32_remains o n l rest : floats_ok l -> len l = n -> remains b o (write_f32_slice l ++ rest) ->
  exists o', read_f32_vec b o n = Ok (l, o') /\ remains b o' rest.
Proof.
  intros Hl <- Hr. destruct (get_slice_remains b o _ rest (4 * len l) unexpected_end Hb Hr) as [He Hr'].
  { apply write_f32_length. }
  assert (4 * len l <= USIZE_MAX)%N as Hm.
  { destruct Hr as [_ Hd]. apply (f_equal length) in Hd. rewrite length_drop, length_app in Hd.
    pose proof (write_f32_length l). unfold len in *. lia. }
  eexists. split; [|exact Hr']. unfold read_f32_vec, checked_mul. rewrite N.mul_comm, (proj2 (N.leb_le _ _) Hm). cbn [ok_or rbind].
  rewrite He. cbn [rbind]. by rewrite read_write_f32.
Qed.
Lemma read_u8_remains o x rest : remains b o (x :: rest) -> exists o', read_u8 b o = Ok (Byte.to_N x, o') /\ remains b o' rest.
Proof.
  intros [Ho Hr]. unfold read_u8. assert (b !! N.to_nat o = Some x) as Hx.
  { rewrite <-(Nat.add_0_r (N.to_nat o)), <-lookup_drop, Hr. done. }
  rewrite Hx. exists (o + 1)%N. split; [done|]. apply lookup_lt_Some in Hx as Hlt. split; [unfold len; lia|].
  rewrite (drop_S _ _ _ Hx) in Hr. injection Hr as Hr. replace (N.to_nat (o + 1)) with (S (N.to_nat o)) by lia. done.
Qed.
Lemma read_header_remains magic kind rest : remains b 0 (magic ++ write_u32 SERIALIZATION_VERSION
    ++ write_u32 CURRENT_SCHEMA_VERSION ++ rest) -> exists o, read_header b magic kind = Ok o /\ remains b o rest.
Proof.
  intros Hr. unfold read_header, expect_magic.
  destruct (get_slice_remains b 0 magic _ (len magic) (InvalidSerializedFormat "missing magic bytes") Hb Hr eq_refl) as [-> Hr1].
  cbn [rbind]. rewrite bool_decide_eq_true_2 by done. cbn [rbind].
  destruct (read_u32_remains _ SERIALIZATION_VERSION _ ltac:(done) Hr1) as (o1 & -> & Hr2). cbn [rbind].
  rewrite N.eqb_refl. destruct (read_u32_remains _ CURRENT_SCHEMA_VERSION _ ltac:(done) Hr2) as (o2 & -> & Hr3). cbn [rbind].
  rewrite N.eqb_refl. by exists o2.
Qed.
End remains.

Lemma remains_start b : remains b 0 b.
Proof. split; [lia|done]. Qed.
Lemma remains_end b o : remains b o [] -> (o =? len b)%N = true.
Proof. intros [Ho Hd]. apply (f_equal length) in Hd. rewrite length_drop in Hd. cbn in Hd. apply N.eqb_eq. unfold len in *. lia. Qed.

(** ** The two formats *)
Lemma ok_inj {E A} (a b : A) : @Ok E A a = Ok b -> a = b.
Proof. by intros [= ->]. Qed.

Section formats.
Context `{ShowFloat}.

Definition transform_floats_ok (t : PcaTransform) : Prop :=
  floats_ok (mean t) /\ floats_ok (basis t) /\ floats_ok (default [] (explained_variance t)).
Definition affine_floats_ok (a : AffineTransform) : Prop := floats_ok (matrix a) /\ floats_ok (bias a).

Lemma shape_usize t : shape_ok t -> (input_dim t <= USIZE_MAX)%N /\ (output_dim t <= USIZE_MAX)%N.
Proof. intros [? ? ? _ _ _ _ _]. split; nia. Qed.

Lemma deserialize_serialize b t : deserialize b = Ok t -> serialize t = Ok b /\ transform_floats_ok t.
Proof.
  unfold deserialize. intros H0. inv_oks. simplify_eq.
  apply read_header_passes in Hok. apply read_usize_passes in Hok0 as [Hp1 _], Hok1 as [Hp2 _].
  apply read_u8_passes in Hok2 as (x & -> & Hp3); [|by destruct Hp2 as (? & ? & ?)].
  apply read_f32_passes in Hok3 as (Hp4 & Hl4 & Hf4), Hok5 as (Hp5 & Hl5 & Hf5).
  assert (exists s, passes b n6 s n7 /\ floats_ok (default [] o)
    /\ s = match o with Some v => write_f32_slice v | None => [] end
    /\ x = match o with Some _ => Byte.x01 | None => Byte.x00 end) as (s & Hp6 & Hf6 & -> & ->).
  { destruct (N.eqb_spec (Byte.to_N x) 1) as [Hx|Hx]; inv_oks; simplify_eq.
    - match goal with Hx : read_f32_vec _ _ _ = _ |- _ => apply read_f32_passes in Hx as (Hp & _ & Hf) end. eexists. split_and!; [exact Hp|done|done|].
      by rewrite <-(byte_of_to_N x), Hx.
    - exists []. split_and!; [|constructor|done|].
      + split_and!; [by destruct Hp5|unfold len; cbn; lia|by rewrite app_nil_r].
      + apply N.leb_le in Hb. rewrite <-(byte_of_to_N x). by replace (Byte.to_N x) with 0%N by lia. }
  split; [|split_and!; done]. unfold serialize. destruct a1. rewrite Hok7. cbn [rbind]. f_equal.
  symmetry. apply (passes_all b _ n7); [|by apply N.eqb_eq].
  pose proof (passes_trans _ _ _ _ _ _ Hok (passes_trans _ _ _ _ _ _ Hp1 (passes_trans _ _ _ _ _ _ Hp2
    (passes_trans _ _ _ _ _ _ Hp3 (passes_trans _ _ _ _ _ _ Hp4 (passes_trans _ _ _ _ _ _ Hp5 Hp6)))))) as Hp.
  rewrite <-!app_assoc in Hp. exact Hp.
Qed.

Lemma serialize_deserialize b t : (len b <= USIZE_MAX)%N -> transform_floats_ok t -> serialize t = Ok b -> deserialize b = Ok t.
Proof.
  intros Hb (Hfm & Hfb & Hfv) Hs. unfold serialize in Hs. apply rbind_ok in Hs as ([] & Hv & Hs%ok_inj).
  destruct (validated_shape t Hv) as [Ht Hvar]. destruct (shape_usize t Ht) as [Hi Ho]. pose proof Ht as [_ _ Hp Hm Hl _ _ Hsch].
  rewrite Hsch in Hs. pose proof (remains_start b) as Hr. rewrite <-Hs in Hr at 2. unfold deserialize.
  destruct (read_header_remains b Hb PCA_MAGIC "PCA" _ Hr) as (o & -> & Hr0). cbn [rbind].
  destruct (read_usize_remains b Hb o "input_dim" _ _ Hi Hr0) as (o1 & -> & Hr1). cbn [rbind].
  destruct (read_usize_remains b Hb o1 "output_dim" _ _ Ho Hr1) as (o2 & -> & Hr2). cbn [rbind].
  destruct (read_u8_remains b Hb o2 _ _ Hr2) as (o3 & -> & Hr3). cbn [rbind].
  match goal with |- context [(?v <=? 1)%N] => replace (v <=? 1)%N with true by by destruct (explained_variance t) end.
  destruct (read_f32_remains b Hb o3 _ _ _ Hfm Hm Hr3) as (o4 & -> & Hr4). cbn [rbind].
  unfold checked_mul. rewrite (proj2 (N.leb_le _ _) Hp). cbn [ok_or rbind].
  destruct (read_f32_remains b Hb o4 _ _ _ Hfb Hl Hr4) as (o5 & -> & Hr5). cbn [rbind].
  destruct t as [ti to tm tb tv ts]; cbn in *. subst ts. destruct tv as [variance|]; cbn in *.
  - destruct Hvar as [Hlv _]. rewrite <-(app_nil_r (write_f32_slice variance)) in Hr5.
    destruct (read_f32_remains b Hb o5 _ _ _ Hfv Hlv Hr5) as (o6 & -> & Hr6). cbn [rbind].
    rewrite (remains_end b o6 Hr6). cbn [rbind]. by rewrite Hv.
  - rewrite (remains_end b o5 Hr5). cbn [rbind]. by rewrite Hv.
Qed.
End formats.

Lemma affine_deserialize_serialize b a : affine_deserialize b = Ok a -> affine_serialize a = Ok b /\ affine_floats_ok a.
Proof.
  unfold affine_deserialize. intros H0. inv_oks. simplify_eq.
  apply read_header_passes in Hok. apply read_usize_passes in Hok0 as [Hp1 _], Hok1 as [Hp2 _].
  apply read_f32_passes in Hok3 as (Hp4 & Hl4 & Hf4), Hok4 as (Hp5 & Hl5 & Hf5).
  split; [|split_and!; done]. unfold affine_serialize.
  match goal with Hx : validate_operable "affine deserialize" _ = Ok ?u |- _ => rename Hx into Hv; destruct u end.
  rewrite (operable_done _ _ (operable_shape _ _ _ Hv)). cbn [rbind]. f_equal.
  symmetry. apply (passes_all b _ n4); [|by apply N.eqb_eq].
  pose proof (passes_trans _ _ _ _ _ _ Hok (passes_trans _ _ _ _ _ _ Hp1 (passes_trans _ _ _ _ _ _ Hp2
    (passes_trans _ _ _ _ _ _ Hp4 Hp5)))) as Hp.
  rewrite <-!app_assoc in Hp. exact Hp.
Qed.

Lemma affine_serialize_deserialize b a : (len b <= USIZE_MAX)%N -> affine_floats_ok a -> affine_serialize a = Ok b ->
  affine_deserialize b = Ok a.
Proof.
  intros Hb (Hfm & Hfb) Hs. unfold affine_serialize in Hs. apply rbind_ok in Hs as ([] & Hv & Hs%ok_inj).
  pose proof (operable_shape _ _ _ Hv) as Ha. pose proof Ha as [Hi0 Ho0 Hp Hl Hm _ _ Hsch].
  rewrite Hsch in Hs. pose proof (remains_start b) as Hr. rewrite <-Hs in Hr at 2. unfold affine_deserialize.
  destruct (read_header_remains b Hb AFFINE_MAGIC "affine" _ Hr) as (o & -> & Hr0). cbn [rbind].
  destruct (read_usize_remains b Hb o "input_dim" _ _ (proj1 (affine_usize a Ha)) Hr0) as (o1 & -> & Hr1). cbn [rbind].
  destruct (read_usize_remains b Hb o1 "output_dim" _ _ (proj2 (affine_usize a Ha)) Hr1) as (o2 & -> & Hr2). cbn [rbind].
  unfold checked_mul. rewrite (proj2 (N.leb_le _ _) Hp). cbn [ok_or rbind].
  destruct (read_f32_remains b Hb o2 _ _ _ Hfm Hl Hr2) as (o4 & -> & Hr4). cbn [rbind].
  rewrite <-(app_nil_r (write_f32_slice (bias a))) in Hr4.
  destruct (read_f32_remains b Hb o4 _ _ _ Hfb Hm Hr4) as (o5 & -> & Hr5). cbn [rbind].
  rewrite (remains_end b o5 Hr5).
  match goal with |- context [validate_operable _ ?r] => replace r with a by (destruct a; cbn in *; congruence) end.
  by rewrite (operable_done _ _ Ha).
Qed.
