(* ===== verification/PcaWitness.v ===== *)
(** * Principal components: what the crate promises

    The claims about crates/lexongraph-pca with their examples: two samples in the
    plane, decomposed by a stand-in for nalgebra whose basis is the axes. *)
From S2P Require Import Prelude Ordering Hash Ieee EbcpPayload BranchEncoding Pca PcaCodec PcaCorrect PcaCodecCorrect.

Section rotation.
Context `{ShowFloat} `{SymmetricEigen}.

(** [lexongraph_pca::fit], its error formatted into the encoder's message. *)
Definition pca_of_crate (vectors : list (list f32)) : result string PcaBasis :=
  map_err PcaError_to_string (rmap (fun t => {|
    fit_input_dim := N.to_nat (input_dim t); fit_output_dim := N.to_nat (output_dim t); fit_basis := basis t;
    fit_variance := explained_variance t |}) (fit vectors)).

#[local] Instance crate_fit : PcaFit := pca_of_crate.

(** Rows of the same length, one after the other. *)
Lemma rows_length {A} n k rows (f : nat -> list A) : (forall i, length (f i) = n) ->
  length (concat (map f (seq k rows))) = (rows * n)%nat.
Proof.
  intros Hf. revert k. induction rows as [|rows IH]; intros k; [done|]. cbn [seq map concat]. rewrite length_app, IH, Hf. lia.
Qed.

Lemma identity_rotation_length dims : length (identity_rotation dims) = (dims * dims)%nat.
Proof. apply rows_length. intros i. by rewrite length_map, length_seq. Qed.

Context `{!EigenShape}.

Lemma rotation_returns embeddings : (forall v, head embeddings = Some v -> len v * len v <= USIZE_MAX)%N ->
  returns (fun r => forall v, v ∈ embeddings -> length r.1 = (length v * length v)%nat /\ length r.2 = length v)
    (fit_ebcp_rotation embeddings).
Proof.
  intros Hfirst. unfold fit_ebcp_rotation. destruct embeddings as [|first rest]; [done|]. cbn [head ok_or rbind].
  apply returns_guard. intros Hsame.
  assert (forall v, v ∈ first :: rest -> length v = length first) as Hlen.
  { intros v Hv%list_elem_of_In. rewrite forallb_forall in Hsame. by apply Nat.eqb_eq, Hsame. }
  destruct (_ <? 2)%nat.
  { cbn [returns fst snd]. intros v ->%Hlen. rewrite length_replicate. split; [apply identity_rotation_length|done]. }
  pose proof (fit_returns (first :: rest) Hfirst) as Hf. unfold pca_fit, crate_fit, pca_of_crate.
  destruct (fit (first :: rest)) as [t|e|]; [|done|done]. cbn [rmap map_err rbind].
  destruct Hf as (Hv & Hsq & Hall). destruct (validated_shape t Hv) as [Ht Hvar].
  cbn [fit_input_dim fit_output_dim fit_basis fit_variance]. destruct (Hall first ltac:(set_solver)) as [Hdim _].
  apply (returns_bind (fun l => length l = (length first * length first)%nat)).
  - apply returns_ok.
    + apply collect_map_no_panic. intros [r a] Hin. apply list_elem_of_In, in_concat in Hin as (row & Hrow & Hin).
      apply in_map_iff in Hrow as (i & <- & Hi%in_seq). apply in_map_iff in Hin as (k & [= <- <-] & Hk%in_seq). cbn [fst snd].
      destruct (lookup_lt_is_Some_2 (basis t) (k + i * N.to_nat (input_dim t))%nat) as [x ->]; [|done].
      rewrite (shape_basis_nat t Ht). nia.
    + intros l ->%collect_map_length. rewrite Hsq in *. unfold len in Hdim.
      rewrite (rows_length (length first)) by (intros; rewrite length_map, length_seq; lia). lia.
  - intros l Hl. cbn [returns fst snd]. intros v Hin%Hlen. rewrite Hin, Hl. split; [done|].
    unfold variance_ok in Hvar. unfold len in *. destruct (explained_variance t) as [w|]; cbn [default].
    + destruct Hvar as [Hw _]. cbn in *. lia.
    + rewrite length_replicate. lia.
Qed.
End rotation.

(** ** The claims *)
Section claims.
Context `{ShowFloat}.

(** C20 The binary form of a transform is exact: bytes are read as a transform exactly
    when writing that transform gives these bytes, and the same for affine maps; so no
    two byte strings mean the same artifact and nothing is lost. *)
Theorem pca_artifacts_exact b : (len b <= USIZE_MAX)%N ->
  (forall t, deserialize b = Ok t <-> serialize t = Ok b /\ transform_floats_ok t)
  /\ (forall a, affine_deserialize b = Ok a <-> affine_serialize a = Ok b /\ affine_floats_ok a).
Proof.
  intros Hb. split.
  - intros t. split; [apply deserialize_serialize|]. intros [Hs Hf]. by apply serialize_deserialize.
  - intros a. split; [apply affine_deserialize_serialize|]. intros [Hs Hf]. by apply affine_serialize_deserialize.
Qed.

(** C21 Fitting samples whose squared dimension is a usize never panics, whatever
    nalgebra answers of the right shape; its result is valid and square, and projects
    every sample it was fitted on; keeping fewer components never panics either, and
    gives a valid transform with those columns. *)
Theorem fitted_transform_serves_samples `{SymmetricEigen} `{!EigenShape} vectors k :
  (forall v, head vectors = Some v -> len v * len v <= USIZE_MAX)%N ->
  returns (fun t => validated t /\ output_dim t = input_dim t
    /\ (forall v, v ∈ vectors -> exists out, apply t v = Ok out /\ len out = input_dim t)
    /\ returns (fun r => (1 <= k <= output_dim t)%N /\ validated r /\ output_dim r = k
         /\ basis r = take (N.to_nat (input_dim t * k)) (basis t)
         /\ forall v, v ∈ vectors -> exists out, apply r v = Ok out /\ len out = k) (truncate t k)) (fit vectors).
Proof.
  intros Hfirst. eapply returns_weaken; [by apply fit_returns|]. intros t (Hv & Hsq & Hall).
  destruct (validated_shape t Hv) as [Ht Hvar]. split_and!; [done|done| |].
  - intros v Hin. destruct (Hall v Hin) as [Hl Hf]. rewrite Hsq. by apply apply_succeeds.
  - eapply returns_weaken; [by apply truncate_returns|]. intros r (Hk & Ho & Hi & Hr & Hb & Hm). split_and!; [lia|lia|done..|].
    intros v Hin. destruct (Hall v Hin) as [Hl Hf]. destruct (validated_shape r Hr) as [Hrs _]. rewrite <-Ho.
    apply apply_succeeds; [done|congruence|done].
Qed.

(** Moving between transforms is well typed: neither rebase nor any chain of deltas
    panics, and a rebased vector goes from coordinates of the one transform to
    coordinates of the other; an exact rebase needs the first to keep every component. *)
Theorem rebase_well_typed from to vector chain :
  returns (fun out => input_dim from = output_dim from /\ len vector = output_dim from /\ len out = output_dim to) (rebase_exact vector from to)
  /\ returns (fun out => len vector = output_dim from /\ len out = output_dim to) (rebase_reconstructing vector from to)
  /\ no_panic (apply_delta_chain chain vector).
Proof.
  split_and!; [|apply rebase_returns|apply chain_no_panic]. destruct (rebase_returns from to vector) as [He _].
  unfold rebase_exact in *. pose proof (delta_exact_returns from to) as Hd.
  destruct (delta_exact from to) as [d|e|]; [|done|done]. cbn [rbind] in *. destruct Hd as (Hd & _).
  eapply returns_weaken; [exact He|]. intros out [Hl Ho]. split_and!; congruence.
Qed.

(** A quantized transform has a code for every number of the transform, and every
    code is at most 127 or 32767 in magnitude: the least code of the width is never
    used. Neither direction panics. *)
Theorem quantized_codes_symmetric t config :
  returns (fun q => validated t
    /\ quantized_ok config (input_dim t) (q_mean q)
    /\ len (basis_columns q) = output_dim t /\ Forall (quantized_ok config (input_dim t)) (basis_columns q)
    /\ (forall v, q_explained_variance q = Some v -> quantized_ok config (output_dim t) v)
    /\ returns (fun r => validated r /\ input_dim r = input_dim t /\ output_dim r = output_dim t) (dequantize q))
    (quantize t config).
Proof.
  eapply returns_weaken; [apply quantize_returns|]. intros q (Hv & Hi & Ho & Hm & Hl & Hc & He). split_and!; [done..|].
  rewrite <-Hi, <-Ho. apply dequantize_returns. rewrite Hi, Ho. by destruct (validated_shape t Hv) as [[]].
Qed.

(** C40 A header that declares so many inputs that their bytes, though a number of the
    machine, reach past its end from where they start makes the reader's sum of offset
    and length overflow, instead of the error for input that ends too soon. *)
Theorem declared_length_overflows n rest : (4 * n <= USIZE_MAX)%N -> (USIZE_MAX < 29 + 4 * n)%N ->
  (len (PCA_MAGIC ++ write_u32 SERIALIZATION_VERSION ++ write_u32 CURRENT_SCHEMA_VERSION ++ write_u64 n ++ write_u64 1 ++ Byte.x00 :: rest) <= USIZE_MAX)%N ->
  deserialize (PCA_MAGIC ++ write_u32 SERIALIZATION_VERSION ++ write_u32 CURRENT_SCHEMA_VERSION
    ++ write_u64 n ++ write_u64 1 ++ Byte.x00 :: rest) = Panic.
Proof.
  intros Hn Hover Hb. assert (n <= USIZE_MAX)%N as Hn1 by (clear -Hn; lia). set (b := PCA_MAGIC ++ _) in *. pose proof (remains_start b) as Hr. unfold b in Hr at 2. unfold deserialize.
  destruct (read_header_remains b Hb PCA_MAGIC "PCA" _ Hr) as (o & Ho & Hr0). rewrite Ho. cbn [rbind].
  destruct (read_usize_remains b Hb o "input_dim" _ _ Hn1 Hr0) as (o1 & Ho1 & Hr1). rewrite Ho1. cbn [rbind].
  destruct (read_usize_remains b Hb o1 "output_dim" 1%N _ ltac:(done) Hr1) as (o2 & Ho2 & Hr2). rewrite Ho2. cbn [rbind].
  destruct (read_u8_remains b Hb o2 _ _ Hr2) as (o3 & Ho3 & Hr3). rewrite Ho3. cbn [rbind]. cbn [Byte.to_N N.leb N.compare].
  assert (o3 = 29)%N as ->.
  { apply read_header_passes in Ho as (_ & -> & _). apply read_usize_passes in Ho1 as [(_ & -> & _) _], Ho2 as [(_ & -> & _) _].
    unfold read_u8 in Ho3. inv_ok. subst o3. done. }
  unfold read_f32_vec, checked_mul. rewrite (N.mul_comm n 4), (proj2 (N.leb_le _ _) Hn). cbn [ok_or rbind].
  unfold get_slice, checked_add. by rewrite (proj2 (N.leb_gt _ _) Hover).
Qed.

(** With the crate's own decomposition, the rotation a branch is encoded with is a
    square matrix over the embeddings' dimensions, with a variance for each of them,
    and fitting it never panics: no column is read outside the basis. *)
Theorem fitted_rotation_complete `{SymmetricEigen} `{!EigenShape} embeddings :
  (forall v, head embeddings = Some v -> len v * len v <= USIZE_MAX)%N ->
  returns (fun r => forall v, v ∈ embeddings -> length r.1 = (length v * length v)%nat /\ length r.2 = length v)
    (@fit_ebcp_rotation pca_of_crate embeddings).
Proof. apply rotation_returns. Qed.
End claims.

(** ** Examples *)
#[export] Instance sample_show : ShowFloat := {| show_f32 := fun _ => "float"; show_f64 := fun _ => "double" |}.
(** The axes, every eigenvalue one. *)
#[export] Instance sample_eigen : SymmetricEigen := fun dim _ =>
  let n := N.to_nat dim in
  (replicate n f64_one, map (fun i => map (fun j => if (i =? j)%nat then f64_one else 0%N) (seq 0 n)) (seq 0 n)).
#[export] Instance sample_eigen_shape : EigenShape.
Proof.
  intros dim m. cbn. rewrite length_replicate, length_map, length_seq. split_and!; [done..|].
  apply Forall_map, Forall_true. intros i. by rewrite length_map, length_seq.
Qed.

Definition sample_vectors : list (list f32) := [[f32_one; 0%N]; [0%N; f32_one]].
Definition sample_transform : PcaTransform :=
  match fit sample_vectors with Ok t => t | _ => {| input_dim := 0; output_dim := 0; mean := []; basis := [];
    explained_variance := None; schema_version := 0 |} end.
Definition sample_artifact : bytes := match serialize sample_transform with Ok b => b | _ => [] end.

Example sample_fit : fit sample_vectors = Ok sample_transform /\ mean sample_transform = [1056964608; 1056964608]%N.
Proof. split; vm_compute; reflexivity. Qed.
Example sample_apply : apply sample_transform [f32_one; 0%N] = Ok [1056964608; 3204448256]%N.
Proof. vm_compute; reflexivity. Qed.
Example sample_rebase : rebase_exact [1056964608; 3204448256]%N sample_transform sample_transform = Ok [1056964608; 3204448256]%N.
Proof. vm_compute; reflexivity. Qed.

Lemma pca_artifacts_exact_witness : (len sample_artifact <= USIZE_MAX)%N /\ deserialize sample_artifact = Ok sample_transform.
Proof.
  split; [by vm_compute|]. apply (pca_artifacts_exact sample_artifact); [by vm_compute|]. split; [by vm_compute|].
  assert (forall l, forallb (fun x => x <? 2 ^ 32)%N l = true -> floats_ok l) as Hf.
  { intros l Hl. apply Forall_forall. intros x Hx%list_elem_of_In. rewrite forallb_forall in Hl. by apply N.ltb_lt, Hl. }
  split_and!; apply Hf; by vm_compute.
Defined.

Lemma fitted_transform_serves_samples_witness :
  match fit sample_vectors with Ok t => validated t /\ truncate t 1 <> Panic | _ => False end.
Proof.
  assert (forall v, head sample_vectors = Some v -> len v * len v <= USIZE_MAX)%N as Hfirst by (intros v [= <-]; by vm_compute).
  pose proof (fitted_transform_serves_samples sample_vectors 1 Hfirst) as Hf. rewrite (proj1 sample_fit) in *.
  destruct Hf as (Hv & _ & _ & Ht). split; [exact Hv|]. intros Hp. rewrite Hp in Ht. exact Ht.
Defined.

Lemma declared_length_overflows_witness :
  deserialize (PCA_MAGIC ++ write_u32 SERIALIZATION_VERSION ++ write_u32 CURRENT_SCHEMA_VERSION
    ++ write_u64 (2 ^ 62 - 1) ++ write_u64 1 ++ [Byte.x00]) = Panic.
Proof. apply (declared_length_overflows (2 ^ 62 - 1) []); by vm_compute. Defined.

Lemma fitted_rotation_complete_witness :
  match @fit_ebcp_rotation pca_of_crate sample_vectors with Ok r => length r.1 = 4%nat /\ length r.2 = 2%nat | _ => False end.
Proof.
  assert (forall v, head sample_vectors = Some v -> len v * len v <= USIZE_MAX)%N as Hfirst by (intros v [= <-]; by vm_compute).
  pose proof (fitted_rotation_complete sample_vectors Hfirst) as Hf.
  destruct (@fit_ebcp_rotation pca_of_crate sample_vectors) as [r|e|] eqn:He; [|by vm_compute in He|exact Hf].
  exact (Hf [f32_one; 0%N] (list_elem_of_here _ _)).
Defined.
