(* ===== verification/PcaChunking.v ===== *)
(** * PCA chunking

    crates/lexongraph-pca-chunking/src/lib.rs: a first pass fits principal components;
    replays of the same data then find, one key of the order after the other, where the
    chunks end, so that only a few keys are held; the classifier looks an embedding up
    among these ends. [powf] of a single is a parameter. *)
From S2P Require Import Prelude Ordering Hash Ieee Clustering Pca.

Class PowfF32 := f32_powf : f32 -> f32 -> f32.

(** ** Parameters and errors *)
Record PcaChunkingParams := { retained_dimension_count : N; variance_exponent : f32 }.

Definition invalid_configuration (message : string) : StreamingClusteringError := InvalidConfiguration message.
Definition unsatisfiable_constraint (message : string) : StreamingClusteringError := UnsatisfiableConstraint message.
Definition malformed_input (message : string) : StreamingClusteringError := MalformedInput message.

Definition validate_params `{ShowFloat} (config : StreamingClusteringConfig) (params : PcaChunkingParams) : outcome unit :=
  guard? negb ((retained_dimension_count params =? 0) || (dimensions config <? retained_dimension_count params))%N else
    invalid_configuration ("retained_dimension_count must be in [1, " +:+ pretty (dimensions config) +:+ "], got "
      +:+ pretty (retained_dimension_count params))%stdpp in
  guard? f32_is_finite (variance_exponent params) && negb (fltb binary32 (variance_exponent params) 0) else
    invalid_configuration ("variance_exponent must be finite and non-negative, got "
      +:+ show_f32 (variance_exponent params))%stdpp in
  Ok tt.

Definition reject_balance_constraints (config : StreamingClusteringConfig) : outcome unit :=
  match balance_constraints config with
  | Some _ => Err (invalid_configuration "balance constraints are not supported by the PCA chunking trainer")
  | None => Ok tt
  end.

Definition map_pca_error `{ShowFloat} (error : PcaError) : StreamingClusteringError :=
  match error with
  | DimensionMismatch _ _ _ | InvalidTruncationDimension _ _ | ValidationFailure _ | QuantizationConfigurationError _
  | SchemaVersionMismatch _ _ | InvalidSerializedFormat _ =>
      invalid_configuration ("PCA chunking configuration is invalid: " +:+ PcaError_to_string error)%stdpp
  | NonFiniteInput _ _ => malformed_input ("non-finite PCA input: " +:+ PcaError_to_string error)%stdpp
  | PcaEmptyInput | InsufficientSamples _ | DegenerateCovariance _ _ | DecompositionFailure _ | InvalidNumericState _ =>
      unsatisfiable_constraint ("PCA chunking analysis failed: " +:+ PcaError_to_string error)%stdpp
  end.

(** ** Sort keys *)
Record SortKey := { projection_key : f32; retained_coordinates : list f32; key_embedding : list f32 }.

Definition projection_weights `{PowfF32} (transform : PcaTransform) (variance_exponent : f32) : list f32 :=
  match explained_variance transform with
  | Some variances => map (fun variance => f32_powf (fmax binary32 variance 0) variance_exponent) variances
  | None => replicate (N.to_nat (output_dim transform)) f32_one
  end.

Definition scalar_projection_key (coordinates weights : list f32) : outcome f32 :=
  guard? (length coordinates =? length weights)%nat else
    unsatisfiable_constraint ("projection-key shape mismatch: " +:+ pretty (len coordinates) +:+ " coordinates for "
      +:+ pretty (len weights) +:+ " weights")%stdpp in
  let key := sum_f32 (zip_with (fmul binary32) coordinates weights) in
  guard? f32_is_finite key else unsatisfiable_constraint "projection key became non-finite during PCA chunking" in
  Ok key.

Definition build_sort_key `{ShowFloat} (embedding : list f32) (transform : PcaTransform) (projection_weights : list f32)
  : outcome SortKey :=
  let? retained_coordinates := map_err map_pca_error (apply transform embedding) in
  let? projection_key := scalar_projection_key retained_coordinates projection_weights in
  Ok {| projection_key := projection_key; retained_coordinates := retained_coordinates; key_embedding := embedding |}.

(** The first difference, or else the lengths. *)
Fixpoint compare_f32_slices (left right : list f32) : comparison :=
  match left, right with
  | lhs :: left', rhs :: right' =>
      match f32_total_cmp lhs rhs with Eq => compare_f32_slices left' right' | ordering => ordering end
  | _, _ => Nat.compare (length left) (length right)
  end.

Definition compare_sort_keys (left right : SortKey) : comparison :=
  then_with (then_with
    (f32_total_cmp (projection_key left) (projection_key right))
    (compare_f32_slices (retained_coordinates left) (retained_coordinates right)))
    (compare_f32_slices (key_embedding left) (key_embedding right)).

Definition is_gt (c : comparison) : bool := match c with Gt => true | _ => false end.

(** ** Chunks *)
Definition boundary_targets (observed_count cluster_count : N) : outcome (list N) :=
  guard? negb (cluster_count =? 0)%N else
    invalid_configuration "cluster_count must be positive for contiguous chunking" in
  guard? negb (observed_count <? cluster_count)%N else
    unsatisfiable_constraint ("cannot form " +:+ pretty cluster_count +:+ " non-empty chunks from "
      +:+ pretty observed_count +:+ " items")%stdpp in
  let base := (observed_count / cluster_count)%N in
  let remainder := (observed_count mod cluster_count)%N in
  Ok (snd (fold_left (fun '(cumulative, targets) chunk_index =>
    let cumulative := (cumulative + (base + if (N.of_nat chunk_index <? remainder) then 1 else 0))%N in
    (cumulative, targets ++ [cumulative])) (seq 0 (N.to_nat cluster_count - 1)) (0%N, []))).

(** 1.0 less the last share of the variance *)
Definition chunking_quality (transform : PcaTransform) : f64 :=
  fsub binary64 f64_one (f64_of_f32 (default 0%N (cumulative_variance transform ≫= last))).

Record PcaChunkingModel := {
  transform : PcaTransform; weights : list f32; chunk_upper_bounds : list SortKey;
  model_quality : f64; model_observed : N
}.

Record BoundaryDiscoveryState := {
  d_transform : PcaTransform; d_weights : list f32; d_quality : f64; d_observed : N;
  d_targets : list N; next_boundary_index : nat; cumulative_count : N;
  lower_bound : option SortKey; d_upper_bounds : list SortKey
}.

Definition analysis_only_report (observed_count requested_cluster_count : N) (quality_metric : f64) : PassReport :=
  {| observed_count := observed_count; requested_cluster_count := requested_cluster_count; readiness := AnalysisOnly;
     realized_cluster_count := None; quality_metric := quality_metric; balance_metric := 0;
     quality_direction := SmallerIsBetter; balance_direction := SmallerIsBetter; cluster_ids := None |}.
Definition partition_ready_report (model : PcaChunkingModel) (requested_cluster_count : N) : PassReport :=
  {| observed_count := model_observed model; requested_cluster_count := requested_cluster_count; readiness := PartitionReady;
     realized_cluster_count := Some requested_cluster_count; quality_metric := model_quality model; balance_metric := 0;
     quality_direction := SmallerIsBetter; balance_direction := SmallerIsBetter;
     cluster_ids := Some (map N.of_nat (seq 0 (N.to_nat requested_cluster_count))) |}.

(** ** Passes

    The hasher of a pass is the bytes it was given. *)
Record PassTracker := { tracked_count : N; hashed : bytes }.
Record PassFingerprint := { fingerprint_count : N; digest : BlockHash }.
Definition PassTracker_new : PassTracker := {| tracked_count := 0; hashed := [] |}.
Definition tracker_update (t : PassTracker) (embedding : list f32) : PassTracker :=
  {| tracked_count := tracked_count t + 1;
     hashed := hashed t ++ le_split 8 (len embedding) ++ concat (map f32_to_le_bytes embedding) |}.
Definition tracker_finish `{Sha256} (t : PassTracker) : PassFingerprint :=
  {| fingerprint_count := tracked_count t; digest := sha256 (hashed t) |}.
Definition PassFingerprint_eqb (a b : PassFingerprint) : bool :=
  (fingerprint_count a =? fingerprint_count b)%N && bool_decide (as_bytes (digest a) = as_bytes (digest b)).

Inductive ReplayPhase :=
| AnalyzePca | DiscoverBoundaries (discovery : BoundaryDiscoveryState) | Ready (model : PcaChunkingModel).

Record ActivePcaPass := { pca_tracker : PassTracker; accumulator : PcaAccumulator }.
Record ActiveBoundaryPass := {
  boundary_tracker : PassTracker; discovery : BoundaryDiscoveryState; next_key : option SortKey; next_key_count : N
}.
Record ActiveReadyPass := { ready_tracker : PassTracker; ready_model : PcaChunkingModel }.
Inductive ActivePassState :=
| ActiveAnalyzePca (pass : ActivePcaPass) | ActiveDiscover (pass : ActiveBoundaryPass) | ActiveReady (pass : ActiveReadyPass).

Section ingesting.
Context `{ShowFloat}.

Definition ingest_pca (pass : ActivePcaPass) (embedding : list f32) : outcome unit * ActivePcaPass :=
  let tracker := tracker_update (pca_tracker pass) embedding in
  match map_err map_pca_error (update (accumulator pass) embedding) with
  | Ok accumulator => (Ok tt, {| pca_tracker := tracker; accumulator := accumulator |})
  | Err e => (Err e, {| pca_tracker := tracker; accumulator := accumulator pass |})
  | Panic => (Panic, pass)
  end.

(** The least key above the lower bound so far, and how often it came *)
Definition note_key (lower_bound : option SortKey) (next : option SortKey * N) (sort_key : SortKey) : option SortKey * N :=
  if match lower_bound with Some bound => negb (is_gt (compare_sort_keys sort_key bound)) | None => false end then next
  else match next with
  | (None, _) => (Some sort_key, 1)
  | (Some candidate, count) =>
      match compare_sort_keys sort_key candidate with
      | Lt => (Some sort_key, 1)
      | Eq => (Some candidate, count + 1)
      | Gt => (Some candidate, count)
      end
  end%N.

Definition ingest_boundary (pass : ActiveBoundaryPass) (embedding : list f32) : outcome unit * ActiveBoundaryPass :=
  let d := discovery pass in
  let tracker := tracker_update (boundary_tracker pass) embedding in
  let with_next next := {| boundary_tracker := tracker; discovery := d; next_key := next.1; next_key_count := next.2 |} in
  match build_sort_key embedding (d_transform d) (d_weights d) with
  | Ok sort_key => (Ok tt, with_next (note_key (lower_bound d) (next_key pass, next_key_count pass) sort_key))
  | Err e => (Err e, with_next (next_key pass, next_key_count pass))
  | Panic => (Panic, pass)
  end.

Definition ingest_one (dimensions : N) (pass : ActivePassState) (embedding : list f32) : outcome unit * ActivePassState :=
  match validate_embedding embedding dimensions with
  | Ok _ =>
      match pass with
      | ActiveAnalyzePca pass => let '(r, pass) := ingest_pca pass embedding in (r, ActiveAnalyzePca pass)
      | ActiveDiscover pass => let '(r, pass) := ingest_boundary pass embedding in (r, ActiveDiscover pass)
      | ActiveReady pass =>
          (Ok tt, ActiveReady {| ready_tracker := tracker_update (ready_tracker pass) embedding; ready_model := ready_model pass |})
      end
  | Err e => (Err e, pass)
  | Panic => (Panic, pass)
  end.

(** The loop over the batch stops at an error; the pass keeps what it has. *)
Fixpoint ingest_loop (dimensions : N) (embeddings : list (list f32)) (pass : ActivePassState) : outcome unit * ActivePassState :=
  match embeddings with
  | [] => (Ok tt, pass)
  | embedding :: rest =>
      match ingest_one dimensions pass embedding with
      | (Ok _, pass) => ingest_loop dimensions rest pass
      | stopped => stopped
      end
  end.
End ingesting.

(** ** The trainer *)
Module Trainer.
Record PcaChunkingStreamingTrainer := Mk {
  config : StreamingClusteringConfig; params : PcaChunkingParams; state : TrainerState; phase : ReplayPhase;
  active_pass : option ActivePassState; baseline_fingerprint : option PassFingerprint; model : option PcaChunkingModel
}.
Notation T := PcaChunkingStreamingTrainer.

Definition set_state (s : TrainerState) (t : T) : T :=
  Mk (config t) (params t) s (phase t) (active_pass t) (baseline_fingerprint t) (model t).
Definition set_active (a : option ActivePassState) (t : T) : T :=
  Mk (config t) (params t) (state t) (phase t) a (baseline_fingerprint t) (model t).
Definition set_baseline (f : PassFingerprint) (t : T) : T :=
  Mk (config t) (params t) (state t) (phase t) (active_pass t) (Some f) (model t).
Definition complete_pass (phase : ReplayPhase) (model : option PcaChunkingModel) (t : T) : T :=
  Mk (config t) (params t) PassComplete phase (active_pass t) (baseline_fingerprint t) model.

Definition new `{ShowFloat} (config : StreamingClusteringConfig) (params : PcaChunkingParams) : outcome T :=
  let? _ := validate_config config in
  let? _ := validate_params config params in
  let? _ := reject_balance_constraints config in
  Ok (Mk config params Idle AnalyzePca None None None).

Definition invalid_transition (operation : string) (t : T) : StreamingClusteringError * T :=
  (InvalidTransition (state t) operation, set_state ErrorState t).
(** [fail] keeps the error. *)
Definition fail (t : T) : T := set_active None (set_state ErrorState t).

Definition new_pass `{ShowFloat} (t : T) : outcome ActivePassState :=
  match phase t with
  | AnalyzePca =>
      let? accumulator := map_err map_pca_error (PcaAccumulator_new (dimensions (config t))) in
      Ok (ActiveAnalyzePca {| pca_tracker := PassTracker_new; accumulator := accumulator |})
  | DiscoverBoundaries discovery =>
      Ok (ActiveDiscover {| boundary_tracker := PassTracker_new; discovery := discovery; next_key := None; next_key_count := 0 |})
  | Ready model => Ok (ActiveReady {| ready_tracker := PassTracker_new; ready_model := model |})
  end.
Definition ensure_active_pass `{ShowFloat} (t : T) : outcome T :=
  match active_pass t with
  | Some _ => Ok t
  | None => let? pass := new_pass t in Ok (set_active (Some pass) t)
  end.

Definition ingest_active `{ShowFloat} (embeddings : list (list f32)) (t : T) : outcome unit * T :=
  match active_pass t with
  | Some pass =>
      let '(r, pass) := ingest_loop (dimensions (config t)) embeddings pass in (r, set_active (Some pass) t)
  | None => (Err (malformed_input "missing active PCA chunking pass state"), t)
  end.

Definition ingest_batch `{ShowFloat} (embeddings : list (list f32)) (t : T) : outcome unit * T :=
  match state t with
  | Idle | PassComplete =>
      let t := set_state Ingesting t in
      match ensure_active_pass t with
      | Ok t => ingest_active embeddings t
      | Err e => (Err e, t)
      | Panic => (Panic, t)
      end
  | Ingesting => ingest_active embeddings t
  | TrainingComplete | ErrorState => let '(e, t) := invalid_transition "ingest_batch" t in (Err e, t)
  end.

(** *** Finishing a pass *)
Notation finished := (outcome (ReplayPhase * PassReport * option PcaChunkingModel)).

Definition analyze `{ShowFloat} `{SymmetricEigen} `{PowfF32} (config : StreamingClusteringConfig) (params : PcaChunkingParams)
  (observed_count : N) (accumulator : PcaAccumulator) : finished :=
  let? transform := map_err map_pca_error (pca_finalize accumulator) in
  let? truncated := map_err map_pca_error (truncate transform (retained_dimension_count params)) in
  let projection_weights := projection_weights truncated (variance_exponent params) in
  let quality_metric := chunking_quality truncated in
  let? boundary_targets := boundary_targets observed_count (cluster_count config) in
  match boundary_targets with
  | [] =>
      let model := {| transform := truncated; weights := projection_weights; chunk_upper_bounds := [];
                      model_quality := quality_metric; model_observed := observed_count |} in
      Ok (Ready model, partition_ready_report model (cluster_count config), Some model)
  | _ =>
      Ok (DiscoverBoundaries {| d_transform := truncated; d_weights := projection_weights; d_quality := quality_metric;
            d_observed := observed_count; d_targets := boundary_targets; next_boundary_index := 0; cumulative_count := 0;
            lower_bound := None; d_upper_bounds := [] |},
          analysis_only_report observed_count (cluster_count config) quality_metric, None)
  end.

Section finishing.
Context `{ShowFloat} `{SymmetricEigen} `{PowfF32} `{Sha256}.

Definition finish_pca_pass (pass : ActivePcaPass) (t : T) : finished * T :=
  let fingerprint := tracker_finish (pca_tracker pass) in
  let observed_count := fingerprint_count fingerprint in
  if (observed_count =? 0)%N then (Err (malformed_input "completed pass must contain at least one embedding"), t)
  else if (observed_count <? cluster_count (config t))%N then
    (Err (unsatisfiable_constraint ("completed pass established N = " +:+ pretty observed_count
      +:+ ", smaller than required cluster_count " +:+ pretty (cluster_count (config t)))%stdpp), t)
  else
    let t := set_baseline fingerprint t in
    (analyze (config t) (params t) observed_count (accumulator pass), t).

Definition validate_replayed_pass (fingerprint : PassFingerprint) (t : T) : outcome unit :=
  let? baseline := ok_or (baseline_fingerprint t)
    (unsatisfiable_constraint "missing baseline dataset for later PCA chunking passes") in
  guard? PassFingerprint_eqb baseline fingerprint else
    malformed_input "later passes must replay the same logical dataset in the same order" in
  Ok tt.

(** The discovery after a pass that found [next_key] [count] times *)
Definition advance (d : BoundaryDiscoveryState) (needed_from_next_group : N) (next_key : SortKey) (count : N)
  : BoundaryDiscoveryState :=
  let reached := (count =? needed_from_next_group)%N in
  {| d_transform := d_transform d; d_weights := d_weights d; d_quality := d_quality d; d_observed := d_observed d;
     d_targets := d_targets d;
     next_boundary_index := if reached then S (next_boundary_index d) else next_boundary_index d;
     cumulative_count := cumulative_count d + count; lower_bound := Some next_key;
     d_upper_bounds := if reached then d_upper_bounds d ++ [next_key] else d_upper_bounds d |}.

Definition finish_boundary_pass (pass : ActiveBoundaryPass) (t : T) : finished :=
  let? _ := validate_replayed_pass (tracker_finish (boundary_tracker pass)) t in
  let d := discovery pass in
  let? boundary_target := expect (d_targets d !! next_boundary_index d) in
  let? needed_from_next_group := expect (checked_sub boundary_target (cumulative_count d)) in
  let? next_key := ok_or (next_key pass) (unsatisfiable_constraint
    "boundary replay did not discover any classifier-visible sort key above the prior lower bound") in
  guard? negb (needed_from_next_group <? next_key_count pass)%N else
    unsatisfiable_constraint "exact chunking would split identical classifier sort keys across a boundary" in
  let d := advance d needed_from_next_group next_key (next_key_count pass) in
  if (next_boundary_index d =? length (d_targets d))%nat then
    let model := {| transform := d_transform d; weights := d_weights d; chunk_upper_bounds := d_upper_bounds d;
                    model_quality := d_quality d; model_observed := d_observed d |} in
    Ok (Ready model, partition_ready_report model (cluster_count (config t)), Some model)
  else
    Ok (DiscoverBoundaries d, analysis_only_report (d_observed d) (cluster_count (config t)) (d_quality d), None).

Definition finish_ready_pass (pass : ActiveReadyPass) (t : T) : finished :=
  let? _ := validate_replayed_pass (tracker_finish (ready_tracker pass)) t in
  Ok (Ready (ready_model pass), partition_ready_report (ready_model pass) (cluster_count (config t)), Some (ready_model pass)).

Definition finish_pass_impl (t : T) : outcome PassReport * T :=
  if negb (bool_decide (state t = Ingesting)) then
    let '(e, t) := invalid_transition "finish_pass" t in (Err e, t)
  else
    match active_pass t with
    | None => (Err (malformed_input "completed pass must contain at least one embedding"), t)
    | Some active =>
        let t := set_active None t in
        let '(r, t) := match active with
          | ActiveAnalyzePca pass => finish_pca_pass pass t
          | ActiveDiscover pass => (finish_boundary_pass pass t, t)
          | ActiveReady pass => (finish_ready_pass pass t, t)
          end in
        match r with
        | Ok (next_phase, report, model) => (Ok report, complete_pass next_phase model t)
        | Err e => (Err e, t)
        | Panic => (Panic, t)
        end
    end.

Definition finish_pass (t : T) : outcome PassReport * T :=
  match finish_pass_impl t with
  | (Err e, t) => (Err e, fail t)
  | r => r
  end.
End finishing.

Definition complete_training (t : T) : outcome unit * T :=
  if negb (bool_decide (state t = PassComplete)) || negb (bool_decide (is_Some (model t))) then
    let '(e, t) := invalid_transition "complete_training" t in (Err e, t)
  else (Ok tt, set_state TrainingComplete t).
End Trainer.
Notation PcaChunkingStreamingTrainer := Trainer.PcaChunkingStreamingTrainer.

(** ** The classifier *)
Module Classifier.
Record PcaChunkingStreamingClassifier := Mk { config : StreamingClusteringConfig; model : PcaChunkingModel }.

Definition assign `{ShowFloat} (c : PcaChunkingStreamingClassifier) (embedding : list f32) : outcome N :=
  let? _ := validate_embedding embedding (dimensions (config c)) in
  let? sort_key := build_sort_key embedding (transform (model c)) (weights (model c)) in
  let cluster_index := partition_point (fun upper_bound => is_gt (compare_sort_keys sort_key upper_bound))
    (chunk_upper_bounds (model c)) in
  Ok (N.of_nat cluster_index mod 2 ^ 32)%N.

Definition into_classifier (t : PcaChunkingStreamingTrainer) : outcome PcaChunkingStreamingClassifier :=
  guard? bool_decide (Trainer.state t = TrainingComplete) else
    InvalidTransition (Trainer.state t) "into_classifier" in
  let? model := ok_or (Trainer.model t) (InvalidTransition (Trainer.state t) "into_classifier") in
  Ok (Mk (Trainer.config t) model).
End Classifier.
Notation PcaChunkingStreamingClassifier := Classifier.PcaChunkingStreamingClassifier.

#[export] Instance chunking_classifier `{ShowFloat} : StreamingClusterClassifier PcaChunkingStreamingClassifier :=
  {| classifier_config := Classifier.config; assign := Classifier.assign |}.
#[export] Instance chunking_trainer `{ShowFloat} `{SymmetricEigen} `{PowfF32} `{Sha256}
  : StreamingClusterTrainer PcaChunkingStreamingTrainer PcaChunkingStreamingClassifier :=
  {| trainer_config := Trainer.config; trainer_state := Trainer.state; ingest_batch := Trainer.ingest_batch;
     finish_pass := Trainer.finish_pass; complete_training := Trainer.complete_training;
     into_classifier := Classifier.into_classifier |}.
