(* ===== verification/ChunkingCorrect.v ===== *)
(** * PCA chunking: the properties

    A pass finds the least key above the bound so far and how often it comes, so what
    lies at or below the bound is counted; the ends of the chunks are the keys at or below
    which the targets lie. Trained on replays of the same data, the classifier gives every
    chunk exactly its share of the items, in the order of the keys. No sequence of calls
    panics. *)
From S2P Require Import Prelude Ordering Hash Ieee CborRef Clustering Pca PcaCorrect PcaWitness PcaChunking.

(** ** The order of the keys *)
Lemma f32_total_cmp_total : TotalCmp f32_total_cmp.
Proof.
  split; unfold f32_total_cmp.
  - intros x y. apply Z.compare_antisym.
  - intros x y z. rewrite !Z.compare_le_iff. apply Z.le_trans.
Qed.

Lemma slices_list_cmp l : forall k, compare_f32_slices l k = list_cmp f32_total_cmp l k.
Proof. induction l as [|x l IH]; intros [|y k]; cbn; [done..|]. rewrite IH. by destruct (f32_total_cmp x y). Qed.

#[export] Instance sort_key_total : TotalCmp compare_sort_keys.
Proof.
  pose proof f32_total_cmp_total as Hf. pose proof (list_cmp_total f32_total_cmp) as Hl.
  assert (forall A (f : A -> list f32), TotalCmp (fun x y => compare_f32_slices (f x) (f y))) as Hs.
  { intros A f. split.
    - intros x y. rewrite !slices_list_cmp. apply (cmp_opp (list_cmp f32_total_cmp)).
    - intros x y z. rewrite !slices_list_cmp. apply (cmp_le_trans (list_cmp f32_total_cmp)). }
  unfold compare_sort_keys. apply then_with_total; [|apply Hs]. apply then_with_total; [|apply Hs].
  apply (comap_total projection_key f32_total_cmp).
Qed.
Notation key_le := (cmp_le compare_sort_keys).

(** ** Counting *)
Definition count {A} (p : A -> bool) (l : list A) : N := len (List.filter p l).
(** At or below the bound; nothing is, without one. *)
Definition upto (bound : option SortKey) (x : SortKey) : bool :=
  match bound with Some b => negb (is_gt (compare_sort_keys x b)) | None => false end.
Definition same (m x : SortKey) : bool := match compare_sort_keys x m with Eq => true | _ => false end.

Lemma upto_le b x : upto (Some b) x = true <-> key_le x b.
Proof. unfold cmp_le. cbn. by destruct (compare_sort_keys x b). Qed.

Lemma upto_gt b x : upto (Some b) x = false <-> cmp_lt compare_sort_keys b x.
Proof. unfold cmp_lt. cbn. rewrite (cmp_opp compare_sort_keys b x). by destruct (compare_sort_keys b x). Qed.

Lemma count_cons {A} (p : A -> bool) x l : count p (x :: l) = ((if p x then 1 else 0) + count p l)%N.
Proof. unfold count, len. cbn. destruct (p x); cbn; lia. Qed.

Lemma count_snoc {A} (p : A -> bool) l x : count p (l ++ [x]) = (count p l + if p x then 1 else 0)%N.
Proof. unfold count, len. rewrite List.filter_app, length_app. cbn. destruct (p x); cbn; lia. Qed.

Lemma count_split {A} (p q r : A -> bool) l : Forall (fun x => p x = q x || r x /\ q x && r x = false) l ->
  count p l = (count q l + count r l)%N.
Proof. induction 1 as [|x l [Hp Hd] _ IH]; [done|]. rewrite !count_cons, IH, Hp. destruct (q x), (r x); cbn in *; [done|lia..]. Qed.

Lemma count_none {A} (p : A -> bool) l : Forall (fun x => p x = false) l -> count p l = 0%N.
Proof. induction 1 as [|x l Hx _ IH]; [done|]. by rewrite count_cons, IH, Hx. Qed.

Lemma count_all {A} (p : A -> bool) l : Forall (fun x => p x = true) l -> count p l = len l.
Proof. induction 1 as [|x l Hx _ IH]; [done|]. rewrite count_cons, IH, Hx. unfold len. cbn. lia. Qed.

Lemma counted_mono {A} (p q : A -> bool) l : (forall x, p x = true -> q x = true) -> (count p l <= count q l)%N.
Proof.
  intros Hpq. induction l as [|x l IH]; [done|]. rewrite !count_cons. specialize (Hpq x). destruct (p x); [rewrite Hpq by done; lia|].
  destruct (q x); lia.
Qed.

Lemma count_pos {A} (p : A -> bool) l x : x ∈ l -> p x = true -> (1 <= count p l)%N.
Proof. intros Hx Hp. induction Hx as [l|z y l _ IH]; rewrite count_cons; [rewrite Hp; lia|]. specialize (IH Hp). lia. Qed.

(** ** The least key above the bound *)
Definition scanned (bound : option SortKey) (l : list SortKey) (next : option SortKey * N) : Prop :=
  match next with
  | (None, c) => Forall (fun x => upto bound x = true) l /\ c = 0%N
  | (Some m, c) => m ∈ l /\ upto bound m = false /\ Forall (fun x => upto bound x = false -> key_le m x) l /\ c = count (same m) l
  end.

Lemma upto_lt_trans bound x y : upto bound x = true -> upto bound y = false -> cmp_lt compare_sort_keys x y.
Proof.
  destruct bound as [b|]; [|done]. intros Hx%upto_le Hy%upto_gt. by eapply (cmp_le_lt_trans compare_sort_keys).
Qed.

Lemma same_lt m x : cmp_lt compare_sort_keys x m -> same m x = false.
Proof. unfold cmp_lt, same. by intros ->. Qed.

Lemma same_gt m x : cmp_lt compare_sort_keys m x -> same m x = false.
Proof. unfold cmp_lt, same. intros Hm. rewrite (cmp_opp compare_sort_keys m x), Hm. done. Qed.

Lemma note_key_ok bound l next x : scanned bound l next -> scanned bound (l ++ [x]) (note_key bound next x).
Proof.
  intros Hs. unfold note_key.
  assert (match bound with Some b => negb (is_gt (compare_sort_keys x b)) | None => false end = upto bound x) as -> by by destruct bound.
  destruct (upto bound x) eqn:Hx.
  { destruct next as [[m|] c]; cbn in *.
    - destruct Hs as (Hm & Hb & Hf & ->). split_and!; [by apply elem_of_app; left|done| |].
      + apply Forall_app. split; [done|]. repeat constructor. by rewrite Hx.
      + rewrite count_snoc, (same_lt m x) by (by apply (upto_lt_trans bound)). lia.
    - destruct Hs as [Hf ->]. split; [|done]. apply Forall_app. by repeat constructor. }
  assert (forall m c, scanned bound l (Some m, c) -> cmp_lt compare_sort_keys x m -> scanned bound (l ++ [x]) (Some x, 1%N)) as Hnew.
  { intros m c (Hm & Hb & Hf & _) Hlt. split_and!; [by apply elem_of_app; right; constructor|done| |].
    - apply Forall_app. split; [|repeat constructor; intros; apply (cmp_le_refl compare_sort_keys)].
      eapply Forall_impl; [exact Hf|]. intros y Hy Hyb. etrans; [by apply cmp_lt_le|by apply Hy].
    - rewrite count_snoc, count_none.
      + unfold same. by rewrite (cmp_refl compare_sort_keys).
      + eapply Forall_impl; [exact Hf|]. cbn beta. intros y Hy. destruct (upto bound y) eqn:Hyb.
        * apply same_lt. by apply (upto_lt_trans bound).
        * apply same_gt. eapply (cmp_lt_le_trans compare_sort_keys); [exact Hlt|by apply Hy]. }
  destruct next as [[m|] c].
  - destruct (compare_sort_keys x m) eqn:Hc.
    + cbn in *. destruct Hs as (Hm & Hb & Hf & ->). split_and!; [by apply elem_of_app; left|done| |].
      * apply Forall_app. split; [done|]. repeat constructor. intros _. unfold cmp_le. rewrite (cmp_opp compare_sort_keys x m), Hc. done.
      * rewrite count_snoc. assert (same m x = match compare_sort_keys x m with Eq => true | _ => false end) as -> by done. rewrite Hc. lia.
    + by apply (Hnew m c).
    + cbn in *. destruct Hs as (Hm & Hb & Hf & ->). split_and!; [by apply elem_of_app; left|done| |].
      * apply Forall_app. split; [done|]. repeat constructor. intros _. unfold cmp_le. rewrite (cmp_opp compare_sort_keys x m), Hc. done.
      * rewrite count_snoc. assert (same m x = match compare_sort_keys x m with Eq => true | _ => false end) as -> by done. rewrite Hc. lia.
  - cbn in Hs. destruct Hs as [Hf ->]. cbn. split_and!; [by apply elem_of_app; right; constructor|done| |].
    + apply Forall_app. split; [|repeat constructor; intros; apply (cmp_le_refl compare_sort_keys)].
      eapply Forall_impl; [exact Hf|]. intros y Hy. by rewrite Hy.
    + rewrite count_snoc, count_none.
      * unfold same. by rewrite (cmp_refl compare_sort_keys).
      * eapply Forall_impl; [exact Hf|]. intros y Hy. apply same_lt. by apply (upto_lt_trans bound).
Qed.

Lemma scan_finds bound l : scanned bound l (fold_left (note_key bound) l (None, 0%N)).
Proof.
  induction l as [|x l IH] using rev_ind; [by split|]. rewrite fold_left_app. cbn. by apply note_key_ok.
Qed.

(** What is at or below the key found *)
Lemma scanned_count bound l m c : scanned bound l (Some m, c) ->
  count (upto (Some m)) l = (count (upto bound) l + c)%N /\ (1 <= c)%N.
Proof.
  intros (Hm & Hb & Hf & ->). split.
  - apply count_split. eapply Forall_impl; [exact Hf|]. intros x Hx. destruct (upto bound x) eqn:Hxb.
    + assert (cmp_lt compare_sort_keys x m) as Hlt by (by apply (upto_lt_trans bound)).
      rewrite (same_lt m x Hlt). split; [|done]. cbn [orb]. by apply upto_le, cmp_lt_le.
    + specialize (Hx Hxb). split; [|done]. cbn [orb]. unfold same. cbn. unfold cmp_le in Hx.
      rewrite (cmp_opp compare_sort_keys m x). by destruct (compare_sort_keys m x).
  - apply (count_pos _ _ m); [done|]. unfold same. by rewrite (cmp_refl compare_sort_keys).
Qed.

(** ** Shares *)

(** The items of chunk [i], and of the chunks before chunk [i]. *)
Definition chunk_size (n k i : N) : N := n / k + if (i <? n mod k)%N then 1 else 0.
Definition items_before (n k i : N) : N := i * (n / k) + N.min i (n mod k).

Lemma items_before_succ n k i : items_before n k (i + 1) = (items_before n k i + chunk_size n k i)%N.
Proof. unfold items_before, chunk_size. generalize (n / k)%N (n mod k)%N. intros q r. destruct (N.ltb_spec i r); lia. Qed.

Lemma items_before_all n k : (0 < k)%N -> items_before n k k = n.
Proof.
  intros Hk. unfold items_before. pose proof (N.Div0.div_mod n k) as Hd. pose proof (N.mod_lt n k ltac:(lia)) as Hm. lia.
Qed.

Lemma chunk_size_pos n k i : (0 < k)%N -> (k <= n)%N -> (1 <= chunk_size n k i)%N.
Proof.
  intros Hk Hn. unfold chunk_size. assert (1 <= n / k)%N by (apply N.div_le_lower_bound; lia). lia.
Qed.

Lemma items_before_mono n k i j : (0 < k)%N -> (k <= n)%N -> (i < j)%N -> (items_before n k i < items_before n k j)%N.
Proof.
  intros Hk Hn Hij. unfold items_before. assert (1 <= n / k)%N as Hq by (apply N.div_le_lower_bound; lia).
  revert Hq. generalize (n / k)%N (n mod k)%N. intros q r Hq. nia.
Qed.

Definition ends (n k : N) : list N := map (fun i => items_before n k (N.of_nat i + 1)) (seq 0 (N.to_nat k - 1)).

Lemma boundary_targets_ok n k targets : boundary_targets n k = Ok targets -> (0 < k)%N /\ (k <= n)%N /\ targets = ends n k.
Proof.
  unfold boundary_targets. intros Hb. inv_ok. apply negb_true_iff, N.eqb_neq in Hb0. apply negb_true_iff, N.ltb_ge in Hb1.
  split_and!; [lia|done|]. subst targets. unfold ends.
  enough (forall m s ts, fold_left (fun '(cumulative, targets) chunk_index =>
      let cumulative := (cumulative + (n / k + if (N.of_nat chunk_index <? n mod k) then 1 else 0))%N in
      (cumulative, targets ++ [cumulative])) (seq s m) (items_before n k (N.of_nat s), ts)
    = (items_before n k (N.of_nat (s + m)), ts ++ map (fun i => items_before n k (N.of_nat i + 1)) (seq s m))) as Hf.
  { specialize (Hf (N.to_nat k - 1)%nat 0%nat []). replace (items_before n k (N.of_nat 0)) with 0%N in Hf
      by (unfold items_before; cbn; by rewrite N.min_0_l). exact (f_equal snd Hf). }
  induction m as [|m IH]; intros s ts; cbn [seq fold_left map].
  - by rewrite Nat.add_0_r, app_nil_r.
  - fold (chunk_size n k (N.of_nat s)). rewrite <-items_before_succ.
    replace (N.of_nat s + 1)%N with (N.of_nat (S s)) by lia. rewrite IH, <-app_assoc. cbn [app]. by rewrite Nat.add_succ_r.
Qed.

Lemma ends_lookup n k i target : ends n k !! i = Some target <-> (i < N.to_nat k - 1)%nat /\ target = items_before n k (N.of_nat i + 1).
Proof.
  unfold ends. rewrite list_lookup_fmap. destruct (decide (i < N.to_nat k - 1)%nat) as [Hi|Hi].
  - rewrite lookup_seq_lt by done. cbn. naive_solver.
  - rewrite lookup_seq_ge by lia. cbn. naive_solver.
Qed.

Lemma ends_length n k : length (ends n k) = (N.to_nat k - 1)%nat.
Proof. unfold ends. by rewrite length_map, length_seq. Qed.

Lemma run_calls_app {T C} `{StreamingClusterTrainer T C} cs cs' (t : T) : run_calls (cs ++ cs') t
  = ((run_calls cs t).1 ++ (run_calls cs' (run_calls cs t).2).1, (run_calls cs' (run_calls cs t).2).2).
Proof.
  revert t. induction cs as [|c cs IH]; intros t; cbn [app run_calls fst snd]; [by destruct (run_calls cs' t)|].
  destruct (perform c t) as [r t1]. rewrite IH. by destruct (run_calls cs t1).
Qed.

(** ** Ingesting *)
Section passes.
Context `{ShowFloat} `{SymmetricEigen} `{PowfF32} `{Sha256}.
Import Trainer.

(** The keys of the items, as a transform gives them. *)
Definition keys_of (transform : PcaTransform) (weights : list f32) (es : list (list f32)) (keys : list SortKey) : Prop :=
  Forall2 (fun e key => build_sort_key e transform weights = Ok key) es keys.

Lemma keys_unique tr w es K K' : keys_of tr w es K -> keys_of tr w es K' -> K = K'.
Proof.
  intros HK. revert K'. induction HK as [|e x es K Hx _ IH]; intros K' HK'; inversion HK' as [|? y ? L Hy HL]; subst; [done|].
  rewrite Hx in Hy. injection Hy as ->. f_equal. by apply IH.
Qed.

(** What a pass holds once it has taken [es]. *)
Definition taken (start : ActivePassState) (es : list (list f32)) (held : ActivePassState) : Prop :=
  match start, held with
  | ActiveAnalyzePca p, ActiveAnalyzePca p' => tracked_count (pca_tracker p') = (tracked_count (pca_tracker p) + len es)%N
  | ActiveDiscover p, ActiveDiscover p' =>
      discovery p' = discovery p /\ exists keys, keys_of (d_transform (discovery p)) (d_weights (discovery p)) es keys
      /\ (next_key p', next_key_count p') = fold_left (note_key (lower_bound (discovery p))) keys (next_key p, next_key_count p)
  | ActiveReady p, ActiveReady p' => ready_model p' = ready_model p
  | _, _ => False
  end.

Lemma taken_nil pass : taken pass [] pass.
Proof.
  destruct pass as [p|p|p]; cbn; [unfold len; cbn; lia| |done]. split; [done|]. exists []. split; [constructor|done].
Qed.

Lemma taken_app pass es1 pass1 es2 pass2 : taken pass es1 pass1 -> taken pass1 es2 pass2 -> taken pass (es1 ++ es2) pass2.
Proof.
  destruct pass as [p|p|p], pass1 as [p1|p1|p1], pass2 as [p2|p2|p2]; cbn; try done.
  - intros H1' H2'. rewrite H2', H1'. unfold len. rewrite length_app. lia.
  - intros (Hd1 & K1 & HK1 & Hn1) (Hd2 & K2 & HK2 & Hn2). rewrite Hd1 in *. split; [by rewrite Hd2|].
    exists (K1 ++ K2). split; [by apply Forall2_app|]. by rewrite fold_left_app, <-Hn1.
  - by intros -> ->.
Qed.

Lemma ingest_one_ok dims pass e pass' : ingest_one dims pass e = (Ok tt, pass') -> taken pass [e] pass'.
Proof.
  unfold ingest_one. destruct (validate_embedding e dims) as [[]| |]; [|done..]. destruct pass as [p|p|p].
  - unfold ingest_pca. destruct (map_err map_pca_error (update (accumulator p) e)); [|done..].
    intros [= <-]. done.
  - unfold ingest_boundary. destruct (build_sort_key e _ _) as [key| |] eqn:Hk; [|done..].
    intros [= <-]. cbn. split; [done|]. exists [key]. split; [by repeat constructor|]. cbn. by destruct (note_key _ _ _).
  - by intros [= <-].
Qed.

Lemma ingest_loop_takes dims es : forall pass pass', ingest_loop dims es pass = (Ok tt, pass') -> taken pass es pass'.
Proof.
  induction es as [|e es IH]; intros pass pass'; cbn [ingest_loop]; [intros [= <-]; apply taken_nil|].
  destruct (ingest_one dims pass e) as [[[]| |] pass1] eqn:He; [|done..]. intros Hl.
  apply (taken_app pass [e] pass1 es pass'); [by apply (ingest_one_ok dims)|by apply IH].
Qed.

Definition valid_for (dims : N) (e : list f32) : Prop := validate_embedding e dims = Ok tt.

Lemma ingest_loop_valid dims es : forall pass pass', ingest_loop dims es pass = (Ok tt, pass') -> Forall (valid_for dims) es.
Proof.
  induction es as [|e es IH]; intros pass pass'; cbn [ingest_loop]; [constructor|].
  destruct (ingest_one dims pass e) as [[[]| |] pass1] eqn:He; [|done..]. intros Hl. constructor; [|by eapply IH].
  unfold ingest_one in He. unfold valid_for. by destruct (validate_embedding e dims) as [[]| |].
Qed.

(** ** The calls of a pass *)
#[local] Hint Extern 0 (StreamingClusterTrainer _ _) => exact chunking_trainer : typeclass_instances.

Definition all_ok (rs : list (outcome unit)) : Prop := Forall (fun r => r = Ok tt) rs.

Lemma ingest_calls_ok batches : forall t pass, state t = Ingesting -> active_pass t = Some pass ->
  all_ok (run_calls (map Ingest batches) t).1 ->
  exists pass', (run_calls (map Ingest batches) t).2 = set_active (Some pass') t /\ taken pass (concat batches) pass'
    /\ Forall (valid_for (dimensions (config t))) (concat batches).
Proof.
  induction batches as [|es batches IH]; intros t pass Hst Hact; cbn [map run_calls concat].
  - intros _. exists pass. split_and!; [cbn; destruct t; cbn in *; by subst|apply taken_nil|constructor].
  - cbn [perform Clustering.ingest_batch chunking_trainer]. unfold Trainer.ingest_batch. rewrite Hst. unfold ingest_active. rewrite Hact.
    destruct (ingest_loop (dimensions (config t)) es pass) as [r pass1] eqn:Hl.
    destruct (run_calls (map Ingest batches) (set_active (Some pass1) t)) as [rs t'] eqn:Hr. cbn [fst snd].
    intros [-> Hall]%Forall_cons. pose proof (ingest_loop_valid _ _ _ _ Hl) as Hv. apply ingest_loop_takes in Hl.
    destruct (IH (set_active (Some pass1) t) pass1) as (pass2 & Ht & Hk & Hvs); [done|done|by rewrite Hr|].
    rewrite Hr in Ht. cbn [snd] in Ht. exists pass2. split_and!; [by rewrite Ht|by eapply taken_app|by apply Forall_app].
Qed.

Definition pass_calls (batches : list (list (list f32))) : list call := map Ingest batches ++ [FinishPass].

Lemma pass_calls_ok batches t : state t = Idle \/ state t = PassComplete -> active_pass t = None ->
  all_ok (run_calls (pass_calls batches) t).1 ->
  exists start held report, new_pass t = Ok start /\ taken start (concat batches) held
    /\ Forall (valid_for (dimensions (config t))) (concat batches)
    /\ Trainer.finish_pass (set_active (Some held) (set_state Ingesting t)) = (Ok report, (run_calls (pass_calls batches) t).2).
Proof.
  intros Hst Hact. unfold pass_calls. rewrite run_calls_app. cbn [fst snd]. intros [Hing Hfin]%Forall_app.
  destruct batches as [|es batches].
  { exfalso. cbn in Hfin. unfold Trainer.finish_pass, finish_pass_impl in Hfin. rewrite bool_decide_eq_false_2 in Hfin by (destruct Hst; congruence).
    cbn in Hfin. apply Forall_cons in Hfin as [Hf _]. discriminate. }
  assert (exists start held, new_pass t = Ok start /\ taken start (concat (es :: batches)) held
    /\ Forall (valid_for (dimensions (config t))) (concat (es :: batches))
    /\ (run_calls (map Ingest (es :: batches)) t).2 = set_active (Some held) (set_state Ingesting t)) as (start & held & Hs & Hk & Hv & Ht).
  { cbn [map run_calls] in Hing |- *. cbn [perform Clustering.ingest_batch chunking_trainer] in Hing |- *.
    assert (Trainer.ingest_batch es t = match ensure_active_pass (set_state Ingesting t) with
      | Ok t => ingest_active es t | Err e => (Err e, set_state Ingesting t) | Panic => (Panic, set_state Ingesting t) end) as He.
    { unfold Trainer.ingest_batch. destruct Hst as [-> | ->]; by destruct (ensure_active_pass _). }
    rewrite He in Hing |- *. unfold ensure_active_pass in Hing |- *. change (active_pass (set_state Ingesting t)) with (active_pass t) in *.
    rewrite Hact in Hing |- *. change (new_pass (set_state Ingesting t)) with (new_pass t) in *.
    destruct (new_pass t) as [start|e|]; cbn [rbind] in *.
    2,3: destruct (run_calls _ _); apply Forall_cons in Hing as [Hf _]; discriminate.
    exists start. unfold ingest_active in *. cbn [active_pass set_active config set_state] in *.
    destruct (ingest_loop (dimensions (config t)) es start) as [r pass1] eqn:Hl.
    destruct (run_calls (map Ingest batches) _) as [rs t'] eqn:Hr. cbn [fst snd] in *. apply Forall_cons in Hing as [-> Hall].
    pose proof (ingest_loop_valid _ _ _ _ Hl) as Hv. apply ingest_loop_takes in Hl.
    destruct (ingest_calls_ok batches (set_active (Some pass1) (set_active (Some start) (set_state Ingesting t))) pass1) as (held & Ht & Hk & Hvs);
      [done|done|by rewrite Hr|]. rewrite Hr in Ht. cbn [snd] in Ht. exists held. cbn [concat].
    split_and!; [done|by eapply taken_app|by apply Forall_app|by rewrite Ht]. }
  rewrite Ht in Hfin |- *. cbn [run_calls perform Clustering.finish_pass chunking_trainer] in Hfin |- *.
  destruct (Trainer.finish_pass (set_active (Some held) (set_state Ingesting t))) as [r t'] eqn:Hf. cbn [fst snd] in *.
  apply Forall_cons in Hfin as [Hr _]. destruct r as [report| |]; [|done..]. by exists start, held, report.
Qed.
End passes.

(** ** What the passes leave *)
Section training.
Context `{ShowFloat} `{SymmetricEigen} `{PowfF32} `{Sha256}.
Import Trainer.
#[local] Hint Extern 0 (StreamingClusterTrainer _ _) => exact chunking_trainer : typeclass_instances.
Context (es : list (list f32)) (k : N).
Notation n := (len es).

(** The ends found so far: as many items at or below the end of a chunk as the chunks up to it have. *)
Definition found (uppers : list SortKey) (keys : list SortKey) : Prop :=
  forall i u, uppers !! i = Some u -> count (upto (Some u)) keys = items_before n k (N.of_nat i + 1).

Record discovery_ok (passes : N) (d : BoundaryDiscoveryState) : Prop := {
  do_targets : d_targets d = ends n k;
  do_index : (next_boundary_index d < length (ends n k))%nat;
  do_uppers : length (d_upper_bounds d) = next_boundary_index d;
  do_below : (cumulative_count d < items_before n k (N.of_nat (next_boundary_index d) + 1))%N;
  do_progress : (passes <= cumulative_count d + 1)%N;
  do_found keys : keys_of (d_transform d) (d_weights d) es keys ->
    cumulative_count d = count (upto (lower_bound d)) keys /\ found (d_upper_bounds d) keys
}.

Record model_ok (m : PcaChunkingModel) : Prop := {
  mo_uppers : length (chunk_upper_bounds m) = (N.to_nat k - 1)%nat;
  mo_keys : (2 <= k)%N -> exists keys, keys_of (transform m) (weights m) es keys;
  mo_found keys : keys_of (transform m) (weights m) es keys -> found (chunk_upper_bounds m) keys
}.

Definition phase_ok (passes : N) (phase : ReplayPhase) (model : option PcaChunkingModel) : Prop :=
  (0 < k)%N /\ (k <= n)%N /\
  match phase with
  | AnalyzePca => False
  | DiscoverBoundaries d => model = None /\ discovery_ok passes d
  | Ready m => model = Some m /\ model_ok m
  end.

Lemma analyze_ok config params observed acc phase report model : observed = n -> cluster_count config = k ->
  analyze config params observed acc = Ok (phase, report, model) -> phase_ok 1 phase model.
Proof.
  intros -> Hk Ha. unfold analyze in Ha. rewrite Hk in Ha. inv_ok.
  match goal with Hb : boundary_targets _ _ = Ok _ |- _ => destruct (boundary_targets_ok _ _ _ Hb) as (Hpos & Hle & ->) end.
  split; [done|]. split; [done|]. pose proof (ends_length n k) as Hl.
  destruct (ends n k) as [|target targets] eqn:He; injection Ha as <- <- <-.
  - split; [done|]. cbn in Hl. split; cbn; [done|lia|]. intros keys _ i u Hi. done.
  - split; [done|]. split; cbn [d_targets next_boundary_index d_upper_bounds cumulative_count lower_bound d_transform d_weights].
    + done.
    + rewrite He. cbn. lia.
    + done.
    + pose proof (items_before_mono n k 0 (N.of_nat 0 + 1) Hpos Hle ltac:(lia)). lia.
    + done.
    + intros keys _. split; [|done]. symmetry. apply count_none, Forall_true. done.
Qed.

Lemma advance_ok passes d keys m c : (0 < k)%N -> (k <= n)%N -> discovery_ok passes d ->
  keys_of (d_transform d) (d_weights d) es keys -> scanned (lower_bound d) keys (Some m, c) ->
  let needed := (items_before n k (N.of_nat (next_boundary_index d) + 1) - cumulative_count d)%N in
  (c <= needed)%N ->
  let d' := advance d needed m c in
  length (d_upper_bounds d') = next_boundary_index d' /\ (next_boundary_index d' <= length (ends n k))%nat
  /\ (passes + 1 <= cumulative_count d' + 1)%N
  /\ (cumulative_count d' < items_before n k (N.of_nat (next_boundary_index d') + 1))%N
  /\ forall keys', keys_of (d_transform d') (d_weights d') es keys' ->
     cumulative_count d' = count (upto (lower_bound d')) keys' /\ found (d_upper_bounds d') keys'.
Proof.
  intros Hpos Hle [Ht Hi Hu Hb Hp Hf] HK Hs needed Hc d'. destruct (Hf keys HK) as [Hcum Hfound].
  destruct (scanned_count _ _ _ _ Hs) as [Hcount Hc1]. rewrite <-Hcum in Hcount.
  pose proof (items_before_mono n k (N.of_nat (next_boundary_index d) + 1) (N.of_nat (S (next_boundary_index d)) + 1) Hpos Hle ltac:(lia)) as Hnext.
  unfold d', advance; cbn [d_upper_bounds next_boundary_index cumulative_count lower_bound d_transform d_weights].
  destruct (N.eqb_spec c needed) as [Hreach|Hreach].
  - split_and!; [rewrite length_app; cbn; lia|lia|lia|unfold needed in *; lia|]. intros keys' HK'.
    rewrite (keys_unique _ _ _ _ _ HK' HK). split; [by rewrite Hcount|].
    intros i u [Hiu|[Hge Hiu]]%lookup_app_Some; [by apply Hfound|].
    apply list_lookup_singleton_Some in Hiu as [Hi0 <-]. rewrite Hcount. replace i with (next_boundary_index d) by lia. unfold needed in *. lia.
  - split_and!; [done|lia|lia|unfold needed in *; lia|]. intros keys' HK'. rewrite (keys_unique _ _ _ _ _ HK' HK).
    split; [by rewrite Hcount|exact Hfound].
Qed.

Lemma finish_boundary_ok passes d held t phase report model : (0 < k)%N -> (k <= n)%N -> discovery_ok passes d ->
  taken (ActiveDiscover {| boundary_tracker := PassTracker_new; discovery := d; next_key := None; next_key_count := 0 |}) es (ActiveDiscover held) ->
  finish_boundary_pass held t = Ok (phase, report, model) -> phase_ok (passes + 1) phase model.
Proof.
  intros Hpos Hle Hd (Hdisc & keys & HK & Hnext) Hf. cbn [discovery next_key next_key_count] in *.
  pose proof (scan_finds (lower_bound d) keys) as Hs. rewrite <-Hnext in Hs. pose proof Hd as [Ht Hi Hu Hb Hp Hfnd].
  unfold finish_boundary_pass in Hf. rewrite Hdisc in Hf. apply rbind_ok in Hf as (u & _ & Hf).
  apply rbind_ok in Hf as (target & Htgt & Hf). apply rbind_ok in Hf as (needed & Hneed & Hf). apply rbind_ok in Hf as (m & Hm & Hf).
  destruct (next_key held) as [m'|]; [|done]. injection Hm as ->.
  destruct (d_targets d !! next_boundary_index d) as [x|] eqn:Hx; [|done]. injection Htgt as ->.
  rewrite Ht in Hx. apply ends_lookup in Hx as [_ ->].
  unfold checked_sub in Hneed. destruct (cumulative_count d <=? _)%N; [|done]. injection Hneed as <-.
  destruct (N.ltb_spec (items_before n k (N.of_nat (next_boundary_index d) + 1) - cumulative_count d) (next_key_count held)) as [|Hc]; [done|].
  cbn [negb] in Hf. destruct (advance_ok passes d keys m (next_key_count held) Hpos Hle Hd HK Hs Hc) as (H1' & H2' & H3' & H4' & H5').
  revert Hf H1' H2' H3' H4' H5'. set (d' := advance d _ m _). intros Hf H1' H2' H3' H4' H5'.
  assert (d_targets d' = ends n k) as Ht' by done. assert (d_transform d' = d_transform d /\ d_weights d' = d_weights d) as [Htr Hw] by done.
  clearbody d'. rewrite Ht' in Hf. split; [done|]. split; [done|].
  destruct (Nat.eqb_spec (next_boundary_index d') (length (ends n k))) as [He|Hne]; injection Hf as <- <- <-.
  - split; [done|]. split; cbn.
    + by rewrite H1', He, ends_length.
    + intros _. rewrite Htr, Hw. by exists keys.
    + intros keys' HK'. by apply H5'.
  - split; [done|]. by split; [|lia|..].
Qed.

(** A trainer that has completed some passes over the items. *)
Record trained (passes : N) (t : PcaChunkingStreamingTrainer) : Prop := {
  tr_state : state t = if (passes =? 0)%N then Idle else PassComplete;
  tr_active : active_pass t = None;
  tr_count : cluster_count (config t) = k;
  tr_valid : passes <> 0%N -> Forall (valid_for (dimensions (config t))) es;
  tr_phase : if (passes =? 0)%N then phase t = AnalyzePca else phase_ok passes (phase t) (model t)
}.

Lemma phase_ready passes m model : phase_ok passes (Ready m) model -> phase_ok (passes + 1) (Ready m) (Some m).
Proof. intros (Hpos & Hle & _ & Hm). by split_and!. Qed.

Lemma pass_ok passes t batches : trained passes t -> concat batches = es -> all_ok (run_calls (pass_calls batches) t).1 ->
  trained (passes + 1) (run_calls (pass_calls batches) t).2 /\ config (run_calls (pass_calls batches) t).2 = config t.
Proof.
  intros [Hst Hact Hcc _ Hph] Hes Hall.
  destruct (pass_calls_ok batches t) as (start & held & report & Hnew & Htaken & Hvalid & Hfin);
    [destruct (passes =? 0)%N; auto|done|done|]. rewrite Hes in Htaken, Hvalid.
  revert Hfin. generalize (run_calls (pass_calls batches) t).2. intros t' Hfin.
  unfold Trainer.finish_pass, finish_pass_impl in Hfin. rewrite bool_decide_eq_true_2 in Hfin by done. cbn [negb active_pass set_active] in Hfin.
  assert (passes + 1 =? 0 = false)%N as Hnz by (apply N.eqb_neq; lia).
  assert (forall (r : outcome (ReplayPhase * PassReport * option PcaChunkingModel)) t0,
    active_pass t0 = None -> config t0 = config t ->
    (forall ph rep m, r = Ok (ph, rep, m) -> phase_ok (passes + 1) ph m) ->
    match (match r with
           | Ok (next_phase, report, model) => (Ok report, complete_pass next_phase model t0)
           | Err e => (Err e, t0)
           | Panic => (Panic, t0)
           end) with (Err e, t) => (Err e, fail t) | r => r end = (Ok report, t') ->
    trained (passes + 1) t' /\ config t' = config t) as Hdone.
  { intros r t0 Ha Hcfg Hok He. destruct r as [[[ph rep] m]| |]; [|done..]. injection He as <- <-. split; [|done].
    split; cbn; rewrite ?Hnz; [done|done|by rewrite Hcfg|by rewrite Hcfg|by eapply Hok]. }
  destruct held as [p|p|p].
  - assert (phase t = AnalyzePca /\ passes = 0%N) as [Ha Hp0].
    { unfold new_pass in Hnew. destruct (N.eqb_spec passes 0) as [->|Hne]; [done|]. destruct (phase t); [by destruct Hph as (_ & _ & [])|by injection Hnew as <-..]. }
    unfold new_pass in Hnew. rewrite Ha in Hnew. apply rbind_ok in Hnew as (acc & _ & [= <-]). cbn [taken pca_tracker] in Htaken.
    unfold finish_pca_pass in Hfin. cbn [fingerprint_count tracker_finish] in Hfin.
    change (tracked_count PassTracker_new) with 0%N in Htaken. rewrite N.add_0_l in Htaken. rewrite Htaken in Hfin.
    destruct (N.eqb_spec n 0) as [|Hn0]; [done|]. cbn [cluster_count config set_active set_state] in Hfin.
    destruct (N.ltb_spec n (cluster_count (config t))); [done|].
    eapply Hdone; [| | |exact Hfin]; [done|done|]. intros ph rep m Hr. subst passes. cbn [config set_baseline set_active set_state params] in Hr.
    exact (analyze_ok _ _ _ _ _ _ _ eq_refl Hcc Hr).
  - unfold new_pass in Hnew. destruct (N.eqb_spec passes 0) as [->|Hne].
    { rewrite Hph in Hnew. apply rbind_ok in Hnew as (acc & _ & [= <-]). done. }
    destruct (phase t) as [|d|m] eqn:Hpt; [by destruct Hph as (_ & _ & [])| |by injection Hnew as <-]. injection Hnew as <-.
    destruct Hph as (Hpos & Hle & _ & Hd).
    eapply Hdone; [| | |exact Hfin]; [done|done|]. intros ph rep m Hr. by eapply finish_boundary_ok.
  - unfold new_pass in Hnew. destruct (N.eqb_spec passes 0) as [->|Hne].
    { rewrite Hph in Hnew. apply rbind_ok in Hnew as (acc & _ & [= <-]). done. }
    destruct (phase t) as [|d|m] eqn:Hpt; [by destruct Hph as (_ & _ & [])|by injection Hnew as <-|]. injection Hnew as <-.
    cbn [taken ready_model] in Htaken.
    eapply Hdone; [| | |exact Hfin]; [done|done|]. intros ph rep m' Hr. unfold finish_ready_pass in Hr. apply rbind_ok in Hr as (u & _ & Hr).
    injection Hr as <- _ <-. rewrite Htaken. by eapply phase_ready.
Qed.

Lemma passes_ok_all all_passes : forall passes t, trained passes t -> Forall (fun batches => concat batches = es) all_passes ->
  all_ok (run_calls (concat (map pass_calls all_passes)) t).1 ->
  trained (passes + len all_passes) (run_calls (concat (map pass_calls all_passes)) t).2
  /\ config (run_calls (concat (map pass_calls all_passes)) t).2 = config t.
Proof.
  induction all_passes as [|batches rest IH]; intros passes t Ht Hes Hall; cbn [map concat] in *.
  { cbn. unfold len. cbn. by rewrite N.add_0_r. }
  apply Forall_cons in Hes as [He Hes]. rewrite run_calls_app in Hall |- *. cbn [fst snd] in Hall |- *. apply Forall_app in Hall as [H1' H2'].
  destruct (pass_ok passes t batches Ht He H1') as [Ht1 Hc1].
  destruct (IH (passes + 1)%N _ Ht1 Hes H2') as [Ht2 Hc2]. rewrite Hc2, Hc1. split; [|done].
  replace (passes + len (batches :: rest))%N with (passes + 1 + len rest)%N by (unfold len; cbn [length]; lia). exact Ht2.
Qed.

Lemma new_trained config params t : Trainer.new config params = Ok t -> cluster_count config = k ->
  trained 0 t /\ Trainer.config t = config.
Proof. intros Hn Hk. unfold Trainer.new in Hn. inv_ok. subst t. by split. Qed.

(** As many passes as items are enough. *)
Lemma enough_passes passes t : trained passes t -> (0 < passes)%N -> (n <= passes)%N -> exists m, model t = Some m.
Proof.
  intros [_ _ _ _ Hph] Hp Hn. rewrite (proj2 (N.eqb_neq passes 0)) in Hph by lia. destruct Hph as (Hpos & Hle & Hph).
  destruct (phase t) as [|d|m]; [done| |exists m; apply Hph]. exfalso. destruct Hph as [_ [_ Hi _ Hb Hprog _]].
  rewrite ends_length in Hi.
  pose proof (items_before_mono n k (N.of_nat (next_boundary_index d) + 1) k Hpos Hle ltac:(lia)) as Hlt.
  rewrite items_before_all in Hlt by done. lia.
Qed.
(** ** The chunks *)

(** At or below the end of chunk [i]; everything is, in the last one. *)
Definition within (uppers : list SortKey) (i : nat) (x : SortKey) : bool :=
  match uppers !! i with Some u => upto (Some u) x | None => true end.
Definition chunk_of (uppers : list SortKey) (x : SortKey) : nat :=
  partition_point (fun upper_bound => is_gt (compare_sort_keys x upper_bound)) uppers.

Section chunks.
Context (uppers keys : list SortKey) (k_pos : (0 < k)%N) (k_small : (k <= n)%N).
Context (uppers_length : length uppers = (N.to_nat k - 1)%nat) (uppers_found : found uppers keys) (keys_all : len keys = n).

Lemma uppers_sorted i j u v : (i < j)%nat -> uppers !! i = Some u -> uppers !! j = Some v -> cmp_lt compare_sort_keys u v.
Proof.
  intros Hij Hu Hv. destruct (upto (Some u) v) eqn:Hvu; [|by apply upto_gt]. exfalso.
  pose proof (items_before_mono n k (N.of_nat i + 1) (N.of_nat j + 1) k_pos k_small ltac:(lia)) as Hlt.
  rewrite <-(uppers_found i u Hu), <-(uppers_found j v Hv) in Hlt.
  assert (count (upto (Some v)) keys <= count (upto (Some u)) keys)%N as Hle; [|lia].
  apply counted_mono. intros x Hx%upto_le. apply upto_le in Hvu. apply upto_le. by etrans.
Qed.

Lemma chunk_of_spec x : (chunk_of uppers x <= length uppers)%nat
  /\ forall i, (i < N.to_nat k)%nat -> within uppers i x = true <-> (chunk_of uppers x <= i)%nat.
Proof.
  destruct (partition_point_spec (fun u => is_gt (compare_sort_keys x u)) uppers) as [Hk Hp].
  { intros i j u v Hij Hu Hv Hgt. destruct (decide (i = j)) as [->|Hne]; [congruence|].
    pose proof (uppers_sorted i j u v ltac:(lia) Hu Hv) as Huv.
    assert (upto (Some v) x = false) as Hvx%upto_gt by (cbn; by rewrite Hgt).
    assert (upto (Some u) x = false) as Hux by (apply upto_gt; by etrans).
    unfold upto in Hux. by apply negb_false_iff in Hux. }
  fold (chunk_of uppers x) in Hk, Hp. split; [exact Hk|]. intros i Hi. unfold within.
  destruct (uppers !! i) as [u|] eqn:Hu.
  - specialize (Hp i u Hu). cbn beta in Hp. unfold upto. rewrite negb_true_iff, <-not_true_iff_false, Hp. lia.
  - apply lookup_ge_None_1 in Hu. split; [|done]. intros _. lia.
Qed.

Lemma within_count i : (i < N.to_nat k)%nat -> count (within uppers i) keys = items_before n k (N.of_nat i + 1).
Proof.
  intros Hi. destruct (uppers !! i) as [u|] eqn:Hu.
  - rewrite <-(uppers_found i u Hu). unfold count. f_equal. apply List.filter_ext. intros x. unfold within. by rewrite Hu.
  - apply lookup_ge_None_1 in Hu. rewrite count_all.
    + replace (N.of_nat i + 1)%N with k by lia. rewrite items_before_all by done. exact keys_all.
    + apply Forall_true. intros x. unfold within. by rewrite lookup_ge_None_2.
Qed.

(** Each chunk has its share of the keys. *)
Lemma chunk_count i : (i < N.to_nat k)%nat ->
  count (fun x => (chunk_of uppers x =? i)%nat) keys = chunk_size n k (N.of_nat i).
Proof.
  intros Hi. destruct i as [|i].
  - assert (count (fun x => (chunk_of uppers x =? 0)%nat) keys = count (within uppers 0) keys) as ->.
    { unfold count. f_equal. apply List.filter_ext. intros x. destruct (chunk_of_spec x) as [_ Hs]. specialize (Hs 0%nat Hi).
      destruct (Nat.eqb_spec (chunk_of uppers x) 0); destruct (within uppers 0 x); try done; exfalso; [|destruct Hs as [Hs _]; specialize (Hs eq_refl); lia].
      destruct Hs as [_ Hs]. by specialize (Hs ltac:(lia)). }
    rewrite within_count by done. change (N.of_nat 0) with 0%N. rewrite items_before_succ. unfold items_before. cbn. by rewrite N.min_0_l.
  - pose proof (within_count i ltac:(lia)) as H1'. pose proof (within_count (S i) Hi) as H2'.
    assert (count (within uppers (S i)) keys = count (within uppers i) keys + count (fun x => (chunk_of uppers x =? S i)%nat) keys)%N as Hsum.
    { apply count_split, Forall_true. intros x. destruct (chunk_of_spec x) as [_ Hs]. pose proof (Hs i ltac:(lia)) as Hs1. specialize (Hs (S i) Hi).
      destruct (Nat.eqb_spec (chunk_of uppers x) (S i)) as [He|Hne].
      - assert (within uppers (S i) x = true) as -> by (apply Hs; lia).
        destruct (within uppers i x); [|done]. destruct Hs1 as [Hs1 _]. specialize (Hs1 eq_refl). lia.
      - rewrite orb_false_r, andb_false_r. split; [|done]. apply eq_iff_eq_true. rewrite Hs, Hs1. lia. }
    rewrite H1', H2' in Hsum. replace (N.of_nat (S i)) with (N.of_nat i + 1)%N in * by lia. rewrite items_before_succ in Hsum. lia.
Qed.

(** The chunks are in the order of the keys. *)
Lemma chunk_mono x y : key_le x y -> (chunk_of uppers x <= chunk_of uppers y)%nat.
Proof.
  intros Hxy. destruct (chunk_of_spec x) as [Hx Hsx]. destruct (chunk_of_spec y) as [Hy Hsy].
  destruct (decide (chunk_of uppers y < N.to_nat k)%nat) as [Hk|Hk]; [|lia].
  apply Hsx; [done|]. pose proof (proj2 (Hsy _ Hk) ltac:(done)) as Hw. unfold within in *.
  destruct (uppers !! chunk_of uppers y) as [u|]; [|done]. apply upto_le in Hw. apply upto_le. by etrans.
Qed.
End chunks.
End training.

(** ** What the trainer promises *)
Section claims.
Context `{ShowFloat} `{SymmetricEigen} `{PowfF32} `{Sha256}.
Context (config : StreamingClusteringConfig) (params : PcaChunkingParams) (es : list (list f32)).
#[local] Hint Extern 0 (StreamingClusterTrainer _ _) => exact chunking_trainer : typeclass_instances.
Notation k := (cluster_count config).
Notation n := (len es).

Lemma completed_model passes t : trained es k passes t -> (0 < passes)%N -> match Trainer.model t with
  | Some m => (0 < k)%N /\ (k <= n)%N /\ model_ok es k m
      /\ Trainer.complete_training t = (Ok tt, Trainer.set_state TrainingComplete t)
      /\ Classifier.into_classifier (Trainer.set_state TrainingComplete t) = Ok (Classifier.Mk (Trainer.config t) m)
  | None => (Trainer.complete_training t).1 <> Ok tt
  end.
Proof.
  intros [Hst _ _ _ Hph] Hp. rewrite (proj2 (N.eqb_neq passes 0)) in Hst, Hph by lia. destruct Hph as (Hpos & Hle & Hph).
  unfold Trainer.complete_training, Classifier.into_classifier. rewrite Hst, (bool_decide_eq_true_2 (PassComplete = _)) by done. cbn [negb orb].
  destruct (Trainer.model t) as [m|] eqn:Hm.
  - rewrite bool_decide_eq_true_2 by by eexists. cbn [negb]. split_and!; [done..| |done|].
    + destruct (Trainer.phase t) as [|d|m']; [done|by destruct Hph|]. by destruct Hph as [[= ->] Hok].
    + cbn. rewrite ?bool_decide_eq_true_2 by done. cbn. by rewrite Hm.
  - by rewrite bool_decide_eq_false_2 by (intros [? ?]; done).
Qed.

Lemma assign_spec c e i : Classifier.assign c e = Ok i -> exists key,
  build_sort_key e (transform (Classifier.model c)) (weights (Classifier.model c)) = Ok key
  /\ i = (N.of_nat (chunk_of (chunk_upper_bounds (Classifier.model c)) key) mod 2 ^ 32)%N.
Proof. unfold Classifier.assign. intros Ha. apply rbind_ok in Ha as (u & _ & Ha). apply rbind_ok in Ha as (key & Hk & [= <-]). by exists key. Qed.

Section model.
Context (m : PcaChunkingModel) (k_pos : (0 < k)%N) (k_small : (k <= n)%N) (k_u32 : (k <= 2 ^ 32)%N) (m_ok : model_ok es k m).
Notation c := (Classifier.Mk config m).
Notation chunk key := (chunk_of (chunk_upper_bounds m) key).

Lemma keys_length keys : keys_of (transform m) (weights m) es keys -> len keys = n.
Proof. intros Hk%Forall2_length. unfold len. by rewrite Hk. Qed.

Lemma chunk_below keys key : keys_of (transform m) (weights m) es keys -> (N.of_nat (chunk key) < k)%N.
Proof.
  intros HK. pose proof (mo_uppers _ _ _ m_ok) as Hu.
  destruct (chunk_of_spec es k _ keys k_pos k_small Hu (mo_found _ _ _ m_ok keys HK) (keys_length keys HK) key) as [Hle _]. lia.
Qed.

Lemma assign_succeeds : (2 <= k)%N -> Forall (valid_for (dimensions config)) es -> exists ids, collect_map (Classifier.assign c) es = Ok ids.
Proof.
  intros Hk Hv. destruct (mo_keys _ _ _ m_ok Hk) as [keys HK].
  exists (map (fun key => N.of_nat (chunk key) mod 2 ^ 32)%N keys). apply collect_map_ok, Forall2_fmap_r.
  clear k_small m_ok. revert Hv. induction HK as [|e key l l' Hkey _ IH]; intros Hv; [constructor|]. apply Forall_cons in Hv as [Hve Hv].
  constructor; [|by apply IH]. unfold Classifier.assign. cbn [Classifier.config Classifier.model]. by rewrite Hve, Hkey.
Qed.

Lemma assigned_keys ids : collect_map (Classifier.assign c) es = Ok ids -> exists keys,
  keys_of (transform m) (weights m) es keys /\ ids = map (fun key => N.of_nat (chunk key)) keys.
Proof.
  intros Hids%collect_map_ok. assert (exists keys, keys_of (transform m) (weights m) es keys
    /\ ids = map (fun key => N.of_nat (chunk key) mod 2 ^ 32)%N keys) as (keys & HK & ->).
  { clear m_ok k_small. induction Hids as [|e i l l' Ha _ (keys & HK & ->)]; [by exists []; split; [constructor|]|].
    apply assign_spec in Ha as (key & Hkey & ->). exists (key :: keys). split; [by constructor|done]. }
  exists keys. split; [done|]. apply map_ext. intros key. pose proof (chunk_below keys key HK). apply N.mod_small. lia.
Qed.

Lemma assigned_counts ids i : collect_map (Classifier.assign c) es = Ok ids -> (i < k)%N ->
  count (N.eqb i) ids = chunk_size n k i.
Proof.
  intros (keys & HK & ->)%assigned_keys Hi.
  pose proof (chunk_count es k _ keys k_pos k_small (mo_uppers _ _ _ m_ok) (mo_found _ _ _ m_ok keys HK) (keys_length keys HK) (N.to_nat i) ltac:(lia)) as Hc.
  rewrite N2Nat.id in Hc. rewrite <-Hc. clear. induction keys as [|key keys IH]; [done|]. cbn [map]. rewrite !count_cons, IH.
  destruct (N.eqb_spec i (N.of_nat (chunk key))), (Nat.eqb_spec (chunk key) (N.to_nat i)); lia.
Qed.

Lemma assigned_order keys e1 e2 x1 x2 i1 i2 : keys_of (transform m) (weights m) es keys ->
  build_sort_key e1 (transform m) (weights m) = Ok x1 -> build_sort_key e2 (transform m) (weights m) = Ok x2 ->
  Classifier.assign c e1 = Ok i1 -> Classifier.assign c e2 = Ok i2 -> key_le x1 x2 -> (i1 <= i2 < k)%N.
Proof.
  intros HK Hx1 Hx2 (y1 & Hy1 & ->)%assign_spec (y2 & Hy2 & ->)%assign_spec Hle. cbn [Classifier.model] in *.
  rewrite Hx1 in Hy1. rewrite Hx2 in Hy2. injection Hy1 as <-. injection Hy2 as <-.
  pose proof (chunk_below keys x1 HK). pose proof (chunk_below keys x2 HK). rewrite !N.mod_small by lia.
  pose proof (chunk_mono es k _ keys k_pos k_small (mo_uppers _ _ _ m_ok) (mo_found _ _ _ m_ok keys HK) (keys_length keys HK) x1 x2 Hle). lia.
Qed.
End model.

(** C18 Training PCA chunking on any number of passes over the same items, each pass cut
    into batches in its own way, all calls accepted: as many passes as there are items
    are enough for training to complete, and once it completes the classifier divides
    the items exactly. Chunk i is given to exactly n / k items, and to one more if i is
    below the remainder; chunks follow the order of the sort keys, for the items and for
    any other embedding; and with two chunks or more every item is given its chunk. *)
Theorem chunking_exact all_passes t0 : Trainer.new config params = Ok t0 -> (k <= 2 ^ 32)%N ->
  all_passes <> [] -> Forall (fun batches => concat batches = es) all_passes ->
  let trained_calls := run_calls (concat (map pass_calls all_passes)) t0 in
  Forall (fun r => r = Ok tt) trained_calls.1 ->
  ((n <= len all_passes)%N -> (Trainer.complete_training trained_calls.2).1 = Ok tt)
  /\ forall t, Trainer.complete_training trained_calls.2 = (Ok tt, t) ->
     exists c, Classifier.into_classifier t = Ok c
     /\ ((2 <= k)%N -> exists ids, collect_map (Classifier.assign c) es = Ok ids)
     /\ forall ids, collect_map (Classifier.assign c) es = Ok ids ->
        (forall i, (i < k)%N -> count (N.eqb i) ids = (n / k + if (i <? n mod k)%N then 1 else 0)%N)
        /\ forall e1 e2 x1 x2 i1 i2,
           build_sort_key e1 (transform (Classifier.model c)) (weights (Classifier.model c)) = Ok x1 ->
           build_sort_key e2 (transform (Classifier.model c)) (weights (Classifier.model c)) = Ok x2 ->
           Classifier.assign c e1 = Ok i1 -> Classifier.assign c e2 = Ok i2 ->
           compare_sort_keys x1 x2 <> Gt -> (i1 <= i2 < k)%N.
Proof.
  intros Hnew Hu32 Hne Hes trained_calls Hall.
  destruct (new_trained es k config params t0 Hnew eq_refl) as [Ht0 Hc0].
  destruct (passes_ok_all es k all_passes 0 t0 Ht0 Hes Hall) as [Ht Hc]. fold trained_calls in Ht, Hc. rewrite Hc0 in Hc.
  assert (0 < 0 + len all_passes)%N as Hp by (destruct all_passes; [done|unfold len; cbn; lia]).
  pose proof (completed_model _ _ Ht Hp) as Hm. split.
  - intros Hn. destruct (enough_passes es k _ _ Ht Hp ltac:(lia)) as [m Hs]. rewrite Hs in Hm.
    destruct Hm as (_ & _ & _ & -> & _). done.
  - intros t Hcomp. rewrite Hcomp in Hm. destruct (Trainer.model trained_calls.2) as [m|]; [|by destruct Hm].
    destruct Hm as (Hpos & Hle & Hok & [= ->] & Hinto). rewrite Hc in Hinto. eexists. split; [exact Hinto|]. split.
    + intros Htwo. apply assign_succeeds; [done..|]. rewrite <-Hc. apply (tr_valid _ _ _ _ Ht). lia.
    + intros ids Hids. split; [intros i Hi; by apply (assigned_counts m Hpos Hle Hu32 Hok)|].
      intros e1 e2 x1 x2 i1 i2 Hx1 Hx2 Ha1 Ha2 Hx. destruct (assigned_keys m Hpos Hle Hu32 Hok ids Hids) as (keys & HK & _).
      exact (assigned_order m Hpos Hle Hu32 Hok keys e1 e2 x1 x2 i1 i2 HK Hx1 Hx2 Ha1 Ha2 Hx).
Qed.
End claims.

(** ** Any calls *)
Section safe.
Context `{ShowFloat} `{SymmetricEigen} `{!EigenShape} `{PowfF32} `{Sha256}.
Context (config : StreamingClusteringConfig).
Notation k := (cluster_count config).
#[local] Hint Extern 0 (StreamingClusterTrainer _ _) => exact chunking_trainer : typeclass_instances.

(** A search for boundaries that has one left to find. *)
Record pending (d : BoundaryDiscoveryState) : Prop := {
  pe_targets : exists n, (0 < k)%N /\ (k <= n)%N /\ d_targets d = ends n k;
  pe_index : (next_boundary_index d < length (d_targets d))%nat;
  pe_uppers : length (d_upper_bounds d) = next_boundary_index d;
  pe_below target : d_targets d !! next_boundary_index d = Some target -> (cumulative_count d <= target)%N
}.
Definition bounded (m : PcaChunkingModel) : Prop := (N.of_nat (length (chunk_upper_bounds m)) < k)%N.
Definition phase_sound (phase : ReplayPhase) : Prop :=
  match phase with AnalyzePca => True | DiscoverBoundaries d => pending d | Ready m => bounded m end.
Definition pass_sound (pass : ActivePassState) : Prop :=
  match pass with
  | ActiveAnalyzePca p => acc_ok (accumulator p)
  | ActiveDiscover p => pending (discovery p)
  | ActiveReady p => bounded (ready_model p)
  end.
Record sound (t : PcaChunkingStreamingTrainer) : Prop := {
  so_config : Trainer.config t = config;
  so_phase : phase_sound (Trainer.phase t);
  so_active pass : Trainer.active_pass t = Some pass -> pass_sound pass;
  so_model m : Trainer.model t = Some m -> bounded m;
  so_complete : Trainer.state t = TrainingComplete -> is_Some (Trainer.model t)
}.

Lemma sort_key_no_panic e tr w : no_panic (build_sort_key e tr w).
Proof.
  unfold build_sort_key. apply rbind_no_panic.
  - apply map_err_no_panic. pose proof (apply_returns tr e) as Ha. by destruct (apply tr e).
  - intros c _. apply rbind_no_panic; [|done]. unfold scalar_projection_key. by repeat case_match.
Qed.

Lemma ingest_one_sound dims pass e : pass_sound pass ->
  no_panic (ingest_one dims pass e).1 /\ pass_sound (ingest_one dims pass e).2.
Proof.
  intros Hp. unfold ingest_one. pose proof (validate_embedding_ok e dims) as Hv. destruct (validate_embedding e dims); [|done..].
  destruct pass as [p|p|p]; cbn [pass_sound] in Hp.
  - unfold ingest_pca. pose proof (update_returns (accumulator p) e Hp) as Hu.
    destruct (update (accumulator p) e); cbn; [|done..]. by split; [|apply Hu].
  - unfold ingest_boundary. pose proof (sort_key_no_panic e (d_transform (discovery p)) (d_weights (discovery p))) as Hk.
    by destruct (build_sort_key _ _ _).
  - done.
Qed.

Lemma ingest_loop_sound dims es : forall pass, pass_sound pass ->
  no_panic (ingest_loop dims es pass).1 /\ pass_sound (ingest_loop dims es pass).2.
Proof.
  induction es as [|e es IH]; intros pass Hp; cbn [ingest_loop]; [done|].
  destruct (ingest_one_sound dims pass e Hp) as [Hn Hs]. destruct (ingest_one dims pass e) as [[u| |] pass1]; [by apply IH|done..].
Qed.

Lemma set_state_sound s t : sound t -> s <> TrainingComplete -> sound (Trainer.set_state s t).
Proof. intros [Hc Hp Ha Hm _] Hs. by split. Qed.
Lemma set_active_sound a t : sound t -> (forall pass, a = Some pass -> pass_sound pass) -> sound (Trainer.set_active a t).
Proof. intros [Hc Hp _ Hm Hx] Ha. by split. Qed.

Lemma ingest_active_sound es t : sound t -> no_panic (Trainer.ingest_active es t).1 /\ sound (Trainer.ingest_active es t).2.
Proof.
  intros Ht. unfold Trainer.ingest_active. destruct (Trainer.active_pass t) as [pass|] eqn:Ha; [|done].
  pose proof (ingest_loop_sound (dimensions (Trainer.config t)) es pass (so_active _ Ht _ Ha)) as [Hn Hs].
  destruct (ingest_loop _ es pass) as [r pass1]. split; [done|]. apply set_active_sound; [done|]. by intros ? [= <-].
Qed.

Lemma new_pass_sound t : sound t -> (dimensions config * dimensions config <= USIZE_MAX)%N ->
  exists pass, Trainer.new_pass t = Ok pass /\ pass_sound pass.
Proof.
  intros [Hc Hp _ _ _] Hd. unfold Trainer.new_pass. destruct (Trainer.phase t) as [|d|m]; [|by eexists..].
  rewrite Hc. destruct (accumulator_new_ok _ Hd) as (acc & -> & Ha & _). by eexists.
Qed.

Lemma ingest_batch_sound es t : sound t -> (dimensions config * dimensions config <= USIZE_MAX)%N ->
  no_panic (Trainer.ingest_batch es t).1 /\ sound (Trainer.ingest_batch es t).2.
Proof.
  intros Ht Hd. assert (no_panic (match Trainer.ensure_active_pass (Trainer.set_state Ingesting t) with
      | Ok t => Trainer.ingest_active es t | Err e => (Err e, Trainer.set_state Ingesting t) | Panic => (Panic, Trainer.set_state Ingesting t) end).1
    /\ sound (match Trainer.ensure_active_pass (Trainer.set_state Ingesting t) with
      | Ok t => Trainer.ingest_active es t | Err e => (Err e, Trainer.set_state Ingesting t) | Panic => (Panic, Trainer.set_state Ingesting t) end).2) as Hstart.
  { pose proof (set_state_sound Ingesting t Ht ltac:(done)) as Hi. unfold Trainer.ensure_active_pass.
    destruct (Trainer.active_pass (Trainer.set_state Ingesting t)); [by apply ingest_active_sound|].
    destruct (new_pass_sound _ Hi Hd) as (pass & -> & Hs). cbn [rbind]. apply ingest_active_sound, set_active_sound; [done|]. by intros ? [= <-]. }
  unfold Trainer.ingest_batch. destruct (Trainer.state t); [exact Hstart|by apply ingest_active_sound|exact Hstart|..].
  all: split; [done|by apply set_state_sound].
Qed.

(** *** Finishing a pass *)
Notation finishes := (returns (fun r : ReplayPhase * PassReport * option PcaChunkingModel =>
  phase_sound r.1.1 /\ forall m, r.2 = Some m -> bounded m)).

Lemma ends_pending tr w q o n targets : boundary_targets n k = Ok targets -> targets <> [] ->
  pending {| d_transform := tr; d_weights := w; d_quality := q; d_observed := o; d_targets := targets; next_boundary_index := 0;
             cumulative_count := 0; lower_bound := None; d_upper_bounds := [] |}.
Proof.
  intros Hb Hne. destruct (boundary_targets_ok _ _ _ Hb) as (Hpos & Hle & ->). split; cbn; [by exists n| |done|lia].
  destruct (ends n k); [done|cbn; lia].
Qed.

Lemma analyze_sound params observed acc : (0 < k)%N -> acc_ok acc -> finishes (Trainer.analyze config params observed acc).
Proof.
  intros Hk Hacc. apply returns_ok.
  - unfold Trainer.analyze. apply rbind_no_panic.
    { apply map_err_no_panic. pose proof (pca_finalize_returns acc Hacc). by destruct (pca_finalize acc). }
    intros tr Htr. pose proof (pca_finalize_returns acc Hacc) as Hf. destruct (pca_finalize acc) as [t| |]; [|done..].
    injection Htr as ->. destruct Hf as (Hv & _). destruct (validated_shape tr Hv) as [Hs Hvar].
    apply rbind_no_panic.
    { apply map_err_no_panic. pose proof (truncate_returns tr (retained_dimension_count params) Hs Hvar) as Ht. by destruct (truncate tr _). }
    intros cut _. apply rbind_no_panic; [|by intros []]. unfold boundary_targets. by repeat case_match.
  - intros [[phase report] model] Ha. unfold Trainer.analyze in Ha. inv_ok. cbn [fst snd].
    match goal with Hb : boundary_targets _ _ = Ok ?l |- _ => destruct l as [|target targets] eqn:Hl; injection Ha as <- <- <-;
      [|split; [exact (ends_pending _ _ _ _ _ _ Hb ltac:(done))|done]] end.
    split; [exact Hk|]. intros m [= <-]. exact Hk.
Qed.

Lemma chunking_replayed fingerprint t : no_panic (Trainer.validate_replayed_pass fingerprint t).
Proof. unfold Trainer.validate_replayed_pass. destruct (Trainer.baseline_fingerprint t); cbn; [by case_match|done]. Qed.

Lemma advance_pending d m c needed : pending d ->
  (forall target, d_targets d !! next_boundary_index d = Some target -> needed = (target - cumulative_count d)%N /\ (c <= needed)%N) ->
  let d' := Trainer.advance d needed m c in
  d_targets d' = d_targets d /\ length (d_upper_bounds d') = next_boundary_index d' /\ (next_boundary_index d' <= length (d_targets d))%nat
  /\ (next_boundary_index d' <> length (d_targets d) -> pending d').
Proof.
  intros [(n & Hpos & Hle & Ht) Hi Hu Hb] Hneed d'. destruct (lookup_lt_is_Some_2 _ _ Hi) as [target Htarget].
  destruct (Hneed target Htarget) as [-> Hc]. specialize (Hb target Htarget).
  assert (length (d_upper_bounds d') = next_boundary_index d' /\ (next_boundary_index d' <= length (d_targets d))%nat
    /\ forall next, d_targets d' !! next_boundary_index d' = Some next -> (cumulative_count d' <= next)%N) as (H1' & H2' & H3').
  { unfold d', Trainer.advance; cbn. destruct (N.eqb_spec c (target - cumulative_count d)) as [->|].
    - split_and!; [rewrite length_app; cbn; lia|lia|]. intros next Hnext. rewrite Ht in Hnext, Htarget.
      apply ends_lookup in Hnext as [_ ->], Htarget as [_ ->].
      pose proof (items_before_mono n k (N.of_nat (next_boundary_index d) + 1) (N.of_nat (S (next_boundary_index d)) + 1) Hpos Hle ltac:(lia)). lia.
    - split_and!; [done|lia|]. intros next Hnext. rewrite Htarget in Hnext. injection Hnext as <-. lia. }
  split_and!; [done..|]. intros Hne. split; [by exists n|change (d_targets d') with (d_targets d); lia|done..].
Qed.

Lemma boundary_sound p t : Trainer.config t = config -> pending (discovery p) -> finishes (Trainer.finish_boundary_pass p t).
Proof.
  intros Hc Hd. unfold Trainer.finish_boundary_pass. apply (returns_bind (fun _ => True)).
  { apply returns_ok; [apply chunking_replayed|done]. }
  intros _ _. destruct (lookup_lt_is_Some_2 _ _ (pe_index _ Hd)) as [target Htarget]. rewrite Htarget. cbn [expect rbind].
  unfold checked_sub. rewrite (proj2 (N.leb_le _ _)) by by apply Hd. cbn [expect rbind].
  destruct (next_key p) as [m|]; [|done]. cbn [ok_or rbind]. apply returns_guard. intros Hle%negb_true_iff%N.ltb_ge.
  destruct (advance_pending (discovery p) m (next_key_count p) (target - cumulative_count (discovery p)) Hd) as (Ht & Hu & Hi & Hp).
  { intros target' Ht'. rewrite Htarget in Ht'. by injection Ht' as <-. }
  revert Ht Hu Hi Hp. set (d' := Trainer.advance _ _ _ _). intros Ht Hu Hi Hp. rewrite Ht.
  destruct (Nat.eqb_spec (next_boundary_index d') (length (d_targets (discovery p)))) as [He|Hne]; cbn [returns fst snd phase_sound]; [|by split; [apply Hp|]].
  assert (N.of_nat (length (d_upper_bounds d')) < k)%N as Hb.
  { destruct (pe_targets _ Hd) as (n & Hpos & _ & He'). rewrite Hu, He, He', ends_length. lia. }
  split; [exact Hb|]. by intros m' [= <-].
Qed.

Lemma ready_sound p t : bounded (ready_model p) -> finishes (Trainer.finish_ready_pass p t).
Proof.
  intros Hb. unfold Trainer.finish_ready_pass. apply (returns_bind (fun _ => True)). { apply returns_ok; [apply chunking_replayed|done]. }
  intros _ _. split; [exact Hb|]. intros m [= <-]. exact Hb.
Qed.

Lemma set_baseline_sound f t : sound t -> sound (Trainer.set_baseline f t).
Proof. intros [Hc Hp Ha Hm Hx]. by split. Qed.
Lemma fail_sound t : sound t -> sound (Trainer.fail t).
Proof. intros Ht. apply set_active_sound; [|done]. by apply set_state_sound. Qed.
Lemma complete_pass_sound phase model t : sound t -> phase_sound phase -> (forall m, model = Some m -> bounded m) ->
  sound (Trainer.complete_pass phase model t).
Proof. intros [Hc _ Ha _ _] Hp Hm. by split. Qed.

Lemma finish_pass_sound_any t : (0 < k)%N -> sound t -> no_panic (Trainer.finish_pass t).1 /\ sound (Trainer.finish_pass t).2.
Proof.
  intros Hk Ht. assert (no_panic (Trainer.finish_pass_impl t).1 /\ sound (Trainer.finish_pass_impl t).2) as [Hn Hs].
  2: { unfold Trainer.finish_pass. destruct (Trainer.finish_pass_impl t) as [[r|e|] t']; [done| |done]. split; [done|]. by apply fail_sound. }
  unfold Trainer.finish_pass_impl. destruct (negb _). { split; [done|]. by apply set_state_sound. }
  destruct (Trainer.active_pass t) as [pass|] eqn:Ha; [|done]. pose proof (so_active _ Ht _ Ha) as Hp.
  pose proof (set_active_sound None t Ht ltac:(done)) as Ht1. revert Ht1. generalize (Trainer.set_active None t). intros t1 Ht1.
  enough (exists r t2, match pass with
    | ActiveAnalyzePca p => Trainer.finish_pca_pass p t1
    | ActiveDiscover p => (Trainer.finish_boundary_pass p t1, t1)
    | ActiveReady p => (Trainer.finish_ready_pass p t1, t1) end = (r, t2) /\ finishes r /\ sound t2) as (r & t2 & -> & Hr & Ht2).
  { destruct r as [[[phase report] model]| |]; [|done..]. destruct Hr as [Hr1 Hr2]. split; [done|]. by apply complete_pass_sound. }
  destruct pass as [p|p|p]; cbn [pass_sound] in Hp.
  - unfold Trainer.finish_pca_pass. destruct (_ =? 0)%N; [by eexists _, t1|]. destruct (_ <? _)%N; [by eexists _, t1|].
    eexists _, _. split; [done|]. split; [|by apply set_baseline_sound]. rewrite (so_config (Trainer.set_baseline _ t1)) by by apply set_baseline_sound.
    change (Trainer.params (Trainer.set_baseline _ t1)) with (Trainer.params t1). by apply analyze_sound.
  - eexists _, _. split; [done|]. split; [|done]. apply boundary_sound; [apply Ht1|done].
  - eexists _, _. split; [done|]. split; [|done]. by apply ready_sound.
Qed.

Lemma partition_point_le {A} (p : A -> bool) l : (partition_point p l <= length l)%nat.
Proof.
  unfold partition_point, binary_search_by. generalize (search_loop (fun x => if p x then Lt else Gt) l (length l) (length l) 0). intros base.
  destruct (l !! base) as [x|] eqn:Hx; cbn; [|lia]. apply lookup_lt_Some in Hx. destruct (p x); lia.
Qed.

Lemma complete_sound t : sound t -> no_panic (Trainer.complete_training t).1 /\ sound (Trainer.complete_training t).2.
Proof.
  intros Ht. unfold Trainer.complete_training. destruct (bool_decide (Trainer.state t = PassComplete)); cbn [negb orb];
    [|by split; [|apply set_state_sound]].
  destruct (Trainer.model t) as [m|] eqn:Hm.
  - rewrite bool_decide_eq_true_2 by by eexists. split; [done|]. destruct Ht as [Hc Hp Ha Hmod Hx]. split; [done..|]. intros _. cbn. by rewrite Hm.
  - rewrite bool_decide_eq_false_2 by by intros []. split; [done|]. by apply set_state_sound.
Qed.

Lemma chunking_failed c t : Trainer.state t = ErrorState ->
  (exists e, (perform c t).1 = Err e) /\ Trainer.state (perform c t).2 = ErrorState.
Proof.
  intros Hs. destruct c as [es| |]; cbn [perform Clustering.ingest_batch Clustering.finish_pass Clustering.complete_training chunking_trainer].
  - unfold Trainer.ingest_batch. rewrite Hs. cbn. split; [by eexists|done].
  - unfold Trainer.finish_pass, Trainer.finish_pass_impl. rewrite bool_decide_eq_false_2 by (rewrite Hs; done). cbn. split; [by eexists|done].
  - unfold Trainer.complete_training. rewrite bool_decide_eq_false_2 by (rewrite Hs; done). cbn. split; [by eexists|done].
Qed.

Lemma assign_returns c e : bounded (Classifier.model c) -> returns (fun id => (id < k)%N) (Classifier.assign c e).
Proof.
  intros Hb. unfold Classifier.assign. apply (returns_bind (fun _ => True)).
  { pose proof (validate_embedding_ok e (dimensions (Classifier.config c))) as Hv. by destruct (validate_embedding _ _). }
  intros _ _. apply (returns_bind (fun _ => True)). { apply returns_ok; [apply sort_key_no_panic|done]. }
  intros key _. cbn [returns]. eapply N.le_lt_trans; [by apply N.Div0.mod_le|]. eapply N.le_lt_trans; [|exact Hb].
  pose proof (partition_point_le (fun u => is_gt (compare_sort_keys key u)) (chunk_upper_bounds (Classifier.model c))) as Hle. lia.
Qed.

(** Whatever calls are made on a trainer of embeddings whose squared dimension is a
    usize, in any order and with any data, none panics: the boundary sought is one of
    the targets and not yet passed. Once training completes the trainer becomes a
    classifier that gives any embedding one of the chunks or an error; in the error state
    every later call fails and it stays there. *)
Theorem chunking_calls_safe params t0 calls : Trainer.new config params = Ok t0 -> (dimensions config * dimensions config <= USIZE_MAX)%N ->
  let t := (run_calls calls t0).2 in
  Forall no_panic (run_calls calls t0).1
  /\ (Trainer.state t = TrainingComplete ->
      exists c, Classifier.into_classifier t = Ok c /\ forall e, returns (fun id => (id < k)%N) (Classifier.assign c e))
  /\ (Trainer.state t = ErrorState -> forall later,
      Forall (fun r => exists e, r = Err e) (run_calls later t).1 /\ Trainer.state (run_calls later t).2 = ErrorState).
Proof.
  intros Hnew Hd t. assert (0 < k)%N as Hk.
  { unfold Trainer.new in Hnew. inv_ok. destruct a. destruct (valid_positive config Hok). lia. }
  assert (sound t0) as H0'. { unfold Trainer.new in Hnew. inv_ok. subst t0. by split. }
  destruct (run_calls_keep sound (fun _ => 0%N) (fun _ => 0%N) (fun _ _ => True) ltac:(done)) with (cs := calls) (t := t0) as (Hp & Ht & _); [|done..|].
  { intros c t' Ht' _. assert (no_panic (perform c t').1 /\ sound (perform c t').2) as [??]; [|by split_and!; [| |lia..]].
    destruct c as [es| |]; cbn [perform Clustering.ingest_batch Clustering.finish_pass Clustering.complete_training chunking_trainer].
    - by apply ingest_batch_sound.
    - destruct (finish_pass_sound_any t' Hk Ht') as [Hn Hs]. destruct (Trainer.finish_pass t'). split; [by apply rmap_no_panic|done].
    - by apply complete_sound. }
  fold t in Ht. split_and!; [done| |].
  - intros Hs. destruct (so_complete _ Ht Hs) as [m Hm]. exists (Classifier.Mk (Trainer.config t) m). split.
    + unfold Classifier.into_classifier. rewrite bool_decide_eq_true_2 by done. by rewrite Hm.
    + intros e. apply assign_returns. by apply (so_model _ Ht).
  - intros Hs later. apply (run_calls_stuck (fun t => Trainer.state t = ErrorState)); [|done]. apply chunking_failed.
Qed.
End safe.

(** ** Example

    Five points, one of them twice, into two chunks; the passes are batched differently. *)
#[export] Instance chunked_sha : Sha256 := checksum.
#[export] Instance sample_powf : PowfF32 := fun x _ => x.
Definition chunked_points : list (list f32) := [[0; 0]; [f32_one; 0]; [0; f32_one]; [0; 0]; [f32_one; f32_one]]%N.
Definition chunked_passes : list (list (list (list f32))) :=
  [chunked_points] :: replicate 4 [take 2 chunked_points; drop 2 chunked_points].
Definition chunked_config : StreamingClusteringConfig :=
  {| cluster_count := 2; dimensions := 2; balance_constraints := None; random_seed := None |}.
Definition chunked_params : PcaChunkingParams := {| retained_dimension_count := 2; variance_exponent := f32_one |}.
Definition chunked_new : PcaChunkingStreamingTrainer := Trainer.Mk chunked_config chunked_params Idle AnalyzePca None None None.
Notation chunked_run := (run_calls (concat (map pass_calls chunked_passes)) chunked_new) (only parsing).

Lemma chunking_exact_witness : Forall (fun r => r = Ok tt) (chunked_run).1
  /\ exists t c ids, Trainer.complete_training (chunked_run).2 = (Ok tt, t) /\ Classifier.into_classifier t = Ok c
     /\ collect_map (Classifier.assign c) chunked_points = Ok ids /\ count (N.eqb 0) ids = 3%N /\ count (N.eqb 1) ids = 2%N.
Proof.
  assert (forallb (fun r => match r with Ok tt => true | _ => false end) (chunked_run).1 = true) as Hb by (vm_compute; reflexivity).
  assert (Forall (fun r => r = Ok tt) (chunked_run).1) as Hok.
  { apply Forall_forall. intros r Hr%list_elem_of_In. apply (proj1 (forallb_forall _ _) Hb) in Hr. by destruct r as [[]| |]. }
  split; [exact Hok|].
  destruct (chunking_exact chunked_config chunked_params chunked_points chunked_passes chunked_new) as [Hcomplete Hserve];
    [vm_compute; reflexivity|done|done|by repeat constructor|exact Hok|].
  specialize (Hcomplete ltac:(done)). destruct (Trainer.complete_training (chunked_run).2) as [r t] eqn:Ht.
  cbn [fst] in Hcomplete. subst r. destruct (Hserve t eq_refl) as (c & Hc & Hids & Hcount). destruct (Hids ltac:(done)) as [ids Hi].
  exists t, c, ids. destruct (Hcount ids Hi) as [Hn _]. split_and!; [done..|by apply (Hn 0%N)|by apply (Hn 1%N)].
Defined.

Lemma chunking_calls_safe_witness : Forall no_panic (run_calls [FinishPass; Ingest [[0%N]]; CompleteTraining] chunked_new).1.
Proof. apply (chunking_calls_safe chunked_config chunked_params chunked_new); [vm_compute; reflexivity|by vm_compute]. Defined.
