(* ===== verification/DpcaPlanner.v ===== *)
(** * Directional PCA: where an axis is cut

    crates/lexongraph-directional-pca/src/lib.rs, the planners of one axis: the
    Greenwald-Khanna summary of the quantile policy, and the range and histogram
    passes of the density-valley policy. Counts and ranks are [N], positions [nat]. *)
From S2P Require Import Prelude Ordering Hash Ieee Clustering.

Definition invalid_configuration : string -> StreamingClusteringError := InvalidConfiguration.
Definition unsatisfiable_constraint : string -> StreamingClusteringError := UnsatisfiableConstraint.
Definition malformed_input : string -> StreamingClusteringError := MalformedInput.

Definition DENSITY_VALLEY_HISTOGRAM_BUCKET_CAP : N := 256.
Definition GK_QUANTILE_RANK_ERROR_DENOMINATOR : N := 1024.

Inductive AxisPlan := SingleBin | Thresholds (cuts : list f32).

(** [div_ceil] of an unsigned integer *)
Definition div_ceil_N (a b : N) : N := (a / b + if (a mod b =? 0)%N then 0 else 1)%N.
Definition abs_diff (a b : N) : N := if (a <? b)%N then (b - a)%N else (a - b)%N.

(** ** Quantiles *)
Record GkSummaryEntry := { entry_value : f32; gap : N; delta : N }.
Record QuantileAxisPlanner := {
  targets : list N; observed : N; max_rank_error_denominator : N; summary : list GkSummaryEntry; compress_interval : N
}.
Definition with_summary (p : QuantileAxisPlanner) (observed : N) (summary : list GkSummaryEntry) : QuantileAxisPlanner :=
  {| targets := targets p; observed := observed; max_rank_error_denominator := max_rank_error_denominator p;
     summary := summary; compress_interval := compress_interval p |}.

Definition compress_threshold (p : QuantileAxisPlanner) : N :=
  N.max (saturating_mul USIZE_MAX (observed p) 2 / N.max (max_rank_error_denominator p) 1) 1.
Definition rank_error (p : QuantileAxisPlanner) : N := div_ceil_N (observed p) (N.max (max_rank_error_denominator p) 1).

(** One step from the right: the entries kept so far and the one that may still grow. *)
Definition compress_step (threshold : N) (state : list GkSummaryEntry * GkSummaryEntry) (left_entry : GkSummaryEntry)
  : list GkSummaryEntry * GkSummaryEntry :=
  let '(compacted, merged_right) := state in
  if (gap left_entry + gap merged_right + delta merged_right <=? threshold)%N then
    (compacted, {| entry_value := entry_value merged_right; gap := gap merged_right + gap left_entry; delta := delta merged_right |})
  else (merged_right :: compacted, left_entry).

(** The first entry and those between it and the last. *)
Definition compress (p : QuantileAxisPlanner) : QuantileAxisPlanner :=
  match summary p, rev (summary p) with
  | first :: _ :: _ :: _, last :: _ =>
      let middle := removelast (tail (summary p)) in
      let '(compacted, merged_right) := fold_left (compress_step (compress_threshold p)) (rev middle) ([], last) in
      with_summary p (observed p) (first :: merged_right :: compacted)
  | _, _ => p
  end.

Definition at_most (value : f32) (entry : GkSummaryEntry) : bool :=
  match f32_total_cmp (entry_value entry) value with Gt => false | _ => true end.

Definition quantile_observe (p : QuantileAxisPlanner) (value : f32) : QuantileAxisPlanner :=
  let p := with_summary p (observed p + 1) (summary p) in
  let insert_index := partition_point (at_most value) (summary p) in
  let delta := if (insert_index =? 0)%nat || (insert_index =? length (summary p))%nat then 0%N
               else saturating_sub (compress_threshold p) 1 in
  let entry := {| entry_value := value; gap := 1; delta := delta |} in
  let p := with_summary p (observed p) (take insert_index (summary p) ++ entry :: drop insert_index (summary p)) in
  if (0 <? compress_interval p)%N && (observed p mod compress_interval p =? 0)%N then compress p else p.

(** What the scan for a rank carries: the ranks passed, the best entry whose rank
    interval meets the window, and the nearest entry outside it. *)
Record rank_scan := {
  running_min_rank : N; best_overlap : option f32; best_overlap_distance : N;
  fallback_value : option f32; fallback_distance : N
}.

Definition scan_entry (target_rank minimum_rank maximum_rank : N) (s : rank_scan) (entry : GkSummaryEntry) : rank_scan :=
  let running_min_rank := (running_min_rank s + gap entry)%N in
  let running_max_rank := (running_min_rank + delta entry)%N in
  let center_rank := (running_min_rank + delta entry / 2)%N in
  let distance_to_target := abs_diff center_rank target_rank in
  let overlaps := (running_min_rank <=? maximum_rank)%N && (minimum_rank <=? running_max_rank)%N
    && (distance_to_target <? best_overlap_distance s)%N in
  let distance := if (running_max_rank <? minimum_rank)%N then (minimum_rank - running_max_rank)%N
                  else saturating_sub running_min_rank maximum_rank in
  let falls := (distance <? fallback_distance s)%N in
  {| running_min_rank := running_min_rank;
     best_overlap := if overlaps then Some (entry_value entry) else best_overlap s;
     best_overlap_distance := if overlaps then distance_to_target else best_overlap_distance s;
     fallback_value := if falls then Some (entry_value entry) else fallback_value s;
     fallback_distance := if falls then distance else fallback_distance s |}.

Definition approximate_quantile_value (p : QuantileAxisPlanner) (target_rank : N) : outcome f32 :=
  let minimum_rank := N.max (saturating_sub target_rank (rank_error p)) 1 in
  let maximum_rank := N.min (saturating_add USIZE_MAX target_rank (rank_error p)) (N.max (observed p) 1) in
  let s := fold_left (scan_entry target_rank minimum_rank maximum_rank) (summary p)
    {| running_min_rank := 0; best_overlap := None; best_overlap_distance := USIZE_MAX;
       fallback_value := None; fallback_distance := USIZE_MAX |} in
  match best_overlap s with
  | Some value => Ok value
  | None => ok_or (fallback_value s)
      (unsatisfiable_constraint "quantile cut planning could not derive an approximate cut")
  end.

(** ** Density valleys *)
Record DensityValleyMinMaxPlanner := { minmax_bin_count : N; minimum : option f32; maximum : option f32 }.
Record DensityValleyHistogramPlanner := { low : f32; high : f32; counts : list N; bin_count : N }.

Definition minmax_observe (p : DensityValleyMinMaxPlanner) (value : f32) : DensityValleyMinMaxPlanner :=
  {| minmax_bin_count := minmax_bin_count p;
     minimum := Some (match minimum p with Some current => fmin binary32 current value | None => value end);
     maximum := Some (match maximum p with Some current => fmax binary32 current value | None => value end) |}.

Definition minmax_finish_pass (p : DensityValleyMinMaxPlanner) : DensityValleyHistogramPlanner :=
  {| low := default 0%N (minimum p); high := default 0%N (maximum p);
     counts := replicate (N.to_nat (N.min (N.max (minmax_bin_count p) 2) DENSITY_VALLEY_HISTOGRAM_BUCKET_CAP)) 0%N;
     bin_count := minmax_bin_count p |}.

Definition histogram_bucket_index (minimum maximum : f64) (bucket_count : N) (value : f64) : N :=
  if (bucket_count <=? 1)%N || fleb binary64 maximum minimum then 0%N
  else
    let normalized := f64_clamp (fdiv binary64 (fsub binary64 value minimum) (fsub binary64 maximum minimum)) 0 f64_one in
    f64_as_usize (f64_round (fmul binary64 normalized (f_of_Z binary64 (Z.of_N (bucket_count - 1))))).

(** [self.counts[index] += 1] *)
Definition histogram_observe (p : DensityValleyHistogramPlanner) (value : f32) : outcome DensityValleyHistogramPlanner :=
  let index := N.to_nat (histogram_bucket_index (f64_of_f32 (low p)) (f64_of_f32 (high p)) (len (counts p)) (f64_of_f32 value)) in
  let? count := expect (counts p !! index) in
  Ok {| low := low p; high := high p; counts := <[index := (count + 1)%N]> (counts p); bin_count := bin_count p |}.

(** A bucket together with its neighbours, itself where there is none. *)
Definition smooth_at (counts : list N) (index : nat) : outcome f64 :=
  let? center := expect (counts !! index) in
  let? before := (if (0 <? index)%nat then expect (counts !! (index - 1)%nat) else Ok center) in
  let? after := (if (index + 1 <? length counts)%nat then expect (counts !! (index + 1)%nat) else Ok center) in
  let f n := f_of_Z binary64 (Z.of_N n) in
  Ok (fadd binary64 (fadd binary64 (f before) (fmul binary64 (f_of_Z binary64 2) (f center))) (f after)).
Definition smooth_histogram (counts : list N) : outcome (list f64) := collect_map (smooth_at counts) (seq 0 (length counts)).

(** The running maxima. *)
Fixpoint peaks (running : f64) (l : list f64) : list f64 :=
  match l with
  | [] => []
  | density :: l => let running := fmax binary64 running density in running :: peaks running l
  end.

(** A bucket with its density and its depth; the deeper one is better, then the one of
    less density, then the first. *)
Definition valley : Type := nat * f64 * f64.
Definition better (candidate best : valley) : bool :=
  let '(bucket, density, depth) := candidate in
  let '(best_bucket, best_density, best_depth) := best in
  fltb binary64 best_depth depth
  || (feqb binary64 depth best_depth
      && (fltb binary64 density best_density
          || (feqb binary64 density best_density && (bucket <? best_bucket)%nat))).

Definition valley_at (smoothed left_peaks right_peaks : list f64) (start : nat) (best : option valley) (bucket : nat)
  : outcome (option valley) :=
  let relative := (bucket - start)%nat in
  let? before := expect (smoothed !! (bucket - 1)%nat) in
  let? here := expect (smoothed !! bucket) in
  let valley_density := fmul binary64 f64_half (fadd binary64 before here) in
  let? left_peak := expect (left_peaks !! (relative - 1)%nat) in
  let? right_peak := expect (right_peaks !! relative) in
  let candidate := (bucket, valley_density, fsub binary64 (fmin binary64 left_peak right_peak) valley_density) in
  Ok (Some match best with
           | None => candidate
           | Some best => if better candidate best then candidate else best
           end).

Definition best_bucket_valley (smoothed : list f64) (start stop : nat) : outcome (option valley) :=
  if (stop - start <=? 1)%nat then Ok None
  else
    let? slice := (if (stop <=? length smoothed)%nat then Ok (take (stop - start) (drop start smoothed)) else Panic) in
    let left_peaks := peaks f64_neg_infinity slice in
    let right_peaks := rev (peaks f64_neg_infinity (rev slice)) in
    try_fold (valley_at smoothed left_peaks right_peaks start) None (seq (start + 1) (stop - (start + 1))).

Definition bucket_edge_value (minimum maximum : f32) (bucket_count bucket : nat) : f32 :=
  let f n := f_of_Z binary64 (Z.of_nat n) in
  let fraction := fdiv binary64 (f bucket) (f bucket_count) in
  f32_of_f64 (fadd binary64 (f64_of_f32 minimum)
    (fmul binary64 (fsub binary64 (f64_of_f32 maximum) (f64_of_f32 minimum)) fraction)).

(** The segments and the index of each: the best valley over all of them. *)
Definition segment_valley (smoothed : list f64) (best : option (nat * valley)) (p : nat * (nat * nat))
  : outcome (option (nat * valley)) :=
  let '(segment_index, (start, stop)) := p in
  if (stop - start <=? 1)%nat then Ok best
  else
    let? candidate := best_bucket_valley smoothed start stop in
    Ok (match candidate, best with
        | Some candidate, Some (_, best_valley) => if better candidate best_valley then Some (segment_index, candidate) else best
        | Some candidate, None => Some (segment_index, candidate)
        | None, _ => best
        end).

Definition segment_cmp (a b : nat * nat) : comparison := then_with (Nat.compare a.1 b.1) (Nat.compare a.2 b.2).

(** [Vec::remove] *)
Definition remove_at {A} (l : list A) (index : nat) : outcome (A * list A) :=
  let? x := expect (l !! index) in Ok (x, delete index l).

(** One round: the buckets cut at so far, newest first. A round that finds no valley
    ends the loop. [Panic] stands for the end of the fuel, which is never reached. *)
Fixpoint cut_segments (smoothed : list f64) (fuel : nat) (wanted : N) (segments : list (nat * nat)) (cuts : list nat)
  : outcome (list nat) :=
  if (len cuts <? wanted)%N then
    match fuel with
    | O => Panic
    | S fuel =>
        let? best := try_fold (segment_valley smoothed) None (imap pair segments) in
        match best with
        | None => Ok cuts
        | Some (segment_index, (bucket, _, _)) =>
            let? '((start, stop), rest) := remove_at segments segment_index in
            let segments := sort_by segment_cmp (rest ++ [(start, bucket); (bucket, stop)]) in
            cut_segments smoothed fuel wanted segments (bucket :: cuts)
        end
    end
  else Ok cuts.

(** As many rounds as buckets, and one: a segment of one bucket is not cut. *)
Definition select_histogram_valley_cut_values (minimum maximum : f32) (counts : list N) (bin_count : N) : outcome (list f32) :=
  if fleb binary32 maximum minimum || (bin_count <=? 1)%N then Ok []
  else
    let? smoothed := smooth_histogram counts in
    let? buckets := cut_segments smoothed (S (length counts)) (saturating_sub bin_count 1) [(0%nat, length counts)] [] in
    let cuts := map (bucket_edge_value minimum maximum (length counts)) (rev buckets) in
    let cuts := sort_by f32_total_cmp cuts in
    guard? negb (bool_decide (cuts = []) && (1 <? bin_count)%N) else
      unsatisfiable_constraint "density-valley partitioning could not realize any deterministic cuts" in
    Ok cuts.

(** ** The planner of an axis *)
Inductive AxisPlanner :=
| QuantilePlanner (p : QuantileAxisPlanner)
| DensityMinMax (p : DensityValleyMinMaxPlanner)
| DensityHistogram (p : DensityValleyHistogramPlanner)
| Ready (plan : AxisPlan).

(** The target ranks, in 128 bits before the conversion. *)
Definition quantile_target (bin_count total_count bin : N) : outcome N :=
  expect (usize_try_from (div_ceil_N (bin * total_count) bin_count)).
Definition new_quantile (bin_count total_count : N) : outcome AxisPlanner :=
  if (bin_count <=? 1)%N then Ok (Ready SingleBin)
  else
    let? targets := collect_map (fun bin => quantile_target bin_count total_count (N.of_nat bin)) (seq 1 (N.to_nat (bin_count - 1))) in
    Ok (QuantilePlanner {| targets := targets; observed := 0;
      max_rank_error_denominator := GK_QUANTILE_RANK_ERROR_DENOMINATOR; summary := [];
      compress_interval := GK_QUANTILE_RANK_ERROR_DENOMINATOR / 2 |}).
Definition new_density (bin_count : N) : AxisPlanner :=
  if (bin_count <=? 1)%N then Ready SingleBin
  else DensityMinMax {| minmax_bin_count := bin_count; minimum := None; maximum := None |}.

Definition planner_observe (p : AxisPlanner) (value : f32) : outcome AxisPlanner :=
  match p with
  | Ready plan => Ok (Ready plan)
  | QuantilePlanner planner => Ok (QuantilePlanner (quantile_observe planner value))
  | DensityMinMax planner => Ok (DensityMinMax (minmax_observe planner value))
  | DensityHistogram planner => rmap DensityHistogram (histogram_observe planner value)
  end.

Definition quantile_finish_pass (p : QuantileAxisPlanner) : outcome AxisPlanner :=
  guard? negb (bool_decide (length (summary p) = 0%nat)) else
    unsatisfiable_constraint "quantile cut planning observed no retained-axis coordinates" in
  let p := compress p in
  let? cuts := collect_map (approximate_quantile_value p) (targets p) in
  Ok (Ready (Thresholds cuts)).
Definition histogram_finish_pass (p : DensityValleyHistogramPlanner) : outcome AxisPlanner :=
  let? cuts := select_histogram_valley_cut_values (low p) (high p) (counts p) (bin_count p) in
  Ok (Ready (Thresholds cuts)).

Definition planner_finish_pass (p : AxisPlanner) : outcome AxisPlanner :=
  match p with
  | Ready plan => Ok (Ready plan)
  | QuantilePlanner planner => quantile_finish_pass planner
  | DensityMinMax planner => Ok (DensityHistogram (minmax_finish_pass planner))
  | DensityHistogram planner => histogram_finish_pass planner
  end.
