(* ===== verification/DpcaPlan.v ===== *)
(** * Directional PCA: parameters, bins and cells

    crates/lexongraph-directional-pca/src/lib.rs: the parameters and their validation,
    how many axes are kept and how many bins each gets, the cell of a point, and the
    plan of the cells once they are counted. The functions [ln], [exp] and [powf] are
    the platform's ([FloatMath]). *)
From S2P Require Import Prelude Ordering Hash Ieee Clustering Pca DpcaPlanner.

Class FloatMath := { f64_ln : f64 -> f64; f64_exp : f64 -> f64; f64_powf : f64 -> f64 -> f64 }.

(** ** Parameters *)
Inductive DirectionalPcaRetainedAxisPolicy := FixedCount (n : N) | AdaptiveAllEligible.
Inductive DirectionalPcaAllocationPolicy := CentroidWeightedBins | EigenvalueLogBits.
Inductive DirectionalPcaBinningPolicy := Quantile | DensityValley.
Inductive DirectionalPcaClusterCardinalityMode := Exact | UnderfullSuccess.

Record DirectionalPcaParams := {
  retained_axis_policy : DirectionalPcaRetainedAxisPolicy; allocation_policy : DirectionalPcaAllocationPolicy;
  binning_policy : DirectionalPcaBinningPolicy; cluster_cardinality_mode : DirectionalPcaClusterCardinalityMode;
  variance_exponent : f32; temperature : f32; min_input_count : N; min_effective_rank : N; min_cumulative_variance : f32
}.

Definition log_bits (p : DirectionalPcaAllocationPolicy) : bool := match p with EigenvalueLogBits => true | CentroidWeightedBins => false end.
Definition is_exact_mode (m : DirectionalPcaClusterCardinalityMode) : bool := match m with Exact => true | UnderfullSuccess => false end.
Definition is_power_of_two (n : N) : bool := negb (n =? 0)%N && (N.land n (n - 1) =? 0)%N.

Section show.
Context `{ShowFloat}.

Definition validate_params (config : StreamingClusteringConfig) (params : DirectionalPcaParams) : outcome unit :=
  let? _ := match retained_axis_policy params with
    | FixedCount n =>
        guard? negb ((n =? 0) || (dimensions config <? n))%N else
          invalid_configuration ("retained_axis_policy = FixedCount(n) requires n to be in [1, " +:+ pretty (dimensions config)
            +:+ "], got " +:+ pretty n)%stdpp in
        guard? negb (n <? min_effective_rank params)%N else
          invalid_configuration ("min_effective_rank must be in [1, FixedCount(n)=" +:+ pretty n +:+ "], got "
            +:+ pretty (min_effective_rank params))%stdpp in
        Ok tt
    | AdaptiveAllEligible =>
        guard? negb (dimensions config <? min_effective_rank params)%N else
          invalid_configuration ("min_effective_rank " +:+ pretty (min_effective_rank params)
            +:+ " cannot exceed adaptive candidate axis count " +:+ pretty (dimensions config))%stdpp in
        Ok tt
    end in
  guard? negb (log_bits (allocation_policy params) && negb (is_power_of_two (cluster_count config))) else
    invalid_configuration ("eigenvalue log-bit allocation requires a power-of-two cluster_count, got "
      +:+ pretty (cluster_count config))%stdpp in
  guard? f32_is_finite (variance_exponent params) && negb (f32_lt_zero (variance_exponent params)) else
    invalid_configuration ("variance_exponent must be finite and non-negative, got " +:+ show_f32 (variance_exponent params))%stdpp in
  guard? f32_is_finite (temperature params) && negb (fleb binary32 (temperature params) 0) else
    invalid_configuration ("temperature must be finite and positive, got " +:+ show_f32 (temperature params))%stdpp in
  guard? negb (min_input_count params <? 2)%N else
    invalid_configuration ("min_input_count must be at least 2, got " +:+ pretty (min_input_count params))%stdpp in
  guard? negb (min_effective_rank params =? 0)%N else
    invalid_configuration ("min_effective_rank must be at least 1, got " +:+ pretty (min_effective_rank params))%stdpp in
  guard? f32_is_finite (min_cumulative_variance params)
         && (fleb binary32 0 (min_cumulative_variance params) && fleb binary32 (min_cumulative_variance params) f32_one) else
    invalid_configuration ("min_cumulative_variance must be finite and in [0, 1], got " +:+ show_f32 (min_cumulative_variance params))%stdpp in
  Ok tt.

Definition map_pca_error (error : PcaError) : StreamingClusteringError :=
  match error with
  | DimensionMismatch _ _ _ | InvalidTruncationDimension _ _ | ValidationFailure _ | QuantizationConfigurationError _ =>
      invalid_configuration ("directional PCA configuration is invalid: " +:+ PcaError_to_string error)%stdpp
  | NonFiniteInput _ _ => malformed_input ("non-finite PCA input: " +:+ PcaError_to_string error)%stdpp
  | PcaEmptyInput | InsufficientSamples _ | DegenerateCovariance _ _ | DecompositionFailure _ | InvalidNumericState _
  | InvalidSerializedFormat _ | SchemaVersionMismatch _ _ =>
      unsatisfiable_constraint ("directional PCA analysis failed: " +:+ PcaError_to_string error)%stdpp
  end.
End show.

Definition reject_balance_constraints (config : StreamingClusteringConfig) : outcome unit :=
  guard? negb (bool_decide (is_Some (balance_constraints config))) else
    invalid_configuration "balance constraints are not supported by the streaming directional-PCA trainer" in
  Ok tt.

Definition resolve_retained_axis_count (t : PcaTransform) (params : DirectionalPcaParams) (cluster_count effective_rank : N) : outcome N :=
  match retained_axis_policy params with
  | FixedCount n => Ok n
  | AdaptiveAllEligible =>
      let retained_axis_count := N.max (N.min (N.max effective_rank (min_effective_rank params)) (output_dim t)) 1 in
      let retained_axis_count := if log_bits (allocation_policy params) then retained_axis_count
                                 else N.min retained_axis_count cluster_count in
      guard? negb (retained_axis_count <? min_effective_rank params)%N else
        unsatisfiable_constraint ("adaptive retained axis count " +:+ pretty retained_axis_count
          +:+ " is smaller than the required minimum " +:+ pretty (min_effective_rank params))%stdpp in
      Ok retained_axis_count
  end.

(** ** Bins *)
Section bins.
Context `{FloatMath}.

Definition dot_with_basis_column (vector : list f32) (t : PcaTransform) (column : nat) : outcome f64 :=
  let? dot := try_fold (fun dot p =>
    let '(row, value) := p in
    let? b := entry (basis t) (N.to_nat (input_dim t)) row column in
    Ok (fadd binary64 dot (fmul binary64 (f64_of_f32 value) (f64_of_f32 b)))) 0%N (imap pair vector) in
  guard? f64_is_finite dot else
    unsatisfiable_constraint ("directional coefficient became non-finite for retained dimension " +:+ pretty (N.of_nat column))%stdpp in
  Ok dot.

Definition finite_score (column : nat) (score : f64) : outcome f64 :=
  guard? f64_is_finite score else
    unsatisfiable_constraint ("axis score became non-finite for retained dimension " +:+ pretty (N.of_nat column))%stdpp in
  Ok score.

Definition compute_axis_scores (centroid : list f32) (t : PcaTransform) (params : DirectionalPcaParams) : outcome (list f64) :=
  let? variances := ok_or (explained_variance t) (unsatisfiable_constraint "missing explained variance in PCA transform") in
  let gamma := f64_of_f32 (variance_exponent params) in
  let lambda variance := fmax binary64 (f64_of_f32 variance) 0 in
  if log_bits (allocation_policy params) then
    collect_map (fun p => finite_score p.1 (f64_powf (lambda p.2) gamma)) (imap pair variances)
  else
    collect_map (fun column =>
      let? alpha := dot_with_basis_column centroid t column in
      let? variance := expect (variances !! column) in
      let variance_factor := if feqb binary64 gamma 0 then f64_one else f64_powf (lambda variance) gamma in
      finite_score column (fmul binary64 (fabs binary64 alpha) variance_factor)) (seq 0 (N.to_nat (output_dim t))).

(** [ln] of one more than a score. *)
Definition damped_score (score : f64) : f64 := f64_ln (fadd binary64 f64_one (fmax binary64 score 0)).

(** One bit: to the axis of the greatest weight for the bits it has. *)
Definition best_axis (bit_budget : list N) (best : nat * f64) (p : nat * f64) : outcome (nat * f64) :=
  let '(axis, weight) := p in
  let? bits := expect (bit_budget !! axis) in
  let adjusted_weight := if (bits =? 0)%N then weight else fdiv binary64 weight (f_of_Z binary64 (Z.of_N (bits + 1))) in
  Ok (if fltb binary64 best.2 adjusted_weight || (feqb binary64 adjusted_weight best.2 && (axis <? best.1)%nat)
      then (axis, adjusted_weight) else best).
Definition give_bit (log_weights : list f64) (bit_budget : list N) : outcome (list N) :=
  let? '(axis, _) := try_fold (best_axis bit_budget) (0%nat, f64_neg_infinity) (imap pair log_weights) in
  let? bits := expect (bit_budget !! axis) in
  Ok (<[axis := (bits + 1)%N]> bit_budget).

(** [1usize.checked_shl(bits)] *)
Definition shift_one (bits : N) : option N := if (bits <? 64)%N then Some (2 ^ bits)%N else None.

Definition allocate_axis_bins_from_eigenvalue_bits (axis_scores : list f64) (cluster_count : N) : outcome (list N) :=
  guard? is_power_of_two cluster_count else
    invalid_configuration ("eigenvalue log-bit allocation requires a power-of-two cluster_count, got " +:+ pretty cluster_count)%stdpp in
  let total_bits := N.log2 cluster_count in
  if (total_bits =? 0)%N then Ok (map (fun _ => 1%N) axis_scores)
  else
    let log_weights := map damped_score axis_scores in
    let? bit_budget := try_fold (fun budget _ => give_bit log_weights budget) (map (fun _ => 0%N) axis_scores)
      (seq 0 (N.to_nat total_bits)) in
    collect_map (fun bits => ok_or (shift_one bits) (invalid_configuration "allocated bit budget overflowed")) bit_budget.

Definition by_remainder (l r : nat * f64) : comparison :=
  then_with (f64_total_cmp r.2 l.2) (Nat.compare l.1 r.1).

(** The bins that are left go to the greatest remainders, one each. *)
Fixpoint spread (counts : list N) (leftovers : N) (remainders : list (nat * f64)) : outcome (list N) :=
  match remainders with
  | [] => Ok counts
  | (index, _) :: rest =>
      if (leftovers =? 0)%N then Ok counts
      else
        let? count := expect (counts !! index) in
        spread (<[index := (count + 1)%N]> counts) (leftovers - 1) rest
  end.

Definition sum_usize (l : list N) : outcome N := try_fold (fun a b => expect (checked_add USIZE_MAX a b)) 0%N l.

Definition allocate_axis_bins (centroid : list f32) (t : PcaTransform) (params : DirectionalPcaParams) (cluster_count : N) : outcome (list N) :=
  let? axis_scores := compute_axis_scores centroid t params in
  guard? negb (len axis_scores =? 0)%N else invalid_configuration "cannot allocate bins with zero retained dimensions" in
  if log_bits (allocation_policy params) then allocate_axis_bins_from_eigenvalue_bits axis_scores cluster_count
  else
    guard? negb (cluster_count <? len axis_scores)%N else
      invalid_configuration ("cluster_count " +:+ pretty cluster_count +:+ " must be at least the retained dimension count "
        +:+ pretty (len axis_scores))%stdpp in
    let damped := map damped_score axis_scores in
    let temperature := f64_of_f32 (temperature params) in
    let max_scaled := fold_left (fmax binary64) (map (fun value => fdiv binary64 value temperature) damped) f64_neg_infinity in
    let exp_values := map (fun value => f64_exp (fsub binary64 (fdiv binary64 value temperature) max_scaled)) damped in
    let exp_sum := sum_f64 exp_values in
    guard? f64_is_finite exp_sum && negb (fleb binary64 exp_sum 0) else
      unsatisfiable_constraint "axis-allocation normalization failed" in
    let counts := map (fun _ => 1%N) axis_scores in
    let remaining_budget := (cluster_count - len axis_scores)%N in
    if (remaining_budget =? 0)%N then Ok counts
    else
      let desired := map (fun value => fdiv binary64 (fmul binary64 value (f_of_Z binary64 (Z.of_N remaining_budget))) exp_sum) exp_values in
      let base := map (fun value => f64_as_usize (f64_floor value)) desired in
      let? counts := collect_map (fun p => expect (checked_add USIZE_MAX p.1 p.2)) (zip counts base) in
      let? used := sum_usize base in
      let? leftovers := expect (checked_sub remaining_budget used) in
      let remainders := sort_by by_remainder (imap (fun index value => (index, fsub binary64 value (f64_floor value))) desired) in
      spread counts leftovers remainders.
End bins.

(** ** Plans *)
Record PartitionAnalysisPlan := {
  analysis_transform : PcaTransform; axis_bin_counts : list N; plan_binning_policy : DirectionalPcaBinningPolicy; total_count : N
}.
Record CutPlanningReplayPlan := { plan : PartitionAnalysisPlan; planners : list AxisPlanner }.
Record PartitionPlan := { transform : PcaTransform; axis_plans : list AxisPlan }.
Record ReadyCellPlan := { cell_key : list N; cell_count : N; extra_clusters : N; cluster_offset : N }.
Record ReadyPartitionPlan := { partition : PartitionPlan; cells : list ReadyCellPlan }.

(** A coordinate equal to a cut is in the bin below it. *)
Definition assign_point_to_cell (p : PartitionPlan) (coordinates : list f32) : outcome (list N) :=
  collect_map (fun q =>
    match q.2 with
    | SingleBin => Ok 0%N
    | Thresholds [] => Ok 0%N
    | Thresholds cuts =>
        let? coordinate := expect (coordinates !! (q.1 : nat)) in
        Ok (N.of_nat (partition_point (fun cut => fltb binary32 cut coordinate) cuts))
    end) (imap pair (axis_plans p)).

(** ** Counting cells *)
Record CellDuplicateSummary := { summary_count : N; coordinate_sums : list f64; coordinate_sum_squares : list f64 }.
Definition CellDuplicateSummary_new (dimensions : N) : CellDuplicateSummary :=
  {| summary_count := 0; coordinate_sums := replicate (N.to_nat dimensions) 0%N; coordinate_sum_squares := replicate (N.to_nat dimensions) 0%N |}.

(** [sums[index] += value] *)
Definition add_at (sums : list f64) (index : nat) (value : f64) : outcome (list f64) :=
  let? sum := expect (sums !! index) in Ok (<[index := fadd binary64 sum value]> sums).
Definition summary_observe (s : CellDuplicateSummary) (coordinates : list f32) : outcome CellDuplicateSummary :=
  try_fold (fun s p =>
    let '(index, value) := p in
    let value := f64_of_f32 value in
    let? sums := add_at (coordinate_sums s) index value in
    let? squares := add_at (coordinate_sum_squares s) index (fmul binary64 value value) in
    Ok {| summary_count := summary_count s; coordinate_sums := sums; coordinate_sum_squares := squares |})
    {| summary_count := summary_count s + 1; coordinate_sums := coordinate_sums s; coordinate_sum_squares := coordinate_sum_squares s |}
    (imap pair coordinates).

(** [1e-9] *)
Definition REFINE_EPSILON : f64 := 4472406533629990549.
(** The cell holds one point more than once. *)
Definition can_refine_duplicates (s : CellDuplicateSummary) : bool :=
  negb (summary_count s <=? 1)%N
  && forallb (fun p : f64 * f64 =>
       let count := f_of_Z binary64 (Z.of_N (summary_count s)) in
       let mean := fdiv binary64 p.1 count in
       let variance := fsub binary64 (fdiv binary64 p.2 count) (fmul binary64 mean mean) in
       fleb binary64 (fabs binary64 variance) REFINE_EPSILON)
     (zip (coordinate_sums s) (coordinate_sum_squares s)).

(** The map of the cells, in the order of their keys. *)
Definition key_cmp : list N -> list N -> comparison := list_cmp N.compare.
Notation cell_map := (list (list N * CellDuplicateSummary)).
Fixpoint observe_cell (key : list N) (fresh : CellDuplicateSummary) (coordinates : list f32) (m : cell_map) : outcome cell_map :=
  match m with
  | [] => let? s := summary_observe fresh coordinates in Ok [(key, s)]
  | (k, s) :: rest =>
      match key_cmp key k with
      | Lt => let? s' := summary_observe fresh coordinates in Ok ((key, s') :: m)
      | Eq => let? s := summary_observe s coordinates in Ok ((k, s) :: rest)
      | Gt => let? rest := observe_cell key fresh coordinates rest in Ok ((k, s) :: rest)
      end
  end.

(** One cell of the plan: the shortfall and the next cluster after it. *)
Definition plan_cell (state : N * N * list ReadyCellPlan) (p : list N * CellDuplicateSummary) : N * N * list ReadyCellPlan :=
  let '(remaining_shortfall, offset, planned) := state in
  let '(key, summary) := p in
  let extra := if (0 <? remaining_shortfall)%N && can_refine_duplicates summary
               then N.min remaining_shortfall (saturating_sub (summary_count summary) 1) else 0%N in
  (remaining_shortfall - extra, offset + (1 + extra),
   planned ++ [{| cell_key := key; cell_count := summary_count summary; extra_clusters := extra; cluster_offset := offset |}])%N.

Definition build_ready_partition_plan (partition : PartitionPlan) (cell_summaries : cell_map) (requested_cluster_count : N)
  (mode : DirectionalPcaClusterCardinalityMode) : outcome ReadyPartitionPlan :=
  let populated_cell_count := len cell_summaries in
  let shortfall := saturating_sub requested_cluster_count populated_cell_count in
  let '(remaining_shortfall, _, planned) := fold_left plan_cell cell_summaries (shortfall, 0%N, []) in
  guard? negb (is_exact_mode mode && (0 <? remaining_shortfall)%N) else
    unsatisfiable_constraint ("directional-PCA partition realized " +:+ pretty populated_cell_count
      +:+ " populated cells instead of the required " +:+ pretty requested_cluster_count)%stdpp in
  Ok {| partition := partition; cells := planned |}.

(** Where an item of a cell goes: the first ones share a cluster, the last ones have one each. *)
Definition cluster_of (cell : ReadyCellPlan) (seen : N) : outcome N :=
  let? base_count := expect (checked_sub (cell_count cell) (extra_clusters cell)) in
  Ok (if (seen <? base_count)%N then cluster_offset cell else cluster_offset cell + 1 + (seen - base_count))%N.

(** ** Realized cells *)
Record CellStats := { stats_count : N; sums : list f64 }.
Fixpoint add_embedding (sums : list f64) (embedding : list f32) : list f64 :=
  match sums, embedding with
  | sum :: sums, value :: embedding => fadd binary64 sum (f64_of_f32 value) :: add_embedding sums embedding
  | _, _ => sums
  end.
Definition stats_observe (s : CellStats) (embedding : list f32) : CellStats :=
  {| stats_count := stats_count s + 1; sums := add_embedding (sums s) embedding |}.
Definition stats_centroid (s : CellStats) : outcome (list f32) :=
  guard? negb (stats_count s =? 0)%N else unsatisfiable_constraint "partition-ready cell produced an empty centroid" in
  let count := f_of_Z binary64 (Z.of_N (stats_count s)) in
  Ok (map (fun sum => f32_of_f64 (fdiv binary64 sum count)) (sums s)).

Definition quality_metric_from_transform (t : PcaTransform) : f64 :=
  fsub binary64 f64_one (f64_of_f32 (default 0%N (cumulative_variance t ≫= last))).
