(* ===== verification/DirectionalPca.v ===== *)
(** * The directional PCA trainer and classifier

    crates/lexongraph-directional-pca/src/lib.rs: four kinds of passes over the same
    data, each one replayed in the same order: the analysis of the principal
    components, the planning of the cuts, the count of the cells, and the realization
    of the partition. Embeddings are projected in order, in parallel or not, which
    gives the same list. A hasher is the bytes it was given. *)
From S2P Require Import Prelude Ordering Hash Ieee Clustering Pca DpcaPlanner DpcaPlan.

(** ** Passes *)
Record PassTracker := { tracked_count : N; hashed : bytes }.
Record PassFingerprint := { fingerprint_count : N; digest : BlockHash }.
Inductive AxisCursorState := Cursor.

Record ActivePcaPass := { pca_tracker : PassTracker; accumulator : PcaAccumulator }.
Record ActiveCutPlanningPass := { cut_tracker : PassTracker; cut_plan : PartitionAnalysisPlan; cut_planners : list AxisPlanner }.
Record ActiveCellCountingPass := {
  count_tracker : PassTracker; count_partition : PartitionPlan; count_cursor : AxisCursorState; cell_summaries : cell_map
}.
Record ActivePartitionRealizationPass := {
  realize_tracker : PassTracker; ready : ReadyPartitionPlan; realize_cursor : AxisCursorState;
  cell_seen_counts : list N; cell_stats : list CellStats
}.

Inductive ActivePassState :=
| ActiveAnalyzePca (pass : ActivePcaPass)
| ActivePlanCuts (pass : ActiveCutPlanningPass)
| ActiveCountCells (pass : ActiveCellCountingPass)
| ActiveRealizePartition (pass : ActivePartitionRealizationPass).

Inductive ReplayPhase :=
| AnalyzePca
| PlanCuts (replay : CutPlanningReplayPlan)
| CountCells (partition : PartitionPlan)
| RealizePartition (ready : ReadyPartitionPlan).

Record DirectionalPcaModel := { model_centroids : list (list f32); model_replay_plan : option ReadyPartitionPlan }.

Inductive DirectionalPcaTrainerSubphase := InAnalyzePca | InPlanCuts | InCountCells | InRealizePartition.
Record DirectionalPcaTelemetryDetail := {
  ready_axis_plan_count : option N; total_axis_plan_count : option N;
  populated_cell_count : option N; realized_cell_count : option N; state_fingerprint : BlockHash
}.
Record DirectionalPcaTrainerTelemetry := {
  subphase : DirectionalPcaTrainerSubphase; telemetry_observed : option N; detail : DirectionalPcaTelemetryDetail
}.

(** ** Hashing the state *)
Definition ascii (s : string) : bytes := String.list_byte_of_string s.
Definition hash_usize (value : N) : bytes := le_split 8 value.
Definition hash_usizes (values : list N) : bytes := hash_usize (len values) ++ concat (map hash_usize values).
Definition hash_f32 (value : f32) : bytes := le_split 4 value.
Definition hash_optional_f32 (value : option f32) : bytes :=
  match value with Some value => Byte.x01 :: hash_f32 value | None => [Byte.x00] end.
Definition hash_f32s (values : list f32) : bytes := hash_usize (len values) ++ concat (map hash_f32 values).
Definition hash_f64s (values : list f64) : bytes := hash_usize (len values) ++ concat (map (le_split 8) values).

Definition hash_pca_transform (t : PcaTransform) : bytes :=
  hash_usize (input_dim t) ++ hash_usize (output_dim t) ++ hash_f32s (mean t) ++ hash_f32s (basis t)
  ++ match explained_variance t with Some variance => Byte.x01 :: hash_f32s variance | None => [Byte.x00] end
  ++ le_split 4 (schema_version t).
Definition hash_axis_plan (p : AxisPlan) : bytes :=
  match p with
  | SingleBin => ascii "axis-plan-single-bin"
  | Thresholds cuts => ascii "axis-plan-thresholds" ++ hash_usize (len cuts) ++ concat (map hash_f32 cuts)
  end.
Definition hash_axis_planner (p : AxisPlanner) : bytes :=
  match p with
  | QuantilePlanner p =>
      ascii "planner-quantile" ++ hash_usizes (targets p) ++ hash_usize (observed p) ++ hash_usize (max_rank_error_denominator p)
      ++ hash_usize (len (summary p))
      ++ concat (map (fun e => hash_f32 (entry_value e) ++ hash_usize (gap e) ++ hash_usize (delta e)) (summary p))
      ++ hash_usize (compress_interval p)
  | DensityMinMax p =>
      ascii "planner-density-minmax" ++ hash_usize (minmax_bin_count p) ++ hash_optional_f32 (minimum p) ++ hash_optional_f32 (maximum p)
  | DensityHistogram p =>
      ascii "planner-density-histogram" ++ hash_f32 (low p) ++ hash_f32 (high p) ++ hash_usize (bin_count p) ++ hash_usizes (counts p)
  | Ready plan => ascii "planner-ready" ++ hash_axis_plan plan
  end.
Definition hash_axis_planners (planners : list AxisPlanner) : bytes :=
  hash_usize (len planners) ++ concat (map hash_axis_planner planners).
Definition hash_partition_analysis_plan (p : PartitionAnalysisPlan) : bytes :=
  hash_pca_transform (analysis_transform p) ++ hash_usizes (axis_bin_counts p) ++ hash_usize (total_count p)
  ++ hash_usize (match plan_binning_policy p with Quantile => 0 | DensityValley => 1 end).
Definition hash_partition_plan (p : PartitionPlan) : bytes :=
  hash_pca_transform (transform p) ++ hash_usize (len (axis_plans p)) ++ concat (map hash_axis_plan (axis_plans p)).
Definition hash_ready_partition_plan (r : ReadyPartitionPlan) : bytes :=
  hash_partition_plan (partition r) ++ hash_usize (len (cells r))
  ++ concat (map (fun c => hash_usizes (cell_key c) ++ hash_usize (cell_count c) ++ hash_usize (extra_clusters c)
       ++ hash_usize (cluster_offset c)) (cells r)).
Definition hash_axis_cursor_state (c : AxisCursorState) : bytes := ascii "axis-cursor-state".
Definition hash_cell_duplicate_summaries (m : cell_map) : bytes :=
  hash_usize (len m)
  ++ concat (map (fun p => hash_usizes p.1 ++ hash_usize (summary_count p.2) ++ hash_f64s (coordinate_sums p.2)
       ++ hash_f64s (coordinate_sum_squares p.2)) m).
Definition hash_cell_stats (stats : list CellStats) : bytes :=
  hash_usize (len stats) ++ concat (map (fun s => hash_usize (stats_count s) ++ hash_f64s (sums s)) stats).

Definition PassTracker_new : PassTracker := {| tracked_count := 0; hashed := [] |}.
Definition tracker_update (t : PassTracker) (embedding : list f32) : PassTracker :=
  {| tracked_count := tracked_count t + 1; hashed := hashed t ++ le_split 8 (len embedding) ++ concat (map f32_to_le_bytes embedding) |}.

Section hashing.
Context `{Sha256}.

Definition tracker_finish (t : PassTracker) : PassFingerprint :=
  {| fingerprint_count := tracked_count t; digest := sha256 (hashed t) |}.
(** [impl PartialEq for PassFingerprint], derived *)
Definition PassFingerprint_eqb (a b : PassFingerprint) : bool :=
  (fingerprint_count a =? fingerprint_count b)%N && bool_decide (as_bytes (digest a) = as_bytes (digest b)).

Definition hash_pass_tracker (t : PassTracker) : bytes := hash_usize (tracked_count t) ++ as_bytes (sha256 (hashed t)).

Definition hash_active_pass (p : ActivePassState) : BlockHash :=
  sha256 match p with
  | ActiveAnalyzePca pass => ascii "active-analyze-pca" ++ hash_pass_tracker (pca_tracker pass)
  | ActivePlanCuts pass =>
      ascii "active-plan-cuts" ++ hash_pass_tracker (cut_tracker pass) ++ hash_partition_analysis_plan (cut_plan pass)
      ++ hash_axis_planners (cut_planners pass)
  | ActiveCountCells pass =>
      ascii "active-count-cells" ++ hash_pass_tracker (count_tracker pass) ++ hash_partition_plan (count_partition pass)
      ++ hash_axis_cursor_state (count_cursor pass) ++ hash_cell_duplicate_summaries (cell_summaries pass)
  | ActiveRealizePartition pass =>
      ascii "active-realize-partition" ++ hash_pass_tracker (realize_tracker pass) ++ hash_ready_partition_plan (ready pass)
      ++ hash_axis_cursor_state (realize_cursor pass) ++ hash_usizes (cell_seen_counts pass) ++ hash_cell_stats (cell_stats pass)
  end.
Definition hash_replay_phase (p : ReplayPhase) : BlockHash :=
  sha256 match p with
  | AnalyzePca => ascii "phase-analyze-pca"
  | PlanCuts replay => ascii "phase-plan-cuts" ++ hash_partition_analysis_plan (plan replay) ++ hash_axis_planners (planners replay)
  | CountCells partition => ascii "phase-count-cells" ++ hash_partition_plan partition
  | RealizePartition ready => ascii "phase-realize-partition" ++ hash_ready_partition_plan ready
  end.

(** ** Telemetry *)
Definition is_ready (p : AxisPlanner) : bool := match p with Ready _ => true | _ => false end.
Definition count_ready (planners : list AxisPlanner) : N := len (filter (fun p => is_ready p = true) planners).
Definition no_detail (h : BlockHash) : DirectionalPcaTelemetryDetail :=
  {| ready_axis_plan_count := None; total_axis_plan_count := None; populated_cell_count := None; realized_cell_count := None;
     state_fingerprint := h |}.
Definition planning_detail (planners : list AxisPlanner) (h : BlockHash) : DirectionalPcaTelemetryDetail :=
  {| ready_axis_plan_count := Some (count_ready planners); total_axis_plan_count := Some (len planners);
     populated_cell_count := None; realized_cell_count := None; state_fingerprint := h |}.
Definition cells_detail (p : PartitionPlan) (populated realized : option N) (h : BlockHash) : DirectionalPcaTelemetryDetail :=
  {| ready_axis_plan_count := Some (len (axis_plans p)); total_axis_plan_count := Some (len (axis_plans p));
     populated_cell_count := populated; realized_cell_count := realized; state_fingerprint := h |}.

Definition telemetry_detail_from_phase (phase : ReplayPhase) : DirectionalPcaTelemetryDetail :=
  let h := hash_replay_phase phase in
  match phase with
  | AnalyzePca => no_detail h
  | PlanCuts replay => planning_detail (planners replay) h
  | CountCells partition => cells_detail partition None None h
  | RealizePartition ready => cells_detail (partition ready) (Some (len (cells ready))) None h
  end.
Definition directional_pca_telemetry_detail (phase : ReplayPhase) (active_pass : option ActivePassState) : DirectionalPcaTelemetryDetail :=
  match active_pass with
  | None => telemetry_detail_from_phase phase
  | Some pass =>
      let h := hash_active_pass pass in
      match pass with
      | ActiveAnalyzePca _ => no_detail h
      | ActivePlanCuts pass => planning_detail (cut_planners pass) h
      | ActiveCountCells pass => cells_detail (count_partition pass) (Some (len (cell_summaries pass))) None h
      | ActiveRealizePartition pass =>
          cells_detail (partition (ready pass)) (Some (len (cells (ready pass)))) (Some (len (cell_stats pass))) h
      end
  end.
Definition active_tracker (p : ActivePassState) : PassTracker :=
  match p with
  | ActiveAnalyzePca pass => pca_tracker pass
  | ActivePlanCuts pass => cut_tracker pass
  | ActiveCountCells pass => count_tracker pass
  | ActiveRealizePartition pass => realize_tracker pass
  end.
Definition subphase_of (p : ReplayPhase) : DirectionalPcaTrainerSubphase :=
  match p with
  | AnalyzePca => InAnalyzePca | PlanCuts _ => InPlanCuts | CountCells _ => InCountCells | RealizePartition _ => InRealizePartition
  end.
End hashing.

(** ** The trainer *)
Module Trainer.
Record DirectionalPcaStreamingTrainer := Mk {
  config : StreamingClusteringConfig; params : DirectionalPcaParams; state : TrainerState; phase : ReplayPhase;
  active_pass : option ActivePassState; baseline_fingerprint : option PassFingerprint; quality_metric : f64;
  model : option DirectionalPcaModel; cached_telemetry : option DirectionalPcaTrainerTelemetry; has_out_of_core_state : bool
}.
Notation T := DirectionalPcaStreamingTrainer.

(** The whole state but what a step replaces. *)
Definition set_state (s : TrainerState) (t : T) : T :=
  Mk (config t) (params t) s (phase t) (active_pass t) (baseline_fingerprint t) (quality_metric t) (model t) (cached_telemetry t)
    (has_out_of_core_state t).
Definition set_active (a : option ActivePassState) (t : T) : T :=
  Mk (config t) (params t) (state t) (phase t) a (baseline_fingerprint t) (quality_metric t) (model t) (cached_telemetry t)
    (has_out_of_core_state t).
Definition set_cache (c : option DirectionalPcaTrainerTelemetry) (t : T) : T :=
  Mk (config t) (params t) (state t) (phase t) (active_pass t) (baseline_fingerprint t) (quality_metric t) (model t) c
    (has_out_of_core_state t).
Definition set_baseline (f : PassFingerprint) (t : T) : T :=
  Mk (config t) (params t) (state t) (phase t) (active_pass t) (Some f) (quality_metric t) (model t) (cached_telemetry t)
    (has_out_of_core_state t).
Definition set_quality (q : f64) (t : T) : T :=
  Mk (config t) (params t) (state t) (phase t) (active_pass t) (baseline_fingerprint t) q (model t) (cached_telemetry t)
    (has_out_of_core_state t).
Definition set_phase (p : ReplayPhase) (m : option DirectionalPcaModel) (t : T) : T :=
  Mk (config t) (params t) (state t) p (active_pass t) (baseline_fingerprint t) (quality_metric t) m (cached_telemetry t)
    (has_out_of_core_state t).

Definition invalidate_cached_telemetry : T -> T := set_cache None.
Definition with_out_of_core_planner_state (t : T) : T :=
  Mk (config t) (params t) (state t) (phase t) (active_pass t) (baseline_fingerprint t) (quality_metric t) (model t)
    (cached_telemetry t) true.

(** The error and the trainer after it. *)
Definition invalid_transition (operation : string) (t : T) : StreamingClusteringError * T :=
  (InvalidTransition (state t) operation, invalidate_cached_telemetry (set_state ErrorState t)).
(** [fail] keeps the error. *)
Definition fail (t : T) : T := invalidate_cached_telemetry (set_active None (set_state ErrorState t)).

(** A result with [?] in a method that changes the trainer. *)
Definition at_trainer {A B} (m : outcome A) (t : T) (k : A -> outcome B * T) : outcome B * T :=
  match m with Ok a => k a | Err e => (Err e, t) | Panic => (Panic, t) end.
Notation "'let?' x ':=' m 'at' t 'in' k" := (at_trainer m t (fun x => k))
  (at level 200, x name, m at level 100, t at level 100, k at level 200).

Definition new `{ShowFloat} (config : StreamingClusteringConfig) (params : DirectionalPcaParams) : outcome T :=
  let? _ := validate_config config in
  let? _ := validate_params config params in
  let? _ := reject_balance_constraints config in
  Ok (Mk config params Idle AnalyzePca None None 0 None None false).

Definition telemetry `{Sha256} (t : T) : DirectionalPcaTrainerTelemetry * T :=
  match cached_telemetry t with
  | Some cached => (cached, t)
  | None =>
      let telemetry := {| subphase := subphase_of (phase t); telemetry_observed := option_map (fun p => tracked_count (active_tracker p)) (active_pass t);
        detail := directional_pca_telemetry_detail (phase t) (active_pass t) |} in
      (telemetry, set_cache (Some telemetry) t)
  end.

Definition empty_stats (dimensions : N) : CellStats := {| stats_count := 0; sums := replicate (N.to_nat dimensions) 0%N |}.
Definition start_pass (dimensions : N) (phase : ReplayPhase) : outcome ActivePassState :=
  match phase with
  | AnalyzePca =>
      let? accumulator := map_err (fun _ => malformed_input "") (PcaAccumulator_new dimensions) in
      Ok (ActiveAnalyzePca {| pca_tracker := PassTracker_new; accumulator := accumulator |})
  | PlanCuts replay =>
      Ok (ActivePlanCuts {| cut_tracker := PassTracker_new; cut_plan := plan replay; cut_planners := planners replay |})
  | CountCells partition =>
      Ok (ActiveCountCells {| count_tracker := PassTracker_new; count_partition := partition; count_cursor := Cursor; cell_summaries := [] |})
  | RealizePartition ready =>
      Ok (ActiveRealizePartition {| realize_tracker := PassTracker_new; ready := ready; realize_cursor := Cursor;
        cell_seen_counts := map (fun _ => 0%N) (cells ready);
        cell_stats := concat (map (fun cell => replicate (N.to_nat (1 + extra_clusters cell)) (empty_stats dimensions)) (cells ready)) |})
  end.

Definition ensure_active_pass (t : T) : outcome unit * T :=
  match active_pass t with
  | Some _ => (Ok tt, t)
  | None =>
      let? pass := start_pass (dimensions (config t)) (phase t) at t in
      (Ok tt, invalidate_cached_telemetry (set_active (Some pass) t))
  end.

(** *** Ingesting *)
Definition validate_batch (embeddings : list (list f32)) (dimensions : N) : outcome unit :=
  try_fold (fun _ embedding => validate_embedding embedding dimensions) tt embeddings.

(** A loop over the batch that changes the pass up to its first error. *)
Fixpoint each {P X} (f : X -> P -> outcome P) (l : list X) (p : P) : outcome unit * P :=
  match l with
  | [] => (Ok tt, p)
  | x :: l => match f x p with Ok p => each f l p | Err e => (Err e, p) | Panic => (Panic, p) end
  end.

(** The planners beside the coordinates: those without one stay. *)
Fixpoint observe_axes (planners : list AxisPlanner) (coordinates : list f32) : outcome (list AxisPlanner) :=
  match planners, coordinates with
  | planner :: planners, value :: coordinates =>
      let? planner := planner_observe planner value in
      let? planners := observe_axes planners coordinates in
      Ok (planner :: planners)
  | _, _ => Ok planners
  end.

Section show.
Context `{ShowFloat}.

Definition project_embeddings_in_replay_order (t : PcaTransform) (embeddings : list (list f32)) : outcome (list (list f32)) :=
  collect_map (fun embedding => map_err map_pca_error (apply t embedding)) embeddings.

Definition ingest_pca (embedding : list f32) (pass : ActivePcaPass) : outcome ActivePcaPass :=
  let? accumulator := map_err map_pca_error (update (accumulator pass) embedding) in
  Ok {| pca_tracker := tracker_update (pca_tracker pass) embedding; accumulator := accumulator |}.
Definition ingest_cuts (p : list f32 * list f32) (pass : ActiveCutPlanningPass) : outcome ActiveCutPlanningPass :=
  let '(embedding, coordinates) := p in
  let? planners := observe_axes (cut_planners pass) coordinates in
  Ok {| cut_tracker := tracker_update (cut_tracker pass) embedding; cut_plan := cut_plan pass; cut_planners := planners |}.
Definition ingest_cells (p : list f32 * list f32) (pass : ActiveCellCountingPass) : outcome ActiveCellCountingPass :=
  let '(embedding, coordinates) := p in
  let? key := assign_point_to_cell (count_partition pass) coordinates in
  let? summaries := observe_cell key (CellDuplicateSummary_new (output_dim (transform (count_partition pass)))) coordinates (cell_summaries pass) in
  Ok {| count_tracker := tracker_update (count_tracker pass) embedding; count_partition := count_partition pass;
        count_cursor := count_cursor pass; cell_summaries := summaries |}.
Definition find_cell (cells : list ReadyCellPlan) (key : list N) (missing : string) : outcome nat :=
  match binary_search_by (fun cell => key_cmp (cell_key cell) key) cells with
  | Ok i => Ok i
  | _ => Err (unsatisfiable_constraint missing)
  end.
Definition ingest_partition (p : list f32 * list f32) (pass : ActivePartitionRealizationPass) : outcome ActivePartitionRealizationPass :=
  let '(embedding, coordinates) := p in
  let? key := assign_point_to_cell (partition (ready pass)) coordinates in
  let? cell_index := find_cell (cells (ready pass)) key "partition-ready cell plan was not stable" in
  let? cell := expect (cells (ready pass) !! cell_index) in
  let? seen := expect (cell_seen_counts pass !! cell_index) in
  let? cluster_index := cluster_of cell seen in
  let? stats := expect (cell_stats pass !! N.to_nat cluster_index) in
  Ok {| realize_tracker := tracker_update (realize_tracker pass) embedding; ready := ready pass; realize_cursor := realize_cursor pass;
        cell_seen_counts := <[cell_index := (seen + 1)%N]> (cell_seen_counts pass);
        cell_stats := <[N.to_nat cluster_index := stats_observe stats embedding]> (cell_stats pass) |}.

(** One batch into the pass of its phase. *)
Definition ingest_active (dimensions : N) (embeddings : list (list f32)) (pass : ActivePassState) : outcome unit * ActivePassState :=
  match validate_batch embeddings dimensions with
  | Err e => (Err e, pass)
  | Panic => (Panic, pass)
  | Ok _ =>
      let projected (t : PcaTransform) (k : list (list f32 * list f32) -> outcome unit * ActivePassState) :=
        match project_embeddings_in_replay_order t embeddings with
        | Ok coordinates => k (zip embeddings coordinates)
        | Err e => (Err e, pass)
        | Panic => (Panic, pass)
        end in
      match pass with
      | ActiveAnalyzePca p => let '(r, p) := each ingest_pca embeddings p in (r, ActiveAnalyzePca p)
      | ActivePlanCuts p =>
          projected (analysis_transform (cut_plan p)) (fun l => let '(r, p) := each ingest_cuts l p in (r, ActivePlanCuts p))
      | ActiveCountCells p =>
          projected (transform (count_partition p)) (fun l => let '(r, p) := each ingest_cells l p in (r, ActiveCountCells p))
      | ActiveRealizePartition p =>
          projected (transform (partition (ready p))) (fun l => let '(r, p) := each ingest_partition l p in (r, ActiveRealizePartition p))
      end
  end.

Definition ingest_batch (embeddings : list (list f32)) (t : T) : outcome unit * T :=
  let ingest t :=
    let t := invalidate_cached_telemetry t in
    match active_pass t with
    | None => (Err (malformed_input "missing active directional-PCA pass state"), t)
    | Some pass =>
        let '(r, pass) := ingest_active (dimensions (config t)) embeddings pass in (r, set_active (Some pass) t)
    end in
  match state t with
  | Idle | PassComplete =>
      match ensure_active_pass t with
      | (Ok _, t) => ingest (set_state Ingesting t)
      | (r, t) => (r, t)
      end
  | Ingesting => ingest t
  | TrainingComplete | ErrorState => let '(e, t) := invalid_transition "ingest_batch" t in (Err e, t)
  end.

(** *** Finishing a pass *)
Definition analysis_only_report (observed_count requested_cluster_count : N) (quality_metric : f64) : PassReport :=
  {| observed_count := observed_count; requested_cluster_count := requested_cluster_count; readiness := AnalysisOnly;
     realized_cluster_count := None; Clustering.quality_metric := quality_metric; balance_metric := 0%N;
     quality_direction := SmallerIsBetter; balance_direction := SmallerIsBetter; cluster_ids := None |}.
Definition partition_ready_report (observed_count : N) (realized : N) (t : T) : PassReport :=
  {| observed_count := observed_count; requested_cluster_count := cluster_count (config t); readiness := PartitionReady;
     realized_cluster_count := Some realized; Clustering.quality_metric := quality_metric t; balance_metric := 0%N;
     quality_direction := SmallerIsBetter; balance_direction := SmallerIsBetter;
     cluster_ids := Some (map N.of_nat (seq 0 (N.to_nat realized))) |}.

Notation finished := (ReplayPhase * PassReport * option DirectionalPcaModel)%type.

Section finish.
Context `{Sha256} `{FloatMath} `{SymmetricEigen}.

Definition minimum_required (t : T) : N :=
  if is_exact_mode (cluster_cardinality_mode (params t)) then N.max (min_input_count (params t)) (cluster_count (config t))
  else min_input_count (params t).

(** The transform of the analysis, cut down to the axes that are kept. *)
Definition analyzed_transform (accumulator : PcaAccumulator) (t : T) : outcome PcaTransform :=
  let? transform := map_err map_pca_error (pca_finalize accumulator) in
  let? diagnostics := map_err map_pca_error (diagnostics transform) in
  let effective_rank := rank_estimate diagnostics in
  let is_degenerate := match explained_variance transform with
    | Some values => forallb (fun value => fleb binary32 (fabs binary32 value) 872415232) values
    | None => false
    end in
  guard? negb (negb is_degenerate && (effective_rank <? min_effective_rank (params t))%N) else
    unsatisfiable_constraint ("effective rank " +:+ pretty effective_rank +:+ " is smaller than the required minimum "
      +:+ pretty (min_effective_rank (params t)))%stdpp in
  let? retained_axis_count := resolve_retained_axis_count transform (params t) (cluster_count (config t)) effective_rank in
  let cumulative := default 0%N (cumulative_variance transform ≫= fun values => values !! N.to_nat (saturating_sub retained_axis_count 1)) in
  guard? negb (negb is_degenerate && fltb binary32 cumulative (min_cumulative_variance (params t))) else
    unsatisfiable_constraint ("cumulative variance " +:+ show_f32 cumulative +:+ " is smaller than the required minimum "
      +:+ show_f32 (min_cumulative_variance (params t)))%stdpp in
  map_err map_pca_error (truncate transform retained_axis_count).

Definition new_planner (policy : DirectionalPcaBinningPolicy) (total_count bin_count : N) : outcome AxisPlanner :=
  match policy with Quantile => new_quantile bin_count total_count | DensityValley => Ok (new_density bin_count) end.

Definition finish_pca_pass (pass : ActivePcaPass) (t : T) : outcome finished * T :=
  let fingerprint := tracker_finish (pca_tracker pass) in
  let observed_count := fingerprint_count fingerprint in
  if (observed_count =? 0)%N then (Err (malformed_input "completed pass must contain at least one embedding"), t)
  else if (observed_count <? minimum_required t)%N then
    (Err (unsatisfiable_constraint ("first pass established N = " +:+ pretty observed_count
       +:+ ", smaller than the required minimum " +:+ pretty (minimum_required t))%stdpp), t)
  else
    let t := set_baseline fingerprint t in
    let? transform := analyzed_transform (accumulator pass) t at t in
    let? axis_bin_counts := allocate_axis_bins (mean transform) transform (params t) (cluster_count (config t)) at t in
    let t := set_quality (quality_metric_from_transform transform) t in
    let report := analysis_only_report observed_count (cluster_count (config t)) (quality_metric t) in
    let plan := {| analysis_transform := transform; axis_bin_counts := axis_bin_counts;
      plan_binning_policy := binning_policy (params t); total_count := observed_count |} in
    let? planners := collect_map (new_planner (plan_binning_policy plan) (total_count plan)) axis_bin_counts at t in
    (Ok (PlanCuts {| plan := plan; planners := planners |}, report, None), t).

Definition validate_replayed_pass (fingerprint : PassFingerprint) (t : T) : outcome unit :=
  let? baseline := ok_or (baseline_fingerprint t)
    (unsatisfiable_constraint "missing baseline dataset for later directional-PCA passes") in
  guard? PassFingerprint_eqb baseline fingerprint else
    malformed_input "later passes must replay the same logical dataset in the same order" in
  Ok tt.

Definition ready_plan (p : AxisPlanner) : option AxisPlan := match p with Ready plan => Some plan | _ => None end.

Definition finish_cut_planning_pass (pass : ActiveCutPlanningPass) (t : T) : outcome finished :=
  let fingerprint := tracker_finish (cut_tracker pass) in
  let? _ := validate_replayed_pass fingerprint t in
  let? advanced_planners := collect_map planner_finish_pass (cut_planners pass) in
  let report := analysis_only_report (fingerprint_count fingerprint) (cluster_count (config t)) (quality_metric t) in
  if forallb is_ready advanced_planners then
    Ok (CountCells {| transform := analysis_transform (cut_plan pass); axis_plans := omap ready_plan advanced_planners |}, report, None)
  else Ok (PlanCuts {| plan := cut_plan pass; planners := advanced_planners |}, report, None).

Definition finish_cell_counting_pass (pass : ActiveCellCountingPass) (t : T) : outcome finished :=
  let fingerprint := tracker_finish (count_tracker pass) in
  let? _ := validate_replayed_pass fingerprint t in
  let populated_cell_count := len (cell_summaries pass) in
  guard? negb (populated_cell_count =? 0)%N else
    unsatisfiable_constraint "directional-PCA partition realized zero populated cells" in
  guard? negb (cluster_count (config t) <? populated_cell_count)%N else
    unsatisfiable_constraint ("directional-PCA partition realized " +:+ pretty populated_cell_count
      +:+ " populated cells instead of the required " +:+ pretty (cluster_count (config t)))%stdpp in
  let? ready := build_ready_partition_plan (count_partition pass) (cell_summaries pass) (cluster_count (config t))
    (cluster_cardinality_mode (params t)) in
  let? realized := sum_usize (map (fun cell => 1 + extra_clusters cell)%N (cells ready)) in
  Ok (RealizePartition ready, partition_ready_report (fingerprint_count fingerprint) (realized mod 2 ^ 32)%N t, None).

Definition finish_partition_realization_pass (pass : ActivePartitionRealizationPass) (t : T) : outcome finished :=
  let fingerprint := tracker_finish (realize_tracker pass) in
  let? _ := validate_replayed_pass fingerprint t in
  let? centroids := collect_map stats_centroid (cell_stats pass) in
  let replay_plan := if existsb (fun cell => 0 <? extra_clusters cell)%N (cells (ready pass)) then Some (ready pass) else None in
  Ok (RealizePartition (ready pass), partition_ready_report (fingerprint_count fingerprint) (len centroids mod 2 ^ 32)%N t,
      Some {| model_centroids := centroids; model_replay_plan := replay_plan |}).

Definition finish_active (pass : ActivePassState) (t : T) : outcome finished * T :=
  match pass with
  | ActiveAnalyzePca pass => finish_pca_pass pass t
  | ActivePlanCuts pass => (finish_cut_planning_pass pass t, t)
  | ActiveCountCells pass => (finish_cell_counting_pass pass t, t)
  | ActiveRealizePartition pass => (finish_partition_realization_pass pass t, t)
  end.

Definition finish_pass_impl (t : T) : outcome PassReport * T :=
  if negb (bool_decide (state t = Ingesting)) then let '(e, t) := invalid_transition "finish_pass" t in (Err e, t)
  else
    let t := invalidate_cached_telemetry t in
    let active := active_pass t in
    let t := set_active None t in
    match active with
    | None => (Err (malformed_input "completed pass must contain at least one embedding"), t)
    | Some pass =>
        let '(r, t) := finish_active pass t in
        let? done := r at t in
        let '(next_phase, report, new_model) := done in
        let t := set_phase next_phase (match new_model with Some m => Some m | None => model t end) t in
        (Ok report, set_state PassComplete t)
    end.

Definition finish_pass (t : T) : outcome PassReport * T :=
  match finish_pass_impl t with
  | (Err e, t) => (Err e, fail t)
  | r => r
  end.
End finish.
End show.

Definition complete_training (t : T) : outcome unit * T :=
  if negb (bool_decide (state t = PassComplete)) then let '(e, t) := invalid_transition "complete_training" t in (Err e, t)
  else match model t with
       | None => (Err (InvalidTransition (state t) "complete_training"), t)
       | Some _ => (Ok tt, invalidate_cached_telemetry (set_state TrainingComplete t))
       end.
End Trainer.
Notation DirectionalPcaStreamingTrainer := Trainer.DirectionalPcaStreamingTrainer.

(** ** The classifier *)
Module Classifier.
Record DirectionalPcaStreamingClassifier := Mk {
  config : StreamingClusteringConfig; centroids : list (list f32); replay_plan : option ReadyPartitionPlan
}.
Record DirectionalPcaReplayState := { cursor_state : AxisCursorState; seen_counts : list N }.

Definition into_classifier (t : DirectionalPcaStreamingTrainer) : outcome DirectionalPcaStreamingClassifier :=
  guard? bool_decide (Trainer.state t = TrainingComplete) else InvalidTransition (Trainer.state t) "into_classifier" in
  let? model := ok_or (Trainer.model t) (InvalidTransition (Trainer.state t) "into_classifier") in
  Ok (Mk (Trainer.config t) (model_centroids model) (model_replay_plan model)).

Definition realized_cluster_count (c : DirectionalPcaStreamingClassifier) : N := (len (centroids c) mod 2 ^ 32)%N.

Definition squared_distance (l r : list f32) : outcome f64 :=
  guard? (len l =? len r)%N else
    malformed_input ("distance calculation requires matching dimensions, got " +:+ pretty (len l) +:+ " and " +:+ pretty (len r))%stdpp in
  try_fold (fun total p =>
    let '(index, (l, r)) := p in
    let delta := fsub binary64 (f64_of_f32 l) (f64_of_f32 r) in
    let total := fadd binary64 total (fmul binary64 delta delta) in
    guard? f64_is_finite total else
      unsatisfiable_constraint ("distance became non-finite at dimension " +:+ pretty (N.of_nat index))%stdpp in
    Ok total) 0%N (imap pair (zip l r)).

Definition nearer (embedding : list f32) (centroids : list (list f32)) (best : nat * f64) (cluster_index : nat) : outcome (nat * f64) :=
  let? centroid := expect (centroids !! cluster_index) in
  let? distance := squared_distance embedding centroid in
  Ok (if fltb binary64 distance best.2 then (cluster_index, distance) else best).

Definition assigned_distance (c : DirectionalPcaStreamingClassifier) (embedding : list f32) : outcome (N * f64) :=
  let? _ := validate_embedding embedding (dimensions (config c)) in
  let? first := expect (centroids c !! 0%nat) in
  let? distance := squared_distance embedding first in
  let? '(best_cluster, best_distance) := try_fold (nearer embedding (centroids c)) (0%nat, distance) (seq 1 (length (centroids c) - 1)) in
  Ok (N.of_nat best_cluster mod 2 ^ 32, fsqrt binary64 best_distance)%N.
Definition assign (c : DirectionalPcaStreamingClassifier) (embedding : list f32) : outcome N :=
  rmap fst (assigned_distance c embedding).

Definition replay_order_child_counts (c : DirectionalPcaStreamingClassifier) : outcome (option (list N)) :=
  opt_transpose (fun plan => rmap (@concat N) (collect_map (fun cell =>
    let? base := expect (checked_sub (cell_count cell) (extra_clusters cell)) in
    Ok (base :: replicate (N.to_nat (extra_clusters cell)) 1%N)) (cells plan))) (replay_plan c).

Definition for_ready_partition (plan : ReadyPartitionPlan) : DirectionalPcaReplayState :=
  {| cursor_state := Cursor; seen_counts := map (fun _ => 0%N) (cells plan) |}.
Definition new_replay_state (c : DirectionalPcaStreamingClassifier) : option DirectionalPcaReplayState :=
  option_map for_ready_partition (replay_plan c).

(** The cluster, and the counts after it. *)
Definition replay_step `{ShowFloat} (plan : ReadyPartitionPlan) (embedding : list f32) (counts : list N) : outcome (N * list N) :=
  guard? (length counts =? length (cells plan))%nat else
    malformed_input ("directional-PCA replay state tracks " +:+ pretty (len counts) +:+ " cells but replay plan requires "
      +:+ pretty (len (cells plan)))%stdpp in
  let? coordinates := map_err map_pca_error (apply (transform (partition plan)) embedding) in
  let? key := assign_point_to_cell (partition plan) coordinates in
  let? cell_index := Trainer.find_cell (cells plan) key
    "replay assignment reached a cell that was not present in the realized partition" in
  let? cell := expect (cells plan !! cell_index) in
  let? seen := expect (counts !! cell_index) in
  guard? (seen <? cell_count cell)%N else
    unsatisfiable_constraint ("replay assignment consumed " +:+ pretty seen +:+ " items for a cell with only "
      +:+ pretty (cell_count cell) +:+ " planned items")%stdpp in
  let? cluster_index := cluster_of cell seen in
  Ok (cluster_index mod 2 ^ 32, <[cell_index := (seen + 1)%N]> counts)%N.

Definition replay_assign `{ShowFloat} (c : DirectionalPcaStreamingClassifier) (embedding : list f32) (s : DirectionalPcaReplayState)
  : outcome N * DirectionalPcaReplayState :=
  match validate_embedding embedding (dimensions (config c)) with
  | Err e => (Err e, s)
  | Panic => (Panic, s)
  | Ok _ =>
      match replay_plan c with
      | None => (assign c embedding, s)
      | Some plan =>
          match replay_step plan embedding (seen_counts s) with
          | Ok (cluster, counts) => (Ok cluster, {| cursor_state := cursor_state s; seen_counts := counts |})
          | Err e => (Err e, s)
          | Panic => (Panic, s)
          end
      end
  end.
End Classifier.
Notation DirectionalPcaStreamingClassifier := Classifier.DirectionalPcaStreamingClassifier.

#[export] Instance directional_pca_classifier : StreamingClusterClassifier DirectionalPcaStreamingClassifier :=
  {| classifier_config := Classifier.config; assign := Classifier.assign |}.
#[export] Instance directional_pca_trainer `{ShowFloat} `{Sha256} `{FloatMath} `{SymmetricEigen} :
    StreamingClusterTrainer DirectionalPcaStreamingTrainer DirectionalPcaStreamingClassifier :=
  {| trainer_config := Trainer.config; trainer_state := Trainer.state; ingest_batch := Trainer.ingest_batch;
     finish_pass := Trainer.finish_pass; complete_training := Trainer.complete_training;
     into_classifier := Classifier.into_classifier |}.
