(* ===== verification/CutCorrect.v ===== *)
(** * Directional PCA: the quantile summary is accurate

    What a Greenwald-Khanna summary says of the values it has seen ([summarizes]):
    the entries are observed values in order, and the rank of each is known up to the
    width of its interval. Observing and compressing keep it, and a value answered for
    a rank is off by at most twice the rank error.

    Then: directional PCA: the density cuts. *)
From S2P Require Import Prelude Ordering Hash Ieee FloatFacts Clustering Pca PcaCodec PcaCorrect PcaCodecCorrect DpcaPlanner.
From Stdlib Require Import Floats.SpecFloat.

(** ** Ranks *)
Notation key := f32_total_key.
Definition count_le (k : Z) (values : list f32) : N := len (filter (fun x => key x <= k)%Z values).
Definition count_lt (k : Z) (values : list f32) : N := len (filter (fun x => key x < k)%Z values).

Lemma count_le_snoc k values v : count_le k (values ++ [v]) = (count_le k values + if decide (key v <= k)%Z then 1 else 0)%N.
Proof. unfold count_le, len. rewrite filter_app, length_app. cbn. destruct (decide _); cbn; lia. Qed.
Lemma count_lt_snoc k values v : count_lt k (values ++ [v]) = (count_lt k values + if decide (key v < k)%Z then 1 else 0)%N.
Proof. unfold count_lt, len. rewrite filter_app, length_app. cbn. destruct (decide _); cbn; lia. Qed.
Lemma count_mono k k' values : (k <= k')%Z -> (count_le k values <= count_le k' values)%N /\ (count_lt k values <= count_lt k' values)%N.
Proof.
  intros Hk. induction values as [|x values [IH1 IH2]]; [done|]. unfold count_le, count_lt, len in *. rewrite !filter_cons.
  repeat destruct (decide _); cbn [length]; lia.
Qed.
Lemma count_lt_le k values : (count_lt k values <= len values)%N.
Proof. unfold count_lt, len. pose proof (length_filter (fun x => key x < k)%Z values). lia. Qed.
Lemma count_le_lt k k' values : (k < k')%Z -> (count_le k values <= count_lt k' values)%N.
Proof.
  intros Hk. induction values as [|x values IH]; [done|]. unfold count_le, count_lt, len in *. rewrite !filter_cons.
  repeat destruct (decide _); cbn [length]; lia.
Qed.
Lemma count_le_none k values : count_lt k values = 0%N -> forall k', (k' < k)%Z -> count_le k' values = 0%N.
Proof. intros Hz k' Hk. pose proof (count_le_lt k' k values Hk). lia. Qed.

(** ** Summaries *)
Section summary.
Context (threshold : N) (values : list f32).

(** From the rank [r] before the entries to the rank [r'] after them. *)
Inductive ranks : N -> list GkSummaryEntry -> N -> Prop :=
| ranks_nil r : ranks r [] r
| ranks_cons r e l r' :
    (1 <= gap e)%N -> (gap e + delta e <= threshold)%N ->
    (r + gap e <= count_le (key (entry_value e)) values)%N ->
    (count_lt (key (entry_value e)) values + 1 <= r + gap e + delta e)%N ->
    ranks (r + gap e) l r' -> ranks r (e :: l) r'.

Lemma ranks_app l1 l2 r r'' : ranks r (l1 ++ l2) r'' <-> exists r', ranks r l1 r' /\ ranks r' l2 r''.
Proof.
  split.
  - revert r. induction l1 as [|e l1 IH]; intros r Hr; cbn in Hr.
    + exists r. split; [constructor|done].
    + inversion Hr; subst. destruct (IH _ ltac:(eassumption)) as (r' & ? & ?). exists r'. split; [by constructor|done].
  - intros (r' & H1 & H2). induction H1; [done|]. cbn. constructor; auto.
Qed.
Lemma ranks_le r l r' : ranks r l r' -> (r <= r')%N.
Proof. induction 1; lia. Qed.

Definition ordered (l : list GkSummaryEntry) : Prop :=
  forall i j a b, (i <= j)%nat -> l !! i = Some a -> l !! j = Some b -> (key (entry_value a) <= key (entry_value b))%Z.
Definition exact_ends (l : list GkSummaryEntry) : Prop :=
  (forall e, head l = Some e -> gap e = 1%N /\ delta e = 0%N) /\ (forall e, last l = Some e -> delta e = 0%N).

Record summarizes (l : list GkSummaryEntry) : Prop := {
  sum_ranks : ranks 0 l (len values); sum_ordered : ordered l; sum_ends : exact_ends l;
  sum_values : Forall (fun e => entry_value e ∈ values) l
}.
End summary.

Lemma ordered_app l1 l2 : ordered (l1 ++ l2) <->
  ordered l1 /\ ordered l2 /\ forall a b, a ∈ l1 -> b ∈ l2 -> (key (entry_value a) <= key (entry_value b))%Z.
Proof.
  split.
  - intros Ho. split_and!.
    + intros i j a b Hij Ha Hb. apply (Ho i j); [done|by apply lookup_app_l_Some..].
    + intros i j a b Hij Ha Hb. apply (Ho (length l1 + i) (length l1 + j))%nat; [lia|rewrite lookup_app_r by lia..].
      * by rewrite Nat.add_comm, Nat.add_sub.
      * by rewrite Nat.add_comm, Nat.add_sub.
    + intros a b [i Ha]%list_elem_of_lookup [j Hb]%list_elem_of_lookup. apply (Ho i (length l1 + j))%nat.
      * apply lookup_lt_Some in Ha. lia.
      * by apply lookup_app_l_Some.
      * rewrite lookup_app_r by lia. by rewrite Nat.add_comm, Nat.add_sub.
  - intros (H1 & H2 & Hb) i j a b Hij Hi Hj. apply lookup_app_Some in Hi as [Hi|[Hli Hi]], Hj as [Hj|[Hlj Hj]].
    + by apply (H1 i j).
    + apply Hb; by eapply list_elem_of_lookup_2.
    + apply lookup_lt_Some in Hj. lia.
    + apply (H2 (i - length l1) (j - length l1))%nat; [lia|done..].
Qed.
Lemma ordered_cons e l : ordered (e :: l) <-> ordered l /\ forall b, b ∈ l -> (key (entry_value e) <= key (entry_value b))%Z.
Proof.
  change (e :: l) with ([e] ++ l). rewrite ordered_app. split.
  - intros (_ & Hl & Hb). split; [done|]. intros b Hin. apply Hb; [by apply list_elem_of_singleton|done].
  - intros [Hl Hb]. split_and!; [|done|intros a b ->%list_elem_of_singleton; apply Hb].
    intros i j a b Hij Ha Hb'. apply lookup_lt_Some in Ha as Hai, Hb' as Hbj. cbn in *.
    replace i with 0%nat in Ha by lia. replace j with 0%nat in Hb' by lia. cbn in *. simplify_eq. done.
Qed.

(** ** Observing *)
Section observe.
Context (threshold threshold' : N) (values : list f32) (v : f32).
Hypothesis Hthreshold : (threshold <= threshold')%N.

Lemma ranks_low l r r' : (forall e, e ∈ l -> key (entry_value e) <= key v)%Z ->
  ranks threshold values r l r' -> ranks threshold' (values ++ [v]) r l r'.
Proof.
  intros Hl Hr. induction Hr as [|r e l r' H1 H2 H3 H4 Hr IH]; [constructor|].
  specialize (Hl e ltac:(set_solver)) as He. constructor; [done|lia| | |].
  - rewrite count_le_snoc. destruct (decide _); lia.
  - rewrite count_lt_snoc. destruct (decide _); lia.
  - apply IH. set_solver.
Qed.
Lemma ranks_high l r r' : (forall e, e ∈ l -> key v < key (entry_value e))%Z ->
  ranks threshold values r l r' -> ranks threshold' (values ++ [v]) (r + 1) l (r' + 1).
Proof.
  intros Hl Hr. induction Hr as [|r e l r' H1 H2 H3 H4 Hr IH]; [constructor|].
  specialize (Hl e ltac:(set_solver)) as He. constructor; [done|lia| | |].
  - rewrite count_le_snoc. destruct (decide _); lia.
  - rewrite count_lt_snoc. destruct (decide _); lia.
  - replace (r + 1 + gap e)%N with (r + gap e + 1)%N by lia. apply IH. set_solver.
Qed.

(** The new entry: an end of the list is exact, another has the whole threshold. *)
Lemma insert_summarizes l1 l2 d :
  summarizes threshold values (l1 ++ l2) ->
  (forall e, e ∈ l1 -> key (entry_value e) <= key v)%Z -> (forall e, e ∈ l2 -> key v < key (entry_value e))%Z ->
  (1 <= threshold')%N -> d = (if bool_decide (l1 = []) || bool_decide (l2 = []) then 0 else threshold' - 1)%N ->
  summarizes threshold' (values ++ [v]) (l1 ++ {| entry_value := v; gap := 1; delta := d |} :: l2).
Proof.
  intros [Hr Ho [Hfirst Hlast] Hv] H1 H2 Ht Hd. apply ranks_app in Hr as (r & Hr1 & Hr2). apply ordered_app in Ho as (Ho1 & Ho2 & Hob).
  assert (r <= count_le (key v) values)%N as Hle.
  { destruct l1 as [|e1 l1'] using rev_ind; [inversion Hr1; lia|]. clear IHl1'.
    apply ranks_app in Hr1 as (r0 & Hr0 & Hr1). inversion Hr1; subst. inversion H9; subst.
    pose proof (count_mono (key (entry_value e1)) (key v) values (H1 e1 ltac:(set_solver))). lia. }
  assert (count_lt (key v) values + 1 <= r + 1 + d)%N as Hlt.
  { subst d. destruct (decide (l2 = [])) as [->|Hn2].
    - rewrite orb_true_r. inversion Hr2; subst. pose proof (count_lt_le (key v) values). lia.
    - destruct l2 as [|e2 l2]; [done|]. inversion Hr2; subst. specialize (H2 e2 ltac:(set_solver)).
      destruct (count_mono (key v) (key (entry_value e2)) values ltac:(lia)) as [_ Hm].
      destruct (decide (l1 = [])) as [->|Hn1].
      + inversion Hr1; subst. destruct (Hfirst e2 eq_refl) as [Hg Hd0]. cbn [bool_decide orb]. lia.
      + rewrite !bool_decide_eq_false_2 by done. cbn [orb]. lia. }
  split.
  - apply ranks_app. exists r. split; [by apply ranks_low|]. constructor; cbn.
    + lia.
    + subst d. destruct (_ || _); lia.
    + rewrite count_le_snoc, decide_True by lia. lia.
    + rewrite count_lt_snoc, decide_False by lia. lia.
    + unfold len in *. rewrite length_app. cbn [length]. replace (N.of_nat (length values + 1)) with (N.of_nat (length values) + 1)%N by lia.
      by apply ranks_high.
  - apply ordered_app. split_and!; [done| |].
    + apply ordered_cons. split; [done|]. intros b Hb. specialize (H2 b Hb). cbn. lia.
    + intros a b Ha [->|Hb]%elem_of_cons; cbn; [by apply H1|by apply Hob].
  - split.
    + intros e He. destruct l1 as [|e1 l1]; cbn in He.
      * injection He as <-. cbn. subst d. done.
      * injection He as <-. by apply Hfirst.
    + intros e He. rewrite last_app in He. destruct l2 as [|e2 l2]; cbn [last] in He.
      * injection He as <-. cbn. subst d. by rewrite orb_true_r.
      * apply Hlast. rewrite last_app. destruct (last (e2 :: l2)) eqn:Hl; [|by apply last_None in Hl]. cbn [last] in *. congruence.
  - apply Forall_app. apply Forall_app in Hv as [Hv1 Hv2]. split.
    + eapply Forall_impl; [exact Hv1|]. set_solver.
    + constructor; [cbn; set_solver|]. eapply Forall_impl; [exact Hv2|]. set_solver.
Qed.
End observe.

(** ** Compressing *)
Section compress.
Context (threshold : N) (values : list f32).

(** An entry takes its left neighbour's gap. *)
Lemma merge_summarizes l1 a b l2 : (gap a + gap b + delta b <= threshold)%N -> l1 <> [] ->
  summarizes threshold values (l1 ++ a :: b :: l2) ->
  summarizes threshold values (l1 ++ {| entry_value := entry_value b; gap := gap b + gap a; delta := delta b |} :: l2).
Proof.
  intros Hsum Hn [Hr Ho [Hfirst Hlast] Hv]. split.
  - apply ranks_app in Hr as (r & Hr1 & Hr2). apply ranks_app. exists r. split; [done|].
    inversion Hr2 as [|? ? ? ? Ha1 Ha2 Ha3 Ha4 Hr3]; subst. inversion Hr3 as [|? ? ? ? Hb1 Hb2 Hb3 Hb4 Hr4]; subst.
    constructor; cbn; [lia..|]. by replace (r + (gap b + gap a))%N with (r + gap a + gap b)%N by lia.
  - apply ordered_app in Ho as (Ho1 & Ho2 & Hob). apply ordered_cons in Ho2 as [Ho2 _]. apply ordered_cons in Ho2 as [Ho2 Hbl].
    apply ordered_app. split_and!; [done|by apply ordered_cons|].
    intros x y Hx [->|Hy]%elem_of_cons; cbn; [apply (Hob x b); set_solver|apply Hob; set_solver].
  - split.
    + destruct l1 as [|x l1]; [done|]. exact Hfirst.
    + intros e He. rewrite last_app, last_cons in He, Hlast. rewrite last_cons in Hlast. destruct (last l2); [by apply Hlast|].
      injection He as <-. cbn. by apply Hlast.
  - rewrite !Forall_app, !Forall_cons in *. tauto.
Qed.

Lemma fold_compress first remaining compacted merged :
  summarizes threshold values (first :: remaining ++ merged :: compacted) ->
  let '(compacted, merged) := fold_left (compress_step threshold) (rev remaining) (compacted, merged) in
  summarizes threshold values (first :: merged :: compacted).
Proof.
  revert compacted merged. induction remaining as [|left_entry remaining IH] using rev_ind; intros compacted merged Hs; [done|].
  rewrite rev_app_distr. cbn [rev app fold_left]. rewrite <-app_assoc in Hs. cbn [app] in Hs.
  unfold compress_step at 2. destruct (N.leb_spec (gap left_entry + gap merged + delta merged) threshold).
  - apply IH. by apply (merge_summarizes (first :: remaining)).
  - by apply IH.
Qed.
End compress.

Definition good (p : QuantileAxisPlanner) (values : list f32) : Prop :=
  observed p = len values /\ summarizes (compress_threshold p) values (summary p).

Lemma compress_good p values : good p values -> good (compress p) values /\ targets (compress p) = targets p
  /\ max_rank_error_denominator (compress p) = max_rank_error_denominator p
  /\ compress_interval (compress p) = compress_interval p.
Proof.
  intros [Hn Hs]. unfold compress. destruct (summary p) as [|first [|second [|third rest]]] eqn:Hsum; try done.
  { split_and!; try done. split; [done|]. by rewrite Hsum. }
  { split_and!; try done. split; [done|]. by rewrite Hsum. }
  { split_and!; try done. split; [done|]. by rewrite Hsum. }
  destruct (rev (first :: second :: third :: rest)) as [|last before] eqn:Hrev.
  { apply (f_equal (@length _)) in Hrev. rewrite length_rev in Hrev. done. }
  cbn [tail]. set (middle := removelast (second :: third :: rest)).
  assert (first :: second :: third :: rest = first :: middle ++ [last]) as Hl.
  { f_equal. unfold middle. rewrite (app_removelast_last first) at 1 by done. f_equal. f_equal.
    apply (f_equal (@rev _)) in Hrev. rewrite rev_involutive in Hrev. cbn [rev] in Hrev.
    assert (List.last (first :: second :: third :: rest) first = last) as <-; [|done]. rewrite Hrev. apply last_last. }
  rewrite Hl in Hs. pose proof (fold_compress (compress_threshold p) values first middle [] last Hs) as Hf.
  destruct (fold_left _ _ _) as [compacted merged]. split_and!; [|done..]. split; [done|]. exact Hf.
Qed.

Lemma threshold_mono p n l : (observed p <= n)%N -> (compress_threshold p <= compress_threshold (with_summary p n l))%N.
Proof.
  intros Hn. unfold compress_threshold, saturating_mul. cbn [with_summary observed max_rank_error_denominator].
  apply N.max_le_compat_r, N.Div0.div_le_mono. lia.
Qed.
Lemma threshold_pos p : (1 <= compress_threshold p)%N.
Proof. unfold compress_threshold. lia. Qed.

Lemma at_most_spec v e : at_most v e = true <-> (key (entry_value e) <= key v)%Z.
Proof. unfold at_most, f32_total_cmp. destruct (Z.compare_spec (key (entry_value e)) (key v)); split; try done; lia. Qed.

Lemma observe_good p values v : good p values -> good (quantile_observe p v) (values ++ [v])
  /\ targets (quantile_observe p v) = targets p
  /\ max_rank_error_denominator (quantile_observe p v) = max_rank_error_denominator p
  /\ compress_interval (quantile_observe p v) = compress_interval p.
Proof.
  intros [Hn Hs]. unfold quantile_observe. cbn [with_summary summary observed].
  destruct (partition_point_spec (at_most v) (summary p)) as [Hk Hpoint].
  { intros i j x y Hij Hx Hy Hp%at_most_spec. apply at_most_spec. pose proof (sum_ordered _ _ _ Hs i j x y Hij Hx Hy). lia. }
  set (k := partition_point (at_most v) (summary p)) in *.
  set (d := if _ || _ then _ else _). set (q := with_summary (with_summary p _ _) _ _).
  assert (good q (values ++ [v])) as Hq.
  { split; [cbn; unfold len in *; rewrite length_app; cbn; lia|].
    apply (insert_summarizes (compress_threshold p)).
    - apply (threshold_mono p). lia.
    - by rewrite take_drop.
    - intros e [j Hj]%list_elem_of_lookup. apply lookup_take_Some in Hj as [Hj Hlt]. apply at_most_spec. by apply (Hpoint j).
    - intros e [j Hj]%list_elem_of_lookup. rewrite lookup_drop in Hj. destruct (Z.lt_ge_cases (key v) (key (entry_value e))) as [|Hle]; [done|].
      apply at_most_spec, (Hpoint _ _ Hj) in Hle. lia.
    - apply threshold_pos.
    - unfold d, saturating_sub. replace (compress_threshold q) with (compress_threshold (with_summary p (observed p + 1) (summary p))) by done.
      assert ((k =? 0)%nat = bool_decide (take k (summary p) = [])) as ->.
      { apply eq_true_iff_eq. rewrite Nat.eqb_eq, bool_decide_eq_true, <-length_zero_iff_nil, length_take.
        lia. }
      assert ((k =? length (summary p))%nat = bool_decide (drop k (summary p) = [])) as ->; [|done].
      apply eq_true_iff_eq. rewrite Nat.eqb_eq, bool_decide_eq_true, <-length_zero_iff_nil, length_drop. lia. }
  destruct (_ && _); [|done]. destruct (compress_good q _ Hq) as (? & ? & ? & ?). done.
Qed.

(** ** Answering *)
Definition gaps (l : list GkSummaryEntry) : N := foldr (fun e n => (gap e + n)%N) 0%N l.
Lemma ranks_gaps threshold values r l r' : ranks threshold values r l r' -> r' = (r + gaps l)%N.
Proof. induction 1; unfold gaps in *; cbn [foldr]; lia. Qed.

Section scan.
Context (target minimum_rank maximum_rank : N).

(** The distance of the middle of an entry's interval, and whether it meets the window. *)
Definition center_distance (r : N) (e : GkSummaryEntry) : N := abs_diff (r + gap e + delta e / 2) target.
Definition meets (r : N) (e : GkSummaryEntry) : Prop := (r + gap e <= maximum_rank /\ minimum_rank <= r + gap e + delta e)%N.

Lemma scan_spec l : forall s, let s' := fold_left (scan_entry target minimum_rank maximum_rank) l s in
  (best_overlap_distance s' <= best_overlap_distance s)%N
  /\ (forall l1 e l2, l = l1 ++ e :: l2 -> meets (running_min_rank s + gaps l1) e ->
       (best_overlap_distance s' <= center_distance (running_min_rank s + gaps l1) e)%N)
  /\ ((best_overlap s' = best_overlap s /\ best_overlap_distance s' = best_overlap_distance s)
      \/ exists l1 e l2, l = l1 ++ e :: l2 /\ meets (running_min_rank s + gaps l1) e /\ best_overlap s' = Some (entry_value e)
           /\ best_overlap_distance s' = center_distance (running_min_rank s + gaps l1) e).
Proof.
  induction l as [|e l IH]; intros s; cbn [fold_left].
  { split; [done|]. split; [intros [] ? ? [=]|by left]. }
  specialize (IH (scan_entry target minimum_rank maximum_rank s e)). destruct IH as (IH1 & IH2 & IH3).
  set (s1 := scan_entry target minimum_rank maximum_rank s e) in *.
  assert (running_min_rank s1 = running_min_rank s + gap e)%N as Hrun by done.
  assert (Hstep : (best_overlap_distance s1 <= best_overlap_distance s)%N
    /\ (meets (running_min_rank s) e -> (best_overlap_distance s1 <= center_distance (running_min_rank s) e)%N)
    /\ ((best_overlap s1 = best_overlap s /\ best_overlap_distance s1 = best_overlap_distance s)
        \/ meets (running_min_rank s) e /\ best_overlap s1 = Some (entry_value e)
           /\ best_overlap_distance s1 = center_distance (running_min_rank s) e)).
  { unfold s1, scan_entry. cbn [best_overlap best_overlap_distance]. fold (center_distance (running_min_rank s) e).
    unfold meets. destruct (N.leb_spec (running_min_rank s + gap e) maximum_rank), (N.leb_spec minimum_rank (running_min_rank s + gap e + delta e)),
      (N.ltb_spec (center_distance (running_min_rank s) e) (best_overlap_distance s)); cbn [andb]; split_and!; auto; lia. }
  destruct Hstep as (Hs1 & Hs2 & Hs3). split_and!; [lia| |].
  - intros l1 e' l2 Hl Hm. destruct l1 as [|x l1]; cbn in Hl; injection Hl as -> ->; cbn [gaps foldr] in *.
    + rewrite N.add_0_r in *. specialize (Hs2 Hm). lia.
    + fold (gaps l1) in *. rewrite N.add_assoc, <-Hrun in *. by apply (IH2 l1 e' l2).
  - destruct IH3 as [[-> ->]|(l1 & e' & l2 & -> & Hm & Hb & Hd)].
    + destruct Hs3 as [?|(Hm & Hb & Hd)]; [by left|right]. exists [], e, l. cbn. rewrite N.add_0_r. done.
    + right. exists (e :: l1), e', l2. cbn [gaps foldr]. fold (gaps l1). rewrite N.add_assoc, <-Hrun. done.
Qed.
End scan.

Section answer.
Context (threshold e target : N) (values : list f32) (l : list GkSummaryEntry).
Hypothesis Hs : summarizes threshold values l.
Hypothesis Hthreshold : (threshold <= 2 * e)%N.
Hypothesis Htarget : (1 <= target <= len values)%N.

(** Some entry's whole interval is in the window. *)
Lemma inside_entry : exists l1 x l2, l = l1 ++ x :: l2
  /\ (target - e <= gaps l1 + gap x)%N /\ (gaps l1 + gap x + delta x <= target + e)%N.
Proof.
  destruct Hs as [Hr _ [Hfirst Hlast] _].
  assert (forall l2 l1 x, l = l1 ++ x :: l2 -> (gaps l1 + gap x + delta x <= target + e)%N ->
    exists l1 x l2, l = l1 ++ x :: l2 /\ (target - e <= gaps l1 + gap x)%N /\ (gaps l1 + gap x + delta x <= target + e)%N) as Hgo.
  { intros l2. induction l2 as [|y l2 IH]; intros l1 x Hl Hx.
    - exists l1, x, []. split_and!; [done| |done]. rewrite Hl in Hr, Hlast. apply ranks_gaps in Hr.
      unfold gaps in Hr. rewrite foldr_app in Hr. cbn [foldr] in Hr.
      enough (foldr (fun e n => gap e + n) (gap x + 0) l1 = gaps l1 + gap x)%N by lia.
      clear. unfold gaps. induction l1 as [|z l1 IH]; cbn; [lia|]. rewrite IH. lia.
    - destruct (N.le_gt_cases (gaps (l1 ++ [x]) + gap y + delta y) (target + e)) as [Hle|Hgt].
      + apply (IH (l1 ++ [x]) y); [by rewrite <-app_assoc|done].
      + exists l1, x, (y :: l2). split_and!; [done| |done]. rewrite Hl in Hr.
        assert (gaps (l1 ++ [x]) = gaps l1 + gap x)%N as Hg.
        { clear. unfold gaps. rewrite foldr_app. cbn [foldr]. rewrite N.add_0_r. induction l1 as [|z l1 IH]; cbn; [lia|]. rewrite IH. lia. }
        apply ranks_app in Hr as (r & _ & Hr). inversion Hr as [|? ? ? ? _ _ _ _ Hr2]; subst. inversion Hr2; subst. lia. }
  destruct l as [|x l0] eqn:Hl.
  { inversion Hr. unfold len in *. lia. }
  destruct (Hfirst x eq_refl) as [Hg Hd]. apply (Hgo l0 [] x); [done|]. cbn. rewrite Hg, Hd. inversion Hr; subst. lia.
Qed.

Lemma answer_accurate s :
  s = fold_left (scan_entry target (N.max (target - e) 1) (N.min (target + e) (len values))) l
        {| running_min_rank := 0; best_overlap := None; best_overlap_distance := USIZE_MAX;
           fallback_value := None; fallback_distance := USIZE_MAX |} ->
  (e < USIZE_MAX)%N ->
  exists value, best_overlap s = Some value /\ value ∈ values
    /\ (target <= count_le (key value) values + 2 * e)%N /\ (count_lt (key value) values + 1 <= target + 2 * e)%N.
Proof.
  intros -> He. destruct (scan_spec target (N.max (target - e) 1) (N.min (target + e) (len values)) l
    {| running_min_rank := 0; best_overlap := None; best_overlap_distance := USIZE_MAX;
       fallback_value := None; fallback_distance := USIZE_MAX |}) as (_ & Hmin & Hbest).
  cbn [running_min_rank best_overlap best_overlap_distance] in *. set (s := fold_left _ _ _) in *.
  destruct inside_entry as (l1 & x & l2 & Hl & Hx1 & Hx2). pose proof Hs as [Hr _ _ Hin].
  assert (best_overlap_distance s <= e)%N as Hd.
  { etrans; [apply (Hmin l1 x l2 Hl)|].
    - unfold meets. rewrite N.add_0_l. rewrite Hl in Hr. pose proof Hr as Hr'. apply ranks_app in Hr as (r & Hr1 & Hr).
      apply ranks_gaps in Hr1. inversion Hr as [|? ? ? ? Hg _ _ _ Hrest]; subst.
      pose proof (ranks_le _ _ _ _ _ Hrest). lia.
    - unfold center_distance, abs_diff. assert (delta x / 2 <= delta x)%N as Hhalf by (apply N.Div0.div_le_upper_bound; lia).
      revert Hhalf. clear -Hx1 Hx2. generalize (delta x / 2)%N. intros h Hhalf.
      destruct (N.ltb_spec (0 + gaps l1 + gap x + h) target); lia. }
  destruct Hbest as [[_ Heq]|(k1 & y & k2 & Hk & Hm & -> & Hy)]; [rewrite Heq in Hd; lia|].
  exists (entry_value y). split; [done|]. split.
  { rewrite Hk in Hin. rewrite Forall_app, Forall_cons in Hin. tauto. }
  rewrite Hk in Hr. apply ranks_app in Hr as (r & Hr1 & Hr). apply ranks_gaps in Hr1.
  inversion Hr as [|? ? ? ? Hg Hgd Hle Hlt _]; subst. rewrite N.add_0_l in *.
  rewrite Hy in Hd. unfold center_distance, abs_diff in Hd.
  assert (2 * (delta y / 2) <= delta y /\ delta y <= 2 * (delta y / 2) + 1)%N as Hhalf.
  { pose proof (N.div_mod (delta y) 2 ltac:(done)) as Hdm. pose proof (N.mod_lt (delta y) 2 ltac:(done)) as Hml. revert Hdm Hml.
    generalize (delta y / 2)%N, (delta y mod 2)%N. clear. intros q m ? ?. lia. }
  revert Hd Hhalf. generalize (delta y / 2)%N. intros h. destruct (N.ltb_spec (gaps k1 + gap y + h) target); lia.
Qed.
End answer.

(** ** A pass of the planner *)
Lemma observe_all values : forall p seen, good p seen ->
  let q := fold_left quantile_observe values p in
  good q (seen ++ values) /\ targets q = targets p /\ max_rank_error_denominator q = max_rank_error_denominator p.
Proof.
  induction values as [|v values IH]; intros p seen Hp; cbn [fold_left].
  - by rewrite app_nil_r.
  - destruct (observe_good p seen v Hp) as (Hq & Ht & Hd & _). destruct (IH _ _ Hq) as (Hg & -> & ->).
    by rewrite <-app_assoc in Hg.
Qed.

Lemma div_ceil_bounds a b : (0 < b)%N -> (a <= b * div_ceil_N a b)%N /\ (b * div_ceil_N a b < a + b)%N.
Proof.
  intros Hb. unfold div_ceil_N. pose proof (N.div_mod a b ltac:(lia)) as Hd. pose proof (N.mod_lt a b ltac:(lia)) as Hm. revert Hd Hm.
  generalize (a / b)%N, (a mod b)%N. intros q m -> ?. destruct (N.eqb_spec m 0); lia.
Qed.

Lemma threshold_error p : (0 < observed p)%N -> (compress_threshold p <= 2 * rank_error p)%N.
Proof.
  intros Hn. unfold compress_threshold, rank_error, saturating_mul. set (d := N.max (max_rank_error_denominator p) 1). assert (0 < d)%N by (unfold d; lia).
  destruct (div_ceil_bounds (observed p) d) as [Hup _]; [done|]. revert Hup.
  generalize (div_ceil_N (observed p) d). intros c Hup. apply N.max_lub.
  - apply N.Div0.div_le_upper_bound. lia.
  - destruct (N.eqb_spec c 0) as [->|]; lia.
Qed.

(** The value answered for a rank, in a summary of the values. *)
Lemma quantile_accurate p values target : good p values -> (1 <= target <= len values)%N -> (len values < USIZE_MAX)%N ->
  (1 < max_rank_error_denominator p)%N ->
  exists value, approximate_quantile_value p target = Ok value /\ value ∈ values
    /\ (target <= count_le (key value) values + 2 * rank_error p)%N
    /\ (count_lt (key value) values + 1 <= target + 2 * rank_error p)%N.
Proof.
  intros [Hn Hs] Ht Hmax Hd. unfold approximate_quantile_value, saturating_sub, saturating_add.
  assert (rank_error p <= len values)%N as He.
  { unfold rank_error. rewrite N.max_l by lia. destruct (div_ceil_bounds (observed p) (max_rank_error_denominator p)) as [_ Hup]; [lia|].
    rewrite Hn in *. revert Hup. generalize (div_ceil_N (len values) (max_rank_error_denominator p)) as c. intros c Hup.
    destruct (N.le_gt_cases c (len values)); [done|]. exfalso.
    pose proof (N.mul_le_mono (max_rank_error_denominator p) (max_rank_error_denominator p) (len values + 1) c). nia. }
  rewrite Hn. replace (N.max (len values) 1) with (len values) by lia.
  replace (N.min (N.min USIZE_MAX (target + rank_error p)) (len values)) with (N.min (target + rank_error p) (len values)) by lia.
  destruct (answer_accurate (compress_threshold p) (rank_error p) target values (summary p) Hs (threshold_error p ltac:(lia))
    Ht _ eq_refl) as (value & Hv & Hin & H1 & H2); [lia|].
  rewrite Hv. by exists value.
Qed.

(** ** Directional PCA: the density cuts

    The cut loop always has a valley to cut at while a segment has two buckets: its
    segments always tile the histogram, so it ends with as many cuts as asked for, or
    one between every two buckets, and nothing is read outside a list. *)

Lemma peaks_length running l : length (peaks running l) = length l.
Proof. revert running. induction l as [|x l IH]; intros running; cbn; [done|]. by rewrite IH. Qed.

Lemma smooth_ok counts : exists smoothed, smooth_histogram counts = Ok smoothed /\ length smoothed = length counts.
Proof.
  unfold smooth_histogram. assert (returns (fun l => length l = length counts) (smooth_histogram counts)) as Hr.
  { apply returns_ok.
    - apply collect_map_no_panic. intros i Hi%list_elem_of_In%in_seq. unfold smooth_at.
      destruct (lookup_lt_is_Some_2 counts i) as [x ->]; [lia|]. cbn [expect rbind]. np.
      + destruct (lookup_lt_is_Some_2 counts (i - 1)) as [y ->]; [lia|done].
      + apply Nat.ltb_lt in Heqb. destruct (lookup_lt_is_Some_2 counts (i + 1)) as [y ->]; [lia|done].
    - intros l Hl%collect_map_length. by rewrite length_seq in Hl. }
  unfold smooth_histogram in Hr. destruct (collect_map _ _) as [l|e|] eqn:He; [by exists l| |done].
  exfalso. apply collect_map_err in He as (i & _ & He). unfold smooth_at in He.
  destruct (counts !! i); [|done]. cbn [expect rbind] in He.
  destruct (0 <? i)%nat; [destruct (counts !! (i - 1)%nat); [|done]|]; cbn [expect rbind] in He;
    (destruct (i + 1 <? length counts)%nat; [by destruct (counts !! (i + 1)%nat)|done]).
Qed.

(** ** One segment *)
Lemma valley_loop smoothed left_peaks right_peaks start stop best l :
  length left_peaks = (stop - start)%nat -> length right_peaks = (stop - start)%nat -> (stop <= length smoothed)%nat ->
  (forall b, b ∈ l -> start < b < stop)%nat -> (forall v, best = Some v -> start < v.1.1 < stop)%nat ->
  exists r, try_fold (valley_at smoothed left_peaks right_peaks start) best l = Ok r
    /\ (forall v, r = Some v -> start < v.1.1 < stop)%nat /\ (l <> [] \/ best <> None -> r <> None).
Proof.
  intros Hl Hr Hs. revert best. induction l as [|b l IH]; intros best Hin Hbest; cbn [try_fold].
  { exists best. split_and!; [done..|]. by intros [?|?]. }
  specialize (Hin b ltac:(set_solver)) as Hb. unfold valley_at at 1.
  destruct (lookup_lt_is_Some_2 smoothed (b - 1)) as [x ->]; [lia|]. cbn [expect rbind].
  destruct (lookup_lt_is_Some_2 smoothed b) as [y ->]; [lia|]. cbn [expect rbind].
  destruct (lookup_lt_is_Some_2 left_peaks (b - start - 1)) as [z ->]; [lia|]. cbn [expect rbind].
  destruct (lookup_lt_is_Some_2 right_peaks (b - start)) as [w ->]; [lia|]. cbn [expect rbind].
  match goal with |- context [match best with None => ?c | _ => _ end] => assert (c.1.1 = b) as Hc by done; generalize dependent c end.
  intros candidate Hc.
  edestruct IH as (r & -> & Hv & Hn); [set_solver| |exists r; split_and!; [done..|]].
  - intros v Heq. apply (inj Some) in Heq as <-. destruct best as [v0|]; [|lia]. destruct (better _ _); [lia|by apply Hbest].
  - intros _. apply Hn. by right.
Qed.

Lemma best_valley smoothed start stop : (start + 2 <= stop)%nat -> (stop <= length smoothed)%nat ->
  exists v, best_bucket_valley smoothed start stop = Ok (Some v) /\ (start < v.1.1 < stop)%nat.
Proof.
  intros Hss Hs. unfold best_bucket_valley. rewrite (proj2 (Nat.leb_gt _ _)) by lia. rewrite (proj2 (Nat.leb_le _ _)) by done.
  cbn [rbind]. edestruct valley_loop as (r & -> & Hv & Hn);
    [rewrite peaks_length| rewrite length_rev, peaks_length, length_rev| exact Hs| | |].
  - rewrite length_take, length_drop. lia.
  - rewrite length_take, length_drop. lia.
  - intros b Hb%list_elem_of_In%in_seq. lia.
  - done.
  - destruct r as [v|]; [exists v; split; [done|by apply Hv]|]. exfalso. apply Hn; [|done]. left.
    destruct (stop - (start + 1))%nat eqn:He; [lia|done].
Qed.

(** ** The segments *)
Definition block (s : nat * nat) : list nat := seq s.1 (s.2 - s.1).
Record tiles (n : nat) (segments : list (nat * nat)) (cuts : list nat) : Prop := {
  tile_bounds : Forall (fun s => s.1 < s.2 <= n)%nat segments;
  tile_cover : concat (map block segments) ≡ₚ seq 0 n;
  tile_starts : map fst segments ≡ₚ 0%nat :: cuts
}.

Lemma concat_Permutation {A} (l k : list (list A)) : l ≡ₚ k -> concat l ≡ₚ concat k.
Proof.
  induction 1 as [|x l k _ IH|x y l|l k m _ IH1 _ IH2]; cbn; [done|by rewrite IH| |by etrans].
  rewrite !app_assoc. by rewrite (Permutation_app_comm x y).
Qed.
Lemma tiles_Permutation n l k cuts : l ≡ₚ k -> tiles n l cuts -> tiles n k cuts.
Proof.
  intros Hp [Hb Hc Hs]. split.
  - by rewrite <-Hp.
  - rewrite <-Hc. apply concat_Permutation. by rewrite Hp.
  - rewrite <-Hs. by rewrite Hp.
Qed.

Lemma tiles_split n start stop b rest cuts : (start < b < stop)%nat ->
  tiles n ((start, stop) :: rest) cuts -> tiles n ((start, b) :: (b, stop) :: rest) (b :: cuts).
Proof.
  intros Hb [Hbd Hc Hs]. apply Forall_cons in Hbd as [Hh Hbd]. cbn in *. split.
  - repeat constructor; cbn; [lia..|done].
  - cbn [map concat]. rewrite <-Hc. rewrite app_assoc. apply Permutation_app_tail. unfold block. cbn [fst snd].
    replace (stop - start)%nat with ((b - start) + (stop - b))%nat by lia. rewrite seq_app. by replace (start + (b - start))%nat with b by lia.
  - cbn. etrans; [apply perm_swap|]. etrans; [apply perm_skip; exact Hs|]. apply perm_swap.
Qed.

Lemma concat_map_length l : Forall (fun s => s.1 < s.2)%nat l -> (length l <= length (concat (map block l)))%nat
  /\ (Forall (fun s => s.2 <= s.1 + 1)%nat l -> length (concat (map block l)) = length l).
Proof.
  induction 1 as [|s l Hs _ [IH1 IH2]]; cbn; [done|]. rewrite length_app. unfold block at 1 3. rewrite !length_seq. split; [lia|].
  intros [H1 H2]%Forall_cons. rewrite IH2 by done. lia.
Qed.

Lemma tiles_count n segments cuts : tiles n segments cuts ->
  (length cuts + 1 <= n)%nat /\ (Forall (fun s => s.2 <= s.1 + 1)%nat segments -> (length cuts + 1 = n)%nat).
Proof.
  intros [Hb Hc Hs]. apply Permutation_length in Hc, Hs. rewrite length_seq in Hc. rewrite length_map in Hs. cbn in Hs.
  destruct (concat_map_length segments) as [H1 H2]; [eapply Forall_impl; [exact Hb|]; cbn; lia|].
  split; [lia|]. intros Hf. specialize (H2 Hf). lia.
Qed.

(** Different cuts, each between two buckets. *)
Lemma tiles_cuts n segments cuts : tiles n segments cuts -> NoDup cuts /\ (forall b, b ∈ cuts -> 0 < b < n)%nat.
Proof.
  intros [Hb Hc Hs].
  assert (NoDup (map fst segments)) as Hn.
  { assert (NoDup (concat (map block segments))) as Hnd by (rewrite Hc; apply NoDup_seq).
    clear Hc Hs. induction segments as [|[s e] l IH]; [constructor|]. apply Forall_cons in Hb as [Hse Hb]. cbn in *.
    apply NoDup_app in Hnd as (_ & Hdis & Hnd). constructor; [|by apply IH].
    intros [[s' e'] [Hfst Hin]]%list_elem_of_fmap. cbn in Hfst. subst s'. rewrite Forall_forall in Hb. specialize (Hb _ Hin). cbn in Hb.
    apply (Hdis s); [apply list_elem_of_In, in_seq; lia|].
    apply list_elem_of_In, in_concat. exists (block (s, e')). split; [apply in_map; by apply list_elem_of_In|].
    apply in_seq. cbn. lia. }
  rewrite Hs in Hn. apply NoDup_cons in Hn as [H0 Hn]. split; [done|]. intros b Hin.
  assert (b ∈ map fst segments) as [s [-> Hseg]]%list_elem_of_fmap by (rewrite Hs; by right).
  rewrite Forall_forall in Hb. specialize (Hb s Hseg). destruct (decide (s.1 = 0)%nat) as [Hz|]; [|lia]. congruence.
Qed.

(** ** The loop *)
Lemma segment_loop smoothed l : forall best,
  Forall (fun p => p.2.1 < p.2.2 <= length smoothed)%nat l ->
  (forall i v, best = Some (i, v) -> exists s, s.1 < v.1.1 < s.2)%nat ->
  exists r, try_fold (segment_valley smoothed) best l = Ok r
    /\ (forall i v, r = Some (i, v) -> best = Some (i, v) \/ exists s, (i, s) ∈ l /\ s.1 < v.1.1 < s.2)%nat
    /\ (r = None -> Forall (fun p => p.2.2 <= p.2.1 + 1)%nat l).
Proof.
  induction l as [|[i [start stop]] l IH]; intros best Hl Hbest; cbn [try_fold].
  { exists best. split_and!; [done| |done]. intros. by left. }
  apply Forall_cons in Hl as [Hs Hl]. cbn in Hs. unfold segment_valley at 1.
  destruct (Nat.leb_spec (stop - start) 1) as [Hle|Hgt].
  - destruct (IH best Hl Hbest) as (r & Hr & Hv & Hn). exists r. split_and!; [done| |].
    + intros j v Hj. destruct (Hv j v Hj) as [?|(s & ? & ?)]; [by left|]. right. exists s. split; [set_solver|done].
    + intros Hnone. constructor; [cbn; lia|by apply Hn].
  - destruct (best_valley smoothed start stop) as (c & -> & Hc); [lia..|]. cbn [rbind].
    match goal with |- context [try_fold _ ?b l] => set (best' := b) end.
    assert (best' = best \/ best' = Some (i, c)) as Hb'.
    { unfold best'. destruct best as [[j v]|]; [destruct (better c v)|]; auto. }
    assert (best' <> None) as Hn'. { unfold best'. destruct best as [[j v]|]; [by destruct (better c v)|done]. }
    clearbody best'. destruct (IH best' Hl) as (r & Hr & Hv & Hn).
    { intros j v Hj. destruct Hb' as [->| ->]; [by eapply Hbest|]. simplify_eq. by exists (start, stop). }
    exists r. split_and!; [done| |].
    + intros j v Hj. destruct (Hv j v Hj) as [Hbb|(s & ? & ?)].
      * destruct Hb' as [Heq|Heq]; rewrite Heq in Hbb; [by left|]. right. exists (start, stop). simplify_eq. split; [set_solver|done].
      * right. exists s. split; [set_solver|done].
    + intros ->. exfalso. clear -Hr Hn'. revert best' Hn' Hr. induction l as [|[j [s e]] l IH]; intros best' Hn' Hr; cbn in Hr.
      * congruence.
      * apply rbind_ok in Hr as (b1 & H1 & Hr). apply (IH b1); [|done]. unfold segment_valley in H1.
        destruct (e - s <=? 1)%nat; [congruence|]. apply rbind_ok in H1 as (c & _ & H1). injection H1 as <-.
        destruct c as [c|], best' as [[k v]|]; try done. by destruct (better c v).
Qed.

Lemma cut_spec smoothed n fuel : forall wanted segments cuts, length smoothed = n -> tiles n segments cuts ->
  (len cuts <= wanted)%N -> (n < fuel + length cuts)%nat ->
  exists cuts' segments', cut_segments smoothed fuel wanted segments cuts = Ok cuts' /\ tiles n segments' cuts'
    /\ len cuts' = N.min wanted (N.of_nat n - 1).
Proof.
  induction fuel as [|fuel IH]; intros wanted segments cuts Hlen Ht Hw Hf; destruct (tiles_count _ _ _ Ht) as [Hc1 Hc2]; [lia|].
  cbn [cut_segments]. destruct (N.ltb_spec (len cuts) wanted) as [Hlt|Hge].
  2: { exists cuts, segments. split_and!; [done..|]. unfold len in *. lia. }
  destruct (segment_loop smoothed (imap pair segments) (@None (nat * valley))) as (r & -> & Hv & Hn); [|done|].
  { apply Forall_forall. intros [i s] Hi. rewrite Hlen. apply list_elem_of_lookup in Hi as [j Hj]. rewrite list_lookup_imap in Hj.
    destruct (segments !! j) as [s'|] eqn:Hs; [|done]. cbn in Hj. simplify_eq. by eapply (Forall_lookup_1 _ _ _ _ (tile_bounds _ _ _ Ht)). }
  cbn [rbind]. destruct r as [[i [[b density] depth]]|].
  - destruct (Hv i _ eq_refl) as [?|([start stop] & Hin & Hb)]; [done|]. cbn [fst snd] in Hb.
    apply list_elem_of_lookup in Hin as [j Hj]. rewrite list_lookup_imap in Hj. destruct (segments !! j) as [s|] eqn:Hs; [|done].
    cbn in Hj. simplify_eq. unfold remove_at. rewrite Hs. cbn [expect rbind].
    apply IH; [done| | |cbn [length]; lia].
    + eapply tiles_Permutation; [symmetry; apply sort_by_Permutation|]. eapply tiles_Permutation; [symmetry; apply Permutation_app_comm|].
      apply (tiles_split _ start stop); [done|]. eapply tiles_Permutation; [|exact Ht]. by apply delete_Permutation.
    + unfold len in *. cbn [length]. lia.
  - exists cuts, segments. split_and!; [done..|]. enough (length cuts + 1 = n)%nat by (unfold len in *; lia). apply Hc2.
    specialize (Hn eq_refl). apply Forall_lookup_2. intros j s Hs. apply (Forall_lookup_1 _ _ j (j, s)) in Hn; [done|].
    by rewrite list_lookup_imap, Hs.
Qed.

(** ** The histogram *)

(** [n] as a number: a mantissa that stands for exactly [n]. *)
Lemma small_count_decode n : (1 <= n <= 255)%Z -> exists m e,
  decode binary64 (f_of_Z binary64 n) = S754_finite false m e /\ (-52 <= e <= 0)%Z /\ (Zpos m = n * 2 ^ (- e))%Z.
Proof.
  intros Hn. assert (forallb (fun k => let n := Z.of_nat k in
    match decode binary64 (f_of_Z binary64 n) with
    | S754_finite false m e => ((-52 <=? e) && (e <=? 0) && (Zpos m =? n * 2 ^ (- e)))%Z
    | _ => false
    end) (seq 1 255) = true) as Hall by (vm_compute; reflexivity).
  rewrite forallb_forall in Hall. specialize (Hall (Z.to_nat n) ltac:(apply in_seq; lia)). cbn zeta in Hall.
  rewrite Z2Nat.id in Hall by lia. destruct (decode _ _) as [|[]| |[] m e]; try done.
  rewrite !andb_true_iff, !Z.leb_le, Z.eqb_eq in Hall. exists m, e. split; [done|]. lia.
Qed.

(** A share of the range: not above one. *)
Lemma clamp_share x : match decode binary64 (f64_clamp x 0 f64_one) with
  | S754_finite s m e => s = false /\ (Zpos m < 2 ^ 53)%Z /\ below 1 (Zpos m) e
  | S754_zero _ | S754_nan => True
  | S754_infinity _ => False
  end.
Proof.
  assert (decode binary64 f64_one = S754_finite false (2 ^ 52) (-52)) as Hone by (vm_compute; reflexivity).
  unfold f64_clamp, fltb. rewrite Hone. change (decode binary64 0) with (S754_zero false).
  destruct (SFltb (decode binary64 x) (S754_zero false)) eqn:Hlow; [done|].
  destruct (SFltb (S754_finite false (2 ^ 52) (-52)) (decode binary64 x)) eqn:Hhigh.
  { rewrite Hone. split_and!; [done|done|]. split; [done|]. done. }
  destruct (decode binary64 x) as [s|s| |s m e] eqn:Hx; [done| |done|]; [by destruct s|].
  destruct s; [done|]. pose proof (decode_mantissa _ _ _ _ _ Hx) as Hm. change (2 ^ (mant_bits binary64 + 1))%N with (2 ^ 53)%N in Hm.
  destruct (not_above (2 ^ 52) m (-52) e ltac:(done) ltac:(done) ltac:(lia) Hhigh) as [He Hq].
  split_and!; [done|lia|]. split; [lia|]. change (Zpos (2 ^ 52) / 2 ^ (- -52))%Z with 1%Z in Hq.
  destruct (Z.eq_dec e (-52)) as [->|Hne].
  - unfold SFltb in Hhigh. cbn [SFcompare] in Hhigh. change (Z.compare (-52) (-52)) with Eq in Hhigh.
    change (PosDef.Pos.compare_cont Eq (2 ^ 52) m) with (Pos.compare (2 ^ 52) m) in Hhigh.
    destruct (Pos.compare_spec (2 ^ 52) m); [lia|done|lia].
  - pose proof (Z.pow_le_mono_r 2 53 (- e)). lia.
Qed.

Lemma bucket_in_range minimum maximum n value : (1 <= n <= 256)%N -> (histogram_bucket_index minimum maximum n value < n)%N.
Proof.
  intros Hn. unfold histogram_bucket_index. destruct (N.leb_spec n 1) as [|H1]; [cbn; lia|]. cbn [orb].
  destruct (fleb _ _ _); [lia|]. set (share := f64_clamp _ _ _). pose proof (clamp_share (fdiv binary64 (fsub binary64 value minimum) (fsub binary64 maximum minimum))) as Hs.
  fold share in Hs. clearbody share. destruct (small_count_decode (Z.of_N (n - 1)) ltac:(lia)) as (k & u & Hk & Hu & Hku).
  enough (Z.of_N (f64_as_usize (f64_round (fmul binary64 share (f_of_Z binary64 (Z.of_N (n - 1)))))) <= Z.of_N (n - 1))%Z by lia.
  apply round_as_usize_below; [lia|]. unfold fmul. rewrite Hk. destruct (decode binary64 share) as [s|s| |s m e]; try done.
  - by destruct s.
  - destruct Hs as (-> & Hm & He & Hb). cbn [SFmul xorb]. change (prec binary64) with 53%Z. change (emax binary64) with 1024%Z.
    assert (below (Z.of_N (n - 1)) (Zpos (m * k)) (e + u)) as Hbel.
    { split; [lia|]. rewrite Pos2Z.inj_mul, Hku. replace (- (e + u))%Z with (- e + - u)%Z by lia. rewrite Z.pow_add_r by lia.
      rewrite Z.mul_1_l in Hb. pose proof (Z.pow_pos_nonneg 2 (- u)). nia. }
    pose proof (round_below (Z.of_N (n - 1)) (m * k) (e + u) ltac:(lia) Hbel) as Hr.
    destruct (binary_round_aux _ _ _ _ _ _) as [s|s| |s m' e']; [by destruct s|done|done|].
    destruct Hr as (-> & Hm' & He' & Hb'). pose proof (decode_encode_below (Z.of_N (n - 1)) m' e' Hm' He' Hb') as Hd.
    match type of Hd with match ?d with _ => _ end => destruct d end; [done..|]. destruct Hd as (? & _ & ?). done.
Qed.

(** ** Both density passes *)
Definition edges (minimum maximum : f32) (n : nat) (cuts : list f32) : Prop :=
  exists buckets, NoDup buckets /\ (forall b, b ∈ buckets -> 0 < b < n)%nat /\ cuts ≡ₚ map (bucket_edge_value minimum maximum n) buckets.

Lemma select_cuts minimum maximum counts bin_count : (2 <= length counts)%nat ->
  exists cuts, select_histogram_valley_cut_values minimum maximum counts bin_count = Ok cuts
    /\ edges minimum maximum (length counts) cuts
    /\ len cuts = if fleb binary32 maximum minimum then 0%N else N.min (bin_count - 1) (len counts - 1).
Proof.
  intros Hn. unfold select_histogram_valley_cut_values, saturating_sub. destruct (fleb binary32 maximum minimum) eqn:Hle; cbn [orb].
  { exists []. split_and!; [done| |done]. exists []. split_and!; [constructor| |done]. set_solver. }
  destruct (N.leb_spec bin_count 1) as [Hb|Hb].
  { exists []. split_and!; [done| |unfold len in *; cbn; lia]. exists []. split_and!; [constructor| |done]. set_solver. }
  destruct (smooth_ok counts) as (smoothed & -> & Hs). cbn [rbind].
  destruct (cut_spec smoothed (length counts) (S (length counts)) (bin_count - 1) [(0%nat, length counts)] []) as (cuts & segments & -> & Ht & Hl).
  { done. }
  { split; [repeat constructor; cbn; lia|cbn; rewrite app_nil_r; unfold block; cbn; by rewrite Nat.sub_0_r|done]. }
  { unfold len. cbn. lia. }
  { cbn. lia. }
  cbn [rbind]. set (values := sort_by _ _). destruct (tiles_cuts _ _ _ Ht) as [Hnd Hin].
  assert (values ≡ₚ map (bucket_edge_value minimum maximum (length counts)) cuts) as Hp.
  { unfold values. etrans; [apply sort_by_Permutation|]. apply Permutation_map. symmetry. apply Permutation_rev. }
  assert (len values = N.min (bin_count - 1) (len counts - 1)) as Hlen.
  { unfold len in *. rewrite Hp, length_map. exact Hl. }
  rewrite bool_decide_eq_false_2.
  2: { intros Hnil. rewrite Hnil in Hlen. unfold len in Hlen. cbn in Hlen. lia. }
  exists values. split_and!; [done| |done]. by exists cuts.
Qed.

Lemma histogram_pass p values : (2 <= length (counts p) <= 256)%nat ->
  exists q, try_fold histogram_observe p values = Ok q /\ low q = low p /\ high q = high p /\ bin_count q = bin_count p
    /\ length (counts q) = length (counts p).
Proof.
  revert p. induction values as [|v values IH]; intros p Hp; cbn [try_fold].
  { by exists p. }
  unfold histogram_observe at 1.
  pose proof (bucket_in_range (f64_of_f32 (low p)) (f64_of_f32 (high p)) (len (counts p)) (f64_of_f32 v) ltac:(unfold len; lia)) as Hr.
  destruct (lookup_lt_is_Some_2 (counts p) (N.to_nat (histogram_bucket_index (f64_of_f32 (low p)) (f64_of_f32 (high p)) (len (counts p)) (f64_of_f32 v)))) as [c ->].
  { unfold len in *. lia. }
  cbn [expect rbind]. edestruct IH as (q & -> & H1 & H2 & H3 & H4); [cbn; by rewrite length_insert|].
  exists q. cbn in *. rewrite length_insert in H4. by split_and!.
Qed.
