(* ===== verification/DpcaCells.v ===== *)
(** * Directional PCA: cells and clusters

    The map of the cells stays in the order of its keys; the plan made from it numbers
    the clusters without gaps ([planned_from]) and gives no cell more clusters than it
    has items; an item's cluster is read off its cell and how many of the cell came
    before, and replaying a data set fills every cluster as planned.

    Then: directional PCA: the bins of the axes. *)
From S2P Require Import Prelude Ordering Hash Ieee Clustering Pca PcaCodec PcaCorrect DpcaPlanner DpcaPlan DirectionalPca.

#[export] Instance key_total : TotalCmp key_cmp.
Proof. apply list_cmp_total, _. Qed.

Lemma key_cmp_eq k k' : key_cmp k k' = Eq -> k = k'.
Proof.
  unfold key_cmp. revert k'. induction k as [|x k IH]; intros [|y k']; cbn; try done.
  destruct (N.compare_spec x y) as [->| |]; cbn; try done. by intros ->%IH.
Qed.

(** ** The plan *)
Definition cell_clusters (c : ReadyCellPlan) : N := (1 + extra_clusters c)%N.
Definition clusters (l : list ReadyCellPlan) : N := foldr (fun c n => cell_clusters c + n)%N 0%N l.

(** The clusters of the cells from [offset] on, without gaps, each cell with at least
    one item for each of its clusters. *)
Inductive planned_from : N -> list ReadyCellPlan -> Prop :=
| planned_nil offset : planned_from offset []
| planned_cons offset c l :
    cluster_offset c = offset -> (extra_clusters c < cell_count c)%N ->
    planned_from (offset + cell_clusters c) l -> planned_from offset (c :: l).

Definition summary_ok (dims : nat) (s : CellDuplicateSummary) : Prop :=
  (1 <= summary_count s)%N /\ length (coordinate_sums s) = dims /\ length (coordinate_sum_squares s) = dims.
Definition ascending_keys {V} (f : V -> list N) (l : list V) : Prop := StronglySorted (fun a b => key_cmp (f a) (f b) = Lt) l.
Record cells_ok (dims : nat) (m : cell_map) : Prop := {
  map_sorted : ascending_keys fst m; map_summaries : Forall (fun p => summary_ok dims p.2) m
}.

Definition extras (l : list ReadyCellPlan) : N := foldr (fun c n => extra_clusters c + n)%N 0%N l.
Lemma clusters_extras l : clusters l = (len l + extras l)%N.
Proof. induction l as [|c l IH]; [done|]. unfold clusters, extras, len in *. cbn [foldr length]. rewrite IH. unfold cell_clusters. lia. Qed.

Lemma plan_cells dims m : forall shortfall offset planned, Forall (fun p => summary_ok dims p.2) m ->
  let '(shortfall', _, planned') := fold_left plan_cell m (shortfall, offset, planned) in
  exists l, planned' = planned ++ l /\ planned_from offset l /\ map cell_key l = map fst m
    /\ (shortfall' + extras l = shortfall)%N
    /\ Forall2 (fun c p => cell_count c = summary_count p.2) l m.
Proof.
  induction m as [|[key s] m IH]; intros shortfall offset planned Hm; cbn [fold_left].
  { exists []. rewrite app_nil_r. split_and!; [done|constructor|done|cbn; lia|constructor]. }
  apply Forall_cons in Hm as [Hs Hm]. unfold plan_cell at 2. set (extra := if _ : bool then _ else _).
  assert (extra <= shortfall /\ extra < summary_count s)%N as [Hex Hec].
  { destruct Hs as [Hs _]. cbn in Hs. unfold extra, saturating_sub. destruct (_ && _); lia. }
  set (c := {| cell_key := key; cell_count := summary_count s; extra_clusters := extra; cluster_offset := offset |}).
  specialize (IH (shortfall - extra)%N (offset + (1 + extra))%N (planned ++ [c]) Hm).
  destruct (fold_left _ _ _) as [[short' off'] planned']. destruct IH as (l & -> & Hp & Hk & Hsum & Hc).
  exists (c :: l). rewrite <-app_assoc. split_and!; [done|by constructor|cbn; by rewrite Hk|cbn; fold (extras l); lia|by constructor].
Qed.

(** What a ready plan is; [requested] clusters, all of them in the exact mode. *)
Record plan_ok (mode : DirectionalPcaClusterCardinalityMode) (requested : N) (l : list ReadyCellPlan) : Prop := {
  plan_numbered : planned_from 0 l; plan_sorted : ascending_keys cell_key l;
  plan_clusters : (clusters l <= requested)%N; plan_exact : mode = Exact -> clusters l = requested; plan_nonempty : l <> []
}.

Lemma sorted_map {V W} (f : V -> list N) (g : W -> list N) l k : map f l = map g k -> ascending_keys g k -> ascending_keys f l.
Proof.
  intros Hm Hk. revert l Hm. induction Hk as [|w k _ IH Hw]; intros [|v l] Hm; try done; [constructor|].
  cbn in Hm. injection Hm as Hv Hm. constructor; [by apply IH|]. rewrite Forall_forall in Hw. apply Forall_forall. intros x Hx.
  assert (f x ∈ map f l) as Hin by by apply list_elem_of_fmap_2. rewrite Hm in Hin. apply list_elem_of_fmap in Hin as (y & -> & Hy).
  rewrite Hv. by apply Hw.
Qed.

Lemma ready_plan_ok dims p m requested mode : cells_ok dims m -> m <> [] -> (len m <= requested)%N ->
  returns (fun r => partition r = p /\ plan_ok mode requested (cells r)
    /\ Forall2 (fun c q => cell_key c = q.1 /\ cell_count c = summary_count q.2) (cells r) m)
    (build_ready_partition_plan p m requested mode).
Proof.
  intros [Hsort Hsum] Hne Hlen. unfold build_ready_partition_plan. pose proof (plan_cells dims m (saturating_sub requested (len m)) 0 [] Hsum) as Hp.
  destruct (fold_left _ _ _) as [[short' off'] planned']. destruct Hp as (l & -> & Hpl & Hk & Hs & Hc). cbn [app].
  apply returns_guard. intros Hg%negb_true_iff. cbn [returns partition cells]. split; [done|].
  assert (length l = length m) as Hll by (by apply Forall2_length in Hc). unfold saturating_sub in Hs. split.
  - split; [done|by eapply sorted_map| | |].
    + rewrite clusters_extras. unfold len in *. lia.
    + intros ->. cbn in Hg. apply N.ltb_ge in Hg. rewrite clusters_extras. unfold len in *. lia.
    + intros ->. by destruct m.
  - clear -Hk Hc. induction Hc as [|c q l m Hcq Hc IH]; [constructor|]. cbn in Hk. injection Hk as Hk1 Hk2. constructor; [done|by apply IH].
Qed.

(** ** Counting *)
Lemma summary_observe_ok dims s coordinates : length (coordinate_sums s) = dims -> length (coordinate_sum_squares s) = dims ->
  (length coordinates <= dims)%nat -> exists s', summary_observe s coordinates = Ok s' /\ summary_ok dims s' /\ summary_count s' = (summary_count s + 1)%N.
Proof.
  intros H1 H2 Hl. unfold summary_observe. set (s0 := Build_CellDuplicateSummary _ _ _).
  set (good s' := summary_ok dims s' /\ summary_count s' = (summary_count s + 1)%N).
  assert (good s0) as Hs0 by (unfold good, summary_ok; cbn; split_and!; [lia|done..]).
  match goal with |- context [try_fold ?f s0 ?l] => destruct (fold_succeeds (fun _ => good) f l 0 s0 Hs0) as (s' & -> & Hg) end.
  - intros j [i v] s1 Hj ((Hc & Hd1 & Hd2) & Hn). apply list_elem_of_lookup_2, list_find_index, lookup_lt_Some in Hj. unfold add_at.
    destruct (lookup_lt_is_Some_2 (coordinate_sums s1) i) as [x ->]; [lia|]. cbn [expect rbind].
    destruct (lookup_lt_is_Some_2 (coordinate_sum_squares s1) i) as [y ->]; [lia|]. cbn [expect rbind].
    eexists. split; [done|]. unfold good, summary_ok. cbn [summary_count coordinate_sums coordinate_sum_squares]. by rewrite !length_insert.
  - exists s'. split; [done|]. exact Hg.
Qed.

Lemma fresh_summary dims : length (coordinate_sums (CellDuplicateSummary_new dims)) = N.to_nat dims
  /\ length (coordinate_sum_squares (CellDuplicateSummary_new dims)) = N.to_nat dims.
Proof. cbn. by rewrite length_replicate. Qed.

Lemma observe_cell_ok dims key coordinates m : cells_ok (N.to_nat dims) m -> (length coordinates <= N.to_nat dims)%nat ->
  exists m', observe_cell key (CellDuplicateSummary_new dims) coordinates m = Ok m' /\ cells_ok (N.to_nat dims) m' /\ m' <> []
    /\ (forall k, k ∈ map fst m' <-> k = key \/ k ∈ map fst m).
Proof.
  intros [Hs Hm] Hl. destruct (fresh_summary dims) as [Hf1 Hf2].
  destruct (summary_observe_ok _ _ coordinates Hf1 Hf2 Hl) as (fresh & Hfresh & Hfok & _).
  induction m as [|[k s] m IH]; cbn [observe_cell].
  { rewrite Hfresh. cbn [rbind]. eexists. split; [done|]. split_and!; [|done|cbn; set_solver].
    split; [repeat constructor|repeat constructor; apply Hfok]. }
  apply Forall_cons in Hm as [Hks Hm]. pose proof Hs as Hs0. inversion Hs as [|? ? Hs' Hall]; subst. destruct (key_cmp key k) eqn:Hc.
  - destruct Hks as (Hn & Hd1 & Hd2). destruct (summary_observe_ok _ s coordinates Hd1 Hd2 Hl) as (s' & -> & Hs'ok & _). cbn [rbind].
    eexists. split; [done|]. split_and!; [|done|].
    + split; [constructor; [done|exact Hall]|by constructor].
    + intros k'. cbn. rewrite elem_of_cons. assert (key = k) as ->; [|set_solver]. by apply key_cmp_eq.
  - rewrite Hfresh. cbn [rbind]. eexists. split; [done|]. split_and!; [|done|cbn; set_solver].
    split; [|constructor; [exact Hfok|by constructor]]. constructor; [done|]. constructor; [done|]. eapply Forall_impl; [exact Hall|].
    cbn. intros [k' s'] Hk'. cbn in *. by apply (cmp_lt_Transitive key_cmp key k k').
  - destruct (IH Hs' Hm) as (m' & -> & [Hsm Hmm] & Hne & Hin). cbn [rbind]. eexists. split; [done|]. split_and!; [|done|].
    + split; [|by constructor]. constructor; [done|]. apply Forall_forall. intros [k' s'] Hk'.
      assert (k' ∈ map fst m') as Hin' by (by apply (list_elem_of_fmap_2 fst) in Hk').
      apply Hin in Hin' as [->|Hin']; cbn; [by apply (cmp_gt_lt key_cmp)|].
      apply list_elem_of_fmap in Hin' as ([k2 s2] & -> & H2). rewrite Forall_forall in Hall. by apply (Hall (k2, s2)).
    + intros k'. cbn. rewrite !elem_of_cons, Hin. tauto.
Qed.

(** ** Finding a cell *)
Lemma cells_ascending l key : ascending_keys cell_key l -> ascending (fun c => key_cmp (cell_key c) key) l.
Proof.
  intros Hl i j x y Hij Hx Hy. destruct (decide (i = j)) as [->|Hne]; [simplify_eq; done|].
  assert (cmp_lt key_cmp (cell_key x) (cell_key y)) as Hlt.
  { unfold ascending_keys in Hl. revert i j Hij Hne Hx Hy. induction Hl as [|z l _ IH Hz]; intros i j Hij Hne Hx Hy; [done|].
    destruct i as [|i], j as [|j]; [lia| |lia|].
    - injection Hx as <-. rewrite Forall_lookup in Hz. by eapply Hz.
    - apply (IH i j); [lia|lia|done|done]. }
  split.
  - intros Hg%(cmp_gt_lt key_cmp). apply (cmp_gt_lt key_cmp). by apply (cmp_lt_Transitive key_cmp key (cell_key x) (cell_key y)).
  - intros Hk. by apply (cmp_lt_Transitive key_cmp (cell_key x) (cell_key y) key).
Qed.

Lemma find_cell_spec l key missing : ascending_keys cell_key l ->
  (exists i c, Trainer.find_cell l key missing = Ok i /\ l !! i = Some c /\ cell_key c = key)
  \/ (Trainer.find_cell l key missing = Err (unsatisfiable_constraint missing) /\ key ∉ map cell_key l).
Proof.
  intros Hl. unfold Trainer.find_cell. pose proof (binary_search_complete _ l (cells_ascending l key Hl)) as Hs.
  destruct (binary_search_by _ l) as [i|k|]; [left|right|done].
  - destruct (l !! i) as [c|] eqn:Hc; [|done]. cbn in Hs. injection Hs as Hk%key_cmp_eq. by exists i, c.
  - destruct Hs as (_ & Hlow & Hhigh). split; [done|]. intros Hin%list_elem_of_fmap. destruct Hin as (c & -> & [j Hj]%list_elem_of_lookup).
    assert (key_cmp (cell_key c) (cell_key c) = Eq) as He by (apply (cmp_refl key_cmp)).
    destruct (decide (j < k)%nat); [specialize (Hlow j c ltac:(lia) Hj)|specialize (Hhigh j c ltac:(lia) Hj)]; congruence.
Qed.

(** ** Clusters of a cell *)
Definition slot (c : ReadyCellPlan) (seen : N) : N :=
  (if seen <? cell_count c - extra_clusters c then cluster_offset c
   else cluster_offset c + 1 + (seen - (cell_count c - extra_clusters c)))%N.

Lemma cluster_of_slot c seen : (extra_clusters c < cell_count c)%N -> cluster_of c seen = Ok (slot c seen).
Proof. intros Hc. unfold cluster_of, checked_sub. rewrite (proj2 (N.leb_le _ _)) by lia. done. Qed.

Lemma planned_lookup offset l i c : planned_from offset l -> l !! i = Some c ->
  (extra_clusters c < cell_count c)%N /\ (offset <= cluster_offset c)%N /\ (cluster_offset c + cell_clusters c <= offset + clusters l)%N.
Proof.
  intros Hl. revert i. induction Hl as [|offset c' l Ho He _ IH]; intros i Hi; [done|]. unfold clusters in *. cbn [foldr]. destruct i as [|i]; cbn in Hi.
  - injection Hi as <-. split; [done|]. lia.
  - destruct (IH i Hi) as (? & ? & ?). split; [done|]. lia.
Qed.
Lemma slot_bound c seen : (extra_clusters c < cell_count c)%N -> (seen < cell_count c)%N ->
  (cluster_offset c <= slot c seen < cluster_offset c + cell_clusters c)%N.
Proof. intros He Hs. unfold slot, cell_clusters. destruct (N.ltb_spec seen (cell_count c - extra_clusters c)); lia. Qed.

(** The clusters of the first items of a cell, and of every cell. *)
Definition slots (c : ReadyCellPlan) (n : N) : list N := map (fun j => slot c (N.of_nat j)) (seq 0 (N.to_nat n)).
Definition filled (l : list ReadyCellPlan) (counts : list N) : list N := concat (zip_with slots l counts).

Lemma slots_succ c n : slots c (n + 1) = slots c n ++ [slot c n].
Proof. unfold slots. replace (N.to_nat (n + 1)) with (S (N.to_nat n)) by lia. rewrite seq_S, map_app. cbn. by rewrite N2Nat.id. Qed.

Lemma filled_step l counts i c n : l !! i = Some c -> counts !! i = Some n ->
  filled l (<[i := (n + 1)%N]> counts) ≡ₚ slot c n :: filled l counts.
Proof.
  unfold filled. revert i counts. induction l as [|c' l IH]; intros i [|n' counts] Hc Hn; try done.
  destruct i as [|i]; cbn in *.
  - simplify_eq. rewrite slots_succ, <-app_assoc. symmetry. apply Permutation_middle.
  - rewrite (IH i counts Hc Hn). by rewrite Permutation_middle.
Qed.

(** What the plan promises: each cluster as often as its size says. *)
Definition child_counts (l : list ReadyCellPlan) : list N :=
  concat (map (fun c => (cell_count c - extra_clusters c)%N :: replicate (N.to_nat (extra_clusters c)) 1%N) l).
Definition planned_assignments (sizes : list N) : list N :=
  concat (imap (fun k n => replicate (N.to_nat n) (N.of_nat k)) sizes).

Definition assignments_from (offset : N) (sizes : list N) : list N :=
  concat (imap (fun k n => replicate (N.to_nat n) (offset + N.of_nat k)%N) sizes).
Lemma assignments_app offset l k : assignments_from offset (l ++ k) = assignments_from offset l ++ assignments_from (offset + len l) k.
Proof.
  unfold assignments_from. rewrite imap_app, concat_app. f_equal. f_equal. apply imap_ext. intros i x _. f_equal. unfold len. lia.
Qed.
Lemma assignments_ones offset n : assignments_from offset (replicate n 1%N) = map (fun j => (offset + N.of_nat j)%N) (seq 0 n).
Proof.
  induction n as [|n IH]; [done|]. rewrite replicate_S_end, assignments_app, IH, seq_S, map_app. f_equal.
  unfold assignments_from, len. rewrite length_replicate. cbn. by rewrite N.add_0_r.
Qed.

Lemma map_constant {A B} (f : A -> B) v l : (forall x, In x l -> f x = v) -> map f l = replicate (length l) v.
Proof. induction l as [|x l IH]; intros Hf; [done|]. cbn. f_equal; [apply Hf; by left|]. apply IH. intros y Hy. apply Hf. by right. Qed.

Lemma slots_full offset c : cluster_offset c = offset -> (extra_clusters c < cell_count c)%N ->
  slots c (cell_count c) = assignments_from offset ((cell_count c - extra_clusters c)%N :: replicate (N.to_nat (extra_clusters c)) 1%N).
Proof.
  intros <- He. change (?x :: replicate ?a ?b) with ([x] ++ replicate a b). rewrite assignments_app, assignments_ones. unfold slots.
  replace (N.to_nat (cell_count c)) with (N.to_nat (cell_count c - extra_clusters c) + N.to_nat (extra_clusters c))%nat by lia.
  rewrite seq_app, map_app. f_equal.
  - unfold assignments_from. cbn. rewrite app_nil_r, N.add_0_r.
    rewrite (map_constant _ (cluster_offset c)), length_seq; [done|].
    intros j Hj%in_seq. unfold slot. by rewrite (proj2 (N.ltb_lt _ _)) by lia.
  - unfold len. cbn [length]. rewrite Nat.add_0_l. rewrite <-(Nat.add_0_r (N.to_nat (cell_count c - extra_clusters c))) at 1.
    rewrite <-fmap_add_seq. change (map ?f ?l) with (f <$> l). rewrite <-list_fmap_compose. apply map_ext_in. intros j Hj%in_seq.
    cbn. unfold slot. rewrite (proj2 (N.ltb_ge _ _)) by lia. lia.
Qed.

Lemma filled_full offset l : planned_from offset l -> filled l (map cell_count l) = assignments_from offset (child_counts l).
Proof.
  unfold filled, child_counts. induction 1 as [|offset c l Ho He Hl IH]; [done|]. cbn [map zip_with concat].
  rewrite assignments_app, IH, (slots_full offset c Ho He). f_equal. f_equal. unfold cell_clusters, len. cbn [length].
  rewrite length_replicate. lia.
Qed.

Lemma slots_prefix c n m : (n <= m)%N -> exists k, slots c m = slots c n ++ k.
Proof.
  intros Hnm. unfold slots. replace (N.to_nat m) with (N.to_nat n + (N.to_nat m - N.to_nat n))%nat by lia.
  rewrite seq_app, map_app. by eexists.
Qed.
Lemma filled_mono l counts : Forall2 (fun c n => n <= cell_count c)%N l counts -> filled l counts ⊆+ filled l (map cell_count l).
Proof.
  unfold filled. induction 1 as [|c n l counts Hn _ IH]; [done|]. cbn. destruct (slots_prefix c n (cell_count c) Hn) as [k ->].
  apply submseteq_app; [|exact IH]. by apply submseteq_inserts_r.
Qed.
Lemma filled_zero l : filled l (map (fun _ => 0%N) l) = [].
Proof. unfold filled. induction l as [|c l IH]; [done|]. cbn. by rewrite IH. Qed.

(** ** Replaying *)
Section replay.
Context `{ShowFloat}.

(** The items replayed one after the other: the clusters assigned, and the state after. *)
Fixpoint replay_all (c : DirectionalPcaStreamingClassifier) (items : list (list f32)) (s : Classifier.DirectionalPcaReplayState)
  : list N * Classifier.DirectionalPcaReplayState :=
  match items with
  | [] => ([], s)
  | item :: items =>
      let '(r, s) := Classifier.replay_assign c item s in
      let '(assigned, s) := replay_all c items s in
      (match r with Ok cluster => cluster :: assigned | _ => assigned end, s)
  end.

Section plan.
Context (mode : DirectionalPcaClusterCardinalityMode) (requested : N) (c : DirectionalPcaStreamingClassifier) (plan : ReadyPartitionPlan).
Hypothesis Hplan : Classifier.replay_plan c = Some plan.
Hypothesis Hok : plan_ok mode requested (cells plan).
Hypothesis Hrequested : (requested <= 2 ^ 32)%N.

Definition counts_ok (counts : list N) : Prop := Forall2 (fun c n => n <= cell_count c)%N (cells plan) counts.

Lemma replay_step_filled embedding counts cluster counts' : counts_ok counts ->
  Classifier.replay_step plan embedding counts = Ok (cluster, counts') ->
  counts_ok counts' /\ filled (cells plan) counts' ≡ₚ cluster :: filled (cells plan) counts.
Proof.
  intros Hc Hs. unfold Classifier.replay_step in Hs. inv_oks. simplify_eq.
  match goal with Hf : Trainer.find_cell _ _ _ = Ok ?i, Hs : expect (cells plan !! _) = Ok ?k, Hn : expect (counts !! _) = Ok ?m |- _ =>
    set (index := i) in *; set (cell := k) in *; set (seen := m) in * end.
  destruct (cells plan !! index) as [cell'|] eqn:Hcell; [|done]. destruct (counts !! index) as [seen'|] eqn:Hseen; [|done].
  cbn [expect] in *. simplify_eq. fold cell in Hcell. fold seen in Hseen.
  destruct (planned_lookup _ _ _ _ (plan_numbered _ _ _ Hok) Hcell) as (He & _ & Hup).
  match goal with Hx : (_ <? _)%N = true |- _ => apply N.ltb_lt in Hx as Hlt end.
  match goal with Hx : cluster_of _ _ = Ok _ |- _ => rewrite cluster_of_slot in Hx by done; injection Hx as <- end.
  pose proof (slot_bound cell seen He Hlt). pose proof (plan_clusters _ _ _ Hok). rewrite N.mod_small by lia. split.
  - unfold counts_ok. rewrite <-(list_insert_id (cells plan) index cell Hcell) at 1. apply Forall2_insert; [exact Hc|lia].
  - by apply filled_step.
Qed.

Lemma replay_all_filled items : forall s, counts_ok (Classifier.seen_counts s) ->
  let '(assigned, s') := replay_all c items s in
  counts_ok (Classifier.seen_counts s') /\ filled (cells plan) (Classifier.seen_counts s') ≡ₚ assigned ++ filled (cells plan) (Classifier.seen_counts s).
Proof.
  induction items as [|item items IH]; intros s Hs; cbn [replay_all]; [done|].
  assert (Hstep : let '(r, s') := Classifier.replay_assign c item s in counts_ok (Classifier.seen_counts s')
    /\ filled (cells plan) (Classifier.seen_counts s') ≡ₚ match r with Ok cluster => [cluster] | _ => [] end ++ filled (cells plan) (Classifier.seen_counts s)).
  { unfold Classifier.replay_assign. rewrite Hplan. destruct (validate_embedding _ _); [|done|done].
    destruct (Classifier.replay_step _ _ _) as [[cluster counts']|e|] eqn:Hst; [|done|done]. cbn [Classifier.seen_counts].
    by apply (replay_step_filled item). }
  destruct (Classifier.replay_assign c item s) as [r s1]. destruct Hstep as [Hs1 Hp1]. specialize (IH s1 Hs1).
  destruct (replay_all c items s1) as [assigned s2]. destruct IH as [Hs2 Hp2]. split; [done|]. rewrite Hp2, Hp1.
  destruct r as [cluster|e|]; [|done|done]. cbn. by rewrite Permutation_middle.
Qed.

Lemma replay_fills items s : Classifier.new_replay_state c = Some s ->
  let assigned := fst (replay_all c items s) in
  assigned ⊆+ planned_assignments (child_counts (cells plan))
  /\ (length assigned = length (planned_assignments (child_counts (cells plan))) -> assigned ≡ₚ planned_assignments (child_counts (cells plan))).
Proof.
  unfold Classifier.new_replay_state. rewrite Hplan. cbn [option_map]. intros [= <-].
  assert (counts_ok (map (fun _ => 0%N) (cells plan))) as H0.
  { unfold counts_ok. clear. induction (cells plan) as [|x l IH]; cbn; [constructor|]. constructor; [lia|exact IH]. }
  pose proof (replay_all_filled items (Classifier.for_ready_partition plan) H0) as Hr.
  destruct (replay_all c items _) as [assigned s']. destruct Hr as [Hs' Hp]. cbn [Classifier.for_ready_partition Classifier.seen_counts fst] in *.
  rewrite filled_zero, app_nil_r in Hp. cbn zeta.
  assert (assigned ⊆+ planned_assignments (child_counts (cells plan))) as Hsub.
  { rewrite <-Hp. etrans; [by apply filled_mono|]. rewrite (filled_full 0 _ (plan_numbered _ _ _ Hok)). reflexivity. }
  split; [done|]. intros Hl. apply submseteq_length_Permutation; [done|lia].
Qed.
End plan.
End replay.

(** ** Directional PCA: the bins of the axes

    Every axis gets at least one bin. With the eigenvalue bits the bins multiply to the
    number of clusters asked for; with the weighted bins they add up to at most that. *)

Lemma power_of_two_spec n : is_power_of_two n = true -> n = (2 ^ N.log2 n)%N.
Proof.
  unfold is_power_of_two. intros [Hn%negb_true_iff%N.eqb_neq Hl%N.eqb_eq]%andb_prop.
  destruct n as [|p]; [done|]. clear Hn. enough (exists k, Npos p = 2 ^ k)%N as [k ->] by by rewrite N.log2_pow2 by lia.
  induction p as [p _|p IH|]; [| |by exists 0%N].
  - exfalso. apply (f_equal (fun x => N.testbit x (N.succ (N.log2 (Npos p))))) in Hl. rewrite N.land_spec, N.bits_0 in Hl.
    replace (Npos p~1 - 1)%N with (2 * Npos p)%N in Hl by lia. replace (Npos p~1) with (2 * Npos p + 1)%N in Hl by lia.
    rewrite N.testbit_odd_succ, N.testbit_even_succ, N.bit_log2 in Hl by lia. done.
  - destruct IH as [k Hk].
    + apply N.bits_inj. intros i. rewrite N.bits_0, N.land_spec. apply (f_equal (fun x => N.testbit x (N.succ i))) in Hl.
      rewrite N.land_spec, N.bits_0 in Hl. replace (Npos p~0 - 1)%N with (2 * (Npos p - 1) + 1)%N in Hl by lia.
      replace (Npos p~0) with (2 * Npos p)%N in Hl by lia. rewrite N.testbit_odd_succ, N.testbit_even_succ in Hl by lia. done.
    + exists (N.succ k). rewrite N.pow_succ_r', <-Hk. lia.
Qed.

Definition product_N (l : list N) : N := foldr N.mul 1%N l.

Section bins.
Context `{FloatMath}.

(** ** Bits *)
Lemma best_axis_in bit_budget l : forall best, (forall p, p ∈ l -> p.1 < length bit_budget)%nat -> (best.1 < length bit_budget)%nat ->
  exists r, try_fold (best_axis bit_budget) best l = Ok r /\ (r.1 < length bit_budget)%nat.
Proof.
  induction l as [|[axis w] l IH]; intros best Hl Hb; cbn [try_fold]; [by exists best|].
  specialize (Hl (axis, w) ltac:(set_solver)) as Ha. cbn in Ha. unfold best_axis at 1.
  destruct (lookup_lt_is_Some_2 bit_budget axis Ha) as [x ->]. cbn [expect rbind]. apply IH; [set_solver|]. by destruct (_ || _).
Qed.

Lemma give_bit_ok weights budget : length weights = length budget -> budget <> [] ->
  exists budget', give_bit weights budget = Ok budget' /\ length budget' = length budget /\ sum_N budget' = (sum_N budget + 1)%N.
Proof.
  intros Hl Hn. unfold give_bit. destruct (best_axis_in budget (imap pair weights) (0%nat, f64_neg_infinity)) as ([axis w] & -> & Ha).
  - intros [i w] Hi%list_find_index%lookup_lt_Some. cbn. lia.
  - cbn. destruct budget; cbn; [done|lia].
  - cbn [rbind]. cbn in Ha. destruct (lookup_lt_is_Some_2 budget axis Ha) as [x Hx]. rewrite Hx. cbn [expect rbind].
    eexists. split; [done|]. rewrite length_insert. split; [done|]. pose proof (sum_insert budget axis x (x + 1) Hx). lia.
Qed.

Lemma give_bits_ok weights n : forall k budget, length weights = length budget -> budget <> [] ->
  exists budget', try_fold (fun budget (_ : nat) => give_bit weights budget) budget (seq k n) = Ok budget'
    /\ length budget' = length budget /\ sum_N budget' = (sum_N budget + N.of_nat n)%N.
Proof.
  induction n as [|n IH]; intros k budget Hl Hn; cbn [seq try_fold].
  - exists budget. split_and!; [done|done|lia].
  - destruct (give_bit_ok weights budget Hl Hn) as (b1 & -> & Hl1 & Hs1). cbn [rbind].
    destruct (IH (S k) b1) as (b2 & -> & Hl2 & Hs2); [congruence|by destruct b1, budget|]. exists b2. split_and!; [done|congruence|lia].
Qed.

Lemma shift_bits l k : collect_map (fun bits => ok_or (shift_one bits) (invalid_configuration "allocated bit budget overflowed")) l = Ok k ->
  length k = length l /\ product_N k = (2 ^ sum_N l)%N /\ Forall (fun x => 1 <= x)%N k.
Proof.
  intros Hk%collect_map_ok. induction Hk as [|b x l k Hb _ (IH1 & IH2 & IH3)]; [done|].
  unfold shift_one in Hb. destruct (b <? 64)%N; [|done]. cbn in Hb. injection Hb as <-.
  assert (1 <= 2 ^ b)%N by (pose proof (N.pow_nonzero 2 b); lia).
  split_and!; [cbn; lia| |by constructor]. unfold product_N, sum_N in *. cbn [foldr]. rewrite IH2, N.pow_add_r. done.
Qed.

Lemma eigenvalue_bins_ok scores clusters : scores <> [] ->
  returns (fun bins => length bins = length scores /\ product_N bins = clusters /\ Forall (fun x => 1 <= x)%N bins)
    (allocate_axis_bins_from_eigenvalue_bits scores clusters).
Proof.
  intros Hn. unfold allocate_axis_bins_from_eigenvalue_bits. apply returns_guard. intros Hp%power_of_two_spec.
  destruct (N.eqb_spec (N.log2 clusters) 0) as [Hz|Hz].
  - cbn. rewrite length_map. split; [done|]. rewrite Hp, Hz. clear. split; [|apply Forall_map, Forall_true; lia].
    unfold product_N. induction scores as [|s scores IH]; [done|]. cbn [map foldr]. by rewrite IH.
  - destruct (give_bits_ok (map damped_score scores) (N.to_nat (N.log2 clusters)) 0 (map (fun _ => 0%N) scores)) as (budget & -> & Hl & Hs).
    { by rewrite !length_map. }
    { by destruct scores. }
    cbn [rbind]. apply returns_ok.
    + apply collect_map_no_panic. intros b _. apply ok_or_no_panic.
    + intros bins Hb%shift_bits. rewrite length_map in Hl. destruct Hb as (H1 & H2 & H3). split_and!; [congruence| |done].
      rewrite H2, Hs, N2Nat.id. etrans; [|symmetry; exact Hp]. f_equal. enough (sum_N (map (fun _ => 0%N) scores) = 0)%N as -> by lia.
      clear. unfold sum_N. induction scores as [|s scores IH]; [done|]. cbn [map foldr]. by rewrite IH.
Qed.

(** ** Weighted bins *)
Lemma spread_ok remainders : forall counts leftovers r, spread counts leftovers remainders = Ok r ->
  length r = length counts /\ (sum_N counts <= sum_N r <= sum_N counts + leftovers)%N
  /\ (Forall (fun x => 1 <= x)%N counts -> Forall (fun x => 1 <= x)%N r).
Proof.
  induction remainders as [|[i w] l IH]; intros counts leftovers r Hr; cbn [spread] in Hr.
  - injection Hr as <-. split_and!; [done|lia|lia|done].
  - destruct (N.eqb_spec leftovers 0) as [->|Hn]; [injection Hr as <-; split_and!; [done|lia|lia|done]|].
    destruct (counts !! i) as [x|] eqn:Hx; [|done]. cbn [expect rbind] in Hr. apply IH in Hr as (H1 & H2 & H3).
    rewrite length_insert in H1. pose proof (sum_insert counts i x (x + 1) Hx). split_and!; [done|lia|lia|].
    intros Hc. apply H3, Forall_insert; [done|lia].
Qed.
Lemma sum_usize_ok l : forall a r, try_fold (fun a b => expect (checked_add USIZE_MAX a b)) a l = (Ok r : outcome N) -> r = (a + sum_N l)%N.
Proof.
  induction l as [|x l IH]; intros a r Hr; cbn [try_fold] in Hr; [injection Hr as <-; unfold sum_N; cbn; lia|].
  unfold checked_add in Hr at 1. destruct (_ <=? _)%N; [|done]. cbn [expect rbind] in Hr. apply IH in Hr. unfold sum_N in *. cbn [foldr]. lia.
Qed.
Lemma add_base l base r : collect_map (fun p => expect (checked_add USIZE_MAX p.1 p.2)) (zip l base) = (Ok r : outcome (list N)) ->
  length l = length base -> length r = length l /\ sum_N r = (sum_N l + sum_N base)%N /\ (Forall (fun x => 1 <= x)%N l -> Forall (fun x => 1 <= x)%N r).
Proof.
  revert base r. induction l as [|x l IH]; intros [|b base] r Hr Hl; try done; cbn in Hr.
  { injection Hr as <-. done. }
  unfold checked_add in Hr at 1. destruct (_ <=? _)%N; [|done]. cbn [expect rbind] in Hr. inv_ok. subst r.
  destruct (IH base a Hok) as (H1 & H2 & H3); [cbn in Hl; lia|]. unfold sum_N in *. cbn [foldr length]. split_and!; [lia|lia|].
  intros [Hx Hf]%Forall_cons. constructor; [lia|auto].
Qed.

Lemma scores_returns centroid t params : shape_ok t -> variance_ok t -> len centroid = input_dim t ->
  returns (fun l => len l = output_dim t) (compute_axis_scores centroid t params).
Proof.
  intros Ht Hv Hc. unfold compute_axis_scores, variance_ok in *. destruct (explained_variance t) as [variances|]; [|done]. cbn [ok_or rbind].
  destruct Hv as [Hlv _]. destruct (log_bits _).
  - apply returns_ok; [apply collect_map_no_panic; intros p _; unfold finite_score; np|].
    intros l Hl%collect_map_length. rewrite length_imap in Hl. unfold len in *. lia.
  - apply returns_ok; [|intros l Hl%collect_map_length; rewrite length_seq in Hl; unfold len; lia].
    apply collect_map_no_panic. intros column Hcol%list_elem_of_In%in_seq. np.
    + unfold dot_with_basis_column. np. apply list_find_index, lookup_lt_Some in H0.
      destruct (entry_in (E := StreamingClusteringError) _ _ _ n column (shape_basis_nat t Ht)) as [xb ->]; [unfold len in Hc; lia|lia|done].
    + destruct (lookup_lt_is_Some_2 variances column) as [xv ->]; [unfold len in *; lia|done].
    + unfold finite_score. np.
Qed.

Lemma allocate_ok centroid t params clusters bins : shape_ok t -> variance_ok t -> len centroid = input_dim t ->
  allocate_axis_bins centroid t params clusters = Ok bins ->
  len bins = output_dim t /\ Forall (fun x => 1 <= x)%N bins
  /\ (if log_bits (allocation_policy params) then product_N bins = clusters else (sum_N bins <= clusters)%N).
Proof.
  intros Ht Hv Hc Hb. unfold allocate_axis_bins in Hb. apply rbind_ok in Hb as (scores & Hs & Hb).
  pose proof (scores_returns centroid t params Ht Hv Hc) as Hr. rewrite Hs in Hr. cbn in Hr.
  assert (scores <> []) as Hn by (intros ->; pose proof (shape_out t Ht); unfold len in Hr; cbn in Hr; lia).
  destruct (negb (len scores =? 0)%N); [|done]. destruct (log_bits _).
  - pose proof (eigenvalue_bins_ok scores clusters Hn) as He. rewrite Hb in He. destruct He as (H1 & H2 & H3). unfold len in *. split_and!; [lia|done..].
  - destruct (N.ltb_spec clusters (len scores)); [done|]. cbn [negb] in Hb. destruct (_ && _); [|done].
    set (counts0 := map (fun _ => 1%N) scores) in *.
    assert (length counts0 = length scores /\ sum_N counts0 = len scores /\ Forall (fun x => 1 <= x)%N counts0) as (Hl0 & Hs0 & Hf0).
    { unfold counts0. rewrite length_map. split; [done|]. split; [|apply Forall_map, Forall_true; lia].
      unfold sum_N, len. clear. induction scores as [|x l IH]; [done|]. cbn [map foldr length]. lia. }
    destruct (N.eqb_spec (clusters - len scores) 0).
    + injection Hb as <-. unfold len in *. split_and!; [lia|done|lia].
    + inv_ok. destruct (checked_sub _ _) as [left|] eqn:Hsub; [|done]. cbn [expect] in *. simplify_eq.
      unfold checked_sub in Hsub. destruct (N.leb_spec a0 (clusters - len scores)); [|done]. injection Hsub as Hleft.
      apply sum_usize_ok in Hok0. apply add_base in Hok as (Ha1 & Ha2 & Ha3); [|unfold counts0; by rewrite !length_map].
      apply spread_ok in Hb as (Hb1 & Hb2 & Hb3). unfold len in *. split_and!; [lia|auto|lia].
Qed.

Lemma allocate_log_bits centroid t params clusters : shape_ok t -> variance_ok t -> len centroid = input_dim t ->
  log_bits (allocation_policy params) = true -> no_panic (allocate_axis_bins centroid t params clusters).
Proof.
  intros Ht Hv Hc Hlog. unfold allocate_axis_bins. pose proof (scores_returns centroid t params Ht Hv Hc) as Hr.
  destruct (compute_axis_scores _ _ _) as [scores|e|]; [|done|done]. cbn [rbind]. cbn in Hr.
  destruct (N.eqb_spec (len scores) 0) as [|Hn]; [done|]. cbn [negb]. rewrite Hlog.
  intros Hp. pose proof (eigenvalue_bins_ok scores clusters ltac:(by intros ->)) as He. by rewrite Hp in He.
Qed.
End bins.
