(* ===== verification/DpcaTrainer.v ===== *)
(** * Directional PCA: what every call keeps

    The invariant of the trainer ([trainer_ok]): the phase, the pass in progress and the
    model belong together, their sizes agree, and the cached telemetry is what would be
    computed now. Every call keeps it, and panics only for the reasons named here. *)
From S2P Require Import Prelude Ordering Hash Ieee Clustering Pca PcaCodec PcaCorrect DpcaPlanner DpcaPlan DirectionalPca CutCorrect DpcaCells.

(** ** Planners *)
Definition planner_ok (p : AxisPlanner) : Prop :=
  match p with DensityHistogram h => (2 <= length (counts h) <= 256)%nat | _ => True end.

(** The passes a planner still needs; a pass takes one away. *)
Definition passes_left (p : AxisPlanner) : nat :=
  match p with Ready _ => 0 | QuantilePlanner _ | DensityHistogram _ => 1 | DensityMinMax _ => 2 end.

Lemma planner_observe_ok p v : planner_ok p -> exists q, planner_observe p v = Ok q /\ planner_ok q /\ passes_left q = passes_left p.
Proof.
  destruct p as [q|q|h|plan]; intros Hp; cbn [planner_observe]; try by eexists.
  destruct (histogram_pass h [v] Hp) as (q & Hq & _ & _ & _ & Hl). cbn [try_fold] in Hq. apply rbind_ok in Hq as (q' & -> & [= ->]).
  eexists. split; [done|]. cbn in *. split; [lia|done].
Qed.
Lemma observe_axes_ok planners coordinates : Forall planner_ok planners ->
  exists planners', Trainer.observe_axes planners coordinates = Ok planners' /\ Forall planner_ok planners'
    /\ map passes_left planners' = map passes_left planners.
Proof.
  intros Hp. revert coordinates. induction Hp as [|p l Hp Hl IH]; intros [|v coordinates]; cbn [Trainer.observe_axes]; try by eexists.
  { eexists. split; [done|]. split; [by constructor|done]. }
  destruct (planner_observe_ok p v Hp) as (q & -> & Hq & Hleft). cbn [rbind]. destruct (IH coordinates) as (l' & -> & Hl' & Hlen). cbn [rbind].
  eexists. split; [done|]. split; [by constructor|]. cbn. by rewrite Hlen, Hleft.
Qed.

Lemma planner_finish_ok p : planner_ok p -> returns (fun q => planner_ok q /\ passes_left q = pred (passes_left p)) (planner_finish_pass p).
Proof.
  destruct p as [q|q|h|plan]; intros Hp; cbn [planner_finish_pass passes_left pred].
  - unfold quantile_finish_pass. apply returns_guard. intros _. apply returns_ok; [|intros r Hr; by inv_ok; subst].
    np. unfold approximate_quantile_value. repeat case_match; [done|]. apply ok_or_no_panic.
  - cbn. split; [|done]. rewrite length_replicate. unfold DENSITY_VALLEY_HISTOGRAM_BUCKET_CAP. lia.
  - unfold histogram_finish_pass. destruct (select_cuts (low h) (high h) (counts h) (bin_count h)) as (cuts & -> & _); [cbn in Hp; lia|]. done.
  - done.
Qed.

Lemma finish_planners planners : Forall planner_ok planners ->
  returns (fun l => Forall planner_ok l /\ map passes_left l = map (fun p => pred (passes_left p)) planners) (collect_map planner_finish_pass planners).
Proof.
  intros Hp. eapply returns_weaken; [apply (returns_collect (fun p q => planner_ok q /\ passes_left q = pred (passes_left p)))|].
  - intros p Hin. rewrite Forall_forall in Hp. by apply planner_finish_ok, Hp.
  - cbv beta. intros l Hl. clear Hp. induction Hl as [|p q planners l [Hq Hleft] _ [IH1 IH2]]; [done|]. split; [by constructor|]. cbn. congruence.
Qed.
Lemma ready_left p : is_ready p = true <-> passes_left p = 0%nat.
Proof. by destruct p. Qed.
Lemma ready_plans planners : forallb is_ready planners = true -> length (omap Trainer.ready_plan planners) = length planners.
Proof.
  induction planners as [|p l IH]; [done|]. cbn. intros [Hp Hl]%andb_prop. destruct p; try done. cbn. by rewrite IH.
Qed.

(** ** The invariant *)
Section invariant.
Context `{ShowFloat} `{Sha256}.

Definition transform_fits (config : StreamingClusteringConfig) (t : PcaTransform) : Prop :=
  shape_ok t /\ variance_ok t /\ input_dim t = dimensions config.
Definition partition_ok (config : StreamingClusteringConfig) (p : PartitionPlan) : Prop :=
  transform_fits config (transform p) /\ len (axis_plans p) = output_dim (transform p).

Definition phase_ok (config : StreamingClusteringConfig) (params : DirectionalPcaParams) (p : ReplayPhase) : Prop :=
  match p with
  | AnalyzePca => True
  | PlanCuts replay => transform_fits config (analysis_transform (plan replay)) /\ Forall planner_ok (planners replay)
      /\ len (planners replay) = output_dim (analysis_transform (plan replay))
  | CountCells partition => partition_ok config partition
  | RealizePartition ready => partition_ok config (partition ready) /\ plan_ok (cluster_cardinality_mode params) (cluster_count config) (cells ready)
  end.

Definition stats_ok (config : StreamingClusteringConfig) (s : CellStats) : Prop := len (sums s) = dimensions config.
Definition active_ok (config : StreamingClusteringConfig) (phase : ReplayPhase) (pass : ActivePassState) : Prop :=
  match phase, pass with
  | AnalyzePca, ActiveAnalyzePca pass => acc_ok (accumulator pass) /\ acc_dim (accumulator pass) = dimensions config
  | PlanCuts replay, ActivePlanCuts pass => cut_plan pass = plan replay /\ Forall planner_ok (cut_planners pass)
      /\ map passes_left (cut_planners pass) = map passes_left (planners replay)
  | CountCells partition, ActiveCountCells pass => count_partition pass = partition
      /\ cells_ok (N.to_nat (output_dim (transform partition))) (cell_summaries pass)
  | RealizePartition r, ActiveRealizePartition pass => ready pass = r /\ length (cell_seen_counts pass) = length (cells r)
      /\ len (cell_stats pass) = clusters (cells r) /\ Forall (stats_ok config) (cell_stats pass)
  | _, _ => False
  end.

(** The model of a realized partition: a centroid for each of its clusters. *)
Definition model_ok (config : StreamingClusteringConfig) (phase : ReplayPhase) (m : DirectionalPcaModel) : Prop :=
  exists r, phase = RealizePartition r /\ len (model_centroids m) = clusters (cells r)
    /\ Forall (fun centroid => len centroid = dimensions config) (model_centroids m)
    /\ (forall plan, model_replay_plan m = Some plan -> plan = r).

Definition fresh_telemetry (t : DirectionalPcaStreamingTrainer) : DirectionalPcaTrainerTelemetry :=
  {| subphase := subphase_of (Trainer.phase t);
     telemetry_observed := option_map (fun p => tracked_count (active_tracker p)) (Trainer.active_pass t);
     detail := directional_pca_telemetry_detail (Trainer.phase t) (Trainer.active_pass t) |}.

Record trainer_ok (t : DirectionalPcaStreamingTrainer) : Prop := {
  ok_phase : phase_ok (Trainer.config t) (Trainer.params t) (Trainer.phase t);
  ok_active : forall pass, Trainer.active_pass t = Some pass -> active_ok (Trainer.config t) (Trainer.phase t) pass;
  ok_state : Trainer.state t = Ingesting -> is_Some (Trainer.active_pass t);
  ok_idle : Trainer.state t = Idle -> Trainer.phase t = AnalyzePca;
  ok_model : forall m, Trainer.model t = Some m -> model_ok (Trainer.config t) (Trainer.phase t) m;
  ok_done : Trainer.state t = TrainingComplete -> is_Some (Trainer.model t);
  ok_cache : forall c, Trainer.cached_telemetry t = Some c -> c = fresh_telemetry t;
  ok_dimensions : (dimensions (Trainer.config t) * dimensions (Trainer.config t) <= USIZE_MAX)%N
}.

(** ** Batches *)
Lemma each_spec {P X} (good : P -> Prop) (bad : P -> Prop) (f : X -> P -> outcome P) l :
  (forall x p, x ∈ l -> good p -> match f x p with Ok p' => good p' | Err _ => True | Panic => bad p end) ->
  forall p, good p -> good (Trainer.each f l p).2 /\ ((Trainer.each f l p).1 = Panic -> bad (Trainer.each f l p).2).
Proof.
  induction l as [|x l IH]; intros Hf p Hp; cbn [Trainer.each]; [done|].
  pose proof (Hf x p ltac:(set_solver) Hp) as Hx. destruct (f x p) as [p'|e|]; [|done|done].
  apply IH; [|done]. intros y q Hy. apply Hf. set_solver.
Qed.

(** A cell that already has all the items it was counted with. *)
Definition overfull (p : ActivePassState) : Prop :=
  match p with
  | ActiveRealizePartition pass => exists i c n, cells (ready pass) !! i = Some c /\ cell_seen_counts pass !! i = Some n /\ (cell_count c <= n)%N
  | _ => False
  end.

Lemma projected_ok t embeddings l : shape_ok t -> Trainer.project_embeddings_in_replay_order t embeddings = Ok l ->
  Forall (fun coordinates => len coordinates = output_dim t) l.
Proof.
  intros Ht Hl. unfold Trainer.project_embeddings_in_replay_order in Hl. apply collect_map_ok in Hl.
  induction Hl as [|v out vs l Hv _ IH]; [constructor|]. constructor; [|done]. pose proof (apply_returns t v) as Hr.
  destruct (apply t v); [|done|done]. cbn in Hv. injection Hv as <-. by destruct Hr.
Qed.
Lemma project_no_panic t embeddings : no_panic (Trainer.project_embeddings_in_replay_order t embeddings).
Proof.
  unfold Trainer.project_embeddings_in_replay_order. apply collect_map_no_panic. intros v _. apply map_err_no_panic. intros Hp.
  pose proof (apply_returns t v) as Hr. by rewrite Hp in Hr.
Qed.
Lemma validate_batch_no_panic embeddings dims : no_panic (Trainer.validate_batch embeddings dims).
Proof. unfold Trainer.validate_batch, validate_embedding. np. Qed.

Lemma assign_cell_ok p coordinates : len (axis_plans p) = len coordinates ->
  exists key, assign_point_to_cell p coordinates = Ok key /\ length key = length (axis_plans p).
Proof.
  intros Hl. assert (returns (fun key => length key = length (axis_plans p)) (assign_point_to_cell p coordinates)) as Hr.
  { apply returns_ok; [|intros key Hk%collect_map_length; by rewrite length_imap in Hk].
    apply collect_map_no_panic. intros [i plan] Hi%list_find_index%lookup_lt_Some. cbn. destruct plan as [|[|cut cuts]]; [done..|].
    destruct (lookup_lt_is_Some_2 coordinates i) as [v ->]; [unfold len in *; lia|done]. }
  destruct (assign_point_to_cell p coordinates) as [key|e|] eqn:He; [by exists key| |done]. exfalso.
  apply collect_map_err in He as ([i plan] & _ & He). cbn in He. destruct plan as [|[|cut cuts]]; [done..|]. by destruct (coordinates !! i).
Qed.

Lemma add_embedding_length sums embedding : length (add_embedding sums embedding) = length sums.
Proof. revert embedding. induction sums as [|s sums IH]; intros [|v e]; cbn; [done..|]. by rewrite IH. Qed.
Lemma ingest_partition_ok config mode requested r p v c : plan_ok mode requested (cells r) -> len (axis_plans (partition r)) = len c ->
  active_ok config (RealizePartition r) (ActiveRealizePartition p) ->
  match Trainer.ingest_partition (v, c) p with
  | Ok p' => active_ok config (RealizePartition r) (ActiveRealizePartition p')
  | Err _ => True
  | Panic => overfull (ActiveRealizePartition p)
  end.
Proof.
  intros Hplan Hc (Hr & Hseen & Hstats & Hdims). unfold Trainer.ingest_partition. rewrite Hr.
  destruct (assign_cell_ok (partition r) c Hc) as (key & -> & _). cbn [rbind].
  destruct (find_cell_spec (cells r) key "partition-ready cell plan was not stable" (plan_sorted _ _ _ Hplan))
    as [(i & cell & -> & Hi & _)|[-> _]]; [|done]. cbn [rbind]. rewrite Hi. cbn [expect rbind].
  destruct (lookup_lt_is_Some_2 (cell_seen_counts p) i) as [n Hn]; [apply lookup_lt_Some in Hi; lia|]. rewrite Hn. cbn [expect rbind].
  destruct (planned_lookup _ _ _ _ (plan_numbered _ _ _ Hplan) Hi) as (He & _ & Hup). rewrite cluster_of_slot by done. cbn [rbind].
  destruct (cell_stats p !! N.to_nat (slot cell n)) as [s|] eqn:Hs; cbn [expect rbind].
  - cbn. rewrite !length_insert. unfold len in *. rewrite length_insert. split_and!; [done..|]. apply Forall_insert; [done|].
    unfold stats_ok, len. cbn. rewrite add_embedding_length. by apply (Forall_lookup_1 _ _ _ _ Hdims Hs).
  - cbn. rewrite Hr. exists i, cell, n. split_and!; [done..|]. destruct (N.le_gt_cases (cell_count cell) n); [done|]. exfalso.
    pose proof (slot_bound cell n He ltac:(done)). apply lookup_ge_None in Hs. unfold len in Hstats. lia.
Qed.

Lemma ingest_active_ok config params phase pass embeddings :
  phase_ok config params phase -> active_ok config phase pass ->
  let r := Trainer.ingest_active (dimensions config) embeddings pass in
  active_ok config phase r.2 /\ (r.1 = Panic -> overfull r.2).
Proof.
  intros Hphase Hpass. unfold Trainer.ingest_active. pose proof (validate_batch_no_panic embeddings (dimensions config)) as Hvnp.
  destruct (Trainer.validate_batch _ _) as [[]|e|] eqn:Hvalid; [|done|done].
  destruct phase as [|replay|part|r], pass as [pass|pass|pass|pass]; try done; cbn in Hphase, Hpass.
  - pose proof (each_spec (fun p => acc_ok (accumulator p) /\ acc_dim (accumulator p) = dimensions config) (fun _ => False)
      Trainer.ingest_pca embeddings) as He. destruct (Trainer.each _ _ _) as [r p'] eqn:Hr in |- *. cbn.
    destruct (He) with (p := pass) as [H1 H2]; [|done|rewrite Hr in *; by split; [|intros Hp; destruct (H2 Hp)]].
    intros v p _ [Hacc Hd]. unfold Trainer.ingest_pca. pose proof (update_returns (accumulator p) v Hacc) as Hu.
    destruct (update _ _) as [a|e|]; [|done|done]. destruct Hu as (Hu1 & Hu2 & _). cbn. split; [done|congruence].
  - destruct Hpass as (Hplan & Hok & Hleft). destruct Hphase as ((Ht & _) & _). rewrite Hplan.
    pose proof (project_no_panic (analysis_transform (plan replay)) embeddings) as Hnp.
    destruct (Trainer.project_embeddings_in_replay_order _ _) as [coordinates|e|] eqn:Hproj; [|by cbn; rewrite Hplan|done].
    pose proof (each_spec (fun p => cut_plan p = plan replay /\ Forall planner_ok (cut_planners p)
      /\ map passes_left (cut_planners p) = map passes_left (planners replay)) (fun _ => False)
      Trainer.ingest_cuts (zip embeddings coordinates)) as He. destruct (Trainer.each _ _ _) as [x p'] eqn:Hx in |- *. cbn.
    destruct (He) with (p := pass) as [H1 H2]; [|done|rewrite Hx in *; by split; [|intros Hp; destruct (H2 Hp)]].
    intros [v c] p _ (H1 & H2 & H3). unfold Trainer.ingest_cuts. destruct (observe_axes_ok (cut_planners p) c H2) as (l & -> & Hl & Hleft').
    cbn. split_and!; [done..|congruence].
  - destruct Hpass as (Hpart & Hcells). destruct Hphase as ((Ht & _) & Haxes). rewrite Hpart.
    pose proof (project_no_panic (transform part) embeddings) as Hnp.
    destruct (Trainer.project_embeddings_in_replay_order _ _) as [coordinates|e|] eqn:Hproj; [|by cbn; rewrite Hpart|done].
    pose proof (projected_ok _ _ _ Ht Hproj) as Hlen.
    pose proof (each_spec (fun p => count_partition p = part /\ cells_ok (N.to_nat (output_dim (transform part))) (cell_summaries p)) (fun _ => False)
      Trainer.ingest_cells (zip embeddings coordinates)) as He. destruct (Trainer.each _ _ _) as [x p'] eqn:Hx in |- *. cbn.
    destruct (He) with (p := pass) as [H1 H2]; [|done|rewrite Hx in *; by split; [|intros Hp; destruct (H2 Hp)]].
    intros [v c] p Hin (H1 & H2). assert (len c = output_dim (transform part)) as Hc.
    { rewrite Forall_forall in Hlen. apply Hlen. by apply elem_of_zip_r in Hin. }
    unfold Trainer.ingest_cells. rewrite H1. destruct (assign_cell_ok part c ltac:(congruence)) as (key & -> & _). cbn [rbind].
    destruct (observe_cell_ok (output_dim (transform part)) key c (cell_summaries p) H2) as (m & -> & Hm & _); [unfold len in Hc; lia|].
    cbn. done.
  - destruct Hpass as (Hr & Hseen & Hstats & Hdims). destruct Hphase as (((Ht & _) & Haxes) & Hplan). rewrite Hr.
    pose proof (project_no_panic (transform (partition r)) embeddings) as Hnp.
    destruct (Trainer.project_embeddings_in_replay_order _ _) as [coordinates|e|] eqn:Hproj; [|by cbn; rewrite Hr|done].
    pose proof (projected_ok _ _ _ Ht Hproj) as Hlen.
    pose proof (each_spec (fun p => active_ok config (RealizePartition r) (ActiveRealizePartition p))
      (fun p => overfull (ActiveRealizePartition p)) Trainer.ingest_partition (zip embeddings coordinates)) as He.
    destruct (Trainer.each _ _ _) as [x p'] eqn:Hx in |- *.
    destruct (He) with (p := pass) as [H1 H2]; [|done|rewrite Hx in *; done].
    intros [v c] p Hin (H1 & H2 & H3 & H4). assert (len c = output_dim (transform (partition r))) as Hc.
    { rewrite Forall_forall in Hlen. apply Hlen. by apply elem_of_zip_r in Hin. }
    eapply ingest_partition_ok; [exact Hplan|congruence|done].
Qed.
(** ** Starting a pass *)
Lemma start_pass_ok config params phase : (dimensions config * dimensions config <= USIZE_MAX)%N -> phase_ok config params phase ->
  exists pass, Trainer.start_pass (dimensions config) phase = Ok pass /\ active_ok config phase pass.
Proof.
  intros Hd Hphase. destruct phase as [|replay|part|r]; cbn [Trainer.start_pass].
  - destruct (accumulator_new_ok _ Hd) as (acc & -> & Hacc & Hdim). cbn [map_err rbind]. by eexists.
  - eexists. split; [done|]. cbn in *. tauto.
  - eexists. split; [done|]. cbn. split; [done|]. split; constructor.
  - eexists. split; [done|]. cbn. rewrite length_map. split_and!; [done..| |].
    + unfold clusters, len. clear Hphase. induction (cells r) as [|c l IH]; [done|]. cbn [map concat foldr].
      rewrite length_app, length_replicate. unfold cell_clusters at 1. lia.
    + apply Forall_concat, Forall_map, Forall_true. intros c. apply Forall_replicate. unfold stats_ok, len. cbn. rewrite length_replicate. lia.
Qed.

Lemma cleared_ok t : trainer_ok t -> trainer_ok (Trainer.invalidate_cached_telemetry t).
Proof. intros [H1 H2 H3 H4 H5 H6 H7 H8]. split; cbn; try done. Qed.

(** ** Calls *)
Lemma dpca_ingest_ok t embeddings : trainer_ok t ->
  let r := Trainer.ingest_batch embeddings t in
  trainer_ok r.2 /\ Trainer.phase r.2 = Trainer.phase t
  /\ (r.1 = Panic -> exists pass, Trainer.active_pass r.2 = Some pass /\ overfull pass).
Proof.
  intros Ht.
  assert (Hgo : forall t', trainer_ok t' -> Trainer.state t' = Ingesting -> Trainer.phase t' = Trainer.phase t ->
    let r := (let t := Trainer.invalidate_cached_telemetry t' in
      match Trainer.active_pass t with
      | None => (Err (malformed_input "missing active directional-PCA pass state"), t)
      | Some pass => let '(r, pass) := Trainer.ingest_active (dimensions (Trainer.config t)) embeddings pass in
          (r, Trainer.set_active (Some pass) t)
      end) in
    trainer_ok r.2 /\ Trainer.phase r.2 = Trainer.phase t
    /\ (r.1 = Panic -> exists pass, Trainer.active_pass r.2 = Some pass /\ overfull pass)).
  { intros t' [H1 H2 H3 H4 H5 H6 H7 H8] Hst Hph. cbn zeta. cbn [Trainer.invalidate_cached_telemetry Trainer.set_cache Trainer.active_pass Trainer.config].
    destruct (H3 Hst) as [pass Hpass]. rewrite Hpass.
    pose proof (ingest_active_ok (Trainer.config t') (Trainer.params t') (Trainer.phase t') pass embeddings H1 (H2 pass Hpass)) as Hr.
    destruct (Trainer.ingest_active _ _ _) as [r pass']. cbn [fst snd] in *. destruct Hr as [Ha Hp]. split_and!.
    - split; cbn; try done; by intros ? [= <-].
    - done.
    - intros Hpanic. exists pass'. split; [done|]. by apply Hp. }
  assert (Hstart : let r := (match Trainer.ensure_active_pass t with
      | (Ok _, t) => (let t := Trainer.invalidate_cached_telemetry (Trainer.set_state Ingesting t) in
        match Trainer.active_pass t with
        | None => (Err (malformed_input "missing active directional-PCA pass state"), t)
        | Some pass => let '(r, pass) := Trainer.ingest_active (dimensions (Trainer.config t)) embeddings pass in
            (r, Trainer.set_active (Some pass) t)
        end)
      | (r, t) => (r, t) end) in
    trainer_ok r.2 /\ Trainer.phase r.2 = Trainer.phase t
    /\ (r.1 = Panic -> exists pass, Trainer.active_pass r.2 = Some pass /\ overfull pass)).
  { pose proof Ht as [H1 H2 H3 H4 H5 H6 H7 H8]. unfold Trainer.ensure_active_pass. destruct (Trainer.active_pass t) as [pass|] eqn:Hpass.
    - apply Hgo; [|done|done]. split; cbn; try done. by rewrite Hpass.
    - destruct (start_pass_ok _ _ _ H8 H1) as (pass & Hs & Hok). unfold Trainer.at_trainer. rewrite Hs. apply Hgo; [|done|done].
      split; cbn; try done; by intros ? [= <-]. }
  unfold Trainer.ingest_batch. pose proof Ht as [H1 H2 H3 H4 H5 H6 H7 H8].
  destruct (Trainer.state t) eqn:Hst; [exact Hstart|by apply Hgo|exact Hstart| |];
    cbn; (split; [split; cbn; try done|done]).
Qed.

Lemma telemetry_ok t : trainer_ok t -> (Trainer.telemetry t).1 = fresh_telemetry t /\ trainer_ok (Trainer.telemetry t).2.
Proof.
  intros Ht. pose proof Ht as [H1 H2 H3 H4 H5 H6 H7 H8]. unfold Trainer.telemetry. destruct (Trainer.cached_telemetry t) as [c|] eqn:Hc.
  - split; [by apply H7|done].
  - split; [done|]. split; cbn; try done. by intros ? [= <-].
Qed.

Lemma complete_ok t : trainer_ok t -> let r := Trainer.complete_training t in
  trainer_ok r.2 /\ no_panic r.1 /\ Trainer.phase r.2 = Trainer.phase t /\ (r.1 = Ok tt -> is_Some (Trainer.model r.2)).
Proof.
  intros Ht. pose proof Ht as [H1 H2 H3 H4 H5 H6 H7 H8]. unfold Trainer.complete_training. case_bool_decide as Hst; cbn.
  - destruct (Trainer.model t) as [m|] eqn:Hm; cbn; [|by split_and!].
    split_and!; [|done|done|by rewrite Hm]. split; cbn; try done; by rewrite Hm.
  - split_and!; [|done..]. split; cbn; done.
Qed.
End invariant.
