(* ===== verification/DpcaFinish.v ===== *)
(** * Directional PCA: finishing a pass, and the life of a trainer

    A finished pass keeps the invariant of the trainer and brings the model closer: five
    passes at most make it. The trainers that calls reach from a new one, each with the
    invariant; complete training runs; and the classifier at their end. *)
From S2P Require Import Prelude Ordering Hash Ieee Clustering Pca PcaCodec PcaCorrect DpcaPlanner DpcaPlan DirectionalPca CutCorrect DpcaCells DpcaTrainer.

Section finish.
Context `{ShowFloat} `{Sha256} `{FloatMath} `{SymmetricEigen} `{!EigenShape}.

(** The passes that are still needed for a model. *)
Definition phase_left (p : ReplayPhase) : nat :=
  match p with
  | AnalyzePca => 5
  | PlanCuts replay => 2 + Nat.max 1 (list_max (map passes_left (planners replay)))
  | CountCells _ => 2
  | RealizePartition _ => 1
  end.
Definition passes_needed (t : DirectionalPcaStreamingTrainer) : nat :=
  match Trainer.model t with Some _ => 0%nat | None => phase_left (Trainer.phase t) end.

(** What can go wrong beyond an error when a pass is finished: the weighted bins are
    computed in floating point, where their sum could pass the budget; and a rank could
    pass the width of a word if more items than that were counted. *)
Definition finish_may_panic (t : DirectionalPcaStreamingTrainer) : Prop :=
  exists pass, Trainer.active_pass t = Some (ActiveAnalyzePca pass)
    /\ (allocation_policy (Trainer.params t) = CentroidWeightedBins \/ (USIZE_MAX < tracked_count (pca_tracker pass))%N).

Lemma analyzed_returns acc t : acc_ok acc -> acc_dim acc = dimensions (Trainer.config t) ->
  returns (fun tr => transform_fits (Trainer.config t) tr) (Trainer.analyzed_transform acc t).
Proof.
  intros Hacc Hd. unfold Trainer.analyzed_transform. pose proof (pca_finalize_returns acc Hacc) as Hf.
  destruct (pca_finalize acc) as [tr|e|]; [|done|done]. cbn [map_err rbind]. destruct Hf as (Hv & Hi & Ho).
  destruct (validated_shape tr Hv) as [Hs Hvar]. pose proof (diagnostics_no_panic tr Hs) as Hdp.
  destruct (diagnostics tr) as [dg|e|]; [|done|done]. cbn [map_err rbind]. apply returns_guard. intros _.
  apply (returns_bind (fun _ => True)). { unfold resolve_retained_axis_count. by destruct (retained_axis_policy _); repeat case_match. }
  intros k _. apply returns_guard. intros _. pose proof (truncate_returns tr k Hs Hvar) as Ht.
  destruct (truncate tr k) as [r|e|]; [|done|done]. destruct Ht as (_ & _ & Hir & Hvr & _). cbn. destruct (validated_shape r Hvr).
  split_and!; [done..|congruence].
Qed.

Lemma target_ok bins total bin : (bin <= bins)%N -> (0 < bins)%N -> (total <= USIZE_MAX)%N -> no_panic (quantile_target bins total bin).
Proof.
  intros Hb Hp Ht. unfold quantile_target, usize_try_from. destruct (div_ceil_bounds (bin * total) bins Hp) as [_ Hup].
  revert Hup. generalize (div_ceil_N (bin * total) bins) as c. intros c Hup. assert (c <= total)%N.
  { destruct (N.le_gt_cases c total); [done|]. exfalso. pose proof (N.mul_le_mono_r bin bins total Hb).
    pose proof (N.mul_le_mono_l (total + 1) c bins). nia. }
  rewrite (proj2 (N.leb_le _ _)) by lia. done.
Qed.
Lemma new_planner_ok policy total bins p : Trainer.new_planner policy total bins = Ok p -> planner_ok p /\ (passes_left p <= 2)%nat.
Proof.
  destruct policy; cbn [Trainer.new_planner].
  - unfold new_quantile. destruct (bins <=? 1)%N; [intros [= <-]; cbn; by split; [|lia]|]. intros Hp. inv_ok. subst p. cbn. split; [done|lia].
  - unfold new_density. intros [= <-]. destruct (bins <=? 1)%N; cbn; split; (done || lia).
Qed.
Lemma new_planner_no_panic policy total bins : (total <= USIZE_MAX)%N -> no_panic (Trainer.new_planner policy total bins).
Proof.
  intros Ht. destruct policy; [|done]. cbn [Trainer.new_planner]. unfold new_quantile. destruct (N.leb_spec bins 1); [done|].
  apply rbind_no_panic; [|done]. apply collect_map_no_panic. intros b Hb%list_elem_of_In%in_seq. apply target_ok; lia.
Qed.

Lemma finish_pca_ok pass t : acc_ok (accumulator pass) -> acc_dim (accumulator pass) = dimensions (Trainer.config t) ->
  let r := Trainer.finish_pca_pass pass t in
  match r.1 with
  | Ok (next, _, m) => m = None /\ phase_ok (Trainer.config t) (Trainer.params t) next /\ (phase_left next <= 4)%nat
  | Err _ => True
  | Panic => allocation_policy (Trainer.params t) = CentroidWeightedBins \/ (USIZE_MAX < tracked_count (pca_tracker pass))%N
  end
  /\ (r.2 = t \/ exists f q, r.2 = Trainer.set_quality q (Trainer.set_baseline f t)).
Proof.
  intros Hacc Hd. unfold Trainer.finish_pca_pass. set (f := tracker_finish _). set (t1 := Trainer.set_baseline f t).
  assert (t1 = Trainer.set_quality (Trainer.quality_metric t) t1) as Hsame by (by destruct t).
  destruct (fingerprint_count f =? 0)%N; [by split; [|left]|].
  destruct (fingerprint_count f <? Trainer.minimum_required t)%N; [by split; [|left]|]. cbn zeta. fold t1.
  pose proof (analyzed_returns (accumulator pass) t1 Hacc Hd) as Ha.
  destruct (Trainer.analyzed_transform (accumulator pass) t1) as [tr|e|]; cbn [Trainer.at_trainer fst snd]; [|split; [done|right; eexists _, _; exact Hsame]|done].
  destruct Ha as (Hs & Hv & Hi). pose proof (shape_mean tr Hs) as Hm.
  destruct (allocate_axis_bins _ _ _ _) as [bins|e|] eqn:Hbins; cbn [Trainer.at_trainer fst snd].
  2: { split; [done|right; eexists _, _; exact Hsame]. }
  2: { split; [|right; eexists _, _; exact Hsame]. left. destruct (allocation_policy (Trainer.params t)) eqn:Hp; [done|]. exfalso.
       apply (allocate_log_bits (mean tr) tr (Trainer.params t1) (cluster_count (Trainer.config t1)) Hs Hv Hm); [|done]. cbn. by rewrite Hp. }
  destruct (allocate_ok _ _ _ _ _ Hs Hv Hm Hbins) as (Hlen & _).
  destruct (collect_map _ bins) as [ps|e|] eqn:Hps; cbn [Trainer.at_trainer fst snd].
  - split; [|right; by eexists _, _]. split; [done|]. apply collect_map_ok in Hps.
    assert (Forall planner_ok ps /\ (list_max (map passes_left ps) <= 2)%nat /\ length ps = length bins) as (Hok & Hmax & Hlp).
    { clear -Hps. induction Hps as [|b p bs ps' Hp _ (IH1 & IH2 & IH3)]; [cbn; split_and!; [constructor|lia|done]|].
      apply new_planner_ok in Hp as [Hp1 Hp2]. split_and!; [by constructor| |cbn; lia].
      cbn [map]. change (list_max (?a :: ?l)) with (Nat.max a (list_max l)). lia. }
    split; [|unfold phase_left; cbn [planners]; lia]. cbn. split_and!; [done..|]. unfold len in *. lia.
  - split; [done|right; by eexists _, _].
  - split; [|right; by eexists _, _]. right. destruct (N.le_gt_cases (tracked_count (pca_tracker pass)) USIZE_MAX) as [Hle|]; [|done]. exfalso.
    revert Hps. apply collect_map_no_panic. intros b _. by apply new_planner_no_panic.
Qed.

(** ** The other passes *)
Lemma replayed_no_panic f t : no_panic (Trainer.validate_replayed_pass f t).
Proof. unfold Trainer.validate_replayed_pass. np. Qed.

Lemma max_pred l : list_max (map (fun p => pred (passes_left p)) l) = pred (list_max (map passes_left l)).
Proof.
  induction l as [|p l IH]; [done|]. cbn [map]. change (list_max (?a :: ?l)) with (Nat.max a (list_max l)). rewrite IH. lia.
Qed.

(** The next phase of a pass that is finished without an error. *)
Definition next_ok (t : DirectionalPcaStreamingTrainer) (r : outcome (ReplayPhase * PassReport * option DirectionalPcaModel)) : Prop :=
  match r with
  | Ok (next, _, m) => phase_ok (Trainer.config t) (Trainer.params t) next
      /\ (match m with
          | None => Trainer.model t = None -> phase_left next < phase_left (Trainer.phase t)
          | Some m => model_ok (Trainer.config t) next m
          end)%nat
      /\ (forall m', Trainer.model t = Some m' -> next = Trainer.phase t)
  | Err _ => True
  | Panic => False
  end.

Lemma finish_cuts_ok pass replay t : Trainer.phase t = PlanCuts replay -> phase_ok (Trainer.config t) (Trainer.params t) (PlanCuts replay) ->
  active_ok (Trainer.config t) (PlanCuts replay) (ActivePlanCuts pass) -> Trainer.model t = None ->
  next_ok t (Trainer.finish_cut_planning_pass pass t).
Proof.
  intros Hph (Htr & Hok & Hlen) (Hplan & Hpass & Hleft) Hm. unfold Trainer.finish_cut_planning_pass, next_ok.
  pose proof (replayed_no_panic (tracker_finish (cut_tracker pass)) t) as Hnp.
  destruct (Trainer.validate_replayed_pass _ _); [|done|done]. cbn [rbind].
  pose proof (finish_planners (cut_planners pass) Hpass) as Hf. destruct (collect_map _ _) as [l|e|]; [|done|done]. cbn [rbind].
  destruct Hf as [Hl1 Hl2]. apply (f_equal (@length _)) in Hleft as Hll. rewrite !length_map in Hll.
  apply (f_equal (@length _)) in Hl2 as Hl3. rewrite !length_map in Hl3. rewrite Hm, Hph, Hplan.
  assert (list_max (map passes_left l) = pred (list_max (map passes_left (planners replay)))) as Hmax.
  { rewrite Hl2, max_pred. by rewrite Hleft. }
  destruct (forallb is_ready l) eqn:Hready.
  - split_and!; [|intros _; cbn; lia|done]. split; [done|]. cbn. unfold len in *. rewrite ready_plans by done. lia.
  - split_and!; [|intros _|done].
    + cbn. split_and!; [done..|]. unfold len in *. lia.
    + cbn [phase_left planners]. rewrite Hmax. enough (2 <= list_max (map passes_left (planners replay)))%nat by lia.
      rewrite <-Hleft. enough (1 <= list_max (map passes_left l))%nat as H1m by (rewrite Hmax, <-Hleft in H1m; lia).
      clear -Hready. induction l as [|p l IH]; [done|]. cbn [map]. change (list_max (?a :: ?l)) with (Nat.max a (list_max l)).
      cbn in Hready. destruct (is_ready p) eqn:Hp; [cbn in Hready; specialize (IH Hready); lia|].
      destruct (passes_left p) eqn:Hz; [|lia]. apply ready_left in Hz. congruence.
Qed.

Lemma sum_clusters l : (clusters l <= 2 ^ 32)%N ->
  sum_usize (map (fun cell => 1 + extra_clusters cell)%N l) = Ok (clusters l).
Proof.
  intros Hl. unfold sum_usize. enough (forall a, (a + clusters l <= 2 ^ 32)%N ->
    try_fold (fun a b => expect (checked_add USIZE_MAX a b)) a (map (fun cell => 1 + extra_clusters cell)%N l) = (Ok (a + clusters l)%N : outcome N)) as He
    by (rewrite (He 0%N); [done|lia]).
  clear Hl. induction l as [|c l IH]; intros a Ha; cbn [map try_fold]; [cbn; by rewrite N.add_0_r|].
  unfold clusters in *. cbn [foldr] in *. unfold cell_clusters at 1 in Ha. unfold checked_add at 1.
  assert (a + (1 + extra_clusters c) <= USIZE_MAX)%N by (unfold USIZE_MAX; lia). rewrite (proj2 (N.leb_le _ _)) by done. cbn [expect rbind].
  rewrite IH by lia. f_equal. unfold cell_clusters at 2. lia.
Qed.

Lemma finish_count_ok pass part t : Trainer.phase t = CountCells part -> phase_ok (Trainer.config t) (Trainer.params t) (CountCells part) ->
  active_ok (Trainer.config t) (CountCells part) (ActiveCountCells pass) -> Trainer.model t = None -> (cluster_count (Trainer.config t) <= 2 ^ 32)%N ->
  next_ok t (Trainer.finish_cell_counting_pass pass t).
Proof.
  intros Hph Hpart (Hp & Hcells) Hm Hk. unfold Trainer.finish_cell_counting_pass, next_ok.
  pose proof (replayed_no_panic (tracker_finish (count_tracker pass)) t) as Hnp.
  destruct (Trainer.validate_replayed_pass _ _); [|done|done]. cbn [rbind].
  destruct (N.eqb_spec (len (cell_summaries pass)) 0) as [|Hne]; [done|]. cbn [negb].
  destruct (N.ltb_spec (cluster_count (Trainer.config t)) (len (cell_summaries pass))) as [|Hle]; [done|]. cbn [negb].
  pose proof (ready_plan_ok _ (count_partition pass) (cell_summaries pass) (cluster_count (Trainer.config t)) (cluster_cardinality_mode (Trainer.params t))
    Hcells ltac:(by intros Hnil; rewrite Hnil in Hne) Hle) as Hr.
  destruct (build_ready_partition_plan _ _ _ _) as [r|e|]; [|done|done]. destruct Hr as (Hpr & Hplan & _). cbn [rbind].
  pose proof (plan_clusters _ _ _ Hplan). rewrite sum_clusters by lia. cbn [rbind]. rewrite Hm, Hph.
  split_and!; [|intros _; cbn; lia|done]. split; [|done]. rewrite Hpr, Hp. exact Hpart.
Qed.

Lemma finish_realize_ok pass ready t : Trainer.phase t = RealizePartition ready ->
  phase_ok (Trainer.config t) (Trainer.params t) (RealizePartition ready) ->
  active_ok (Trainer.config t) (RealizePartition ready) (ActiveRealizePartition pass) ->
  next_ok t (Trainer.finish_partition_realization_pass pass t).
Proof.
  intros Hph Hphase (Hr & _ & Hstats & Hdims). unfold Trainer.finish_partition_realization_pass, next_ok.
  pose proof (replayed_no_panic (tracker_finish (realize_tracker pass)) t) as Hnp.
  destruct (Trainer.validate_replayed_pass _ _); [|done|done]. cbn [rbind].
  assert (returns (Forall2 (fun s c => len c = len (sums s)) (cell_stats pass)) (collect_map stats_centroid (cell_stats pass))) as Hc.
  { apply returns_collect. intros s _. unfold stats_centroid. apply returns_guard. intros _. cbn. unfold len. by rewrite length_map. }
  destruct (collect_map _ _) as [centroids|e|]; [|done|done]. cbn [rbind]. cbn in Hc. rewrite Hr, Hph.
  split; [done|]. split; [|done]. exists ready. split_and!; [done| | |].
  - cbn. apply Forall2_length in Hc. unfold len in *. lia.
  - cbn. clear -Hc Hdims. induction Hc as [|s c l k Hsc _ IH]; [constructor|]. apply Forall_cons in Hdims as [Hs Hd].
    constructor; [unfold stats_ok in Hs; congruence|by apply IH].
  - cbn. destruct (existsb _ _); [by intros plan [= <-]|done].
Qed.

(** ** Any pass *)
Lemma failed_ok t : trainer_ok t -> trainer_ok (Trainer.fail t).
Proof. intros [H5 H6 H7 H8 H9 H10 H11 H12]. split; cbn; try done. Qed.

Lemma model_phase t m : trainer_ok t -> Trainer.model t = Some m -> exists r, Trainer.phase t = RealizePartition r.
Proof. intros Ht Hm. destruct (ok_model t Ht m Hm) as (r & Hr & _). by exists r. Qed.

(** The trainer once a pass is taken out of it, and once its result is put back. *)
Lemma taken_fields t f q : let t1 := Trainer.set_active None (Trainer.invalidate_cached_telemetry t) in
  forall t', t' = t1 \/ t' = Trainer.set_quality q (Trainer.set_baseline f t1) ->
  Trainer.config t' = Trainer.config t /\ Trainer.params t' = Trainer.params t /\ Trainer.phase t' = Trainer.phase t
  /\ Trainer.model t' = Trainer.model t /\ Trainer.active_pass t' = None /\ Trainer.cached_telemetry t' = None /\ Trainer.state t' = Trainer.state t.
Proof. intros t1 t' [->| ->]; done. Qed.

Lemma put_back_ok t t' next report m : trainer_ok t ->
  Trainer.config t' = Trainer.config t /\ Trainer.params t' = Trainer.params t /\ Trainer.phase t' = Trainer.phase t
  /\ Trainer.model t' = Trainer.model t /\ Trainer.active_pass t' = None /\ Trainer.cached_telemetry t' = None /\ Trainer.state t' = Trainer.state t ->
  next_ok t (Ok (next, report, m)) ->
  let t2 := Trainer.set_state PassComplete (Trainer.set_phase next (match m with Some m => Some m | None => Trainer.model t' end) t') in
  trainer_ok t2 /\ (passes_needed t2 < passes_needed t \/ passes_needed t2 = 0)%nat.
Proof.
  intros Ht (Hc & Hp & Hph & Hm & Ha & Hca & Hs) (Hn1 & Hn2 & Hn3). cbn zeta. pose proof Ht as [H5 H6 H7 H8 H9 H10 H11 H12]. split.
  - split; cbn; rewrite ?Hc, ?Hp, ?Hm, ?Ha, ?Hca; try done. intros m0 Hm0. destruct m as [m1|]; [by injection Hm0 as <-|].
    rewrite (Hn3 m0 Hm0). by apply H9.
  - unfold passes_needed. cbn. rewrite Hm. destruct m as [m1|]; [by right|]. destruct (Trainer.model t) eqn:Hmt; [by right|left; by apply Hn2].
Qed.

Lemma finish_active_ok pass t t1 : trainer_ok t -> (cluster_count (Trainer.config t) <= 2 ^ 32)%N -> Trainer.active_pass t = Some pass ->
  t1 = Trainer.set_active None (Trainer.invalidate_cached_telemetry t) ->
  let r := Trainer.finish_active pass t1 in
  (r.1 = Panic -> finish_may_panic t) /\ (r.1 <> Panic -> next_ok t r.1) /\ (r.2 = t1 \/ exists f q, r.2 = Trainer.set_quality q (Trainer.set_baseline f t1)).
Proof.
  intros Ht Hk Hpass ->. pose proof (ok_active t Ht pass Hpass) as Ha. pose proof (ok_phase t Ht) as Hphase.
  assert (forall m, Trainer.model t = Some m -> exists r, Trainer.phase t = RealizePartition r) as Hmodel by (intros m; by apply model_phase).
  assert (Hnone : (forall r, Trainer.phase t <> RealizePartition r) -> Trainer.model t = None).
  { intros Hr. destruct (Trainer.model t) as [m|]; [|done]. destruct (Hmodel m eq_refl) as [r Hr']. by destruct (Hr r). }
  set (t1 := Trainer.set_active _ _). cbn zeta.
  destruct pass as [pass|pass|pass|pass]; destruct (Trainer.phase t) as [|replay|part|r] eqn:Hph; try done; cbn [Trainer.finish_active].
  - destruct Ha as [Hacc Hd]. destruct (finish_pca_ok pass t1 Hacc Hd) as [Hr Ht1].
    destruct (Trainer.finish_pca_pass pass t1) as [[[[next report] m]|e|] t']; cbn [fst snd] in *.
    + destruct Hr as (-> & Hok & Hleft). split_and!; [done| |exact Ht1]. intros _. cbn. rewrite Hph. split_and!; [exact Hok|intros _; cbn; lia|].
      rewrite (Hnone ltac:(done)). done.
    + split_and!; [done..|exact Ht1].
    + split_and!; [|done|exact Ht1]. intros _. by exists pass.
  - assert (next_ok t1 (Trainer.finish_cut_planning_pass pass t1)) as Hn
      by (eapply finish_cuts_ok; [exact Hph|exact Hphase|exact Ha|apply Hnone; done]).
    unfold next_ok in Hn |- *. cbn [fst snd]. split_and!; [|intros _; exact Hn|by left]. intros Hp. by rewrite Hp in Hn.
  - assert (next_ok t1 (Trainer.finish_cell_counting_pass pass t1)) as Hn
      by (eapply finish_count_ok; [exact Hph|exact Hphase|exact Ha|apply Hnone; done|exact Hk]).
    unfold next_ok in Hn |- *. cbn [fst snd]. split_and!; [|intros _; exact Hn|by left]. intros Hp. by rewrite Hp in Hn.
  - assert (next_ok t1 (Trainer.finish_partition_realization_pass pass t1)) as Hn
      by (eapply finish_realize_ok; [exact Hph|exact Hphase|exact Ha]).
    unfold next_ok in Hn |- *. cbn [fst snd]. split_and!; [|intros _; exact Hn|by left]. intros Hp. by rewrite Hp in Hn.
Qed.

Lemma dpca_finish_ok t : trainer_ok t -> (cluster_count (Trainer.config t) <= 2 ^ 32)%N ->
  let r := Trainer.finish_pass t in
  match r.1 with
  | Panic => finish_may_panic t
  | Err _ => trainer_ok r.2 /\ Trainer.state r.2 = ErrorState
  | Ok report => trainer_ok r.2 /\ (passes_needed r.2 < passes_needed t \/ passes_needed r.2 = 0)%nat
      /\ Trainer.state r.2 = PassComplete
  end.
Proof.
  intros Ht Hk. unfold Trainer.finish_pass, Trainer.finish_pass_impl.
  assert (trainer_ok (Trainer.invalidate_cached_telemetry (Trainer.set_state ErrorState t))) as Herr
    by (pose proof Ht as [H5 H6 H7 H8 H9 H10 H11 H12]; split; cbn; done).
  case_bool_decide as Hst; cbn [negb]; [|cbn; split; [by apply failed_ok|done]].
  destruct (Trainer.active_pass (Trainer.invalidate_cached_telemetry t)) as [pass|] eqn:Hpass.
  2: { cbn. split; [|done]. apply (failed_ok (Trainer.set_active None (Trainer.invalidate_cached_telemetry (Trainer.set_state ErrorState t)))).
       pose proof Ht as [H5 H6 H7 H8 H9 H10 H11 H12]. split; cbn; done. }
  set (t1 := Trainer.set_active None _). destruct (finish_active_ok pass t t1 Ht Hk Hpass eq_refl) as (Hp & Hn & Hf).
  destruct (Trainer.finish_active pass t1) as [r t']. cbn [fst snd] in *.
  assert (Hfields : Trainer.config t' = Trainer.config t /\ Trainer.params t' = Trainer.params t /\ Trainer.phase t' = Trainer.phase t
    /\ Trainer.model t' = Trainer.model t /\ Trainer.active_pass t' = None /\ Trainer.cached_telemetry t' = None /\ Trainer.state t' = Trainer.state t).
  { destruct Hf as [->|(f & q & ->)]; [|by apply (taken_fields t f q); right].
    apply (taken_fields t {| fingerprint_count := 0; digest := sha256 [] |} 0); by left. }
  destruct r as [[[next report] m]|e|]; cbn [Trainer.at_trainer fst snd].
  - destruct (put_back_ok t t' next report m Ht Hfields (Hn ltac:(done))) as [H5 H6]. done.
  - split; [|done]. pose proof Ht as [H5 H6 H7 H8 H9 H10 H11 H12]. destruct Hfields as (F1 & F2 & F3 & F4 & F5 & F6 & F7).
    split; cbn; rewrite ?F1, ?F2, ?F3, ?F4; try done.
  - by apply Hp.
Qed.
End finish.

(** ** Sizes *)
(** The child counts of a plan, and how many items they stand for. *)
Lemma planned_counts offset l : planned_from offset l ->
  rmap (@concat N) (collect_map (fun cell =>
    let? base := expect (checked_sub (cell_count cell) (extra_clusters cell)) in
    Ok (base :: replicate (N.to_nat (extra_clusters cell)) 1%N)) l) = (Ok (child_counts l) : outcome (list N))
  /\ len (child_counts l) = clusters l /\ Forall (fun n => 1 <= n)%N (child_counts l)
  /\ sum_N (child_counts l) = sum_N (map cell_count l).
Proof.
  unfold child_counts, len, clusters. induction 1 as [|offset c l Ho He Hl (IH1 & IH2 & IH3 & IH4)]; [by split_and!|].
  unfold rmap in *. cbn [collect_map map concat foldr]. unfold checked_sub at 1. rewrite (proj2 (N.leb_le _ _)) by lia.
  cbn [expect rbind]. destruct (collect_map _ l) as [k|e|]; cbn in IH1 |- *; try done. injection IH1 as IH1. rewrite IH1.
  split_and!.
  - done.
  - cbn [app length]. rewrite length_app, length_replicate. unfold cell_clusters at 1. lia.
  - constructor; [lia|]. apply Forall_app. split; [apply Forall_replicate; lia|done].
  - change (sum_N ((cell_count c - extra_clusters c)%N :: (replicate (N.to_nat (extra_clusters c)) 1%N
      ++ concat (map (fun c => (cell_count c - extra_clusters c)%N :: replicate (N.to_nat (extra_clusters c)) 1%N) l)))
      = cell_count c + sum_N (map cell_count l))%N.
    rewrite sum_cons, sum_app, sum_ones, IH4. lia.
Qed.

Section runs.
Context `{ShowFloat} `{Sha256} `{FloatMath} `{SymmetricEigen} `{!EigenShape}.
Notation trainer := DirectionalPcaStreamingTrainer.

Lemma nothing_needed t : passes_needed t = 0%nat -> is_Some (Trainer.model t).
Proof.
  unfold passes_needed. destruct (Trainer.model t); [done|]. destruct (Trainer.phase t); cbn; lia.
Qed.

(** ** Reachability *)
Section reach.
Context (config : StreamingClusteringConfig) (params : DirectionalPcaParams).
Hypothesis Hdim : (dimensions config * dimensions config <= USIZE_MAX)%N.
Hypothesis Hcount : (cluster_count config < 2 ^ 32)%N.

(** A call that panics leaves no trainer. *)
Inductive reached : trainer -> Prop :=
| reached_new t : Trainer.new config params = Ok t -> reached t
| reached_ingest t embeddings : reached t -> (Trainer.ingest_batch embeddings t).1 <> Panic -> reached (Trainer.ingest_batch embeddings t).2
| reached_finish t : reached t -> (Trainer.finish_pass t).1 <> Panic -> reached (Trainer.finish_pass t).2
| reached_complete t : reached t -> reached (Trainer.complete_training t).2
| reached_telemetry t : reached t -> reached (Trainer.telemetry t).2.

Lemma new_fields t : Trainer.new config params = Ok t ->
  t = Trainer.Mk config params Idle AnalyzePca None None 0 None None false.
Proof. unfold Trainer.new. intros Hn. inv_oks. by simplify_eq. Qed.

(** The fields a call never changes. *)
Lemma ingest_keeps embeddings t : let t' := (Trainer.ingest_batch embeddings t).2 in
  Trainer.config t' = Trainer.config t /\ Trainer.params t' = Trainer.params t /\ Trainer.model t' = Trainer.model t.
Proof.
  cbn zeta. unfold Trainer.ingest_batch, Trainer.ensure_active_pass, Trainer.at_trainer.
  repeat (case_match; cbn in *; simplify_eq; try done).
Qed.
Lemma finish_keeps t : let t' := (Trainer.finish_pass t).2 in Trainer.config t' = Trainer.config t /\ Trainer.params t' = Trainer.params t.
Proof.
  cbn zeta. unfold Trainer.finish_pass, Trainer.finish_pass_impl, Trainer.finish_active, Trainer.finish_pca_pass, Trainer.at_trainer.
  repeat (case_match; cbn in *; simplify_eq; try done).
Qed.
Lemma complete_keeps t : let t' := (Trainer.complete_training t).2 in
  Trainer.config t' = Trainer.config t /\ Trainer.params t' = Trainer.params t /\ Trainer.model t' = Trainer.model t.
Proof. cbn zeta. unfold Trainer.complete_training. repeat (case_match; cbn in *; simplify_eq; try done). Qed.
Lemma telemetry_keeps t : let t' := (Trainer.telemetry t).2 in Trainer.config t' = Trainer.config t /\ Trainer.params t' = Trainer.params t.
Proof. cbn zeta. unfold Trainer.telemetry. by case_match. Qed.

Lemma reached_ok t : reached t -> trainer_ok t /\ Trainer.config t = config /\ Trainer.params t = params.
Proof.
  induction 1 as [t Hn|t embeddings _ (IH & Hc & Hp) Hr|t _ (IH & Hc & Hp) Hr|t _ (IH & Hc & Hp)|t _ (IH & Hc & Hp)].
  - apply new_fields in Hn as ->. split; [|done]. split; cbn; try done.
  - destruct (dpca_ingest_ok t embeddings IH) as [Hok _]. destruct (ingest_keeps embeddings t) as (-> & -> & _). done.
  - pose proof (dpca_finish_ok t IH) as Hf. rewrite Hc in Hf. specialize (Hf ltac:(lia)). cbn zeta in Hf.
    destruct (finish_keeps t) as (-> & ->). destruct (Trainer.finish_pass t) as [[report|e|] t']; cbn [fst snd] in *; [|tauto|done].
    by destruct Hf.
  - destruct (complete_ok t IH) as [Hok _]. destruct (complete_keeps t) as (-> & -> & _). done.
  - destruct (telemetry_ok t IH) as [_ Hok]. destruct (telemetry_keeps t) as (-> & ->). done.
Qed.

(** ** Runs *)
(** A pass over the data, batch by batch, and its end. *)
Definition run_pass (t : trainer) (batches : list (list (list f32))) : outcome trainer :=
  let? t := try_fold (fun t batch => match Trainer.ingest_batch batch t with (Ok _, t) => Ok t | (Err e, _) => Err e | (Panic, _) => Panic end)
    t batches in
  match Trainer.finish_pass t with (Ok _, t) => Ok t | (Err e, _) => Err e | (Panic, _) => Panic end.
Definition run_passes : trainer -> list (list (list (list f32))) -> outcome trainer := try_fold run_pass.

Lemma ingest_run batches : forall t t', reached t ->
  try_fold (fun t batch => match Trainer.ingest_batch batch t with (Ok _, t) => Ok t | (Err e, _) => Err e | (Panic, _) => Panic end) t batches = Ok t' ->
  reached t' /\ passes_needed t' = passes_needed t.
Proof.
  induction batches as [|batch batches IH]; intros t t' Ht Hr; cbn [try_fold] in Hr; [by simplify_eq|].
  destruct (Trainer.ingest_batch batch t) as [[[]|e|] t1] eqn:Hb; try done. cbn [rbind] in Hr.
  assert (reached t1) as Ht1 by (replace t1 with (Trainer.ingest_batch batch t).2 by (by rewrite Hb); apply reached_ingest; [done|by rewrite Hb]).
  apply IH in Hr as [Hr Hn]; [|done]. split; [done|]. rewrite Hn.
  destruct (reached_ok t Ht) as [Hok _]. destruct (dpca_ingest_ok t batch Hok) as (_ & Hph & _).
  destruct (ingest_keeps batch t) as (_ & _ & Hm). rewrite Hb in Hph, Hm. cbn [snd] in *. unfold passes_needed. by rewrite Hph, Hm.
Qed.

Lemma run_pass_ok t batches t' : reached t -> run_pass t batches = Ok t' ->
  reached t' /\ (passes_needed t' <= pred (passes_needed t))%nat /\ Trainer.state t' = PassComplete.
Proof.
  intros Ht Hr. unfold run_pass in Hr. apply rbind_ok in Hr as (t1 & Hi & Hr). apply ingest_run in Hi as [Ht1 Hn]; [|done].
  destruct (reached_ok t1 Ht1) as (Hok & Hc & _). pose proof (dpca_finish_ok t1 Hok) as Hf. rewrite Hc in Hf. specialize (Hf ltac:(lia)). cbn zeta in Hf.
  pose proof (reached_finish t1 Ht1) as Hreach.
  destruct (Trainer.finish_pass t1) as [[report|e|] t2]; cbn [fst snd] in *; try done. simplify_eq.
  destruct Hf as (_ & Hleft & Hst). split_and!; [by apply Hreach|lia|done].
Qed.

Lemma run_passes_ok passes : forall t t', reached t -> run_passes t passes = Ok t' ->
  reached t' /\ (passes_needed t' <= passes_needed t - length passes)%nat /\ (passes = [] \/ Trainer.state t' = PassComplete).
Proof.
  induction passes as [|pass passes IH]; intros t t' Ht Hr; cbn [run_passes try_fold] in Hr.
  { simplify_eq. split_and!; [done|cbn; lia|by left]. }
  apply rbind_ok in Hr as (t1 & Hp & Hr). apply run_pass_ok in Hp as (Ht1 & Hn & Hst); [|done].
  pose proof (IH t1 t' Ht1 Hr) as (Ht' & Hn' & Hst'). split_and!; [done|cbn; lia|right].
  destruct Hst' as [->|]; [|done]. cbn in Hr. by simplify_eq.
Qed.

(** ** The classifier *)
Lemma classifier_of t c : reached t -> Classifier.into_classifier t = Ok c ->
  exists r, plan_ok (cluster_cardinality_mode params) (cluster_count config) (cells r)
    /\ Classifier.config c = config
    /\ len (Classifier.centroids c) = clusters (cells r)
    /\ Forall (fun centroid => len centroid = dimensions config) (Classifier.centroids c)
    /\ (forall plan, Classifier.replay_plan c = Some plan -> plan = r).
Proof.
  intros Ht Hi. unfold Classifier.into_classifier in Hi. destruct (reached_ok t Ht) as (Hok & Hc & Hp). inv_oks.
  destruct (Trainer.model t) as [m|] eqn:Hm; [|done]. cbn in *. simplify_eq.
  destruct (ok_model t Hok _ Hm) as (r & Hph & Hl & Hf & Hplan). exists r. pose proof (ok_phase t Hok) as Hphase. rewrite Hph in Hphase.
  destruct Hphase as [_ Hplanned]. rewrite ?Hc, ?Hp in *. by split_and!.
Qed.

End reach.
End runs.
