(* ===== verification/DpcaWitness.v ===== *)
(** * Directional PCA: what the crate promises

    The claims about crates/lexongraph-directional-pca with their examples: the corners
    of a square, one to a cluster. *)
From S2P Require Import Prelude Ordering Hash Ieee Clustering CborRef Pca PcaCodec PcaCorrect PcaWitness DpcaPlanner DpcaPlan DirectionalPca CutCorrect DpcaCells DpcaTrainer DpcaFinish.

(** ** Cuts *)

Lemma target_rank bin_count n i : (1 < bin_count)%N -> (1 <= n <= USIZE_MAX)%N -> (1 <= i < bin_count)%N ->
  quantile_target bin_count n i = Ok (div_ceil_N (i * n) bin_count) /\ (1 <= div_ceil_N (i * n) bin_count <= n)%N.
Proof.
  intros Hb Hn Hi. destruct (div_ceil_bounds (i * n) bin_count) as [Hlow Hup]; [lia|].
  assert (1 <= div_ceil_N (i * n) bin_count <= n)%N as Hr.
  { revert Hlow Hup. generalize (div_ceil_N (i * n) bin_count). intros r Hlow Hup. nia. }
  split; [|done]. unfold quantile_target, usize_try_from. rewrite (proj2 (N.leb_le _ _)) by lia. done.
Qed.

Lemma observe_quantile values : forall p,
  try_fold planner_observe (QuantilePlanner p) values = Ok (QuantilePlanner (fold_left quantile_observe values p)).
Proof. induction values as [|v values IH]; intros p; [done|]. cbn [try_fold planner_observe rbind fold_left]. apply IH. Qed.

(** C19 A pass of the quantile planner over any values ends with one cut between every
    two bins; each cut is one of the values, and its rank is within twice the declared
    error, a 1024th of the values rounded up, of the exact rank of the quantile. *)
Theorem quantile_cuts_accurate bin_count values : values <> [] -> (len values < USIZE_MAX)%N -> (1 < bin_count)%N ->
  exists fresh full cuts,
    new_quantile bin_count (len values) = Ok fresh /\ try_fold planner_observe fresh values = Ok full
    /\ planner_finish_pass full = Ok (Ready (Thresholds cuts)) /\ len cuts = (bin_count - 1)%N
    /\ forall i cut, cuts !! i = Some cut ->
         let rank := div_ceil_N ((N.of_nat i + 1) * len values) bin_count in
         let error := div_ceil_N (len values) GK_QUANTILE_RANK_ERROR_DENOMINATOR in
         cut ∈ values /\ (rank <= count_le (key cut) values + 2 * error)%N
         /\ (count_lt (key cut) values + 1 <= rank + 2 * error)%N.
Proof.
  intros Hne Hlen Hb. unfold new_quantile. rewrite (proj2 (N.leb_gt _ _)) by done.
  assert (1 <= len values)%N as Hn by (destruct values; [done|unfold len; cbn; lia]).
  set (bins := seq 1 (N.to_nat (bin_count - 1))).
  set (ranks := map (fun bin => div_ceil_N (N.of_nat bin * len values) bin_count) bins).
  assert (collect_map (fun bin => quantile_target bin_count (len values) (N.of_nat bin)) bins = Ok ranks) as ->.
  { apply collect_map_ok. apply Forall2_fmap_r. apply Forall_Forall2_diag, Forall_forall. intros bin Hbin%elem_of_seq.
    apply target_rank; lia. }
  cbn [rbind]. set (p := {| targets := ranks |}). set (full := fold_left quantile_observe values p).
  assert (good p []) as Hp.
  { split; [done|]. split; [constructor|by intros ? ? ? ? ? ?|done|constructor]. }
  destruct (observe_all values p [] Hp) as (Hg & Ht & Hd). fold full in Hg, Ht, Hd. cbn [app] in Hg.
  destruct (compress_good full values Hg) as (Hc & Hct & Hcd & _).
  set (error := div_ceil_N (len values) GK_QUANTILE_RANK_ERROR_DENOMINATOR).
  assert (rank_error (compress full) = error) as He by (unfold rank_error; by rewrite Hcd, Hd, (proj1 Hc)).
  assert (Forall (fun rank => exists value, approximate_quantile_value (compress full) rank = Ok value /\ value ∈ values
      /\ (rank <= count_le (key value) values + 2 * error)%N /\ (count_lt (key value) values + 1 <= rank + 2 * error)%N) ranks) as Hans.
  { apply Forall_forall. intros rank (bin & -> & Hbin%elem_of_seq)%list_elem_of_fmap. rewrite <-He.
    apply quantile_accurate; [done| |done|by rewrite Hcd, Hd]. apply target_rank; lia. }
  apply Forall_exists_Forall2_l in Hans as [cuts Hcuts]. exists (QuantilePlanner p), (QuantilePlanner full), cuts. split_and!.
  - done.
  - apply observe_quantile.
  - cbn [planner_finish_pass]. unfold quantile_finish_pass. rewrite bool_decide_eq_false_2.
    2: { intros Hs%length_zero_iff_nil. destruct Hg as [_ [Hr _ _ _]]. rewrite Hs in Hr. inversion Hr. lia. }
    rewrite Hct, Ht. replace (collect_map _ _) with (Ok cuts : outcome (list f32)); [done|]. symmetry. apply collect_map_ok.
    eapply Forall2_impl; [exact Hcuts|]. by intros rank value [Hv _].
  - apply Forall2_length in Hcuts. unfold ranks, bins in Hcuts. rewrite length_map, length_seq in Hcuts. unfold len. lia.
  - intros i cut Hi. destruct (Forall2_lookup_r _ _ _ _ _ Hcuts Hi) as (rank & Hrank & _ & Hin & Hlow & Hup).
    apply list_lookup_fmap_Some in Hrank as (bin & -> & Hbin%lookup_seq). destruct Hbin as [-> _].
    cbn zeta. fold error. replace (N.of_nat i + 1)%N with (N.of_nat (1 + i)) by lia. done.
Qed.

Lemma observe_minmax values : forall p,
  try_fold planner_observe (DensityMinMax p) values = Ok (DensityMinMax (fold_left minmax_observe values p)).
Proof. induction values as [|v values IH]; intros p; [done|]. cbn [try_fold planner_observe rbind fold_left]. apply IH. Qed.
Lemma minmax_bins values : forall p, minmax_bin_count (fold_left minmax_observe values p) = minmax_bin_count p.
Proof. induction values as [|v values IH]; intros p; [done|]. cbn [fold_left]. by rewrite IH. Qed.
Lemma observe_histogram values : forall p,
  try_fold planner_observe (DensityHistogram p) values = rmap DensityHistogram (try_fold histogram_observe p values).
Proof.
  induction values as [|v values IH]; intros p; [done|]. cbn [try_fold planner_observe]. unfold rmap.
  destruct (histogram_observe p v); cbn [rbind]; [apply IH|done..].
Qed.

(** Two passes of the density planner over any values end with cuts: none where the
    values do not spread, and otherwise, for any number of bins, one fewer than the
    smaller of the bins and the 256 buckets. They are edges between different buckets of
    the range of the values, none of them an end of it. No index is out of range and no
    search ends before the cuts are found. *)
Theorem density_cuts_realized bins values : (1 < bins)%N ->
  let ranged := fold_left minmax_observe values {| minmax_bin_count := bins; minimum := None; maximum := None |} in
  let lowest := default 0%N (minimum ranged) in
  let highest := default 0%N (maximum ranged) in
  let buckets := N.min bins DENSITY_VALLEY_HISTOGRAM_BUCKET_CAP in
  exists counting full cuts,
    try_fold planner_observe (new_density bins) values = Ok (DensityMinMax ranged)
    /\ planner_finish_pass (DensityMinMax ranged) = Ok counting
    /\ try_fold planner_observe counting values = Ok full
    /\ planner_finish_pass full = Ok (Ready (Thresholds cuts))
    /\ edges lowest highest (N.to_nat buckets) cuts
    /\ len cuts = if fleb binary32 highest lowest then 0%N else (buckets - 1)%N.
Proof.
  intros Hb ranged lowest highest buckets. unfold new_density. rewrite (proj2 (N.leb_gt _ _)) by done.
  set (h := minmax_finish_pass ranged).
  assert (length (counts h) = N.to_nat buckets) as Hl.
  { unfold h, minmax_finish_pass. cbn [counts]. rewrite length_replicate. unfold ranged. rewrite minmax_bins. cbn. unfold buckets. f_equal. lia. }
  assert (2 <= N.to_nat buckets <= 256)%nat as Hsize by (unfold buckets, DENSITY_VALLEY_HISTOGRAM_BUCKET_CAP; lia).
  destruct (histogram_pass h values) as (full & Hf & Hlow & Hhigh & Hbins & Hlen); [by rewrite Hl|].
  destruct (select_cuts (low full) (high full) (counts full) (bin_count full)) as (cuts & Hc & He & Hcl).
  { rewrite Hlen, Hl. lia. }
  rewrite Hlow, Hhigh, Hlen, Hl in *. exists (DensityHistogram h), (DensityHistogram full), cuts. split_and!; [apply observe_minmax|done| | |done|].
  - rewrite observe_histogram, Hf. done.
  - cbn [planner_finish_pass]. unfold histogram_finish_pass. by rewrite Hlow, Hhigh, Hc.
  - rewrite Hcl. change (high h) with highest. change (low h) with lowest. destruct (fleb binary32 highest lowest); [done|].
    rewrite Hbins. replace (bin_count h) with bins by (unfold h, minmax_finish_pass; cbn [bin_count]; unfold ranged; by rewrite minmax_bins).
    unfold len. rewrite Hlen. unfold buckets, DENSITY_VALLEY_HISTOGRAM_BUCKET_CAP. lia.
Qed.

(** ** The trainer *)
Lemma key_position l i j a b : ascending_keys cell_key l -> l !! i = Some a -> l !! j = Some b -> cell_key a = cell_key b -> i = j.
Proof.
  intros Hl. revert i j. induction Hl as [|c l _ IH Hc]; intros i j Hi Hj Hk; [done|]. rewrite Forall_lookup in Hc.
  assert (key_cmp (cell_key b) (cell_key b) = Eq) as He by (apply (cmp_refl key_cmp)).
  destruct i as [|i], j as [|j]; cbn in Hi, Hj; simplify_eq; [done| | |f_equal; by apply IH].
  - pose proof (Hc j b Hj). congruence.
  - pose proof (Hc i a Hi). congruence.
Qed.
Lemma clusters_app l k : clusters (l ++ k) = (clusters l + clusters k)%N.
Proof. unfold clusters. induction l as [|c l IH]; [done|]. cbn [app foldr]. rewrite IH. lia. Qed.
Lemma planned_app offset l k : planned_from offset (l ++ k) -> planned_from offset l /\ planned_from (offset + clusters l) k.
Proof.
  revert offset. induction l as [|c l IH]; intros offset Hp; cbn [app] in Hp.
  - split; [constructor|]. unfold clusters. cbn [foldr]. by rewrite N.add_0_r.
  - inversion Hp as [|? ? ? Ho He Hl]; subst. destruct (IH _ Hl) as [H1 H2]. split; [by constructor|].
    unfold clusters in *. cbn [foldr]. by rewrite N.add_assoc.
Qed.

Section claims.
Context `{ShowFloat} `{Sha256} `{FloatMath} `{SymmetricEigen} `{!EigenShape}.
Context (config : StreamingClusteringConfig) (params : DirectionalPcaParams).
Notation reached := (reached config params).

(** C12 Whatever calls are made on a trainer of embeddings whose squared dimension is a
    usize, in any order and with any data: its phase, pass in progress and model fit
    together; the telemetry it reports, from its cache or not, is that of its state;
    completing never panics, and finishing a pass never does but for the weighted bins
    of the analysis or a count past the width of a word; ingesting panics only where a
    cell is given more items than were counted. *)
Theorem trainer_calls_safe t : (dimensions config * dimensions config <= USIZE_MAX)%N -> (cluster_count config < 2 ^ 32)%N -> reached t ->
  trainer_ok t /\ (Trainer.telemetry t).1 = fresh_telemetry t
  /\ (Trainer.complete_training t).1 <> Panic
  /\ ((Trainer.finish_pass t).1 = Panic -> finish_may_panic t)
  /\ forall batch, (Trainer.ingest_batch batch t).1 = Panic ->
       exists pass, Trainer.active_pass (Trainer.ingest_batch batch t).2 = Some pass /\ overfull pass.
Proof.
  intros Hd Hc Ht. destruct (reached_ok config params Hd Hc t Ht) as (Hok & Hconfig & _). split_and!; [done| | | |].
  - by apply telemetry_ok.
  - by apply complete_ok.
  - pose proof (dpca_finish_ok t Hok) as Hf. rewrite Hconfig in Hf. specialize (Hf ltac:(lia)). cbn zeta in Hf. intros Hp. by rewrite Hp in Hf.
  - intros batch. by apply dpca_ingest_ok.
Qed.

(** C11 Five passes that succeed are enough: training then completes, and the classifier
    made of it has at least one and at most as many clusters as were requested, exactly
    as many in the exact mode, each with a centroid of the right length. *)
Theorem five_passes_complete t passes t' : (dimensions config * dimensions config <= USIZE_MAX)%N -> (cluster_count config < 2 ^ 32)%N ->
  Trainer.new config params = Ok t -> run_passes t passes = Ok t' -> (5 <= length passes)%nat ->
  exists done c, Trainer.complete_training t' = (Ok tt, done) /\ Classifier.into_classifier done = Ok c
    /\ (1 <= Classifier.realized_cluster_count c <= cluster_count config)%N
    /\ (cluster_cardinality_mode params = Exact -> Classifier.realized_cluster_count c = cluster_count config)
    /\ len (Classifier.centroids c) = Classifier.realized_cluster_count c
    /\ Forall (fun centroid => len centroid = dimensions config) (Classifier.centroids c).
Proof.
  intros Hd Hc Hn Hr Hl. pose proof (reached_new config params t Hn) as Ht.
  destruct (run_passes_ok config params Hd Hc passes t t' Ht Hr) as (Ht' & Hleft & Hst).
  assert (passes_needed t <= 5)%nat as H5 by (by rewrite (new_fields config params t Hn)).
  destruct (nothing_needed t') as [m Hm]; [lia|]. destruct Hst as [->|Hst]; [cbn in Hl; lia|].
  assert (Trainer.complete_training t' = (Ok tt, Trainer.invalidate_cached_telemetry (Trainer.set_state TrainingComplete t'))) as Hdone
    by (unfold Trainer.complete_training; by rewrite Hst, Hm).
  pose proof (reached_complete config params t' Ht') as Hreach. rewrite Hdone in Hreach. cbn [snd] in Hreach.
  assert (exists c, Classifier.into_classifier (Trainer.invalidate_cached_telemetry (Trainer.set_state TrainingComplete t')) = Ok c) as [c Hinto].
  { unfold Classifier.into_classifier. cbn. rewrite Hm. by eexists. }
  destruct (classifier_of config params Hd Hc _ c Hreach Hinto) as (r & Hplan & _ & Hlen & Hcentroids & _).
  pose proof (plan_clusters _ _ _ Hplan) as Hup. pose proof (plan_nonempty _ _ _ Hplan) as Hne. pose proof (clusters_extras (cells r)) as Hex.
  assert (Classifier.realized_cluster_count c = clusters (cells r)) as Hreal.
  { unfold Classifier.realized_cluster_count. rewrite Hlen, N.mod_small; [done|lia]. }
  eexists _, c. split; [exact Hdone|]. split; [exact Hinto|]. rewrite Hreal. split_and!; [|done|apply (plan_exact _ _ _ Hplan)|done..].
  destruct (cells r); [done|]. unfold len in Hex. cbn [length] in Hex. lia.
Qed.

(** C13 The child counts a classifier gives for its replay are a size for every cluster,
    none of them empty, that add up to the items counted. However items are replayed, no
    cluster is given more than its size; and once as many were assigned as were counted,
    every cluster has exactly its size. *)
Theorem replay_fills_plan t c plan : (dimensions config * dimensions config <= USIZE_MAX)%N -> (cluster_count config < 2 ^ 32)%N ->
  reached t -> Classifier.into_classifier t = Ok c -> Classifier.replay_plan c = Some plan ->
  exists sizes, Classifier.replay_order_child_counts c = Ok (Some sizes)
    /\ len sizes = Classifier.realized_cluster_count c /\ Forall (fun n => 1 <= n)%N sizes
    /\ sum_N sizes = sum_N (map cell_count (cells plan))
    /\ forall items s, Classifier.new_replay_state c = Some s ->
         let assigned := fst (replay_all c items s) in
         assigned ⊆+ planned_assignments sizes
         /\ (length assigned = length (planned_assignments sizes) -> assigned ≡ₚ planned_assignments sizes).
Proof.
  intros Hd Hc Ht Hinto Hplan. destruct (classifier_of config params Hd Hc t c Ht Hinto) as (r & Hok & _ & Hlen & _ & Hr).
  pose proof (Hr plan Hplan) as ->. destruct (planned_counts 0 (cells r) (plan_numbered _ _ _ Hok)) as (Hcounts & Hl & Hpos & Hsum).
  pose proof (plan_clusters _ _ _ Hok) as Hup. exists (child_counts (cells r)). split_and!; [| |done|done|].
  - unfold Classifier.replay_order_child_counts. rewrite Hplan. cbn [opt_transpose]. rewrite Hcounts. done.
  - unfold Classifier.realized_cluster_count. rewrite Hlen, N.mod_small by lia. done.
  - intros items s. eapply replay_fills; [exact Hplan|exact Hok|lia].
Qed.

(** C39 While the partition is realized, one item more than was counted for the last
    cell panics: the statistics are indexed past their end, before the pass can be
    compared with the first one and refused. *)
Theorem extra_item_panics pass embedding coordinates cell before :
  plan_ok (cluster_cardinality_mode params) (cluster_count config) (cells (ready pass)) ->
  cells (ready pass) = before ++ [cell] -> len (cell_stats pass) = clusters (cells (ready pass)) ->
  assign_point_to_cell (partition (ready pass)) coordinates = Ok (cell_key cell) ->
  cell_seen_counts pass !! length before = Some (cell_count cell) ->
  Trainer.ingest_partition (embedding, coordinates) pass = Panic.
Proof.
  intros Hok Hcells Hstats Hassign Hseen. unfold Trainer.ingest_partition. rewrite Hassign. cbn [rbind].
  assert (cells (ready pass) !! length before = Some cell) as Hcell by (rewrite Hcells; by apply list_lookup_middle).
  destruct (find_cell_spec (cells (ready pass)) (cell_key cell) "partition-ready cell plan was not stable" (plan_sorted _ _ _ Hok))
    as [(i & c & -> & Hi & Hk)|[_ Hnot]]; [|destruct Hnot; apply list_elem_of_fmap_2, list_elem_of_lookup; by eexists].
  assert (i = length before) as -> by exact (key_position _ _ _ _ _ (plan_sorted _ _ _ Hok) Hi Hcell Hk). cbn [rbind].
  rewrite Hcell, Hseen. cbn [expect rbind].
  pose proof (plan_numbered _ _ _ Hok) as Hfrom. rewrite Hcells in Hfrom. apply planned_app in Hfrom as [_ Hlast].
  inversion Hlast as [|? ? ? Ho He _]; subst. rewrite cluster_of_slot by done. cbn [rbind].
  rewrite lookup_ge_None_2; [done|]. rewrite Hcells in Hstats.
  rewrite clusters_app in Hstats. unfold slot, len, cell_clusters in *. rewrite (proj2 (N.ltb_ge _ _)) by lia. cbn in Hstats. unfold cell_clusters in Hstats. lia.
Qed.
End claims.

(** ** Examples *)
#[export] Instance sample_sha : Sha256 := checksum.
#[export] Instance sample_math : FloatMath := {| f64_ln := fun x => x; f64_exp := fun x => x; f64_powf := fun x _ => x |}.

Definition square : list (list f32) := [[0; 0]; [0; f32_one]; [f32_one; 0]; [f32_one; f32_one]]%N.
Definition sample_config : StreamingClusteringConfig :=
  {| cluster_count := 4; dimensions := 2; balance_constraints := None; random_seed := None |}.
Definition sample_params : DirectionalPcaParams :=
  {| retained_axis_policy := FixedCount 2; allocation_policy := EigenvalueLogBits; binning_policy := Quantile;
     cluster_cardinality_mode := Exact; variance_exponent := f32_one; temperature := f32_one; min_input_count := 2;
     min_effective_rank := 1; min_cumulative_variance := 0 |}.
Definition sample_trainer : DirectionalPcaStreamingTrainer := Trainer.Mk sample_config sample_params Idle AnalyzePca None None 0 None None false.
Definition trained_on (data : list (list f32)) : outcome DirectionalPcaStreamingTrainer :=
  run_passes sample_trainer (replicate 5 [data]).
Definition completed_on (data : list (list f32)) : DirectionalPcaStreamingTrainer :=
  match trained_on data with Ok t => (Trainer.complete_training t).2 | _ => sample_trainer end.
(** One point twice: three cells for four clusters. *)
Definition doubled : list (list f32) := [[0; 0]; [0; 0]; [f32_one; 0]; [f32_one; f32_one]]%N.
Definition doubled_classifier : DirectionalPcaStreamingClassifier :=
  match Classifier.into_classifier (completed_on doubled) with Ok c => c | _ => Classifier.Mk sample_config [] None end.
Definition doubled_plan : ReadyPartitionPlan :=
  default {| partition := {| transform := sample_transform; axis_plans := [] |}; cells := [] |} (Classifier.replay_plan doubled_classifier).
(** The pass that realizes it, once its items are in. *)
Definition realizing : ActivePartitionRealizationPass :=
  match run_passes sample_trainer (replicate 3 [doubled]) with
  | Ok t => match Trainer.active_pass (Trainer.ingest_batch doubled t).2 with
            | Some (ActiveRealizePartition pass) => pass
            | _ => {| realize_tracker := PassTracker_new; ready := doubled_plan; realize_cursor := Cursor; cell_seen_counts := []; cell_stats := [] |}
            end
  | _ => {| realize_tracker := PassTracker_new; ready := doubled_plan; realize_cursor := Cursor; cell_seen_counts := []; cell_stats := [] |}
  end.

Example sample_new : Trainer.new sample_config sample_params = Ok sample_trainer.
Proof. vm_compute; reflexivity. Qed.
Example doubled_run :
  rmap fst (Ok (replay_all doubled_classifier doubled (Classifier.for_ready_partition doubled_plan)) : outcome _) = Ok [0; 1; 2; 3]%N.
Proof. vm_compute; reflexivity. Qed.
Example doubled_sizes : Classifier.replay_order_child_counts doubled_classifier = Ok (Some [1; 1; 1; 1]%N).
Proof. vm_compute; reflexivity. Qed.

Lemma sample_dimensions : (dimensions sample_config * dimensions sample_config <= USIZE_MAX)%N.
Proof. by vm_compute. Qed.
Lemma sample_clusters : (cluster_count sample_config < 2 ^ 32)%N.
Proof. by vm_compute. Qed.
Lemma sample_reached : reached sample_config sample_params sample_trainer.
Proof. apply reached_new, sample_new. Qed.
Lemma completed_reached data : reached sample_config sample_params (completed_on data).
Proof.
  unfold completed_on, trained_on. destruct (run_passes sample_trainer (replicate 5 [data])) as [t| |] eqn:Ht; [|apply sample_reached..].
  apply reached_complete.
  apply (run_passes_ok sample_config sample_params sample_dimensions sample_clusters (replicate 5 [data]) sample_trainer t sample_reached Ht).
Qed.

Lemma quantile_cuts_accurate_witness : exists fresh full cuts,
  new_quantile 2 3 = Ok fresh /\ try_fold planner_observe fresh [f32_one; 0; f32_one]%N = Ok full
  /\ planner_finish_pass full = Ok (Ready (Thresholds cuts)) /\ len cuts = 1%N.
Proof.
  destruct (quantile_cuts_accurate 2 [f32_one; 0; f32_one]%N) as (fresh & full & cuts & H1 & H2 & H3 & H4 & _);
    [done|by vm_compute|done|]. by exists fresh, full, cuts.
Defined.

Lemma density_cuts_realized_witness : exists counting full cuts,
  planner_finish_pass (DensityMinMax {| minmax_bin_count := 2; minimum := Some 0%N; maximum := Some f32_one |}) = Ok counting
  /\ try_fold planner_observe counting [f32_one; 0; f32_one]%N = Ok full
  /\ planner_finish_pass full = Ok (Ready (Thresholds cuts)) /\ len cuts = 1%N.
Proof.
  destruct (density_cuts_realized 2 [f32_one; 0; f32_one]%N) as (counting & full & cuts & H1 & H2 & H3 & H4 & _ & H5); [done|].
  exists counting, full, cuts. split_and!; [exact H2|exact H3|exact H4|exact H5].
Defined.

Lemma trainer_calls_safe_witness : trainer_ok sample_trainer.
Proof. apply (trainer_calls_safe sample_config sample_params sample_trainer); [by vm_compute|by vm_compute|apply sample_reached]. Defined.

Lemma five_passes_complete_witness : match run_passes sample_trainer (replicate 5 [square]) with
  | Ok t => exists done c, Trainer.complete_training t = (Ok tt, done) /\ Classifier.into_classifier done = Ok c
      /\ Classifier.realized_cluster_count c = 4%N
  | _ => False
  end.
Proof.
  assert (match run_passes sample_trainer (replicate 5 [square]) with Ok _ => true | _ => false end = true) as Hdone by (vm_compute; reflexivity).
  destruct (run_passes sample_trainer (replicate 5 [square])) as [t|e|] eqn:Ht; [|done|done].
  destruct (five_passes_complete sample_config sample_params sample_trainer (replicate 5 [square]) t
    sample_dimensions sample_clusters sample_new Ht ltac:(done)) as (last & c & H1 & H2 & _ & H3 & _).
  exists last, c. split_and!; [exact H1|exact H2|]. by apply H3.
Defined.

Lemma replay_fills_plan_witness : exists sizes, Classifier.replay_order_child_counts doubled_classifier = Ok (Some sizes) /\ len sizes = 4%N.
Proof.
  destruct (replay_fills_plan sample_config sample_params (completed_on doubled) doubled_classifier doubled_plan
    sample_dimensions sample_clusters (completed_reached doubled)) as (sizes & H1 & H2 & _).
  - vm_compute; reflexivity.
  - vm_compute; reflexivity.
  - exists sizes. split; [exact H1|]. rewrite H2. vm_compute; reflexivity.
Defined.

Definition full_pass : ActivePartitionRealizationPass :=
  {| realize_tracker := PassTracker_new; ready := ready realizing; realize_cursor := Cursor; cell_seen_counts := [2; 1; 1]%N;
     cell_stats := replicate 4 (Trainer.empty_stats 2) |}.
Lemma extra_item_panics_witness : Trainer.ingest_partition ([f32_one; f32_one], [1056964608; 1056964608])%N full_pass = Panic.
Proof.
  assert (cells (ready full_pass) = [Build_ReadyCellPlan [0; 0] 2 1 0; Build_ReadyCellPlan [1; 0] 1 0 2; Build_ReadyCellPlan [1; 1] 1 0 3])%N as Hcells
    by (vm_compute; reflexivity).
  apply (extra_item_panics sample_config sample_params full_pass [f32_one; f32_one] [1056964608; 1056964608]%N
    (Build_ReadyCellPlan [1; 1] 1 0 3) [Build_ReadyCellPlan [0; 0] 2 1 0; Build_ReadyCellPlan [1; 0] 1 0 2])%N.
  - rewrite Hcells. split; [repeat (constructor; [done|done|]); constructor|repeat constructor|done|done|done].
  - exact Hcells.
  - rewrite Hcells. done.
  - vm_compute; reflexivity.
  - done.
Defined.
