(* ===== verification/Adaptive.v ===== *)
(** * Adaptive planning policy

    crates/lexongraph-adaptive-planning-policy/src/lib.rs: the selector between
    directional PCA and DCBC. At a boundary it trains a directional PCA over replays
    of the embeddings, measures how far they are from their centroids in one replay
    more, and switches to DCBC for good when the mean radius passes a threshold. *)
From S2P Require Import Prelude Ordering Hash Ieee Clustering Pca DpcaPlanner DpcaPlan DirectionalPca.

(** [DEFAULT_MEAN_CLUSTER_RADIUS_THRESHOLD], 0.25 *)
Definition DEFAULT_MEAN_CLUSTER_RADIUS_THRESHOLD : f32 := 1048576000.

(** ** Settings *)
Inductive AdaptivePlanningDirection := Divisive | Agglomerative.
Record AdaptiveDirectionalPcaSettings := {
  pca_cluster_count : N; pca_random_seed : option N; pca_params : DirectionalPcaParams
}.
Record AdaptiveDcbcSettings := {
  dcbc_cluster_count : N; dcbc_balance_constraints : option BalanceConstraints; dcbc_random_seed : option N
}.
Record AdaptiveSwitchCriteria := { mean_cluster_radius_threshold : f32 }.
Record AdaptivePlanningSettings := {
  direction : AdaptivePlanningDirection; directional_pca : AdaptiveDirectionalPcaSettings;
  dcbc : AdaptiveDcbcSettings; switch_criteria : AdaptiveSwitchCriteria
}.

Inductive ActivePlanningAlgorithm := DirectionalPcaAlgorithm | DcbcAlgorithm.
Inductive AdaptivePlanningDecisionReason := InitialDirectionalPcaSegment | EvaluatedDirectionalPca | PreviouslySwitchedToDcbc.
Record AdaptivePlanningDiagnostics := { represented_item_count : N; mean_cluster_radius : f32 }.
Record AdaptiveSwitchDecisionRecord := {
  active_algorithm : ActivePlanningAlgorithm; switch_boundary_occurred : bool;
  reason : AdaptivePlanningDecisionReason; collapse_diagnostics : option AdaptivePlanningDiagnostics
}.
Inductive AdaptiveReplayStage := CollectingSummaries | MeasuringDecision.
Inductive AdaptiveSelectionProgress :=
| Selected (algorithm : ActivePlanningAlgorithm)
| ReplayRequired (stage : AdaptiveReplayStage).

Inductive AdaptivePlanningError :=
| InvalidAdaptiveConfiguration (message : string)
| DiagnosticComputation (message : string).
Notation adaptive := (result AdaptivePlanningError).

Definition AdaptivePlanningError_to_string (e : AdaptivePlanningError) : string :=
  match e with
  | InvalidAdaptiveConfiguration message => "adaptive planning configuration is invalid: " +:+ message
  | DiagnosticComputation message => "adaptive planning diagnostics could not be computed: " +:+ message
  end%stdpp.

Definition map_streaming_clustering_error (e : StreamingClusteringError) : AdaptivePlanningError :=
  match e with
  | InvalidConfiguration message => InvalidAdaptiveConfiguration message
  | _ => DiagnosticComputation (StreamingClusteringError_to_string e)
  end.

Section show.
Context `{ShowFloat}.

Definition validate_directional_pca_params (settings : AdaptiveDirectionalPcaSettings) : adaptive unit :=
  let params := pca_params settings in
  let? _ := match retained_axis_policy params with
    | FixedCount n =>
        guard? negb (n =? 0)%N else
          InvalidAdaptiveConfiguration "retained_axis_policy = FixedCount(n) requires n to be greater than zero" in
        guard? negb (pca_cluster_count settings <? n)%N else
          InvalidAdaptiveConfiguration ("retained_axis_policy = FixedCount(" +:+ pretty n
            +:+ ") cannot exceed directional-PCA cluster_count " +:+ pretty (pca_cluster_count settings))%stdpp in
        guard? negb (n <? min_effective_rank params)%N else
          InvalidAdaptiveConfiguration ("min_effective_rank must be in [1, FixedCount(n)=" +:+ pretty n +:+ "], got "
            +:+ pretty (min_effective_rank params))%stdpp in
        Ok tt
    | AdaptiveAllEligible =>
        guard? negb (negb (log_bits (allocation_policy params)) && (pca_cluster_count settings <? min_effective_rank params)%N) else
          InvalidAdaptiveConfiguration ("min_effective_rank " +:+ pretty (min_effective_rank params)
            +:+ " cannot exceed centroid-weighted adaptive axis budget " +:+ pretty (pca_cluster_count settings))%stdpp in
        Ok tt
    end in
  guard? negb (log_bits (allocation_policy params) && negb (is_power_of_two (pca_cluster_count settings))) else
    InvalidAdaptiveConfiguration ("directional-PCA eigenvalue log-bit allocation requires a power-of-two cluster_count, got "
      +:+ pretty (pca_cluster_count settings))%stdpp in
  guard? f32_is_finite (variance_exponent params) && negb (f32_lt_zero (variance_exponent params)) else
    InvalidAdaptiveConfiguration ("variance_exponent must be finite and non-negative, got " +:+ show_f32 (variance_exponent params))%stdpp in
  guard? f32_is_finite (temperature params) && negb (fleb binary32 (temperature params) 0) else
    InvalidAdaptiveConfiguration ("temperature must be finite and positive, got " +:+ show_f32 (temperature params))%stdpp in
  guard? negb (min_input_count params <? 2)%N else
    InvalidAdaptiveConfiguration ("min_input_count must be at least 2, got " +:+ pretty (min_input_count params))%stdpp in
  guard? negb (min_effective_rank params =? 0)%N else
    InvalidAdaptiveConfiguration ("min_effective_rank must be at least 1, got " +:+ pretty (min_effective_rank params))%stdpp in
  guard? f32_is_finite (min_cumulative_variance params)
         && (fleb binary32 0 (min_cumulative_variance params) && fleb binary32 (min_cumulative_variance params) f32_one) else
    InvalidAdaptiveConfiguration ("directional-PCA min_cumulative_variance must be finite and in [0.0, 1.0], got "
      +:+ show_f32 (min_cumulative_variance params))%stdpp in
  Ok tt.

Definition validate_settings (settings : AdaptivePlanningSettings) : adaptive unit :=
  guard? negb (pca_cluster_count (directional_pca settings) =? 0)%N else
    InvalidAdaptiveConfiguration "directional-PCA cluster_count must be greater than zero" in
  guard? negb (dcbc_cluster_count (dcbc settings) =? 0)%N else
    InvalidAdaptiveConfiguration "DCBC cluster_count must be greater than zero" in
  let threshold := mean_cluster_radius_threshold (switch_criteria settings) in
  guard? negb (negb (f32_is_finite threshold) || f32_lt_zero threshold) else
    InvalidAdaptiveConfiguration "mean_cluster_radius_threshold must be finite and non-negative" in
  validate_directional_pca_params (directional_pca settings).
End show.

(** [1 << (BITS - 1 - leading_zeros)] *)
Definition highest_power_of_two_at_most (value : N) : N :=
  if (value <=? 1)%N then value else N.shiftl 1 (N.log2 value).
Definition diagnostic_cluster_count (configured_cluster_count embedding_count : N) (policy : DirectionalPcaAllocationPolicy) : adaptive N :=
  let? configured := ok_or (usize_try_from configured_cluster_count)
    (InvalidAdaptiveConfiguration "directional-PCA cluster_count does not fit in usize") in
  let capped := N.min configured (N.max embedding_count 1) in
  let adjusted := if log_bits policy && (1 <? capped)%N then highest_power_of_two_at_most capped else capped in
  guard? (adjusted <? 2 ^ 32)%N else InvalidAdaptiveConfiguration "diagnostic cluster_count exceeds u32::MAX" in
  Ok adjusted.

(** ** The measurement *)
Record MeanClusterRadiusMeasurement := {
  represented : N; expected_embeddings : N;
  (** in the order of the clusters *)
  cluster_radius_sums : list (N * (f64 * N)); observed_embedding_count : N
}.
Definition MeanClusterRadiusMeasurement_new (represented boundary_embedding_count : N) : MeanClusterRadiusMeasurement :=
  {| represented := represented; expected_embeddings := boundary_embedding_count; cluster_radius_sums := []; observed_embedding_count := 0 |}.

(** The entry of a cluster, [(0.0, 0)] where there is none, and the map with it replaced. *)
Fixpoint radius_entry (cluster : N) (m : list (N * (f64 * N))) : f64 * N :=
  match m with
  | [] => (0, 0)%N
  | (k, entry) :: m => match N.compare cluster k with Lt => (0, 0)%N | Eq => entry | Gt => radius_entry cluster m end
  end.
Fixpoint set_radius_entry (cluster : N) (entry : f64 * N) (m : list (N * (f64 * N))) : list (N * (f64 * N)) :=
  match m with
  | [] => [(cluster, entry)]
  | (k, e) :: rest =>
      match N.compare cluster k with
      | Lt => (cluster, entry) :: m
      | Eq => (k, entry) :: rest
      | Gt => (k, e) :: set_radius_entry cluster entry rest
      end
  end.

(** The sum is stored before it is found to be finite. *)
Definition observe_distance (cluster : N) (distance : f64) (m : MeanClusterRadiusMeasurement) : adaptive unit * MeanClusterRadiusMeasurement :=
  let '(sum, count) := radius_entry cluster (cluster_radius_sums m) in
  let sum := fadd binary64 sum distance in
  let stored count observed := {| represented := represented m; expected_embeddings := expected_embeddings m;
    cluster_radius_sums := set_radius_entry cluster (sum, count) (cluster_radius_sums m); observed_embedding_count := observed |} in
  if negb (f64_is_finite sum) then
    (Err (DiagnosticComputation "mean cluster radius accumulation became non-finite"), stored count (observed_embedding_count m))
  else (Ok tt, stored (count + 1)%N (observed_embedding_count m + 1)%N).

Fixpoint observe_batch (classifier : DirectionalPcaStreamingClassifier) (embeddings : list (list f32)) (m : MeanClusterRadiusMeasurement)
  : adaptive unit * MeanClusterRadiusMeasurement :=
  match embeddings with
  | [] => (Ok tt, m)
  | embedding :: embeddings =>
      match map_err map_streaming_clustering_error (Classifier.assigned_distance classifier embedding) with
      | Ok (cluster, distance) =>
          match observe_distance cluster distance m with
          | (Ok _, m) => observe_batch classifier embeddings m
          | r => r
          end
      | Err e => (Err e, m)
      | Panic => (Panic, m)
      end
  end.

Definition add_mean_radius (total : f64) (p : N * (f64 * N)) : adaptive f64 :=
  let '(cluster_id, (member_radius_sum, member_count)) := p in
  guard? negb (member_count =? 0)%N else
    DiagnosticComputation ("cluster " +:+ pretty cluster_id +:+ " did not retain any members")%stdpp in
  let mean_cluster_radius := fdiv binary64 member_radius_sum (f_of_Z binary64 (Z.of_N member_count)) in
  guard? f64_is_finite mean_cluster_radius else DiagnosticComputation "per-cluster mean radius became non-finite" in
  let total := fadd binary64 total mean_cluster_radius in
  guard? f64_is_finite total else DiagnosticComputation "mean cluster radius total became non-finite" in
  Ok total.
Definition measurement_finish (m : MeanClusterRadiusMeasurement) : adaptive AdaptivePlanningDiagnostics :=
  guard? negb ((observed_embedding_count m =? 0)%N || bool_decide (cluster_radius_sums m = [])) else
    DiagnosticComputation "mean cluster radius requires at least one observed embedding" in
  guard? (observed_embedding_count m =? expected_embeddings m)%N else
    DiagnosticComputation ("mean cluster radius expected " +:+ pretty (expected_embeddings m)
      +:+ " observed embeddings but received " +:+ pretty (observed_embedding_count m))%stdpp in
  let? total := try_fold add_mean_radius 0%N (cluster_radius_sums m) in
  let mean := fdiv binary64 total (f_of_Z binary64 (Z.of_N (len (cluster_radius_sums m)))) in
  guard? f64_is_finite mean else DiagnosticComputation "mean cluster radius became non-finite" in
  Ok {| represented_item_count := represented m; mean_cluster_radius := f32_of_f64 mean |}.

(** ** A boundary *)
Record AdaptiveDecisionBoundary := Boundary {
  boundary_items : N; boundary_embedding_count : N; boundary_phase : AdaptiveReplayStage; partition_ready_passes : N;
  boundary_trainer : option DirectionalPcaStreamingTrainer; boundary_classifier : option DirectionalPcaStreamingClassifier;
  measurement : option MeanClusterRadiusMeasurement
}.
Inductive AdaptiveBoundaryState := CollectingState | MeasuringState | SelectedState (diagnostics : AdaptivePlanningDiagnostics).

Section boundary.
Context `{ShowFloat}.

Definition AdaptiveDecisionBoundary_new (represented_item_count boundary_embedding_count dimensions : N)
  (settings : AdaptiveDirectionalPcaSettings) : adaptive AdaptiveDecisionBoundary :=
  guard? negb (represented_item_count =? 0)%N else DiagnosticComputation "represented_item_count must be greater than zero" in
  guard? negb (boundary_embedding_count =? 0)%N else
    DiagnosticComputation "adaptive diagnostics require at least one boundary embedding" in
  guard? negb (represented_item_count <? boundary_embedding_count)%N else
    DiagnosticComputation ("represented_item_count " +:+ pretty represented_item_count
      +:+ " cannot be smaller than the boundary embedding count " +:+ pretty boundary_embedding_count)%stdpp in
  guard? negb (dimensions =? 0)%N else DiagnosticComputation "adaptive diagnostics require non-empty embeddings" in
  let? cluster_count := diagnostic_cluster_count (pca_cluster_count settings) boundary_embedding_count (allocation_policy (pca_params settings)) in
  let? trainer := map_err map_streaming_clustering_error (Trainer.new
    {| cluster_count := cluster_count; dimensions := dimensions; balance_constraints := None; random_seed := pca_random_seed settings |}
    (pca_params settings)) in
  Ok (Boundary represented_item_count boundary_embedding_count CollectingSummaries 0 (Some trainer) None None).

Definition with_trainer (t : option DirectionalPcaStreamingTrainer) (b : AdaptiveDecisionBoundary) : AdaptiveDecisionBoundary :=
  Boundary (boundary_items b) (boundary_embedding_count b) (boundary_phase b) (partition_ready_passes b) t (boundary_classifier b) (measurement b).
Definition with_measurement (m : option MeanClusterRadiusMeasurement) (b : AdaptiveDecisionBoundary) : AdaptiveDecisionBoundary :=
  Boundary (boundary_items b) (boundary_embedding_count b) (boundary_phase b) (partition_ready_passes b) (boundary_trainer b) (boundary_classifier b) m.
Definition ready_pass (b : AdaptiveDecisionBoundary) : AdaptiveDecisionBoundary :=
  Boundary (boundary_items b) (boundary_embedding_count b) (boundary_phase b) (partition_ready_passes b + 1) (boundary_trainer b)
    (boundary_classifier b) (measurement b).

Definition boundary_ingest (embeddings : list (list f32)) (b : AdaptiveDecisionBoundary) : adaptive unit * AdaptiveDecisionBoundary :=
  match boundary_phase b with
  | CollectingSummaries =>
      match boundary_trainer b with
      | None => (Err (DiagnosticComputation "directional-PCA training pass is not active"), b)
      | Some trainer =>
          let '(r, trainer) := Trainer.ingest_batch embeddings trainer in
          (map_err map_streaming_clustering_error r, with_trainer (Some trainer) b)
      end
  | MeasuringDecision =>
      match measurement b, boundary_classifier b with
      | None, _ => (Err (DiagnosticComputation "adaptive measurement pass is not active"), b)
      | _, None => (Err (DiagnosticComputation "directional-PCA classifier is not available for measurement"), b)
      | Some m, Some classifier =>
          let '(r, m) := observe_batch classifier embeddings m in (r, with_measurement (Some m) b)
      end
  end.

Section finish.
Context `{Sha256} `{FloatMath} `{SymmetricEigen}.

(** The trainer is taken; what follows drops it. *)
Definition make_classifier (b : AdaptiveDecisionBoundary) : adaptive AdaptiveBoundaryState * AdaptiveDecisionBoundary :=
  match boundary_trainer b with
  | None => (Err (DiagnosticComputation "directional-PCA trainer disappeared before classifier creation"), b)
  | Some trainer =>
      let b := with_trainer None b in
      let '(completed, trainer) := Trainer.complete_training trainer in
      match (let? _ := map_err map_streaming_clustering_error completed in
             map_err map_streaming_clustering_error (Classifier.into_classifier trainer)) with
      | Ok classifier =>
          (Ok MeasuringState, Boundary (boundary_items b) (boundary_embedding_count b) MeasuringDecision (partition_ready_passes b) None
            (Some classifier) (Some (MeanClusterRadiusMeasurement_new (boundary_items b) (boundary_embedding_count b))))
      | Err e => (Err e, b)
      | Panic => (Panic, b)
      end
  end.

Definition boundary_finish (b : AdaptiveDecisionBoundary) : adaptive AdaptiveBoundaryState * AdaptiveDecisionBoundary :=
  match boundary_phase b with
  | CollectingSummaries =>
      match boundary_trainer b with
      | None => (Err (DiagnosticComputation "directional-PCA training pass is not active"), b)
      | Some trainer =>
          let '(r, trainer) := Trainer.finish_pass trainer in
          let b := with_trainer (Some trainer) b in
          match map_err map_streaming_clustering_error r with
          | Ok report =>
              match readiness report with
              | AnalysisOnly => (Ok CollectingState, b)
              | PartitionReady =>
                  let b := ready_pass b in
                  if (partition_ready_passes b <? 2)%N then (Ok CollectingState, b) else make_classifier b
              end
          | Err e => (Err e, b)
          | Panic => (Panic, b)
          end
      end
  | MeasuringDecision =>
      match measurement b with
      | None => (Err (DiagnosticComputation "adaptive measurement pass is not active"), b)
      | Some m => (rmap SelectedState (measurement_finish m), with_measurement None b)
      end
  end.
End finish.
End boundary.

(** ** The selector *)
Record AdaptivePlanningSelector := Selector {
  settings : AdaptivePlanningSettings; switched_to_dcbc : bool;
  decision_records : list AdaptiveSwitchDecisionRecord; active_boundary : option AdaptiveDecisionBoundary
}.

Definition record_decision (r : AdaptiveSwitchDecisionRecord) (s : AdaptivePlanningSelector) : AdaptivePlanningSelector :=
  Selector (settings s) (switched_to_dcbc s) (decision_records s ++ [r]) (active_boundary s).
Definition with_boundary (b : option AdaptiveDecisionBoundary) (s : AdaptivePlanningSelector) : AdaptivePlanningSelector :=
  Selector (settings s) (switched_to_dcbc s) (decision_records s) b.

Section selector.
Context `{ShowFloat}.

Definition AdaptivePlanningSelector_new (settings : AdaptivePlanningSettings) : adaptive AdaptivePlanningSelector :=
  let? _ := validate_settings settings in Ok (Selector settings false [] None).

Definition previously_switched : AdaptiveSwitchDecisionRecord :=
  {| active_algorithm := DcbcAlgorithm; switch_boundary_occurred := false; reason := PreviouslySwitchedToDcbc; collapse_diagnostics := None |}.
Definition initial_segment : AdaptiveSwitchDecisionRecord :=
  {| active_algorithm := DirectionalPcaAlgorithm; switch_boundary_occurred := false; reason := InitialDirectionalPcaSegment;
     collapse_diagnostics := None |}.

Definition begin_selection_boundary (represented_item_count boundary_embedding_count dimensions : N) (s : AdaptivePlanningSelector)
  : adaptive AdaptiveSelectionProgress * AdaptivePlanningSelector :=
  match active_boundary s with
  | Some _ => (Err (DiagnosticComputation "adaptive selection boundary is already active"), s)
  | None =>
      if switched_to_dcbc s then (Ok (Selected DcbcAlgorithm), record_decision previously_switched s)
      else if bool_decide (length (decision_records s) = 0%nat) then (Ok (Selected DirectionalPcaAlgorithm), record_decision initial_segment s)
      else
        match AdaptiveDecisionBoundary_new represented_item_count boundary_embedding_count dimensions (directional_pca (settings s)) with
        | Ok b => (Ok (ReplayRequired CollectingSummaries), with_boundary (Some b) s)
        | Err e => (Err e, s)
        | Panic => (Panic, s)
        end
  end.

Definition ingest_selection_batch (embeddings : list (list f32)) (s : AdaptivePlanningSelector) : adaptive unit * AdaptivePlanningSelector :=
  match active_boundary s with
  | None => (Err (DiagnosticComputation "adaptive selection boundary is not active"), s)
  | Some b => let '(r, b) := boundary_ingest embeddings b in (r, with_boundary (Some b) s)
  end.

Definition select (diagnostics : AdaptivePlanningDiagnostics) (s : AdaptivePlanningSelector) : AdaptiveSelectionProgress * AdaptivePlanningSelector :=
  let switches := fltb binary32 (mean_cluster_radius_threshold (switch_criteria (settings s))) (mean_cluster_radius diagnostics) in
  let algorithm := if switches then DcbcAlgorithm else DirectionalPcaAlgorithm in
  (Selected algorithm,
   Selector (settings s) (switches || switched_to_dcbc s)
     (decision_records s ++ [{| active_algorithm := algorithm; switch_boundary_occurred := switches; reason := EvaluatedDirectionalPca;
       collapse_diagnostics := Some diagnostics |}]) None).

Definition finish_selection_pass `{Sha256} `{FloatMath} `{SymmetricEigen} (s : AdaptivePlanningSelector)
  : adaptive AdaptiveSelectionProgress * AdaptivePlanningSelector :=
  match active_boundary s with
  | None => (Err (DiagnosticComputation "adaptive selection boundary is not active"), s)
  | Some b =>
      let '(r, b) := boundary_finish b in
      let s := with_boundary (Some b) s in
      match r with
      | Ok CollectingState => (Ok (ReplayRequired CollectingSummaries), s)
      | Ok MeasuringState => (Ok (ReplayRequired MeasuringDecision), s)
      | Ok (SelectedState diagnostics) => let '(progress, s) := select diagnostics s in (Ok progress, s)
      | Err e => (Err e, s)
      | Panic => (Panic, s)
      end
  end.
End selector.
