(* ===== verification/AdaptiveCorrect.v ===== *)
(** * Adaptive planning policy: what the selector keeps

    A boundary owns a trainer until its second pass that is ready with a partition,
    which is the one that makes the model, and a classifier from then on; a pass that
    is finished brings it closer to its decision. The measurement is the mean of the
    clusters' mean radii, whatever the batches.

    Then: adaptive planning policy: boundaries and histories. *)
From S2P Require Import Prelude Ordering Hash Ieee Clustering Pca PcaCodec PcaCorrect DpcaPlanner DpcaPlan DirectionalPca DpcaCells DpcaTrainer DpcaFinish Adaptive.

(** ** The measurement *)
Definition distances (k : N) (assigned : list (N * f64)) : list f64 := map snd (filter (fun p => p.1 = k) assigned).
Definition radius_of (assigned : list (N * f64)) (k : N) : f64 * N :=
  (fold_left (fadd binary64) (distances k assigned) 0%N, len (distances k assigned)).
(** The clusters that were assigned to, in order; [n] of them there are. *)
Definition present (n : nat) (assigned : list (N * f64)) : list N :=
  filter (fun k => k ∈ map fst assigned) (map N.of_nat (seq 0 n)).
(** The mean of the mean radii. *)
Definition mean_radius (n : nat) (assigned : list (N * f64)) : f64 :=
  let means := map (fun k => let r := radius_of assigned k in fdiv binary64 r.1 (f_of_Z binary64 (Z.of_N r.2))) (present n assigned) in
  fdiv binary64 (fold_left (fadd binary64) means 0%N) (f_of_Z binary64 (Z.of_N (len means))).

Record measured (n : nat) (assigned : list (N * f64)) (m : MeanClusterRadiusMeasurement) : Prop := {
  measured_sorted : StronglySorted N.lt (map fst (cluster_radius_sums m));
  measured_entries : forall k e, (k, e) ∈ cluster_radius_sums m <-> k ∈ map fst assigned /\ e = radius_of assigned k;
  measured_count : observed_embedding_count m = len assigned;
  measured_range : Forall (fun p => p.1 < N.of_nat n)%N assigned
}.

Lemma distances_snoc k assigned p :
  distances k (assigned ++ [p]) = distances k assigned ++ if decide (p.1 = k) then [p.2] else [].
Proof. unfold distances. rewrite filter_app, map_app. f_equal. rewrite filter_cons, filter_nil. by destruct (decide _). Qed.
Lemma distances_none k assigned : k ∉ map fst assigned -> distances k assigned = [].
Proof.
  unfold distances. induction assigned as [|p l IH]; [done|]. cbn [map]. rewrite filter_cons. intros Hk.
  destruct (decide (p.1 = k)); [set_solver|]. apply IH. set_solver.
Qed.

Section sums.
Implicit Types m : list (N * (f64 * N)).

Lemma radius_entry_in k e m : StronglySorted N.lt (map fst m) -> (k, e) ∈ m -> radius_entry k m = e.
Proof.
  induction m as [|[k' e'] m IH]; intros Hs Hin; [set_solver|]. cbn in Hs. apply StronglySorted_inv in Hs as [Hs Hk].
  cbn. apply elem_of_cons in Hin as [Hin|Hin]; [simplify_eq; by rewrite N.compare_refl|].
  rewrite Forall_forall in Hk. assert (k' < k)%N by (apply Hk; by apply (list_elem_of_fmap_2 fst m (k, e))).
  rewrite (proj2 (N.compare_gt_iff _ _)) by done. by apply IH.
Qed.
Lemma radius_entry_out k m : k ∉ map fst m -> radius_entry k m = (0, 0)%N.
Proof.
  induction m as [|[k' e'] m IH]; intros Hk; [done|]. cbn in *. destruct (N.compare_spec k k') as [->|Hlt|Hgt]; [set_solver|done|].
  apply IH. set_solver.
Qed.

Lemma set_entry_keys k e m x : x ∈ map fst (set_radius_entry k e m) <-> x = k \/ x ∈ map fst m.
Proof.
  induction m as [|[k' e'] m IH]; cbn; [set_solver|]. destruct (N.compare_spec k k') as [->|Hlt|Hgt]; cbn; set_solver.
Qed.
Lemma set_entry_sorted k e m : StronglySorted N.lt (map fst m) -> StronglySorted N.lt (map fst (set_radius_entry k e m)).
Proof.
  induction m as [|[k' e'] m IH]; intros Hs; cbn; [repeat constructor|]. cbn in Hs. pose proof Hs as [Hs' Hk]%StronglySorted_inv.
  destruct (N.compare_spec k k') as [->|Hlt|Hgt]; cbn; [done|constructor; [done|]|].
  - constructor; [done|]. eapply Forall_impl; [exact Hk|]. cbn. intros; lia.
  - constructor; [by apply IH|]. apply Forall_forall. rewrite Forall_forall in Hk. intros x [->|Hx]%set_entry_keys; [done|by apply Hk].
Qed.
Lemma set_entry_in k e m x y : StronglySorted N.lt (map fst m) ->
  (x, y) ∈ set_radius_entry k e m <-> (x = k /\ y = e) \/ (x <> k /\ (x, y) ∈ m).
Proof.
  induction m as [|[k' e'] m IH]; intros Hs; cbn; [set_solver|]. cbn in Hs. apply StronglySorted_inv in Hs as [Hs Hk]. rewrite Forall_forall in Hk.
  assert (Hbelow : forall z w, (z, w) ∈ m -> (k' < z)%N) by (intros z w Hz; apply Hk; by apply (list_elem_of_fmap_2 fst m (z, w))).
  destruct (N.compare_spec k k') as [->|Hlt|Hgt].
  - rewrite !elem_of_cons. split; [|set_solver]. intros [?|Hin]; [simplify_eq; by left|]. right. split; [|by right].
    intros ->. specialize (Hbelow _ _ Hin). lia.
  - rewrite !elem_of_cons. split; [|set_solver]. intros [?|[?|Hin]]; simplify_eq; [by left|right; split; [lia|by left]|].
    right. split; [|by right]. intros ->. specialize (Hbelow _ _ Hin). lia.
  - rewrite !elem_of_cons, IH by done. split; [|set_solver]. intros [?|[?|?]]; simplify_eq; [right; split; [lia|by left]|by left|].
    right. split; [tauto|right; tauto].
Qed.
End sums.

Lemma measured_new n r k : measured n [] (MeanClusterRadiusMeasurement_new r k).
Proof. split; cbn; [constructor|set_solver|done|constructor]. Qed.

Lemma observe_measured n assigned m k d m' : measured n assigned m -> (k < N.of_nat n)%N -> observe_distance k d m = (Ok tt, m') ->
  measured n (assigned ++ [(k, d)]) m' /\ represented m' = represented m /\ expected_embeddings m' = expected_embeddings m.
Proof.
  intros [H1 H2 H3 H4] Hk Ho. unfold observe_distance in Ho.
  assert (radius_entry k (cluster_radius_sums m) = radius_of assigned k) as Hentry.
  { destruct (decide (k ∈ map fst assigned)) as [Hin|Hout]; [apply radius_entry_in; [done|by apply H2]|].
    rewrite radius_entry_out; [unfold radius_of; by rewrite (distances_none k assigned Hout)|].
    intros ([k' e] & -> & Hin)%list_elem_of_fmap. by apply H2 in Hin as [? _]. }
  rewrite Hentry in Ho. destruct (radius_of assigned k) as [sum count] eqn:Hr. destruct (negb _); [done|]. injection Ho as <-. cbn.
  split; [|done]. split; cbn.
  - by apply set_entry_sorted.
  - intros x e. rewrite set_entry_in by done. rewrite H2, map_app. cbn [map fst]. unfold radius_of in *. rewrite distances_snoc. cbn [fst snd].
    destruct (decide (k = x)) as [->|Hne].
    + rewrite fold_left_app. cbn [fold_left]. injection Hr as <- <-. unfold len. rewrite length_app. cbn [length].
      replace (N.of_nat (length (distances x assigned) + 1)) with (N.of_nat (length (distances x assigned)) + 1)%N by lia. set_solver.
    + rewrite app_nil_r. set_solver.
  - rewrite H3. unfold len. rewrite length_app. cbn. lia.
  - apply Forall_app. split; [done|by constructor].
Qed.

(** The distances of the embeddings, in order. *)
Definition assigned_by (c : DirectionalPcaStreamingClassifier) (embeddings : list (list f32)) : outcome (list (N * f64)) :=
  collect_map (Classifier.assigned_distance c) embeddings.

Lemma nearer_ok embedding centroids l : forall best r, (forall i, i ∈ l -> i < length centroids)%nat -> (best.1 < length centroids)%nat ->
  try_fold (Classifier.nearer embedding centroids) best l = Ok r -> (r.1 < length centroids)%nat.
Proof.
  induction l as [|i l IH]; intros best r Hl Hb Hr; cbn [try_fold] in Hr; [by simplify_eq|].
  apply rbind_ok in Hr as (best' & Hn & Hr). apply IH in Hr; [done|set_solver|].
  unfold Classifier.nearer in Hn. inv_oks. simplify_eq. assert (i < length centroids)%nat by (apply Hl; set_solver). case_match; by simplify_eq.
Qed.
Lemma assigned_range c embedding k d : Classifier.assigned_distance c embedding = Ok (k, d) -> (k < len (Classifier.centroids c))%N.
Proof.
  unfold Classifier.assigned_distance. intros Ha. inv_oks. destruct (Classifier.centroids c) as [|c0 l] eqn:Hc; [done|].
  simplify_eq. rewrite <-Hc in *.
  match goal with Hf : try_fold _ _ _ = Ok _ |- _ => apply nearer_ok in Hf; cbn in Hf end.
  - eapply N.le_lt_trans; [apply N.Div0.mod_le|]. unfold len. lia.
  - intros i Hi%elem_of_seq. lia.
  - rewrite Hc. cbn. lia.
Qed.

Lemma observe_batch_measured c n assigned embeddings : forall m m', n = length (Classifier.centroids c) ->
  measured n assigned m -> observe_batch c embeddings m = (Ok tt, m') ->
  exists more, assigned_by c embeddings = Ok more /\ measured n (assigned ++ more) m'
    /\ represented m' = represented m /\ expected_embeddings m' = expected_embeddings m.
Proof.
  unfold assigned_by. revert assigned. induction embeddings as [|v embeddings IH]; intros assigned m m' Hn Hm Ho; cbn [observe_batch collect_map] in *.
  { simplify_eq. exists []. by rewrite app_nil_r. }
  destruct (Classifier.assigned_distance c v) as [[k d]|e|] eqn:Ha; cbn [map_err] in Ho; try done.
  destruct (observe_distance k d m) as [[[]|e|] m1] eqn:Hd; try done.
  destruct (observe_measured n assigned m k d m1 Hm) as (Hm1 & Hr1 & He1); [|done|].
  { apply assigned_range in Ha. subst n. exact Ha. }
  destruct (IH _ _ _ Hn Hm1 Ho) as (more & -> & Hm' & Hr' & He'). exists ((k, d) :: more). cbn [rbind].
  rewrite <-app_assoc in Hm'. split_and!; [done|done|congruence|congruence].
Qed.

Lemma mean_fold m : forall total r, try_fold add_mean_radius total m = Ok r ->
  r = fold_left (fadd binary64) (map (fun p : N * (f64 * N) => fdiv binary64 p.2.1 (f_of_Z binary64 (Z.of_N p.2.2))) m) total.
Proof.
  induction m as [|[k [sum count]] m IH]; intros total r Hr; cbn [try_fold] in Hr; [by simplify_eq|].
  apply rbind_ok in Hr as (total' & Hadd & Hr). apply IH in Hr as ->. unfold add_mean_radius in Hadd. inv_oks. by simplify_eq.
Qed.

Lemma sorted_filter (P : N -> Prop) `{!forall k, Decision (P k)} l : StronglySorted N.lt l -> StronglySorted N.lt (filter P l).
Proof.
  induction 1 as [|k l Hl IH Hk]; [constructor|]. rewrite filter_cons. destruct (decide (P k)); [|done]. constructor; [done|].
  apply Forall_forall. intros x [_ Hx]%list_elem_of_filter. rewrite Forall_forall in Hk. by apply Hk.
Qed.
Lemma sorted_seq start n : StronglySorted N.lt (map N.of_nat (seq start n)).
Proof.
  revert start. induction n as [|n IH]; intros start; cbn [seq map]; constructor; [apply IH|].
  apply Forall_forall. intros x (y & -> & Hy%elem_of_seq)%list_elem_of_fmap. lia.
Qed.
Lemma sorted_same l k : StronglySorted N.lt l -> StronglySorted N.lt k -> (forall x, x ∈ l <-> x ∈ k) -> l = k.
Proof.
  assert (forall l, StronglySorted N.lt l -> NoDup l) as Hnd.
  { induction 1 as [|x l' Hl IH Hx]; constructor; [|done]. rewrite Forall_forall in Hx. intros Hin. specialize (Hx x Hin). lia. }
  intros Hl Hk Hin. apply (StronglySorted_unique_strong N.lt); [lia|done|done|]. apply NoDup_Permutation; auto.
Qed.

Lemma sums_present n assigned m : measured n assigned m -> cluster_radius_sums m = map (fun k => (k, radius_of assigned k)) (present n assigned).
Proof.
  intros [H1 H2 _ H4].
  assert (map fst (cluster_radius_sums m) = present n assigned) as <-.
  { apply sorted_same; [done|apply sorted_filter, sorted_seq|]. intros k. unfold present. rewrite list_elem_of_filter, list_elem_of_fmap.
    split.
    - intros ([k' e] & -> & [Hin _]%H2). split; [done|]. apply list_elem_of_fmap in Hin as (p & Hp & Hin). rewrite Forall_forall in H4.
      specialize (H4 p Hin). cbn in *. subst k'. apply list_elem_of_fmap. exists (N.to_nat p.1). rewrite elem_of_seq. lia.
    - intros [Hk _]. exists (k, radius_of assigned k). split; [done|]. by apply H2. }
  rewrite <-(map_id (cluster_radius_sums m)) at 1. rewrite map_map. apply map_ext_in. intros [k e] Hin%list_elem_of_In. apply H2 in Hin as [_ ->]. done.
Qed.

(** The measurement of a boundary: the embeddings of all its batches. *)
Lemma finish_measured n assigned m d : measured n assigned m -> measurement_finish m = Ok d ->
  len assigned = expected_embeddings m
  /\ d = {| represented_item_count := represented m; mean_cluster_radius := f32_of_f64 (mean_radius n assigned) |}
  /\ f64_is_finite (mean_radius n assigned) = true.
Proof.
  intros Hm Hf. unfold measurement_finish in Hf. inv_oks. simplify_eq.
  match goal with Ht : try_fold _ _ _ = Ok _ |- _ => apply mean_fold in Ht; rewrite (sums_present n assigned m Hm), map_map in Ht; subst end.
  assert (len (cluster_radius_sums m) = len (present n assigned)) as Hlen.
  { rewrite (sums_present n assigned m Hm). unfold len. by rewrite length_map. }
  rewrite Hlen in *. unfold mean_radius.
  assert (forall (f : N -> f64) l, len (map f l) = len l) as Hmap by (intros; unfold len; by rewrite length_map). rewrite Hmap. split_and!; [|done|done].
  rewrite <-(measured_count _ _ _ Hm). by apply N.eqb_eq.
Qed.

(** ** Adaptive planning policy: boundaries and histories

    The invariant of a boundary and the measure of the passes that are left: every pass
    that is finished takes one away. Which sequences of decisions a selector can record,
    and when a boundary can be begun at all. *)

Section boundary.
Context `{ShowFloat} `{Sha256} `{FloatMath} `{SymmetricEigen} `{!EigenShape}.
Notation trainer := DirectionalPcaStreamingTrainer.

(** ** Reports of the trainer *)
Definition report_ok (t t' : trainer) (report : PassReport) : Prop :=
  match readiness report with
  | AnalysisOnly => Trainer.model t' = Trainer.model t /\ (forall r, Trainer.phase t <> RealizePartition r)
      /\ forall r, Trainer.phase t' <> RealizePartition r
  | PartitionReady =>
      (Trainer.model t' = Trainer.model t /\ (exists p, Trainer.phase t = CountCells p) /\ exists r, Trainer.phase t' = RealizePartition r)
      \/ ((exists r, Trainer.phase t = RealizePartition r) /\ is_Some (Trainer.model t'))
  end.

Lemma finish_report t report t' : trainer_ok t -> Trainer.finish_pass t = (Ok report, t') -> report_ok t t' report.
Proof.
  intros Ht Hf. unfold Trainer.finish_pass, Trainer.finish_pass_impl in Hf. destruct (negb _); [done|].
  destruct (Trainer.active_pass (Trainer.invalidate_cached_telemetry t)) as [pass|] eqn:Hpass; [|done].
  pose proof (ok_active t Ht pass Hpass) as Ha. set (t1 := Trainer.set_active None _) in *.
  assert (Trainer.phase t1 = Trainer.phase t /\ Trainer.model t1 = Trainer.model t) as [Hph Hm] by done. clearbody t1.
  destruct (Trainer.finish_active pass t1) as [[[[next rep] m]|e|] t2] eqn:Hact; cbn in Hf; simplify_eq.
  unfold report_ok. cbn. destruct pass as [pass|pass|pass|pass]; cbn [Trainer.finish_active] in Hact.
  - assert (forall r, Trainer.phase t <> RealizePartition r) as Hnot by (intros r Hr; by rewrite Hr in Ha).
    unfold Trainer.finish_pca_pass, Trainer.at_trainer in Hact. repeat (case_match; simplify_eq; try done).
  - injection Hact as Hr <-. unfold Trainer.finish_cut_planning_pass in Hr.
    assert (forall r, Trainer.phase t <> RealizePartition r) as Hnot by (intros r Hr'; by rewrite Hr' in Ha).
    inv_oks. case_match; simplify_eq; done.
  - injection Hact as Hr <-. unfold Trainer.finish_cell_counting_pass in Hr. inv_oks. simplify_eq. cbn. left.
    split_and!; [done| |by eexists]. destruct (Trainer.phase t); try done. by eexists.
  - injection Hact as Hr <-. unfold Trainer.finish_partition_realization_pass in Hr. inv_oks. simplify_eq. cbn. right.
    split; [|done]. destruct (Trainer.phase t); try done. by eexists.
Qed.
Lemma finish_error t e t' : Trainer.finish_pass t = (Err e, t') -> Trainer.phase t' = Trainer.phase t /\ Trainer.model t' = Trainer.model t.
Proof.
  unfold Trainer.finish_pass, Trainer.finish_pass_impl, Trainer.finish_active, Trainer.finish_pca_pass, Trainer.at_trainer. intros Hf.
  repeat (case_match; cbn in *; simplify_eq; try done).
Qed.

(** ** The invariant of a boundary *)
Definition passes_ready (n : N) (t : trainer) : Prop :=
  Trainer.model t = None
  /\ ((n = 0%N /\ forall r, Trainer.phase t <> RealizePartition r) \/ (n = 1%N /\ exists r, Trainer.phase t = RealizePartition r)).

Definition classifier_ok (dims : N) (c : DirectionalPcaStreamingClassifier) : Prop :=
  dimensions (Classifier.config c) = dims /\ Classifier.centroids c <> [] /\ Forall (fun centroid => len centroid = dims) (Classifier.centroids c).

Definition bounded_config (config : StreamingClusteringConfig) : Prop :=
  (dimensions config * dimensions config <= USIZE_MAX)%N /\ (cluster_count config < 2 ^ 32)%N.

(** The parts of a boundary: a trainer while it collects, a classifier while it
    measures. *)
Definition boundary_ok (config : StreamingClusteringConfig) (params : DirectionalPcaParams) (b : AdaptiveDecisionBoundary) : Prop :=
  bounded_config config
  /\ match boundary_phase b with
     | CollectingSummaries => measurement b = None /\ boundary_classifier b = None
         /\ exists t, boundary_trainer b = Some t /\ reached config params t /\ passes_ready (partition_ready_passes b) t
     | MeasuringDecision => boundary_trainer b = None /\ (exists c, boundary_classifier b = Some c /\ classifier_ok (dimensions config) c)
         /\ forall m, measurement b = Some m -> represented m = boundary_items b /\ expected_embeddings m = boundary_embedding_count b
     end.

Lemma observe_batch_fields c embeddings m : let r := observe_batch c embeddings m in
  represented r.2 = represented m /\ expected_embeddings r.2 = expected_embeddings m.
Proof.
  revert m. induction embeddings as [|v embeddings IH]; intros m; cbn [observe_batch]; [done|].
  destruct (map_err _ _) as [[k d]|e|]; [|done|done]. destruct (observe_distance k d m) as [r m1] eqn:Hd.
  assert (represented m1 = represented m /\ expected_embeddings m1 = expected_embeddings m) as [Hr He].
  { unfold observe_distance in Hd. repeat (case_match; simplify_eq; try done). }
  destruct r; [|done|done]. destruct (IH m1) as [-> ->]. done.
Qed.

Lemma distance_no_panic l r : no_panic (Classifier.squared_distance l r).
Proof. unfold Classifier.squared_distance. np. Qed.
Lemma assigned_no_panic dims c v : classifier_ok dims c -> no_panic (Classifier.assigned_distance c v).
Proof.
  intros (Hd & Hne & Hf). unfold Classifier.assigned_distance. apply rbind_no_panic; [unfold validate_embedding; np|]. intros _ _.
  apply rbind_no_panic; [destruct (Classifier.centroids c) eqn:Hc; [done|cbn; done]|]. intros first _.
  apply rbind_no_panic; [apply distance_no_panic|]. intros d _.
  apply rbind_no_panic; [|intros [best d'] _; done].
  assert (0 < length (Classifier.centroids c))%nat by (destruct (Classifier.centroids c); [done|cbn; lia]).
  apply try_fold_no_panic. intros best i Hi. change (i ∈ seq 1 (length (Classifier.centroids c) - 1)) in Hi.
  apply elem_of_seq in Hi. unfold Classifier.nearer.
  destruct (lookup_lt_is_Some_2 (Classifier.centroids c) i) as [x ->]; [lia|]. cbn [expect rbind].
  apply rbind_no_panic; [apply distance_no_panic|done].
Qed.
Lemma observe_no_panic dims c embeddings : classifier_ok dims c -> forall m, (observe_batch c embeddings m).1 <> Panic.
Proof.
  intros Hc. induction embeddings as [|v embeddings IH]; intros m; cbn [observe_batch]; [done|].
  pose proof (assigned_no_panic dims c v Hc) as Hn. destruct (Classifier.assigned_distance c v) as [[k d]|e|]; cbn [map_err]; [|done|done].
  destruct (observe_distance k d m) as [r m1] eqn:Hd. destruct r; [apply IH|done|].
  unfold observe_distance in Hd. repeat (case_match; simplify_eq).
Qed.

(** The passes left until a decision. *)
Definition boundary_left (b : AdaptiveDecisionBoundary) : nat :=
  match boundary_phase b with
  | CollectingSummaries => match boundary_trainer b with Some t => S (passes_needed t) | None => 0 end
  | MeasuringDecision => 1
  end.

Section steps.
Context (config : StreamingClusteringConfig) (params : DirectionalPcaParams).

Lemma boundary_ingest_ok embeddings b : boundary_ok config params b ->
  let r := boundary_ingest embeddings b in
  (r.1 <> Panic -> boundary_ok config params r.2 /\ boundary_left r.2 = boundary_left b)
  /\ (r.1 = Panic -> exists t pass, boundary_trainer r.2 = Some t /\ Trainer.active_pass t = Some pass /\ overfull pass).
Proof.
  intros [[Hd Hk] Hb]. unfold boundary_ingest, boundary_ok, boundary_left in *. destruct (boundary_phase b) eqn:Hph.
  - destruct Hb as (Hm & Hc & t & -> & Ht & Hready). destruct (reached_ok config params Hd Hk t Ht) as [Hok _].
    destruct (dpca_ingest_ok t embeddings Hok) as (_ & Hphase & Hp). destruct (ingest_keeps embeddings t) as (_ & _ & Hmodel).
    pose proof (reached_ingest config params t embeddings Ht) as Hreach.
    destruct (Trainer.ingest_batch embeddings t) as [r t']. cbn [fst snd] in *. split.
    + intros Hr. cbn. rewrite Hph. split.
      * split; [done|]. split_and!; [done|done|]. exists t'. split_and!; [done|apply Hreach; by intros ->|].
        unfold passes_ready in *. by rewrite Hmodel, Hphase.
      * unfold passes_needed. by rewrite Hmodel, Hphase.
    + intros Hr. destruct Hp as (pass & Hpass & Hover); [by destruct r|]. by exists t', pass.
  - destruct Hb as (Ht & (c & Hc & Hcok) & Hm). rewrite Hc. destruct (measurement b) as [m|] eqn:Hmeas.
    + pose proof (observe_batch_fields c embeddings m) as [Hr He]. pose proof (observe_no_panic _ c embeddings Hcok m) as Hn.
      destruct (observe_batch c embeddings m) as [r m']. cbn [fst snd] in *. split; [|done]. intros _. cbn. rewrite Hph. split; [|done].
      split; [done|]. split_and!; [done|by exists c|]. intros m1 [= <-]. destruct (Hm m eq_refl). split; congruence.
    + cbn. rewrite Hph. split; [|done]. intros _. split; [|done]. split; [done|]. split_and!; [done|by exists c|by rewrite Hmeas].
Qed.

Lemma reached_classifier t c : bounded_config config -> reached config params t -> Classifier.into_classifier t = Ok c -> classifier_ok (dimensions config) c.
Proof.
  intros [Hd Hk] Ht Hc. destruct (classifier_of config params Hd Hk t c Ht Hc) as (r & Hok & Hconfig & Hl & Hf & _).
  split_and!; [by rewrite Hconfig| |done]. intros Hnil. rewrite Hnil in Hl. pose proof (plan_nonempty _ _ _ Hok) as Hne.
  pose proof (clusters_extras (cells r)) as Hex. destruct (cells r); [done|]. unfold len in *. cbn in *. lia.
Qed.

(** The second pass that is ready is the one that made the model: there is always a
    classifier then. *)
Lemma make_classifier_ok b t : bounded_config config -> boundary_trainer b = Some t -> reached config params t ->
  Trainer.state t = PassComplete -> is_Some (Trainer.model t) ->
  exists c, classifier_ok (dimensions config) c
    /\ make_classifier b = (Ok MeasuringState, Boundary (boundary_items b) (boundary_embedding_count b) MeasuringDecision (partition_ready_passes b) None
         (Some c) (Some (MeanClusterRadiusMeasurement_new (boundary_items b) (boundary_embedding_count b)))).
Proof.
  intros Hbound Hb Ht Hst [m Hm]. unfold make_classifier. rewrite Hb. pose proof (reached_complete config params t Ht) as Hreach.
  assert (Trainer.complete_training t = (Ok tt, Trainer.invalidate_cached_telemetry (Trainer.set_state TrainingComplete t))) as Hdone
    by (unfold Trainer.complete_training; by rewrite Hst, Hm).
  rewrite Hdone in *. cbn [snd map_err rbind] in *.
  assert (exists c, Classifier.into_classifier (Trainer.invalidate_cached_telemetry (Trainer.set_state TrainingComplete t)) = Ok c) as [c Hc]
    by (unfold Classifier.into_classifier; cbn; rewrite Hm; by eexists).
  exists c. split; [by eapply reached_classifier|]. by rewrite Hc.
Qed.

Definition finish_ok (b : AdaptiveDecisionBoundary) (r : adaptive AdaptiveBoundaryState * AdaptiveDecisionBoundary) : Prop :=
  match r.1 with
  | Panic => exists t, boundary_trainer b = Some t /\ finish_may_panic t
  | Err _ => boundary_ok config params r.2
  | Ok (SelectedState d) => represented_item_count d = boundary_items b
  | Ok _ => boundary_ok config params r.2 /\ (boundary_left r.2 < boundary_left b)%nat
  end.

Lemma collecting_ok b t : bounded_config config -> boundary_phase b = CollectingSummaries -> measurement b = None -> boundary_classifier b = None ->
  boundary_trainer b = Some t -> reached config params t -> passes_ready (partition_ready_passes b) t -> boundary_ok config params b.
Proof. intros Hb Hph Hm Hc Ht Hr Hp. split; [done|]. rewrite Hph. split_and!; [done|done|]. by exists t. Qed.
Lemma measuring_ok b c : bounded_config config -> boundary_phase b = MeasuringDecision -> boundary_trainer b = None ->
  boundary_classifier b = Some c -> classifier_ok (dimensions config) c ->
  (forall m, measurement b = Some m -> represented m = boundary_items b /\ expected_embeddings m = boundary_embedding_count b) ->
  boundary_ok config params b.
Proof. intros Hb Hph Ht Hc Hcok Hm. split; [done|]. rewrite Hph. split_and!; [done|by exists c|done]. Qed.

Lemma boundary_finish_ok b : boundary_ok config params b -> finish_ok b (boundary_finish b).
Proof.
  intros [[Hd Hk] Hb]. unfold boundary_finish, finish_ok, boundary_left. destruct (boundary_phase b) eqn:Hph.
  - destruct Hb as (Hm & Hc & t & Htr & Ht & Hmodel & Hready). rewrite Htr. destruct (reached_ok config params Hd Hk t Ht) as (Hok & Hconfig & _).
    pose proof (dpca_finish_ok t Hok) as Hf. rewrite Hconfig in Hf. specialize (Hf ltac:(lia)). cbn zeta in Hf.
    pose proof (reached_finish config params t Ht) as Hreach. pose proof (finish_error t) as Herr. pose proof (finish_report t) as Hrep.
    destruct (Trainer.finish_pass t) as [[report|e|] t']; cbn [fst snd map_err] in *.
    + pose proof (Hrep report t' Hok eq_refl) as Hr. clear Herr Hrep. specialize (Hreach ltac:(done)). destruct Hf as (Hok' & Hleft & Hst).
      unfold report_ok in Hr. destruct (readiness report).
      * cbn [boundary_phase with_trainer boundary_trainer fst snd]. rewrite Hph. destruct Hr as (Hsame & Hnot & Hnot'). destruct Hready as [[Hn _]|[_ [r Hr]]]; [|by destruct (Hnot r)].
        assert (Trainer.model t' = None) as Hnone by (by rewrite Hsame). split.
        { apply (collecting_ok _ t'); try done. split; [done|]. by left. }
        unfold passes_needed in *. rewrite Hnone, Hmodel in *. destruct (Trainer.phase t'); cbn [phase_left] in *; lia.
      * destruct Hr as [(Hsame & [p Hp] & [r Hr])|([r Hr] & Hsome)].
        -- destruct Hready as [[Hn _]|[_ [r' Hr']]]; [|congruence]. cbn [boundary_phase with_trainer ready_pass boundary_trainer partition_ready_passes]. rewrite Hn.
           change (0 + 1 <? 2)%N with true. cbn [fst snd]. cbn [ready_pass with_trainer boundary_phase boundary_trainer]. rewrite Hph.
           assert (Trainer.model t' = None) as Hnone by (by rewrite Hsame). split.
           { apply (collecting_ok _ t'); try done. split; [done|]. right. cbn. rewrite Hn. split; [done|]. by exists r. }
           unfold passes_needed in *. rewrite Hnone, Hmodel in *. rewrite Hr, Hp in *. cbn. lia.
        -- destruct Hready as [[_ Hnot]|[Hn _]]; [by destruct (Hnot r)|]. cbn [ready_pass partition_ready_passes with_trainer]. rewrite Hn. change (1 + 1 <? 2)%N with false. cbv iota.
           destruct (make_classifier_ok (ready_pass (with_trainer (Some t') b)) t') as (c & Hcok & ->); [done|done|done|done|done|]. cbn [fst snd]. split.
           { apply (measuring_ok _ c); try done. by intros ? [= <-]. }
           cbn. unfold passes_needed. rewrite Hmodel, Hr. cbn. lia.
    + destruct (Herr e t' eq_refl) as [Hp Hm']. apply (collecting_ok _ t'); try done; [by apply Hreach|].
      unfold passes_ready. by rewrite Hp, Hm'.
    + by exists t.
  - destruct Hb as (Ht & (c & Hc & Hcok) & Hm). destruct (measurement b) as [m|] eqn:Hmeas; cbn.
    + unfold measurement_finish. destruct (Hm m eq_refl) as [Hr He].
      assert (no_panic (measurement_finish m)) as Hnp.
      { unfold measurement_finish. np. unfold add_mean_radius. np. }
      fold (measurement_finish m). destruct (measurement_finish m) as [d|e|] eqn:Hfin; cbn; [| |done].
      * unfold measurement_finish in Hfin. inv_oks. by simplify_eq.
      * by apply (measuring_ok _ c).
    + by apply (measuring_ok _ c); rewrite ?Hmeas.
Qed.
End steps.
End boundary.

(** ** Histories *)
Definition evaluated (algorithm : ActivePlanningAlgorithm) (switch : bool) (d : AdaptivePlanningDiagnostics) : AdaptiveSwitchDecisionRecord :=
  {| active_algorithm := algorithm; switch_boundary_occurred := switch; reason := EvaluatedDirectionalPca; collapse_diagnostics := Some d |}.
Definition stay : AdaptivePlanningDiagnostics -> AdaptiveSwitchDecisionRecord := evaluated DirectionalPcaAlgorithm false.
Definition switch : AdaptivePlanningDiagnostics -> AdaptiveSwitchDecisionRecord := evaluated DcbcAlgorithm true.

Section history.
Context (threshold : f32).
Definition above (d : AdaptivePlanningDiagnostics) : Prop := fltb binary32 threshold (mean_cluster_radius d) = true.

(** Directional PCA first, then for as long as no measured radius is above the
    threshold; DCBC from the first that is, and for good. *)
Inductive history : list AdaptiveSwitchDecisionRecord -> bool -> Prop :=
| history_none : history [] false
| history_pca stays : Forall (fun d => ~ above d) stays -> history (initial_segment :: map stay stays) false
| history_dcbc stays d n : Forall (fun d => ~ above d) stays -> above d ->
    history (initial_segment :: map stay stays ++ switch d :: replicate n previously_switched) true.

Lemma history_begin records : history records true -> history (records ++ [previously_switched]) true.
Proof.
  inversion 1 as [| |stays d n Hs Hd]; subst. rewrite app_comm_cons, <-app_assoc. cbn [app]. rewrite <-replicate_cons_app.
  by apply (history_dcbc stays d (S n)).
Qed.
Lemma history_select records d : history records false -> records <> [] ->
  let switches := fltb binary32 threshold (mean_cluster_radius d) in
  history (records ++ [evaluated (if switches then DcbcAlgorithm else DirectionalPcaAlgorithm) switches d]) (switches || false).
Proof.
  intros Hh Hne. cbn zeta. inversion Hh as [|stays Hs|]; subst; [done|]. cbn [app].
  destruct (fltb binary32 threshold (mean_cluster_radius d)) eqn:Hd; cbn [orb].
  - by apply (history_dcbc stays d 0).
  - change [evaluated DirectionalPcaAlgorithm false d] with (map stay [d]). rewrite <-map_app. constructor.
    apply Forall_app. split; [done|]. constructor; [by unfold above; rewrite Hd|done].
Qed.
End history.

(** ** Beginning a boundary *)
Lemma power_of_two_shape k : is_power_of_two (N.shiftl 1 k) = true.
Proof.
  unfold is_power_of_two. rewrite N.shiftl_1_l. pose proof (N.pow_nonzero 2 k ltac:(done)).
  rewrite (proj2 (N.eqb_neq _ _)) by done. cbn [negb andb]. apply N.eqb_eq.
  replace (2 ^ k - 1)%N with (N.ones k) by (rewrite N.ones_equiv; lia). rewrite N.land_ones. apply N.Div0.mod_same.
Qed.

Lemma highest_power n : (1 <= n)%N -> (1 <= highest_power_of_two_at_most n <= n)%N /\ is_power_of_two (highest_power_of_two_at_most n) = true.
Proof.
  intros Hn. unfold highest_power_of_two_at_most. destruct (N.leb_spec n 1) as [Hle|Hgt].
  - replace n with 1%N by lia. done.
  - split; [|apply power_of_two_shape]. rewrite N.shiftl_1_l. pose proof (N.log2_spec n ltac:(lia)).
    pose proof (N.pow_nonzero 2 (N.log2 n) ltac:(done)). lia.
Qed.

Lemma diagnostic_count configured count policy : (1 <= configured < 2 ^ 32)%N -> (1 <= count)%N ->
  exists k, diagnostic_cluster_count configured count policy = Ok k /\ (1 <= k <= N.min configured count)%N
    /\ (log_bits policy = true -> is_power_of_two k = true).
Proof.
  intros Hc Hn. unfold diagnostic_cluster_count, usize_try_from. rewrite (proj2 (N.leb_le _ _)) by (unfold USIZE_MAX; lia). cbn [ok_or rbind].
  replace (N.max count 1) with count by lia. cbn zeta. set (capped := N.min configured count).
  assert (1 <= capped)%N as H1 by lia. destruct (highest_power capped H1) as [Hb Hp].
  set (adjusted := if log_bits policy && _ then _ else _).
  assert (1 <= adjusted <= capped)%N as Ha by (unfold adjusted; destruct (_ && _); lia).
  rewrite (proj2 (N.ltb_lt _ _)) by lia. exists adjusted. split_and!; [done|lia..|]. intros Hlog. unfold adjusted. rewrite Hlog. cbn [andb].
  destruct (N.ltb_spec 1 capped); [done|]. by replace capped with 1%N by lia.
Qed.

Section begin.
Context `{ShowFloat}.

(** The axes that directional PCA must keep are there. *)
Definition axes_fit (params : DirectionalPcaParams) (dims : N) : Prop :=
  match retained_axis_policy params with
  | FixedCount n => (n <= dims)%N
  | AdaptiveAllEligible => (min_effective_rank params <= dims)%N
  end.

Lemma new_trainer_ok s count dims k : validate_directional_pca_params s = Ok tt -> (1 <= k)%N -> (1 <= dims)%N ->
  (log_bits (allocation_policy (pca_params s)) = true -> is_power_of_two k = true) ->
  let config := {| cluster_count := k; dimensions := dims; balance_constraints := None; random_seed := count |} in
  match Trainer.new config (pca_params s) with
  | Ok t => axes_fit (pca_params s) dims
  | Err _ => ~ axes_fit (pca_params s) dims
  | Panic => False
  end.
Proof.
  intros Hv Hk Hd Hp config. unfold Trainer.new, validate_directional_pca_params, axes_fit in *.
  assert (validate_config config = Ok tt) as ->.
  { unfold validate_config. cbn. rewrite !(proj2 (N.eqb_neq _ _)) by lia. done. }
  assert (negb (log_bits (allocation_policy (pca_params s)) && negb (is_power_of_two k)) = true) as Hlog.
  { destruct (log_bits _); [|done]. by rewrite Hp. }
  apply rbind_ok in Hv as ([] & Haxes & Hv). inv_oks.
  cbn [rbind]. unfold validate_params. cbn [dimensions cluster_count config]. rewrite Hlog.
  repeat match goal with Hb : _ = true |- _ => rewrite Hb; clear Hb end. cbn [rbind].
  destruct (retained_axis_policy (pca_params s)) as [n|]; inv_oks.
  - destruct (N.eqb_spec n 0); [done|]. cbn [orb]. destruct (N.ltb_spec dims n); cbn [negb rbind]; [lia|].
    repeat match goal with Hb : _ = true |- _ => rewrite Hb; clear Hb end. cbn. lia.
  - destruct (N.ltb_spec dims (min_effective_rank (pca_params s))); cbn; lia.
Qed.

(** A boundary can be begun exactly when its counts make sense and the axes fit. *)
Lemma boundary_new_ok items count dims s : validate_directional_pca_params s = Ok tt -> (1 <= pca_cluster_count s < 2 ^ 32)%N ->
  match AdaptiveDecisionBoundary_new items count dims s with
  | Ok b => (1 <= count <= items)%N /\ (1 <= dims)%N /\ axes_fit (pca_params s) dims
      /\ exists config t, Trainer.new config (pca_params s) = Ok t /\ dimensions config = dims /\ (cluster_count config <= N.min (pca_cluster_count s) count)%N
      /\ b = Boundary items count CollectingSummaries 0 (Some t) None None
  | Err _ => ~ ((1 <= count <= items)%N /\ (1 <= dims)%N /\ axes_fit (pca_params s) dims)
  | Panic => False
  end.
Proof.
  intros Hv Hc. unfold AdaptiveDecisionBoundary_new.
  destruct (N.eqb_spec items 0); cbn [negb]; [lia|]. destruct (N.eqb_spec count 0); cbn [negb]; [lia|].
  destruct (N.ltb_spec items count); cbn [negb]; [lia|]. destruct (N.eqb_spec dims 0); cbn [negb]; [lia|].
  destruct (diagnostic_count (pca_cluster_count s) count (allocation_policy (pca_params s)) Hc ltac:(lia)) as (k & -> & Hk & Hp).
  cbn [rbind]. pose proof (new_trainer_ok s (pca_random_seed s) dims k Hv ltac:(lia) ltac:(lia) Hp) as Ht. cbn zeta in Ht.
  match goal with |- context [Trainer.new ?config _] => set (c := config) in * end.
  destruct (Trainer.new c (pca_params s)) as [t|e|] eqn:Hn; cbn [map_err rbind]; [|tauto|done].
  split_and!; [lia..|done|]. exists c, t. split_and!; [done|done|cbn; lia|done].
Qed.
End begin.
