(* ===== verification/AdaptiveWitness.v ===== *)
(** * Adaptive planning policy: what the selector promises

    The claims about crates/lexongraph-adaptive-planning-policy with their examples. *)
From S2P Require Import Prelude Ordering Hash Ieee Clustering Pca PcaCodec PcaCorrect PcaWitness DpcaPlanner DpcaPlan DirectionalPca DpcaCells DpcaTrainer DpcaFinish DpcaWitness Adaptive AdaptiveCorrect.

Section selector.
Context `{ShowFloat} `{Sha256} `{FloatMath} `{SymmetricEigen} `{!EigenShape}.
Notation threshold s := (mean_cluster_radius_threshold (switch_criteria (settings s))).

(** ** The selectors calls reach *)
Section reach.
Context (chosen : AdaptivePlanningSettings).
Hypothesis Hcount : (pca_cluster_count (directional_pca chosen) < 2 ^ 32)%N.

Inductive selected : AdaptivePlanningSelector -> Prop :=
| selected_new s : AdaptivePlanningSelector_new chosen = Ok s -> selected s
| selected_begin items count dims s : selected s -> (dims * dims <= USIZE_MAX)%N -> selected (begin_selection_boundary items count dims s).2
| selected_ingest embeddings s : selected s -> (ingest_selection_batch embeddings s).1 <> Panic -> selected (ingest_selection_batch embeddings s).2
| selected_finish s : selected s -> (finish_selection_pass s).1 <> Panic -> selected (finish_selection_pass s).2.

Record selector_ok (s : AdaptivePlanningSelector) : Prop := {
  sel_settings : settings s = chosen; sel_valid : validate_settings chosen = Ok tt;
  sel_history : history (threshold s) (decision_records s) (switched_to_dcbc s);
  sel_boundary : forall b, active_boundary s = Some b -> switched_to_dcbc s = false /\ decision_records s <> []
    /\ exists config, boundary_ok config (pca_params (directional_pca chosen)) b
}.

Lemma settings_valid : validate_settings chosen = Ok tt ->
  (1 <= pca_cluster_count (directional_pca chosen) < 2 ^ 32)%N /\ validate_directional_pca_params (directional_pca chosen) = Ok tt.
Proof.
  unfold validate_settings. intros Hv. inv_oks. split; [|done]. destruct (N.eqb_spec (pca_cluster_count (directional_pca chosen)) 0); [done|]. lia.
Qed.

Lemma begun_ok items count dims b : validate_settings chosen = Ok tt -> (dims * dims <= USIZE_MAX)%N ->
  AdaptiveDecisionBoundary_new items count dims (directional_pca chosen) = Ok b ->
  boundary_left b = 6%nat /\ exists config, boundary_ok config (pca_params (directional_pca chosen)) b.
Proof.
  intros [Hc Hv]%settings_valid Hd Hb. pose proof (boundary_new_ok items count dims _ Hv Hc) as Hn. rewrite Hb in Hn.
  destruct Hn as (Hi & _ & _ & config & t & Ht & Hdim & Hk & ->). rewrite (new_fields config _ t Ht). split; [done|]. exists config.
  assert (bounded_config config) as Hbound by (split; [by rewrite Hdim|lia]).
  eapply collecting_ok; [done|done|done|done|done| |].
  - apply reached_new. by rewrite Ht, (new_fields config _ t Ht).
  - split; [done|]. by left.
Qed.

Lemma begin_ok items count dims s : selector_ok s -> (dims * dims <= USIZE_MAX)%N ->
  let r := begin_selection_boundary items count dims s in
  selector_ok r.2 /\ r.1 <> Panic.
Proof.
  intros Hs Hd. pose proof Hs as [Hset Hval Hhist Hbnd]. unfold begin_selection_boundary. destruct (active_boundary s) as [b|] eqn:Hact; [done|].
  destruct (switched_to_dcbc s) eqn:Hsw.
  { split; [|done]. split; cbn; try done; rewrite ?Hsw, ?Hact; try done. by apply history_begin. }
  case_bool_decide as Hnone.
  { split; [|done]. apply length_zero_iff_nil in Hnone. split; cbn; try done; rewrite ?Hsw, ?Hact; try done. rewrite Hnone.
    by apply (history_pca _ []). }
  rewrite Hset. destruct (settings_valid Hval) as [Hc Hv]. pose proof (boundary_new_ok items count dims _ Hv Hc) as Hn.
  pose proof (begun_ok items count dims) as Hok. destruct (AdaptiveDecisionBoundary_new _ _ _ _) as [b|e|] eqn:Hnew; [|done|done].
  split; [|done]. split; cbn; rewrite ?Hsw; try done. intros b' [= <-]. split_and!; [done|by intros Hnil; rewrite Hnil in Hnone|].
  by apply (Hok b).
Qed.

Lemma ingest_ok embeddings s : selector_ok s -> let r := ingest_selection_batch embeddings s in
  (r.1 <> Panic -> selector_ok r.2 /\ option_map boundary_left (active_boundary r.2) = option_map boundary_left (active_boundary s))
  /\ (r.1 = Panic -> exists b t pass, active_boundary r.2 = Some b /\ boundary_trainer b = Some t /\ Trainer.active_pass t = Some pass /\ overfull pass).
Proof.
  intros Hs. pose proof Hs as [Hset Hval Hhist Hbnd]. unfold ingest_selection_batch. destruct (active_boundary s) as [b|] eqn:Hact; [|by cbn; rewrite Hact].
  destruct (Hbnd b eq_refl) as (Hsw & Hne & config & Hb). destruct (boundary_ingest_ok config _ embeddings b Hb) as [Hok Hp].
  destruct (boundary_ingest embeddings b) as [r b']. cbn in *. split.
  - intros Hr. destruct (Hok Hr) as [Hb' Hl]. split; [|by rewrite Hl]. split; cbn; try done. intros b'' [= <-]. split_and!; [done|done|by exists config].
  - intros Hr. destruct (Hp Hr) as (t & pass & Ht & Hpass & Hover). by exists b', t, pass.
Qed.

Definition selector_may_panic (s : AdaptivePlanningSelector) : Prop :=
  exists b t, active_boundary s = Some b /\ boundary_trainer b = Some t /\ finish_may_panic t.

Lemma finish_selector_ok s : selector_ok s -> let r := finish_selection_pass s in
  match r.1 with
  | Panic => selector_may_panic s
  | Err _ => selector_ok r.2
  | Ok (Selected a) => selector_ok r.2 /\ active_boundary r.2 = None
      /\ exists d, decision_records r.2 = decision_records s ++ [evaluated a (switched_to_dcbc r.2) d]
           /\ (a = DcbcAlgorithm <-> above (mean_cluster_radius_threshold (switch_criteria chosen)) d)
  | Ok (ReplayRequired _) => selector_ok r.2 /\ exists b b', active_boundary s = Some b /\ active_boundary r.2 = Some b' /\ (boundary_left b' < boundary_left b)%nat
  end.
Proof.
  intros Hs. pose proof Hs as [Hset Hval Hhist Hbnd]. unfold finish_selection_pass. destruct (active_boundary s) as [b|] eqn:Hact; [|done].
  destruct (Hbnd b eq_refl) as (Hsw & Hne & config & Hb). pose proof (boundary_finish_ok config _ b Hb) as Hf. unfold finish_ok in Hf.
  assert (Hput : forall b', boundary_ok config (pca_params (directional_pca chosen)) b' -> selector_ok (with_boundary (Some b') s)).
  { intros b' Hb'. split; cbn; try done. intros ? [= <-]. split_and!; [done|done|by exists config]. }
  destruct (boundary_finish b) as [[[| |d]|e|] b']; cbn [fst snd] in *.
  - destruct Hf as [Hb' Hl]. split; [by apply Hput|]. by exists b, b'.
  - destruct Hf as [Hb' Hl]. split; [by apply Hput|]. by exists b, b'.
  - cbn. split_and!; [|done|].
    + rewrite Hsw in *. split; cbn; try done. by apply (history_select (threshold s)).
    + exists d. rewrite Hsw, orb_false_r. split; [done|]. rewrite Hset. unfold above. by destruct (fltb binary32 _ _).
  - by apply Hput.
  - destruct Hf as (t & Ht & Hp). by exists b, t.
Qed.

Lemma selected_ok s : selected s -> selector_ok s.
Proof.
  induction 1 as [s Hn|items count dims s _ IH Hd|embeddings s _ IH Hr|s _ IH Hr].
  - unfold AdaptivePlanningSelector_new in Hn. inv_oks. simplify_eq. destruct a. split; cbn; try done. constructor.
  - by apply begin_ok.
  - by apply ingest_ok.
  - pose proof (finish_selector_ok s IH) as Hf. cbn zeta in Hf. destruct (finish_selection_pass s) as [[[]|e|] s']; cbn in *; tauto.
Qed.

(** ** Runs *)
(** Replays of the embeddings, each with its batches, until an algorithm is selected. *)
Definition replay_pass (s : AdaptivePlanningSelector) (batches : list (list (list f32))) : adaptive (AdaptiveSelectionProgress * AdaptivePlanningSelector) :=
  let? s := try_fold (fun s batch => match ingest_selection_batch batch s with (Ok _, s) => Ok s | (Err e, _) => Err e | (Panic, _) => Panic end)
    s batches in
  match finish_selection_pass s with (Ok progress, s) => Ok (progress, s) | (Err e, _) => Err e | (Panic, _) => Panic end.
Fixpoint replay_until (passes : list (list (list (list f32)))) (s : AdaptivePlanningSelector)
  : adaptive (option ActivePlanningAlgorithm * AdaptivePlanningSelector) :=
  match passes with
  | [] => Ok (None, s)
  | pass :: passes =>
      let? '(progress, s) := replay_pass s pass in
      match progress with Selected a => Ok (Some a, s) | ReplayRequired _ => replay_until passes s end
  end.

Lemma ingest_all batches : forall s s', selector_ok s ->
  try_fold (fun s batch => match ingest_selection_batch batch s with (Ok _, s) => Ok s | (Err e, _) => Err e | (Panic, _) => Panic end) s batches = Ok s' ->
  selector_ok s' /\ option_map boundary_left (active_boundary s') = option_map boundary_left (active_boundary s)
  /\ decision_records s' = decision_records s.
Proof.
  induction batches as [|batch batches IH]; intros s s' Hs Hr; cbn [try_fold] in Hr; [by simplify_eq|].
  destruct (ingest_ok batch s Hs) as [Hok _].
  assert (decision_records (ingest_selection_batch batch s).2 = decision_records s) as Hrec.
  { unfold ingest_selection_batch. destruct (active_boundary s); [|done]. by destruct (boundary_ingest batch a). }
  destruct (ingest_selection_batch batch s) as [[[]|e|] s1]; try done. cbn [rbind fst snd] in *.
  destruct Hok as [Hs1 Hl1]; [done|]. destruct (IH s1 s' Hs1 Hr) as (Hs' & Hl' & Hrec'). split_and!; [done|congruence|congruence].
Qed.

Lemma replay_decides passes : forall s b a s', selector_ok s -> active_boundary s = Some b -> (boundary_left b <= length passes)%nat ->
  replay_until passes s = Ok (a, s') -> exists algorithm d, a = Some algorithm /\ selector_ok s' /\ active_boundary s' = None
    /\ decision_records s' = decision_records s ++ [evaluated algorithm (switched_to_dcbc s') d]
    /\ (algorithm = DcbcAlgorithm <-> above (mean_cluster_radius_threshold (switch_criteria chosen)) d).
Proof.
  induction passes as [|pass passes IH]; intros s b a s' Hs Hb Hl Hr; cbn [replay_until length] in *.
  { destruct (sel_boundary s Hs b Hb) as (_ & _ & config & _ & Hok). unfold boundary_left in Hl. destruct (boundary_phase b); [|lia].
    destruct Hok as (_ & _ & t & Ht & _). rewrite Ht in Hl. lia. }
  apply rbind_ok in Hr as ([progress s1] & Hp & Hr). unfold replay_pass in Hp. apply rbind_ok in Hp as (s0 & Hi & Hp).
  destruct (ingest_all _ _ _ Hs Hi) as (Hs0 & Hl0 & Hrec0). pose proof (finish_selector_ok s0 Hs0) as Hf.
  assert (Hkeep : forall stage s2, finish_selection_pass s0 = (Ok (ReplayRequired stage), s2) -> decision_records s2 = decision_records s0).
  { intros stage s2. unfold finish_selection_pass. destruct (active_boundary s0) as [b0|]; [|done].
    destruct (boundary_finish b0) as [[[| |d]|e|] b2]; cbn; intros Heq; by simplify_eq. }
  destruct (finish_selection_pass s0) as [[progress'|e|] s2]; cbn [fst snd] in *; simplify_eq. destruct progress as [algorithm|stage].
  - simplify_eq. destruct Hf as (Hs' & Hact & d & Hrec & Habove). exists algorithm, d. rewrite <-Hrec0. by split_and!.
  - destruct Hf as (Hs1 & b0 & b1 & Hb0 & Hb1 & Hlt). rewrite Hb0, Hb in Hl0. cbn in Hl0. injection Hl0 as Hl0.
    destruct (IH s1 b1 a s' Hs1 Hb1) as (algorithm & d & -> & Hs' & Hact & Hrec & Habove); [lia|done|]. exists algorithm, d.
    rewrite Hrec, (Hkeep stage s1 eq_refl), Hrec0. by split_and!.
Qed.

Lemma replay_selected passes : forall s a s', selected s -> replay_until passes s = Ok (a, s') -> selected s'.
Proof.
  assert (Hall : forall batches s s', selected s ->
    try_fold (fun s batch => match ingest_selection_batch batch s with (Ok _, s) => Ok s | (Err e, _) => Err e | (Panic, _) => Panic end) s batches = Ok s' -> selected s').
  { induction batches as [|batch batches IH]; intros s s' Hs Hr; cbn [try_fold] in Hr; [by simplify_eq|].
    pose proof (selected_ingest batch s Hs) as Hi. destruct (ingest_selection_batch batch s) as [[[]|e|] s1]; try done. cbn [rbind] in Hr.
    by apply (IH s1 s' (Hi ltac:(done))). }
  induction passes as [|pass passes IH]; intros s a s' Hs Hr; cbn [replay_until] in Hr; [by simplify_eq|].
  apply rbind_ok in Hr as ([progress s1] & Hp & Hr). unfold replay_pass in Hp. apply rbind_ok in Hp as (s0 & Hi & Hp).
  pose proof (selected_finish s0 (Hall _ _ _ Hs Hi)) as Hfin. destruct (finish_selection_pass s0) as [[p'|e|] s2]; simplify_eq. cbn [fst snd] in Hfin.
  destruct progress; [simplify_eq; by apply Hfin|]. by apply (IH s1 a s' (Hfin ltac:(done))).
Qed.
End reach.

Lemma batches_measured c batches : forall assigned m m', measured (length (Classifier.centroids c)) assigned m ->
  try_fold (fun m batch => match observe_batch c batch m with (Ok _, m) => Ok m | (Err e, _) => Err e | (Panic, _) => Panic end) m batches = Ok m' ->
  exists more, assigned_by c (concat batches) = Ok more /\ measured (length (Classifier.centroids c)) (assigned ++ more) m'
    /\ represented m' = represented m /\ expected_embeddings m' = expected_embeddings m.
Proof.
  induction batches as [|batch batches IH]; intros assigned m m' Hm Hr; cbn [try_fold concat] in *.
  { simplify_eq. exists []. by rewrite app_nil_r. }
  destruct (observe_batch c batch m) as [[[]|e|] m1] eqn:Ho; try done. cbn [rbind] in Hr.
  destruct (observe_batch_measured c _ assigned batch m m1 eq_refl Hm Ho) as (more & Ha & Hm1 & Hr1 & He1).
  destruct (IH _ m1 m' Hm1 Hr) as (more' & Ha' & Hm' & Hr' & He'). exists (more ++ more'). rewrite app_assoc. split_and!; [|done|congruence|congruence].
  unfold assigned_by in *. apply collect_map_ok. apply collect_map_ok in Ha, Ha'. by apply Forall2_app.
Qed.

(** ** The claims *)

(** C14 Whatever calls are made on a selector, its decisions are directional PCA first,
    then directional PCA again after each measurement that is not above the threshold,
    then DCBC from the first that is, and never directional PCA again; it says it has
    switched exactly then. Beginning never panics, and the other calls only where the
    trainer of directional PCA does. *)
Theorem adaptive_history chosen s : (pca_cluster_count (directional_pca chosen) < 2 ^ 32)%N -> selected chosen s ->
  history (mean_cluster_radius_threshold (switch_criteria chosen)) (decision_records s) (switched_to_dcbc s)
  /\ (forall items count dims, (dims * dims <= USIZE_MAX)%N -> (begin_selection_boundary items count dims s).1 <> Panic)
  /\ (forall batch, (ingest_selection_batch batch s).1 = Panic ->
        exists b t pass, active_boundary (ingest_selection_batch batch s).2 = Some b /\ boundary_trainer b = Some t
          /\ Trainer.active_pass t = Some pass /\ overfull pass)
  /\ ((finish_selection_pass s).1 = Panic -> selector_may_panic s).
Proof.
  intros Hc Hs. pose proof (selected_ok chosen Hc s Hs) as Hok. split_and!.
  - pose proof (sel_history chosen s Hok) as Hh. by rewrite (sel_settings chosen s Hok) in Hh.
  - intros items count dims Hd. by apply (begin_ok chosen Hc).
  - intros batch. by apply (ingest_ok chosen batch).
  - intros Hp. pose proof (finish_selector_ok chosen s Hok) as Hf. cbn zeta in Hf. by rewrite Hp in Hf.
Qed.

(** C15 A boundary that asks for replays is decided after at most six of them: unless
    one of them fails, an algorithm is selected, one decision is recorded with what was
    measured, and the boundary is closed. *)
Theorem boundary_decides chosen s items count dims begun passes a s' : (pca_cluster_count (directional_pca chosen) < 2 ^ 32)%N ->
  (dims * dims <= USIZE_MAX)%N -> selected chosen s ->
  begin_selection_boundary items count dims s = (Ok (ReplayRequired CollectingSummaries), begun) ->
  (6 <= length passes)%nat -> replay_until passes begun = Ok (a, s') ->
  exists algorithm d, a = Some algorithm /\ active_boundary s' = None
    /\ decision_records s' = decision_records s ++ [evaluated algorithm (switched_to_dcbc s') d]
    /\ (algorithm = DcbcAlgorithm <-> above (mean_cluster_radius_threshold (switch_criteria chosen)) d).
Proof.
  intros Hc Hd Hs Hbegin Hl Hr. pose proof (selected_ok chosen Hc s Hs) as Hok.
  pose proof (begin_ok chosen Hc items count dims s Hok Hd) as [Hbegun _]. rewrite Hbegin in Hbegun. cbn [snd] in Hbegun.
  assert (exists b, active_boundary begun = Some b /\ boundary_left b = 6%nat /\ decision_records begun = decision_records s) as (b & Hb & Hleft & Hrec).
  { pose proof (begun_ok chosen Hc items count dims) as Hnew. unfold begin_selection_boundary in Hbegin. rewrite (sel_settings chosen s Hok) in Hbegin.
    destruct (active_boundary s); [done|]. destruct (switched_to_dcbc s); [done|]. case_bool_decide; [done|].
    destruct (AdaptiveDecisionBoundary_new _ _ _ _) as [b|e|]; simplify_eq. exists b. split_and!; [done| |done].
    by apply (Hnew b (sel_valid chosen s Hok) Hd). }
  destruct (replay_decides chosen Hc passes begun b a s' Hbegun Hb) as (algorithm & d & -> & Hs' & Hact & Hrecs & Habove); [lia|done|].
  exists algorithm, d. rewrite <-Hrec. split; [done|]. split; [done|]. split; [done|exact Habove].
Qed.

(** What is measured is the mean, over the clusters that were assigned to, of the
    mean distance of their embeddings to the centroid: the same however the embeddings
    are split into batches, each of them counted once, and finite before it is rounded. *)
Theorem measured_radius_exact c items count batches m d :
  try_fold (fun m batch => match observe_batch c batch m with (Ok _, m) => Ok m | (Err e, _) => Err e | (Panic, _) => Panic end)
    (MeanClusterRadiusMeasurement_new items count) batches = Ok m ->
  measurement_finish m = Ok d ->
  exists assigned, assigned_by c (concat batches) = Ok assigned /\ len assigned = count
    /\ d = {| represented_item_count := items; mean_cluster_radius := f32_of_f64 (mean_radius (length (Classifier.centroids c)) assigned) |}
    /\ f64_is_finite (mean_radius (length (Classifier.centroids c)) assigned) = true.
Proof.
  intros Hm Hf.
  destruct (batches_measured c batches [] _ m (measured_new _ items count) Hm) as (assigned & Ha & Hmeas & Hr & He). cbn in Hr, He.
  destruct (finish_measured _ assigned m d Hmeas Hf) as (Hl & -> & Hfin). exists assigned. rewrite <-Hr, <-He. by split_and!.
Qed.

(** A boundary can be begun, on a selector that has one decision and has not switched,
    exactly when there are embeddings, no more of them than items, with dimensions, as
    many as the axes that directional PCA must keep: the number of clusters is brought
    down to the embeddings first, to a power of two where the bins need one. *)
Theorem boundary_begins chosen s items count dims : (pca_cluster_count (directional_pca chosen) < 2 ^ 32)%N -> selected chosen s ->
  active_boundary s = None -> decision_records s <> [] -> switched_to_dcbc s = false ->
  match (begin_selection_boundary items count dims s).1 with
  | Ok progress => progress = ReplayRequired CollectingSummaries
      /\ (1 <= count <= items)%N /\ (1 <= dims)%N /\ axes_fit (pca_params (directional_pca chosen)) dims
  | Err _ => ~ ((1 <= count <= items)%N /\ (1 <= dims)%N /\ axes_fit (pca_params (directional_pca chosen)) dims)
  | Panic => False
  end.
Proof.
  intros Hc Hs Hact Hrec Hsw. pose proof (selected_ok chosen Hc s Hs) as Hok. unfold begin_selection_boundary. rewrite Hact, Hsw.
  rewrite bool_decide_eq_false_2 by (by intros ?%length_zero_iff_nil). rewrite (sel_settings chosen s Hok).
  destruct (settings_valid chosen Hc (sel_valid chosen s Hok)) as [Hcount Hv].
  pose proof (boundary_new_ok items count dims _ Hv Hcount) as Hn. destruct (AdaptiveDecisionBoundary_new _ _ _ _); cbn; [|done|done].
  by destruct Hn as (? & ? & ? & _).
Qed.

(** A measurement that fails is final: the boundary stays open without one, and every
    later call fails and changes nothing. *)
Theorem failed_measurement_final chosen s e s' : (pca_cluster_count (directional_pca chosen) < 2 ^ 32)%N -> selected chosen s ->
  (exists b, active_boundary s = Some b /\ boundary_phase b = MeasuringDecision) -> finish_selection_pass s = (Err e, s') ->
  (forall items count dims, exists e', begin_selection_boundary items count dims s' = (Err e', s'))
  /\ (forall batch, exists e', ingest_selection_batch batch s' = (Err e', s'))
  /\ exists e', finish_selection_pass s' = (Err e', s').
Proof.
  intros Hc Hs (b & Hb & Hph) Hf. unfold finish_selection_pass in Hf. rewrite Hb in Hf. unfold boundary_finish in Hf. rewrite Hph in Hf.
  assert (exists b', s' = with_boundary (Some b') s /\ boundary_phase b' = MeasuringDecision /\ measurement b' = None) as (b' & -> & Hph' & Hm').
  { destruct (measurement b) as [m|] eqn:Hm.
    - destruct (measurement_finish m) as [d|e1|]; cbn in Hf; simplify_eq. by eexists.
    - simplify_eq. by exists b. }
  split_and!.
  - intros items count dims. unfold begin_selection_boundary. cbn. by eexists.
  - intros batch. unfold ingest_selection_batch. cbn. unfold boundary_ingest. rewrite Hph', Hm'. by eexists.
  - unfold finish_selection_pass. cbn. unfold boundary_finish. rewrite Hph', Hm'. by eexists.
Qed.
End selector.

(** ** Examples *)
Definition sample_settings : AdaptivePlanningSettings :=
  {| direction := Divisive;
     directional_pca := {| pca_cluster_count := 4; pca_random_seed := None; pca_params := sample_params |};
     dcbc := {| dcbc_cluster_count := 2; dcbc_balance_constraints := None; dcbc_random_seed := None |};
     switch_criteria := {| mean_cluster_radius_threshold := DEFAULT_MEAN_CLUSTER_RADIUS_THRESHOLD |} |}.
Definition fresh_selector : AdaptivePlanningSelector := Selector sample_settings false [] None.
Definition started : AdaptivePlanningSelector := (begin_selection_boundary 4 4 2 fresh_selector).2.
Definition begun_square : AdaptivePlanningSelector := (begin_selection_boundary 4 4 2 started).2.
(** The corners are their own centroids: after four replays the fifth measures. *)
Definition measuring_square : AdaptivePlanningSelector :=
  match replay_until (replicate 4 [square]) begun_square with Ok (_, s) => s | _ => begun_square end.
Definition square_classifier : DirectionalPcaStreamingClassifier :=
  match Classifier.into_classifier (completed_on square) with Ok c => c | _ => Classifier.Mk sample_config [] None end.

Lemma sample_count : (pca_cluster_count (directional_pca sample_settings) < 2 ^ 32)%N.
Proof. by vm_compute. Qed.
Lemma fresh_selected : selected sample_settings fresh_selector.
Proof. apply selected_new. vm_compute; reflexivity. Qed.
Lemma begun_selected : selected sample_settings started /\ selected sample_settings begun_square.
Proof.
  assert (selected sample_settings started) as Hs by (apply selected_begin; [apply fresh_selected|by vm_compute]).
  split; [exact Hs|]. apply selected_begin; [exact Hs|by vm_compute].
Qed.
Lemma measuring_selected : selected sample_settings measuring_square.
Proof.
  unfold measuring_square. destruct (replay_until (replicate 4 [square]) begun_square) as [[a s]|e|] eqn:Hr; [|apply begun_selected..].
  apply (replay_selected sample_settings (replicate 4 [square]) begun_square a s); [apply begun_selected|exact Hr].
Qed.
Example square_decided : rmap fst (replay_until (replicate 6 [square]) begun_square) = Ok (Some DirectionalPcaAlgorithm).
Proof. vm_compute; reflexivity. Qed.

Lemma adaptive_history_witness : history DEFAULT_MEAN_CLUSTER_RADIUS_THRESHOLD (decision_records measuring_square) (switched_to_dcbc measuring_square).
Proof. apply (adaptive_history sample_settings measuring_square sample_count measuring_selected). Defined.

Lemma boundary_decides_witness : match replay_until (replicate 6 [square]) begun_square with
  | Ok (a, s) => exists algorithm, a = Some algorithm /\ active_boundary s = None
  | _ => False
  end.
Proof.
  assert (match replay_until (replicate 6 [square]) begun_square with Ok _ => true | _ => false end = true) as Hdone by (vm_compute; reflexivity).
  destruct (replay_until (replicate 6 [square]) begun_square) as [[a s]|e|] eqn:Hr; [|done|done].
  assert (begin_selection_boundary 4 4 2 started = (Ok (ReplayRequired CollectingSummaries), begun_square)) as Hbegin by (vm_compute; reflexivity).
  destruct (boundary_decides sample_settings started 4 4 2 begun_square (replicate 6 [square]) a s sample_count ltac:(by vm_compute)
    (proj1 begun_selected) Hbegin ltac:(cbn; lia) Hr) as (algorithm & d & Ha & Hact & _).
  exists algorithm. split; [exact Ha|exact Hact].
Defined.

Lemma measured_radius_exact_witness : exists m d assigned,
  observe_batch square_classifier square (MeanClusterRadiusMeasurement_new 4 4) = (Ok tt, m) /\ measurement_finish m = Ok d
  /\ assigned_by square_classifier square = Ok assigned /\ mean_cluster_radius d = f32_of_f64 (mean_radius 4 assigned).
Proof.
  set (m := (observe_batch square_classifier square (MeanClusterRadiusMeasurement_new 4 4)).2).
  assert (observe_batch square_classifier square (MeanClusterRadiusMeasurement_new 4 4) = (Ok tt, m)) as Hm by (vm_compute; reflexivity).
  assert (measurement_finish m = Ok {| represented_item_count := 4; mean_cluster_radius := 0 |}) as Hd by (vm_compute; reflexivity).
  clearbody m.
  destruct (measured_radius_exact square_classifier 4 4 [square] m {| represented_item_count := 4; mean_cluster_radius := 0 |}) as (assigned & Ha & _ & Heq & _).
  { cbn [try_fold]. rewrite Hm. reflexivity. }
  { exact Hd. }
  exists m, {| represented_item_count := 4; mean_cluster_radius := 0 |}, assigned. split; [exact Hm|]. split; [exact Hd|]. split; [exact Ha|].
  assert (length (Classifier.centroids square_classifier) = 4%nat) as Hl by (vm_compute; reflexivity). rewrite Hl in Heq.
  exact (f_equal mean_cluster_radius Heq).
Defined.

Lemma boundary_begins_witness : forall e, (begin_selection_boundary 4 4 1 started).1 <> Ok (Selected e).
Proof.
  intros e He. pose proof (boundary_begins sample_settings started 4 4 1 sample_count (proj1 begun_selected)) as Hb.
  rewrite He in Hb. assert (Selected e = ReplayRequired CollectingSummaries) as Hs; [|discriminate Hs].
  apply Hb; [vm_compute; reflexivity|vm_compute; discriminate|vm_compute; reflexivity].
Defined.

Lemma failed_measurement_final_witness : exists e s,
  finish_selection_pass measuring_square = (Err e, s) /\ exists e', finish_selection_pass s = (Err e', s).
Proof.
  destruct (finish_selection_pass measuring_square) as [r s] eqn:Hf.
  assert (match r with Err _ => true | _ => false end = true) as Herr by (change r with (fst (r, s)); rewrite <-Hf; vm_compute; reflexivity).
  destruct r as [p|e|]; [discriminate Herr| |discriminate Herr]. exists e, s. split; [reflexivity|].
  assert (exists b, active_boundary measuring_square = Some b /\ boundary_phase b = MeasuringDecision) as Hb by (eexists; split; vm_compute; reflexivity).
  apply (failed_measurement_final sample_settings measuring_square e s sample_count measuring_selected Hb Hf).
Defined.
