(* ===== verification/LinearAlgebra.v ===== *)
(** * The linear algebra backends

    crates/lexongraph-linear-algebra-acceleration/src/lib.rs: the process-wide request
    for a backend with its scopes, how a request is resolved, the distance matrices of
    the processor, and the kernel of the graphics device. The device is a parameter
    ([Wgpu]): what it does with a kernel, and which dispatches its limits refuse, are the
    laws [WgpuRuns]; the kernel itself, WGSL
    text in the source, is [shader_main], over the device's own float operations. *)
From S2P Require Import Prelude Ordering Hash Ieee.

(** ** Requests and their resolution *)
Inductive ExecutionBackendRequest := AutoRequest | CpuRequest | WgpuRequest.
Inductive ExecutionBackendResolution :=
| CpuResolution | WgpuResolution | WgpuAvailableButDeclined | WgpuUnsupportedFallback | WgpuProbeFailed.
#[export] Instance ExecutionBackendRequest_eq_dec : EqDecision ExecutionBackendRequest.
Proof. solve_decision. Defined.
#[export] Instance ExecutionBackendResolution_eq_dec : EqDecision ExecutionBackendResolution.
Proof. solve_decision. Defined.

Record ExecutionBackendSelection := {
  sel_request : ExecutionBackendRequest; sel_resolution : ExecutionBackendResolution; sel_detail : string
}.

Definition request_as_str (r : ExecutionBackendRequest) : string :=
  match r with AutoRequest => "auto" | CpuRequest => "cpu" | WgpuRequest => "wgpu" end.

(** [str::trim]: the UTF-8 encodings of the characters with the property White_Space. *)
Definition white_space : list (list N) :=
  (map (fun c => [c]) [9; 10; 11; 12; 13; 32] ++ [[194; 133]; [194; 160]; [225; 154; 128]]
   ++ map (fun c => [226; 128; c]) [128; 129; 130; 131; 132; 133; 134; 135; 136; 137; 138; 168; 169; 175]
   ++ [[226; 129; 159]; [227; 128; 128]])%N.

Definition strip_one (codes : list (list N)) (l : list N) : option (list N) :=
  match find (fun c => bool_decide (take (length c) l = c)) codes with
  | Some c => Some (drop (length c) l)
  | None => None
  end.
Fixpoint strip_loop (codes : list (list N)) (fuel : nat) (l : list N) : list N :=
  match fuel with
  | O => l
  | S fuel => match strip_one codes l with Some l' => strip_loop codes fuel l' | None => l end
  end.
Definition trim (l : list N) : list N :=
  let l := strip_loop white_space (length l) l in
  rev (strip_loop (map (@rev N) white_space) (length l) (rev l)).
(** [to_ascii_lowercase] *)
Definition ascii_lower (c : N) : N := if ((65 <=? c) && (c <=? 90))%N then (c + 32)%N else c.
Definition codes (s : string) : list N := map Ascii.N_of_ascii (String.list_ascii_of_string s).

Definition request_parse (value : string) : option ExecutionBackendRequest :=
  let value := map ascii_lower (trim (codes value)) in
  if bool_decide (value = codes "auto") then Some AutoRequest
  else if bool_decide (value = codes "cpu") then Some CpuRequest
  else if bool_decide (value = codes "wgpu") then Some WgpuRequest
  else None.

Definition default_selection : ExecutionBackendSelection :=
  {| sel_request := AutoRequest; sel_resolution := CpuResolution;
     sel_detail := "execution backend selection was not recorded in this artifact" |}.

Definition backend_resolution_label (selection : ExecutionBackendSelection) : string :=
  match sel_resolution selection with
  | CpuResolution => "cpu"
  | WgpuResolution => "wgpu"
  | WgpuAvailableButDeclined => "wgpu-declined"
  | WgpuUnsupportedFallback => "wgpu-unsupported-fallback"
  | WgpuProbeFailed => "wgpu-probe-failed"
  end.

(** ** The request of the process and its scopes

    A mutex is held by the thread that has scopes open; the depth and the guard are
    local to a thread, [live] the scopes its code holds, the newest first, each with the
    request it found. A call that has to wait for the mutex is [Err Waits]; dropping a
    scope that is not there is not a call a program can make. *)
Module Backend.
Inductive refusal := Waits | NoSuchScope.
Notation turn := (result refusal).

Record Thread := MkThread { depth : N; guard : bool; live : list ExecutionBackendRequest }.
Record Process := MkProcess {
  request : ExecutionBackendRequest; lock_holder : option nat; threads : gmap nat Thread
}.
Definition idle_thread : Thread := MkThread 0 false [].
Definition thread (t : nat) (p : Process) : Thread := default idle_thread (threads p !! t).

(** [backend_request_lock]: the first request is [Auto]. *)
Definition initial : Process := MkProcess AutoRequest None ∅.

Definition set_raw (r : ExecutionBackendRequest) (p : Process) : Process :=
  MkProcess r (lock_holder p) (threads p).
Definition set_thread (t : nat) (th : Thread) (p : Process) : Process :=
  MkProcess (request p) (lock_holder p) (<[t := th]> (threads p)).
Definition set_holder (h : option nat) (p : Process) : Process := MkProcess (request p) h (threads p).

(** [Mutex::lock] *)
Definition lock (t : nat) (p : Process) : turn Process :=
  match lock_holder p with Some _ => Err Waits | None => Ok (set_holder (Some t) p) end.

Definition with_backend_request_mutation (t : nat) (run : Process -> Process) (p : Process) : turn Process :=
  if (depth (thread t p) =? 0)%N then
    let? p := lock t p in
    Ok (set_holder None (run p))
  else Ok (run p).

Definition set_execution_backend_request (r : ExecutionBackendRequest) (t : nat) (p : Process) : turn Process :=
  with_backend_request_mutation t (set_raw r) p.
Definition reset_execution_backend_request : nat -> Process -> turn Process :=
  set_execution_backend_request AutoRequest.

Definition scope_new (r : ExecutionBackendRequest) (t : nat) (p : Process) : turn Process :=
  let th := thread t p in
  let? '(p, g) := (if (depth th =? 0)%N then let? p := lock t p in Ok (p, true) else Ok (p, guard th)) in
  let previous := request p in
  Ok (set_raw r (set_thread t (MkThread (depth th + 1) g (previous :: live th)) p)).

Definition scope_drop (i : nat) (t : nat) (p : Process) : turn Process :=
  let th := thread t p in
  let? previous := ok_or (live th !! i) NoSuchScope in
  let p := set_raw previous p in
  let? next_depth := expect (checked_sub (depth th) 1) in
  let remaining := delete i (live th) in
  if (next_depth =? 0)%N then
    Ok (set_holder (if guard th then None else lock_holder p) (set_thread t (MkThread next_depth false remaining) p))
  else Ok (set_thread t (MkThread next_depth (guard th) remaining) p).

(** [with_execution_backend_request]: a scope around a call. *)
Definition with_execution_backend_request (r : ExecutionBackendRequest) (run : nat -> Process -> turn Process)
  (t : nat) (p : Process) : turn Process :=
  let? p := scope_new r t p in
  let? p := run t p in
  scope_drop 0 t p.

(** The calls of all threads, one after the other. *)
Inductive action := OpenScope (r : ExecutionBackendRequest) | DropScope (i : nat) | SetRequest (r : ExecutionBackendRequest).
Definition perform (a : nat * action) (p : Process) : turn Process :=
  match a.2 with
  | OpenScope r => scope_new r a.1 p
  | DropScope i => scope_drop i a.1 p
  | SetRequest r => set_execution_backend_request r a.1 p
  end.
Definition perform_all (acts : list (nat * action)) (p : Process) : turn Process :=
  try_fold (fun p a => perform a p) p acts.
End Backend.

(** ** The device *)
Inductive WgpuContextError := Unsupported (message : string) | ProbeFailed (message : string).
Record WgpuAdapterInfo := { summary : string; matches_declared_target : bool }.
Inductive DenseDistanceMetric := Euclidean | Cosine.

(** The uniform buffer of the kernel. *)
Record Params := { left_count : N; right_count : N; kernel_dimensions : N; metric_kind : N }.

(** The float operations of the shading language: their rounding is the device's. *)
Class WgslFloat := {
  w_add : f32 -> f32 -> f32; w_sub : f32 -> f32 -> f32; w_mul : f32 -> f32 -> f32; w_div : f32 -> f32 -> f32;
  w_max : f32 -> f32 -> f32; w_sqrt : f32 -> f32; w_is_zero : f32 -> bool
}.

(** The crate feature, the context made once per process, and a dispatch of the kernel:
    parameters, the two storage buffers, the workgroups in both directions, the length
    of the output. It covers the buffers, the bind group, the pass and its submission,
    and the readback. An error of the readback is [Err]; an error of the validation goes
    to the uncaptured error handler of the device, whose default panics: [Panic]. *)
Class Wgpu := {
  wgpu_accel : bool;
  create_wgpu_context : WgpuAdapterInfo + WgpuContextError;
  dispatch : Params -> list f32 -> list f32 -> N -> N -> N -> result string (list f32)
}.

(** The limits of the device, [wgpu::Limits::downlevel_defaults()]: the bytes of a storage
    buffer in a binding, and the workgroups in one direction. *)
Definition max_storage_buffer_binding_size : N := 134217728.
Definition max_compute_workgroups_per_dimension : N := 65535.

(** What a dispatch needs of them: the three storage buffers, of 4 bytes an element, and
    the workgroups in both directions. *)
Definition within_limits (left_values right_values output_len x y : N) : Prop :=
  (left_values * 4 <= max_storage_buffer_binding_size)%N /\ (right_values * 4 <= max_storage_buffer_binding_size)%N
  /\ (output_len * 4 <= max_storage_buffer_binding_size)%N
  /\ (x <= max_compute_workgroups_per_dimension)%N /\ (y <= max_compute_workgroups_per_dimension)%N.
#[export] Instance within_limits_dec l r n x y : Decision (within_limits l r n x y).
Proof. unfold within_limits. apply _. Defined.

Section shader.
Context `{WgslFloat}.
Inductive void := .

Definition u32_mul (a b : N) : N := ((a * b) mod 2 ^ 32)%N.
Definition u32_add (a b : N) : N := ((a + b) mod 2 ^ 32)%N.

(** An access out of the bounds of a buffer is [Panic]. *)
Definition read (l : list f32) (i : N) : result void f32 := expect (l !! N.to_nat i).

Definition euclidean_loop (p : Params) (left_values right_values : list f32) (left_base right_base : N)
  : result void f32 :=
  try_fold (fun sum_sq dim =>
    let? a := read left_values (u32_add left_base dim) in
    let? b := read right_values (u32_add right_base dim) in
    let delta := w_sub a b in
    Ok (w_add sum_sq (w_mul delta delta))) 0%N (map N.of_nat (seq 0 (N.to_nat (kernel_dimensions p)))).

Definition cosine_loop (p : Params) (left_values right_values : list f32) (left_base right_base : N)
  : result void (f32 * f32 * f32) :=
  try_fold (fun '(dot, left_norm_sq, right_norm_sq) dim =>
    let? lhs := read left_values (u32_add left_base dim) in
    let? rhs := read right_values (u32_add right_base dim) in
    Ok (w_add dot (w_mul lhs rhs), w_add left_norm_sq (w_mul lhs lhs), w_add right_norm_sq (w_mul rhs rhs)))
    (0%N, 0%N, 0%N) (map N.of_nat (seq 0 (N.to_nat (kernel_dimensions p)))).

Definition cosine_value (sums : f32 * f32 * f32) : f32 :=
  let '(dot, left_norm_sq, right_norm_sq) := sums in
  if w_is_zero left_norm_sq || w_is_zero right_norm_sq then 0%N
  else w_max (w_sub f32_one (w_div dot (w_sqrt (w_mul left_norm_sq right_norm_sq)))) 0%N.

(** [main], of one invocation: the element it writes, if it does not return early. *)
Definition shader_main (p : Params) (left_values right_values : list f32) (global_id : N * N)
  : result void (option (N * f32)) :=
  let '(column, row) := global_id in
  if ((left_count p <=? row) || (right_count p <=? column))%N then Ok None
  else
    let left_base := u32_mul row (kernel_dimensions p) in
    let right_base := u32_mul column (kernel_dimensions p) in
    let output_index := u32_add (u32_mul row (right_count p)) column in
    if (metric_kind p =? 0)%N then
      let? sum_sq := euclidean_loop p left_values right_values left_base right_base in
      Ok (Some (output_index, w_sqrt sum_sq))
    else
      let? sums := cosine_loop p left_values right_values left_base right_base in
      Ok (Some (output_index, cosine_value sums)).

(** One invocation on the output buffer. *)
Definition run_invocation (p : Params) (left_values right_values output : list f32) (global_id : N * N)
  : result void (list f32) :=
  let? written := shader_main p left_values right_values global_id in
  match written with
  | None => Ok output
  | Some (i, value) =>
      let? _ := expect (output !! N.to_nat i) in
      Ok (<[N.to_nat i := value]> output)
  end.

(** The invocations of [x] by [y] workgroups of 8 by 8. *)
Definition invocations (x y : N) : list (N * N) :=
  concat (map (fun row => map (fun column => (N.of_nat column, N.of_nat row)) (seq 0 (8 * N.to_nat x)))
    (seq 0 (8 * N.to_nat y))).
End shader.

(** A dispatch that succeeds has run every invocation once, in some order, on a zeroed
    output buffer. A dispatch is validated against the limits of the device, and only a
    dispatch beyond them panics. *)
Class WgpuRuns `{WgslFloat} `{Wgpu} := {
  dispatch_runs p l r x y n out :
    dispatch p l r x y n = Ok out -> exists order, order ≡ₚ invocations x y /\
    try_fold (run_invocation p l r) (replicate (N.to_nat n) 0%N) order = Ok out;
  dispatch_validated p l r x y n :
    dispatch p l r x y n = Panic <-> ~ within_limits (len l) (len r) n x y
}.

Section backends.
Context `{Wgpu}.

Inductive WgpuProbe :=
| ProbeSupported (info : WgpuAdapterInfo) | ProbeUnsupported (message : string) | ProbeFailure (message : string).
Definition wgpu_probe : WgpuProbe :=
  match create_wgpu_context with
  | inl info => ProbeSupported info
  | inr (Unsupported message) => ProbeUnsupported message
  | inr (ProbeFailed message) => ProbeFailure message
  end.

Definition resolve_execution_backend_selection (request : ExecutionBackendRequest) : ExecutionBackendSelection :=
  if wgpu_accel then
    match wgpu_probe with
    | ProbeSupported info =>
        match request with
        | AutoRequest | WgpuRequest =>
            {| sel_request := request; sel_resolution := WgpuResolution;
               sel_detail := ("using wgpu backend on " +:+ summary info +:+ " (target profile match: "
                 +:+ (if matches_declared_target info then "yes" else "no") +:+ ")")%stdpp |}
        | CpuRequest =>
            {| sel_request := request; sel_resolution := WgpuAvailableButDeclined;
               sel_detail := ("wgpu capability probe succeeded on " +:+ summary info
                 +:+ "; execution was pinned to cpu")%stdpp |}
        end
    | ProbeUnsupported message =>
        {| sel_request := request; sel_resolution := WgpuUnsupportedFallback;
           sel_detail := (message +:+ "; using cpu backend")%stdpp |}
    | ProbeFailure message =>
        {| sel_request := request; sel_resolution := WgpuProbeFailed;
           sel_detail := (message +:+ "; using cpu backend")%stdpp |}
    end
  else
    match request with
    | CpuRequest =>
        {| sel_request := request; sel_resolution := CpuResolution;
           sel_detail := "execution was pinned to cpu; binary was built without the wgpu-accel feature" |}
    | AutoRequest | WgpuRequest =>
        {| sel_request := request; sel_resolution := WgpuUnsupportedFallback;
           sel_detail := "binary was built without the wgpu-accel feature; using cpu backend" |}
    end.

(** ** Distances on the processor *)
Definition l2_norm_sq (vector : list f32) : f64 :=
  sum_f64 (map (fun value => fmul binary64 (f64_of_f32 value) (f64_of_f32 value)) vector).

Definition euclidean_distance (left right : list f32) : f64 :=
  fsqrt binary64 (sum_f64 (zip_with (fun lhs rhs =>
    let delta := fsub binary64 (f64_of_f32 lhs) (f64_of_f32 rhs) in fmul binary64 delta delta) left right)).

Definition cosine_distance (left right : list f32) : result string f64 :=
  let left_norm := fsqrt binary64 (l2_norm_sq left) in
  let right_norm := fsqrt binary64 (l2_norm_sq right) in
  guard? negb (feqb binary64 left_norm 0 || feqb binary64 right_norm 0) else
    "cosine distance requires non-zero embeddings" in
  let cosine_similarity := fdiv binary64
    (sum_f64 (zip_with (fun lhs rhs => fmul binary64 (f64_of_f32 lhs) (f64_of_f32 rhs)) left right))
    (fmul binary64 left_norm right_norm) in
  Ok (fmax binary64 (fsub binary64 f64_one cosine_similarity) 0).

Definition cpu_distance (metric : DenseDistanceMetric) (source target : list f32) : result string f32 :=
  let? value := match metric with
                | Euclidean => Ok (euclidean_distance source target)
                | Cosine => cosine_distance source target
                end in
  Ok (f32_of_f64 value).

Definition cpu_dense_distance_matrix (left right : list (list f32)) (metric : DenseDistanceMetric)
  : result string (list f32) :=
  let? _ := ok_or (checked_mul USIZE_MAX (len left) (len right)) "dense distance output size overflowed usize" in
  let? rows := collect_map (fun source => collect_map (cpu_distance metric source) right) left in
  Ok (concat rows).

Definition validate_dense_inputs (left right : list (list f32)) (metric : DenseDistanceMetric)
  : result string unit :=
  match left with
  | [] => Err "dense distance matrix requires at least one left-hand vector"
  | first :: _ =>
      guard? negb (len right =? 0)%N else "dense distance matrix requires at least one right-hand vector" in
      let dimensions := len first in
      guard? negb (dimensions =? 0)%N else "dense distance matrix requires non-empty vectors" in
      guard? negb (existsb (fun vector => negb (len vector =? dimensions)%N) left
                   || existsb (fun vector => negb (len vector =? dimensions)%N) right) else
        "dense distance matrix requires matching vector dimensions" in
      guard? negb (existsb (existsb (fun value => negb (f32_is_finite value))) (left ++ right)) else
        "dense distance matrix requires finite vector values" in
      guard? match metric with
             | Cosine => negb (existsb (fun vector => feqb binary64 (l2_norm_sq vector) 0) (left ++ right))
             | Euclidean => true
             end else "cosine distance requires non-zero embeddings" in
      Ok tt
  end.

Inductive DenseDistanceErrorKind := InvalidInput | BackendFailureKind.
Definition is_dense_input_validation_error (message : string) : bool :=
  bool_decide (message ∈
    ["dense distance matrix requires at least one left-hand vector";
     "dense distance matrix requires at least one right-hand vector";
     "dense distance matrix requires non-empty vectors";
     "dense distance matrix requires matching vector dimensions";
     "dense distance matrix requires finite vector values";
     "cosine distance requires non-zero embeddings"]).
Definition classify_dense_distance_error (message : string) : DenseDistanceErrorKind :=
  if is_dense_input_validation_error message then InvalidInput else BackendFailureKind.

(** ** Distances on the device *)
Definition flatten_embeddings (vectors : list (list f32)) : list f32 := concat vectors.
Definition u32_try_from (n : N) : option N := if (n <? 2 ^ 32)%N then Some n else None.
Definition div_ceil_8 (n : N) : N := ((n + 7) / 8)%N.
Definition metric_code (metric : DenseDistanceMetric) : N := match metric with Euclidean => 0 | Cosine => 1 end%N.

Definition compute_distance_matrix (left right : list (list f32)) (metric : DenseDistanceMetric)
  : result string (list f32) :=
  let left_values := flatten_embeddings left in
  let right_values := flatten_embeddings right in
  let? left_count := ok_or (u32_try_from (len left)) "left-hand matrix row count overflowed u32" in
  let? right_count := ok_or (u32_try_from (len right)) "right-hand matrix row count overflowed u32" in
  let? first := expect (left !! 0%nat) in
  let? dimensions := ok_or (u32_try_from (len first)) "dense-kernel dimensionality overflowed u32" in
  let params := {| left_count := left_count; right_count := right_count; kernel_dimensions := dimensions;
                   metric_kind := metric_code metric |} in
  let? output_len := ok_or (checked_mul USIZE_MAX (len left) (len right))
    "dense-kernel output size overflowed usize" in
  let? _ := ok_or (checked_mul USIZE_MAX output_len 4) "dense-kernel output byte size overflowed usize" in
  dispatch params left_values right_values (div_ceil_8 right_count) (div_ceil_8 left_count) output_len.

Definition wgpu_context : result string unit :=
  match create_wgpu_context with
  | inl _ => Ok tt
  | inr (Unsupported message) | inr (ProbeFailed message) => Err message
  end.

Definition device_distance_matrix (left right : list (list f32)) (metric : DenseDistanceMetric)
  : result string (list f32) :=
  if wgpu_accel then
    let? _ := wgpu_context in compute_distance_matrix left right metric
  else Panic.

(** ** The entry points, with the request of the process *)
Definition dense_distance_matrix (request : ExecutionBackendRequest) (left right : list (list f32))
  (metric : DenseDistanceMetric) : result string (list f32) :=
  let? _ := validate_dense_inputs left right metric in
  match request with
  | CpuRequest => cpu_dense_distance_matrix left right metric
  | _ =>
      match sel_resolution (resolve_execution_backend_selection request) with
      | WgpuResolution => device_distance_matrix left right metric
      | _ => cpu_dense_distance_matrix left right metric
      end
  end.

(** [output.extend(f(left_chunk)?)] for each chunk *)
Definition extend_chunks (f : list (list f32) -> result string (list f32)) (parts : list (list (list f32)))
  : result string (list f32) :=
  let? outputs := collect_map f parts in Ok (concat outputs).

Definition device_chunks (parts : list (list (list f32))) (right : list (list f32)) (metric : DenseDistanceMetric)
  : result string (list f32) :=
  if wgpu_accel then
    let? _ := wgpu_context in
    extend_chunks (fun left_chunk => compute_distance_matrix left_chunk right metric) parts
  else Panic.

Definition chunked_dense_distance_matrix (request : ExecutionBackendRequest) (left right : list (list f32))
  (metric : DenseDistanceMetric) (max_left_rows_per_chunk : N) : result string (list f32) :=
  let? _ := validate_dense_inputs left right metric in
  let rows_per_chunk := N.max max_left_rows_per_chunk 1 in
  let? _ := ok_or (checked_mul USIZE_MAX (len left) (len right)) "chunked dense distance output size overflowed usize" in
  let parts := chunks (N.to_nat rows_per_chunk) left in
  match request with
  | CpuRequest => extend_chunks (fun left_chunk => cpu_dense_distance_matrix left_chunk right metric) parts
  | _ =>
      match sel_resolution (resolve_execution_backend_selection request) with
      | WgpuResolution => device_chunks parts right metric
      | _ => extend_chunks (fun left_chunk => cpu_dense_distance_matrix left_chunk right metric) parts
      end
  end.
End backends.
