(* ===== verification/LinearAlgebraCorrect.v ===== *)
(** * The linear algebra backends: the properties

    A thread that holds a scope is the only one that changes the request until the
    scope is gone, and then the request is what it was. The kernel fills every element
    of the matrix with the distance of its pair, whatever the order of the invocations;
    and dividing the rows into chunks changes nothing. *)
From S2P Require Import Prelude Ordering Hash Ieee LinearAlgebra.

(** ** Scopes *)
Module BackendFacts.
Import Backend.

(** The mutex is held exactly by the thread that has scopes open. *)
Definition process_ok (p : Process) : Prop := forall t,
  depth (thread t p) = len (live (thread t p)) /\ guard (thread t p) = negb (depth (thread t p) =? 0)%N
  /\ (lock_holder p = Some t <-> (0 < depth (thread t p))%N).

Lemma thread_set_eq t th p : thread t (set_thread t th p) = th.
Proof. unfold thread, set_thread. cbn. by rewrite lookup_insert_eq. Qed.
Lemma thread_set_ne t u th p : t <> u -> thread u (set_thread t th p) = thread u p.
Proof. intros Hne. unfold thread, set_thread. cbn. by rewrite lookup_insert_ne. Qed.

Lemma initial_ok : process_ok initial.
Proof. intros t. unfold thread. cbn. rewrite lookup_empty. split_and!; [done..|]. cbn. split; [done|lia]. Qed.

(** Only the holder of the mutex has scopes. *)
Lemma others_idle p t u : process_ok p -> (0 < depth (thread t p))%N -> u <> t -> depth (thread u p) = 0%N.
Proof.
  intros Hp Ht Hne. destruct (Hp t) as (_ & _ & Hht). destruct (Hp u) as (_ & _ & Hhu).
  destruct (N.eq_0_gt_0_cases (depth (thread u p))) as [|Hu]; [done|].
  apply Hht in Ht. apply Hhu in Hu. congruence.
Qed.

Lemma idle_live p t : process_ok p -> depth (thread t p) = 0%N -> live (thread t p) = [].
Proof. intros Hp Hd. destruct (Hp t) as (Hl & _). rewrite Hd in Hl. by destruct (live _). Qed.

Lemma unlocked p t : process_ok p -> depth (thread t p) = 0%N -> lock_holder p = None ->
  forall u, depth (thread u p) = 0%N.
Proof.
  intros Hp Hd Hh u. destruct (Hp u) as (_ & _ & Hu). rewrite Hh in Hu.
  destruct (N.eq_0_gt_0_cases (depth (thread u p))) as [|Hpos]; [done|]. by apply Hu in Hpos.
Qed.

Lemma set_request_ok r t p : process_ok p ->
  match set_execution_backend_request r t p with
  | Ok p' => p' = set_raw r p
      /\ (depth (thread t p) = 0%N -> lock_holder p = None)
  | Err _ => depth (thread t p) = 0%N /\ exists u, lock_holder p = Some u
  | Panic => False
  end.
Proof.
  intros Hp. unfold set_execution_backend_request, with_backend_request_mutation, lock.
  destruct (N.eqb_spec (depth (thread t p)) 0) as [E|E]; [|by split].
  destruct (lock_holder p) as [u|] eqn:Hh; cbn; [split; [done|by exists u]|].
  split; [|done]. unfold set_holder, set_raw. cbn. by rewrite Hh.
Qed.

Lemma scope_new_ok r t p : process_ok p ->
  match scope_new r t p with
  | Ok p' => process_ok p' /\ request p' = r /\ live (thread t p') = request p :: live (thread t p)
      /\ (depth (thread t p) = 0%N -> lock_holder p = None)
  | Err _ => depth (thread t p) = 0%N /\ exists u, lock_holder p = Some u
  | Panic => False
  end.
Proof.
  intros Hp. pose proof (Hp t) as (Hd & Hg & Hh). unfold scope_new, lock.
  destruct (N.eqb_spec (depth (thread t p)) 0) as [E|E].
  - destruct (lock_holder p) as [u|] eqn:Hu; cbn; [split; [done|by exists u]|].
    split_and!; [|done|by unfold thread; cbn; rewrite lookup_insert_eq|done].
    intros u. change (thread u (set_raw _ _)) with (thread u (set_thread t
      (MkThread (depth (thread t p) + 1) true (request p :: live (thread t p))) p)).
    destruct (decide (t = u)) as [<-|Hne].
    + rewrite thread_set_eq. cbn. split_and!; [rewrite Hd; unfold len; cbn; lia|by rewrite E|]. split; [lia|done].
    + rewrite thread_set_ne by done. destruct (Hp u) as (H1 & H2 & H3). split_and!; [done..|]. cbn.
      rewrite (unlocked p t Hp E Hu u). split; [by intros [= ->]|lia].
  - split_and!; [|done|by unfold thread; cbn; rewrite lookup_insert_eq|done]. intros u. cbn.
    change (thread u (set_raw _ _)) with (thread u (set_thread t
      (MkThread (depth (thread t p) + 1) (guard (thread t p)) (request p :: live (thread t p))) p)).
    destruct (decide (t = u)) as [<-|Hne].
    + rewrite thread_set_eq. cbn. split_and!; [rewrite Hd; unfold len; cbn; lia| |].
      * rewrite Hg. by rewrite (proj2 (N.eqb_neq _ 0)) by lia.
      * rewrite Hh. lia.
    + rewrite thread_set_ne by done. apply (Hp u).
Qed.

Lemma scope_drop_ok i t p : process_ok p ->
  match scope_drop i t p with
  | Ok p' => process_ok p' /\ live (thread t p) !! i = Some (request p')
      /\ live (thread t p') = delete i (live (thread t p)) /\ (0 < depth (thread t p))%N
      /\ (depth (thread t p') = 0%N -> lock_holder p' = None)
  | Err _ => live (thread t p) !! i = None
  | Panic => False
  end.
Proof.
  intros Hp. pose proof (Hp t) as (Hd & Hg & Hh). unfold scope_drop.
  destruct (live (thread t p) !! i) as [previous|] eqn:Hi; [|done]. cbn [ok_or rbind].
  pose proof (lookup_lt_Some _ _ _ Hi) as Hlt. pose proof (length_delete _ _ (mk_is_Some _ _ Hi)) as Hdel.
  assert (0 < depth (thread t p))%N as Hpos by (rewrite Hd; unfold len; lia).
  unfold checked_sub. rewrite (proj2 (N.leb_le 1 _)) by lia. cbn [expect rbind].
  assert (depth (thread t p) - 1 = len (delete i (live (thread t p))))%N as Hd'
    by (rewrite Hd; unfold len; lia).
  destruct (N.eqb_spec (depth (thread t p) - 1) 0) as [E|E].
  - rewrite Hg, (proj2 (N.eqb_neq _ 0)) by lia. cbn [negb].
    split_and!; [|done|by unfold thread; cbn; rewrite lookup_insert_eq|done|done]. intros u.
    change (thread u (set_holder _ _)) with (thread u (set_thread t (MkThread (depth (thread t p) - 1) false
      (delete i (live (thread t p)))) p)). cbn.
    destruct (decide (t = u)) as [<-|Hne].
    + rewrite thread_set_eq. cbn. rewrite E. split_and!; [by rewrite <-E|done|]. split; [done|lia].
    + rewrite thread_set_ne by done. destruct (Hp u) as (H1 & H2 & H3). split_and!; [done..|].
      rewrite (others_idle p t u Hp Hpos) by done. split; [done|lia].
  - split_and!; [|done|by unfold thread; cbn; rewrite lookup_insert_eq|done|].
    2:{ unfold thread at 1. cbn. rewrite lookup_insert_eq. cbn. lia. }
    intros u. change (thread u (set_thread _ _ _)) with (thread u (set_thread t (MkThread (depth (thread t p) - 1)
      (guard (thread t p)) (delete i (live (thread t p)))) p)). cbn.
    destruct (decide (t = u)) as [<-|Hne].
    + rewrite thread_set_eq. cbn. split_and!; [done| |].
      * rewrite Hg, (proj2 (N.eqb_neq (depth (thread t p)) 0)) by lia. cbn [negb]. by rewrite (proj2 (N.eqb_neq _ 0)) by lia.
      * rewrite Hh. lia.
    + rewrite thread_set_ne by done. apply (Hp u).
Qed.

Lemma perform_request_ok a p : process_ok p -> returns process_ok (perform a p).
Proof.
  intros Hp. destruct a as [t [r|i|r]]; cbn [perform fst snd].
  - pose proof (scope_new_ok r t p Hp). destruct (scope_new r t p); [|done..]. cbn. tauto.
  - pose proof (scope_drop_ok i t p Hp). destruct (scope_drop i t p); [|done..]. cbn. tauto.
  - pose proof (set_request_ok r t p Hp) as Hs. destruct (set_execution_backend_request r t p); [|done..]. cbn.
    destruct Hs as [-> _]. exact Hp.
Qed.

Lemma history_ok acts : returns process_ok (perform_all acts initial).
Proof. apply returns_loop; [apply initial_ok|]. intros a p _. apply perform_request_ok. Qed.

(** While a thread has a scope open, no other thread gets a turn. *)
Lemma only_holder t a p p' : process_ok p -> (0 < depth (thread t p))%N -> perform a p = Ok p' -> a.1 = t.
Proof.
  intros Hp Ht. destruct a as [u x]. cbn [fst]. destruct (decide (u = t)) as [|Hne]; [done|].
  pose proof (others_idle p t u Hp Ht Hne) as Hu. pose proof (proj2 (proj2 (proj2 (Hp t))) Ht) as Hh.
  destruct x as [r|i|r]; cbn [perform fst snd]; intros He.
  - pose proof (scope_new_ok r u p Hp) as Hs. rewrite He in Hs. destruct Hs as (_ & _ & _ & Hs). rewrite Hs in Hh; done.
  - pose proof (scope_drop_ok i u p Hp) as Hs. rewrite He in Hs. destruct Hs as (_ & _ & _ & Hs & _). lia.
  - pose proof (set_request_ok r u p Hp) as Hs. rewrite He in Hs. destruct Hs as (_ & Hs). rewrite Hs in Hh; done.
Qed.

(** The newest scope is dropped first. *)
Definition newest_first (x : action) : Prop := match x with DropScope i => i = 0%nat | _ => True end.

(** The calls between a scope of [t] and its end: [t] keeps a scope after each. *)
Inductive within (t : nat) : Process -> list (nat * action) -> Process -> Prop :=
| within_nil p : within t p [] p
| within_cons p a p1 acts p2 : perform a p = Ok p1 -> (a.1 = t -> newest_first a.2) ->
    (0 < depth (thread t p1))%N -> within t p1 acts p2 -> within t p (a :: acts) p2.

Lemma oldest_kept t x p p' : process_ok p -> (0 < depth (thread t p))%N -> (0 < depth (thread t p'))%N ->
  newest_first x -> perform (t, x) p = Ok p' -> last (live (thread t p')) = last (live (thread t p)).
Proof.
  intros Hp Ht Ht' Hx He. pose proof (perform_request_ok (t, x) p Hp) as Hp'. rewrite He in Hp'. cbn in Hp'.
  pose proof (Hp t) as (Hd & _). pose proof (Hp' t) as (Hd' & _).
  destruct x as [r|i|r]; cbn [perform fst snd] in He.
  - pose proof (scope_new_ok r t p Hp) as Hs. rewrite He in Hs. destruct Hs as (_ & _ & -> & _).
    destruct (live (thread t p)) as [|y l]; [by rewrite Hd in Ht|done].
  - cbn in Hx. subst i. pose proof (scope_drop_ok 0 t p Hp) as Hs. rewrite He in Hs. destruct Hs as (_ & _ & Hl & _ & _).
    rewrite Hl in Hd' |- *. destruct (live (thread t p)) as [|y l]; [done|]. cbn [delete list_delete] in *.
    destruct l as [|z l]; [unfold len in Hd'; cbn in Hd'; lia|done].
  - pose proof (set_request_ok r t p Hp) as Hs. rewrite He in Hs. by destruct Hs as (-> & _).
Qed.

Lemma within_ok t p acts p' : within t p acts p' -> process_ok p -> (0 < depth (thread t p))%N ->
  process_ok p' /\ (0 < depth (thread t p'))%N /\ Forall (fun a => a.1 = t) acts
  /\ last (live (thread t p')) = last (live (thread t p)).
Proof.
  induction 1 as [p|p [u x] p1 acts p2 He Hn Hd1 _ IH]; intros Hp Hd; [done|].
  pose proof (only_holder t _ p p1 Hp Hd He) as Hu. cbn in Hu. subst u. specialize (Hn eq_refl). cbn in Hn.
  pose proof (perform_request_ok (t, x) p Hp) as Hp1. rewrite He in Hp1. cbn in Hp1.
  destruct (IH Hp1 Hd1) as (Hp2 & Hd2 & Hf & Hl). split_and!; [done|done|by constructor|].
  rewrite Hl. by apply (oldest_kept t x).
Qed.
End BackendFacts.

(** Whatever the threads have done before: from the first scope a thread opens until
    its last is dropped, newest first, no other thread opens, drops or sets anything;
    afterwards the request is what it was before and the mutex is free; no call panics. *)
Theorem scope_restores_request history p t r p1 acts p2 p3 :
  Backend.perform_all history Backend.initial = Ok p -> Backend.depth (Backend.thread t p) = 0%N ->
  Backend.perform (t, Backend.OpenScope r) p = Ok p1 -> BackendFacts.within t p1 acts p2 ->
  Backend.perform (t, Backend.DropScope 0) p2 = Ok p3 -> Backend.depth (Backend.thread t p3) = 0%N ->
  Backend.request p1 = r /\ Forall (fun a => a.1 = t) acts
  /\ Backend.request p3 = Backend.request p /\ Backend.lock_holder p3 = None
  /\ forall a, no_panic (Backend.perform a p).
Proof.
  intros Hh Hd Ho Hw Hc Hd3. pose proof (BackendFacts.history_ok history) as Hp. rewrite Hh in Hp. cbn in Hp.
  pose proof (BackendFacts.scope_new_ok r t p Hp) as Hn. cbn [Backend.perform fst snd] in Ho. rewrite Ho in Hn.
  destruct Hn as (Hp1 & Hr & Hl1 & _). rewrite (BackendFacts.idle_live p t Hp Hd) in Hl1.
  assert (0 < Backend.depth (Backend.thread t p1))%N as Hd1
    by (rewrite (proj1 (Hp1 t)), Hl1; unfold len; cbn; lia).
  destruct (BackendFacts.within_ok t p1 acts p2 Hw Hp1 Hd1) as (Hp2 & Hd2 & Hf & Hlast). rewrite Hl1 in Hlast. cbn in Hlast.
  pose proof (BackendFacts.scope_drop_ok 0 t p2 Hp2) as Hs. cbn [Backend.perform fst snd] in Hc. rewrite Hc in Hs.
  destruct Hs as (Hp3 & Hq & Hl3 & _ & Hfree). split_and!; [done|done| |by apply Hfree|].
  - pose proof (BackendFacts.idle_live p3 t Hp3 Hd3) as Hl. rewrite Hl in Hl3.
    destruct (Backend.live (Backend.thread t p2)) as [|y [|z l]]; [done| |done]. cbn in Hlast, Hq. congruence.
  - intros a. pose proof (BackendFacts.perform_request_ok a p Hp) as Ha. by destruct (Backend.perform a p).
Qed.

(** ** The kernel *)
Section kernel.
Context `{WgslFloat}.

(** The distance of a pair as the kernel rounds it. *)
Definition euclidean_step (sum_sq a b : f32) : f32 := let delta := w_sub a b in w_add sum_sq (w_mul delta delta).
Definition cosine_step (sums : f32 * f32 * f32) (a b : f32) : f32 * f32 * f32 :=
  let '(dot, ls, rs) := sums in (w_add dot (w_mul a b), w_add ls (w_mul a a), w_add rs (w_mul b b)).
Definition over_pairs {B} (step : B -> f32 -> f32 -> B) (s : B) (l r : list f32) : B :=
  fold_left (fun s '(a, b) => step s a b) (zip l r) s.
Definition kernel_distance (metric : DenseDistanceMetric) (l r : list f32) : f32 :=
  match metric with
  | Euclidean => w_sqrt (over_pairs euclidean_step 0%N l r)
  | Cosine => cosine_value (over_pairs cosine_step (0%N, 0%N, 0%N) l r)
  end.

Definition distance_rows {A B C} (d : A -> B -> C) (left : list A) (right : list B) : list C :=
  concat (map (fun l => map (d l) right) left).

(** The element of a flattened matrix, without wrapping. *)
Lemma flat_index i w c n : (i < n)%N -> (c < w)%N -> (n * w < 2 ^ 32)%N ->
  N.to_nat (u32_add (u32_mul i w) c) = (N.to_nat i * N.to_nat w + N.to_nat c)%nat.
Proof.
  intros Hi Hc Hb. unfold u32_add, u32_mul. assert (i * w + c < n * w)%N as Hlt by nia.
  rewrite (N.mod_small (i * w)), N.mod_small by lia. lia.
Qed.

Lemma read_flat rows w i c row x : Forall (fun r => len r = w) rows -> rows !! N.to_nat i = Some row ->
  row !! N.to_nat c = Some x -> (len rows * w < 2 ^ 32)%N ->
  read (flatten_embeddings rows) (u32_add (u32_mul i w) c) = Ok x.
Proof.
  intros Hf Hr Hx Hb. pose proof (lookup_lt_Some _ _ _ Hr). pose proof (lookup_lt_Some _ _ _ Hx).
  assert (len row = w) as Hw by (by eapply Forall_lookup_1 in Hf).
  unfold read. rewrite (flat_index i w c (len rows)) by (unfold len in *; lia).
  unfold flatten_embeddings. rewrite (concat_lookup rows (N.to_nat w)).
  - rewrite Hr. cbn. by rewrite Hx.
  - eapply Forall_impl; [exact Hf|]. cbn. intros r <-. unfold len. lia.
  - unfold len in Hw. lia.
Qed.

(** A loop over the dimensions reads the two rows in step. *)
Lemma loop_rows {B} (step : B -> f32 -> f32 -> B) (f : B -> N -> result void B) l r s : length l = length r ->
  (forall s i a b, l !! N.to_nat i = Some a -> r !! N.to_nat i = Some b -> f s i = Ok (step s a b)) ->
  try_fold f s (map N.of_nat (seq 0 (length l))) = Ok (over_pairs step s l r).
Proof.
  intros Hl Hf. enough (forall k s, (k <= length l)%nat ->
    try_fold f s (map N.of_nat (seq k (length l - k))) = Ok (fold_left (fun s '(a, b) => step s a b) (zip (drop k l) (drop k r)) s))
    as He by (specialize (He 0%nat s ltac:(lia)); by rewrite Nat.sub_0_r in He).
  clear s. intros k s Hk. remember (length l - k)%nat as n eqn:En. revert k s Hk En.
  induction n as [|n IH]; intros k s Hk En; cbn [seq map try_fold].
  - by rewrite drop_ge by lia.
  - destruct (lookup_lt_is_Some_2 l k ltac:(lia)) as (a & Ha). destruct (lookup_lt_is_Some_2 r k ltac:(lia)) as (b & Hb).
    rewrite (Hf s (N.of_nat k) a b) by (by rewrite Nat2N.id). cbn [rbind]. rewrite IH by lia.
    by rewrite (drop_S _ _ _ Ha), (drop_S _ _ _ Hb).
Qed.

Definition shaped (left right : list (list f32)) (d : N) : Prop :=
  Forall (fun v => len v = d) left /\ Forall (fun v => len v = d) right.
Definition fits (left right : list (list f32)) (d : N) : Prop :=
  Forall (fun v => len v = d) left /\ Forall (fun v => len v = d) right
  /\ (len left * d < 2 ^ 32)%N /\ (len right * d < 2 ^ 32)%N /\ (len left * len right < 2 ^ 32)%N.

Definition params_of (left right : list (list f32)) (d : N) (metric : DenseDistanceMetric) : Params :=
  {| left_count := len left; right_count := len right; kernel_dimensions := d; metric_kind := metric_code metric |}.

Lemma u32_index i w n : (i < n)%N -> (0 < w)%N -> (n * w < 2 ^ 32)%N -> u32_mul i w = (i * w)%N.
Proof. intros Hi Hw Hb. unfold u32_mul. apply N.mod_small. nia. Qed.

(** What one invocation writes. *)
Lemma main_spec left right d metric column row : fits left right d ->
  shader_main (params_of left right d metric) (flatten_embeddings left) (flatten_embeddings right) (column, row)
  = Ok match left !! N.to_nat row, right !! N.to_nat column with
       | Some l, Some r => Some (row * len right + column, kernel_distance metric l r)%N
       | _, _ => None
       end.
Proof.
  intros (Hl & Hr & Hld & Hrd & Hlr). unfold shader_main. cbn [left_count right_count kernel_dimensions metric_kind params_of].
  destruct (N.leb_spec (len left) row) as [E|E]; cbn [orb].
  { rewrite lookup_ge_None_2 by (unfold len in E; lia). done. }
  destruct (N.leb_spec (len right) column) as [E'|E'].
  { rewrite (lookup_ge_None_2 right) by (unfold len in E'; lia). by destruct (left !! _). }
  destruct (lookup_lt_is_Some_2 left (N.to_nat row) ltac:(unfold len in E; lia)) as (l & El).
  destruct (lookup_lt_is_Some_2 right (N.to_nat column) ltac:(unfold len in E'; lia)) as (r & Er).
  rewrite El, Er.
  assert (length l = N.to_nat d) as Hdl by (eapply Forall_lookup_1 in Hl; [|exact El]; unfold len in Hl; cbn in Hl; lia).
  assert (length r = N.to_nat d) as Hdr by (eapply Forall_lookup_1 in Hr; [|exact Er]; unfold len in Hr; cbn in Hr; lia).
  assert (u32_add (u32_mul row (len right)) column = row * len right + column)%N as ->.
  { pose proof (flat_index row (len right) column (len left) E E' Hlr). lia. }
  destruct metric; cbn [metric_code N.eqb kernel_distance]; unfold euclidean_loop, cosine_loop; cbn [kernel_dimensions params_of].
  - rewrite <-Hdl, (loop_rows euclidean_step _ l r); [done|lia|].
    intros s i a b Ha Hb. by rewrite (read_flat left d row i l a), (read_flat right d column i r b).
  - rewrite <-Hdl, (loop_rows cosine_step _ l r); [done|lia|].
    intros [[x y] z] i a b Ha Hb. by rewrite (read_flat left d row i l a), (read_flat right d column i r b).
Qed.

(** Running invocations writes the elements they name, and nothing else. *)
Lemma run_all p l r order : forall out out', try_fold (run_invocation p l r) out order = Ok out' ->
  length out' = length out /\ forall i,
    (exists g j v, g ∈ order /\ shader_main p l r g = Ok (Some (j, v)) /\ N.to_nat j = i /\ out' !! i = Some v)
    \/ ((forall g j v, g ∈ order -> shader_main p l r g = Ok (Some (j, v)) -> N.to_nat j <> i) /\ out' !! i = out !! i).
Proof.
  induction order as [|g order IH]; intros out out'; cbn [try_fold].
  - intros [= <-]. split; [done|]. intros i. right. split; [|done]. intros g j v Hg. by apply elem_of_nil in Hg.
  - intros (out1 & H1 & H2)%rbind_ok. destruct (IH _ _ H2) as [Hlen Hi].
    unfold run_invocation in H1. destruct (shader_main p l r g) as [[[j v]|]| |] eqn:Eg; cbn [rbind] in H1; [| |done..].
    + destruct (out !! N.to_nat j) eqn:Ej; [|done]. cbn in H1. injection H1 as <-.
      rewrite length_insert in Hlen. split; [done|]. intros i.
      destruct (Hi i) as [(g' & j' & v' & Hg & Hm & He & Ho)|[Hn Ho]].
      * left. exists g', j', v'. by split_and!; [right|..].
      * destruct (decide (N.to_nat j = i)) as [<-|Hne].
        -- left. exists g, j, v. split_and!; [by left|done..|]. rewrite Ho. apply list_lookup_insert_eq.
           by eapply lookup_lt_Some.
        -- right. split; [|by rewrite Ho, list_lookup_insert_ne].
           intros g' j' v' [->|Hg]%elem_of_cons Hm; [congruence|by eapply Hn].
    + injection H1 as <-. split; [done|]. intros i. destruct (Hi i) as [(g' & j' & v' & Hg & Hm & He & Ho)|[Hn Ho]].
      * left. exists g', j', v'. by split_and!; [right|..].
      * right. split; [|done]. intros g' j' v' [->|Hg]%elem_of_cons Hm; [congruence|by eapply Hn].
Qed.

Lemma invocations_cover x y column row : (column < 8 * x)%N -> (row < 8 * y)%N -> (column, row) ∈ invocations x y.
Proof.
  intros Hx Hy. unfold invocations. apply list_elem_of_In, in_concat.
  exists (map (fun c => (N.of_nat c, row)) (seq 0 (8 * N.to_nat x))). split.
  - apply in_map_iff. exists (N.to_nat row). rewrite N2Nat.id. split; [done|]. apply in_seq. lia.
  - apply in_map_iff. exists (N.to_nat column). rewrite N2Nat.id. split; [done|]. apply in_seq. lia.
Qed.

Lemma div_ceil_covers n : (n <= 8 * div_ceil_8 n)%N.
Proof. unfold div_ceil_8. pose proof (N.div_mod (n + 7) 8 ltac:(done)). pose proof (N.mod_lt (n + 7) 8 ltac:(done)). lia. Qed.

Lemma distance_rows_lookup {A B C} (d : A -> B -> C) left right i c l r : left !! i = Some l -> right !! c = Some r ->
  distance_rows d left right !! (i * length right + c)%nat = Some (d l r).
Proof.
  intros Hl Hr. unfold distance_rows. rewrite (concat_lookup _ (length right)).
  - rewrite list_lookup_fmap, Hl. cbn. by rewrite list_lookup_fmap, Hr.
  - apply Forall_fmap, Forall_true. intros l'. apply length_map.
  - by eapply lookup_lt_Some.
Qed.

Lemma distance_rows_length {A B C} (d : A -> B -> C) left right :
  length (distance_rows d left right) = (length left * length right)%nat.
Proof.
  unfold distance_rows. rewrite (concat_length _ (length right)), length_map; [done|].
  apply Forall_fmap, Forall_true. intros l'. apply length_map.
Qed.

Lemma distance_rows_app {A B C} (d : A -> B -> C) left left' right :
  distance_rows d (left ++ left') right = distance_rows d left right ++ distance_rows d left' right.
Proof. unfold distance_rows. by rewrite map_app, concat_app. Qed.

(** A run of all invocations, in any order, makes the whole matrix. *)
Lemma any_order_fills left right d metric order out : fits left right d ->
  order ≡ₚ invocations (div_ceil_8 (len right)) (div_ceil_8 (len left)) ->
  try_fold (run_invocation (params_of left right d metric) (flatten_embeddings left) (flatten_embeddings right))
    (replicate (N.to_nat (len left * len right)) 0%N) order = Ok out ->
  out = distance_rows (kernel_distance metric) left right.
Proof.
  intros Hf Hp Hr. destruct (run_all _ _ _ _ _ _ Hr) as [Hlen Hw]. rewrite length_replicate in Hlen.
  assert (length out = length left * length right)%nat as Hlen' by (unfold len in Hlen; lia). clear Hlen.
  apply list_eq. intros i. destruct (decide (i < length out)%nat) as [Hi|Hi].
  2:{ rewrite !lookup_ge_None_2; [done|rewrite distance_rows_length|]; lia. }
  destruct (Hw i) as [(g & j & v & _ & Hm & <- & Ho)|[Hn _]].
  - rewrite Ho. destruct g as [column row]. rewrite main_spec in Hm by done.
    destruct (left !! N.to_nat row) as [l|] eqn:El; [|done]. destruct (right !! N.to_nat column) as [r|] eqn:Er; [|done].
    injection Hm as <- <-. symmetry. replace (N.to_nat (row * len right + column)) with
      (N.to_nat row * length right + N.to_nat column)%nat by (unfold len; lia). by apply distance_rows_lookup.
  - exfalso. assert (0 < length right)%nat as Hpos by (destruct right; cbn in *; lia).
    set (row := (i / length right)%nat). set (column := (i mod length right)%nat).
    assert (i = row * length right + column)%nat as Ei by (pose proof (Nat.div_mod i (length right)); unfold row, column; lia).
    assert (column < length right)%nat as Hc by (by apply Nat.mod_upper_bound; lia).
    assert (row < length left)%nat as Hrow by (apply Nat.Div0.div_lt_upper_bound; lia).
    destruct (lookup_lt_is_Some_2 left row Hrow) as (l & El). destruct (lookup_lt_is_Some_2 right column Hc) as (r & Er).
    apply (Hn (N.of_nat column, N.of_nat row) (N.of_nat row * len right + N.of_nat column)%N (kernel_distance metric l r)).
    + rewrite Hp. apply invocations_cover; (eapply N.lt_le_trans; [|apply div_ceil_covers]; unfold len; lia).
    + rewrite main_spec by done. by rewrite !Nat2N.id, El, Er.
    + unfold len. lia.
Qed.
End kernel.

Section device.
Context `{HF : WgslFloat} `{HW : Wgpu} `{HR : !WgpuRuns}.

(** The limits of the device on a matrix. *)
Definition matrix_limits (rows columns d : N) : Prop :=
  within_limits (rows * d) (columns * d) (rows * columns) (div_ceil_8 columns) (div_ceil_8 rows).

Lemma div_ceil_8_le n m : (n <= m)%N -> (div_ceil_8 n <= div_ceil_8 m)%N.
Proof. intros. unfold div_ceil_8. apply N.Div0.div_le_mono. lia. Qed.

Lemma matrix_limits_le rows rows' columns d : matrix_limits rows columns d -> (rows' <= rows)%N -> matrix_limits rows' columns d.
Proof.
  intros (H1 & H2 & H3 & H4 & H5) Hle. unfold matrix_limits, within_limits. pose proof (div_ceil_8_le _ _ Hle). split_and!; [nia|done|nia|done|lia].
Qed.

Lemma flatten_len l d : Forall (fun v => len v = d) l -> len (flatten_embeddings l) = (len l * d)%N.
Proof.
  induction 1 as [|v l Hv _ IH]; [done|]. unfold flatten_embeddings, len in *. cbn. rewrite length_app. lia.
Qed.

(** Within the limits the 32-bit indices of the kernel address the buffers. *)
Lemma limits_fit left right d : shaped left right d -> matrix_limits (len left) (len right) d -> fits left right d.
Proof.
  intros [Hl Hr] (H1 & H2 & H3 & _). unfold max_storage_buffer_binding_size in *. split_and!; [done|done|lia|lia|lia].
Qed.

Lemma compute_dispatch left right d metric : shaped left right d -> left <> [] ->
  match compute_distance_matrix left right metric with
  | Ok out => matrix_limits (len left) (len right) d /\ fits left right d
      /\ out = distance_rows (kernel_distance metric) left right
  | Err _ => True
  | Panic => ~ matrix_limits (len left) (len right) d
  end.
Proof.
  intros [Hl Hr] Hne. destruct left as [|first rest] eqn:El; [done|]. rewrite <-El in *.
  assert (len first = d) as Hd by (by rewrite El in Hl; apply Forall_cons in Hl as [? _]).
  assert (left !! 0%nat = Some first) as E0 by by rewrite El.
  unfold compute_distance_matrix. rewrite E0. cbn [expect rbind]. rewrite Hd. unfold u32_try_from, checked_mul.
  destruct (len left <? 2 ^ 32)%N; [|done]. destruct (len right <? 2 ^ 32)%N; [|done]. destruct (d <? 2 ^ 32)%N; [|done]. cbn [ok_or rbind].
  destruct (len left * len right <=? USIZE_MAX)%N; [|done]. cbn [ok_or rbind].
  destruct (_ <=? USIZE_MAX)%N; [|done]. cbn [ok_or rbind].
  set (p := {| left_count := _ |}). set (o := dispatch _ _ _ _ _ _).
  assert (o = Panic <-> ~ matrix_limits (len left) (len right) d) as Hp.
  { unfold o, matrix_limits. rewrite dispatch_validated, (flatten_len left d), (flatten_len right d) by done. done. }
  destruct o as [out|e|] eqn:Eo; [|done|by apply Hp].
  assert (matrix_limits (len left) (len right) d) as Hlim.
  { unfold matrix_limits in *. destruct (decide (within_limits (len left * d) (len right * d) (len left * len right)
      (div_ceil_8 (len right)) (div_ceil_8 (len left)))) as [|Hn]; [done|]. apply Hp in Hn. discriminate. }
  pose proof (limits_fit left right d (conj Hl Hr) Hlim) as Hf. split; [exact Hlim|]. split; [exact Hf|].
  apply dispatch_runs in Eo as (order & Hperm & Hrun). eapply any_order_fills; [exact Hf|exact Hperm|exact Hrun].
Qed.

Lemma compute_ok left right d metric out : shaped left right d -> left <> [] -> compute_distance_matrix left right metric = Ok out ->
  fits left right d /\ out = distance_rows (kernel_distance metric) left right.
Proof. intros Hs Hne Hc. pose proof (compute_dispatch left right d metric Hs Hne) as Hd. rewrite Hc in Hd. apply Hd. Qed.

Lemma shaped_part left right d part rest : shaped (left ++ part ++ rest) right d -> shaped part right d.
Proof. intros [Hl Hr]. apply Forall_app in Hl as [_ [Hp _]%Forall_app]. by split. Qed.

(** The chunks of the device, one after the other. *)
Lemma device_parts right d metric parts : Forall (fun part => part <> []) parts -> forall before outs, shaped (before ++ concat parts) right d ->
  Forall2 (fun part out => compute_distance_matrix part right metric = Ok out) parts outs ->
  concat outs = distance_rows (kernel_distance metric) (concat parts) right.
Proof.
  intros Hne before outs Hf H2. revert before Hf. induction H2 as [|part out parts outs Hc _ IH]; intros before Hf; [done|].
  apply Forall_cons in Hne as [Hpart Hne]. cbn [concat] in *. rewrite distance_rows_app. f_equal.
  - eapply compute_ok; [by eapply shaped_part|done|done].
  - apply (IH Hne (before ++ part)). by rewrite <-app_assoc.
Qed.
End device.

(** No chunk is empty, or longer than it should be. *)
Lemma chunks_loop_sizes {A} fuel k (l : list A) : (0 < k)%nat ->
  Forall (fun part => part <> [] /\ length part <= Nat.min k (length l))%nat (chunks_loop fuel k l).
Proof.
  intros Hk. revert l. induction fuel as [|fuel IH]; intros [|x l]; cbn [chunks_loop]; try by constructor.
  constructor.
  - split; [by destruct k; [lia|]|]. by rewrite length_take.
  - eapply Forall_impl; [apply IH|]. cbn beta. intros part [Hne Hl]. split; [done|]. rewrite length_drop in Hl. lia.
Qed.

Section processor.
Context `{HW : Wgpu}.

Lemma collect_map_app {E A B} (f : A -> result E B) l k :
  collect_map f (l ++ k) = let? ys := collect_map f l in let? zs := collect_map f k in Ok (ys ++ zs).
Proof.
  induction l as [|x l IH]; cbn; [by destruct (collect_map f k)|]. destruct (f x); [|done..]. cbn. rewrite IH.
  destruct (collect_map f l); [|done..]. cbn. by destruct (collect_map f k).
Qed.

(** The chunks of the processor, with the errors at the same place. *)
Lemma processor_parts right metric parts : (len (concat parts) * len right <= USIZE_MAX)%N ->
  extend_chunks (fun part => cpu_dense_distance_matrix part right metric) parts
  = cpu_dense_distance_matrix (concat parts) right metric.
Proof.
  intros Hb. set (row := fun source => collect_map (cpu_distance metric source) right).
  assert (forall l, (len l * len right <= USIZE_MAX)%N ->
    cpu_dense_distance_matrix l right metric = let? rows := collect_map row l in Ok (concat rows)) as Hone.
  { intros l Hl. unfold cpu_dense_distance_matrix, checked_mul. by rewrite (proj2 (N.leb_le _ _) Hl). }
  rewrite Hone by done. unfold extend_chunks. induction parts as [|part parts IH]; [done|]. cbn [concat collect_map] in *.
  unfold len in Hb. rewrite length_app in Hb. rewrite Hone by (unfold len; nia). rewrite collect_map_app.
  specialize (IH ltac:(unfold len; nia)).
  destruct (collect_map row part) as [rows| |]; [|done..]. cbn [rbind].
  destruct (collect_map row (concat parts)) as [rows'| |]; cbn [rbind] in IH |- *;
    destruct (collect_map _ parts) as [outs| |]; cbn [rbind] in IH |- *; try done.
  rewrite concat_app. injection IH as <-. done.
Qed.

Lemma validated left right metric : validate_dense_inputs left right metric = Ok tt -> left <> [].
Proof. by destruct left. Qed.
End processor.

(** A matrix of the device is the matrix of the kernel's distances, row by row: the
    invocations, in whatever order they run, fill every element once, with the distance
    of its own two vectors, and read nothing out of bounds. *)
Theorem device_matrix_exact `{HF : WgslFloat} `{HW : Wgpu} `{HR : !WgpuRuns} request left right metric d out :
  shaped left right d -> sel_resolution (resolve_execution_backend_selection request) = WgpuResolution ->
  request <> CpuRequest -> dense_distance_matrix request left right metric = Ok out ->
  out = distance_rows (kernel_distance metric) left right
  /\ (forall global_id, no_panic (shader_main (params_of left right d metric) (flatten_embeddings left)
        (flatten_embeddings right) global_id)).
Proof.
  intros Hs Hres Hreq Hd. unfold dense_distance_matrix in Hd. inv_ok. rewrite Hres in Hd.
  assert (device_distance_matrix left right metric = Ok out) as He by (by destruct request).
  unfold device_distance_matrix in He. destruct wgpu_accel; [|done]. inv_ok.
  destruct (compute_ok left right d metric out Hs) as [Hf Hout]; [|done|].
  { match goal with H : validate_dense_inputs _ _ _ = Ok ?u |- _ => destruct u; by eapply validated end. }
  split; [exact Hout|]. intros [column row]. rewrite main_spec by done. discriminate.
Qed.

(** Dividing the rows into chunks changes nothing: on the processor the answer is
    the same, errors included, whatever the size of the chunks; on the device two calls
    that succeed give the same matrix. *)
Theorem chunking_is_invisible `{HF : WgslFloat} `{HW : Wgpu} `{HR : !WgpuRuns} request left right metric k d :
  shaped left right d -> (len left * len right <= USIZE_MAX)%N ->
  let one := dense_distance_matrix request left right metric in
  let many := chunked_dense_distance_matrix request left right metric k in
  (sel_resolution (resolve_execution_backend_selection request) <> WgpuResolution -> many = one)
  /\ (forall a b, one = Ok a -> many = Ok b -> a = b).
Proof.
  intros Hf Hb one many.
  set (parts := chunks (N.to_nat (N.max k 1)) left).
  assert (concat parts = left) as Hparts by (apply chunks_concat; lia).
  pose proof (processor_parts right metric parts) as Hcpu. rewrite Hparts in Hcpu. specialize (Hcpu Hb).
  unfold one, many, dense_distance_matrix, chunked_dense_distance_matrix, checked_mul.
  rewrite (proj2 (N.leb_le _ _) Hb). cbn [ok_or rbind]. fold parts. rewrite Hcpu.
  destruct (validate_dense_inputs left right metric) as [[]| |] eqn:Hval; cbn [rbind]; [|done..].
  assert (Forall (fun part => part <> []) parts) as Hpne.
  { eapply Forall_impl; [apply chunks_loop_sizes; lia|]. by intros part [? _]. }
  assert (forall a b, device_distance_matrix left right metric = Ok a -> device_chunks parts right metric = Ok b -> a = b) as Hdev.
  { intros a b Ha Hc. unfold device_distance_matrix, device_chunks, extend_chunks in *. destruct wgpu_accel; [|done].
    inv_ok. subst b. match goal with H : collect_map _ _ = Ok _ |- _ => apply collect_map_ok in H as Hok' end. rewrite <-Hparts in Hf.
    rewrite (device_parts right d metric parts Hpne [] _ Hf Hok'), Hparts. rewrite Hparts in Hf.
    eapply compute_ok; [exact Hf|by eapply validated|done]. }
  destruct (sel_resolution _) eqn:E; destruct request; (split; [done|]); try (intros a b -> [= <-]; done); try exact Hdev.
Qed.
