(* ===== verification/SphericalKmeans.v ===== *)
(** * Spherical k-means

    crates/lexongraph-spherical-kmeans/src/lib.rs: passes over the data, each of which
    iterates assignment, repair of empty clusters and recomputation of the centroids in
    the space of unit vectors. Vectors are lists of [f32]; indices of points and
    clusters are [nat]. The request for a backend is that of the process, read here as
    one value [request] for a whole call. *)
From S2P Require Import Prelude Ordering Hash Ieee Clustering LinearAlgebra.
From Stdlib Require Import Floats.SpecFloat.

Notation Vectors := (list (list f32)) (only parsing).

Definition DISTANCE_EPSILON : f32 := 897988541.
Definition F32_EPSILON : f32 := 872415232.
Definition f32_infinity : f32 := inf_bits binary32.
Definition f32_neg_infinity : f32 := fneg binary32 f32_infinity.
Definition ACCELERATED_ASSIGNMENT_MIN_OPERATIONS : N := 1000000.
Definition ACCELERATED_ASSIGNMENT_TARGET_DISTANCES_PER_CHUNK : N := 1048576.

Inductive SphericalInitializationPolicy := SeededDeterministicFarthestPoint.
Record SphericalKmeansParams := {
  initialization_policy : SphericalInitializationPolicy; max_iteration_count : N; convergence_tolerance : f32
}.
Record FitResult := { fit_centroids : Vectors; fit_objective : f64 }.
Record PassFingerprint := { observed : N; pass_digest : BlockHash }.

Definition PassFingerprint_eqb (a b : PassFingerprint) : bool :=
  (observed a =? observed b)%N && bool_decide (as_bytes (pass_digest a) = as_bytes (pass_digest b)).

Definition malformed_input (message : string) : StreamingClusteringError := MalformedInput message.
Definition unsatisfiable_constraint (message : string) : StreamingClusteringError := UnsatisfiableConstraint message.

(** [f32::partial_cmp] with [unwrap_or(Equal)] *)
Definition partial_cmp_or_equal (a b : f32) : comparison :=
  default Eq (SFcompare (decode binary32 a) (decode binary32 b)).

(** ** Configuration *)
Definition validate_params (params : SphericalKmeansParams) : outcome unit :=
  guard? negb (max_iteration_count params =? 0)%N else
    InvalidConfiguration "max_iteration_count must be positive" in
  guard? f32_is_finite (convergence_tolerance params) && negb (fltb binary32 (convergence_tolerance params) 0) else
    InvalidConfiguration "convergence_tolerance must be finite and non-negative" in
  Ok tt.

Definition reject_balance_constraints (config : StreamingClusteringConfig) : outcome unit :=
  match balance_constraints config with
  | None => Ok tt
  | Some constraints =>
      guard? negb (bool_decide (is_Some (min_cluster_occupancy constraints))
                   || bool_decide (is_Some (max_cluster_occupancy constraints))
                   || bool_decide (is_Some (max_cluster_size_ratio constraints))
                   || bool_decide (is_Some (soft_balance_penalty constraints))) else
        InvalidConfiguration "balance constraints are not supported by the spherical k-means realization" in
      Ok tt
  end.

(** ** Unit vectors *)
Definition squared_norm (embedding : list f32) : f32 := sum_f32 (map (fun value => fmul binary32 value value) embedding).

Definition has_norm (embedding : list f32) : bool :=
  let squared_norm := squared_norm embedding in
  negb (negb (f32_is_finite squared_norm) || fleb binary32 squared_norm 0).

Definition normalize_embedding (embedding : list f32) : outcome (list f32) :=
  guard? has_norm embedding else malformed_input "embeddings must have a non-zero Euclidean norm" in
  let norm := fsqrt binary32 (squared_norm embedding) in
  Ok (map (fun value => fdiv binary32 value norm) embedding).

Definition ensure_non_zero_norm (embedding : list f32) : outcome unit :=
  guard? has_norm embedding else malformed_input "embeddings must have a non-zero Euclidean norm" in
  Ok tt.

Definition normalize_one (dimensions : N) (embedding : list f32) : outcome (list f32) :=
  let? _ := validate_embedding embedding dimensions in
  let? _ := ensure_non_zero_norm embedding in
  normalize_embedding embedding.
Definition normalize_pass (embeddings : Vectors) (dimensions : N) : outcome Vectors :=
  collect_map (normalize_one dimensions) embeddings.

Definition cosine_distance_normalized (left right : list f32) : outcome f32 :=
  guard? (len left =? len right)%N else malformed_input "cosine distance requires equal embedding dimensionality" in
  let similarity := sum_f64 (zip_with (fun l r => fmul binary64 (f64_of_f32 l) (f64_of_f32 r)) left right) in
  Ok (f32_of_f64 (fmax binary64 (fsub binary64 f64_one similarity) 0)).

(** ** The best cluster *)

(** The best distance, its cluster, and whether the previous cluster is among the best. *)
Notation Best := (f32 * option nat * bool)%type (only parsing).
Definition no_best : Best := (f32_infinity, None, false).

(** The body of the loop. *)
Definition consider (previous_assignment : option nat) (best : Best) (cluster_index : nat) (candidate : f32) : Best :=
  let '(best_distance, best_cluster_id, previous_assignment_is_best) := best in
  if fltb binary32 (fadd binary32 candidate DISTANCE_EPSILON) best_distance then
    (candidate, Some cluster_index, bool_decide (previous_assignment = Some cluster_index))
  else if fleb binary32 (fabs binary32 (fsub binary32 candidate best_distance)) DISTANCE_EPSILON then
    (best_distance, Some (match best_cluster_id with Some current => Nat.min current cluster_index | None => cluster_index end),
     previous_assignment_is_best || bool_decide (previous_assignment = Some cluster_index))
  else best.

(** What is answered after the loop. *)
Definition chosen (previous_assignment : option nat) (best : Best) : outcome nat :=
  let '(_, best_cluster_id, previous_assignment_is_best) := best in
  match previous_assignment_is_best, previous_assignment with
  | true, Some previous_assignment => Ok previous_assignment
  | _, _ => ok_or best_cluster_id (unsatisfiable_constraint "spherical k-means requires at least one centroid")
  end.

Definition best_cluster (normalized_embedding : list f32) (normalized_centroids : Vectors)
  (previous_assignment : option nat) : outcome nat :=
  let? best := try_fold (fun best '(cluster_index, centroid) =>
    let? candidate := cosine_distance_normalized normalized_embedding centroid in
    Ok (consider previous_assignment best cluster_index candidate)) no_best (imap pair normalized_centroids) in
  chosen previous_assignment best.

Definition best_cluster_from_distances (distances : list f32) (previous_assignment : option nat) : outcome nat :=
  chosen previous_assignment (fold_left (fun best '(cluster_index, candidate) =>
    consider previous_assignment best cluster_index candidate) (imap pair distances) no_best).

(** [previous_assignments.and_then(|values| values.get(i).copied())] *)
Definition previous_of (previous_assignments : option (list nat)) (i : nat) : option nat :=
  previous_assignments ≫= fun values => values !! i.

Definition assign_points_cpu (normalized_embeddings normalized_centroids : Vectors)
  (previous_assignments : option (list nat)) : outcome (list nat) :=
  collect_map (fun '(point_index, embedding) =>
    best_cluster embedding normalized_centroids (previous_of previous_assignments point_index))
    (imap pair normalized_embeddings).

(** [clamp(1, observed_count.max(1))] *)
Definition assignment_chunk_row_count (observed_count cluster_count : N) : N :=
  let cluster_count := N.max cluster_count 1 in
  let rows := (ACCELERATED_ASSIGNMENT_TARGET_DISTANCES_PER_CHUNK / cluster_count)%N in
  N.min (N.max rows 1) (N.max observed_count 1).

Definition map_accelerated_assignment_error (error : string) : StreamingClusteringError :=
  match classify_dense_distance_error error with
  | InvalidInput => malformed_input
      ("accelerated spherical k-means assignment received invalid inputs: " +:+ error)%stdpp
  | BackendFailureKind => unsatisfiable_constraint
      ("accelerated spherical k-means assignment failed: " +:+ error)%stdpp
  end.

(** [&distances[offset..offset + count]] *)
Definition slice_of (distances : list f32) (offset count : nat) : outcome (list f32) :=
  if (offset + count <=? length distances)%nat then Ok (take count (drop offset distances)) else Panic.

Section assignment.
Context `{Wgpu} (request : ExecutionBackendRequest).

(** The rows of one chunk. *)
Definition assign_chunk (normalized_centroids : Vectors) (previous_assignments : option (list nat))
  (rows_per_chunk chunk_index : nat) (embedding_chunk : Vectors) : outcome (list nat) :=
  let? distances := map_err map_accelerated_assignment_error
    (dense_distance_matrix request embedding_chunk normalized_centroids Cosine) in
  collect_map (fun row_index =>
    let global_row_index := (chunk_index * rows_per_chunk + row_index)%nat in
    let? row := slice_of distances (row_index * length normalized_centroids) (length normalized_centroids) in
    best_cluster_from_distances row (previous_of previous_assignments global_row_index))
    (seq 0 (length embedding_chunk)).

Definition assign_points_accelerated (normalized_embeddings normalized_centroids : Vectors)
  (previous_assignments : option (list nat)) : outcome (list nat) :=
  let rows_per_chunk := N.to_nat (assignment_chunk_row_count (len normalized_embeddings) (len normalized_centroids)) in
  let? assignments := collect_map (fun '(chunk_index, embedding_chunk) =>
    assign_chunk normalized_centroids previous_assignments rows_per_chunk chunk_index embedding_chunk)
    (imap pair (chunks rows_per_chunk normalized_embeddings)) in
  Ok (concat assignments).

Definition should_use_accelerated_assignments (normalized_embeddings normalized_centroids : Vectors) : bool :=
  match normalized_embeddings, normalized_centroids with
  | first :: _, _ :: _ =>
      let on_wgpu := bool_decide (sel_resolution (resolve_execution_backend_selection request) = WgpuResolution) in
      match request with
      | CpuRequest => false
      | WgpuRequest => on_wgpu
      | AutoRequest =>
          let operation_count := saturating_mul USIZE_MAX
            (saturating_mul USIZE_MAX (len normalized_embeddings) (len normalized_centroids)) (len first) in
          (ACCELERATED_ASSIGNMENT_MIN_OPERATIONS <=? operation_count)%N && on_wgpu
      end
  | _, _ => false
  end.

Definition assign_points (normalized_embeddings normalized_centroids : Vectors)
  (previous_assignments : option (list nat)) : outcome (list nat) :=
  if should_use_accelerated_assignments normalized_embeddings normalized_centroids
  then assign_points_accelerated normalized_embeddings normalized_centroids previous_assignments
  else assign_points_cpu normalized_embeddings normalized_centroids previous_assignments.
End assignment.

(** ** Repair of empty clusters *)

(** [counts[cluster_index] += 1], for each point *)
Definition count_one (counts : list N) (cluster_index : nat) : outcome (list N) :=
  let? count := expect (counts !! cluster_index) in
  Ok (<[cluster_index := (count + 1)%N]> counts).
Definition cluster_counts (cluster_count : nat) (assignments : list nat) : outcome (list N) :=
  try_fold count_one (replicate cluster_count 0%N) assignments.

(** The largest cluster with a point to spare, the lowest of those as large. *)
Definition donor_order (left right : nat * N) : comparison :=
  then_with (N.compare left.2 right.2) (Nat.compare right.1 left.1).
Definition donor_cluster (counts : list N) : option nat :=
  fst <$> max_by donor_order (filter (fun '(_, count) => 1 < count)%N (imap pair counts)).

(** [unwrap_or(f32::NEG_INFINITY)] *)
Definition distance_or (x : f32) (left right : list f32) : f32 :=
  match cosine_distance_normalized left right with Ok d => d | _ => x end.

(** The point of the donor that is farthest from its centroid. The comparison reads the
    points [left.0] and [right.0], which exist: there is an assignment for each point. *)
Definition farthest_order (normalized_embeddings : Vectors) (centroid : list f32) (left right : nat * nat) : comparison :=
  then_with (partial_cmp_or_equal
      (distance_or f32_neg_infinity (default [] (normalized_embeddings !! left.1)) centroid)
      (distance_or f32_neg_infinity (default [] (normalized_embeddings !! right.1)) centroid))
    (Nat.compare right.1 left.1).
Definition donor_point (normalized_embeddings : Vectors) (centroid : list f32) (donor : nat) (assignments : list nat)
  : option nat :=
  fst <$> max_by (farthest_order normalized_embeddings centroid)
    (filter (fun '(_, cluster_index) => cluster_index = donor) (imap pair assignments)).

(** [counts.iter().position(|count| *count == 0)] *)
Definition first_empty (counts : list N) : option nat := fst <$> list_find (fun count => count = 0%N) counts.

(** One round of the loop: the assignments and the counts after it. *)
Definition repair_one (normalized_embeddings normalized_centroids : Vectors) (empty_cluster : nat)
  (assignments : list nat) (counts : list N) : outcome (list nat * list N) :=
  let? donor := ok_or (donor_cluster counts) (unsatisfiable_constraint
    "spherical k-means could not repair an empty cluster without violating exact K") in
  let? centroid := expect (normalized_centroids !! donor) in
  let? point := ok_or (donor_point normalized_embeddings centroid donor assignments)
    (unsatisfiable_constraint "spherical k-means could not choose a donor point") in
  let assignments := <[point := empty_cluster]> assignments in
  let? donor_count := expect (counts !! donor ≫= fun count => checked_sub count 1) in
  let counts := <[donor := donor_count]> counts in
  let? empty_count := expect (counts !! empty_cluster) in
  Ok (assignments, <[empty_cluster := (empty_count + 1)%N]> counts).

(** The loop, by the number of clusters: every round fills one. *)
Fixpoint repair_loop (rounds : nat) (normalized_embeddings normalized_centroids : Vectors) (assignments : list nat)
  (counts : list N) : outcome (list nat) :=
  match first_empty counts with
  | None => Ok assignments
  | Some empty_cluster =>
      match rounds with
      | O => Panic
      | S rounds =>
          let? '(assignments, counts) :=
            repair_one normalized_embeddings normalized_centroids empty_cluster assignments counts in
          repair_loop rounds normalized_embeddings normalized_centroids assignments counts
      end
  end.

Definition repair_empty_clusters (normalized_embeddings normalized_centroids : Vectors) (assignments : list nat)
  : outcome (list nat) :=
  let? counts := cluster_counts (length normalized_centroids) assignments in
  repair_loop (length normalized_centroids) normalized_embeddings normalized_centroids assignments counts.

(** ** Centroids *)

(** [sums[cluster_index][dimension] += *value], for each value *)
Fixpoint add_values (sum values : list f32) : outcome (list f32) :=
  match values, sum with
  | [], _ => Ok sum
  | value :: values, slot :: sum =>
      let? rest := add_values sum values in Ok (fadd binary32 slot value :: rest)
  | _ :: _, [] => Panic
  end.

Definition add_point (state : Vectors * list N) (point : list f32 * nat) : outcome (Vectors * list N) :=
  let '(sums, counts) := state in
  let '(embedding, cluster_index) := point in
  let? counts := count_one counts cluster_index in
  let? sum := expect (sums !! cluster_index) in
  let? sum := add_values sum embedding in
  Ok (<[cluster_index := sum]> sums, counts).

Definition unit_centroid (cluster_index : nat) (centroid : list f32) : outcome (list f32) :=
  let squared_norm := squared_norm centroid in
  guard? negb (negb (f32_is_finite squared_norm) || fleb binary32 squared_norm F32_EPSILON) else
    unsatisfiable_constraint ("spherical k-means produced a zero-norm centroid for cluster "
      +:+ pretty (N.of_nat cluster_index))%stdpp in
  normalize_embedding centroid.

Definition recompute_centroids (normalized_embeddings : Vectors) (assignments : list nat) (cluster_count : nat)
  : outcome Vectors :=
  let? first := expect (normalized_embeddings !! 0%nat) in
  let? '(sums, _) := try_fold add_point
    (replicate cluster_count (replicate (length first) 0%N), replicate cluster_count 0%N)
    (zip normalized_embeddings assignments) in
  collect_map (fun '(cluster_index, centroid) => unit_centroid cluster_index centroid) (imap pair sums).

Definition average_objective (normalized_embeddings : Vectors) (assignments : list nat) (normalized_centroids : Vectors)
  : outcome f64 :=
  let? total := try_fold (fun total '(embedding, cluster_index) =>
    let? centroid := expect (normalized_centroids !! cluster_index) in
    let? distance := cosine_distance_normalized embedding centroid in
    Ok (fadd binary64 total (f64_of_f32 distance))) 0%N (zip normalized_embeddings assignments) in
  Ok (fdiv binary64 total (f_of_Z binary64 (Z.of_nat (length normalized_embeddings)))).

Definition maximum_centroid_shift (previous updated : Vectors) : outcome f32 :=
  try_fold (fun current_max '(l, r) =>
    let? v := cosine_distance_normalized l r in Ok (fmax binary32 current_max v)) 0%N (zip previous updated).

(** ** Initial centroids *)
Definition rotate_left_17 (n : N) : N := (N.lor (N.shiftl n 17 mod 2 ^ 64) (N.shiftr n 47))%N.
Definition deterministic_embedding_hash (embedding : list f32) (seed : N) : N :=
  fold_left (fun hash value => (rotate_left_17 (N.lxor hash value) * 11400714819323198485) mod 2 ^ 64)%N embedding
    (N.lxor 5871781006564002453 seed).

Definition nearest_centroid_distance (embedding : list f32) (normalized_embeddings : Vectors) (selected : list nat) : f32 :=
  fold_left (fmin binary32)
    (map (fun index => distance_or f32_infinity embedding (default [] (normalized_embeddings !! index))) selected)
    f32_infinity.

(** The comparison of two candidates. *)
Definition farthest_from_selected (normalized_embeddings : Vectors) (selected : list nat) (left right : nat) : comparison :=
  then_with (partial_cmp_or_equal
      (nearest_centroid_distance (default [] (normalized_embeddings !! left)) normalized_embeddings selected)
      (nearest_centroid_distance (default [] (normalized_embeddings !! right)) normalized_embeddings selected))
    (Nat.compare right left).

(** The loop that selects until there are enough: each round selects one. *)
Fixpoint select_loop (rounds : nat) (normalized_embeddings : Vectors) (cluster_count : nat) (selected : list nat)
  : outcome (list nat) :=
  if (length selected <? cluster_count)%nat then
    match rounds with
    | O => Panic
    | S rounds =>
        let? next_index := ok_or
          (max_by (farthest_from_selected normalized_embeddings selected)
            (filter (fun index => index ∉ selected) (seq 0 (length normalized_embeddings))))
          (unsatisfiable_constraint "failed to choose enough deterministic initial centroids") in
        select_loop rounds normalized_embeddings cluster_count (selected ++ [next_index])
    end
  else Ok selected.

Definition seeded_deterministic_farthest_point (normalized_embeddings : Vectors) (cluster_count : nat) (random_seed : N)
  : outcome Vectors :=
  guard? negb (length normalized_embeddings <? cluster_count)%nat else
    unsatisfiable_constraint ("cluster_count " +:+ pretty (N.of_nat cluster_count) +:+ " exceeds observed_count "
      +:+ pretty (len normalized_embeddings))%stdpp in
  let? first_index := ok_or
    (min_by (fun index => deterministic_embedding_hash (default [] (normalized_embeddings !! index)) random_seed)
      (seq 0 (length normalized_embeddings)))
    (unsatisfiable_constraint "spherical k-means requires at least one embedding") in
  let? selected := select_loop cluster_count normalized_embeddings cluster_count [first_index] in
  collect_map (fun index => expect (normalized_embeddings !! index)) selected.

Definition initialize_centroids (normalized_embeddings : Vectors) (cluster_count : nat) (random_seed : N)
  (initialization_policy : SphericalInitializationPolicy) : outcome Vectors :=
  match initialization_policy with
  | SeededDeterministicFarthestPoint =>
      seeded_deterministic_farthest_point normalized_embeddings cluster_count random_seed
  end.

(** ** Fitting *)
Section fitting.
Context `{Wgpu} (request : ExecutionBackendRequest).

(** One iteration: the assignments and the centroids recomputed from them. *)
Definition lloyd_step (normalized_embeddings normalized_centroids : Vectors) (previous_assignments : option (list nat))
  : outcome (list nat * Vectors) :=
  let? assignments := assign_points request normalized_embeddings normalized_centroids previous_assignments in
  let? assignments := repair_empty_clusters normalized_embeddings normalized_centroids assignments in
  let? updated := recompute_centroids normalized_embeddings assignments (length normalized_centroids) in
  Ok (assignments, updated).

(** The loop: it stops early when no centroid has moved by more than the tolerance. *)
Fixpoint refine (rounds : nat) (tolerance : f32) (normalized_embeddings normalized_centroids : Vectors)
  (previous_assignments : option (list nat)) : outcome (Vectors * option (list nat)) :=
  match rounds with
  | O => Ok (normalized_centroids, previous_assignments)
  | S rounds =>
      let? '(assignments, updated) := lloyd_step normalized_embeddings normalized_centroids previous_assignments in
      let? max_shift := maximum_centroid_shift normalized_centroids updated in
      if fleb binary32 max_shift tolerance then Ok (updated, Some assignments)
      else refine rounds tolerance normalized_embeddings updated (Some assignments)
  end.

Definition run_spherical_kmeans (normalized_embeddings normalized_centroids : Vectors) (params : SphericalKmeansParams)
  : outcome FitResult :=
  let? '(normalized_centroids, previous_assignments) :=
    refine (N.to_nat (max_iteration_count params)) (convergence_tolerance params) normalized_embeddings
      normalized_centroids None in
  let? '(assignments, normalized_centroids) :=
    lloyd_step normalized_embeddings normalized_centroids previous_assignments in
  let? objective_value := average_objective normalized_embeddings assignments normalized_centroids in
  Ok {| fit_centroids := normalized_centroids; fit_objective := objective_value |}.
End fitting.

(** ** The trainer *)
Module Trainer.
Record SphericalKmeansStreamingTrainer := Mk {
  config : StreamingClusteringConfig; params : SphericalKmeansParams; state : TrainerState;
  current_pass : Vectors; baseline_fingerprint : option PassFingerprint; completed_passes : N;
  normalized_centroids : option Vectors
}.
Notation T := SphericalKmeansStreamingTrainer.

Definition set_state (s : TrainerState) (t : T) : T :=
  Mk (config t) (params t) s (current_pass t) (baseline_fingerprint t) (completed_passes t) (normalized_centroids t).
Definition set_pass (p : Vectors) (t : T) : T :=
  Mk (config t) (params t) (state t) p (baseline_fingerprint t) (completed_passes t) (normalized_centroids t).
Definition set_baseline (f : PassFingerprint) (t : T) : T :=
  Mk (config t) (params t) (state t) (current_pass t) (Some f) (completed_passes t) (normalized_centroids t).
Definition record_pass (passes : N) (centroids : Vectors) (t : T) : T :=
  Mk (config t) (params t) PassComplete [] (baseline_fingerprint t) passes (Some centroids).

Definition new (config : StreamingClusteringConfig) (params : SphericalKmeansParams) : outcome T :=
  let? _ := validate_config config in
  let? _ := validate_params params in
  let? _ := reject_balance_constraints config in
  Ok (Mk config params Idle [] None 0 None).

(** The error and the trainer after it. *)
Definition invalid_transition (operation : string) (t : T) : StreamingClusteringError * T :=
  (InvalidTransition (state t) operation, set_state ErrorState t).

(** [fail] keeps the error. *)
Definition fail (t : T) : T := set_pass [] (set_state ErrorState t).

Section passes.
Context `{Sha256} `{Wgpu} (request : ExecutionBackendRequest).

Definition fingerprint_pass (embeddings : Vectors) : PassFingerprint :=
  {| observed := len embeddings;
     pass_digest := sha256 (concat (map (fun embedding =>
       le_split 8 (len embedding) ++ concat (map f32_to_le_bytes embedding)) embeddings)) |}.

Definition pass_report (config : StreamingClusteringConfig) (observed_count : N) (objective : f64) : PassReport :=
  {| observed_count := observed_count; requested_cluster_count := cluster_count config;
     readiness := PartitionReady; realized_cluster_count := Some (cluster_count config);
     quality_metric := objective; balance_metric := 0;
     quality_direction := SmallerIsBetter; balance_direction := SmallerIsBetter;
     cluster_ids := Some (map N.of_nat (seq 0 (N.to_nat (cluster_count config)))) |}.

(** The pass of a trainer whose fingerprint is accepted. *)
Definition fit_pass (t : T) : outcome FitResult :=
  let? normalized_embeddings := normalize_pass (current_pass t) (dimensions (config t)) in
  let? initial_centroids :=
    match normalized_centroids t with
    | Some existing => Ok existing
    | None => initialize_centroids normalized_embeddings (N.to_nat (cluster_count (config t)))
        (default 0%N (random_seed (config t))) (initialization_policy (params t))
    end in
  run_spherical_kmeans request normalized_embeddings initial_centroids (params t).

Definition finish_pass_impl (t : T) : outcome PassReport * T :=
  if negb (bool_decide (state t = Ingesting)) then
    let '(e, t) := invalid_transition "finish_pass" t in (Err e, t)
  else if (len (current_pass t) =? 0)%N then
    (Err (malformed_input "completed pass must contain at least one embedding"), t)
  else
    let observed_count := len (current_pass t) in
    let cluster_count := cluster_count (config t) in
    if (observed_count <? cluster_count)%N then
      (Err (unsatisfiable_constraint ("observed_count " +:+ pretty observed_count
        +:+ " is smaller than cluster_count " +:+ pretty cluster_count)%stdpp), t)
    else
      let current_fingerprint := fingerprint_pass (current_pass t) in
      let '(accepted, t) :=
        if (completed_passes t =? 0)%N then (true, set_baseline current_fingerprint t)
        else (match baseline_fingerprint t with
              | Some baseline => PassFingerprint_eqb baseline current_fingerprint
              | None => false
              end, t) in
      if negb accepted then
        (Err (malformed_input "later passes must replay the same logical dataset in the same order"), t)
      else
        match (let? fit := fit_pass t in
               let? passes := expect (checked_add USIZE_MAX (completed_passes t) 1) in
               Ok (fit, passes)) with
        | Ok (fit, passes) =>
            (Ok (pass_report (config t) observed_count (fit_objective fit)), record_pass passes (fit_centroids fit) t)
        | Err e => (Err e, t)
        | Panic => (Panic, t)
        end.

Definition finish_pass (t : T) : outcome PassReport * T :=
  match finish_pass_impl t with
  | (Err e, t) => (Err e, fail t)
  | r => r
  end.
End passes.

(** The loop over the batch: what came before an embedding that is refused stays. *)
Fixpoint ingest_loop (embeddings : Vectors) (t : T) : outcome unit * T :=
  match embeddings with
  | [] => (Ok tt, t)
  | embedding :: rest =>
      match (let? _ := validate_embedding embedding (dimensions (config t)) in ensure_non_zero_norm embedding) with
      | Ok _ => ingest_loop rest (set_pass (current_pass t ++ [embedding]) t)
      | Err e => (Err e, t)
      | Panic => (Panic, t)
      end
  end.

Definition ingest_batch (embeddings : Vectors) (t : T) : outcome unit * T :=
  match state t with
  | Idle | PassComplete => ingest_loop embeddings (set_state Ingesting t)
  | Ingesting => ingest_loop embeddings t
  | TrainingComplete | ErrorState => let '(e, t) := invalid_transition "ingest_batch" t in (Err e, t)
  end.

Definition complete_training (t : T) : outcome unit * T :=
  if negb (bool_decide (state t = PassComplete)) then
    let '(e, t) := invalid_transition "complete_training" t in (Err e, t)
  else (Ok tt, set_state TrainingComplete t).
End Trainer.
Notation SphericalKmeansStreamingTrainer := Trainer.SphericalKmeansStreamingTrainer.

(** ** The classifier *)
Module Classifier.
Record SphericalKmeansStreamingClassifier := Mk { config : StreamingClusteringConfig; centroids : Vectors }.

Definition assign (c : SphericalKmeansStreamingClassifier) (embedding : list f32) : outcome N :=
  let? _ := validate_embedding embedding (dimensions (config c)) in
  let? _ := ensure_non_zero_norm embedding in
  let? normalized_embedding := normalize_embedding embedding in
  let? cluster_id := best_cluster normalized_embedding (centroids c) None in
  Ok (N.of_nat cluster_id mod 2 ^ 32)%N.

(** The parallel map collects in order. *)
Definition assign_batch (c : SphericalKmeansStreamingClassifier) (embeddings : Vectors) : outcome (list N) :=
  collect_map (assign c) embeddings.

Definition into_classifier (t : SphericalKmeansStreamingTrainer) : outcome SphericalKmeansStreamingClassifier :=
  guard? bool_decide (Trainer.state t = TrainingComplete) else
    InvalidTransition (Trainer.state t) "into_classifier" in
  let? centroids := ok_or (Trainer.normalized_centroids t) (InvalidTransition (Trainer.state t) "into_classifier") in
  Ok (Mk (Trainer.config t) centroids).
End Classifier.
Notation SphericalKmeansStreamingClassifier := Classifier.SphericalKmeansStreamingClassifier.

#[export] Instance spherical_classifier : StreamingClusterClassifier SphericalKmeansStreamingClassifier :=
  {| classifier_config := Classifier.config; assign := Classifier.assign |}.
Definition spherical_trainer `{Sha256} `{Wgpu} (request : ExecutionBackendRequest)
  : StreamingClusterTrainer SphericalKmeansStreamingTrainer SphericalKmeansStreamingClassifier :=
  {| trainer_config := Trainer.config; trainer_state := Trainer.state; ingest_batch := Trainer.ingest_batch;
     finish_pass := Trainer.finish_pass request; complete_training := Trainer.complete_training;
     into_classifier := Classifier.into_classifier |}.
