(* ===== verification/KmeansCorrect.v ===== *)
(** * Spherical k-means: the properties of a pass

    Assignment is pointwise in the distances, on the processor and on the device;
    repair always succeeds and leaves no cluster empty; initial centroids are distinct
    points; a pass that succeeds has as many unit centroids as were asked for. *)
From S2P Require Import Prelude Ordering Hash Ieee Clustering LinearAlgebra LinearAlgebraCorrect SphericalKmeans.
From Stdlib Require Import Floats.SpecFloat.

(** ** Distances *)

(** The distance of two vectors of one dimension. *)
Definition unit_distance (left right : list f32) : f32 :=
  f32_of_f64 (fmax binary64 (fsub binary64 f64_one
    (sum_f64 (zip_with (fun l r => fmul binary64 (f64_of_f32 l) (f64_of_f32 r)) left right))) 0).

Lemma cosine_same l r : length l = length r -> cosine_distance_normalized l r = Ok (unit_distance l r).
Proof. intros Hl. unfold cosine_distance_normalized, len. by rewrite Hl, N.eqb_refl. Qed.
Lemma cosine_returns l r : returns (fun _ => True) (cosine_distance_normalized l r).
Proof. unfold cosine_distance_normalized. by apply returns_guard. Qed.

Lemma km_ensure_non_zero_norm_ok e : returns (fun _ => True) (ensure_non_zero_norm e).
Proof. unfold ensure_non_zero_norm. by apply returns_guard. Qed.
Lemma km_normalize_embedding_ok e : returns (fun v => length v = length e) (normalize_embedding e).
Proof. unfold normalize_embedding. apply returns_guard. intros _. cbn. apply length_map. Qed.

(** ** The rule of the best cluster

    The leader is the last distance that was below the one before it by more than the
    tolerance; the previous cluster is kept if it is the leader or comes after it, and
    within the tolerance. *)
Definition undercuts (x best : f32) : bool := fltb binary32 (fadd binary32 x DISTANCE_EPSILON) best.
Definition ties (x best : f32) : bool := fleb binary32 (fabs binary32 (fsub binary32 x best)) DISTANCE_EPSILON.
Definition lead (best : option (nat * f32)) (entry : nat * f32) : option (nat * f32) :=
  if undercuts entry.2 (default f32_infinity (snd <$> best)) then Some entry else best.
Definition leader (distances : list f32) : option (nat * f32) := fold_left lead (imap pair distances) None.
Definition best_rule (distances : list f32) (previous : option nat) : outcome nat :=
  match leader distances with
  | None => Err (unsatisfiable_constraint "spherical k-means requires at least one centroid")
  | Some (i, best) =>
      Ok match previous with
         | Some p => if ((i <? p)%nat && match distances !! p with Some x => ties x best | None => false end) then p else i
         | None => i
         end
  end.

Lemma decode_infinity : decode binary32 f32_infinity = S754_infinity false.
Proof. by vm_compute. Qed.

(** Nothing ties with infinity. *)
Lemma no_tie_infinity x : ties x f32_infinity = false.
Proof.
  unfold ties, fsub. rewrite decode_infinity. destruct (decode binary32 x) as [[]|[]| |[] m e]; by vm_compute.
Qed.

(** The state of the loop after the first distances of a row. *)
Definition tracks (previous : option nat) (row : list f32) (n : nat) (best : f32 * option nat * bool) : Prop :=
  match fold_left lead (take n (imap pair row)) None with
  | None => best = no_best
  | Some (i, b) => (i < n)%nat /\ best = (b, Some i, match previous with
      | Some p => (p <? n)%nat && ((i =? p)%nat || (i <? p)%nat && match row !! p with Some x => ties x b | None => false end)
      | None => false end)
  end.

Lemma take_imap_S (row : list f32) n x : row !! n = Some x ->
  take (S n) (imap pair row) = take n (imap pair row) ++ [(n, x)].
Proof. intros Hx. apply take_S_r. rewrite list_lookup_imap, Hx. done. Qed.

Lemma tracks_step previous row n x best : row !! n = Some x -> tracks previous row n best ->
  tracks previous row (S n) (consider previous best n x).
Proof.
  intros Hx Ht. unfold tracks in *. rewrite (take_imap_S row n x Hx), fold_left_app. cbn [fold_left].
  destruct (fold_left lead (take n (imap pair row)) None) as [[i b]|]; unfold lead; cbn [fmap option_fmap option_map snd default id from_option].
  - destruct Ht as [Hi ->]. cbn [consider]. change (fltb _ _ _) with (undercuts x b).
    change (fleb _ _ _) with (ties x b). destruct (undercuts x b); [split; [lia|]|].
    + f_equal. destruct previous as [p|]; [|by rewrite bool_decide_eq_false_2].
      destruct (decide (p = n)) as [->|Hne].
      * rewrite bool_decide_eq_true_2 by done. rewrite (proj2 (Nat.ltb_lt n (S n))), Nat.eqb_refl by lia. done.
      * rewrite bool_decide_eq_false_2 by congruence. rewrite (proj2 (Nat.eqb_neq n p)) by lia. cbn [orb].
        destruct (Nat.ltb_spec p (S n)), (Nat.ltb_spec n p); cbn; try done; lia.
    + destruct (ties x b) eqn:Etie; (split; [lia|]).
      * rewrite Nat.min_l by lia. f_equal.
        destruct previous as [p|]; [|by rewrite bool_decide_eq_false_2]. destruct (decide (p = n)) as [->|Hne].
        -- rewrite bool_decide_eq_true_2, orb_true_r by done. rewrite (proj2 (Nat.ltb_lt n (S n))), Hx, Etie by lia.
           rewrite (proj2 (Nat.ltb_lt i n)) by lia. by rewrite orb_true_r.
        -- rewrite bool_decide_eq_false_2, orb_false_r by congruence.
           destruct (Nat.ltb_spec p n), (Nat.ltb_spec p (S n)); cbn; try done; lia.
      * f_equal. destruct previous as [p|]; [|done]. destruct (decide (p = n)) as [->|Hne].
        -- rewrite Nat.ltb_irrefl, (proj2 (Nat.ltb_lt n (S n))), Hx, Etie by lia.
           rewrite (proj2 (Nat.eqb_neq i n)) by lia. by rewrite andb_false_r.
        -- destruct (Nat.ltb_spec p n), (Nat.ltb_spec p (S n)); cbn; try done; lia.
  - subst best. cbn [consider no_best]. change (fltb _ _ _) with (undercuts x f32_infinity).
    change (fleb _ _ _) with (ties x f32_infinity). rewrite no_tie_infinity.
    destruct (undercuts x f32_infinity); [|done]. split; [lia|]. f_equal.
    destruct previous as [p|]; [|by rewrite bool_decide_eq_false_2]. destruct (decide (p = n)) as [->|Hne].
    + rewrite bool_decide_eq_true_2 by done. rewrite Nat.eqb_refl. by rewrite (proj2 (Nat.ltb_lt n (S n))) by lia.
    + rewrite bool_decide_eq_false_2 by congruence. rewrite (proj2 (Nat.eqb_neq n p)) by lia. cbn [orb].
      destruct (Nat.ltb_spec p (S n)), (Nat.ltb_spec n p); cbn; try done; lia.
Qed.

Lemma tracks_all previous row :
  tracks previous row (length row) (fold_left (fun best '(i, x) => consider previous best i x) (imap pair row) no_best).
Proof.
  enough (forall n, (n <= length row)%nat -> tracks previous row n
    (fold_left (fun best '(i, x) => consider previous best i x) (take n (imap pair row)) no_best)) as He.
  { specialize (He (length row) ltac:(lia)). by rewrite (take_ge (imap pair row)) in He by (by rewrite length_imap). }
  induction n as [|n IH]; intros Hn; [done|]. destruct (lookup_lt_is_Some_2 row n ltac:(lia)) as (x & Hx).
  rewrite (take_imap_S row n x Hx), fold_left_app. cbn [fold_left]. apply tracks_step; [done|]. apply IH. lia.
Qed.

Lemma best_by_rule row previous : best_cluster_from_distances row previous = best_rule row previous.
Proof.
  unfold best_cluster_from_distances, best_rule, leader. pose proof (tracks_all previous row) as Ht. unfold tracks in Ht.
  rewrite take_ge in Ht by (by rewrite length_imap). destruct (fold_left lead _ None) as [[i b]|].
  - destruct Ht as [Hi ->]. cbn [chosen]. destruct previous as [p|]; [|done].
    destruct (Nat.ltb_spec p (length row)) as [Hp|Hp]; cbn [andb].
    + destruct (Nat.eqb_spec i p) as [->|Hne]; cbn [orb]; [by destruct (_ && _)|]. by destruct (_ && _).
    + rewrite (lookup_ge_None_2 row p Hp). by rewrite andb_false_r.
  - rewrite Ht. cbn. by destruct previous.
Qed.

Lemma best_rule_lt row previous r : best_rule row previous = Ok r -> (r < length row)%nat.
Proof.
  rewrite <-best_by_rule. unfold best_cluster_from_distances. pose proof (tracks_all previous row) as Ht. unfold tracks in Ht.
  destruct (fold_left lead _ None) as [[i b]|].
  - destruct Ht as [Hi ->]. cbn [chosen]. destruct previous as [p|]; [|intros [= <-]; done].
    destruct (Nat.ltb_spec p (length row)); cbn [andb]; [destruct (_ || _)|]; intros [= <-]; done.
  - rewrite Ht. cbn. by destruct previous.
Qed.

(** The two loops agree on the distances of a row. *)
Lemma best_cluster_rows d e cs previous : length e = d -> Forall (fun c => length c = d) cs ->
  best_cluster e cs previous = best_rule (map (unit_distance e) cs) previous.
Proof.
  intros He Hc. rewrite <-best_by_rule. unfold best_cluster, best_cluster_from_distances.
  enough (forall i best, try_fold (fun best '(cluster_index, centroid) =>
      let? candidate := cosine_distance_normalized e centroid in Ok (consider previous best cluster_index candidate)) best
        (imap (fun j c => ((i + j)%nat, c)) cs)
    = Ok (fold_left (fun best '(j, x) => consider previous best j x)
        (imap (fun j x => ((i + j)%nat, x)) (map (unit_distance e) cs)) best)) as Hf by (by rewrite (Hf 0%nat)).
  induction Hc as [|c cs Hc _ IH]; intros i best; [done|]. cbn [imap map try_fold fold_left].
  rewrite (cosine_same e c) by congruence. cbn [rbind]. specialize (IH (S i)).
  rewrite (imap_ext (compose (fun j c => ((i + j)%nat, c)) S) (fun j c => ((S i + j)%nat, c))) by (intros; cbn; f_equal; lia).
  rewrite IH. do 2 f_equal. apply imap_ext. intros; cbn; f_equal; lia.
Qed.

(** ** Assignment, point by point *)
Definition pointwise (distance : list f32 -> list f32 -> f32) (es cs : list (list f32)) (previous : option (list nat))
  : outcome (list nat) :=
  collect_map (fun '(i, e) => best_rule (map (distance e) cs) (previous_of previous i)) (imap pair es).

Lemma imap_pair_snd {A} (P : A -> Prop) (l : list A) i x : Forall P l -> (i, x) ∈ imap pair l -> P x /\ l !! i = Some x.
Proof.
  intros Hf (j & Hj)%list_elem_of_lookup. rewrite list_lookup_imap in Hj. destruct (l !! j) as [y|] eqn:E; [|done].
  cbn in Hj. injection Hj as <- <-. split; [by eapply Forall_lookup_1 in E|done].
Qed.

Lemma assign_cpu_pointwise n k d es cs previous : dense n d es -> dense k d cs ->
  assign_points_cpu es cs previous = pointwise unit_distance es cs previous.
Proof.
  intros [_ He] [_ Hc]. apply collect_map_ext. intros [i e] Hi.
  destruct (imap_pair_snd _ _ _ _ He Hi) as [Hd _]. by apply (best_cluster_rows d).
Qed.

Lemma collect_concat {E A B} (g : A -> result E B) ls outs :
  Forall2 (fun l out => collect_map g l = Ok out) ls outs -> collect_map g (concat ls) = Ok (concat outs).
Proof. induction 1 as [|l out ls outs Hl _ IH]; [done|]. cbn [concat]. rewrite collect_map_app, Hl. cbn [rbind]. by rewrite IH. Qed.

(** The chunks with the places of their elements are the list with its places. *)
Lemma chunk_places {A} k (l : list A) fuel : forall off, (0 < k)%nat -> (length l <= fuel)%nat ->
  concat (imap (fun c part => imap (fun r e => ((off + c * k + r)%nat, e)) part) (chunks_loop fuel k l))
  = imap (fun r e => ((off + r)%nat, e)) l.
Proof.
  revert l. induction fuel as [|fuel IH]; intros l off Hk Hl; [by destruct l; cbn in *; [|lia]|].
  destruct l as [|x l']; [done|]. cbn [chunks_loop]. set (l := x :: l') in *. cbn [imap concat].
  assert (length (drop k l) <= fuel)%nat as Hd by (rewrite length_drop; unfold l in *; cbn in *; lia).
  rewrite (imap_ext (compose (fun c part => imap (fun r e => ((off + c * k + r)%nat, e)) part) S)
    (fun c part => imap (fun r e => ((off + k + c * k + r)%nat, e)) part))
    by (intros c part _; apply imap_ext; intros r e _; cbn; f_equal; lia).
  rewrite (IH (drop k l) (off + k)%nat Hk Hd). rewrite <-(take_drop k l) at 3. rewrite imap_app. f_equal.
  - apply imap_ext. intros r e _. f_equal. lia.
  - apply imap_ext. intros r e Hr. apply lookup_lt_Some in Hr. rewrite length_drop in Hr. cbn. f_equal.
    rewrite length_take. lia.
Qed.

(** A value and what holds of it, an error, or a panic only under [Pn]. *)
Definition unless {E A} (Pn : Prop) (P : A -> Prop) (m : result E A) : Prop :=
  match m with Ok a => P a | Err _ => True | Panic => Pn end.

Lemma unless_bind {E A B} Pn P Q (m : result E A) (k : A -> result E B) :
  unless Pn P m -> (forall a, P a -> unless Pn Q (k a)) -> unless Pn Q (rbind m k).
Proof. destruct m; cbn; auto. Qed.

Lemma unless_collect {E A B} Pn (R : A -> B -> Prop) (f : A -> result E B) l :
  (forall x, x ∈ l -> unless Pn (R x) (f x)) -> unless Pn (Forall2 R l) (collect_map f l).
Proof.
  induction l as [|x l IH]; intros Hf; cbn; [constructor|].
  eapply unless_bind; [apply Hf; by left|]. intros y Hy. eapply unless_bind; [apply IH; intros; apply Hf; by right|].
  intros ys Hys. by constructor.
Qed.

Section device.
Context `{HF : WgslFloat} `{HW : Wgpu} `{HR : !WgpuRuns} (request : ExecutionBackendRequest).

Lemma device_selected : sel_resolution (resolve_execution_backend_selection request) = WgpuResolution ->
  wgpu_accel = true /\ request <> CpuRequest.
Proof.
  unfold resolve_execution_backend_selection. destruct wgpu_accel; [|by destruct request].
  destruct wgpu_probe; [|done..]. by destruct request.
Qed.

Lemma dense_device_ok Pn left right metric d : shaped left right d ->
  sel_resolution (resolve_execution_backend_selection request) = WgpuResolution ->
  (~ matrix_limits (len left) (len right) d -> Pn) ->
  unless Pn (fun out => matrix_limits (len left) (len right) d /\ out = distance_rows (kernel_distance metric) left right)
    (dense_distance_matrix request left right metric).
Proof.
  intros Hs Hres Hpn. destruct (device_selected Hres) as [Hacc Hreq]. unfold dense_distance_matrix. rewrite Hres.
  assert (no_panic (validate_dense_inputs left right metric)) as Hnp by (destruct left; unfold validate_dense_inputs; np).
  destruct (validate_dense_inputs left right metric) as [[]|e|] eqn:Hval; cbn [rbind]; [|done|done].
  assert (unless Pn (fun out => matrix_limits (len left) (len right) d /\ out = distance_rows (kernel_distance metric) left right)
    (device_distance_matrix left right metric)) as Hdev.
  { unfold device_distance_matrix. rewrite Hacc. assert (no_panic wgpu_context) as Hctx by (unfold wgpu_context; np).
    destruct wgpu_context as [[]|e|]; cbn [rbind]; [|done|done].
    pose proof (compute_dispatch left right d metric Hs ltac:(by eapply validated)) as Hc.
    destruct (compute_distance_matrix left right metric) as [out|e|]; [|done|by apply Hpn]. by destruct Hc as (Hl & _ & ->). }
  by destruct request.
Qed.

(** A row of the matrix, as a slice. *)
Lemma row_slice (distance : list f32 -> list f32 -> f32) es cs i e : es !! i = Some e ->
  slice_of (distance_rows distance es cs) (i * length cs) (length cs) = Ok (map (distance e) cs).
Proof.
  intros Hi. unfold slice_of. pose proof (lookup_lt_Some _ _ _ Hi). rewrite distance_rows_length.
  rewrite (proj2 (Nat.leb_le _ _)) by nia. f_equal. apply list_eq. intros c.
  destruct (decide (c < length cs)%nat) as [Hc|Hc].
  - destruct (lookup_lt_is_Some_2 cs c Hc) as (x & Hx). rewrite lookup_take_lt, lookup_drop by done.
    rewrite (distance_rows_lookup _ _ _ _ _ _ _ Hi Hx), list_lookup_fmap, Hx. done.
  - rewrite !lookup_ge_None_2; [done|rewrite length_map; lia|rewrite length_take; lia].
Qed.

Lemma assign_chunk_ok Pn cs previous rows c part d : shaped part cs d ->
  sel_resolution (resolve_execution_backend_selection request) = WgpuResolution ->
  (~ matrix_limits (len part) (len cs) d -> Pn) ->
  unless Pn (fun out => matrix_limits (len part) (len cs) d
      /\ collect_map (fun '(i, e) => best_rule (map (kernel_distance Cosine e) cs) (previous_of previous i))
        (imap (fun r e => ((c * rows + r)%nat, e)) part) = Ok out)
    (assign_chunk request cs previous rows c part).
Proof.
  intros Hf Hres Hpn. unfold assign_chunk. pose proof (dense_device_ok Pn part cs Cosine d Hf Hres Hpn) as Hd.
  destruct (dense_distance_matrix request part cs Cosine) as [distances| |]; [|done..]. cbn in Hd. destruct Hd as [Hlim ->].
  cbn [map_err rbind].
  assert (collect_map (fun row_index => let? row := slice_of (distance_rows (kernel_distance Cosine) part cs) (row_index * length cs) (length cs) in
      best_cluster_from_distances row (previous_of previous (c * rows + row_index))) (seq 0 (length part))
    = collect_map (fun '(i, e) => best_rule (map (kernel_distance Cosine e) cs) (previous_of previous i))
      (imap (fun r e => ((c * rows + r)%nat, e)) part)) as ->.
  - enough (forall l k, (forall r e, l !! r = Some e -> part !! (k + r)%nat = Some e) ->
      collect_map (fun row_index => let? row := slice_of (distance_rows (kernel_distance Cosine) part cs) (row_index * length cs) (length cs) in
        best_cluster_from_distances row (previous_of previous (c * rows + row_index))) (seq k (length l))
      = collect_map (fun '(i, e) => best_rule (map (kernel_distance Cosine e) cs) (previous_of previous i))
        (imap (fun r e => ((c * rows + (k + r))%nat, e)) l)) as He by (by apply (He part 0%nat)).
    induction l as [|e l IH]; intros k Hk; [done|]. cbn [length seq imap collect_map]. rewrite Nat.add_0_r.
    rewrite (row_slice _ _ _ k e) by (rewrite <-(Nat.add_0_r k); by apply Hk). cbn [rbind]. rewrite best_by_rule.
    rewrite (IH (S k)) by (intros r e' Hr; rewrite Nat.add_succ_comm; by apply (Hk (S r))).
    rewrite (imap_ext (compose (fun r e => ((c * rows + (k + r))%nat, e)) S) (fun r e => ((c * rows + (S k + r))%nat, e)));
      [done|]. intros r e' _. cbn. f_equal. lia.
  - assert (no_panic (collect_map (fun '(i, e) => best_rule (map (kernel_distance Cosine e) cs) (previous_of previous i))
      (imap (fun r e => ((c * rows + r)%nat, e)) part))) as Hnp by (np; unfold best_rule; np).
    by destruct (collect_map _ _).
Qed.

Lemma shaped_chunks fuel k es cs d : shaped es cs d -> Forall (fun part => shaped part cs d) (chunks_loop fuel k es).
Proof.
  revert es. induction fuel as [|fuel IH]; intros [|e es] Hf; cbn [chunks_loop]; try by constructor.
  constructor.
  - apply (shaped_part [] cs d _ (drop k (e :: es))). cbn [app]. by rewrite take_drop.
  - apply IH. apply (shaped_part (take k (e :: es)) cs d _ []). by rewrite app_nil_r, take_drop.
Qed.

Lemma assign_accelerated_pointwise Pn es cs previous d : shaped es cs d -> es <> [] ->
  sel_resolution (resolve_execution_backend_selection request) = WgpuResolution ->
  let fits := matrix_limits (assignment_chunk_row_count (len es) (len cs)) (len cs) d in
  (~ fits -> Pn) ->
  unless Pn (fun out => fits /\ pointwise (kernel_distance Cosine) es cs previous = Ok out)
    (assign_points_accelerated request es cs previous).
Proof.
  intros Hf Hne Hres fits Hpn. unfold assign_points_accelerated. set (rows := N.to_nat (assignment_chunk_row_count _ _)).
  assert (0 < rows <= length es)%nat as Hrows.
  { unfold rows, assignment_chunk_row_count, len. destruct es; [done|]. cbn [length]. lia. }
  assert (forall part : list (list f32), (length part <= rows)%nat -> fits -> matrix_limits (len part) (len cs) d) as Hle.
  { intros part Hl Hfit. eapply matrix_limits_le; [exact Hfit|].
    replace (assignment_chunk_row_count (len es) (len cs)) with (N.of_nat rows) by (unfold rows; apply N2Nat.id). unfold len. lia. }
  set (g := fun '(i, e) => best_rule (map (kernel_distance Cosine e) cs) (previous_of previous i)).
  apply (unless_bind Pn (Forall2 (fun '(c, part) out => matrix_limits (len part) (len cs) d
    /\ collect_map g (imap (fun r e => ((c * rows + r)%nat, e)) part) = Ok out) (imap pair (chunks rows es)))).
  - apply unless_collect. intros [c part] Hc. pose proof (shaped_chunks (length es) rows es cs d Hf) as Hfs.
    pose proof (chunks_loop_sizes (length es) rows es ltac:(lia)) as Hsz.
    destruct (imap_pair_snd _ _ _ _ Hfs Hc) as [Hp _]. destruct (imap_pair_snd _ _ _ _ Hsz Hc) as [[_ Hl] _].
    apply (assign_chunk_ok Pn cs previous rows c part d Hp Hres). intros Hn. apply Hpn. intros Hfit. apply Hn, Hle; [lia|done].
  - intros outs H2. cbn. split.
    + destruct (chunks rows es) as [|part parts] eqn:Ec; [by unfold chunks in Ec; destruct es|].
      destruct outs as [|out outs]; [by inversion H2|]. cbn [imap] in H2. apply Forall2_cons in H2 as [[Hlim _] _].
      assert (part = take rows es) as -> by (unfold chunks in Ec; destruct es; [done|]; cbn in Ec; congruence).
      unfold fits. replace (assignment_chunk_row_count (len es) (len cs)) with (len (take rows es)); [exact Hlim|].
      unfold len at 1. rewrite length_take_le by lia. unfold rows. apply N2Nat.id.
    + unfold pointwise. fold g. change (imap pair es) with (imap (fun r e => ((0 + r)%nat, e)) es).
      rewrite <-(chunk_places rows es (length es) 0) by (done || lia).
      apply collect_concat. replace (imap _ (chunks_loop (length es) rows es)) with
        ((fun '(c, part) => imap (fun r e => ((c * rows + r)%nat, e)) part) <$> imap pair (chunks rows es))
        by (by rewrite fmap_imap).
      apply Forall2_fmap_l. eapply Forall2_impl; [exact H2|]. by intros [c part] out [_ ?].
Qed.

(** The distance an assignment goes by. *)
Definition distance_of (es cs : list (list f32)) : list f32 -> list f32 -> f32 :=
  if should_use_accelerated_assignments request es cs then kernel_distance Cosine else unit_distance.

(** Whether a number of points is assigned on the device, and whether it holds a chunk. *)
Definition accelerates (n k d : N) : bool :=
  (0 <? n)%N && (0 <? k)%N && bool_decide (sel_resolution (resolve_execution_backend_selection request) = WgpuResolution)
  && match request with
     | CpuRequest => false
     | WgpuRequest => true
     | AutoRequest => (ACCELERATED_ASSIGNMENT_MIN_OPERATIONS <=? saturating_mul USIZE_MAX (saturating_mul USIZE_MAX n k) d)%N
     end.
Definition device_fits (n k d : N) : Prop :=
  accelerates n k d = true -> matrix_limits (assignment_chunk_row_count n k) k d.

Lemma accelerates_le n n' k d : (0 < n)%N -> (n <= n')%N -> accelerates n k d = true -> accelerates n' k d = true.
Proof.
  unfold accelerates. intros Hn Hle [[[H1 H2]%andb_prop H3]%andb_prop H4]%andb_prop. rewrite H2, H3.
  rewrite (proj2 (N.ltb_lt _ _)) by lia. cbn [andb]. destruct request; [|done..].
  apply N.leb_le in H4. apply N.leb_le. etrans; [exact H4|]. unfold saturating_mul.
  by apply N.min_le_compat_l, N.mul_le_mono_r, N.min_le_compat_l, N.mul_le_mono_r.
Qed.

Lemma device_fits_le n n' k d : device_fits n' k d -> (n <= n')%N -> device_fits n k d.
Proof.
  intros Hf Hle Ha. destruct (N.eq_dec n 0) as [->|Hn]; [done|].
  eapply matrix_limits_le; [apply Hf; eapply accelerates_le; [|exact Hle|exact Ha]; lia|].
  unfold assignment_chunk_row_count. lia.
Qed.

Lemma should_accelerate n k d es cs : dense n d es -> dense k d cs ->
  should_use_accelerated_assignments request es cs = accelerates (N.of_nat n) (N.of_nat k) (N.of_nat d).
Proof.
  intros [Hn He] [Hk _]. unfold should_use_accelerated_assignments, accelerates. rewrite <-Hn, <-Hk. unfold len.
  destruct es as [|e es]; [done|]. apply Forall_cons in He as [Hd _]. rewrite Hd. destruct cs as [|c cs]; [by rewrite andb_false_r|].
  rewrite !(proj2 (N.ltb_lt 0 _)) by (cbn [length]; lia). cbn [andb]. destruct request; [|by rewrite andb_false_r|by rewrite andb_true_r].
  apply andb_comm.
Qed.

Lemma dense_shaped n k d es cs : dense n d es -> dense k d cs -> shaped es cs (N.of_nat d).
Proof. intros [_ He] [_ Hc]. split; (eapply Forall_impl; [eassumption|]); cbn; intros v <-; done. Qed.

(** The assignment, unless the device does not hold a chunk. *)
Lemma assign_points_or Pn n k d es cs previous : dense n d es -> dense k d cs ->
  (~ device_fits (N.of_nat n) (N.of_nat k) (N.of_nat d) -> Pn) ->
  unless Pn (fun a => device_fits (N.of_nat n) (N.of_nat k) (N.of_nat d) /\ pointwise (distance_of es cs) es cs previous = Ok a)
    (assign_points request es cs previous).
Proof.
  intros He Hc Hpn. pose proof (should_accelerate n k d es cs He Hc) as Hs. unfold assign_points, distance_of.
  destruct (should_use_accelerated_assignments request es cs) eqn:Ea.
  - pose proof He as [Hn _]. pose proof Hc as [Hk _].
    assert (sel_resolution (resolve_execution_backend_selection request) = WgpuResolution) as Hres.
    { symmetry in Hs. apply andb_prop in Hs as [[_ Hr]%andb_prop _]. by apply bool_decide_eq_true in Hr. }
    pose proof (assign_accelerated_pointwise Pn es cs previous (N.of_nat d) (dense_shaped n k d es cs He Hc)
      ltac:(by intros ->) Hres) as Ha. cbv zeta in Ha. unfold len in Ha. rewrite Hn, Hk in Ha.
    assert (device_fits (N.of_nat n) (N.of_nat k) (N.of_nat d) <->
      matrix_limits (assignment_chunk_row_count (N.of_nat n) (N.of_nat k)) (N.of_nat k) (N.of_nat d)) as Hiff.
    { unfold device_fits. rewrite <-Hs. naive_solver. }
    destruct Hiff as [Hto Hof]. specialize (Ha ltac:(auto)).
    destruct (assign_points_accelerated request es cs previous); [|done..]. destruct Ha as [Hlim Hp]. split; [by apply Hof|done].
  - rewrite (assign_cpu_pointwise n k d) by done.
    assert (no_panic (pointwise unit_distance es cs previous)) as Hnp by (unfold pointwise; np; unfold best_rule; np).
    assert (device_fits (N.of_nat n) (N.of_nat k) (N.of_nat d)) as Hf by (unfold device_fits; by rewrite <-Hs).
    by destruct (pointwise unit_distance es cs previous).
Qed.

Lemma assign_points_ok n k d es cs previous : dense n d es -> dense k d cs ->
  device_fits (N.of_nat n) (N.of_nat k) (N.of_nat d) ->
  returns (fun a => pointwise (distance_of es cs) es cs previous = Ok a) (assign_points request es cs previous).
Proof.
  intros He Hc Hf. pose proof (assign_points_or False n k d es cs previous He Hc ltac:(naive_solver)) as Ha.
  destruct (assign_points request es cs previous); [apply Ha|done|done].
Qed.

Lemma pointwise_lt distance es cs previous a : pointwise distance es cs previous = Ok a ->
  length a = length es /\ Forall (fun c => c < length cs)%nat a.
Proof.
  intros Hp. unfold pointwise in Hp. split; [apply collect_map_length in Hp; by rewrite length_imap in Hp|].
  apply collect_map_ok in Hp. apply Forall_forall. intros c Hc.
  apply list_elem_of_lookup in Hc as (i & Hi). destruct (Forall2_lookup_r _ _ _ _ _ Hp Hi) as ([j e] & _ & Hb).
  apply best_rule_lt in Hb. by rewrite length_map in Hb.
Qed.
End device.

(** ** Repair *)
Lemma occupancy_insert c a p x y : a !! p = Some x ->
  (occupancy c (<[p := y]> a) + (if decide (x = c) then 1 else 0) = occupancy c a + (if decide (y = c) then 1 else 0))%N.
Proof.
  revert p. induction a as [|z a IH]; intros [|p] Hp; try done.
  - injection Hp as ->. change (<[0%nat := y]> (x :: a)) with (y :: a). cbn [occupancy]. lia.
  - specialize (IH p Hp). change (<[S p := y]> (z :: a)) with (z :: <[p := y]> a). cbn [occupancy]. lia.
Qed.

Lemma occupancy_pos c a : (0 < occupancy c a)%N <-> c ∈ a.
Proof.
  induction a as [|x a IH]; cbn [occupancy]; [split; [lia|by intros ?%elem_of_nil]|]. rewrite elem_of_cons, <-IH.
  destruct (decide (x = c)) as [->|Hne].
  - split; [by left|lia].
  - split; [intros; right; lia|intros [?|?]; [congruence|lia]].
Qed.

(** The counts of the points of each cluster. *)
Record counts_ok (k : nat) (a : list nat) (counts : list N) : Prop := {
  counts_length : length counts = k;
  counts_each c : (c < k)%nat -> counts !! c = Some (occupancy c a);
  counts_sum : sum_N counts = len a
}.

Lemma sum_zeros k : sum_N (replicate k 0%N) = 0%N.
Proof. induction k as [|k IH]; [done|]. cbn [replicate]. by rewrite sum_cons, IH. Qed.

Lemma count_one_ok (counts : list N) c x : counts !! c = Some x -> count_one counts c = Ok (<[c := (x + 1)%N]> counts).
Proof. intros Hx. unfold count_one. by rewrite Hx. Qed.

Lemma cluster_counts_ok k a : Forall (fun c => c < k)%nat a ->
  exists counts, cluster_counts k a = Ok counts /\ counts_ok k a counts.
Proof.
  intros Ha. unfold cluster_counts.
  enough (forall counts, length counts = k -> exists counts', try_fold count_one counts a = Ok counts'
    /\ length counts' = k /\ (forall c x, counts !! c = Some x -> counts' !! c = Some (x + occupancy c a)%N)
    /\ sum_N counts' = (sum_N counts + len a)%N) as He.
  { destruct (He (replicate k 0%N) (length_replicate _ _)) as (counts & -> & Hl & Hc & Hs). exists counts. split; [done|].
    rewrite sum_zeros in Hs. split; [done| |lia]. intros c Hck. apply (Hc c 0%N). by apply lookup_replicate_2. }
  induction Ha as [|y a Hy _ IH]; intros counts Hl; cbn [try_fold].
  - exists counts. split_and!; [done|done| |unfold len; cbn; lia]. intros c x ->. cbn. f_equal. lia.
  - destruct (lookup_lt_is_Some_2 counts y ltac:(lia)) as (x & Hx). rewrite (count_one_ok _ _ x Hx). cbn [rbind].
    destruct (IH (<[y := (x + 1)%N]> counts) ltac:(by rewrite length_insert)) as (counts' & -> & Hl' & Hc & Hs).
    exists counts'. split_and!; [done|done| |].
    + intros c z Hz. cbn [occupancy]. destruct (decide (y = c)) as [->|Hne].
      * assert (z = x) as -> by congruence. rewrite (Hc c (x + 1)%N); [f_equal; lia|].
        apply list_lookup_insert_eq. by eapply lookup_lt_Some.
      * rewrite (Hc c z); [done|]. by rewrite list_lookup_insert_ne.
    + pose proof (sum_insert counts y x (x + 1)%N Hx). unfold len in *. cbn [length]. lia.
Qed.

Lemma sum_at_most l : Forall (fun x => x <= 1)%N l -> (sum_N l <= len l)%N.
Proof. induction 1 as [|x l Hx _ IH]; [done|]. rewrite sum_cons. unfold len in *. cbn [length]. lia. Qed.

(** A donor exists while a cluster is empty and there are as many points as clusters. *)
Lemma donor_exists k a counts e : counts_ok k a counts -> (k <= length a)%nat -> counts !! e = Some 0%N ->
  exists donor, donor_cluster counts = Some donor /\ (1 < occupancy donor a)%N /\ (donor < k)%nat /\ donor <> e.
Proof.
  intros [Hl Hc Hs] Hk He. unfold donor_cluster. destruct (max_by _ _) as [[donor x]|] eqn:Em.
  - apply max_by_elem, list_elem_of_filter in Em as [Hx Hin].
    destruct (imap_pair_snd (fun _ => True) counts donor x) as [_ Hd]; [by apply Forall_true|done|].
    pose proof (lookup_lt_Some _ _ _ Hd) as Hlt. rewrite Hl in Hlt. rewrite (Hc donor Hlt) in Hd. injection Hd as Hd.
    exists donor. split_and!; [done|lia|done|]. intros ->.
    rewrite (Hc e Hlt) in He. injection He as He. lia.
  - exfalso. apply max_by_none in Em. assert (Forall (fun x => x <= 1)%N counts) as Hall.
    { apply Forall_lookup. intros i x Hx. apply N.le_ngt. intros Hgt.
      assert ((i, x) ∈ filter (fun '(_, count) => 1 < count)%N (imap pair counts)) as Hin.
      { apply list_elem_of_filter. split; [done|]. apply list_elem_of_lookup. exists i. by rewrite list_lookup_imap, Hx. }
      rewrite Em in Hin. by apply elem_of_nil in Hin. }
    pose proof (sum_insert counts e 0%N 1%N He) as Hi.
    pose proof (sum_at_most (<[e := 1%N]> counts)) as Hb. unfold len in Hb, Hs. rewrite length_insert in Hb.
    specialize (Hb ltac:(by apply Forall_insert)). lia.
Qed.

Lemma donor_point_exists es centroid donor a : donor ∈ a ->
  exists p, donor_point es centroid donor a = Some p /\ a !! p = Some donor.
Proof.
  intros Hin. unfold donor_point. destruct (max_by _ _) as [[p c]|] eqn:Em.
  - apply max_by_elem, list_elem_of_filter in Em as [-> Hp].
    destruct (imap_pair_snd (fun _ => True) a p donor) as [_ Hd]; [by apply Forall_true|done|]. by exists p.
  - exfalso. apply max_by_none in Em. apply list_elem_of_lookup in Hin as (i & Hi).
    assert ((i, donor) ∈ filter (fun '(_, c) => c = donor) (imap pair a)) as Hf.
    { apply list_elem_of_filter. split; [done|]. apply list_elem_of_lookup. exists i. by rewrite list_lookup_imap, Hi. }
    rewrite Em in Hf. by apply elem_of_nil in Hf.
Qed.

(** One round moves a point of a larger cluster into the empty one. *)
Lemma repair_one_ok k es cs e a counts : counts_ok k a counts -> (k <= length a)%nat -> length cs = k ->
  counts !! e = Some 0%N -> exists p donor counts',
  repair_one es cs e a counts = Ok (<[p := e]> a, counts') /\ a !! p = Some donor /\ (1 < occupancy donor a)%N
  /\ donor <> e /\ counts_ok k (<[p := e]> a) counts' /\ counts' = <[e := 1%N]> (<[donor := (occupancy donor a - 1)%N]> counts).
Proof.
  intros Hok Hk Hcs He. destruct (donor_exists k a counts e Hok Hk He) as (donor & Hd & Hgt & Hdk & Hne).
  destruct (lookup_lt_is_Some_2 cs donor ltac:(lia)) as (centroid & Hcen).
  destruct (donor_point_exists es centroid donor a) as (p & Hp & Hap); [apply occupancy_pos; lia|].
  destruct Hok as [Hl Hc Hs]. pose proof (Hc donor Hdk) as Hcd.
  exists p, donor, (<[e := 1%N]> (<[donor := (occupancy donor a - 1)%N]> counts)).
  unfold repair_one. rewrite Hd. cbn [ok_or rbind]. rewrite Hcen. cbn [expect rbind]. rewrite Hp. cbn [ok_or rbind].
  rewrite Hcd. cbn [mbind option_bind]. unfold checked_sub. rewrite (proj2 (N.leb_le 1 _)) by lia. cbn [expect rbind].
  rewrite (list_lookup_insert_ne _ donor e) by done. rewrite He. cbn [expect rbind]. split_and!; [done..| |done].
  split.
  - by rewrite !length_insert.
  - intros c Hck. pose proof (occupancy_insert c a p donor e Hap) as Ho. destruct (decide (c = e)) as [->|Hce].
    + rewrite list_lookup_insert_eq by (rewrite length_insert; lia). rewrite (Hc e Hck) in He. injection He as He.
      rewrite decide_False, decide_True in Ho by done. f_equal. lia.
    + rewrite list_lookup_insert_ne by done. rewrite (decide_False (P := e = c)) in Ho by done. destruct (decide (c = donor)) as [->|Hcd'].
      * rewrite list_lookup_insert_eq by lia. rewrite decide_True in Ho by done. f_equal. lia.
      * rewrite list_lookup_insert_ne by done. rewrite decide_False in Ho by done. rewrite (Hc c Hck). f_equal. lia.
  - pose proof (sum_insert counts donor _ (occupancy donor a - 1)%N Hcd) as H1.
    pose proof (sum_insert (<[donor := (occupancy donor a - 1)%N]> counts) e 0%N 1%N) as H2.
    rewrite list_lookup_insert_ne in H2 by done. specialize (H2 He). unfold len in *. rewrite length_insert. lia.
Qed.

(** What a repair makes of an assignment. *)
Record repaired (k : nat) (a a' : list nat) : Prop := {
  repaired_length : length a' = length a;
  repaired_filled c : (c < k)%nat -> (1 <= occupancy c a')%N;
  repaired_moves i : a' !! i = a !! i \/ exists c, a' !! i = Some c /\ (c < k)%nat /\ occupancy c a = 0%N;
  repaired_single c : (c < k)%nat -> (occupancy c a <= 1)%N -> occupancy c a' = 1%N
}.

(** The number of empty clusters. *)
Definition empties (counts : list N) : N := occupancy 0 (N.to_nat <$> counts).

Lemma empties_insert counts i x y : counts !! i = Some x ->
  (empties (<[i := y]> counts) + (if decide (x = 0%N) then 1 else 0) = empties counts + (if decide (y = 0%N) then 1 else 0))%N.
Proof.
  intros Hx. unfold empties. rewrite list_fmap_insert.
  pose proof (occupancy_insert 0 (N.to_nat <$> counts) i (N.to_nat x) (N.to_nat y)) as Ho.
  rewrite list_lookup_fmap, Hx in Ho. specialize (Ho eq_refl). repeat case_decide; lia.
Qed.

Lemma first_empty_some counts e : first_empty counts = Some e -> counts !! e = Some 0%N.
Proof.
  unfold first_empty. destruct (list_find _ counts) as [[i x]|] eqn:E; [|done]. intros [= <-].
  apply list_find_Some in E as (-> & -> & _) || apply list_find_Some in E as (Hi & -> & _); done.
Qed.

Lemma repair_loop_ok k es cs rounds : length cs = k -> forall a counts, counts_ok k a counts -> (k <= length a)%nat ->
  (empties counts <= N.of_nat rounds)%N ->
  exists a', repair_loop rounds es cs a counts = Ok a' /\ repaired k a a'.
Proof.
  intros Hcs. induction rounds as [|rounds IH]; intros a counts Hok Hk Hr; cbn [repair_loop];
    destruct (first_empty counts) as [e|] eqn:E.
  2,4: exists a; split; [done|]; destruct Hok as [Hl Hc Hs]; unfold first_empty in E;
    destruct (list_find _ counts) as [[]|] eqn:Ef; [done|]; apply list_find_None in Ef;
    assert (forall c, (c < k)%nat -> (1 <= occupancy c a)%N) as Hfull by (intros c Hck; pose proof (Hc c Hck) as H1;
      eapply Forall_lookup_1 in Ef; [|exact H1]; cbn in Ef; lia);
    split; [done|done|by left|]; intros c Hck Hle; specialize (Hfull c Hck); lia.
  - exfalso. apply first_empty_some in E. pose proof (empties_insert counts e 0%N 1%N E) as Hi.
    rewrite decide_True, decide_False in Hi by done. lia.
  - apply first_empty_some in E. pose proof (lookup_lt_Some _ _ _ E) as He. rewrite (counts_length _ _ _ Hok) in He.
    destruct (repair_one_ok k es cs e a counts Hok Hk Hcs E) as (p & donor & counts' & -> & Hap & Hgt & Hne & Hok' & Hcounts).
    cbn [rbind]. assert (empties counts' < empties counts)%N as Hlt.
    { subst counts'. assert (donor < k)%nat as Hdk.
      { destruct (decide (donor < k)%nat); [done|]. exfalso.
        pose proof (counts_sum _ _ _ Hok') as Hs'. pose proof (counts_sum _ _ _ Hok) as Hs.
        rewrite (list_insert_ge counts donor) in Hs' by (rewrite (counts_length _ _ _ Hok); lia).
        pose proof (sum_insert counts e 0%N 1%N E). unfold len in *. rewrite length_insert in Hs'. lia. }
      pose proof (empties_insert counts donor _ (occupancy donor a - 1)%N (counts_each _ _ _ Hok donor Hdk)) as H1.
      pose proof (empties_insert (<[donor := (occupancy donor a - 1)%N]> counts) e 0%N 1%N) as H2.
      rewrite list_lookup_insert_ne in H2 by done. specialize (H2 E). rewrite decide_True, decide_False in H2 by done.
      rewrite !decide_False in H1 by lia. lia. }
    destruct (IH _ _ Hok' ltac:(by rewrite length_insert) ltac:(lia)) as (a' & -> & [Hl Hf Hm Hs]). exists a'. split; [done|].
    rewrite (counts_each _ _ _ Hok e He) in E. injection E as Eo. split.
    + by rewrite Hl, length_insert.
    + done.
    + intros i. assert (forall c, (c < k)%nat -> occupancy c (<[p := e]> a) = 0%N -> occupancy c a = 0%N) as Hz.
      { intros c Hck Hz. pose proof (occupancy_insert c a p donor e Hap) as Ho. repeat case_decide; subst; lia. }
      destruct (Hm i) as [->|(c & Hc & Hck & Hc0)]; [|right; exists c; auto].
      destruct (decide (p = i)) as [->|Hpi]; [|left; by rewrite list_lookup_insert_ne].
      right. exists e. split_and!; [|done|done]. apply list_lookup_insert_eq. by eapply lookup_lt_Some.
    + intros c Hck Hle. apply Hs; [done|]. pose proof (occupancy_insert c a p donor e Hap) as Ho.
      repeat case_decide; subst; lia.
Qed.

Lemma empties_bound counts : (empties counts <= len counts)%N.
Proof.
  unfold empties, len. induction counts as [|x counts IH]; [done|]. cbn [fmap list_fmap occupancy length] in *.
  case_decide; lia.
Qed.

Lemma repair_ok es cs a : Forall (fun c => c < length cs)%nat a -> (length cs <= length a)%nat ->
  exists a', repair_empty_clusters es cs a = Ok a' /\ repaired (length cs) a a' /\ Forall (fun c => c < length cs)%nat a'.
Proof.
  intros Ha Hk. unfold repair_empty_clusters. destruct (cluster_counts_ok (length cs) a Ha) as (counts & -> & Hok). cbn [rbind].
  destruct (repair_loop_ok (length cs) es cs (length cs) eq_refl a counts Hok Hk) as (a' & -> & Hr).
  { etrans; [apply empties_bound|]. unfold len. by rewrite (counts_length _ _ _ Hok). }
  exists a'. split_and!; [done|done|]. apply Forall_lookup. intros i c Hi.
  destruct (repaired_moves _ _ _ Hr i) as [He|(c' & Hc & Hlt & _)]; [|congruence].
  rewrite He in Hi. by eapply Forall_lookup_1 in Ha.
Qed.

(** ** Centroids *)

(** A partition of [n] points into [k] clusters, none of them empty. *)
Definition partition (n k : nat) (a : list nat) : Prop :=
  length a = n /\ Forall (fun c => c < k)%nat a /\ forall c, (c < k)%nat -> (1 <= occupancy c a)%N.

Lemma add_values_ok sum : forall values, length values = length sum ->
  exists sum', add_values sum values = Ok sum' /\ length sum' = length sum.
Proof.
  induction sum as [|slot sum IH]; intros [|value values] Hl; try done; cbn [add_values]; [by exists []|].
  destruct (IH values ltac:(cbn in Hl; lia)) as (sum' & -> & Hs). cbn [rbind].
  eexists. split; [done|]. cbn [length]. lia.
Qed.

Lemma add_point_ok k d sums counts e c : dense k d sums -> length counts = k -> length e = d -> (c < k)%nat ->
  exists sums' counts', add_point (sums, counts) (e, c) = Ok (sums', counts') /\ dense k d sums' /\ length counts' = k.
Proof.
  intros Hs Hc He Hck. pose proof Hs as [Hls Hfs]. unfold add_point. destruct (lookup_lt_is_Some_2 counts c ltac:(lia)) as (x & Hx).
  rewrite (count_one_ok _ _ x Hx). cbn [rbind]. destruct (dense_lookup k d sums c Hs Hck) as (sum & Hsum & Hd). rewrite Hsum.
  cbn [expect rbind]. destruct (add_values_ok sum e ltac:(lia)) as (sum' & -> & Hd'). cbn [rbind].
  eexists _, _. split_and!; [done| |by rewrite length_insert]. split; [by rewrite length_insert|].
  apply Forall_insert; [done|lia].
Qed.

Lemma unit_centroid_ok i c : returns (fun v => length v = length c) (unit_centroid i c).
Proof. unfold unit_centroid. apply returns_guard. intros _. apply km_normalize_embedding_ok. Qed.

Lemma recompute_ok n k d es a : dense n d es -> (0 < n)%nat -> Forall (fun c => c < k)%nat a ->
  returns (dense k d) (recompute_centroids es a k).
Proof.
  intros He Hn Ha. unfold recompute_centroids. destruct (dense_lookup n d es 0 He Hn) as (first & Hfirst & Hd).
  rewrite Hfirst. cbn [expect rbind].
  apply (returns_bind (fun st : list (list f32) * list N => dense k d st.1 /\ length st.2 = k)).
  - apply returns_loop.
    + split; cbn; [|apply length_replicate]. split; [apply length_replicate|].
      apply Forall_replicate. by rewrite length_replicate.
    + intros [e c] [sums counts] Hin [H1 H2]. cbn in H1, H2. apply list_elem_of_lookup in Hin as (j & Hj).
      apply lookup_zip_with_Some in Hj as (e' & c' & [= <- <-] & Hej & Hcj).
      destruct (add_point_ok k d sums counts e c H1 H2) as (sums' & counts' & -> & H3 & H4); [| |done].
      * destruct He as [_ He]. by eapply Forall_lookup_1 in He.
      * by eapply Forall_lookup_1 in Ha.
  - intros [sums counts] [[Hls Hfs] _]. cbn [fst] in *. eapply returns_weaken.
    + apply (returns_collect (fun (p : nat * list f32) v => length v = length p.2)). intros [i c] _. apply unit_centroid_ok.
    + cbn. intros vs H2. split; [apply Forall2_length in H2; by rewrite <-H2, length_imap|].
      apply Forall_lookup. intros i v Hv. destruct (Forall2_lookup_r _ _ _ _ _ H2 Hv) as ([j c] & Hj & ->). cbn.
      apply list_elem_of_lookup_2 in Hj. by destruct (imap_pair_snd _ _ _ _ Hfs Hj).
Qed.

Lemma average_objective_ok k d es a cs : dense k d cs -> Forall (fun c => c < k)%nat a ->
  returns (fun _ => True) (average_objective es a cs).
Proof.
  intros Hc Ha. unfold average_objective. eapply (returns_bind (fun _ => True)); [|done].
  apply returns_loop; [done|]. intros [e c] total Hin _. apply list_elem_of_lookup in Hin as (j & Hj).
  apply lookup_zip_with_Some in Hj as (e' & c' & [= <- <-] & _ & Hcj). eapply Forall_lookup_1 in Ha; [|exact Hcj]. cbn in Ha.
  destruct (dense_lookup k d cs c Hc Ha) as (v & -> & _). cbn [expect rbind].
  eapply returns_bind; [apply cosine_returns|]. done.
Qed.

Lemma maximum_centroid_shift_ok cs cs' : returns (fun _ => True) (maximum_centroid_shift cs cs').
Proof.
  unfold maximum_centroid_shift. apply returns_loop; [done|]. intros [l r] m _ _.
  eapply returns_bind; [apply cosine_returns|]. done.
Qed.

(** ** Fitting *)
Section fit.
Context `{HF : WgslFloat} `{HW : Wgpu} `{HR : !WgpuRuns} (request : ExecutionBackendRequest).
Variables (n k d : nat) (es : list (list f32)).
Hypotheses (Hes : dense n d es) (Hk : (0 < k)%nat) (Hkn : (k <= n)%nat)
  (Hfit : device_fits request (N.of_nat n) (N.of_nat k) (N.of_nat d)).

Lemma lloyd_step_ok cs previous : dense k d cs ->
  returns (fun r => partition n k r.1 /\ recompute_centroids es r.1 k = Ok r.2 /\ dense k d r.2)
    (lloyd_step request es cs previous).
Proof.
  intros Hc. unfold lloyd_step. eapply returns_bind; [by apply (assign_points_ok request n k d)|]. cbn beta.
  intros a [Hla Ha]%pointwise_lt. pose proof Hc as [Hck _]. pose proof Hes as [Hn _]. rewrite Hck in *. rewrite Hn in Hla.
  destruct (repair_ok es cs a) as (a' & -> & Hr & Ha'); [by rewrite Hck|lia|]. cbn [rbind]. rewrite Hck in Hr, Ha'.
  pose proof (recompute_ok n k d es a' Hes ltac:(lia) Ha') as Hrec.
  destruct (recompute_centroids es a' k) as [cs'| |] eqn:E; [|done..]. cbn in *. split_and!; [|done|done].
  split_and!; [by rewrite (repaired_length _ _ _ Hr)|done|apply (repaired_filled _ _ _ Hr)].
Qed.

Lemma refine_ok tolerance rounds : forall cs previous, dense k d cs ->
  returns (fun r => dense k d r.1) (refine request rounds tolerance es cs previous).
Proof.
  induction rounds as [|rounds IH]; intros cs previous Hc; cbn [refine]; [done|].
  eapply returns_bind; [by apply lloyd_step_ok|]. cbn beta. intros [a cs'] (_ & _ & Hc'). cbn [fst snd] in Hc'.
  eapply returns_bind; [apply maximum_centroid_shift_ok|]. intros shift _. destruct (fleb _ _ _); [done|by apply IH].
Qed.

(** What a fit stands for: a partition whose means are the centroids. *)
Definition fitted (r : FitResult) : Prop :=
  exists a, partition n k a /\ recompute_centroids es a k = Ok (fit_centroids r)
  /\ average_objective es a (fit_centroids r) = Ok (fit_objective r) /\ dense k d (fit_centroids r).

Lemma run_ok cs params : dense k d cs -> returns fitted (run_spherical_kmeans request es cs params).
Proof.
  intros Hc. unfold run_spherical_kmeans. eapply returns_bind; [by apply refine_ok|]. cbn beta. intros [cs1 previous] Hc1.
  cbn [fst] in Hc1. eapply returns_bind; [by apply lloyd_step_ok|]. cbn beta. intros [a cs2] (Hp & Hr & Hc2). cbn [fst snd] in *.
  pose proof (average_objective_ok k d es a cs2 Hc2 (proj1 (proj2 Hp))) as Ho.
  destruct (average_objective es a cs2) as [o| |] eqn:E; [|done..]. cbn. by exists a.
Qed.
End fit.

(** ** Initial centroids *)
Lemma km_select_loop_ok es k rounds : forall selected, (k <= length es)%nat -> (k - length selected <= rounds)%nat ->
  NoDup selected -> Forall (fun i => i < length es)%nat selected -> (length selected <= k)%nat ->
  exists more, select_loop rounds es k selected = Ok (selected ++ more) /\ NoDup (selected ++ more)
    /\ Forall (fun i => i < length es)%nat (selected ++ more) /\ length (selected ++ more) = k.
Proof.
  induction rounds as [|rounds IH]; intros selected Hk Hr Hnd Hlt Hle; cbn [select_loop];
    destruct (Nat.ltb_spec (length selected) k) as [Hs|Hs]; try lia.
  1,3: exists []; rewrite app_nil_r; split_and!; [done..|lia].
  destruct (max_by _ _) as [i|] eqn:Em; cbn [ok_or rbind].
  - apply max_by_elem, list_elem_of_filter in Em as [Hni Hi%elem_of_seq].
    destruct (IH (selected ++ [i])) as (more & Hm & H1 & H2 & H3).
    + done.
    + rewrite length_app. cbn. lia.
    + apply NoDup_app. split_and!; [done|set_solver|apply NoDup_singleton].
    + apply Forall_app. split; [done|]. constructor; [lia|done].
    + rewrite length_app. cbn. lia.
    + exists (i :: more). rewrite <-!app_assoc in *. done.
  - exfalso. apply max_by_none in Em. assert (forall i, (i < length es)%nat -> i ∈ selected) as Hall.
    { intros i Hi. destruct (decide (i ∈ selected)); [done|]. exfalso.
      assert (i ∈ filter (fun i => i ∉ selected) (seq 0 (length es))) as Hf
        by (apply list_elem_of_filter; split; [done|]; apply elem_of_seq; lia).
      rewrite Em in Hf. by apply elem_of_nil in Hf. }
    pose proof (NoDup_submseteq (seq 0 (length es)) selected (NoDup_seq _ _)) as Hsub.
    assert (seq 0 (length es) ⊆+ selected) as Hq%submseteq_length by (apply Hsub; intros i Hi%elem_of_seq; apply Hall; lia).
    rewrite length_seq in Hq. lia.
Qed.

(** The centroids to start from are points at different places, the first the one with
    the least hash. *)
Definition seeded (es : list (list f32)) (k : nat) (seed : N) (cs : list (list f32)) : Prop :=
  exists first rest, NoDup (first :: rest) /\ length (first :: rest) = k
  /\ Forall2 (fun i c => es !! i = Some c) (first :: rest) cs
  /\ forall i e, es !! i = Some e -> (deterministic_embedding_hash (default [] (es !! first)) seed
       <= deterministic_embedding_hash e seed)%N.

Lemma initialize_ok es k seed policy : (0 < k)%nat -> (k <= length es)%nat ->
  exists cs, initialize_centroids es k seed policy = Ok cs /\ seeded es k seed cs.
Proof.
  intros Hk Hle. destruct policy. cbn [initialize_centroids]. unfold seeded_deterministic_farthest_point.
  rewrite (proj2 (Nat.ltb_ge _ _)) by lia. cbn [negb].
  pose proof (min_by_spec (fun index => deterministic_embedding_hash (default [] (es !! index)) seed) (seq 0 (length es))) as Hm.
  destruct (min_by _ _) as [first|]; [|destruct es; cbn in *; [lia|done]]. destruct Hm as [Hf%elem_of_seq Hm]. cbn [ok_or rbind].
  destruct (km_select_loop_ok es k k [first] Hle ltac:(lia) (NoDup_singleton _)) as (more & -> & Hnd & Hlt & Hlen).
  { constructor; [lia|done]. } { done. }
  cbn [rbind app] in *. destruct (proj1 (Forall_exists_Forall2_l (fun i c => es !! i = Some c) (first :: more))) as (cs & Hcs).
  { eapply Forall_impl; [exact Hlt|]. cbn. intros i Hi. by apply lookup_lt_is_Some_2. }
  exists cs. split; [|exists first, more; split_and!; try done].
  - apply collect_map_ok. eapply Forall2_impl; [exact Hcs|]. cbn. by intros i c ->.
  - intros i e He. specialize (Hm i). rewrite He in Hm. apply Hm, elem_of_seq. apply lookup_lt_Some in He. lia.
Qed.

Lemma seeded_dense n d es k seed cs : dense n d es -> seeded es k seed cs -> dense k d cs.
Proof.
  intros [_ He] (first & rest & _ & Hl & H2 & _). split; [by rewrite <-(Forall2_length _ _ _ H2)|].
  apply Forall_lookup. intros i c Hc. destruct (Forall2_lookup_r _ _ _ _ _ H2 Hc) as (j & _ & Hj).
  by eapply Forall_lookup_1 in He.
Qed.
