(* ===== verification/KmeansTrainer.v ===== *)
(** * Spherical k-means: the trainer under every sequence of calls

    The invariant of the trainer ([trainer_ok]): what it holds is valid, and from the
    first completed pass on it has a fingerprint and as many centroids as configured. A
    pass either fits a partition without empty clusters or ends in the error state; the
    claims of the crate are at the end. *)
From S2P Require Import Prelude Ordering Hash Ieee Clustering LinearAlgebra LinearAlgebraCorrect SphericalKmeans.
From S2P Require Import KmeansCorrect.

Notation k_of t := (cluster_count (Trainer.config t)).
Notation dim_of t := (dimensions (Trainer.config t)).

(** What the completed passes have left. *)
Definition passes_ok (t : SphericalKmeansStreamingTrainer) : Prop :=
  if decide (Trainer.completed_passes t = 0%N)
  then (Trainer.state t = Idle \/ Trainer.state t = Ingesting) /\ Trainer.normalized_centroids t = None
  else Trainer.state t <> Idle /\ exists fp cs,
    Trainer.baseline_fingerprint t = Some fp /\ Trainer.normalized_centroids t = Some cs
    /\ dense (N.to_nat (k_of t)) (N.to_nat (dim_of t)) cs.

Record trainer_ok (t : SphericalKmeansStreamingTrainer) : Prop := {
  config_valid : validate_config (Trainer.config t) = Ok tt;
  pass_valid : Forall (fun e => length e = N.to_nat (dim_of t)) (Trainer.current_pass t);
  pass_empty : Trainer.state t = Idle \/ Trainer.state t = PassComplete \/ Trainer.state t = TrainingComplete ->
    Trainer.current_pass t = [];
  passes_left : Trainer.state t <> ErrorState -> passes_ok t
}.

Lemma km_new_ok config params t : Trainer.new config params = Ok t -> trainer_ok t /\ Trainer.completed_passes t = 0%N
  /\ Trainer.current_pass t = [] /\ Trainer.config t = config.
Proof.
  intros Hn. unfold Trainer.new in Hn. inv_ok. subst t.
  match goal with H : validate_config config = Ok ?u |- _ => destruct u end. split; [|done].
  split; [done|constructor|done|]. intros _. split; [by left|done].
Qed.

Lemma km_fail_ok t : trainer_ok t -> trainer_ok (Trainer.set_state ErrorState t).
Proof. intros [Hv Hp _ _]. by split; [done|done|intros [|[|]]|]. Qed.

(** ** Ingesting: a prefix of the batch, the whole batch if it succeeds *)
Lemma ingest_loop_ok es : forall t, match Trainer.ingest_loop es t with
  | (Ok _, t') => t' = Trainer.set_pass (Trainer.current_pass t ++ es) t
      /\ Forall (fun e => length e = N.to_nat (dim_of t)) es
  | (Err _, t') => exists m, t' = Trainer.set_pass (Trainer.current_pass t ++ take m es) t
      /\ Forall (fun e => length e = N.to_nat (dim_of t)) (take m es)
  | (Panic, _) => False
  end.
Proof.
  induction es as [|e es IH]; intros t; cbn [Trainer.ingest_loop].
  { rewrite app_nil_r. by destruct t. }
  pose proof (validate_embedding_ok e (dim_of t)) as Hv.
  destruct (validate_embedding e (dim_of t)) as [[]| |]; cbn [rbind]; [|exists 0%nat; rewrite app_nil_r; by destruct t|done].
  pose proof (km_ensure_non_zero_norm_ok e) as Hn.
  destruct (ensure_non_zero_norm e) as [[]| |]; [|exists 0%nat; rewrite app_nil_r; by destruct t|done]. cbn in Hv.
  specialize (IH (Trainer.set_pass (Trainer.current_pass t ++ [e]) t)). destruct (Trainer.ingest_loop es _) as [[[]| |] t']; [| |done].
  - destruct IH as [-> Hf]. cbn in *. rewrite <-app_assoc. split; [done|by constructor].
  - destruct IH as (m & -> & Hf). exists (S m). cbn in *. rewrite <-app_assoc. split; [done|by constructor].
Qed.

Lemma km_start_ingesting t : trainer_ok t -> Trainer.state t <> TrainingComplete -> Trainer.state t <> ErrorState ->
  trainer_ok (Trainer.set_state Ingesting t).
Proof.
  intros [Hv Hp He Hl] Hs Hs'. split; [done|done|by intros [|[|]]|]. intros _. specialize (Hl Hs').
  unfold passes_ok in *. cbn. case_decide; destruct Hl as [_ ?]; [by split; [right|]|by split].
Qed.

Lemma add_ok es t : trainer_ok t -> Trainer.state t = Ingesting ->
  Forall (fun e => length e = N.to_nat (dim_of t)) es -> trainer_ok (Trainer.set_pass (Trainer.current_pass t ++ es) t).
Proof.
  intros [Hv Hp He Hl] Hst Hf. split; cbn; [done|by apply Forall_app| |exact Hl]. rewrite Hst. by intros [|[|]].
Qed.

Lemma km_ingest_batch_ok es t : trainer_ok t ->
  match Trainer.ingest_batch es t with
  | (Ok _, t') => trainer_ok t' /\ t' = Trainer.set_pass (Trainer.current_pass t ++ es) (Trainer.set_state Ingesting t)
  | (Err _, t') => trainer_ok t' /\ exists m s, t' = Trainer.set_pass (Trainer.current_pass t ++ take m es) (Trainer.set_state s t)
  | (Panic, _) => False
  end.
Proof.
  intros Ht. assert (Trainer.state t = TrainingComplete \/ Trainer.state t = ErrorState
    \/ (trainer_ok (Trainer.set_state Ingesting t)
        /\ Trainer.ingest_batch es t = Trainer.ingest_loop es (Trainer.set_state Ingesting t))) as Hc.
  { destruct (Trainer.state t) eqn:Hst; [right; right|right; right|right; right|by left|by right; left];
      (split; [apply km_start_ingesting; [done|by rewrite Hst..]|]); destruct t; cbn in *; by subst. }
  destruct Hc as [Hst|[Hst|[Hok ->]]].
  1,2: unfold Trainer.ingest_batch; rewrite Hst; cbn; split; [by apply km_fail_ok|]; exists 0%nat, ErrorState;
    rewrite app_nil_r; by destruct t.
  pose proof (ingest_loop_ok es (Trainer.set_state Ingesting t)) as Hi.
  destruct (Trainer.ingest_loop es _) as [[[]| |] t']; [| |done].
  - destruct Hi as [-> Hf]. split; [|done]. by apply add_ok.
  - destruct Hi as (m & -> & Hf). split; [by apply add_ok|by exists m, Ingesting].
Qed.

Section passes.
Context `{Sha256} `{HF : WgslFloat} `{HW : Wgpu} `{HR : !WgpuRuns} (request : ExecutionBackendRequest).

(** The device holds what a trainer with [items] embeddings gives it at a time: a chunk of
    the points, the centroids and their distances. *)
Definition sized (config : StreamingClusteringConfig) (items : N) : Prop :=
  device_fits request items (cluster_count config) (dimensions config).

Lemma sized_le config n m : sized config m -> (n <= m)%N -> sized config n.
Proof. intros Hf Hle. by eapply device_fits_le. Qed.

Lemma km_fingerprint_eqb_eq a b : PassFingerprint_eqb a b = true -> a = b.
Proof.
  destruct a as [n1 d1], b as [n2 d2]. unfold PassFingerprint_eqb. cbn.
  intros [-> %N.eqb_eq Hd%bool_decide_eq_true]%andb_prop. f_equal. by apply BlockHash_eq.
Qed.

(** A pass with its report and the trainer after it. *)
Definition pass_done (t : SphericalKmeansStreamingTrainer) (report : PassReport) (t' : SphericalKmeansStreamingTrainer) : Prop :=
  exists es start fit,
    (k_of t <= len (Trainer.current_pass t))%N
    /\ normalize_pass (Trainer.current_pass t) (dim_of t) = Ok es
    /\ match Trainer.normalized_centroids t with
       | Some cs => start = cs /\ Trainer.baseline_fingerprint t = Some (Trainer.fingerprint_pass (Trainer.current_pass t))
       | None => seeded es (N.to_nat (k_of t)) (default 0%N (random_seed (Trainer.config t))) start
       end
    /\ run_spherical_kmeans request es start (Trainer.params t) = Ok fit
    /\ fitted (length (Trainer.current_pass t)) (N.to_nat (k_of t)) (N.to_nat (dim_of t)) es fit
    /\ report = Trainer.pass_report (Trainer.config t) (len (Trainer.current_pass t)) (fit_objective fit)
    /\ t' = Trainer.Mk (Trainer.config t) (Trainer.params t) PassComplete []
              (Some (Trainer.fingerprint_pass (Trainer.current_pass t))) (Trainer.completed_passes t + 1)
              (Some (fit_centroids fit)).

Lemma normalize_pass_ok es d : returns (dense (length es) (N.to_nat d)) (normalize_pass es d).
Proof.
  unfold normalize_pass. eapply returns_weaken.
  - apply (returns_collect (fun _ v => length v = N.to_nat d)). intros e _. unfold normalize_one.
    eapply returns_bind; [apply validate_embedding_ok|]. cbn beta. intros _ Hl.
    eapply returns_bind; [apply km_ensure_non_zero_norm_ok|]. intros _ _.
    eapply returns_weaken; [apply km_normalize_embedding_ok|]. intros v ->. exact Hl.
  - cbn. intros vs H2. split; [by rewrite (Forall2_length _ _ _ H2)|]. clear -H2. by induction H2; constructor.
Qed.

(** The fit of a pass with enough points. *)
Lemma fit_pass_ok t : trainer_ok t -> Trainer.state t = Ingesting -> (k_of t <= len (Trainer.current_pass t))%N ->
  sized (Trainer.config t) (len (Trainer.current_pass t)) ->
  returns (fun fit => exists es start, normalize_pass (Trainer.current_pass t) (dim_of t) = Ok es
      /\ match Trainer.normalized_centroids t with
         | Some cs => start = cs
         | None => seeded es (N.to_nat (k_of t)) (default 0%N (random_seed (Trainer.config t))) start
         end
      /\ run_spherical_kmeans request es start (Trainer.params t) = Ok fit
      /\ fitted (length (Trainer.current_pass t)) (N.to_nat (k_of t)) (N.to_nat (dim_of t)) es fit)
    (Trainer.fit_pass request t).
Proof.
  intros Ht Hst Hk Hs. unfold Trainer.fit_pass. pose proof (normalize_pass_ok (Trainer.current_pass t) (dim_of t)) as Hn.
  destruct (normalize_pass _ _) as [es| |]; [|done..]. cbn in Hn. cbn [rbind].
  pose proof (valid_positive _ (config_valid t Ht)) as [Hpos _]. unfold len in Hk.
  assert (exists start, match Trainer.normalized_centroids t with
      | Some existing => Ok existing
      | None => initialize_centroids es (N.to_nat (k_of t)) (default 0%N (random_seed (Trainer.config t)))
          (initialization_policy (Trainer.params t)) end = Ok start
    /\ dense (N.to_nat (k_of t)) (N.to_nat (dim_of t)) start
    /\ match Trainer.normalized_centroids t with
       | Some cs => start = cs
       | None => seeded es (N.to_nat (k_of t)) (default 0%N (random_seed (Trainer.config t))) start end) as (start & -> & Hd & Hfrom).
  { pose proof (passes_left t Ht ltac:(by rewrite Hst)) as Hp. unfold passes_ok in Hp. case_decide.
    - destruct Hp as [_ ->]. destruct (initialize_ok es (N.to_nat (k_of t)) (default 0%N (random_seed (Trainer.config t)))
        (initialization_policy (Trainer.params t)) ltac:(lia) ltac:(rewrite (proj1 Hn); lia)) as (cs & Hi & Hsd).
      exists cs. split_and!; [done|by eapply seeded_dense|done].
    - destruct Hp as (_ & fp & cs & _ & -> & Hd). by exists cs. }
  cbn [rbind]. pose proof (run_ok request (length (Trainer.current_pass t)) (N.to_nat (k_of t)) (N.to_nat (dim_of t)) es Hn
    ltac:(lia) ltac:(lia) ltac:(rewrite !N2Nat.id; exact Hs) start (Trainer.params t) Hd) as Hr.
  destruct (run_spherical_kmeans _ _ _ _) as [fit| |] eqn:Er; [|done..]. cbn in *. by exists es, start.
Qed.

(** [finish_pass]: the pass done, or the error state. *)
Definition failed (t t' : SphericalKmeansStreamingTrainer) : Prop :=
  Trainer.state t' = ErrorState /\ Trainer.current_pass t' = [] /\ Trainer.config t' = Trainer.config t
  /\ Trainer.completed_passes t' = Trainer.completed_passes t.

Lemma km_finish_pass_ok t : trainer_ok t -> sized (Trainer.config t) (len (Trainer.current_pass t)) ->
  (Trainer.completed_passes t < USIZE_MAX)%N ->
  match Trainer.finish_pass request t with
  | (Ok report, t') => Trainer.state t = Ingesting /\ pass_done t report t'
  | (Err _, t') => failed t t'
  | (Panic, _) => False
  end.
Proof.
  intros Ht Hs Hn. unfold Trainer.finish_pass, Trainer.finish_pass_impl.
  destruct (decide (Trainer.state t = Ingesting)) as [Hst|Hst]; [|by rewrite bool_decide_eq_false_2].
  rewrite bool_decide_eq_true_2 by done. cbn [negb]. destruct (N.eqb_spec (len (Trainer.current_pass t)) 0) as [|Hne]; [done|].
  destruct (N.ltb_spec (len (Trainer.current_pass t)) (k_of t)) as [|Hk]; [done|].
  set (fp := Trainer.fingerprint_pass (Trainer.current_pass t)).
  pose proof (passes_left t Ht ltac:(by rewrite Hst)) as Hp. unfold passes_ok in Hp.
  assert (exists accepted t1, (if (Trainer.completed_passes t =? 0)%N then (true, Trainer.set_baseline fp t)
      else (match Trainer.baseline_fingerprint t with
            | Some baseline => PassFingerprint_eqb baseline fp
            | None => false end, t)) = (accepted, t1)
    /\ Trainer.config t1 = Trainer.config t /\ Trainer.completed_passes t1 = Trainer.completed_passes t
    /\ (accepted = true -> Trainer.fit_pass request t1 = Trainer.fit_pass request t
        /\ t1 = Trainer.set_baseline fp t
        /\ (Trainer.normalized_centroids t <> None -> Trainer.baseline_fingerprint t = Some fp)))
    as (accepted & t1 & -> & Hc1 & Hn1 & Ha).
  { destruct (N.eqb_spec (Trainer.completed_passes t) 0) as [E|E].
    - rewrite decide_True in Hp by done. eexists true, _. split_and!; [done..|]. intros _. split_and!; [done..|]. by destruct Hp as [_ ->].
    - rewrite decide_False in Hp by done. destruct Hp as (_ & fp0 & cs & Hb & _). rewrite Hb. eexists _, t. split_and!; [done..|].
      intros ->%km_fingerprint_eqb_eq. split_and!; [done| |done]. destruct t; cbn in *. by rewrite Hb. }
  destruct accepted; cbn [negb]; [|by split_and!]. destruct (Ha eq_refl) as (Hfit & Ht1 & Hb). rewrite Hfit.
  pose proof (fit_pass_ok t Ht Hst Hk Hs) as Hf. destruct (Trainer.fit_pass request t) as [fit| |]; cbn [rbind]; [|by split_and!|done].
  cbn in Hf. destruct Hf as (es & start & Hes & Hfrom & Hrun & Hfd). rewrite Hn1.
  unfold checked_add. rewrite (proj2 (N.leb_le _ _)) by lia. cbn [expect rbind]. split; [done|].
  exists es, start, fit. split_and!; try done.
  - destruct (Trainer.normalized_centroids t) as [cs|]; [|done]. split; [done|by apply Hb].
  - by rewrite Hc1.
  - unfold Trainer.record_pass. by rewrite Ht1.
Qed.

Lemma km_pass_done_ok t report t' : trainer_ok t -> pass_done t report t' ->
  trainer_ok t' /\ Trainer.completed_passes t' = (Trainer.completed_passes t + 1)%N /\ Trainer.current_pass t' = []
  /\ Trainer.config t' = Trainer.config t.
Proof.
  intros Ht (es & start & fit & _ & _ & _ & _ & Hf & _ & ->). split_and!; [|done..].
  split; cbn; [apply (config_valid t Ht)|constructor|done|]. intros _. unfold passes_ok. cbn.
  rewrite decide_False by lia. split; [done|]. eexists _, _. split_and!; [done..|].
  by destruct Hf as (a & _ & _ & _ & Hd).
Qed.

Lemma km_complete_training_ok t : trainer_ok t ->
  no_panic (Trainer.complete_training t).1 /\ trainer_ok (Trainer.complete_training t).2
  /\ exists s, (Trainer.complete_training t).2 = Trainer.set_state s t.
Proof.
  intros Ht. unfold Trainer.complete_training. destruct (decide (Trainer.state t = PassComplete)) as [Hst|Hst].
  - rewrite bool_decide_eq_true_2 by done. cbn [negb fst snd]. split_and!; [done| |by eexists].
    destruct Ht as [Hv Hp He Hl]. split; [done|done|intros _; apply He; auto|]. intros _.
    specialize (Hl ltac:(by rewrite Hst)). unfold passes_ok in *. cbn.
    case_decide; [destruct Hl as [[] _]; congruence|]. destruct Hl as [_ ?]. by split.
  - rewrite bool_decide_eq_false_2 by done. cbn [negb fst snd]. split_and!; [done|by apply km_fail_ok|by eexists].
Qed.

(** ** Sequences of calls *)
#[local] Hint Extern 0 (StreamingClusterTrainer _ _) => exact (spherical_trainer request) : typeclass_instances.

Ltac simpl_t := cbn [Trainer.set_state Trainer.set_pass Trainer.current_pass Trainer.completed_passes Trainer.config] in *.

Lemma km_perform_ok c t : trainer_ok t -> sized (Trainer.config t) (len (Trainer.current_pass t)) ->
  (Trainer.completed_passes t + 1 <= USIZE_MAX)%N ->
  no_panic (perform c t).1 /\ (trainer_ok (perform c t).2 /\ Trainer.config (perform c t).2 = Trainer.config t)
  /\ (len (Trainer.current_pass (perform c t).2) <= len (Trainer.current_pass t) + batch_size c)%N
  /\ (Trainer.completed_passes (perform c t).2 <= Trainer.completed_passes t + 1)%N.
Proof.
  intros Ht Hs Hn. destruct c as [es| |];
    cbn [perform batch_size ingest_batch finish_pass complete_training spherical_trainer].
  - pose proof (km_ingest_batch_ok es t Ht) as Hi. destruct (Trainer.ingest_batch es t) as [[[]| |] t']; [| |done]; cbn [fst snd].
    + destruct Hi as [Hok ->]. split_and!; [done..| |simpl_t; lia]. simpl_t. unfold len. rewrite length_app. lia.
    + destruct Hi as [Hok (m & s & ->)]. split_and!; [done..| |simpl_t; lia]. simpl_t. unfold len.
      rewrite length_app, length_take. lia.
  - pose proof (km_finish_pass_ok t Ht Hs ltac:(lia)) as Hf.
    destruct (Trainer.finish_pass request t) as [[report| |] t']; [| |done]; cbn [rmap fst snd].
    + destruct Hf as [_ Hd]. destruct (km_pass_done_ok _ _ _ Ht Hd) as (Hok & -> & -> & Hc).
      split_and!; [done..|unfold len; cbn [length]; lia|lia].
    + destruct Hf as (Hst & Hp & Hc & Hn'). split_and!; [done| |done|rewrite Hp; unfold len; cbn [length]; lia|lia].
      split; [rewrite Hc; by apply config_valid|rewrite Hp; constructor|done|done].
  - destruct (km_complete_training_ok t Ht) as (H1 & H2 & s & Hc). rewrite Hc in *. split_and!; [done..|simpl_t; lia|simpl_t; lia].
Qed.

Lemma km_run_from_new config params t0 calls : Trainer.new config params = Ok t0 ->
  sized config (total_size calls) -> (len calls <= USIZE_MAX)%N ->
  Forall no_panic (run_calls calls t0).1 /\ trainer_ok (run_calls calls t0).2
  /\ Trainer.config (run_calls calls t0).2 = config
  /\ (len (Trainer.current_pass (run_calls calls t0).2) <= total_size calls)%N
  /\ (Trainer.completed_passes (run_calls calls t0).2 <= len calls)%N.
Proof.
  intros Hnew Hs Hc. destruct (km_new_ok _ _ _ Hnew) as (Hok & Hn & Hp & Hcfg).
  destruct (run_calls_keep (fun t' => trainer_ok t' /\ Trainer.config t' = config)
    (fun t => len (Trainer.current_pass t)) Trainer.completed_passes (fun n p => sized config n /\ p <= USIZE_MAX)%N) with (cs := calls) (t := t0)
    as (H1 & [H2 H3] & H4 & H5).
  - intros n p n' p' [Hn1 Hp1] Hle Hle'. split; [by eapply sized_le|lia].
  - intros c t1 [Ht1 Hc1] [Hl1 Hn1]. rewrite <-Hc1 in Hl1. destruct (km_perform_ok c t1 Ht1 Hl1 Hn1) as (K1 & [K2 K3] & K4 & K5).
    rewrite Hc1 in K3. by split_and!.
  - done.
  - rewrite Hn, Hp. unfold len in *. cbn [length]. split; [exact Hs|lia].
  - rewrite Hn, Hp in *. unfold len in *. cbn [length] in *. split_and!; [done..|lia|lia].
Qed.

(** The error state is final. *)
Lemma km_perform_failed c t : Trainer.state t = ErrorState ->
  (exists e, (perform c t).1 = Err e) /\ Trainer.state (perform c t).2 = ErrorState.
Proof.
  intros Hst. destruct c as [es| |]; cbn [perform ingest_batch finish_pass complete_training spherical_trainer].
  - unfold Trainer.ingest_batch. rewrite Hst. cbn. split; [by eexists|done].
  - unfold Trainer.finish_pass, Trainer.finish_pass_impl. rewrite bool_decide_eq_false_2 by congruence.
    cbn. split; [by eexists|done].
  - unfold Trainer.complete_training. rewrite bool_decide_eq_false_2 by congruence. cbn. split; [by eexists|done].
Qed.
End passes.

(** ** The classifier *)
Definition answers (k : N) (c : SphericalKmeansStreamingClassifier) : Prop :=
  forall e, returns (fun id => (id < k)%N) (Classifier.assign c e).

Lemma km_assign_ok c k d : N.to_nat (dimensions (Classifier.config c)) = d -> dense k d (Classifier.centroids c) ->
  answers (N.of_nat k) c.
Proof.
  intros Hdim [Hk Hd] e. unfold Classifier.assign. eapply returns_bind; [apply validate_embedding_ok|]. cbn beta. intros _ He.
  eapply returns_bind; [apply km_ensure_non_zero_norm_ok|]. intros _ _.
  eapply returns_bind; [apply km_normalize_embedding_ok|]. cbn beta. intros v Hv.
  rewrite (best_cluster_rows d) by (done || lia). apply (returns_bind (fun r => r < k)%nat).
  - apply returns_ok; [unfold best_rule; np|]. intros r Hr. apply best_rule_lt in Hr. by rewrite length_map, Hk in Hr.
  - intros r Hr. cbn. eapply N.le_lt_trans; [by apply N.Div0.mod_le|lia].
Qed.

Lemma km_into_classifier_ok t : trainer_ok t -> Trainer.state t = TrainingComplete ->
  exists c, Classifier.into_classifier t = Ok c /\ Classifier.config c = Trainer.config t /\ answers (k_of t) c.
Proof.
  intros Ht Hst. unfold Classifier.into_classifier. rewrite bool_decide_eq_true_2 by done.
  pose proof (passes_left t Ht ltac:(by rewrite Hst)) as Hp. unfold passes_ok in Hp.
  case_decide; [destruct Hp as [[?|?] _]; congruence|]. destruct Hp as (_ & fp & cs & _ & -> & Hd).
  eexists. split; [done|]. split; [done|]. rewrite <-(N2Nat.id (k_of t)). by eapply km_assign_ok.
Qed.

(** The repair of empty clusters always succeeds when there are as many points as
    clusters: no cluster is left empty, every moved point goes to a cluster that was
    empty, and a cluster that had at most one point has exactly one afterwards. *)
Theorem repair_fills es cs a : Forall (fun c => c < length cs)%nat a -> (length cs <= length a)%nat ->
  exists a', repair_empty_clusters es cs a = Ok a' /\ repaired (length cs) a a'
  /\ Forall (fun c => c < length cs)%nat a'.
Proof. intros Ha Hk. by apply repair_ok. Qed.

(** C17 Points are assigned one by one by their distances to the centroids, whichever
    way the distances are computed: on the processor, errors included, or in chunks on
    the device with the distances of its kernel; the cluster of a point is given by an
    explicit rule for leaders and ties. An assignment on the device succeeds only if the
    limits of the device hold one chunk (its points, the centroids, their distances and
    the workgroups of the dispatch), whatever the number of chunks, and it panics only
    if they do not; on the processor nothing panics. *)
Theorem assignment_pointwise `{HF : WgslFloat} `{HW : Wgpu} `{HR : !WgpuRuns} request n k d es cs previous :
  dense n d es -> dense k d cs ->
  let fits := device_fits request (N.of_nat n) (N.of_nat k) (N.of_nat d) in
  (should_use_accelerated_assignments request es cs = false ->
   fits /\ assign_points request es cs previous = pointwise unit_distance es cs previous)
  /\ match assign_points request es cs previous with
     | Ok a => fits /\ pointwise (distance_of request es cs) es cs previous = Ok a
               /\ length a = n /\ Forall (fun c => c < k)%nat a
     | Err _ => True
     | Panic => ~ fits
     end.
Proof.
  intros He Hc fits. split.
  - intros Hs. unfold fits, device_fits. rewrite <-(should_accelerate request n k d es cs), Hs by done. split; [done|].
    unfold assign_points. rewrite Hs. by apply (assign_cpu_pointwise n k d).
  - pose proof (assign_points_or request (~ fits) n k d es cs previous He Hc ltac:(done)) as Ha.
    destruct (assign_points _ _ _ _) as [a| |]; [|done..]. cbn in Ha. destruct Ha as [Hf Ha]. split; [done|]. split; [done|].
    apply pointwise_lt in Ha. by rewrite (proj1 He), (proj1 Hc) in Ha.
Qed.

(** C16 After any calls on a new trainer, finishing a pass does not panic, provided
    that, if there is a device that would be used, its limits hold one chunk of the
    points ingested by the calls, the centroids and their distances (whole data sets
    need not fit): it ends in the error state with the pass dropped, or it is a fit,
    from distinct points of the pass (first pass) or the last centroids (a later pass,
    with the fingerprint of the first), that stands for a partition of the points
    without empty clusters, whose unit means are the centroids and whose mean distance
    is the objective. *)
Theorem kmeans_pass_sound `{Sha256} `{HF : WgslFloat} `{HW : Wgpu} `{HR : !WgpuRuns} request config params t0 calls :
  Trainer.new config params = Ok t0 -> sized request config (total_size calls) -> (len calls < USIZE_MAX)%N ->
  let t := (run_calls (H := spherical_trainer request) calls t0).2 in
  match Trainer.finish_pass request t with
  | (Ok report, t') => Trainer.state t = Ingesting /\ pass_done request t report t'
  | (Err _, t') => Trainer.state t' = ErrorState /\ Trainer.current_pass t' = []
  | (Panic, _) => False
  end.
Proof.
  intros Hnew Hs Hc t.
  destruct (km_run_from_new request config params t0 calls Hnew Hs ltac:(lia)) as (_ & Hok & Hcfg & Hl & Hn). fold t in Hok, Hcfg, Hl, Hn.
  pose proof (km_finish_pass_ok request t Hok ltac:(rewrite Hcfg; by eapply sized_le) ltac:(lia)) as Hf.
  destruct (Trainer.finish_pass request t) as [[| |] t']; [done| |done]. by destruct Hf as (? & ? & _).
Qed.

(** No sequence of calls on a new trainer panics, provided that, if there is a
    device that would be used, its limits hold one chunk of the points ingested by the
    calls, the centroids and their distances; once TrainingComplete the trainer becomes
    a classifier that answers with a configured cluster or an error; in the error state
    every later call fails and it stays there. *)
Theorem kmeans_run_safe `{Sha256} `{HF : WgslFloat} `{HW : Wgpu} `{HR : !WgpuRuns} request config params t0 calls :
  Trainer.new config params = Ok t0 -> sized request config (total_size calls) -> (len calls <= USIZE_MAX)%N ->
  let run := run_calls (H := spherical_trainer request) in
  let t := (run calls t0).2 in
  Forall no_panic (run calls t0).1
  /\ (Trainer.state t = TrainingComplete ->
      exists c, Classifier.into_classifier t = Ok c /\ answers (cluster_count config) c)
  /\ (Trainer.state t = ErrorState -> forall later,
      Forall (fun r => exists e, r = Err e) (run later t).1 /\ Trainer.state (run later t).2 = ErrorState).
Proof.
  intros Hnew Hs Hc run t.
  destruct (km_run_from_new request config params t0 calls Hnew Hs Hc) as (Hp & Hok & Hcfg & _). fold run t in Hp, Hok, Hcfg.
  split_and!; [done| |].
  - intros Hst. destruct (km_into_classifier_ok t Hok Hst) as (c & Hi & _ & Ha). exists c. split; [done|by rewrite <-Hcfg].
  - intros Hst later. apply (run_calls_stuck (H := spherical_trainer request) (fun t => Trainer.state t = ErrorState)); [|done].
    intros c t'. apply km_perform_failed.
Qed.
