(* ===== verification/KmeansWitness.v ===== *)
(** * The linear algebra backends and spherical k-means on concrete inputs

    A device that runs the kernel with IEEE arithmetic, its invocations backwards; two
    threads that take turns with the request; three points and two clusters, through an
    assignment on the device, a repair and a whole training. *)
From S2P Require Import Prelude Ordering Hash Ieee CborRef Clustering LinearAlgebra LinearAlgebraCorrect SphericalKmeans.
From S2P Require Import KmeansCorrect KmeansTrainer.

(** ** A device *)
Definition ieee_wgsl : WgslFloat :=
  {| w_add := fadd binary32; w_sub := fsub binary32; w_mul := fmul binary32; w_div := fdiv binary32;
     w_max := fmax binary32; w_sqrt := fsqrt binary32; w_is_zero := fun x => feqb binary32 x 0 |}.

Definition backwards_device : Wgpu :=
  {| wgpu_accel := true;
     create_wgpu_context := inl {| summary := "host"; matches_declared_target := false |};
     dispatch := fun p l r x y n =>
       if decide (within_limits (len l) (len r) n x y) then
         match try_fold (@run_invocation ieee_wgsl p l r) (replicate (N.to_nat n) 0%N) (rev (invocations x y)) with
         | Ok out => Ok out
         | _ => Err "out of bounds"
         end
       else Panic |}.

#[local] Instance backwards_runs : @WgpuRuns ieee_wgsl backwards_device.
Proof.
  split; intros p l r x y n; cbn; (destruct (decide (within_limits (len l) (len r) n x y)) as [Hw|Hw]).
  - intros out. destruct (try_fold _ _ _) as [out'| |] eqn:E; [|done..]. intros [= <-].
    exists (rev (invocations x y)). split; [symmetry; apply Permutation_rev|exact E].
  - done.
  - destruct (try_fold _ _ _); split; done.
  - done.
Qed.

Definition one32 : f32 := f_of_Z binary32 1.
Definition two32 : f32 := f_of_Z binary32 2.
Definition minus_one32 : f32 := f_of_Z binary32 (-1).
Definition three_points : list (list f32) := [[one32; 0%N]; [0%N; two32]; [minus_one32; 0%N]].
Definition two_centroids : list (list f32) := [[one32; 0%N]; [0%N; one32]].

Lemma three_by_two : shaped three_points two_centroids 2.
Proof. split; repeat constructor. Qed.

Lemma device_matrix_exact_witness : exists out,
  @dense_distance_matrix backwards_device AutoRequest three_points two_centroids Cosine = Ok out
  /\ out = distance_rows (@kernel_distance ieee_wgsl Cosine) three_points two_centroids.
Proof.
  eexists. split; [vm_compute; reflexivity|].
  apply (@device_matrix_exact ieee_wgsl backwards_device backwards_runs AutoRequest three_points two_centroids Cosine 2).
  - exact three_by_two.
  - reflexivity.
  - discriminate.
  - vm_compute. reflexivity.
Defined.

Lemma chunking_is_invisible_witness : exists out,
  @chunked_dense_distance_matrix backwards_device WgpuRequest three_points two_centroids Euclidean 2 = Ok out
  /\ @dense_distance_matrix backwards_device WgpuRequest three_points two_centroids Euclidean = Ok out.
Proof.
  destruct (@dense_distance_matrix backwards_device WgpuRequest three_points two_centroids Euclidean) as [one| |] eqn:E1;
    [|vm_compute in E1; discriminate E1..].
  destruct (@chunked_dense_distance_matrix backwards_device WgpuRequest three_points two_centroids Euclidean 2) as [many| |] eqn:E2;
    [|vm_compute in E2; discriminate E2..].
  exists many. split; [reflexivity|]. f_equal.
  apply (proj2 (@chunking_is_invisible ieee_wgsl backwards_device backwards_runs WgpuRequest three_points two_centroids
    Euclidean 2 2 three_by_two ltac:(by apply N.leb_le)) one many E1 E2).
Defined.

(** Chunks that no device made by the crate holds: two centroids and enough points (too
    many workgroups), and 16 centroids in 1024 dimensions (a buffer too long). *)
Example chunks_beyond_limits :
  ~ matrix_limits (assignment_chunk_row_count 600000 2) 2 1
  /\ ~ matrix_limits (assignment_chunk_row_count 100000 16) 16 1024.
Proof.
  split; (intros Hl; apply (bool_decide_eq_true_2 (within_limits _ _ _ _ _)) in Hl; vm_compute in Hl; discriminate).
Qed.

(** ** Two threads *)
Lemma scope_restores_request_witness : exists p p1 p2 p3,
  Backend.perform_all [(2%nat, Backend.SetRequest CpuRequest)] Backend.initial = Ok p
  /\ Backend.perform (1%nat, Backend.OpenScope WgpuRequest) p = Ok p1
  /\ Backend.perform (2%nat, Backend.SetRequest AutoRequest) p1 = Err Backend.Waits
  /\ Backend.perform (1%nat, Backend.DropScope 0) p2 = Ok p3
  /\ Backend.request p1 = WgpuRequest /\ Backend.request p2 = AutoRequest /\ Backend.request p3 = CpuRequest.
Proof.
  destruct (Backend.perform_all [(2%nat, Backend.SetRequest CpuRequest)] Backend.initial) as [p| |] eqn:E0;
    [|vm_compute in E0; discriminate E0..].
  destruct (Backend.perform (1%nat, Backend.OpenScope WgpuRequest) p) as [p1| |] eqn:E1;
    [|vm_compute in E0; injection E0 as <-; vm_compute in E1; discriminate E1..].
  set (acts := [(1%nat, Backend.OpenScope CpuRequest); (1%nat, Backend.DropScope 0); (1%nat, Backend.SetRequest AutoRequest)]).
  destruct (Backend.perform_all acts p1) as [p2| |] eqn:E2;
    [|vm_compute in E0; injection E0 as <-; vm_compute in E1; injection E1 as <-; vm_compute in E2; discriminate E2..].
  destruct (Backend.perform (1%nat, Backend.DropScope 0) p2) as [p3| |] eqn:E3;
    [|vm_compute in E0; injection E0 as <-; vm_compute in E1; injection E1 as <-; vm_compute in E2; injection E2 as <-;
      vm_compute in E3; discriminate E3..].
  exists p, p1, p2, p3.
  assert (BackendFacts.within 1 p1 acts p2) as Hw.
  { vm_compute in E0. injection E0 as <-. vm_compute in E1. injection E1 as <-. vm_compute in E2. injection E2 as <-.
    unfold acts. repeat (eapply BackendFacts.within_cons; [vm_compute; reflexivity|intros _; exact I || reflexivity|by vm_compute|]).
    apply BackendFacts.within_nil. }
  assert (Backend.depth (Backend.thread 1 p) = 0%N) as Hd by (vm_compute in E0; injection E0 as <-; by vm_compute).
  assert (Backend.depth (Backend.thread 1 p3) = 0%N) as Hd3.
  { vm_compute in E0. injection E0 as <-. vm_compute in E1. injection E1 as <-. vm_compute in E2. injection E2 as <-.
    vm_compute in E3. injection E3 as <-. by vm_compute. }
  destruct (scope_restores_request [(2%nat, Backend.SetRequest CpuRequest)] p 1 WgpuRequest p1 acts p2 p3 E0 Hd E1 Hw E3 Hd3)
    as (H1 & _ & H3 & _ & _).
  split; [reflexivity|]. split; [exact E1|]. split.
  { vm_compute in E0. injection E0 as <-. vm_compute in E1. injection E1 as <-. vm_compute. reflexivity. }
  split; [exact E3|]. split; [exact H1|]. split.
  { vm_compute in E0. injection E0 as <-. vm_compute in E1. injection E1 as <-. vm_compute in E2. injection E2 as <-. reflexivity. }
  rewrite H3. vm_compute in E0. injection E0 as <-. reflexivity.
Defined.

(** ** Spherical k-means *)
Definition two_clusters : StreamingClusteringConfig :=
  {| cluster_count := 2; dimensions := 2; balance_constraints := None; random_seed := None |}.
Definition ten_rounds : SphericalKmeansParams :=
  {| initialization_policy := SeededDeterministicFarthestPoint; max_iteration_count := 10; convergence_tolerance := 0 |}.
Definition idle_trainer : SphericalKmeansStreamingTrainer := Trainer.Mk two_clusters ten_rounds Idle [] None 0 None.
Definition unit_points : list (list f32) := [[one32; 0%N]; [0%N; one32]; [minus_one32; 0%N]].
Definition two_passes : list call := [Ingest three_points; FinishPass; Ingest three_points; FinishPass; CompleteTraining].

(** The previous cluster is kept when it is within the tolerance of the leader. *)
Example ties_keep_previous :
  best_cluster_from_distances [one32; one32; two32] (Some 1%nat) = Ok 1%nat
  /\ best_cluster_from_distances [one32; one32; two32] None = Ok 0%nat
  /\ best_cluster_from_distances [one32; one32; two32] (Some 2%nat) = Ok 0%nat.
Proof. vm_compute. auto. Qed.

Lemma repair_fills_witness : exists a', repair_empty_clusters unit_points two_centroids [0; 0; 0]%nat = Ok a'
  /\ a' = [0; 0; 1]%nat /\ repaired 2 [0; 0; 0]%nat a'.
Proof.
  destruct (repair_fills unit_points two_centroids [0; 0; 0]%nat) as (a' & E & Hr & _).
  - repeat constructor.
  - repeat constructor.
  - exists a'. split; [exact E|]. split; [|exact Hr]. vm_compute in E. congruence.
Defined.

Lemma assignment_pointwise_witness : exists a,
  @assign_points backwards_device WgpuRequest unit_points two_centroids (Some [0; 1; 1]%nat) = Ok a
  /\ device_fits (HW := backwards_device) WgpuRequest 3 2 2 /\ length a = 3%nat /\ Forall (fun c => (c < 2)%nat) a.
Proof.
  assert (dense 3 2 unit_points) as He by by repeat constructor.
  assert (dense 2 2 two_centroids) as Hc by by repeat constructor.
  destruct (@assignment_pointwise ieee_wgsl backwards_device backwards_runs WgpuRequest 3 2 2 unit_points two_centroids
    (Some [0; 1; 1]%nat) He Hc) as [_ H].
  destruct (@assign_points backwards_device WgpuRequest unit_points two_centroids (Some [0; 1; 1]%nat)) as [a| |] eqn:E;
    [|vm_compute in E; discriminate E..].
  exists a. split; [reflexivity|]. split; [exact (proj1 H)|]. exact (proj2 (proj2 H)).
Defined.

Lemma kmeans_pass_sound_witness :
  let t := (run_calls (H := @spherical_trainer checksum backwards_device WgpuRequest) [Ingest three_points] idle_trainer).2 in
  is_ok (@Trainer.finish_pass checksum backwards_device WgpuRequest t).1 = true
  /\ match @Trainer.finish_pass checksum backwards_device WgpuRequest t with
     | (Ok report, t') => Trainer.state t = Ingesting /\ @pass_done checksum backwards_device WgpuRequest t report t'
     | (Err _, t') => Trainer.state t' = ErrorState /\ Trainer.current_pass t' = []
     | (Panic, _) => False
     end.
Proof.
  intros t. split; [vm_compute; reflexivity|].
  apply (@kmeans_pass_sound checksum ieee_wgsl backwards_device backwards_runs WgpuRequest two_clusters ten_rounds idle_trainer
    [Ingest three_points]).
  - vm_compute. reflexivity.
  - intros _. vm_compute. repeat split; discriminate.
  - by apply N.ltb_lt.
Defined.

Lemma kmeans_run_safe_witness :
  let run := run_calls (H := @spherical_trainer checksum backwards_device WgpuRequest) in
  let t := (run two_passes idle_trainer).2 in
  Forall (fun r => is_ok r = true) (run two_passes idle_trainer).1
  /\ exists c, Classifier.into_classifier t = Ok c /\ answers 2 c.
Proof.
  intros run t. split; [vm_compute; repeat constructor|].
  destruct (@kmeans_run_safe checksum ieee_wgsl backwards_device backwards_runs WgpuRequest two_clusters ten_rounds idle_trainer
    two_passes) as (_ & Hc & _).
  - vm_compute. reflexivity.
  - intros _. vm_compute. repeat split; discriminate.
  - by apply N.leb_le.
  - apply Hc. vm_compute. reflexivity.
Defined.
