(* ===== verification/RedbStore.v ===== *)
(** * The redb block store

    crates/lexongraph-block-store-redb/src/lib.rs: blocks as the rows of one table
    of a redb database. The database library is external: the class [RedbOps] has
    the operations the store calls, over the type of the state behind an open
    database handle, and [RedbLaws] what its documentation says of them: a write
    transaction is exclusive and atomic, readers see the last commit, and a commit
    is durable at once unless its durability was set to none. The file system is
    the class [HostFiles]. A [RedbBlockStore] is a handle on a shared state, so the
    state counts its handles; the last one to be dropped flushes. The functions
    behind the test feature [inject] are left out. *)
From S2P Require Import Prelude Ordering Hash Cbor BlockV1 BlockV2 Store.

(** ** The database library *)

(** [redb::Durability], as far as the store uses it *)
Inductive Durability := NotDurable | Immediate.
#[export] Instance Durability_eq_dec : EqDecision Durability.
Proof. solve_decision. Defined.

(** A call of the library: its error is only displayed. *)
Definition redb (A : Type) : Type := (string + A)%type.

(** [D] is the state behind a [Database]. Dropping a write transaction aborts it. *)
Class RedbOps (D : Type) := {
  write_txn : Type;
  read_table : Type;
  begin_write : D -> redb write_txn * D;
  set_durability : write_txn -> Durability -> redb write_txn;
  open_table : write_txn -> redb write_txn;
  table_get : write_txn -> bytes -> redb (option bytes);
  table_insert : write_txn -> bytes -> bytes -> redb write_txn;
  commit : write_txn -> D -> redb unit * D;
  drop_txn : write_txn -> D -> D;
  begin_read : D -> redb read_table;
  read_open_table : read_table -> redb read_table;
  read_get : read_table -> bytes -> redb (option bytes);
  read_iter : read_table -> redb (list (redb (bytes * bytes)));
  compact : D -> redb bool * D
}.

(** [RedbDatabase]: a [Database] or a [ReadOnlyDatabase] *)
Inductive RedbDatabase (D : Type) := ReadWriteDatabase (d : D) | ReadOnlyDatabase (d : D).
Arguments ReadWriteDatabase {D} d.
Arguments ReadOnlyDatabase {D} d.

Definition database_state {D} (db : RedbDatabase D) : D :=
  match db with ReadWriteDatabase d | ReadOnlyDatabase d => d end.
Definition as_writable {D} (db : RedbDatabase D) : option D :=
  match db with ReadWriteDatabase d => Some d | ReadOnlyDatabase _ => None end.

(** [RedbBlockStoreAccessMode], [RedbBlockStoreDurabilityMode] *)
Inductive RedbBlockStoreAccessMode := ReadWrite | ReadOnly.
#[export] Instance AccessMode_eq_dec : EqDecision RedbBlockStoreAccessMode.
Proof. solve_decision. Defined.
Inductive RedbBlockStoreDurabilityMode := Durable | Fast.
#[export] Instance DurabilityMode_eq_dec : EqDecision RedbBlockStoreDurabilityMode.
Proof. solve_decision. Defined.

(** A telemetry callback gives [None] when it panics. *)
Definition telemetry_callback : Type := BlockStoreTelemetryEvent -> option unit.
(** [Mutex<Option<BlockStoreTelemetryCallback>>] *)
Record CallbackLock := { lock_poisoned : bool; locked_callback : option telemetry_callback }.

(** [RedbBlockStore] with its [SharedState]; [handles] is the count of the [Arc]. *)
Record RedbBlockStore (D : Type) := {
  redb_root : path;
  database : RedbDatabase D;
  access_mode : RedbBlockStoreAccessMode;
  durability_mode : RedbBlockStoreDurabilityMode;
  pending_flush : bool;
  telemetry : CallbackLock;
  handles : nat
}.
Arguments redb_root {D} _.
Arguments database {D} _.
Arguments access_mode {D} _.
Arguments durability_mode {D} _.
Arguments pending_flush {D} _.
Arguments telemetry {D} _.
Arguments handles {D} _.

(** [map_err(|error| backend_failure(format!("{context}: {error}")))] *)
Definition context {A} (c : string) (r : redb A) : result BlockStoreError A :=
  match r with
  | inl error => Err (backend_failure (c +:+ ": " +:+ error)%stdpp)
  | inr a => Ok a
  end.

(** [ExistingEntryState] and the match that finds it *)
Inductive ExistingEntryState := MatchingBytes | ConflictingBytes | Missing.
Definition existing_state (existing : option bytes) (block_bytes : bytes) : ExistingEntryState :=
  match existing with
  | Some value => if bool_decide (value = block_bytes) then MatchingBytes else ConflictingBytes
  | None => Missing
  end.

Section store.
Context {D : Type} `{RedbOps D}.
Notation store := (RedbBlockStore D).

Definition with_database (d : D) (s : store) : store :=
  {| redb_root := redb_root s;
     database := match database s with
       | ReadWriteDatabase _ => ReadWriteDatabase d | ReadOnlyDatabase _ => ReadOnlyDatabase d end;
     access_mode := access_mode s; durability_mode := durability_mode s;
     pending_flush := pending_flush s; telemetry := telemetry s; handles := handles s |}.
Definition with_pending (b : bool) (s : store) : store :=
  {| redb_root := redb_root s; database := database s; access_mode := access_mode s;
     durability_mode := durability_mode s; pending_flush := b; telemetry := telemetry s;
     handles := handles s |}.
Definition with_telemetry (t : CallbackLock) (s : store) : store :=
  {| redb_root := redb_root s; database := database s; access_mode := access_mode s;
     durability_mode := durability_mode s; pending_flush := pending_flush s; telemetry := t;
     handles := handles s |}.
Definition with_handles (n : nat) (s : store) : store :=
  {| redb_root := redb_root s; database := database s; access_mode := access_mode s;
     durability_mode := durability_mode s; pending_flush := pending_flush s;
     telemetry := telemetry s; handles := n |}.

(** [ensure_writable], [writable_database] *)
Definition ensure_writable (operation : string) (s : store) : result BlockStoreError unit :=
  guard? negb (bool_decide (access_mode s = ReadOnly)) else
    backend_failure ("failed to " +:+ operation +:+ " under " +:+ display (redb_root s)
      +:+ " because the store was opened in read-only mode")%stdpp in
  Ok tt.

Definition writable_database (operation : string) (s : store) : result BlockStoreError D :=
  let? _ := ensure_writable operation s in
  ok_or (as_writable (database s))
    (backend_failure "read-only database handle has no write database").

(** *** Writing

    Both writes start a transaction, set its durability in fast mode, run over the
    table, and commit when something was inserted; an early return drops the
    transaction. [body] gives the transaction and whether to commit it. *)
Definition write_with (d : D) (begin_context fast_context commit_context : string)
  (body : write_txn -> result BlockStoreError (write_txn * bool)) : store_m store unit := fun s =>
  match begin_write d with
  | (inl error, d) => (context begin_context (inl error), with_database d s)
  | (inr txn, d) =>
      match
        (let? txn := if bool_decide (durability_mode s = Fast)
           then context fast_context (set_durability txn NotDurable) else Ok txn in
         body txn)
      with
      | Ok (txn, true) =>
          match commit txn d with
          | (inl error, d) => (context commit_context (inl error), with_database d s)
          | (inr _, d) =>
              (Ok tt, (if bool_decide (durability_mode s = Fast) then with_pending true else id)
                        (with_database d s))
          end
      | Ok (txn, false) => (Ok tt, with_database (drop_txn txn d) s)
      | Err error => (Err error, with_database (drop_txn txn d) s)
      | Panic => (Panic, with_database (drop_txn txn d) s)
      end
  end.

(** The look at the table before an insertion, and the insertion. *)
Definition write_entry (inspect conflict insert : string) (block_id : BlockHash) (block_bytes : bytes)
  (txn : write_txn) : result BlockStoreError (write_txn * bool) :=
  let? existing := context inspect (table_get txn (as_bytes block_id)) in
  match existing_state existing block_bytes with
  | MatchingBytes => Ok (txn, false)
  | ConflictingBytes => Err (backend_failure conflict)
  | Missing =>
      let? txn := context insert (table_insert txn (as_bytes block_id) block_bytes) in
      Ok (txn, true)
  end.

Definition redb_put_block_bytes (block_id : BlockHash) (block_bytes : bytes) : store_m store unit := fun s =>
  let id := BlockHash_to_string block_id in
  match writable_database ("persist block " +:+ id)%stdpp s with
  | Ok d =>
      write_with d ("failed to start a redb write transaction for block " +:+ id)%stdpp
        ("failed to set fast durability for block " +:+ id)%stdpp
        ("failed to commit persisted redb bytes for block " +:+ id)%stdpp
        (fun txn =>
          let? txn := context ("failed to open the redb block table for block " +:+ id)%stdpp (open_table txn) in
          write_entry ("failed to inspect persisted redb bytes for block " +:+ id)%stdpp
            ("integrity conflict for block " +:+ id +:+ " in the redb block table")%stdpp
            ("failed to persist block " +:+ id +:+ " into the redb block table")%stdpp
            block_id block_bytes txn) s
  | Err error => (Err error, s)
  | Panic => (Panic, s)
  end.

(** The loop of [put_block_bytes_batch]. *)
Definition batch_entry_step (acc : write_txn * bool) (entry : BlockHash * bytes)
  : result BlockStoreError (write_txn * bool) :=
  let id := BlockHash_to_string entry.1 in
  let? ' (txn, inserted) :=
    write_entry ("failed to inspect persisted redb bytes for block " +:+ id +:+ " during batch write")%stdpp
      ("integrity conflict for block " +:+ id +:+ " in the redb block table during batch write")%stdpp
      ("failed to persist block " +:+ id +:+ " into the redb block table during batch write")%stdpp
      entry.1 entry.2 acc.1 in
  Ok (txn, acc.2 || inserted).

Definition redb_put_block_bytes_batch (entries : list (BlockHash * bytes)) : store_m store unit := fun s =>
  match writable_database "persist a block batch" s with
  | Ok d =>
      match entries with
      | [] => (Ok tt, s)
      | _ =>
          write_with d "failed to start a redb write transaction for a block batch"
            "failed to set fast durability for a block batch"
            "failed to commit persisted redb bytes for a block batch"
            (fun txn =>
              let? txn := context "failed to open the redb block table for a block batch" (open_table txn) in
              try_fold batch_entry_step (txn, false) entries) s
      end
  | Err error => (Err error, s)
  | Panic => (Panic, s)
  end.

(** *** Reading *)
Definition redb_get_block_bytes (block_id : BlockHash) : store_m store (option bytes) := fun s =>
  let id := BlockHash_to_string block_id in
  (let? read_txn := context ("failed to start a redb read transaction for block " +:+ id)%stdpp
     (begin_read (database_state (database s))) in
   let? table := context ("failed to open the redb block table for block " +:+ id)%stdpp
     (read_open_table read_txn) in
   context ("failed to read block " +:+ id +:+ " from the redb block table")%stdpp
     (read_get table (as_bytes block_id)), s).

(** [key_bytes.len()] in a message *)
Definition key_error (key : bytes) : BlockStoreError :=
  backend_failure ("failed to decode an enumerated redb block key of " +:+ pretty (len key)
    +:+ " bytes into a block ID")%stdpp.

Definition enumerated_key (entry : redb (bytes * bytes)) : result BlockStoreError BlockHash :=
  let? ' (key, _) := context
    "failed while iterating the redb block table for block enumeration" entry in
  ok_or (hash_of_bytes key) (key_error key).

Definition redb_iter_block_ids (s : store) : result BlockStoreError (list (result BlockStoreError BlockHash)) :=
  let? read_txn := context "failed to start a redb read transaction for block enumeration"
    (begin_read (database_state (database s))) in
  let? table := context "failed to open the redb block table for block enumeration"
    (read_open_table read_txn) in
  let? iter := context "failed to iterate the redb block table for block enumeration" (read_iter table) in
  let? block_ids := collect_map enumerated_key iter in
  Ok (map Ok block_ids).

#[export] Instance redb_store : BlockStore store := {|
  put_block_bytes := redb_put_block_bytes;
  put_block_bytes_batch := redb_put_block_bytes_batch;
  get_block_bytes := redb_get_block_bytes;
  iter_block_ids := redb_iter_block_ids
|}.

(** *** Flushing, compaction and the handles *)

(** [flush_pending_writes], with the contexts of its two callers *)
Definition flush_pending_writes (begin_context commit_context : string) : store_m store unit := fun s =>
  if negb (bool_decide (access_mode s = ReadWrite)) || negb (bool_decide (durability_mode s = Fast))
     || negb (pending_flush s)
  then (Ok tt, s)
  else match as_writable (database s) with
  | None => (Ok tt, s)
  | Some d =>
      match begin_write d with
      | (inl error, d) => (context begin_context (inl error), with_database d s)
      | (inr txn, d) =>
          match set_durability txn Immediate with
          | inl error => (context begin_context (inl error), with_database (drop_txn txn d) s)
          | inr txn =>
              match commit txn d with
              | (inl error, d) => (context commit_context (inl error), with_database d s)
              | (inr _, d) => (Ok tt, with_pending false (with_database d s))
              end
          end
      end
  end.
Definition flush_pending_writes_on_shutdown : store_m store unit :=
  flush_pending_writes "failed to start a fast-mode graceful-shutdown redb write transaction"
    "failed to flush pending fast-mode redb writes during graceful shutdown".
Definition flush_pending_writes_before_compaction : store_m store unit :=
  flush_pending_writes "failed to start a pre-compaction redb write transaction"
    "failed to flush pending fast-mode redb writes before compaction".

(** [Arc::get_mut] succeeds when there is one handle. *)
Definition compact_now : store_m store unit := fun s =>
  let under := ("failed to compact redb database under " +:+ display (redb_root s))%stdpp in
  sbind (sret (ensure_writable "compact the redb database" s)) (fun _ =>
  sbind (sret (guard? (handles s =? 1)%nat else
    backend_failure (under +:+ " because exclusive store ownership is required")%stdpp in Ok tt)) (fun _ =>
  sbind flush_pending_writes_before_compaction (fun _ => fun s =>
  match as_writable (database s) with
  | None =>
      (Err (backend_failure (under +:+ " because the store was opened in read-only mode")%stdpp), s)
  | Some d =>
      match compact d with
      | (inl error, d) => (context under (inl error), with_database d s)
      | (inr _, d) => (Ok tt, with_database d s)
      end
  end))) s.

(** [Clone], and [Drop for SharedState] when the last handle goes: the text printed
    to the standard error stream, if any. *)
Definition clone_handle (s : store) : store := with_handles (S (handles s)) s.
Definition drop_shared_state (s : store) : option string * store :=
  match flush_pending_writes_on_shutdown s with
  | (Err error, s) =>
      (Some ("fast-mode graceful shutdown flush failed: " +:+ BlockStoreError_to_string error)%stdpp, s)
  | (_, s) => (None, s)
  end.
Definition drop_handle (s : store) : option string * store :=
  let s := with_handles (pred (handles s)) s in
  if (handles s =? 0)%nat then drop_shared_state s else (None, s).

(** [set_telemetry_callback] *)
Definition set_telemetry_callback (callback : option telemetry_callback) : store_m store unit := fun s =>
  if lock_poisoned (telemetry s)
  then (Err (backend_failure ("failed to update redb telemetry callback for " +:+ display (redb_root s)
      +:+ " because the callback state lock is poisoned")%stdpp), s)
  else (Ok tt, with_telemetry {| lock_poisoned := false; locked_callback := callback |} s).

(** [emit_repair_telemetry]: the text printed when the callback panics. [progress] is
    the session's progress in three decimals. A poisoned lock is entered all the same. *)
Definition emit_repair_telemetry (t : CallbackLock) (database_path : path) (progress : string) : option string :=
  match locked_callback t with
  | None => None
  | Some callback =>
      let event :=
        with_attribute "progress" progress
          (with_attribute "database_path" (display database_path)
             (with_attribute "backend" "redb"
                (with_message "redb reported database repair progress" (event_new "repair_status")))) in
      match callback event with
      | Some _ => None
      | None => Some ("redb repair telemetry callback panicked for " +:+ display database_path)%stdpp
      end
  end.
End store.

(** ** Opening *)

(** The calls of [std::fs] and of [redb::Builder]. [F] is the state of the file
    system; the repair callback is run while a database is opened, and the library
    opens the same files whatever it does. *)
Class HostFiles (F D : Type) := {
  host_create_dir_all : path -> F -> io unit * F;
  host_canonicalize : path -> F -> io path;
  host_is_dir : path -> F -> io bool;
  host_is_file : path -> F -> bool;
  host_file : Type;
  host_open : path -> F -> io host_file;
  host_seek : host_file -> N -> io host_file;
  host_read_exact : host_file -> nat -> io bytes;
  builder_create : path -> F -> redb D * F;
  builder_open_read_only : path -> F -> redb D
}.

Definition DATABASE_FILE_NAME : OsName := Name "blocks.redb".
Definition GOD_BYTE_OFFSET : N := 9.
Definition RECOVERY_REQUIRED : N := 2.

(** [map_err] of an [io::Error] *)
Definition io_context {A} (c : string) (r : io A) : result BlockStoreError A :=
  context c (match r with inl error => inl (error_text error) | inr a => inr a end).

Section opening.
Context {F D : Type} `{HostFiles F D} `{RedbOps D}.

(** [database_requires_recovery] *)
Definition database_requires_recovery (database_path : path) (f : F) : result BlockStoreError bool :=
  let p := display database_path in
  let? file := io_context ("failed to inspect redb database header for " +:+ p)%stdpp (host_open database_path f) in
  let? file := io_context ("failed to seek to the redb header for " +:+ p)%stdpp (host_seek file GOD_BYTE_OFFSET) in
  let? buffer := io_context ("failed to inspect redb database header for " +:+ p)%stdpp (host_read_exact file 1) in
  let? god := expect (head buffer) in
  Ok (negb (N.land (Byte.to_N god) RECOVERY_REQUIRED =? 0)%N).

(** [open_database] *)
Definition open_database (database_path : path) (mode : RedbBlockStoreAccessMode) (f : F)
  : result BlockStoreError (RedbDatabase D) * F :=
  let p := display database_path in
  let opening := ("failed to open redb database " +:+ p)%stdpp in
  match mode with
  | ReadWrite =>
      let (r, f) := builder_create database_path f in
      (rmap ReadWriteDatabase (context opening r), f)
  | ReadOnly =>
      ((guard? host_is_file database_path f else
          backend_failure (opening +:+ " in read-only mode because the database file does not exist")%stdpp in
        let? recovery := database_requires_recovery database_path f in
        guard? negb recovery else
          backend_failure (opening +:+ " in read-only mode because recovery is required and this revision does not permit read-only repair")%stdpp in
        rmap ReadOnlyDatabase (context opening (builder_open_read_only database_path f))), f)
  end.

(** [initialize_blocks_table]: the database with the table committed. *)
Definition initialize_blocks_table (db : RedbDatabase D) (database_path : path)
  : result BlockStoreError (RedbDatabase D) :=
  let p := display database_path in
  let? d := ok_or (as_writable db) (backend_failure
    ("failed to initialize the redb block table in " +:+ p +:+ " because the database is read-only")%stdpp) in
  match begin_write d with
  | (inl error, _) => context ("failed to start a redb initialization transaction for " +:+ p)%stdpp (inl error)
  | (inr txn, d) =>
      let? txn := context ("failed to initialize the redb block table in " +:+ p)%stdpp (open_table txn) in
      match commit txn d with
      | (inl error, _) => context ("failed to commit redb initialization for " +:+ p)%stdpp (inl error)
      | (inr _, d) => Ok (ReadWriteDatabase d)
      end
  end.

(** [new_with_options_and_telemetry] *)
Definition new_with_options_and_telemetry (requested_root : path) (mode : RedbBlockStoreAccessMode)
  (durability : RedbBlockStoreDurabilityMode) (callback : option telemetry_callback) (f : F)
  : result BlockStoreError (RedbBlockStore D) * F :=
  let root := display requested_root in
  let (created, f) := match mode with
    | ReadWrite => host_create_dir_all requested_root f
    | ReadOnly => (inr tt, f)
    end in
  match
    (let? _ := io_context ("failed to create store root " +:+ root)%stdpp created in
     let? canonical_root := io_context ("failed to canonicalize store root " +:+ root)%stdpp
       (host_canonicalize requested_root f) in
     let? dir := io_context ("failed to stat store root " +:+ display canonical_root)%stdpp
       (host_is_dir canonical_root f) in
     guard? dir else
       backend_failure ("store root " +:+ display canonical_root +:+ " is not a directory")%stdpp in
     Ok canonical_root)
  with
  | Err error => (Err error, f)
  | Panic => (Panic, f)
  | Ok canonical_root =>
      let database_path := canonical_root ++ [DATABASE_FILE_NAME] in
      let (opened, f) := open_database database_path mode f in
      ((let? db := opened in
        let? db := match mode with
          | ReadWrite => initialize_blocks_table db database_path
          | ReadOnly => Ok db
          end in
        Ok {| redb_root := canonical_root; database := db; access_mode := mode;
              durability_mode := durability; pending_flush := false;
              telemetry := {| lock_poisoned := false; locked_callback := callback |}; handles := 1 |}), f)
  end.

(** [new], [new_with_durability], [new_read_only], [new_with_telemetry],
    [new_with_durability_and_telemetry] *)
Definition redb_new (root : path) := new_with_options_and_telemetry root ReadWrite Durable None.
Definition redb_new_with_durability (root : path) (durability : RedbBlockStoreDurabilityMode) :=
  new_with_options_and_telemetry root ReadWrite durability None.
Definition redb_new_read_only (root : path) := new_with_options_and_telemetry root ReadOnly Durable None.
Definition redb_new_with_telemetry (root : path) (callback : telemetry_callback) :=
  new_with_options_and_telemetry root ReadWrite Durable (Some callback).
Definition redb_new_with_durability_and_telemetry (root : path) (durability : RedbBlockStoreDurabilityMode)
  (callback : option telemetry_callback) :=
  new_with_options_and_telemetry root ReadWrite durability callback.
End opening.

(** ** What the database does with the rows

    [rows d] is the table as a reader opening now sees it, [durable_rows d] what
    would be there after a crash, [txn_rows t] the table within a transaction. A
    commit that fails publishes nothing; its rows may have reached the disk. *)
Class RedbLaws (D : Type) `{RedbOps D} := {
  rows : D -> gmap bytes bytes;
  durable_rows : D -> gmap bytes bytes;
  txn_rows : write_txn -> gmap bytes bytes;
  txn_durability : write_txn -> Durability;
  table_rows : read_table -> gmap bytes bytes;
  begin_write_law d r d' : begin_write d = (r, d') ->
    rows d' = rows d /\ durable_rows d' = durable_rows d
    /\ forall t, r = inr t -> txn_rows t = rows d /\ txn_durability t = Immediate;
  set_durability_law t u t' : set_durability t u = inr t' -> txn_rows t' = txn_rows t /\ txn_durability t' = u;
  open_table_law t t' : open_table t = inr t' ->
    txn_rows t' = txn_rows t /\ txn_durability t' = txn_durability t;
  table_get_law t k r : table_get t k = inr r -> r = txn_rows t !! k;
  table_insert_law t k v t' : table_insert t k v = inr t' ->
    txn_rows t' = <[k := v]> (txn_rows t) /\ txn_durability t' = txn_durability t;
  commit_law t d r d' : commit t d = (r, d') ->
    match r with
    | inr _ => rows d' = txn_rows t
        /\ durable_rows d' = match txn_durability t with Immediate => txn_rows t | NotDurable => durable_rows d end
    | inl _ => rows d' = rows d /\ (durable_rows d' = durable_rows d \/ durable_rows d' = txn_rows t)
    end;
  drop_txn_law t d : rows (drop_txn t d) = rows d /\ durable_rows (drop_txn t d) = durable_rows d;
  begin_read_law d t : begin_read d = inr t -> table_rows t = rows d;
  read_open_law t t' : read_open_table t = inr t' -> table_rows t' = table_rows t;
  read_get_law t k r : read_get t k = inr r -> r = table_rows t !! k;
  (** the rows in the order of their keys *)
  read_iter_law t items l : read_iter t = inr items -> items = map inr l ->
    StronglySorted (fun x y => cmp_lt bytes_cmp x.1 y.1) l /\ l ≡ₚ map_to_list (table_rows t);
  compact_law d r d' : compact d = (r, d') ->
    rows d' = rows d /\ (durable_rows d' = durable_rows d \/ durable_rows d' = rows d)
}.
