(* ===== verification/RedbCorrect.v ===== *)
(** * The redb block store: the properties

    A write, single or batch, is the atomic insertion of new rows and never
    replaces one; the rows are durable in durable mode, and in fast mode whenever
    nothing waits to be flushed, through any history of operations and in
    particular after the last handle was dropped without a message; enumeration is
    in the order of the identifiers. The store has the contracts [StoreLaws] and
    [DurableStore]. A database in memory witnesses the laws. *)
From S2P Require Import Prelude Ordering Hash Cbor CborRef BlockV1 BlockV2 Store RedbStore.

(** ** The specification of a write *)

(** The rows with every entry inserted; [None] when a key has other bytes. *)
Fixpoint insert_all (m : gmap bytes bytes) (es : list (BlockHash * bytes)) : option (gmap bytes bytes) :=
  match es with
  | [] => Some m
  | (k, b) :: es' =>
      match m !! as_bytes k with
      | Some v => if bool_decide (v = b) then insert_all m es' else None
      | None => insert_all (<[as_bytes k := b]> m) es'
      end
  end.

Lemma insert_all_spec es : forall m m', insert_all m es = Some m' ->
  m ⊆ m' /\ (forall k b, (k, b) ∈ es -> m' !! as_bytes k = Some b)
  /\ forall j c, m' !! j = Some c -> m !! j = Some c \/ exists k, j = as_bytes k /\ (k, c) ∈ es.
Proof.
  induction es as [|[k b] es IH]; intros m m' Hm; cbn in Hm.
  - injection Hm as <-. split_and!; [done| |by left]. by intros k b ?%elem_of_nil.
  - destruct (m !! as_bytes k) as [v|] eqn:Ek.
    + destruct (bool_decide_reflect (v = b)) as [->|]; [|done].
      destruct (IH _ _ Hm) as (Hs & Hin & Hor). split_and!; [done| |].
      * intros j c [[= -> ->]|Hj]%elem_of_cons; [by eapply lookup_weaken|by apply Hin].
      * intros j c [?|(k' & -> & ?)]%Hor; [by left|right]. exists k'. set_solver.
    + destruct (IH _ _ Hm) as (Hs & Hin & Hor). split_and!.
      * etransitivity; [by apply insert_subseteq|done].
      * intros j c [[= -> ->]|Hj]%elem_of_cons; [|by apply Hin].
        eapply lookup_weaken; [apply lookup_insert_eq|done].
      * intros j c [Hj|(k' & -> & ?)]%Hor; [|right; exists k'; set_solver].
        destruct (decide (j = as_bytes k)) as [->|Hne].
        -- rewrite lookup_insert_eq in Hj. injection Hj as <-. right. exists k. set_solver.
        -- rewrite lookup_insert_ne in Hj by done. by left.
Qed.

Lemma context_ok {A} c (r : redb A) a : context c r = Ok a <-> r = inr a.
Proof. destruct r; cbn; naive_solver. Qed.
Lemma context_no_panic {A} c (r : redb A) : no_panic (context c r).
Proof. by destruct r. Qed.

Section correct.
Context {D : Type} `{RedbLaws D}.
Notation store := (RedbBlockStore D).

(** The rows a reader of the store sees, and those that survive a crash. *)
Definition store_rows (s : store) : gmap bytes bytes := rows (database_state (database s)).
Definition store_durable (s : store) : gmap bytes bytes := durable_rows (database_state (database s)).

(** The kind of handle fits the access mode, only a writable store in fast mode has
    something to flush, and without anything to flush the rows are durable. *)
Definition redb_inv (s : store) : Prop :=
  (access_mode s = ReadWrite <-> is_Some (as_writable (database s)))
  /\ (pending_flush s = true -> access_mode s = ReadWrite /\ durability_mode s = Fast)
  /\ (pending_flush s = false -> store_rows s ⊆ store_durable s).

(** What no operation changes. *)
Definition same_setup (s s' : store) : Prop :=
  redb_root s' = redb_root s /\ access_mode s' = access_mode s /\ durability_mode s' = durability_mode s.

#[export] Instance same_setup_preorder : PreOrder same_setup.
Proof. split; [by intros ?|]. unfold same_setup. intros ? ? ?. intros (?&?&?) (?&?&?); split_and!; congruence. Qed.

Lemma writable_state (s : store) d : as_writable (database s) = Some d -> database_state (database s) = d.
Proof. destruct (database s); cbn; naive_solver. Qed.
Lemma with_database_state d (s : store) : database_state (database (with_database d s)) = d.
Proof. by destruct s as [? [] ? ? ? ? ?]. Qed.

Lemma with_database_writable d (s : store) :
  is_Some (as_writable (database (with_database d s))) <-> is_Some (as_writable (database s)).
Proof. destruct s as [? [] ? ? ? ? ?]; cbn; split; intros []; by eauto. Qed.

(** A change of the database that keeps the rows and loses none of the durable ones
    that are still there. *)
Lemma with_database_inv (s : store) d' :
  redb_inv s -> rows d' = store_rows s ->
  (durable_rows d' = store_durable s \/ store_rows s ⊆ durable_rows d') ->
  redb_inv (with_database d' s) /\ same_setup s (with_database d' s).
Proof.
  intros (Hm & Hp & Hd) Hr Hu. split; [|done].
  unfold redb_inv, store_rows, store_durable. rewrite !with_database_state. split_and!.
  - by rewrite with_database_writable.
  - exact Hp.
  - intros Hf. rewrite Hr. destruct Hu as [->|]; [by apply Hd|done].
Qed.

(** *** The body of a write *)

Definition body_ok (m : gmap bytes bytes) (es : list (BlockHash * bytes))
  (u : Durability) (r : result BlockStoreError (write_txn * bool)) : Prop :=
  no_panic r /\ forall t c, r = Ok (t, c) ->
    insert_all m es = Some (txn_rows t) /\ txn_durability t = u /\ (c = false -> txn_rows t = m).

Lemma write_entry_ok a b c k v t :
  body_ok (txn_rows t) [(k, v)] (txn_durability t) (write_entry a b c k v t).
Proof.
  unfold write_entry, body_ok. cbn. destruct (table_get t (as_bytes k)) as [e|o] eqn:Eg; cbn; [done|].
  apply table_get_law in Eg as <-. destruct o as [w|]; cbn.
  - destruct (bool_decide_reflect (w = v)) as [->|]; [|done]. split; [done|]. by intros t' c' [= <- <-].
  - destruct (table_insert t (as_bytes k) v) as [e|t1] eqn:Ei; cbn; [done|]. split; [done|].
    intros t' c' [= <- <-]. by apply table_insert_law in Ei as [-> ->].
Qed.

Lemma insert_all_app es es' m m1 : insert_all m es = Some m1 -> insert_all m (es ++ es') = insert_all m1 es'.
Proof.
  revert m. induction es as [|[k b] es IH]; intros m; cbn; [by intros [= ->]|].
  destruct (m !! as_bytes k); [destruct (bool_decide _)|]; try done; apply IH.
Qed.

Lemma batch_loop_ok es : forall t c m done_es,
  insert_all m done_es = Some (txn_rows t) -> (c = false -> txn_rows t = m) ->
  body_ok m (done_es ++ es) (txn_durability t) (try_fold batch_entry_step (t, c) es).
Proof.
  induction es as [|[k b] es IH]; intros t c m done_es Hi Hc; cbn [try_fold].
  - rewrite app_nil_r. split; [done|]. by intros ? ? [= <- <-].
  - unfold batch_entry_step at 1. cbn [fst snd].
    match goal with |- context [write_entry ?a ?b' ?c' k b t] => destruct (write_entry_ok a b' c' k b t) as [Hnp Hok]; destruct (write_entry a b' c' k b t) as [[t1 c1]|e|] eqn:Ew end; [|done|done].
    cbn [rbind]. destruct (Hok _ _ eq_refl) as (Hi1 & Hu & Hc1).
    rewrite <- Hu. replace (done_es ++ (k, b) :: es) with ((done_es ++ [(k, b)]) ++ es) by by rewrite <- app_assoc.
    apply IH; [by rewrite (insert_all_app _ _ _ _ Hi)|]. intros [-> ->]%orb_false_iff. rewrite Hc1 by done. by apply Hc.
Qed.

(** *** A write *)

(** What a write that was asked to insert [es] does. *)
Definition write_outcome (s : store) (es : list (BlockHash * bytes)) (r : result BlockStoreError unit) (s' : store) : Prop :=
  r <> Panic /\ redb_inv s' /\ same_setup s s' /\ handles s' = handles s
  /\ (r = Ok tt -> insert_all (store_rows s) es = Some (store_rows s'))
  /\ (r <> Ok tt -> store_rows s' = store_rows s)
  /\ (durability_mode s = Durable -> store_rows s' ⊆ store_durable s').

Lemma durable_now (s : store) : redb_inv s -> durability_mode s = Durable -> store_rows s ⊆ store_durable s.
Proof. intros (_ & Hp & Hd) Hm. apply Hd. destruct (pending_flush s); [|done]. destruct (Hp eq_refl) as [_ Hf]. congruence. Qed.

(** A write that fails, or has nothing to insert, keeps the rows. *)
Lemma unchanged_outcome (s : store) es r d' :
  redb_inv s -> r <> Panic -> rows d' = store_rows s ->
  (durable_rows d' = store_durable s \/ store_rows s ⊆ durable_rows d') ->
  (r = Ok tt -> insert_all (store_rows s) es = Some (store_rows s)) ->
  write_outcome s es r (with_database d' s).
Proof.
  intros Hi Hr Hd Hu Hok. destruct (with_database_inv s d' Hi Hd Hu) as [Hi' Hs].
  assert (store_rows (with_database d' s) = store_rows s) as E by (unfold store_rows; by rewrite with_database_state).
  split_and!; try done.
  - intros ->. rewrite E. by apply Hok.
  - intros Hm. by apply durable_now.
Qed.

(** A write that committed new rows. *)
Lemma committed_outcome (s : store) es d' :
  redb_inv s -> is_Some (as_writable (database s)) -> insert_all (store_rows s) es = Some (rows d') ->
  (durability_mode s = Durable -> durable_rows d' = rows d') ->
  write_outcome s es (Ok tt)
    ((if bool_decide (durability_mode s = Fast) then with_pending true else id) (with_database d' s)).
Proof.
  intros (Hm & Hp & _) Hw Hins Hdur. apply Hm in Hw as Ha.
  set (s1 := with_database d' s).
  assert (store_rows s1 = rows d' /\ store_durable s1 = durable_rows d') as [Er Eu]
    by (unfold store_rows, store_durable; subst s1; by rewrite with_database_state).
  assert (access_mode s1 = ReadWrite <-> is_Some (as_writable (database s1))) as Hm1
    by (subst s1; by rewrite with_database_writable).
  destruct (durability_mode s) eqn:Em.
  - rewrite bool_decide_eq_false_2 by done. cbn [id]. unfold write_outcome, redb_inv.
    rewrite Em, Er, Eu, Hdur by done. split_and!; try done. intros Hpf. destruct (Hp Hpf). congruence.
  - rewrite bool_decide_eq_true_2 by done.
    change (store_rows s1) with (store_rows (with_pending true s1)) in Er.
    unfold write_outcome, redb_inv. rewrite Em, Er. split_and!; try done.
Qed.

Lemma write_with_ok (s : store) d a b c body es r s' :
  redb_inv s -> as_writable (database s) = Some d ->
  (forall t, txn_rows t = rows d -> body_ok (rows d) es (txn_durability t) (body t)) ->
  write_with d a b c body s = (r, s') -> write_outcome s es r s'.
Proof.
  intros Hi Hw Hb. pose proof (writable_state s d Hw) as Hd. unfold write_with.
  assert (store_rows s = rows d /\ store_durable s = durable_rows d) as [Er Eu] by (unfold store_rows, store_durable; by rewrite Hd).
  destruct (begin_write d) as [[e|t] d1] eqn:Eb; destruct (begin_write_law _ _ _ Eb) as (Hr1 & Hu1 & Ht).
  { intros [= <- <-]. apply unchanged_outcome; [done..| |left|]; congruence. }
  destruct (Ht t eq_refl) as [Htr Htd]. clear Ht.
  destruct (drop_txn_law t d1) as [Hdr Hdu].
  set (go := (if bool_decide _ then _ else _)).
  assert (no_panic go /\ forall t1, go = Ok t1 -> txn_rows t1 = rows d
    /\ txn_durability t1 = match durability_mode s with Fast => NotDurable | Durable => Immediate end) as [Hgp Hgo].
  { subst go. destruct (durability_mode s) eqn:Em; cbn.
    - rewrite bool_decide_eq_false_2 by done. split; [done|]. intros t1 [= <-]. by rewrite Htd.
    - rewrite bool_decide_eq_true_2 by done. split; [apply context_no_panic|]. intros t1 Hs%context_ok.
      apply set_durability_law in Hs as [-> ->]. done. }
  destruct go as [t1|e|]; [|intros [= <- <-]|done]; cbn [rbind].
  2: { apply unchanged_outcome; [done..| |left|]; congruence. }
  destruct (Hgo t1 eq_refl) as [Ht1 Hd1]. clear Hgo. destruct (Hb t1 Ht1) as [Hbp Hbo].
  destruct (body t1) as [[t2 k]|e|]; [|intros [= <- <-]|done].
  2: { apply unchanged_outcome; [done..| |left|]; congruence. }
  destruct (Hbo _ _ eq_refl) as (Hins & Hdur & Hk).
  destruct k.
  - destruct (drop_txn_law t2 d1) as [Hdr2 Hdu2].
    destruct (commit t2 d1) as [[e|[]] d2] eqn:Ec; pose proof (commit_law _ _ _ _ Ec) as Hc; cbn in Hc.
    + intros [= <- <-]. destruct Hc as [Hcr Hcu]. apply insert_all_spec in Hins as (Hsub & _).
      apply unchanged_outcome; [done|done|congruence| |done].
      destruct Hcu as [->| ->]; [left; congruence|right]. by rewrite Er.
    + intros [= <- <-]. destruct Hc as [Hcr Hcu]. rewrite Hdur, Hd1 in Hcu.
      apply (committed_outcome s es d2); [done|by exists d|by rewrite Er, Hcr|].
      intros Hm. by rewrite Hm in Hcu; rewrite Hcu, Hcr.
  - destruct (drop_txn_law t2 d1) as [Hdr2 Hdu2]. intros [= <- <-].
    apply unchanged_outcome; [done|done|congruence|left; congruence|]. intros _. rewrite Er, Hins. by rewrite Hk.
Qed.

Lemma refused_outcome (s : store) es e : redb_inv s -> write_outcome s es (Err e) s.
Proof. intros Hi. split_and!; try done. intros Hm. by apply durable_now. Qed.

Lemma writable_database_cases w (s : store) : redb_inv s ->
  match access_mode s with
  | ReadWrite => exists d, writable_database w s = Ok d /\ as_writable (database s) = Some d
  | ReadOnly => exists e, writable_database w s = Err e
  end.
Proof.
  intros (Hm & _). unfold writable_database, ensure_writable. destruct (access_mode s) eqn:Ea; cbn; [|by eexists].
  destruct (proj1 Hm eq_refl) as [d ->]. by exists d.
Qed.

Lemma redb_put_ok (s : store) k b r s' :
  redb_inv s -> redb_put_block_bytes k b s = (r, s') -> write_outcome s [(k, b)] r s'.
Proof.
  intros Hi. unfold redb_put_block_bytes.
  pose proof (writable_database_cases ("persist block " +:+ BlockHash_to_string k)%stdpp s Hi) as Hc.
  destruct (access_mode s); [destruct Hc as (d & -> & Hd)|destruct Hc as [e ->]; intros [= <- <-]; by apply refused_outcome].
  intros Hw. eapply write_with_ok; [done|exact Hd| |exact Hw]. intros t Ht. cbn beta.
  destruct (open_table t) as [e|t1] eqn:Eo; cbn [context rbind]; [done|].
  apply open_table_law in Eo as [Hr Hu]. rewrite <- Hu, <- Ht, <- Hr. apply write_entry_ok.
Qed.

Lemma redb_batch_ok (s : store) es r s' :
  redb_inv s -> redb_put_block_bytes_batch es s = (r, s') -> write_outcome s es r s'.
Proof.
  intros Hi. unfold redb_put_block_bytes_batch.
  pose proof (writable_database_cases "persist a block batch" s Hi) as Hc.
  destruct (access_mode s); [destruct Hc as (d & -> & Hd)|destruct Hc as [e ->]; intros [= <- <-]; by apply refused_outcome].
  destruct es as [|e0 es].
  { intros [= <- <-]. split_and!; try done. intros Hm. by apply durable_now. }
  intros Hw. eapply write_with_ok; [done|exact Hd| |exact Hw]. intros t Ht. cbn beta.
  destruct (open_table t) as [e|t1] eqn:Eo; cbn [context rbind]; [done|].
  apply open_table_law in Eo as [Hr Hu]. rewrite <- Hu, <- Ht, <- Hr.
  by apply (batch_loop_ok _ _ _ _ []).
Qed.

(** *** The other operations *)

(** An operation that changes no row. *)
Definition keeps (s s' : store) : Prop := redb_inv s' /\ same_setup s s' /\ store_rows s' = store_rows s.

Lemma keeps_refl (s : store) : redb_inv s -> keeps s s.
Proof. done. Qed.
Lemma keeps_trans (s1 s2 s3 : store) : keeps s1 s2 -> keeps s2 s3 -> keeps s1 s3.
Proof. intros (_ & ? & ?) (? & ? & ?). split_and!; [done|by etransitivity|congruence]. Qed.
Lemma keeps_database (s : store) d' : redb_inv s -> rows d' = store_rows s ->
  (durable_rows d' = store_durable s \/ store_rows s ⊆ durable_rows d') -> keeps s (with_database d' s).
Proof.
  intros Hi Hr Hu. destruct (with_database_inv s d' Hi Hr Hu). split_and!; [done..|].
  unfold store_rows. by rewrite with_database_state.
Qed.

Lemma flush_ok a b (s : store) r s' : redb_inv s -> flush_pending_writes a b s = (r, s') ->
  r <> Panic /\ keeps s s' /\ handles s' = handles s /\ (r = Ok tt -> pending_flush s' = false).
Proof.
  intros Hi. unfold flush_pending_writes.
  destruct (negb _ || negb _ || negb _) eqn:Eg.
  { intros [= <- <-]. split_and!; [done|by apply keeps_refl|done|]. intros _.
    destruct (pending_flush s) eqn:Ep; [|done]. destruct Hi as (_ & Hp & _). destruct (Hp Ep) as [Ha Hf].
    by rewrite Ha, Hf in Eg. }
  apply orb_false_iff in Eg as [[Ea%negb_false_iff%bool_decide_eq_true _]%orb_false_iff _].
  destruct (proj1 (proj1 Hi) Ea) as [d Hw]. rewrite Hw. pose proof (writable_state s d Hw) as Hd.
  assert (store_rows s = rows d /\ store_durable s = durable_rows d) as [Er Eu] by (unfold store_rows, store_durable; by rewrite Hd).
  destruct (begin_write d) as [[e|t] d1] eqn:Eb; destruct (begin_write_law _ _ _ Eb) as (Hr1 & Hu1 & Ht).
  { intros [= <- <-]. split_and!; [done| |done|done]. apply keeps_database; [done|congruence|left; congruence]. }
  destruct (Ht t eq_refl) as [Htr _]. destruct (set_durability t Immediate) as [e|t1] eqn:Es.
  { intros [= <- <-]. destruct (drop_txn_law t d1). split_and!; [done| |done|done].
    apply keeps_database; [done|congruence|left; congruence]. }
  apply set_durability_law in Es as [Hs1 Hs2].
  destruct (commit t1 d1) as [[e|u] d2] eqn:Ec; pose proof (commit_law _ _ _ _ Ec) as Hc; cbn in Hc;
    destruct Hc as [Hcr Hcu]; intros [= <- <-].
  - split_and!; [done| |done|done]. apply keeps_database; [done|congruence|].
    destruct Hcu; [left; congruence|right; rewrite Er; by replace (durable_rows d2) with (rows d) by congruence].
  - rewrite Hs2 in Hcu. assert (keeps s (with_database d2 s)) as (Hk & Hsm & Hrw).
    { apply keeps_database; [done|congruence|right]. rewrite Er. by replace (durable_rows d2) with (rows d) by congruence. }
    split_and!; [done| |done|done]. split_and!; [|done|done].
    destruct Hk as (Hm & _ & _). split_and!; [done|done|]. intros _.
    change (store_rows (with_database d2 s) ⊆ store_durable (with_database d2 s)).
    unfold store_rows, store_durable. rewrite with_database_state, Hcu, Hcr. done.
Qed.

Lemma compact_ok (s : store) r s' : redb_inv s -> compact_now s = (r, s') ->
  r <> Panic /\ keeps s s' /\ handles s' = handles s.
Proof.
  intros Hi. unfold compact_now, sbind, sret, ensure_writable.
  destruct (negb _); [|intros [= <- <-]; by split_and!; try apply keeps_refl].
  destruct (handles s =? 1)%nat; [|intros [= <- <-]; by split_and!; try apply keeps_refl].
  destruct (flush_pending_writes_before_compaction s) as [q s1] eqn:Ef.
  destruct (flush_ok _ _ _ _ _ Hi Ef) as (Hp & Hk & Hh & _). destruct q as [[]|e|]; [|intros [= <- <-]; done|done].
  destruct (as_writable (database s1)) as [d|] eqn:Hw; [|intros [= <- <-]; done].
  pose proof (writable_state s1 d Hw) as Hd.
  assert (forall d', rows d' = rows d -> durable_rows d' = durable_rows d \/ durable_rows d' = rows d ->
    keeps s (with_database d' s1)) as Hkd.
  { intros d' Hr Hu. eapply keeps_trans; [exact Hk|]. destruct Hk as (Hi1 & _).
    apply keeps_database; [done|unfold store_rows; by rewrite Hd|unfold store_rows, store_durable; rewrite Hd].
    destruct Hu as [->| ->]; [by left|by right]. }
  destruct (compact d) as [[e|o] d1] eqn:Ec; destruct (compact_law _ _ _ Ec) as [Hr Hu]; intros [= <- <-];
    (split_and!; [done|by apply Hkd|done]).
Qed.

Lemma handles_keeps n (s : store) : redb_inv s -> keeps s (with_handles n s).
Proof. done. Qed.

Lemma drop_shared_ok (s : store) msg s' : redb_inv s -> drop_shared_state s = (msg, s') ->
  keeps s s' /\ (msg = None -> store_rows s' ⊆ store_durable s').
Proof.
  intros Hi. unfold drop_shared_state. destruct (flush_pending_writes_on_shutdown s) as [q s1] eqn:Ef.
  destruct (flush_ok _ _ _ _ _ Hi Ef) as (Hp & Hk & _ & Hf). destruct q as [[]|e|]; intros [= <- <-]; [|done..].
  split; [done|]. intros _. destruct Hk as ((_ & _ & Hd) & _). by apply Hd, Hf.
Qed.

Lemma drop_ok (s : store) msg s' : redb_inv s -> drop_handle s = (msg, s') ->
  keeps s s' /\ ((handles s <= 1)%nat -> msg = None -> store_rows s' ⊆ store_durable s').
Proof.
  intros Hi. unfold drop_handle. destruct (handles (with_handles (pred (handles s)) s) =? 0)%nat eqn:E0; intros Hd.
  - destruct (drop_shared_ok (with_handles (pred (handles s)) s) msg s' Hi Hd) as [Hk Hr]. split; [exact Hk|]. intros _. exact Hr.
  - injection Hd as <- <-. split; [exact (handles_keeps _ s Hi)|]. cbn in E0. apply Nat.eqb_neq in E0. lia.
Qed.

(** *** A history of operations *)
Inductive op :=
| OpPut (k : BlockHash) (b : bytes) | OpPutBatch (es : list (BlockHash * bytes)) | OpGet (k : BlockHash)
| OpCompact | OpClone | OpDrop | OpSetTelemetry (callback : option telemetry_callback).

Definition step (o : op) (s : store) : store :=
  match o with
  | OpPut k b => (put_block_bytes k b s).2
  | OpPutBatch es => (put_block_bytes_batch es s).2
  | OpGet k => (get_block_bytes k s).2
  | OpCompact => (compact_now s).2
  | OpClone => clone_handle s
  | OpDrop => (drop_handle s).2
  | OpSetTelemetry callback => (set_telemetry_callback callback s).2
  end.

Lemma outcome_grows (s : store) es r s' : write_outcome s es r s' -> store_rows s ⊆ store_rows s'.
Proof.
  intros (Hp & _ & _ & _ & Hok & Hko & _). destruct r as [[]|e|]; [|by rewrite Hko|done].
  by destruct (insert_all_spec _ _ _ (Hok eq_refl)) as [].
Qed.

Lemma step_ok o (s : store) : redb_inv s ->
  redb_inv (step o s) /\ same_setup s (step o s) /\ store_rows s ⊆ store_rows (step o s).
Proof.
  intros Hi. destruct o as [k b|es|k| | | |cb]; cbn [step put_block_bytes put_block_bytes_batch get_block_bytes redb_store].
  - destruct (redb_put_block_bytes k b s) as [r s'] eqn:E. apply redb_put_ok in E; [|done].
    split_and!; [by destruct E as (? & ? & _)|by destruct E as (? & ? & ? & _)|by eapply outcome_grows].
  - destruct (redb_put_block_bytes_batch es s) as [r s'] eqn:E. apply redb_batch_ok in E; [|done].
    split_and!; [by destruct E as (? & ? & _)|by destruct E as (? & ? & ? & _)|by eapply outcome_grows].
  - done.
  - destruct (compact_now s) as [r s'] eqn:E. apply compact_ok in E as (_ & (? & ? & Hr) & _); [|done]. cbn. by rewrite Hr.
  - done.
  - destruct (drop_handle s) as [r s'] eqn:E. apply drop_ok in E as [(? & ? & Hr) _]; [|done]. cbn. by rewrite Hr.
  - unfold set_telemetry_callback. by destruct (lock_poisoned _).
Qed.

Lemma redb_history_ok ops : forall s : store, redb_inv s ->
  let s' := fold_left (fun s o => step o s) ops s in
  redb_inv s' /\ same_setup s s' /\ store_rows s ⊆ store_rows s'.
Proof.
  induction ops as [|o ops IH]; intros s Hi; cbn; [done|].
  destruct (step_ok o s Hi) as (Hi1 & Hs1 & Hr1). destruct (IH _ Hi1) as (Hi2 & Hs2 & Hr2).
  split_and!; [done|by etransitivity|by etransitivity].
Qed.
End correct.

Section contracts.
Context {D : Type} `{RedbLaws D}.
Notation store := (RedbBlockStore D).

Lemma redb_get_ok (s : store) k r s' : redb_get_block_bytes k s = (r, s') ->
  s' = s /\ r <> Panic /\ forall o, r = Ok o -> o = store_rows s !! as_bytes k.
Proof.
  unfold redb_get_block_bytes. intros [= <- <-]. split; [done|].
  destruct (begin_read _) as [e|t] eqn:Eb; cbn; [done|]. apply begin_read_law in Eb.
  destruct (read_open_table t) as [e|t1] eqn:Eo; cbn; [done|]. apply read_open_law in Eo.
  destruct (read_get t1 (as_bytes k)) as [e|o] eqn:Eg; cbn; [done|]. apply read_get_law in Eg as ->.
  split; [done|]. intros ? [= <-]. unfold store_rows. by rewrite Eo, Eb.
Qed.

Lemma outcome_put (s : store) k b r s' : write_outcome s [(k, b)] r s' ->
  (r = Ok tt -> store_rows s' !! as_bytes k = Some b)
  /\ forall j c, store_rows s' !! as_bytes j = Some c -> store_rows s !! as_bytes j = Some c \/ (j = k /\ c = b).
Proof.
  intros (Hp & _ & _ & _ & Hok & Hko & _). destruct r as [[]|e|]; [|rewrite Hko by done; split; [done|by left]|done].
  destruct (insert_all_spec _ _ _ (Hok eq_refl)) as (_ & Hin & Hor). split.
  - intros _. apply Hin. set_solver.
  - intros j c [?|(i & He%BlockHash_eq & Hi)]%Hor; [by left|right]. subst i. set_solver.
Qed.

#[export] Program Instance redb_store_laws : StoreLaws store := {|
  store_ok := redb_inv;
  stored s k b := store_rows s !! as_bytes k = Some b
|}.
Next Obligation.
  intros s k r s' Hi Hg. destruct (redb_get_ok s k r s' Hg) as (-> & Hp & Ho). split_and!; [done..| |done].
  intros b Hr. symmetry. by apply Ho.
Qed.
Next Obligation.
  intros s k b r s' Hi Hw. apply redb_put_ok in Hw; [|done]. pose proof (outcome_put s k b r s' Hw) as [_ Hj].
  destruct Hw as (Hp & Hi' & _). done.
Qed.

#[export] Program Instance redb_durable : DurableStore store := {|
  durable_ok := redb_inv;
  holds s k b := store_rows s !! as_bytes k = Some b
|}.
Next Obligation.
  intros s k b r s' Hi Hw. apply redb_put_ok in Hw; [|done]. pose proof (outcome_put s k b r s' Hw) as [Hk _].
  pose proof (outcome_grows _ _ _ _ Hw) as Hg. destruct Hw as (Hp & Hi' & _). split_and!; [done..| |done].
  intros j c Hj. by eapply lookup_weaken.
Qed.
Next Obligation.
  intros s k b r s' Hi Hb Hg. destruct (redb_get_ok s k r s' Hg) as (_ & Hp & Ho).
  destruct r as [o|e|]; [left|by right; exists e|done]. by rewrite (Ho o eq_refl), Hb.
Qed.

(** ** Properties *)

(** C36 A batch write is one atomic insertion: when it succeeds the rows are the old
    ones with every entry inserted in order and each entry reads back; when it fails no
    row changed; a batch that conflicts with the rows or within itself does not succeed. *)
Theorem redb_batch_atomic (s : store) es r s' :
  redb_inv s -> put_block_bytes_batch es s = (r, s') ->
  r <> Panic /\ redb_inv s'
  /\ match r with
     | Ok _ => insert_all (store_rows s) es = Some (store_rows s')
         /\ forall k b, (k, b) ∈ es -> store_rows s' !! as_bytes k = Some b
     | _ => store_rows s' = store_rows s
     end
  /\ (insert_all (store_rows s) es = None -> r <> Ok tt).
Proof.
  intros Hi Hw. apply redb_batch_ok in Hw as (Hp & Hi' & _ & _ & Hok & Hko & _); [|done].
  split_and!; [done|done| |].
  - destruct r as [[]|e|]; [|by apply Hko|done]. pose proof (Hok eq_refl) as Hins. split; [done|].
    by destruct (insert_all_spec _ _ _ Hins) as (_ & Hin & _).
  - intros Hn Hr. by rewrite Hok in Hn.
Qed.

(** C34 Through any history of operations on an open redb store no row is lost or
    replaced. In durable mode every row a reader sees survives a crash; in fast mode it
    does whenever nothing is pending, and after the last handle was dropped without a
    message. *)
Theorem redb_durability (s : store) ops :
  redb_inv s ->
  let s' := fold_left (fun s o => step o s) ops s in
  store_rows s ⊆ store_rows s'
  /\ (durability_mode s = Durable \/ pending_flush s' = false -> store_rows s' ⊆ store_durable s')
  /\ forall s'', (handles s' <= 1)%nat -> drop_handle s' = (None, s'') ->
       store_rows s'' = store_rows s' /\ store_rows s' ⊆ store_durable s''.
Proof.
  intros Hi s'. destruct (redb_history_ok ops s Hi) as (Hi' & (_ & _ & Hm) & Hr). fold s' in Hi', Hm, Hr.
  split_and!; [done| |].
  - intros [Hd|Hp]; [apply durable_now; [done|congruence]|]. destruct Hi' as (_ & _ & Hd). by apply Hd.
  - intros s'' Hh Hd. destruct (drop_ok s' None s'' Hi' Hd) as [(_ & _ & Hk) Hf]. split; [done|].
    rewrite <- Hk. by apply Hf.
Qed.

Lemma enumerated_key_ok k b h : enumerated_key (inr (k, b)) = Ok h <-> as_bytes h = k.
Proof.
  unfold enumerated_key. cbn. rewrite ok_or_ok. split; [apply hash_of_bytes_Some|]. intros <-. apply hash_of_as_bytes.
Qed.

(** The stream of identifiers, when it opens, is exactly the identifiers with a row,
    each once and in ascending order; it opens only when every key of the table is an
    identifier. *)
Theorem redb_enumeration (s : store) ids :
  list_block_ids s = Ok ids ->
  StronglySorted (cmp_lt hash_cmp) ids
  /\ (forall k, k ∈ ids <-> is_Some (store_rows s !! as_bytes k))
  /\ forall key, is_Some (store_rows s !! key) -> exists k, key = as_bytes k.
Proof.
  unfold list_block_ids. cbn [iter_block_ids redb_store]. unfold redb_iter_block_ids.
  destruct (begin_read _) as [e|t] eqn:Eb; cbn; [done|]. apply begin_read_law in Eb.
  destruct (read_open_table t) as [e|t1] eqn:Eo; cbn; [done|]. apply read_open_law in Eo.
  destruct (read_iter t1) as [e|items] eqn:Ei; cbn; [done|].
  destruct (collect_map enumerated_key items) as [hs|e|] eqn:Ec; cbn; [|done..].
  rewrite collect_map_map, collect_map_id by done. intros [= ->].
  apply collect_map_ok in Ec. assert (exists l, items = map inr l /\ map fst l = map as_bytes ids) as (l & -> & Hl).
  { clear -Ec. induction Ec as [|[e|[k b]] h items ids Hh _ (l & -> & Hl)]; [by exists []| |].
    - unfold enumerated_key in Hh. done.
    - exists ((k, b) :: l). cbn. apply enumerated_key_ok in Hh as <-. by rewrite Hl. }
  destruct (read_iter_law _ _ l Ei eq_refl) as [Hs Hp]. rewrite Eo, Eb in Hp. fold (store_rows s) in Hp.
  assert (forall key, is_Some (store_rows s !! key) <-> key ∈ map as_bytes ids) as Hkeys.
  { intros key. rewrite <- Hl. split.
    - intros [v Hv]. apply list_elem_of_fmap. exists (key, v). split; [done|]. rewrite Hp. by apply elem_of_map_to_list.
    - intros ([k v] & -> & Hin)%list_elem_of_fmap. exists v. rewrite Hp in Hin. by apply elem_of_map_to_list. }
  split_and!.
  - clear -Hs Hl. revert l Hs Hl. induction ids as [|h ids IH]; intros [|[k b] l] Hs Hl; try done; [constructor|].
    injection Hl as -> Hl. apply StronglySorted_inv in Hs as [Hs Hf]. constructor; [by eapply IH|].
    rewrite Forall_forall in Hf. apply Forall_forall. intros j Hj.
    assert (as_bytes j ∈ map fst l) as ([k' b'] & Hk' & Hin)%list_elem_of_fmap by (rewrite Hl; apply list_elem_of_fmap; eauto).
    specialize (Hf _ Hin). cbn in *. unfold cmp_lt, hash_cmp. by rewrite Hk'.
  - intros k. rewrite Hkeys, list_elem_of_fmap. split; [eauto|]. by intros (j & ->%BlockHash_eq & ?).
  - intros key (k & -> & _)%Hkeys%list_elem_of_fmap. by exists k.
Qed.
End contracts.

(** ** Opening

    What the calls that open a database promise: the rows of a database just opened
    are those on disk, and [read_exact] fills its buffer. *)
Class HostLaws (F D : Type) `{HostFiles F D} `{RedbLaws D} := {
  create_law p f d f' : builder_create p f = (inr d, f') -> rows d ⊆ durable_rows d;
  open_read_only_law p f d : builder_open_read_only p f = inr d -> rows d ⊆ durable_rows d;
  read_exact_law file n b : host_read_exact file n = inr b -> length b = n
}.

Lemma io_context_no_panic {A} c (r : io A) : no_panic (io_context c r).
Proof. by destruct r. Qed.

Section opening.
Context {F D : Type} `{HostLaws F D}.

Lemma requires_recovery_no_panic p (f : F) : no_panic (database_requires_recovery (D := D) p f).
Proof.
  unfold database_requires_recovery. apply rbind_no_panic; [apply io_context_no_panic|]. intros file _.
  apply rbind_no_panic; [apply io_context_no_panic|]. intros file' _.
  destruct (host_read_exact file' 1) as [e|b] eqn:Er; cbn; [done|]. apply read_exact_law in Er.
  by destruct b.
Qed.

Lemma open_database_ok p mode (f : F) r f' : open_database (D := D) p mode f = (r, f') ->
  no_panic r /\ (mode = ReadOnly -> f' = f)
  /\ forall db, r = Ok db -> rows (database_state db) ⊆ durable_rows (database_state db)
     /\ (mode = ReadWrite <-> is_Some (as_writable db))
     /\ (mode = ReadOnly -> host_is_file (D := D) p f = true /\ database_requires_recovery (D := D) p f = Ok false).
Proof.
  unfold open_database. destruct mode.
  - destruct (builder_create p f) as [[e|d] f1] eqn:Eb; intros [= <- <-]; cbn; [done|].
    split_and!; [done..|]. intros db [= <-]. apply create_law in Eb. done.
  - intros [= <- <-]. destruct (host_is_file p f) eqn:Ef; [|done].
    pose proof (requires_recovery_no_panic p f) as Hn.
    destruct (database_requires_recovery p f) as [[]|e|]; cbn; [done| |done|done].
    destruct (builder_open_read_only p f) as [e|d] eqn:Eo; cbn; [done|]. apply open_read_only_law in Eo.
    split_and!; [done..|]. intros db [= <-]. split_and!; [done| |done]. split; [done|]. by intros [? ?].
Qed.

Lemma redb_initialize_ok (db : RedbDatabase D) p db' : initialize_blocks_table db p = Ok db' ->
  is_Some (as_writable db') /\ rows (database_state db') ⊆ durable_rows (database_state db').
Proof.
  unfold initialize_blocks_table. destruct (as_writable db) as [d|]; cbn; [|done].
  destruct (begin_write d) as [[e|t] d1] eqn:Eb; cbn; [done|].
  destruct (begin_write_law _ _ _ Eb) as (_ & _ & Ht). destruct (Ht t eq_refl) as [_ Hu].
  destruct (open_table t) as [e|t1] eqn:Eo; cbn; [done|]. apply open_table_law in Eo as [_ Hu1].
  destruct (commit t1 d1) as [[e|u] d2] eqn:Ec; cbn; [done|]. intros [= <-].
  apply commit_law in Ec as [Hr Hd]. rewrite Hu1, Hu in Hd. split; [done|]. cbn. by rewrite Hr, Hd.
Qed.

Lemma initialize_no_panic (db : RedbDatabase D) p : no_panic (initialize_blocks_table db p).
Proof.
  unfold initialize_blocks_table. destruct (as_writable db) as [d|]; cbn; [|done].
  destruct (begin_write d) as [[e|t] d1]; cbn; [done|].
  destruct (open_table t) as [e|t1]; cbn; [done|]. by destruct (commit t1 d1) as [[e|u] d2].
Qed.

(** Opening a store never panics; a store it returns satisfies the invariant of the
    operations, with one handle and nothing pending, in the mode that was asked for.
    Opening for reading touches no file, and succeeds only on a database file that is
    there and does not ask for recovery. *)
Theorem redb_opening root mode durability callback (f : F) r f' :
  new_with_options_and_telemetry (D := D) root mode durability callback f = (r, f') ->
  r <> Panic /\ (mode = ReadOnly -> f' = f)
  /\ forall s, r = Ok s ->
     redb_inv s /\ handles s = 1%nat /\ pending_flush s = false
     /\ access_mode s = mode /\ durability_mode s = durability
     /\ (mode = ReadOnly -> let p := redb_root s ++ [DATABASE_FILE_NAME] in
           host_is_file (D := D) p f = true /\ database_requires_recovery (D := D) p f = Ok false).
Proof.
  unfold new_with_options_and_telemetry. destruct (match mode with ReadWrite => _ | ReadOnly => _ end) as [c f1] eqn:Ec.
  assert (mode = ReadOnly -> f1 = f) as Hf1 by (by intros ->; injection Ec).
  set (m := let? _ := io_context _ c in _).
  assert (no_panic m) as Hm.
  { subst m. apply rbind_no_panic; [apply io_context_no_panic|]. intros _ _.
    apply rbind_no_panic; [apply io_context_no_panic|]. intros root' _.
    apply rbind_no_panic; [apply io_context_no_panic|]. by intros []. }
  destruct m as [root'|e|]; [|by intros [= <- <-]|done].
  destruct (open_database _ mode f1) as [o f2] eqn:Eo. destruct (open_database_ok _ _ _ _ _ Eo) as (Hnp & Hro & Hdb).
  intros [= <- <-]. destruct o as [db|e|]; [|split_and!; [done| |done]; intros Hm'; by rewrite Hro, Hf1|done].
  destruct (Hdb db eq_refl) as (Hrows & Hw & Hfile). cbn [rbind].
  set (q := match mode with ReadWrite => _ | ReadOnly => _ end).
  assert (no_panic q) as Hq by (subst q; destruct mode; [apply initialize_no_panic|done]).
  split; [by destruct q|]. split; [intros Hm'; by rewrite Hro, Hf1|].
  intros s Hs. destruct q as [db'|e|] eqn:Eq; cbn [rbind] in Hs; [|done..]. injection Hs as <-. cbn.
  assert (rows (database_state db') ⊆ durable_rows (database_state db') /\ (mode = ReadWrite <-> is_Some (as_writable db'))) as [Hr' Hw'].
  { subst q. destruct mode; [|by injection Eq as <-]. destruct (redb_initialize_ok _ _ _ Eq). done. }
  split_and!; try done. intros Hm'. rewrite <- (Hf1 Hm'). by apply Hfile.
Qed.
End opening.

(** ** Witnesses: a database in memory *)
Record mem_db := { mem_rows : gmap bytes bytes; mem_durable : gmap bytes bytes }.

#[export] Instance mem_ops : RedbOps mem_db := {|
  write_txn := (gmap bytes bytes * Durability)%type;
  read_table := gmap bytes bytes;
  begin_write d := (inr (mem_rows d, Immediate), d);
  set_durability t u := inr (t.1, u);
  open_table t := inr t;
  table_get t k := inr (t.1 !! k);
  table_insert t k v := inr (<[k := v]> t.1, t.2);
  commit t d := (inr tt, {| mem_rows := t.1;
    mem_durable := match t.2 with Immediate => t.1 | NotDurable => mem_durable d end |});
  drop_txn _ d := d;
  begin_read d := inr (mem_rows d);
  read_open_table t := inr t;
  read_get t k := inr (t !! k);
  read_iter t := inr (map inr (sort_by (fun x y => bytes_cmp x.1 y.1) (map_to_list t)));
  compact d := (inr true, d)
|}.

#[local] Instance row_cmp_total : TotalCmp (fun x y : bytes * bytes => bytes_cmp x.1 y.1).
Proof. apply (comap_total fst bytes_cmp). Qed.

#[export] Program Instance mem_laws : RedbLaws mem_db := {|
  rows := mem_rows;
  durable_rows := mem_durable;
  txn_rows := fst;
  txn_durability := snd;
  table_rows t := t
|}.
Next Obligation. intros d r d' [= <- <-]. split_and!; [done..|]. by intros t [= <-]. Qed.
Next Obligation. by intros t u t' [= <-]. Qed.
Next Obligation. by intros t t' [= <-]. Qed.
Next Obligation. by intros t k r [= <-]. Qed.
Next Obligation. by intros t k v t' [= <-]. Qed.
Next Obligation. intros [t u] d r d' [= <- <-]. by destruct u. Qed.
Next Obligation. done. Qed.
Next Obligation. by intros d t [= <-]. Qed.
Next Obligation. by intros t t' [= <-]. Qed.
Next Obligation. by intros t k r [= <-]. Qed.
Next Obligation.
  intros t items l [= <-] He. apply (inj (fmap inr)) in He as <-.
  split; [|apply sort_by_Permutation].
  apply sort_by_strict; [apply _|apply NoDup_map_to_list|].
  intros [k v] [k2 w] Hk%elem_of_map_to_list Hw%elem_of_map_to_list He%bytes_cmp_eq. cbn in He, Hk, Hw. congruence.
Qed.
Next Obligation. intros d r d' [= <- <-]. split; [done|by left]. Qed.

(** A disk with the rows of one database on it, or without one. *)
Definition opened (m : gmap bytes bytes) : mem_db := {| mem_rows := m; mem_durable := m |}.

#[export] Instance mem_host : HostFiles (option (gmap bytes bytes)) mem_db := {|
  host_create_dir_all _ f := (inr tt, f);
  host_canonicalize p _ := inr p;
  host_is_dir _ _ := inr true;
  host_is_file _ f := match f with Some _ => true | None => false end;
  host_file := unit;
  host_open _ _ := inr tt;
  host_seek _ _ := inr tt;
  host_read_exact _ n := inr (replicate n Byte.x01);
  builder_create _ f := match f with Some m => (inr (opened m), f) | None => (inr (opened ∅), Some ∅) end;
  builder_open_read_only _ f := match f with Some m => inr (opened m) | None => inl "no such file" end
|}.

#[export] Program Instance mem_host_laws : HostLaws (option (gmap bytes bytes)) mem_db.
Next Obligation. by intros p [m|] d f' [= <- <-]. Qed.
Next Obligation. by intros p [m|] d; [intros [= <-]|]. Qed.
Next Obligation. intros file n b [= <-]. apply length_replicate. Qed.

(** A store in fast mode, two blocks and a conflicting one. *)
Definition sample_store (mode : RedbBlockStoreDurabilityMode) : RedbBlockStore mem_db :=
  {| redb_root := [Name "store"]; database := ReadWriteDatabase (opened ∅); access_mode := ReadWrite;
     durability_mode := mode; pending_flush := false;
     telemetry := {| lock_poisoned := false; locked_callback := None |}; handles := 1 |}.
Definition sample_batch : list (BlockHash * bytes) :=
  [(hash_of_N 2, [Byte.x01]); (hash_of_N 1, [Byte.x02]); (hash_of_N 2, [Byte.x01])].

Lemma redb_sample_inv mode : redb_inv (sample_store mode).
Proof. split_and!; [|done|done]. by split. Qed.

(** The batch is written, and another that conflicts with itself is not. *)
Lemma redb_batch_atomic_witness :
  (exists s', put_block_bytes_batch sample_batch (sample_store Fast) = (Ok tt, s')
    /\ forall k b, (k, b) ∈ sample_batch -> store_rows s' !! as_bytes k = Some b)
  /\ (put_block_bytes_batch (sample_batch ++ [(hash_of_N 1, [])]) (sample_store Fast)).1 <> Ok tt.
Proof.
  split.
  - destruct (put_block_bytes_batch sample_batch (sample_store Fast)) as [r s'] eqn:E.
    pose proof (redb_batch_atomic _ _ _ _ (redb_sample_inv Fast) E) as (_ & _ & Hr & _).
    assert (r = Ok tt) as -> by (vm_compute in E; congruence). exists s'. split; [done|apply Hr].
  - destruct (put_block_bytes_batch (sample_batch ++ [(hash_of_N 1, [])]) (sample_store Fast)) as [r s'] eqn:E.
    pose proof (redb_batch_atomic _ _ _ _ (redb_sample_inv Fast) E) as (_ & _ & _ & Hr). apply Hr. by vm_compute.
Defined.

(** In fast mode the rows of a batch are not durable until the last handle goes. *)
Lemma redb_durability_witness :
  exists s', let s1 := step (OpPutBatch sample_batch) (sample_store Fast) in
    size (store_rows s1) = 2%nat /\ store_durable s1 = ∅
    /\ drop_handle s1 = (None, s') /\ store_rows s1 ⊆ store_durable s'.
Proof.
  set (s1 := step (OpPutBatch sample_batch) (sample_store Fast)).
  destruct (drop_handle s1) as [m s'] eqn:E. exists s'. cbn zeta.
  assert (m = None) as -> by (vm_compute in E; congruence).
  destruct (redb_durability (sample_store Fast) [OpPutBatch sample_batch] (redb_sample_inv Fast)) as (_ & _ & Hd).
  split_and!; [by vm_compute|by vm_compute|done|]. apply (Hd s'); [by vm_compute|exact E].
Defined.

Lemma redb_enumeration_witness :
  let s1 := step (OpPutBatch sample_batch) (sample_store Durable) in
  exists ids, list_block_ids s1 = Ok ids /\ length ids = 2%nat /\ StronglySorted (cmp_lt hash_cmp) ids.
Proof.
  cbn zeta. set (s1 := step (OpPutBatch sample_batch) (sample_store Durable)).
  destruct (list_block_ids s1) as [ids|e|] eqn:E.
  - exists ids. split; [done|]. destruct (redb_enumeration s1 ids E) as (Hs & _). split; [|exact Hs].
    vm_compute in E. injection E as <-. done.
  - vm_compute in E. discriminate E.
  - vm_compute in E. discriminate E.
Defined.

(** A store opens for reading on an existing file, and not on a missing one. *)
Lemma redb_opening_witness :
  (exists s, (redb_new_read_only (D := mem_db) [Name "store"] (Some ∅)).1 = Ok s /\ redb_inv s /\ access_mode s = ReadOnly)
  /\ forall s, (redb_new_read_only (D := mem_db) [Name "store"] None).1 <> Ok s.
Proof.
  split.
  - destruct (redb_new_read_only (D := mem_db) [Name "store"] (Some ∅)) as [r f'] eqn:E.
    destruct (redb_opening _ _ _ _ _ _ _ E) as (_ & _ & Ho).
    destruct r as [s|e|]; [|vm_compute in E; congruence..]. exists s. split; [done|].
    destruct (Ho s eq_refl) as (Hi & _ & _ & Ha & _). done.
  - intros s Hs. vm_compute in Hs. congruence.
Defined.
