(* ===== verification/ZipStore.v ===== *)
(** * The zip block store

    crates/lexongraph-block-store-zip/src/lib.rs: a read-only store over one zip
    archive, with the layout of the filesystem store inside. The store scans the
    central directory of the archive itself, classic or zip64, to see every entry
    name, duplicates included; the archive library only opens the archive and reads
    an entry by its name: it is the class [ZipOps]. A file is a handle with a
    position ([ZipFile]); its contract is [ZipFileLaws]. The hexadecimal helpers are
    the text of those of the filesystem store and are shared with [FsStore]. *)
From S2P Require Import Prelude Ordering Hash Ieee Cbor BlockV1 BlockV2 Store FsStore.

(** ** Files and the archive library *)

(** [std::io::SeekFrom] *)
Inductive SeekFrom := SeekStart (n : N) | SeekEnd (z : Z) | SeekCurrent (z : Z).

(** The calls of [std::fs] and [std::io]: [F] is the state of the file system, [H] a
    file that was opened. A read or a seek that fails ends the operation. *)
Class ZipFile (F H : Type) := {
  zip_canonicalize : path -> F -> io path;
  zip_is_file : path -> F -> io bool;
  zip_open : path -> F -> io H;
  zip_len : H -> io N;
  zip_seek : H -> SeekFrom -> io H;
  zip_read_exact : H -> N -> io (bytes * H)
}.

(** [zip::ZipArchive]: [by_name] finds an entry, [read_to_end] gives its bytes. *)
Class ZipOps (H : Type) := {
  archive : Type;
  archive_new : H -> string + archive;
  offset_of : archive -> N;
  entry_file : Type;
  by_name : archive -> string -> string + entry_file;
  read_to_end : entry_file -> io bytes
}.

(** What reads and seeks do: the content stays, a read that succeeds is the next bytes. *)
Definition seek_target (length position : N) (w : SeekFrom) : Z :=
  match w with
  | SeekStart n => Z.of_N n
  | SeekEnd z => Z.of_N length + z
  | SeekCurrent z => Z.of_N position + z
  end%Z.

Class ZipFileLaws (F H : Type) `{ZipFile F H} := {
  file_bytes : H -> bytes;
  file_pos : H -> N;
  zip_len_law h n : zip_len h = inr n -> n = len (file_bytes h);
  zip_seek_law h w h' : zip_seek h w = inr h' ->
    file_bytes h' = file_bytes h /\ Z.of_N (file_pos h') = seek_target (len (file_bytes h)) (file_pos h) w;
  zip_read_law h n b h' : zip_read_exact h n = inr (b, h') ->
    file_bytes h' = file_bytes h /\ file_pos h' = (file_pos h + n)%N
    /\ b = take (N.to_nat n) (drop (N.to_nat (file_pos h)) (file_bytes h)) /\ len b = n
}.

(** A file whose operations succeed wherever they make sense. *)
Class ZipFileReliable (F H : Type) `{ZipFileLaws F H} := {
  zip_len_ok h : is_Some (match zip_len h with inr n => Some n | inl _ => None end);
  zip_seek_ok h w : (0 <= seek_target (len (file_bytes h)) (file_pos h) w)%Z ->
    exists h', zip_seek h w = inr h';
  zip_read_ok h n : (file_pos h + n <= len (file_bytes h))%N -> exists b h', zip_read_exact h n = inr (b, h')
}.

(** ** Reading the records *)
Definition starts_with (prefix l : bytes) : bool := bool_decide (take (length prefix) l = prefix).

(** [read_u16_le], [read_u32_le], [read_u64_le] *)
Definition read_le (width : nat) (b : bytes) (offset : nat) : option N :=
  if (offset + width <=? length b)%nat then Some (le_combine (take width (drop offset b))) else None.
Definition read_u16_le : bytes -> nat -> option N := read_le 2.
Definition read_u32_le : bytes -> nat -> option N := read_le 4.
Definition read_u64_le : bytes -> nat -> option N := read_le 8.

Definition CENTRAL_DIRECTORY_HEADER_SIGNATURE : bytes := [Byte.x50; Byte.x4b; Byte.x01; Byte.x02].
Definition CENTRAL_DIRECTORY_HEADER_LEN : N := 46.
Definition END_OF_CENTRAL_DIRECTORY_SIGNATURE : bytes := [Byte.x50; Byte.x4b; Byte.x05; Byte.x06].
Definition ZIP64_END_OF_CENTRAL_DIRECTORY_SIGNATURE : bytes := [Byte.x50; Byte.x4b; Byte.x06; Byte.x06].
Definition ZIP64_END_OF_CENTRAL_DIRECTORY_LOCATOR_SIGNATURE : bytes := [Byte.x50; Byte.x4b; Byte.x06; Byte.x07].
Definition ZIP64_END_OF_CENTRAL_DIRECTORY_LOCATOR_LEN : N := 20.
Definition ZIP64_EOCD_MIN_LEN : N := 56.
Definition EOCD_LEN : nat := 22.
Definition U16_MAX : N := 65535.
Definition U32_MAX : N := 4294967295.

Record CentralDirectory := { entry_count : N; directory_offset : N; directory_size : N }.
Record EndOfCentralDirectory := {
  eocd_entry_count : N; eocd_directory_offset : N; eocd_directory_size : N; zip64_eocd_offset : option N
}.

(** The body of the loop of [find_end_of_central_directory]: [None] goes on to the
    next offset, [Some r] returns [r]. *)
Definition eocd_at (tail : bytes) (eocd_offset : nat) : option (option EndOfCentralDirectory) :=
  if negb (starts_with END_OF_CENTRAL_DIRECTORY_SIGNATURE (drop eocd_offset tail)) then None
  else match read_u16_le tail (eocd_offset + 20) with
  | None => Some None
  | Some comment_len =>
      if negb (N.of_nat (eocd_offset + EOCD_LEN) + comment_len =? len tail)%N then None
      else
        let zip64_eocd_offset :=
          if (20 <=? eocd_offset)%nat
             && starts_with ZIP64_END_OF_CENTRAL_DIRECTORY_LOCATOR_SIGNATURE (drop (eocd_offset - 20) tail)
          then read_u64_le tail (eocd_offset - 20 + 8) else None in
        Some
          match read_u16_le tail (eocd_offset + 10), read_u32_le tail (eocd_offset + 12),
                read_u32_le tail (eocd_offset + 16) with
          | Some count, Some size, Some offset =>
              Some {| eocd_entry_count := count; eocd_directory_offset := offset;
                      eocd_directory_size := size; zip64_eocd_offset := zip64_eocd_offset |}
          | _, _, _ => None
          end
  end.

Fixpoint find_eocd_from (tail : bytes) (eocd_offset : nat) : option EndOfCentralDirectory :=
  match eocd_at tail eocd_offset with
  | Some r => r
  | None => match eocd_offset with O => None | S k => find_eocd_from tail k end
  end.

Definition find_end_of_central_directory (tail : bytes) : option EndOfCentralDirectory :=
  if (length tail <? EOCD_LEN)%nat then None else find_eocd_from tail (length tail - EOCD_LEN).

(** [u64::checked_add(..).filter(|end| *end <= bound)] *)
Definition bounded_add (a b bound : N) : option N :=
  match checked_add U64_MAX a b with
  | Some e => if (e <=? bound)%N then Some e else None
  | None => None
  end.

(** [map_err(|error| backend_failure(format!("{c}: {error}")))] *)
Definition zip_context {A} (c : string) (r : io A) : result BlockStoreError A :=
  match r with
  | inl error => Err (backend_failure (c +:+ ": " +:+ error_text error)%stdpp)
  | inr a => Ok a
  end.

(** [std::str::from_utf8] *)
Definition name_of_bytes (b : bytes) : option string :=
  if utf8_valid (map Byte.to_N b) then Some (String.string_of_list_byte b) else None.

Section scan.
Context {F H : Type} `{ZipFile F H}.
Variable archive_path : path.
Notation at_path := (display archive_path).

(** [classic_central_directory] *)
Definition classic_central_directory (archive_offset : N) (eocd : EndOfCentralDirectory)
  : result BlockStoreError CentralDirectory :=
  let? offset := ok_or (checked_add U64_MAX archive_offset (eocd_directory_offset eocd))
    (backend_failure ("failed to bound the zip central directory in " +:+ at_path)%stdpp) in
  Ok {| entry_count := eocd_entry_count eocd; directory_offset := offset;
        directory_size := eocd_directory_size eocd |}.

(** [read_zip64_central_directory]; [usize::try_from] a [u64] succeeds. *)
Definition read_zip64_central_directory (file : H) (file_len archive_offset zip64_eocd_offset : N)
  : result BlockStoreError (option CentralDirectory * H) :=
  match bounded_add zip64_eocd_offset ZIP64_EOCD_MIN_LEN file_len with
  | None => Ok (None, file)
  | Some zip64_eocd_end =>
      let? file := zip_context ("failed to seek zip archive " +:+ at_path
        +:+ " to its zip64 end of central directory")%stdpp (zip_seek file (SeekStart zip64_eocd_offset)) in
      let? ' (record, file) := zip_context ("failed to read the zip64 end of central directory from "
        +:+ at_path)%stdpp (zip_read_exact file ZIP64_EOCD_MIN_LEN) in
      if negb (starts_with ZIP64_END_OF_CENTRAL_DIRECTORY_SIGNATURE record) then Ok (None, file)
      else
        let? record_size := ok_or (read_u64_le record 4) (backend_failure
          ("failed to read the zip64 end of central directory size in " +:+ at_path)%stdpp) in
        if (record_size <? 44)%N then Ok (None, file)
        else match checked_add U64_MAX zip64_eocd_offset 12 with
        | None => Ok (None, file)
        | Some start =>
            match bounded_add start record_size file_len with
            | None => Ok (None, file)
            | Some total_record_len =>
                if (total_record_len <? zip64_eocd_end)%N then Ok (None, file)
                else
                  let? entry_count := ok_or (read_u64_le record 32) (backend_failure
                    ("failed to read the zip64 central directory entry count in " +:+ at_path)%stdpp) in
                  let? size := ok_or (read_u64_le record 40) (backend_failure
                    ("failed to read the zip64 central directory size in " +:+ at_path)%stdpp) in
                  let? offset := ok_or (read_u64_le record 48) (backend_failure
                    ("failed to read the zip64 central directory offset in " +:+ at_path)%stdpp) in
                  let? offset := ok_or (checked_add U64_MAX archive_offset offset) (backend_failure
                    ("failed to bound the zip64 central directory in " +:+ at_path)%stdpp) in
                  Ok (Some {| entry_count := entry_count; directory_offset := offset;
                              directory_size := size |}, file)
            end
        end
  end.

(** [try_read_zip64_central_directory] *)
Definition try_read_zip64_central_directory (file : H) (file_len archive_offset zip64_eocd_offset : N)
  : result BlockStoreError (option CentralDirectory * H) :=
  let? zip64_eocd_offset := ok_or (checked_add U64_MAX archive_offset zip64_eocd_offset) (backend_failure
    ("failed to bound the zip64 end of central directory in " +:+ at_path)%stdpp) in
  read_zip64_central_directory file file_len archive_offset zip64_eocd_offset.

Definition requires_zip64 (eocd : EndOfCentralDirectory) : bool :=
  (eocd_entry_count eocd =? U16_MAX)%N || (eocd_directory_size eocd =? U32_MAX)%N
  || (eocd_directory_offset eocd =? U32_MAX)%N.

(** [resolve_central_directory] *)
Definition resolve_central_directory (file : H) (file_len archive_offset : N) (eocd : EndOfCentralDirectory)
  : result BlockStoreError (CentralDirectory * H) :=
  let? classic_directory := classic_central_directory archive_offset eocd in
  if negb (requires_zip64 eocd) then
    match zip64_eocd_offset eocd with
    | Some offset =>
        let? ' (directory, file) := try_read_zip64_central_directory file file_len archive_offset offset in
        Ok (default classic_directory directory, file)
    | None => Ok (classic_directory, file)
    end
  else
    let? offset := ok_or (zip64_eocd_offset eocd) (backend_failure
      ("failed to locate the zip64 end of central directory in " +:+ at_path)%stdpp) in
    let? ' (directory, file) := try_read_zip64_central_directory file file_len archive_offset offset in
    let? directory := ok_or directory (backend_failure
      ("failed to parse the zip64 end of central directory in " +:+ at_path)%stdpp) in
    Ok (directory, file).

(** The body of the loop of [archive_entry_names]: the name, if it is text, and the
    place of the next entry. *)
Definition scan_header (entry_index directory_end cursor : N) (file : H)
  : result BlockStoreError (option string * N * H) :=
  let entry := ("central directory entry " +:+ pretty entry_index)%stdpp in
  let? header_end := ok_or (bounded_add cursor CENTRAL_DIRECTORY_HEADER_LEN directory_end) (backend_failure
    ("failed to bound " +:+ entry +:+ " header in " +:+ at_path)%stdpp) in
  let? ' (header, file) := zip_context ("failed to read " +:+ entry +:+ " header in " +:+ at_path)%stdpp
    (zip_read_exact file CENTRAL_DIRECTORY_HEADER_LEN) in
  guard? starts_with CENTRAL_DIRECTORY_HEADER_SIGNATURE header else
    backend_failure ("failed to parse " +:+ entry +:+ " in " +:+ at_path)%stdpp in
  let? name_len := ok_or (read_u16_le header 28) (backend_failure
    ("failed to read " +:+ entry +:+ " name length in " +:+ at_path)%stdpp) in
  let? extra_len := ok_or (read_u16_le header 30) (backend_failure
    ("failed to read " +:+ entry +:+ " extra length in " +:+ at_path)%stdpp) in
  let? comment_len := ok_or (read_u16_le header 32) (backend_failure
    ("failed to read " +:+ entry +:+ " comment length in " +:+ at_path)%stdpp) in
  let? variable_len := ok_or
    (match checked_add USIZE_MAX name_len extra_len with
     | Some l => checked_add USIZE_MAX l comment_len | None => None end)
    (backend_failure ("failed to bound " +:+ entry +:+ " variable data in " +:+ at_path)%stdpp) in
  let? entry_end := ok_or (bounded_add header_end variable_len directory_end) (backend_failure
    ("failed to bound " +:+ entry +:+ " in " +:+ at_path)%stdpp) in
  let? ' (name_bytes, file) := zip_context ("failed to read " +:+ entry +:+ " name in " +:+ at_path)%stdpp
    (zip_read_exact file name_len) in
  let? file := zip_context ("failed to advance past " +:+ entry +:+ " in " +:+ at_path)%stdpp
    (zip_seek file (SeekCurrent (Z.of_N (extra_len + comment_len)))) in
  Ok (name_of_bytes name_bytes, entry_end, file).

(** The loop over [entry_index..entry_count]. An entry takes 46 bytes or more of a
    directory within the file, which bounds the rounds. *)
Fixpoint scan_headers (fuel : nat) (entry_index count directory_end cursor : N) (file : H)
  : result BlockStoreError (list string * H) :=
  if (count <=? entry_index)%N then Ok ([], file)
  else match fuel with
  | O => Panic
  | S fuel' =>
      let? ' (name, cursor, file) := scan_header entry_index directory_end cursor file in
      let? ' (names, file) := scan_headers fuel' (entry_index + 1) count directory_end cursor file in
      Ok (match name with Some name => name :: names | None => names end, file)
  end.

Definition scan_fuel (file_len : N) : nat := S (N.to_nat (file_len / CENTRAL_DIRECTORY_HEADER_LEN)).

(** [archive_entry_names] *)
Definition archive_entry_names (file : H) (archive_offset : N) : result BlockStoreError (list string * H) :=
  let? file_len := zip_context ("failed to stat zip archive " +:+ at_path
    +:+ " during central-directory scan")%stdpp (zip_len file) in
  let eocd_tail_len := N.min file_len
    (N.of_nat EOCD_LEN + U16_MAX + ZIP64_END_OF_CENTRAL_DIRECTORY_LOCATOR_LEN) in
  let? file := zip_context ("failed to seek zip archive " +:+ at_path +:+ " to its EOCD search window")%stdpp
    (zip_seek file (SeekEnd (- Z.of_N eocd_tail_len))) in
  let? ' (eocd_tail, file) := zip_context ("failed to read the EOCD search window from zip archive "
    +:+ at_path)%stdpp (zip_read_exact file eocd_tail_len) in
  let? eocd := ok_or (find_end_of_central_directory eocd_tail) (backend_failure
    ("failed to locate the zip central directory in " +:+ at_path)%stdpp) in
  let? ' (directory, file) := resolve_central_directory file file_len archive_offset eocd in
  let? directory_end := ok_or (bounded_add (directory_offset directory) (directory_size directory) file_len)
    (backend_failure ("failed to bound the zip central directory in " +:+ at_path)%stdpp) in
  let? file := zip_context ("failed to seek zip archive " +:+ at_path +:+ " to its central directory")%stdpp
    (zip_seek file (SeekStart (directory_offset directory))) in
  scan_headers (scan_fuel file_len) 0 (entry_count directory) directory_end (directory_offset directory) file.
End scan.

(** ** Entry names *)

(** [str::split('/')]; the slash is the character 47. *)
Fixpoint split_slash (s : string) : list string :=
  match s with
  | EmptyString => [EmptyString]
  | String c s' =>
      if bool_decide (c = Ascii.ascii_of_N 47) then EmptyString :: split_slash s'
      else match split_slash s' with
           | first :: rest => String c first :: rest
           | [] => [String c EmptyString]
           end
  end.

(** [decode_recognized_block_entry_name] *)
Definition decode_recognized_block_entry_name (name : string) : option BlockHash :=
  match split_slash name with
  | [first_level; second_level; file_name] =>
      if negb (is_lower_hex_prefix first_level) || negb (is_lower_hex_prefix second_level) then None
      else match strip_suffix ".cbor" file_name with
      | None => None
      | Some hex =>
          if negb (String.length hex =? BlockHash_LEN * 2)%nat
             || negb (forallb (fun c => match decode_hex_nibble c with Some _ => true | None => false end)
                        (String.list_ascii_of_string hex))
          then None
          else if negb (String.eqb (substring_of 0 2 hex) first_level)
             || negb (String.eqb (substring_of 2 4 hex) second_level)
          then None
          else match decode_hex_pairs (String.list_ascii_of_string hex) with
               | Some bs => hash_of_bytes bs
               | None => None
               end
      end
  | _ => None
  end.

(** [block_entry_name] *)
Definition block_entry_name (block_id : BlockHash) : string :=
  let hex := BlockHash_to_string block_id in
  (substring_of 0 2 hex +:+ "/" +:+ substring_of 2 4 hex +:+ "/" +:+ hex +:+ ".cbor")%stdpp.

(** ** The store *)
Inductive ZipBlockStoreInitError := ZipOpen (message : string) | ZipRead (message : string).
Definition ZipBlockStoreInitError_to_string (e : ZipBlockStoreInitError) : string :=
  match e with ZipOpen message | ZipRead message => message end.

(** [ZipBlockStore], with the file system it lives on *)
Record ZipBlockStore (F : Type) := { zip_path : path; zip_offset : N; zip_fs : F }.
Arguments zip_path {F} _.
Arguments zip_offset {F} _.
Arguments zip_fs {F} _.

Section store.
Context {F H : Type} `{ZipFile F H} `{ZipOps H}.
Notation store := (ZipBlockStore F).

Definition open_archive_file (p : path) (f : F) : result BlockStoreError H :=
  zip_context ("failed to open zip archive " +:+ display p)%stdpp (zip_open p f).

Definition open_archive_from_file (file : H) (p : path) : result BlockStoreError archive :=
  match archive_new file with
  | inl error => Err (backend_failure ("failed to read zip archive " +:+ display p +:+ ": " +:+ error)%stdpp)
  | inr a => Ok a
  end.

(** [new_classified], [new] *)
Definition zip_new_classified (requested_path : path) (f : F) : result ZipBlockStoreInitError store :=
  let opened {A} (m : result BlockStoreError A) := map_err (fun e => ZipOpen (BlockStoreError_to_string e)) m in
  let read {A} (m : result BlockStoreError A) := map_err (fun e => ZipRead (BlockStoreError_to_string e)) m in
  match zip_canonicalize requested_path f with
  | inl error => Err (ZipOpen ("failed to canonicalize zip archive " +:+ display requested_path +:+ ": "
      +:+ error_text error)%stdpp)
  | inr canonical_path =>
      match zip_is_file canonical_path f with
      | inl error => Err (ZipOpen ("failed to stat zip archive " +:+ display canonical_path +:+ ": "
          +:+ error_text error)%stdpp)
      | inr is_file =>
          guard? is_file else ZipOpen ("zip archive " +:+ display canonical_path +:+ " is not a file")%stdpp in
          let? file := opened (open_archive_file canonical_path f) in
          let? a := read (open_archive_from_file file canonical_path) in
          let? file := opened (open_archive_file canonical_path f) in
          let? _ := read (archive_entry_names canonical_path file (offset_of a)) in
          Ok {| zip_path := canonical_path; zip_offset := offset_of a; zip_fs := f |}
      end
  end.

Definition zip_new (requested_path : path) (f : F) : result BlockStoreError store :=
  map_err (fun e => backend_failure (ZipBlockStoreInitError_to_string e)) (zip_new_classified requested_path f).

Definition duplicate_error (name : string) (s : store) : BlockStoreError :=
  backend_failure ("duplicate recognized block entry " +:+ name +:+ " found in " +:+ display (zip_path s))%stdpp.

(** The loop of [enumerate_block_ids]. *)
Fixpoint recognized_ids (s : store) (seen_names : gset string) (entry_names : list string)
  : result BlockStoreError (list BlockHash) :=
  match entry_names with
  | [] => Ok []
  | name :: rest =>
      match decode_recognized_block_entry_name name with
      | None => recognized_ids s seen_names rest
      | Some block_id =>
          guard? negb (bool_decide (name ∈ seen_names)) else duplicate_error name s in
          let? block_ids := recognized_ids s ({[name]} ∪ seen_names) rest in
          Ok (block_id :: block_ids)
      end
  end.

Definition enumerate_block_ids (s : store) : result BlockStoreError (list BlockHash) :=
  let? file := open_archive_file (zip_path s) (zip_fs s) in
  let? ' (entry_names, _) := archive_entry_names (zip_path s) file (zip_offset s) in
  recognized_ids s ∅ entry_names.

(** The [BlockStore] methods *)
Definition zip_put_block_bytes (block_id : BlockHash) (block_bytes : bytes) : store_m store unit := fun s =>
  (Err (backend_failure ("zip archive " +:+ display (zip_path s) +:+ " is read-only; put is not supported")%stdpp), s).

Definition read_entry (s : store) (target_name : string) (file : H) : result BlockStoreError bytes :=
  let in_archive := (target_name +:+ " in " +:+ display (zip_path s))%stdpp in
  let? file := zip_context ("failed to rewind zip archive " +:+ display (zip_path s) +:+ " before reading "
    +:+ target_name)%stdpp (zip_seek file (SeekStart 0)) in
  let? a := open_archive_from_file file (zip_path s) in
  match by_name a target_name with
  | inl error => Err (backend_failure ("failed to open zip archive entry " +:+ in_archive +:+ ": " +:+ error)%stdpp)
  | inr entry => zip_context ("failed to read zip archive entry " +:+ in_archive)%stdpp (read_to_end entry)
  end.

Definition zip_get_block_bytes (block_id : BlockHash) : store_m store (option bytes) := fun s =>
  let target_name := block_entry_name block_id in
  (let? file := open_archive_file (zip_path s) (zip_fs s) in
   let? ' (names, file) := archive_entry_names (zip_path s) file (zip_offset s) in
   let match_count := length (List.filter (String.eqb target_name) names) in
   if (1 <? match_count)%nat then Err (duplicate_error target_name s)
   else if (match_count =? 0)%nat then Ok None
   else rmap Some (read_entry s target_name file), s).

Definition zip_iter_block_ids (s : store) : result BlockStoreError (list (result BlockStoreError BlockHash)) :=
  rmap (map Ok) (enumerate_block_ids s).

#[export] Instance zip_store : BlockStore store := {|
  put_block_bytes := zip_put_block_bytes;
  put_block_bytes_batch := default_put_block_bytes_batch;
  get_block_bytes := zip_get_block_bytes;
  iter_block_ids := zip_iter_block_ids
|}.
End store.
