(* ===== verification/ZipCorrect.v ===== *)
(** * The zip block store: the properties

    An entry name is recognized exactly when it is the name of its block. The scan of
    the central directory ends for every file, whatever its bytes, without a panic; on
    an archive image put together by a reference writer it returns exactly the entry
    names in their order. Enumeration lists each block once and refuses duplicates,
    and a read agrees with it. *)
From S2P Require Import Prelude Ordering Hash Ieee Cbor CborRef BlockV1 BlockV2 Store FsStore FsCorrect ZipStore.

(** ** Entry names *)
Notation slash := (Ascii.ascii_of_N 47) (only parsing).
Definition no_slash (s : string) : Prop := Forall (fun c => c <> slash) (String.list_ascii_of_string s).

Lemma split_slash_concat s : String.concat "/" (split_slash s) = s.
Proof.
  induction s as [|c s IH]; [done|]. cbn [split_slash].
  destruct (bool_decide_reflect (c = slash)) as [->|Hc].
  - destruct (split_slash s) as [|x l] eqn:E; [by destruct s; cbn in E; repeat case_match|].
    change (String.concat "/" ("" :: x :: l)) with (String slash (String.concat "/" (x :: l))). by rewrite IH.
  - destruct (split_slash s) as [|x [|y l]]; cbn in *; by rewrite <- IH.
Qed.

Lemma split_no_slash s : no_slash s -> split_slash s = [s].
Proof.
  induction s as [|c s IH]; [done|]. intros [Hc Hs]%Forall_cons. cbn [split_slash].
  rewrite bool_decide_eq_false_2 by done. by rewrite IH.
Qed.

Lemma split_slash_app s r : no_slash s -> split_slash (s +:+ String slash r)%stdpp = s :: split_slash r.
Proof.
  induction s as [|c s IH]; intros Hs.
  - done.
  - apply Forall_cons in Hs as [Hc Hs]. change (String c s +:+ String slash r)%stdpp with (String c (s +:+ String slash r)%stdpp).
    cbn [split_slash]. rewrite bool_decide_eq_false_2 by done. by rewrite IH.
Qed.

Lemma list_ascii_app s t :
  String.list_ascii_of_string (s +:+ t)%stdpp = String.list_ascii_of_string s ++ String.list_ascii_of_string t.
Proof.
  induction s as [|c s IH]; [done|]. change (String c s +:+ t)%stdpp with (String c (s +:+ t)%stdpp).
  cbn. by rewrite IH.
Qed.

Lemma no_slash_app s t : no_slash s -> no_slash t -> no_slash (s +:+ t)%stdpp.
Proof. unfold no_slash. rewrite list_ascii_app. intros. by apply Forall_app. Qed.

Lemma hex_digits_of l : Forall (fun c => exists n, (n < 16)%N /\ c = hex_digit n) (String.list_ascii_of_string (hex_of_bytes l)).
Proof.
  induction l as [|b l IH]; cbn; [constructor|]. destruct (to_N_16 b).
  constructor; [by exists (Byte.to_N b / 16)%N|]. constructor; [by exists (Byte.to_N b mod 16)%N|done].
Qed.

Lemma hex_no_slash l : no_slash (hex_of_bytes l).
Proof.
  eapply Forall_impl; [apply hex_digits_of|]. intros c (n & Hn & ->) Hc.
  apply nibble_digit in Hn. by rewrite Hc in Hn.
Qed.

Lemma substring_chars (P : Ascii.ascii -> Prop) s : forall a n, Forall P (String.list_ascii_of_string s) ->
  Forall P (String.list_ascii_of_string (String.substring a n s)).
Proof.
  induction s as [|c s IH]; intros [|a] [|n] Hs; try constructor; apply Forall_cons in Hs as [Hc Hs]; cbn.
  - done.
  - by apply IH.
  - by apply (IH a 0%nat).
  - by apply (IH a (S n)).
Qed.

(** A name is recognized as the entry of a block exactly when it is the name the store
    reads that block from. *)
Lemma entry_name_ok name id : decode_recognized_block_entry_name name = Some id <-> name = block_entry_name id.
Proof.
  unfold decode_recognized_block_entry_name. split.
  - destruct (split_slash name) as [|f1 [|f2 [|f3 [|]]]] eqn:Es; try done.
    destruct (negb (is_lower_hex_prefix f1) || negb (is_lower_hex_prefix f2)); [done|].
    destruct (strip_suffix ".cbor" f3) as [hex|] eqn:Ex; [|done]. apply strip_suffix_ok in Ex as ->.
    destruct (Nat.eqb_spec (String.length hex) (BlockHash_LEN * 2)) as [Hl|]; [|done]. cbn [negb orb].
    destruct (forallb _ _); [|done]. cbn [negb].
    destruct (String.eqb_spec (substring_of 0 2 hex) f1) as [<-|]; [|done].
    destruct (String.eqb_spec (substring_of 2 4 hex) f2) as [<-|]; [|done]. cbn [negb orb].
    intros Hid. assert (decode_block_hash_hex hex = Some id) as ->%decode_hash_hex.
    { unfold decode_block_hash_hex. by rewrite (proj2 (Nat.eqb_eq _ _) Hl). }
    rewrite <- (split_slash_concat name), Es. done.
  - intros ->. destruct (shard_prefixes id) as [H1 H2].
    assert (no_slash (BlockHash_to_string id)) as Hn by apply hex_no_slash.
    change (block_entry_name id) with (substring_of 0 2 (BlockHash_to_string id) +:+ String slash
      (substring_of 2 4 (BlockHash_to_string id) +:+ String slash (BlockHash_to_string id +:+ ".cbor")))%stdpp.
    rewrite split_slash_app by by apply substring_chars.
    rewrite split_slash_app by by apply substring_chars.
    rewrite split_no_slash by (apply no_slash_app; [done|]; by repeat constructor).
    rewrite H1, H2. cbn [negb orb]. rewrite (proj2 (strip_suffix_ok ".cbor" _ _) eq_refl).
    pose proof (proj2 (decode_hash_hex _ id) eq_refl) as Hd. unfold decode_block_hash_hex in Hd.
    destruct (String.length (BlockHash_to_string id) =? BlockHash_LEN * 2)%nat; [|done].
    rewrite !String.eqb_refl. cbn [negb orb].
    replace (forallb _ _) with true; [exact Hd|]. symmetry. apply forallb_forall. intros c Hc.
    pose proof (hex_digits_of (as_bytes id)) as Hf. rewrite Forall_forall in Hf.
    apply list_elem_of_In in Hc. destruct (Hf c Hc) as (n & Hlt & ->). by rewrite nibble_digit.
Qed.

Lemma entry_name_inj id id' : block_entry_name id = block_entry_name id' -> id = id'.
Proof.
  intros He. apply entry_name_ok in He. rewrite (proj2 (entry_name_ok _ id) eq_refl) in He. by injection He.
Qed.

(** ** The scan ends *)
Lemma zip_context_no_panic {A} c (r : io A) : no_panic (zip_context c r).
Proof. by destruct r. Qed.

Lemma bounded_add_some a b bound e : bounded_add a b bound = Some e <-> e = (a + b)%N /\ (e <= bound)%N /\ (a + b <= U64_MAX)%N.
Proof.
  unfold bounded_add, checked_add. destruct (N.leb_spec (a + b) U64_MAX); [|naive_solver lia].
  destruct (N.leb_spec (a + b) bound); naive_solver lia.
Qed.

Section scan.
Context {F H : Type} `{ZipFile F H}.
Variable p : path.
Notation no_context := (apply zip_context_no_panic) (only parsing).

Lemma zip64_no_panic (file : H) l o z : no_panic (read_zip64_central_directory p file l o z).
Proof.
  unfold read_zip64_central_directory. destruct (bounded_add z ZIP64_EOCD_MIN_LEN l) as [e|]; [|done].
  apply rbind_no_panic; [apply zip_context_no_panic|]. intros f1 _.
  apply rbind_no_panic; [apply zip_context_no_panic|]. intros [record f2] _.
  destruct (negb _); [done|]. apply rbind_no_panic; [apply ok_or_no_panic|]. intros size _.
  destruct (size <? 44)%N; [done|]. destruct (checked_add _ _ _); [|done]. destruct (bounded_add _ _ _) as [t|]; [|done].
  destruct (t <? e)%N; [done|]. repeat (apply rbind_no_panic; [apply ok_or_no_panic|]; intros ? _). done.
Qed.

Lemma resolve_no_panic (file : H) l o eocd : no_panic (resolve_central_directory p file l o eocd).
Proof.
  unfold resolve_central_directory, classic_central_directory, try_read_zip64_central_directory.
  apply rbind_no_panic; [apply rbind_no_panic; [apply ok_or_no_panic|done]|]. intros d _.
  destruct (negb _).
  - destruct (zip64_eocd_offset eocd); [|done]. apply rbind_no_panic; [|by intros []].
    apply rbind_no_panic; [apply ok_or_no_panic|]. intros ? _. apply zip64_no_panic.
  - apply rbind_no_panic; [apply ok_or_no_panic|]. intros z _. apply rbind_no_panic.
    + apply rbind_no_panic; [apply ok_or_no_panic|]. intros ? _. apply zip64_no_panic.
    + intros [d' f'] _. apply rbind_no_panic; [apply ok_or_no_panic|done].
Qed.

Lemma scan_header_no_panic i e cursor (file : H) : no_panic (scan_header p i e cursor file).
Proof.
  unfold scan_header. apply rbind_no_panic; [apply ok_or_no_panic|]. intros h _.
  apply rbind_no_panic; [apply zip_context_no_panic|]. intros [header f1] _.
  destruct (starts_with _ _); [|done]. do 5 (apply rbind_no_panic; [apply ok_or_no_panic|]; intros ? _).
  apply rbind_no_panic; [apply zip_context_no_panic|]. intros [nb f2] _.
  apply rbind_no_panic; [apply zip_context_no_panic|done].
Qed.

Lemma scan_header_bounds i e cursor (file : H) o cursor' file' :
  scan_header p i e cursor file = Ok (o, cursor', file') -> (cursor + 46 <= cursor' <= e)%N.
Proof.
  unfold scan_header. intros (h & Hh & Hk)%rbind_ok. apply ok_or_ok, bounded_add_some in Hh as (-> & Hh & _).
  apply rbind_ok in Hk as ([header f1] & _ & Hk). destruct (starts_with _ _); [|done].
  do 4 (apply rbind_ok in Hk as (? & _ & Hk)). apply rbind_ok in Hk as (e' & He & Hk).
  apply ok_or_ok, bounded_add_some in He as (-> & He & _).
  apply rbind_ok in Hk as ([nb f2] & _ & Hk). apply rbind_ok in Hk as (f3 & _ & Hk). injection Hk as _ <- _.
  unfold CENTRAL_DIRECTORY_HEADER_LEN in *. lia.
Qed.

Lemma scan_headers_no_panic fuel : forall i count e cursor (file : H),
  (e < cursor + 46 * N.of_nat fuel)%N -> (cursor <= e)%N -> no_panic (scan_headers p fuel i count e cursor file).
Proof.
  induction fuel as [|fuel IH]; intros i count e cursor file Hf Hc; cbn [scan_headers].
  - lia.
  - destruct (count <=? i)%N; [done|]. apply rbind_no_panic; [apply scan_header_no_panic|].
    intros [[o cursor'] file'] He%scan_header_bounds. apply rbind_no_panic; [|by intros [] _].
    apply IH; lia.
Qed.

Lemma zip_scan_no_panic (file : H) offset : no_panic (archive_entry_names p file offset).
Proof.
  unfold archive_entry_names. apply rbind_no_panic; [apply zip_context_no_panic|]. intros n _.
  apply rbind_no_panic; [apply zip_context_no_panic|]. intros f1 _.
  apply rbind_no_panic; [apply zip_context_no_panic|]. intros [tail f2] _.
  apply rbind_no_panic; [apply ok_or_no_panic|]. intros eocd _.
  apply rbind_no_panic; [apply resolve_no_panic|]. intros [d f3] _.
  apply rbind_no_panic; [apply ok_or_no_panic|]. intros e He.
  apply rbind_no_panic; [apply zip_context_no_panic|]. intros f4 _.
  apply ok_or_ok, bounded_add_some in He as (-> & He & _). apply scan_headers_no_panic; [|lia].
  unfold scan_fuel, CENTRAL_DIRECTORY_HEADER_LEN.
  pose proof (N.div_mod n 46 ltac:(lia)) as Hd. pose proof (N.mod_lt n 46 ltac:(lia)) as Hm.
  revert Hd Hm. generalize (n / 46)%N (n mod 46)%N. intros q r Hd Hm. lia.
Qed.
End scan.

(** ** The store *)

(** How often a block is named in the archive. *)
Definition occurrences (id : BlockHash) (ids : list BlockHash) : nat := length (List.filter (fun j => bool_decide (j = id)) ids).

Lemma occurrences_names id names :
  length (List.filter (String.eqb (block_entry_name id)) names)
  = occurrences id (omap decode_recognized_block_entry_name names).
Proof.
  unfold occurrences. induction names as [|name names IH]; [done|]. cbn.
  destruct (String.eqb_spec (block_entry_name id) name) as [<-|Hn].
  - rewrite (proj2 (entry_name_ok _ id) eq_refl). cbn. rewrite bool_decide_eq_true_2 by done. cbn. by rewrite IH.
  - destruct (decode_recognized_block_entry_name name) as [j|] eqn:Ej; [|done]. cbn.
    rewrite bool_decide_eq_false_2; [done|]. intros ->. by apply entry_name_ok in Ej.
Qed.

Lemma occurrences_elem id ids : (occurrences id ids = 0)%nat <-> id ∉ ids.
Proof.
  unfold occurrences. induction ids as [|j ids IH]; cbn; [set_solver|].
  destruct (bool_decide_reflect (j = id)) as [->|Hn]; cbn; [set_solver|]. rewrite IH. set_solver.
Qed.

Lemma occurrences_unique id ids : NoDup ids -> id ∈ ids -> occurrences id ids = 1%nat.
Proof.
  unfold occurrences. induction 1 as [|j ids Hj Hnd IH]; [set_solver|]. cbn.
  destruct (bool_decide_reflect (j = id)) as [->|Hn]; cbn.
  - intros _. f_equal. by apply (occurrences_elem id ids).
  - intros [->|?]%elem_of_cons; [done|by apply IH].
Qed.

Section store.
Context {F H : Type} `{ZipFile F H} `{ZipOps H}.
Notation store := (ZipBlockStore F).

Lemma recognized_ok (s : store) names : forall seen,
  (forall id, id ∈ omap decode_recognized_block_entry_name names -> block_entry_name id ∉ seen) ->
  NoDup (omap decode_recognized_block_entry_name names) ->
  recognized_ids s seen names = Ok (omap decode_recognized_block_entry_name names).
Proof.
  induction names as [|name names IH]; intros seen Hs Hnd; [done|]. cbn [recognized_ids].
  cbn [omap list_omap] in *. destruct (decode_recognized_block_entry_name name) as [id|] eqn:Ed; [|by apply IH].
  apply entry_name_ok in Ed as ->. apply NoDup_cons in Hnd as [Hid Hnd].
  rewrite bool_decide_eq_false_2 by (apply Hs; left). cbn [negb]. rewrite IH; [done| |done].
  intros j Hj. specialize (Hs j ltac:(by right)). rewrite not_elem_of_union, elem_of_singleton. split; [|done].
  by intros ->%entry_name_inj.
Qed.

Lemma recognized_duplicate (s : store) names : forall seen,
  ~ (NoDup (omap decode_recognized_block_entry_name names)
     /\ forall id, id ∈ omap decode_recognized_block_entry_name names -> block_entry_name id ∉ seen) ->
  exists id, id ∈ omap decode_recognized_block_entry_name names
  /\ recognized_ids s seen names = Err (duplicate_error (block_entry_name id) s).
Proof.
  induction names as [|name names IH]; intros seen Hd; cbn [recognized_ids omap list_omap] in *.
  { destruct Hd. split; [constructor|set_solver]. }
  destruct (decode_recognized_block_entry_name name) as [id|] eqn:Ed; [|by apply IH].
  apply entry_name_ok in Ed as ->.
  destruct (bool_decide_reflect (block_entry_name id ∈ seen)) as [Hin|Hin]; cbn [negb].
  { exists id. split; [by left|done]. }
  destruct (IH ({[block_entry_name id]} ∪ seen)) as (j & Hj & ->).
  - intros [Hnd Hs]. apply Hd. split.
    + constructor; [|done]. intros Hid. specialize (Hs id Hid). set_solver.
    + intros j [->|Hj]%elem_of_cons; [done|]. specialize (Hs j Hj). set_solver.
  - exists j. split; [by right|done].
Qed.

(** Over the names that a scan finds, the listing and a read. *)
Lemma list_scanned (s : store) file names file' :
  zip_open (zip_path s) (zip_fs s) = inr file ->
  archive_entry_names (zip_path s) file (zip_offset s) = Ok (names, file') ->
  list_block_ids s = recognized_ids s ∅ names.
Proof.
  intros Hopen Hscan. unfold list_block_ids. cbn [iter_block_ids zip_store].
  unfold zip_iter_block_ids, enumerate_block_ids, open_archive_file.
  rewrite Hopen. cbn [zip_context rbind]. rewrite Hscan. cbn [rbind].
  destruct (recognized_ids s ∅ names); [cbn|done..]. by rewrite collect_map_map, collect_map_id.
Qed.

Lemma get_scanned (s : store) file names file' id :
  zip_open (zip_path s) (zip_fs s) = inr file ->
  archive_entry_names (zip_path s) file (zip_offset s) = Ok (names, file') ->
  get_block_bytes id s =
       (match occurrences id (omap decode_recognized_block_entry_name names) with
        | O => Ok None
        | 1%nat => rmap Some (read_entry s (block_entry_name id) file')
        | _ => Err (duplicate_error (block_entry_name id) s)
        end, s).
Proof.
  intros Hopen Hscan. cbn [get_block_bytes zip_store]. unfold zip_get_block_bytes, open_archive_file.
  rewrite Hopen. cbn [zip_context rbind]. rewrite Hscan. cbn [rbind]. rewrite occurrences_names.
  by destruct (occurrences id _) as [|[|n]].
Qed.

(** Over the names that a scan of the archive finds: enumeration gives the recognized
    blocks in the order of the directory, or refuses a block that is there twice; a read
    refuses such a block too, answers none for a block that is not there, and otherwise
    reads the entry of its name. *)
Theorem zip_reads_exact (s : store) file names file' :
  zip_open (zip_path s) (zip_fs s) = inr file ->
  archive_entry_names (zip_path s) file (zip_offset s) = Ok (names, file') ->
  let ids := omap decode_recognized_block_entry_name names in
  (NoDup ids -> list_block_ids s = Ok ids)
  /\ (~ NoDup ids -> exists id, id ∈ ids /\ list_block_ids s = Err (duplicate_error (block_entry_name id) s))
  /\ forall id, get_block_bytes id s =
       (match occurrences id ids with
        | O => Ok None
        | 1%nat => rmap Some (read_entry s (block_entry_name id) file')
        | _ => Err (duplicate_error (block_entry_name id) s)
        end, s).
Proof.
  intros Hopen Hscan ids. rewrite (list_scanned s file names file' Hopen Hscan). split_and!.
  - intros Hnd. apply recognized_ok; [set_solver|done].
  - intros Hnd. apply recognized_duplicate. by intros [? _].
  - intros id. by apply (get_scanned s file).
Qed.

Lemma read_entry_no_panic (s : store) name (file : H) : no_panic (read_entry s name file).
Proof.
  unfold read_entry, open_archive_from_file. apply rbind_no_panic; [apply zip_context_no_panic|]. intros f1 _.
  destruct (archive_new f1) as [e|a]; cbn [rbind]; [done|].
  destruct (by_name a name) as [e|entry]; [done|apply zip_context_no_panic].
Qed.

Lemma zip_get_ok (s : store) id r s' : zip_get_block_bytes id s = (r, s') ->
  s' = s /\ r <> Panic
  /\ forall b, r = Ok (Some b) -> exists file names file', zip_open (zip_path s) (zip_fs s) = inr file
       /\ archive_entry_names (zip_path s) file (zip_offset s) = Ok (names, file')
       /\ read_entry s (block_entry_name id) file' = Ok b.
Proof.
  unfold zip_get_block_bytes, open_archive_file. intros [= <- <-]. split; [done|].
  destruct (zip_open (zip_path s) (zip_fs s)) as [e|file]; cbn [zip_context rbind]; [done|].
  pose proof (zip_scan_no_panic (zip_path s) file (zip_offset s)) as Hn.
  destruct (archive_entry_names (zip_path s) file (zip_offset s)) as [[names f1]|e|] eqn:Ea; cbn [rbind]; [|done..].
  destruct (1 <? _)%nat; [done|]. destruct (_ =? 0)%nat; [done|].
  pose proof (read_entry_no_panic s (block_entry_name id) f1) as Hr.
  destruct (read_entry s (block_entry_name id) f1) as [b'|e|] eqn:Er; cbn [rmap]; [|done..].
  split; [done|]. intros b [= <-]. by exists file, names, f1.
Qed.

(** The store answers a read with the bytes of an entry, and refuses every write. *)
#[export] Program Instance zip_store_laws : StoreLaws store := {|
  store_ok _ := True;
  stored s k b := exists file names file', zip_open (zip_path s) (zip_fs s) = inr file
    /\ archive_entry_names (zip_path s) file (zip_offset s) = Ok (names, file')
    /\ read_entry s (block_entry_name k) file' = Ok b
|}.
Next Obligation. intros s k r s' _ Hg. destruct (zip_get_ok s k r s' Hg) as (-> & ? & ?). by split_and!. Qed.
Next Obligation. intros s k b r s' _ [= <- <-]. split_and!; [done..|]. intros j c ?. by left. Qed.
End store.

(** ** An archive image *)

(** An entry of the central directory: the fields the scan skips, and the name, extra
    field and comment. *)
Record ImageEntry := { fields_before : bytes; fields_after : bytes; e_name : bytes; e_extra : bytes; e_comment : bytes }.

Definition central_entry (e : ImageEntry) : bytes :=
  CENTRAL_DIRECTORY_HEADER_SIGNATURE ++ fields_before e ++ le_split 2 (len (e_name e))
  ++ le_split 2 (len (e_extra e)) ++ le_split 2 (len (e_comment e)) ++ fields_after e
  ++ e_name e ++ e_extra e ++ e_comment e.

Definition end_record (count size offset : N) (comment : bytes) : bytes :=
  END_OF_CENTRAL_DIRECTORY_SIGNATURE ++ [Byte.x00; Byte.x00; Byte.x00; Byte.x00] ++ le_split 2 count
  ++ le_split 2 count ++ le_split 4 size ++ le_split 4 offset ++ le_split 2 (len comment) ++ comment.

Definition directory (es : list ImageEntry) : bytes := concat (map central_entry es).

(** What precedes the archive (a self-extractor stub, say), the entries' data, the
    directory and the end record; offsets count from the end of [stub]. *)
Definition image (stub data : bytes) (es : list ImageEntry) (comment : bytes) : bytes :=
  stub ++ data ++ directory es ++ end_record (len es) (len (directory es)) (len data) comment.

Definition entry_ok (e : ImageEntry) : Prop :=
  len (fields_before e) = 24%N /\ len (fields_after e) = 12%N
  /\ (len (e_name e) <= U16_MAX)%N /\ (len (e_extra e) <= U16_MAX)%N /\ (len (e_comment e) <= U16_MAX)%N.

(** The fields fit the classic record, its signature does not begin again inside it, and
    no zip64 locator precedes it. *)
Definition image_ok (stub data : bytes) (es : list ImageEntry) (comment : bytes) : Prop :=
  let eocd := end_record (len es) (len (directory es)) (len data) comment in
  let before := stub ++ data ++ directory es in
  Forall entry_ok es /\ (len es < U16_MAX)%N /\ (len (directory es) < U32_MAX)%N /\ (len data < U32_MAX)%N
  /\ (len comment <= U16_MAX)%N /\ (len (image stub data es comment) <= U64_MAX)%N
  /\ (forall j, (0 < j)%nat -> starts_with END_OF_CENTRAL_DIRECTORY_SIGNATURE (drop j eocd) = false)
  /\ starts_with ZIP64_END_OF_CENTRAL_DIRECTORY_LOCATOR_SIGNATURE (drop (length before - 20) before) = false.

(** *** Reading it back *)
Lemma read_le_at width a v b : (v < 256 ^ N.of_nat width)%N -> read_le width (a ++ le_split width v ++ b) (length a) = Some v.
Proof.
  intros Hv. unfold read_le. rewrite !length_app, le_split_length.
  rewrite (proj2 (Nat.leb_le _ _)) by lia. rewrite drop_app_length.
  rewrite take_app_le by (rewrite le_split_length; lia). rewrite take_ge by (rewrite le_split_length; lia).
  rewrite le_combine_split, N.mod_small by done. done.
Qed.

Lemma starts_with_app l r : starts_with l (l ++ r) = true.
Proof. unfold starts_with. apply bool_decide_eq_true. apply take_app_length. Qed.

Lemma u16_fits v : (v <= U16_MAX)%N -> (v < 256 ^ N.of_nat 2)%N.
Proof. unfold U16_MAX. cbn. lia. Qed.
Lemma u32_fits v : (v <= U32_MAX)%N -> (v < 256 ^ N.of_nat 4)%N.
Proof. unfold U32_MAX. cbn. lia. Qed.

(** The fixed part of an entry. *)
Definition entry_header (e : ImageEntry) : bytes :=
  CENTRAL_DIRECTORY_HEADER_SIGNATURE ++ fields_before e ++ le_split 2 (len (e_name e))
  ++ le_split 2 (len (e_extra e)) ++ le_split 2 (len (e_comment e)) ++ fields_after e.

Lemma central_entry_split e : central_entry e = entry_header e ++ e_name e ++ e_extra e ++ e_comment e.
Proof. unfold central_entry, entry_header. by rewrite <- !app_assoc. Qed.

Lemma len_app {A} (l k : list A) : len (l ++ k) = (len l + len k)%N.
Proof. unfold len. rewrite length_app. lia. Qed.

Lemma entry_header_length e : entry_ok e -> length (entry_header e) = 46%nat.
Proof. intros (Hb & Ha & _). unfold entry_header, len in *. rewrite !length_app, !le_split_length. cbn. lia. Qed.

Lemma entry_header_fields e : entry_ok e ->
  starts_with CENTRAL_DIRECTORY_HEADER_SIGNATURE (entry_header e) = true
  /\ read_u16_le (entry_header e) 28 = Some (len (e_name e))
  /\ read_u16_le (entry_header e) 30 = Some (len (e_extra e))
  /\ read_u16_le (entry_header e) 32 = Some (len (e_comment e)).
Proof.
  intros (Hb & Ha & Hn & Hx & Hc). unfold entry_header. split; [apply starts_with_app|].
  assert (length (CENTRAL_DIRECTORY_HEADER_SIGNATURE ++ fields_before e) = 28%nat) as H28
    by (rewrite length_app; unfold len in Hb; cbn; lia).
  split_and!.
  - rewrite app_assoc. rewrite <- H28. apply read_le_at. by apply u16_fits.
  - rewrite app_assoc, (app_assoc (_ ++ _)).
    replace 30%nat with (length ((CENTRAL_DIRECTORY_HEADER_SIGNATURE ++ fields_before e) ++ le_split 2 (len (e_name e))))
      by (rewrite length_app, H28, le_split_length; lia).
    apply read_le_at. by apply u16_fits.
  - rewrite app_assoc, (app_assoc (_ ++ _)), (app_assoc (_ ++ _)).
    replace 32%nat with (length (((CENTRAL_DIRECTORY_HEADER_SIGNATURE ++ fields_before e) ++ le_split 2 (len (e_name e))) ++ le_split 2 (len (e_extra e))))
      by (rewrite !(length_app (_ ++ _)), H28, !le_split_length; lia).
    apply read_le_at. by apply u16_fits.
Qed.

(** *** Finding the end record *)
Lemma find_eocd_from_eq tail k : find_eocd_from tail k =
  match eocd_at tail k with
  | Some r => r
  | None => match k with O => None | S j => find_eocd_from tail j end
  end.
Proof. by destruct k. Qed.

Definition found_record (count size offset : N) : EndOfCentralDirectory :=
  {| eocd_entry_count := count; eocd_directory_offset := offset; eocd_directory_size := size; zip64_eocd_offset := None |}.

Definition no_locator (before : bytes) : Prop :=
  starts_with ZIP64_END_OF_CENTRAL_DIRECTORY_LOCATOR_SIGNATURE (drop (length before - 20) before) = false.

Lemma starts_with_prefix l k r : (length l <= length k)%nat -> starts_with l (k ++ r) = starts_with l k.
Proof. intros Hl. unfold starts_with. by rewrite take_app_le. Qed.

Lemma end_record_length count size offset comment : length (end_record count size offset comment) = (22 + length comment)%nat.
Proof. unfold end_record. rewrite !length_app, !le_split_length. cbn. lia. Qed.

Lemma end_record_fields before count size offset comment :
  (count <= U16_MAX)%N -> (size <= U32_MAX)%N -> (offset <= U32_MAX)%N -> (len comment <= U16_MAX)%N ->
  let tail := before ++ end_record count size offset comment in
  read_u16_le tail (length before + 10) = Some count /\ read_u32_le tail (length before + 12) = Some size
  /\ read_u32_le tail (length before + 16) = Some offset /\ read_u16_le tail (length before + 20) = Some (len comment).
Proof.
  intros Hc Hs Ho Hm tail.
  pose (a := before ++ END_OF_CENTRAL_DIRECTORY_SIGNATURE ++ [Byte.x00; Byte.x00; Byte.x00; Byte.x00] ++ le_split 2 count).
  assert (tail = a ++ le_split 2 count ++ le_split 4 size ++ le_split 4 offset ++ le_split 2 (len comment) ++ comment) as ->
    by (subst tail a; unfold end_record; by rewrite <- !app_assoc).
  assert (length a = length before + 10)%nat as Ha by (subst a; rewrite !length_app, le_split_length; done).
  split_and!.
  - rewrite <- Ha. apply read_le_at. by apply u16_fits.
  - rewrite (app_assoc a). replace (length before + 12)%nat with (length (a ++ le_split 2 count)) by (rewrite length_app, le_split_length; lia).
    apply read_le_at. by apply u32_fits.
  - rewrite (app_assoc a), (app_assoc (a ++ _)).
    replace (length before + 16)%nat with (length ((a ++ le_split 2 count) ++ le_split 4 size)) by (rewrite !length_app, !le_split_length; lia).
    apply read_le_at. by apply u32_fits.
  - rewrite (app_assoc a), (app_assoc (a ++ _)), (app_assoc ((a ++ _) ++ _)).
    replace (length before + 20)%nat with (length (((a ++ le_split 2 count) ++ le_split 4 size) ++ le_split 4 offset)) by (rewrite !length_app, !le_split_length; lia).
    apply read_le_at. by apply u16_fits.
Qed.

Lemma eocd_found before count size offset comment :
  (count <= U16_MAX)%N -> (size <= U32_MAX)%N -> (offset <= U32_MAX)%N -> (len comment <= U16_MAX)%N ->
  (forall j, (0 < j)%nat ->
    starts_with END_OF_CENTRAL_DIRECTORY_SIGNATURE (drop j (end_record count size offset comment)) = false) ->
  no_locator before ->
  find_end_of_central_directory (before ++ end_record count size offset comment) = Some (found_record count size offset).
Proof.
  intros Hc Hs Ho Hm Hlater Hloc.
  destruct (end_record_fields before count size offset comment Hc Hs Ho Hm) as (Rc & Rs & Ro & Rm).
  set (tail := before ++ end_record count size offset comment) in *.
  assert (length tail = length before + (22 + length comment))%nat as Hlen
    by (subst tail; by rewrite length_app, end_record_length).
  unfold find_end_of_central_directory, EOCD_LEN. rewrite (proj2 (Nat.ltb_ge _ _)) by lia.
  replace (length tail - 22)%nat with (length before + length comment)%nat by lia.
  generalize (length comment) at 1. intros n. induction n as [|n IH]; rewrite find_eocd_from_eq.
  - rewrite Nat.add_0_r. unfold eocd_at. subst tail. rewrite drop_app_length.
    assert (starts_with END_OF_CENTRAL_DIRECTORY_SIGNATURE (end_record count size offset comment) = true) as -> by apply starts_with_app.
    cbn [negb]. rewrite Rm.
    assert (N.of_nat (length before + EOCD_LEN) + len comment = len (before ++ end_record count size offset comment))%N as ->
      by (unfold len; rewrite Hlen; unfold EOCD_LEN; lia).
    rewrite N.eqb_refl. cbn [negb]. rewrite Rc, Rs, Ro. unfold found_record. do 3 f_equal.
    destruct (Nat.leb_spec 20 (length before)) as [Hl|]; [|done]. cbn [andb].
    rewrite drop_app_le, starts_with_prefix by (try rewrite length_drop; cbn; lia). by rewrite Hloc.
  - assert (eocd_at tail (length before + S n) = None) as ->.
    { unfold eocd_at. subst tail. rewrite drop_app_add, Hlater by lia. done. }
    by rewrite Nat.add_succ_r.
Qed.

Section roundtrip.
Context {F H : Type} `{ZipFileReliable F H}.
Variable p : path.

(** A read of the next bytes of a reliable file. *)
Lemma read_next (file : H) pre b post : file_bytes file = pre ++ b ++ post -> file_pos file = len pre ->
  exists file', zip_read_exact file (len b) = inr (b, file')
  /\ file_bytes file' = file_bytes file /\ file_pos file' = (len pre + len b)%N.
Proof.
  intros Hb Hp. destruct (zip_read_ok file (len b)) as (b' & file' & Hr); [rewrite Hb, !len_app; lia|].
  destruct (zip_read_law _ _ _ _ Hr) as (Hfb & Hfp & Hb' & _). exists file'. split_and!; [|done|lia].
  rewrite Hr. f_equal. f_equal. rewrite Hb', Hp, Hb. unfold len. rewrite !Nat2N.id, drop_app_length.
  apply take_app_length.
Qed.

Lemma scan_header_ok i e pre post dir_end (file : H) :
  file_bytes file = pre ++ central_entry e ++ post -> file_pos file = len pre -> entry_ok e ->
  (len pre + len (central_entry e) <= dir_end)%N -> (dir_end <= U64_MAX)%N ->
  exists file', scan_header p i dir_end (len pre) file
    = Ok (name_of_bytes (e_name e), (len pre + len (central_entry e))%N, file')
  /\ file_bytes file' = file_bytes file /\ file_pos file' = (len pre + len (central_entry e))%N.
Proof.
  intros Hb Hp He Hd Hmax. destruct (entry_header_fields e He) as (Hsig & Hn & Hx & Hc).
  pose proof (entry_header_length e He) as Hhl. assert (len (entry_header e) = 46%N) as Hl by (unfold len; lia).
  rewrite central_entry_split in *. rewrite !len_app in *. rewrite Hl in *.
  destruct He as (_ & _ & Hn16 & Hx16 & Hc16).
  destruct (read_next file pre (entry_header e) (e_name e ++ e_extra e ++ e_comment e ++ post)) as (f1 & Hr1 & Hb1 & Hp1);
    [rewrite Hb, <- !app_assoc; done|done|].
  destruct (read_next f1 (pre ++ entry_header e) (e_name e) (e_extra e ++ e_comment e ++ post)) as (f2 & Hr2 & Hb2 & Hp2);
    [rewrite Hb1, Hb, <- !app_assoc; done|rewrite Hp1, len_app; lia|].
  destruct (zip_seek_ok f2 (SeekCurrent (Z.of_N (len (e_extra e) + len (e_comment e))))) as [f3 Hs]; [cbn; lia|].
  destruct (zip_seek_law _ _ _ Hs) as [Hb3 Hp3]. cbn [seek_target] in Hp3. rewrite Hl in *. rewrite len_app in *.
  exists f3. split; [|split; [congruence|lia]].
  unfold scan_header. unfold CENTRAL_DIRECTORY_HEADER_LEN. rewrite (proj2 (bounded_add_some (len pre) 46 dir_end (len pre + 46))) by (split_and!; [done|lia|lia]).
  cbn [ok_or rbind]. rewrite Hr1. cbn [zip_context rbind]. rewrite Hsig, Hn, Hx, Hc. cbn [ok_or rbind].
  unfold checked_add, USIZE_MAX. rewrite (proj2 (N.leb_le (len (e_name e) + len (e_extra e)) _)) by (unfold U16_MAX in *; lia).
  rewrite (proj2 (N.leb_le (len (e_name e) + len (e_extra e) + len (e_comment e)) _)) by (unfold U16_MAX in *; lia).
  cbn [ok_or rbind].
  rewrite (proj2 (bounded_add_some (len pre + 46) _ dir_end (len pre + 46 + (len (e_name e) + len (e_extra e) + len (e_comment e))))) by (split_and!; [done|lia|lia]).
  cbn [ok_or rbind]. rewrite Hr2. cbn [zip_context rbind]. rewrite Hs. cbn [zip_context rbind].
  do 2 f_equal. f_equal. lia.
Qed.

Lemma scan_headers_ok es : forall fuel i count pre post dir_end (file : H),
  file_bytes file = pre ++ directory es ++ post -> file_pos file = len pre -> Forall entry_ok es ->
  (len pre + len (directory es) <= dir_end)%N -> (dir_end <= U64_MAX)%N -> (count = i + len es)%N ->
  (dir_end < len pre + 46 * N.of_nat fuel)%N ->
  exists file', scan_headers p fuel i count dir_end (len pre) file = Ok (omap (fun e => name_of_bytes (e_name e)) es, file').
Proof.
  induction es as [|e es IH]; intros fuel i count pre post dir_end file Hb Hp Hes Hd Hmax Hc Hf.
  - exists file. assert (count = i) as -> by (rewrite Hc; apply N.add_0_r). destruct fuel; cbn [scan_headers]; by rewrite N.leb_refl.
  - apply Forall_cons in Hes as [He Hes]. unfold directory in *. cbn [map concat] in *. rewrite len_app in Hd.
    rewrite <- app_assoc in Hb.
    destruct (scan_header_ok i e pre _ dir_end file Hb Hp He ltac:(lia) Hmax) as (f1 & Hs & Hb1 & Hp1).
    pose proof (scan_header_bounds _ _ _ _ _ _ _ _ Hs) as Hbd.
    destruct fuel as [|fuel]; [lia|]. cbn [scan_headers].
    rewrite (proj2 (N.leb_gt _ _)) by (rewrite Hc; unfold len; cbn [length]; lia). rewrite Hs. cbn [rbind].
    rewrite <- len_app in Hp1 |- *.
    destruct (IH fuel (i + 1)%N count (pre ++ central_entry e) post dir_end f1) as [f2 Hr];
      [rewrite Hb1, Hb, <- !app_assoc; done|done|done|rewrite len_app; lia|done
      |rewrite Hc; unfold len; cbn [length]; lia|rewrite len_app; lia|].
    rewrite Hr. cbn [rbind]. exists f2. cbn. by destruct (name_of_bytes (e_name e)).
Qed.

(** What a scan of an archive image finds. *)
Lemma image_scan stub data es comment (file : H) :
  image_ok stub data es comment -> file_bytes file = image stub data es comment ->
  exists file', archive_entry_names p file (len stub) = Ok (omap (fun e => name_of_bytes (e_name e)) es, file').
Proof.
  intros (Hes & Hc & Hs & Ho & Hm & Hmax & Hlater & Hloc) Hb. cbn zeta in *.
  set (before := stub ++ data ++ directory es) in *.
  set (eocd := end_record (len es) (len (directory es)) (len data) comment) in *.
  assert (file_bytes file = before ++ eocd) as Hb' by (rewrite Hb; unfold image, before; by rewrite <- !app_assoc).
  assert (len (image stub data es comment) = len before + len eocd)%N as HL by (rewrite <- len_app, <- Hb', Hb; done).
  assert (len eocd = 22 + len comment)%N as HE by (unfold len, eocd; rewrite end_record_length; lia).
  unfold archive_entry_names. pose proof (zip_len_ok file) as [n Hn].
  destruct (zip_len file) as [?|n'] eqn:Hlen; [done|]. injection Hn as ->. apply zip_len_law in Hlen as Hn. rewrite Hb', len_app in Hn.
  cbn [zip_context rbind]. unfold EOCD_LEN, U16_MAX, ZIP64_END_OF_CENTRAL_DIRECTORY_LOCATOR_LEN in *.
  set (t := N.min n (N.of_nat 22 + 65535 + 20)).
  assert (len eocd <= t <= n)%N as Ht by lia. rewrite Hn in Ht.
  destruct (zip_seek_ok file (SeekEnd (- Z.of_N t))) as [f1 Hs1]; [cbn [seek_target]; rewrite Hb', len_app; lia|].
  destruct (zip_seek_law _ _ _ Hs1) as [Hb1 Hp1]. cbn [seek_target] in Hp1. rewrite Hs1. cbn [zip_context rbind].
  rewrite Hb', len_app in Hp1.
  set (k := N.to_nat (n - t)). assert (k <= length before)%nat as Hk by (unfold len in *; lia).
  assert (file_bytes f1 = take k before ++ (drop k before ++ eocd) ++ []) as Hf1
    by (rewrite Hb1, Hb', app_nil_r, app_assoc, take_drop; done).
  assert (file_pos f1 = len (take k before)) as Hpos1 by (unfold len in *; rewrite length_take; lia).
  destruct (read_next f1 _ _ _ Hf1 Hpos1) as (f2 & Hr2 & Hb2 & _).
  replace (len (drop k before ++ eocd)) with t in Hr2 by (rewrite len_app; unfold len in *; rewrite length_drop; lia).
  rewrite Hr2. cbn [zip_context rbind].
  assert (find_end_of_central_directory (drop k before ++ eocd) = Some (found_record (len es) (len (directory es)) (len data))) as ->.
  { assert ((n < N.of_nat 22 + 65535 + 20)%N \/ (20 <= length before - k)%nat) as Hcase by (unfold len in *; lia).
    apply eocd_found; [unfold U16_MAX; lia|lia|lia|unfold U16_MAX; lia|exact Hlater|].
    unfold no_locator. rewrite length_drop, drop_drop. destruct Hcase as [Hn'|Hn'].
    - assert (k = 0)%nat as -> by lia. by rewrite Nat.add_0_l, Nat.sub_0_r.
    - by replace (k + (length before - k - 20))%nat with (length before - 20)%nat by lia. }
  cbn [ok_or rbind]. unfold resolve_central_directory, classic_central_directory, requires_zip64. cbn [eocd_entry_count eocd_directory_offset eocd_directory_size zip64_eocd_offset found_record].
  assert (len stub + len data + len (directory es) = len before)%N as HB by (unfold before; rewrite !len_app; lia).
  unfold checked_add. rewrite (proj2 (N.leb_le (len stub + len data) U64_MAX)) by lia. cbn [ok_or rbind].
  rewrite (proj2 (N.eqb_neq (len es) _)), (proj2 (N.eqb_neq (len (directory es)) _)), (proj2 (N.eqb_neq (len data) _)) by (unfold U16_MAX; lia).
  cbn [orb negb rbind entry_count directory_offset directory_size].
  rewrite (proj2 (bounded_add_some (len stub + len data) (len (directory es)) n (len before))) by (split_and!; lia). cbn [ok_or rbind].
  destruct (zip_seek_ok f2 (SeekStart (len stub + len data))) as [f3 Hs3]; [cbn [seek_target]; lia|].
  destruct (zip_seek_law _ _ _ Hs3) as [Hb3 Hp3]. cbn [seek_target] in Hp3. rewrite Hs3. cbn [zip_context rbind].
  rewrite <- len_app in Hp3 |- *.
  apply (scan_headers_ok es _ 0 (len es) (stub ++ data) eocd); [|lia|done|rewrite len_app; lia|lia|lia|].
  - rewrite Hb3, Hb2, Hb1, Hb'. unfold before. by rewrite <- !app_assoc.
  - unfold scan_fuel, CENTRAL_DIRECTORY_HEADER_LEN. pose proof (N.div_mod n 46 ltac:(lia)) as Hd.
    pose proof (N.mod_lt n 46 ltac:(lia)) as Hmod. revert Hd Hmod. generalize (n / 46)%N (n mod 46)%N. intros q r Hd Hmod. lia.
Qed.
End roundtrip.

(** ** Properties *)
Lemma scan_headers_count {F H : Type} `{ZipFile F H} p fuel : forall i count e cursor (file : H) names file',
  (cursor <= e)%N -> scan_headers p fuel i count e cursor file = Ok (names, file') -> (46 * len names <= e - cursor)%N.
Proof.
  induction fuel as [|fuel IH]; intros i count e cursor file names file' Hc Hs; cbn [scan_headers] in Hs;
    (destruct (count <=? i)%N; [injection Hs as <- <-; unfold len; cbn [length N.of_nat]; lia|]); [done|].
  apply rbind_ok in Hs as ([[o cursor'] f1] & He%scan_header_bounds & Hs).
  apply rbind_ok in Hs as ([names' f2] & Hr & Hs). apply IH in Hr; [|lia]. injection Hs as <- <-.
  destruct o; unfold len in *; cbn [length]; lia.
Qed.

(** Whatever the bytes of an archive and whatever the file operations answer, the
    scan of its central directory ends without a panic, and the names it returns are no
    more than fit the file at 46 bytes each. *)
Theorem zip_scan_total {F H : Type} `{ZipFile F H} p (file : H) offset :
  archive_entry_names p file offset <> Panic
  /\ forall names file' n, archive_entry_names p file offset = Ok (names, file') -> zip_len file = inr n ->
       (46 * len names <= n)%N.
Proof.
  split; [apply zip_scan_no_panic|]. intros names file' n Hs Hn. unfold archive_entry_names in Hs. rewrite Hn in Hs.
  cbn [zip_context rbind] in Hs. apply rbind_ok in Hs as (f1 & _ & Hs). apply rbind_ok in Hs as ([tail f2] & _ & Hs).
  apply rbind_ok in Hs as (eocd & _ & Hs). apply rbind_ok in Hs as ([d f3] & _ & Hs).
  apply rbind_ok in Hs as (e & He & Hs). apply rbind_ok in Hs as (f4 & _ & Hs).
  apply ok_or_ok, bounded_add_some in He as (-> & He & _). apply scan_headers_count in Hs; lia.
Qed.

Lemma ascii_utf8 l : Forall (fun n => n <= 127)%N l -> utf8_valid l = true.
Proof.
  induction l as [|a l IH]; [done|]. intros [Ha Hl]%Forall_cons. cbn [utf8_valid].
  rewrite (proj2 (N.leb_le _ _)) by done. by apply IH.
Qed.

Lemma byte_of_ascii_code c : Byte.to_N (Ascii.byte_of_ascii c) = Ascii.N_of_ascii c.
Proof. by destruct c as [[] [] [] [] [] [] [] []]. Qed.

Lemma hex_digit_ascii n : (n < 16)%N -> (Ascii.N_of_ascii (hex_digit n) <= 127)%N.
Proof.
  intros Hn. unfold hex_digit. destruct (n <? 10)%N; rewrite Ascii.N_ascii_embedding; lia.
Qed.

Lemma entry_name_text id : name_of_bytes (String.list_byte_of_string (block_entry_name id)) = Some (block_entry_name id).
Proof.
  unfold name_of_bytes. rewrite ascii_utf8; [by rewrite String.string_of_list_byte_of_string|].
  unfold String.list_byte_of_string. rewrite map_map.
  assert (Forall (fun c => Ascii.N_of_ascii c <= 127)%N (String.list_ascii_of_string (block_entry_name id))) as Ha.
  { assert (Forall (fun c => Ascii.N_of_ascii c <= 127)%N (String.list_ascii_of_string (BlockHash_to_string id))) as Hh.
    { eapply Forall_impl; [apply hex_digits_of|]. intros c (n & Hn & ->). by apply hex_digit_ascii. }
    unfold block_entry_name. rewrite !list_ascii_app, !Forall_app. split_and!; try by repeat constructor.
    - by apply substring_chars.
    - by apply substring_chars. }
  apply Forall_map. eapply Forall_impl; [exact Ha|]. intros c.
  by rewrite byte_of_ascii_code.
Qed.

Section image.
Context {F H : Type} `{ZipFileReliable F H} `{ZipOps H}.

(** C35 A store over an archive image whose central directory names the given blocks,
    each once and among extra data, comments and a stub of any content, lists exactly
    these blocks in the order of the directory, answers none for every other block, and
    reads a block that is there from the entry of its name. *)
Theorem zip_image_roundtrip (s : ZipBlockStore F) (file : H) stub data es comment ids :
  zip_open (zip_path s) (zip_fs s) = inr file -> zip_offset s = len stub ->
  file_bytes file = image stub data es comment -> image_ok stub data es comment ->
  map e_name es = map (fun id => String.list_byte_of_string (block_entry_name id)) ids -> NoDup ids ->
  list_block_ids s = Ok ids
  /\ forall id, exists file',
       get_block_bytes id s
       = ((if bool_decide (id ∈ ids) then rmap Some (read_entry s (block_entry_name id) file') else Ok None), s).
Proof.
  intros Hopen Hoff Hb Hi Hn Hnd. destruct (image_scan (zip_path s) stub data es comment file Hi Hb) as [file' Hscan].
  rewrite <- Hoff in Hscan.
  assert (omap (fun e => name_of_bytes (e_name e)) es = map block_entry_name ids) as Hnames.
  { clear -Hn. revert ids Hn. induction es as [|e es IH]; intros [|id ids] Hn; try done.
    injection Hn as He Hn. cbn. rewrite He, entry_name_text. f_equal. by apply IH. }
  rewrite Hnames in Hscan.
  assert (omap decode_recognized_block_entry_name (map block_entry_name ids) = ids) as Hids.
  { clear. induction ids as [|id ids IH]; [done|]. cbn. rewrite (proj2 (entry_name_ok _ id) eq_refl). by rewrite IH. }
  assert (list_block_ids s = recognized_ids s ∅ (map block_entry_name ids)) as Hl by by eapply list_scanned.
  split; [rewrite Hl; rewrite <- Hids at 2; apply recognized_ok; rewrite Hids; [set_solver|done]|].
  intros id. exists file'. rewrite (get_scanned s file _ file' id Hopen Hscan), Hids.
  destruct (bool_decide_reflect (id ∈ ids)) as [Hin|Hin].
  - by rewrite occurrences_unique.
  - by rewrite (proj2 (occurrences_elem id ids) Hin).
Qed.
End image.

(** ** Witnesses: a file in memory *)
#[export] Instance mem_file : ZipFile bytes (bytes * N) := {|
  zip_canonicalize p _ := inr p;
  zip_is_file _ _ := inr true;
  zip_open _ b := inr (b, 0%N);
  zip_len h := inr (len h.1);
  zip_seek h w :=
    let target := seek_target (len h.1) h.2 w in
    if (target <? 0)%Z then inl {| error_kind := OtherKind; error_text := "invalid seek" |} else inr (h.1, Z.to_N target);
  zip_read_exact h n :=
    if (h.2 + n <=? len h.1)%N then inr (take (N.to_nat n) (drop (N.to_nat h.2) h.1), (h.1, (h.2 + n)%N))
    else inl {| error_kind := OtherKind; error_text := "failed to fill whole buffer" |}
|}.

#[export] Program Instance mem_file_laws : ZipFileLaws bytes (bytes * N) := {| file_bytes := fst; file_pos := snd |}.
Next Obligation. by intros h n [= <-]. Qed.
Next Obligation.
  intros h w h'. cbn [zip_seek mem_file]. destruct (Z.ltb_spec (seek_target (len h.1) h.2 w) 0); [done|].
  intros [= <-]. cbn. split; [done|]. by rewrite Z2N.id.
Qed.
Next Obligation.
  intros h n b h'. cbn [zip_read_exact mem_file]. destruct (N.leb_spec (h.2 + n) (len h.1)); [|done].
  intros [= <- <-]. cbn. split_and!; try done. unfold len in *. rewrite length_take, length_drop. lia.
Qed.

#[export] Program Instance mem_file_reliable : ZipFileReliable bytes (bytes * N).
Next Obligation. intros h. by eexists. Qed.
Next Obligation.
  intros h w Hw. cbn in *. destruct (Z.ltb_spec (seek_target (len h.1) h.2 w) 0); [lia|]. by eexists.
Qed.
Next Obligation.
  intros h n Hn. cbn in *. destruct (N.leb_spec (h.2 + n) (len h.1)); [|lia]. by eexists _, _.
Qed.

(** An archive library that finds every entry empty. *)
#[export] Instance mem_archive : ZipOps (bytes * N) := {|
  archive := bytes * N; archive_new := inr; offset_of _ := 0%N; entry_file := unit;
  by_name _ _ := inr tt; read_to_end _ := inr []
|}.

(** Two blocks with a text file between them, after a stub, with a comment. *)
Definition sample_ids : list BlockHash := [hash_of_N 7; hash_of_N 3].
Definition sample_entry (e_name : bytes) : ImageEntry :=
  {| fields_before := replicate 24 Byte.x00; fields_after := replicate 12 Byte.x01; e_name := e_name;
     e_extra := [Byte.x50]; e_comment := [] |}.
Definition sample_es : list ImageEntry :=
  map (fun id => sample_entry (String.list_byte_of_string (block_entry_name id))) sample_ids.
Definition sample_stub : bytes := [Byte.x4d; Byte.x5a].
Definition sample_comment : bytes := [Byte.x50; Byte.x4b].
Definition sample_zip : ZipBlockStore bytes :=
  {| zip_path := [Name "blocks.zip"]; zip_offset := 2; zip_fs := image sample_stub [] sample_es sample_comment |}.

Lemma no_later_signature l k :
  forallb (fun j => negb (starts_with END_OF_CENTRAL_DIRECTORY_SIGNATURE (drop j l))) (seq 1 k) = true ->
  (length l <= k)%nat ->
  forall j, (0 < j)%nat -> starts_with END_OF_CENTRAL_DIRECTORY_SIGNATURE (drop j l) = false.
Proof.
  intros Hall Hl j Hj. destruct (decide (j <= k)%nat) as [Hk|Hk].
  - rewrite forallb_forall in Hall. apply negb_true_iff, Hall, in_seq. lia.
  - by rewrite drop_ge by lia.
Qed.

Lemma sample_image_ok : image_ok sample_stub [] sample_es sample_comment.
Proof.
  split_and!; try (vm_compute; congruence).
  - repeat constructor; vm_compute; congruence.
  - apply (no_later_signature _ 24); by vm_compute.
Qed.

Lemma zip_image_roundtrip_witness :
  list_block_ids sample_zip = Ok sample_ids /\ get_block_bytes (hash_of_N 1) sample_zip = (Ok None, sample_zip).
Proof.
  destruct (zip_image_roundtrip sample_zip (zip_fs sample_zip, 0%N) sample_stub [] sample_es sample_comment sample_ids) as [Hl Hg];
    [done|done|done|exact sample_image_ok|by vm_compute|by apply (bool_decide_unpack _); vm_compute|].
  split; [exact Hl|]. destruct (Hg (hash_of_N 1)) as [file' ->].
  assert (bool_decide (hash_of_N 1 ∈ sample_ids) = false) as -> by by vm_compute. done.
Defined.

(** Reading from it through the scanned names. *)
Lemma zip_reads_exact_witness :
  exists names file', archive_entry_names (zip_path sample_zip) (zip_fs sample_zip, 0%N) 2 = Ok (names, file')
  /\ get_block_bytes (hash_of_N 3) sample_zip = (Ok (Some []), sample_zip).
Proof.
  destruct (archive_entry_names (zip_path sample_zip) (zip_fs sample_zip, 0%N) 2) as [[names file']|e|] eqn:E;
    [|vm_compute in E; congruence..].
  exists names, file'. split; [done|].
  assert (zip_open (zip_path sample_zip) (zip_fs sample_zip) = inr (zip_fs sample_zip, 0%N)) as Hopen by done.
  destruct (zip_reads_exact sample_zip _ names file' Hopen E) as (_ & _ & Hg).
  rewrite Hg. vm_compute in E. injection E as <- <-. by vm_compute.
Defined.

Lemma zip_scan_total_witness : exists names file',
  archive_entry_names (zip_path sample_zip) (zip_fs sample_zip, 0%N) 2 = Ok (names, file')
  /\ (46 * len names <= len (zip_fs sample_zip))%N.
Proof.
  destruct (archive_entry_names (zip_path sample_zip) (zip_fs sample_zip, 0%N) 2) as [[names file']|e|] eqn:E;
    [|vm_compute in E; congruence..].
  exists names, file'. split; [done|].
  destruct (zip_scan_total (zip_path sample_zip) (zip_fs sample_zip, 0%N) 2) as [_ Hc]. by apply (Hc names file').
Defined.
