(* ===== verification/Planning.v ===== *)
(** * Planning a hierarchy

    crates/lexongraph-streaming-indexer/src/lib.rs: how the embeddings of a pass
    become a partition hierarchy. A planner clusters one partition, or one layer;
    [derive_partition_recursive] divides from the root down and
    [derive_hierarchy_agglomeratively_with_builder] joins from the items up; the
    published k-means profile packs clusters into terminal partitions and joins
    these greedily. The builder of planners keeps a state of its own; what the
    observer is told is the list of events. *)
From S2P Require Import Prelude Ordering Hash Ieee Ebcp Clustering Store IndexTypes IndexHierarchy IndexLayer.

(** ** Groups *)

(** [BTreeMap::entry(cluster_id).or_default().push(index)] *)
Fixpoint push_index (cluster_id : N) (index : nat) (groups : list (N * list nat)) : list (N * list nat) :=
  match groups with
  | [] => [(cluster_id, [index])]
  | (k, g) :: rest =>
      match N.compare cluster_id k with
      | Lt => (cluster_id, [index]) :: (k, g) :: rest
      | Eq => (k, g ++ [index]) :: rest
      | Gt => (k, g) :: push_index cluster_id index rest
      end
  end.

Definition assignments_to_groups (assignments : list N) : list (list nat) :=
  map snd (foldl (fun groups p => push_index p.2 p.1 groups) [] (imap pair assignments)).

(** [max_by_key(|group| group.len())] picks the last of the longest groups. *)
Definition longest_group (groups : list (list nat)) : option nat :=
  option_map fst (max_by (fun x y => Nat.compare (length x.2) (length y.2)) (imap pair groups)).

Definition ensure_min_two_per_group (groups : list (list nat)) : list (list nat) :=
  let ok := List.filter (fun group => 2 <=? length group)%nat groups in
  let singletons := List.filter (fun group => negb (2 <=? length group)%nat) groups in
  match singletons with
  | [] => ok
  | _ =>
      match longest_group ok with
      | None => match concat singletons with [] => [] | merged => [merged] end
      | Some target => alter (fun group => group ++ concat singletons) target ok
      end
  end.

(** Each group sorted, the groups by their first index. *)
Definition ordered_groups {E} (groups : list (list nat)) : result E (list (list nat)) :=
  let groups := map sort_indices (ensure_min_two_per_group groups) in
  let? keyed := collect_map (fun group => rmap (fun first => (first, group)) (expect (head group))) groups in
  Ok (map snd (sort_by (fun x y => Nat.compare x.1 y.1) keyed)).

(** ** Representatives *)
Definition invalid_config (message : string) : StreamingClusteringError := InvalidConfiguration message.

Definition at_dimension (what : string) (dimension : nat) : StreamingClusteringError :=
  invalid_config (what +:+ " at dimension " +:+ pretty (N.of_nat dimension))%stdpp.

(** The loop body over one dimension of one more embedding. *)
Definition add_weighted (weight : nat) (p : nat * (f64 * f32)) : outcome f64 :=
  let '(dimension, (sum, value)) := p in
  guard? f32_is_finite value else at_dimension "non-finite representative embedding value" dimension in
  let sum := fadd binary64 sum (fmul binary64 (f64_of_f32 value) (f_of_Z binary64 (Z.of_nat weight))) in
  guard? f64_is_finite sum else at_dimension "representative embedding sum overflowed" dimension in
  Ok sum.

Definition weight_error : StreamingClusteringError :=
  invalid_config "representative embedding weight must be positive".

Definition add_embedding (acc : list f64 * nat) (next : list f32 * nat) : outcome (list f64 * nat) :=
  let '(sums, total_weight) := acc in
  let '(embedding, weight) := next in
  guard? negb (weight =? 0)%nat else weight_error in
  guard? (length embedding =? length sums)%nat else
    invalid_config ("representative embedding dimension " +:+ pretty (N.of_nat (length embedding))
      +:+ " does not match expected " +:+ pretty (N.of_nat (length sums)))%stdpp in
  let? sums := collect_map (add_weighted weight) (imap pair (zip sums embedding)) in
  Ok (sums, (total_weight + weight)%nat).

Definition mean_value (total_weight : nat) (p : nat * f64) : outcome f32 :=
  let '(dimension, sum) := p in
  let mean := fdiv binary64 sum (f_of_Z binary64 (Z.of_nat total_weight)) in
  guard? f64_is_finite mean else at_dimension "representative embedding mean became non-finite" dimension in
  let encoded := f32_of_f64 mean in
  guard? f32_is_finite encoded else at_dimension "representative embedding mean overflowed f32" dimension in
  Ok encoded.

Definition weighted_mean_f32_embeddings (embeddings : list (list f32 * nat)) : outcome (list f32) :=
  match embeddings with
  | [] => Err (invalid_config "cannot compute representative embedding from an empty planning group")
  | (first, first_weight) :: rest =>
      guard? negb (first_weight =? 0)%nat else weight_error in
      let sums := map (fun value => fmul binary64 (f64_of_f32 value) (f_of_Z binary64 (Z.of_nat first_weight))) first in
      let? _ := collect_map (fun p =>
        guard? f64_is_finite p.2 else at_dimension "non-finite representative embedding value" p.1 in Ok tt)
        (imap pair sums) in
      let? ' (sums, total_weight) := try_fold add_embedding (sums, first_weight) rest in
      collect_map (mean_value total_weight) (imap pair sums)
  end.

(** ** Metrics *)
Definition stage_rank (s : PlanningStage) : nat :=
  match s with Single => 0 | Coarse => 1 | Fine => 2 | Custom => 3 end.
(** [BTreeSet::insert] *)
Fixpoint insert_stage (s : PlanningStage) (l : list PlanningStage) : list PlanningStage :=
  match l with
  | [] => [s]
  | x :: l' =>
      match Nat.compare (stage_rank s) (stage_rank x) with
      | Lt => s :: x :: l'
      | Eq => x :: l'
      | Gt => x :: insert_stage s l'
      end
  end.

Record PlanningMetricAccumulator := {
  quality_sum : f64; balance_sum : f64; cluster_runs : nat;
  acc_requested : option N; acc_realized : option N;
  acc_quality_direction : MetricDirection; acc_balance_direction : MetricDirection;
  acc_stages : list PlanningStage
}.
Definition accumulator_default : PlanningMetricAccumulator :=
  {| quality_sum := 0; balance_sum := 0; cluster_runs := 0; acc_requested := None; acc_realized := None;
     acc_quality_direction := LargerIsBetter; acc_balance_direction := SmallerIsBetter; acc_stages := [] |}%N.

Definition observe_report (stage : PlanningStage) (report : PassReport) (a : PlanningMetricAccumulator)
  : PlanningMetricAccumulator :=
  let first := (cluster_runs a =? 0)%nat in
  {| quality_sum := fadd binary64 (quality_sum a) (quality_metric report);
     balance_sum := fadd binary64 (balance_sum a) (balance_metric report);
     cluster_runs := S (cluster_runs a);
     acc_requested := if first then Some (requested_cluster_count report) else acc_requested a;
     acc_realized := if first then realized_cluster_count report else acc_realized a;
     acc_quality_direction := if first then quality_direction report else acc_quality_direction a;
     acc_balance_direction := if first then balance_direction report else acc_balance_direction a;
     acc_stages := insert_stage stage (acc_stages a) |}.

Definition average (sum : f64) (runs : nat) : f64 :=
  if (runs =? 0)%nat then 0%N else fdiv binary64 sum (f_of_Z binary64 (Z.of_nat runs)).
Definition average_quality (a : PlanningMetricAccumulator) : f64 := average (quality_sum a) (cluster_runs a).
Definition average_balance (a : PlanningMetricAccumulator) : f64 := average (balance_sum a) (cluster_runs a).

(** The outcome of the empty input, and of an accumulator. *)
Definition empty_outcome : PlanningPassOutcome :=
  {| hierarchy := {| root_partition_id := "p0"; partitions := [] |};
     outcome_requested := None; outcome_realized := None;
     planning_quality_metric := 0; planning_balance_metric := 0;
     planning_quality_direction := LargerIsBetter; planning_balance_direction := SmallerIsBetter;
     stages_used := [] |}%N.

(** [partitions.sort_by(|left, right| left.id.cmp(&right.id))] *)
Definition sort_partitions (l : list FinalizedPartition) : list FinalizedPartition :=
  sort_by (fun a b => string_cmp (partition_id a) (partition_id b)) l.

Definition planned (l : list FinalizedPartition) (requested realized : option N) (a : PlanningMetricAccumulator)
  : PlanningPassOutcome :=
  {| hierarchy := {| root_partition_id := "p0"; partitions := sort_partitions l |};
     outcome_requested := requested; outcome_realized := realized;
     planning_quality_metric := average_quality a; planning_balance_metric := average_balance a;
     planning_quality_direction := acc_quality_direction a;
     planning_balance_direction := acc_balance_direction a; stages_used := acc_stages a |}.

(** ** Telemetry *)
Inductive StatusState := StatusStarted | StatusInProgress | StatusCompleted | StatusFailed.
Inductive ProgressUnitKind :=
| PassItem | HierarchyPlanningItem | PartitionPlanningInvocation | V3LoadItem | V3TrainIngestItem
| V3ClassifiedItem | V3MaterializationLoadItem | ReplayItem | AssemblyGroup.

Record RecursivePlanningTelemetry := {
  started_subproblem_count : nat; completed_subproblem_count : nat;
  started_planner_invocation_count : nat; visited_partition_count : nat;
  finalized_partition_count : nat; rt_terminal_partition_count : nat;
  completed_planner_invocation_count : nat; fallback_count : nat
}.
Definition telemetry_default : RecursivePlanningTelemetry := Build_RecursivePlanningTelemetry 0 0 0 0 0 0 0 0.

(** The increments, by the eight counters. *)
Definition bump (a b c d e f g h : nat) (t : RecursivePlanningTelemetry) : RecursivePlanningTelemetry :=
  {| started_subproblem_count := started_subproblem_count t + a;
     completed_subproblem_count := completed_subproblem_count t + b;
     started_planner_invocation_count := started_planner_invocation_count t + c;
     visited_partition_count := visited_partition_count t + d;
     finalized_partition_count := finalized_partition_count t + e;
     rt_terminal_partition_count := rt_terminal_partition_count t + f;
     completed_planner_invocation_count := completed_planner_invocation_count t + g;
     fallback_count := fallback_count t + h |}.

(** [HierarchyPlanningStatusEvent]: with the counters of a unit, or without. *)
Record UnitDetail := {
  current_partition_path : string; current_partition_size : nat; current_recursion_depth : nat;
  unit_counts : RecursivePlanningTelemetry
}.
Record HierarchyPlanningStatusEvent := {
  event_stage : PlanningStage; event_state : StatusState; legacy_item_count : nat;
  progress_unit_kind : ProgressUnitKind; unit_detail : option UnitDetail
}.
Definition legacy_event (stage : PlanningStage) (count : nat) (state : StatusState) : HierarchyPlanningStatusEvent :=
  {| event_stage := stage; event_state := state; legacy_item_count := count;
     progress_unit_kind := HierarchyPlanningItem; unit_detail := None |}.

(** [partition_path.split('.').count().saturating_sub(1)] is the number of dots. *)
Fixpoint partition_depth (partition_path : string) : nat :=
  match partition_path with
  | EmptyString => 0
  | String c rest => (if Ascii.eqb c (Ascii.ascii_of_N 46) then 1 else 0) + partition_depth rest
  end.

Definition unit_event (t : RecursivePlanningTelemetry) (stage : PlanningStage) (count : nat) (path : string)
  (state : StatusState) : HierarchyPlanningStatusEvent :=
  {| event_stage := stage; event_state := state; legacy_item_count := count;
     progress_unit_kind := PartitionPlanningInvocation;
     unit_detail := Some {| current_partition_path := path; current_partition_size := count;
                            current_recursion_depth := partition_depth path; unit_counts := t |} |}.

(** ** Planners *)

(** [PartitionPlannerRunner]: [run_planner] also counts the progress it reports. *)
Class PartitionPlannerRunner (P : Type) := {
  planner_stage : P -> PlanningStage;
  run_planner : P -> list (list f32) -> outcome (PassReport * list N) * nat
}.

Record PartitionPlanner (T : Type) := { pp_stage : PlanningStage; pp_trainer : T }.
Arguments pp_stage {T} _.
Arguments pp_trainer {T} _.

(** The error by which a trainer asks for one more replay *)
Definition asks_replay (e : StreamingClusteringError) : bool :=
  match e with
  | InvalidTransition PassComplete operation => (operation =? "complete_training")%string
  | _ => false
  end.

Section runner.
Context {T C : Type} `{StreamingClusterTrainer T C} `{!StreamingClusterClassifier C}.

(** The replay loop: the report of the last pass, the trainer, the progress so far. *)
Fixpoint replay_loop (rounds : nat) (limit : N) (embeddings : list (list f32)) (t : T) (progress : nat)
  : outcome (PassReport * T) * nat :=
  match rounds with
  | O => (Err (MalformedInput ("planner exceeded the maximum replay pass count of " +:+ pretty limit)%stdpp), progress)
  | S rounds' =>
      match ingest_batch embeddings t with
      | (Err e, _) => (Err e, progress)
      | (Panic, _) => (Panic, progress)
      | (Ok _, t) =>
          match finish_pass t with
          | (Err e, _) => (Err e, S progress)
          | (Panic, _) => (Panic, S progress)
          | (Ok pass_report, t) =>
              match readiness pass_report with
              | AnalysisOnly => replay_loop rounds' limit embeddings t (S (S progress))
              | PartitionReady =>
                  match complete_training t with
                  | (Ok _, t) => (Ok (pass_report, t), S (S (S progress)))
                  | (Err e, t) =>
                      if asks_replay e then replay_loop rounds' limit embeddings t (S (S progress))
                      else (Err e, S (S progress))
                  | (Panic, _) => (Panic, S (S progress))
                  end
              end
          end
      end
  end.

Definition replay_pass_limit (embeddings : list (list f32)) : N :=
  N.max 1 (saturating_add USIZE_MAX (len embeddings) 4).

Definition run_partition_planner (p : PartitionPlanner T) (embeddings : list (list f32))
  : outcome (PassReport * list N) * nat :=
  let limit := replay_pass_limit embeddings in
  match replay_loop (N.to_nat limit) limit embeddings (pp_trainer p) 0 with
  | (Ok (pass_report, t), progress) =>
      match (let? classifier := into_classifier t in assign_batch classifier embeddings) with
      | Ok assignments => (Ok (pass_report, assignments), S progress)
      | Err e => (Err e, progress)
      | Panic => (Panic, progress)
      end
  | (Err e, progress) => (Err e, progress)
  | (Panic, progress) => (Panic, progress)
  end.

#[export] Instance partition_planner : PartitionPlannerRunner (PartitionPlanner T) := {|
  planner_stage := pp_stage; run_planner := run_partition_planner
|}.
End runner.

(** The state of a derivation; [B] is the state of the builder. *)
Record Deriving (B : Type) := {
  d_builder : B; d_telemetry : RecursivePlanningTelemetry; d_accumulator : PlanningMetricAccumulator;
  d_partitions : list FinalizedPartition; d_events : list HierarchyPlanningStatusEvent
}.
Arguments d_builder {B} _.
Arguments d_telemetry {B} _.
Arguments d_accumulator {B} _.
Arguments d_partitions {B} _.
Arguments d_events {B} _.

Section derive.
Context {B P E : Type} `{PartitionPlannerRunner P} (from : StreamingClusteringError -> E).
Notation deriving := (Deriving B).
Notation derive := (state_m E deriving).

Definition fresh (b : B) : deriving :=
  {| d_builder := b; d_telemetry := telemetry_default; d_accumulator := accumulator_default;
     d_partitions := []; d_events := [] |}.
Definition update (f : deriving -> deriving) : derive unit := fun d => (Ok tt, f d).
Definition count_up (g : RecursivePlanningTelemetry -> RecursivePlanningTelemetry) : derive unit := update (fun d =>
  {| d_builder := d_builder d; d_telemetry := g (d_telemetry d); d_accumulator := d_accumulator d;
     d_partitions := d_partitions d; d_events := d_events d |}).
Definition push_partition (p : FinalizedPartition) : derive unit := update (fun d =>
  {| d_builder := d_builder d; d_telemetry := d_telemetry d; d_accumulator := d_accumulator d;
     d_partitions := d_partitions d ++ [p]; d_events := d_events d |}).
Definition observe (stage : PlanningStage) (report : PassReport) : derive unit := update (fun d =>
  {| d_builder := d_builder d; d_telemetry := d_telemetry d;
     d_accumulator := observe_report stage report (d_accumulator d);
     d_partitions := d_partitions d; d_events := d_events d |}).
Definition emit_all (f : RecursivePlanningTelemetry -> list HierarchyPlanningStatusEvent) : derive unit := update (fun d =>
  {| d_builder := d_builder d; d_telemetry := d_telemetry d; d_accumulator := d_accumulator d;
     d_partitions := d_partitions d; d_events := d_events d ++ f (d_telemetry d) |}).
Definition emit_unit (stage : PlanningStage) (count : nat) (path : string) (state : StatusState) : derive unit :=
  emit_all (fun t => [unit_event t stage count path state]).
Definition build (builder : B -> result E P * B) : derive P := fun d =>
  let '(r, b) := builder (d_builder d) in
  (r, {| d_builder := b; d_telemetry := d_telemetry d; d_accumulator := d_accumulator d;
         d_partitions := d_partitions d; d_events := d_events d |}).

(** [fail_unit], and a failure after it *)
Definition fail_unit (stage : PlanningStage) (count : nat) (path : string) : derive unit :=
  let! _ := count_up (bump 0 1 0 0 0 0 1 0) in emit_unit stage count path StatusFailed.
Definition failing {A} (stage : PlanningStage) (count : nat) (path : string) (r : result E A) : derive A :=
  match r with
  | Err e => let! _ := fail_unit stage count path in iret (Err e)
  | _ => iret r
  end.

(** *** Dividing *)
Definition child_id_of (partition_id : string) (child_index : nat) : string :=
  (partition_id +:+ "." +:+ pretty (N.of_nat child_index))%stdpp.

Section divisive.
Variables (planner_builder : list (list f32) -> B -> result E P * B)
  (embeddings : list (list f32)) (bound : nat) (fallback_group_cap : option nat).

(** The planner's groups of a partition of [count] items, or the fallback groups. *)
Definition divide (stage : PlanningStage) (count : nat) (path : string) (assignments : list N)
  : derive (list (list nat)) :=
  let! groups := iret (ordered_groups (assignments_to_groups assignments)) in
  if (length groups <=? 1)%nat then
    let! _ := count_up (bump 0 0 0 0 0 0 0 1) in
    let! _ := emit_unit stage count path StatusInProgress in
    failing stage count path
      (map_err (fun error => from (invalid_config error)) (fallback_partition_groups count bound fallback_group_cap))
  else iret (Ok groups).

(** [derive_partition_recursive]; a child has fewer items, which bounds the depth. *)
Fixpoint derive_partition_recursive (fuel : nat) (indices : list nat) (id : string) (parent : option string)
  (stage_hint : option PlanningStage) : derive unit :=
  match fuel with
  | O => iret Panic
  | S fuel' =>
      let count := length indices in
      let! _ := count_up (bump 1 0 0 1 0 0 0 0) in
      if (count <=? bound)%nat || (count <=? 1)%nat then
        let! _ := count_up (bump 0 1 0 0 1 1 0 0) in
        push_partition {| partition_id := id; parent_id := parent; child_ids := []; item_indices := indices;
                          terminal := true; planning_stage := default Single stage_hint |}
      else
        let! partition_embeddings := iret (collect_map (fun index => expect (embeddings !! index)) indices) in
        let! planner := build (planner_builder partition_embeddings) in
        let stage := planner_stage planner in
        let! _ := count_up (bump 0 0 1 0 0 0 0 0) in
        let! _ := emit_unit stage count id StatusStarted in
        let! _ := emit_unit stage count id StatusInProgress in
        let '(ran, progress) := run_planner planner partition_embeddings in
        let! _ := emit_all (fun t => replicate progress (unit_event t stage count id StatusInProgress)) in
        let! ' (pass_report, assignments) := failing stage count id (map_err from ran) in
        let! _ := failing stage count id
          (guard? (length assignments =? length partition_embeddings)%nat else
             from (invalid_config ("planner returned " +:+ pretty (len assignments) +:+ " cluster ids for "
               +:+ pretty (len partition_embeddings) +:+ " embeddings")%stdpp) in Ok tt) in
        let! _ := observe stage pass_report in
        let! groups := divide stage count id assignments in
        let! _ := push_partition {| partition_id := id; parent_id := parent;
          child_ids := map (child_id_of id) (seq 0 (length groups)); item_indices := indices;
          terminal := false; planning_stage := stage |} in
        let! _ := count_up (bump 0 1 0 0 1 0 1 0) in
        let! _ := emit_unit stage count id StatusCompleted in
        ifold (fun _ child =>
          let! child_indices := iret (collect_map (fun local_index => expect (indices !! local_index)) child.2) in
          derive_partition_recursive fuel' child_indices (child_id_of id child.1) (Some id) (Some stage))
          tt (imap pair groups)
  end.

(** [derive_hierarchy_with_builder_and_fallback_group_cap] *)
Definition derive_hierarchy_with_builder_and_fallback_group_cap (b : B) : result E PlanningPassOutcome * deriving :=
  match embeddings with
  | [] => (Ok empty_outcome, fresh b)
  | _ =>
      match derive_partition_recursive (S (length embeddings)) (seq 0 (length embeddings)) "p0" None None (fresh b) with
      | (Ok _, d) =>
          (Ok (planned (d_partitions d) (acc_requested (d_accumulator d)) (acc_realized (d_accumulator d))
                 (d_accumulator d)), d)
      | (Err e, d) => (Err e, d)
      | (Panic, d) => (Panic, d)
      end
  end.
End divisive.

Definition derive_hierarchy_with_builder (planner_builder : list (list f32) -> B -> result E P * B)
  (embeddings : list (list f32)) (bound : nat) : B -> result E PlanningPassOutcome * deriving :=
  derive_hierarchy_with_builder_and_fallback_group_cap planner_builder embeddings bound None.

(** *** Joining *)
Record AgglomerativeHierarchyNode := {
  child_node_indices : list nat; node_items : list nat;
  representative_embedding : option (list f32); node_stage : PlanningStage
}.

Definition leaf_node (stage : PlanningStage) (items : list nat) (representative : list f32) : AgglomerativeHierarchyNode :=
  {| child_node_indices := []; node_items := items; representative_embedding := Some representative;
     node_stage := stage |}.

Definition take_representative (n : AgglomerativeHierarchyNode) : AgglomerativeHierarchyNode :=
  {| child_node_indices := child_node_indices n; node_items := node_items n;
     representative_embedding := None; node_stage := node_stage n |}.

Definition missing_representative (node_index : nat) : StreamingClusteringError :=
  invalid_config ("planning unit " +:+ pretty (N.of_nat node_index)
    +:+ " is missing its representative embedding")%stdpp.

Notation nodes_t := (list AgglomerativeHierarchyNode).

(** [nodes[i]], and its representative *)
Definition node_at {E'} (nodes : nodes_t) (i : nat) : result E' AgglomerativeHierarchyNode := expect (nodes !! i).
Definition representative_at (nodes : nodes_t) (i : nat) : outcome (list f32) :=
  let? node := node_at nodes i in ok_or (representative_embedding node) (missing_representative i).

(** The children give up their representatives one after the other. *)
Fixpoint take_representatives (nodes : nodes_t) (children : list nat) : outcome (list (list f32) * nodes_t) :=
  match children with
  | [] => Ok ([], nodes)
  | i :: rest =>
      let? embedding := representative_at nodes i in
      let? ' (embeddings, nodes) := take_representatives (alter take_representative i nodes) rest in
      Ok (embedding :: embeddings, nodes)
  end.

(** The loop body over the groups of a layer: the nodes with the new one. *)
Definition join_group (stage : PlanningStage) (current_layer : list nat) (acc : nodes_t * list nat) (group : list nat)
  : outcome (nodes_t * list nat) :=
  let '(nodes, next_layer) := acc in
  let? children := collect_map (fun local_index => expect (current_layer !! local_index)) group in
  let? child_nodes := collect_map (node_at nodes) children in
  let items := sort_indices (concat (map node_items child_nodes)) in
  let? ' (embeddings, nodes) := take_representatives nodes children in
  let? representative := weighted_mean_f32_embeddings (zip embeddings (map (fun n => length (node_items n)) child_nodes)) in
  Ok (nodes ++ [{| child_node_indices := children; node_items := items;
                   representative_embedding := Some representative; node_stage := stage |}],
      next_layer ++ [length nodes]).

Section agglomerative.
Variables (planner_builder : list (list f32) -> nat -> nat -> B -> result E P * B) (bound : nat).

(** One layer of the loop. *)
Definition join_layer (nodes : nodes_t) (current_layer : list nat) : derive (nodes_t * list nat) :=
  let! layer_nodes := iret (collect_map (node_at nodes) current_layer) in
  let represented_item_count := sum_list (map (fun n => length (node_items n)) layer_nodes) in
  let max_unit_item_count := foldr Nat.max 0%nat (map (fun n => length (node_items n)) layer_nodes) in
  let! layer_embeddings := iret (map_err from (collect_map (representative_at nodes) current_layer)) in
  let! planner := build (planner_builder layer_embeddings represented_item_count max_unit_item_count) in
  let stage := planner_stage planner in
  let! _ := emit_all (fun _ => [legacy_event stage represented_item_count StatusStarted;
                                legacy_event stage represented_item_count StatusInProgress]) in
  let! ' (pass_report, assignments) := iret (map_err from (run_planner planner layer_embeddings).1) in
  let! _ := iret (guard? (length assignments =? length layer_embeddings)%nat else
    from (invalid_config ("planner returned " +:+ pretty (len assignments) +:+ " cluster ids for "
      +:+ pretty (len layer_embeddings) +:+ " planning units")%stdpp) in Ok tt) in
  let! _ := observe stage pass_report in
  let! groups := iret (ordered_groups (assignments_to_groups assignments)) in
  let! groups := iret (
    if (length groups <=? 1)%nat || (length current_layer <=? length groups)%nat
    then map_err (fun error => from (invalid_config error)) (balanced_groups (length current_layer) bound)
    else Ok groups) in
  iret (map_err from (try_fold (join_group stage current_layer) (nodes, []) groups)).

(** The loop over the layers, each shorter than the one below. *)
Fixpoint join_layers (fuel : nat) (nodes : nodes_t) (current_layer : list nat) : derive (nodes_t * list nat) :=
  if (length current_layer <=? 1)%nat then iret (Ok (nodes, current_layer))
  else match fuel with
  | O => iret Panic
  | S fuel' =>
      let! ' (nodes, next_layer) := join_layer nodes current_layer in
      join_layers fuel' nodes next_layer
  end.
End agglomerative.

(** [build_agglomerative_partitions]; the children of a node are before it. *)
Fixpoint build_agglomerative_partitions (fuel : nat) (nodes : nodes_t) (node_index : nat) (id : string)
  (parent : option string) : result E (list FinalizedPartition) :=
  match fuel with
  | O => Panic
  | S fuel' =>
      let? node := node_at nodes node_index in
      let children := child_node_indices node in
      let? below := collect_map (fun child =>
        build_agglomerative_partitions fuel' nodes child.2 (child_id_of id child.1) (Some id)) (imap pair children) in
      Ok ({| partition_id := id; parent_id := parent; child_ids := map (child_id_of id) (seq 0 (length children));
             item_indices := node_items node; terminal := bool_decide (children = []);
             planning_stage := node_stage node |} :: concat below)
  end.

(** The partitions below the one node of the last layer, [current_layer[0]]. *)
Definition partitions_of (nodes : nodes_t) (layer : list nat) : result E (list FinalizedPartition) :=
  let? root := expect (head layer) in
  build_agglomerative_partitions (S root) nodes root "p0" None.

(** [derive_hierarchy_agglomeratively_with_builder] *)
Definition derive_hierarchy_agglomeratively_with_builder
  (planner_builder : list (list f32) -> nat -> nat -> B -> result E P * B)
  (embeddings : list (list f32)) (bound : nat) (b : B) : result E PlanningPassOutcome * deriving :=
  match embeddings with
  | [] => (Ok empty_outcome, fresh b)
  | _ =>
      let nodes := imap (fun index embedding => leaf_node Single [index] embedding) embeddings in
      (let! ' (nodes, layer) := join_layers planner_builder bound (length nodes) nodes (seq 0 (length nodes)) in
       let! partitions := iret (partitions_of nodes layer) in
       fun d => (Ok (planned partitions (acc_requested (d_accumulator d)) (acc_realized (d_accumulator d))
                       (d_accumulator d)), d)) (fresh b)
  end.
End derive.
