(* ===== verification/PlanningCorrect.v ===== *)
(** * Planning a hierarchy: the properties

    A planner that returns any cluster identifiers at all gives a hierarchy the
    validation accepts: the groups made of the identifiers, or the fallback groups,
    divide the items; the partitions of a derivation form a tree with distinct
    identifiers whose inner nodes hold exactly the items of their children. *)
From S2P Require Import Prelude Ordering Hash Ieee Ebcp Clustering Store IndexTypes IndexHierarchy IndexHierarchyCorrect IndexLayer.
From S2P Require Import Indexer IndexerFacts Planning.

(** ** Groups *)

(** Groups that divide the numbers below [n], each in ascending order. *)
Record dividing (n : nat) (gs : list (list nat)) : Prop := {
  dv_perm : concat gs ≡ₚ seq 0 n;
  dv_some : Forall (fun g => g <> []) gs;
  dv_sorted : Forall (StronglySorted lt) gs
}.

Lemma concat_perm (gs hs : list (list nat)) : gs ≡ₚ hs -> concat gs ≡ₚ concat hs.
Proof. intros HP. pose proof (concat_map_perm (fun g => g) gs hs HP) as Hc. by rewrite !map_id in Hc. Qed.

Lemma push_index_ok c i gs : concat (map snd (push_index c i gs)) ≡ₚ i :: concat (map snd gs)
  /\ (Forall (fun g => g.2 <> []) gs -> Forall (fun g => g.2 <> []) (push_index c i gs)).
Proof.
  induction gs as [|[k g] gs [IHc IHf]]; cbn [push_index]; [split; [done|by repeat constructor]|].
  destruct (N.compare c k); cbn [map snd concat].
  - split; [rewrite <-app_assoc; cbn; by rewrite Permutation_middle|].
    intros [_ Hf]%Forall_cons. constructor; [by destruct g|done].
  - split; [done|]. intros Hf. by constructor.
  - split; [rewrite IHc; by rewrite Permutation_middle|]. intros [Hg Hf]%Forall_cons. constructor; [done|by apply IHf].
Qed.

Lemma assignments_to_groups_ok a : concat (assignments_to_groups a) ≡ₚ seq 0 (length a)
  /\ Forall (fun g => g <> []) (assignments_to_groups a).
Proof.
  unfold assignments_to_groups. rewrite imap_pair_zip.
  assert (forall l acc, concat (map snd (foldl (fun groups p => push_index p.2 p.1 groups) acc l)) ≡ₚ map fst l ++ concat (map snd acc)
    /\ (Forall (fun g : N * list nat => g.2 <> []) acc ->
        Forall (fun g => g.2 <> []) (foldl (fun groups (p : nat * N) => push_index p.2 p.1 groups) acc l))) as Hfold.
  { induction l as [|[i c] l IH]; intros acc; cbn [foldl map fst snd app]; [done|].
    destruct (IH (push_index c i acc)) as [Hc Hf]. destruct (push_index_ok c i acc) as [Pc Pf]. split.
    - rewrite Hc, Pc. by rewrite Permutation_middle.
    - intros Ha. by apply Hf, Pf. }
  destruct (Hfold (zip (seq 0 (length a)) a) []) as [Hc Hf]. split.
  - rewrite Hc. cbn. rewrite app_nil_r, fst_zip by (rewrite length_seq; lia). done.
  - apply Forall_map. by apply Hf.
Qed.

Lemma filter_split {A} (p : A -> bool) l : List.filter p l ++ List.filter (fun x => negb (p x)) l ≡ₚ l.
Proof.
  induction l as [|x l IH]; [done|]. cbn. destruct (p x); cbn; [by rewrite IH|].
  by rewrite <-Permutation_middle, IH.
Qed.

Lemma Forall_filter_bool {A} (Q : A -> Prop) (p : A -> bool) l : Forall Q l -> Forall Q (List.filter p l).
Proof. induction 1 as [|x l Hx Hl IH]; cbn; [constructor|]. destruct (p x); [by constructor|done]. Qed.

Lemma alter_app_concat (extra : list nat) gs : forall k, (k < length gs)%nat ->
  concat (alter (fun g => g ++ extra) k gs) ≡ₚ concat gs ++ extra.
Proof.
  induction gs as [|g gs IH]; intros [|k] Hk; cbn in Hk; [lia|lia| |].
  - change (concat ((g ++ extra) :: gs) ≡ₚ concat (g :: gs) ++ extra). cbn.
    rewrite <-!app_assoc. apply Permutation_app_head, Permutation_app_comm.
  - change (concat (g :: alter (fun g => g ++ extra) k gs) ≡ₚ concat (g :: gs) ++ extra). cbn.
    rewrite IH by lia. by rewrite app_assoc.
Qed.

Lemma longest_in gs k : longest_group gs = Some k -> (k < length gs)%nat.
Proof.
  unfold longest_group. destruct (max_by _ (imap pair gs)) as [[i g]|] eqn:Em; [|done]. intros [= <-].
  apply max_by_elem in Em. rewrite imap_pair_zip in Em. apply elem_of_zip_l in Em. apply elem_of_seq in Em. lia.
Qed.

Lemma longest_none gs : longest_group gs = None -> gs = [].
Proof.
  unfold longest_group. destruct (max_by _ (imap pair gs)) as [[i g]|] eqn:Em; [done|]. intros _.
  apply max_by_none in Em. by destruct gs.
Qed.

(** All the indices stay; no group is empty, and of several each has two at least. *)
Lemma ensure_min_two_ok gs : Forall (fun g => g <> []) gs ->
  concat (ensure_min_two_per_group gs) ≡ₚ concat gs
  /\ Forall (fun g => g <> []) (ensure_min_two_per_group gs)
  /\ ((2 <= length (ensure_min_two_per_group gs))%nat -> Forall (fun g => 2 <= length g)%nat (ensure_min_two_per_group gs)).
Proof.
  intros Hne. unfold ensure_min_two_per_group.
  pose proof (filter_split (fun group : list nat => (2 <=? length group)%nat) gs) as Hs. cbn beta in Hs.
  set (ok := List.filter (fun group => (2 <=? length group)%nat) gs) in *.
  set (single := List.filter (fun group => negb (2 <=? length group)%nat) gs) in *.
  assert (Forall (fun g => 2 <= length g)%nat ok) as Hok.
  { apply Forall_forall. intros g Hg. apply list_elem_of_In, filter_In in Hg as [_ Hg]. by apply Nat.leb_le. }
  assert (concat ok ++ concat single ≡ₚ concat gs) as Hc by (rewrite <-concat_app; by apply concat_perm).
  assert (forall gs : list (list nat), Forall (fun g => 2 <= length g)%nat gs -> Forall (fun g => g <> []) gs) as Hbig.
  { intros l Hl. eapply Forall_impl; [exact Hl|]. intros [|? ?]; cbn; [lia|done]. }
  destruct single as [|s ss] eqn:Es.
  { cbn in Hc. rewrite app_nil_r in Hc. by split_and!; [|apply Hbig|]. }
  destruct (longest_group ok) as [k|] eqn:Ek.
  - apply longest_in in Ek. assert (Forall (fun g => 2 <= length g)%nat (alter (fun g => g ++ concat (s :: ss)) k ok)) as Ha.
    { clear -Hok. revert k. induction Hok as [|g l Hg Hl IH]; intros [|k].
      - constructor.
      - constructor.
      - change (Forall (fun g => 2 <= length g)%nat ((g ++ concat (s :: ss)) :: l)). constructor; [rewrite length_app; lia|done].
      - change (Forall (fun g => 2 <= length g)%nat (g :: alter (fun g => g ++ concat (s :: ss)) k l)). constructor; [done|apply IH]. }
    split_and!; [rewrite alter_app_concat by done; by rewrite Hc|by apply Hbig|done].
  - apply longest_none in Ek. rewrite Ek in Hc. change (concat (s :: ss) ≡ₚ concat gs) in Hc.
    destruct (concat (s :: ss)) as [|x l] eqn:El.
    + split_and!; [by rewrite <-Hc|constructor|constructor].
    + cbn [concat length]. rewrite app_nil_r. split_and!; [done|by repeat constructor|lia].
Qed.

Lemma sort_indices_strict l : NoDup l -> StronglySorted lt (sort_indices l).
Proof.
  intros Hnd. pose proof (sort_by_strict Nat.compare l Hnd) as Hs.
  assert (StronglySorted (cmp_lt Nat.compare) (sort_indices l)) as Ht.
  { apply Hs. intros x y _ _ He. by apply Nat.compare_eq_iff in He. }
  induction Ht as [|x k Hk IH Hx]; constructor; [done|]. eapply Forall_impl; [exact Hx|].
  intros y Hy. by apply Nat.compare_lt_iff.
Qed.

Lemma ordered_groups_ok {E} a :
  exists gs, ordered_groups (E := E) (assignments_to_groups a) = Ok gs /\ dividing (length a) gs
  /\ ((2 <= length gs)%nat -> Forall (fun g => 2 <= length g)%nat gs).
Proof.
  destruct (assignments_to_groups_ok a) as [Hc Hne]. destruct (ensure_min_two_ok _ Hne) as (Hc' & Hne' & H2).
  unfold ordered_groups. set (gs := ensure_min_two_per_group (assignments_to_groups a)) in *.
  assert (exists keyed, collect_map (fun group => rmap (fun first : nat => (first, group)) (expect (E := E) (head group))) (map sort_indices gs) = Ok keyed
    /\ map snd keyed = map sort_indices gs) as (keyed & -> & Hk).
  { clear -Hne'. induction Hne' as [|g l Hg Hl (keyed & IH & Hm)]; [by exists []|]. cbn [map collect_map].
    assert (sort_indices g <> []) as Hs.
    { intros He. apply Hg. pose proof (sort_by_Permutation Nat.compare g) as HP. unfold sort_indices in He. rewrite He in HP.
      by apply Permutation_nil in HP. }
    destruct (sort_indices g) as [|x s] eqn:Es; [done|]. cbn [head expect rmap rbind]. rewrite IH. cbn [rbind].
    exists ((x, x :: s) :: keyed). cbn. by rewrite Hm. }
  cbn [rbind]. eexists. split; [reflexivity|].
  assert (map snd (sort_by (fun x y : nat * list nat => Nat.compare x.1 y.1) keyed) ≡ₚ map sort_indices gs) as HP.
  { rewrite <-Hk. apply Permutation_map, sort_by_Permutation. }
  assert (concat (map sort_indices gs) ≡ₚ concat gs) as Hsc.
  { clear. induction gs as [|g gs IH]; [done|]. cbn. rewrite IH. unfold sort_indices. by rewrite sort_by_Permutation. }
  assert (NoDup (concat gs)) as Hnd by (rewrite Hc', Hc; apply NoDup_seq).
  assert (forall Q : list nat -> Prop, Forall Q (map sort_indices gs) ->
    Forall Q (map snd (sort_by (fun x y : nat * list nat => Nat.compare x.1 y.1) keyed))) as Hall.
  { intros Q HQ. by rewrite HP. }
  split; [split|].
  - rewrite (concat_perm _ _ HP), Hsc, Hc'. exact Hc.
  - apply Hall, Forall_map. eapply Forall_impl; [exact Hne'|]. cbn. intros g Hg He. apply Hg.
    pose proof (sort_by_Permutation Nat.compare g) as HPg. unfold sort_indices in He. rewrite He in HPg. by apply Permutation_nil in HPg.
  - apply Hall, Forall_map. clear -Hnd. induction gs as [|g gs IH]; [constructor|]. cbn in Hnd.
    apply NoDup_app in Hnd as (Hg & _ & Hgs). constructor; [by apply sort_indices_strict|by apply IH].
  - intros Hlen. assert (length (map snd (sort_by (fun x y : nat * list nat => Nat.compare x.1 y.1) keyed)) = length gs) as Hl
      by by rewrite HP, length_map.
    rewrite Hl in Hlen. apply Hall, Forall_map. eapply Forall_impl; [apply H2, Hlen|]. cbn. intros g Hg.
    unfold sort_indices. by rewrite sort_by_length.
Qed.

Lemma seq_sorted_lt a n : StronglySorted lt (seq a n).
Proof.
  revert a. induction n as [|n IH]; intros a; cbn; constructor; [done|]. apply Forall_forall. intros x Hx%elem_of_seq. lia.
Qed.

Lemma sorted_app_parts (l k : list nat) : StronglySorted lt (l ++ k) -> StronglySorted lt l /\ StronglySorted lt k.
Proof.
  induction l as [|x l IH]; intros Hs; [by split; [constructor|]|]. cbn in Hs.
  apply StronglySorted_inv in Hs as [Hs Hf]. apply Forall_app in Hf as [Hf _]. destruct (IH Hs). split; [by constructor|done].
Qed.

Lemma consecutive_dividing n gs : concat gs = seq 0 n -> Forall (fun g => g <> []) gs -> dividing n gs.
Proof.
  intros Hc Hne. split; [by rewrite Hc|done|]. assert (StronglySorted lt (concat gs)) as Hs by (rewrite Hc; apply seq_sorted_lt).
  clear -Hs. induction gs as [|g gs IH]; [constructor|]. cbn in Hs. apply sorted_app_parts in Hs as [Hg Hgs]. constructor; [done|by apply IH].
Qed.

Lemma sized_nonempty k gs : (1 <= k)%nat -> Forall (fun g : list nat => k <= length g)%nat gs -> Forall (fun g => g <> []) gs.
Proof. intros Hk Hf. eapply Forall_impl; [exact Hf|]. intros [|? ?]; cbn; [lia|done]. Qed.

Lemma balanced_dividing n bound gs : (2 <= n)%nat -> balanced_groups n bound = Ok gs ->
  dividing n gs /\ ((bound < n)%nat -> (2 <= length gs)%nat) /\ (1 <= length gs < n)%nat
  /\ Forall (fun g => 2 <= length g <= bound)%nat gs.
Proof.
  intros Hn Hg. apply balanced_groups_ok in Hg as Hd. pose proof (div_sizes _ _ _ Hd Hn) as Hs.
  pose proof (divided_fewer _ _ _ Hd Hn) as [Hf _]. split_and!; [|intros Hb|lia|lia|done].
  - apply consecutive_dividing; [apply Hd|]. apply (sized_nonempty 2); [lia|]. eapply Forall_impl; [exact Hs|]. cbn. intros. lia.
  - pose proof (div_count _ _ _ Hd) as Hc. unfold balanced_groups in Hg. inv_ok. apply negb_true_iff, Nat.eqb_neq in Hb1.
    pose proof (div_ceil_spec n bound ltac:(lia)). nia.
Qed.

Lemma fallback_dividing n bound cap gs : (2 <= n)%nat -> (bound < n)%nat -> fallback_partition_groups n bound cap = Ok gs ->
  dividing n gs /\ (2 <= length gs)%nat.
Proof.
  intros Hn Hb Hg. unfold fallback_partition_groups in Hg. apply rbind_ok in Hg as (hs & Hh & Hg).
  destruct (balanced_dividing _ _ _ Hn Hh) as (Hd & H2 & _ & _). destruct cap as [cap|]; [|injection Hg as <-; split; [done|by apply H2]].
  destruct (length hs <=? cap)%nat; [injection Hg as <-; split; [done|by apply H2]|]. inv_ok. subst gs.
  apply negb_true_iff, Nat.ltb_ge in Hb0. set (count := Nat.min cap n). assert (2 <= count <= n)%nat as Hc by lia.
  pose proof (Nat.div_mod_eq n count) as He. pose proof (Nat.mod_upper_bound n count ltac:(lia)) as Hm.
  destruct (cut_groups_ok (n / count) count (n mod count) 0 ltac:(lia)) as (Hcc & Hl & Hs).
  assert (1 <= n / count)%nat as Hbase by (apply Nat.div_le_lower_bound; lia).
  split; [|lia]. apply consecutive_dividing; [rewrite Hcc; f_equal; lia|].
  apply (sized_nonempty (n / count)); [done|]. eapply Forall_impl; [exact Hs|]. cbn. intros. lia.
Qed.

Lemma fallback_no_panic n bound cap : no_panic (fallback_partition_groups n bound cap).
Proof.
  unfold fallback_partition_groups. apply rbind_no_panic; [apply balanced_groups_no_panic|]. intros gs _.
  destruct cap as [c|]; [|done]. destruct (_ <=? _)%nat; [done|]. by destruct (negb _).
Qed.

(** Of two groups at least, each is smaller than the whole. *)
Lemma dividing_smaller n gs g : dividing n gs -> (2 <= length gs)%nat -> g ∈ gs -> (1 <= length g < n)%nat.
Proof.
  intros [Hp Hs _] Hl Hg. apply Permutation_length in Hp as Hlen. rewrite length_seq in Hlen.
  apply list_elem_of_split in Hg as (l1 & l2 & ->). rewrite concat_app, length_app in Hlen. cbn in Hlen. rewrite length_app in Hlen.
  apply Forall_app in Hs as [Hs1 Hs2]. apply Forall_cons in Hs2 as [Hg Hs2]. rewrite length_app in Hl. cbn in Hl.
  assert (forall l : list (list nat), Forall (fun g => g <> []) l -> (length l <= length (concat l))%nat) as Hle.
  { induction 1 as [|x l Hx _ IH]; cbn; [lia|]. rewrite length_app. destruct x; [done|]. cbn. lia. }
  pose proof (Hle _ Hs1). pose proof (Hle _ Hs2). destruct g; [done|]. cbn in *. lia.
Qed.

(** ** Trees of a derivation *)
Inductive planned_tree : string -> option string -> list nat -> ptree -> Prop :=
| planned_leaf id parent items stage : items <> [] -> StronglySorted lt items ->
    planned_tree id parent items
      (PNode {| partition_id := id; parent_id := parent; child_ids := []; item_indices := items; terminal := true;
                planning_stage := stage |} [])
| planned_inner id parent items stage parts ts : items <> [] -> StronglySorted lt items -> parts <> [] ->
    concat parts ≡ₚ items ->
    Forall2 (fun part t => planned_tree (child_id_of id part.1) (Some id) part.2 t) (imap pair parts) ts ->
    planned_tree id parent items
      (PNode {| partition_id := id; parent_id := parent; child_ids := map (child_id_of id) (seq 0 (length parts));
                item_indices := items; terminal := false; planning_stage := stage |} ts).

Section planned_induction.
Context (Q : string -> option string -> list nat -> ptree -> Prop).
Hypothesis Hleaf : forall id parent items stage, items <> [] -> StronglySorted lt items ->
    Q id parent items
      (PNode {| partition_id := id; parent_id := parent; child_ids := []; item_indices := items; terminal := true;
                planning_stage := stage |} []).
Hypothesis Hinner : forall id parent items stage parts ts, items <> [] -> StronglySorted lt items -> parts <> [] ->
    concat parts ≡ₚ items ->
    Forall2 (fun part t => planned_tree (child_id_of id part.1) (Some id) part.2 t
       /\ Q (child_id_of id part.1) (Some id) part.2 t) (imap pair parts) ts ->
    Q id parent items
      (PNode {| partition_id := id; parent_id := parent; child_ids := map (child_id_of id) (seq 0 (length parts));
                item_indices := items; terminal := false; planning_stage := stage |} ts).
Lemma planned_tree_nested_ind t : forall id parent items, planned_tree id parent items t -> Q id parent items t.
Proof using Hleaf Hinner.
  induction t as [p ts IH] using ptree_nested_ind. intros id parent items Ht.
  inversion Ht as [|? ? ? ? parts ? Hne Hs Hp Hc Hts]; subst; [by apply Hleaf|]. apply Hinner; try done.
  clear -IH Hts. revert IH Hts. generalize (imap pair parts). intros l IH Hts.
  induction Hts as [|part t l ts Ht _ IHl]; constructor; apply Forall_cons in IH as [IH1 IH2]; [by split; [|apply IH1]|by apply IHl].
Qed.
End planned_induction.

Lemma planned_root id parent items t : planned_tree id parent items t ->
  exists p ts, t = PNode p ts /\ partition_id p = id /\ parent_id p = parent /\ item_indices p = items.
Proof. destruct 1; by eexists _, _. Qed.

(** *** The identifiers *)
Notation dot := (Ascii.ascii_of_N 46) (only parsing).

(** What stands before the first dot. *)
Fixpoint before_dot (s : string) : string :=
  match s with
  | EmptyString => EmptyString
  | String c s' => if bool_decide (c = dot) then EmptyString else String c (before_dot s')
  end.

Definition no_dot (s : string) : Prop := before_dot s = s.

Lemma before_dot_app s r : no_dot s -> before_dot (s +:+ String dot r)%stdpp = s.
Proof.
  unfold no_dot. induction s as [|c s IH]; [done|]. change (String c s +:+ String dot r)%stdpp with (String c (s +:+ String dot r)%stdpp).
  cbn [before_dot]. destruct (bool_decide (c = dot)); [done|]. intros [= Hs]. by rewrite IH.
Qed.

Lemma pretty_no_dot n : no_dot (pretty (N.of_nat n)).
Proof.
  assert (forall x s, no_dot s -> no_dot (pretty_N_go x s)) as Hgo.
  { intros x. induction (N.lt_wf_0 x) as [x _ IH]. intros s Hs. destruct (decide (x = 0)%N) as [->|Hx]; [by rewrite pretty_N_go_0|].
    rewrite pretty_N_go_step by lia. apply IH; [apply N.div_lt; lia|]. unfold no_dot in *. cbn [before_dot].
    rewrite bool_decide_eq_false_2; [by rewrite Hs|]. unfold pretty_N_char. by repeat case_match. }
  unfold pretty, pretty_N. destruct (decide (N.of_nat n = 0)%N); [done|]. by apply Hgo.
Qed.

(** [x] is [id] or below it. *)
Definition below (id x : string) : Prop := x = id \/ exists rest, x = (id +:+ String dot rest)%stdpp.

Lemma string_app_assoc a b c : ((a +:+ b) +:+ c = a +:+ (b +:+ c))%stdpp.
Proof. induction a as [|x a IH]; [done|]. change (String x ((a +:+ b) +:+ c)%stdpp = String x (a +:+ (b +:+ c))%stdpp). by rewrite IH. Qed.

Lemma string_app_inj a b c : (a +:+ b = a +:+ c)%stdpp -> b = c.
Proof. induction a as [|x a IH]; [done|]. change (String x (a +:+ b)%stdpp = String x (a +:+ c)%stdpp -> b = c). intros [= He]. by apply IH. Qed.

Lemma string_app_nil_r a : (a +:+ EmptyString)%stdpp = a.
Proof. induction a as [|x a IH]; [done|]. change (String x (a +:+ EmptyString)%stdpp = String x a). by rewrite IH. Qed.

Lemma child_below id k x : below (child_id_of id k) x ->
  exists rest, x = (id +:+ String dot rest)%stdpp /\ before_dot rest = pretty (N.of_nat k).
Proof.
  assert (child_id_of id k = (id +:+ String dot (pretty (N.of_nat k)))%stdpp) as Hid by done.
  intros [->|[rest ->]]; rewrite Hid.
  - eexists. split; [done|]. apply pretty_no_dot.
  - exists (pretty (N.of_nat k) +:+ String dot rest)%stdpp. split; [by rewrite string_app_assoc|].
    by apply before_dot_app, pretty_no_dot.
Qed.

Lemma children_distinct id i j x : below (child_id_of id i) x -> below (child_id_of id j) x -> i = j.
Proof.
  intros (r & -> & Hr)%child_below (r' & He & Hr')%child_below. apply string_app_inj in He. injection He as <-.
  rewrite Hr in Hr'. apply (inj pretty) in Hr'. by apply Nat2N.inj.
Qed.

Lemma child_not_parent id k : ~ below (child_id_of id k) id.
Proof.
  intros (r & He & _)%child_below. rewrite <-(string_app_nil_r id) in He at 1. by apply string_app_inj in He.
Qed.

Lemma child_below_parent id k x : below (child_id_of id k) x -> below id x.
Proof. intros (r & -> & _)%child_below. right. by exists r. Qed.

Lemma imap_pair_fst {A} (l : list A) : map fst (imap pair l) = seq 0 (length l).
Proof. by rewrite imap_pair_zip, fst_zip by (rewrite length_seq; lia). Qed.

(** The identifiers of a tree are distinct and start with that of its root. *)
Lemma planned_ids id parent items t : planned_tree id parent items t -> NoDup (t_ids t) /\ Forall (below id) (t_ids t).
Proof.
  revert t id parent items. apply (planned_tree_nested_ind (fun id _ _ t => NoDup (t_ids t) /\ Forall (below id) (t_ids t))).
  - intros id parent items stage _ _. unfold t_ids. cbn. split; [apply NoDup_singleton|]. repeat constructor.
  - intros id parent items stage parts ts _ _ _ _ Hts. rewrite t_ids_node. cbn [partition_id].
    assert (NoDup (map fst (imap pair parts))) as Hnd by (rewrite imap_pair_fst; apply NoDup_seq).
    assert (NoDup (concat (map t_ids ts)) /\ Forall (fun x => exists k, k ∈ map fst (imap pair parts) /\ below (child_id_of id k) x) (concat (map t_ids ts))) as [Hn Hf].
    { revert Hnd Hts. generalize (imap pair parts). intros l Hnd Hts.
      induction Hts as [|[k part] t l ts (_ & Ht & Hb) _ IH]; [by split; constructor|]. cbn [map fst concat] in *.
      apply NoDup_cons in Hnd as [Hk Hnd]. destruct (IH Hnd) as [Hn Hf]. rewrite Forall_forall in Hb. rewrite Forall_forall in Hf. split.
      - apply NoDup_app. split_and!; [done| |done]. intros x Hx Hxs. apply Hb in Hx. apply Hf in Hxs as (j & Hj & Hxj).
        by rewrite (children_distinct _ _ _ _ Hx Hxj) in Hk.
      - apply Forall_forall. intros x [Hx|Hx]%elem_of_app.
        + exists k. split; [by left|by apply Hb].
        + destruct (Hf x Hx) as (j & Hj & Hxj). exists j. split; [by right|done]. }
    rewrite Forall_forall in Hf. split.
    + constructor; [|done]. intros Hin. destruct (Hf _ Hin) as (k & _ & Hk). by apply child_not_parent in Hk.
    + constructor; [by left|]. apply Forall_forall. intros x Hx. destruct (Hf _ Hx) as (k & _ & Hk). by eapply child_below_parent.
Qed.

(** *** The validation accepts them *)
Lemma sort_indices_id l : StronglySorted lt l -> sort_indices l = l.
Proof.
  intros Hs. apply (sort_by_id Nat.compare). induction Hs as [|x l Hl IH Hx]; constructor; [done|].
  eapply Forall_impl; [exact Hx|]. intros y Hy. unfold cmp_le. by rewrite (proj2 (Nat.compare_lt_iff x y) Hy).
Qed.

#[local] Instance lt_antisymm : AntiSymm (=) lt.
Proof. intros x y ? ?. lia. Qed.

Lemma sort_indices_perm l k : StronglySorted lt k -> l ≡ₚ k -> sort_indices l = k.
Proof.
  intros Hs HP. symmetry. apply (StronglySorted_unique lt); [done| |].
  - apply sort_indices_strict. rewrite HP. clear HP. induction Hs as [|x k Hk IH Hx]; constructor; [|done].
    intros Hin. rewrite Forall_forall in Hx. specialize (Hx _ Hin). lia.
  - rewrite <-HP. symmetry. apply sort_by_Permutation.
Qed.

Lemma dedup_indices_id l : StronglySorted lt l -> dedup_indices l = l.
Proof.
  induction 1 as [|x l Hl IH Hx]; [done|]. destruct l as [|y l]; [done|].
  change (dedup_indices (x :: y :: l)) with (if (x =? y)%nat then dedup_indices (y :: l) else x :: dedup_indices (y :: l)).
  rewrite IH. apply Forall_cons in Hx as [Hx _]. destruct (Nat.eqb_spec x y); [lia|done].
Qed.

Section validation.
Context (m : part_map) (n : nat).
Definition holds_parts (l : list FinalizedPartition) : Prop := forall p, p ∈ l -> m !! partition_id p = Some p.

Lemma holds_app l k : holds_parts (l ++ k) -> holds_parts l /\ holds_parts k.
Proof. intros Hh. split; intros p Hp; apply Hh, elem_of_app; auto. Qed.

Lemma t_items_planned id parent items t : planned_tree id parent items t -> items <> [].
Proof. by destruct 1. Qed.

(** Walking a derived tree gives the items of its root and visits its identifiers. *)
Lemma walk_planned id parent items t : planned_tree id parent items t -> holds_parts (t_parts t) ->
  forall fuel visited, (t_height t <= fuel)%nat -> (forall x, below id x -> x ∉ visited) ->
  walk fuel m id visited = Ok (items, list_to_set (t_ids t) ∪ visited).
Proof.
  revert t id parent items. apply (planned_tree_nested_ind (fun id _ items t => holds_parts (t_parts t) ->
    forall fuel visited, (t_height t <= fuel)%nat -> (forall x, below id x -> x ∉ visited) ->
    walk fuel m id visited = Ok (items, list_to_set (t_ids t) ∪ visited))).
  - intros id parent items stage _ _ Hh [|fuel] visited Hf Hv; cbn in Hf; [lia|]. cbn [walk].
    pose proof (Hh _ (list_elem_of_here _ _)) as Hroot. cbn [partition_id] in Hroot. rewrite Hroot. cbn. rewrite bool_decide_eq_false_2 by (apply Hv; by left). cbn.
    by rewrite union_empty_r_L.
  - intros id parent items stage parts ts Hne Hs Hp Hc Hts Hh [|fuel] visited Hf Hv; cbn in Hf; [lia|].
    rewrite t_ids_node. cbn [partition_id]. pose proof (Hh _ (list_elem_of_here _ _)) as Hroot. cbn [partition_id] in Hroot. cbn [walk]. rewrite Hroot. cbn [ok_or rbind].
    rewrite bool_decide_eq_false_2 by (apply Hv; by left). cbn [negb terminal child_ids item_indices].
    assert (holds_parts (concat (map t_parts ts))) as Hh' by (intros p Hpp; apply Hh; by right).
    assert (forall l ts, Forall2 (fun part t => planned_tree (child_id_of id part.1) (Some id) part.2 t
        /\ (holds_parts (t_parts t) -> forall fuel visited, (t_height t <= fuel)%nat -> (forall x, below (child_id_of id part.1) x -> x ∉ visited) ->
            walk fuel m (child_id_of id part.1) visited = Ok (part.2, list_to_set (t_ids t) ∪ visited))) l ts ->
        NoDup (map fst l) -> holds_parts (concat (map t_parts ts)) -> (foldr Nat.max 0 (map t_height ts) <= fuel)%nat ->
        forall acc, (forall k x, k ∈ map fst l -> below (child_id_of id k) x -> x ∉ acc.2) ->
        try_fold (fun acc child_id => let? '(items, visited) := walk fuel m child_id acc.2 in Ok (acc.1 ++ items, visited)) acc
          (map (child_id_of id) (map fst l)) = Ok (acc.1 ++ concat (map snd l), list_to_set (concat (map t_ids ts)) ∪ acc.2)) as Hloop.
    { clear. intros l ts Hts. induction Hts as [|[k part] t l ts [Ht Hw] _ IH]; intros Hnd Hh Hf [u v] Hv; cbn [map concat try_fold fst snd] in *.
      - rewrite app_nil_r. cbn. by rewrite union_empty_l_L.
      - apply holds_app in Hh as [Hh1 Hh2]. apply NoDup_cons in Hnd as [Hk Hnd]. cbn in Hf.
        rewrite (Hw Hh1) by (first [lia|intros x Hx; apply (Hv k x); [by left|done]]). cbn [rbind].
        rewrite (IH Hnd Hh2 ltac:(lia)); cbn [fst snd].
        + rewrite <-app_assoc. f_equal. f_equal. rewrite list_to_set_app_L. set_solver.
        + intros j x Hj Hx. apply not_elem_of_union. split; [|apply (Hv j x); [by right|done]].
          rewrite elem_of_list_to_set. intros Hxt. destruct (planned_ids _ _ _ _ Ht) as [_ Hb]. rewrite Forall_forall in Hb.
          by rewrite (children_distinct _ _ _ _ (Hb x Hxt) Hx) in Hk. }
    specialize (Hloop _ _ Hts). rewrite imap_pair_fst in Hloop.
    rewrite (Hloop (NoDup_seq _ _) Hh' ltac:(lia)); cbn [fst snd].
    + assert (map snd (imap pair parts) = parts) as -> by (by rewrite imap_pair_zip, snd_zip by (rewrite length_seq; lia)).
      cbn [rbind app]. rewrite (sort_indices_perm _ _ Hs Hc), bool_decide_eq_true_2 by done. f_equal. f_equal. set_solver.
    + intros k x _ Hx. apply not_elem_of_union. split; [|apply Hv; by eapply child_below_parent].
      rewrite elem_of_singleton. intros ->. by apply child_not_parent in Hx.
Qed.

Lemma check_planned id parent items t : planned_tree id parent items t -> holds_parts (t_parts t) ->
  Forall (fun i => (i < n)%nat) items -> forall p, p ∈ t_parts t -> check_partition m n p = Ok tt.
Proof.
  assert (forall items, Forall (fun i => (i < n)%nat) items -> forallb (fun index => (index <? n)%nat) items = true) as Hb.
  { clear. intros items Hf. apply forallb_forall. intros x Hx%list_elem_of_In. rewrite Forall_forall in Hf. by apply Nat.ltb_lt, Hf. }
  revert t id parent items. apply (planned_tree_nested_ind (fun id _ items t => holds_parts (t_parts t) ->
    Forall (fun i => (i < n)%nat) items -> forall p, p ∈ t_parts t -> check_partition m n p = Ok tt)).
  - intros id parent items stage Hne Hs _ Hn p [->|Hp]%elem_of_cons; [|by apply elem_of_nil in Hp]. unfold check_partition. cbn.
    rewrite sort_indices_id, dedup_indices_id, bool_decide_eq_true_2, Hb by done. cbn. by rewrite bool_decide_eq_false_2.
  - intros id parent items stage parts ts Hne Hs Hp Hc Hts Hh Hn.
    assert (holds_parts (concat (map t_parts ts))) as Hh' by (intros p Hpp; apply Hh; by right).
    assert (Forall (Forall (fun i => (i < n)%nat)) parts) as Hparts.
    { apply Forall_forall. intros g Hg. apply Forall_forall. intros i Hi. rewrite Forall_forall in Hn. apply Hn.
      rewrite <-Hc. apply list_elem_of_In, in_concat. exists g. split; by apply list_elem_of_In. }
    intros p [->|Hin]%elem_of_cons.
    + unfold check_partition. cbn.
      rewrite sort_indices_id, dedup_indices_id, bool_decide_eq_true_2, Hb by done. cbn.
      rewrite bool_decide_eq_false_2 by (destruct parts; [done|done]). cbn.
      rewrite <-imap_pair_fst. revert Hts Hh'. generalize (imap pair parts). clear. intros l Hts Hh.
      induction Hts as [|[k part] t l ts [Ht _] _ IH]; cbn [map fst try_fold]; [done|]. cbn in Hh. apply holds_app in Hh as [Hh1 Hh2].
      destruct (planned_root _ _ _ _ Ht) as (q & us & -> & Hq1 & Hq2 & _). cbn in Hh1.
      unfold check_child. cbn [fst snd] in *. rewrite <-Hq1, (Hh1 q) by by left. cbn [ok_or rbind partition_id].
      rewrite bool_decide_eq_true_2 by done. cbn [rbind]. by apply IH.
    + assert (map snd (imap pair parts) = parts) as Hsnd by (by rewrite imap_pair_zip, snd_zip by (rewrite length_seq; lia)).
      rewrite <-Hsnd in Hparts. revert Hts Hh' Hparts Hin. generalize (imap pair parts). clear. intros l Hts Hh Hparts Hin.
      induction Hts as [|[k part] t l ts [Ht Hck] _ IH]; cbn in Hin; [by apply elem_of_nil in Hin|].
      cbn in Hh, Hparts. apply holds_app in Hh as [Hh1 Hh2]. apply Forall_cons in Hparts as [Hp1 Hp2].
      apply elem_of_app in Hin as [Hin|Hin]; [by apply Hck|by apply IH].
Qed.
End validation.

(** A derived tree over the items passes the validation, in any order of its partitions. *)
Lemma planned_validates n t l : (0 < n)%nat -> planned_tree "p0" None (seq 0 n) t -> l ≡ₚ t_parts t ->
  validate_partition_hierarchy {| root_partition_id := "p0"; partitions := l |} n = Ok tt.
Proof.
  intros Hn Ht HP. destruct (planned_ids _ _ _ _ Ht) as [Hnd Hb].
  assert (NoDup (map partition_id l)) as Hndl by (rewrite HP; exact Hnd).
  assert (holds_parts (partition_map l) (t_parts t)) as Hh.
  { intros p Hp. apply partition_map_distinct; [done|]. split; [by rewrite HP|done]. }
  unfold validate_partition_hierarchy. cbn [root_partition_id partitions]. cbv zeta.
  destruct (planned_root _ _ _ _ Ht) as (root & ts & Et & Hid & Hpar & _).
  assert (partition_map l !! "p0" = Some root) as Hroot by (rewrite <-Hid; apply Hh; rewrite Et; by left).
  rewrite Hroot. cbn [ok_or rbind]. rewrite bool_decide_eq_true_2 by done.
  assert (size (partition_map l) = length (t_parts t)) as Hsize.
  { rewrite <-size_dom, partition_map_dom, <-HP, <-(length_map partition_id l). by apply size_list_to_set. }
  assert (try_fold (fun _ p => check_partition (partition_map l) n p) tt l = Ok tt) as ->.
  { assert (forall p, p ∈ l -> check_partition (partition_map l) n p = Ok tt) as Hck.
    { intros p Hp. rewrite HP in Hp. apply (check_planned _ _ _ _ _ _ Ht Hh); [|done]. apply Forall_forall. intros x Hx%elem_of_seq. lia. }
    clear -Hck. revert Hck. generalize (partition_map l) at 1 2. intros m Hck. induction l as [|p l IH]; [done|]. cbn [try_fold].
    rewrite Hck by by left. cbn [rbind]. apply IH. intros q Hq. apply Hck. by right. }
  cbn [rbind]. rewrite (walk_planned _ _ _ _ _ Ht Hh) by
    (first [rewrite Hsize; pose proof (height_parts t); lia|intros x _; apply not_elem_of_empty]).
  cbn [rbind]. rewrite bool_decide_eq_true_2 by done. rewrite union_empty_r_L, size_list_to_set by done.
  unfold t_ids. rewrite length_map, HP, Nat.eqb_refl. done.
Qed.

(** ** Dividing *)

(** The leaves are within the bound; what is divided is not, and has several children. *)
Definition fits (bound : nat) (p : FinalizedPartition) : Prop :=
  if terminal p then (1 <= length (item_indices p) <= Nat.max 1 bound)%nat /\ child_ids p = []
  else (bound < length (item_indices p))%nat /\ (2 <= length (child_ids p) <= length (item_indices p))%nat.

Definition leaves (l : list FinalizedPartition) : nat := length (List.filter terminal l).
Definition inners (l : list FinalizedPartition) : nat := length (List.filter (fun p => negb (terminal p)) l).

(** The counters once the partitions [l] were made, [f] of them by the fallback. *)
Definition tallied (l : list FinalizedPartition) (f : nat) : RecursivePlanningTelemetry -> RecursivePlanningTelemetry :=
  bump (length l) (length l) (inners l) (length l) (length l) (leaves l) (inners l) f.

Lemma bump_zero t : bump 0 0 0 0 0 0 0 0 t = t.
Proof. destruct t. unfold bump. cbn. f_equal; lia. Qed.

Lemma tallied_app l k f g t : tallied (l ++ k) (f + g) t = tallied k g (tallied l f t).
Proof.
  unfold tallied, leaves, inners, bump. rewrite !List.filter_app, !length_app. cbn. f_equal; lia.
Qed.

(** The items at the given places *)
Definition pick (indices g : list nat) : list nat := map (fun i => nth i indices 0%nat) g.

Lemma pick_collect {E} indices g : Forall (fun i => (i < length indices)%nat) g ->
  collect_map (fun i => expect (E := E) (indices !! i)) g = Ok (pick indices g).
Proof.
  induction 1 as [|i g Hi _ IH]; [done|]. cbn [collect_map pick map].
  destruct (indices !! i) as [x|] eqn:Ex; [|by apply lookup_ge_None in Ex; lia]. cbn [expect rbind]. rewrite IH. cbn [rbind].
  by rewrite (nth_lookup_Some _ _ 0%nat _ Ex).
Qed.

Lemma pick_all indices : pick indices (seq 0 (length indices)) = indices.
Proof.
  apply list_eq. intros i. unfold pick. rewrite list_lookup_fmap. destruct (decide (i < length indices)%nat) as [Hi|Hi].
  - rewrite lookup_seq_lt by done. cbn. destruct (indices !! i) as [x|] eqn:Ex; [|by apply lookup_ge_None in Ex; lia].
    by rewrite (nth_lookup_Some _ _ 0%nat _ Ex).
  - rewrite lookup_seq_ge by lia. cbn. symmetry. apply lookup_ge_None. lia.
Qed.

Lemma sorted_nth indices : StronglySorted lt indices -> forall i j, (i < j < length indices)%nat ->
  (nth i indices 0 < nth j indices 0)%nat.
Proof.
  induction 1 as [|x l Hl IH Hx]; intros i j Hij; cbn in Hij; [lia|]. rewrite Forall_forall in Hx.
  destruct i as [|i], j as [|j]; cbn; [lia| |lia|apply IH; lia]. apply Hx. apply list_elem_of_In, nth_In. lia.
Qed.

Lemma pick_sorted indices g : StronglySorted lt indices -> StronglySorted lt g ->
  Forall (fun i => (i < length indices)%nat) g -> StronglySorted lt (pick indices g).
Proof.
  intros Hs. induction 1 as [|i g Hg IH Hi]; cbn; intros Hf; constructor; apply Forall_cons in Hf as [Hil Hf]; [by apply IH|].
  apply Forall_map. apply Forall_forall. intros j Hj. rewrite Forall_forall in Hi. rewrite Forall_forall in Hf.
  apply sorted_nth; [done|]. split; [by apply Hi|by apply Hf].
Qed.

(** The parts of [indices] by the groups that divide its places. *)
Lemma dividing_parts indices gs : dividing (length indices) gs -> concat (map (pick indices) gs) ≡ₚ indices.
Proof.
  intros [Hp _ _]. assert (concat (map (pick indices) gs) = pick indices (concat gs)) as ->.
  { unfold pick. clear. induction gs as [|g gs IH]; [done|]. cbn. by rewrite IH, map_app. }
  unfold pick. rewrite Hp. change (pick indices (seq 0 (length indices)) ≡ₚ indices). by rewrite pick_all.
Qed.

Lemma dividing_range n gs g : dividing n gs -> g ∈ gs -> Forall (fun i => (i < n)%nat) g.
Proof.
  intros [Hp _ _] Hg. apply Forall_forall. intros i Hi.
  assert (i ∈ seq 0 n) as Hs by (rewrite <-Hp; apply list_elem_of_In, in_concat; exists g; split; by apply list_elem_of_In).
  apply elem_of_seq in Hs. lia.
Qed.

(** A postcondition where a panic means [Pn]. *)
Section may.
Context {Er X : Type} (Pn : Prop).

Definition may {A} (Q : A -> Prop) (r : result Er A) : Prop :=
  match r with Ok a => Q a | Err _ => True | Panic => Pn end.
Definition post_or {A} (E : X -> Prop) (Q : A -> X -> Prop) (o : result Er A * X) : Prop :=
  match o with (Ok a, x) => Q a x | (Err _, x) => E x | (Panic, _) => Pn end.

Lemma may_returns {A} (Q : A -> Prop) r : returns Q r -> may Q r.
Proof. by destruct r. Qed.

Lemma post_or_bind {A B} E (Q : A -> X -> Prop) (R : B -> X -> Prop) (m : state_m Er X A) k x :
  post_or E Q (m x) -> (forall a x', Q a x' -> post_or E R (k a x')) -> post_or E R (ibind m k x).
Proof. unfold ibind. destruct (m x) as [[a|e|] x']; cbn; auto. Qed.

Lemma post_or_step {A B} E (Q : A -> Prop) (R : B -> X -> Prop) (r : result Er A) k x :
  E x -> may Q r -> (forall a, Q a -> post_or E R (k a x)) -> post_or E R (ibind (iret r) k x).
Proof. unfold ibind, iret. destruct r; cbn; auto. Qed.

Lemma post_or_value {A B} E (R : B -> X -> Prop) (a : A) k x : post_or E R (k a x) -> post_or E R (ibind (iret (Ok a)) k x).
Proof. done. Qed.

Lemma post_or_weaken {A} E (Q Q' : A -> X -> Prop) (o : result Er A * X) : post_or E Q o -> (forall a x, Q a x -> Q' a x) -> post_or E Q' o.
Proof. destruct o as [[a|e|] x]; cbn; auto. Qed.
End may.

(** The data of a planner: two embeddings at least, [n] at most, of at most [D] values. *)
Definition within (n D : nat) (es : list (list f32)) : Prop :=
  (2 <= length es <= n)%nat /\ Forall (fun e => length e <= D)%nat es.

(** What a derivation relies on: on the data it is built for, a planner panics only if [Pn]. *)
Definition builder_safe {B P E A} `{PartitionPlannerRunner P} (Pn : Prop) (n D : nat) (Inv : B -> Prop)
  (data : A -> list (list f32)) (builder : A -> B -> result E P * B) : Prop :=
  forall x b, within n D (data x) -> Inv b ->
    post_or Pn Inv (fun p b' => Inv b' /\ ((run_planner p (data x)).1 = Panic -> Pn)) (builder x b).

Lemma no_panic_map_err {E E' A} (f : E -> E') (r : result E A) : no_panic r -> no_panic (map_err f r).
Proof. by destruct r. Qed.

Lemma bind_update {B E A} f (k : unit -> state_m E (Deriving B) A) d : ibind (update f) k d = k tt (f d).
Proof. done. Qed.

Ltac updates :=
  unfold count_up, emit_unit, emit_all, observe, push_partition;
  repeat (rewrite bind_update; cbv beta).

Section divide.
Context {B P E : Type} `{PartitionPlannerRunner P} (from : StreamingClusteringError -> E) (Pn : Prop) (Inv : B -> Prop).
Notation deriving := (Deriving B).
Notation post := (post_or Pn (fun d : deriving => Inv (d_builder d))) (only parsing).

Lemma post_failing {A} stage count path (r : result E A) (Q : A -> Prop) d :
  Inv (d_builder d) -> may Pn Q r -> post (fun a d' => Q a /\ d' = d) (failing stage count path r d).
Proof. intros Hd. by destruct r as [a|e|]. Qed.

Lemma post_build {A} n D data (builder : A -> B -> result E P * B) x d :
  builder_safe Pn n D Inv data builder -> within n D (data x) -> Inv (d_builder d) ->
  post (fun p d' => Inv (d_builder d') /\ ((run_planner p (data x)).1 = Panic -> Pn)
    /\ d_telemetry d' = d_telemetry d /\ d_partitions d' = d_partitions d) (build (builder x) d).
Proof.
  intros Hs Hx Hd. specialize (Hs x _ Hx Hd). unfold build. destruct (builder x (d_builder d)) as [[p|e|] b]; cbn in *; [|done|done].
  destruct Hs. by split_and!.
Qed.

(** The groups divide the partition and are two at least, whatever the planner said. *)
Lemma divide_ok bound cap stage count path assignments d :
  (2 <= count)%nat -> (bound < count)%nat -> length assignments = count -> Inv (d_builder d) ->
  post (fun gs d' => dividing count gs /\ (2 <= length gs)%nat /\ Inv (d_builder d') /\ d_partitions d' = d_partitions d
    /\ exists f, (f <= 1)%nat /\ d_telemetry d' = bump 0 0 0 0 0 0 0 f (d_telemetry d))
  (divide from bound cap stage count path assignments d).
Proof.
  intros Hc Hb Ha Hd. unfold divide. destruct (ordered_groups_ok (E := E) assignments) as (gs & -> & Hdv & _). rewrite Ha in Hdv.
  apply post_or_value. destruct (Nat.leb_spec (length gs) 1) as [Hl|Hl].
  - updates. eapply post_or_weaken; [apply (post_failing _ _ _ _
      (fun gs => dividing count gs /\ (2 <= length gs)%nat))|].
    + done.
    + pose proof (fallback_no_panic count bound cap) as Hnp. pose proof (fallback_dividing count bound cap) as Hf.
      destruct (fallback_partition_groups count bound cap) as [hs|e|]; cbn; [|done|done]. by apply Hf.
    + intros hs d' [[? ?] ->]. cbn. split_and!; try done. by exists 1%nat.
  - cbn. split_and!; try done. exists 0%nat. split; [lia|by rewrite bump_zero].
Qed.

(** What a derivation adds: the partitions of a tree, and the counts of these. *)
Definition grown (bound : nat) (d d' : deriving) (ps : list FinalizedPartition) : Prop :=
  d_partitions d' = d_partitions d ++ ps /\ Forall (fits bound) ps
  /\ exists f, (f <= inners ps)%nat /\ d_telemetry d' = tallied ps f (d_telemetry d).

Lemma grown_nil bound d : grown bound d d [].
Proof. split_and!; [by rewrite app_nil_r|constructor|]. exists 0%nat. split; [done|]. unfold tallied. by rewrite bump_zero. Qed.

Lemma grown_app bound d d' d'' ps qs : grown bound d d' ps -> grown bound d' d'' qs -> grown bound d d'' (ps ++ qs).
Proof.
  intros (Hp & Hf & f & Hfl & Ht) (Hp' & Hf' & f' & Hfl' & Ht'). split_and!.
  - by rewrite Hp', Hp, app_assoc.
  - by apply Forall_app.
  - exists (f + f')%nat. split; [unfold inners in *; rewrite List.filter_app, length_app; lia|]. by rewrite tallied_app, <-Ht.
Qed.

Lemma sorted_range_length l n : StronglySorted lt l -> Forall (fun i => (i < n)%nat) l -> (length l <= n)%nat.
Proof.
  intros Hs Hf. rewrite <-(length_seq n 0). apply submseteq_length, NoDup_submseteq.
  - induction Hs as [|x l Hl IH Hx]; constructor; [|apply IH; by apply Forall_cons in Hf as [_ Hf]].
    intros Hin. rewrite Forall_forall in Hx. specialize (Hx _ Hin). lia.
  - intros x Hx. rewrite Forall_forall in Hf. apply elem_of_seq. specialize (Hf x Hx). lia.
Qed.

(** The loop over the groups. *)
Lemma post_children bound indices id (child : list nat -> nat -> state_m E deriving unit) l :
  Forall (fun p => Forall (fun i => (i < length indices)%nat) p.2) l ->
  (forall p d, p ∈ l -> Inv (d_builder d) -> post (fun _ d' => Inv (d_builder d')
     /\ exists t, planned_tree (child_id_of id p.1) (Some id) (pick indices p.2) t /\ grown bound d d' (t_parts t))
     (child (pick indices p.2) p.1 d)) ->
  forall d, Inv (d_builder d) -> post (fun _ d' => Inv (d_builder d')
     /\ exists ts, Forall2 (fun part t => planned_tree (child_id_of id part.1) (Some id) part.2 t)
          (map (fun p => (p.1, pick indices p.2)) l) ts
        /\ grown bound d d' (concat (map t_parts ts)))
    (ifold (fun _ c => let! child_indices := iret (collect_map (fun local_index => expect (indices !! local_index)) c.2) in
                       child child_indices c.1) tt l d).
Proof.
  induction l as [|p l IH]; intros Hr Hc d Hd; cbn [ifold map].
  - cbn. split; [done|]. exists []. split; [constructor|apply grown_nil].
  - apply Forall_cons in Hr as [Hr1 Hr2]. eapply post_or_bind.
    + rewrite (pick_collect _ _ Hr1). apply post_or_value.
      apply Hc; [by left|done].
    + intros [] d1 (Hd1 & t & Ht & Hg). eapply post_or_weaken; [apply IH; [done| |done]|].
      * intros q d2 Hq. apply Hc. by right.
      * intros _ d2 (Hd2 & ts & Hts & Hg2). split; [done|]. exists (t :: ts). split; [by constructor|]. cbn [map concat].
        by eapply grown_app.
Qed.

Variables (planner_builder : list (list f32) -> B -> result E P * B) (embeddings : list (list f32))
  (bound : nat) (cap : option nat).
Context (D : nat).
Hypothesis Hbuilder : builder_safe Pn (length embeddings) D Inv (fun es => es) planner_builder.
Hypothesis Hdims : Forall (fun e => length e <= D)%nat embeddings.

Lemma derive_recursive_ok fuel : forall indices id parent hint d,
  (length indices < fuel)%nat -> indices <> [] -> StronglySorted lt indices ->
  Forall (fun i => (i < length embeddings)%nat) indices -> Inv (d_builder d) ->
  post (fun _ d' => Inv (d_builder d')
      /\ exists t, planned_tree id parent indices t /\ grown bound d d' (t_parts t))
    (derive_partition_recursive from planner_builder embeddings bound cap fuel indices id parent hint d).
Proof using Hbuilder Hdims.
  induction fuel as [|fuel IH]; intros indices id parent hint d Hf Hne Hs Hr Hd; [lia|].
  cbn [derive_partition_recursive]. cbv zeta. updates.
  destruct (Nat.leb_spec (length indices) bound) as [Hb|Hb]; cbn [orb].
  2: destruct (Nat.leb_spec (length indices) 1) as [H1|H1].
  1,2: updates; unfold update; cbn; split; [done|];
    eexists (PNode _ []); split; [by constructor|]; split_and!; cbn; [done| |];
    [constructor; [|constructor]; unfold fits; cbn; split; [destruct indices; [done|cbn in *; lia]|done]|];
    exists 0%nat; split; [done|]; unfold tallied, bump; cbn; f_equal; lia.
  set (es := map (fun i => nth i embeddings []) indices).
  assert (collect_map (fun index => expect (embeddings !! index)) indices = Ok (E := E) es) as ->.
  { subst es. clear -Hr. induction Hr as [|i l Hi _ IH]; [done|]. cbn [collect_map map].
    destruct (embeddings !! i) as [x|] eqn:Ex; [|by apply lookup_ge_None in Ex; lia]. cbn [expect rbind]. rewrite IH. cbn [rbind].
    by rewrite (nth_lookup_Some _ _ [] _ Ex). }
  assert (length es = length indices) as Hes by (subst es; by rewrite length_map).
  apply post_or_value.
  eapply post_or_bind; [apply (post_build (length embeddings) D (fun es => es)); [exact Hbuilder| |done]|].
  { split; [rewrite Hes; pose proof (sorted_range_length _ _ Hs Hr); lia|]. subst es. apply Forall_map.
    eapply Forall_impl; [exact Hr|]. cbn. intros i Hi. rewrite Forall_forall in Hdims. by apply Hdims, list_elem_of_In, nth_In. }
  cbn beta. intros p d1 (Hd1 & Hp & Ht1 & Hp1).
  updates. destruct (run_planner p es) as [ran progress]. cbn [fst] in Hp. updates.
  eapply post_or_bind; [apply (post_failing _ _ _ _ (fun _ => True)); [done|destruct ran; cbn; [done|done|by apply Hp]]|].
  cbn beta. intros [pass_report assignments] d2 [_ ->].
  eapply post_or_bind; [apply (post_failing _ _ _ _ (fun _ => length assignments = length es)); [done|]|].
  { apply may_returns, returns_guard. intros Hl%Nat.eqb_eq. done. }
  cbn beta. intros [] d2 [Hl ->]. rewrite Hes in Hl. updates.
  eapply post_or_bind; [apply divide_ok; [lia|lia|done|done]|]. cbn beta. intros gs d2 (Hdv & H2 & Hd2 & Hp2 & f & Hfl & Ht2).
  updates. cbn [d_partitions d_telemetry] in *.
  eapply post_or_weaken; [eapply (post_children bound indices id (fun x k => derive_partition_recursive from planner_builder embeddings
    bound cap fuel x (child_id_of id k) (Some id) (Some (planner_stage p))))|].
  - apply Forall_forall. intros [k g] Hg. cbn. apply (dividing_range _ gs); [done|]. rewrite imap_pair_zip in Hg.
    by apply elem_of_zip_r in Hg.
  - intros [k g] d3 Hg Hd3. cbn [fst snd]. rewrite imap_pair_zip in Hg. apply elem_of_zip_r in Hg.
    pose proof (dividing_smaller _ _ _ Hdv H2 Hg) as Hsm. pose proof (dividing_range _ _ _ Hdv Hg) as Hrg.
    apply IH; [unfold pick; rewrite length_map; lia| | | |done].
    + intros He. apply (f_equal length) in He. unfold pick in He. rewrite length_map in He. cbn in He. lia.
    + apply pick_sorted; [done| |done]. pose proof (dv_sorted _ _ Hdv) as Hso. rewrite Forall_forall in Hso. by apply Hso.
    + apply Forall_map. eapply Forall_impl; [exact Hrg|]. cbn. intros i Hi. rewrite Forall_forall in Hr. apply Hr.
      by apply list_elem_of_In, nth_In.
  - exact Hd2.
  - cbn beta. intros _ d3 (Hd3 & ts & Hts & Hg). split; [done|].
    assert (map (fun p : nat * list nat => (p.1, pick indices p.2)) (imap pair gs) = imap pair (map (pick indices) gs)) as Him.
    { etransitivity; [apply fmap_imap|]. symmetry. exact (imap_fmap pair (pick indices) gs). }
    rewrite Him in Hts.
    eexists (PNode _ ts). split; [apply (planned_inner id parent indices (planner_stage p) (map (pick indices) gs))|].
    + done.
    + done.
    + intros He. apply (f_equal length) in He. rewrite length_map in He. cbn in He. lia.
    + by apply dividing_parts.
    + exact Hts.
    + cbn [t_parts]. rewrite (length_map (pick indices)) .
      match goal with |- grown bound d d3 (?q :: ?qs) => change (grown bound d d3 ([q] ++ qs)); set (node := q) end.
      eapply grown_app; [|exact Hg]. cbn [d_partitions d_telemetry]. split_and!.
      * cbn [d_partitions]. rewrite Hp2, Hp1. done.
      * constructor; [|constructor]. unfold fits. cbn. rewrite length_map, length_seq. split; [lia|].
        split; [done|]. clear -Hdv H2. pose proof (Permutation_length (dv_perm _ _ Hdv)) as Hlen. rewrite length_seq in Hlen.
        rewrite <-Hlen. pose proof (dv_some _ _ Hdv) as Hs. clear -Hs. induction Hs as [|g gs Hg _ IH]; [done|]. cbn. rewrite length_app.
        destruct g; [done|]. cbn. lia.
      * exists f. split; [done|]. cbn [d_telemetry]. rewrite Ht2. cbn. rewrite Ht1. unfold tallied, bump. cbn. f_equal; lia.
Qed.
End divide.

Lemma planned_perm l : sort_partitions l ≡ₚ l.
Proof. apply sort_by_Permutation. Qed.

Lemma fits_perm bound l k : l ≡ₚ k -> Forall (fits bound) l -> Forall (fits bound) k.
Proof. by intros ->. Qed.

Lemma tallied_perm l k f t : l ≡ₚ k -> tallied l f t = tallied k f t.
Proof.
  intros HP. unfold tallied, leaves, inners.
  assert (forall p : FinalizedPartition -> bool, length (List.filter p l) = length (List.filter p k)) as Hf.
  { intros p. clear -HP. induction HP as [|x l k _ IH|x y l|l k r _ IH1 _ IH2]; cbn; [done| | |congruence].
    - destruct (p x); cbn; by rewrite IH.
    - by destruct (p x), (p y). }
  by rewrite !Hf, HP.
Qed.

(** Dividing from the root *)
Lemma divisive_plan_ok {B P E} `{PartitionPlannerRunner P} (from : StreamingClusteringError -> E)
  (Pn : Prop) (Inv : B -> Prop) D builder embeddings bound cap b r d :
  builder_safe Pn (length embeddings) D Inv (fun es => es) builder -> Inv b ->
  embeddings <> [] -> Forall (fun e => length e <= D)%nat embeddings ->
  derive_hierarchy_with_builder_and_fallback_group_cap from builder embeddings bound cap b = (r, d) ->
  (r = Panic -> Pn)
  /\ forall o, r = Ok o ->
       Inv (d_builder d)
       /\ validate_partition_hierarchy (hierarchy o) (length embeddings) = Ok tt
       /\ Forall (fits bound) (partitions (hierarchy o))
       /\ exists f, (f <= inners (partitions (hierarchy o)))%nat
            /\ d_telemetry d = tallied (partitions (hierarchy o)) f telemetry_default.
Proof.
  intros Hs Hb Hne HD Hd. unfold derive_hierarchy_with_builder_and_fallback_group_cap in Hd.
  assert (0 < length embeddings)%nat as Hn by (destruct embeddings; [done|cbn; lia]).
  pose proof (derive_recursive_ok from Pn Inv builder embeddings bound cap D Hs HD (S (length embeddings)) (seq 0 (length embeddings))
    "p0" None None (fresh b)) as Hp.
  destruct embeddings as [|e es] eqn:Ee; [done|]. rewrite <-Ee in *. clear Ee Hne.
  rewrite length_seq in Hp. specialize (Hp ltac:(lia)).
  assert (seq 0 (length embeddings) <> []) as Hsq by (destruct (length embeddings); [lia|done]).
  specialize (Hp Hsq (seq_sorted_lt _ _)).
  assert (Forall (fun i => (i < length embeddings)%nat) (seq 0 (length embeddings))) as Hr.
  { apply Forall_forall. intros x Hx%elem_of_seq. lia. }
  specialize (Hp Hr Hb). destruct (derive_partition_recursive _ _ _ _ _ _ _ _ _ _ _) as [[[]|err|] d0]; injection Hd as <- <-; cbn in Hp;
    [|by split|by split].
  destruct Hp as (Hi & t & Ht & Hp & Hf & f & Hfl & Htel). cbn [d_partitions d_telemetry fresh app] in Hp, Htel.
  split; [done|]. intros o [= <-]. cbn [hierarchy planned partitions].
  pose proof (planned_perm (d_partitions d0)) as HP. rewrite Hp in HP at 2. split_and!.
  - done.
  - by apply planned_validates with t.
  - eapply fits_perm; [symmetry; exact HP|done].
  - exists f. split; [|by rewrite Htel; apply tallied_perm].
    assert (inners (sort_partitions (d_partitions d0)) = inners (t_parts t)) as ->; [|done].
    pose proof (tallied_perm _ _ 0%nat telemetry_default HP) as Heq. apply (f_equal started_planner_invocation_count) in Heq.
    cbn in Heq. lia.
Qed.

(** ** Joining *)
Notation nodes_t := (list AgglomerativeHierarchyNode) (only parsing).
Definition bare (nodes : nodes_t) : nodes_t := map take_representative nodes.
Definition items_of (ns : nodes_t) (i : nat) : list nat := default [] (node_items <$> ns !! i).
Definition layer_items (ns : nodes_t) (layer : list nat) : list nat := concat (map (items_of ns) layer).

(** A leaf holds items as [L] says; any other node holds nodes that are before it, as
    many as [W] says, and their items. *)
Definition joined (L : list nat -> Prop) (W : nat -> Prop) (ns : nodes_t) : Prop := forall i node, ns !! i = Some node ->
  node_items node <> [] /\ StronglySorted lt (node_items node)
  /\ Forall (fun j => (j < i)%nat) (child_node_indices node)
  /\ (child_node_indices node = [] -> L (node_items node))
  /\ (child_node_indices node <> [] -> W (length (child_node_indices node))
        /\ layer_items ns (child_node_indices node) ≡ₚ node_items node).

Lemma items_of_bare nodes i : items_of (bare nodes) i = items_of nodes i.
Proof. unfold items_of, bare. rewrite list_lookup_fmap. by destruct (nodes !! i). Qed.

Lemma layer_items_app ns new layer : Forall (fun i => (i < length ns)%nat) layer ->
  layer_items (ns ++ new) layer = layer_items ns layer.
Proof.
  unfold layer_items. induction 1 as [|i layer Hi _ IH]; [done|]. cbn [map concat]. rewrite IH. f_equal.
  unfold items_of. by rewrite lookup_app_l.
Qed.

Lemma node_at_ok {E} (nodes : nodes_t) i : (i < length nodes)%nat ->
  exists node, node_at (E' := E) nodes i = Ok node /\ nodes !! i = Some node.
Proof. intros Hi. apply lookup_lt_is_Some in Hi as [node Hn]. exists node. unfold node_at. by rewrite Hn. Qed.

Lemma nodes_at_ok {E} (nodes : nodes_t) l : Forall (fun i => (i < length nodes)%nat) l ->
  exists ns, collect_map (node_at (E' := E) nodes) l = Ok ns /\ map node_items ns = map (items_of nodes) l.
Proof.
  induction 1 as [|i l Hi _ (ns & IH & Hm)]; [by exists []|]. destruct (node_at_ok (E := E) nodes i Hi) as (node & Hn & Hl).
  exists (node :: ns). cbn [collect_map]. rewrite Hn. cbn [rbind]. rewrite IH. split; [done|]. cbn. rewrite Hm. f_equal.
  unfold items_of. by rewrite Hl.
Qed.

Lemma bare_alter nodes i : bare (alter take_representative i nodes) = bare nodes.
Proof.
  unfold bare. revert i. induction nodes as [|n nodes IH]; intros [|i]; [done|done| |].
  - done.
  - change (take_representative n :: map take_representative (alter take_representative i nodes) = map take_representative (n :: nodes)).
    by rewrite IH.
Qed.

Lemma bare_length nodes : length (bare nodes) = length nodes.
Proof. apply length_map. Qed.

Lemma representative_at_no_panic nodes i : (i < length nodes)%nat -> no_panic (representative_at nodes i).
Proof. intros Hi. unfold representative_at. destruct (node_at_ok (E := StreamingClusteringError) nodes i Hi) as (n & -> & _). cbn. by destruct (representative_embedding n). Qed.

Lemma weighted_mean_no_panic l : no_panic (weighted_mean_f32_embeddings l).
Proof.
  assert (forall w p, no_panic (add_weighted w p)) as Ha.
  { intros w [k [s v]]. unfold add_weighted. destruct (f32_is_finite v); [|done]. by destruct (f64_is_finite _). }
  unfold weighted_mean_f32_embeddings. destruct l as [|[f w] rest]; [done|]. destruct (negb (w =? 0)%nat); [|done].
  apply rbind_no_panic; [apply collect_map_no_panic; intros x _; by destruct (f64_is_finite x.2)|]. intros _ _.
  apply rbind_no_panic.
  - apply (try_fold_guarded (fun _ => True)); [done|]. intros [sums tw] [e ew] _. split; [|done]. unfold add_embedding.
    destruct (negb (ew =? 0)%nat); [|done]. destruct (_ =? _)%nat; [|done].
    apply rbind_no_panic; [|done]. apply collect_map_no_panic. intros x _. apply Ha.
  - intros [sums tw] _. apply collect_map_no_panic. intros [k s] _. unfold mean_value.
    destruct (f64_is_finite _); [|done]. by destruct (f32_is_finite _).
Qed.

(** The representatives have [D] values at most. *)
Definition slim (D : nat) (n : AgglomerativeHierarchyNode) : Prop :=
  match representative_embedding n with Some v => (length v <= D)%nat | None => True end.

Lemma representative_at_ok D nodes i : Forall (slim D) nodes -> (i < length nodes)%nat ->
  returns (fun v => length v <= D)%nat (representative_at nodes i).
Proof.
  intros Hs Hi. unfold representative_at. destruct (node_at_ok (E := StreamingClusteringError) nodes i Hi) as (n & -> & Hn).
  cbn. assert (slim D n) as Hsn by (by apply (proj1 (Forall_lookup _ _) Hs i)). unfold slim in Hsn. by destruct (representative_embedding n).
Qed.

Lemma slim_alter D nodes i : Forall (slim D) nodes -> Forall (slim D) (alter take_representative i nodes).
Proof. intros Hs. apply Forall_alter; [done|]. intros x _ _. done. Qed.

Lemma take_representatives_ok D children : forall nodes, Forall (slim D) nodes -> Forall (fun i => (i < length nodes)%nat) children ->
  returns (fun r => bare r.2 = bare nodes /\ Forall (slim D) r.2 /\ Forall (fun v => length v <= D)%nat r.1)
    (take_representatives nodes children).
Proof.
  induction children as [|i children IH]; intros nodes Hs Hf; [done|]. apply Forall_cons in Hf as [Hi Hf]. cbn [take_representatives].
  eapply returns_bind; [by apply (representative_at_ok D)|]. cbn beta. intros e He. eapply returns_bind.
  - apply (IH (alter take_representative i nodes)); [by apply slim_alter|by rewrite length_alter].
  - cbn beta. intros [es nodes'] (Hb & Hs' & Hes). cbn in *. split_and!; [rewrite Hb; apply bare_alter|done|by constructor].
Qed.

Lemma weighted_mean_length D l : Forall (fun p => length p.1 <= D)%nat l ->
  returns (fun v => length v <= D)%nat (weighted_mean_f32_embeddings l).
Proof.
  intros Hf. apply returns_ok; [apply weighted_mean_no_panic|]. intros v Hv. unfold weighted_mean_f32_embeddings in Hv.
  destruct l as [|[first w] rest]; [done|]. apply Forall_cons in Hf as [Hd _]. cbn in Hd. inv_ok.
  destruct a0 as [sums total]. apply collect_map_length in Hv. rewrite length_imap in Hv. rewrite Hv.
  match goal with Hfold : try_fold add_embedding _ rest = Ok _ |- _ => rename Hfold into Hr end. revert Hr.
  assert (length (map (fun value => fmul binary64 (f64_of_f32 value) (f_of_Z binary64 (Z.of_nat w))) first) <= D)%nat as Hl
    by (by rewrite length_map). revert Hl. generalize (map (fun value => fmul binary64 (f64_of_f32 value) (f_of_Z binary64 (Z.of_nat w))) first).
  generalize w. clear. induction rest as [|[e ew] rest IH]; intros w sums0 Hl Hr; cbn in Hr; [by injection Hr as <- <-|].
  inv_ok. simplify_eq. eapply IH; [|eassumption].
  match goal with Hc : collect_map _ (imap pair (zip sums0 e)) = Ok _ |- _ => apply collect_map_length in Hc; rewrite Hc, length_imap, length_zip end. lia.
Qed.

Lemma pick_range layer k g : Forall (fun i => (i < k)%nat) layer -> Forall (fun i => (i < length layer)%nat) g ->
  Forall (fun i => (i < k)%nat) (pick layer g).
Proof.
  intros Hl Hg. apply Forall_map. eapply Forall_impl; [exact Hg|]. cbn. intros i Hi. rewrite Forall_forall in Hl. apply Hl.
  by apply list_elem_of_In, nth_In.
Qed.

Lemma layer_items_concat ns layers : layer_items ns (concat layers) = concat (map (layer_items ns) layers).
Proof. unfold layer_items. induction layers as [|l ls IH]; [done|]. cbn [concat map]. by rewrite map_app, concat_app, IH. Qed.

Lemma NoDup_concat_in {A} (ls : list (list A)) l : NoDup (concat ls) -> l ∈ ls -> NoDup l.
Proof.
  intros Hn (l1 & l2 & ->)%list_elem_of_split. rewrite concat_app in Hn. cbn in Hn.
  apply NoDup_app in Hn as (_ & _ & Hn). by apply NoDup_app in Hn as (Hn & _).
Qed.

Lemma layer_items_perm ns l k : l ≡ₚ k -> layer_items ns l ≡ₚ layer_items ns k.
Proof. intros HP. unfold layer_items. apply concat_perm. by rewrite HP. Qed.

Section layers.
Context (L : list nat -> Prop) (W : nat -> Prop) (n D : nat).

(** The nodes of a layer hold the items of the input, each once. *)
Record layer_ok (nodes : nodes_t) (layer : list nat) : Prop := {
  lo_joined : joined L W (bare nodes);
  lo_range : Forall (fun i => (i < length nodes)%nat) layer;
  lo_items : layer_items (bare nodes) layer ≡ₚ seq 0 n;
  lo_slim : Forall (slim D) nodes
}.

(** A node of [children] at the end *)
Lemma joined_snoc ns node : joined L W ns -> Forall (fun i => (i < length ns)%nat) (child_node_indices node) ->
  child_node_indices node <> [] -> W (length (child_node_indices node)) ->
  NoDup (layer_items ns (child_node_indices node)) -> (forall i, i ∈ child_node_indices node -> items_of ns i <> []) ->
  node_items node = sort_indices (layer_items ns (child_node_indices node)) -> joined L W (ns ++ [node]).
Proof.
  intros Hj Hc Hne HW Hnd Hsome Hit i x Hx.
  assert (node_items node ≡ₚ layer_items ns (child_node_indices node)) as HP by (rewrite Hit; apply sort_by_Permutation).
  destruct (decide (i < length ns)%nat) as [Hi|Hi].
  - rewrite lookup_app_l in Hx by done. destruct (Hj _ _ Hx) as (? & ? & Hcx & ? & Hcc). split_and!; [done..|].
    intros Hnx. destruct (Hcc Hnx) as [? Hperm]. split; [done|]. rewrite layer_items_app; [done|].
    eapply Forall_impl; [exact Hcx|]. cbn. intros. lia.
  - rewrite lookup_app_r in Hx by lia. destruct (i - length ns)%nat as [|k] eqn:Ek; [|done]. injection Hx as <-.
    assert (i = length ns) as -> by lia. split_and!.
    + intros He. rewrite He in HP. apply Permutation_nil in HP. destruct (child_node_indices node) as [|c cs] eqn:Ec; [done|].
      cbn in HP. apply app_eq_nil in HP as [HP _]. by apply (Hsome c); [left|].
    + rewrite Hit. by apply sort_indices_strict.
    + exact Hc.
    + done.
    + intros _. split; [done|]. by rewrite layer_items_app, HP.
Qed.

(** The nodes [ns] of a layer and a node for each of the groups [groups] of them *)
Record appended (ns : nodes_t) (nodes : nodes_t) (next : list nat) (groups : list (list nat)) : Prop := {
  ap_bare : exists new, bare nodes = ns ++ new;
  ap_joined : joined L W (bare nodes);
  ap_range : Forall (fun i => (i < length nodes)%nat) next;
  ap_length : length next = length groups;
  ap_items : layer_items (bare nodes) next ≡ₚ concat (map (layer_items ns) groups);
  ap_slim : Forall (slim D) nodes
}.

Lemma appended_nil nodes layer : layer_ok nodes layer -> appended (bare nodes) nodes [] [].
Proof. intros [Hj Hr Hi Hs]. split; [by exists []; rewrite app_nil_r|done|constructor|done|done|done]. Qed.

Lemma appended_length ns nodes next groups : appended ns nodes next groups -> (length ns <= length nodes)%nat.
Proof. intros [[new Hn] _ _ _ _ _]. rewrite <-(bare_length nodes), Hn, length_app. lia. Qed.

Lemma appended_items ns nodes next groups i : appended ns nodes next groups -> (i < length ns)%nat ->
  items_of nodes i = items_of ns i.
Proof. intros [[new Hn] _ _ _ _ _] Hi. rewrite <-(items_of_bare nodes), Hn. unfold items_of. by rewrite lookup_app_l. Qed.

Lemma appended_snoc ns nodes nodes' next groups children representative stage :
  appended ns nodes next groups -> bare nodes' = bare nodes -> Forall (slim D) nodes' ->
  Forall (fun i => (i < length ns)%nat) children -> children <> [] -> W (length children) ->
  NoDup (layer_items ns children) -> (forall i, i ∈ children -> items_of ns i <> []) -> (length representative <= D)%nat ->
  appended ns
    (nodes' ++ [{| child_node_indices := children; node_items := sort_indices (layer_items ns children);
                   representative_embedding := Some representative; node_stage := stage |}])
    (next ++ [length nodes']) (groups ++ [children]).
Proof.
  intros Ha Hb Hs Hc Hne HW Hnd Hsome Hrep. pose proof (appended_length _ _ _ _ Ha) as Hle. destruct Ha as [[new Hn] Hj Hr Hl Hi Hsl].
  assert (length nodes' = length nodes) as Hlen by (by rewrite <-bare_length, Hb, bare_length).
  assert (forall node, bare (nodes' ++ [node]) = bare nodes ++ [take_representative node]) as Hbare
    by (intros node; unfold bare; rewrite map_app; cbn [map]; f_equal; exact Hb).
  assert (layer_items (bare nodes) children = layer_items ns children) as Hch by (rewrite Hn; by apply layer_items_app).
  split.
  - exists (new ++ [take_representative {| child_node_indices := children; node_items := sort_indices (layer_items ns children);
      representative_embedding := Some representative; node_stage := stage |}]). by rewrite Hbare, Hn, app_assoc.
  - rewrite Hbare. apply joined_snoc; cbn [child_node_indices node_items take_representative]; [done| |done|done|by rewrite Hch| |by rewrite Hch].
    + rewrite bare_length. eapply Forall_impl; [exact Hc|]. cbn. intros. lia.
    + intros i Hic. rewrite Hn. unfold items_of. rewrite Forall_forall in Hc. rewrite lookup_app_l by by apply Hc. by apply Hsome.
  - apply Forall_app. rewrite length_app. cbn. split; [eapply Forall_impl; [exact Hr|]; cbn; intros; lia|]. repeat constructor. lia.
  - rewrite !length_app. cbn. lia.
  - unfold layer_items at 1. rewrite map_app, concat_app. rewrite Hbare. fold (layer_items (bare nodes ++ [take_representative
      {| child_node_indices := children; node_items := sort_indices (layer_items ns children);
         representative_embedding := Some representative; node_stage := stage |}]) next).
    rewrite layer_items_app by by rewrite bare_length. rewrite Hi, map_app, concat_app. apply Permutation_app_head. cbn. rewrite !app_nil_r.
    unfold items_of. rewrite lookup_app_r by (rewrite bare_length; lia). rewrite bare_length, Hlen, Nat.sub_diag. cbn.
    apply sort_by_Permutation.
  - apply Forall_app. split; [done|]. by repeat constructor.
Qed.

Lemma appended_done nodes layer nodes' next groups : layer_ok nodes layer -> concat groups ≡ₚ layer ->
  appended (bare nodes) nodes' next groups -> layer_ok nodes' next /\ length next = length groups.
Proof.
  intros [Hj Hr Hi _] Hg [_ Hj' Hr' Hl Hit Hs]. split; [|done]. split; [done|done| |done].
  rewrite Hit, <-layer_items_concat, (layer_items_perm _ _ _ Hg). exact Hi.
Qed.

(** What a group of the layer needs *)
Lemma layer_groups_ok nodes layer groups children : layer_ok nodes layer -> concat groups ≡ₚ layer -> children ∈ groups ->
  Forall (fun i => (i < length nodes)%nat) children /\ NoDup (layer_items (bare nodes) children)
  /\ (forall i, i ∈ children -> items_of (bare nodes) i <> []).
Proof.
  intros [Hj Hr Hi _] Hg Hc.
  assert (forall i, i ∈ children -> (i < length nodes)%nat) as Hin.
  { intros i Hic. rewrite Forall_forall in Hr. apply Hr. rewrite <-Hg. apply list_elem_of_In, in_concat. exists children.
    split; by apply list_elem_of_In. }
  split_and!; [by apply Forall_forall| |].
  - apply (NoDup_concat_in (map (layer_items (bare nodes)) groups)); [|apply list_elem_of_fmap; by exists children].
    rewrite <-layer_items_concat, (layer_items_perm _ _ _ Hg), Hi. apply NoDup_seq.
  - intros i Hic%Hin. rewrite <-bare_length in Hic. apply lookup_lt_is_Some in Hic as [node Hn]. unfold items_of. rewrite Hn. by apply (Hj i).
Qed.

(** One group becomes one node, with the items of its members. *)
Lemma join_group_ok stage layer ns nodes next groups g :
  appended ns nodes next groups -> Forall (fun i => (i < length layer)%nat) g -> g <> [] -> W (length g) ->
  Forall (fun i => (i < length ns)%nat) (pick layer g) -> NoDup (layer_items ns (pick layer g)) ->
  (forall i, i ∈ pick layer g -> items_of ns i <> []) ->
  returns (fun r => appended ns r.1 r.2 (groups ++ [pick layer g])) (join_group stage layer (nodes, next) g).
Proof.
  intros Ha Hg Hne HW Hch Hnd Hsome. unfold join_group. rewrite (pick_collect _ _ Hg). cbn [rbind].
  set (children := pick layer g) in *. pose proof (appended_length _ _ _ _ Ha) as Hle.
  assert (Forall (fun i => (i < length nodes)%nat) children) as Hch' by (eapply Forall_impl; [exact Hch|]; cbn; intros; lia).
  destruct (nodes_at_ok (E := StreamingClusteringError) nodes children Hch') as (cs & -> & Hcs). cbn [rbind]. cbv zeta.
  assert (map (items_of nodes) children = map (items_of ns) children) as Hit.
  { apply map_ext_in. intros i Hi. apply (appended_items _ _ _ _ _ Ha). rewrite Forall_forall in Hch. by apply Hch, list_elem_of_In. }
  rewrite Hcs, Hit. eapply returns_bind; [apply (take_representatives_ok D); [apply (ap_slim _ _ _ _ Ha)|done]|]. cbn beta.
  intros [embeddings nodes'] (Hb & HD' & Hes). cbn [fst snd] in *. eapply returns_bind; [apply (weighted_mean_length D)|].
  { apply Forall_forall. intros [v w] Hv%elem_of_zip_l. rewrite Forall_forall in Hes. by apply Hes. }
  cbn beta. intros representative Hrep. cbn [returns fst snd]. apply (appended_snoc ns nodes); try done.
  - intros He. apply (f_equal length) in He. unfold children, pick in He. rewrite length_map in He. by destruct g.
  - unfold children, pick. by rewrite length_map.
Qed.

(** The groups of a layer become the next one. *)
Lemma join_groups_ok stage nodes layer gs :
  layer_ok nodes layer -> dividing (length layer) gs -> Forall (fun g => W (length g)) gs ->
  returns (fun r => layer_ok r.1 r.2 /\ length r.2 = length gs) (try_fold (join_group stage layer) (nodes, []) gs).
Proof.
  intros Hl Hdv HW. pose proof (dividing_parts _ _ Hdv) as Hparts.
  eapply returns_weaken; [apply (returns_fold (fun k (r : nodes_t * list nat) =>
      appended (bare nodes) r.1 r.2 (map (pick layer) (take k gs))) _ _ 0%nat)|].
  - by apply (appended_nil nodes layer).
  - intros k g [nodes' next] Hg Ha. cbn [fst snd Nat.add] in *.
    assert (g ∈ gs) as Hgin by (by eapply list_elem_of_lookup_2).
    destruct (layer_groups_ok _ _ _ (pick layer g) Hl Hparts) as (Hr & Hnd & Hsome); [apply list_elem_of_fmap; by exists g|].
    rewrite (take_S_r _ _ _ Hg), map_app. cbn [map]. apply join_group_ok; [done|by apply (dividing_range _ gs)| | |by rewrite bare_length|done|done].
    + pose proof (dv_some _ _ Hdv) as Hs. rewrite Forall_forall in Hs. by apply Hs.
    + rewrite Forall_forall in HW. by apply HW.
  - intros [nodes' next] Ha. cbn [fst snd] in *. rewrite Nat.add_0_l, firstn_all in Ha.
    destruct (appended_done _ _ _ _ _ Hl Hparts Ha) as [? Hlen]. by rewrite length_map in Hlen.
Qed.

(** A layer is no longer than the items: every node has one. *)
Lemma layer_length nodes layer : layer_ok nodes layer -> (length layer <= n)%nat.
Proof.
  intros [Hj Hr Hi _]. apply Permutation_length in Hi. rewrite length_seq in Hi. rewrite <-Hi. clear Hi. unfold layer_items.
  induction Hr as [|i layer Hil _ IH]; [done|]. cbn. rewrite length_app. rewrite <-bare_length in Hil.
  apply lookup_lt_is_Some in Hil as [node Hn]. destruct (Hj _ _ Hn) as [Hne _]. unfold items_of at 1. rewrite Hn. cbn.
  destruct (node_items node); [done|]. cbn. lia.
Qed.

End layers.

Section join.
Context {B P E : Type} `{PartitionPlannerRunner P} (from : StreamingClusteringError -> E) (Pn : Prop) (Inv : B -> Prop).
Notation deriving := (Deriving B).
Notation post := (post_or Pn (fun d : deriving => Inv (d_builder d))) (only parsing).
Variables (planner_builder : list (list f32) -> nat -> nat -> B -> result E P * B) (bound : nat).
Context (n D : nat).
Notation layer_ok := (layer_ok (fun items => length items = 1%nat) (le 2) n D).
Hypothesis Hbuilder : builder_safe Pn n D Inv (fun x => x.1.1) (fun x => planner_builder x.1.1 x.1.2 x.2).

Lemma join_layer_ok nodes layer d : layer_ok nodes layer -> (2 <= length layer)%nat -> Inv (d_builder d) ->
  post (fun r d' => layer_ok r.1 r.2 /\ (1 <= length r.2 < length layer)%nat /\ Inv (d_builder d'))
    (join_layer from planner_builder bound nodes layer d).
Proof using Hbuilder.
  intros Hl H2 Hd. unfold join_layer. destruct (nodes_at_ok (E := E) nodes layer (lo_range _ _ _ _ _ _ Hl)) as (ns & -> & _).
  apply post_or_value. cbv zeta.
  apply (post_or_step _ _ (fun es => length es = length layer /\ Forall (fun e => length e <= D)%nat es)); [done| |].
  { assert (returns (fun es => length es = length layer /\ Forall (fun e => length e <= D)%nat es)
      (collect_map (representative_at nodes) layer)) as Hc.
    { eapply returns_weaken; [apply (returns_collect (fun _ v => length v <= D)%nat)|].
      - intros i Hi. apply representative_at_ok; [apply (lo_slim _ _ _ _ _ _ Hl)|]. pose proof (lo_range _ _ _ _ _ _ Hl) as Hr.
        rewrite Forall_forall in Hr. by apply Hr.
      - cbn beta. intros es H2'. split; [by rewrite (Forall2_length _ _ _ H2')|]. clear -H2'. by induction H2'; constructor. }
    by destruct (collect_map _ _). }
  intros es [Hes HD]. eapply post_or_bind.
  { match goal with |- context [planner_builder es ?a ?b] => apply (post_build Pn Inv n D _ _ (es, a, b) d Hbuilder); [|done] end.
    cbn [fst]. split; [|done]. split; [lia|]. rewrite Hes. apply (layer_length _ _ _ _ _ _ Hl). }
  cbn beta. intros p d1 (Hd1 & Hp & _). cbn [fst] in Hp. updates.
  apply (post_or_step _ _ (fun _ => True)); [done|by destruct ((run_planner p es).1); cbn; [| |apply Hp]|].
  intros [pass_report assignments] _. apply (post_or_step _ _ (fun _ => length assignments = length es)); [done|by apply may_returns, returns_guard; intros ?%Nat.eqb_eq|].
  intros _ Ha. updates. destruct (ordered_groups_ok (E := E) assignments) as (gs & -> & Hdv & Hbig). rewrite Ha, Hes in Hdv.
  apply post_or_value.
  apply (post_or_step _ _ (fun gs => dividing (length layer) gs /\ (1 <= length gs < length layer)%nat /\ Forall (fun g => 2 <= length g)%nat gs)); [done| |].
  { apply may_returns. destruct (_ || _)%bool eqn:Eb.
    - apply returns_ok; [apply no_panic_map_err, balanced_groups_no_panic|]. intros hs Hh.
      destruct (balanced_groups _ _) as [hs'|e|] eqn:Eg; [|done|done]. injection Hh as ->.
      destruct (balanced_dividing _ _ _ H2 Eg) as (? & _ & ? & Hs). split_and!; [done|lia|lia|].
      eapply Forall_impl; [exact Hs|]. cbn. intros. lia.
    - apply orb_false_iff in Eb as [E1 E2]. apply Nat.leb_gt in E1, E2. split_and!; [done|lia|lia|apply Hbig; lia]. }
  intros hs (Hdv' & Hc & Hbig'). pose proof (join_groups_ok _ _ _ _ (planner_stage p) nodes layer hs Hl Hdv' Hbig') as Hjoin.
  destruct (try_fold _ _ _) as [[nodes' next]|e|]; cbn in Hjoin |- *; [|done|done]. destruct Hjoin as [Hok ->]. done.
Qed.

(** The loop ends within as many rounds as there are items, with one node. *)
Lemma join_layers_ok fuel : forall nodes layer d, layer_ok nodes layer -> (length layer <= S fuel)%nat -> (1 <= length layer)%nat ->
  Inv (d_builder d) ->
  post (fun r d' => layer_ok r.1 r.2 /\ length r.2 = 1%nat /\ Inv (d_builder d'))
    (join_layers from planner_builder bound fuel nodes layer d).
Proof using Hbuilder.
  induction fuel as [|fuel IH]; intros nodes layer d Hl Hf H1 Hd; cbn [join_layers].
  - destruct (Nat.leb_spec (length layer) 1); [|lia]. cbn. split_and!; [done|lia|done].
  - destruct (Nat.leb_spec (length layer) 1) as [Hle|Hgt]; [cbn; split_and!; [done|lia|done]|].
    eapply post_or_bind; [apply join_layer_ok; [done|lia|done]|]. cbn beta. intros [nodes' next] d1 (Hl' & Hc & Hd1). cbn [fst snd] in *.
    apply IH; [done|lia|lia|done].
Qed.
End join.

(** *** The partitions of the nodes *)
Definition gathered (L : list nat -> Prop) (W : nat -> Prop) (p : FinalizedPartition) : Prop :=
  if terminal p then L (item_indices p) /\ child_ids p = [] else W (length (child_ids p)).

Lemma build_partitions_ok {E} L W nodes (Hj : joined L W (bare nodes)) fuel : forall i id parent, (i < length nodes)%nat -> (i < fuel)%nat ->
  exists t, planned_tree id parent (items_of (bare nodes) i) t /\ Forall (gathered L W) (t_parts t)
  /\ build_agglomerative_partitions (E := E) fuel nodes i id parent = Ok (t_parts t).
Proof.
  induction fuel as [|fuel IH]; intros i id parent Hi Hf; [lia|]. cbn [build_agglomerative_partitions].
  destruct (node_at_ok (E := E) nodes i Hi) as (node & -> & Hn). cbn [rbind]. cbv zeta.
  destruct (Hj i (take_representative node)) as (Hne & Hs & Hc & H1 & H2).
  { unfold bare. by rewrite list_lookup_fmap, Hn. }
  rewrite items_of_bare. unfold items_of. rewrite Hn. cbn [node_items child_node_indices take_representative from_option fmap option_fmap option_map default] in *.
  destruct (decide (child_node_indices node = [])) as [Hl|Hcs].
  - rewrite Hl. cbn. eexists (PNode _ []). split; [by constructor|]. split; [|done]. repeat constructor. cbn. by apply H1.
  - destruct (H2 Hcs) as [Hlen Hit].
    assert (exists ts, Forall2 (fun part t => planned_tree (child_id_of id part.1) (Some id) part.2 t)
        (map (fun c => (c.1, items_of (bare nodes) c.2)) (imap pair (child_node_indices node))) ts
      /\ Forall (gathered L W) (concat (map t_parts ts))
      /\ collect_map (fun child => build_agglomerative_partitions (E := E) fuel nodes child.2 (child_id_of id child.1) (Some id))
           (imap pair (child_node_indices node)) = Ok (map t_parts ts)) as (ts & Hts & Hg & ->).
    { assert (Forall (fun c : nat * nat => (c.2 < i)%nat) (imap pair (child_node_indices node))) as Hcl.
      { rewrite imap_pair_zip. apply Forall_forall. intros [k c] Hk%elem_of_zip_r. rewrite Forall_forall in Hc. by apply Hc. }
      clear -IH Hcl Hi Hf. induction Hcl as [|[k c] l Hcl _ (ts & Hts & Hg & Hm)]; [by exists []|]. cbn [snd] in Hcl.
      destruct (IH c (child_id_of id k) (Some id) ltac:(lia) ltac:(lia)) as (t & Ht & Hgt & Hb).
      exists (t :: ts). cbn [map collect_map fst snd concat]. rewrite Hb. cbn [rbind]. rewrite Hm. split_and!; [by constructor|by apply Forall_app|done]. }
    assert (map (fun c : nat * nat => (c.1, items_of (bare nodes) c.2)) (imap pair (child_node_indices node))
      = imap pair (map (items_of (bare nodes)) (child_node_indices node))) as Him.
    { etransitivity; [apply fmap_imap|]. symmetry. exact (imap_fmap pair (items_of (bare nodes)) _). }
    rewrite Him in Hts. cbn [rbind]. rewrite bool_decide_eq_false_2 by done.
    rewrite <-(length_map (items_of (bare nodes)) (child_node_indices node)).
    eexists (PNode _ ts). split; [apply (planned_inner id parent (node_items node) (node_stage node)
      (map (items_of (bare nodes)) (child_node_indices node)))|].
    + done.
    + done.
    + intros He%map_eq_nil. done.
    + exact Hit.
    + exact Hts.
    + cbn [t_parts]. split; [|done]. constructor; [|done]. unfold gathered. cbn. by rewrite !length_map, length_seq, length_map || by rewrite length_map, length_seq, length_map.
Qed.

(** The partitions below the one node of the last layer *)
Lemma last_layer_ok {E} L W n D nodes layer : layer_ok L W n D nodes layer -> length layer = 1%nat -> (0 < n)%nat ->
  exists ps, partitions_of (E := E) nodes layer = Ok ps /\ Forall (gathered L W) (sort_partitions ps)
  /\ validate_partition_hierarchy {| root_partition_id := "p0"; partitions := sort_partitions ps |} n = Ok tt.
Proof.
  intros Hl H1 Hn. destruct layer as [|root [|? ?]]; cbn in H1; [lia| |lia].
  assert (root < length nodes)%nat as Hroot by (pose proof (lo_range _ _ _ _ _ _ Hl) as Hr; by apply Forall_cons in Hr as [? _]).
  destruct (build_partitions_ok (E := E) _ _ nodes (lo_joined _ _ _ _ _ _ Hl) (S root) root "p0" None Hroot ltac:(lia)) as (t & Ht & Hg & Hb).
  exists (t_parts t). unfold partitions_of. cbn [head expect rbind]. split_and!; [done|by rewrite planned_perm|].
  apply planned_validates with t; [done| |apply planned_perm].
  assert (items_of (bare nodes) root = seq 0 n) as <-; [|done].
  pose proof (lo_items _ _ _ _ _ _ Hl) as Hi. unfold layer_items in Hi. cbn in Hi. rewrite app_nil_r in Hi.
  apply (StronglySorted_unique lt); [|apply seq_sorted_lt|exact Hi]. unfold items_of.
  rewrite <-bare_length in Hroot. apply lookup_lt_is_Some in Hroot as [node Hnode]. rewrite Hnode. by apply (lo_joined _ _ _ _ _ _ Hl root).
Qed.

(** Joining the items layer by layer *)
Lemma agglomerative_plan_ok {B P E} `{PartitionPlannerRunner P} (from : StreamingClusteringError -> E)
  (Pn : Prop) (Inv : B -> Prop) D builder embeddings bound b r d :
  builder_safe Pn (length embeddings) D Inv (fun x => x.1.1) (fun x => builder x.1.1 x.1.2 x.2) -> Inv b ->
  embeddings <> [] -> Forall (fun e => length e <= D)%nat embeddings ->
  derive_hierarchy_agglomeratively_with_builder from builder embeddings bound b = (r, d) ->
  (r = Panic -> Pn)
  /\ forall o, r = Ok o ->
       Inv (d_builder d)
       /\ validate_partition_hierarchy (hierarchy o) (length embeddings) = Ok tt
       /\ Forall (gathered (fun items => length items = 1%nat) (le 2)) (partitions (hierarchy o)).
Proof.
  intros Hs Hb Hne HD Hd. unfold derive_hierarchy_agglomeratively_with_builder in Hd.
  set (nodes := imap (fun index embedding => leaf_node Single [index] embedding) embeddings) in Hd.
  assert (length nodes = length embeddings) as Hlen by (subst nodes; apply length_imap).
  assert (forall i, (i < length embeddings)%nat -> exists e, nodes !! i = Some (leaf_node Single [i] e)) as Hat.
  { intros i Hi. subst nodes. rewrite list_lookup_imap. apply lookup_lt_is_Some in Hi as [e ->]. by exists e. }
  assert (0 < length embeddings)%nat as Hn by (destruct embeddings; [done|cbn; lia]).
  assert (layer_ok (fun items => length items = 1%nat) (le 2) (length embeddings) D nodes (seq 0 (length nodes))) as Hl.
  { split.
    - intros i node Hni. unfold bare in Hni. rewrite list_lookup_fmap in Hni.
      assert (i < length embeddings)%nat as Hi.
      { rewrite <-Hlen. apply lookup_lt_is_Some. destruct (nodes !! i); [done|done]. }
      destruct (Hat i Hi) as [e He]. rewrite He in Hni. injection Hni as <-. cbn. split_and!; try done; repeat constructor.
    - apply Forall_forall. intros x Hx%elem_of_seq. lia.
    - unfold layer_items. rewrite Hlen. replace (map (items_of (bare nodes)) (seq 0 (length embeddings)))
        with (map (fun i => [i]) (seq 0 (length embeddings))).
      + assert (forall l : list nat, concat (map (fun i => [i]) l) = l) as ->; [|done].
        intros l. induction l as [|x l IH]; [done|]. cbn. by rewrite IH.
      + apply map_ext_in. intros i Hi%list_elem_of_In%elem_of_seq. rewrite items_of_bare. unfold items_of.
        destruct (Hat i ltac:(lia)) as [e ->]. done.
    - apply Forall_lookup. intros i node Hni. subst nodes. rewrite list_lookup_imap in Hni.
      destruct (embeddings !! i) as [e|] eqn:Ee; [|done]. injection Hni as <-. apply (proj1 (Forall_lookup _ _) HD i e Ee). }
  pose proof (join_layers_ok from Pn Inv builder bound (length embeddings) D Hs (length nodes) nodes (seq 0 (length nodes)) (fresh b) Hl) as Hp.
  rewrite length_seq in Hp. specialize (Hp ltac:(lia) ltac:(lia) Hb).
  destruct embeddings as [|e0 es] eqn:Ee; [done|]. rewrite <-Ee in *. clear Ee. unfold ibind in Hd.
  destruct (join_layers _ _ _ _ _ _ _) as [[[nodes' layer]|err|] d1]; cbn in Hp; [|injection Hd as <- <-; by split|injection Hd as <- <-; by split].
  destruct Hp as (Hl' & H1 & Hd1). destruct (last_layer_ok (E := E) _ _ _ _ _ _ Hl' H1 Hn) as (ps & Hps & Hg & Hv).
  unfold iret in Hd. cbn [fst snd] in *. rewrite Hps in Hd. injection Hd as <- <-. split; [done|]. by intros o [= <-].
Qed.

(** Of a planner that may panic nothing is asked. *)
Lemma any_builder {B P E A} `{PartitionPlannerRunner P} n D data (builder : A -> B -> result E P * B) :
  builder_safe True n D (fun _ => True) data builder.
Proof. intros x b _ _. by destruct (builder x b) as [[p|e|] b']. Qed.

(** C8 Whatever clusters the planners answer, a derivation ends: with an error of a
    planner or of the configuration, with a panic only if a planner panics, or with a
    hierarchy that passes the validation. Divided from the root, the terminal partitions
    are within the bound, the others beyond it and divided in two at least, and the
    counters of the telemetry are the numbers of the partitions; joined from the items,
    every partition but the single items joins two at least. *)
Theorem derived_plan_valid {B P E} `{PartitionPlannerRunner P} (from : StreamingClusteringError -> E) D
  (divider : list (list f32) -> B -> result E P * B) (joiner : list (list f32) -> nat -> nat -> B -> result E P * B)
  embeddings bound cap b :
  embeddings <> [] -> Forall (fun e => length e <= D)%nat embeddings ->
  (let '(r, d) := derive_hierarchy_with_builder_and_fallback_group_cap from divider embeddings bound cap b in
   (builder_safe False (length embeddings) D (fun _ => True) (fun es => es) divider -> r <> Panic)
   /\ forall o, r = Ok o ->
        validate_partition_hierarchy (hierarchy o) (length embeddings) = Ok tt
        /\ Forall (fits bound) (partitions (hierarchy o))
        /\ exists f, (f <= inners (partitions (hierarchy o)))%nat
             /\ d_telemetry d = tallied (partitions (hierarchy o)) f telemetry_default)
  /\ (let '(r, d) := derive_hierarchy_agglomeratively_with_builder from joiner embeddings bound b in
   (builder_safe False (length embeddings) D (fun _ => True) (fun x => x.1.1) (fun x => joiner x.1.1 x.1.2 x.2) -> r <> Panic)
   /\ forall o, r = Ok o ->
        validate_partition_hierarchy (hierarchy o) (length embeddings) = Ok tt
        /\ Forall (gathered (fun items => length items = 1%nat) (le 2)) (partitions (hierarchy o))).
Proof.
  intros Hne HD. split.
  - destruct (derive_hierarchy_with_builder_and_fallback_group_cap _ _ _ _ _ _) as [r d] eqn:Hd. split.
    + intros Hs Hr. by destruct (divisive_plan_ok _ _ _ D _ _ _ _ _ _ _ Hs I Hne HD Hd) as [Hp _]; apply Hp.
    + intros o Ho. by destruct (divisive_plan_ok _ _ _ D _ _ _ _ _ _ _ (any_builder _ _ _ _) I Hne HD Hd) as [_ Hv]; apply Hv.
  - destruct (derive_hierarchy_agglomeratively_with_builder _ _ _ _ _) as [r d] eqn:Hd. split.
    + intros Hs Hr. by destruct (agglomerative_plan_ok _ _ _ D _ _ _ _ _ _ Hs I Hne HD Hd) as [Hp _]; apply Hp.
    + intros o Ho. by destruct (agglomerative_plan_ok _ _ _ D _ _ _ _ _ _ (any_builder _ _ _ _) I Hne HD Hd) as [_ Hv]; apply Hv.
Qed.
