(* ===== verification/Policies.v ===== *)
(** * Planning policies

    crates/lexongraph-streaming-indexer/src/lib.rs: the policies that come with the
    indexer. The built-in ones plan with DCBC, directional PCA or spherical k-means,
    by phases of the size of a partition, or as the adaptive selector says; the
    published profiles are a table of settings, planned by directional PCA or by one
    run of spherical k-means whose clusters are packed greedily; the policy of a
    factory plans with the trainers it makes. *)
From S2P Require Import Prelude Ordering Hash Cbor Ieee Ebcp Clustering Store IndexTypes IndexHierarchy IndexLayer BranchEncoding.
From Stdlib Require Import SpecFloat.
From S2P Require Import Pca DpcaPlanner DpcaPlan LinearAlgebra Dcbc SphericalKmeans DirectionalPca Adaptive Indexer Clustering Planning.

(** ** Published profiles *)
Inductive PublishedHierarchyMetric := Euclidean.
Record PublishedSphericalKmeansProfileSettings := {
  ps_cluster_count : N; ps_random_seed : option N; ps_params : SphericalKmeansParams;
  hierarchy_metric : PublishedHierarchyMetric
}.
Record PublishedDirectionalPcaProfileSettings := {
  pd_cluster_count : N; pd_random_seed : option N; pd_params : DirectionalPcaParams
}.
Inductive PublishedPlanningStrategy :=
| SphericalKmeansGreedyPack (settings : PublishedSphericalKmeansProfileSettings)
| DirectionalPcaDivisive (settings : PublishedDirectionalPcaProfileSettings).

Inductive PublishedBranchEncodingPolicy :=
| PublishedOrdinary
| PublishedPcaRotF32Le
| PublishedPcaRotDeltaF32Le
| PublishedPcaRotDeltaUniform (root_bits interior_bits lowest_routing_bits : N)
| PublishedPcaRotDeltaVariable (root_bits interior_bits lowest_routing_bits : N)
| PublishedAmbientDeltaUniform (root_bits interior_bits lowest_routing_bits : N).

Inductive BuiltInPlanningDirection := BuiltInDivisive | BuiltInAgglomerative.
#[export] Instance BuiltInPlanningDirection_eq_dec : EqDecision BuiltInPlanningDirection.
Proof. solve_decision. Defined.

Record PublishedIndexingProfile := {
  version : PublishedProfileVersion; planning_algorithm_id : string;
  planning_direction : option BuiltInPlanningDirection; packing_strategy_id : option string;
  hierarchy_strategy_id : string; summary_policy_id : string;
  planning_strategy : PublishedPlanningStrategy; published_branch_encoding_policy : PublishedBranchEncodingPolicy
}.

Definition branch_encoding_policy_for_profile (profile : PublishedIndexingProfile) : BranchEncodingPolicy :=
  match published_branch_encoding_policy profile with
  | PublishedOrdinary => Ordinary
  | PublishedPcaRotF32Le => PcaRotF32Le
  | PublishedPcaRotDeltaF32Le => PcaRotDeltaF32Le
  | PublishedPcaRotDeltaUniform r i l => PcaRotDeltaUniform r i l
  | PublishedPcaRotDeltaVariable r i l => PcaRotDeltaVariable r i l
  | PublishedAmbientDeltaUniform r i l => AmbientDeltaUniform r i l
  end.

Definition directional_pca_published_profile (version : PublishedProfileVersion) (cluster_count : N)
  (params : DirectionalPcaParams) (branch_encoding_policy : PublishedBranchEncodingPolicy) : PublishedIndexingProfile :=
  {| version := version; planning_algorithm_id := "directional-pca"; planning_direction := Some BuiltInDivisive;
     packing_strategy_id := None; hierarchy_strategy_id := "built-in-divisive"; summary_policy_id := "exact-centroid";
     planning_strategy := DirectionalPcaDivisive
       {| pd_cluster_count := cluster_count; pd_random_seed := Some 7%N; pd_params := params |};
     published_branch_encoding_policy := branch_encoding_policy |}.

Definition directional_pca_published_profile_params (retained_axis_policy : DirectionalPcaRetainedAxisPolicy)
  (allocation_policy : DirectionalPcaAllocationPolicy) (binning_policy : DirectionalPcaBinningPolicy)
  (cluster_cardinality_mode : DirectionalPcaClusterCardinalityMode) (min_effective_rank : N)
  (min_cumulative_variance : f32) : DirectionalPcaParams :=
  {| retained_axis_policy := retained_axis_policy; allocation_policy := allocation_policy;
     binning_policy := binning_policy; cluster_cardinality_mode := cluster_cardinality_mode;
     variance_exponent := f32_one; temperature := f32_one; min_input_count := 2;
     min_effective_rank := min_effective_rank; min_cumulative_variance := min_cumulative_variance |}.

(** [0.5_f32], [1.0e-4_f32] *)
Definition f32_half : f32 := 1056964608.
Definition f32_tolerance : f32 := 953267991.

(** [published_indexing_profile]; the constants [PUBLISHED_PROFILE_V..] are its patterns. *)
Definition published_indexing_profile (v : PublishedProfileVersion)
  : result StreamingIndexerError PublishedIndexingProfile :=
  let directional cluster_count retained allocation binning mode rank variance encoding :=
    Ok (E := StreamingIndexerError) (directional_pca_published_profile v cluster_count
          (directional_pca_published_profile_params retained allocation binning mode rank variance) encoding) in
  let A := AdaptiveAllEligible in
  let log_quantile cluster_count :=
    directional cluster_count A EigenvalueLogBits Quantile UnderfullSuccess 1%N 0%N in
  match major v, minor v, patch v with
  | 0, 1, 0 => Ok
      {| version := v; planning_algorithm_id := "spherical-kmeans"; planning_direction := None;
         packing_strategy_id := Some "cluster-order-balanced-range-packer-v1";
         hierarchy_strategy_id := "greedy-pack"; summary_policy_id := "exact-centroid";
         published_branch_encoding_policy := PublishedOrdinary;
         planning_strategy := SphericalKmeansGreedyPack
           {| ps_cluster_count := 157; ps_random_seed := Some 11;
              ps_params := {| initialization_policy := SeededDeterministicFarthestPoint;
                              max_iteration_count := 32; convergence_tolerance := f32_tolerance |};
              hierarchy_metric := Euclidean |} |}
  | 0, 2, 0 => directional 2 (FixedCount 1) CentroidWeightedBins Quantile Exact 1 0 PublishedOrdinary
  | 0, 3, 0 => directional 64 A EigenvalueLogBits DensityValley UnderfullSuccess 1 0 PublishedOrdinary
  | 0, 3, 1 => directional 128 A EigenvalueLogBits DensityValley UnderfullSuccess 1 0 PublishedOrdinary
  | 0, 3, 2 => directional 32 A EigenvalueLogBits DensityValley UnderfullSuccess 1 0 PublishedOrdinary
  | 0, 3, 3 => log_quantile 64 PublishedOrdinary
  | 0, 3, 4 => directional 64 (FixedCount 1) CentroidWeightedBins Quantile UnderfullSuccess 1 0 PublishedOrdinary
  | 0, 3, 5 => directional 64 A CentroidWeightedBins DensityValley UnderfullSuccess 1 0 PublishedOrdinary
  | 0, 3, 6 => directional 64 (FixedCount 2) EigenvalueLogBits DensityValley UnderfullSuccess 1 0 PublishedOrdinary
  | 0, 3, 7 => directional 64 (FixedCount 3) EigenvalueLogBits DensityValley UnderfullSuccess 1 0 PublishedOrdinary
  | 0, 3, 8 => directional 64 A EigenvalueLogBits DensityValley UnderfullSuccess 1 f32_half PublishedOrdinary
  | 0, 3, 9 => directional 64 A EigenvalueLogBits DensityValley UnderfullSuccess 2 0 PublishedOrdinary
  | 0, 3, 10 => directional 64 A EigenvalueLogBits DensityValley Exact 1 0 PublishedOrdinary
  | 0, 4, 0 => log_quantile 64 PublishedOrdinary
  | 0, 4, 1 => log_quantile 128 PublishedOrdinary
  | 0, 4, 2 => log_quantile 32 PublishedOrdinary
  | 0, 4, 3 => directional 64 (FixedCount 1) CentroidWeightedBins Quantile UnderfullSuccess 1 0 PublishedOrdinary
  | 0, 4, 4 => directional 64 A CentroidWeightedBins Quantile UnderfullSuccess 1 0 PublishedOrdinary
  | 0, 4, 5 => directional 64 (FixedCount 2) EigenvalueLogBits Quantile UnderfullSuccess 1 0 PublishedOrdinary
  | 0, 4, 6 => directional 64 (FixedCount 3) EigenvalueLogBits Quantile UnderfullSuccess 1 0 PublishedOrdinary
  | 0, 4, 7 => directional 64 A EigenvalueLogBits Quantile UnderfullSuccess 1 f32_half PublishedOrdinary
  | 0, 4, 8 => directional 64 A EigenvalueLogBits Quantile UnderfullSuccess 2 0 PublishedOrdinary
  | 0, 4, 9 => directional 64 A EigenvalueLogBits Quantile Exact 1 0 PublishedOrdinary
  | 0, 5, 0 => log_quantile 64 PublishedOrdinary
  | 0, 5, 1 => log_quantile 64 PublishedPcaRotF32Le
  | 0, 5, 2 => log_quantile 64 PublishedPcaRotDeltaF32Le
  | 0, 5, 3 => log_quantile 64 (PublishedPcaRotDeltaUniform 12 8 6)
  | 0, 5, 4 => log_quantile 64 (PublishedPcaRotDeltaVariable 12 8 6)
  | 0, 5, 5 => log_quantile 64 (PublishedAmbientDeltaUniform 12 8 6)
  | 0, 6, 0 => log_quantile 64 PublishedOrdinary
  | 0, 6, 1 => log_quantile 64 PublishedPcaRotF32Le
  | 0, 6, 2 => log_quantile 64 PublishedPcaRotDeltaF32Le
  | 0, 6, 3 => log_quantile 64 (PublishedPcaRotDeltaUniform 12 8 6)
  | 0, 6, 4 => log_quantile 64 (PublishedPcaRotDeltaVariable 12 8 6)
  | 0, 6, 5 => log_quantile 64 (PublishedAmbientDeltaUniform 12 8 6)
  | 0, 7, 0 => log_quantile 64 (PublishedAmbientDeltaUniform 12 8 6)
  | 0, 8, 0 => log_quantile 64 (PublishedAmbientDeltaUniform 12 8 6)
  | _, _, _ => Err (UnsupportedPublishedProfileVersion v)
  end%N.

(** *** Runs with a published profile *)
Definition map_clustering_configuration_error (message : string) : StreamingIndexerError := ClusteringFailure message.
Definition map_clustering_error (error : StreamingClusteringError) : StreamingIndexerError :=
  ClusteringFailure (StreamingClusteringError_to_string error).

Definition published_branch_policy_requires_f32le (policy : PublishedBranchEncodingPolicy) : bool :=
  match policy with PublishedOrdinary => false | _ => true end.

Record PublishedProfilePlanningPolicy := { profile : PublishedIndexingProfile }.

Section published_runs.
Context `{CborCodec} `{Sha256}.

Definition validate_published_profile_configuration (profile : PublishedIndexingProfile) (embedding_spec : EmbeddingSpec)
  (block_size_target : N) : indexed unit :=
  let v := version profile in
  guard? negb (published_branch_policy_requires_f32le (published_branch_encoding_policy profile)
               && negb (encoding embedding_spec =? "f32le")%string) else
    map_clustering_configuration_error ("published profile " +:+ PublishedProfileVersion_to_string v
      +:+ " requires embedding_spec.encoding f32le so branch EBCP logical and leaf encodings remain compatible")%stdpp in
  if negb ((major v =? 0)%N && ((4 <=? minor v)%N && (minor v <=? 8)%N)) then Ok tt
  else match planning_strategy profile with
  | DirectionalPcaDivisive settings =>
      let? bound := map_err (fun message => from_clustering_error (invalid_config message))
        (materializability_bound embedding_spec block_size_target) in
      guard? negb (bound <? pd_cluster_count settings)%N else
        map_clustering_configuration_error ("published profile " +:+ PublishedProfileVersion_to_string v
          +:+ " requires cluster_count " +:+ pretty (pd_cluster_count settings)
          +:+ " but block-size/materializability bound is " +:+ pretty bound
          +:+ " for the supplied embedding spec and block size target " +:+ pretty block_size_target)%stdpp in
      Ok tt
  | _ => Ok tt
  end.

Definition new_with_validated_published_profile (profile : PublishedIndexingProfile) (embedding_spec : EmbeddingSpec)
  (block_size_target : N) : indexed (StreamingIndexingRun PublishedProfilePlanningPolicy) :=
  let? _ := validate_published_profile_configuration profile embedding_spec block_size_target in
  Ok (new_with_branch_encoding {| profile := profile |} (branch_encoding_policy_for_profile profile)
        embedding_spec block_size_target).

Definition with_published_profile (profile_version : PublishedProfileVersion) (embedding_spec : EmbeddingSpec)
  (block_size_target : N) : indexed (StreamingIndexingRun PublishedProfilePlanningPolicy) :=
  let? profile := published_indexing_profile profile_version in
  new_with_validated_published_profile profile embedding_spec block_size_target.

Definition with_resolved_published_profile (profile : PublishedIndexingProfile) (embedding_spec : EmbeddingSpec)
  (block_size_target : N) : indexed (StreamingIndexingRun PublishedProfilePlanningPolicy) :=
  let? _ := published_indexing_profile (version profile) in
  new_with_validated_published_profile profile embedding_spec block_size_target.
End published_runs.

(** ** Built-in planning *)
Record DcbcBuiltInPlanningSettings := {
  bd_direction : BuiltInPlanningDirection; bd_cluster_count : N;
  bd_balance_constraints : option BalanceConstraints; bd_random_seed : option N
}.
Record DirectionalPcaBuiltInPlanningSettings := {
  bp_direction : BuiltInPlanningDirection; bp_cluster_count : N; bp_random_seed : option N;
  bp_params : DirectionalPcaParams
}.
Record SphericalKmeansBuiltInPlanningSettings := {
  bs_direction : BuiltInPlanningDirection; bs_cluster_count : N; bs_random_seed : option N;
  bs_params : SphericalKmeansParams
}.
Inductive BuiltInPlanningPhase :=
| DcbcPhase (settings : DcbcBuiltInPlanningSettings)
| DirectionalPcaPhase (settings : DirectionalPcaBuiltInPlanningSettings)
| SphericalKmeansPhase (settings : SphericalKmeansBuiltInPlanningSettings).

Definition phase_direction (phase : BuiltInPlanningPhase) : BuiltInPlanningDirection :=
  match phase with
  | DcbcPhase settings => bd_direction settings
  | DirectionalPcaPhase settings => bp_direction settings
  | SphericalKmeansPhase settings => bs_direction settings
  end.

Record HybridBuiltInPlanningSettings := {
  coarse : BuiltInPlanningPhase; fine : BuiltInPlanningPhase; fine_partition_max_items : nat
}.
Inductive BuiltInPlanning :=
| BuiltInDcbc (settings : DcbcBuiltInPlanningSettings)
| BuiltInDirectionalPca (settings : DirectionalPcaBuiltInPlanningSettings)
| BuiltInSphericalKmeans (settings : SphericalKmeansBuiltInPlanningSettings)
| BuiltInHybrid (settings : HybridBuiltInPlanningSettings)
| BuiltInAdaptive (settings : AdaptivePlanningSettings).

Record BuiltInPlanningPolicy := {
  planning : BuiltInPlanning; last_adaptive_decision_records : list AdaptiveSwitchDecisionRecord
}.
Definition BuiltInPlanningPolicy_new (planning : BuiltInPlanning) : BuiltInPlanningPolicy :=
  {| planning := planning; last_adaptive_decision_records := [] |}.

(** [with_builtin_planning], [with_canonical_policy], [with_summary_policy] *)
Definition with_builtin_planning (planning : BuiltInPlanning) (embedding_spec : EmbeddingSpec) (block_size_target : N)
  : StreamingIndexingRun BuiltInPlanningPolicy :=
  new_run (BuiltInPlanningPolicy_new planning) embedding_spec block_size_target.

(** *** Trainers of every kind *)
Inductive BuiltInStreamingClusterTrainer :=
| DcbcTrainer (trainer : DcbcStreamingTrainer)
| DirectionalPcaTrainer (trainer : DirectionalPcaStreamingTrainer)
| SphericalKmeansTrainer (trainer : SphericalKmeansStreamingTrainer).
Inductive BuiltInStreamingClusterClassifier :=
| DcbcClassifier (classifier : DcbcStreamingClassifier)
| DirectionalPcaClassifier (classifier : DirectionalPcaStreamingClassifier)
| SphericalKmeansClassifier (classifier : SphericalKmeansStreamingClassifier).

#[export] Instance built_in_classifier : StreamingClusterClassifier BuiltInStreamingClusterClassifier := {|
  classifier_config c := match c with
    | DcbcClassifier c => classifier_config c
    | DirectionalPcaClassifier c => classifier_config c
    | SphericalKmeansClassifier c => classifier_config c
    end;
  assign c embedding := match c with
    | DcbcClassifier c => assign c embedding
    | DirectionalPcaClassifier c => assign c embedding
    | SphericalKmeansClassifier c => assign c embedding
    end
|}.

(** A call on the trainer inside *)
Definition within_trainer {T A} (wrap : T -> BuiltInStreamingClusterTrainer) (r : outcome A * T)
  : outcome A * BuiltInStreamingClusterTrainer := (r.1, wrap r.2).

Section built_in.
Context `{ShowFloat} `{Sha256} `{FloatMath} `{SymmetricEigen} `{Wgpu} (request : ExecutionBackendRequest).
#[local] Hint Extern 0 (StreamingClusterTrainer SphericalKmeansStreamingTrainer _) => exact (spherical_trainer request)
  : typeclass_instances.

Definition built_in_trainer : StreamingClusterTrainer BuiltInStreamingClusterTrainer BuiltInStreamingClusterClassifier := {|
  trainer_config t := match t with
    | DcbcTrainer t => trainer_config t
    | DirectionalPcaTrainer t => trainer_config t
    | SphericalKmeansTrainer t => trainer_config t
    end;
  trainer_state t := match t with
    | DcbcTrainer t => trainer_state t
    | DirectionalPcaTrainer t => trainer_state t
    | SphericalKmeansTrainer t => trainer_state t
    end;
  ingest_batch embeddings t := match t with
    | DcbcTrainer t => within_trainer DcbcTrainer (ingest_batch embeddings t)
    | DirectionalPcaTrainer t => within_trainer DirectionalPcaTrainer (ingest_batch embeddings t)
    | SphericalKmeansTrainer t => within_trainer SphericalKmeansTrainer (ingest_batch embeddings t)
    end;
  finish_pass t := match t with
    | DcbcTrainer t => within_trainer DcbcTrainer (finish_pass t)
    | DirectionalPcaTrainer t => within_trainer DirectionalPcaTrainer (finish_pass t)
    | SphericalKmeansTrainer t => within_trainer SphericalKmeansTrainer (finish_pass t)
    end;
  complete_training t := match t with
    | DcbcTrainer t => within_trainer DcbcTrainer (complete_training t)
    | DirectionalPcaTrainer t => within_trainer DirectionalPcaTrainer (complete_training t)
    | SphericalKmeansTrainer t => within_trainer SphericalKmeansTrainer (complete_training t)
    end;
  into_classifier t := match t with
    | DcbcTrainer t => rmap DcbcClassifier (into_classifier t)
    | DirectionalPcaTrainer t => rmap DirectionalPcaClassifier (into_classifier t)
    | SphericalKmeansTrainer t => rmap SphericalKmeansClassifier (into_classifier t)
    end
|}.
End built_in.

(** *** Cluster counts *)
Definition effective_cluster_count (requested_cluster_count estimated_child_count materializability_bound : N)
  : result string N :=
  if (estimated_child_count <=? 1)%N then Ok 1%N
  else
    let bound := N.max materializability_bound 2 in
    let? requested := ok_or (usize_try_from (N.max requested_cluster_count 2))
      "requested cluster count does not fit in usize" in
    let max_groups := (estimated_child_count / 2)%N in
    let effective := N.max (N.min (N.min requested bound) (N.max max_groups 1)) 2 in
    guard? (effective <? 2 ^ 32)%N else "effective cluster count exceeds u32::MAX" in Ok effective.

(** [1u32 << (u32::BITS - 1 - effective.leading_zeros())] *)
Definition effective_directional_pca_cluster_count (requested_cluster_count estimated_child_count materializability_bound : N)
  (allocation_policy : DirectionalPcaAllocationPolicy) : result string N :=
  let? effective := effective_cluster_count requested_cluster_count estimated_child_count materializability_bound in
  if negb (log_bits allocation_policy) || (effective <=? 1)%N then Ok effective
  else Ok (N.max (N.shiftl 1 (N.log2 effective)) 2).

(** [partition_embeddings.first().map_or(0, Vec::len)] *)
Definition first_len (embeddings : list (list f32)) : N := len (default [] (head embeddings)).

(** *** Factories

    [StreamingClusteringFactory]; an error is kept as its text. *)
Class StreamingClusteringFactory (F T C : Type) `{StreamingClusterTrainer T C} :=
  create_trainer : F -> N -> N -> N -> EmbeddingSpec -> result string T.

Record DcbcStreamingClusteringFactory := { factory_cluster_count : N }.
Definition dcbc_create_trainer `{CborCodec} `{Sha256} (self : DcbcStreamingClusteringFactory)
  (dimensions estimated_child_count block_size_target : N) (embedding_spec : EmbeddingSpec)
  : outcome DcbcStreamingTrainer :=
  let? materializability_bound := map_err invalid_config (materializability_bound embedding_spec block_size_target) in
  let? cluster_count := map_err invalid_config
    (effective_cluster_count (factory_cluster_count self) estimated_child_count materializability_bound) in
  Dcbc.Trainer.new {| cluster_count := cluster_count; dimensions := dimensions;
                      balance_constraints := None; random_seed := None |}.
#[export] Instance dcbc_factory `{CborCodec} `{Sha256}
  : StreamingClusteringFactory DcbcStreamingClusteringFactory DcbcStreamingTrainer DcbcStreamingClassifier :=
  fun self dimensions count target spec =>
    map_err StreamingClusteringError_to_string (dcbc_create_trainer self dimensions count target spec).

(** A builder that keeps no state *)
Definition stateless {A E P} (f : A -> result E P) : A -> unit -> result E P * unit := fun x u => (f x, u).

(** [derive_hierarchy_from_factory] *)
Definition derive_hierarchy_from_factory {F T C} `{StreamingClusteringFactory F T C} `{!StreamingClusterClassifier C}
  (factory : F) (embeddings : list (list f32)) (embedding_spec : EmbeddingSpec) (bound : nat) (block_size_target : N)
  : result StreamingClusteringError PlanningPassOutcome * list HierarchyPlanningStatusEvent :=
  let '(r, d) := derive_hierarchy_with_builder (fun e => e)
    (stateless (fun partition_embeddings =>
       let? trainer := map_err invalid_config
         (create_trainer factory (first_len partition_embeddings) (len partition_embeddings) block_size_target embedding_spec) in
       Ok {| pp_stage := Custom; pp_trainer := trainer |})) embeddings bound tt in
  (r, d_events d).

(** *** Planning with the built-in trainers *)
Section derive_built_in.
Context `{ShowFloat} `{Sha256} `{FloatMath} `{SymmetricEigen} `{Wgpu} (request : ExecutionBackendRequest).
#[local] Existing Instance built_in_trainer.
#[local] Hint Extern 0 (StreamingClusterTrainer BuiltInStreamingClusterTrainer _) => exact (built_in_trainer request)
  : typeclass_instances.
#[local] Instance planner : PartitionPlannerRunner (PartitionPlanner BuiltInStreamingClusterTrainer) :=
  partition_planner (H := built_in_trainer request).
Notation planner_t := (PartitionPlanner BuiltInStreamingClusterTrainer).
Notation events := (list HierarchyPlanningStatusEvent).

Definition create_built_in_trainer (phase : BuiltInPlanningPhase) (partition_len dimensions materializability_bound : N)
  : indexed BuiltInStreamingClusterTrainer :=
  match phase with
  | DcbcPhase settings =>
      let? cluster_count := map_err map_clustering_configuration_error
        (effective_cluster_count (bd_cluster_count settings) partition_len materializability_bound) in
      rmap DcbcTrainer (map_err map_clustering_error (Dcbc.Trainer.new
        {| cluster_count := cluster_count; dimensions := dimensions;
           balance_constraints := bd_balance_constraints settings; random_seed := bd_random_seed settings |}))
  | DirectionalPcaPhase settings =>
      let? cluster_count := map_err map_clustering_configuration_error
        (effective_directional_pca_cluster_count (bp_cluster_count settings) partition_len materializability_bound
           (allocation_policy (bp_params settings))) in
      rmap DirectionalPcaTrainer (map_err map_clustering_error (DirectionalPca.Trainer.new
        {| cluster_count := cluster_count; dimensions := dimensions;
           balance_constraints := None; random_seed := bp_random_seed settings |} (bp_params settings)))
  | SphericalKmeansPhase settings =>
      let? cluster_count := map_err map_clustering_configuration_error
        (effective_cluster_count (bs_cluster_count settings) partition_len materializability_bound) in
      rmap SphericalKmeansTrainer (map_err map_clustering_error (SphericalKmeans.Trainer.new
        {| cluster_count := cluster_count; dimensions := dimensions;
           balance_constraints := None; random_seed := bs_random_seed settings |} (bs_params settings)))
  end.

(** The planner of a phase for a partition or a layer *)
Definition phase_planner (bound : nat) (stage : PlanningStage) (phase : BuiltInPlanningPhase)
  (embeddings : list (list f32)) : indexed planner_t :=
  let? trainer := create_built_in_trainer phase (len embeddings) (first_len embeddings) (N.of_nat bound) in
  Ok {| pp_stage := stage; pp_trainer := trainer |}.

(** [derive_hierarchy_for_single_built_in_phase_with_fallback_group_cap] *)
Definition derive_hierarchy_for_single_built_in_phase_with_fallback_group_cap (phase : BuiltInPlanningPhase)
  (embeddings : list (list f32)) (bound : nat) (fallback_group_cap : option nat) : indexed PlanningPassOutcome * events :=
  let '(r, d) := match phase_direction phase with
    | BuiltInDivisive =>
        derive_hierarchy_with_builder_and_fallback_group_cap from_clustering_error
          (stateless (phase_planner bound Single phase)) embeddings bound fallback_group_cap tt
    | BuiltInAgglomerative =>
        derive_hierarchy_agglomeratively_with_builder from_clustering_error
          (fun layer _ _ => stateless (phase_planner bound Single phase) layer) embeddings bound tt
    end in
  (r, d_events d).

Definition derive_hierarchy_for_single_built_in_phase (phase : BuiltInPlanningPhase) (embeddings : list (list f32))
  (bound : nat) : indexed PlanningPassOutcome * events :=
  derive_hierarchy_for_single_built_in_phase_with_fallback_group_cap phase embeddings bound None.

(** **** Hybrid *)
Definition select_hybrid_phase (settings : HybridBuiltInPlanningSettings) (represented_item_count : nat)
  : PlanningStage * BuiltInPlanningPhase :=
  if (represented_item_count <=? fine_partition_max_items settings)%nat then (Fine, fine settings)
  else (Coarse, coarse settings).

Definition hybrid_direction (settings : HybridBuiltInPlanningSettings) : option BuiltInPlanningDirection :=
  if bool_decide (phase_direction (coarse settings) = phase_direction (fine settings))
  then Some (phase_direction (coarse settings)) else None.

Definition hybrid_planner (settings : HybridBuiltInPlanningSettings) (bound : nat) (count : nat)
  (embeddings : list (list f32)) : indexed planner_t :=
  let '(stage, phase) := select_hybrid_phase settings count in phase_planner bound stage phase embeddings.

Definition derive_hierarchy_for_hybrid (settings : HybridBuiltInPlanningSettings) (embeddings : list (list f32))
  (bound : nat) : indexed PlanningPassOutcome * events :=
  if (fine_partition_max_items settings <? 2)%nat then
    (Err (InvalidHybridPlanningConfiguration "fine_partition_max_items must be at least 2"), [])
  else match hybrid_direction settings with
  | None => (Err (InvalidHybridPlanningConfiguration
      "hybrid built-in planning requires coarse and fine phases to use the same direction"), [])
  | Some direction =>
      let '(r, d) := match direction with
        | BuiltInDivisive =>
            derive_hierarchy_with_builder from_clustering_error
              (stateless (fun partition => hybrid_planner settings bound (length partition) partition)) embeddings bound tt
        | BuiltInAgglomerative =>
            derive_hierarchy_agglomeratively_with_builder from_clustering_error
              (fun layer _ max_unit_item_count => stateless (hybrid_planner settings bound max_unit_item_count) layer)
              embeddings bound tt
        end in
      (r, d_events d)
  end.

(** **** Adaptive *)
Definition map_adaptive_planning_error (error : AdaptivePlanningError) : StreamingIndexerError :=
  match error with
  | InvalidAdaptiveConfiguration message => InvalidAdaptivePlanningConfiguration message
  | DiagnosticComputation message =>
      ClusteringFailure ("adaptive planning diagnostics failed: " +:+ message)%stdpp
  end.

Definition built_in_direction (direction : AdaptivePlanningDirection) : BuiltInPlanningDirection :=
  match direction with Divisive => BuiltInDivisive | Agglomerative => BuiltInAgglomerative end.

Definition adaptive_phase (settings : AdaptivePlanningSettings) (algorithm : ActivePlanningAlgorithm) : BuiltInPlanningPhase :=
  let direction := built_in_direction (direction settings) in
  match algorithm with
  | DirectionalPcaAlgorithm => DirectionalPcaPhase
      {| bp_direction := direction; bp_cluster_count := pca_cluster_count (directional_pca settings);
         bp_random_seed := pca_random_seed (directional_pca settings); bp_params := pca_params (directional_pca settings) |}
  | DcbcAlgorithm => DcbcPhase
      {| bd_direction := direction; bd_cluster_count := dcbc_cluster_count (dcbc settings);
         bd_balance_constraints := dcbc_balance_constraints (dcbc settings); bd_random_seed := dcbc_random_seed (dcbc settings) |}
  end.

(** The loop of [select_adaptive_algorithm_for_boundary], of as many replays as the limit. *)
Fixpoint selection_loop (replays : nat) (limit : N) (embeddings : list (list f32)) (progress : AdaptiveSelectionProgress)
  : state_m StreamingIndexerError AdaptivePlanningSelector ActivePlanningAlgorithm :=
  match progress with
  | Selected algorithm => iret (Ok algorithm)
  | ReplayRequired _ =>
      match replays with
      | O => iret (Err (ClusteringFailure
          ("adaptive selection exceeded the maximum replay pass count of " +:+ pretty limit)%stdpp))
      | S replays' =>
          let! _ := ask map_adaptive_planning_error (ingest_selection_batch embeddings) in
          let! progress := ask map_adaptive_planning_error finish_selection_pass in
          selection_loop replays' limit embeddings progress
      end
  end.

Definition select_adaptive_algorithm_for_boundary (represented_item_count : nat) (embeddings : list (list f32))
  : state_m StreamingIndexerError AdaptivePlanningSelector ActivePlanningAlgorithm :=
  let limit := replay_pass_limit embeddings in
  let! progress := ask map_adaptive_planning_error
    (begin_selection_boundary (N.of_nat represented_item_count) (len embeddings) (first_len embeddings)) in
  selection_loop (N.to_nat limit) limit embeddings progress.

Definition adaptive_planner (settings : AdaptivePlanningSettings) (bound represented_item_count : nat)
  (embeddings : list (list f32)) : state_m StreamingIndexerError AdaptivePlanningSelector planner_t :=
  let! algorithm := select_adaptive_algorithm_for_boundary represented_item_count embeddings in
  iret (phase_planner bound Single (adaptive_phase settings algorithm) embeddings).

Definition derive_hierarchy_for_adaptive_built_in (settings : AdaptivePlanningSettings) (embeddings : list (list f32))
  (bound : nat) : indexed (PlanningPassOutcome * list AdaptiveSwitchDecisionRecord) * events :=
  match map_err map_adaptive_planning_error (AdaptivePlanningSelector_new settings) with
  | Err error => (Err error, [])
  | Panic => (Panic, [])
  | Ok selector =>
      let '(r, d) := match direction settings with
        | Divisive =>
            derive_hierarchy_with_builder from_clustering_error
              (fun partition => adaptive_planner settings bound (length partition) partition) embeddings bound selector
        | Agglomerative =>
            derive_hierarchy_agglomeratively_with_builder from_clustering_error
              (fun layer represented _ => adaptive_planner settings bound represented layer) embeddings bound selector
        end in
      (rmap (fun outcome => (outcome, decision_records (d_builder d))) r, d_events d)
  end.

(** [derive_hierarchy_from_built_in] *)
Definition derive_hierarchy_from_built_in (planning : BuiltInPlanning) (embeddings : list (list f32)) (bound : nat)
  : indexed (PlanningPassOutcome * list AdaptiveSwitchDecisionRecord) * events :=
  let single phase :=
    let '(r, e) := derive_hierarchy_for_single_built_in_phase phase embeddings bound in
    (rmap (fun outcome => (outcome, [])) r, e) in
  match planning with
  | BuiltInDcbc settings => single (DcbcPhase settings)
  | BuiltInDirectionalPca settings => single (DirectionalPcaPhase settings)
  | BuiltInSphericalKmeans settings => single (SphericalKmeansPhase settings)
  | BuiltInHybrid settings =>
      let '(r, e) := derive_hierarchy_for_hybrid settings embeddings bound in
      (rmap (fun outcome => (outcome, [])) r, e)
  | BuiltInAdaptive settings => derive_hierarchy_for_adaptive_built_in settings embeddings bound
  end.

(** *** Planning of a published profile *)
Definition is_v0_6 (v : PublishedProfileVersion) : bool := (major v =? 0)%N && (minor v =? 6)%N.

Definition published_profile_partition_bound (profile : PublishedIndexingProfile) (bound : nat) : indexed nat :=
  if negb (is_v0_6 (version profile)) then Ok bound
  else match planning_strategy profile with
  | DirectionalPcaDivisive settings =>
      let? cluster_count := ok_or (usize_try_from (pd_cluster_count settings))
        (map_clustering_configuration_error "published profile cluster_count exceeds usize") in
      Ok (Nat.min bound (N.to_nat cluster_count))
  | _ => Ok bound
  end.

Definition published_profile_fallback_group_cap (profile : PublishedIndexingProfile) (effective_partition_bound : nat)
  : option nat := if is_v0_6 (version profile) then Some effective_partition_bound else None.
End derive_built_in.

(** **** Packing clusters *)

(** [build_profile_terminal_groups]; [ordered_indices[ordered_index]] *)
Definition build_profile_terminal_groups (assignments : list N) (bound : nat) : result string (list (list nat)) :=
  let? groups := ordered_groups (assignments_to_groups assignments) in
  let ordered_indices := concat groups in
  match ordered_indices with
  | [] => Ok []
  | _ =>
      let? packed_ranges := balanced_groups (length ordered_indices) bound in
      collect_map (fun range =>
        rmap sort_indices (collect_map (fun ordered_index => expect (ordered_indices !! ordered_index)) range)) packed_ranges
  end.

Definition error_text_of {A} (r : outcome A) : result string A := map_err StreamingClusteringError_to_string r.

Definition profile_terminal_node (items : list nat) (embeddings : list (list f32)) : result string (list f32) :=
  let? weighted := collect_map (fun item_index =>
    let? embedding := ok_or (embeddings !! item_index)
      ("terminal partition references missing embedding index " +:+ pretty (N.of_nat item_index))%stdpp in
    Ok (embedding, 1%nat)) items in
  error_text_of (weighted_mean_f32_embeddings weighted).

(** [find_map] over the values, [unwrap_or_else] the lengths *)
Fixpoint compare_values (left right : list f32) : option comparison :=
  match left, right with
  | x :: xs, y :: ys =>
      match f32_total_cmp x y with Eq => compare_values xs ys | c => Some c end
  | _, _ => None
  end.
Definition compare_f32_embeddings_lexicographically (left right : list f32) : comparison :=
  default (Nat.compare (length left) (length right)) (compare_values left right).

Definition compare_nodes (left right : AgglomerativeHierarchyNode) : comparison :=
  then_with
    (compare_f32_embeddings_lexicographically
       (default [] (representative_embedding left)) (default [] (representative_embedding right)))
    (list_cmp Nat.compare (node_items left) (node_items right)).

Definition representative_distance (left right : list f32) (metric : PublishedHierarchyMetric) : result string f64 :=
  guard? (length left =? length right)%nat else
    ("representative embedding dimension " +:+ pretty (len right) +:+ " does not match expected "
      +:+ pretty (len left))%stdpp in
  match metric with
  | Euclidean =>
      Ok (fsqrt binary64 (sum_f64 (zip_with (fun left_value right_value =>
        let delta := fsub binary64 (f64_of_f32 left_value) (f64_of_f32 right_value) in
        fmul binary64 delta delta) left right)))
  end.

Definition f64_partial_cmp_or_equal (a b : f64) : comparison :=
  default Eq (SFcompare (decode binary64 a) (decode binary64 b)).

Section packing.
Variable nodes : list AgglomerativeHierarchyNode.

Definition missing_node_representative : string :=
  "published profile hierarchy node is missing its representative embedding".
Definition node_representative (i : nat) : result string (list f32) :=
  let? node := node_at nodes i in ok_or (representative_embedding node) missing_node_representative.

(** The nodes of a layer are in range, where [compare_profile_node_order] would panic. *)
Definition compare_profile_node_order (left_node_index right_node_index : nat) : comparison :=
  match nodes !! left_node_index, nodes !! right_node_index with
  | Some l, Some r => compare_nodes l r
  | _, _ => Eq
  end.

(** The slots still taken come first. *)
Definition compare_slots (left right : option nat) : comparison :=
  match left, right with
  | Some l, Some r => compare_profile_node_order l r
  | None, Some _ => Gt
  | Some _, None => Lt
  | None, None => Eq
  end.

(** [take_first_active_profile_node]: the node and the slots without it. *)
Fixpoint take_first_active_profile_node (remaining : list (option nat)) : option (nat * list (option nat)) :=
  match remaining with
  | [] => None
  | Some seed :: rest => Some (seed, None :: rest)
  | None :: rest =>
      match take_first_active_profile_node rest with
      | Some (seed, rest) => Some (seed, None :: rest)
      | None => None
      end
  end.

(** The loop body of [best_profile_group_extension] over one slot *)
Definition consider_candidate (seed_embedding : list f32) (metric : PublishedHierarchyMetric)
  (best : option (nat * f64 * nat)) (slot : nat * option nat) : result string (option (nat * f64 * nat)) :=
  match slot with
  | (_, None) => Ok best
  | (offset, Some candidate) =>
      let? candidate_embedding := node_representative candidate in
      let? distance := representative_distance seed_embedding candidate_embedding metric in
      match best with
      | Some (_, best_distance, best_candidate) =>
          match then_with (f64_partial_cmp_or_equal distance best_distance)
                  (compare_profile_node_order candidate best_candidate) with
          | Lt => Ok (Some (offset, distance, candidate))
          | _ => Ok best
          end
      | None => Ok (Some (offset, distance, candidate))
      end
  end.

Definition best_profile_group_extension (remaining : list (option nat)) (seed_embedding : list f32)
  (metric : PublishedHierarchyMetric) : result string (option (nat * nat)) :=
  let? best := try_fold (consider_candidate seed_embedding metric) None (imap pair remaining) in
  Ok (option_map (fun '(offset, _, candidate) => (offset, candidate)) best).

(** [while group.len() < target_size]: [missing] nodes are to be added. *)
Fixpoint extend_group (missing : nat) (seed_embedding : list f32) (metric : PublishedHierarchyMetric)
  (remaining : list (option nat)) (group : list nat) : result string (list (option nat) * list nat) :=
  match missing with
  | O => Ok (remaining, group)
  | S missing' =>
      let? best := best_profile_group_extension remaining seed_embedding metric in
      let? ' (next_offset, candidate) := ok_or best
        "published profile hierarchy packing could not satisfy its target group sizes" in
      extend_group missing' seed_embedding metric (<[next_offset := None]> remaining) (group ++ [candidate])
  end.

(** The loop over the sizes *)
Definition pack_group (metric : PublishedHierarchyMetric) (acc : list (option nat) * list (list nat)) (target_size : nat)
  : result string (list (option nat) * list (list nat)) :=
  let '(remaining, groups) := acc in
  let? ' (seed, remaining) := ok_or (take_first_active_profile_node remaining)
    "published profile hierarchy packing exhausted its remaining nodes prematurely" in
  let? seed_embedding := node_representative seed in
  let? ' (remaining, group) := extend_group (target_size - 1) seed_embedding metric remaining [seed] in
  Ok (remaining, groups ++ [group]).

Definition greedy_pack_node_groups (current_layer : list nat) (bound : nat) (metric : PublishedHierarchyMetric)
  : result string (list (list nat)) :=
  let? groups := balanced_groups (length current_layer) bound in
  let remaining := sort_by compare_slots (map Some current_layer) in
  let? ' (_, groups) := try_fold (pack_group metric) (remaining, []) (map length groups) in
  Ok groups.
End packing.

(** The loop body over the groups of a layer *)
Definition pack_node (acc : list AgglomerativeHierarchyNode * list nat) (group : list nat)
  : result string (list AgglomerativeHierarchyNode * list nat) :=
  let '(nodes, next_layer) := acc in
  let? members := collect_map (node_at nodes) group in
  let items := sort_indices (concat (map node_items members)) in
  let? weighted := collect_map (fun node =>
    let? embedding := ok_or (representative_embedding node) missing_node_representative in
    Ok (embedding, length (node_items node))) members in
  let? representative := error_text_of (weighted_mean_f32_embeddings weighted) in
  Ok (nodes ++ [{| child_node_indices := group; node_items := items;
                   representative_embedding := Some representative; node_stage := Coarse |}],
      next_layer ++ [length nodes]).

(** The loop over the layers, each shorter than the one below *)
Fixpoint pack_layers (fuel : nat) (bound : nat) (metric : PublishedHierarchyMetric)
  (nodes : list AgglomerativeHierarchyNode) (current_layer : list nat)
  : result string (list AgglomerativeHierarchyNode * list nat) :=
  if (length current_layer <=? 1)%nat then Ok (nodes, current_layer)
  else match fuel with
  | O => Panic
  | S fuel' =>
      let? groups := greedy_pack_node_groups nodes current_layer bound metric in
      let? ' (nodes, next_layer) := try_fold pack_node (nodes, []) groups in
      pack_layers fuel' bound metric nodes next_layer
  end.

(** The hierarchy of one terminal partition *)
Definition single_outcome (count : nat) : PlanningPassOutcome :=
  {| hierarchy := {| root_partition_id := "p0";
       partitions := [{| partition_id := "p0"; parent_id := None; child_ids := []; item_indices := seq 0 count;
                         terminal := true; planning_stage := Single |}] |};
     outcome_requested := Some 1; outcome_realized := Some 1;
     planning_quality_metric := 0; planning_balance_metric := 0;
     planning_quality_direction := LargerIsBetter; planning_balance_direction := SmallerIsBetter;
     stages_used := [] |}%N.

Section published.
Context `{ShowFloat} `{Sha256} `{FloatMath} `{SymmetricEigen} `{Wgpu} (request : ExecutionBackendRequest).
Notation events := (list HierarchyPlanningStatusEvent).

(** One pass of spherical k-means, the report and the assignments *)
Definition train_once (config : StreamingClusteringConfig) (params : SphericalKmeansParams) (embeddings : list (list f32))
  : outcome (PassReport * list N) :=
  let? trainer := SphericalKmeans.Trainer.new config params in
  let '(r, trainer) := SphericalKmeans.Trainer.ingest_batch embeddings trainer in
  let? _ := r in
  let '(r, trainer) := SphericalKmeans.Trainer.finish_pass request trainer in
  let? pass_report := r in
  let '(r, trainer) := SphericalKmeans.Trainer.complete_training trainer in
  let? _ := r in
  let? classifier := SphericalKmeans.Classifier.into_classifier trainer in
  let? assignments := SphericalKmeans.Classifier.assign_batch classifier embeddings in
  Ok (pass_report, assignments).

Definition announce (stage : PlanningStage) (count : nat) : events :=
  [legacy_event stage count StatusStarted; legacy_event stage count StatusInProgress].

(** The nodes of the terminal partitions *)
Definition terminal_nodes (embeddings : list (list f32)) (groups : list (list nat))
  : result string (list AgglomerativeHierarchyNode) :=
  collect_map (fun items => rmap (leaf_node Fine items) (profile_terminal_node items embeddings)) groups.

(** [derive_hierarchy_from_published_spherical_kmeans_profile] *)
Definition derive_hierarchy_from_published_spherical_kmeans_profile (settings : PublishedSphericalKmeansProfileSettings)
  (embeddings : list (list f32)) (bound : nat) : state_m StreamingIndexerError events PlanningPassOutcome :=
  let count := length embeddings in
  match embeddings with
  | [] => iret (Ok empty_outcome)
  | _ =>
      if (count <=? bound)%nat then iret (Ok (single_outcome count))
      else
        let! _ := (fun e => (Ok tt, e ++ announce Fine count)) in
        let! requested := iret (map_err map_clustering_configuration_error
          (effective_cluster_count (ps_cluster_count settings) (len embeddings) (N.of_nat bound))) in
        let! ' (pass_report, assignments) := iret (map_err map_clustering_error (train_once
          {| cluster_count := requested; dimensions := first_len embeddings;
             balance_constraints := None; random_seed := ps_random_seed settings |} (ps_params settings) embeddings)) in
        let! nodes := iret (map_err HierarchyValidation
          (let? terminal_groups := build_profile_terminal_groups assignments bound in
           terminal_nodes embeddings terminal_groups)) in
        let accumulator := observe_report Fine pass_report accumulator_default in
        let! _ := (fun e => (Ok tt, if (1 <? length nodes)%nat then e ++ announce Coarse (length nodes) else e)) in
        let! ' (nodes, layer) := iret (map_err HierarchyValidation
          (pack_layers (length nodes) bound (hierarchy_metric settings) nodes (seq 0 (length nodes)))) in
        let! partitions := iret (partitions_of nodes layer) in
        let outcome := planned partitions (Some requested) (realized_cluster_count pass_report) accumulator in
        iret (Ok
          {| hierarchy := hierarchy outcome; outcome_requested := outcome_requested outcome;
             outcome_realized := outcome_realized outcome;
             planning_quality_metric := planning_quality_metric outcome;
             planning_balance_metric := planning_balance_metric outcome;
             planning_quality_direction := planning_quality_direction outcome;
             planning_balance_direction := planning_balance_direction outcome;
             stages_used :=
               let used := insert_stage Fine (stages_used outcome) in
               if (1 <? length nodes)%nat then insert_stage Coarse used else used |})
  end.

(** [derive_hierarchy_from_published_profile] *)
Definition derive_hierarchy_from_published_profile (profile : PublishedIndexingProfile) (embeddings : list (list f32))
  (bound : nat) : indexed PlanningPassOutcome * events :=
  match published_profile_partition_bound profile bound with
  | Err error => (Err error, [])
  | Panic => (Panic, [])
  | Ok bound =>
      match planning_strategy profile with
      | SphericalKmeansGreedyPack settings =>
          derive_hierarchy_from_published_spherical_kmeans_profile settings embeddings bound []
      | DirectionalPcaDivisive settings =>
          derive_hierarchy_for_single_built_in_phase_with_fallback_group_cap request
            (DirectionalPcaPhase {| bp_direction := BuiltInDivisive; bp_cluster_count := pd_cluster_count settings;
                                    bp_random_seed := pd_random_seed settings; bp_params := pd_params settings |})
            embeddings bound (published_profile_fallback_group_cap profile bound)
      end
  end.

(** ** The policies *)
Definition declared_stages_built_in (p : BuiltInPlanningPolicy) : list PlanningStage :=
  match planning p with BuiltInHybrid _ => [Coarse; Fine] | _ => [Single] end.
Definition declared_stages_published (p : PublishedProfilePlanningPolicy) : list PlanningStage :=
  match planning_strategy (profile p) with
  | SphericalKmeansGreedyPack _ => [Coarse; Fine]
  | DirectionalPcaDivisive _ => [Single]
  end.

(** [finish_planning_pass_with_status_observer], with what the observer is told;
    [finish_planning_pass] tells nobody. *)
Definition built_in_finish_planning_pass (embeddings : list (list f32)) (bound : nat) (p : BuiltInPlanningPolicy)
  : indexed PlanningPassOutcome * BuiltInPlanningPolicy * events :=
  match derive_hierarchy_from_built_in request (planning p) embeddings bound with
  | (Ok (outcome, records), e) =>
      (Ok outcome, {| planning := planning p; last_adaptive_decision_records := records |}, e)
  | (Err error, e) => (Err error, p, e)
  | (Panic, e) => (Panic, p, e)
  end.

Definition built_in_policy : HierarchicalPlanningPolicy BuiltInPlanningPolicy :=
  fun embeddings _ bound _ p =>
    let '(r, p, _) := built_in_finish_planning_pass embeddings bound p in (map_err PlanIndexerError r, p).

Definition published_policy : HierarchicalPlanningPolicy PublishedProfilePlanningPolicy :=
  fun embeddings _ bound _ p =>
    (map_err PlanIndexerError (derive_hierarchy_from_published_profile (profile p) embeddings bound).1, p).

(** [FactoryHierarchicalPlanningPolicy] *)
Definition factory_policy {F T C} `{StreamingClusteringFactory F T C} `{!StreamingClusterClassifier C}
  : HierarchicalPlanningPolicy F :=
  fun embeddings spec bound target factory =>
    (map_err PlanClusteringError (derive_hierarchy_from_factory factory embeddings spec bound target).1, factory).
End published.
