(* ===== verification/PoliciesCorrect.v ===== *)
(** * Planning policies: the properties

    Every published profile has settings its trainer accepts. Whatever the trainers
    answer, a built-in or published policy gives a hierarchy the validation accepts;
    with DCBC and spherical k-means it never panics, because the planners the policies
    build replay their data within what the trainers promise ([RoundSafe]). *)
From S2P Require Import Prelude Ordering Hash Cbor Ieee Ebcp Clustering Store IndexTypes IndexHierarchy IndexHierarchyCorrect IndexLayer.
From S2P Require Import Indexer IndexerFacts Pca DpcaPlanner DpcaPlan LinearAlgebra LinearAlgebraCorrect Dcbc DcbcCorrect.
From S2P Require Import SphericalKmeans KmeansCorrect KmeansTrainer DirectionalPca Adaptive Clustering Planning PlanningCorrect Policies.

(** ** Cluster counts *)
Lemma effective_cluster_count_ok requested count bound : (requested < 2 ^ 32)%N ->
  exists k, effective_cluster_count requested count bound = Ok k
  /\ if (count <=? 1)%N then k = 1%N else (2 <= k <= N.max 2 requested)%N /\ (k <= N.max 2 bound)%N /\ (k <= N.max 2 (count / 2))%N.
Proof.
  intros Hr. unfold effective_cluster_count. destruct (N.leb_spec count 1) as [|Hgt]; [by eexists|].
  generalize (count / 2)%N. intros half. unfold usize_try_from. rewrite (proj2 (N.leb_le _ _)) by (unfold USIZE_MAX; lia).
  cbn [ok_or rbind]. rewrite (proj2 (N.ltb_lt _ _)) by lia. eexists. split; [done|]. lia.
Qed.

(** A power of two, for the allocation by eigenvalues. *)
Lemma highest_power_of_two n : (1 <= n)%N -> is_power_of_two (N.shiftl 1 (N.log2 n)) = true /\ (1 <= N.shiftl 1 (N.log2 n) <= n)%N.
Proof.
  intros Hn. rewrite N.shiftl_1_l. destruct (N.log2_spec n) as [Hlo Hhi]; [lia|].
  assert (1 <= 2 ^ N.log2 n)%N as H1 by (pose proof (N.pow_nonzero 2 (N.log2 n)); lia). split; [|lia].
  unfold is_power_of_two. rewrite (proj2 (N.eqb_neq _ _)) by lia. cbn [negb andb].
  apply N.eqb_eq. replace (2 ^ N.log2 n - 1)%N with (N.ones (N.log2 n)) by (rewrite N.ones_equiv; lia).
  rewrite N.land_ones. apply N.Div0.mod_same.
Qed.

Lemma effective_directional_ok requested count bound policy : (requested < 2 ^ 32)%N -> (2 <= count)%N ->
  exists k, effective_directional_pca_cluster_count requested count bound policy = Ok k
  /\ (2 <= k <= N.max 2 requested)%N /\ (k <= N.max 2 bound)%N /\ (log_bits policy = true -> is_power_of_two k = true).
Proof.
  intros Hr Hc. unfold effective_directional_pca_cluster_count.
  destruct (effective_cluster_count_ok requested count bound Hr) as (k & -> & Hk). destruct (N.leb_spec count 1); [lia|]. cbn [rbind].
  destruct Hk as (H1 & H2 & _). destruct (log_bits policy); cbn [negb orb]; [|by exists k].
  destruct (N.leb_spec k 1); [lia|]. destruct (highest_power_of_two k) as [Hp Hle]; [lia|].
  destruct (N.le_gt_cases 2 (N.shiftl 1 (N.log2 k))).
  - rewrite N.max_l by done. eexists. split; [done|]. split_and!; [lia|lia|lia|done].
  - rewrite N.max_r by lia. exists 2%N. split; [done|]. split_and!; [lia|lia|lia|done].
Qed.

(** ** The published profiles *)

(** What is asked of the settings of a profile. *)
Definition settings_ok (s : PublishedDirectionalPcaProfileSettings) : bool :=
  let p := pd_params s in
  (pd_cluster_count s <? 2 ^ 32)%N
  && match retained_axis_policy p with
     | FixedCount n => (1 <=? n)%N && (n <=? 3)%N && (min_effective_rank p <=? n)%N
     | AdaptiveAllEligible => (min_effective_rank p <=? 3)%N
     end
  && (f32_is_finite (variance_exponent p) && negb (f32_lt_zero (variance_exponent p)))
  && (f32_is_finite (temperature p) && negb (fleb binary32 (temperature p) 0))
  && negb (min_input_count p <? 2)%N && negb (min_effective_rank p =? 0)%N
  && (f32_is_finite (min_cumulative_variance p)
      && (fleb binary32 0 (min_cumulative_variance p) && fleb binary32 (min_cumulative_variance p) f32_one)).

Definition strategy_ok (s : PublishedPlanningStrategy) : bool :=
  match s with
  | DirectionalPcaDivisive s => settings_ok s
  | SphericalKmeansGreedyPack s =>
      (ps_cluster_count s <? 2 ^ 32)%N && match SphericalKmeans.validate_params (ps_params s) with Ok _ => true | _ => false end
  end.

Lemma published_table v profile : published_indexing_profile v = Ok profile ->
  version profile = v /\ strategy_ok (planning_strategy profile) = true.
Proof.
  unfold published_indexing_profile. cbv zeta beta. destruct v as [a b c]. cbn [major minor patch]. intros Hp.
  repeat match type of Hp with context [match ?x with _ => _ end] => is_var x; destruct x; try discriminate Hp end;
    injection Hp as <-; (split; [reflexivity|vm_compute; reflexivity]).
Qed.

Lemma directional_accepted `{ShowFloat} s count dims bound : settings_ok s = true -> (2 <= count)%N -> (3 <= dims)%N ->
  exists t, create_built_in_trainer (DirectionalPcaPhase {| bp_direction := BuiltInDivisive;
      bp_cluster_count := pd_cluster_count s; bp_random_seed := pd_random_seed s; bp_params := pd_params s |})
    count dims bound = Ok (DirectionalPcaTrainer t).
Proof.
  intros Hs Hc Hd. unfold settings_ok in Hs. rewrite !andb_true_iff in Hs.
  destruct Hs as ((((((Hk & Hret) & Hv) & Ht) & Hi) & Hr) & Hvar). apply N.ltb_lt in Hk.
  unfold create_built_in_trainer. cbn [bp_cluster_count bp_params bp_random_seed].
  destruct (effective_directional_ok (pd_cluster_count s) count bound (allocation_policy (pd_params s)) Hk Hc) as (k & -> & H1 & _ & Hpow).
  cbn [map_err rbind]. unfold DirectionalPca.Trainer.new.
  assert (validate_config {| cluster_count := k; dimensions := dims; balance_constraints := None; random_seed := pd_random_seed s |} = Ok tt) as ->.
  { unfold validate_config. cbn. rewrite (proj2 (N.eqb_neq _ _)) by lia. rewrite (proj2 (N.eqb_neq _ _)) by lia. done. }
  cbn [rbind]. unfold DpcaPlan.validate_params. cbn [dimensions cluster_count].
  assert (negb (log_bits (allocation_policy (pd_params s)) && negb (is_power_of_two k)) = true) as ->.
  { destruct (log_bits _); [|done]. by rewrite Hpow. }
  destruct Hv as [Hv1 Hv2], Ht as [Ht1 Ht2], Hvar as [Hvar1 [Hvar2 Hvar3]]. rewrite Hv1, Hv2, Ht1, Ht2, Hi, Hr, Hvar1, Hvar2, Hvar3. cbn [andb rbind].
  destruct (retained_axis_policy (pd_params s)) as [n|].
  - rewrite !andb_true_iff in Hret. destruct Hret as ((Hn1%N.leb_le & Hn2%N.leb_le) & Hn3%N.leb_le).
    rewrite (proj2 (N.eqb_neq _ _)) by lia. rewrite (proj2 (N.ltb_ge dims n)) by lia. rewrite (proj2 (N.ltb_ge n _)) by lia. cbn. by eexists.
  - apply N.leb_le in Hret. rewrite (proj2 (N.ltb_ge dims _)) by lia. cbn. by eexists.
Qed.

Lemma spherical_accepted `{ShowFloat} s count dims bound : strategy_ok (SphericalKmeansGreedyPack s) = true -> (2 <= count)%N -> (1 <= dims)%N ->
  exists t, create_built_in_trainer (SphericalKmeansPhase {| bs_direction := BuiltInAgglomerative;
      bs_cluster_count := ps_cluster_count s; bs_random_seed := ps_random_seed s; bs_params := ps_params s |})
    count dims bound = Ok (SphericalKmeansTrainer t).
Proof.
  intros Hs Hc Hd. cbn in Hs. apply andb_true_iff in Hs as [Hk%N.ltb_lt Hp].
  unfold create_built_in_trainer. cbn [bs_cluster_count bs_params bs_random_seed].
  destruct (effective_cluster_count_ok (ps_cluster_count s) count bound Hk) as (k & -> & Hle). destruct (N.leb_spec count 1); [lia|].
  cbn [map_err rbind]. unfold SphericalKmeans.Trainer.new.
  assert (validate_config {| cluster_count := k; dimensions := dims; balance_constraints := None; random_seed := ps_random_seed s |} = Ok tt) as ->.
  { unfold validate_config. cbn. rewrite (proj2 (N.eqb_neq _ _)) by lia. rewrite (proj2 (N.eqb_neq _ _)) by lia. done. }
  cbn [rbind]. destruct (SphericalKmeans.validate_params _) as [[]| |]; [|done..]. cbn. by eexists.
Qed.

(** C10 Every published profile has the version it was asked for, and its trainer
    accepts the settings for every partition of two embeddings at least, of three values
    at least, whatever the bound: the cluster counts are in range, and powers of two
    where the allocation needs them. *)
Theorem published_profiles_accepted `{ShowFloat} (v : PublishedProfileVersion) profile count dims bound :
  published_indexing_profile v = Ok profile -> (2 <= count)%N -> (3 <= dims)%N ->
  version profile = v
  /\ match planning_strategy profile with
     | DirectionalPcaDivisive s =>
         exists t, create_built_in_trainer (DirectionalPcaPhase {| bp_direction := BuiltInDivisive;
             bp_cluster_count := pd_cluster_count s; bp_random_seed := pd_random_seed s; bp_params := pd_params s |})
           count dims bound = Ok (DirectionalPcaTrainer t)
     | SphericalKmeansGreedyPack s =>
         exists t, create_built_in_trainer (SphericalKmeansPhase {| bs_direction := BuiltInAgglomerative;
             bs_cluster_count := ps_cluster_count s; bs_random_seed := ps_random_seed s; bs_params := ps_params s |})
           count dims bound = Ok (SphericalKmeansTrainer t)
     end.
Proof.
  intros [Hv Hs]%published_table Hc Hd. split; [done|]. destruct (planning_strategy profile) as [s|s].
  - apply spherical_accepted; [done|done|lia].
  - by apply directional_accepted.
Qed.

(** ** Planners replay within what trainers promise

    [fits n p t]: the trainer takes [p] passes more of [n] embeddings. What a trainer
    promises the planner, round by round: *)
Class RoundSafe (T C : Type) `{StreamingClusterTrainer T C} `{!StreamingClusterClassifier C} (fits : N -> N -> T -> Prop) : Prop := {
  round_ingest n p t es : fits n (p + 1)%N t -> len es = n -> no_panic (ingest_batch es t).1;
  round_finish n p t es t1 : fits n (p + 1)%N t -> len es = n -> ingest_batch es t = (Ok tt, t1) ->
    no_panic (finish_pass t1).1 /\ forall report t2, finish_pass t1 = (Ok report, t2) -> fits n p t2;
  round_complete n p t : fits n p t ->
    no_panic (complete_training t).1
    /\ forall r t', complete_training t = (r, t') -> fits n p t';
  round_classify n p t : fits n p t -> no_panic (into_classifier t)
    /\ forall c e, into_classifier t = Ok c -> no_panic (assign c e)
}.

Lemma replay_loop_safe {T C} fits `{RoundSafe T C fits} limit n es : len es = n ->
  forall rounds t progress, fits n (N.of_nat rounds) t ->
  match replay_loop rounds limit es t progress with
  | (Ok (_, t'), _) => exists p, fits n p t'
  | (Err _, _) => True
  | (Panic, _) => False
  end.
Proof.
  intros Hn rounds. induction rounds as [|rounds IH]; intros t progress Ht; cbn [replay_loop]; [done|].
  replace (N.of_nat (S rounds)) with (N.of_nat rounds + 1)%N in Ht by lia.
  pose proof (round_ingest _ _ _ es Ht Hn) as Hi. pose proof (fun t1 => round_finish _ _ _ es t1 Ht Hn) as Hf.
  destruct (ingest_batch es t) as [[[]|e|] t1]; [|done|by cbn in Hi]. destruct (Hf t1 eq_refl) as [Hfp Hfr].
  destruct (finish_pass t1) as [[report|e|] t2]; [|done|by cbn in Hfp]. specialize (Hfr report t2 eq_refl).
  destruct (readiness report); [by apply IH|]. destruct (round_complete _ _ _ Hfr) as [Hcp Hc].
  destruct (complete_training t2) as [[[]|e|] t3]; [by exists (N.of_nat rounds); apply (Hc (Ok tt))| |by cbn in Hcp].
  specialize (Hc (Err e) t3 eq_refl). destruct (asks_replay e); [by apply IH|done].
Qed.

Lemma run_planner_safe {T C} fits `{RoundSafe T C fits} (p : PartitionPlanner T) es :
  fits (len es) (replay_pass_limit es) (pp_trainer p) -> (run_partition_planner p es).1 <> Panic.
Proof.
  intros Hf. unfold run_partition_planner. rewrite <-(N2Nat.id (replay_pass_limit es)) in Hf.
  pose proof (replay_loop_safe fits (replay_pass_limit es) (len es) es eq_refl _ (pp_trainer p) 0%nat Hf) as Hr.
  destruct (replay_loop _ _ _ _ _) as [[[report t]|e|] progress]; [|done|done]. destruct Hr as [q Hq].
  destruct (round_classify _ _ _ Hq) as [Hi Ha]. destruct (into_classifier t) as [c|e|]; [|done|done]. cbn [rbind].
  assert (no_panic (assign_batch c es)) as Hb by (apply collect_map_no_panic; intros e _; by apply Ha).
  by destruct (assign_batch c es).
Qed.

(** *** DCBC *)
Definition dcbc_fits (n p : N) (t : DcbcStreamingTrainer) : Prop :=
  DcbcCorrect.trainer_ok t /\ Dcbc.Trainer.current_pass t = [] /\ (n <= USIZE_MAX)%N
  /\ (Dcbc.Trainer.completed_passes t + p <= USIZE_MAX)%N.

#[export] Instance dcbc_round `{Sha256} : RoundSafe DcbcStreamingTrainer DcbcStreamingClassifier dcbc_fits.
Proof.
  split.
  - intros n p t es (Ht & _) _. pose proof (DcbcCorrect.ingest_batch_ok es t Ht) as Hi. cbn.
    by destruct (Dcbc.Trainer.ingest_batch es t) as [[| |] ?].
  - intros n p t es t1 (Ht & Hp & Hn & Hc) Hes Hi. cbn in Hi. pose proof (DcbcCorrect.ingest_batch_ok es t Ht) as Hok. rewrite Hi in Hok.
    destruct Hok as [Hok ->]. rewrite Hp in *. cbn [app finish_pass dcbc_trainer].
    pose proof (DcbcCorrect.finish_pass_ok _ Hok) as Hf. cbn in Hf. specialize (Hf ltac:(lia) ltac:(lia)).
    cbn. destruct (Dcbc.Trainer.finish_pass _) as [[report| |] t2]; [|done|done]. split; [done|].
    intros report' t2' [= <- <-]. destruct Hf as [_ Hd]. destruct (DcbcCorrect.pass_done_ok _ _ _ Hok Hd) as (Hok2 & Hc2 & Hp2).
    split_and!; [done|done|done|rewrite Hc2; cbn; lia].
  - intros n p t (Ht & Hp & Hn & Hc). destruct (DcbcCorrect.complete_training_ok t Ht) as (Hnp & Hok & s & Hs). cbn. split; [done|].
    intros r t' He. rewrite He in Hok, Hs. cbn in Hok, Hs. subst t'. by split_and!.
  - intros n p t (Ht & _). cbn. destruct (decide (Dcbc.Trainer.state t = TrainingComplete)) as [Hst|Hst].
    + destruct (DcbcCorrect.into_classifier_ok t Ht Hst) as (c & -> & _ & Ha). split; [done|]. intros ? e [= <-].
      specialize (Ha e). cbn. by destruct (Dcbc.Classifier.assign c e).
    + unfold Dcbc.Classifier.into_classifier. rewrite bool_decide_eq_false_2 by done. done.
Qed.

(** *** Spherical k-means *)
Section spherical.
Context `{Sha256} `{HF : WgslFloat} `{HW : Wgpu} `{HR : !WgpuRuns} (request : ExecutionBackendRequest).

Definition spherical_fits (n p : N) (t : SphericalKmeansStreamingTrainer) : Prop :=
  KmeansTrainer.trainer_ok t /\ SphericalKmeans.Trainer.current_pass t = []
  /\ sized request (SphericalKmeans.Trainer.config t) n
  /\ (SphericalKmeans.Trainer.completed_passes t + p <= USIZE_MAX)%N.

Lemma spherical_round : RoundSafe (H := spherical_trainer request) SphericalKmeansStreamingTrainer SphericalKmeansStreamingClassifier spherical_fits.
Proof using HR.
  split.
  - intros n p t es (Ht & _) _. pose proof (km_ingest_batch_ok es t Ht) as Hi. cbn.
    by destruct (SphericalKmeans.Trainer.ingest_batch es t) as [[| |] ?].
  - intros n p t es t1 (Ht & Hp & Hn & Hc) Hes Hi. cbn in Hi. pose proof (km_ingest_batch_ok es t Ht) as Hok. rewrite Hi in Hok.
    destruct Hok as [Hok ->]. rewrite Hp in *. cbn [app].
    pose proof (km_finish_pass_ok request _ Hok) as Hf. cbn in Hf. rewrite Hes in Hf. specialize (Hf Hn ltac:(lia)).
    cbn. destruct (SphericalKmeans.Trainer.finish_pass request _) as [[report| |] t2]; [|done|done]. split; [done|].
    intros report' t2' [= <- <-]. destruct Hf as [_ Hd]. destruct (km_pass_done_ok request _ _ _ Hok Hd) as (Hok2 & Hc2 & Hp2 & Hcfg).
    split_and!; [done|done|by rewrite Hcfg|rewrite Hc2; cbn; lia].
  - intros n p t (Ht & Hp & Hn & Hc). destruct (km_complete_training_ok t Ht) as (Hnp & Hok & s & Hs). cbn. split; [done|].
    intros r t' He. rewrite He in Hok, Hs. cbn in Hok, Hs. subst t'. by split_and!.
  - intros n p t (Ht & _). cbn. destruct (decide (SphericalKmeans.Trainer.state t = TrainingComplete)) as [Hst|Hst].
    + destruct (km_into_classifier_ok t Ht Hst) as (c & -> & _ & Ha). split; [done|]. intros ? e [= <-].
      specialize (Ha e). cbn. by destruct (SphericalKmeans.Classifier.assign c e).
    + unfold SphericalKmeans.Classifier.into_classifier. rewrite bool_decide_eq_false_2 by done. done.
Qed.
End spherical.

(** ** The built-in policies *)
Lemma effective_no_panic requested count bound : no_panic (effective_cluster_count requested count bound).
Proof.
  unfold effective_cluster_count. destruct (_ <=? 1)%N; [done|]. apply rbind_no_panic; [apply ok_or_no_panic|]. intros a _.
  by destruct (_ <? _)%N.
Qed.

Lemma effective_small requested count bound k : effective_cluster_count requested count bound = Ok k -> (1 <= count)%N -> (k <= count)%N.
Proof.
  intros He Hc. assert (count / 2 <= count)%N as Hh by (apply N.Div0.div_le_upper_bound; lia).
  unfold effective_cluster_count in He. revert He Hh. generalize (count / 2)%N. intros half He Hh.
  destruct (N.leb_spec count 1); [injection He as <-; lia|]. inv_ok. subst. lia.
Qed.

(** Phases whose trainers never panic; and room for an accelerated one: the embeddings
    fit a storage buffer of the device, and their rows one dispatch, if there is a device. *)
Definition calm_phase (phase : BuiltInPlanningPhase) : Prop := match phase with DirectionalPcaPhase _ => False | _ => True end.
Definition calm (planning : BuiltInPlanning) : Prop :=
  match planning with
  | BuiltInDcbc _ | BuiltInSphericalKmeans _ => True
  | BuiltInHybrid settings => calm_phase (coarse settings) /\ calm_phase (fine settings)
  | BuiltInDirectionalPca _ | BuiltInAdaptive _ => False
  end.
Definition roomy `{Wgpu} (request : ExecutionBackendRequest) (n D : N) : Prop :=
  (n <= USIZE_MAX)%N /\ (sel_resolution (resolve_execution_backend_selection request) <> WgpuResolution
    \/ ((n * D * 4 <= max_storage_buffer_binding_size)%N /\ (n <= 8 * max_compute_workgroups_per_dimension)%N)).

Lemma roomy_fits `{Wgpu} request n D m k d : roomy request n D -> (m <= n)%N -> (k <= m)%N -> (d <= D)%N ->
  device_fits request m k d.
Proof.
  intros [_ [Hres|[Hd Hn]]] Hm Hk Hdd Ha; unfold accelerates in Ha.
  - rewrite (bool_decide_eq_false_2 _ Hres), andb_false_r in Ha. done.
  - apply andb_prop in Ha as [[[Hm0 Hk0]%andb_prop _]%andb_prop _]. apply N.ltb_lt in Hm0, Hk0.
    unfold assignment_chunk_row_count. rewrite (N.max_l k 1) by lia.
    pose proof (N.Div0.mul_div_le ACCELERATED_ASSIGNMENT_TARGET_DISTANCES_PER_CHUNK k) as Hdiv.
    unfold ACCELERATED_ASSIGNMENT_TARGET_DISTANCES_PER_CHUNK in *. revert Hdiv. generalize (1048576 / k)%N. intros q Hdiv.
    unfold max_storage_buffer_binding_size, max_compute_workgroups_per_dimension in *.
    assert (forall x, (x <= n)%N -> (div_ceil_8 x <= 65535)%N) as H8.
    { intros x Hx. etrans; [apply (div_ceil_8_le x 524280); lia|]. by vm_compute. }
    set (rows := N.min (N.max q 1) (N.max m 1)). assert (rows <= n /\ (rows <= q \/ rows <= 1))%N as [Hrn Hrq] by (unfold rows; lia).
    clearbody rows. assert (rows * d <= n * D /\ k * d <= n * D)%N as [Hrd Hkd] by (split; apply N.mul_le_mono; lia).
    assert (rows * k <= 1048576 \/ rows * k <= k)%N as Hrk by (destruct Hrq; [left|right]; nia).
    split_and!; [unfold max_storage_buffer_binding_size; lia..|apply H8; lia|apply H8; lia].
Qed.

Definition direction_of (planning : BuiltInPlanning) : BuiltInPlanningDirection :=
  match planning with
  | BuiltInDcbc settings => bd_direction settings
  | BuiltInDirectionalPca settings => bp_direction settings
  | BuiltInSphericalKmeans settings => bs_direction settings
  | BuiltInHybrid settings => phase_direction (coarse settings)
  | BuiltInAdaptive settings => built_in_direction (direction settings)
  end.

Section built_in.
Context `{ShowFloat} `{Sha256} `{FloatMath} `{SymmetricEigen} `{HF : WgslFloat} `{HW : Wgpu} `{HR : !WgpuRuns} (request : ExecutionBackendRequest).
#[local] Instance built_in_runner : PartitionPlannerRunner (PartitionPlanner BuiltInStreamingClusterTrainer) :=
  partition_planner (H := built_in_trainer request).

Definition built_in_fits (n p : N) (t : BuiltInStreamingClusterTrainer) : Prop :=
  match t with
  | DcbcTrainer t => dcbc_fits n p t
  | SphericalKmeansTrainer t => spherical_fits request n p t
  | DirectionalPcaTrainer _ => False
  end.

Lemma within_trainer_inv {T A} (wrap : T -> BuiltInStreamingClusterTrainer) (r : outcome A * T) a t' :
  within_trainer wrap r = (a, t') -> exists t, r = (a, t) /\ t' = wrap t.
Proof. destruct r as [x t]. unfold within_trainer. cbn. intros [= <- <-]. by exists t. Qed.

Lemma built_in_round : RoundSafe (H := built_in_trainer request) BuiltInStreamingClusterTrainer BuiltInStreamingClusterClassifier built_in_fits.
Proof using HR.
  pose proof (spherical_round request) as Hsp. split.
  - intros n p [t|t|t] es Ht Hes; cbn in Ht; [|done|].
    + apply (round_ingest (RoundSafe := dcbc_round) n p t es Ht Hes).
    + apply (round_ingest (RoundSafe := Hsp) n p t es Ht Hes).
  - intros n p [t|t|t] es t1 Ht Hes Hi; cbn in Ht; [|done|]; cbn [built_in_trainer ingest_batch] in Hi; apply within_trainer_inv in Hi as (u & Hu & ->).
    + destruct (round_finish (RoundSafe := dcbc_round) n p t es u Ht Hes Hu) as [Hnp Hf]. split; [exact Hnp|].
      intros report t2 Hr. cbn [built_in_trainer finish_pass] in Hr. apply within_trainer_inv in Hr as (v & Hv & ->). by apply (Hf report).
    + destruct (round_finish (RoundSafe := Hsp) n p t es u Ht Hes Hu) as [Hnp Hf]. split; [exact Hnp|].
      intros report t2 Hr. cbn [built_in_trainer finish_pass] in Hr. apply within_trainer_inv in Hr as (v & Hv & ->). by apply (Hf report).
  - intros n p [t|t|t] Ht; cbn in Ht; [|done|].
    + destruct (round_complete (RoundSafe := dcbc_round) n p t Ht) as [Hnp Hf]. split; [exact Hnp|].
      intros r t' Hr. cbn [built_in_trainer complete_training] in Hr. apply within_trainer_inv in Hr as (v & Hv & ->). by apply (Hf r).
    + destruct (round_complete (RoundSafe := Hsp) n p t Ht) as [Hnp Hf]. split; [exact Hnp|].
      intros r t' Hr. cbn [built_in_trainer complete_training] in Hr. apply within_trainer_inv in Hr as (v & Hv & ->). by apply (Hf r).
  - intros n p [t|t|t] Ht; cbn in Ht; [|done|].
    + destruct (round_classify (RoundSafe := dcbc_round) n p t Ht) as [Hnp Hf]. cbn. split.
      * cbn in Hnp. by destruct (Dcbc.Classifier.into_classifier t).
      * intros c e Hc. cbn in Hf. destruct (Dcbc.Classifier.into_classifier t) as [c'| |] eqn:Ec; [|done|done]. injection Hc as <-. by apply (Hf c').
    + destruct (round_classify (RoundSafe := Hsp) n p t Ht) as [Hnp Hf]. cbn. split.
      * cbn in Hnp. by destruct (SphericalKmeans.Classifier.into_classifier t).
      * intros c e Hc. cbn in Hf. destruct (SphericalKmeans.Classifier.into_classifier t) as [c'| |] eqn:Ec; [|done|done]. injection Hc as <-. by apply (Hf c').
Qed.

Lemma validate_config_no_panic config : no_panic (validate_config config).
Proof. unfold validate_config, validate_constraints. np. Qed.
#[local] Hint Resolve validate_config_no_panic : no_panic.

Lemma create_no_panic phase count dims bound : no_panic (create_built_in_trainer phase count dims bound).
Proof.
  assert (forall requested (k : N -> indexed BuiltInStreamingClusterTrainer), (forall c, no_panic (k c)) ->
    no_panic (rbind (map_err map_clustering_configuration_error (effective_cluster_count requested count bound)) k)) as Hk.
  { intros requested k Hk. apply rbind_no_panic; [apply no_panic_map_err, effective_no_panic|]. intros c _. apply Hk. }
  assert (forall {A B} (f : A -> B) (r : outcome A), no_panic r -> no_panic (rmap f (map_err map_clustering_error r))) as Hm by (by intros A B f [| |]).
  destruct phase; cbn [create_built_in_trainer].
  - apply Hk. intros c. apply Hm. unfold Dcbc.Trainer.new, reject_unsupported_balance_constraints. np.
  - apply rbind_no_panic.
    + apply no_panic_map_err. unfold effective_directional_pca_cluster_count. apply rbind_no_panic; [apply effective_no_panic|].
      intros k _. by destruct (_ || _).
    + intros c _. apply Hm. unfold DirectionalPca.Trainer.new, DpcaPlan.validate_params, DpcaPlan.reject_balance_constraints. np.
  - apply Hk. intros c. apply Hm.
    unfold SphericalKmeans.Trainer.new, SphericalKmeans.validate_params, SphericalKmeans.reject_balance_constraints. np.
Qed.

Lemma replay_limit es : (replay_pass_limit es <= USIZE_MAX)%N.
Proof. unfold replay_pass_limit, saturating_add. pose proof (eq_refl USIZE_MAX) as _. unfold USIZE_MAX. lia. Qed.

Lemma calm_fits phase es bound t n D : calm_phase phase -> within n D es -> roomy request (N.of_nat n) (N.of_nat D) ->
  create_built_in_trainer phase (len es) (first_len es) bound = Ok t -> built_in_fits (len es) (replay_pass_limit es) t.
Proof.
  intros Hcalm [Hlen Hdims] [Hu Hroom] Ht. pose proof (replay_limit es) as Hlimit.
  assert (2 <= len es <= N.of_nat n)%N as Hl by (unfold len; lia).
  assert (first_len es <= N.of_nat D)%N as Hfirst.
  { unfold first_len, len. destruct es as [|e es]; cbn; [lia|]. apply Forall_cons in Hdims as [He _]. lia. }
  destruct phase as [s|s|s]; cbn [create_built_in_trainer] in Ht; [|done|]; apply rbind_ok in Ht as (k & Hk & Ht).
  - destruct (Dcbc.Trainer.new _) as [t0|e|] eqn:Hn; [|done|done]. injection Ht as <-.
    destruct (DcbcCorrect.new_ok _ _ Hn) as (Hok & Hc & Hp & _). cbn. split_and!; [done|done|lia|rewrite Hc; lia].
  - destruct (SphericalKmeans.Trainer.new _ _) as [t0|e|] eqn:Hn; [|done|done]. injection Ht as <-.
    destruct (km_new_ok _ _ _ Hn) as (Hok & Hc & Hp & Hcfg). cbn. split_and!; [done|done| |rewrite Hc; lia].
    rewrite Hcfg. unfold sized. cbn [cluster_count dimensions].
    assert (k <= len es)%N as Hkl.
    { destruct (effective_cluster_count _ _ _) as [k'|e|] eqn:Ek; [|done|done]. injection Hk as <-. eapply effective_small; [exact Ek|lia]. }
    apply (roomy_fits request (N.of_nat n) (N.of_nat D)); [by split|apply Hl|done|done].
Qed.

(** The planner of a calm phase, in room for it, runs without a panic. *)
Lemma phase_planner_safe Pn n D bound stage phase es : within n D es ->
  Pn \/ (calm_phase phase /\ roomy request (N.of_nat n) (N.of_nat D)) ->
  may Pn (fun p => (run_planner p es).1 = Panic -> Pn) (phase_planner bound stage phase es).
Proof using HR.
  intros Hw [HP|[Hc Hr]]; unfold phase_planner.
  - destruct (create_built_in_trainer _ _ _ _); cbn; [by intros _|done|exact HP].
  -
    pose proof (create_no_panic phase (len es) (first_len es) (N.of_nat bound)) as Hnp.
    pose proof (fun t => calm_fits phase es (N.of_nat bound) t n D Hc Hw Hr) as Hf.
    destruct (create_built_in_trainer _ _ _ _) as [t|e|]; cbn; [|done|done]. intros Hp. exfalso. revert Hp.
    apply (run_planner_safe (H := built_in_trainer request) built_in_fits (H0 := built_in_round)). by apply Hf.
Qed.

(** A plan that passes the validation, of the shape its direction gives *)
Definition well_planned (direction : BuiltInPlanningDirection) (n bound : nat) (h : FinalizedPartitionHierarchy) : Prop :=
  validate_partition_hierarchy h n = Ok tt
  /\ match direction with
     | BuiltInDivisive => Forall (fits bound) (partitions h)
     | BuiltInAgglomerative => Forall (gathered (fun items => length items = 1%nat) (le 2)) (partitions h)
     end.

Definition yields {B E} (direction : BuiltInPlanningDirection) (Pn : Prop) (n bound : nat)
  (o : result E PlanningPassOutcome * Deriving B) : Prop :=
  (o.1 = Panic -> Pn) /\ forall outcome, o.1 = Ok outcome -> well_planned direction n bound (hierarchy outcome).

Lemma divisive_yields {B E} (from : StreamingClusteringError -> E) Pn (Inv : B -> Prop) D builder embeddings bound cap b :
  embeddings <> [] -> Forall (fun e => length e <= D)%nat embeddings -> Inv b ->
  builder_safe Pn (length embeddings) D Inv (fun es => es) builder ->
  yields BuiltInDivisive Pn (length embeddings) bound
    (derive_hierarchy_with_builder_and_fallback_group_cap from builder embeddings bound cap b).
Proof.
  intros Hne HD Hb Hs. destruct (derive_hierarchy_with_builder_and_fallback_group_cap _ _ _ _ _ _) as [r d] eqn:Hd.
  destruct (divisive_plan_ok _ _ _ D _ _ _ _ _ _ _ Hs Hb Hne HD Hd) as [Hp Ho]. split; [done|].
  intros o He. by destruct (Ho o He) as (_ & ? & ? & _).
Qed.

Lemma agglomerative_yields {B E} (from : StreamingClusteringError -> E) Pn (Inv : B -> Prop) D builder embeddings bound b :
  embeddings <> [] -> Forall (fun e => length e <= D)%nat embeddings -> Inv b ->
  builder_safe Pn (length embeddings) D Inv (fun x => x.1.1) (fun x => builder x.1.1 x.1.2 x.2) ->
  yields BuiltInAgglomerative Pn (length embeddings) bound
    (derive_hierarchy_agglomeratively_with_builder from builder embeddings bound b).
Proof.
  intros Hne HD Hb Hs. destruct (derive_hierarchy_agglomeratively_with_builder _ _ _ _ _) as [r d] eqn:Hd.
  destruct (agglomerative_plan_ok _ _ _ D _ _ _ _ _ _ Hs Hb Hne HD Hd) as [Hp Ho]. split; [done|].
  intros o He. by destruct (Ho o He) as (_ & ? & ?).
Qed.

(** A builder of calm planners, or one of which nothing is asked *)
Lemma stateless_safe {A} Pn n D (data : A -> list (list f32)) (f : A -> indexed (PartitionPlanner BuiltInStreamingClusterTrainer)) :
  (forall x, within n D (data x) -> may Pn (fun p => (run_planner p (data x)).1 = Panic -> Pn) (f x)) ->
  builder_safe Pn n D (fun _ => True) data (stateless f).
Proof. intros Hf x b Hx _. specialize (Hf x Hx). unfold stateless. by destruct (f x). Qed.

Lemma single_phase_yields Pn D phase embeddings bound cap :
  embeddings <> [] -> Forall (fun e => length e <= D)%nat embeddings ->
  Pn \/ (calm_phase phase /\ roomy request (len embeddings) (N.of_nat D)) ->
  let '(r, _) := derive_hierarchy_for_single_built_in_phase_with_fallback_group_cap request phase embeddings bound cap in
  (r = Panic -> Pn) /\ forall o, r = Ok o -> well_planned (phase_direction phase) (length embeddings) bound (hierarchy o).
Proof using HR.
  intros Hne HD Hc. unfold derive_hierarchy_for_single_built_in_phase_with_fallback_group_cap.
  match goal with |- let '(_, _) := (let '(_, _) := ?m in _) in _ => assert (yields (phase_direction phase) Pn (length embeddings) bound m) as Hy end.
  { destruct (phase_direction phase).
    - apply (divisive_yields _ _ (fun _ => True) D); [done|done|done|]. apply stateless_safe. intros es Hw. by apply (phase_planner_safe _ (length embeddings) D).
    - apply (agglomerative_yields _ _ (fun _ => True) D (fun layer _ _ => stateless (phase_planner bound Single phase) layer)); [done|done|done|].
      apply (stateless_safe Pn _ D (fun x => x.1.1) (fun x => phase_planner bound Single phase x.1.1)). intros x Hw. by apply (phase_planner_safe _ (length embeddings) D). }
  match type of Hy with yields _ _ _ _ ?m => destruct m as [r d] end. exact Hy.
Qed.

Lemma hybrid_yields Pn D settings embeddings bound :
  embeddings <> [] -> Forall (fun e => length e <= D)%nat embeddings ->
  Pn \/ ((calm_phase (coarse settings) /\ calm_phase (fine settings)) /\ roomy request (len embeddings) (N.of_nat D)) ->
  let '(r, _) := derive_hierarchy_for_hybrid request settings embeddings bound in
  (r = Panic -> Pn) /\ forall o, r = Ok o -> well_planned (phase_direction (coarse settings)) (length embeddings) bound (hierarchy o).
Proof using HR.
  intros Hne HD Hc. unfold derive_hierarchy_for_hybrid. destruct (fine_partition_max_items settings <? 2)%nat; [done|].
  unfold hybrid_direction. destruct (bool_decide _); [|done].
  assert (forall count es, within (length embeddings) D es ->
    may Pn (fun p => (run_planner p es).1 = Panic -> Pn) (hybrid_planner settings bound count es)) as Hp.
  { intros count es Hw. unfold hybrid_planner, select_hybrid_phase. destruct (count <=? _)%nat; apply (phase_planner_safe _ (length embeddings) D); try done;
      destruct Hc as [|[[? ?] ?]]; auto. }
  match goal with |- let '(_, _) := (let '(_, _) := ?m in _) in _ => assert (yields (phase_direction (coarse settings)) Pn (length embeddings) bound m) as Hy end.
  { destruct (phase_direction (coarse settings)).
    - apply (divisive_yields _ _ (fun _ => True) D); [done|done|done|]. apply stateless_safe. intros es Hw. by apply Hp.
    - apply (agglomerative_yields _ _ (fun _ => True) D (fun layer _ max_unit_item_count => stateless (hybrid_planner settings bound max_unit_item_count) layer)); [done|done|done|].
      apply (stateless_safe Pn _ D (fun x => x.1.1) (fun x => hybrid_planner settings bound x.2 x.1.1)). intros x Hw. by apply Hp. }
  match type of Hy with yields _ _ _ _ ?m => destruct m as [r d] end. exact Hy.
Qed.

Lemma adaptive_yields D settings embeddings bound :
  embeddings <> [] -> Forall (fun e => length e <= D)%nat embeddings ->
  forall o records, (derive_hierarchy_for_adaptive_built_in request settings embeddings bound).1 = Ok (o, records) ->
  well_planned (built_in_direction (direction settings)) (length embeddings) bound (hierarchy o).
Proof.
  intros Hne HD o records. unfold derive_hierarchy_for_adaptive_built_in.
  destruct (map_err _ (AdaptivePlanningSelector_new settings)) as [selector|e|]; [|done|done].
  match goal with |- (let '(_, _) := ?m in _).1 = _ -> _ => assert (yields (built_in_direction (direction settings)) True (length embeddings) bound m) as Hy end.
  { destruct (direction settings).
    - apply (divisive_yields _ _ (fun _ => True) D); [done|done|done|]. apply any_builder.
    - apply (agglomerative_yields _ _ (fun _ => True) D (fun layer represented _ => adaptive_planner settings bound represented layer)); [done|done|done|].
      apply any_builder. }
  match type of Hy with yields _ _ _ _ ?m => destruct m as [r d] end. destruct Hy as [_ Hy]. cbn [fst] in *.
  destruct r as [o'|e|]; [|done|done]. intros [= <- _]. by apply Hy.
Qed.
End built_in.

(** Whatever the trainers answer, the plan of a built-in policy passes the validation:
    divided from the root, with terminal partitions within the bound and the others
    divided in two at least, or joined from the items, two at least at a time. With
    DCBC, spherical k-means or a hybrid of these, and room on the device where one is
    used, planning never panics. *)
Lemma built_in_plan_ok `{ShowFloat} `{Sha256} `{FloatMath} `{SymmetricEigen} `{HF : WgslFloat} `{HW : Wgpu}
  `{HR : !WgpuRuns} request planning embeddings bound D :
  embeddings <> [] -> Forall (fun e => length e <= D)%nat embeddings ->
  let r := (derive_hierarchy_from_built_in request planning embeddings bound).1 in
  (calm planning -> roomy request (len embeddings) (N.of_nat D) -> r <> Panic)
  /\ forall outcome records, r = Ok (outcome, records) ->
       well_planned (direction_of planning) (length embeddings) bound (hierarchy outcome).
Proof.
  intros Hne HD r. subst r.
  assert (forall phase Pn, Pn \/ (calm_phase phase /\ roomy request (len embeddings) (N.of_nat D)) ->
    let r := (let '(r, e) := derive_hierarchy_for_single_built_in_phase request phase embeddings bound in
              (rmap (fun outcome : PlanningPassOutcome => (outcome, [] : list AdaptiveSwitchDecisionRecord)) r, e)).1 in
    (r = Panic -> Pn) /\ forall outcome records, r = Ok (outcome, records) ->
      well_planned (phase_direction phase) (length embeddings) bound (hierarchy outcome)) as Hsingle.
  { intros phase Pn HP. unfold derive_hierarchy_for_single_built_in_phase.
    pose proof (single_phase_yields request Pn D phase embeddings bound None Hne HD HP) as Hy.
    destruct (derive_hierarchy_for_single_built_in_phase_with_fallback_group_cap _ _ _ _ _) as [[o|e|] ev]; cbn in *; [|done|split; [by intros _; apply Hy|done]].
    split; [done|]. intros o' rec [= <- <-]. by apply Hy. }
  assert (forall s Pn, Pn \/ ((calm_phase (coarse s) /\ calm_phase (fine s)) /\ roomy request (len embeddings) (N.of_nat D)) ->
    let r := (let '(r, e) := derive_hierarchy_for_hybrid request s embeddings bound in
              (rmap (fun outcome : PlanningPassOutcome => (outcome, [] : list AdaptiveSwitchDecisionRecord)) r, e)).1 in
    (r = Panic -> Pn) /\ forall outcome records, r = Ok (outcome, records) ->
      well_planned (phase_direction (coarse s)) (length embeddings) bound (hierarchy outcome)) as Hhybrid.
  { intros s Pn HP. pose proof (hybrid_yields request Pn D s embeddings bound Hne HD HP) as Hy.
    destruct (derive_hierarchy_for_hybrid _ _ _ _) as [[o|e|] ev]; cbn in *; [|done|split; [by intros _; apply Hy|done]].
    split; [done|]. intros o' rec [= <- <-]. by apply Hy. }
  destruct planning as [s|s|s|s|s]; cbn [derive_hierarchy_from_built_in calm direction_of].
  1,2,3: split; [intros Hc Hr; refine (proj1 (Hsingle _ False _)); right; by split|intros o rec; refine (proj2 (Hsingle _ True _) o rec); by left].
  - split; [intros Hc Hr; refine (proj1 (Hhybrid s False _)); right; by split|intros o rec; refine (proj2 (Hhybrid s True _) o rec); by left].
  - split; [done|]. intros o rec. by apply (adaptive_yields request D).
Qed.

(** ** Packing the clusters of a published profile *)
Definition active (slots : list (option nat)) : list nat := omap (fun slot => slot) slots.

Lemma active_take slots seed rest : take_first_active_profile_node slots = Some (seed, rest) -> active slots = seed :: active rest.
Proof.
  revert seed rest. induction slots as [|[c|] slots IH]; intros seed rest; cbn [take_first_active_profile_node]; [done| |].
  - by intros [= <- <-].
  - destruct (take_first_active_profile_node slots) as [[s r]|]; [|done]. intros [= <- <-]. change (active slots = s :: active r). by apply IH.
Qed.

Lemma active_insert slots o c : slots !! o = Some (Some c) -> active slots ≡ₚ c :: active (<[o := None]> slots).
Proof.
  revert o. induction slots as [|s slots IH]; intros [|o] Ho; [done|done| |].
  - injection Ho as ->. done.
  - change (active (s :: slots) ≡ₚ c :: active (s :: <[o := None]> slots)). specialize (IH o Ho). destruct s as [x|]; cbn.
    + fold (active slots) (active (<[o := None]> slots)). rewrite IH. apply perm_swap.
    + exact IH.
Qed.

Lemma active_in slots c : c ∈ active slots <-> Some c ∈ slots.
Proof. unfold active. rewrite list_elem_of_omap. split; [intros (s & Hs & ->); done|intros Hs; by exists (Some c)]. Qed.

Section packing.
Context (nodes : list AgglomerativeHierarchyNode).
Notation in_range slots := (Forall (fun i => (i < length nodes)%nat) (active slots)).

Lemma node_representative_no_panic i : (i < length nodes)%nat -> no_panic (node_representative nodes i).
Proof.
  intros Hi. unfold node_representative. destruct (node_at_ok (E := string) nodes i Hi) as (node & -> & _). cbn.
  by destruct (representative_embedding node).
Qed.

Lemma representative_distance_no_panic a b m : no_panic (representative_distance a b m).
Proof. unfold representative_distance. destruct (_ =? _)%nat; [|done]. by destruct m. Qed.

(** The best extension is a slot that is still taken. *)
Lemma best_extension_ok slots seed metric : in_range slots ->
  returns (fun best => match best with Some (o, c) => slots !! o = Some (Some c) | None => True end)
    (best_profile_group_extension nodes slots seed metric).
Proof.
  intros Hr. unfold best_profile_group_extension.
  apply (returns_bind (fun best : option (nat * f64 * nat) => match best with Some (o, _, c) => slots !! o = Some (Some c) | None => True end)).
  - apply returns_loop; [done|]. intros [o [c|]] best Hin Hb; [|done]. rewrite imap_pair_zip in Hin.
    assert (slots !! o = Some (Some c)) as Ho.
    { apply list_elem_of_lookup in Hin as [k Hk]. apply lookup_zip_Some in Hk as [H1 H2]. apply lookup_seq in H1 as [-> _]. done. }
    assert (c < length nodes)%nat as Hc.
    { rewrite Forall_forall in Hr. apply Hr, active_in. by eapply list_elem_of_lookup_2. }
    cbn [consider_candidate]. apply (returns_bind (fun _ => True)); [apply returns_ok; [by apply node_representative_no_panic|done]|].
    intros e _. apply (returns_bind (fun _ => True)); [apply returns_ok; [apply representative_distance_no_panic|done]|]. intros d _.
    destruct best as [[[o' d'] c']|]; [|done]. by destruct (then_with _ _).
  - intros [[[o d] c]|] Hb; done.
Qed.

Lemma extend_group_ok missing seed metric : forall slots group, in_range slots ->
  returns (fun r => active r.1 ++ r.2 ≡ₚ active slots ++ group /\ length r.2 = (length group + missing)%nat)
    (extend_group nodes missing seed metric slots group).
Proof.
  induction missing as [|missing IH]; intros slots group Hr; cbn [extend_group]; [cbn; split; [done|lia]|].
  eapply returns_bind; [by apply best_extension_ok|]. cbn beta. intros [[o c]|] Ho; [|done]. cbn [ok_or rbind].
  pose proof (active_insert _ _ _ Ho) as HP. eapply returns_weaken; [apply (IH (<[o := None]> slots) (group ++ [c]))|].
  - rewrite HP in Hr. by apply Forall_cons in Hr as [_ Hr].
  - intros [slots' group'] [Hp Hl]. cbn [fst snd] in *. rewrite length_app in Hl. cbn in Hl. split; [|lia].
    rewrite Hp, HP, app_assoc. cbn. rewrite <-Permutation_cons_append. done.
Qed.

(** The slots and the groups made of them *)
Lemma pack_groups_ok metric sizes : forall slots groups, in_range slots -> Forall (fun s => 1 <= s)%nat sizes ->
  returns (fun r => exists made, r.2 = groups ++ made /\ map length made = sizes /\ active r.1 ++ concat made ≡ₚ active slots)
    (try_fold (pack_group nodes metric) (slots, groups) sizes).
Proof.
  induction sizes as [|size sizes IH]; intros slots groups Hr Hs; cbn [try_fold].
  - exists []. cbn. by rewrite !app_nil_r.
  - apply Forall_cons in Hs as [Hs1 Hs2].
    apply (returns_bind (fun r : list (option nat) * list (list nat) => exists g, r.2 = groups ++ [g] /\ length g = size
      /\ active r.1 ++ g ≡ₚ active slots)).
    + cbn [pack_group]. destruct (take_first_active_profile_node slots) as [[seed rest]|] eqn:Et; [|done]. cbn [ok_or rbind].
      apply active_take in Et. rewrite Et in Hr. apply Forall_cons in Hr as [Hseed Hr].
      apply (returns_bind (fun _ => True)); [apply returns_ok; [by apply node_representative_no_panic|done]|]. intros e _.
      eapply returns_bind; [by apply (extend_group_ok (size - 1) e metric rest [seed])|]. cbn beta. intros [slots' group] [Hp Hl].
      cbn in *. exists group. split_and!; [done|lia|]. rewrite Hp, Et. by rewrite <-Permutation_cons_append.
    + intros [slots' groups'] (g & Hg & Hl & HP). cbn [fst snd] in *. subst groups'. eapply returns_weaken; [apply IH|].
      * rewrite <-HP in Hr. by apply Forall_app in Hr as [Hr _].
      * done.
      * intros [slots2 groups2] (made & Hm & Hlm & HP2). cbn [fst snd] in *. exists (g :: made). split_and!.
        -- by rewrite Hm, <-app_assoc.
        -- cbn. by rewrite Hl, Hlm.
        -- cbn. rewrite <-HP, <-HP2, <-app_assoc. apply Permutation_app_head, Permutation_app_comm.
Qed.
End packing.

(** The groups of a layer: all its nodes, in groups of two at least, fewer than before *)
Definition packed (layer : list nat) (bound : nat) (groups : list (list nat)) : Prop :=
  concat groups ≡ₚ layer /\ (1 <= length groups < length layer)%nat /\ Forall (fun g => 2 <= length g <= bound)%nat groups.

Lemma lengths_concat (gs hs : list (list nat)) : map length gs = map length hs -> length (concat gs) = length (concat hs).
Proof. intros He. rewrite !length_concat. by rewrite He. Qed.

Lemma greedy_ok nodes layer bound metric : Forall (fun i => (i < length nodes)%nat) layer -> (2 <= length layer)%nat ->
  returns (packed layer bound) (greedy_pack_node_groups nodes layer bound metric).
Proof.
  intros Hr H2. unfold greedy_pack_node_groups.
  destruct (balanced_groups (length layer) bound) as [gs|e|] eqn:Eg; [|done|by pose proof (balanced_groups_no_panic (length layer) bound) as Hn; rewrite Eg in Hn].
  destruct (balanced_dividing _ _ _ H2 Eg) as (Hd & _ & Hc & Hs). cbn [rbind]. cbv zeta.
  assert (active (sort_by (compare_slots nodes) (map Some layer)) ≡ₚ layer) as Ha.
  { unfold active. rewrite sort_by_Permutation. clear. induction layer as [|x l IH]; [done|]. cbn. by f_equiv. }
  eapply returns_bind; [apply (pack_groups_ok nodes metric)|].
  - by rewrite Ha.
  - apply Forall_map. eapply Forall_impl; [exact Hs|]. cbn. intros. lia.
  - cbn beta. intros [slots made] (ms & Hms & Hm & HP). cbn [fst snd app returns] in *. subst made. rewrite Ha in HP.
    assert (length (concat ms) = length layer) as Hl.
    { rewrite (lengths_concat _ _ Hm). rewrite (Permutation_length (dv_perm _ _ Hd)). apply length_seq. }
    pose proof (Permutation_length HP) as Hpl. rewrite length_app in Hpl.
    destruct (active slots); [|cbn in Hpl; lia]. cbn in HP. split_and!; [done| | |].
    + rewrite <-(length_map length ms), Hm, length_map. lia.
    + rewrite <-(length_map length ms), Hm, length_map. lia.
    + assert (Forall (fun s => 2 <= s <= bound)%nat (map length ms)) as Hf by (rewrite Hm; by apply Forall_map).
      by apply Forall_map in Hf.
Qed.

(** *** Layers *)
Section pack_layers.
Context (bound n D : nat).
Notation L := (fun items : list nat => (1 <= length items <= bound)%nat).
Notation W := (fun k => 2 <= k <= bound)%nat.
Notation layer_ok := (layer_ok L W n D).

Lemma pack_node_ok ns nodes next groups g : appended L W D ns nodes next groups ->
  Forall (fun i => (i < length ns)%nat) g -> (2 <= length g <= bound)%nat -> NoDup (layer_items ns g) ->
  (forall i, i ∈ g -> items_of ns i <> []) ->
  returns (fun r => appended L W D ns r.1 r.2 (groups ++ [g])) (pack_node (nodes, next) g).
Proof.
  intros Ha Hg HW Hnd Hsome. unfold pack_node. pose proof (appended_length _ _ _ _ _ _ _ Ha) as Hle.
  assert (Forall (fun i => (i < length nodes)%nat) g) as Hg' by (eapply Forall_impl; [exact Hg|]; cbn; intros; lia).
  destruct (nodes_at_ok (E := string) nodes g Hg') as (cs & Hcs & Hit). rewrite Hcs. cbn [rbind]. cbv zeta.
  assert (Forall (slim D) cs) as Hslim.
  { apply Forall_forall. intros c Hc. pose proof (ap_slim _ _ _ _ _ _ _ Ha) as Hs. rewrite Forall_forall in Hs. apply Hs.
    apply list_elem_of_In in Hc. clear -Hc Hcs. revert cs Hcs Hc. induction g as [|i g IH]; intros cs Hcs Hc; cbn in Hcs; [by injection Hcs as <-|].
    inv_ok. subst cs. destruct Hc as [<-|Hc]; [|by eapply IH]. unfold node_at in *. destruct (nodes !! i) eqn:Ei; [|done].
    simplify_eq/=. by eapply list_elem_of_lookup_2. }
  eapply returns_bind; [apply (returns_collect (fun _ p => length p.1 <= D)%nat)|].
  - intros c Hc. rewrite Forall_forall in Hslim. specialize (Hslim c Hc). unfold slim in Hslim. by destruct (representative_embedding c).
  - cbn beta. intros weighted Hw. eapply returns_bind.
    { eapply (returns_weaken (fun v => length v <= D)%nat); [|intros v Hv; exact Hv].
      pose proof (weighted_mean_length D weighted) as Hm. unfold error_text_of. 
      destruct (weighted_mean_f32_embeddings weighted); [|done|]; cbn in *; apply Hm; clear -Hw; by induction Hw; constructor. }
    cbn beta. intros representative Hrep. cbn [returns fst snd]. rewrite Hit.
    assert (map (items_of nodes) g = map (items_of ns) g) as Hin.
    { apply map_ext_in. intros i Hi. apply (appended_items _ _ _ _ _ _ _ _ Ha). rewrite Forall_forall in Hg. by apply Hg, list_elem_of_In. }
    rewrite Hin. apply (appended_snoc L W D ns nodes); try done; [apply (ap_slim _ _ _ _ _ _ _ Ha)|]. destruct g; [cbn in HW; lia|done].
Qed.

Lemma pack_nodes_ok nodes layer groups : layer_ok nodes layer -> packed layer bound groups ->
  returns (fun r => layer_ok r.1 r.2 /\ length r.2 = length groups) (try_fold pack_node (nodes, []) groups).
Proof.
  intros Hl (Hp & _ & HW). eapply returns_weaken; [apply (returns_fold (fun k (r : list AgglomerativeHierarchyNode * list nat) =>
      appended L W D (bare nodes) r.1 r.2 (take k groups)) _ _ 0%nat)|].
  - by apply (appended_nil L W n D nodes layer).
  - intros k g [nodes' next] Hg Ha. cbn [fst snd Nat.add] in *. assert (g ∈ groups) as Hgin by (by eapply list_elem_of_lookup_2).
    destruct (layer_groups_ok _ _ _ _ _ _ _ g Hl Hp Hgin) as (Hr & Hnd & Hsome). rewrite (take_S_r _ _ _ Hg).
    apply pack_node_ok; [done|by rewrite bare_length| |done|done]. rewrite Forall_forall in HW. by apply HW.
  - intros [nodes' next] Ha. cbn [fst snd] in *. rewrite Nat.add_0_l, firstn_all in Ha. by apply (appended_done _ _ n _ nodes layer).
Qed.

(** The layers end with one node, within as many rounds as there are nodes. *)
Lemma pack_layers_ok metric fuel : forall nodes layer, layer_ok nodes layer -> (1 <= length layer <= S fuel)%nat ->
  returns (fun r => layer_ok r.1 r.2 /\ length r.2 = 1%nat) (pack_layers fuel bound metric nodes layer).
Proof.
  induction fuel as [|fuel IH]; intros nodes layer Hl Hf; cbn [pack_layers];
    destruct (Nat.leb_spec (length layer) 1) as [Hle|Hgt]; try (cbn; split; [done|lia]); [lia|].
  eapply returns_bind; [apply greedy_ok; [apply (lo_range _ _ _ _ _ _ Hl)|lia]|]. intros groups Hp. pose proof Hp as (_ & Hc & _).
  eapply returns_bind; [by apply (pack_nodes_ok nodes layer)|]. cbn beta. intros [nodes' next] [Hl' Hlen]. cbn [fst snd] in *. apply IH; [done|lia].
Qed.

(** Leaves with all the items are a layer. *)
Lemma leaves_ok nodes : Forall (fun node => child_node_indices node = [] /\ StronglySorted lt (node_items node)
    /\ (1 <= length (node_items node) <= bound)%nat) nodes ->
  concat (map node_items nodes) ≡ₚ seq 0 n -> Forall (slim D) nodes -> layer_ok nodes (seq 0 (length nodes)).
Proof.
  intros Hf Hi Hs. split; [| | |done].
  - intros i node Hn. unfold bare in Hn. rewrite list_lookup_fmap in Hn. destruct (nodes !! i) as [x|] eqn:Ex; [|done]. injection Hn as <-.
    destruct (proj1 (Forall_lookup _ _) Hf i x Ex) as (Hc & Hso & Hl). cbn. rewrite Hc. split_and!; [|done|constructor|done|done].
    intros He. rewrite He in Hl. cbn in Hl. lia.
  - apply Forall_forall. intros x Hx%elem_of_seq. lia.
  - rewrite <-Hi. unfold layer_items.
    assert (map (items_of (bare nodes)) (seq 0 (length nodes)) = map node_items nodes) as ->; [|done].
    apply list_eq. intros i. rewrite !list_lookup_fmap.
    destruct (decide (i < length nodes)%nat) as [Hlt|Hge].
    + rewrite lookup_seq_lt by done. cbn. rewrite items_of_bare. unfold items_of. apply lookup_lt_is_Some in Hlt as [x ->]. done.
    + rewrite lookup_seq_ge by lia. cbn. by rewrite (proj2 (lookup_ge_None nodes i)) by lia.
Qed.
End pack_layers.

(** *** The terminal partitions *)
Lemma dense_concat_map {A B} (f : A -> list B) (g : A -> list B) l : Forall (fun x => f x ≡ₚ g x) l ->
  concat (map f l) ≡ₚ concat (map g l).
Proof. induction 1 as [|x l Hx _ IH]; [done|]. cbn. by rewrite Hx, IH. Qed.

Lemma terminal_groups_ok assignments bound : (bound < length assignments)%nat ->
  returns (fun gs => concat gs ≡ₚ seq 0 (length assignments)
      /\ Forall (fun g => StronglySorted lt g /\ 1 <= length g <= bound)%nat gs)
    (build_profile_terminal_groups assignments bound).
Proof.
  intros Hb. unfold build_profile_terminal_groups. destruct (ordered_groups_ok (E := string) assignments) as (gs & -> & Hd & _). cbn [rbind]. cbv zeta.
  set (ordered := concat gs). pose proof (dv_perm _ _ Hd) as HP. fold ordered in HP.
  pose proof (Permutation_length HP) as Hl. rewrite length_seq in Hl. destruct ordered as [|x xs] eqn:Eo; [cbn in Hl; lia|]. rewrite <-Eo in *. clear Eo x xs.
  destruct (balanced_groups (length ordered) bound) as [ranges|e|] eqn:Eg; [|done|by pose proof (balanced_groups_no_panic (length ordered) bound) as Hn; rewrite Eg in Hn].
  assert (2 <= length ordered)%nat as H2.
  { apply balanced_groups_ok in Eg as Hdiv. destruct bound as [|b]; [|lia]. unfold balanced_groups in Eg. inv_ok. done. }
  destruct (balanced_dividing _ _ _ H2 Eg) as (Hr & _ & _ & Hs). cbn [rbind].
  assert (forall l, Forall (fun g => Forall (fun i => (i < length ordered)%nat) g) l ->
    collect_map (E := string) (fun range => rmap sort_indices (collect_map (fun i => expect (ordered !! i)) range)) l
    = Ok (map (fun g => sort_indices (pick ordered g)) l)) as ->.
  { induction 1 as [|g l Hg _ IH]; [done|]. cbn [collect_map map]. rewrite (pick_collect _ _ Hg). cbn [rmap rbind]. rewrite IH. done. }
  2: { apply Forall_forall. intros g Hg. by apply (dividing_range _ ranges). }
  assert (concat (map (pick ordered) ranges) ≡ₚ ordered) as Hpick by by apply dividing_parts.
  cbn [returns]. split.
  - rewrite <-HP, <-Hpick. apply dense_concat_map. apply Forall_forall. intros g _. apply sort_by_Permutation.
  - apply Forall_map, Forall_forall. intros g Hg. split.
    + apply sort_indices_strict. apply (NoDup_concat_in (map (pick ordered) ranges)); [|apply list_elem_of_fmap; by exists g].
      rewrite Hpick, HP. apply NoDup_seq.
    + rewrite Forall_forall in Hs. specialize (Hs g Hg). unfold sort_indices. rewrite sort_by_Permutation. unfold pick. rewrite length_map. lia.
Qed.

Lemma profile_terminal_ok D items embeddings : Forall (fun e => length e <= D)%nat embeddings ->
  returns (fun v => length v <= D)%nat (profile_terminal_node items embeddings).
Proof.
  intros HD. unfold profile_terminal_node. eapply returns_bind; [apply (returns_collect (fun _ p => length p.1 <= D)%nat)|].
  - intros i _. destruct (embeddings !! i) as [e|] eqn:Ee; [|done]. cbn. by apply (proj1 (Forall_lookup _ _) HD i).
  - cbn beta. intros weighted Hw. pose proof (weighted_mean_length D weighted) as Hm. unfold error_text_of.
    destruct (weighted_mean_f32_embeddings weighted); [|done|]; cbn in *; apply Hm; clear -Hw; by induction Hw; constructor.
Qed.

Lemma terminal_nodes_ok D embeddings groups : Forall (fun e => length e <= D)%nat embeddings ->
  returns (fun nodes => map node_items nodes = groups /\ Forall (fun node => child_node_indices node = []) nodes /\ Forall (slim D) nodes)
    (terminal_nodes embeddings groups).
Proof.
  intros HD. eapply returns_weaken; [apply (returns_collect (fun items node => node_items node = items /\ child_node_indices node = [] /\ slim D node))|].
  - intros items _. pose proof (profile_terminal_ok D items embeddings HD) as Ht. by destruct (profile_terminal_node items embeddings).
  - cbn beta. induction 1 as [|items node l ns (<- & Hc & Hs) _ (<- & IHc & IHs)]; [done|]. cbn. split_and!; [done|by constructor|by constructor].
Qed.

(** *** One pass of training *)
Section published.
Context `{ShowFloat} `{Sha256} `{FloatMath} `{SymmetricEigen} `{HF : WgslFloat} `{HW : Wgpu} `{HR : !WgpuRuns} (request : ExecutionBackendRequest).

Lemma train_once_ok Pn config params es : Pn \/ ((len es <= USIZE_MAX)%N /\ sized request config (len es)) ->
  may Pn (fun r => length r.2 = length es) (train_once request config params es).
Proof using HR.
  intros HP. unfold train_once.
  assert (no_panic (SphericalKmeans.Trainer.new config params)) as Hnew.
  { unfold SphericalKmeans.Trainer.new, SphericalKmeans.validate_params, SphericalKmeans.reject_balance_constraints, validate_config, validate_constraints. np. }
  destruct (SphericalKmeans.Trainer.new config params) as [t|e|] eqn:Hn; [|done|done]. cbn [rbind].
  destruct (km_new_ok _ _ _ Hn) as (Hok & Hc & Hp & Hcfg).
  assert (Pn \/ spherical_fits request (len es) (0 + 1) t) as Hf.
  { destruct HP as [|[Hl Hs]]; [by left|right]. split_and!; [done|done|by rewrite Hcfg|rewrite Hc; done]. }
  clear HP Hok Hc Hp Hn Hcfg. pose proof (spherical_round request) as Hsp.
  assert (Pn \/ no_panic (SphericalKmeans.Trainer.ingest_batch es t).1) as Hi
    by (destruct Hf as [|Hf]; [by left|right; by apply (round_ingest (RoundSafe := Hsp) _ _ _ _ Hf)]).
  pose proof (fun t1 Hf => round_finish (RoundSafe := Hsp) (len es) 0%N t es t1 Hf eq_refl) as Hfin. cbn in Hfin, Hi |- *.
  destruct (SphericalKmeans.Trainer.ingest_batch es t) as [[[]|e|] t1]; [|done|by destruct Hi]. cbn [rbind].
  assert (Pn \/ no_panic (SphericalKmeans.Trainer.finish_pass request t1).1) as Hi2 by (destruct Hf as [|Hf]; [by left|right; by apply Hfin]).
  assert (forall report t2, SphericalKmeans.Trainer.finish_pass request t1 = (Ok report, t2) -> Pn \/ spherical_fits request (len es) 0 t2) as Hf2.
  { intros report t2 He. destruct Hf as [|Hf]; [by left|right; by eapply (Hfin t1)]. }
  destruct (SphericalKmeans.Trainer.finish_pass request t1) as [[report|e|] t2]; [|done|by destruct Hi2]. specialize (Hf2 _ _ eq_refl). cbn [rbind].
  pose proof (fun Hf => round_complete (RoundSafe := Hsp) (len es) 0%N t2 Hf) as Hcomp. cbn in Hcomp.
  destruct (SphericalKmeans.Trainer.complete_training t2) as [[[]|e|] t3]; [|done|by destruct Hf2 as [|Hf2]; [|destruct (Hcomp Hf2)]]. cbn [rbind].
  assert (Pn \/ spherical_fits request (len es) 0 t3) as Hf3 by (destruct Hf2 as [|Hf2]; [by left|right; by apply (proj2 (Hcomp Hf2) (Ok tt))]).
  pose proof (fun Hf => round_classify (RoundSafe := Hsp) (len es) 0%N t3 Hf) as Hcl. cbn in Hcl.
  destruct (SphericalKmeans.Classifier.into_classifier t3) as [c|e|]; [|done|by destruct Hf3 as [|Hf3]; [|destruct (Hcl Hf3)]]. cbn [rbind].
  destruct (SphericalKmeans.Classifier.assign_batch c es) as [a|e|] eqn:Ea; [|done|].
  - by apply collect_map_length in Ea.
  - destruct Hf3 as [|Hf3]; [done|]. destruct (Hcl Hf3) as [_ Ha].
    assert (no_panic (SphericalKmeans.Classifier.assign_batch c es)) as Hb by (apply collect_map_no_panic; intros e _; by apply (Ha c e)).
    by rewrite Ea in Hb.
Qed.

(** Partitions of the packed profile: [bound] items at most, or two children at least and [bound] at most *)
Definition packed_plan (n bound : nat) (h : FinalizedPartitionHierarchy) : Prop :=
  validate_partition_hierarchy h n = Ok tt
  /\ Forall (gathered (fun items => 1 <= length items <= bound)%nat (fun k => 2 <= k <= bound)%nat) (partitions h).

Lemma may_map_err {E E' A} (Pn : Prop) (Q : A -> Prop) (f : E -> E') (r : result E A) : may Pn Q r -> may Pn Q (map_err f r).
Proof. by destruct r. Qed.

Lemma single_outcome_ok n bound : (0 < n)%nat -> (n <= bound)%nat -> packed_plan n bound (hierarchy (single_outcome n)).
Proof.
  intros Hn Hb. split.
  - eapply planned_validates; [done|apply (planned_leaf _ _ _ Single); [destruct n; [lia|done]|apply seq_sorted_lt]|reflexivity].
  - repeat constructor; cbn; rewrite length_seq; lia.
Qed.

Lemma roomy_sized es D k config : roomy request (len es) D -> (first_len es <= D)%N -> (k <= len es)%N ->
  cluster_count config = k -> dimensions config = first_len es -> sized request config (len es).
Proof.
  intros Hroom Hfirst Hk Hcc Hdim. unfold sized. rewrite Hcc, Hdim. by eapply roomy_fits.
Qed.

Lemma packed_profile_ok Pn D settings embeddings bound e0 :
  embeddings <> [] -> Forall (fun e => length e <= D)%nat embeddings ->
  Pn \/ roomy request (len embeddings) (N.of_nat D) ->
  post_or Pn (fun _ => True) (fun o _ => packed_plan (length embeddings) bound (hierarchy o))
    (derive_hierarchy_from_published_spherical_kmeans_profile request settings embeddings bound e0).
Proof using HR.
  intros Hne HD HP. unfold derive_hierarchy_from_published_spherical_kmeans_profile.
  assert (0 < length embeddings)%nat as Hn by (destruct embeddings; [done|cbn; lia]).
  assert (first_len embeddings <= N.of_nat D)%N as Hfirst.
  { unfold first_len, len. destruct embeddings as [|e es]; cbn; [lia|]. apply Forall_cons in HD as [He _]. lia. }
  destruct embeddings as [|v vs] eqn:Ev; [done|]. rewrite <-Ev in *. clear Ev. cbv zeta.
  destruct (Nat.leb_spec (length embeddings) bound) as [Hle|Hgt]; [by apply single_outcome_ok|].
  eapply (post_or_bind _ _ (fun _ _ => True)); [done|]. intros _ e1 _.
  apply (post_or_step _ _ (fun k => (k <= len embeddings)%N)); [done| |].
  { pose proof (effective_no_panic (ps_cluster_count settings) (len embeddings) (N.of_nat bound)) as Hnp.
    destruct (effective_cluster_count _ _ _) eqn:Ek; cbn; [|done|done]. eapply effective_small; [exact Ek|unfold len; lia]. }
  intros k Hk. apply (post_or_step _ _ (fun r => length r.2 = length embeddings)); [done| |].
  { apply may_map_err, train_once_ok. destruct HP as [|Hroom]; [by left|right]. split; [apply Hroom|]. by eapply roomy_sized. }
  intros [report assignments] Ha. cbn [snd] in Ha.
  apply (post_or_step _ _ (fun nodes => layer_ok (fun items => 1 <= length items <= bound)%nat (fun k => 2 <= k <= bound)%nat (length embeddings) D nodes (seq 0 (length nodes)) /\ (1 <= length nodes)%nat)); [done| |].
  { apply may_map_err, may_returns. rewrite <-Ha in Hgt. eapply returns_bind; [by apply terminal_groups_ok|]. intros gs [Hg Hf]. rewrite Ha in Hg.
    eapply returns_weaken; [by apply (terminal_nodes_ok D)|]. cbn beta. intros nodes (<- & Hc & Hs). split.
    - apply leaves_ok; [|done|done]. apply Forall_map in Hf. clear -Hf Hc. rewrite Forall_forall in Hf, Hc |- *. naive_solver.
    - destruct nodes; [|cbn; lia]. cbn in Hg. apply Permutation_length in Hg. rewrite length_seq in Hg. cbn in Hg. lia. }
  intros nodes [Hl Hat]. eapply (post_or_bind _ _ (fun _ _ => True)); [done|]. intros _ e2 _.
  apply (post_or_step _ _ (fun r => layer_ok (fun items => 1 <= length items <= bound)%nat (fun k => 2 <= k <= bound)%nat (length embeddings) D r.1 r.2 /\ length r.2 = 1%nat)); [done| |].
  { apply may_map_err, may_returns, pack_layers_ok; [done|]. rewrite length_seq. lia. }
  intros [nodes' layer] [Hl' Hone]. destruct (last_layer_ok (E := StreamingIndexerError) _ _ _ _ _ _ Hl' Hone Hn) as (ps & Hps & Hg & Hv).
  cbn [fst snd] in *. rewrite Hps. by split.
Qed.
End published.

(** C9 The plan of a published profile passes the validation. Packed, with room on the
    device where one is used, it never panics, and every partition has items within the
    bound, or two children at least and at most as many as the bound; divided, the
    terminal partitions are within the bound of the profile, which is at most the given
    one. *)
Theorem published_plan_valid `{ShowFloat} `{Sha256} `{FloatMath} `{SymmetricEigen} `{HF : WgslFloat} `{HW : Wgpu}
  `{HR : !WgpuRuns} request profile embeddings bound D :
  embeddings <> [] -> Forall (fun e => length e <= D)%nat embeddings ->
  let r := (derive_hierarchy_from_published_profile request profile embeddings bound).1 in
  match planning_strategy profile with
  | SphericalKmeansGreedyPack _ =>
      (roomy request (len embeddings) (N.of_nat D) -> r <> Panic)
      /\ forall outcome, r = Ok outcome -> packed_plan (length embeddings) bound (hierarchy outcome)
  | DirectionalPcaDivisive _ =>
      forall outcome, r = Ok outcome -> exists effective, (effective <= bound)%nat
        /\ published_profile_partition_bound profile bound = Ok effective
        /\ well_planned BuiltInDivisive (length embeddings) effective (hierarchy outcome)
  end.
Proof.
  intros Hne HD r. subst r. unfold derive_hierarchy_from_published_profile.
  destruct (planning_strategy profile) as [s|s] eqn:Es.
  - assert (forall Pn, Pn \/ roomy request (len embeddings) (N.of_nat D) ->
      post_or Pn (fun _ => True) (fun o _ => packed_plan (length embeddings) bound (hierarchy o))
        (derive_hierarchy_from_published_spherical_kmeans_profile request s embeddings bound [])) as Hp by (intros Pn HP; by apply (packed_profile_ok request Pn D)).
    assert (published_profile_partition_bound profile bound = Ok bound) as -> by (unfold published_profile_partition_bound; rewrite Es; by destruct (negb _)).
    destruct (derive_hierarchy_from_published_spherical_kmeans_profile _ _ _ _ _) as [[o|e|] ev]; cbn in *.
    + split; [done|]. intros o' [= <-]. apply (Hp True). by left.
    + done.
    + split; [|done]. intros Hroom _. apply (Hp False). by right.
  - destruct (published_profile_partition_bound profile bound) as [b|e|] eqn:Eb; [|done|done]. intros outcome Ho. exists b. split_and!; [|done|].
    + unfold published_profile_partition_bound in Eb. rewrite Es in Eb. destruct (negb _); [injection Eb as ->; lia|].
      apply rbind_ok in Eb as (c & _ & [= <-]). lia.
    + pose proof (single_phase_yields request True D (DirectionalPcaPhase {| bp_direction := BuiltInDivisive; bp_cluster_count := pd_cluster_count s;
        bp_random_seed := pd_random_seed s; bp_params := pd_params s |}) embeddings b (published_profile_fallback_group_cap profile b) Hne HD (or_introl I)) as Hy.
      destruct (derive_hierarchy_for_single_built_in_phase_with_fallback_group_cap _ _ _ _ _) as [x ev]. by apply Hy.
Qed.

(** C7 A pass of a run under a built-in policy: past its checks, the planner is all that
    can fail it. If the planner fails, the run is as it was; if it plans, the pass is
    completed with the report, and the run has the plan, which is valid and of the shape
    of its direction, and the records of the adaptive decisions. With DCBC, spherical
    k-means or a hybrid of these, and room on the device where one is used, it never
    panics. *)
Theorem planned_pass_completes `{ShowFloat} `{Sha256} `{FloatMath} `{SymmetricEigen} `{HF : WgslFloat} `{HW : Wgpu}
  `{HR : !WgpuRuns} `{CborCodec} request (run : StreamingIndexingRun BuiltInPlanningPolicy) bound D :
  check_pass run = Ok bound -> length (current_pass_f32_embeddings run) = items_seen_in_current_pass run ->
  Forall (fun e => length e <= D)%nat (current_pass_f32_embeddings run) ->
  let plan := derive_hierarchy_from_built_in request (planning (planning_policy run)) (current_pass_f32_embeddings run) (N.to_nat bound) in
  let '(r, run') := Indexer.finish_pass (H := built_in_policy request) run in
  match plan.1 with
  | Ok (outcome, records) =>
      (exists report, r = Ok report /\ planned_partition_count report = length (partitions (hierarchy outcome)))
      /\ well_planned (direction_of (planning (planning_policy run))) (items_seen_in_current_pass run) (N.to_nat bound) (hierarchy outcome)
      /\ finalized_hierarchy run' = Some (hierarchy outcome)
      /\ completed_passes run' = (completed_passes run + 1)%N
      /\ planning_policy run' = {| planning := planning (planning_policy run); last_adaptive_decision_records := records |}
  | Err e => r = Err e /\ run' = run
  | Panic => r = Panic /\ (calm (planning (planning_policy run)) -> ~ roomy request (N.of_nat (items_seen_in_current_pass run)) (N.of_nat D))
  end.
Proof.
  intros Hcheck Hseen HD plan. unfold Indexer.finish_pass, ibind. rewrite Hcheck.
  assert (current_pass_f32_embeddings run <> []) as Hne.
  { intros He. rewrite He in Hseen. unfold check_pass in Hcheck. destruct (negb _); [discriminate Hcheck|]. rewrite <-Hseen in Hcheck. discriminate Hcheck. }
  pose proof (built_in_plan_ok request (planning (planning_policy run)) (current_pass_f32_embeddings run) (N.to_nat bound) D Hne HD) as [Hp Hv].
  unfold len in Hp. rewrite Hseen in Hp, Hv. subst plan. unfold finish_planning_pass, built_in_policy, built_in_finish_planning_pass.
  destruct (derive_hierarchy_from_built_in _ _ _ _) as [[[outcome records]|e|] ev]; cbn [fst map_err rbind] in *.
  - destruct (Hv _ _ eq_refl) as [Hval Hshape]. rewrite Hval. cbn [map_err rbind]. destruct (validate_ok _ _ Hval) as (t & Ht).
    rewrite (hierarchy_stats_ok _ _ _ Ht). cbn. split; [by eexists|]. split; [by split|]. done.
  - by destruct run.
  - split; [done|]. intros Hc Hr. by apply (Hp Hc Hr).
Qed.
