(* ===== verification/PlanningWitness.v ===== *)
(** * Planning on concrete inputs

    Nine embeddings: a planner that sends them to two clusters in turn, through both
    derivations; a pass of a run under DCBC; the packed profile of spherical k-means, and
    one divided by directional PCA. *)
From S2P Require Import Prelude Ordering Hash Cbor Ieee CborRef Ebcp Clustering IndexTypes IndexHierarchy IndexLayer Indexer Pca PcaWitness.
From S2P Require Import LinearAlgebra LinearAlgebraCorrect DpcaPlan DpcaWitness SphericalKmeans KmeansWitness Planning PlanningCorrect Policies PoliciesCorrect.
From S2P Require Import Clustering.

Definition point (x y : Z) : list f32 := [f_of_Z binary32 x; f_of_Z binary32 y].
Definition nine_points : list (list f32) :=
  [point 1 0; point 2 0; point 3 1; point 0 1; point 0 2; point 1 3; point (-1) 0; point (-2) 0; point (-3) 1].

(** ** A planner of two clusters *)
Definition striped_report (n : nat) : PassReport :=
  {| Clustering.observed_count := N.of_nat n; requested_cluster_count := 2; readiness := PartitionReady; realized_cluster_count := Some 2%N;
     quality_metric := 0%N; balance_metric := 0%N; quality_direction := SmallerIsBetter; balance_direction := SmallerIsBetter;
     cluster_ids := None |}.
Definition striped : PartitionPlannerRunner nat := {|
  planner_stage := fun _ => Single;
  run_planner := fun k es => (Ok (striped_report (length es), map (fun i => N.of_nat (i mod k)) (seq 0 (length es))), 1%nat)
|}.

Notation divided := (derive_hierarchy_with_builder_and_fallback_group_cap (H := striped)
  StreamingClusteringError_to_string (fun _ b => (Ok 2%nat, S b)) nine_points 3 None 0%nat) (only parsing).
Notation gathered_up := (derive_hierarchy_agglomeratively_with_builder (H := striped)
  StreamingClusteringError_to_string (fun _ _ _ b => (Ok 4%nat, S b)) nine_points 3 0%nat) (only parsing).

Lemma derived_plan_valid_witness :
  (exists o, divided.1 = Ok o /\ length (partitions (hierarchy o)) = 7%nat
     /\ validate_partition_hierarchy (hierarchy o) 9 = Ok tt /\ Forall (fits 3) (partitions (hierarchy o)))
  /\ exists o, gathered_up.1 = Ok o /\ length (partitions (hierarchy o)) = 16%nat
     /\ validate_partition_hierarchy (hierarchy o) 9 = Ok tt
     /\ Forall (gathered (fun items => length items = 1%nat) (le 2)) (partitions (hierarchy o)).
Proof.
  assert (nine_points <> []) as Hne by discriminate.
  assert (Forall (fun e => length e <= 2)%nat nine_points) as HD by by repeat constructor.
  destruct (derived_plan_valid (H := striped) StreamingClusteringError_to_string 2
    (fun _ b => (Ok 2%nat, S b)) (fun _ _ _ b => (Ok 4%nat, S b)) nine_points 3 None 0%nat Hne HD) as [Hdiv Hagg].
  split.
  - assert (rmap (fun o => length (partitions (hierarchy o))) divided.1 = Ok 7%nat) as Hlen by (vm_compute; reflexivity).
    destruct (derive_hierarchy_with_builder_and_fallback_group_cap _ _ _ _ _ _) as [[o|e|] d]; [|discriminate Hlen..].
    injection Hlen as Hlen. destruct (proj2 Hdiv o eq_refl) as (Hv & Hf & _). exists o. split_and!; [reflexivity|exact Hlen|exact Hv|exact Hf].
  - assert (rmap (fun o => length (partitions (hierarchy o))) gathered_up.1 = Ok 16%nat) as Hlen by (vm_compute; reflexivity).
    destruct (derive_hierarchy_agglomeratively_with_builder _ _ _ _ _) as [[o|e|] d]; [|discriminate Hlen..].
    injection Hlen as Hlen. destruct (proj2 Hagg o eq_refl) as (Hv & Hg). exists o. split_and!; [reflexivity|exact Hlen|exact Hv|exact Hg].
Defined.

(** ** A pass under DCBC *)
#[local] Existing Instances checksum reference_codec ieee_wgsl backwards_device backwards_runs.

Definition dcbc_halves : BuiltInPlanning :=
  BuiltInDcbc {| bd_direction := BuiltInDivisive; bd_cluster_count := 2; bd_balance_constraints := None; bd_random_seed := None |}.
Definition halves_policy : BuiltInPlanningPolicy := {| planning := dcbc_halves; last_adaptive_decision_records := [] |}.
Definition halves_run : StreamingIndexingRun BuiltInPlanningPolicy :=
  set_items_seen 9 (set_embeddings nine_points
    (new_run halves_policy {| dims := 2; encoding := "f32le" |} 240)).

Notation halves_pass := (Indexer.finish_pass (H := built_in_policy CpuRequest) halves_run) (only parsing).
Notation halves_plan := (derive_hierarchy_from_built_in CpuRequest (planning (planning_policy halves_run))
  (current_pass_f32_embeddings halves_run) (N.to_nat 4)) (only parsing).

Lemma planned_pass_completes_witness :
  (exists report, halves_pass.1 = Ok report /\ planned_partition_count report = 5%nat)
  /\ exists h, finalized_hierarchy halves_pass.2 = Some h /\ well_planned BuiltInDivisive 9 4 h.
Proof.
  assert (check_pass halves_run = Ok 4%N) as Hcheck by (vm_compute; reflexivity).
  pose proof (planned_pass_completes CpuRequest halves_run 4 2 Hcheck eq_refl ltac:(repeat constructor)) as Hpass.
  assert (rmap (fun p => length (partitions (hierarchy p.1))) halves_plan.1 = Ok 5%nat) as Hlen by (vm_compute; reflexivity).
  cbv zeta in Hpass. destruct (Indexer.finish_pass halves_run) as [r run'].
  destruct (derive_hierarchy_from_built_in _ _ _ _) as [[[outcome records]|e|] ev]; [|discriminate Hlen..]. injection Hlen as Hlen.
  destruct Hpass as ((report & Hr & Hcount) & Hplan & Hh & _). split.
  - exists report. split; [exact Hr|]. rewrite Hcount. exact Hlen.
  - exists (hierarchy outcome). split; [exact Hh|exact Hplan].
Defined.

(** ** A published profile *)
Definition v0_1_0 : PublishedProfileVersion := {| major := 0; minor := 1; patch := 0 |}.
Definition packing_profile : PublishedIndexingProfile := ltac:(
  let p := eval vm_compute in (published_indexing_profile v0_1_0) in match p with Ok ?p => exact p end).

Definition v0_6_0 : PublishedProfileVersion := {| major := 0; minor := 6; patch := 0 |}.
Definition dividing_profile : PublishedIndexingProfile := ltac:(
  let p := eval vm_compute in (published_indexing_profile v0_6_0) in match p with Ok ?p => exact p end).
Notation plan_of profile := (derive_hierarchy_from_published_profile CpuRequest profile nine_points 3) (only parsing).

Lemma published_plan_valid_witness :
  (exists outcome, (plan_of packing_profile).1 = Ok outcome /\ length (partitions (hierarchy outcome)) = 4%nat
     /\ packed_plan 9 3 (hierarchy outcome))
  /\ exists outcome, (plan_of dividing_profile).1 = Ok outcome /\ length (partitions (hierarchy outcome)) = 7%nat
     /\ well_planned BuiltInDivisive 9 3 (hierarchy outcome).
Proof.
  assert (nine_points <> []) as Hne by discriminate.
  assert (Forall (fun e => length e <= 2)%nat nine_points) as HD by by repeat constructor.
  split.
  - pose proof (published_plan_valid CpuRequest packing_profile nine_points 3 2 Hne HD) as [_ Hv].
    assert (rmap (fun o => length (partitions (hierarchy o))) (plan_of packing_profile).1 = Ok 4%nat) as Hlen by (vm_compute; reflexivity).
    destruct (derive_hierarchy_from_published_profile _ _ _ _) as [[o|e|] ev]; [|discriminate Hlen..]. injection Hlen as Hlen.
    exists o. split_and!; [reflexivity|exact Hlen|]. exact (Hv o eq_refl).
  - pose proof (published_plan_valid CpuRequest dividing_profile nine_points 3 2 Hne HD) as Hv.
    assert (rmap (fun o => length (partitions (hierarchy o))) (plan_of dividing_profile).1 = Ok 7%nat) as Hlen by (vm_compute; reflexivity).
    assert (published_profile_partition_bound dividing_profile 3 = Ok 3%nat) as Hb by (vm_compute; reflexivity).
    destruct (derive_hierarchy_from_published_profile _ _ _ _) as [[o|e|] ev]; [|discriminate Hlen..]. injection Hlen as Hlen.
    destruct (Hv o eq_refl) as (b & _ & Hb' & Hw). rewrite Hb in Hb'. injection Hb' as <-. exists o. split_and!; [reflexivity|exact Hlen|exact Hw].
Defined.

Lemma published_profiles_accepted_witness :
  version packing_profile = v0_1_0
  /\ exists t, create_built_in_trainer (SphericalKmeansPhase {| bs_direction := BuiltInAgglomerative; bs_cluster_count := 157;
       bs_random_seed := Some 11%N; bs_params := {| initialization_policy := SeededDeterministicFarthestPoint;
       max_iteration_count := 32; convergence_tolerance := f32_tolerance |} |}) 9 3 3 = Ok (SphericalKmeansTrainer t).
Proof.
  assert (published_indexing_profile v0_1_0 = Ok packing_profile) as Hp by reflexivity.
  apply (published_profiles_accepted v0_1_0 packing_profile 9 3 3 Hp); by apply N.leb_le.
Defined.
